(* ===== verification/_CoqProject ===== *)
-Q . S2P
Prelude.v
Endian.v
Crc.v
CrcRev.v
CrcSpec.v
Intset.v
Util.v
Glob.v
State.v
Dict.v
DictWf.v
DictRehash.v
DictOps.v
DictSpec.v
DictMap.v
DictScan.v
Adlist.v
AdlistSpec.v
AdlistRefine.v
Listpack.v
ListpackEnc.v
ListpackOps.v
ListpackValid.v
ListpackSpec.v
SdsArgs.v
Resp.v
RespRef.v
RespChunk.v
RespSpec.v
RespSafe.v
RespRepl.v
AofCmd.v
ZslOrder.v
Zsl.v
ZslInv.v
ZslOps.v
ZslIns.v
ZslSpec.v
ZslUpdate.v
ZslLaws.v
ZslRange.v
ZslHist.v
Zset.v
ZsetSpec.v
Keyspace.v
Multi.v
Db.v
MultiInv.v
MultiTrack.v
DbOps.v
MultiAll.v
MultiCmd.v
MultiHist.v
MultiSpec.v
MultiProps.v
Cluster.v
ClusterBus.v
ClusterFail.v
ClusterFrame.v
ClusterElect.v
ClusterProps.v
ClusterSlots.v
ClusterRole.v
ClusterConfig.v
ClusterSafe.v
Repl.v
ReplInv.v
ReplFeed.v
ReplSync.v
ReplMarks.v
ReplWorld.v
ReplProps.v
Lzf.v
LzfSpec.v
Rio.v
RioSpec.v
Rdb.v
RdbSpec.v
RdbFile.v
RdbFileSpec.v
