(* ===== verification/Prelude.v ===== *)
(** * Redis 7.0.11: data structures, requests, the keyspace, transactions, replication, the cluster and RDB files

    Redis is a single threaded server: an event loop reads the bytes of its clients,
    [networking.c] cuts them into commands, [server.c] looks the commands up and runs
    them on a keyspace of values, and the replies, the append only file and the
    replication stream go out again.  The values are built from a small number of data
    structures written for the purpose.  This library models these structures, the
    conversions they rest on, the request parser, the keyspace with its expire times,
    the transactions on it, replication, the cluster bus and the RDB file, from the C sources under
    [src/redis-7.0.11/src], and proves that they do what the layers above expect.

    ** How programs are modelled

    Definitions keep the names of the C functions and are executable.  Integers are [Z]
    with the conversions to their C width written out ([wrapu], [wraps] and their
    abbreviations below); byte strings and memory blocks are lists of bytes; structures
    with pointers live in a heap, a finite map from addresses.  A function that can
    fail an assertion, follow a NULL or dangling pointer or leave an allocation has
    results in [option] or in the monad of State.v, where [None] is exactly that event:
    a theorem that a run gives [Some] result says that none of these happens.  [zmalloc]
    does not return NULL (it aborts), so branches for that case are left out.  Loops are
    structural where they can be and have fuel where they cannot; the fuel is computed
    from the data (the length of a list, the number of levels, buckets or bytes), and
    the theorems show the result, never only "if it returns".

    ** Files

    - Prelude.v: machine integers, memory areas, the [cint] automation and the lemmas
      the components share.  State.v: the state and error monad and its total
      correctness rules [wp].
    - Endian.v ([endianconv.c], [endianconv.h]): byte order conversions, for both byte
      orders of the host (class [Host]).
    - Crc.v, CrcRev.v, CrcSpec.v ([crc16.c], [crc64.c], [crcspeed.c], [keyHashSlot] of
      [cluster.c]): the table driven and slicing-by-8 checksums against the bit by bit
      definitions, and the slot of a key.
    - Util.v, Glob.v ([util.c]): printing and strict parsing of integers, memory sizes;
      glob matching against a declarative matching relation.
    - Intset.v ([intset.c]): integer sets as the bytes of their allocation, against
      finite sets; validation of untrusted payloads.
    - Dict.v ([dict.c], [dict.h]) with DictWf.v (invariant), DictRehash.v, DictOps.v,
      DictSpec.v, DictMap.v and DictScan.v: the incrementally rehashed hash table
      against a finite map, and the guarantee of [dictScan].
    - Adlist.v, AdlistSpec.v, AdlistRefine.v ([adlist.c]): linked lists against sequences.
    - Listpack.v ([listpack.c]) with ListpackEnc.v (encodings, well-formed listpacks and
      navigation), ListpackOps.v, ListpackValid.v and ListpackSpec.v: listpacks against
      lists of strings, and the deep validation of untrusted payloads.
    - SdsArgs.v ([sds.c]): quoting and splitting of argument lines.
    - Resp.v ([networking.c]) with RespRef.v (a reference parser), RespChunk.v,
      RespSpec.v, RespSafe.v and RespRepl.v: from the bytes that are read to the commands
      that are executed, for clients, I/O threads and the link to a master.  What the
      rest of the server does is the interface [Server] with its [ServerLaws].
    - AofCmd.v ([aof.c]): the encoding of a command, parsed back by the request parser.
    - ZslOrder.v (scores and elements), Zsl.v ([t_zset.c]) with ZslInv.v, ZslOps.v,
      ZslIns.v (insertion and deletion), ZslSpec.v, ZslUpdate.v (scores, ranks and
      queries), ZslLaws.v, ZslRange.v and ZslHist.v: the skiplist with its levels, spans
      and backward pointers against sorted lists.
    - Zset.v, ZsetSpec.v ([t_zset.c], [object.c], [server.c]): sorted sets as the
      dictionary and the skiplist together, on the models of both.
    - Keyspace.v ([server.h], the expire times of [db.c]), Multi.v ([multi.c]) and Db.v
      ([db.c], [expire.c], SET of [t_string.c]): databases as finite maps, the watched
      keys as a heap of [watchedKey] shared by lists, and the commands.  MultiInv.v
      (invariant of the lists, removing and marking watches), MultiTrack.v (what a client
      saw of its keys), DbOps.v and MultiAll.v (each command against a map, and what the
      watches know afterwards), MultiCmd.v, MultiHist.v and MultiSpec.v (the commands of
      transactions, EXEC, and the histories [reach] of a primary), MultiProps.v (the
      properties).
    - Cluster.v (nodes, slots and roles), ClusterBus.v (epochs, failure reports, claims of
      slots and votes) and ClusterFail.v (failovers and the messages), all of [cluster.c]:
      an instance is a record with a map of the nodes it knows, its messages are
      collected in [outbox].  ClusterFrame.v says what the operations do to epochs and
      votes, ClusterElect.v runs many instances over a network that loses, delays and
      reorders messages, ClusterProps.v has the elections.  ClusterSlots.v (the table of
      slots against the bitmaps), ClusterRole.v (masters and replicas), ClusterConfig.v
      (claims of slots) and ClusterSafe.v (every message).
    - Repl.v ([replication.c], the replicas of [networking.c]): the backlog and the list of
      blocks that it shares with the replicas, with reference counts, what is fed and
      sent, SYNC and PSYNC, and the replication IDs.  ReplInv.v states the invariant with
      the stream as a ghost, and proves it for trimming; ReplFeed.v feeds and sends,
      ReplSync.v synchronizes; ReplMarks.v follows the selected DB and the offsets that
      replicas wait for.  ReplWorld.v has the commands in the stream, and a server over
      time, as operations in any order; ReplProps.v has the properties.
    - Lzf.v, LzfSpec.v ([lzf_c.c], [lzf_d.c]): the compressor, whose hash table may hold
      anything, and the decompressor, with a reference decompressor on lists.
    - Rio.v ([rio.c], [rio.h]): the I/O streams, as an interface [RioBackend] with four
      implementations.  RioSpec.v states what the users of a stream rely on, [RioWriter] and
      [RioReader], and discharges it for each backend.
    - Rdb.v ([rdb.c]: lengths, integers and strings) and RdbFile.v ([rdbSaveRio], [rdbLoadRio]
      and what is between them and the strings); values are behind the interface [RdbObject],
      which strings implement.  RdbSpec.v has the logic of saving and loading over any
      stream ([saves], [loads]) and the strings, RdbFileSpec.v the turns of the loading loop
      and the whole file.

    ** What the theorems show

    - Refinement: each structure behaves, for every sequence of its operations, as the
      mathematical object it stands for ([dict_refines_map], [listpack_refines_list],
      [intset_refines_set], [adlist_refines_sequence], the theorems of ZslHist.v and
      [zset_refines_list]); the invariant, the absence of leaks and the exact calls of
      destructors and frees are part of these statements or proved beside them.
    - Equivalence of optimised code with a reference: [crc64_slicing_equiv],
      [processInputBuffer_reference], [stringmatchlen_spec].
    - Round trips: quoted arguments, AOF commands, ranks, the lemma [ll2string_string2ll],
      LZF ([lzf_roundtrip]), the strings of RDB files ([rdb_string_roundtrip]) and the files
      themselves ([rdb_file_roundtrip]), over any streams that keep the promises of RioSpec.v;
      a connection is read exactly ([conn_requests_exact]).
    - Untrusted input: [requests_never_crash], [lpValidateIntegrity_sound],
      [lzf_decompress_reference] and the lemma [intsetValidateIntegrity_spec]; and independence of how the network cuts the
      stream, [reads_cut_anywhere] (as long as the client stays open, and within the limit of its buffer;
      [long_line_depends_on_cut] has a line that is too long), [master_stream_exact].
    - Transactions: in every history of a primary EXEC is a check-and-set ([exec_is_compare_and_set],
      and the lemma [set_dooms_watchers]) on a keyspace that the commands update as a map from keys to
      values with expire times ([keyspace_refines_map]), unless a SWAPDB revives a key that had expired when it was
      watched ([op_ok], [no_revival]; [swapdb_loses_watch] shows why).  What [call] does with a queued
      command is a parameter: the law [calls_ok] says that it is made of the modelled
      operations.
    - The cluster: one replica wins an epoch when votes arrive in time
      ([one_winner_per_epoch]), claims of slots follow the epochs in any order
      ([update_slots_follows_epochs], [slot_claims_converge]), and no message or
      failover crashes an instance or breaks its view of slots and roles
      ([cluster_stays_well_formed]).
    - Replication: whatever happens to a server and its replicas, if only no replica changes
      REPLCONF RDB-ONLY after its RDB file has been begun, each replica has been
      sent, or has pending, exactly the stream after the offset it was told
      ([replicas_get_the_stream]), which reads as the commands executed since
      the RDB file, each in its DB ([full_resync_replays_commands]); PSYNC is granted exactly if
      the bytes are there ([partial_resync_is_exact]), and the blocks are counted exactly
      ([blocks_are_accounted]).
    - Progress: rehashing ends where the resize policy lets it go on, and otherwise rests ([dictRehash_terminates]), a scan reports every key that stays, range operations
      and searches end within their fuel.
    - Defects: [intsetMoveTail_truncates], [validated_payload_crashes],
      [swapdb_loses_watch], [late_votes_elect_two], [rdb_only_then_ack_fails],
      [huge_length_aborts] and the
      lemmas [rdb_only_loses_commands], [lzf_compress_one], [replica_loses_watch], [sdsneedsrepr_misses_quote], [stars_reject_empty], [memtoull_spec] and
      [string2ull_accepts_negative] prove that the code does something its comments
      or callers do not expect.

    ** Bounds

    Lists and dictionaries are assumed shorter than the address space allows (fewer than
    2^60 entries of a dictionary, 2^63 nodes of a skiplist), which the C code assumes as
    well.  Strings are shorter than 2^31 bytes where the code keeps a length in an [int].
    Scores are the IEEE 754 binary64 values of [SpecFloat].

    ** Not modelled

    The commands of the data types but SET, the event loop, sockets and files (system
    calls are lists of results), scripting, modules, configuration and access control: they are
    mostly I/O and glue around the structures above, or need models of the operating
    system.  The small encodings of sorted sets, hashes and lists on top of listpacks,
    quicklists, streams and radix trees, the RDB encodings of the other types, the remaining string library and
    the floating point conversions of [util.c] are the next candidates, in this order:
    the listpack encoding of sorted sets and its conversion to the skiplist, quicklists,
    sds, radix trees, eviction.  Of the RDB file: modules, the files and child processes around
    [rdbSaveRio] and [rdbLoadRio], and the reports of a corrupt file, which end the process when a file is
    loaded and are an error otherwise; the saving and the loading server have the same byte
    order.  Of the keyspace: key space events,
    client side tracking, blocked clients, cluster slots, the access clocks of values, the
    sampling of the active expire cycle, and the rewriting of commands for replicas.  Of
    the cluster: handshakes, addresses and links, nodes that join or leave, the commands,
    [clusterCron], the migration of replicas, publish/subscribe and module messages, deleting the
    keys of slots that are lost, and the configuration file.  Of replication: the handshake
    with a master, the transfer of RDB files, WAIT, FAILOVER, monitors, the cached
    master and time-outs; in ReplWorld.v a replica changes REPLCONF RDB-ONLY only before its RDB file is
    begun, since a later change leads to the two defects above. *)

From stdpp Require Export base numbers list option sorting strings.
From Stdlib Require Export ZArith Lia.
From Stdlib Require Ascii String.

Local Open Scope Z_scope.

(** ** Machine integers

    A C integer of width [w] is a [Z].  [wrapu w] is conversion to the unsigned
    type of width [w] (reduction modulo [2^w]) and [wraps w] is conversion to
    the signed two's complement type. *)

Definition wrapu (w z : Z) : Z := z mod 2 ^ w.
Definition wraps (w z : Z) : Z := (z + 2 ^ (w - 1)) mod 2 ^ w - 2 ^ (w - 1).

Abbreviation u8 := (wrapu 8).
Abbreviation u16 := (wrapu 16).
Abbreviation u32 := (wrapu 32).
Abbreviation u64 := (wrapu 64).
Abbreviation i8 := (wraps 8).
Abbreviation i16 := (wraps 16).
Abbreviation i32 := (wraps 32).
Abbreviation i64 := (wraps 64).

Definition in_u (w z : Z) : Prop := 0 <= z < 2 ^ w.
Definition in_s (w z : Z) : Prop := - 2 ^ (w - 1) <= z < 2 ^ (w - 1).

#[export] Instance in_u_dec w z : Decision (in_u w z).
Proof. unfold in_u; apply _. Defined.
#[export] Instance in_s_dec w z : Decision (in_s w z).
Proof. unfold in_s; apply _. Defined.

(** Decides a closed proposition by computation. *)
Ltac by_compute := refine (bool_decide_unpack _ _); vm_compute; exact I.

(** A C truth value. *)
Definition b2z (b : bool) : Z := if b then 1 else 0.

Create HintDb cint.
Create Rewrite HintDb cint.

(** [cint] normalises powers of two and unfolds ranges before calling [lia]. *)
Ltac cint_unfold :=
  unfold in_u, in_s in *;
  change (2 ^ 7) with 128 in *; change (2 ^ 8) with 256 in *;
  change (2 ^ 15) with 32768 in *; change (2 ^ 16) with 65536 in *;
  change (2 ^ 31) with 2147483648 in *; change (2 ^ 32) with 4294967296 in *;
  change (2 ^ 63) with 9223372036854775808 in *;
  change (2 ^ 64) with 18446744073709551616 in *;
  change (2 ^ (8 - 1)) with 128 in *; change (2 ^ (16 - 1)) with 32768 in *;
  change (2 ^ (32 - 1)) with 2147483648 in *;
  change (2 ^ (64 - 1)) with 9223372036854775808 in *.
Ltac cint := cint_unfold; lia.

Lemma wrapu_small w z : in_u w z -> wrapu w z = z.
Proof. intros H. apply Z.mod_small, H. Qed.

Lemma wrapu_range w z : 0 <= w -> in_u w (wrapu w z).
Proof. intros H. apply Z.mod_pos_bound. lia. Qed.

Lemma wraps_small w z : 0 < w -> in_s w z -> wraps w z = z.
Proof.
  intros Hw [H1 H2]. unfold wraps. rewrite Z.mod_small; [lia|].
  replace (2 ^ w) with (2 * 2 ^ (w - 1)); [lia|].
  rewrite <- Z.pow_succ_r by lia. f_equal; lia.
Qed.

Lemma wraps_range w z : 0 < w -> in_s w (wraps w z).
Proof.
  intros Hw. unfold in_s, wraps.
  pose proof (Z.mod_pos_bound (z + 2 ^ (w - 1)) (2 ^ w) ltac:(lia)).
  replace (2 ^ w) with (2 * 2 ^ (w - 1)) in *; [lia|].
  rewrite <- Z.pow_succ_r by lia. f_equal; lia.
Qed.

(** Reading back a signed value through its unsigned bit pattern. *)
Lemma wraps_wrapu w z : 0 < w -> wraps w (wrapu w z) = wraps w z.
Proof.
  intros Hw. unfold wraps, wrapu. f_equal. apply Zplus_mod_idemp_l.
Qed.

#[export] Hint Rewrite wrapu_small using (cint) : cint.
#[export] Hint Rewrite wraps_small using (cint) : cint.

(** ** Bytes

    A byte is a [Z] in [0..255]; a memory area is a [list Z]. *)

Abbreviation bytes := (list Z).
Abbreviation is_byte := (in_u 8).

Fixpoint le_bytes (n : nat) (z : Z) : bytes :=
  match n with
  | O => []
  | S n' => (z mod 256) :: le_bytes n' (z / 256)
  end.

Fixpoint le_value (l : bytes) : Z :=
  match l with
  | [] => 0
  | b :: t => b + 256 * le_value t
  end.

Lemma length_le_bytes n z : length (le_bytes n z) = n.
Proof. revert z; induction n; intros; simpl; auto. Qed.

Lemma le_bytes_byte n z : Forall is_byte (le_bytes n z).
Proof.
  revert z; induction n; intros; simpl; constructor; auto.
  pose proof (Z.mod_pos_bound z 256). cint.
Qed.

Lemma le_value_bytes n z : le_value (le_bytes n z) = z mod 2 ^ (8 * Z.of_nat n).
Proof.
  revert z; induction n; intros z; [simpl; by rewrite Z.mod_1_r|].
  cbn [le_bytes le_value]. rewrite IHn.
  replace (8 * Z.of_nat (S n)) with (8 + 8 * Z.of_nat n) by lia.
  rewrite Z.pow_add_r by lia. change (2 ^ 8) with 256.
  rewrite Z.rem_mul_r by lia. lia.
Qed.

Lemma le_value_range l : Forall is_byte l -> in_u (8 * Z.of_nat (length l)) (le_value l).
Proof.
  unfold in_u. induction 1 as [|b t Hb Ht IH]; [simpl; lia|].
  cbn [le_value length].
  replace (8 * Z.of_nat (S (length t))) with (8 + 8 * Z.of_nat (length t)) by lia.
  rewrite Z.pow_add_r by lia. cint.
Qed.

Lemma le_bytes_value l : Forall is_byte l -> le_bytes (length l) (le_value l) = l.
Proof.
  induction 1 as [|b t Hb Ht IH]; [done|]. cbn [le_value length le_bytes].
  replace (b + 256 * le_value t) with (b + le_value t * 256) by lia.
  rewrite Z.mod_add, Z.div_add by lia.
  rewrite Z.mod_small, Z.div_small, Z.add_0_l by cint. by rewrite IH.
Qed.

Lemma le_bytes_mod n z : le_bytes n (z mod 2 ^ (8 * Z.of_nat n)) = le_bytes n z.
Proof.
  rewrite <- le_value_bytes.
  rewrite <- (length_le_bytes n z) at 1. apply le_bytes_value, le_bytes_byte.
Qed.

(** ** Memory areas

    [rd m off n] reads [n] bytes at offset [off] of [m] and [wr m off bs] writes
    [bs] there; both are [None] when the access leaves the area, which is the
    undefined behaviour of an out of bounds access in C. *)

Definition rd (m : bytes) (off : Z) (n : nat) : option bytes :=
  if decide (0 <= off /\ off + Z.of_nat n <= Z.of_nat (length m))
  then Some (take n (drop (Z.to_nat off) m)) else None.

Definition wr (m : bytes) (off : Z) (bs : bytes) : option bytes :=
  if decide (0 <= off /\ off + Z.of_nat (length bs) <= Z.of_nat (length m))
  then Some (take (Z.to_nat off) m ++ bs ++ drop (Z.to_nat off + length bs) m)
  else None.

(** [memmove(m+dst, m+src, n)] inside one area; source and target may overlap. *)
Definition memmove (m : bytes) (dst src : Z) (n : nat) : option bytes :=
  bs ← rd m src n; wr m dst bs.

(** [realloc(m, n)]: the common prefix is kept, new bytes hold [junk]. *)
Definition realloc (junk : Z) (m : bytes) (n : nat) : bytes := resize n junk m.

Lemma rd_Some m off n bs :
  rd m off n = Some bs <->
  0 <= off /\ off + Z.of_nat n <= Z.of_nat (length m) /\
  bs = take n (drop (Z.to_nat off) m).
Proof. unfold rd; case_decide; split; [intros [= <-]|intros (?&?&->)|..]; [tauto|done|done|tauto]. Qed.

Lemma wr_Some m off bs m' :
  wr m off bs = Some m' <->
  0 <= off /\ off + Z.of_nat (length bs) <= Z.of_nat (length m) /\
  m' = take (Z.to_nat off) m ++ bs ++ drop (Z.to_nat off + length bs) m.
Proof. unfold wr; case_decide; split; [intros [= <-]|intros (?&?&->)|..]; [tauto|done|done|tauto]. Qed.

Lemma rd_length m off n bs : rd m off n = Some bs -> length bs = n.
Proof. intros (? & ? & ->)%rd_Some. rewrite length_take, length_drop. lia. Qed.

Lemma wr_length m off bs m' : wr m off bs = Some m' -> length m' = length m.
Proof.
  intros (? & ? & ->)%wr_Some.
  rewrite !length_app, length_take, length_drop. lia.
Qed.

Lemma wr_ok m off bs :
  0 <= off -> off + Z.of_nat (length bs) <= Z.of_nat (length m) ->
  is_Some (wr m off bs).
Proof. intros. unfold wr. rewrite decide_True by lia. eauto. Qed.

Lemma rd_ok m off n :
  0 <= off -> off + Z.of_nat n <= Z.of_nat (length m) -> is_Some (rd m off n).
Proof. intros. unfold rd. rewrite decide_True by lia. eauto. Qed.

(** The byte at absolute index [i] after a write. *)
Lemma wr_lookup m off bs m' (i : nat) :
  wr m off bs = Some m' ->
  m' !! i = if decide (off <= Z.of_nat i < off + Z.of_nat (length bs))
            then bs !! (i - Z.to_nat off)%nat else m !! i.
Proof.
  intros (? & ? & ->)%wr_Some. case_decide.
  - rewrite lookup_app_r by (rewrite length_take; lia).
    rewrite length_take, lookup_app_l by lia. f_equal; lia.
  - destruct (decide (Z.of_nat i < off)).
    + rewrite lookup_app_l by (rewrite length_take; lia).
      by rewrite lookup_take_lt by lia.
    + rewrite lookup_app_r by (rewrite length_take; lia).
      rewrite lookup_app_r by (rewrite length_take; lia).
      rewrite length_take, lookup_drop. f_equal; lia.
Qed.

Lemma rd_lookup m off n bs (i : nat) :
  rd m off n = Some bs ->
  bs !! i = if decide (i < n)%nat then m !! (Z.to_nat off + i)%nat else None.
Proof.
  intros (? & ? & ->)%rd_Some. case_decide.
  - rewrite lookup_take_lt, lookup_drop by lia. done.
  - apply lookup_ge_None. rewrite length_take, length_drop. lia.
Qed.

(** A read is determined by the bytes of its range. *)
Lemma rd_eq m m' off off' n :
  (0 <= off /\ off + Z.of_nat n <= Z.of_nat (length m) <->
   0 <= off' /\ off' + Z.of_nat n <= Z.of_nat (length m')) ->
  (forall i : nat, (i < n)%nat -> m !! (Z.to_nat off + i)%nat = m' !! (Z.to_nat off' + i)%nat) ->
  rd m off n = rd m' off' n.
Proof.
  intros Hb Hl. unfold rd. destruct (decide _) as [H|H].
  - rewrite decide_True by tauto. f_equal. apply list_eq. intros i.
    destruct (decide (i < n)%nat).
    + rewrite !lookup_take_lt, !lookup_drop by lia. auto.
    + rewrite !lookup_ge_None_2; [done|rewrite length_take; lia..].
  - by rewrite decide_False by tauto.
Qed.

Lemma rd_wr_same m off bs m' : wr m off bs = Some m' -> rd m' off (length bs) = Some bs.
Proof.
  intros Hw. pose proof (wr_length _ _ _ _ Hw) as Hl.
  pose proof Hw as (? & ? & _)%wr_Some.
  destruct (rd_ok m' off (length bs)) as [bs' Hr]; [lia..|].
  rewrite Hr. f_equal. apply list_eq. intros i.
  rewrite (rd_lookup _ _ _ _ _ Hr). case_decide.
  - rewrite (wr_lookup _ _ _ _ _ Hw). rewrite decide_True by lia. f_equal; lia.
  - by rewrite lookup_ge_None_2 by lia.
Qed.

Lemma rd_wr_other m off bs m' off' n :
  wr m off bs = Some m' ->
  off' + Z.of_nat n <= off \/ off + Z.of_nat (length bs) <= off' ->
  rd m' off' n = rd m off' n.
Proof.
  intros Hw Hd. pose proof (wr_length _ _ _ _ Hw) as Hl. unfold rd at 2.
  destruct (decide _).
  - destruct (rd_ok m off' n) as [b Hb]; [lia..|].
    transitivity (rd m off' n); [|unfold rd; by rewrite decide_True by lia].
    apply rd_eq; [lia|]. intros i Hi. rewrite (wr_lookup _ _ _ _ _ Hw).
    by rewrite decide_False by lia.
  - unfold rd. by rewrite decide_False by lia.
Qed.

Lemma rd_realloc junk m k off n :
  0 <= off -> off + Z.of_nat n <= Z.of_nat (length m) -> off + Z.of_nat n <= Z.of_nat k ->
  rd (realloc junk m k) off n = rd m off n.
Proof.
  intros H0 H1 H2. unfold realloc. apply rd_eq; [rewrite length_resize; lia|].
  intros i Hi. by rewrite lookup_resize by lia.
Qed.

(** One byte accesses: [x[off]] and [x[off] = v]. *)
Definition getb (m : bytes) (off : Z) : option Z :=
  if decide (0 <= off) then m !! Z.to_nat off else None.
Definition setb (m : bytes) (off v : Z) : option bytes :=
  if decide (0 <= off < Z.of_nat (length m)) then Some (<[Z.to_nat off := v]> m) else None.

(** Splitting an area around a read. *)
Lemma rd_split m off n bs :
  rd m off n = Some bs ->
  exists a c, m = a ++ bs ++ c /\ off = Z.of_nat (length a) /\ length bs = n.
Proof.
  intros H. pose proof (rd_length _ _ _ _ H). apply rd_Some in H as (? & ? & ->).
  exists (take (Z.to_nat off) m), (drop n (drop (Z.to_nat off) m)).
  rewrite !take_drop, length_take. split_and!; [done|lia|done].
Qed.

Lemma rd_app a bs c : rd (a ++ bs ++ c) (Z.of_nat (length a)) (length bs) = Some bs.
Proof.
  unfold rd. rewrite decide_True by (rewrite !length_app; lia).
  rewrite Nat2Z.id, drop_app_length, take_app_length. done.
Qed.

Lemma wr_app a bs bs' c :
  length bs = length bs' ->
  wr (a ++ bs ++ c) (Z.of_nat (length a)) bs' = Some (a ++ bs' ++ c).
Proof.
  intros Hl. unfold wr. rewrite decide_True by (rewrite !length_app; lia).
  rewrite Nat2Z.id, take_app_length, <- drop_drop, drop_app_length, <- Hl, drop_app_length.
  done.
Qed.

(** Overwriting a range with a range of the same length. *)
Lemma wr_wr m off bs bs' m' :
  wr m off bs = Some m' -> length bs = length bs' -> wr m' off bs' = wr m off bs'.
Proof.
  intros Hw Hl. pose proof (wr_length _ _ _ _ Hw) as Hm.
  apply wr_Some in Hw as (H1 & H2 & ->). unfold wr at 2. rewrite decide_True by lia.
  pose proof (wr_app (take (Z.to_nat off) m) bs bs' (drop (Z.to_nat off + length bs) m) Hl) as Hx.
  rewrite length_take in Hx.
  replace (Z.of_nat (Z.to_nat off `min` length m)) with off in Hx by lia.
  rewrite Hx. by rewrite Hl.
Qed.

(** ** Strictly increasing lists of integers *)

Lemma ssorted_lookup (l : list Z) :
  StronglySorted Z.lt l <->
  forall (i j : nat) x y, l !! i = Some x -> l !! j = Some y -> (i < j)%nat -> x < y.
Proof.
  split.
  - induction 1 as [|a l Hs IH Hf]; intros i j x y Hi Hj Hij; [done|].
    destruct j as [|j]; [lia|]. simpl in Hj. destruct i as [|i]; simpl in Hi.
    + simplify_eq. rewrite Forall_lookup in Hf. eauto.
    + eapply IH; eauto. lia.
  - induction l as [|a l IH]; intros Hl; constructor.
    + apply IH. intros i j x y Hi Hj Hij. apply (Hl (S i) (S j)); simpl; auto. lia.
    + apply Forall_lookup. intros i x Hi. apply (Hl 0%nat (S i)); simpl; auto. lia.
Qed.

(** Inserting between the smaller and the larger elements. *)
Lemma ssorted_insert (l : list Z) (p : nat) v :
  StronglySorted Z.lt l -> (p <= length l)%nat ->
  (forall i x, l !! i = Some x -> (i < p)%nat -> x < v) ->
  (forall i x, l !! i = Some x -> (p <= i)%nat -> v < x) ->
  StronglySorted Z.lt (take p l ++ v :: drop p l).
Proof.
  intros Hs Hp Hlo Hhi. rewrite <- (take_drop p l) in Hs.
  apply StronglySorted_app in Hs as (Hx & Ht & Hd).
  assert (Hlo' : forall x, x ∈ take p l -> x < v).
  { intros x [i Hi]%list_elem_of_lookup. apply lookup_take_Some in Hi as [? ?]. eauto. }
  assert (Hhi' : forall x, x ∈ drop p l -> v < x).
  { intros x [i Hi]%list_elem_of_lookup. rewrite lookup_drop in Hi. eapply Hhi; [done|lia]. }
  apply StronglySorted_app_2; [|done|].
  - intros x y Hxi [->|Hyi]%elem_of_cons; eauto.
  - apply SSorted_cons; [done|]. by apply Forall_forall.
Qed.

Lemma ssorted_delete (l : list Z) (p : nat) :
  StronglySorted Z.lt l -> StronglySorted Z.lt (delete p l).
Proof.
  rewrite !ssorted_lookup. intros Hl i j x y Hi Hj Hij.
  rewrite list_lookup_delete in Hi, Hj.
  eapply Hl; [exact Hi|exact Hj|]. repeat case_decide; lia.
Qed.

Lemma elem_of_delete_ssorted (l : list Z) (p : nat) v x :
  StronglySorted Z.lt l -> l !! p = Some v ->
  x ∈ delete p l <-> x ∈ l /\ x ≠ v.
Proof.
  intros Hs Hp. rewrite ssorted_lookup in Hs. rewrite !list_elem_of_lookup. split.
  - intros [i Hi]. rewrite list_lookup_delete in Hi. split; [eauto|]. intros ->.
    case_decide.
    + assert (v < v) by (eapply (Hs i p); eauto). lia.
    + assert (v < v) by (eapply (Hs p (S i)); eauto; lia). lia.
  - intros [[i Hi] Hne]. destruct (decide (i < p)%nat).
    + exists i. rewrite list_lookup_delete_lt by lia. done.
    + destruct (decide (i = p)) as [->|]; [congruence|].
      exists (i - 1)%nat. rewrite list_lookup_delete_ge by lia.
      by replace (S (i - 1)) with i by lia.
Qed.

(** ** Bits *)

Lemma testbit_high n z i : 0 <= z < 2 ^ n -> n <= i -> Z.testbit z i = false.
Proof.
  intros Hz Hi. destruct (Z.lt_ge_cases n 0).
  - rewrite Z.pow_neg_r in Hz by lia. lia.
  - rewrite <- (Z.mod_small z (2 ^ n)) by done. by apply Z.mod_pow2_bits_high.
Qed.

Lemma range_of_bits n z :
  0 <= n -> (forall i, n <= i -> Z.testbit z i = false) -> 0 <= z < 2 ^ n.
Proof.
  intros Hn Hb. assert (z = z mod 2 ^ n) as ->.
  - apply Z.bits_inj'. intros i Hi. destruct (Z.lt_ge_cases i n).
    + by rewrite Z.mod_pow2_bits_low.
    + rewrite Z.mod_pow2_bits_high by lia. auto.
  - apply Z.mod_pos_bound. lia.
Qed.

Lemma testbit_wrapu w z i :
  0 <= w -> Z.testbit (wrapu w z) i = if decide (i < w) then Z.testbit z i else false.
Proof.
  intros Hw. unfold wrapu. destruct (Z.lt_ge_cases i 0).
  { rewrite !Z.testbit_neg_r by lia. by case_decide. }
  case_decide; [apply Z.mod_pow2_bits_low|apply Z.mod_pow2_bits_high]; lia.
Qed.

Lemma lxor_range n a b : in_u n a -> in_u n b -> 0 <= n -> in_u n (Z.lxor a b).
Proof.
  intros Ha Hb Hn. apply range_of_bits; [done|]. intros i Hi.
  by rewrite Z.lxor_spec, (testbit_high n a), (testbit_high n b).
Qed.

Lemma lor_range n a b : in_u n a -> in_u n b -> 0 <= n -> in_u n (Z.lor a b).
Proof.
  intros Ha Hb Hn. apply range_of_bits; [done|]. intros i Hi.
  by rewrite Z.lor_spec, (testbit_high n a), (testbit_high n b).
Qed.

Lemma land_ones_range n a : 0 <= n -> in_u n (Z.land a (Z.ones n)).
Proof. intros Hn. rewrite Z.land_ones by done. apply Z.mod_pos_bound. lia. Qed.

(** Exhaustive checking over the bytes. *)
Lemma byte_cases (P : Z -> bool) :
  forallb P (seqZ 0 256) = true -> forall c, is_byte c -> P c = true.
Proof.
  rewrite forallb_forall. intros HP c Hc. apply HP, list_elem_of_In, elem_of_seqZ. cint.
Qed.

(** The low byte next to a shifted word. *)
Lemma add_byte_lxor b v : is_byte b -> b + 256 * v = Z.lxor b (Z.shiftl v 8).
Proof.
  intros Hb. replace (256 * v) with (Z.shiftl v 8)
    by (rewrite Z.shiftl_mul_pow2 by lia; cint).
  rewrite Z.add_nocarry_lxor; [done|]. apply Z.bits_inj'. intros i Hi.
  rewrite Z.land_spec, Z.testbit_0_l. destruct (Z.lt_ge_cases i 8).
  - rewrite Z.shiftl_spec_low by lia. apply andb_false_r.
  - by rewrite (testbit_high 8 b).
Qed.

Lemma lor_shift_add a b k : 0 <= k -> in_u k b -> Z.lor (Z.shiftl a k) b = a * 2 ^ k + b.
Proof.
  intros Hk Hb. assert (Hd : Z.land (Z.shiftl a k) b = 0).
  { apply Z.bits_inj'. intros i Hi. rewrite Z.land_spec, Z.testbit_0_l.
    destruct (Z.lt_ge_cases i k); [by rewrite Z.shiftl_spec_low by lia|].
    rewrite (testbit_high k b) by done. apply andb_false_r. }
  rewrite <- Z.lxor_lor, <- Z.add_nocarry_lxor by done. by rewrite Z.shiftl_mul_pow2.
Qed.

Lemma land255 v : Z.land v 255 = v mod 256.
Proof. change 255 with (Z.ones 8). by rewrite Z.land_ones. Qed.

Lemma shiftr8 v k : 0 <= k -> Z.shiftr v (k + 8) = Z.shiftr v k / 256.
Proof. intros. rewrite <- Z.shiftr_shiftr, (Z.shiftr_div_pow2 _ 8) by lia. done. Qed.

(** Folds that correspond step by step. *)
Lemma fold_left_commute {A B C D} (h : A -> B) (k : C -> D) (f : A -> C -> A) (g : B -> D -> B) :
  (forall a c, h (f a c) = g (h a) (k c)) ->
  forall l a, h (fold_left f l a) = fold_left g (k <$> l) (h a).
Proof.
  intros Hs. induction l as [|c l IH]; intros a; [done|].
  cbn [fold_left fmap list_fmap]. by rewrite IH, Hs.
Qed.

Lemma fold_left_commute_inv {A B C} (h : A -> B) (P : A -> Prop) (Q : C -> Prop)
    (f : A -> C -> A) (g : B -> C -> B) :
  (forall a c, P a -> Q c -> h (f a c) = g (h a) c) ->
  (forall a c, P a -> Q c -> P (f a c)) ->
  forall l a, P a -> Forall Q l -> h (fold_left f l a) = fold_left g l (h a).
Proof.
  intros Hs HP. induction l as [|c l IH]; intros a Ha Hl; [done|].
  inversion Hl; subst. cbn [fold_left]. rewrite IH by auto. by rewrite Hs.
Qed.

(** Bit [i] of a little endian value is bit [i mod 8] of byte [i / 8]. *)
Lemma le_value_bit bs i :
  Forall is_byte bs -> 0 <= i ->
  Z.testbit (le_value bs) i = Z.testbit (default 0 (bs !! Z.to_nat (i / 8))) (i mod 8).
Proof.
  intros Hb. revert i. induction Hb as [|b bs Hb Hbs IH]; intros i Hi.
  { cbn [le_value]. rewrite Z.testbit_0_l. change (@nil Z !! _) with (@None Z). cbn. by rewrite Z.testbit_0_l. }
  cbn [le_value]. rewrite add_byte_lxor, Z.lxor_spec by done.
  destruct (Z.lt_ge_cases i 8).
  - rewrite Z.shiftl_spec_low, Z.div_small, Z.mod_small by lia. simpl. apply xorb_false_r.
  - rewrite Z.shiftl_spec, (testbit_high 8 b), IH by (done || lia). cbn [xorb].
    replace i with (i - 8 + 1 * 8) at 3 4 by lia. rewrite Z.div_add, Z.mod_add by lia.
    assert (0 <= (i - 8) / 8) by (apply Z.div_pos; lia).
    replace (Z.to_nat ((i - 8) / 8 + 1)) with (S (Z.to_nat ((i - 8) / 8))) by lia. done.
Qed.

(** ** Positions *)

(** The position among [n] that a possibly negative index designates. *)
Definition resolve (n : nat) (index : Z) : option nat :=
  let i := if index <? 0 then Z.of_nat n + index else index in
  if (0 <=? i) && (i <? Z.of_nat n) then Some (Z.to_nat i) else None.

Lemma resolve_Some (n k : nat) index : resolve n index = Some k -> (k < n)%nat.
Proof.
  unfold resolve. destruct (_ && _) eqn:E; [|done]. intros [= <-].
  apply andb_prop in E as [E1%Z.leb_le E2%Z.ltb_lt]. lia.
Qed.

Lemma resolve_pos (n : nat) index :
  0 <= index -> resolve n index = if decide (index < Z.of_nat n) then Some (Z.to_nat index) else None.
Proof.
  intros H. unfold resolve. rewrite (proj2 (Z.ltb_ge _ 0)), (proj2 (Z.leb_le 0 _)) by lia. cbn [andb].
  case_decide; [by rewrite (proj2 (Z.ltb_lt _ _))|by rewrite (proj2 (Z.ltb_ge _ _)) by lia].
Qed.

Lemma resolve_neg (n : nat) index :
  index < 0 -> resolve n index = if decide (- index <= Z.of_nat n) then Some (Z.to_nat (Z.of_nat n + index)) else None.
Proof.
  intros H. unfold resolve. rewrite (proj2 (Z.ltb_lt _ 0)) by lia.
  rewrite (proj2 (Z.ltb_lt (_ + _) _)) by lia. rewrite andb_true_r.
  case_decide; [by rewrite (proj2 (Z.leb_le _ _)) by lia|by rewrite (proj2 (Z.leb_gt _ _)) by lia].
Qed.

(** ** Character strings *)

(** The bytes of an ASCII literal. *)
Definition str (s : String.string) : bytes :=
  (λ a, Z.of_N (Ascii.N_of_ascii a)) <$> String.list_ascii_of_string s.

(** Writing a prefix after a suffix is writing both. *)
Lemma wr_join m off a b m1 m2 :
  0 <= off -> wr m (off + Z.of_nat (length a)) b = Some m1 -> wr m1 off a = Some m2 ->
  wr m off (a ++ b) = Some m2.
Proof.
  intros H0 H1 H2. pose proof (wr_length _ _ _ _ H1). apply wr_Some in H1 as (? & ? & ->).
  apply wr_Some in H2 as (_ & ? & ->).
  unfold wr. rewrite length_app, decide_True by lia. f_equal.
  set (k := Z.to_nat off).
  replace (Z.to_nat (off + Z.of_nat (length a))) with (k + length a)%nat by lia.
  assert (k + length a <= length m)%nat by lia.
  rewrite take_app_le by (rewrite length_take; lia).
  rewrite take_take, Nat.min_l by lia. rewrite <- app_assoc. do 2 f_equal.
  rewrite drop_app_ge by (rewrite length_take; lia).
  rewrite length_take, Nat.min_l by lia. rewrite Nat.sub_diag, drop_0.
  f_equal. f_equal. lia.
Qed.

Lemma wr_wr_next m off a b m1 m2 :
  0 <= off -> wr m off a = Some m1 -> wr m1 (off + Z.of_nat (length a)) b = Some m2 ->
  wr m off (a ++ b) = Some m2.
Proof.
  intros H0 H1 H2. pose proof (wr_length _ _ _ _ H1) as Hl.
  apply wr_Some in H1 as (? & ? & ->). apply wr_Some in H2 as (_ & Hb & ->).
  rewrite Hl in Hb. unfold wr. rewrite length_app, decide_True by lia. f_equal.
  set (k := Z.to_nat off).
  replace (Z.to_nat (off + Z.of_nat (length a))) with (k + length a)%nat by lia.
  assert (k + length a <= length m)%nat by lia.
  rewrite (app_assoc (take k m) a (drop _ m)).
  rewrite (take_app_length' (take k m ++ a)) by (rewrite length_app, length_take; lia).
  rewrite drop_app_ge by (rewrite length_app, length_take; lia).
  rewrite length_app, length_take, drop_drop, <- !app_assoc. do 4 f_equal. lia.
Qed.

Lemma setb_wr m off v : setb m off v = wr m off [v].
Proof.
  unfold setb, wr. simpl length. repeat case_decide; try lia; [|done].
  f_equal. rewrite insert_take_drop by lia. do 3 f_equal. lia.
Qed.

Lemma setb_ok m off v : 0 <= off < Z.of_nat (length m) -> exists m', setb m off v = Some m'.
Proof. intros. unfold setb. rewrite decide_True by lia. eauto. Qed.

Lemma setb_length m off v m' : setb m off v = Some m' -> length m' = length m.
Proof. rewrite setb_wr. apply wr_length. Qed.
