(* ===== verification/Endian.v ===== *)
(** Byte order conversion: [endianconv.c] and the [...ifbe] macros of
    [endianconv.h].  The host's byte order is a parameter, the class [Host]; the
    lemmas show that what Redis stores through the [ifbe] conversions is little
    endian on every host. *)

From S2P Require Import Prelude.

Local Open Scope Z_scope.

Class Host := big_endian : bool.

(** [t = x[i]; x[i] = x[j]; x[j] = t] *)
Definition swapb (x : bytes) (i j : Z) : option bytes :=
  t ← getb x i;
  xj ← getb x j;
  x1 ← setb x i xj;
  setb x1 j t.

Definition memrev16 (m : bytes) (p : Z) : option bytes := swapb m p (p + 1).

Definition memrev32 (m : bytes) (p : Z) : option bytes :=
  m1 ← swapb m p (p + 3);
  swapb m1 (p + 1) (p + 2).

Definition memrev64 (m : bytes) (p : Z) : option bytes :=
  m1 ← swapb m p (p + 7);
  m2 ← swapb m1 (p + 1) (p + 6);
  m3 ← swapb m2 (p + 2) (p + 5);
  swapb m3 (p + 3) (p + 4).

Section host.
Context `{Host}.

(** The object representation of an unsigned integer of [n] bytes, and the
    integer that an object representation stands for. *)
Definition native_bytes (n : nat) (v : Z) : bytes :=
  if big_endian then reverse (le_bytes n v) else le_bytes n v.
Definition native_value (bs : bytes) : Z :=
  le_value (if big_endian then reverse bs else bs).

Definition memrev16ifbe (m : bytes) (p : Z) : option bytes :=
  if big_endian then memrev16 m p else Some m.
Definition memrev32ifbe (m : bytes) (p : Z) : option bytes :=
  if big_endian then memrev32 m p else Some m.
Definition memrev64ifbe (m : bytes) (p : Z) : option bytes :=
  if big_endian then memrev64 m p else Some m.

(** [intrevN(v)]: [memrevN(&v)] on the object representation of [v]. *)
Definition intrev16 (v : Z) : Z :=
  default v (native_value <$> memrev16 (native_bytes 2 v) 0).
Definition intrev32 (v : Z) : Z :=
  default v (native_value <$> memrev32 (native_bytes 4 v) 0).
Definition intrev64 (v : Z) : Z :=
  default v (native_value <$> memrev64 (native_bytes 8 v) 0).

Definition intrev16ifbe (v : Z) : Z := if big_endian then intrev16 v else v.
Definition intrev32ifbe (v : Z) : Z := if big_endian then intrev32 v else v.
Definition intrev64ifbe (v : Z) : Z := if big_endian then intrev64 v else v.

(** Network byte order: no-ops on a big endian host. *)
Definition htonu64 (v : Z) : Z := if big_endian then v else intrev64 v.
Definition ntohu64 (v : Z) : Z := if big_endian then v else intrev64 v.

End host.

(** ** Facts *)

Lemma getb_app a l c i :
  0 <= i < Z.of_nat (length l) ->
  getb (a ++ l ++ c) (Z.of_nat (length a) + i) = getb l i.
Proof.
  intros Hi. unfold getb. rewrite !decide_True by lia.
  rewrite lookup_app_r, lookup_app_l by lia. f_equal; lia.
Qed.

Lemma setb_app a l c i v :
  0 <= i < Z.of_nat (length l) ->
  setb (a ++ l ++ c) (Z.of_nat (length a) + i) v = (λ l', a ++ l' ++ c) <$> setb l i v.
Proof.
  intros Hi. unfold setb. rewrite !decide_True by (rewrite ?length_app; lia).
  simpl. f_equal. rewrite insert_app_r_alt, insert_app_l by lia.
  do 3 f_equal. lia.
Qed.

Lemma swapb_app a l c i j :
  0 <= i < Z.of_nat (length l) -> 0 <= j < Z.of_nat (length l) ->
  swapb (a ++ l ++ c) (Z.of_nat (length a) + i) (Z.of_nat (length a) + j) =
  (λ l', a ++ l' ++ c) <$> swapb l i j.
Proof.
  intros Hi Hj. unfold swapb. rewrite !getb_app by done.
  destruct (getb l i) as [t|]; [|done]; simpl. destruct (getb l j) as [u|]; [|done]; simpl.
  rewrite setb_app by done. destruct (setb l i u) as [l1|] eqn:E; [|done]; simpl.
  apply setb_length in E. rewrite setb_app by lia. done.
Qed.

Ltac destruct_length bs :=
  repeat (destruct bs as [|? bs]; [discriminate|]); destruct bs; [|discriminate].

(** One swap inside the window, with the window computed. *)
Ltac swap_step :=
  rewrite swapb_app by (cbn [length]; lia);
  match goal with
  | |- context [swapb ?l ?i ?j] =>
      let r := eval cbv in (swapb l i j) in change (swapb l i j) with r
  end;
  cbn [fmap option_fmap option_map mbind option_bind].

Lemma memrev16_spec m p bs : rd m p 2 = Some bs -> memrev16 m p = wr m p (reverse bs).
Proof.
  intros (a & c & -> & -> & Hl)%rd_split.
  rewrite wr_app by (by rewrite length_reverse).
  unfold memrev16. rewrite <- (Z.add_0_r (Z.of_nat (length a))) at 1.
  destruct_length bs. swap_step. reflexivity.
Qed.

Lemma memrev32_spec m p bs : rd m p 4 = Some bs -> memrev32 m p = wr m p (reverse bs).
Proof.
  intros (a & c & -> & -> & Hl)%rd_split.
  rewrite wr_app by (by rewrite length_reverse).
  unfold memrev32. rewrite <- (Z.add_0_r (Z.of_nat (length a))) at 1.
  destruct_length bs. do 2 swap_step. reflexivity.
Qed.

Lemma memrev64_spec m p bs : rd m p 8 = Some bs -> memrev64 m p = wr m p (reverse bs).
Proof.
  intros (a & c & -> & -> & Hl)%rd_split.
  rewrite wr_app by (by rewrite length_reverse).
  unfold memrev64. rewrite <- (Z.add_0_r (Z.of_nat (length a))) at 1.
  destruct_length bs. do 4 swap_step. reflexivity.
Qed.

Section host_facts.
Context `{Host}.

Lemma length_native_bytes n v : length (native_bytes n v) = n.
Proof. unfold native_bytes. case_match; rewrite ?length_reverse; apply length_le_bytes. Qed.

Lemma rd_whole (m : bytes) : rd m 0 (length m) = Some m.
Proof. pose proof (rd_app [] m []) as Hr. by rewrite app_nil_r in Hr. Qed.

(** Reversing a whole area. *)
Lemma memrev_whole (f : bytes -> Z -> option bytes) (bs : bytes) :
  (forall m p b, rd m p (length bs) = Some b -> f m p = wr m p (reverse b)) ->
  f bs 0 = Some (reverse bs).
Proof.
  intros Hf. rewrite (Hf _ _ _ (rd_whole bs)).
  pose proof (wr_app [] bs (reverse bs) []) as Hw.
  simpl in Hw. rewrite !app_nil_r in Hw. apply Hw. by rewrite length_reverse.
Qed.

(** In-place conversion of a native object just stored leaves its little
    endian bytes; converting a copy of stored bytes yields the object that has
    their little endian value. *)
Lemma memrevifbe_store (f : bytes -> Z -> option bytes) n m p v m' :
  (forall m p b, rd m p n = Some b -> f m p = wr m p (reverse b)) ->
  wr m p (native_bytes n v) = Some m' ->
  (if big_endian then f m' p else Some m') = wr m p (le_bytes n v).
Proof.
  unfold native_bytes. intros Hf Hw. destruct big_endian; [|done].
  pose proof (rd_wr_same _ _ _ _ Hw) as Hr. rewrite length_reverse, length_le_bytes in Hr.
  rewrite (Hf _ _ _ Hr), reverse_involutive.
  eapply wr_wr; [done|]. by rewrite length_reverse.
Qed.

Lemma memrevifbe_load (f : bytes -> Z -> option bytes) bs :
  (forall m p b, rd m p (length bs) = Some b -> f m p = wr m p (reverse b)) ->
  native_value <$> (if big_endian then f bs 0 else Some bs) = Some (le_value bs).
Proof.
  unfold native_value. intros Hf. destruct big_endian; [|done].
  rewrite memrev_whole by done. simpl. by rewrite reverse_involutive.
Qed.

Lemma memrev16ifbe_store m p v m' :
  wr m p (native_bytes 2 v) = Some m' -> memrev16ifbe m' p = wr m p (le_bytes 2 v).
Proof. apply memrevifbe_store, memrev16_spec. Qed.
Lemma memrev32ifbe_store m p v m' :
  wr m p (native_bytes 4 v) = Some m' -> memrev32ifbe m' p = wr m p (le_bytes 4 v).
Proof. apply memrevifbe_store, memrev32_spec. Qed.
Lemma memrev64ifbe_store m p v m' :
  wr m p (native_bytes 8 v) = Some m' -> memrev64ifbe m' p = wr m p (le_bytes 8 v).
Proof. apply memrevifbe_store, memrev64_spec. Qed.

Lemma memrev16ifbe_load bs :
  length bs = 2%nat -> native_value <$> memrev16ifbe bs 0 = Some (le_value bs).
Proof. intros Hl. apply memrevifbe_load. rewrite Hl. apply memrev16_spec. Qed.
Lemma memrev32ifbe_load bs :
  length bs = 4%nat -> native_value <$> memrev32ifbe bs 0 = Some (le_value bs).
Proof. intros Hl. apply memrevifbe_load. rewrite Hl. apply memrev32_spec. Qed.
Lemma memrev64ifbe_load bs :
  length bs = 8%nat -> native_value <$> memrev64ifbe bs 0 = Some (le_value bs).
Proof. intros Hl. apply memrevifbe_load. rewrite Hl. apply memrev64_spec. Qed.

(** The integer conversions reverse the bytes of the value, on every host. *)
Lemma intrev_value (f : bytes -> Z -> option bytes) n v :
  (forall m p b, rd m p n = Some b -> f m p = wr m p (reverse b)) ->
  default v (native_value <$> f (native_bytes n v) 0) = le_value (reverse (le_bytes n v)).
Proof.
  intros Hf. rewrite memrev_whole by (by rewrite length_native_bytes).
  unfold native_value, native_bytes. simpl.
  destruct big_endian; by rewrite ?reverse_involutive.
Qed.

Lemma intrev16_value v : intrev16 v = le_value (reverse (le_bytes 2 v)).
Proof. apply (intrev_value memrev16), memrev16_spec. Qed.
Lemma intrev32_value v : intrev32 v = le_value (reverse (le_bytes 4 v)).
Proof. apply (intrev_value memrev32), memrev32_spec. Qed.
Lemma intrev64_value v : intrev64 v = le_value (reverse (le_bytes 8 v)).
Proof. apply (intrev_value memrev64), memrev64_spec. Qed.

Lemma rev_bytes_invol n v :
  in_u (8 * Z.of_nat n) v ->
  le_value (reverse (le_bytes n (le_value (reverse (le_bytes n v))))) = v.
Proof.
  intros Hv. set (l := reverse (le_bytes n v)).
  assert (Hl : length l = n) by (subst l; by rewrite length_reverse, length_le_bytes).
  rewrite <- Hl at 1. rewrite le_bytes_value.
  - subst l. rewrite reverse_involutive, le_value_bytes. by apply Z.mod_small.
  - subst l. apply Forall_reverse, le_bytes_byte.
Qed.

Lemma intrev32ifbe_invol v : in_u 32 v -> intrev32ifbe (intrev32ifbe v) = v.
Proof.
  intros. unfold intrev32ifbe. destruct big_endian; [|done].
  rewrite !intrev32_value. by apply (rev_bytes_invol 4).
Qed.

Lemma intrev32ifbe_range v : in_u 32 v -> in_u 32 (intrev32ifbe v).
Proof.
  intros. unfold intrev32ifbe. destruct big_endian; [|done]. rewrite intrev32_value.
  apply (le_value_range (reverse (le_bytes 4 v))), Forall_reverse, le_bytes_byte.
Qed.

(** ntohu64 is the inverse of htonu64. *)
Lemma ntohu64_htonu64 v : in_u 64 v -> ntohu64 (htonu64 v) = v.
Proof.
  intros. unfold ntohu64, htonu64. destruct big_endian; [done|].
  rewrite !intrev64_value. by apply (rev_bytes_invol 8).
Qed.

(** The object representation of [htonu64 v] is big endian on every host. *)
Lemma htonu64_big_endian v :
  in_u 64 v -> native_bytes 8 (htonu64 v) = reverse (le_bytes 8 v).
Proof.
  intros. unfold native_bytes, htonu64. destruct big_endian; [done|].
  rewrite intrev64_value.
  replace 8%nat with (length (reverse (le_bytes 8 v))) at 1
    by (by rewrite length_reverse, length_le_bytes).
  apply le_bytes_value, Forall_reverse, le_bytes_byte.
Qed.
End host_facts.
