(* ===== verification/Crc.v ===== *)
(** Checksums: [crc16.c], [crc64.c], the slicing-by-8 loops of [crcspeed.c], and
    the cluster's key to slot hash [keyHashSlot] of [cluster.c].

    A table is a list of 8 rows of 256 words.  A buffer is the list of its bytes;
    where the code looks at the alignment of the pointer the address of the
    first byte is an argument. *)

From S2P Require Import Prelude Endian.

Local Open Scope Z_scope.

(** ** CRC16 *)

Definition crc16tab : list Z := [
    0x0000; 0x1021; 0x2042; 0x3063; 0x4084; 0x50a5; 0x60c6; 0x70e7;
    0x8108; 0x9129; 0xa14a; 0xb16b; 0xc18c; 0xd1ad; 0xe1ce; 0xf1ef;
    0x1231; 0x0210; 0x3273; 0x2252; 0x52b5; 0x4294; 0x72f7; 0x62d6;
    0x9339; 0x8318; 0xb37b; 0xa35a; 0xd3bd; 0xc39c; 0xf3ff; 0xe3de;
    0x2462; 0x3443; 0x0420; 0x1401; 0x64e6; 0x74c7; 0x44a4; 0x5485;
    0xa56a; 0xb54b; 0x8528; 0x9509; 0xe5ee; 0xf5cf; 0xc5ac; 0xd58d;
    0x3653; 0x2672; 0x1611; 0x0630; 0x76d7; 0x66f6; 0x5695; 0x46b4;
    0xb75b; 0xa77a; 0x9719; 0x8738; 0xf7df; 0xe7fe; 0xd79d; 0xc7bc;
    0x48c4; 0x58e5; 0x6886; 0x78a7; 0x0840; 0x1861; 0x2802; 0x3823;
    0xc9cc; 0xd9ed; 0xe98e; 0xf9af; 0x8948; 0x9969; 0xa90a; 0xb92b;
    0x5af5; 0x4ad4; 0x7ab7; 0x6a96; 0x1a71; 0x0a50; 0x3a33; 0x2a12;
    0xdbfd; 0xcbdc; 0xfbbf; 0xeb9e; 0x9b79; 0x8b58; 0xbb3b; 0xab1a;
    0x6ca6; 0x7c87; 0x4ce4; 0x5cc5; 0x2c22; 0x3c03; 0x0c60; 0x1c41;
    0xedae; 0xfd8f; 0xcdec; 0xddcd; 0xad2a; 0xbd0b; 0x8d68; 0x9d49;
    0x7e97; 0x6eb6; 0x5ed5; 0x4ef4; 0x3e13; 0x2e32; 0x1e51; 0x0e70;
    0xff9f; 0xefbe; 0xdfdd; 0xcffc; 0xbf1b; 0xaf3a; 0x9f59; 0x8f78;
    0x9188; 0x81a9; 0xb1ca; 0xa1eb; 0xd10c; 0xc12d; 0xf14e; 0xe16f;
    0x1080; 0x00a1; 0x30c2; 0x20e3; 0x5004; 0x4025; 0x7046; 0x6067;
    0x83b9; 0x9398; 0xa3fb; 0xb3da; 0xc33d; 0xd31c; 0xe37f; 0xf35e;
    0x02b1; 0x1290; 0x22f3; 0x32d2; 0x4235; 0x5214; 0x6277; 0x7256;
    0xb5ea; 0xa5cb; 0x95a8; 0x8589; 0xf56e; 0xe54f; 0xd52c; 0xc50d;
    0x34e2; 0x24c3; 0x14a0; 0x0481; 0x7466; 0x6447; 0x5424; 0x4405;
    0xa7db; 0xb7fa; 0x8799; 0x97b8; 0xe75f; 0xf77e; 0xc71d; 0xd73c;
    0x26d3; 0x36f2; 0x0691; 0x16b0; 0x6657; 0x7676; 0x4615; 0x5634;
    0xd94c; 0xc96d; 0xf90e; 0xe92f; 0x99c8; 0x89e9; 0xb98a; 0xa9ab;
    0x5844; 0x4865; 0x7806; 0x6827; 0x18c0; 0x08e1; 0x3882; 0x28a3;
    0xcb7d; 0xdb5c; 0xeb3f; 0xfb1e; 0x8bf9; 0x9bd8; 0xabbb; 0xbb9a;
    0x4a75; 0x5a54; 0x6a37; 0x7a16; 0x0af1; 0x1ad0; 0x2ab3; 0x3a92;
    0xfd2e; 0xed0f; 0xdd6c; 0xcd4d; 0xbdaa; 0xad8b; 0x9de8; 0x8dc9;
    0x7c26; 0x6c07; 0x5c64; 0x4c45; 0x3ca2; 0x2c83; 0x1ce0; 0x0cc1;
    0xef1f; 0xff3e; 0xcf5d; 0xdf7c; 0xaf9b; 0xbfba; 0x8fd9; 0x9ff8;
    0x6e17; 0x7e36; 0x4e55; 0x5e74; 0x2e93; 0x3eb2; 0x0ed1; 0x1ef0
].

(** [*buf] is a plain [char]; it is sign extended before the mask is applied. *)
Definition crc16_step (crc b : Z) : Z :=
  u16 (Z.lxor (Z.shiftl crc 8)
         (nth (Z.to_nat (Z.land (Z.lxor (Z.shiftr crc 8) (i8 b)) 0x00FF)) crc16tab 0)).

Definition crc16 (buf : bytes) : Z := fold_left crc16_step buf 0.

(** ** Cluster slots *)

(** The first index from [i] on at which [c] occurs, or the key's length. *)
Fixpoint scan_char (c : Z) (key : bytes) (i : nat) : nat :=
  match key with
  | [] => i
  | k :: rest => if k =? c then i else scan_char c rest (S i)
  end.

Definition keyHashSlot (key : bytes) : Z :=
  let keylen := length key in
  let s := scan_char 123 (* '{' *) key 0 in
  if (s =? keylen)%nat then Z.land (crc16 key) 0x3FFF
  else
    let e := scan_char 125 (* '}' *) (drop (s + 1) key) (s + 1) in
    if ((e =? keylen) || (e =? s + 1))%nat then Z.land (crc16 key) 0x3FFF
    else Z.land (crc16 (take (e - s - 1) (drop (s + 1) key))) 0x3FFF.

(** ** CRC64 *)

Definition POLY : Z := 0xad93d23594c935a9.

Fixpoint reflect_loop (n : nat) (data ret : Z) : Z :=
  match n with
  | O => ret
  | S n' =>
      let data := Z.shiftr data 1 in
      reflect_loop n' data (Z.lor (u64 (Z.shiftl ret 1)) (Z.land data 0x01))
  end.

Definition crc_reflect (data : Z) (data_len : nat) : Z :=
  reflect_loop (data_len - 1) data (Z.land data 0x01).
Arguments crc_reflect : simpl never.

(** One turn of the bit loop for the mask [i] of the byte [c]. *)
Definition _crc64_bit (c crc i : Z) : Z :=
  let bit := Z.land crc 0x8000000000000000 in
  let bit := if Z.land c i =? 0 then bit else b2z (bit =? 0) in
  let crc := u64 (Z.shiftl crc 1) in
  if bit =? 0 then crc else Z.lxor crc POLY.

(** The masks [i] of [for (i = 0x01; i & 0xff; i <<= 1)]. *)
Definition masks : list Z := [0x01; 0x02; 0x04; 0x08; 0x10; 0x20; 0x40; 0x80].

Definition _crc64_byte (crc c : Z) : Z :=
  Z.land (fold_left (_crc64_bit c) masks crc) 0xffffffffffffffff.

Definition _crc64 (crc : Z) (in_data : bytes) : Z :=
  let crc := fold_left _crc64_byte in_data crc in
  let crc := Z.land crc 0xffffffffffffffff in
  Z.lxor (crc_reflect crc 64) 0x0000000000000000.

(** ** Slicing by 8 *)

Abbreviation table64 := (list (list Z)).

(** [table[k][i]] *)
Definition entry (table : table64) (k : nat) (i : Z) : Z :=
  nth (Z.to_nat i) (nth k table []) 0.

Definition range256 : list Z := seqZ 0 256.

Fixpoint crc_rows (t0 : list Z) (k : nat) (row : list Z) : table64 :=
  match k with
  | O => []
  | S k' =>
      row :: crc_rows t0 k'
        ((λ crc, Z.lxor (nth (Z.to_nat (Z.land crc 0xff)) t0 0) (Z.shiftr crc 8)) <$> row)
  end.

Definition crcspeed64little_init (crcfn : Z -> bytes -> Z) : table64 :=
  let t0 := (λ n, crcfn 0 [u8 n]) <$> range256 in
  crc_rows t0 8 t0.

(** The portable definition; [__builtin_bswap64] computes the same function. *)
Definition rev8 (a : Z) : Z :=
  let m := 0xff00ff00ff00ff in
  let a := Z.lor (Z.land (Z.shiftr a 8) m) (u64 (Z.shiftl (Z.land a m) 8)) in
  let m := 0xffff0000ffff in
  let a := Z.lor (Z.land (Z.shiftr a 16) m) (u64 (Z.shiftl (Z.land a m) 16)) in
  Z.lor (Z.shiftr a 32) (u64 (Z.shiftl a 32)).

Definition crcspeed64big_init (fn : Z -> bytes -> Z) : table64 :=
  (λ row : list Z, rev8 <$> row) <$> crcspeed64little_init fn.

Definition little_byte (t : table64) (crc b : Z) : Z :=
  Z.lxor (entry t 0 (Z.land (Z.lxor crc b) 0xff)) (Z.shiftr crc 8).

(** [while (len && ((uintptr_t)next & 7) != 0)] *)
Fixpoint head_loop (step : Z -> Z -> Z) (crc next : Z) (buf : bytes) : Z * bytes :=
  match buf with
  | [] => (crc, [])
  | b :: rest =>
      if Z.land next 7 =? 0 then (crc, buf)
      else head_loop step (step crc b) (next + 1) rest
  end.

Definition little_word (t : table64) (crc w : Z) : Z :=
  let crc := Z.lxor crc w in
  Z.lxor (Z.lxor (Z.lxor (Z.lxor (Z.lxor (Z.lxor (Z.lxor
    (entry t 7 (Z.land crc 0xff))
    (entry t 6 (Z.land (Z.shiftr crc 8) 0xff)))
    (entry t 5 (Z.land (Z.shiftr crc 16) 0xff)))
    (entry t 4 (Z.land (Z.shiftr crc 24) 0xff)))
    (entry t 3 (Z.land (Z.shiftr crc 32) 0xff)))
    (entry t 2 (Z.land (Z.shiftr crc 40) 0xff)))
    (entry t 1 (Z.land (Z.shiftr crc 48) 0xff)))
    (entry t 0 (Z.shiftr crc 56)).

(** [while (len >= 8)], [value] reading the native 64 bit word. *)
Fixpoint word_loop (step : Z -> Z -> Z) (value : bytes -> Z) (crc : Z) (buf : bytes)
    : Z * bytes :=
  match buf with
  | b0 :: b1 :: b2 :: b3 :: b4 :: b5 :: b6 :: b7 :: rest =>
      word_loop step value (step crc (value [b0; b1; b2; b3; b4; b5; b6; b7])) rest
  | _ => (crc, buf)
  end.

Definition crcspeed64little (t : table64) (crc next : Z) (buf : bytes) : Z :=
  let '(crc, buf) := head_loop (little_byte t) crc next buf in
  let '(crc, buf) := word_loop (little_word t) le_value crc buf in
  fold_left (little_byte t) buf crc.

Definition big_byte (t : table64) (crc b : Z) : Z :=
  Z.lxor (entry t 0 (Z.lxor (Z.shiftr crc 56) b)) (u64 (Z.shiftl crc 8)).

Definition big_word (t : table64) (crc w : Z) : Z :=
  let crc := Z.lxor crc w in
  Z.lxor (Z.lxor (Z.lxor (Z.lxor (Z.lxor (Z.lxor (Z.lxor
    (entry t 0 (Z.land crc 0xff))
    (entry t 1 (Z.land (Z.shiftr crc 8) 0xff)))
    (entry t 2 (Z.land (Z.shiftr crc 16) 0xff)))
    (entry t 3 (Z.land (Z.shiftr crc 24) 0xff)))
    (entry t 4 (Z.land (Z.shiftr crc 32) 0xff)))
    (entry t 5 (Z.land (Z.shiftr crc 40) 0xff)))
    (entry t 6 (Z.land (Z.shiftr crc 48) 0xff)))
    (entry t 7 (Z.shiftr crc 56)).

Definition crcspeed64big (t : table64) (crc next : Z) (buf : bytes) : Z :=
  let crc := rev8 crc in
  let '(crc, buf) := head_loop (big_byte t) crc next buf in
  let '(crc, buf) := word_loop (big_word t) (λ bs, le_value (reverse bs)) crc buf in
  rev8 (fold_left (big_byte t) buf crc).

Section host.
Context `{Host}.

Definition crcspeed64native (t : table64) (crc next : Z) (buf : bytes) : Z :=
  if big_endian then crcspeed64big t crc next buf else crcspeed64little t crc next buf.

Definition crcspeed64native_init (fn : Z -> bytes -> Z) : table64 :=
  if big_endian then crcspeed64big_init fn else crcspeed64little_init fn.

(** The static [crc64_table] after [crc64_init()]. *)
Definition crc64_init : table64 := crcspeed64native_init _crc64.

Definition crc64 (crc_table : table64) (crc s_addr : Z) (s : bytes) : Z :=
  crcspeed64native crc_table crc s_addr s.
End host.

Example crc16_check : crc16 [49;50;51;52;53;54;55;56;57] = 0x31C3.
Proof. vm_compute. reflexivity. Qed.

Example crc64_check :
  _crc64 0 [49;50;51;52;53;54;55;56;57] = 0xe9c6d914c4b8d9ca.
Proof. vm_compute. reflexivity. Qed.

Example crc64_check_big : let h : Host := true in
  crc64 crc64_init 0 3 [49;50;51;52;53;54;55;56;57] = 0xe9c6d914c4b8d9ca.
Proof. vm_compute. reflexivity. Qed.

(** ** Linear steps

    Both checksums are linear over exclusive or.  [rstep p] is one step of a
    reflected (least significant bit first) division by [p]. *)

Definition rstep (p r : Z) : Z :=
  if Z.odd r then Z.lxor (Z.shiftr r 1) p else Z.shiftr r 1.

Abbreviation rsteps p n := (Nat.iter n (rstep p)).

Lemma lxor_swap a b c d :
  Z.lxor (Z.lxor a b) (Z.lxor c d) = Z.lxor (Z.lxor a c) (Z.lxor b d).
Proof. rewrite !Z.lxor_assoc. f_equal. rewrite <- !Z.lxor_assoc. f_equal. apply Z.lxor_comm. Qed.

Lemma odd_lxor a b : Z.odd (Z.lxor a b) = xorb (Z.odd a) (Z.odd b).
Proof. rewrite <- !Z.bit0_odd. apply Z.lxor_spec. Qed.

Lemma rstep_lxor p a b : rstep p (Z.lxor a b) = Z.lxor (rstep p a) (rstep p b).
Proof.
  unfold rstep. rewrite odd_lxor, Z.shiftr_lxor.
  destruct (Z.odd a), (Z.odd b); cbn [xorb].
  - rewrite lxor_swap, Z.lxor_nilpotent, Z.lxor_0_r. done.
  - rewrite !Z.lxor_assoc. f_equal. apply Z.lxor_comm.
  - by rewrite Z.lxor_assoc.
  - done.
Qed.

Lemma rsteps_lxor p n a b :
  rsteps p n (Z.lxor a b) = Z.lxor (rsteps p n a) (rsteps p n b).
Proof. induction n as [|n IH]; [done|]. simpl. by rewrite IH, rstep_lxor. Qed.

Lemma rsteps_0 p n : rsteps p n 0 = 0.
Proof. induction n as [|n IH]; [done|]. simpl. by rewrite IH. Qed.

(** Zeroes at the low end are just shifted out. *)
Lemma rsteps_shiftl p n x : rsteps p n (Z.shiftl x (Z.of_nat n)) = x.
Proof.
  revert x. induction n as [|n IH]; intros x; [simpl; apply Z.shiftl_0_r|].
  rewrite Nat.iter_succ_r. unfold rstep at 2.
  assert (Z.odd (Z.shiftl x (Z.of_nat (S n))) = false) as ->.
  { rewrite <- Z.bit0_odd, Z.shiftl_spec_low by lia. done. }
  rewrite Z.shiftr_shiftl_l by lia.
  replace (Z.of_nat (S n) - 1) with (Z.of_nat n) by lia. apply IH.
Qed.

Lemma iter_plus {A} (f : A -> A) m n x : Nat.iter (m + n) f x = Nat.iter m f (Nat.iter n f x).
Proof. induction m; simpl; congruence. Qed.

(** Splitting off the low [n] bits. *)
Lemma split_low n x : 0 <= n -> x = Z.lxor (Z.land x (Z.ones n)) (Z.shiftl (Z.shiftr x n) n).
Proof.
  intros Hn. apply Z.bits_inj'. intros i Hi.
  rewrite Z.lxor_spec, Z.land_spec, Z.testbit_ones_nonneg by lia.
  rewrite Z.shiftl_spec by lia. destruct (Z.ltb_spec i n).
  - rewrite (Z.testbit_neg_r _ (i - n)) by lia. by rewrite andb_true_r, xorb_false_r.
  - rewrite Z.shiftr_spec by lia. rewrite andb_false_r, xorb_false_l. f_equal; lia.
Qed.

Lemma rsteps_split p n x :
  rsteps p n x = Z.lxor (rsteps p n (Z.land x (Z.ones (Z.of_nat n)))) (Z.shiftr x (Z.of_nat n)).
Proof.
  rewrite (split_low (Z.of_nat n) x) at 1 by lia.
  by rewrite rsteps_lxor, rsteps_shiftl.
Qed.

(** ** The reflected register of the bit by bit algorithm *)

Lemma land_1_testbit d i : Z.testbit (Z.land d 1) i = if decide (i = 0) then Z.testbit d 0 else false.
Proof.
  rewrite Z.land_spec. case_decide as Hi; [subst; by rewrite andb_true_r|].
  destruct (Z.lt_ge_cases i 0); [by rewrite !Z.testbit_neg_r by lia|].
  change 1 with (2 ^ 0). rewrite Z.pow2_bits_false by lia. apply andb_false_r.
Qed.

Lemma reflect_loop_bits n : forall data ret k i,
  0 <= k -> 0 <= ret < 2 ^ k -> k + Z.of_nat n <= 64 -> 0 <= i ->
  Z.testbit (reflect_loop n data ret) i =
  if decide (i < Z.of_nat n) then Z.testbit data (Z.of_nat n - i)
  else Z.testbit ret (i - Z.of_nat n).
Proof.
  induction n as [|n IH]; intros data ret k i Hk Hret Hn Hi.
  { rewrite decide_False by lia. simpl. by rewrite Z.sub_0_r. }
  cbn [reflect_loop].
  assert (Hr1 : in_u (k + 1) (Z.shiftl ret 1)).
  { rewrite Z.shiftl_mul_pow2 by lia. split; [lia|]. rewrite Z.pow_add_r by lia. nia. }
  assert (u64 (Z.shiftl ret 1) = Z.shiftl ret 1) as ->.
  { apply wrapu_small. split; [apply Hr1|]. eapply Z.lt_le_trans; [apply Hr1|].
    apply Z.pow_le_mono_r; lia. }
  rewrite (IH _ _ (k + 1)); try lia.
  2:{ apply lor_range; [done| |lia]. apply range_of_bits; [lia|]. intros j Hj.
      rewrite land_1_testbit, decide_False by lia. done. }
  destruct (decide (i < Z.of_nat n)).
  - rewrite decide_True, Z.shiftr_spec by lia. f_equal; lia.
  - rewrite Z.lor_spec, land_1_testbit. destruct (decide (i = Z.of_nat n)).
    + rewrite !decide_True by lia. rewrite Z.shiftl_spec_low, Z.shiftr_spec by lia.
      cbn [orb]. f_equal; lia.
    + rewrite !decide_False by lia. rewrite Z.shiftl_spec by lia.
      rewrite orb_false_r. f_equal; lia.
Qed.

Lemma crc_reflect_bits data i :
  0 <= i -> Z.testbit (crc_reflect data 64) i =
            if decide (i < 64) then Z.testbit data (63 - i) else false.
Proof.
  intros Hi. unfold crc_reflect. rewrite (reflect_loop_bits _ _ _ 1); try lia.
  - simpl Z.of_nat. case_decide; [rewrite decide_True by lia; f_equal; lia|].
    rewrite land_1_testbit. case_decide; [rewrite decide_True by lia; f_equal; lia|].
    by rewrite decide_False by lia.
  - apply (land_ones_range 1). lia.
Qed.

Lemma crc_reflect_range data : in_u 64 (crc_reflect data 64).
Proof.
  apply range_of_bits; [lia|]. intros i Hi. rewrite crc_reflect_bits by lia.
  by rewrite decide_False by lia.
Qed.

(** The reflected polynomial. *)
Definition RPOLY : Z := crc_reflect POLY 64.

Lemma bit_select crc :
  (Z.land crc 0x8000000000000000 =? 0) = negb (Z.testbit crc 63).
Proof.
  change 0x8000000000000000 with (2 ^ 63). destruct (Z.testbit crc 63) eqn:Hb; cbn [negb].
  - apply Z.eqb_neq. intros Hz. assert (Z.testbit (Z.land crc (2 ^ 63)) 63 = true) as Ht.
    { by rewrite Z.land_spec, Hb, Z.pow2_bits_true by lia. }
    by rewrite Hz, Z.testbit_0_l in Ht.
  - apply Z.eqb_eq. apply Z.bits_inj'. intros i Hi. rewrite Z.land_spec, Z.testbit_0_l.
    destruct (Z.eq_dec i 63) as [->|]; [by rewrite Hb|].
    rewrite Z.pow2_bits_false by lia. apply andb_false_r.
Qed.

Lemma _crc64_bit_eq c crc i :
  _crc64_bit c crc i =
  if xorb (Z.testbit crc 63) (negb (Z.land c i =? 0))
  then Z.lxor (u64 (Z.shiftl crc 1)) POLY else u64 (Z.shiftl crc 1).
Proof.
  unfold _crc64_bit. pose proof (bit_select crc) as Hb.
  destruct (Z.land c i =? 0); cbn [negb].
  - rewrite Hb. by destruct (Z.testbit crc 63).
  - rewrite Hb. by destruct (Z.testbit crc 63).
Qed.

Lemma POLY_range : in_u 64 POLY.
Proof. split; vm_compute; congruence. Qed.

Lemma _crc64_bit_range c crc i : in_u 64 (_crc64_bit c crc i).
Proof.
  rewrite _crc64_bit_eq. case_match.
  - apply lxor_range; [apply wrapu_range; lia|apply POLY_range|lia].
  - apply wrapu_range. lia.
Qed.

(** One bit of the bit by bit algorithm is one reflected step. *)
Lemma reflect_bit c crc i :
  crc_reflect (_crc64_bit c crc i) 64 =
  rstep RPOLY (Z.lxor (crc_reflect crc 64) (b2z (negb (Z.land c i =? 0)))).
Proof.
  rewrite _crc64_bit_eq. set (b := negb (Z.land c i =? 0)).
  assert (Hodd : Z.odd (Z.lxor (crc_reflect crc 64) (b2z b)) = xorb (Z.testbit crc 63) b).
  { rewrite odd_lxor, <- Z.bit0_odd, crc_reflect_bits by lia. by destruct b. }
  assert (Hsh : forall k, 0 <= k -> Z.testbit (Z.shiftr (Z.lxor (crc_reflect crc 64) (b2z b)) 1) k =
            if decide (k < 63) then Z.testbit crc (62 - k) else false).
  { intros k Hk. rewrite Z.shiftr_spec, Z.lxor_spec, crc_reflect_bits by lia.
    rewrite (testbit_high 1 (b2z b)) by (destruct b; simpl; lia). rewrite xorb_false_r.
    repeat case_decide; try lia; try done. f_equal; lia. }
  unfold rstep. rewrite Hodd. apply Z.bits_inj'. intros k Hk.
  rewrite crc_reflect_bits by lia. destruct (xorb (Z.testbit crc 63) b).
  - rewrite !Z.lxor_spec, Hsh by lia. unfold RPOLY. rewrite crc_reflect_bits by lia.
    destruct (decide (k < 64)); [|by rewrite decide_False by lia].
    rewrite testbit_wrapu, decide_True by lia. f_equal. rewrite Z.shiftl_spec by lia.
    case_decide; [f_equal; lia|]. rewrite Z.testbit_neg_r by lia. done.
  - rewrite Hsh by lia. destruct (decide (k < 64)); [|by rewrite decide_False by lia].
    rewrite testbit_wrapu, decide_True by lia. rewrite Z.shiftl_spec by lia.
    case_decide; [f_equal; lia|]. rewrite Z.testbit_neg_r by lia. done.
Qed.

(** Feeding the bits of a byte one by one is adding the byte and stepping 8 times. *)
Lemma feed_bits p (bits : list bool) : forall r,
  fold_left (λ r b, rstep p (Z.lxor r (b2z b))) bits r =
  rsteps p (length bits) (Z.lxor r (fold_right (λ b n, Z.lxor (b2z b) (Z.shiftl n 1)) 0 bits)).
Proof.
  induction bits as [|b bits IH]; intros r.
  { simpl. by rewrite Z.lxor_0_r. }
  cbn [fold_left fold_right length]. rewrite IH, Nat.iter_succ_r. f_equal.
  rewrite <- Z.lxor_assoc, (rstep_lxor p (Z.lxor r (b2z b))). f_equal.
  symmetry. apply (rsteps_shiftl p 1).
Qed.

Lemma byte_bits c :
  is_byte c ->
  fold_right (λ b n, Z.lxor (b2z b) (Z.shiftl n 1)) 0
    ((λ i, negb (Z.land c i =? 0)) <$> masks) = c.
Proof.
  intros Hc. apply Z.eqb_eq. revert c Hc. apply byte_cases. vm_compute. reflexivity.
Qed.

(** The reference: a reflected division, byte by byte, least significant bit first. *)
Definition crc64_ref (r : Z) (data : bytes) : Z :=
  fold_left (λ r b, rsteps RPOLY 8 (Z.lxor r b)) data r.

Lemma land_u64 z : in_u 64 z -> Z.land z 0xffffffffffffffff = z.
Proof.
  intros Hz. change 0xffffffffffffffff with (Z.ones 64).
  rewrite Z.land_ones by lia. by apply Z.mod_small.
Qed.

Lemma fold_bits_range c l crc : in_u 64 crc -> in_u 64 (fold_left (_crc64_bit c) l crc).
Proof. revert crc. induction l; intros; simpl; [done|]. apply IHl, _crc64_bit_range. Qed.

Lemma _crc64_byte_range crc c : in_u 64 crc -> in_u 64 (_crc64_byte crc c).
Proof. intros. unfold _crc64_byte. rewrite land_u64; by apply fold_bits_range. Qed.

Lemma reflect_masks c l crc :
  crc_reflect (fold_left (_crc64_bit c) l crc) 64 =
  fold_left (λ r b, rstep RPOLY (Z.lxor r (b2z b)))
    ((λ i, negb (Z.land c i =? 0)) <$> l) (crc_reflect crc 64).
Proof.
  apply (fold_left_commute (λ x, crc_reflect x 64)). intros. apply reflect_bit.
Qed.

Lemma reflect_byte crc c :
  in_u 64 crc -> is_byte c ->
  crc_reflect (_crc64_byte crc c) 64 = rsteps RPOLY 8 (Z.lxor (crc_reflect crc 64) c).
Proof.
  intros Hcrc Hc. unfold _crc64_byte. rewrite land_u64 by (by apply fold_bits_range).
  rewrite reflect_masks, feed_bits, (byte_bits c Hc). reflexivity.
Qed.

Lemma _crc64_ref crc data :
  in_u 64 crc -> Forall is_byte data ->
  _crc64 crc data = crc64_ref (crc_reflect crc 64) data.
Proof.
  intros Hcrc Hd. unfold _crc64. rewrite Z.lxor_0_r. unfold crc64_ref.
  assert (Hr : in_u 64 (fold_left _crc64_byte data crc)).
  { clear Hd. revert crc Hcrc. induction data; intros; simpl; [done|].
    by apply IHdata, _crc64_byte_range. }
  rewrite land_u64 by done.
  apply (fold_left_commute_inv (λ x, crc_reflect x 64) (in_u 64) is_byte); [..|done|done].
  - intros. by apply reflect_byte.
  - intros. by apply _crc64_byte_range.
Qed.

(** ** Table lookups are groups of 8 steps *)

Lemma crc_reflect_0 : crc_reflect 0 64 = 0.
Proof. vm_compute. reflexivity. Qed.

Definition table_ok (t : table64) : Prop :=
  forall k i, (k < 8)%nat -> is_byte i -> entry t k i = rsteps RPOLY (8 * (k + 1)) i.

Lemma seqZ_nth i : is_byte i -> seqZ 0 256 !! Z.to_nat i = Some i.
Proof. intros. rewrite lookup_seqZ. cint. Qed.

Lemma nth_fmap_range (f : Z -> Z) i : is_byte i -> nth (Z.to_nat i) (f <$> range256) 0 = f i.
Proof.
  intros Hi. rewrite nth_lookup, list_lookup_fmap. unfold range256. by rewrite seqZ_nth.
Qed.

Lemma land_255_byte x : is_byte (Z.land x 0xff).
Proof. apply (land_ones_range 8). lia. Qed.

Lemma byte_step x : 
  Z.lxor (rsteps RPOLY 8 (Z.land x 0xff)) (Z.shiftr x 8) = rsteps RPOLY 8 x.
Proof. symmetry. apply (rsteps_split RPOLY 8). Qed.

Lemma crc_rows_nth (f g : Z -> Z) t0 n k :
  (forall crc, Z.lxor (nth (Z.to_nat (Z.land crc 0xff)) t0 0) (Z.shiftr crc 8) = g crc) ->
  (k < n)%nat ->
  nth k (crc_rows t0 n (f <$> range256)) [] = (λ i, Nat.iter k g (f i)) <$> range256.
Proof.
  intros Hg. revert f k. induction n as [|n IH]; intros f k Hk; [lia|].
  cbn [crc_rows]. destruct k as [|k]; [done|]. cbn [nth].
  rewrite <- list_fmap_compose.
  rewrite (list_fmap_ext (_ ∘ f) (g ∘ f)) by (intros; apply Hg).
  rewrite IH by lia. apply list_fmap_ext. intros ? x _. unfold compose.
  by rewrite <- Nat.iter_succ_r.
Qed.

Lemma iter_rsteps p k m x :
  Nat.iter k (rsteps p m) x = rsteps p (k * m) x.
Proof.
  induction k as [|k IH]; [done|]. rewrite Nat.iter_succ, IH.
  change (S k * m)%nat with (m + k * m)%nat. by rewrite iter_plus.
Qed.

Lemma little_init_ok : table_ok (crcspeed64little_init _crc64).
Proof.
  intros k i Hk Hi. unfold entry, crcspeed64little_init.
  assert (Ht0 : (λ n, _crc64 0 [u8 n]) <$> range256 = (rsteps RPOLY 8) <$> range256).
  { apply list_fmap_ext. intros ? n Hn. unfold range256 in Hn.
    apply lookup_seqZ in Hn as [-> Hn].
    rewrite wrapu_small by cint. rewrite _crc64_ref; [|cint|].
    - rewrite crc_reflect_0. unfold crc64_ref. cbn [fold_left]. by rewrite Z.lxor_0_l.
    - constructor; [cint|done]. }
  rewrite Ht0, (crc_rows_nth _ (rsteps RPOLY 8)); [|intros crc|lia].
  - rewrite nth_fmap_range by done. rewrite iter_rsteps, <- iter_plus. f_equal. lia.
  - rewrite nth_fmap_range by apply land_255_byte. apply byte_step.
Qed.

(** ** The slicing loops *)

Lemma shiftr_lxor_byte x b : is_byte b -> Z.shiftr (Z.lxor x b) 8 = Z.shiftr x 8.
Proof.
  intros Hb. rewrite Z.shiftr_lxor. rewrite (Z.shiftr_div_pow2 b), Z.div_small by (lia || cint).
  apply Z.lxor_0_r.
Qed.

Lemma little_byte_ok t crc b :
  table_ok t -> is_byte b -> little_byte t crc b = rsteps RPOLY 8 (Z.lxor crc b).
Proof.
  intros Ht Hb. unfold little_byte. rewrite Ht by (lia || apply land_255_byte).
  rewrite <- (shiftr_lxor_byte crc b Hb). apply byte_step.
Qed.

(** Peeling the low byte off a group of steps. *)
Lemma rsteps_peel p k s x :
  0 <= s ->
  rsteps p (8 * (k + 1)) (Z.shiftr x s) =
  Z.lxor (rsteps p (8 * (k + 1)) (Z.land (Z.shiftr x s) 0xff))
         (rsteps p (8 * k) (Z.shiftr x (s + 8))).
Proof.
  intros Hs. replace (8 * (k + 1))%nat with (8 * k + 8)%nat by lia. rewrite !iter_plus.
  rewrite <- rsteps_lxor, <- (Z.shiftr_shiftr _ s 8) by lia. f_equal.
  apply (rsteps_split p 8).
Qed.

Lemma rsteps_word p x :
  rsteps p (8 * (7 + 1)) x =
  Z.lxor (Z.lxor (Z.lxor (Z.lxor (Z.lxor (Z.lxor (Z.lxor
    (rsteps p (8 * (7 + 1)) (Z.land x 0xff))
    (rsteps p (8 * (6 + 1)) (Z.land (Z.shiftr x 8) 0xff)))
    (rsteps p (8 * (5 + 1)) (Z.land (Z.shiftr x 16) 0xff)))
    (rsteps p (8 * (4 + 1)) (Z.land (Z.shiftr x 24) 0xff)))
    (rsteps p (8 * (3 + 1)) (Z.land (Z.shiftr x 32) 0xff)))
    (rsteps p (8 * (2 + 1)) (Z.land (Z.shiftr x 40) 0xff)))
    (rsteps p (8 * (1 + 1)) (Z.land (Z.shiftr x 48) 0xff)))
    (rsteps p (8 * (0 + 1)) (Z.shiftr x 56)).
Proof.
  rewrite !Z.lxor_assoc. rewrite <- (Z.shiftr_0_r x) at 1.
  rewrite (rsteps_peel p 7 0), Z.shiftr_0_r by lia. f_equal.
  rewrite (rsteps_peel p 6 8) by lia. f_equal.
  rewrite (rsteps_peel p 5 16) by lia. f_equal.
  rewrite (rsteps_peel p 4 24) by lia. f_equal.
  rewrite (rsteps_peel p 3 32) by lia. f_equal.
  rewrite (rsteps_peel p 2 40) by lia. f_equal.
  rewrite (rsteps_peel p 1 48) by lia. f_equal.
Qed.

Lemma shiftr_u64_byte x : in_u 64 x -> is_byte (Z.shiftr x 56).
Proof.
  intros Hx. rewrite Z.shiftr_div_pow2 by lia. split; [apply Z.div_pos; cint|].
  apply Z.div_lt_upper_bound; cint.
Qed.

Lemma little_word_ok t crc w :
  table_ok t -> in_u 64 (Z.lxor crc w) ->
  little_word t crc w = rsteps RPOLY (8 * (7 + 1)) (Z.lxor crc w).
Proof.
  intros Ht Hx. unfold little_word. set (x := Z.lxor crc w) in *.
  rewrite !Ht by (lia || apply land_255_byte || by apply shiftr_u64_byte).
  symmetry. apply rsteps_word.
Qed.

(** The bytes of a buffer are consumed as the little endian word they form. *)
Lemma feed_bytes p bs : forall r,
  Forall is_byte bs ->
  fold_left (λ r b, rsteps p 8 (Z.lxor r b)) bs r =
  rsteps p (8 * length bs) (Z.lxor r (le_value bs)).
Proof.
  induction bs as [|b bs IH]; intros r Hb.
  { simpl. by rewrite Z.lxor_0_r. }
  inversion Hb; subst. cbn [fold_left length le_value]. rewrite IH by done.
  replace (8 * S (length bs))%nat with (8 * length bs + 8)%nat by lia.
  rewrite iter_plus. f_equal. rewrite add_byte_lxor, <- Z.lxor_assoc by done.
  rewrite (rsteps_lxor p 8 (Z.lxor r b)). f_equal. symmetry. apply (rsteps_shiftl p 8).
Qed.

(** ** Loops in general

    A loop that consumes a buffer and returns what is left agrees with a fold of
    [f] over the consumed part, seen through [h]. *)

Section loops.
Context (h : Z -> Z) (f : Z -> Z -> Z) (P : Z -> Prop).
Context (step : Z -> Z -> Z) (wstep : Z -> Z -> Z) (value : bytes -> Z).
Hypothesis P_step : forall r b, P r -> is_byte b -> P (f r b).
Hypothesis step_ok : forall r b, P r -> is_byte b -> step (h r) b = h (f r b).
Hypothesis wstep_ok : forall r bs, P r -> Forall is_byte bs -> length bs = 8%nat ->
  wstep (h r) (value bs) = h (fold_left f bs r).

Lemma fold_P bs r : P r -> Forall is_byte bs -> P (fold_left f bs r).
Proof. intros Hr Hb. revert r Hr. induction Hb; intros; simpl; auto. Qed.

Lemma head_loop_ok buf : forall r next,
  P r -> Forall is_byte buf ->
  exists a c, buf = a ++ c /\ head_loop step (h r) next buf = (h (fold_left f a r), c).
Proof.
  induction buf as [|b buf IH]; intros r next Hr Hb; [by exists [], []|].
  inversion Hb; subst. cbn [head_loop]. destruct (Z.land next 7 =? 0).
  - by exists [], (b :: buf).
  - rewrite step_ok by done. destruct (IH (f r b) (next + 1)) as (a & c & -> & ->); auto.
    by exists (b :: a), c.
Qed.

Lemma word_loop_ok n : forall buf r,
  (length buf <= n)%nat -> P r -> Forall is_byte buf ->
  exists a c, buf = a ++ c /\ word_loop wstep value (h r) buf = (h (fold_left f a r), c).
Proof.
  induction n as [|n IH]; intros buf r Hn Hr Hb.
  { destruct buf; [|simpl in *; lia]. by exists [], []. }
  do 8 (destruct buf as [|? buf]; [by eexists [], _|]).
  cbn [word_loop]. apply (Forall_app _ [_;_;_;_;_;_;_;_]) in Hb as [Hb8 Hb].
  rewrite wstep_ok by done.
  destruct (IH buf (fold_left f [z; z0; z1; z2; z3; z4; z5; z6] r)) as (a & c & -> & ->).
  - simpl in Hn. lia.
  - by apply fold_P.
  - done.
  - exists ([z; z0; z1; z2; z3; z4; z5; z6] ++ a), c. by rewrite <- app_assoc, fold_left_app.
Qed.

Lemma crc_loops_ok r next buf :
  P r -> Forall is_byte buf ->
  (let '(crc, buf) := head_loop step (h r) next buf in
   let '(crc, buf) := word_loop wstep value crc buf in
   fold_left step buf crc) = h (fold_left f buf r).
Proof.
  intros Hr Hb. destruct (head_loop_ok buf r next) as (a & c & -> & ->); [done..|].
  apply Forall_app in Hb as [Ha Hc].
  destruct (word_loop_ok (length c) c (fold_left f a r)) as (a' & c' & -> & ->);
    [done|by apply fold_P|done|].
  apply Forall_app in Hc as [Ha' Hc']. rewrite !fold_left_app. symmetry.
  apply (fold_left_commute_inv h P is_byte); [|done|by apply fold_P, Ha'; apply fold_P|done].
  intros. by rewrite step_ok.
Qed.
End loops.
