(* ===== verification/CrcRev.v ===== *)
(** Byte reversal of 64 bit words: what the portable [rev8] of [crcspeed.c] does
    to each bit, and the algebra of [rev8] that the big endian CRC loops use. *)

From S2P Require Import Prelude Endian Crc.

Local Open Scope Z_scope.

(** ** Reversing the bytes of a word *)

(** The bit of the argument that [rev8] moves to position [i]. *)
Definition rev8_bit (i : Z) : Z := 56 - 8 * (i / 8) + i mod 8.

Ltac rev8_simpl a Ha :=
  repeat first
    [ rewrite Z.lor_spec | rewrite Z.land_spec
    | rewrite testbit_wrapu, decide_True by lia
    | rewrite testbit_wrapu, decide_False by lia
    | rewrite Z.shiftr_spec by lia | rewrite Z.shiftl_spec by lia
    | match goal with |- context [Z.testbit ?x ?k] =>
        rewrite (Z.testbit_neg_r x k) by lia end ];
  repeat match goal with
    | |- context [Z.testbit (Zpos ?p) ?k] =>
        let b := eval vm_compute in (Z.testbit (Zpos p) k) in
        change (Z.testbit (Zpos p) k) with b
    | |- context [Z.testbit a ?k] =>
        lazymatch k with
        | Zpos _ => rewrite (testbit_high 64 a k Ha) by lia
        | Z0 => fail
        | _ => let k' := eval vm_compute in k in
               change (Z.testbit a k) with (Z.testbit a k')
        end
    end;
  rewrite ?andb_true_r, ?andb_false_r, ?andb_false_l, ?orb_false_r, ?orb_false_l.

Lemma rev8_bits a i :
  in_u 64 a -> 0 <= i < 64 -> Z.testbit (rev8 a) i = Z.testbit a (rev8_bit i).
Proof.
  intros Ha Hi.
  assert (Hall : Forall (λ i, Z.testbit (rev8 a) i = Z.testbit a (rev8_bit i)) (seqZ 0 64)).
  { let l := eval vm_compute in (seqZ 0 64) in change (seqZ 0 64) with l.
    repeat (apply Forall_cons; split; [unfold rev8; rev8_simpl a Ha; reflexivity|]).
    constructor. }
  rewrite Forall_forall in Hall. apply Hall, elem_of_seqZ. lia.
Qed.

Lemma rev8_range a : in_u 64 a -> in_u 64 (rev8 a).
Proof.
  intros Ha. apply range_of_bits; [lia|]. intros i Hi. unfold rev8.
  set (b := Z.lor (Z.land (Z.shiftr a 8) _) _).
  assert (Hb : in_u 64 b).
  { subst b. apply lor_range; [|apply wrapu_range; lia|lia]. apply range_of_bits; [lia|].
    intros j Hj. rewrite Z.land_spec, Z.shiftr_spec, (testbit_high 64 a) by (done || lia). done. }
  set (c := Z.lor (Z.land (Z.shiftr b 16) _) _).
  assert (Hc : in_u 64 c).
  { subst c. apply lor_range; [|apply wrapu_range; lia|lia]. apply range_of_bits; [lia|].
    intros j Hj. rewrite Z.land_spec, Z.shiftr_spec, (testbit_high 64 b) by (done || lia). done. }
  rewrite Z.lor_spec, Z.shiftr_spec, (testbit_high 64 c) by (done || lia).
  by rewrite testbit_wrapu, decide_False by lia.
Qed.

(** Equality of words through their 64 bits. *)
Lemma u64_bits_eq a b :
  in_u 64 a -> in_u 64 b -> (forall i, 0 <= i < 64 -> Z.testbit a i = Z.testbit b i) -> a = b.
Proof.
  intros Ha Hb Hab. apply Z.bits_inj'. intros i Hi. destruct (Z.lt_ge_cases i 64); [auto|].
  by rewrite (testbit_high 64 a), (testbit_high 64 b).
Qed.

Lemma rev8_bit_range i : 0 <= i < 64 -> 0 <= rev8_bit i < 64.
Proof. intros. unfold rev8_bit. Z.to_euclidean_division_equations. lia. Qed.

Lemma rev8_bit_invol i : 0 <= i < 64 -> rev8_bit (rev8_bit i) = i.
Proof. intros. unfold rev8_bit. Z.to_euclidean_division_equations. lia. Qed.

Lemma rev8_invol a : in_u 64 a -> rev8 (rev8 a) = a.
Proof.
  intros Ha. apply u64_bits_eq; [by apply rev8_range, rev8_range|done|]. intros i Hi.
  rewrite !rev8_bits; [|done|by apply rev8_bit_range|by apply rev8_range|done].
  by rewrite rev8_bit_invol.
Qed.

Lemma rev8_lxor a b : in_u 64 a -> in_u 64 b -> rev8 (Z.lxor a b) = Z.lxor (rev8 a) (rev8 b).
Proof.
  intros Ha Hb. assert (in_u 64 (Z.lxor a b)) by (by apply lxor_range).
  apply u64_bits_eq; [by apply rev8_range| |].
  { apply lxor_range; [by apply rev8_range..|lia]. }
  intros i Hi. rewrite Z.lxor_spec, !rev8_bits, Z.lxor_spec by done. done.
Qed.

Lemma shiftr_range w n a : 0 <= n -> in_u w a -> in_u w (Z.shiftr a n).
Proof.
  intros Hn [H0 H1]. rewrite Z.shiftr_div_pow2 by done. split; [apply Z.div_pos; lia|].
  eapply Z.le_lt_trans; [|exact H1]. apply Z.div_le_upper_bound; nia.
Qed.

Lemma rev8_shiftr a : in_u 64 a -> rev8 (Z.shiftr a 8) = u64 (Z.shiftl (rev8 a) 8).
Proof.
  intros Ha. assert (in_u 64 (Z.shiftr a 8)) by (apply shiftr_range; [lia|done]).
  apply u64_bits_eq; [by apply rev8_range|apply wrapu_range; lia|]. intros i Hi.
  pose proof (rev8_bit_range i Hi).
  rewrite rev8_bits, Z.shiftr_spec, testbit_wrapu, decide_True, Z.shiftl_spec by (done || lia).
  destruct (Z.lt_ge_cases i 8).
  - rewrite (Z.testbit_neg_r _ (i - 8)) by lia. apply (testbit_high 64); [done|].
    unfold rev8_bit. Z.to_euclidean_division_equations. lia.
  - rewrite rev8_bits by (done || lia). f_equal.
    unfold rev8_bit. Z.to_euclidean_division_equations. lia.
Qed.

(** The byte at position [k] of a word is at position [7 - k] of its reversal. *)
Lemma rev8_byte a k :
  in_u 64 a -> 0 <= k <= 7 ->
  Z.land (Z.shiftr (rev8 a) (8 * k)) 0xff = Z.land (Z.shiftr a (8 * (7 - k))) 0xff.
Proof.
  intros Ha Hk. change 0xff with (Z.ones 8). apply Z.bits_inj'. intros i Hi.
  rewrite !Z.land_spec, !Z.shiftr_spec by lia.
  rewrite Z.testbit_ones_nonneg by lia. destruct (Z.ltb_spec i 8); [|by rewrite !andb_false_r].
  rewrite !andb_true_r, rev8_bits by (done || lia). f_equal.
  unfold rev8_bit. Z.to_euclidean_division_equations. lia.
Qed.

Lemma shiftr_56_land a : in_u 64 a -> Z.shiftr a 56 = Z.land (Z.shiftr a (8 * 7)) 0xff.
Proof.
  intros Ha. change 0xff with (Z.ones 8). rewrite Z.land_ones by lia.
  symmetry. apply Z.mod_small, shiftr_u64_byte, Ha.
Qed.

(** Reading a word in the other byte order. *)
Lemma le_value_reverse bs :
  length bs = 8%nat -> Forall is_byte bs -> le_value (reverse bs) = rev8 (le_value bs).
Proof.
  intros Hl Hb. assert (Hr : in_u 64 (le_value bs)).
  { pose proof (le_value_range bs Hb) as H. by rewrite Hl in H. }
  apply u64_bits_eq; [|by apply rev8_range|].
  { pose proof (le_value_range (reverse bs)) as H. rewrite length_reverse, Hl in H.
    apply H. by apply Forall_reverse. }
  intros i Hi. rewrite rev8_bits by done.
  rewrite !le_value_bit by (done || by apply Forall_reverse || by apply rev8_bit_range || lia).
  assert (Hd : rev8_bit i / 8 = 7 - i / 8) by
    (unfold rev8_bit; Z.to_euclidean_division_equations; lia).
  assert (Hm : rev8_bit i mod 8 = i mod 8) by
    (unfold rev8_bit; Z.to_euclidean_division_equations; lia).
  rewrite Hd, Hm, reverse_lookup by (rewrite Hl; Z.to_euclidean_division_equations; lia).
  rewrite Hl. do 3 f_equal. Z.to_euclidean_division_equations. lia.
Qed.
