(* ===== verification/CrcSpec.v ===== *)
(** What the checksums compute: slicing by 8 agrees with the bit by bit
    algorithm on every host and alignment, the table driven CRC16 is the
    bit by bit XMODEM one, and the facts on key slots the cluster relies on. *)

From S2P Require Import Prelude Endian Crc CrcRev.

Local Open Scope Z_scope.

Lemma RPOLY_range : in_u 64 RPOLY.
Proof. apply crc_reflect_range. Qed.

Lemma rstep_range r : in_u 64 r -> in_u 64 (rstep RPOLY r).
Proof.
  intros Hr. assert (in_u 64 (Z.shiftr r 1)) by (apply shiftr_range; [lia|done]).
  unfold rstep. case_match; [|done]. apply lxor_range; [done|apply RPOLY_range|lia].
Qed.

Lemma rsteps_range n r : in_u 64 r -> in_u 64 (rsteps RPOLY n r).
Proof. intros Hr. induction n as [|n IH]; [done|]. by apply rstep_range. Qed.

Lemma byte_u64 b : is_byte b -> in_u 64 b.
Proof. cint. Qed.

Lemma feed_range r b : in_u 64 r -> is_byte b -> in_u 64 (rsteps RPOLY 8 (Z.lxor r b)).
Proof. intros Hr Hb. apply rsteps_range, lxor_range; [done|by apply byte_u64|lia]. Qed.

(** ** The little endian loops *)

Lemma le_value_word bs : length bs = 8%nat -> Forall is_byte bs -> in_u 64 (le_value bs).
Proof. intros Hl Hb. pose proof (le_value_range bs Hb) as H. by rewrite Hl in H. Qed.

Lemma feed_word r bs :
  length bs = 8%nat -> Forall is_byte bs ->
  crc64_ref r bs = rsteps RPOLY (8 * (7 + 1)) (Z.lxor r (le_value bs)).
Proof. intros Hl Hb. unfold crc64_ref. rewrite feed_bytes, Hl by done. done. Qed.

Lemma crcspeed64little_ok t r next buf :
  table_ok t -> in_u 64 r -> Forall is_byte buf ->
  crcspeed64little t r next buf = crc64_ref r buf.
Proof.
  intros Ht Hr Hb.
  apply (crc_loops_ok id (λ r b, rsteps RPOLY 8 (Z.lxor r b)) (in_u 64)); [..|done|done].
  - apply feed_range.
  - intros r' b _ Hb'. by apply little_byte_ok.
  - intros r' bs Hr' Hbs Hl. unfold id. rewrite little_word_ok; [|done|].
    + symmetry. by apply feed_word.
    + apply lxor_range; [done|by apply le_value_word|lia].
Qed.

(** ** The big endian loops *)

(** The big endian table holds the byte reversed entries. *)
Definition table_rev_ok (t : table64) : Prop :=
  forall k i, (k < 8)%nat -> is_byte i -> entry t k i = rev8 (rsteps RPOLY (8 * (k + 1)) i).

Lemma entry_map (f : Z -> Z) t k i :
  f 0 = 0 -> entry ((λ row : list Z, f <$> row) <$> t) k i = f (entry t k i).
Proof.
  intros Hf. unfold entry. rewrite !nth_lookup, list_lookup_fmap.
  destruct (t !! k) as [row|]; simpl; rewrite ?nth_lookup.
  - rewrite list_lookup_fmap. by destruct (row !! Z.to_nat i).
  - by destruct (Z.to_nat i).
Qed.

Lemma big_init_ok : table_rev_ok (crcspeed64big_init _crc64).
Proof.
  intros k i Hk Hi. unfold crcspeed64big_init. rewrite entry_map by reflexivity.
  by rewrite little_init_ok.
Qed.

Lemma land_255_lxor x b : is_byte b -> Z.lxor (Z.land x 0xff) b = Z.land (Z.lxor x b) 0xff.
Proof.
  intros Hb. apply Z.bits_inj'. intros i Hi. rewrite !Z.lxor_spec, !Z.land_spec, !Z.lxor_spec.
  change 0xff with (Z.ones 8). rewrite Z.testbit_ones_nonneg by lia.
  destruct (Z.ltb_spec i 8); [by rewrite !andb_true_r|].
  by rewrite (testbit_high 8 b), !andb_false_r by (done || lia).
Qed.

Lemma rev8_top_byte x : in_u 64 x -> Z.shiftr (rev8 x) 56 = Z.land x 0xff.
Proof.
  intros Hx. rewrite shiftr_56_land by (by apply rev8_range).
  rewrite rev8_byte by (done || lia). done.
Qed.

Lemma big_byte_ok t crc b :
  table_rev_ok t -> in_u 64 crc -> is_byte b ->
  big_byte t (rev8 crc) b = rev8 (rsteps RPOLY 8 (Z.lxor crc b)).
Proof.
  intros Ht Hc Hb. unfold big_byte. rewrite rev8_top_byte, land_255_lxor by done.
  rewrite Ht by (lia || apply land_255_byte). rewrite <- rev8_shiftr by done.
  rewrite <- (shiftr_lxor_byte crc b Hb). rewrite <- rev8_lxor.
  - f_equal. apply byte_step.
  - apply rsteps_range, byte_u64, land_255_byte.
  - apply shiftr_range; [lia|]. apply lxor_range; [done|by apply byte_u64|lia].
Qed.

Lemma rev8_byte_at a s s' :
  in_u 64 a -> 0 <= s <= 56 -> s mod 8 = 0 -> s + s' = 56 ->
  Z.land (Z.shiftr (rev8 a) s) 0xff = Z.land (Z.shiftr a s') 0xff.
Proof.
  intros Ha Hs Hm He. pose proof (rev8_byte a (s / 8) Ha) as Hb.
  rewrite <- Z_div_exact_full_2 in Hb by lia.
  rewrite Hb by (Z.to_euclidean_division_equations; lia).
  do 2 f_equal. Z.to_euclidean_division_equations. lia.
Qed.

Lemma rev8_lxor8 a b c d e f g h :
  in_u 64 a -> in_u 64 b -> in_u 64 c -> in_u 64 d ->
  in_u 64 e -> in_u 64 f -> in_u 64 g -> in_u 64 h ->
  rev8 (Z.lxor (Z.lxor (Z.lxor (Z.lxor (Z.lxor (Z.lxor (Z.lxor a b) c) d) e) f) g) h) =
  Z.lxor (Z.lxor (Z.lxor (Z.lxor (Z.lxor (Z.lxor (Z.lxor
    (rev8 h) (rev8 g)) (rev8 f)) (rev8 e)) (rev8 d)) (rev8 c)) (rev8 b)) (rev8 a).
Proof.
  intros. rewrite !rev8_lxor by (repeat apply lxor_range; done || lia).
  rewrite !Z.lxor_assoc. 
  rewrite (Z.lxor_comm (rev8 b) (rev8 a)).
  rewrite (Z.lxor_comm (rev8 a)). rewrite !Z.lxor_assoc.
  apply Z.bits_inj'. intros i Hi. rewrite !Z.lxor_spec.
  by destruct (Z.testbit (rev8 a) i), (Z.testbit (rev8 b) i), (Z.testbit (rev8 c) i),
    (Z.testbit (rev8 d) i), (Z.testbit (rev8 e) i), (Z.testbit (rev8 f) i),
    (Z.testbit (rev8 g) i), (Z.testbit (rev8 h) i).
Qed.

Lemma big_word_ok t crc w :
  table_rev_ok t -> in_u 64 crc -> in_u 64 w ->
  big_word t (rev8 crc) (rev8 w) = rev8 (rsteps RPOLY (8 * (7 + 1)) (Z.lxor crc w)).
Proof.
  intros Ht Hc Hw. unfold big_word. rewrite <- rev8_lxor by done.
  assert (Hx : in_u 64 (Z.lxor crc w)) by (by apply lxor_range).
  set (x := Z.lxor crc w) in *.
  rewrite rsteps_word, rev8_lxor8
    by (apply rsteps_range; first [apply byte_u64, land_255_byte | apply shiftr_range; [lia|done]]).
  rewrite !Ht by (lia || apply land_255_byte || by apply shiftr_u64_byte, rev8_range).
  rewrite rev8_top_byte by done.
  rewrite <- (Z.shiftr_0_r (rev8 x)) at 1.
  rewrite (rev8_byte_at x 0 56), (rev8_byte_at x 8 48), (rev8_byte_at x 16 40),
    (rev8_byte_at x 24 32), (rev8_byte_at x 32 24), (rev8_byte_at x 40 16),
    (rev8_byte_at x 48 8) by (done || lia).
  pose proof (shiftr_56_land x Hx) as E. change (8 * 7) with 56 in E. by rewrite <- E.
Qed.

Lemma crcspeed64big_ok t r next buf :
  table_rev_ok t -> in_u 64 r -> Forall is_byte buf ->
  crcspeed64big t r next buf = crc64_ref r buf.
Proof.
  intros Ht Hr Hb. unfold crcspeed64big.
  assert (Hf : in_u 64 (crc64_ref r buf)).
  { apply (fold_P (λ r b, rsteps RPOLY 8 (Z.lxor r b)) (in_u 64)); [apply feed_range|done..]. }
  rewrite <- (rev8_invol (crc64_ref r buf)) by done.
  pose proof (crc_loops_ok rev8 (λ r b, rsteps RPOLY 8 (Z.lxor r b)) (in_u 64)
    (big_byte t) (big_word t) (λ bs, le_value (reverse bs)) feed_range) as Hl.
  unfold crc64_ref. rewrite <- (Hl) with (next := next); [..|done|done].
  - by destruct (head_loop _ _ _ _), (word_loop _ _ _ _).
  - intros. by apply big_byte_ok.
  - intros r' bs Hr' Hbs Hlen. rewrite le_value_reverse by done.
    rewrite big_word_ok by (done || by apply le_value_word).
    f_equal. symmetry. by apply feed_word.
Qed.

(** ** CRC64 on every host *)

Lemma crc64_eq_ref (h : Host) r addr s :
  in_u 64 r -> Forall is_byte s -> crc64 crc64_init r addr s = crc64_ref r s.
Proof.
  intros Hr Hs. unfold crc64, crcspeed64native, crc64_init, crcspeed64native_init.
  destruct big_endian.
  - apply crcspeed64big_ok; [apply big_init_ok|done..].
  - apply crcspeed64little_ok; [apply little_init_ok|done..].
Qed.

Lemma crc_reflect_invol r : in_u 64 r -> crc_reflect (crc_reflect r 64) 64 = r.
Proof.
  intros Hr. apply u64_bits_eq; [apply crc_reflect_range|done|]. intros i Hi.
  rewrite !crc_reflect_bits, !decide_True by lia. f_equal. lia.
Qed.

(** C33: the slicing-by-8 [crc64] used for RDB files and DUMP payloads computes,
    on hosts of either byte order and for every alignment of the buffer, exactly
    what the bit by bit [_crc64] computes when it continues from the same
    (reflected) register. *)
Theorem crc64_slicing_equiv (h : Host) r addr s :
  in_u 64 r -> Forall is_byte s ->
  crc64 crc64_init r addr s = _crc64 (crc_reflect r 64) s.
Proof.
  intros Hr Hs. rewrite crc64_eq_ref, _crc64_ref by (done || apply crc_reflect_range).
  by rewrite crc_reflect_invol.
Qed.

(** The step is injective on 64 bit registers: the top bit of the result tells
    which branch was taken. *)
Lemma rstep_inj a b : in_u 64 a -> in_u 64 b -> rstep RPOLY a = rstep RPOLY b -> a = b.
Proof.
  intros Ha Hb He.
  assert (Htop : forall x, in_u 64 x -> Z.testbit (rstep RPOLY x) 63 = Z.odd x).
  { intros x Hx. unfold rstep. destruct (Z.odd x); rewrite ?Z.lxor_spec, Z.shiftr_spec by lia;
    by rewrite (testbit_high 64 x) by (done || lia). }
  assert (Ho : Z.odd a = Z.odd b) by (by rewrite <- !Htop, He).
  assert (Hsh : Z.shiftr a 1 = Z.shiftr b 1).
  { unfold rstep in He. rewrite Ho in He. destruct (Z.odd b); [|done].
    apply (f_equal (λ x, Z.lxor x RPOLY)) in He.
    by rewrite !Z.lxor_assoc, Z.lxor_nilpotent, !Z.lxor_0_r in He. }
  apply u64_bits_eq; [done..|]. intros i Hi. destruct (Z.eq_dec i 0) as [->|].
  - by rewrite !Z.bit0_odd.
  - replace i with (i - 1 + 1) by lia. by rewrite <- !Z.shiftr_spec, Hsh by lia.
Qed.

Lemma rsteps_inj n a b :
  in_u 64 a -> in_u 64 b -> rsteps RPOLY n a = rsteps RPOLY n b -> a = b.
Proof.
  intros Ha Hb. induction n as [|n IH]; [done|]. simpl. intros He.
  apply IH. apply rstep_inj; [by apply rsteps_range..|done].
Qed.

Lemma lxor_cancel_r a b c : Z.lxor a c = Z.lxor b c -> a = b.
Proof.
  intros He. apply (f_equal (λ x, Z.lxor x c)) in He.
  by rewrite !Z.lxor_assoc, Z.lxor_nilpotent, !Z.lxor_0_r in He.
Qed.

Lemma crc64_ref_range r s : in_u 64 r -> Forall is_byte s -> in_u 64 (crc64_ref r s).
Proof.
  intros. apply (fold_P (λ r b, rsteps RPOLY 8 (Z.lxor r b)) (in_u 64)); [apply feed_range|done..].
Qed.

Lemma crc64_ref_inj s : forall r r',
  in_u 64 r -> in_u 64 r' -> Forall is_byte s -> crc64_ref r s = crc64_ref r' s -> r = r'.
Proof.
  induction s as [|b s IH]; intros r r' Hr Hr' Hs; [done|]. inversion Hs; subst.
  unfold crc64_ref. cbn [fold_left]. intros He. apply IH in He; [|by apply feed_range..|done].
  apply rsteps_inj in He; [by apply lxor_cancel_r in He| |];
    (apply lxor_range; [done|by apply byte_u64|lia]).
Qed.

Lemma crc64_ref_app r a b : crc64_ref r (a ++ b) = crc64_ref (crc64_ref r a) b.
Proof. apply fold_left_app. Qed.

Lemma le_value_u64 w : (length w <= 8)%nat -> Forall is_byte w -> in_u 64 (le_value w).
Proof.
  intros Hl Hw. destruct (le_value_range w Hw) as [? Hlt]. split; [done|].
  eapply Z.lt_le_trans; [exact Hlt|]. apply Z.pow_le_mono_r; lia.
Qed.

Lemma crc64_ref_window w w' r :
  (length w <= 8)%nat -> length w = length w' -> in_u 64 r ->
  Forall is_byte w -> Forall is_byte w' -> crc64_ref r w = crc64_ref r w' -> w = w'.
Proof.
  intros Hl Hl' Hr Hw Hw' He. unfold crc64_ref in He. rewrite !feed_bytes, Hl' in He by done.
  apply rsteps_inj in He; [|apply lxor_range; [done|apply le_value_u64; [lia|done]|lia]..].
  rewrite !(Z.lxor_comm r) in He. apply lxor_cancel_r in He.
  rewrite <- (le_bytes_value w), <- (le_bytes_value w'), Hl', He by done. done.
Qed.

(** Checksums can be computed piecewise, as the RDB writer does: continuing
    from the checksum of a prefix gives the checksum of the whole, wherever the
    pieces lie in memory. *)
Theorem crc64_chunks (h : Host) r addr addr1 addr2 a b :
  in_u 64 r -> Forall is_byte a -> Forall is_byte b ->
  crc64 crc64_init (crc64 crc64_init r addr1 a) addr2 b = crc64 crc64_init r addr (a ++ b).
Proof.
  intros Hr Ha Hb. rewrite (crc64_eq_ref h r addr1), (crc64_eq_ref h r addr) by
    (done || by apply Forall_app).
  rewrite crc64_eq_ref by (done || by apply crc64_ref_range). symmetry. apply crc64_ref_app.
Qed.

(** Every corruption confined to a window of eight bytes is detected: two
    buffers that differ only there have different checksums. *)
Theorem crc64_detects_burst (h : Host) r addr addr' a w w' c :
  in_u 64 r -> Forall is_byte a -> Forall is_byte w -> Forall is_byte w' -> Forall is_byte c ->
  length w = length w' -> (length w <= 8)%nat -> w <> w' ->
  crc64 crc64_init r addr (a ++ w ++ c) <> crc64 crc64_init r addr' (a ++ w' ++ c).
Proof.
  intros Hr Ha Hw Hw' Hc Hl Hl8 Hne He. apply Hne.
  rewrite !crc64_eq_ref in He by (done || by repeat apply Forall_app_2).
  rewrite !crc64_ref_app in He. pose proof (crc64_ref_range r a Hr Ha).
  apply crc64_ref_inj in He; [|by apply crc64_ref_range..|done].
  by apply (crc64_ref_window w w' (crc64_ref r a)).
Qed.

Lemma crc64_slicing_equiv_witness :
  let h : Host := true in
  crc64 crc64_init 0 5 [49;50;51;52;53;54;55;56;57;0;255;1] =
  _crc64 (crc_reflect 0 64) [49;50;51;52;53;54;55;56;57;0;255;1].
Proof.
  apply crc64_slicing_equiv.
  - by_compute.
  - by_compute.
Defined.

Lemma crc64_chunks_witness :
  let h : Host := false in
  crc64 crc64_init (crc64 crc64_init 7 3 [1; 2; 3]) 100 [250; 0] = crc64 crc64_init 7 1 [1; 2; 3; 250; 0].
Proof.
  apply (crc64_chunks false 7 1 3 100 [1; 2; 3] [250; 0]);
    by_compute.
Defined.

Lemma crc64_detects_burst_witness :
  let h : Host := false in
  crc64 crc64_init 0 0 [9; 1; 2; 8] <> crc64 crc64_init 0 4 [9; 1; 3; 8].
Proof.
  apply (crc64_detects_burst false 0 0 4 [9] [1; 2] [1; 3] [8]);
    by_compute.
Defined.

(** ** CRC16 *)

(** The bit by bit definition given by the comment of [crc16.c]: polynomial
    0x1021, most significant bit first, no reflection. *)
Definition xmodem_bit (crc : Z) : Z :=
  if Z.testbit crc 15 then Z.lxor (u16 (Z.shiftl crc 1)) 0x1021 else u16 (Z.shiftl crc 1).

Definition xmodem_step (crc b : Z) : Z :=
  Nat.iter 8 xmodem_bit (Z.lxor crc (Z.shiftl b 8)).

Definition xmodem (buf : bytes) : Z := fold_left xmodem_step buf 0.

Lemma i8_land b x : is_byte b -> Z.land (Z.lxor x (i8 b)) 0x00FF = Z.land (Z.lxor x b) 0xff.
Proof.
  intros Hb. change 0x00FF with (Z.ones 8). apply Z.bits_inj'. intros i Hi.
  rewrite !Z.land_spec, !Z.lxor_spec, Z.testbit_ones_nonneg by lia.
  destruct (Z.ltb_spec i 8); [|by rewrite !andb_false_r]. do 2 f_equal.
  assert (He : wrapu 8 (i8 b) = wrapu 8 b).
  { unfold wrapu, wraps. cbn [Z.sub]. rewrite Zminus_mod_idemp_l. f_equal. lia. }
  assert (Ht : forall z, Z.testbit z i = Z.testbit (wrapu 8 z) i)
    by (intros; by rewrite testbit_wrapu, decide_True by lia).
  by rewrite (Ht (i8 b)), (Ht b), He.
Qed.

(** The byte enters through the top of the register. *)
Lemma crc16_step_top crc b :
  is_byte b -> crc16_step crc b = crc16_step (Z.lxor crc (Z.shiftl b 8)) 0.
Proof.
  intros Hb. unfold crc16_step. rewrite i8_land by done. change (i8 0) with 0.
  rewrite Z.lxor_0_r, Z.shiftr_lxor, Z.shiftr_shiftl_l, Z.sub_diag, Z.shiftl_0_r by lia.
  set (e := nth _ _ _). rewrite Z.shiftl_lxor, Z.shiftl_shiftl by lia.
  apply Z.bits_inj'. intros i Hi. rewrite !testbit_wrapu by lia. case_decide; [|done].
  rewrite !Z.lxor_spec. rewrite (Z.shiftl_spec_low b) by lia. by rewrite xorb_false_r.
Qed.

Lemma u16_cases (P : Z -> Z -> bool) :
  forallb (λ hi, forallb (P hi) (seqZ 0 256)) (seqZ 0 256) = true ->
  forall x, in_u 16 x -> P (x / 256) (x mod 256) = true.
Proof.
  intros Hall x Hx. rewrite forallb_forall in Hall.
  specialize (Hall (x / 256)). rewrite forallb_forall in Hall.
  apply Hall; apply list_elem_of_In, elem_of_seqZ; Z.to_euclidean_division_equations; cint.
Qed.

Definition crc16_agrees (hi lo : Z) : bool :=
  crc16_step (256 * hi + lo) 0 =? Nat.iter 8 xmodem_bit (256 * hi + lo).

Lemma crc16_agrees_all x : in_u 16 x -> crc16_agrees (x / 256) (x mod 256) = true.
Proof. apply u16_cases. vm_compute. reflexivity. Qed.

Lemma crc16_step_xmodem crc b :
  in_u 16 crc -> is_byte b -> crc16_step crc b = xmodem_step crc b.
Proof.
  intros Hc Hb. rewrite crc16_step_top by done. unfold xmodem_step.
  assert (Hx : in_u 16 (Z.lxor crc (Z.shiftl b 8))).
  { apply lxor_range; [done| |lia]. rewrite Z.shiftl_mul_pow2 by lia. cint. }
  revert Hx. generalize (Z.lxor crc (Z.shiftl b 8)). intros x Hx.
  apply crc16_agrees_all in Hx. apply Z.eqb_eq in Hx.
  by rewrite <- (Z.div_mod x 256) in Hx by lia.
Qed.

Lemma crc16_step_range crc b : in_u 16 (crc16_step crc b).
Proof. apply wrapu_range. lia. Qed.

Lemma crc16_range buf : in_u 16 (crc16 buf).
Proof.
  unfold crc16. assert (H0 : in_u 16 0) by cint. revert H0. generalize 0.
  induction buf; intros; simpl; [done|]. apply IHbuf, crc16_step_range.
Qed.

(** The table driven [crc16] is the bit by bit CRC-16/XMODEM its comment
    specifies (polynomial 0x1021, initial value 0, no reflection). *)
Theorem crc16_is_xmodem buf : Forall is_byte buf -> crc16 buf = xmodem buf.
Proof.
  unfold crc16, xmodem. assert (H0 : in_u 16 0) by cint. revert H0. generalize 0.
  intros r Hr Hb. revert r Hr. induction Hb; intros r Hr; simpl; [done|].
  rewrite <- crc16_step_xmodem by done. apply IHHb, crc16_step_range.
Qed.

Lemma crc16_is_xmodem_witness : crc16 [49; 50; 200] = xmodem [49; 50; 200].
Proof. apply crc16_is_xmodem. by_compute. Defined.

(** ** Slots *)

Lemma scan_char_app c pre rest i :
  c ∉ pre -> scan_char c (pre ++ c :: rest) i = (i + length pre)%nat.
Proof.
  revert i. induction pre as [|x pre IH]; intros i Hc; simpl.
  - rewrite Z.eqb_refl. lia.
  - apply not_elem_of_cons in Hc as [Hx Hc].
    rewrite (proj2 (Z.eqb_neq x c)) by congruence. rewrite IH by done. lia.
Qed.

Lemma scan_char_none c key i : c ∉ key -> scan_char c key i = (i + length key)%nat.
Proof.
  revert i. induction key as [|x key IH]; intros i Hc; simpl; [lia|].
  apply not_elem_of_cons in Hc as [Hx Hc].
  rewrite (proj2 (Z.eqb_neq x c)) by congruence. rewrite IH by done. lia.
Qed.

Lemma first_split (c : Z) key : c ∈ key -> exists pre post, key = pre ++ c :: post /\ c ∉ pre.
Proof.
  induction key as [|x key IH]; [by intros ?%not_elem_of_nil|]. intros Hc.
  destruct (decide (x = c)) as [->|].
  - exists [], key. split; [done|apply not_elem_of_nil].
  - apply elem_of_cons in Hc as [?|Hc]; [congruence|].
    destruct (IH Hc) as (pre & post & -> & ?). exists (x :: pre), post.
    split; [done|]. by rewrite not_elem_of_cons.
Qed.

Lemma drop_prefix {A} (pre : list A) x rest : drop (length pre + 1) (pre ++ x :: rest) = rest.
Proof. rewrite drop_app_ge by lia. by replace (length pre + 1 - length pre)%nat with 1%nat by lia. Qed.

Lemma keyHashSlot_brace pre rest :
  123 ∉ pre ->
  keyHashSlot (pre ++ 123 :: rest) =
  let e := scan_char 125 rest (length pre + 1) in
  if ((e =? length pre + 1 + length rest) || (e =? length pre + 1))%nat
  then Z.land (crc16 (pre ++ 123 :: rest)) 0x3FFF
  else Z.land (crc16 (take (e - length pre - 1) rest)) 0x3FFF.
Proof.
  intros Hp. unfold keyHashSlot. rewrite scan_char_app by done. simpl (0 + _)%nat.
  rewrite drop_prefix, length_app. cbn [length].
  rewrite (proj2 (Nat.eqb_neq (length pre) _)) by lia.
  replace (length pre + S (length rest))%nat with (length pre + 1 + length rest)%nat by lia.
  done.
Qed.

Lemma keyHashSlot_tag pre tag post :
  123 ∉ pre -> 125 ∉ tag -> tag <> [] ->
  keyHashSlot (pre ++ 123 :: tag ++ 125 :: post) = Z.land (crc16 tag) 0x3FFF.
Proof.
  intros Hp Ht Hne. rewrite keyHashSlot_brace by done. cbn zeta.
  rewrite scan_char_app, length_app by done. cbn [length].
  assert (length tag <> 0%nat) by (by destruct tag).
  rewrite (proj2 (Nat.eqb_neq _ (length pre + 1 + _))) by lia.
  rewrite (proj2 (Nat.eqb_neq _ (length pre + 1))) by lia. cbn [orb].
  replace (length pre + 1 + length tag - length pre - 1)%nat with (length tag) by lia.
  by rewrite take_app_length.
Qed.

Lemma keyHashSlot_no_tag key :
  (forall pre tag post, key = pre ++ 123 :: tag ++ 125 :: post -> 123 ∉ pre -> 125 ∉ tag -> tag = []) ->
  keyHashSlot key = Z.land (crc16 key) 0x3FFF.
Proof.
  intros Hno. destruct (decide (123 ∈ key)) as [Hin|Hnin].
  2:{ unfold keyHashSlot. rewrite scan_char_none by done. by rewrite Nat.eqb_refl. }
  destruct (first_split 123 key Hin) as (pre & rest & -> & Hp).
  rewrite keyHashSlot_brace by done. cbn zeta. destruct (decide (125 ∈ rest)) as [Hin'|Hnin'].
  - destruct (first_split 125 rest Hin') as (tag & post & -> & Ht).
    rewrite (Hno pre tag post) by done. rewrite scan_char_app by apply not_elem_of_nil.
    simpl length. rewrite Nat.add_0_r, (Nat.eqb_refl (length pre + 1)), orb_true_r. done.
  - rewrite scan_char_none, Nat.eqb_refl by done. done.
Qed.

(** [keyHashSlot] implements the hash tag rule of the cluster.  A key whose
    first '{' is followed by a non empty text up to the next '}' is hashed by that
    text alone, so all keys sharing a tag share a slot; every other key is
    hashed whole; and the slot is always one of the 16384. *)
Theorem keyHashSlot_hash_tag key :
  (forall pre tag post,
     key = pre ++ 123 :: tag ++ 125 :: post -> 123 ∉ pre -> 125 ∉ tag -> tag <> [] ->
     keyHashSlot key = Z.land (crc16 tag) 0x3FFF) /\
  ((forall pre tag post,
      key = pre ++ 123 :: tag ++ 125 :: post -> 123 ∉ pre -> 125 ∉ tag -> tag = []) ->
   keyHashSlot key = Z.land (crc16 key) 0x3FFF) /\
  0 <= keyHashSlot key < 16384.
Proof.
  split_and!.
  1: intros pre tag post ->; apply keyHashSlot_tag.
  1: apply keyHashSlot_no_tag.
  all: assert (Hr : forall x, 0 <= Z.land x 0x3FFF < 16384) by (intros; apply (land_ones_range 14); lia).
  all: unfold keyHashSlot; repeat case_match; apply Hr.
Qed.

Example keyHashSlot_user : keyHashSlot [123; 97; 125; 98] = keyHashSlot [99; 123; 97; 125].
Proof. vm_compute. reflexivity. Qed.
