(* ===== verification/Intset.v ===== *)
(** Sets of 64 bit integers stored as a sorted array of 16, 32 or 64 bit
    elements: [intset.c].

    [intset] is the C struct: the two header words as they are in memory (so a
    read goes through [intrev32ifbe]) and the bytes of the flexible array
    [contents].  A function that accesses memory or asserts returns [None] when
    the access leaves the allocation or the assertion fails. *)

From S2P Require Import Prelude Endian.
From stdpp Require Import sorting gmap.

Local Open Scope Z_scope.

Record intset := mk_intset {
  encoding : Z;
  is_length : Z;
  contents : bytes }.

Definition set_encoding (e : Z) (iset : intset) : intset :=
  mk_intset e (is_length iset) (contents iset).
Definition set_length (n : Z) (iset : intset) : intset :=
  mk_intset (encoding iset) n (contents iset).
Definition set_contents (m : bytes) (iset : intset) : intset :=
  mk_intset (encoding iset) (is_length iset) m.

Definition INTSET_ENC_INT16 : Z := 2.
Definition INTSET_ENC_INT32 : Z := 4.
Definition INTSET_ENC_INT64 : Z := 8.

Definition INT16_MIN : Z := - 2 ^ 15.
Definition INT16_MAX : Z := 2 ^ 15 - 1.
Definition INT32_MIN : Z := - 2 ^ 31.
Definition INT32_MAX : Z := 2 ^ 31 - 1.
Definition SIZE_MAX : Z := 2 ^ 64 - 1.
(** [sizeof(intset)]: two 32 bit header words. *)
Definition sizeof_intset : Z := 8.

Definition _intsetValueEncoding (v : Z) : Z :=
  if (v <? INT32_MIN) || (v >? INT32_MAX) then INTSET_ENC_INT64
  else if (v <? INT16_MIN) || (v >? INT16_MAX) then INTSET_ENC_INT32
  else INTSET_ENC_INT16.

Section host.
Context `{Host}.

Definition _intsetGetEncoded (iset : intset) (pos enc : Z) : option Z :=
  if enc =? INTSET_ENC_INT64 then
    v64 ← rd (contents iset) (pos * 8) 8;
    v64' ← memrev64ifbe v64 0;
    Some (i64 (native_value v64'))
  else if enc =? INTSET_ENC_INT32 then
    v32 ← rd (contents iset) (pos * 4) 4;
    v32' ← memrev32ifbe v32 0;
    Some (i32 (native_value v32'))
  else
    v16 ← rd (contents iset) (pos * 2) 2;
    v16' ← memrev16ifbe v16 0;
    Some (i16 (native_value v16')).

Definition _intsetGet (iset : intset) (pos : Z) : option Z :=
  _intsetGetEncoded iset pos (u8 (intrev32ifbe (encoding iset))).

Definition _intsetSet (iset : intset) (pos value : Z) : option intset :=
  let enc := intrev32ifbe (encoding iset) in
  if enc =? INTSET_ENC_INT64 then
    m ← wr (contents iset) (pos * 8) (native_bytes 8 value);
    m' ← memrev64ifbe m (pos * 8);
    Some (set_contents m' iset)
  else if enc =? INTSET_ENC_INT32 then
    m ← wr (contents iset) (pos * 4) (native_bytes 4 value);
    m' ← memrev32ifbe m (pos * 4);
    Some (set_contents m' iset)
  else
    m ← wr (contents iset) (pos * 2) (native_bytes 2 value);
    m' ← memrev16ifbe m (pos * 2);
    Some (set_contents m' iset).

Definition intsetNew : intset :=
  mk_intset (intrev32ifbe INTSET_ENC_INT16) 0 [].

(** [junk] is what the allocator leaves in newly allocated bytes. *)
Context (junk : Z).

Definition intsetResize (iset : intset) (len : Z) : option intset :=
  let size := u64 (len * intrev32ifbe (encoding iset)) in
  if size <=? SIZE_MAX - sizeof_intset
  then Some (set_contents (realloc junk (contents iset) (Z.to_nat size)) iset)
  else None.

(** The binary search loop of [intsetSearch]; the result is the loop's final
    [(min, mid, cur)]. *)
Fixpoint intsetSearch_loop (fuel : nat) (iset : intset) (value min max mid cur : Z)
    : option (Z * Z * Z) :=
  match fuel with
  | O => None
  | S fuel' =>
      if max >=? min then
        let mid := i32 (Z.shiftr (u32 (u32 min + u32 max)) 1) in
        cur ← _intsetGet iset mid;
        if value >? cur then intsetSearch_loop fuel' iset value (mid + 1) max mid cur
        else if value <? cur then intsetSearch_loop fuel' iset value min (mid - 1) mid cur
        else Some (min, mid, cur)
      else Some (min, mid, cur)
  end.

(** The result is the returned flag and the value left in [*pos]. *)
Definition intsetSearch (iset : intset) (value : Z) : option (bool * Z) :=
  let len := intrev32ifbe (is_length iset) in
  let min := 0 in
  let max := i32 (len - 1) in
  let search :=
    '(min, mid, cur) ← intsetSearch_loop (S (Z.to_nat len)) iset value min max (-1) (-1);
    if value =? cur then Some (true, u32 mid) else Some (false, u32 min) in
  if len =? 0 then Some (false, 0)
  else
    last ← _intsetGet iset max;
    if value >? last then Some (false, len)
    else
      first ← _intsetGet iset 0;
      if value <? first then Some (false, 0) else search.

(** [while(length--) _intsetSet(is,length+prepend,_intsetGetEncoded(is,length,curenc))] *)
Fixpoint upgrade_loop (length : nat) (iset : intset) (prepend curenc : Z) : option intset :=
  match length with
  | O => Some iset
  | S length' =>
      v ← _intsetGetEncoded iset (Z.of_nat length') curenc;
      iset' ← _intsetSet iset (Z.of_nat length' + prepend) v;
      upgrade_loop length' iset' prepend curenc
  end.

Definition intsetUpgradeAndAdd (iset : intset) (value : Z) : option intset :=
  let curenc := u8 (intrev32ifbe (encoding iset)) in
  let newenc := _intsetValueEncoding value in
  let length := i32 (intrev32ifbe (is_length iset)) in
  let prepend := if value <? 0 then 1 else 0 in
  let iset := set_encoding (intrev32ifbe newenc) iset in
  iset ← intsetResize iset (u32 (intrev32ifbe (is_length iset) + 1));
  iset ← upgrade_loop (Z.to_nat length) iset prepend curenc;
  iset ← (if prepend =? 1 then _intsetSet iset 0 value
        else _intsetSet iset (i32 (intrev32ifbe (is_length iset))) value);
  Some (set_length (intrev32ifbe (u32 (intrev32ifbe (is_length iset) + 1))) iset).

(** The byte count is kept in a [uint32_t]. *)
Definition intsetMoveTail_bytes (iset : intset) (from : Z) : Z :=
  let n := u32 (intrev32ifbe (is_length iset) - from) in
  let enc := intrev32ifbe (encoding iset) in
  if enc =? INTSET_ENC_INT64 then u32 (n * 8)
  else if enc =? INTSET_ENC_INT32 then u32 (n * 4)
  else u32 (n * 2).

Definition intsetMoveTail (iset : intset) (from to : Z) : option intset :=
  let bytes := intsetMoveTail_bytes iset from in
  let enc := intrev32ifbe (encoding iset) in
  let esize := if enc =? INTSET_ENC_INT64 then 8
               else if enc =? INTSET_ENC_INT32 then 4 else 2 in
  m ← memmove (contents iset) (to * esize) (from * esize) (Z.to_nat bytes);
  Some (set_contents m iset).

(** The result is the new set and the value left in [*success]. *)
Definition intsetAdd (iset : intset) (value : Z) : option (intset * bool) :=
  let valenc := _intsetValueEncoding value in
  if valenc >? intrev32ifbe (encoding iset) then
    iset ← intsetUpgradeAndAdd iset value; Some (iset, true)
  else
    '(found, pos) ← intsetSearch iset value;
    if (found : bool) then Some (iset, false)
    else
      iset ← intsetResize iset (u32 (intrev32ifbe (is_length iset) + 1));
      iset ← (if pos <? intrev32ifbe (is_length iset)
            then intsetMoveTail iset pos (u32 (pos + 1)) else Some iset);
      iset ← _intsetSet iset (i32 pos) value;
      Some (set_length (intrev32ifbe (u32 (intrev32ifbe (is_length iset) + 1))) iset, true).

Definition intsetRemove (iset : intset) (value : Z) : option (intset * bool) :=
  let valenc := _intsetValueEncoding value in
  if valenc <=? intrev32ifbe (encoding iset) then
    '(found, pos) ← intsetSearch iset value;
    if (found : bool) then
      let len := intrev32ifbe (is_length iset) in
      iset ← (if pos <? u32 (len - 1) then intsetMoveTail iset (u32 (pos + 1)) pos else Some iset);
      iset ← intsetResize iset (u32 (len - 1));
      Some (set_length (intrev32ifbe (u32 (len - 1))) iset, true)
    else Some (iset, false)
  else Some (iset, false).

Definition intsetFind (iset : intset) (value : Z) : option bool :=
  let valenc := _intsetValueEncoding value in
  if valenc <=? intrev32ifbe (encoding iset) then fst <$> intsetSearch iset value
  else Some false.

(** [rand] is the value returned by [rand()]. *)
Definition intsetRandom (rand : Z) (iset : intset) : option Z :=
  let len := intrev32ifbe (is_length iset) in
  if len =? 0 then None else _intsetGet iset (i32 (u32 rand mod len)).

(** [Some None] is the C result 0 (position out of range). *)
Definition intsetGet (iset : intset) (pos : Z) : option (option Z) :=
  if pos <? intrev32ifbe (is_length iset) then Some <$> _intsetGet iset (i32 pos)
  else Some None.

Definition intsetLen (iset : intset) : Z := intrev32ifbe (is_length iset).

Definition intsetBlobLen (iset : intset) : Z :=
  u64 (sizeof_intset + u64 (intrev32ifbe (is_length iset) * intrev32ifbe (encoding iset))).

(** The order check of [intsetValidateIntegrity]: [i] runs up to [count]. *)
Fixpoint validate_loop (todo : nat) (iset : intset) (prev i : Z) : option bool :=
  match todo with
  | O => Some true
  | S todo' =>
      cur ← _intsetGet iset (i32 i);
      if cur <=? prev then Some false else validate_loop todo' iset cur (i + 1)
  end.

(** [p] points to [size] bytes: the header words and then the elements. *)
Definition intsetValidateIntegrity (p : bytes) (size : Z) (deep : bool) : option bool :=
  if size <? sizeof_intset then Some false
  else
    e ← rd p 0 4;
    l ← rd p 4 4;
    let iset := mk_intset (native_value e) (native_value l) (drop 8 p) in
    let enc := intrev32ifbe (encoding iset) in
    let check (record_size : Z) :=
      let count := intrev32ifbe (is_length iset) in
      if negb (u64 (sizeof_intset + u64 (count * record_size)) =? size) then Some false
      else if count =? 0 then Some false
      else if negb deep then Some true
      else
        prev ← _intsetGet iset 0;
        validate_loop (Z.to_nat (count - 1)) iset prev 1 in
    if enc =? INTSET_ENC_INT64 then check INTSET_ENC_INT64
    else if enc =? INTSET_ENC_INT32 then check INTSET_ENC_INT32
    else if enc =? INTSET_ENC_INT16 then check INTSET_ENC_INT16
    else Some false.

End host.

(** ** Element access

    [load] and [store] read and write one element of size [e] in the little
    endian layout; the C accessors are [load] and [store] on every host. *)

Definition enc_ok (e : Z) : Prop := e = 2 \/ e = 4 \/ e = 8.

Definition load (m : bytes) (e i : Z) : option Z :=
  bs ← rd m (i * e) (Z.to_nat e); Some (wraps (8 * e) (le_value bs)).
Definition store (m : bytes) (e i v : Z) : option bytes :=
  wr m (i * e) (le_bytes (Z.to_nat e) v).

Ltac enc_cases H :=
  destruct H as [H | [H | H]]; first [is_var H; progress subst | rewrite H in *].

Section host_facts.
Context `{Host}.

Abbreviation enc s := (intrev32ifbe (encoding s)).

Lemma enc_ok_u32 e : enc_ok e -> in_u 32 e.
Proof. intros He; enc_cases He; cint. Qed.

Lemma _intsetGetEncoded_load s pos e :
  enc_ok e -> _intsetGetEncoded s pos e = load (contents s) e pos.
Proof.
  intros He. unfold load, _intsetGetEncoded. enc_cases He; simpl.
  - destruct (rd _ _ _) as [bs|] eqn:Hr; [|done]. apply rd_length in Hr. simpl.
    pose proof (memrev16ifbe_load bs Hr) as Hm.
    destruct (memrev16ifbe bs 0); [|done]. injection Hm as Hm. simpl. by rewrite Hm.
  - destruct (rd _ _ _) as [bs|] eqn:Hr; [|done]. apply rd_length in Hr. simpl.
    pose proof (memrev32ifbe_load bs Hr) as Hm.
    destruct (memrev32ifbe bs 0); [|done]. injection Hm as Hm. simpl. by rewrite Hm.
  - destruct (rd _ _ _) as [bs|] eqn:Hr; [|done]. apply rd_length in Hr. simpl.
    pose proof (memrev64ifbe_load bs Hr) as Hm.
    destruct (memrev64ifbe bs 0); [|done]. injection Hm as Hm. simpl. by rewrite Hm.
Qed.

Lemma _intsetGet_load s pos :
  enc_ok (enc s) -> _intsetGet s pos = load (contents s) (enc s) pos.
Proof.
  intros He. unfold _intsetGet. rewrite <- _intsetGetEncoded_load by done.
  f_equal. apply wrapu_small. enc_cases He; cint.
Qed.

Lemma wr_store_bind (m : bytes) p n v (f : bytes -> Z -> option bytes) (s : intset) :
  (forall m', wr m p (native_bytes n v) = Some m' -> f m' p = wr m p (le_bytes n v)) ->
  (m1 ← wr m p (native_bytes n v); m2 ← f m1 p; Some (set_contents m2 s)) =
  (λ m', set_contents m' s) <$> wr m p (le_bytes n v).
Proof.
  intros Hf. destruct (wr m p (native_bytes n v)) as [m1|] eqn:Hw; simpl.
  - rewrite (Hf _ eq_refl). by destruct (wr m p (le_bytes n v)).
  - destruct (wr m p (le_bytes n v)) as [m1|] eqn:Hw'; [|done].
    apply wr_Some in Hw' as (? & Hb & _). rewrite length_le_bytes in Hb.
    destruct (wr_ok m p (native_bytes n v)) as [? ?];
      rewrite ?length_native_bytes; congruence || lia.
Qed.

Lemma _intsetSet_store s pos v :
  enc_ok (enc s) ->
  _intsetSet s pos v = (λ m, set_contents m s) <$> store (contents s) (enc s) pos v.
Proof.
  intros He. unfold store, _intsetSet.
  destruct He as [He|[He|He]]; rewrite He; simpl; apply wr_store_bind; intros m'.
  - apply memrev16ifbe_store.
  - apply memrev32ifbe_store.
  - apply memrev64ifbe_store.
Qed.
End host_facts.

(** ** Loads after stores, moves and reallocation *)

Lemma load_eq m m' e i i' :
  rd m (i * e) (Z.to_nat e) = rd m' (i' * e) (Z.to_nat e) -> load m e i = load m' e i'.
Proof. unfold load. by intros ->. Qed.

Lemma load_ok m e i :
  enc_ok e -> 0 <= i -> (i + 1) * e <= Z.of_nat (length m) -> is_Some (load m e i).
Proof.
  intros He Hi Hl. unfold load.
  destruct (rd_ok m (i * e) (Z.to_nat e)) as [bs ->]; [enc_cases He; lia..|]. eauto.
Qed.

Lemma load_range m e i v : enc_ok e -> load m e i = Some v -> in_s (8 * e) v.
Proof.
  intros He. unfold load. destruct (rd _ _ _); [|done]. intros [= <-].
  apply wraps_range. enc_cases He; lia.
Qed.

Lemma load_store_same m e i v m' :
  enc_ok e -> in_s (8 * e) v -> store m e i v = Some m' -> load m' e i = Some v.
Proof.
  intros He Hv Hs. unfold load, store in *.
  apply rd_wr_same in Hs. rewrite length_le_bytes in Hs. rewrite Hs. simpl.
  rewrite le_value_bytes, Z2Nat.id by (enc_cases He; lia).
  change (?x mod 2 ^ ?w) with (wrapu w x).
  assert (0 < 8 * e) by (enc_cases He; lia).
  by rewrite wraps_wrapu, wraps_small.
Qed.

Lemma load_store_other m e i v m' j :
  enc_ok e -> store m e i v = Some m' -> i ≠ j -> load m' e j = load m e j.
Proof.
  intros He Hs Hij. apply load_eq. eapply rd_wr_other; [done|].
  rewrite length_le_bytes. enc_cases He; lia.
Qed.

Lemma store_ok m e i v :
  enc_ok e -> 0 <= i -> (i + 1) * e <= Z.of_nat (length m) -> is_Some (store m e i v).
Proof. intros He Hi Hl. apply wr_ok; rewrite ?length_le_bytes; enc_cases He; lia. Qed.

Lemma store_length m e i v m' : store m e i v = Some m' -> length m' = length m.
Proof. apply wr_length. Qed.

Lemma load_realloc junk m k e i :
  enc_ok e -> 0 <= i -> (i + 1) * e <= Z.of_nat (length m) -> (i + 1) * e <= Z.of_nat k ->
  load (realloc junk m k) e i = load m e i.
Proof. intros He Hi H1 H2. apply load_eq, rd_realloc; enc_cases He; lia. Qed.

(** Moving [n] elements from index [from] to index [to]. *)
Lemma load_memmove m e from to n m' j :
  enc_ok e -> 0 <= from -> 0 <= to -> 0 <= n ->
  memmove m (to * e) (from * e) (Z.to_nat (n * e)) = Some m' ->
  0 <= j ->
  load m' e j = if decide (to <= j < to + n) then load m e (j - to + from) else load m e j.
Proof.
  intros He Hf Ht Hn Hm Hj. unfold memmove in Hm.
  destruct (rd m (from * e) _) as [bs|] eqn:Hr; [|done]. simpl in Hm.
  pose proof (rd_length _ _ _ _ Hr) as Hbl. pose proof (wr_length _ _ _ _ Hm) as Hml.
  pose proof Hr as (Hr1 & Hr2 & _)%rd_Some. pose proof Hm as (Hw1 & Hw2 & _)%wr_Some.
  case_decide.
  - apply load_eq, rd_eq; [enc_cases He; lia|]. intros k Hk.
    rewrite (wr_lookup _ _ _ _ _ Hm), decide_True by (enc_cases He; lia).
    rewrite (rd_lookup _ _ _ _ _ Hr), decide_True by (enc_cases He; lia).
    f_equal. enc_cases He; lia.
  - apply load_eq. eapply rd_wr_other; [done|]. enc_cases He; lia.
Qed.

Lemma memmove_ok m dst src n :
  0 <= dst -> 0 <= src -> dst + Z.of_nat n <= Z.of_nat (length m) ->
  src + Z.of_nat n <= Z.of_nat (length m) -> is_Some (memmove m dst src n).
Proof.
  intros. unfold memmove. destruct (rd_ok m src n) as [bs Hr]; [lia..|]. rewrite Hr. simpl.
  apply wr_ok; rewrite ?(rd_length _ _ _ _ Hr); lia.
Qed.

Lemma memmove_length m dst src n m' : memmove m dst src n = Some m' -> length m' = length m.
Proof. unfold memmove. destruct (rd _ _ _); [|done]. apply wr_length. Qed.

(** ** Well-formed sets

    [wf s l]: [s] holds exactly the strictly increasing list [l]. *)

Record wf `{Host} (s : intset) (l : list Z) : Prop := Wf {
  wf_enc : enc_ok (intrev32ifbe (encoding s));
  wf_len : intrev32ifbe (is_length s) = Z.of_nat (length l);
  wf_size : Z.of_nat (length (contents s)) =
            Z.of_nat (length l) * intrev32ifbe (encoding s);
  wf_load : forall (i : nat) v, l !! i = Some v ->
            load (contents s) (intrev32ifbe (encoding s)) (Z.of_nat i) = Some v;
  wf_sorted : StronglySorted Z.lt l }.

Section ops.
Context `{Host}.
Context (junk : Z).

Abbreviation enc s := (intrev32ifbe (encoding s)).

Lemma wf_get s l i v :
  wf s l -> l !! i = Some v -> _intsetGet s (Z.of_nat i) = Some v.
Proof. intros Hw Hi. rewrite _intsetGet_load by apply Hw. by apply (wf_load _ _ Hw). Qed.

Lemma wf_getZ s l i :
  wf s l -> 0 <= i < Z.of_nat (length l) ->
  exists v, l !! Z.to_nat i = Some v /\ _intsetGet s i = Some v.
Proof.
  intros Hw Hi. destruct (lookup_lt_is_Some_2 l (Z.to_nat i)) as [v Hv]; [lia|].
  exists v. split; [done|]. rewrite <- (Z2Nat.id i) by lia. by eapply wf_get.
Qed.

Lemma wf_range s l v : wf s l -> v ∈ l -> in_s (8 * enc s) v.
Proof.
  intros Hw [i Hi]%list_elem_of_lookup. eapply load_range; [apply Hw|]. by eapply wf_load.
Qed.

(** The new set is well-formed when every element is loaded back. *)
Lemma intsetNew_wf : wf intsetNew [].
Proof.
  split; simpl; [| |reflexivity|done|constructor].
  - rewrite intrev32ifbe_invol by (unfold INTSET_ENC_INT16; cint). by left.
  - unfold intrev32ifbe. destruct big_endian; [|done]. by rewrite intrev32_value.
Qed.

Lemma mid_eq min max :
  0 <= min <= max -> max < 2 ^ 31 ->
  i32 (Z.shiftr (u32 (u32 min + u32 max)) 1) = (min + max) / 2.
Proof.
  intros H1 H2. rewrite (wrapu_small 32 min), (wrapu_small 32 max) by cint.
  rewrite wrapu_small by cint. rewrite Z.shiftr_div_pow2 by lia. change (2 ^ 1) with 2.
  assert ((min + max) / 2 < 2 ^ 31) by (apply Z.div_lt_upper_bound; cint).
  assert (0 <= (min + max) / 2) by (apply Z.div_pos; lia).
  apply wraps_small; cint.
Qed.

(** What a search result says about a sorted list. *)
Definition search_result (l : list Z) (v : Z) (r : bool * Z) : Prop :=
  if r.1 then 0 <= r.2 /\ l !! Z.to_nat r.2 = Some v
  else 0 <= r.2 <= Z.of_nat (length l) /\
       (forall i x, l !! i = Some x -> Z.of_nat i < r.2 -> x < v) /\
       (forall i x, l !! i = Some x -> r.2 <= Z.of_nat i -> v < x).

Lemma intsetSearch_loop_spec s l v fuel : forall min max mid cur,
  wf s l -> Z.of_nat (length l) <= 2 ^ 31 ->
  0 <= min <= max + 1 -> max < Z.of_nat (length l) ->
  (Z.to_nat (max - min + 1) < fuel)%nat ->
  min <= max \/ cur ≠ v ->
  (forall i x, l !! i = Some x -> Z.of_nat i < min -> x < v) ->
  (forall i x, l !! i = Some x -> max < Z.of_nat i -> v < x) ->
  exists min' mid' cur',
    intsetSearch_loop fuel s v min max mid cur = Some (min', mid', cur') /\
    search_result l v (if v =? cur' then (true, mid') else (false, min')).
Proof.
  induction fuel as [|fuel IH]; intros min max mid cur Hw Hn Hmm Hmax Hf Hc Hlo Hhi; [lia|].
  simpl. destruct (max >=? min) eqn:E.
  2:{ exists min, mid, cur. split; [done|].
      destruct (Z.eqb_spec v cur); [lia|]. unfold search_result; simpl.
      split_and!; [lia..|done|]. intros i x Hi Hge. eapply Hhi; [done|lia]. }
  rewrite mid_eq by lia. set (m := (min + max) / 2).
  assert (min <= m <= max) as Hm by (subst m; Z.to_euclidean_division_equations; lia).
  destruct (wf_getZ s l m Hw) as (x & Hx & ->); [lia|]. simpl.
  pose proof (wf_sorted _ _ Hw) as Hs. rewrite ssorted_lookup in Hs.
  destruct (v >? x) eqn:E1; [|destruct (v <? x) eqn:E2].
  - apply IH; try done; try lia. intros i y Hi Hlt.
    destruct (decide (i = Z.to_nat m)) as [->|]; [simplify_eq; lia|].
    assert (y < x) by (eapply (Hs i (Z.to_nat m)); eauto; lia). lia.
  - apply IH; try done; try lia. intros i y Hi Hlt.
    destruct (decide (i = Z.to_nat m)) as [->|]; [simplify_eq; lia|].
    assert (x < y) by (eapply (Hs (Z.to_nat m) i); eauto; lia). lia.
  - exists min, m, x. split; [done|]. replace x with v by lia. rewrite Z.eqb_refl.
    split; simpl; [lia|]. by replace v with x by lia.
Qed.

Lemma intsetSearch_spec s l v :
  wf s l -> Z.of_nat (length l) <= 2 ^ 31 ->
  exists r, intsetSearch s v = Some r /\ search_result l v r.
Proof.
  intros Hw Hn. unfold intsetSearch. rewrite (wf_len _ _ Hw).
  destruct (Z.eqb_spec (Z.of_nat (length l)) 0) as [E|E].
  { exists (false, 0). split; [done|]. unfold search_result; simpl.
    split_and!; [lia..|]. intros i x Hi%lookup_lt_Some. lia. }
  rewrite wraps_small by cint.
  pose proof (wf_sorted _ _ Hw) as Hs. rewrite ssorted_lookup in Hs.
  destruct (wf_getZ s l (Z.of_nat (length l) - 1) Hw) as (last & Hl & ->); [lia|].
  cbn [mbind option_bind].
  destruct (v >? last) eqn:E1.
  { eexists. split; [done|]. unfold search_result; simpl. split_and!; [lia..| |].
    - intros i x Hi _. pose proof (lookup_lt_Some _ _ _ Hi).
      destruct (decide (i = Z.to_nat (Z.of_nat (length l) - 1))) as [->|]; [simplify_eq; lia|].
      assert (x < last) by (eapply (Hs i); eauto; lia). lia.
    - intros i x Hi%lookup_lt_Some. lia. }
  destruct (wf_getZ s l 0 Hw) as (first & Hf & ->); [lia|].
  cbn [mbind option_bind].
  change (Z.to_nat 0) with 0%nat in Hf.
  destruct (v <? first) eqn:E2.
  { eexists. split; [done|]. unfold search_result; simpl. split_and!; [lia..|lia|].
    intros i x Hi _. destruct i as [|i]; [simplify_eq; lia|].
    assert (first < x) by (eapply (Hs 0%nat (S i)); eauto; lia). lia. }
  destruct (intsetSearch_loop_spec s l v (S (Z.to_nat (Z.of_nat (length l)))) 0
              (Z.of_nat (length l) - 1) (-1) (-1)) as (min' & mid' & cur' & -> & Hr);
    try done; try lia.
  { intros i x Hi%lookup_lt_Some. lia. }
  simpl. destruct (v =? cur').
  - destruct Hr as [Hr1 Hr2]; simpl in *. pose proof (lookup_lt_Some _ _ _ Hr2).
    rewrite wrapu_small by cint. eexists. split; [done|]. by split.
  - destruct Hr as [Hr1 Hr2]; simpl in *. rewrite wrapu_small by cint.
    eexists. split; [done|]. by split.
Qed.

(** ** Insertion, removal, lookup *)

Lemma _intsetValueEncoding_ok v : enc_ok (_intsetValueEncoding v).
Proof. unfold _intsetValueEncoding, enc_ok. repeat case_match; auto. Qed.

(** The chosen encoding is the smallest that holds the value. *)
Lemma _intsetValueEncoding_spec v e :
  in_s 64 v -> enc_ok e -> in_s (8 * e) v <-> _intsetValueEncoding v <= e.
Proof.
  intros Hv He.
  unfold _intsetValueEncoding, INTSET_ENC_INT64, INTSET_ENC_INT32, INTSET_ENC_INT16,
    INT32_MIN, INT32_MAX, INT16_MIN, INT16_MAX.
  enc_cases He; repeat case_match; simpl; cint.
Qed.

Lemma intsetResize_ok s len :
  enc_ok (enc s) -> in_u 32 len ->
  intsetResize junk s len =
  Some (set_contents (realloc junk (contents s) (Z.to_nat (len * enc s))) s).
Proof.
  intros He Hl. unfold intsetResize, SIZE_MAX, sizeof_intset.
  assert (in_u 64 (len * enc s)).
  { enc_cases He; cint. }
  rewrite wrapu_small by done.
  destruct (Z.leb_spec (len * enc s) (2 ^ 64 - 1 - 8)); [done|].
  exfalso. enc_cases He; cint.
Qed.

Lemma length_realloc m k : length (realloc junk m k) = k.
Proof. apply length_resize. Qed.

(** Storing a value in the gap that a move or a reallocation opened. *)
Lemma store_middle m e l p v :
  enc_ok e -> in_s (8 * e) v -> (p <= length l)%nat ->
  Z.of_nat (length m) = (Z.of_nat (length l) + 1) * e ->
  (forall i x, l !! i = Some x -> (i < p)%nat -> load m e (Z.of_nat i) = Some x) ->
  (forall i x, l !! i = Some x -> (p <= i)%nat -> load m e (Z.of_nat i + 1) = Some x) ->
  exists m', store m e (Z.of_nat p) v = Some m' /\
    Z.of_nat (length m') = Z.of_nat (length (take p l ++ v :: drop p l)) * e /\
    forall i x, (take p l ++ v :: drop p l) !! i = Some x -> load m' e (Z.of_nat i) = Some x.
Proof.
  intros He Hv Hp Hm Hlo Hhi.
  destruct (store_ok m e (Z.of_nat p) v He) as [m' Hs]; [lia| |].
  { enc_cases He; lia. }
  exists m'. split; [done|]. split.
  { rewrite (store_length _ _ _ _ _ Hs), Hm, length_app. simpl.
    rewrite length_take, length_drop. enc_cases He; lia. }
  intros i x Hi. destruct (decide (i = p)) as [->|Hne].
  - rewrite lookup_app_r in Hi by (rewrite length_take; lia).
    rewrite length_take, Nat.min_l, Nat.sub_diag in Hi by lia. simplify_eq/=.
    by eapply load_store_same.
  - rewrite (load_store_other m e (Z.of_nat p) v m') by (done || lia).
    destruct (decide (i < p)%nat).
    + rewrite lookup_app_l, lookup_take_lt in Hi by (rewrite ?length_take; lia). eauto.
    + rewrite lookup_app_r, length_take, Nat.min_l in Hi by (rewrite ?length_take; lia).
      destruct (i - p)%nat as [|k] eqn:E; [lia|]. simpl in Hi. rewrite lookup_drop in Hi.
      replace (Z.of_nat i) with (Z.of_nat (p + k) + 1) by lia. apply Hhi; [done|lia].
Qed.

Lemma set_length_wf s m l' :
  enc_ok (enc s) -> Z.of_nat (length l') < 2 ^ 32 ->
  Z.of_nat (length m) = Z.of_nat (length l') * enc s ->
  (forall i x, l' !! i = Some x -> load m (enc s) (Z.of_nat i) = Some x) ->
  StronglySorted Z.lt l' ->
  wf (set_length (intrev32ifbe (Z.of_nat (length l'))) (set_contents m s)) l'.
Proof.
  intros He Hl Hm Hload Hs. split; simpl; try done. apply intrev32ifbe_invol; cint.
Qed.

(** The tail moves, provided its size in bytes fits the 32 bit counter. *)
Lemma intsetMoveTail_spec s n from to :
  enc_ok (enc s) -> intrev32ifbe (is_length s) = n -> 0 <= from <= n -> 0 <= to ->
  (n - from) * enc s < 2 ^ 32 -> n < 2 ^ 32 ->
  n * enc s <= Z.of_nat (length (contents s)) ->
  (to + (n - from)) * enc s <= Z.of_nat (length (contents s)) ->
  exists m, intsetMoveTail s from to = Some (set_contents m s) /\
    length m = length (contents s) /\
    forall j, 0 <= j ->
      load m (enc s) j = if decide (to <= j < to + (n - from))
                         then load (contents s) (enc s) (j - to + from)
                         else load (contents s) (enc s) j.
Proof.
  intros He Hn Hf Ht Hb Hn32 H1 H2.
  assert (Hbytes : intsetMoveTail_bytes s from = (n - from) * enc s).
  { unfold intsetMoveTail_bytes. rewrite Hn, (wrapu_small 32 (n - from)) by cint.
    destruct He as [Ee | [Ee | Ee]]; rewrite Ee in *; simpl; apply wrapu_small; cint. }
  unfold intsetMoveTail. rewrite Hbytes.
  assert (Hes : (if enc s =? INTSET_ENC_INT64 then 8
                 else if enc s =? INTSET_ENC_INT32 then 4 else 2) = enc s).
  { destruct He as [Ee | [Ee | Ee]]; rewrite Ee; reflexivity. }
  rewrite Hes.
  assert (0 < enc s) by (enc_cases He; lia).
  destruct (memmove_ok (contents s) (to * enc s) (from * enc s) (Z.to_nat ((n - from) * enc s)))
    as [m Hm]; [nia..|]. rewrite Hm. exists m. split; [done|].
  split; [by eapply memmove_length|].
  intros j Hj. eapply load_memmove; [done| | | |exact Hm|done]; lia.
Qed.

Lemma load_store_mixed m e i v m' e' j :
  enc_ok e' -> 0 <= j -> store m e i v = Some m' -> (j + 1) * e' <= i * e ->
  load m' e' j = load m e' j.
Proof.
  intros He Hj Hs Hlt. apply load_eq. eapply rd_wr_other; [done|]. enc_cases He; lia.
Qed.

Lemma in_s_mono e e' v : enc_ok e -> enc_ok e' -> e <= e' -> in_s (8 * e) v -> in_s (8 * e') v.
Proof. intros He He' Hle. enc_cases He; enc_cases He'; simpl; try lia; cint. Qed.

(** Widening in place from the last element to the first. *)
Lemma upgrade_loop_spec cur p l : forall (k : nat) s,
  enc_ok cur -> enc_ok (enc s) -> cur <= enc s -> 0 <= p <= 1 -> (k <= length l)%nat ->
  Z.of_nat (length (contents s)) = (Z.of_nat (length l) + 1) * enc s ->
  (forall i x, l !! i = Some x -> (i < k)%nat -> load (contents s) cur (Z.of_nat i) = Some x) ->
  (forall i x, l !! i = Some x -> (k <= i)%nat ->
               load (contents s) (enc s) (Z.of_nat i + p) = Some x) ->
  exists m, upgrade_loop k s p cur = Some (set_contents m s) /\
    length m = length (contents s) /\
    forall i x, l !! i = Some x -> load m (enc s) (Z.of_nat i + p) = Some x.
Proof.
  induction k as [|k IH]; intros s Hcur Hnew Hle Hp Hk Hm Hlo Hhi.
  { exists (contents s). split; [by destruct s|]. split; [done|].
    intros i x Hi. apply Hhi; [done|lia]. }
  cbn [upgrade_loop]. rewrite _intsetGetEncoded_load by done.
  destruct (lookup_lt_is_Some_2 l k) as [x Hx]; [lia|].
  pose proof (Hlo _ _ Hx ltac:(lia)) as Hlx. rewrite Hlx. cbn [mbind option_bind].
  rewrite _intsetSet_store by done.
  destruct (store_ok (contents s) (enc s) (Z.of_nat k + p) x Hnew) as [m1 Hm1]; [lia| |].
  { enc_cases Hnew; lia. }
  rewrite Hm1. cbn [fmap option_fmap option_map mbind option_bind].
  assert (0 < enc s) by (enc_cases Hnew; lia).
  destruct (IH (set_contents m1 s)) as (m & -> & Hl & Hr); simpl; try done; try lia.
  - rewrite (store_length _ _ _ _ _ Hm1). done.
  - intros i y Hi Hik. rewrite (load_store_mixed (contents s) (enc s) (Z.of_nat k + p) x m1);
      [apply Hlo; [done|lia]|done|lia|done|]. nia.
  - intros i y Hi Hik. destruct (decide (i = k)) as [->|].
    + simplify_eq. eapply load_store_same; [done| |done].
      eapply in_s_mono; [exact Hcur|done|done|]. by eapply load_range.
    + rewrite (load_store_other (contents s) (enc s) (Z.of_nat k + p) x m1); [|done..|lia].
      apply Hhi; [done|lia].
  - exists m. split; [by destruct s|]. simpl in *.
    by rewrite Hl, (store_length _ _ _ _ _ Hm1).
Qed.

(** A value that does not fit lies outside the range of the elements. *)
Lemma outside_range s l v i x :
  wf s l -> in_s 64 v -> enc s < _intsetValueEncoding v -> l !! i = Some x ->
  if v <? 0 then v < x else x < v.
Proof.
  intros Hw Hv Hlt Hi.
  pose proof (wf_range s l x Hw (list_elem_of_lookup_2 _ _ _ Hi)) as Hx.
  pose proof (_intsetValueEncoding_spec v (enc s) Hv (wf_enc _ _ Hw)) as Hve.
  assert (~ in_s (8 * enc s) v) as Hn by (rewrite Hve; lia).
  unfold in_s in *. destruct (Z.ltb_spec v 0); lia.
Qed.

Lemma intsetUpgradeAndAdd_spec s l v :
  wf s l -> in_s 64 v -> Z.of_nat (length l) < 2 ^ 29 ->
  enc s < _intsetValueEncoding v ->
  exists s', intsetUpgradeAndAdd junk s v = Some s' /\
    wf s' (if v <? 0 then v :: l else l ++ [v]).
Proof.
  intros Hw Hv Hn Hlt. unfold intsetUpgradeAndAdd.
  set (new := _intsetValueEncoding v) in *.
  pose proof (_intsetValueEncoding_ok v : enc_ok new) as Hnew.
  pose proof (wf_enc _ _ Hw) as Hcur. pose proof (wf_len _ _ Hw) as Hlen.
  set (s1 := set_encoding (intrev32ifbe new) s).
  assert (He1 : enc s1 = new) by (apply intrev32ifbe_invol, enc_ok_u32; done).
  cbn [is_length set_encoding s1] in *. rewrite Hlen.
  rewrite (wrapu_small 32) by cint.
  rewrite (wrapu_small 8 (enc s)) by (enc_cases Hcur; cint).
  rewrite intsetResize_ok by (rewrite ?He1; done || cint). cbn [mbind option_bind].
  rewrite He1. set (m := realloc junk (contents s1) _).
  assert (0 < new /\ 0 < enc s) as [Hnew0 Hcur0] by (enc_cases Hcur; enc_cases Hnew; lia).
  assert (Hm : Z.of_nat (length m) = (Z.of_nat (length l) + 1) * new).
  { subst m. rewrite length_realloc. lia. }
  rewrite wraps_small by cint. rewrite Nat2Z.id.
  set (p := if v <? 0 then 1 else 0).
  destruct (upgrade_loop_spec (enc s) p l (length l) (set_contents m s1))
    as (m2 & -> & Hl2 & Hr2); cbn [contents set_contents encoding].
  1-6: rewrite ?He1; try done; try lia; subst p; destruct (v <? 0); lia.
  { intros i x Hi Hlt'. subst m. cbn [contents set_encoding s1].
    pose proof (wf_load _ _ Hw _ _ Hi) as Hld. rewrite load_realloc; [done|done|lia|..].
    - rewrite (wf_size _ _ Hw). apply Z.mul_le_mono_nonneg_r; lia.
    - rewrite Z2Nat.id by nia. apply Z.mul_le_mono_nonneg; lia. }
  { intros i x Hi%lookup_lt_Some. lia. }
  change (enc (set_contents m s1)) with (enc s1) in Hr2. rewrite He1 in Hr2.
  cbn [mbind option_bind contents set_contents is_length] in *.
  assert (Hout := fun i x => outside_range s l v i x Hw Hv Hlt).
  assert (Hvs : in_s (8 * new) v) by (apply _intsetValueEncoding_spec; done || lia).
  assert (Hset0 : forall q, _intsetSet (set_contents m2 (set_contents m s1)) q v =
                            (λ m, set_contents m s1) <$> store m2 new q v).
  { intros q. rewrite _intsetSet_store;
      change (enc (set_contents m2 (set_contents m s1))) with (enc s1); by rewrite He1. }
  assert (Hins : exists q, (q <= length l)%nat /\
    (if p =? 1 then _intsetSet (set_contents m2 (set_contents m s1)) 0 v
     else _intsetSet (set_contents m2 (set_contents m s1))
            (i32 (intrev32ifbe (is_length s1))) v) =
      (λ m, set_contents m s1) <$> store m2 new (Z.of_nat q) v /\
    take q l ++ v :: drop q l = (if v <? 0 then v :: l else l ++ [v]) /\
    (forall i x, l !! i = Some x -> (i < q)%nat -> p = 0) /\
    (forall i x, l !! i = Some x -> (q <= i)%nat -> p = 1)).
  { subst p. destruct (v <? 0).
    - exists 0%nat. split_and!; [lia|apply Hset0|done|lia|done].
    - exists (length l). split_and!; [lia| | |done|].
      + cbn [Z.eqb is_length set_encoding s1]. rewrite Hlen, wraps_small by cint. apply Hset0.
      + by rewrite take_ge, drop_ge by lia.
      + intros i x Hi%lookup_lt_Some. lia. }
  destruct Hins as (q & Hq & Hset & Heq & Hqlo & Hqhi).
  cbn [is_length set_contents] in Hset |- *. rewrite Hset, <- Heq.
  destruct (store_middle m2 new l q v) as (m3 & -> & Hm3 & Hload); try done; try lia.
  { intros i x Hi Hiq. specialize (Hr2 _ _ Hi). rewrite (Hqlo _ _ Hi Hiq), Z.add_0_r in Hr2. done. }
  { intros i x Hi Hiq. specialize (Hr2 _ _ Hi). rewrite (Hqhi _ _ Hi Hiq) in Hr2. done. }
  cbn [fmap option_fmap option_map mbind option_bind is_length set_contents].
  eexists. split; [done|]. cbn [is_length set_encoding s1].
  assert (Hlen' : Z.of_nat (length (take q l ++ v :: drop q l)) = Z.of_nat (length l) + 1).
  { rewrite length_app. simpl. rewrite length_take, length_drop. lia. }
  rewrite Hlen, (wrapu_small 32) by cint. rewrite <- Hlen'.
  apply (set_length_wf s1); rewrite ?He1; try done.
  - cint.
  - apply ssorted_insert; [apply Hw|done|..]; intros i x Hi Hiq; specialize (Hout _ _ Hi).
    + pose proof (Hqlo _ _ Hi Hiq). subst p. by destruct (v <? 0).
    + pose proof (Hqhi _ _ Hi Hiq). subst p. by destruct (v <? 0).
Qed.

Lemma search_not_found l v p : search_result l v (false, p) -> v ∉ l.
Proof.
  intros (_ & Hlo & Hhi) [i Hi]%list_elem_of_lookup. simpl in *.
  destruct (Z.lt_ge_cases (Z.of_nat i) p); [pose proof (Hlo _ _ Hi)|pose proof (Hhi _ _ Hi)]; lia.
Qed.

Lemma elem_of_middle (l : list Z) p v x :
  x ∈ take p l ++ v :: drop p l <-> x = v \/ x ∈ l.
Proof.
  rewrite elem_of_app, elem_of_cons.
  rewrite <- (take_drop p l) at 3. rewrite elem_of_app. tauto.
Qed.

(** The insertion branch of [intsetAdd], once the search has given [p]. *)
Lemma insert_at_spec s l v p :
  wf s l -> Z.of_nat (length l) < 2 ^ 29 -> in_s (8 * enc s) v ->
  search_result l v (false, p) ->
  exists s',
    (s1 ← intsetResize junk s (u32 (intrev32ifbe (is_length s) + 1));
     s2 ← (if p <? intrev32ifbe (is_length s1)
           then intsetMoveTail s1 p (u32 (p + 1)) else Some s1);
     s3 ← _intsetSet s2 (i32 p) v;
     Some (set_length (intrev32ifbe (u32 (intrev32ifbe (is_length s3) + 1))) s3, true))
    = Some (s', true) /\ wf s' (take (Z.to_nat p) l ++ v :: drop (Z.to_nat p) l).
Proof.
  intros Hw Hn Hv (Hp & Hlo & Hhi). cbn [snd] in *.
  pose proof (wf_enc _ _ Hw) as He. pose proof (wf_len _ _ Hw) as Hlen.
  assert (0 < enc s <= 8) as He0 by (enc_cases He; lia).
  rewrite Hlen, (wrapu_small 32 (Z.of_nat (length l) + 1)), (wrapu_small 32 (p + 1)) by cint.
  rewrite intsetResize_ok by (done || cint). cbn [mbind option_bind is_length set_contents].
  set (m := realloc junk (contents s) _).
  assert (Hml : Z.of_nat (length m) = (Z.of_nat (length l) + 1) * enc s).
  { subst m. rewrite length_realloc. lia. }
  assert (Hmload : forall i x, l !! i = Some x -> load m (enc s) (Z.of_nat i) = Some x).
  { intros i x Hi. pose proof (lookup_lt_Some _ _ _ Hi). subst m.
    rewrite load_realloc; [by apply (wf_load _ _ Hw)|done|lia|..].
    - rewrite (wf_size _ _ Hw). apply Z.mul_le_mono_nonneg_r; lia.
    - rewrite Z2Nat.id by nia. apply Z.mul_le_mono_nonneg_r; lia. }
  rewrite Hlen.
  assert (Hmove : exists m1,
    (if p <? Z.of_nat (length l) then intsetMoveTail (set_contents m s) p (p + 1)
     else Some (set_contents m s)) = Some (set_contents m1 s) /\ length m1 = length m /\
    (forall i x, l !! i = Some x -> (i < Z.to_nat p)%nat -> load m1 (enc s) (Z.of_nat i) = Some x) /\
    (forall i x, l !! i = Some x -> (Z.to_nat p <= i)%nat ->
                 load m1 (enc s) (Z.of_nat i + 1) = Some x)).
  { destruct (Z.ltb_spec p (Z.of_nat (length l))).
    - destruct (intsetMoveTail_spec (set_contents m s) (Z.of_nat (length l)) p (p + 1))
        as (m1 & -> & Hm1 & Hld); simpl; try done; try cint; try nia.
      exists m1. simpl in Hm1, Hld. split_and!; [done|done|..]; intros i x Hi Hip;
        pose proof (lookup_lt_Some _ _ _ Hi).
      + rewrite Hld, decide_False by lia. auto.
      + rewrite Hld, decide_True by lia.
        replace (Z.of_nat i + 1 - (p + 1) + p) with (Z.of_nat i) by lia. auto.
    - exists m. split_and!; [done|done|by auto|]. intros i x Hi%lookup_lt_Some. lia. }
  destruct Hmove as (m1 & -> & Hm1 & Hlo1 & Hhi1). cbn [mbind option_bind].
  rewrite _intsetSet_store by done. rewrite wraps_small by cint.
  cbn [contents encoding set_contents].
  destruct (store_middle m1 (enc s) l (Z.to_nat p) v) as (m2 & Hst & Hm2 & Hload2);
    try done; try lia.
  rewrite Z2Nat.id in Hst by lia. rewrite Hst.
  cbn [fmap option_fmap option_map mbind option_bind is_length set_contents].
  eexists. split; [done|].
  assert (Hlen' : Z.of_nat (length (take (Z.to_nat p) l ++ v :: drop (Z.to_nat p) l)) =
                  Z.of_nat (length l) + 1).
  { rewrite length_app. simpl. rewrite length_take, length_drop. lia. }
  rewrite Hlen, (wrapu_small 32) by cint. rewrite <- Hlen'.
  apply (set_length_wf s); try done; [cint|].
  apply ssorted_insert; [apply Hw|lia|..]; intros i x Hi Hip.
  - apply (Hlo i x Hi). lia.
  - apply (Hhi i x Hi). lia.
Qed.

Lemma add_spec s l v :
  wf s l -> in_s 64 v -> Z.of_nat (length l) < 2 ^ 29 ->
  exists s' l', intsetAdd junk s v = Some (s', bool_decide (v ∉ l)) /\ wf s' l' /\
    forall x, x ∈ l' <-> x = v \/ x ∈ l.
Proof.
  intros Hw Hv Hn. unfold intsetAdd.
  destruct (Z.gtb_spec (_intsetValueEncoding v) (enc s)) as [Hlt|Hle].
  - destruct (intsetUpgradeAndAdd_spec s l v) as (s' & -> & Hw'); try done.
    eexists _, _. split; [|split; [exact Hw'|]].
    + cbn [mbind option_bind]. rewrite bool_decide_eq_true_2; [done|].
      intros Hin. pose proof (wf_range _ _ _ Hw Hin) as Hr.
      apply _intsetValueEncoding_spec in Hr; [lia|done|apply Hw].
    + intros x. destruct (v <? 0); rewrite ?elem_of_cons, ?elem_of_app, ?elem_of_cons; [done|].
      rewrite elem_of_nil. tauto.
  - destruct (intsetSearch_spec s l v Hw) as ([[] p] & -> & Hr); [lia|..]; cbn [mbind option_bind].
    + exists s, l. destruct Hr as [_ Hr]. apply list_elem_of_lookup_2 in Hr.
      rewrite bool_decide_eq_false_2 by tauto. split_and!; [done..|].
      intros x; split; [tauto|]. by intros [->|].
    + destruct (insert_at_spec s l v p) as (s' & Heq & Hw'); try done.
      { apply _intsetValueEncoding_spec; [done|apply Hw|done]. }
      exists s'. eexists. rewrite bool_decide_eq_true_2 by (by eapply search_not_found).
      split; [exact Heq|]. split; [exact Hw'|]. intros x. apply elem_of_middle.
Qed.

Lemma find_spec s l v :
  wf s l -> in_s 64 v -> Z.of_nat (length l) <= 2 ^ 31 ->
  intsetFind s v = Some (bool_decide (v ∈ l)).
Proof.
  intros Hw Hv Hn. unfold intsetFind.
  destruct (Z.leb_spec (_intsetValueEncoding v) (enc s)).
  - destruct (intsetSearch_spec s l v Hw Hn) as ([[] p] & -> & Hr); simpl; f_equal; symmetry.
    + apply bool_decide_eq_true_2. destruct Hr as [_ Hr]. by eapply list_elem_of_lookup_2.
    + apply bool_decide_eq_false_2. by eapply search_not_found.
  - f_equal. symmetry. apply bool_decide_eq_false_2. intros Hin.
    pose proof (wf_range _ _ _ Hw Hin) as Hr.
    apply _intsetValueEncoding_spec in Hr; [lia|done|apply Hw].
Qed.

(** Closing the gap at [p]. *)
Lemma remove_at_spec s l v p :
  wf s l -> Z.of_nat (length l) <= 2 ^ 29 -> 0 <= p -> l !! Z.to_nat p = Some v ->
  exists s',
    (let len := intrev32ifbe (is_length s) in
     s1 ← (if p <? u32 (len - 1) then intsetMoveTail s (u32 (p + 1)) p else Some s);
     s2 ← intsetResize junk s1 (u32 (len - 1));
     Some (set_length (intrev32ifbe (u32 (len - 1))) s2, true)) = Some (s', true) /\
    wf s' (delete (Z.to_nat p) l).
Proof.
  intros Hw Hn Hp Hv. pose proof (wf_enc _ _ Hw) as He. pose proof (wf_len _ _ Hw) as Hlen.
  assert (0 < enc s <= 8) as He0 by (enc_cases He; lia).
  pose proof (lookup_lt_Some _ _ _ Hv) as Hpl. pose proof (wf_size _ _ Hw) as Hsz.
  cbv zeta. rewrite Hlen, !(wrapu_small 32 (_ - 1)) by cint.
  set (n := Z.of_nat (length l)) in *.
  assert (Hmove : exists m1,
    (if p <? n - 1 then intsetMoveTail s (u32 (p + 1)) p else Some s) = Some (set_contents m1 s) /\
    length m1 = length (contents s) /\
    forall i x, delete (Z.to_nat p) l !! i = Some x -> load m1 (enc s) (Z.of_nat i) = Some x).
  { destruct (Z.ltb_spec p (n - 1)).
    - rewrite (wrapu_small 32) by cint.
      destruct (intsetMoveTail_spec s n (p + 1) p) as (m1 & -> & Hm1 & Hld);
        try done; try cint; try nia.
      exists m1. split_and!; [done|done|]. intros i x Hi.
      pose proof (lookup_lt_Some _ _ _ Hi) as Hil. rewrite length_delete in Hil by eauto.
      rewrite list_lookup_delete in Hi. rewrite Hld by lia. case_decide; case_decide; try lia.
      + by apply (wf_load _ _ Hw).
      + replace (Z.of_nat i - p + (p + 1)) with (Z.of_nat (S i)) by lia.
        by apply (wf_load _ _ Hw).
    - exists (contents s). split_and!; [by destruct s|done|]. intros i x Hi.
      pose proof (lookup_lt_Some _ _ _ Hi) as Hil. rewrite length_delete in Hil by eauto.
      rewrite list_lookup_delete_lt in Hi by lia. by apply (wf_load _ _ Hw). }
  destruct Hmove as (m1 & -> & Hm1 & Hld). cbn [mbind option_bind].
  rewrite intsetResize_ok by (done || cint). cbn [mbind option_bind contents set_contents].
  eexists. split; [done|]. change (enc (set_contents m1 s)) with (enc s).
  assert (Hlen' : Z.of_nat (length (delete (Z.to_nat p) l)) = n - 1).
  { rewrite length_delete by eauto. lia. }
  rewrite <- Hlen'. apply (set_length_wf s); try done.
  - cint.
  - rewrite length_realloc, Z2Nat.id by (apply Z.mul_nonneg_nonneg; lia). done.
  - intros i x Hi. pose proof (lookup_lt_Some _ _ _ Hi).
    rewrite load_realloc; [auto|done|lia|..].
    + rewrite Hm1, Hsz. apply Z.mul_le_mono_nonneg_r; lia.
    + rewrite Z2Nat.id by (apply Z.mul_nonneg_nonneg; lia). apply Z.mul_le_mono_nonneg_r; lia.
  - apply ssorted_delete, Hw.
Qed.

Lemma remove_spec s l v :
  wf s l -> in_s 64 v -> Z.of_nat (length l) <= 2 ^ 29 ->
  exists s' l', intsetRemove junk s v = Some (s', bool_decide (v ∈ l)) /\ wf s' l' /\
    forall x, x ∈ l' <-> x ∈ l /\ x ≠ v.
Proof.
  intros Hw Hv Hn. unfold intsetRemove.
  assert (Hnot : v ∉ l -> exists s' l', Some (s, false) = Some (s', bool_decide (v ∈ l)) /\
            wf s' l' /\ forall x, x ∈ l' <-> x ∈ l /\ x ≠ v).
  { intros Hni. exists s, l. rewrite bool_decide_eq_false_2 by done.
    split_and!; [done..|]. intros x; split; [|tauto]. intros; split; [done|]. by intros ->. }
  destruct (Z.leb_spec (_intsetValueEncoding v) (enc s)).
  - destruct (intsetSearch_spec s l v Hw) as ([[] p] & -> & Hr); [lia|..]; cbn [mbind option_bind].
    + destruct Hr as [Hp Hr]. destruct (remove_at_spec s l v p) as (s' & Heq & Hw'); try done.
      eexists _, _. rewrite bool_decide_eq_true_2 by (by eapply list_elem_of_lookup_2).
      split; [exact Heq|]. split; [exact Hw'|]. intros x.
      apply elem_of_delete_ssorted; [apply Hw|done].
    + apply Hnot. by eapply search_not_found.
  - apply Hnot. intros Hin. pose proof (wf_range _ _ _ Hw Hin) as Hr.
    apply _intsetValueEncoding_spec in Hr; [lia|done|apply Hw].
Qed.

End ops.

(** ** Validation of an untrusted blob *)

Section validate.
Context `{Host}.
Abbreviation enc s := (intrev32ifbe (encoding s)).

(** The set that a serialized blob stands for. *)
Definition blob_set (p : bytes) : intset :=
  mk_intset (native_value (take 4 p)) (native_value (take 4 (drop 4 p))) (drop 8 p).

Lemma validate_loop_spec s e n : forall (todo : nat) prev i,
  enc_ok e -> enc s = e -> n < 2 ^ 31 ->
  Z.of_nat (length (contents s)) = n * e -> 0 <= i -> i + Z.of_nat todo = n ->
  exists l, length l = todo /\
    (forall (k : nat) x, l !! k = Some x -> load (contents s) e (i + Z.of_nat k) = Some x) /\
    validate_loop todo s prev i = Some (bool_decide (StronglySorted Z.lt (prev :: l))).
Proof.
  induction todo as [|todo IH]; intros prev i He Hes Hn Hlen Hi Hin.
  { by exists []. }
  cbn [validate_loop]. rewrite wraps_small by cint.
  rewrite _intsetGet_load by (by rewrite Hes). rewrite Hes.
  destruct (load_ok (contents s) e i) as [x Hx]; [done|done|enc_cases He; lia|].
  destruct (IH x (i + 1)) as (l & Hl & Hload & Hv); try done; try lia.
  exists (x :: l). split; [simpl; lia|]. split.
  { intros [|k] y Hk; simplify_eq/=; [by rewrite Z.add_0_r|].
    replace (i + Z.of_nat (S k)) with (i + 1 + Z.of_nat k) by lia. auto. }
  rewrite Hx. cbn [mbind option_bind].
  destruct (Z.leb_spec x prev).
  - f_equal. symmetry. apply bool_decide_eq_false_2. intros [? Hf]%StronglySorted_inv.
    inversion Hf. lia.
  - rewrite Hv. f_equal. apply bool_decide_ext. split.
    + intros Hs. pose proof Hs as [_ Hf]%StronglySorted_inv.
      constructor; [done|]. constructor; [lia|].
      eapply Forall_impl; [exact Hf|]. simpl. lia.
    + by intros [? _]%StronglySorted_inv.
Qed.

Lemma blob_parts (p : bytes) :
  (8 <= length p)%nat ->
  rd p 0 4 = Some (take 4 p) /\ rd p 4 4 = Some (take 4 (drop 4 p)).
Proof. intros. unfold rd. rewrite !decide_True by lia. done. Qed.

Lemma native_value_u32 bs :
  length bs = 4%nat -> Forall is_byte bs -> in_u 32 (native_value bs).
Proof.
  intros Hl Hb. unfold native_value. destruct big_endian.
  - pose proof (le_value_range (reverse bs)) as Hr. rewrite length_reverse, Hl in Hr.
    apply Hr. by apply Forall_reverse.
  - pose proof (le_value_range bs Hb) as Hr. by rewrite Hl in Hr.
Qed.
End validate.

(** ** Properties *)

(** The abstraction: the finite set of integers that an intset holds. *)
Definition intset_abs `{Host} (s : intset) (X : gset Z) : Prop :=
  exists l, wf s l /\ X = list_to_set l.

Lemma ssorted_NoDup (l : list Z) : StronglySorted Z.lt l -> NoDup l.
Proof.
  induction 1 as [|a l Hs IH Hf]; constructor; [|done].
  intros Ha. rewrite Forall_forall in Hf. specialize (Hf a Ha). lia.
Qed.

Lemma intset_abs_size `{Host} s l (X : gset Z) :
  wf s l -> X = list_to_set l -> size X = length l.
Proof.
  intros Hw ->. rewrite size_list_to_set; [done|]. eapply ssorted_NoDup, Hw.
Qed.

Lemma intsetNew_abs `{Host} : intset_abs intsetNew ∅.
Proof. exists []. split; [apply intsetNew_wf|done]. Qed.

(** C26: insertion, removal and membership on an intset are insertion, removal
    and membership on the finite set it holds, whatever the host's byte order
    and the allocator's junk; [success] reports whether the set changed.  The
    bound is the one up to which the 32 bit byte count of [intsetMoveTail] is
    exact for 64 bit elements. *)
Theorem intset_refines_set `{Host} junk s (X : gset Z) v :
  intset_abs s X -> in_s 64 v -> Z.of_nat (size X) < 2 ^ 29 ->
  (exists s', intsetAdd junk s v = Some (s', bool_decide (v ∉ X)) /\
              intset_abs s' ({[v]} ∪ X)) /\
  (exists s', intsetRemove junk s v = Some (s', bool_decide (v ∈ X)) /\
              intset_abs s' (X ∖ {[v]})) /\
  intsetFind s v = Some (bool_decide (v ∈ X)).
Proof.
  intros (l & Hw & HX) Hv Hn. rewrite (intset_abs_size s l X) in Hn by done. subst X.
  assert (Hin : forall x, x ∈ (list_to_set l : gset Z) <-> x ∈ l)
    by (intros; apply elem_of_list_to_set).
  split_and!.
  - destruct (add_spec junk s l v) as (s' & l' & -> & Hw' & Hl'); try done.
    exists s'. split; [by rewrite (bool_decide_ext _ _ (not_iff_compat (Hin v)))|].
    exists l'. split; [done|]. apply set_eq. intros x.
    rewrite elem_of_union, elem_of_singleton, !elem_of_list_to_set. by rewrite Hl'.
  - destruct (remove_spec junk s l v) as (s' & l' & -> & Hw' & Hl'); try done; [lia|].
    exists s'. split; [by rewrite (bool_decide_ext _ _ (Hin v))|].
    exists l'. split; [done|]. apply set_eq. intros x.
    rewrite elem_of_difference, elem_of_singleton, !elem_of_list_to_set. by rewrite Hl'.
  - rewrite (find_spec s l v) by (done || lia). by rewrite (bool_decide_ext _ _ (Hin v)).
Qed.

Lemma intset_refines_set_witness :
  (exists s', @intsetAdd true 170 (@intsetNew true) (-70000) = Some (s', true) /\
              @intset_abs true s' {[-70000]}) /\
  @intsetFind true (@intsetNew true) (-70000) = Some false.
Proof.
  destruct (@intset_refines_set true 170 (@intsetNew true) ∅ (-70000))
    as ((s' & Ha & Habs) & _ & Hf).
  - apply intsetNew_abs.
  - split; vm_compute; congruence.
  - vm_compute. reflexivity.
  - rewrite bool_decide_eq_true_2 in Ha by set_solver.
    rewrite bool_decide_eq_false_2 in Hf by set_solver.
    rewrite (right_id_L ∅ (∪)) in Habs. eauto.
Defined.

(** Reading the set by position: [intsetGet] returns the elements in
    increasing order and reports a position out of range, [intsetRandom] returns
    a member of a non-empty set, and the reported sizes are exact. *)
Theorem intset_accessors `{Host} s l :
  wf s l -> Z.of_nat (length l) < 2 ^ 31 ->
  (forall pos, in_u 32 pos -> intsetGet s pos = Some (l !! Z.to_nat pos)) /\
  (forall rand, l ≠ [] -> exists v, intsetRandom rand s = Some v /\ v ∈ l) /\
  intsetLen s = Z.of_nat (length l) /\
  intsetBlobLen s = sizeof_intset + Z.of_nat (length (contents s)).
Proof.
  intros Hw Hn. pose proof (wf_len _ _ Hw) as Hlen. split_and!.
  - intros pos Hpos. unfold intsetGet. rewrite Hlen.
    destruct (Z.ltb_spec pos (Z.of_nat (length l))).
    + rewrite wraps_small by cint.
      destruct (wf_getZ s l pos Hw) as (v & -> & ->); [cint|done].
    + by rewrite lookup_ge_None_2 by lia.
  - intros rand Hne. unfold intsetRandom. rewrite Hlen. destruct l as [|a l]; [done|].
    destruct (Z.eqb_spec (Z.of_nat (length (a :: l))) 0) as [?|Hz]; [simpl in *; lia|].
    set (n := Z.of_nat (length (a :: l))) in *.
    pose proof (Z.mod_pos_bound (u32 rand) n ltac:(lia)).
    rewrite wraps_small by cint.
    destruct (wf_getZ s (a :: l) (u32 rand mod n) Hw) as (v & Hv & ->); [lia|].
    exists v. split; [done|]. by eapply list_elem_of_lookup_2.
  - done.
  - unfold intsetBlobLen, sizeof_intset. rewrite Hlen, (wf_size _ _ Hw).
    pose proof (wf_enc _ _ Hw) as He.
    rewrite (wrapu_small 64 (_ * _)) by (enc_cases He; cint).
    rewrite wrapu_small; [done|]. enc_cases He; cint.
Qed.

Lemma intset_accessors_witness :
  exists s l, @wf false s l /\ Z.of_nat (length l) < 2 ^ 31 /\
    @intsetGet false s 0 = Some (Some (-5)) /\ @intsetGet false s 7 = Some None.
Proof.
  assert (Hw : @wf false (mk_intset 2 2 (le_bytes 2 (-5) ++ le_bytes 2 300)) [-5; 300]).
  { split; [by left|reflexivity|reflexivity| |].
    - intros [|[|i]] v Hi; simplify_eq/=; vm_compute; reflexivity.
    - repeat constructor. }
  assert (Hn : Z.of_nat (length [-5; 300]) < 2 ^ 31) by reflexivity.
  destruct (@intset_accessors false _ _ Hw Hn) as (Hget & _).
  eexists _, _. split; [exact Hw|]. split; [exact Hn|].
  split; apply Hget; split; vm_compute; congruence.
Defined.

(** The checks that follow the choice of the record size. *)
Lemma validate_check `{Host} s (p : bytes) :
  let n := intrev32ifbe (is_length s) in
  let e := intrev32ifbe (encoding s) in
  Z.of_nat (length p) < 2 ^ 32 -> (8 <= length p)%nat -> in_u 32 n ->
  Z.of_nat (length (contents s)) = Z.of_nat (length p) - 8 -> enc_ok e ->
  exists b,
    (if negb (u64 (8 + u64 (n * e)) =? Z.of_nat (length p)) then Some false
     else if n =? 0 then Some false else if negb true then Some true
     else prev ← _intsetGet s 0; validate_loop (Z.to_nat (n - 1)) s prev 1) = Some b /\
    (b = true <-> (8 <= length p)%nat /\ exists l, l ≠ [] /\ wf s l).
Proof.
  intros n e Hn Hp Hcnt Hcont He. assert (0 < e) by (enc_cases He; lia).
  assert (Hse : in_u 64 (8 + n * e) /\ in_u 64 (n * e)) by (enc_cases He; cint).
  rewrite !wrapu_small; try (rewrite ?(wrapu_small 64 (n * e)); tauto).
  destruct (Z.eqb_spec (8 + n * e) (Z.of_nat (length p))) as [Hsz|Hsz]; cbn [negb].
  2:{ exists false. split; [done|]. split; [done|]. intros (_ & l & _ & Hw).
      pose proof (wf_size _ _ Hw) as Hws. rewrite <- (wf_len _ _ Hw) in Hws.
      fold n e in Hws. lia. }
  destruct (Z.eqb_spec n 0) as [Hz|Hz].
  { exists false. split; [done|]. split; [done|]. intros (_ & l & Hne & Hw).
    pose proof (wf_len _ _ Hw) as Hl. fold n in Hl. destruct l; simpl in *; [done|lia]. }
  assert (n < 2 ^ 31) by (enc_cases He; cint).
  rewrite _intsetGet_load by done. fold e.
  destruct (load_ok (contents s) e 0) as [x Hx]; [done|lia|enc_cases He; cint|].
  rewrite Hx. cbn [mbind option_bind].
  destruct (validate_loop_spec s e n (Z.to_nat (n - 1)) x 1) as (l & Hl & Hload & ->);
    try done; try cint.
  assert (Hxl : Z.of_nat (length (x :: l)) = n) by (simpl; cint).
  eexists. split; [done|]. rewrite bool_decide_eq_true. split.
  - intros Hs. split; [lia|]. exists (x :: l). split; [done|].
    split; fold n e; rewrite ?Hxl; try done; try lia.
    intros [|k] y Hk; simplify_eq/=; [done|].
    replace (Z.of_nat (S k)) with (1 + Z.of_nat k) by lia. auto.
  - intros (_ & l' & Hne & Hw). enough (l' = x :: l) as <- by apply Hw.
    pose proof (wf_len _ _ Hw) as Hl'. fold n in Hl'.
    apply list_eq_same_length with (n := length l'); [lia|done|].
    intros i a b Hi Ha Hb'. pose proof (wf_load _ _ Hw _ _ Ha) as Hla. fold e in Hla.
    destruct i as [|k]; simplify_eq/=; [change (Z.of_nat 0) with 0 in Hla; congruence|].
    apply Hload in Hb'. replace (1 + Z.of_nat k) with (Z.of_nat (S k)) in Hb' by lia.
    congruence.
Qed.

(** Deep validation of an untrusted payload never reads out of bounds, and
    accepts exactly the payloads that hold a non-empty, strictly increasing
    sequence in one of the three encodings. *)
Theorem intsetValidateIntegrity_spec `{Host} (p : bytes) :
  Forall is_byte p -> Z.of_nat (length p) < 2 ^ 32 ->
  exists b, intsetValidateIntegrity p (Z.of_nat (length p)) true = Some b /\
    (b = true <-> (8 <= length p)%nat /\ exists l, l ≠ [] /\ wf (blob_set p) l).
Proof.
  intros Hb Hn. unfold intsetValidateIntegrity, sizeof_intset.
  destruct (Z.ltb_spec (Z.of_nat (length p)) 8) as [Hlt|Hge].
  { exists false. split; [done|]. split; [done|]. lia. }
  destruct (blob_parts p) as [-> ->]; [lia|]. cbn [mbind option_bind].
  fold (blob_set p). set (s := blob_set p). set (e := intrev32ifbe (encoding s)).
  assert (Hcnt : in_u 32 (intrev32ifbe (is_length s))).
  { apply intrev32ifbe_range, native_value_u32.
    - rewrite length_take, length_drop. lia.
    - by apply Forall_take, Forall_drop. }
  set (n := intrev32ifbe (is_length s)) in *.
  assert (Hcont : Z.of_nat (length (contents s)) = Z.of_nat (length p) - 8).
  { simpl. rewrite length_drop. lia. }
  assert (Hcheck := fun He : enc_ok e => validate_check s p Hn ltac:(lia) Hcnt Hcont He).
  fold n e in Hcheck.
  unfold INTSET_ENC_INT64, INTSET_ENC_INT32, INTSET_ENC_INT16.
  destruct (Z.eqb_spec e 8) as [E|]; [rewrite E in Hcheck; apply Hcheck; right; by right|].
  destruct (Z.eqb_spec e 4) as [E|]; [rewrite E in Hcheck; apply Hcheck; right; by left|].
  destruct (Z.eqb_spec e 2) as [E|]; [rewrite E in Hcheck; apply Hcheck; by left|].
  exists false. split; [done|]. split; [done|]. intros (_ & l & _ & Hw).
  pose proof (wf_enc _ _ Hw) as He. fold e in He. destruct He as [?|[?|?]]; lia.
Qed.

Lemma intsetValidateIntegrity_spec_witness :
  exists b, @intsetValidateIntegrity false [2;0;0;0; 2;0;0;0; 1;0; 0;1] 12 true = Some b /\
    b = true.
Proof.
  destruct (@intsetValidateIntegrity_spec false [2;0;0;0; 2;0;0;0; 1;0; 0;1]) as (b & Hb & _).
  - repeat constructor; vm_compute; congruence.
  - reflexivity.
  - exists b. split; [exact Hb|]. vm_compute in Hb. congruence.
Defined.

(** C39: the byte count of [intsetMoveTail] is a 32 bit integer: once a set of
    64 bit elements has 2^29 of them, moving the whole tail asks [memmove] for 0
    bytes instead of 2^32, although [setTypeAdd] admits sets of up to 2^30. *)
Theorem intsetMoveTail_truncates `{Host} s :
  intrev32ifbe (encoding s) = INTSET_ENC_INT64 -> intrev32ifbe (is_length s) = 2 ^ 29 ->
  intsetMoveTail_bytes s 0 = 0 /\
  forall m, intsetMoveTail s 0 1 = Some m -> m = s.
Proof.
  intros He Hl.
  assert (Hb : intsetMoveTail_bytes s 0 = 0).
  { unfold intsetMoveTail_bytes. rewrite He, Hl. reflexivity. }
  split; [done|]. intros m. unfold intsetMoveTail. rewrite Hb, He. simpl.
  destruct (memmove _ _ _ _) as [m'|] eqn:Hm; [|done]. intros [= <-].
  unfold memmove in Hm. destruct (rd _ _ _) as [bs|] eqn:Hr; [|done].
  apply rd_length in Hr. destruct bs; [|done]. simpl in Hm.
  apply wr_Some in Hm as (_ & _ & ->). simpl. rewrite take_drop. by destruct s.
Qed.

Lemma intsetMoveTail_truncates_witness :
  @intsetMoveTail_bytes false (mk_intset 8 (2 ^ 29) []) 0 = 0.
Proof.
  apply (@intsetMoveTail_truncates false (mk_intset 8 (2 ^ 29) [])); reflexivity.
Defined.
