(* ===== verification/Util.v ===== *)
(** Number and string conversions of [util.c].

    A source string is the list of its bytes.  A destination buffer is a memory
    area, written through [setb]; the results are [None] exactly when the C code
    would access memory outside the area. *)

From S2P Require Import Prelude.

Local Open Scope string_scope.
Local Open Scope list_scope.
Local Open Scope Z_scope.

Abbreviation LLONG_MIN := (-9223372036854775808).
Abbreviation LLONG_MAX := 9223372036854775807.
Abbreviation ULLONG_MAX := 18446744073709551615.
Abbreviation LONG_STR_SIZE := 21.

(** ** Printing integers *)

(** The recursion of [digits10] divides by 10^12: one level of recursion is
    enough for 64 bits ([digits10_fuel_enough] below). *)
Fixpoint digits10_fuel (fuel : nat) (v : Z) : Z :=
  match fuel with
  | O => 0
  | S fuel' =>
      if v <? 10 then 1 else
      if v <? 100 then 2 else
      if v <? 1000 then 3 else
      if v <? 1000000000000 then
        if v <? 100000000 then
          if v <? 1000000 then
            if v <? 10000 then 4 else 5 + b2z (100000 <=? v)
          else 7 + b2z (10000000 <=? v)
        else if v <? 10000000000 then 9 + b2z (1000000000 <=? v)
        else 11 + b2z (100000000000 <=? v)
      else 12 + digits10_fuel fuel' (v / 1000000000000)
  end.

Definition digits10 (v : Z) : Z := digits10_fuel 2 v.

Definition sdigits10 (v : Z) : Z :=
  if v <? 0 then
    let uv := if decide (v <> LLONG_MIN) then u64 (- v) else u64 LLONG_MAX + 1 in
    digits10 uv + 1
  else digits10 v.

(** The static table of two digit groups. *)
Definition digits : bytes := str
  ("0001020304050607080910111213141516171819" ++
   "2021222324252627282930313233343536373839" ++
   "4041424344454647484950515253545556575859" ++
   "6061626364656667686970717273747576777879" ++
   "8081828384858687888990919293949596979899")%string.

Definition digits_at (i : Z) : Z := nth (Z.to_nat i) digits 0.

(** [while (value >= 100)] and the final one or two digits; [dst] points at
    offset [p] of the area [m]. *)
Fixpoint ull2string_loop (fuel : nat) (m : bytes) (p next value : Z) : option bytes :=
  match fuel with
  | O => None
  | S fuel' =>
      if 100 <=? value then
        let i := value mod 100 * 2 in
        let value := value / 100 in
        m ← setb m (p + next) (digits_at (i + 1));
        m ← setb m (p + u32 (next - 1)) (digits_at i);
        ull2string_loop fuel' m p (u32 (next - 2)) value
      else if value <? 10 then setb m (p + next) (48 + value)
      else
        let i := value * 2 in
        m ← setb m (p + next) (digits_at (i + 1));
        setb m (p + u32 (next - 1)) (digits_at i)
  end.

(** The memory after the call and the value returned. *)
Definition ull2string (m : bytes) (p dstlen value : Z) : option (bytes * Z) :=
  let length := digits10 value in
  if dstlen <=? length then Some (m, 0)
  else
    let next := length - 1 in
    m ← setb m (p + (next + 1)) 0;
    m ← ull2string_loop 20 m p next value;
    Some (m, length).

Definition ll2string (m : bytes) (dst dstlen svalue : Z) : option (bytes * Z) :=
  if svalue <? 0 then
    let value := if decide (svalue <> LLONG_MIN) then u64 (- svalue) else u64 LLONG_MAX + 1 in
    if dstlen <? 2 then Some (m, 0)
    else
      m ← setb m dst 45 (* '-' *);
      '(m, length) ← ull2string m (dst + 1) (dstlen - 1) value;
      Some (m, if length =? 0 then 0 else length + 1)
  else
    '(m, length) ← ull2string m dst dstlen (u64 svalue);
    Some (m, if length =? 0 then 0 else length + 0).

(** ** Parsing integers *)

(** [while (plen < slen && p[0] >= '0' && p[0] <= '9')]: the value and what is
    left of the string, [None] on overflow. *)
Fixpoint string2ll_loop (p : bytes) (v : Z) : option (Z * bytes) :=
  match p with
  | c :: p' =>
      if (48 <=? c) && (c <=? 57) then
        if ULLONG_MAX / 10 <? v then None
        else
          let v := v * 10 in
          if ULLONG_MAX - (c - 48) <? v then None
          else string2ll_loop p' (v + (c - 48))
      else Some (v, p)
  | [] => Some (v, [])
  end.

(** [None] is the return value 0 and [Some value] the return value 1. *)
Definition string2ll (s : bytes) : option Z :=
  let slen := Z.of_nat (length s) in
  if (0 =? slen) || (LONG_STR_SIZE <=? slen) then None
  else if (slen =? 1) && (nth 0 s 0 =? 48) then Some 0
  else
    let '(negative, p) := if nth 0 s 0 =? 45 then (true, tail s) else (false, s) in
    match p with
    | [] => None
    | c :: p' =>
        if (49 <=? c) && (c <=? 57) then
          match string2ll_loop p' (c - 48) with
          | None => None
          | Some (v, _ :: _) => None
          | Some (v, []) =>
              if negative then
                if u64 (- (LLONG_MIN + 1)) + 1 <? v then None else Some (i64 (u64 (- v)))
              else
                if LLONG_MAX <? v then None else Some (i64 v)
          end
        else None
    end.

(** [long] has the width of [long long] on the 64 bit hosts modelled here. *)
Definition string2l (s : bytes) : option Z :=
  llval ← string2ll s;
  if (llval <? LLONG_MIN) || (LLONG_MAX <? llval) then None else Some (i64 llval).

(** ** The C library's [strtoull], base 10 *)

Definition isspace (c : Z) : bool := (c =? 32) || ((9 <=? c) && (c <=? 13)).
Definition isdigit (c : Z) : bool := (48 <=? c) && (c <=? 57).

Fixpoint drop_spaces (s : bytes) : bytes :=
  match s with
  | c :: s' => if isspace c then drop_spaces s' else s
  | [] => []
  end.

Fixpoint span_digits (s : bytes) : bytes * bytes :=
  match s with
  | c :: s' =>
      if isdigit c then let '(d, r) := span_digits s' in (c :: d, r) else ([], s)
  | [] => ([], [])
  end.

Fixpoint dec_acc (v : Z) (s : bytes) : Z :=
  match s with
  | [] => v
  | c :: s' => dec_acc (10 * v + (c - 48)) s'
  end.
Abbreviation dec_value := (dec_acc 0).

Inductive errno := NoError | EINVAL | ERANGE.
#[export] Instance errno_eq_dec : EqDecision errno.
Proof. solve_decision. Defined.

(** Value, rest of the string at [endptr], and [errno].  POSIX lets an
    implementation report [EINVAL] when there is nothing to convert:
    [einval_if_empty] is that choice. *)
Definition strtoull (einval_if_empty : bool) (s : bytes) : Z * bytes * errno :=
  let t := drop_spaces s in
  let '(negative, t) :=
    match t with
    | c :: t' => if c =? 45 then (true, t') else if c =? 43 then (false, t') else (false, t)
    | [] => (false, [])
    end in
  match span_digits t with
  | ([], _) => (0, s, if einval_if_empty then EINVAL else NoError)
  | (d, rest) =>
      let v := dec_value d in
      if ULLONG_MAX <? v then (ULLONG_MAX, rest, ERANGE)
      else (if negative then u64 (- v) else v, rest, NoError)
  end.

(** [s] is the content of a NUL terminated string. *)
Definition string2ull (einval_if_empty : bool) (s : bytes) : option Z :=
  match string2ll s with
  | Some ll => if ll <? 0 then None else Some (u64 ll)
  | None =>
      let '(value, endptr, err) := strtoull einval_if_empty s in
      if bool_decide (err = EINVAL) || bool_decide (err = ERANGE) ||
         negb (negb (bool_decide (s = [])) && bool_decide (endptr = []))
      then None else Some value
  end.

Definition tolower (c : Z) : Z := if (65 <=? c) && (c <=? 90) then c + 32 else c.

Definition strcaseeq (a b : bytes) : bool := bool_decide (tolower <$> a = tolower <$> b).

(** The multiplier of a unit suffix. *)
Definition memtoull_unit (u : bytes) : option Z :=
  if bool_decide (u = []) || strcaseeq u (str "b") then Some 1
  else if strcaseeq u (str "k") then Some 1000
  else if strcaseeq u (str "kb") then Some 1024
  else if strcaseeq u (str "m") then Some (1000 * 1000)
  else if strcaseeq u (str "mb") then Some (1024 * 1024)
  else if strcaseeq u (str "g") then Some (1000 * 1000 * 1000)
  else if strcaseeq u (str "gb") then Some (1024 * 1024 * 1024)
  else None.

(** [None] is [*err = 1] with the value 0. *)
Definition memtoull (einval_if_empty : bool) (p : bytes) : option Z :=
  if bool_decide (head p = Some 45) then None
  else
    let '(d, u) := span_digits p in
    mul ← memtoull_unit u;
    if (128 <=? length d)%nat then None
    else
      let '(val, endptr, err) := strtoull einval_if_empty d in
      if ((val =? 0) && bool_decide (err = EINVAL)) || negb (bool_decide (endptr = [])) then None
      else Some (u64 (val * mul)).

(** ** Character maps *)

Fixpoint mempbrk (s : bytes) (chars : bytes) (j : Z) : option Z :=
  match s with
  | [] => None
  | c :: s' => if existsb (Z.eqb c) chars then Some j else mempbrk s' chars (j + 1)
  end.

Fixpoint mapchar (c : Z) (from to : bytes) : Z :=
  match from, to with
  | f :: from', t :: to' => if c =? f then t else mapchar c from' to'
  | _, _ => c
  end.

Definition memmapchars (s from to : bytes) : bytes := (λ c, mapchar c from to) <$> s.

Example ll2string_min :
  ll2string (replicate 22 1) 0 22 LLONG_MIN = Some (str "-9223372036854775808" ++ [0; 1], 20)%list.
Proof. reflexivity. Qed.

Example string2ll_min : string2ll (str "-9223372036854775808") = Some LLONG_MIN.
Proof. reflexivity. Qed.
Example string2ll_over : string2ll (str "9223372036854775808") = None.
Proof. reflexivity. Qed.
Example memtoull_1gb : memtoull false (str "1Gb") = Some 1073741824.
Proof. reflexivity. Qed.

(** ** Decimal notation

    [decimal v s]: [s] is the usual notation of [v]: digits only, at least one,
    and no leading zero unless it is the only digit. *)

Definition is_digit (c : Z) : Prop := 48 <= c <= 57.

Definition decimal (v : Z) (s : bytes) : Prop :=
  Forall is_digit s /\ s <> [] /\ (head s = Some 48 -> s = [48]) /\ dec_value s = v.

Definition signed_decimal (v : Z) (s : bytes) : Prop :=
  if decide (v < 0) then exists s', s = 45 :: s' /\ decimal (- v) s' else decimal v s.

(** [v] has exactly [d] decimal digits. *)
Definition ndigits (v d : Z) : Prop := 1 <= d /\ v < 10 ^ d /\ (d = 1 \/ 10 ^ (d - 1) <= v).

Lemma dec_acc_app v a b : dec_acc v (a ++ b) = dec_acc (dec_acc v a) b.
Proof. revert v. induction a; intros; simpl; auto. Qed.

Lemma dec_acc_shift s : forall v, dec_acc v s = v * 10 ^ Z.of_nat (length s) + dec_value s.
Proof.
  induction s as [|c s IH]; intros v; [simpl; lia|]. cbn [dec_acc length].
  rewrite IH, (IH (10 * 0 + _)), Nat2Z.inj_succ, Z.pow_succ_r by lia. lia.
Qed.

Lemma dec_value_cons c s :
  dec_value (c :: s) = (c - 48) * 10 ^ Z.of_nat (length s) + dec_value s.
Proof. cbn [dec_acc]. rewrite dec_acc_shift. f_equal. Qed.

Lemma dec_value_bounds s : Forall is_digit s -> 0 <= dec_value s < 10 ^ Z.of_nat (length s).
Proof.
  induction 1 as [|c s Hc Hs IH]; [simpl; lia|]. rewrite dec_value_cons. cbn [length].
  rewrite Nat2Z.inj_succ, Z.pow_succ_r by lia. unfold is_digit in Hc. nia.
Qed.

Lemma dec_value_inj s : forall s',
  Forall is_digit s -> Forall is_digit s' -> length s = length s' ->
  dec_value s = dec_value s' -> s = s'.
Proof.
  induction s as [|c s IH]; intros [|c' s'] Hs Hs' Hl Hv; try done.
  inversion Hs; inversion Hs'; subst. rewrite !dec_value_cons in Hv.
  injection Hl as Hl. rewrite Hl in Hv.
  pose proof (dec_value_bounds s ltac:(done)). pose proof (dec_value_bounds s' ltac:(done)).
  rewrite Hl in *.
  unfold is_digit in *. assert (c = c') by nia. subst. f_equal. apply IH; [done..|lia].
Qed.

Lemma decimal_ndigits v s : decimal v s -> ndigits v (Z.of_nat (length s)).
Proof.
  intros (Hd & Hne & Hz & <-). pose proof (dec_value_bounds s Hd).
  destruct s as [|c s]; [done|]. cbn [length] in *. split_and!; [lia|lia|].
  destruct s as [|c2 s]; [by left|right]. set (t := c2 :: s) in *.
  inversion Hd as [|? ? Hc Ht]; subst. unfold is_digit in Hc. rewrite dec_value_cons.
  pose proof (dec_value_bounds t Ht). replace (Z.of_nat (S (length t)) - 1) with (Z.of_nat (length t)) by lia.
  assert (c <> 48) by (intros ->; by specialize (Hz eq_refl)). nia.
Qed.

Lemma ndigits_unique v d d' : ndigits v d -> ndigits v d' -> d = d'.
Proof.
  intros (H1 & H2 & H3) (H1' & H2' & H3').
  destruct (Z.lt_trichotomy d d') as [Hlt|[->|Hlt]]; [exfalso|done|exfalso].
  - destruct H3' as [->|H3']; [lia|]. pose proof (Z.pow_le_mono_r 10 d (d' - 1)). lia.
  - destruct H3 as [->|H3]; [lia|]. pose proof (Z.pow_le_mono_r 10 d' (d - 1)). lia.
Qed.

Lemma decimal_unique v s s' : decimal v s -> decimal v s' -> s = s'.
Proof.
  intros H H'. pose proof (ndigits_unique _ _ _ (decimal_ndigits _ _ H) (decimal_ndigits _ _ H')).
  destruct H as (? & ? & ? & ?), H' as (? & ? & ? & ?). apply dec_value_inj; [done..|lia|congruence].
Qed.

Lemma decimal_pos v s : decimal v s -> 0 <= v.
Proof. intros (H & _ & _ & <-). by apply dec_value_bounds. Qed.

Lemma signed_decimal_unique v s s' : signed_decimal v s -> signed_decimal v s' -> s = s'.
Proof.
  unfold signed_decimal. case_decide; [|apply decimal_unique].
  intros (t & -> & Ht) (t' & -> & Ht'). f_equal. by apply (decimal_unique (- v)).
Qed.

(** ** The printers *)

Ltac pow10 :=
  repeat match goal with
  | |- context [10 ^ ?k] => let n := eval vm_compute in (10 ^ k) in change (10 ^ k) with n
  end.

Lemma digits10_fuel_spec fuel v :
  fuel <> 0%nat -> 0 <= v -> v < 10 ^ (12 * Z.of_nat fuel) -> ndigits v (digits10_fuel fuel v).
Proof.
  revert v. induction fuel as [|fuel IH]; intros v Hf H0 Hv; [done|].
  cbn [digits10_fuel].
  repeat match goal with
  | |- context [?a <? ?b] => destruct (Z.ltb_spec a b)
  | |- context [b2z (?a <=? ?b)] => destruct (Z.leb_spec a b)
  end; cbn [b2z];
  try (unfold ndigits; split_and!; [lia|pow10; lia|first [left; lia|right; pow10; lia]]).
  destruct (IH (v / 1000000000000)) as (Hd1 & Hd2 & Hd3).
  - intros ->. simpl in Hv. lia.
  - apply Z.div_pos; lia.
  - apply Z.div_lt_upper_bound; [lia|].
    replace (12 * Z.of_nat (S fuel)) with (12 + 12 * Z.of_nat fuel) in Hv by lia.
    rewrite Z.pow_add_r in Hv by lia. exact Hv.
  - set (d := digits10_fuel fuel (v / 1000000000000)) in *.
    unfold ndigits. rewrite Z.pow_add_r by lia.
    replace (12 + d - 1) with (12 + (d - 1)) by lia. rewrite (Z.pow_add_r 10 12 (d - 1)) by lia.
    change (10 ^ 12) with 1000000000000.
    split_and!; [lia|Z.to_euclidean_division_equations; nia|right].
    destruct Hd3 as [->|Hd3]; [simpl; lia|Z.to_euclidean_division_equations; nia].
Qed.

Lemma digits10_spec v : in_u 64 v -> ndigits v (digits10 v).
Proof. intros. apply digits10_fuel_spec; [done|cint|]. pow10. cint. Qed.

Lemma digits10_range v : in_u 64 v -> 1 <= digits10 v <= 20.
Proof.
  intros Hv. destruct (digits10_spec v Hv) as (H1 & H2 & H3). split; [done|].
  destruct H3 as [->|H3]; [lia|]. destruct (Z.le_gt_cases (digits10 v) 20); [done|].
  pose proof (Z.pow_le_mono_r 10 20 (digits10 v - 1) ltac:(lia) ltac:(lia)).
  change (10 ^ 20) with 100000000000000000000 in *. cint.
Qed.

Lemma digits_cases (P : Z -> bool) :
  forallb P (seqZ 0 100) = true -> forall x, 0 <= x < 100 -> P x = true.
Proof. intros H x Hx. rewrite forallb_forall in H. apply H, list_elem_of_In, elem_of_seqZ. lia. Qed.

Lemma digits_at_spec x :
  0 <= x < 100 -> digits_at (x * 2) = 48 + x / 10 /\ digits_at (x * 2 + 1) = 48 + x mod 10.
Proof.
  intros Hx.
  pose proof (digits_cases (λ x, (digits_at (x * 2) =? 48 + x / 10) &&
    (digits_at (x * 2 + 1) =? 48 + x mod 10)) eq_refl x Hx) as H.
  apply andb_true_iff in H as [H1%Z.eqb_eq H2%Z.eqb_eq]. done.
Qed.

(** Two more digits at the end of a decimal notation. *)
Lemma decimal_snoc2 v s a b :
  decimal v s -> 0 < v -> is_digit a -> is_digit b ->
  decimal (100 * v + 10 * (a - 48) + (b - 48)) (s ++ [a; b]).
Proof.
  intros (Hd & Hne & Hz & Hv) Hpos Ha Hb. split_and!.
  - apply Forall_app. auto.
  - by destruct s.
  - destruct s as [|c s]; [done|]. simpl. intros [= ->]. specialize (Hz eq_refl).
    injection Hz as ->. simpl in Hv. lia.
  - rewrite dec_acc_app, Hv. cbn [dec_acc]. lia.
Qed.

Lemma wr2 m p a b m1 m2 :
  0 <= p -> setb m (p + 1) b = Some m1 -> setb m1 p a = Some m2 -> wr m p [a; b] = Some m2.
Proof. rewrite !setb_wr. intros. by apply (wr_join m p [a] [b] m1). Qed.

(** Two digits written backwards at [p + k - 1] and [p + k]. *)
Lemma write2 m p k x :
  0 <= p -> 1 <= k < 2 ^ 32 -> p + k < Z.of_nat (length m) -> 0 <= x < 100 ->
  exists m', (m ← setb m (p + k) (digits_at (x * 2 + 1));
              setb m (p + u32 (k - 1)) (digits_at (x * 2))) = Some m' /\
             wr m (p + (k - 1)) [48 + x / 10; 48 + x mod 10] = Some m'.
Proof.
  intros Hp Hk Hm Hx. destruct (digits_at_spec x Hx) as [-> ->].
  rewrite wrapu_small by (unfold in_u; lia).
  destruct (setb_ok m (p + k) (48 + x mod 10)) as [m1 E1]; [lia|].
  destruct (setb_ok m1 (p + (k - 1)) (48 + x / 10)) as [m2 E2].
  { rewrite (setb_length _ _ _ _ E1). lia. }
  exists m2. rewrite E1. split; [exact E2|]. apply (wr2 _ _ _ _ m1); [lia| |done].
  by replace (p + (k - 1) + 1) with (p + k) by lia.
Qed.

Lemma two_digits x : 0 <= x < 100 -> is_digit (48 + x / 10) /\ is_digit (48 + x mod 10).
Proof. intros. unfold is_digit. Z.to_euclidean_division_equations. lia. Qed.

Lemma ndigits_div100 v d : 100 <= v -> ndigits v d -> 3 <= d /\ ndigits (v / 100) (d - 2).
Proof.
  intros Hv (H1 & H2 & H3). assert (3 <= d).
  { destruct (Z.le_gt_cases 3 d); [done|].
    pose proof (Z.pow_le_mono_r 10 d 2 ltac:(lia) ltac:(lia)). lia. }
  split; [done|]. replace d with (2 + (d - 2)) in H2 by lia. rewrite Z.pow_add_r in H2 by lia.
  split_and!; [lia|apply Z.div_lt_upper_bound; lia|].
  destruct H3 as [->|H3]; [lia|]. destruct (Z.eq_dec d 3); [left; lia|right].
  replace (d - 1) with (2 + (d - 2 - 1)) in H3 by lia. rewrite Z.pow_add_r in H3 by lia.
  apply Z.div_le_lower_bound; lia.
Qed.

(** The last one or two digits. *)
Lemma ull2string_last m p next value :
  0 <= p -> 0 <= next -> p + next < Z.of_nat (length m) ->
  0 <= value < 100 -> ndigits value (next + 1) ->
  exists s m',
    (if value <? 10 then setb m (p + next) (48 + value)
     else m ← setb m (p + next) (digits_at (value * 2 + 1));
          setb m (p + u32 (next - 1)) (digits_at (value * 2))) = Some m' /\
    wr m p s = Some m' /\ decimal value s /\ Z.of_nat (length s) = next + 1.
Proof.
  intros Hp Hn Hm H100 Hd. destruct (Z.ltb_spec value 10) as [H10|H10].
  - assert (next = 0) as ->.
    { destruct Hd as (_ & _ & [?|Hd]); [lia|]. destruct (Z.eq_dec next 0); [done|].
      pose proof (Z.pow_le_mono_r 10 1 (next + 1 - 1) ltac:(lia) ltac:(lia)). lia. }
    rewrite Z.add_0_r, setb_wr. destruct (setb_ok m p (48 + value)) as [m' E]; [lia|].
    rewrite setb_wr in E. exists [48 + value], m'. split_and!; [done|done| |done].
    split_and!; [|done| |cbn [dec_acc]; lia].
    + constructor; [unfold is_digit; lia|done].
    + simpl. intros [= ->]. done.
  - assert (next = 1) as ->.
    { apply (ndigits_unique value (next + 1) 2) in Hd; [lia|].
      split_and!; [lia|lia|right; lia]. }
    destruct (write2 m p 1 value) as (m' & E & W); [lia..|].
    destruct (two_digits value) as [Ha Hb]; [lia|].
    exists [48 + value / 10; 48 + value mod 10], m'.
    split_and!; [done|by rewrite Z.add_0_r in W| |done].
    split_and!; [rewrite !Forall_cons; auto|done| |].
    + simpl. intros [= Hq]. exfalso. Z.to_euclidean_division_equations. lia.
    + cbn [dec_acc]. Z.to_euclidean_division_equations. lia.
Qed.

Lemma ull2string_loop_spec fuel : forall m p next value,
  0 <= p -> fuel <> 0%nat -> 0 <= value < 100 ^ Z.of_nat fuel -> 0 <= next < 2 ^ 32 ->
  p + next < Z.of_nat (length m) -> ndigits value (next + 1) ->
  exists s m', ull2string_loop fuel m p next value = Some m' /\ wr m p s = Some m' /\
               decimal value s /\ Z.of_nat (length s) = next + 1.
Proof.
  induction fuel as [|fuel IH]; intros m p next value Hp Hf Hv Hn Hm Hd; [done|].
  cbn [ull2string_loop]. destruct (Z.leb_spec 100 value) as [H100|H100].
  - destruct (ndigits_div100 _ _ H100 Hd) as [Hn3 Hd'].
    assert (Hx : 0 <= value mod 100 < 100) by (apply Z.mod_pos_bound; lia).
    destruct (write2 m p next (value mod 100)) as (m1 & E1 & W1); [lia..|].
    destruct (setb m (p + next) _) as [m0|] eqn:E0; [|done]. simpl in E1 |- *. rewrite E1. simpl.
    rewrite wrapu_small by (unfold in_u; lia).
    destruct (IH m1 p (next - 2) (value / 100)) as (s & m' & -> & W2 & Hs & Hl).
    + lia.
    + intros ->. simpl in Hv. lia.
    + rewrite Nat2Z.inj_succ, Z.pow_succ_r in Hv by lia.
      split; [apply Z.div_pos; lia|apply Z.div_lt_upper_bound; lia].
    + lia.
    + rewrite (wr_length _ _ _ _ W1). lia.
    + by replace (next - 2 + 1) with (next + 1 - 2) by lia.
    + destruct (two_digits _ Hx) as [Ha Hb].
      exists (s ++ [48 + value mod 100 / 10; 48 + value mod 100 mod 10]), m'.
      split_and!; [done| | |rewrite length_app; simpl; lia].
      * apply (wr_join _ _ _ _ m1); [done| |done]. rewrite <- W1. f_equal. lia.
      * pose proof (Z.div_le_lower_bound value 100 1 ltac:(lia) ltac:(lia)).
        pose proof (decimal_snoc2 _ s _ _ Hs ltac:(lia) Ha Hb) as Hdec.
        replace value with (100 * (value / 100) + 10 * (48 + value mod 100 / 10 - 48)
          + (48 + value mod 100 mod 10 - 48)) at 1; [done|].
        Z.to_euclidean_division_equations. lia.
  - apply ull2string_last; lia || done.
Qed.

(** What the printers write: a notation [s] followed by a NUL. *)
Lemma ull2string_spec m p dstlen value :
  0 <= p -> in_u 64 value -> p + dstlen <= Z.of_nat (length m) ->
  if decide (digits10 value < dstlen) then
    exists s m', ull2string m p dstlen value = Some (m', Z.of_nat (length s)) /\
      wr m p (s ++ [0]) = Some m' /\ decimal value s /\ Z.of_nat (length s) = digits10 value
  else ull2string m p dstlen value = Some (m, 0).
Proof.
  intros Hp Hv Hm. unfold ull2string. case_decide as Hd.
  2:{ by rewrite (proj2 (Z.leb_le dstlen (digits10 value))) by lia. }
  rewrite (proj2 (Z.leb_gt dstlen (digits10 value))) by lia.
  pose proof (digits10_range value Hv) as Hr. pose proof (digits10_spec value Hv) as Hs.
  set (d := digits10 value) in *.
  destruct (setb_ok m (p + (d - 1 + 1)) 0) as [m0 E0]; [lia|]. rewrite E0. cbn [mbind option_bind].
  pose proof (setb_length _ _ _ _ E0).
  destruct (ull2string_loop_spec 20 m0 p (d - 1) value) as (s & m' & E & W & Hdec & Hl);
    [lia|done| |lia|lia|by replace (d - 1 + 1) with d by lia|].
  { change (100 ^ Z.of_nat 20) with 10000000000000000000000000000000000000000. cint. }
  rewrite E. cbn [mbind option_bind]. exists s, m'. split_and!; [|idtac|done|lia].
  - do 2 f_equal. lia.
  - apply (wr_join _ _ _ _ m0); [lia| |done]. rewrite <- setb_wr, <- E0. f_equal. lia.
Qed.

(** The magnitude that [ll2string] and [sdigits10] compute. *)
Lemma magnitude v :
  in_s 64 v -> v < 0 ->
  (if decide (v <> LLONG_MIN) then u64 (- v) else u64 LLONG_MAX + 1) = - v /\ in_u 64 (- v).
Proof.
  intros Hv Hneg. split; [|cint]. case_decide; [apply wrapu_small; cint|].
  rewrite wrapu_small by cint. lia.
Qed.

Lemma ll2string_spec m p dstlen v :
  0 <= p -> in_s 64 v -> 0 <= dstlen -> p + dstlen <= Z.of_nat (length m) ->
  exists m' n, ll2string m p dstlen v = Some (m', n) /\
    if decide (sdigits10 v < dstlen)
    then exists s, wr m p (s ++ [0]) = Some m' /\ signed_decimal v s /\
                   n = Z.of_nat (length s) /\ n = sdigits10 v
    else n = 0.
Proof.
  intros Hp Hv H0 Hm. unfold ll2string, sdigits10.
  destruct (Z.ltb_spec v 0) as [Hneg|Hpos].
  - destruct (magnitude v Hv Hneg) as [-> Hmag].
    pose proof (digits10_range _ Hmag). destruct (Z.ltb_spec dstlen 2).
    { exists m, 0. split; [done|]. by rewrite decide_False by lia. }
    destruct (setb_ok m p 45) as [m1 E1]; [lia|]. rewrite E1. cbn [mbind option_bind].
    pose proof (ull2string_spec m1 (p + 1) (dstlen - 1) (- v)) as Hs.
    rewrite (setb_length _ _ _ _ E1) in Hs. specialize (Hs ltac:(lia) Hmag ltac:(lia)).
    case_decide as Hd.
    + destruct Hs as (s & m' & -> & W & Hs & Hl). exists m', (Z.of_nat (length s) + 1).
      cbn [mbind option_bind]. rewrite (proj2 (Z.eqb_neq _ 0)) by lia. split; [done|].
      rewrite decide_True by lia. exists (45 :: s). split_and!; [| |simpl; lia|lia].
      2:{ unfold signed_decimal. rewrite decide_True by done. by exists s. }
      rewrite setb_wr in E1. pose proof (wr_wr_next m p [45] (s ++ [0]) m1 m' ltac:(lia) E1 W). done.
    + rewrite Hs. exists m1, 0. split; [done|]. by rewrite decide_False by lia.
  - rewrite wrapu_small by cint.
    pose proof (ull2string_spec m p dstlen v Hp ltac:(cint) Hm) as Hs.
    case_decide as Hd.
    + destruct Hs as (s & m' & -> & W & Hs & Hl). exists m', (Z.of_nat (length s)).
      cbn [mbind option_bind]. pose proof (digits10_range v ltac:(cint)).
      rewrite (proj2 (Z.eqb_neq _ 0)), Z.add_0_r by lia. split; [done|]. exists s.
      unfold signed_decimal. by rewrite decide_False by lia.
    + rewrite Hs. by exists m, 0.
Qed.

(** ** The parser *)

Lemma string2ll_loop_spec p : forall v w,
  0 <= v <= ULLONG_MAX ->
  string2ll_loop p v = Some (w, []) <-> Forall is_digit p /\ dec_acc v p = w /\ w <= ULLONG_MAX.
Proof.
  induction p as [|c p IH]; intros v w Hv; cbn [string2ll_loop dec_acc].
  { split; [intros [= <-]; split_and!; [done|done|lia]|by intros (_ & -> & _)]. }
  destruct ((48 <=? c) && (c <=? 57)) eqn:Hc.
  2:{ split; [done|]. intros [Hd _]. inversion Hd; subst. unfold is_digit in *. lia. }
  apply andb_true_iff in Hc as [Hc1%Z.leb_le Hc2%Z.leb_le].
  change (ULLONG_MAX / 10) with 1844674407370955161.
  assert (Hbig : ULLONG_MAX < v * 10 + (c - 48) -> Forall is_digit p ->
                 ULLONG_MAX < dec_acc (10 * v + (c - 48)) p).
  { intros Hb Hp. rewrite dec_acc_shift. pose proof (dec_value_bounds p Hp).
    pose proof (Z.pow_pos_nonneg 10 (Z.of_nat (length p))). nia. }
  destruct (Z.ltb_spec 1844674407370955161 v).
  { split; [done|]. intros (Hd & <- & Hle). inversion Hd; subst.
    specialize (Hbig ltac:(lia) ltac:(done)). lia. }
  destruct (Z.ltb_spec (ULLONG_MAX - (c - 48)) (v * 10)).
  { split; [done|]. intros (Hd & <- & Hle). inversion Hd; subst.
    specialize (Hbig ltac:(lia) ltac:(done)). lia. }
  rewrite IH, Forall_cons by lia. rewrite (Z.mul_comm v 10).
  assert (is_digit c) by (unfold is_digit; lia). tauto.
Qed.

Lemma decimal_cons c p :
  1 <= c - 48 <= 9 -> Forall is_digit p -> decimal (dec_acc (c - 48) p) (c :: p).
Proof.
  intros Hc Hp. split_and!; [|done| |done].
  - constructor; [unfold is_digit; lia|done].
  - simpl. intros [= ->]. lia.
Qed.

Lemma decimal_inv v s :
  decimal v s -> 0 < v ->
  exists c p, s = c :: p /\ 49 <= c <= 57 /\ Forall is_digit p /\ dec_acc (c - 48) p = v.
Proof.
  intros (Hd & Hne & Hz & Hv) Hpos. destruct s as [|c p]; [done|].
  inversion Hd as [|? ? Hc Hp]; subst. exists c, p. unfold is_digit in Hc.
  split_and!; [done| |lia|done|done]. destruct (Z.eq_dec c 48) as [->|]; [|lia].
  injection (Hz eq_refl) as ->. simpl in Hpos. lia.
Qed.

Lemma decimal_length v s : decimal v s -> v <= 9223372036854775808 -> (length s <= 19)%nat.
Proof.
  intros Hs Hv. destruct (decimal_ndigits _ _ Hs) as (_ & _ & [?|Hd]); [lia|].
  destruct (Nat.le_gt_cases (length s) 19); [done|].
  pose proof (Z.pow_le_mono_r 10 19 (Z.of_nat (length s) - 1) ltac:(lia) ltac:(lia)).
  change (10 ^ 19) with 10000000000000000000 in *. lia.
Qed.

Lemma signed_decimal_length v s : in_s 64 v -> signed_decimal v s -> (1 <= length s <= 20)%nat.
Proof.
  unfold signed_decimal. intros Hv Hs. case_decide.
  - destruct Hs as (s' & -> & Hs). pose proof (decimal_length _ _ Hs ltac:(cint)). simpl. lia.
  - pose proof (decimal_length _ _ Hs ltac:(cint)). destruct Hs as (_ & Hne & _).
    destruct s; [done|]. simpl in *. lia.
Qed.

(** The part of [string2ll] after the sign. *)
Definition string2ll_tail (negative : bool) (p : bytes) : option Z :=
  match p with
  | [] => None
  | c :: p' =>
      if (49 <=? c) && (c <=? 57) then
        match string2ll_loop p' (c - 48) with
        | None => None
        | Some (v, _ :: _) => None
        | Some (v, []) =>
            if negative then
              if u64 (- (LLONG_MIN + 1)) + 1 <? v then None else Some (i64 (u64 (- v)))
            else
              if LLONG_MAX <? v then None else Some (i64 v)
        end
      else None
  end.

Lemma string2ll_eq s :
  string2ll s =
  let slen := Z.of_nat (length s) in
  if (0 =? slen) || (LONG_STR_SIZE <=? slen) then None
  else if (slen =? 1) && (nth 0 s 0 =? 48) then Some 0
  else if nth 0 s 0 =? 45 then string2ll_tail true (tail s) else string2ll_tail false s.
Proof. unfold string2ll, string2ll_tail. by destruct (nth 0 s 0 =? 45). Qed.

Lemma string2ll_tail_spec (neg : bool) p v :
  string2ll_tail neg p = Some v <->
  (if neg then v < 0 else 0 < v) /\ in_s 64 v /\ decimal (Z.abs v) p.
Proof.
  unfold string2ll_tail. split.
  - destruct p as [|c p]; [done|]. destruct ((49 <=? c) && (c <=? 57)) eqn:Hc; [|done].
    apply andb_true_iff in Hc as [Hc1%Z.leb_le Hc2%Z.leb_le].
    destruct (string2ll_loop p (c - 48)) as [[w [|]]|] eqn:E; [|done..].
    apply string2ll_loop_spec in E as (Hd & Hw & Hle); [|lia].
    assert (1 <= w).
    { rewrite <- Hw, dec_acc_shift. pose proof (dec_value_bounds p Hd).
      pose proof (Z.pow_pos_nonneg 10 (Z.of_nat (length p))). nia. }
    pose proof (decimal_cons c p ltac:(lia) Hd) as Hdec. rewrite Hw in Hdec.
    destruct neg.
    + change (u64 (- (LLONG_MIN + 1)) + 1) with 9223372036854775808.
      destruct (Z.ltb_spec 9223372036854775808 w); [done|]. intros [= <-].
      rewrite wraps_wrapu, wraps_small by cint.
      split_and!; [lia|cint|]. by replace (Z.abs (- w)) with w by lia.
    + destruct (Z.ltb_spec LLONG_MAX w); [done|]. intros [= <-]. rewrite wraps_small by cint.
      split_and!; [lia|cint|]. by rewrite Z.abs_eq by lia.
  - intros (Hsgn & Hv & Hdec).
    destruct (decimal_inv _ _ Hdec) as (c & p' & -> & Hc & Hd & Hw); [destruct neg; lia|].
    rewrite (proj2 (andb_true_iff _ _)) by (split; apply Z.leb_le; lia).
    rewrite (proj2 (string2ll_loop_spec p' (c - 48) (Z.abs v) ltac:(lia))) by
      (split_and!; [done|done|cint]).
    destruct neg.
    + change (u64 (- (LLONG_MIN + 1)) + 1) with 9223372036854775808.
      rewrite (proj2 (Z.ltb_ge _ _)) by cint. rewrite wraps_wrapu, wraps_small by cint.
      f_equal. lia.
    + rewrite (proj2 (Z.ltb_ge _ _)) by cint. rewrite wraps_small by cint. f_equal. lia.
Qed.

Lemma string2ll_spec s v : string2ll s = Some v <-> in_s 64 v /\ signed_decimal v s.
Proof.
  rewrite string2ll_eq. cbn zeta. split.
  - destruct (_ || _); [done|]. destruct (_ && _) eqn:E0.
    { apply andb_true_iff in E0 as [E1%Z.eqb_eq E2%Z.eqb_eq].
      destruct s as [|c [|]]; simpl in E1, E2; try lia. subst. intros [= <-].
      split; [cint|]. unfold signed_decimal. rewrite decide_False by lia.
      split_and!; [|done..]. repeat constructor; lia. }
    destruct (Z.eqb_spec (nth 0 s 0) 45).
    + intros (Hs & Hv & Hd)%string2ll_tail_spec. split; [done|]. unfold signed_decimal.
      rewrite decide_True by done. destruct s as [|c s]; [done|]. simpl in *. subst c.
      exists s. by rewrite Z.abs_neq in Hd by lia.
    + intros (Hs & Hv & Hd)%string2ll_tail_spec. split; [done|]. unfold signed_decimal.
      rewrite decide_False by lia. by rewrite Z.abs_eq in Hd by lia.
  - intros [Hv Hs]. pose proof (signed_decimal_length v s Hv Hs).
    rewrite (proj2 (orb_false_iff _ _)) by (split; [apply Z.eqb_neq|apply Z.leb_gt]; lia).
    unfold signed_decimal in Hs. case_decide as Hneg.
    + destruct Hs as (s' & -> & Hs). cbn [nth tail]. rewrite andb_false_r. cbn [Z.eqb Pos.eqb].
      apply string2ll_tail_spec. split_and!; [done..|]. by rewrite Z.abs_neq by lia.
    + destruct (Z.eq_dec v 0) as [->|].
      * assert (s = [48]) as ->; [|done].
        apply (decimal_unique 0); [done|]. split_and!; [|done..]. repeat constructor; lia.
      * destruct (decimal_inv _ _ Hs) as (c & p & -> & Hc & Hd & Hw); [lia|]. cbn [nth].
        rewrite (proj2 (Z.eqb_neq c 48)), andb_false_r, (proj2 (Z.eqb_neq c 45)) by lia.
        apply string2ll_tail_spec. split_and!; [lia|done|]. by rewrite Z.abs_eq by lia.
Qed.

(** ** Round trips *)

(** [ll2string] and [string2ll] are inverse: with a buffer of at least
    LONG_STR_SIZE bytes every 64 bit integer is printed, NUL terminated, inside the
    buffer, the returned length is the number of characters, everything else in
    memory is kept, and parsing the characters gives the integer back. *)
Theorem ll2string_string2ll m p dstlen v :
  0 <= p -> in_s 64 v -> LONG_STR_SIZE <= dstlen -> p + dstlen <= Z.of_nat (length m) ->
  exists s m',
    ll2string m p dstlen v = Some (m', Z.of_nat (length s)) /\
    wr m p (s ++ [0]) = Some m' /\ rd m' p (length s + 1) = Some (s ++ [0]) /\
    string2ll s = Some v.
Proof.
  intros Hp Hv Hd Hm. destruct (ll2string_spec m p dstlen v) as (m' & n & E & Hs); [lia || done..|].
  rewrite decide_True in Hs.
  - destruct Hs as (s & W & Hs & -> & _). exists s, m'. split_and!; [done|done| |].
    + pose proof (rd_wr_same _ _ _ _ W) as R. by rewrite length_app in R.
    + by apply string2ll_spec.
  - unfold sdigits10. destruct (Z.ltb_spec v 0).
    + destruct (magnitude v Hv ltac:(done)) as [-> Hmag].
      pose proof (digits10_spec _ Hmag) as (_ & _ & Hk).
      destruct Hk as [->|Hk]; [lia|]. destruct (Z.le_gt_cases 20 (digits10 (- v))); [|lia].
      pose proof (Z.pow_le_mono_r 10 19 (digits10 (- v) - 1) ltac:(lia) ltac:(lia)).
      change (10 ^ 19) with 10000000000000000000 in *. cint.
    + pose proof (digits10_range v ltac:(cint)). lia.
Qed.

Lemma ll2string_string2ll_witness :
  exists s m',
    ll2string (replicate 30 7) 3 22 (-120) = Some (m', Z.of_nat (length s)) /\
    wr (replicate 30 7) 3 (s ++ [0]) = Some m' /\ rd m' 3 (length s + 1) = Some (s ++ [0]) /\
    string2ll s = Some (-120).
Proof. apply (ll2string_string2ll (replicate 30 7) 3 22 (-120)); by_compute. Defined.

(** [string2ll] accepts a string exactly when it is the canonical notation of
    a 64 bit signed integer, and returns that integer; so an accepted string is
    recovered without loss from its integer, as the shared integer objects and
    the integer encodings of the containers require. *)
Theorem string2ll_strict s :
  (forall v, string2ll s = Some v <-> in_s 64 v /\ signed_decimal v s) /\
  (forall s' v, string2ll s = Some v -> string2ll s' = Some v -> s' = s).
Proof.
  split; [intros; apply string2ll_spec|].
  intros s' v [_ H]%string2ll_spec [_ H']%string2ll_spec. by apply (signed_decimal_unique v).
Qed.

(** ** The lenient parsers *)

Lemma span_digits_app d u :
  Forall is_digit d -> (forall c, head u = Some c -> ~ is_digit c) -> span_digits (d ++ u) = (d, u).
Proof.
  intros Hd Hu. induction Hd as [|c d Hc Hd IH]; cbn [app span_digits].
  - destruct u as [|c u]; [done|]. cbn [span_digits]. unfold isdigit.
    destruct ((48 <=? c) && (c <=? 57)) eqn:E; [|done]. exfalso.
    apply (Hu c); [done|]. unfold is_digit. lia.
  - rewrite IH. unfold isdigit, is_digit in *.
    rewrite (proj2 (andb_true_iff _ _)) by (split; apply Z.leb_le; lia). done.
Qed.

Lemma strtoull_digits b d :
  Forall is_digit d -> d <> [] ->
  strtoull b d = if ULLONG_MAX <? dec_value d then (ULLONG_MAX, [], ERANGE) else (dec_value d, [], NoError).
Proof.
  intros Hd Hne. unfold strtoull. destruct d as [|c d]; [done|].
  assert (Hc : is_digit c) by (by inversion Hd). unfold is_digit in Hc.
  cbn [drop_spaces]. assert (isspace c = false) as -> by (unfold isspace; lia).
  rewrite (proj2 (Z.eqb_neq c 45)), (proj2 (Z.eqb_neq c 43)) by lia.
  pose proof (span_digits_app (c :: d) [] Hd) as Hs. rewrite app_nil_r in Hs.
  rewrite Hs by done. by destruct (Z.ltb_spec ULLONG_MAX (dec_value (c :: d))).
Qed.

(** [memtoull] on digits followed by a unit is the number times the unit,
    the number being clamped to 2^64-1 first and the product reduced modulo 2^64;
    no error is reported in either case. *)
Theorem memtoull_spec b d u mul :
  Forall is_digit d -> d <> [] -> (length d < 128)%nat ->
  (forall c, head u = Some c -> ~ is_digit c) -> memtoull_unit u = Some mul ->
  memtoull b (d ++ u) = Some (u64 (Z.min (dec_value d) ULLONG_MAX * mul)).
Proof.
  intros Hd Hne Hl Hu Hm. unfold memtoull.
  assert (bool_decide (head (d ++ u) = Some 45) = false) as ->.
  { apply bool_decide_eq_false. destruct d as [|c d]; [done|]. inversion Hd; subst.
    simpl. intros [= ->]. unfold is_digit in *. lia. }
  rewrite span_digits_app, Hm by done. cbn [mbind option_bind].
  rewrite (proj2 (Nat.leb_gt 128 (length d))) by lia.
  rewrite strtoull_digits by done. destruct (Z.ltb_spec ULLONG_MAX (dec_value d)).
  - rewrite Z.min_r by lia. done.
  - rewrite Z.min_l by lia. simpl. rewrite andb_false_r. done.
Qed.

Lemma memtoull_spec_witness :
  memtoull false (str "17179869184gb") = Some (u64 (Z.min 17179869184 ULLONG_MAX * 1073741824)).
Proof.
  apply (memtoull_spec false (str "17179869184") (str "gb") 1073741824).
  - vm_compute. repeat constructor; congruence.
  - done.
  - vm_compute. lia.
  - intros c. vm_compute. intros [= <-] [? ?]. congruence.
  - reflexivity.
Defined.

(** [string2ull] accepts negative numbers that [string2ll] does not parse:
    a leading space or a magnitude above 2^63 sends them to [strtoull], which
    negates modulo 2^64. *)
Theorem string2ull_accepts_negative b :
  string2ull b (str " -1") = Some ULLONG_MAX /\
  string2ull b (str "-9223372036854775809") = Some 9223372036854775807 /\
  string2ull b (str "-1") = None.
Proof. destruct b; vm_compute; auto. Qed.

(** [string2ull] agrees with the decimal notation on its whole range. *)
Theorem string2ull_decimal b v s :
  decimal v s -> string2ull b s = if decide (v <= ULLONG_MAX) then Some v else None.
Proof.
  intros Hs. pose proof (decimal_pos _ _ Hs). unfold string2ull.
  destruct (string2ll s) as [ll|] eqn:E.
  - apply string2ll_spec in E as [Hll Hsd]. unfold signed_decimal in Hsd. case_decide.
    + destruct Hsd as (s' & -> & _). destruct Hs as (Hd & _). inversion Hd; subst.
      unfold is_digit in *. lia.
    + assert (ll = v) as ->.
      { destruct Hs as (_ & _ & _ & <-), Hsd as (_ & _ & _ & <-). done. }
      rewrite (proj2 (Z.ltb_ge v 0)) by lia. rewrite decide_True by cint.
      by rewrite wrapu_small by cint.
  - pose proof Hs as (Hd & Hne & _ & Hv). rewrite strtoull_digits by done. rewrite Hv.
    destruct (Z.ltb_spec ULLONG_MAX v); [by rewrite decide_False by lia|].
    rewrite decide_True by lia. rewrite (bool_decide_eq_false_2 (s = [])) by done. done.
Qed.

Lemma string2ull_decimal_witness :
  string2ull true (str "18446744073709551615") =
  (if decide (18446744073709551615 <= ULLONG_MAX) then Some 18446744073709551615 else None).
Proof.
  apply string2ull_decimal. split_and!; [|done|done|done].
  vm_compute. repeat constructor; congruence.
Defined.
