(* ===== verification/Glob.v ===== *)
(** Glob style matching: [stringmatchlen] of [util.c].

    The pattern is the list of its [patternLen] bytes and is followed in memory by
    a NUL, as every sds string is; [pattern[0]] at the end of the list is that NUL.
    [skip] is the flag [*skipLongerMatches], which the function returns updated. *)

From S2P Require Import Prelude Util.

Local Open Scope Z_scope.

Abbreviation STAR := 42.
Abbreviation QMARK := 63.
Abbreviation LBRACKET := 91.
Abbreviation RBRACKET := 93.
Abbreviation BACKSLASH := 92.
Abbreviation CARET := 94.
Abbreviation DASH := 45.

(** Comparison of a pattern character with a string character. *)
Definition char_eq (nocase : bool) (p c : Z) : bool :=
  if nocase then tolower p =? tolower c else p =? c.

(** A range [a-b]; plain [char] is signed. *)
Definition range_match (nocase : bool) (a b c : Z) : bool :=
  let start := i8 a in
  let end_ := i8 b in
  let c := i8 c in
  let '(start, end_) := if end_ <? start then (end_, start) else (start, end_) in
  let '(start, end_, c) :=
    if nocase then (tolower start, tolower end_, tolower c) else (start, end_, c) in
  (start <=? c) && (c <=? end_).

(** The [while(1)] loop of a character class, with the final [pattern++]: the flag
    [match] and the pattern after the class.  At the end of the pattern the code
    steps back and then forward again. *)
Fixpoint class_loop (nocase : bool) (c : Z) (pat : bytes) (m : bool) : bool * bytes :=
  match pat with
  | [] => (m, [])
  | x :: p1 =>
      if x =? BACKSLASH then
        match p1 with
        | y :: p2 => class_loop nocase c p2 (m || (y =? c))
        | [] => class_loop nocase c p1 (m || char_eq nocase x c)
        end
      else if x =? RBRACKET then (m, p1)
      else
        match p1 with
        | d :: e :: p3 =>
            if d =? DASH then class_loop nocase c p3 (m || range_match nocase x e c)
            else class_loop nocase c p1 (m || char_eq nocase x c)
        | _ => class_loop nocase c p1 (m || char_eq nocase x c)
        end
  end.

(** [while (patternLen && pattern[1] == '*')] *)
Fixpoint collapse (pat : bytes) : bytes :=
  match pat with
  | _ :: ((y :: _) as t) => if y =? STAR then collapse t else pat
  | _ => pat
  end.

(** [while( *pattern == '*' )] *)
Fixpoint skip_stars (pat : bytes) : bytes :=
  match pat with
  | x :: t => if x =? STAR then skip_stars t else pat
  | [] => []
  end.

(** [while(stringLen)] of the star case; [rec] matches the rest of the pattern. *)
Fixpoint star_loop (rec : bytes -> bool -> bool * bool) (s : bytes) (skip : bool) : bool * bool :=
  match s with
  | [] => (false, true)
  | _ :: s' =>
      let '(r, skip) := rec s skip in
      if r then (true, skip)
      else if skip then (false, skip)
      else star_loop rec s' skip
  end.

(** Every turn of the loop and every recursive call shortens the pattern: fuel
    above its length is enough. *)
Fixpoint stringmatchlen_impl (fuel : nat) (nocase : bool) (pat s : bytes) (skip : bool)
    : bool * bool :=
  match fuel with
  | O => (false, skip)
  | S fuel' =>
      (* the end of the switch: [pat] is the pattern after [pattern++] *)
      let next pat s :=
        match s with
        | [] => (bool_decide (skip_stars pat = []), skip)
        | _ :: _ => stringmatchlen_impl fuel' nocase pat s skip
        end in
      match pat, s with
      | x :: p1, c :: s1 =>
          if x =? STAR then
            let pat := collapse pat in
            if (length pat =? 1)%nat then (true, skip)
            else star_loop (stringmatchlen_impl fuel' nocase (tail pat)) s skip
          else if x =? QMARK then next p1 s1
          else if x =? LBRACKET then
            let not := match p1 with y :: _ => y =? CARET | [] => false end in
            let p1 := if not then tail p1 else p1 in
            let '(m, p2) := class_loop nocase c p1 false in
            let m := if not then negb m else m in
            if m then next p2 s1 else (false, skip)
          else
            let pat :=
              if x =? BACKSLASH then
                if (2 <=? length pat)%nat then p1 else pat
              else pat in
            match pat with
            | y :: p2 => if char_eq nocase y c then next p2 s1 else (false, skip)
            | [] => (false, skip)
            end
      | _, _ => (bool_decide (pat = []) && bool_decide (s = []), skip)
      end
  end.

Definition stringmatchlen (pattern string : bytes) (nocase : bool) : bool :=
  fst (stringmatchlen_impl (S (length pattern)) nocase pattern string false).

(** [stringmatch] takes NUL terminated strings. *)
Definition stringmatch (pattern string : bytes) (nocase : bool) : bool :=
  stringmatchlen pattern string nocase.

Example match1 : stringmatchlen (str "h*l[a-lo]o?") (str "hello!") false = true.
Proof. reflexivity. Qed.
Example match2 : stringmatchlen (str "h*L[^A-M]o") (str "heLlo") true = false.
Proof. reflexivity. Qed.
Example match3 : stringmatchlen (str "a*a*a*b") (str "aaaaaaaaaaaaaaaaaaaaaa") false = false.
Proof. reflexivity. Qed.

(** ** What a pattern means *)

(** The members of a character class. *)
Inductive item := ILit (c : Z) | IChar (c : Z) | IRange (a b : Z).

Fixpoint class_items (pat : bytes) : list item * bytes :=
  match pat with
  | [] => ([], [])
  | x :: p1 =>
      if x =? RBRACKET then ([], p1) else
      match p1 with
      | y :: p2 =>
          if x =? BACKSLASH then let '(l, r) := class_items p2 in (ILit y :: l, r)
          else match p2 with
               | e :: p3 =>
                   if y =? DASH then let '(l, r) := class_items p3 in (IRange x e :: l, r)
                   else let '(l, r) := class_items p1 in (IChar x :: l, r)
               | [] => let '(l, r) := class_items p1 in (IChar x :: l, r)
               end
      | [] => let '(l, r) := class_items p1 in (IChar x :: l, r)
      end
  end.

Definition item_has (nocase : bool) (c : Z) (i : item) : bool :=
  match i with
  | ILit y => y =? c
  | IChar x => char_eq nocase x c
  | IRange a b => range_match nocase a b c
  end.

(** The element at the head of a pattern that stands for one character, and the
    rest of the pattern: [None] for the empty pattern and for a star. *)
Definition unit_ (nocase : bool) (pat : bytes) : option ((Z -> bool) * bytes) :=
  match pat with
  | [] => None
  | x :: p1 =>
      if x =? STAR then None
      else if x =? QMARK then Some (λ _, true, p1)
      else if x =? LBRACKET then
        match p1 with
        | y :: p2 =>
            if y =? CARET
            then Some (λ c, negb (existsb (item_has nocase c) (fst (class_items p2))), snd (class_items p2))
            else Some (λ c, existsb (item_has nocase c) (fst (class_items p1)), snd (class_items p1))
        | [] => Some (λ _, false, [])
        end
      else if x =? BACKSLASH then
        match p1 with
        | y :: p2 => Some (λ c, char_eq nocase y c, p2)
        | [] => Some (λ c, char_eq nocase x c, p1)
        end
      else Some (λ c, char_eq nocase x c, p1)
  end.

(** [glob nocase pat s]: the pattern matches the string; a star stands for any
    number of characters. *)
Inductive glob (nocase : bool) : bytes -> bytes -> Prop :=
  | glob_nil : glob nocase [] []
  | glob_star_skip p s : glob nocase p s -> glob nocase (STAR :: p) s
  | glob_star_eat p c s : glob nocase (STAR :: p) s -> glob nocase (STAR :: p) (c :: s)
  | glob_one p g p' c s :
      unit_ nocase p = Some (g, p') -> g c = true -> glob nocase p' s -> glob nocase p (c :: s).

Lemma class_loop_items nocase c n : forall pat m, (length pat <= n)%nat ->
  class_loop nocase c pat m =
  (m || existsb (item_has nocase c) (fst (class_items pat)), snd (class_items pat)).
Proof.
  induction n as [|n IH]; intros pat m Hn.
  { destruct pat; [|simpl in Hn; lia]. simpl. by rewrite orb_false_r. }
  destruct pat as [|x p1]; [simpl; by rewrite orb_false_r|]. simpl in Hn.
  assert (Hstep : forall g p, (length p <= n)%nat ->
    class_loop nocase c p (m || g) =
    (m || (g || existsb (item_has nocase c) (fst (class_items p))), snd (class_items p))).
  { intros. rewrite IH by done. by rewrite orb_assoc. }
  cbn [class_loop class_items]. destruct (Z.eqb_spec x BACKSLASH) as [->|].
  - change (BACKSLASH =? RBRACKET) with false. cbn iota. destruct p1 as [|y p2].
    + rewrite Hstep by (simpl; lia). by destruct (class_items []).
    + simpl in Hn. rewrite Hstep by lia. by destruct (class_items p2).
  - destruct (x =? RBRACKET); [simpl; by rewrite orb_false_r|].
    destruct p1 as [|y [|e p3]].
    + rewrite Hstep by (simpl; lia). by destruct (class_items []).
    + rewrite Hstep by lia. by destruct (class_items [y]).
    + simpl in Hn. destruct (y =? DASH).
      * rewrite Hstep by lia. by destruct (class_items p3).
      * rewrite Hstep by (simpl; lia). by destruct (class_items (y :: e :: p3)).
Qed.

Lemma class_items_length n : forall pat, (length pat <= n)%nat ->
  (length (snd (class_items pat)) <= length pat)%nat.
Proof.
  induction n as [|n IH]; intros pat Hn; [by destruct pat; [|simpl in Hn; lia]|].
  destruct pat as [|x p1]; [done|]. simpl in Hn. cbn [class_items].
  destruct (x =? RBRACKET); [simpl; lia|]. destruct p1 as [|y p2]; [simpl; lia|].
  simpl in Hn. pose proof (IH (y :: p2) ltac:(simpl; lia)) as H1.
  destruct (x =? BACKSLASH).
  { pose proof (IH p2 ltac:(lia)). destruct (class_items p2). simpl in *. lia. }
  destruct p2 as [|e p3].
  { destruct (class_items [y]). simpl in *. lia. }
  simpl in Hn. pose proof (IH p3 ltac:(lia)).
  destruct (y =? DASH); [destruct (class_items p3)|destruct (class_items (y :: e :: p3))];
    simpl in *; lia.
Qed.

Lemma unit_length nocase pat g p : unit_ nocase pat = Some (g, p) -> (length p < length pat)%nat.
Proof.
  unfold unit_. destruct pat as [|x p1]; [done|].
  pose proof (class_items_length _ p1 (le_n _)) as H1.
  repeat case_match; intros [= <- <-]; simpl in *; try lia.
  pose proof (class_items_length _ l (le_n _)). lia.
Qed.

(** ** The code follows the meaning *)

Lemma collapse_star p : collapse (STAR :: p) = STAR :: skip_stars p.
Proof.
  induction p as [|y p IH]; [done|]. cbn [collapse skip_stars].
  destruct (Z.eqb_spec y STAR) as [->|]; [exact IH|done].
Qed.

Lemma skip_stars_head p : head (skip_stars p) <> Some STAR.
Proof.
  induction p as [|y p IH]; [done|]. simpl. destruct (Z.eqb_spec y STAR); [done|].
  simpl. congruence.
Qed.

Lemma unit_star nocase p : unit_ nocase (STAR :: p) = None.
Proof. reflexivity. Qed.

Lemma unit_Some nocase x p : x <> STAR -> exists g p', unit_ nocase (x :: p) = Some (g, p').
Proof.
  intros Hx. unfold unit_. rewrite (proj2 (Z.eqb_neq x STAR)) by done.
  repeat case_match; eauto.
Qed.

(** A star matches exactly when the rest matches some suffix. *)
Lemma glob_star nocase p s :
  glob nocase (STAR :: p) s <-> exists s', s' `suffix_of` s /\ glob nocase p s'.
Proof.
  split.
  - remember (STAR :: p) as q eqn:Hq. induction 1; simplify_eq.
    + eauto.
    + destruct IHglob as (s' & Hs & ?); [done|]. exists s'. split; [by apply suffix_cons_r|done].
  - intros (s' & [k ->] & Hg). induction k as [|c k IH]; simpl.
    + by apply glob_star_skip.
    + by apply glob_star_eat.
Qed.

Lemma glob_skip_stars nocase p s : glob nocase (STAR :: p) s <-> glob nocase (STAR :: skip_stars p) s.
Proof.
  induction p as [|y p IH]; [done|]. simpl. destruct (Z.eqb_spec y STAR) as [->|]; [|done].
  rewrite <- IH, !glob_star. setoid_rewrite glob_star. split.
  - intros (s1 & H1 & s2 & H2 & ?). exists s2. split; [by etrans|done].
  - intros (s1 & H1 & ?). eauto.
Qed.

Lemma glob_empty nocase p : glob nocase p [] <-> skip_stars p = [].
Proof.
  split.
  - remember [] as s eqn:Hs. induction 1; simplify_eq; auto.
  - induction p as [|y p IH]; simpl; [constructor|]. destruct (Z.eqb_spec y STAR) as [->|]; [|done].
    intros. apply glob_star_skip. auto.
Qed.

Lemma glob_unit nocase p g p' c s :
  unit_ nocase p = Some (g, p') -> glob nocase p (c :: s) <-> g c = true /\ glob nocase p' s.
Proof.
  intros Hu. split; [|intros []; by eapply glob_one]. inversion 1; subst; simplify_eq; auto.
Qed.

(** One turn of the loop on a single character element. *)
Lemma impl_unit fuel nocase p g p' c s :
  unit_ nocase p = Some (g, p') ->
  stringmatchlen_impl (S fuel) nocase p (c :: s) false =
  if g c then
    match s with
    | [] => (bool_decide (skip_stars p' = []), false)
    | _ :: _ => stringmatchlen_impl fuel nocase p' s false
    end
  else (false, false).
Proof.
  unfold unit_. destruct p as [|x p1]; [done|]. cbn [stringmatchlen_impl].
  destruct (x =? STAR); [done|]. destruct (x =? QMARK); [by intros [= <- <-]|].
  destruct (x =? LBRACKET).
  - destruct p1 as [|y p2]; [by intros [= <- <-]|].
    destruct (y =? CARET); intros [= <- <-];
      by rewrite (class_loop_items _ _ _ _ _ (le_n _)).
  - destruct (x =? BACKSLASH); [|by intros [= <- <-]].
    destruct p1; by intros [= <- <-].
Qed.

(** What a call with a clear flag returns: whether the pattern matches, and the
    flag only if the pattern matches no suffix of the string at all. *)
Definition impl_ok (nocase : bool) (p s : bytes) (r : bool * bool) : Prop :=
  (fst r = true <-> glob nocase p s) /\
  (snd r = true -> forall s', s' `suffix_of` s -> ~ glob nocase p s').

Lemma star_loop_ok nocase q rec s :
  (forall s, s <> [] -> impl_ok nocase q s (rec s false)) -> ~ glob nocase q [] ->
  impl_ok nocase (STAR :: q) s (star_loop rec s false).
Proof.
  intros Hrec Hnil. unfold impl_ok. setoid_rewrite glob_star.
  induction s as [|c s IH]; cbn [star_loop].
  - assert (Hno : forall s', s' `suffix_of` [] -> ~ glob nocase q s').
    { intros s' ->%suffix_nil_inv. done. }
    split; [|intros _ s1 H1 (s2 & H2 & ?); eapply Hno; [by etrans|done]].
    split; [done|]. intros (s' & Hs & ?). by destruct (Hno s').
  - destruct (Hrec (c :: s)) as [Hr Hs]; [done|]. destruct (rec (c :: s) false) as [r sk].
    simpl in Hr, Hs. destruct r; simpl.
    { split; [|intros Hsk; exfalso; by eapply (Hs Hsk (c :: s)), Hr].
      split; [|done]. intros _. exists (c :: s). split; [done|by apply Hr]. }
    destruct sk; simpl.
    { specialize (Hs eq_refl).
      split; [|intros _ s1 H1 (s2 & H2 & ?); eapply Hs; [by etrans|done]].
      split; [done|]. intros (s' & Hs' & ?). by destruct (Hs s'). }
    assert (Hne : ~ glob nocase q (c :: s)) by (intros H; apply Hr in H; done).
    assert (Hsuf : forall s', s' `suffix_of` c :: s -> glob nocase q s' -> s' `suffix_of` s).
    { intros [|c' s'] Hs' Hg'; [apply suffix_nil|].
      apply suffix_cons_inv in Hs' as [[= -> ->]|?]; done. }
    destruct IH as [IH1 IH2]. split.
    + rewrite IH1. split; intros (s' & ? & ?); exists s'; split; auto. by apply suffix_cons_r.
    + intros Hsk s1 H1 (s2 & H2 & Hg). apply (IH2 Hsk s2).
      * apply Hsuf; [by etrans|done].
      * eauto.
Qed.

Lemma stringmatchlen_impl_ok fuel : forall nocase p s,
  (length p < fuel)%nat -> s <> [] ->
  impl_ok nocase p s (stringmatchlen_impl fuel nocase p s false).
Proof.
  induction fuel as [|fuel IH]; intros nocase p s Hf Hs; [lia|].
  destruct s as [|c s]; [done|]. destruct p as [|x p].
  { cbn. split; [|done]. split; [done|]. inversion 1; simplify_eq. }
  destruct (Z.eq_dec x STAR) as [->|Hx].
  - cbn [stringmatchlen_impl]. cbn [Z.eqb Pos.eqb]. rewrite collapse_star. cbn [tail].
    assert (Heq : forall r, impl_ok nocase (STAR :: skip_stars p) (c :: s) r ->
                            impl_ok nocase (STAR :: p) (c :: s) r).
    { intros r. unfold impl_ok. by setoid_rewrite (glob_skip_stars nocase p). }
    apply Heq. pose proof (skip_stars_head p) as Hh.
    assert (Hl : (length (skip_stars p) <= length p)%nat).
    { clear. induction p as [|y p IH]; simpl; [lia|]. case_match; simpl; lia. }
    destruct (skip_stars p) as [|y q] eqn:Hq.
    + simpl. split; [|done]. split; [|done]. intros _. apply glob_star. exists [].
      split; [apply suffix_nil|constructor].
    + cbn [length Nat.eqb]. apply star_loop_ok.
      * intros. apply IH; [|done]. simpl in *. lia.
      * rewrite glob_empty. simpl. destruct (Z.eqb_spec y STAR); [|done]. subst. done.
  - destruct (unit_Some nocase x p Hx) as (g & p' & Hu).
    pose proof (unit_length _ _ _ _ Hu). rewrite (impl_unit _ _ _ _ _ _ _ Hu).
    destruct (g c) eqn:Hg.
    2:{ split; [|done]. split; [done|]. by intros [? _]%(glob_unit _ _ _ _ _ _ Hu); congruence. }
    destruct s as [|c2 s].
    { split; [|done]. simpl. rewrite bool_decide_eq_true, (glob_unit _ _ _ _ _ _ Hu), glob_empty.
      tauto. }
    destruct (IH nocase p' (c2 :: s)) as [IH1 IH2]; [simpl in *; lia|done|]. split.
    + rewrite IH1, (glob_unit _ _ _ _ _ _ Hu). tauto.
    + intros Hsk s' Hs' Hgl. destruct s' as [|c' s'].
      * rewrite glob_empty in Hgl. simpl in Hgl. by rewrite (proj2 (Z.eqb_neq x STAR)) in Hgl.
      * apply (glob_unit _ _ _ _ _ _ Hu) in Hgl as [_ Hgl]. apply (IH2 Hsk s'); [|done].
        destruct Hs' as [[|z k] Hk]; injection Hk; intros; subst.
        -- exists []. done.
        -- exists (k ++ [c']). by rewrite <- app_assoc.
Qed.

(** C34: [stringmatchlen] decides glob matching on every non empty string, for
    every pattern including malformed ones, with the early exit through
    skipLongerMatches; on the empty string it accepts only the empty pattern. *)
Theorem stringmatchlen_spec pat s nocase :
  stringmatchlen pat s nocase = true <->
  (s = [] /\ pat = []) \/ (s <> [] /\ glob nocase pat s).
Proof.
  unfold stringmatchlen. destruct s as [|c s].
  - destruct pat; simpl; naive_solver.
  - destruct (stringmatchlen_impl_ok (S (length pat)) nocase pat (c :: s)) as [H _]; [lia|done|].
    rewrite H. naive_solver.
Qed.

(** A star matches the empty remainder of a string that was not empty to begin
    with, but no pattern made of stars matches the empty string. *)
Theorem stars_reject_empty nocase p :
  stringmatchlen (STAR :: p) [] nocase = false /\ glob nocase [STAR] [] /\
  forall c, c <> STAR -> c <> QMARK -> c <> LBRACKET -> c <> BACKSLASH ->
    stringmatchlen [c; STAR] [c] nocase = true.
Proof.
  split_and!; [done|apply glob_empty; done|]. intros c H1 H2 H3 H4.
  unfold stringmatchlen. cbn [length]. cbn [stringmatchlen_impl].
  rewrite (proj2 (Z.eqb_neq c STAR)), (proj2 (Z.eqb_neq c QMARK)),
    (proj2 (Z.eqb_neq c LBRACKET)), (proj2 (Z.eqb_neq c BACKSLASH)) by done.
  unfold char_eq. rewrite !Z.eqb_refl. by destruct nocase.
Qed.
