(* ===== verification/State.v ===== *)
(** The state and error monad of the components that live in a heap, and its total
    correctness rules.  A program is a function from a state to a result and a
    new state; [None] is a failed assertion or an invalid memory access. *)

From S2P Require Import Prelude.

Definition ST (S A : Type) : Type := S -> option (A * S).

#[export] Instance ST_ret S : MRet (ST S) := λ A a s, Some (a, s).
#[export] Instance ST_bind S : MBind (ST S) := λ A B f m s, '(a, s') ← m s; f a s'.

Definition fail {S A} : ST S A := λ _, None.
Definition get {S} : ST S S := λ s, Some (s, s).
Definition put {S} (s : S) : ST S unit := λ _, Some (tt, s).

(** [wp m s Q]: run from [s], [m] succeeds and its result and final state satisfy
    [Q]. *)
Definition wp {S A} (m : ST S A) (s : S) (Q : A -> S -> Prop) : Prop :=
  exists a s', m s = Some (a, s') /\ Q a s'.

Section wp.
Context {S : Type}.
Implicit Types s : S.

Lemma wp_bind {A B} (m : ST S A) (f : A -> ST S B) s Q :
  wp m s (λ a s', wp (f a) s' Q) -> wp (m ≫= f) s Q.
Proof.
  intros (a & s' & E & b & s'' & E' & HQ). exists b, s''. split; [|done].
  unfold mbind, ST_bind. by rewrite E.
Qed.

Lemma wp_mono {A} (m : ST S A) s (Q Q' : A -> S -> Prop) :
  wp m s Q -> (forall a s', Q a s' -> Q' a s') -> wp m s Q'.
Proof. intros (a & s' & E & HQ) H. exists a, s'. auto. Qed.

Lemma wp_ret {A} (a : A) s (Q : A -> S -> Prop) : Q a s -> wp (mret a) s Q.
Proof. intros. by exists a, s. Qed.
Lemma wp_get s (Q : S -> S -> Prop) : Q s s -> wp get s Q.
Proof. intros. by exists s, s. Qed.
Lemma wp_put s s' (Q : unit -> S -> Prop) : Q tt s' -> wp (put s') s Q.
Proof. intros. by exists tt, s'. Qed.
End wp.
