(* ===== verification/Dict.v ===== *)
(** The hash table of [dict.c] and [dict.h].

    Entries live in a heap indexed by their addresses; a bucket is the list of the
    addresses of its chain in the order of the [next] pointers.  The operations run
    in a state and error monad over the dictionary, the heap, the record of what the
    key and value destructors were called on, and the global [dict_can_resize].
    The error is a failed assertion or an access through a NULL or dangling
    pointer or outside a table. *)

From stdpp Require Export gmap.
From S2P Require Import Prelude State.

Local Open Scope Z_scope.

Inductive dictResizeEnable := DICT_RESIZE_ENABLE | DICT_RESIZE_AVOID | DICT_RESIZE_FORBID.
#[export] Instance dictResizeEnable_eq_dec : EqDecision dictResizeEnable.
Proof. solve_decision. Defined.

Abbreviation loc := positive.

Definition DICT_OK : Z := 0.
Definition DICT_ERR : Z := 1.
Definition DICT_HT_INITIAL_EXP : Z := 2.
Definition DICT_HT_INITIAL_SIZE : Z := Z.shiftl 1 DICT_HT_INITIAL_EXP.
Definition dict_force_resize_ratio : Z := 5.
Abbreviation LONG_MAX := 9223372036854775807.
Abbreviation sizeof_ptr := 8.

Definition DICTHT_SIZE (exp : Z) : Z := if exp =? -1 then 0 else Z.shiftl 1 exp.
Definition DICTHT_SIZE_MASK (exp : Z) : Z := if exp =? -1 then 0 else DICTHT_SIZE exp - 1.

(** [dictEntry] without its [next] pointer, which the bucket holds.  The value is
    [None] until it is set: [zmalloc] does not initialise it. *)
Record dictEntry (K V : Type) := Entry { e_key : K; e_val : option V; e_metadata : bytes }.
Arguments Entry {_ _}.
Arguments e_key {_ _}.
Arguments e_val {_ _}.
Arguments e_metadata {_ _}.

(** The functions of a dictionary type.  Of the destructors only the fact that they
    exist matters here: their calls are recorded.  The ratio given to
    [expandAllowed] is passed as numerator and denominator. *)
Record dictType (K V : Type) := DictType {
  hashFunction : K -> Z;
  keyDup : option (K -> K);
  valDup : option (V -> V);
  keyCompare : option (K -> K -> bool);
  keyDestructor : bool;
  valDestructor : bool;
  expandAllowed : option (Z -> Z * Z -> bool);
  dictEntryMetadataBytes : option nat }.
Arguments hashFunction {_ _}.
Arguments keyDup {_ _}.
Arguments valDup {_ _}.
Arguments keyCompare {_ _}.
Arguments keyDestructor {_ _}.
Arguments valDestructor {_ _}.
Arguments expandAllowed {_ _}.
Arguments dictEntryMetadataBytes {_ _}.

(** One of the two tables: [ht_table[i]], [ht_used[i]] and [ht_size_exp[i]]. *)
Record htable := HT { ht_table : option (list (list loc)); ht_used : Z; ht_size_exp : Z }.

Record dict := Dict { ht0 : htable; ht1 : htable; rehashidx : Z; pauserehash : Z }.

(** The table at index 0 ([false]) or 1 ([true]). *)
Definition ht (d : dict) (i : bool) : htable := if i then ht1 d else ht0 d.

Definition set_ht (d : dict) (i : bool) (h : htable) : dict :=
  if i then Dict (ht0 d) h (rehashidx d) (pauserehash d)
  else Dict h (ht1 d) (rehashidx d) (pauserehash d).

Definition set_rehashidx (d : dict) (r : Z) : dict := Dict (ht0 d) (ht1 d) r (pauserehash d).
Definition set_pauserehash (d : dict) (p : Z) : dict := Dict (ht0 d) (ht1 d) (rehashidx d) p.

Definition dictIsRehashing (d : dict) : bool := negb (rehashidx d =? -1).
Definition dictSize (d : dict) : Z := ht_used (ht0 d) + ht_used (ht1 d).
Definition dictSlots (d : dict) : Z :=
  DICTHT_SIZE (ht_size_exp (ht0 d)) + DICTHT_SIZE (ht_size_exp (ht1 d)).

Record world (K V : Type) := World {
  w_dict : dict;
  w_heap : gmap loc (dictEntry K V);
  w_destroyed : list (K + V);
  dict_can_resize : dictResizeEnable }.
Arguments World {_ _}.
Arguments w_dict {_ _}.
Arguments w_heap {_ _}.
Arguments w_destroyed {_ _}.
Arguments dict_can_resize {_ _}.

(** ** The monad *)

Abbreviation M K V := (ST (world K V)).

Definition getd {K V} : M K V dict := λ w, Some (w_dict w, w).
Definition putd {K V} (d : dict) : M K V unit :=
  λ w, Some (tt, World d (w_heap w) (w_destroyed w) (dict_can_resize w)).
Definition puth {K V} (h : gmap loc (dictEntry K V)) : M K V unit :=
  λ w, Some (tt, World (w_dict w) h (w_destroyed w) (dict_can_resize w)).
Definition destroy {K V} (x : K + V) : M K V unit :=
  λ w, Some (tt, World (w_dict w) (w_heap w) (w_destroyed w ++ [x]) (dict_can_resize w)).

(** [*p] and [*p = e]. *)
Definition load {K V} (p : loc) : M K V (dictEntry K V) :=
  λ w, e ← w_heap w !! p; Some (e, w).
Definition store {K V} (p : loc) (e : dictEntry K V) : M K V unit :=
  _ ← load p; w ← get; puth (<[p := e]> (w_heap w)).
Definition alloc {K V} (e : dictEntry K V) : M K V loc :=
  w ← get; let p := fresh (dom (w_heap w)) in puth (<[p := e]> (w_heap w));; mret p.
Definition zfree {K V} (p : loc) : M K V unit :=
  _ ← load p; w ← get; puth (delete p (w_heap w)).

(** [d->ht_table[i][idx]], read and written. *)
Definition get_bucket {K V} (i : bool) (idx : Z) : M K V (list loc) :=
  d ← getd;
  match ht_table (ht d i) with
  | Some t => match t !! Z.to_nat idx with
              | Some b => if 0 <=? idx then mret b else fail
              | None => fail
              end
  | None => fail
  end.

Definition set_bucket {K V} (i : bool) (idx : Z) (b : list loc) : M K V unit :=
  _ ← get_bucket i idx;
  d ← getd;
  match ht_table (ht d i) with
  | Some t => putd (set_ht d i (HT (Some (<[Z.to_nat idx := b]> t)) (ht_used (ht d i))
                                   (ht_size_exp (ht d i))))
  | None => fail
  end.

Definition add_used {K V} (i : bool) (n : Z) : M K V unit :=
  d ← getd;
  putd (set_ht d i (HT (ht_table (ht d i)) (ht_used (ht d i) + n) (ht_size_exp (ht d i)))).

Section dict.
Context {K V : Type} `{EqDecision K} (type : dictType K V).

Abbreviation M := (M K V).

Definition dictHashKey (key : K) : Z := hashFunction type key.

Definition dictCompareKeys (key1 key2 : K) : bool :=
  match keyCompare type with
  | Some cmp => cmp key1 key2
  | None => bool_decide (key1 = key2)
  end.

(** [key==he->key || dictCompareKeys(d, key, he->key)] *)
Definition key_matches (key1 key2 : K) : bool :=
  bool_decide (key1 = key2) || dictCompareKeys key1 key2.

Definition dictSetVal (he : loc) (val : V) : M unit :=
  e ← load he;
  let v := match valDup type with Some dup => dup val | None => val end in
  store he (Entry (e_key e) (Some v) (e_metadata e)).

Definition dictSetKey (he : loc) (key : K) : M unit :=
  e ← load he;
  let k := match keyDup type with Some dup => dup key | None => key end in
  store he (Entry k (e_val e) (e_metadata e)).

Definition dictFreeKey (e : dictEntry K V) : M unit :=
  if keyDestructor type then destroy (inl (e_key e)) else mret tt.

(** An unset value is passed to the destructor as it is; the record has values only. *)
Definition dictFreeVal (e : dictEntry K V) : M unit :=
  if valDestructor type then
    match e_val e with Some v => destroy (inr v) | None => mret tt end
  else mret tt.

Definition dictMetadataSize : nat :=
  match dictEntryMetadataBytes type with Some n => n | None => 0%nat end.

Definition dictPauseRehashing : M unit :=
  d ← getd; putd (set_pauserehash d (i16 (pauserehash d + 1))).
Definition dictResumeRehashing : M unit :=
  d ← getd; putd (set_pauserehash d (i16 (pauserehash d - 1))).

(** ** Creation and sizing *)

Definition _dictReset (i : bool) : M unit :=
  d ← getd; putd (set_ht d i (HT None 0 (-1))).

Definition _dictInit : M Z :=
  _dictReset false;;
  _dictReset true;;
  d ← getd;
  putd (set_pauserehash (set_rehashidx d (-1)) 0);;
  mret DICT_OK.

Fixpoint _dictNextExp_loop (fuel : nat) (e size : Z) : Z :=
  match fuel with
  | O => e
  | S fuel' => if size <=? Z.shiftl 1 e then e else _dictNextExp_loop fuel' (u8 (e + 1)) size
  end.

(** Sizes below LONG_MAX are at most 2^63: the loop stops at 63 or before. *)
Definition _dictNextExp (size : Z) : Z :=
  if LONG_MAX <=? size then 8 * 8 - 1
  else _dictNextExp_loop 62 DICT_HT_INITIAL_EXP size.

(** [malloc_failed] is [None] for a NULL argument, and otherwise tells whether
    [ztrycalloc] succeeds.  The result pairs the return value with the
    final [*malloc_failed]. *)
Definition _dictExpand (size : Z) (malloc_failed : option bool) : M (Z * bool) :=
  d ← getd;
  if dictIsRehashing d || (size <? ht_used (ht0 d)) then mret (DICT_ERR, false)
  else
    let new_ht_size_exp := _dictNextExp size in
    let newsize := u64 (Z.shiftl 1 new_ht_size_exp) in
    if (newsize <? size) || (u64 (newsize * sizeof_ptr) <? newsize) then mret (DICT_ERR, false)
    else if new_ht_size_exp =? ht_size_exp (ht0 d) then mret (DICT_ERR, false)
    else if match malloc_failed with Some ok => negb ok | None => false end
    then mret (DICT_ERR, true)
    else
      let new_ht_table := replicate (Z.to_nat newsize) ([] : list loc) in
      let new_ht_used := 0 in
      match ht_table (ht0 d) with
      | None =>
          putd (set_ht d false (HT (Some new_ht_table) new_ht_used new_ht_size_exp));;
          mret (DICT_OK, false)
      | Some _ =>
          putd (set_rehashidx
                  (set_ht d true (HT (Some new_ht_table) new_ht_used new_ht_size_exp)) 0);;
          mret (DICT_OK, false)
      end.

Definition dictExpand (size : Z) : M Z :=
  '(r, _) ← _dictExpand size None; mret r.

Definition dictTryExpand (size : Z) (alloc_ok : bool) : M Z :=
  '(_, malloc_failed) ← _dictExpand size (Some alloc_ok);
  mret (if malloc_failed : bool then DICT_ERR else DICT_OK).

Definition dictResize : M Z :=
  w ← get;
  let d := w_dict w in
  if negb (bool_decide (dict_can_resize w = DICT_RESIZE_ENABLE)) || dictIsRehashing d
  then mret DICT_ERR
  else
    let minimal := ht_used (ht0 d) in
    let minimal := if minimal <? DICT_HT_INITIAL_SIZE then DICT_HT_INITIAL_SIZE else minimal in
    dictExpand minimal.

Definition dictSetResizeEnabled (enable : dictResizeEnable) : M unit :=
  λ w, Some (tt, World (w_dict w) (w_heap w) (w_destroyed w) enable).

(** ** Incremental rehashing *)

(** [while(d->ht_table[0][d->rehashidx] == NULL)]: the empty visits left, or [None]
    when they ran out and the function returns 1. *)
Fixpoint rehash_skip_empty (fuel : nat) (empty_visits : Z) : M (option Z) :=
  match fuel with
  | O => fail
  | S fuel' =>
      d ← getd;
      b ← get_bucket false (rehashidx d);
      match b with
      | [] =>
          putd (set_rehashidx d (rehashidx d + 1));;
          if empty_visits - 1 =? 0 then mret None else rehash_skip_empty fuel' (empty_visits - 1)
      | _ :: _ => mret (Some empty_visits)
      end
  end.

(** [while(de)]: moves the entries of a chain to the second table. *)
Fixpoint rehash_chain (chain : list loc) : M unit :=
  match chain with
  | [] => mret tt
  | de :: nextde =>
      e ← load de;
      d ← getd;
      let h := Z.land (dictHashKey (e_key e)) (DICTHT_SIZE_MASK (ht_size_exp (ht1 d))) in
      b ← get_bucket true h;
      set_bucket true h (de :: b);;
      add_used false (-1);;
      add_used true 1;;
      rehash_chain nextde
  end.

(** [while(n-- && d->ht_used[0] != 0)]: [true] when the function returns 1 from
    inside the loop.  The number of buckets bounds the inner loop. *)
Fixpoint rehash_loop (n : nat) (empty_visits : Z) : M bool :=
  match n with
  | O => mret false
  | S n' =>
      d ← getd;
      if ht_used (ht0 d) =? 0 then mret false
      else if DICTHT_SIZE (ht_size_exp (ht0 d)) <=? rehashidx d then fail
      else
        left ← rehash_skip_empty (Z.to_nat (DICTHT_SIZE (ht_size_exp (ht0 d)))) empty_visits;
        match left with
        | None => mret true
        | Some empty_visits =>
            d ← getd;
            chain ← get_bucket false (rehashidx d);
            rehash_chain chain;;
            set_bucket false (rehashidx d) [];;
            d ← getd;
            putd (set_rehashidx d (rehashidx d + 1));;
            rehash_loop n' empty_visits
        end
  end.

(** [n] is positive in every call. *)
Definition dictRehash (n : nat) : M Z :=
  let empty_visits := Z.of_nat n * 10 in
  w ← get;
  let d := w_dict w in
  if bool_decide (dict_can_resize w = DICT_RESIZE_FORBID) || negb (dictIsRehashing d) then mret 0
  else if bool_decide (dict_can_resize w = DICT_RESIZE_AVOID) &&
          (DICTHT_SIZE (ht_size_exp (ht1 d)) / DICTHT_SIZE (ht_size_exp (ht0 d))
             <? dict_force_resize_ratio)
  then mret 0
  else
    returned ← rehash_loop n empty_visits;
    if returned : bool then mret 1
    else
      d ← getd;
      if ht_used (ht0 d) =? 0 then
        putd (set_ht d false (ht1 d));;
        _dictReset true;;
        d ← getd;
        putd (set_rehashidx d (-1));;
        mret 0
      else mret 1.

Definition _dictRehashStep : M unit :=
  d ← getd; if pauserehash d =? 0 then _ ← dictRehash 1; mret tt else mret tt.

(** [if (dictIsRehashing(d)) _dictRehashStep(d);] *)
Definition rehash_if_needed : M unit :=
  d ← getd; if dictIsRehashing d then _dictRehashStep else mret tt.

(** ** Adding *)

Definition dictTypeExpandAllowed : M bool :=
  d ← getd;
  match expandAllowed type with
  | None => mret true
  | Some f =>
      mret (f (DICTHT_SIZE (_dictNextExp (ht_used (ht0 d) + 1)) * sizeof_ptr)
              (ht_used (ht0 d), DICTHT_SIZE (ht_size_exp (ht0 d))))
  end.

Definition _dictExpandIfNeeded : M Z :=
  w ← get;
  let d := w_dict w in
  let used := ht_used (ht0 d) in
  let size := DICTHT_SIZE (ht_size_exp (ht0 d)) in
  if dictIsRehashing d then mret DICT_OK
  else if size =? 0 then dictExpand DICT_HT_INITIAL_SIZE
  else
    allowed ← dictTypeExpandAllowed;
    if negb allowed then mret DICT_OK
    else if (bool_decide (dict_can_resize w = DICT_RESIZE_ENABLE) && (size <=? used)) ||
            (negb (bool_decide (dict_can_resize w = DICT_RESIZE_FORBID)) &&
             (dict_force_resize_ratio <? used / size))
    then dictExpand (used + 1)
    else mret DICT_OK.

(** [while(he)] of the lookups: the position and the address of the first entry of
    the chain with the key. *)
Fixpoint chain_search (key : K) (chain : list loc) (pos : nat) : M (option (nat * loc)) :=
  match chain with
  | [] => mret None
  | he :: next =>
      e ← load he;
      if key_matches key (e_key e) then mret (Some (pos, he))
      else chain_search key next (S pos)
  end.

(** The loop over the tables that the lookups share, from table [i] on: where the
    key was found, or [None]. *)
Definition table_search (key : K) (h : Z) (i : bool) : M (option (nat * loc)) :=
  d ← getd;
  let idx := Z.land h (DICTHT_SIZE_MASK (ht_size_exp (ht d i))) in
  chain ← get_bucket i idx;
  chain_search key chain 0.

(** The index of a free slot, or -1, with [*existing]. *)
Definition _dictKeyIndex (key : K) (hash : Z) : M (Z * option loc) :=
  r ← _dictExpandIfNeeded;
  if r =? DICT_ERR then mret (-1, None)
  else
    d ← getd;
    let idx i := Z.land hash (DICTHT_SIZE_MASK (ht_size_exp (ht d i))) in
    found ← table_search key hash false;
    match found with
    | Some (_, he) => mret (-1, Some he)
    | None =>
        if negb (dictIsRehashing d) then mret (idx false, None)
        else
          found ← table_search key hash true;
          match found with
          | Some (_, he) => mret (-1, Some he)
          | None => mret (idx true, None)
          end
    end.

(** The entry, or NULL, and [*existing].  The key of the new entry is set by
    [dictSetKey]; until then it holds a placeholder. *)
Definition dictAddRaw (key : K) : M (option loc * option loc) :=
  rehash_if_needed;;
  '(index, existing) ← _dictKeyIndex key (dictHashKey key);
  if index =? -1 then mret (None, existing)
  else
    d ← getd;
    let htidx := dictIsRehashing d in
    entry ← alloc (Entry key None (replicate dictMetadataSize 0));
    chain ← get_bucket htidx index;
    set_bucket htidx index (entry :: chain);;
    add_used htidx 1;;
    dictSetKey entry key;;
    mret (Some entry, existing).

Definition dictAdd (key : K) (val : V) : M Z :=
  '(entry, _) ← dictAddRaw key;
  match entry with
  | None => mret DICT_ERR
  | Some entry => dictSetVal entry val;; mret DICT_OK
  end.

Definition dictReplace (key : K) (val : V) : M Z :=
  '(entry, existing) ← dictAddRaw key;
  match entry with
  | Some entry => dictSetVal entry val;; mret 1
  | None =>
      match existing with
      | None => fail
      | Some existing =>
          auxentry ← load existing;
          dictSetVal existing val;;
          dictFreeVal auxentry;;
          mret 0
      end
  end.

Definition dictAddOrFind (key : K) : M (option loc) :=
  '(entry, existing) ← dictAddRaw key;
  mret (match entry with Some e => Some e | None => existing end).

(** ** Deleting *)

Definition dictFreeUnlinkedEntry (he : option loc) : M unit :=
  match he with
  | None => mret tt
  | Some he => e ← load he; dictFreeKey e;; dictFreeVal e;; zfree he
  end.

(** One turn of the loop over the tables. *)
Definition delete_in (key : K) (h : Z) (nofree : bool) (i : bool) : M (option loc) :=
  d ← getd;
  let idx := Z.land h (DICTHT_SIZE_MASK (ht_size_exp (ht d i))) in
  chain ← get_bucket i idx;
  found ← chain_search key chain 0;
  match found with
  | None => mret None
  | Some (pos, he) =>
      set_bucket i idx (delete pos chain);;
      (if nofree : bool then mret tt else dictFreeUnlinkedEntry (Some he));;
      add_used i (-1);;
      mret (Some he)
  end.

Definition dictGenericDelete (key : K) (nofree : bool) : M (option loc) :=
  d ← getd;
  if dictSize d =? 0 then mret None
  else
    rehash_if_needed;;
    let h := dictHashKey key in
    r ← delete_in key h nofree false;
    match r with
    | Some he => mret (Some he)
    | None =>
        d ← getd;
        if negb (dictIsRehashing d) then mret None else delete_in key h nofree true
    end.

Definition dictDelete (key : K) : M Z :=
  r ← dictGenericDelete key false;
  mret (match r with Some _ => DICT_OK | None => DICT_ERR end).

Definition dictUnlink (key : K) : M (option loc) := dictGenericDelete key true.

Fixpoint clear_chain (i : bool) (he : list loc) : M unit :=
  match he with
  | [] => mret tt
  | he :: nextHe =>
      dictFreeUnlinkedEntry (Some he);;
      add_used i (-1);;
      clear_chain i nextHe
  end.

(** [for (i = 0; i < DICTHT_SIZE(...) && d->ht_used[htidx] > 0; i++)], [n] buckets
    being left; without a callback. *)
Fixpoint clear_loop (htidx : bool) (n : nat) (i : Z) : M unit :=
  match n with
  | O => mret tt
  | S n' =>
      d ← getd;
      if ht_used (ht d htidx) <=? 0 then mret tt
      else
        he ← get_bucket htidx i;
        clear_chain htidx he;;
        clear_loop htidx n' (i + 1)
  end.

Definition _dictClear (htidx : bool) : M Z :=
  d ← getd;
  clear_loop htidx (Z.to_nat (DICTHT_SIZE (ht_size_exp (ht d htidx)))) 0;;
  _dictReset htidx;;
  mret DICT_OK.

Definition dictEmpty : M unit :=
  _dictClear false;;
  _dictClear true;;
  d ← getd;
  putd (set_pauserehash (set_rehashidx d (-1)) 0).

(** ** Finding *)

Definition dictFind (key : K) : M (option loc) :=
  d ← getd;
  if dictSize d =? 0 then mret None
  else
    rehash_if_needed;;
    let h := dictHashKey key in
    found ← table_search key h false;
    match found with
    | Some (_, he) => mret (Some he)
    | None =>
        d ← getd;
        if negb (dictIsRehashing d) then mret None
        else
          found ← table_search key h true;
          mret (snd <$> found)
    end.

(** NULL when the key is absent; [dictGetVal] of an entry otherwise. *)
Definition dictFetchValue (key : K) : M (option V) :=
  he ← dictFind key;
  match he with
  | None => mret None
  | Some he => e ← load he; mret (e_val e)
  end.
End dict.

(** A new dictionary: [dictCreate] allocates one and runs [_dictInit]. *)
Definition dictCreate {K V} (junk : dict) (w : world K V) : option (Z * world K V) :=
  _dictInit (World junk (w_heap w) (w_destroyed w) (dict_can_resize w)).
