(* ===== verification/DictWf.v ===== *)
(** The invariant of [dict.c], the finite map a dictionary stands for, and the
    verification rules for the dictionary monad. *)

From S2P Require Import Prelude State Dict.

Local Open Scope Z_scope.

(** ** Total correctness *)

Section wp.
Context {K V : Type}.
Implicit Types w : world K V.

Lemma wp_getd w (Q : dict -> world K V -> Prop) : Q (w_dict w) w -> wp getd w Q.
Proof. intros. by exists (w_dict w), w. Qed.
Lemma wp_putd d w (Q : unit -> world K V -> Prop) :
  Q tt (World d (w_heap w) (w_destroyed w) (dict_can_resize w)) -> wp (putd d) w Q.
Proof. intros. eexists _, _. split; [done|done]. Qed.
Lemma wp_load p e w (Q : dictEntry K V -> world K V -> Prop) :
  w_heap w !! p = Some e -> Q e w -> wp (load p) w Q.
Proof. intros E HQ. exists e, w. split; [|done]. unfold load. by rewrite E. Qed.
Lemma wp_store p e e0 w (Q : unit -> world K V -> Prop) :
  w_heap w !! p = Some e0 ->
  Q tt (World (w_dict w) (<[p := e]> (w_heap w)) (w_destroyed w) (dict_can_resize w)) ->
  wp (store p e) w Q.
Proof.
  intros E HQ. unfold store, zfree. eapply wp_bind, wp_load; [exact E|].
  apply wp_bind, wp_get. by eexists _, _.
Qed.
Lemma wp_zfree p e0 w (Q : unit -> world K V -> Prop) :
  w_heap w !! p = Some e0 ->
  Q tt (World (w_dict w) (delete p (w_heap w)) (w_destroyed w) (dict_can_resize w)) ->
  wp (zfree p) w Q.
Proof.
  intros E HQ. unfold store, zfree. eapply wp_bind, wp_load; [exact E|].
  apply wp_bind, wp_get. by eexists _, _.
Qed.
Lemma wp_alloc e w (Q : loc -> world K V -> Prop) :
  (forall p, w_heap w !! p = None ->
    Q p (World (w_dict w) (<[p := e]> (w_heap w)) (w_destroyed w) (dict_can_resize w))) ->
  wp (alloc e) w Q.
Proof.
  intros HQ. apply wp_bind, wp_get. cbn zeta. apply wp_bind. eexists _, _. split; [done|].
  apply wp_ret, HQ. apply not_elem_of_dom, is_fresh.
Qed.
Lemma wp_destroy x w (Q : unit -> world K V -> Prop) :
  Q tt (World (w_dict w) (w_heap w) (w_destroyed w ++ [x]) (dict_can_resize w)) ->
  wp (destroy x) w Q.
Proof. intros. by eexists _, _. Qed.

(** The world after a change of one table, or of the dictionary. *)
Definition with_dict w d : world K V :=
  World d (w_heap w) (w_destroyed w) (dict_can_resize w).
Definition with_ht w i t : world K V := with_dict w (set_ht (w_dict w) i t).

Lemma ht_set_same d i t : ht (set_ht d i t) i = t.
Proof. by destruct i. Qed.
Lemma ht_set_other d i t : ht (set_ht d i t) (negb i) = ht d (negb i).
Proof. by destruct i. Qed.
Lemma set_ht_set_ht d i t t' : set_ht (set_ht d i t) i t' = set_ht d i t'.
Proof. by destruct i. Qed.

Lemma wp_get_bucket i idx tb b w (Q : list loc -> world K V -> Prop) :
  ht_table (ht (w_dict w) i) = Some tb -> tb !! Z.to_nat idx = Some b -> 0 <= idx ->
  Q b w -> wp (get_bucket i idx) w Q.
Proof.
  intros Ht Hb Hi HQ. apply wp_bind, wp_getd. rewrite Ht, Hb.
  rewrite (proj2 (Z.leb_le 0 idx)) by done. by apply wp_ret.
Qed.

Lemma wp_set_bucket i idx tb b b0 w (Q : unit -> world K V -> Prop) :
  ht_table (ht (w_dict w) i) = Some tb -> tb !! Z.to_nat idx = Some b0 -> 0 <= idx ->
  Q tt (with_ht w i (HT (Some (<[Z.to_nat idx := b]> tb)) (ht_used (ht (w_dict w) i))
                        (ht_size_exp (ht (w_dict w) i)))) ->
  wp (set_bucket i idx b) w Q.
Proof.
  intros Ht Hb Hi HQ. eapply wp_bind, wp_get_bucket; [done..|].
  apply wp_bind, wp_getd. rewrite Ht. by apply wp_putd.
Qed.

Lemma wp_add_used i n w (Q : unit -> world K V -> Prop) :
  Q tt (with_ht w i (HT (ht_table (ht (w_dict w) i)) (ht_used (ht (w_dict w) i) + n)
                        (ht_size_exp (ht (w_dict w) i)))) ->
  wp (add_used i n) w Q.
Proof. intros. apply wp_bind, wp_getd. by apply wp_putd. Qed.
End wp.

(** Runs through the primitive steps of a program. *)
Ltac wp_step :=
  first [ apply wp_bind | apply wp_ret | apply wp_getd | apply wp_get | apply wp_putd
        | apply wp_add_used | apply wp_destroy ].
Ltac wp_go := repeat wp_step.

(** ** Concatenations of buckets *)

Lemma concat_insert {A} (tb : list (list A)) n b b' :
  tb !! n = Some b -> concat (<[n := b']> tb) ++ b ≡ₚ concat tb ++ b'.
Proof.
  revert n. induction tb as [|x tb IH]; intros [|n] Hn; simplify_eq/=.
  - rewrite <- !app_assoc. rewrite (Permutation_app_comm (concat tb) b).
    rewrite (Permutation_app_comm (concat tb) b'). rewrite !app_assoc.
    by rewrite (Permutation_app_comm b' b).
  - rewrite <- !app_assoc. by rewrite IH.
Qed.

Lemma concat_empty {A} (tb : list (list A)) :
  (forall n b, tb !! n = Some b -> b = []) -> concat tb = [].
Proof.
  induction tb as [|x tb IH]; intros H; [done|]. simpl. rewrite (H 0%nat x) by done.
  apply IH. intros n b Hn. by apply (H (S n)).
Qed.

Lemma elem_of_concat_lookup {A} (tb : list (list A)) l :
  l ∈ concat tb <-> exists n b, tb !! n = Some b /\ l ∈ b.
Proof.
  split.
  - induction tb as [|x tb IH]; simpl; [by intros ?%not_elem_of_nil|].
    intros [H|H]%elem_of_app; [by exists 0%nat, x|]. destruct (IH H) as (n & b & ? & ?).
    by exists (S n), b.
  - intros (n & b & Hn & Hl). revert n Hn. induction tb as [|x tb IH]; intros [|n] Hn; simplify_eq/=.
    + apply elem_of_app. by left.
    + apply elem_of_app. right. eauto.
Qed.

(** ** Keys and the map *)

(** What the dictionary needs of its type: keys are compared through the value they
    denote, [canon], and the hash and the copies respect it. *)
Class DictLaws {K V C : Type} `{EqDecision K} (type : dictType K V) (canon : K -> C) := {
  compare_canon k1 k2 : dictCompareKeys type k1 k2 = true <-> canon k1 = canon k2;
  hash_canon k1 k2 : canon k1 = canon k2 -> hashFunction type k1 = hashFunction type k2;
  hash_range k : in_u 64 (hashFunction type k);
  keyDup_canon f k : keyDup type = Some f -> canon (f k) = canon k }.

Section wf.
Context {K V C : Type} `{EqDecision K} `{Countable C}.
Context (type : dictType K V) (canon : K -> C) `{!DictLaws type canon}.
Implicit Types (w : world K V) (h : gmap loc (dictEntry K V)).

Definition ht_entries (t : htable) : list loc := concat (default [] (ht_table t)).
Definition entries (d : dict) : list loc := ht_entries (ht0 d) ++ ht_entries (ht1 d).

Definition kv h (l : loc) : option (C * option V) :=
  (λ e, (canon (e_key e), e_val e)) <$> h !! l.

Definition alist w : list (C * option V) := omap (kv (w_heap w)) (entries (w_dict w)).

(** The map of the dictionary: key values to entry values. *)
Definition dmap w : gmap C (option V) := list_to_map (alist w).

(** Every entry is in the bucket of its hash. *)
Definition placed h (tb : list (list loc)) (exp : Z) : Prop :=
  forall i b l e, tb !! i = Some b -> l ∈ b -> h !! l = Some e ->
    Z.land (hashFunction type (e_key e)) (DICTHT_SIZE_MASK exp) = Z.of_nat i.

Definition ht_ok h (t : htable) : Prop :=
  match ht_table t with
  | None => ht_size_exp t = -1 /\ ht_used t = 0
  | Some tb =>
      2 <= ht_size_exp t <= 60 /\ Z.of_nat (length tb) = DICTHT_SIZE (ht_size_exp t) /\
      ht_used t = Z.of_nat (length (concat tb)) /\ placed h tb (ht_size_exp t)
  end.

Definition rehash_ok (d : dict) : Prop :=
  (rehashidx d = -1 /\ ht_table (ht1 d) = None) \/
  (exists tb0, ht_table (ht0 d) = Some tb0 /\ is_Some (ht_table (ht1 d)) /\
     0 <= rehashidx d < DICTHT_SIZE (ht_size_exp (ht0 d)) /\
     forall i b, tb0 !! i = Some b -> Z.of_nat i < rehashidx d -> b = []).

(** The well formed dictionaries. *)
Record wf w : Prop := Wf {
  wf_ht0 : ht_ok (w_heap w) (ht0 (w_dict w));
  wf_ht1 : ht_ok (w_heap w) (ht1 (w_dict w));
  wf_heap : Forall (λ l, is_Some (w_heap w !! l)) (entries (w_dict w));
  wf_keys : NoDup (alist w).*1;
  wf_rehash : rehash_ok (w_dict w) }.

Lemma key_matches_canon k1 k2 : key_matches type k1 k2 = true <-> canon k1 = canon k2.
Proof.
  unfold key_matches. rewrite orb_true_iff, bool_decide_eq_true, compare_canon.
  split; [intros [->|]; done|by right].
Qed.

Lemma DICTHT_SIZE_pow e : 0 <= e -> DICTHT_SIZE e = 2 ^ e.
Proof.
  intros. unfold DICTHT_SIZE. rewrite (proj2 (Z.eqb_neq e (-1))) by lia. by rewrite Z.shiftl_1_l.
Qed.

Lemma DICTHT_SIZE_MASK_pow e : 0 <= e -> DICTHT_SIZE_MASK e = Z.ones e.
Proof.
  intros. unfold DICTHT_SIZE_MASK. rewrite (proj2 (Z.eqb_neq e (-1))) by lia.
  rewrite DICTHT_SIZE_pow by done. rewrite Z.ones_equiv. lia.
Qed.

(** The index of a hash is inside the table. *)
Lemma idx_range (hash e : Z) : 0 <= e ->
  0 <= Z.land hash (DICTHT_SIZE_MASK e) < DICTHT_SIZE e.
Proof.
  intros He. rewrite DICTHT_SIZE_MASK_pow, DICTHT_SIZE_pow by done.
  rewrite Z.land_ones by done. apply Z.mod_pos_bound. lia.
Qed.

Lemma ht_ok_bucket h t tb hash :
  ht_ok h t -> ht_table t = Some tb ->
  exists b, tb !! Z.to_nat (Z.land hash (DICTHT_SIZE_MASK (ht_size_exp t))) = Some b.
Proof.
  intros Hok Ht. unfold ht_ok in Hok. rewrite Ht in Hok. destruct Hok as (He & Hl & _).
  apply lookup_lt_is_Some. pose proof (idx_range hash (ht_size_exp t) ltac:(lia)). lia.
Qed.

(** ** The association list *)

Lemma elem_of_alist w c v :
  (c, v) ∈ alist w <->
  exists l e, l ∈ entries (w_dict w) /\ w_heap w !! l = Some e /\ canon (e_key e) = c /\ e_val e = v.
Proof.
  unfold alist. rewrite list_elem_of_omap. unfold kv. split.
  - intros (l & Hl & Hk). destruct (w_heap w !! l) as [e|] eqn:E; simplify_eq/=. eauto 10.
  - intros (l & e & Hl & E & <- & <-). exists l. split; [done|]. by rewrite E.
Qed.

Lemma dmap_lookup w c v :
  wf w ->
  dmap w !! c = Some v <->
  exists l e, l ∈ entries (w_dict w) /\ w_heap w !! l = Some e /\ canon (e_key e) = c /\ e_val e = v.
Proof.
  intros Hwf. unfold dmap. rewrite <- elem_of_list_to_map by apply Hwf. apply elem_of_alist.
Qed.

Lemma dmap_lookup_None w c :
  wf w ->
  dmap w !! c = None <->
  forall l e, l ∈ entries (w_dict w) -> w_heap w !! l = Some e -> canon (e_key e) <> c.
Proof.
  intros Hwf. rewrite eq_None_not_Some. split.
  - intros Hn l e Hl E Hc. apply Hn. exists (e_val e). apply dmap_lookup; [done|]. eauto 10.
  - intros Hn [v Hv]. apply dmap_lookup in Hv as (l & e & Hl & E & Hc & _); [|done].
    by eapply Hn.
Qed.

(** Keys are not repeated: two entries with the same key value are one. *)
Lemma alist_app h l1 l2 : omap (kv h) (l1 ++ l2) = omap (kv h) l1 ++ omap (kv h) l2.
Proof. apply omap_app. Qed.

Lemma keys_inj w l1 l2 e1 e2 :
  wf w -> l1 ∈ entries (w_dict w) -> l2 ∈ entries (w_dict w) ->
  w_heap w !! l1 = Some e1 -> w_heap w !! l2 = Some e2 ->
  canon (e_key e1) = canon (e_key e2) -> l1 = l2.
Proof.
  intros Hwf H1 H2 E1 E2 Hc. pose proof (wf_keys _ Hwf) as Hnd. unfold alist in Hnd.
  destruct (decide (l1 = l2)) as [|Hne]; [done|exfalso].
  apply list_elem_of_split in H1 as (a & b & Hab). rewrite Hab in Hnd, H2.
  rewrite alist_app in Hnd. cbn [omap list_omap] in Hnd. unfold kv at 2 in Hnd. rewrite E1 in Hnd.
  simpl in Hnd. rewrite fmap_app in Hnd. simpl in Hnd.
  apply NoDup_app in Hnd as (_ & Hd & Hnd). apply NoDup_cons in Hnd as [Hni _].
  assert (Hin : forall l, l2 ∈ l -> canon (e_key e1) ∈ (omap (kv (w_heap w)) l).*1).
  { intros l Hl. apply list_elem_of_fmap. exists (canon (e_key e2), e_val e2). split; [done|].
    apply list_elem_of_omap. exists l2. split; [done|]. unfold kv. by rewrite E2. }
  apply elem_of_app in H2 as [H2|H2].
  - apply (Hd _ (Hin _ H2)). by left.
  - apply elem_of_cons in H2 as [?|H2]; [congruence|]. by apply Hni, Hin.
Qed.

Lemma entries_NoDup w : wf w -> NoDup (entries (w_dict w)).
Proof.
  intros Hwf. pose proof (wf_keys _ Hwf) as Hnd. pose proof (wf_heap _ Hwf) as Hh.
  unfold alist in Hnd. induction (entries (w_dict w)) as [|l ls IH]; [constructor|].
  inversion Hh as [|? ? [e E] Hh']; subst. cbn [omap list_omap] in Hnd. unfold kv at 1 in Hnd.
  rewrite E in Hnd. simpl in Hnd. apply NoDup_cons in Hnd as [Hni Hnd].
  constructor; [|by apply IH]. intros Hl. apply Hni. apply list_elem_of_fmap.
  exists (canon (e_key e), e_val e). split; [done|]. apply list_elem_of_omap. exists l.
  split; [done|]. unfold kv. by rewrite E.
Qed.

(** Dictionaries with the same entries up to order are the same map. *)
Lemma dmap_perm w w' :
  NoDup (alist w).*1 -> alist w ≡ₚ alist w' -> dmap w = dmap w'.
Proof. intros. unfold dmap. by apply list_to_map_proper. Qed.

Lemma alist_perm h l1 l2 : l1 ≡ₚ l2 -> omap (kv h) l1 ≡ₚ omap (kv h) l2.
Proof. intros Hp. by rewrite Hp. Qed.
End wf.
