(* ===== verification/DictRehash.v ===== *)
(** Incremental rehashing keeps the invariant and the map, and comes to an end. *)

From S2P Require Import Prelude State Dict DictWf.

Local Open Scope Z_scope.

Section rehash.
Context {K V C : Type} `{EqDecision K} `{Countable C}.
Context (type : dictType K V) (canon : K -> C) `{!DictLaws type canon}.
Implicit Types (w : world K V) (h : gmap loc (dictEntry K V)).

Abbreviation wf := (wf type canon).
Abbreviation ht_ok := (ht_ok type).
Abbreviation placed := (placed type).

Lemma placed_insert h tb exp n b b' :
  placed h tb exp -> tb !! n = Some b ->
  (forall l e, l ∈ b' -> h !! l = Some e -> l ∈ b \/
     Z.land (hashFunction type (e_key e)) (DICTHT_SIZE_MASK exp) = Z.of_nat n) ->
  placed h (<[n := b']> tb) exp.
Proof.
  intros Hp Hn Hb' i b0 l e Hi Hl He. destruct (decide (i = n)) as [->|].
  - rewrite list_lookup_insert_eq in Hi by (by eapply lookup_lt_Some). simplify_eq.
    destruct (Hb' l e Hl He) as [Hb|?]; [|done]. by eapply Hp.
  - rewrite list_lookup_insert_ne in Hi by done. by eapply Hp.
Qed.

(** Moving a chain: its entries are added to the second table. *)
Lemma rehash_chain_spec chain : forall t0 u0 x0 tb1 u1 x1 ri pr h ds cr,
  0 <= x1 -> Z.of_nat (length tb1) = DICTHT_SIZE x1 -> placed h tb1 x1 ->
  Forall (λ l, is_Some (h !! l)) chain ->
  wp (rehash_chain type chain) (World (Dict (HT t0 u0 x0) (HT (Some tb1) u1 x1) ri pr) h ds cr)
    (λ _ w', exists tb1',
      w' = World (Dict (HT t0 (u0 - Z.of_nat (length chain)) x0)
                       (HT (Some tb1') (u1 + Z.of_nat (length chain)) x1) ri pr) h ds cr /\
      length tb1' = length tb1 /\ concat tb1' ≡ₚ chain ++ concat tb1 /\ placed h tb1' x1).
Proof.
  induction chain as [|de chain IH]; intros t0 u0 x0 tb1 u1 x1 ri pr h ds cr Hx Hl Hp Hh.
  { apply wp_ret. exists tb1. split_and!; [|done..]. by rewrite Z.sub_0_r, Z.add_0_r. }
  inversion Hh as [|? ? [e E] Hh']; subst. cbn [rehash_chain].
  eapply wp_bind, wp_load; [exact E|]. apply wp_bind, wp_getd. cbn [w_dict ht1 ht_size_exp].
  set (hi := Z.land _ _). pose proof (idx_range (dictHashKey type (e_key e)) x1 Hx) as Hr.
  fold hi in Hr. destruct (lookup_lt_is_Some_2 tb1 (Z.to_nat hi)) as [b Hb]; [lia|].
  eapply wp_bind, wp_get_bucket; [done|done|lia|].
  eapply wp_bind, wp_set_bucket; [done|done|lia|]. cbn.
  apply wp_bind, wp_add_used. apply wp_bind, wp_add_used. cbn.
  unfold with_ht, with_dict. cbn. unfold with_dict. cbn.
  eapply wp_mono; [apply IH|].
  - done.
  - by rewrite length_insert.
  - eapply placed_insert; [done|done|]. intros l e' [->|?]%elem_of_cons He'; [right|by left].
    simplify_eq. change (hashFunction type (e_key e)) with (dictHashKey type (e_key e)).
    fold hi. lia.
  - done.
  - intros _ w' (tb1' & -> & Hl' & Hc & Hp'). exists tb1'. split_and!.
    + do 3 f_equal; cbn [length]; lia.
    + by rewrite Hl', length_insert.
    + rewrite Hc. pose proof (concat_insert tb1 (Z.to_nat hi) b (de :: b) Hb) as Hci.
      apply (Permutation_app_inv_r b). rewrite <- app_assoc, Hci. simpl.
      by rewrite <- !Permutation_middle, app_assoc.
    + done.
Qed.

(** ** The state inside the loop

    Between two buckets the index may have reached the end of the first table. *)
Definition rwf w (tb0 tb1 : list (list loc)) : Prop :=
  ht_table (ht0 (w_dict w)) = Some tb0 /\ ht_table (ht1 (w_dict w)) = Some tb1 /\
  ht_ok (w_heap w) (ht0 (w_dict w)) /\ ht_ok (w_heap w) (ht1 (w_dict w)) /\
  Forall (λ l, is_Some (w_heap w !! l)) (entries (w_dict w)) /\
  0 <= rehashidx (w_dict w) <= DICTHT_SIZE (ht_size_exp (ht0 (w_dict w))) /\
  (forall i b, tb0 !! i = Some b -> Z.of_nat i < rehashidx (w_dict w) -> b = []).

(** While entries are left a non empty bucket lies ahead. *)
Lemma rwf_next w tb0 tb1 :
  rwf w tb0 tb1 -> ht_used (ht0 (w_dict w)) <> 0 ->
  exists k b, tb0 !! k = Some b /\ b <> [] /\ rehashidx (w_dict w) <= Z.of_nat k.
Proof.
  intros (Ht0 & _ & Hok0 & _ & _ & _ & He) Hu. unfold DictWf.ht_ok in Hok0. rewrite Ht0 in Hok0.
  destruct Hok0 as (_ & _ & Hused & _). destruct (concat tb0) as [|l ls] eqn:Hc; [simpl in *; lia|].
  assert (Hl : l ∈ concat tb0) by (rewrite Hc; by left).
  apply elem_of_concat_lookup in Hl as (k & b & Hk & Hb). exists k, b. split_and!; [done| |].
  - intros ->. by apply not_elem_of_nil in Hb.
  - destruct (Z.le_gt_cases (rehashidx (w_dict w)) (Z.of_nat k)); [done|].
    rewrite (He k b Hk) in Hb by lia. by apply not_elem_of_nil in Hb.
Qed.

Definition at_index w (r : Z) : world K V := with_dict w (set_rehashidx (w_dict w) r).

Lemma rehash_skip_empty_spec fuel : forall w tb0 k b ev,
  ht_table (ht0 (w_dict w)) = Some tb0 -> tb0 !! k = Some b -> b <> [] ->
  0 <= rehashidx (w_dict w) <= Z.of_nat k ->
  (forall i b, tb0 !! i = Some b -> Z.of_nat i < rehashidx (w_dict w) -> b = []) ->
  Z.of_nat k - rehashidx (w_dict w) < Z.of_nat fuel ->
  wp (rehash_skip_empty fuel ev) w (λ left w', exists r,
    w' = at_index w r /\ rehashidx (w_dict w) <= r <= Z.of_nat k /\
    (forall i b, tb0 !! i = Some b -> Z.of_nat i < r -> b = []) /\
    match left with
    | None => rehashidx (w_dict w) < r
    | Some _ => exists x c, tb0 !! Z.to_nat r = Some (x :: c)
    end).
Proof.
  induction fuel as [|fuel IH]; intros w tb0 k b ev Ht Hk Hb Hr He Hf; [lia|].
  cbn [rehash_skip_empty]. apply wp_bind, wp_getd.
  set (r0 := rehashidx (w_dict w)) in *.
  destruct (lookup_lt_is_Some_2 tb0 (Z.to_nat r0)) as [b0 Hb0].
  { apply lookup_lt_Some in Hk. lia. }
  eapply wp_bind, wp_get_bucket; [done|done|lia|]. destruct b0 as [|x c].
  - assert (r0 <> Z.of_nat k) by (intros E; rewrite E, Nat2Z.id in Hb0; congruence).
    assert (He' : forall i b, tb0 !! i = Some b -> Z.of_nat i < r0 + 1 -> b = []).
    { intros i b' Hi Hlt. destruct (Z.eq_dec (Z.of_nat i) r0) as [E|]; [|eapply He; [done|lia]].
      rewrite <- E, Nat2Z.id in Hb0. congruence. }
    apply wp_bind, wp_putd. destruct (ev - 1 =? 0).
    + apply wp_ret. exists (r0 + 1). split_and!; [done|lia|lia|done|lia].
    + eapply wp_mono; [eapply (IH _ tb0 k b); [exact Ht|done|done|cbn; lia|exact He'|cbn; lia]|].
      intros left w' (r & -> & Hr' & Hee & Hm). exists r. cbn in Hr', Hm.
      split_and!; [done|lia|lia|done|]. destruct left; [done|lia].
  - apply wp_ret. exists r0. split_and!; [|lia|lia|done|eauto]. by destruct w as [[]].
Qed.

(** What stays the same, and what the step does to the entries. *)
Definition rehashed w w' : Prop :=
  w_heap w' = w_heap w /\ w_destroyed w' = w_destroyed w /\
  dict_can_resize w' = dict_can_resize w /\
  pauserehash (w_dict w') = pauserehash (w_dict w) /\
  entries (w_dict w') ≡ₚ entries (w_dict w).

Lemma rehashed_refl w : rehashed w w.
Proof. by split_and!. Qed.

Lemma rehashed_trans w1 w2 w3 : rehashed w1 w2 -> rehashed w2 w3 -> rehashed w1 w3.
Proof. intros (?&?&?&?&E) (?&?&?&?&E'). split_and!; try congruence. by rewrite E'. Qed.

Lemma rehashed_alist w w' : rehashed w w' -> alist canon w' ≡ₚ alist canon w.
Proof. intros (Hh & _ & _ & _ & Hp). unfold alist. rewrite Hh. by apply alist_perm. Qed.

Lemma rehashed_dmap w w' : wf w -> rehashed w w' -> dmap canon w' = dmap canon w.
Proof.
  intros Hwf Hr. symmetry. apply dmap_perm; [apply Hwf|]. symmetry. by apply rehashed_alist.
Qed.

Lemma ht_ok_Some h t tb :
  ht_table t = Some tb -> ht_ok h t ->
  2 <= ht_size_exp t <= 60 /\ Z.of_nat (length tb) = DICTHT_SIZE (ht_size_exp t) /\
  ht_used t = Z.of_nat (length (concat tb)) /\ placed h tb (ht_size_exp t).
Proof. unfold DictWf.ht_ok. by intros ->. Qed.

(** The sizes of the tables, as exponents. *)
Definition sizes (d : dict) : Z * Z := (ht_size_exp (ht0 d), ht_size_exp (ht1 d)).

Lemma sizes_ht0 d d' : sizes d' = sizes d -> ht_size_exp (ht0 d') = ht_size_exp (ht0 d).
Proof. by intros [= ->]. Qed.

(** Emptying the bucket at the index. *)
Lemma rehash_move w tb0 tb1 chain :
  rwf w tb0 tb1 -> tb0 !! Z.to_nat (rehashidx (w_dict w)) = Some chain ->
  wp (rehash_chain type chain;;
      set_bucket false (rehashidx (w_dict w)) [];;
      d ← getd; putd (set_rehashidx d (rehashidx d + 1))) w
    (λ _ w', exists tb0' tb1',
      rwf w' tb0' tb1' /\ rehashed w w' /\
      sizes (w_dict w') = sizes (w_dict w) /\
      rehashidx (w_dict w') = rehashidx (w_dict w) + 1).
Proof.
  destruct w as [[[t0 u0 x0] [t1 u1 x1] ri pr] h ds cr].
  intros (Ht0 & Ht1 & Hok0 & Hok1 & Hh & Hri & He) Hb. simpl in Ht0, Ht1, Hri, He, Hb |- *. subst.
  destruct Hok0 as (Hx0 & Hl0 & Hu0 & Hp0), Hok1 as (Hx1 & Hl1 & Hu1 & Hp1).
  cbn [ht_size_exp ht_used ht_table ht0 ht1 w_dict w_heap rehashidx] in *.
  pose proof (concat_insert tb0 (Z.to_nat ri) chain [] Hb) as Hci. rewrite app_nil_r in Hci.
  pose proof (lookup_lt_Some _ _ _ Hb) as Hlt.
  unfold entries, ht_entries in Hh. cbn in Hh. apply Forall_app in Hh as [Hh0 Hh1].
  rewrite <- Hci in Hh0. apply Forall_app in Hh0 as [Hh0 Hhc].
  apply wp_bind. eapply wp_mono; [apply rehash_chain_spec; [lia|done|done|done]|].
  intros _ w' (tb1' & -> & Hl1' & Hc1 & Hp1').
  eapply wp_bind, wp_set_bucket; [done|done|lia|]. apply wp_bind, wp_getd, wp_putd. cbn.
  unfold with_ht, with_dict. cbn.
  exists (<[Z.to_nat ri := []]> tb0), tb1'. split_and!; try done.
  - split_and!; cbn; try done; try lia.
    + rewrite length_insert. split_and!; [lia|lia|done| |].
      * apply Permutation_length in Hci. rewrite length_app in Hci. lia.
      * eapply placed_insert; [done|done|]. intros l e Hl. by apply not_elem_of_nil in Hl.
    + split_and!; [lia|lia|by rewrite Hl1'| |done].
      apply Permutation_length in Hc1. rewrite length_app in Hc1. lia.
    + unfold entries, ht_entries. cbn. apply Forall_app. split; [done|]. rewrite Hc1.
      by apply Forall_app.
    + intros i b Hi Hlt'. destruct (decide (i = Z.to_nat ri)) as [->|].
      * rewrite list_lookup_insert_eq in Hi by done. congruence.
      * rewrite list_lookup_insert_ne in Hi by done. eapply He; [done|lia].
  - split_and!; try done. unfold entries, ht_entries. cbn. rewrite Hc1, app_assoc, Hci. done.
Qed.

Lemma rwf_at_index w tb0 tb1 r :
  rwf w tb0 tb1 -> 0 <= r <= DICTHT_SIZE (ht_size_exp (ht0 (w_dict w))) ->
  (forall i b, tb0 !! i = Some b -> Z.of_nat i < r -> b = []) -> rwf (at_index w r) tb0 tb1.
Proof.
  destruct w as [[]]. intros (Ht0 & Ht1 & Hok0 & Hok1 & Hh & Hri & He) Hr Hee.
  split_and!; first [done | by destruct Hr].
Qed.

Lemma rehash_loop_spec n : forall w tb0 tb1 ev,
  rwf w tb0 tb1 ->
  wp (rehash_loop type n ev) w (λ ret w', exists tb0' tb1',
    rwf w' tb0' tb1' /\ rehashed w w' /\
    sizes (w_dict w') = sizes (w_dict w) /\
    rehashidx (w_dict w) <= rehashidx (w_dict w') /\
    (n <> 0%nat -> ht_used (ht0 (w_dict w)) <> 0 -> rehashidx (w_dict w) < rehashidx (w_dict w')) /\
    (ret = true -> ht_used (ht0 (w_dict w')) <> 0) /\
    (ht_used (ht0 (w_dict w)) = 0 -> w' = w)).
Proof.
  induction n as [|n IH]; intros w tb0 tb1 ev Hw; cbn [rehash_loop].
  { apply wp_ret. exists tb0, tb1. split_and!; done || apply rehashed_refl. }
  apply wp_bind, wp_getd. destruct (Z.eqb_spec (ht_used (ht0 (w_dict w))) 0) as [Hu|Hu].
  { apply wp_ret. exists tb0, tb1. split_and!; done || apply rehashed_refl. }
  destruct (rwf_next _ _ _ Hw Hu) as (k & b & Hk & Hb & Hrk).
  pose proof Hw as (Ht0 & Ht1 & Hok0 & _ & _ & Hri & He).
  destruct (ht_ok_Some _ _ _ Ht0 Hok0) as (Hx0 & Hl0 & _). pose proof (lookup_lt_Some _ _ _ Hk) as Hkl.
  rewrite (proj2 (Z.leb_gt _ _)) by lia.
  apply wp_bind. eapply wp_mono.
  { apply (rehash_skip_empty_spec _ w tb0 k b); try done; lia. }
  intros left w1 (r & -> & Hr & Hre & Hleft).
  assert (Hw1 : rwf (at_index w r) tb0 tb1) by (apply rwf_at_index; [done|lia|done]).
  assert (Hr1 : rehashed w (at_index w r)) by (split_and!; done).
  destruct left as [ev'|].
  2:{ apply wp_ret. exists tb0, tb1. split_and!; try done; cbn; lia. }
  destruct Hleft as (x & c & Hc). apply wp_bind, wp_getd.
  eapply wp_bind, wp_get_bucket; [exact Ht0|exact Hc|cbn; lia|].
  pose proof (rehash_move (at_index w r) tb0 tb1 (x :: c) Hw1 Hc) as Hmove.
  destruct Hmove as ([] & w2 & E & tb0' & tb1' & Hw2 & Hr2 & Hx2 & Hi2).
  change (sizes (w_dict (at_index w r))) with (sizes (w_dict w)) in Hx2. cbn in Hi2. destruct (IH w2 tb0' tb1' ev' Hw2) as (ret & w3 & E3 & tb0'' & tb1'' & H3).
  exists ret, w3. split.
  - revert E. unfold mbind, ST_bind. cbn [w_dict at_index with_dict rehashidx set_rehashidx].
    destruct (rehash_chain type (x :: c) (at_index w r)) as [[[] wa]|]; [|done]. cbn.
    destruct (set_bucket false r [] wa) as [[[] wb]|]; [|done]. cbn. intros E.
    injection E as <-. exact E3.
  - destruct H3 as (Hw3 & Hr3 & Hx3 & Hle3 & _ & Hret & _). exists tb0'', tb1''.
    split_and!; try done; try lia; try congruence.
    by eapply rehashed_trans; [|eapply rehashed_trans].
Qed.

(** ** One call *)

(** Whether [dictRehash] moves buckets at all. *)
Definition may_rehash w : bool :=
  negb (bool_decide (dict_can_resize w = DICT_RESIZE_FORBID)) &&
  negb (bool_decide (dict_can_resize w = DICT_RESIZE_AVOID) &&
        (DICTHT_SIZE (ht_size_exp (ht1 (w_dict w))) / DICTHT_SIZE (ht_size_exp (ht0 (w_dict w)))
           <? dict_force_resize_ratio)).

(** The buckets of the first table that are still to be visited. *)
Definition rehash_left (d : dict) : Z :=
  if dictIsRehashing d then DICTHT_SIZE (ht_size_exp (ht0 d)) - rehashidx d else 0.

Lemma rwf_wf w tb0 tb1 :
  rwf w tb0 tb1 -> NoDup (alist canon w).*1 -> ht_used (ht0 (w_dict w)) <> 0 -> wf w.
Proof.
  intros Hw Hnd Hu. destruct (rwf_next _ _ _ Hw Hu) as (k & b & Hk & Hb & Hrk).
  destruct Hw as (Ht0 & Ht1 & Hok0 & Hok1 & Hh & Hri & He). split; try done. right.
  exists tb0. split_and!; [done|by rewrite Ht1|lia| |done].
  destruct (ht_ok_Some _ _ _ Ht0 Hok0) as (Hx0 & Hl0 & _). pose proof (lookup_lt_Some _ _ _ Hk). lia.
Qed.

Lemma wf_rwf w : wf w -> dictIsRehashing (w_dict w) = true -> exists tb0 tb1, rwf w tb0 tb1.
Proof.
  intros [Hok0 Hok1 Hh Hnd Hre] Hr. unfold dictIsRehashing in Hr.
  destruct Hre as [[Hri _]|(tb0 & Ht0 & [tb1 Ht1] & Hri & He)]; [by rewrite Hri in Hr|].
  exists tb0, tb1. split_and!; try done; lia.
Qed.

(** The first table is done: the second takes its place. *)
Lemma rehash_finish w tb0 tb1 :
  rwf w tb0 tb1 -> NoDup (alist canon w).*1 -> ht_used (ht0 (w_dict w)) = 0 ->
  wp (putd (set_ht (w_dict w) false (ht1 (w_dict w)));; _dictReset true;;
      d ← getd; putd (set_rehashidx d (-1));; mret 0) w
    (λ r w', r = 0 /\ wf w' /\ rehashed w w' /\ dictIsRehashing (w_dict w') = false).
Proof.
  destruct w as [[[t0 u0 x0] [t1 u1 x1] ri pr] h ds cr].
  intros (Ht0 & Ht1 & Hok0 & Hok1 & Hh & Hri & He) Hnd Hu. simpl in Ht0, Ht1, Hu. subst.
  destruct Hok0 as (_ & _ & Hu0 & _). cbn in Hu0.
  assert (Hc0 : concat tb0 = []) by (destruct (concat tb0); simpl in *; [done|lia]).
  unfold _dictReset. wp_go. cbn.
  unfold alist, entries, ht_entries in Hnd, Hh. cbn in Hnd, Hh. rewrite Hc0 in Hnd, Hh. simpl in Hnd, Hh.
  split_and!; [done| | |done].
  - split; cbn; try done.
    + unfold entries, ht_entries. cbn. by rewrite app_nil_r.
    + unfold alist, entries, ht_entries. cbn. by rewrite app_nil_r.
    + by left.
  - split_and!; try done. unfold entries, ht_entries. cbn. by rewrite Hc0, app_nil_r.
Qed.

Lemma may_rehash_same w w' : rehashed w w' -> sizes (w_dict w') = sizes (w_dict w) -> may_rehash w' = may_rehash w.
Proof. intros (_ & _ & E & _) [= E0 E1]. unfold may_rehash. by rewrite E, E0, E1. Qed.

Lemma dictRehash_spec n w :
  wf w ->
  wp (dictRehash type n) w (λ r w', wf w' /\ rehashed w w' /\
    rehash_left (w_dict w') <= rehash_left (w_dict w) /\
    (may_rehash w = true -> dictIsRehashing (w_dict w) = true -> n <> 0%nat ->
     rehash_left (w_dict w') < rehash_left (w_dict w)) /\
    (r = if may_rehash w && dictIsRehashing (w_dict w)
         then b2z (dictIsRehashing (w_dict w')) else 0) /\
    (dictIsRehashing (w_dict w') = true -> may_rehash w' = may_rehash w)).
Proof.
  intros Hwf. unfold dictRehash, may_rehash at 1 2. apply wp_bind, wp_get.
  pose proof (rehashed_refl w).
  destruct (bool_decide (dict_can_resize w = DICT_RESIZE_FORBID)); cbn [orb negb andb].
  { apply wp_ret. by split_and!. }
  destruct (dictIsRehashing (w_dict w)) eqn:Hr; cbn [negb].
  2:{ apply wp_ret. split_and!; try done. by rewrite andb_false_r. }
  destruct (_ && (_ <? _)); cbn [negb andb].
  { apply wp_ret. by split_and!. }
  destruct (wf_rwf w Hwf Hr) as (tb0 & tb1 & Hw).
  assert (Hlt : 0 < rehash_left (w_dict w)).
  { unfold rehash_left. rewrite Hr. destruct (wf_rehash _ _ _ Hwf) as [[Hri _]|(?&?&?&?&_)]; [|lia].
    unfold dictIsRehashing in Hr. by rewrite Hri in Hr. }
  apply wp_bind. eapply wp_mono; [by apply (rehash_loop_spec _ w tb0 tb1)|].
  intros ret w1 (tb0' & tb1' & Hw1 & Hr1 & Hx1 & Hle & Hprog & Hret & Hsame).
  assert (Hnd : NoDup (alist canon w1).*1).
  { rewrite (rehashed_alist _ _ Hr1). apply Hwf. }
  assert (Hleft : forall (Hu : ht_used (ht0 (w_dict w1)) <> 0),
    dictIsRehashing (w_dict w1) = true /\ rehash_left (w_dict w1) <= rehash_left (w_dict w) /\
    (n <> 0%nat -> rehash_left (w_dict w1) < rehash_left (w_dict w))).
  { intros Hu. pose proof Hw1 as (_ & _ & _ & _ & _ & Hri1 & _).
    assert (Hr1' : dictIsRehashing (w_dict w1) = true) by (unfold dictIsRehashing; lia).
    unfold rehash_left. rewrite Hr, Hr1', (sizes_ht0 _ _ Hx1). split_and!; [done|lia|]. intros Hn.
    destruct (Z.eq_dec (ht_used (ht0 (w_dict w))) 0) as [E|E]; [|specialize (Hprog Hn E); lia].
    exfalso. by rewrite (Hsame E) in Hu. }
  destruct ret.
  - destruct (Hleft (Hret eq_refl)) as (Hr1' & Hl1 & Hl2). apply wp_ret.
    split_and!; first [done|by eapply rwf_wf; eauto|by rewrite Hr1'|by intros; apply may_rehash_same|auto].
  - apply wp_bind, wp_getd. destruct (Z.eqb_spec (ht_used (ht0 (w_dict w1))) 0) as [Hu|Hu].
    + eapply wp_mono; [by apply (rehash_finish w1 tb0' tb1')|].
      intros r w2 (-> & Hwf2 & Hr2 & Hnr). unfold rehash_left in *. rewrite Hnr.
      split_and!; try done; try lia; try congruence. by eapply rehashed_trans.
    + destruct (Hleft Hu) as (Hr1' & Hl1 & Hl2). apply wp_ret.
      split_and!; first [done|by eapply rwf_wf|by rewrite Hr1'|by intros; apply may_rehash_same|auto].
Qed.

Lemma rehash_if_needed_spec w :
  wf w -> wp (rehash_if_needed type) w (λ _ w', wf w' /\ rehashed w w').
Proof.
  intros Hwf. pose proof (rehashed_refl w). apply wp_bind, wp_getd.
  destruct (dictIsRehashing (w_dict w)); [|by apply wp_ret].
  apply wp_bind, wp_getd. destruct (pauserehash (w_dict w) =? 0); [|by apply wp_ret].
  apply wp_bind. eapply wp_mono; [by apply dictRehash_spec|]. intros _ w' (? & ? & _).
  by apply wp_ret.
Qed.

(** The sizes agree with the map. *)
Lemma dictSize_entries w : wf w -> dictSize (w_dict w) = Z.of_nat (length (entries (w_dict w))).
Proof.
  intros [Hok0 Hok1 _ _ _]. unfold dictSize, entries, ht_entries. rewrite length_app.
  unfold DictWf.ht_ok in *.
  destruct (ht_table (ht0 _)), (ht_table (ht1 _)); simpl; intuition lia.
Qed.

Lemma alist_length w : wf w -> length (alist canon w) = length (entries (w_dict w)).
Proof.
  intros Hwf. pose proof (wf_heap _ _ _ Hwf) as Hh. unfold alist.
  induction Hh as [|l ls [e E] Hls IH]; [done|]. cbn [omap list_omap]. unfold kv at 1. rewrite E.
  simpl. f_equal. exact IH.
Qed.

Lemma dictSize_dmap w : wf w -> dictSize (w_dict w) = Z.of_nat (size (dmap canon w)).
Proof.
  intros Hwf. rewrite dictSize_entries by done. f_equal. unfold dmap.
  rewrite map_size_list_to_map by apply Hwf. symmetry. by apply alist_length.
Qed.

(** Repeated steps, as the server cron and the operations on the dictionary do. *)
Fixpoint rehash_times (k : nat) : M K V unit :=
  match k with
  | O => mret tt
  | S k' => _ ← dictRehash type 1; rehash_times k'
  end.

Lemma rehash_times_spec k : forall w,
  wf w -> (dictIsRehashing (w_dict w) = true -> may_rehash w = true) -> rehash_left (w_dict w) <= Z.of_nat k ->
  wp (rehash_times k) w (λ _ w', wf w' /\ rehashed w w' /\ dictIsRehashing (w_dict w') = false).
Proof.
  assert (Hpos : forall w, wf w -> dictIsRehashing (w_dict w) = true -> 0 < rehash_left (w_dict w)).
  { intros w Hwf Hr. unfold rehash_left. rewrite Hr.
    destruct (wf_rehash _ _ _ Hwf) as [[Hri _]|(?&?&?&?&_)]; [|lia].
    unfold dictIsRehashing in Hr. by rewrite Hri in Hr. }
  induction k as [|k IH]; intros w Hwf Hmay Hk; cbn [rehash_times].
  - apply wp_ret. split_and!; [done|apply rehashed_refl|].
    destruct (dictIsRehashing (w_dict w)) eqn:E; [|done]. specialize (Hpos w Hwf E). lia.
  - apply wp_bind. eapply wp_mono; [by apply dictRehash_spec|].
    intros r w1 (Hwf1 & Hr1 & Hle & Hlt & _ & Hkeep).
    assert (Hstill : dictIsRehashing (w_dict w1) = true -> dictIsRehashing (w_dict w) = true).
    { intros E1. specialize (Hpos w1 Hwf1 E1). unfold rehash_left in Hle at 2. by destruct (dictIsRehashing (w_dict w)); [|lia]. }
    destruct (IH w1) as ([] & w2 & E2 & Hwf2 & Hr2 & Hnr); [done| | |].
    + intros E1. rewrite Hkeep by done. by apply Hmay, Hstill.
    + destruct (dictIsRehashing (w_dict w)) eqn:E; [specialize (Hlt (Hmay eq_refl) eq_refl); lia|].
      unfold rehash_left in Hle at 2. rewrite E in Hle. lia.
    + exists tt, w2. split_and!; [done..| |done]. by eapply rehashed_trans.
Qed.

(** A call that may not rehash does nothing. *)
Lemma dictRehash_stays n w : may_rehash w = false -> dictRehash type n w = Some (0, w).
Proof.
  unfold may_rehash, dictRehash, mbind, ST_bind. cbn.
  destruct (bool_decide (dict_can_resize w = DICT_RESIZE_FORBID)); [done|]. cbn [negb andb orb].
  destruct (negb (dictIsRehashing _)); [done|]. by destruct (bool_decide (dict_can_resize w = DICT_RESIZE_AVOID) && _).
Qed.

Lemma rehash_times_stays k w : may_rehash w = false -> rehash_times k w = Some (tt, w).
Proof.
  intros Hno. induction k as [|k IH]; [done|]. cbn [rehash_times]. unfold mbind, ST_bind. by rewrite dictRehash_stays.
Qed.
End rehash.

(** A call of [dictRehash] never fails, keeps the invariant, the number of
    elements and the map from keys to values; while rehashing is allowed it returns
    1 exactly when keys are left to move, and every call makes progress. *)
Theorem dictRehash_correct {K V C} `{EqDecision K} `{Countable C} (type : dictType K V)
    (canon : K -> C) `{!DictLaws type canon} (n : nat) (w : world K V) :
  wf type canon w ->
  exists r w', dictRehash type n w = Some (r, w') /\ wf type canon w' /\
    dmap canon w' = dmap canon w /\ dictSize (w_dict w') = dictSize (w_dict w) /\
    (may_rehash w = true -> dictIsRehashing (w_dict w) = true -> n <> 0%nat ->
     rehash_left (w_dict w') < rehash_left (w_dict w) /\
     r = b2z (dictIsRehashing (w_dict w'))).
Proof.
  intros Hwf. destruct (dictRehash_spec type canon n w Hwf) as (r & w' & E & Hwf' & Hr & _ & Hlt & Hret & _).
  exists r, w'. pose proof (rehashed_dmap type canon w w' Hwf Hr) as Hd.
  split_and!; [done..| |].
  - by rewrite !(dictSize_dmap type canon), Hd.
  - intros H1 H2 H3. split; [auto|]. by rewrite H1, H2 in Hret.
Qed.

(** C32: incremental rehashing terminates whenever the resize policy lets [dictRehash] move
    buckets, that is if resizing is enabled, or to be avoided ([DICT_RESIZE_AVOID]) but the second table at
    least [dict_force_resize_ratio] times as large as the first: as many single steps as the first table has
    buckets left finish it, and the map is the same at the end.  Under any other policy no number of
    steps changes anything, and a rehashing that has begun stays where it is. *)
Theorem dictRehash_terminates {K V C} `{EqDecision K} `{Countable C} (type : dictType K V)
    (canon : K -> C) `{!DictLaws type canon} (w : world K V) :
  wf type canon w ->
  if may_rehash w then
    exists w', rehash_times type (Z.to_nat (rehash_left (w_dict w))) w = Some (tt, w') /\
      wf type canon w' /\ dictIsRehashing (w_dict w') = false /\ dmap canon w' = dmap canon w
  else forall k, rehash_times type k w = Some (tt, w).
Proof.
  intros Hwf. destruct (may_rehash w) eqn:Hmay; [|intros k; by apply rehash_times_stays].
  destruct (rehash_times_spec type canon (Z.to_nat (rehash_left (w_dict w))) w)
    as ([] & w' & E & Hwf' & Hr & Hnr); [done|done|lia|].
  exists w'. split_and!; [done..|]. by apply (rehashed_dmap type canon).
Qed.
