(* ===== verification/DictOps.v ===== *)
(** The dictionary operations implement the operations of a finite map. *)

From S2P Require Import Prelude State Dict DictWf DictRehash.

Local Open Scope Z_scope.

(** ** Sizes *)

Lemma nextExp_loop_spec fuel : forall e size,
  2 <= e -> e + Z.of_nat fuel <= 64 -> size <= 2 ^ (e + Z.of_nat fuel - 1) ->
  (e = 2 \/ 2 ^ (e - 1) < size) -> (1 <= fuel)%nat ->
  let r := _dictNextExp_loop fuel e size in
  e <= r <= e + Z.of_nat fuel - 1 /\ size <= 2 ^ r /\ (r = 2 \/ 2 ^ (r - 1) < size).
Proof.
  induction fuel as [|fuel IH]; intros e size He Hf Hs Hlo Hpos; [lia|].
  cbn [_dictNextExp_loop]. rewrite Z.shiftl_1_l. destruct (Z.leb_spec size (2 ^ e)); [lia|].
  destruct fuel as [|fuel].
  { replace (e + Z.of_nat 1 - 1) with e in Hs by lia. lia. }
  rewrite wrapu_small by cint.
  destruct (IH (e + 1) size) as (H1 & H2 & H3).
  - lia.
  - lia.
  - by replace (e + 1 + Z.of_nat (S fuel) - 1) with (e + Z.of_nat (S (S fuel)) - 1) by lia.
  - right. by replace (e + 1 - 1) with e by lia.
  - lia.
  - split_and!; [lia|lia|done|done].
Qed.

Lemma _dictNextExp_spec size :
  size < LONG_MAX ->
  2 <= _dictNextExp size <= 63 /\ size <= 2 ^ _dictNextExp size /\
  (_dictNextExp size = 2 \/ 2 ^ (_dictNextExp size - 1) < size).
Proof.
  intros Hs. unfold _dictNextExp. rewrite (proj2 (Z.leb_gt _ _)) by lia.
  destruct (nextExp_loop_spec 62 DICT_HT_INITIAL_EXP size) as (H1 & H2 & H3);
    unfold DICT_HT_INITIAL_EXP in *; lia.
Qed.

(** The exponent is minimal, so it is bounded by any power of two that fits. *)
Lemma _dictNextExp_le size k : 2 <= k < 63 -> size <= 2 ^ k -> _dictNextExp size <= k.
Proof.
  intros Hk Hs. assert (2 ^ k <= 2 ^ 62) by (apply Z.pow_le_mono_r; lia).
  change (2 ^ 62) with 4611686018427387904 in *.
  destruct (_dictNextExp_spec size) as (H1 & H2 & [H3|H3]); [lia|lia|].
  destruct (Z.le_gt_cases (_dictNextExp size) k); [done|].
  assert (2 ^ k <= 2 ^ (_dictNextExp size - 1)) by (apply Z.pow_le_mono_r; lia). lia.
Qed.

Lemma concat_replicate_nil {A} n : concat (replicate n ([] : list A)) = [].
Proof. induction n; simpl; auto. Qed.

Section ops.
Context {K V C : Type} `{EqDecision K} `{Countable C}.
Context (type : dictType K V) (canon : K -> C) `{!DictLaws type canon}.
Implicit Types (w : world K V) (h : gmap loc (dictEntry K V)).

Abbreviation wf := (wf type canon).
Abbreviation ht_ok := (ht_ok type).
Abbreviation placed := (placed type).
Abbreviation dmap := (dmap canon).

Lemma new_ht_ok h x :
  2 <= x <= 60 -> ht_ok h (HT (Some (replicate (Z.to_nat (2 ^ x)) [])) 0 x).
Proof.
  intros Hx. split_and!; cbn; [lia|lia| | |].
  - rewrite length_replicate, DICTHT_SIZE_pow by lia. lia.
  - by rewrite concat_replicate_nil.
  - intros i b l e Hi Hl. apply lookup_replicate in Hi as [-> _]. by apply not_elem_of_nil in Hl.
Qed.

(** Expanding: on success the table exists and the entries are the same; it
    succeeds when it can. *)
Definition expand_post (size : Z) (mf : option bool) w (r : Z * bool) w' : Prop :=
  wf w' /\ rehashed w w' /\
  ((fst r = DICT_OK /\ is_Some (ht_table (ht0 (w_dict w')))) \/
   (fst r = DICT_ERR /\ w' = w /\
    ~ (dictIsRehashing (w_dict w) = false /\ ht_used (ht0 (w_dict w)) <= size <= 2 ^ 60 /\
       _dictNextExp size <> ht_size_exp (ht0 (w_dict w)) /\ mf <> Some false))).

Lemma _dictExpand_spec size mf w :
  wf w -> wp (_dictExpand size mf) w (expand_post size mf w).
Proof.
  intros Hwf. unfold _dictExpand. apply wp_bind, wp_getd.
  assert (Herr : forall b, ~ (dictIsRehashing (w_dict w) = false /\
      ht_used (ht0 (w_dict w)) <= size <= 2 ^ 60 /\
      _dictNextExp size <> ht_size_exp (ht0 (w_dict w)) /\ mf <> Some false) ->
      expand_post size mf w (DICT_ERR, b) w).
  { intros b Hno. split_and!; [done|apply rehashed_refl|right; done]. }
  destruct (dictIsRehashing (w_dict w)) eqn:Hr; cbn [orb].
  { apply wp_ret, Herr. by intros [? _]. }
  destruct (Z.ltb_spec size (ht_used (ht0 (w_dict w)))).
  { apply wp_ret, Herr. lia. }
  set (x := _dictNextExp size) in *.
  assert (Hx : size <= 2 ^ 60 -> 2 <= x <= 60 /\ size <= 2 ^ x /\ u64 (Z.shiftl 1 x) = 2 ^ x /\
               u64 (2 ^ x * 8) = 2 ^ x * 8).
  { intros Hs. pose proof (_dictNextExp_le size 60 ltac:(lia) Hs).
    change (2 ^ 60) with 1152921504606846976 in Hs.
    destruct (_dictNextExp_spec size) as (H2 & H3 & _); [lia|]. fold x in H2, H3.
    assert (0 <= 2 ^ x <= 2 ^ 60) by (split; [|apply Z.pow_le_mono_r]; lia).
    change (2 ^ 60) with 1152921504606846976 in *.
    rewrite Z.shiftl_1_l, !wrapu_small by cint. split_and!; lia. }
  destruct (Z.le_gt_cases size (2 ^ 60)) as [Hs|Hs].
  2:{ assert (Hx3 : x = 61 \/ x = 62 \/ x = 63).
      { destruct (Z.lt_ge_cases size LONG_MAX) as [Hl|Hl].
        - destruct (_dictNextExp_spec size Hl) as (H2 & H3 & _). fold x in H2, H3.
          destruct (Z.le_gt_cases x 60); [|lia].
          pose proof (Z.pow_le_mono_r 2 x 60 ltac:(lia) ltac:(lia)). lia.
        - right. right. unfold x, _dictNextExp. by rewrite (proj2 (Z.leb_le _ _)) by lia. }
      assert ((u64 (u64 (Z.shiftl 1 x) * 8) <? u64 (Z.shiftl 1 x)) = true) as ->
        by (destruct Hx3 as [->|[->| ->]]; reflexivity).
      rewrite orb_true_r. apply wp_ret, Herr. lia. }
  destruct (Hx Hs) as (Hx1 & Hx2 & -> & ->).
  rewrite (proj2 (Z.ltb_ge (2 ^ x) size)), (proj2 (Z.ltb_ge (2 ^ x * 8) (2 ^ x))) by lia.
  cbn [orb]. destruct (Z.eqb_spec x (ht_size_exp (ht0 (w_dict w)))).
  { apply wp_ret, Herr. by intros (_ & _ & ? & _). }
  destruct (match mf with Some ok => negb ok | None => false end) eqn:Hmf.
  { apply wp_ret, Herr. intros (_ & _ & _ & Hne). by destruct mf as [[]|]. }
  destruct w as [[[t0 u0 x0] [t1 u1 x1] ri pr] h ds cr]. cbn in *.
  destruct Hwf as [Hok0 Hok1 Hh Hnd Hre]. cbn in *.
  destruct Hre as [[Hri Ht1]|(tb0 & _ & _ & ? & _)]; [|unfold dictIsRehashing in Hr; cbn in *; lia].
  cbn in Hri, Ht1. subst ri t1. destruct t0 as [tb0|].
  - wp_go. split_and!; [|split_and!; try done; cbn; unfold entries, ht_entries; cbn|by left].
    + split; cbn; try done.
      * by apply new_ht_ok.
      * unfold entries, ht_entries in *. cbn in *. by rewrite concat_replicate_nil.
      * unfold alist, entries, ht_entries in *. cbn in *. by rewrite concat_replicate_nil.
      * right. exists tb0. split_and!; cbn; try done; try lia.
        destruct Hok0 as (? & _). cbn in *. rewrite DICTHT_SIZE_pow by lia. lia.
    + by rewrite concat_replicate_nil.
  - wp_go.
    split_and!; [|split_and!; try done; cbn; unfold entries, ht_entries; cbn|by left].
    + split; cbn; try done.
      * by apply new_ht_ok.
      * unfold entries, ht_entries in *. cbn in *. by rewrite concat_replicate_nil.
      * unfold alist, entries, ht_entries in *. cbn in *. by rewrite concat_replicate_nil.
      * by left.
    + by rewrite concat_replicate_nil.
Qed.

Lemma _dictExpandIfNeeded_spec w :
  wf w -> ht_used (ht0 (w_dict w)) < 2 ^ 60 ->
  wp (_dictExpandIfNeeded type) w (λ r w',
    r = DICT_OK /\ wf w' /\ rehashed w w' /\ is_Some (ht_table (ht0 (w_dict w')))).
Proof.
  intros Hwf Hu. pose proof (rehashed_refl w) as Hrefl.
  unfold _dictExpandIfNeeded. apply wp_bind, wp_get.
  destruct (dictIsRehashing (w_dict w)) eqn:Hr.
  { apply wp_ret. split_and!; [done..|].
    destruct (wf_rehash _ _ _ Hwf) as [[Hri _]|(tb0 & -> & _)]; [|done].
    unfold dictIsRehashing in Hr. by rewrite Hri in Hr. }
  assert (Hexp : forall size, ht_used (ht0 (w_dict w)) <= size <= 2 ^ 60 ->
    _dictNextExp size <> ht_size_exp (ht0 (w_dict w)) ->
    wp (dictExpand size) w (λ r w', r = DICT_OK /\ wf w' /\ rehashed w w' /\
      is_Some (ht_table (ht0 (w_dict w'))))).
  { intros size Hs Hne. apply wp_bind. eapply wp_mono; [by apply _dictExpand_spec|].
    intros [r b] w' (Hwf' & Hr' & [[Hok Hsome]|(_ & _ & Hno)]); [|exfalso; apply Hno; done].
    apply wp_ret. by split_and!. }
  pose proof (wf_ht0 _ _ _ Hwf) as Hok0. unfold DictWf.ht_ok in Hok0.
  destruct (ht_table (ht0 (w_dict w))) as [tb0|] eqn:Ht0.
  2:{ destruct Hok0 as [Hx Hu0]. rewrite Hx. cbn. apply Hexp; [rewrite Hu0; vm_compute; split; congruence|].
      rewrite Hx. vm_compute. congruence. }
  destruct Hok0 as (Hx0 & Hl0 & Hu0 & _).
  rewrite DICTHT_SIZE_pow in * by lia.
  assert (0 < 2 ^ ht_size_exp (ht0 (w_dict w))) by (apply Z.pow_pos_nonneg; lia).
  rewrite (proj2 (Z.eqb_neq (2 ^ _) 0)) by lia.
  assert (Hret : wp (mret DICT_OK) w (λ r w', r = DICT_OK /\ wf w' /\ rehashed w w' /\
      is_Some (ht_table (ht0 (w_dict w'))))).
  { apply wp_ret. split_and!; [done..|]. by rewrite Ht0. }
  assert (Hgrow : 2 ^ ht_size_exp (ht0 (w_dict w)) <= ht_used (ht0 (w_dict w)) ->
    wp (dictExpand (ht_used (ht0 (w_dict w)) + 1)) w (λ r w', r = DICT_OK /\ wf w' /\
      rehashed w w' /\ is_Some (ht_table (ht0 (w_dict w'))))).
  { intros Hle. apply Hexp; [lia|]. intros E.
    destruct (_dictNextExp_spec (ht_used (ht0 (w_dict w)) + 1)) as (_ & H2 & _); [cbn in *; lia|].
    rewrite E in H2. lia. }
  assert (Hratio : (dict_force_resize_ratio <? ht_used (ht0 (w_dict w)) / 2 ^ ht_size_exp (ht0 (w_dict w))) = true ->
    2 ^ ht_size_exp (ht0 (w_dict w)) <= ht_used (ht0 (w_dict w))).
  { intros E%Z.ltb_lt. unfold dict_force_resize_ratio in E.
    destruct (Z.le_gt_cases (2 ^ ht_size_exp (ht0 (w_dict w))) (ht_used (ht0 (w_dict w)))); [done|].
    rewrite Z.div_small in E by lia. lia. }
  apply wp_bind. unfold dictTypeExpandAllowed. apply wp_bind, wp_getd.
  assert (Hcase : forall b : bool, wp (if negb b then mret DICT_OK
    else if (bool_decide (dict_can_resize w = DICT_RESIZE_ENABLE) &&
             (2 ^ ht_size_exp (ht0 (w_dict w)) <=? ht_used (ht0 (w_dict w)))) ||
            (negb (bool_decide (dict_can_resize w = DICT_RESIZE_FORBID)) &&
             (dict_force_resize_ratio <? ht_used (ht0 (w_dict w)) / 2 ^ ht_size_exp (ht0 (w_dict w))))
         then dictExpand (ht_used (ht0 (w_dict w)) + 1) else mret DICT_OK) w
    (λ r w', r = DICT_OK /\ wf w' /\ rehashed w w' /\ is_Some (ht_table (ht0 (w_dict w'))))).
  { intros [|]; [|exact Hret]. cbn [negb]. destruct (_ || _) eqn:E; [|exact Hret].
    apply Hgrow. apply orb_true_iff in E as [[_ ?%Z.leb_le]%andb_true_iff|[_ ?]%andb_true_iff]; auto. }
  destruct (expandAllowed type); apply wp_ret, Hcase.
Qed.

(** ** Searching *)

Lemma chain_search_spec key chain : forall pos w,
  Forall (λ l, is_Some (w_heap w !! l)) chain ->
  wp (chain_search type key chain pos) w (λ r w', w' = w /\
    match r with
    | Some (p, l) => exists n e, p = (pos + n)%nat /\ chain !! n = Some l /\
        w_heap w !! l = Some e /\ canon (e_key e) = canon key
    | None => forall l e, l ∈ chain -> w_heap w !! l = Some e -> canon (e_key e) <> canon key
    end).
Proof.
  induction chain as [|he chain IH]; intros pos w Hh; cbn [chain_search].
  { apply wp_ret. split; [done|]. intros l e Hl. by apply not_elem_of_nil in Hl. }
  inversion Hh as [|? ? [e E] Hh']; subst. eapply wp_bind, wp_load; [exact E|].
  destruct (key_matches type key (e_key e)) eqn:Hm.
  - apply (key_matches_canon type canon) in Hm. apply wp_ret. split; [done|]. exists 0%nat, e.
    split_and!; [lia|done..].
  - eapply wp_mono; [by apply IH|]. intros r w' [-> Hr]. split; [done|]. destruct r as [[p l]|].
    + destruct Hr as (n & e' & -> & ? & ? & ?). exists (S n), e'. split_and!; [lia|done..].
    + intros l e' [->|Hl]%elem_of_cons He'; [|by apply (Hr l)]. simplify_eq. intros Hc.
      symmetry in Hc. apply (key_matches_canon type canon) in Hc. congruence.
Qed.

Lemma wf_ht w i : wf w -> ht_ok (w_heap w) (ht (w_dict w) i).
Proof. intros Hwf. destruct i; apply Hwf. Qed.

Lemma ht_entries_elem w i l : l ∈ ht_entries (ht (w_dict w) i) -> l ∈ entries (w_dict w).
Proof. unfold entries. rewrite elem_of_app. destruct i; auto. Qed.

(** The bucket of a key: if the key is in the table it is there. *)
Lemma wf_bucket w i tb key :
  wf w -> ht_table (ht (w_dict w) i) = Some tb ->
  let idx := Z.land (dictHashKey type key) (DICTHT_SIZE_MASK (ht_size_exp (ht (w_dict w) i))) in
  exists b, tb !! Z.to_nat idx = Some b /\ 0 <= idx /\
    Forall (λ l, is_Some (w_heap w !! l)) b /\
    (forall l, l ∈ b -> l ∈ ht_entries (ht (w_dict w) i)) /\
    (forall l e, l ∈ ht_entries (ht (w_dict w) i) -> w_heap w !! l = Some e ->
       canon (e_key e) = canon key -> l ∈ b).
Proof.
  intros Hwf Ht idx. pose proof (wf_ht w i Hwf) as Hok.
  destruct (ht_ok_bucket type _ _ _ (dictHashKey type key) Hok Ht) as [b Hb]. fold idx in Hb.
  exists b. destruct (ht_ok_Some type _ _ _ Ht Hok) as (Hx & Hl & _ & Hp).
  assert (Hin : forall l, l ∈ b -> l ∈ ht_entries (ht (w_dict w) i)).
  { intros l Hlb. unfold ht_entries. rewrite Ht. apply elem_of_concat_lookup. eauto. }
  split_and!; [done| | |done|].
  - apply idx_range. lia.
  - apply Forall_forall. intros l Hlb. pose proof (wf_heap _ _ _ Hwf) as Hh.
    rewrite Forall_forall in Hh. eapply Hh, ht_entries_elem, Hin, Hlb.
  - intros l e Hle E Hc. unfold ht_entries in Hle. rewrite Ht in Hle.
    apply elem_of_concat_lookup in Hle as (n & b' & Hn & Hlb).
    pose proof (Hp n b' l e Hn Hlb E) as Hidx.
    rewrite (hash_canon (canon := canon) _ _ Hc) in Hidx.
    change (hashFunction type key) with (dictHashKey type key) in Hidx. fold idx in Hidx.
    rewrite Hidx, Nat2Z.id in Hb. cbn in Hn. by simplify_eq.
Qed.

Lemma table_search_spec key i w :
  wf w -> is_Some (ht_table (ht (w_dict w) i)) ->
  wp (table_search type key (dictHashKey type key) i) w (λ r w', w' = w /\
    match r with
    | Some (_, l) => l ∈ ht_entries (ht (w_dict w) i) /\
        exists e, w_heap w !! l = Some e /\ canon (e_key e) = canon key
    | None => forall l e, l ∈ ht_entries (ht (w_dict w) i) -> w_heap w !! l = Some e ->
                canon (e_key e) <> canon key
    end).
Proof.
  intros Hwf [tb Ht]. destruct (wf_bucket w i tb key Hwf Ht) as (b & Hb & H0 & Hh & Hin & Hall).
  apply wp_bind, wp_getd. eapply wp_bind, wp_get_bucket; [done..|].
  eapply wp_mono; [by apply chain_search_spec|]. intros r w' [-> Hr]. split; [done|].
  destruct r as [[p l]|].
  - destruct Hr as (n & e & _ & Hn & He & Hc). split; [by eapply Hin, list_elem_of_lookup_2|eauto].
  - intros l e Hl He Hc. by apply (Hr l e (Hall l e Hl He Hc) He).
Qed.

(** The entry of a key. *)
Definition found w (key : K) (l : loc) : Prop :=
  l ∈ entries (w_dict w) /\ exists e, w_heap w !! l = Some e /\ canon (e_key e) = canon key /\
  dmap w !! canon key = Some (e_val e).

Lemma found_intro w key l e i :
  wf w -> l ∈ ht_entries (ht (w_dict w) i) -> w_heap w !! l = Some e ->
  canon (e_key e) = canon key -> found w key l.
Proof.
  intros Hwf Hl He Hc. pose proof (ht_entries_elem _ _ _ Hl). split; [done|]. exists e.
  split_and!; [done..|]. apply (dmap_lookup type canon); [done|]. eauto 10.
Qed.

Lemma not_rehashing w : wf w -> dictIsRehashing (w_dict w) = false -> ht_table (ht1 (w_dict w)) = None.
Proof.
  intros Hwf Hr. destruct (wf_rehash _ _ _ Hwf) as [[_ ?]|(?&_&_&?&_)]; [done|].
  unfold dictIsRehashing in Hr. lia.
Qed.

Lemma is_rehashing w : wf w -> dictIsRehashing (w_dict w) = true ->
  is_Some (ht_table (ht0 (w_dict w))) /\ is_Some (ht_table (ht1 (w_dict w))).
Proof.
  intros Hwf Hr. destruct (wf_rehash _ _ _ Hwf) as [[Hri _]|(tb&->&?&_)]; [|done].
  unfold dictIsRehashing in Hr. by rewrite Hri in Hr.
Qed.

Lemma absent_both w key :
  wf w ->
  (forall l e, l ∈ ht_entries (ht0 (w_dict w)) -> w_heap w !! l = Some e -> canon (e_key e) <> canon key) ->
  (forall l e, l ∈ ht_entries (ht1 (w_dict w)) -> w_heap w !! l = Some e -> canon (e_key e) <> canon key) ->
  dmap w !! canon key = None.
Proof.
  intros Hwf H0 H1. apply (dmap_lookup_None type canon); [done|]. intros l e Hl.
  unfold entries in Hl. apply elem_of_app in Hl as [Hl|Hl]; eauto.
Qed.

Lemma absent_ht1 w l : wf w -> dictIsRehashing (w_dict w) = false -> l ∉ ht_entries (ht1 (w_dict w)).
Proof. intros Hwf Hr. unfold ht_entries. rewrite (not_rehashing w Hwf Hr). apply not_elem_of_nil. Qed.

Lemma size_0_empty w : wf w -> dictSize (w_dict w) = 0 -> dmap w = ∅.
Proof.
  intros Hwf Hs. rewrite (dictSize_dmap type canon) in Hs by done. apply map_size_empty_inv. lia.
Qed.

Lemma size_pos_table w : wf w -> dictSize (w_dict w) <> 0 -> is_Some (ht_table (ht0 (w_dict w))).
Proof.
  intros Hwf Hs. destruct (dictIsRehashing (w_dict w)) eqn:Hr; [by apply is_rehashing|].
  pose proof (not_rehashing w Hwf Hr) as Ht1. destruct Hwf as [Hok0 Hok1 _ _ _].
  unfold DictWf.ht_ok in *. rewrite Ht1 in Hok1. unfold dictSize in Hs.
  destruct (ht_table (ht0 (w_dict w))); [eauto|]. lia.
Qed.

(** ** Changing one bucket *)

Definition upd_dict (d : dict) (i : bool) (tb : list (list loc)) (n : nat) (b b' : list loc) : dict :=
  set_ht d i (HT (Some (<[n := b']> tb))
                 (ht_used (ht d i) + Z.of_nat (length b') - Z.of_nat (length b)) (ht_size_exp (ht d i))).

Lemma upd_entries d i tb n b b' :
  ht_table (ht d i) = Some tb -> tb !! n = Some b ->
  entries (upd_dict d i tb n b b') ++ b ≡ₚ entries d ++ b'.
Proof.
  intros Ht Hn. pose proof (concat_insert tb n b b' Hn) as Hc. unfold entries, ht_entries.
  destruct i; simpl in Ht |- *; rewrite Ht; simpl.
  - rewrite <- !app_assoc. by rewrite Hc.
  - rewrite (Permutation_app_comm (concat (<[n:=b']> tb))), (Permutation_app_comm (concat tb)).
    rewrite <- !app_assoc. by rewrite Hc.
Qed.

Lemma upd_wf w i tb n b b' h' ds :
  wf w -> ht_table (ht (w_dict w) i) = Some tb -> tb !! n = Some b ->
  let d' := upd_dict (w_dict w) i tb n b b' in
  (b = [] -> i = false -> dictIsRehashing (w_dict w) = true -> b' = []) ->
  (forall l, l ∈ entries (w_dict w) -> l ∈ entries d' -> e_key <$> h' !! l = e_key <$> w_heap w !! l) ->
  (forall l e, l ∈ b' -> h' !! l = Some e -> l ∈ b \/
     Z.land (hashFunction type (e_key e)) (DICTHT_SIZE_MASK (ht_size_exp (ht (w_dict w) i))) = Z.of_nat n) ->
  Forall (λ l, is_Some (h' !! l)) (entries d') ->
  NoDup (alist canon (World d' h' ds (dict_can_resize w))).*1 ->
  wf (World d' h' ds (dict_can_resize w)).
Proof.
  intros Hwf Ht Hn d' Hre Hkeys Hb' Hh Hnd.
  assert (Hplaced : forall j tbj (Hj : ht_table (ht (w_dict w) j) = Some tbj) m c l e,
    tbj !! m = Some c -> l ∈ c -> l ∈ entries d' -> h' !! l = Some e ->
    Z.land (hashFunction type (e_key e)) (DICTHT_SIZE_MASK (ht_size_exp (ht (w_dict w) j))) = Z.of_nat m).
  { intros j tbj Hj m c l e Hm Hl Hl' He.
    destruct (ht_ok_Some type _ _ _ Hj (wf_ht w j Hwf)) as (_ & _ & _ & Hp).
    assert (Hle : l ∈ entries (w_dict w)).
    { apply (ht_entries_elem w j). unfold ht_entries. rewrite Hj. apply elem_of_concat_lookup. eauto. }
    pose proof (Hkeys l Hle Hl') as Hk. rewrite He in Hk.
    destruct (w_heap w !! l) as [e0|] eqn:E0; [|done]. injection Hk as Hk. rewrite Hk.
    by eapply Hp. }
  assert (Hoki : ht_ok h' (ht d' i)).
  { unfold d', upd_dict. rewrite ht_set_same.
    destruct (ht_ok_Some type _ _ _ Ht (wf_ht w i Hwf)) as (Hx & Hl & Hu & Hp).
    split_and!; cbn; [lia|lia|by rewrite length_insert| |].
    - pose proof (Permutation_length (concat_insert tb n b b' Hn)) as Hlen.
      rewrite !length_app in Hlen. lia.
    - intros m c l e Hm Hlc He. assert (Hl' : l ∈ entries d').
      { apply (ht_entries_elem (World d' h' ds (dict_can_resize w)) i). cbn. unfold d', upd_dict.
        rewrite ht_set_same. unfold ht_entries. cbn. apply elem_of_concat_lookup. eauto. }
      destruct (decide (m = n)) as [->|].
      + rewrite list_lookup_insert_eq in Hm by (by eapply lookup_lt_Some). simplify_eq.
        destruct (Hb' l e Hlc He) as [Hlb|]; [|done]. by eapply Hplaced.
      + rewrite list_lookup_insert_ne in Hm by done. by eapply Hplaced. }
  assert (Hoko : ht_ok h' (ht d' (negb i))).
  { unfold d', upd_dict. rewrite ht_set_other. pose proof (wf_ht w (negb i) Hwf) as Hok.
    unfold DictWf.ht_ok in *. destruct (ht_table (ht (w_dict w) (negb i))) as [tbj|] eqn:Hj; [|done].
    destruct Hok as (? & ? & ? & Hp). split_and!; try done; try lia.
    intros m c l e Hm Hlc He. eapply Hplaced; [done|done|done| |done].
    apply (ht_entries_elem (World d' h' ds (dict_can_resize w)) (negb i)). cbn. unfold d', upd_dict.
    rewrite ht_set_other. unfold ht_entries. rewrite Hj. apply elem_of_concat_lookup. eauto. }
  split; cbn; [by destruct i|by destruct i|done|done|].
  destruct (wf_rehash _ _ _ Hwf) as [[Hri Ht1]|(tb0 & Ht0 & Hs1 & Hri & He)].
  - left. destruct i; simpl in Ht; [congruence|done].
  - right. destruct i; simpl in Ht |- *.
    + exists tb0. split_and!; try done; lia.
    + exists (<[n := b']> tb). split_and!; try done; cbn; try lia. intros m c Hm Hlt.
      rewrite Ht0 in Ht. simplify_eq. destruct (decide (m = n)) as [->|].
      * rewrite list_lookup_insert_eq in Hm by (by eapply lookup_lt_Some). simplify_eq.
        apply Hre; [by eapply He|done|]. unfold dictIsRehashing. lia.
      * rewrite list_lookup_insert_ne in Hm by done. by eapply He.
Qed.

Lemma alist_ext h h' (ls : list loc) :
  (forall l, l ∈ ls -> h' !! l = h !! l) -> omap (kv canon h') ls = omap (kv canon h) ls.
Proof.
  intros Hls. apply list_omap_ext. apply Forall2_same_length_lookup_2; [done|].
  intros i l l' Hl Hl'. simplify_eq. unfold kv. rewrite Hls; [done|]. by eapply list_elem_of_lookup_2.
Qed.

Lemma alist_cons h l (ls : list loc) e :
  h !! l = Some e ->
  omap (kv canon h) (l :: ls) = (canon (e_key e), e_val e) :: omap (kv canon h) ls.
Proof. intros He. simpl. unfold kv at 1. by rewrite He. Qed.

(** A new entry at the head of its bucket. *)
Lemma insert_wf w i tb n b l k v m :
  wf w -> i = dictIsRehashing (w_dict w) -> ht_table (ht (w_dict w) i) = Some tb ->
  tb !! n = Some b -> w_heap w !! l = None -> dmap w !! canon k = None ->
  Z.land (hashFunction type k) (DICTHT_SIZE_MASK (ht_size_exp (ht (w_dict w) i))) = Z.of_nat n ->
  let w' := World (upd_dict (w_dict w) i tb n b (l :: b)) (<[l := Entry k v m]> (w_heap w))
                  (w_destroyed w) (dict_can_resize w) in
  wf w' /\ dmap w' = <[canon k := v]> (dmap w) /\ l ∈ entries (w_dict w').
Proof.
  intros Hwf Hi Ht Hn Hl Hk Hidx w'.
  assert (Hent : entries (w_dict w') ≡ₚ l :: entries (w_dict w)).
  { pose proof (upd_entries (w_dict w) i tb n b (l :: b) Ht Hn) as He. cbn.
    apply (Permutation_app_inv_r b). rewrite He. by rewrite <- Permutation_middle. }
  assert (Hnew : l ∉ entries (w_dict w)).
  { intros Hin. pose proof (wf_heap _ _ _ Hwf) as Hh. rewrite Forall_forall in Hh.
    specialize (Hh l Hin). rewrite Hl in Hh. by destruct Hh. }
  assert (Hal : alist canon w' ≡ₚ (canon k, v) :: alist canon w).
  { unfold alist. rewrite (alist_perm canon _ _ _ Hent).
    rewrite (alist_cons _ _ _ (Entry k v m)) by apply lookup_insert_eq.
    apply perm_skip. rewrite (alist_ext (w_heap w)); [done|].
    intros l' Hl'. apply lookup_insert_ne. by intros ->. }
  assert (Hnd : NoDup (alist canon w').*1).
  { rewrite Hal. simpl. constructor; [|apply Hwf]. intros Hin. apply list_elem_of_fmap in Hin as ([c v'] & Heq & Hin).
    simpl in Heq. subst c. apply elem_of_list_to_map_1 in Hin; [|apply Hwf].
    unfold DictWf.dmap in Hk. by rewrite Hk in Hin. }
  split_and!.
  - apply upd_wf; try done.
    + intros -> -> Hr. by rewrite <- Hi in Hr.
    + intros l' Hl' _. rewrite lookup_insert_ne; [done|]. by intros ->.
    + intros l' e [->|?]%elem_of_cons He; [right|by left].
      rewrite lookup_insert_eq in He. by simplify_eq.
    + change (Forall (λ l0, is_Some (w_heap w' !! l0)) (entries (w_dict w'))). rewrite Hent.
      constructor; cbn; [rewrite lookup_insert_eq; eauto|].
      eapply Forall_impl; [apply Hwf|]. intros l' Hs. cbn in *. destruct (decide (l' = l)) as [->|].
      * rewrite lookup_insert_eq. eauto.
      * by rewrite lookup_insert_ne.
  - unfold DictWf.dmap. rewrite (list_to_map_proper _ _ Hnd Hal). done.
  - rewrite Hent. by left.
Qed.

(** Removing an entry; the new heap may have lost it. *)
Lemma remove_wf w i tb n b pos l e h' ds :
  wf w -> ht_table (ht (w_dict w) i) = Some tb -> tb !! n = Some b -> b !! pos = Some l ->
  w_heap w !! l = Some e ->
  (forall l', l' <> l -> h' !! l' = w_heap w !! l') ->
  let w' := World (upd_dict (w_dict w) i tb n b (delete pos b)) h' ds (dict_can_resize w) in
  wf w' /\ dmap w' = delete (canon (e_key e)) (dmap w) /\ l ∉ entries (w_dict w').
Proof.
  intros Hwf Ht Hn Hpos He Hh' w'.
  assert (Hent : entries (w_dict w) ≡ₚ l :: entries (w_dict w')).
  { pose proof (upd_entries (w_dict w) i tb n b (delete pos b) Ht Hn) as Hp. cbn.
    pose proof (delete_Permutation b pos l Hpos) as Hd.
    apply (Permutation_app_inv_r (delete pos b)). etrans; [symmetry; exact Hp|].
    etrans; [apply Permutation_app; [reflexivity|exact Hd]|]. by rewrite <- Permutation_middle. }
  pose proof (entries_NoDup type canon w Hwf) as Hnde. rewrite Hent in Hnde.
  apply NoDup_cons in Hnde as [Hni _].
  assert (Hagree : forall l', l' ∈ entries (w_dict w') -> h' !! l' = w_heap w !! l').
  { intros l' Hl'. apply Hh'. by intros ->. }
  assert (Hal : alist canon w ≡ₚ (canon (e_key e), e_val e) :: alist canon w').
  { unfold alist. rewrite (alist_perm canon _ _ _ Hent), (alist_cons _ _ _ e) by done.
    apply perm_skip. by rewrite <- (alist_ext (w_heap w) h'). }
  pose proof (wf_keys _ _ _ Hwf) as Hnd. pose proof Hnd as Hnd'. rewrite Hal in Hnd'. simpl in Hnd'.
  apply NoDup_cons in Hnd' as [Hnk Hnd'].
  split_and!; [| |done].
  - apply upd_wf; try done.
    + intros -> _ _. by destruct pos.
    + intros l' _ Hl'. by rewrite Hagree.
    + intros l' e' Hl' _. left. rewrite (delete_Permutation b pos l Hpos). by right.
    + apply Forall_forall. intros l' Hl'. rewrite Hagree by done.
      pose proof (wf_heap _ _ _ Hwf) as Hh. rewrite Hent in Hh. inversion Hh as [|? ? _ Hh2].
      rewrite Forall_forall in Hh2. by apply Hh2.
  - unfold DictWf.dmap. rewrite (list_to_map_proper _ _ Hnd Hal). simpl.
    rewrite delete_insert_id; [done|]. by apply not_elem_of_list_to_map_1.
Qed.
End ops.
