(* ===== verification/DictSpec.v ===== *)
(** The dictionary operations as operations on a finite map from key values. *)

From S2P Require Import Prelude State Dict DictWf DictRehash DictOps.

Local Open Scope Z_scope.

Section spec.
Context {K V C : Type} `{EqDecision K} `{Countable C}.
Context (type : dictType K V) (canon : K -> C) `{!DictLaws type canon}.
Implicit Types (w : world K V) (h : gmap loc (dictEntry K V)).

Abbreviation wf := (wf type canon).
Abbreviation dmap := (dmap canon).
Abbreviation found := (found canon).

(** ** Values *)

Lemma alist_keys h (ls : list loc) :
  (omap (kv canon h) ls).*1 = omap (λ l, (λ e, canon (e_key e)) <$> h !! l) ls.
Proof.
  induction ls as [|l ls IH]; [done|]. simpl. unfold kv at 1.
  destruct (h !! l); simpl; [f_equal|]; exact IH.
Qed.

Lemma wf_same_keys w h' ds :
  wf w -> (forall l, l ∈ entries (w_dict w) -> e_key <$> h' !! l = e_key <$> w_heap w !! l) ->
  wf (World (w_dict w) h' ds (dict_can_resize w)).
Proof.
  intros Hwf Hk.
  assert (Hok : forall i, ht_ok type h' (ht (w_dict w) i)).
  { intros i. pose proof (wf_ht type canon w i Hwf) as Hok. unfold ht_ok in *.
    destruct (ht_table (ht (w_dict w) i)) as [tb|] eqn:Ht; [|done].
    destruct Hok as (? & ? & ? & Hp). split_and!; try done; try lia. intros n b l e Hn Hl He.
    assert (Hin : l ∈ entries (w_dict w)).
    { apply (ht_entries_elem w i). unfold ht_entries. rewrite Ht. apply elem_of_concat_lookup. eauto. }
    specialize (Hk l Hin). rewrite He in Hk. destruct (w_heap w !! l) as [e0|] eqn:E; [|done].
    injection Hk as ->. by eapply Hp. }
  split; cbn; [apply (Hok false)|apply (Hok true)| | |apply Hwf].
  - apply Forall_forall. intros l Hl. specialize (Hk l Hl).
    pose proof (wf_heap _ _ _ Hwf) as Hh. rewrite Forall_forall in Hh. destruct (Hh l Hl) as [e E].
    rewrite E in Hk. destruct (h' !! l); [eauto|done].
  - unfold alist. cbn. rewrite alist_keys. pose proof (wf_keys _ _ _ Hwf) as Hnd. unfold alist in Hnd.
    rewrite alist_keys in Hnd. erewrite list_omap_ext; [exact Hnd|].
    apply Forall2_same_length_lookup_2; [done|]. intros i l l' Hl Hl'. simplify_eq.
    specialize (Hk l ltac:(by eapply list_elem_of_lookup_2)).
    destruct (h' !! l), (w_heap w !! l); simplify_eq/=; congruence.
Qed.

Lemma setval_wf w l e v m ds :
  wf w -> l ∈ entries (w_dict w) -> w_heap w !! l = Some e ->
  let w' := World (w_dict w) (<[l := Entry (e_key e) v m]> (w_heap w)) ds (dict_can_resize w) in
  wf w' /\ dmap w' = <[canon (e_key e) := v]> (dmap w).
Proof.
  intros Hwf Hl He w'.
  assert (Hwf' : wf w').
  { apply wf_same_keys; [done|]. intros l' Hl'. destruct (decide (l' = l)) as [->|].
    - by rewrite lookup_insert_eq, He.
    - by rewrite lookup_insert_ne. }
  split; [done|]. apply map_eq. intros c. apply option_eq. intros v'.
  rewrite (dmap_lookup type canon), lookup_insert_Some, (dmap_lookup type canon) by done.
  cbn. split.
  - intros (l' & e' & Hl' & He' & Hc & Hv). destruct (decide (l' = l)) as [->|].
    + rewrite lookup_insert_eq in He'. simplify_eq/=. by left.
    + rewrite lookup_insert_ne in He' by done. right. split; [|eauto 10]. intros Heq.
      assert (l = l'); [|done]. apply (keys_inj type canon w l l' e e'); [done..|congruence].
  - intros [[<- <-]|(Hne & l' & e' & Hl' & He' & Hc & Hv)].
    + exists l, (Entry (e_key e) v m). rewrite lookup_insert_eq. done.
    + exists l', e'. rewrite lookup_insert_ne by (intros ->; congruence). done.
Qed.

Lemma dictSetVal_spec w l e v :
  wf w -> l ∈ entries (w_dict w) -> w_heap w !! l = Some e ->
  let v' := match valDup type with Some dup => dup v | None => v end in
  wp (dictSetVal type l v) w (λ _ w', wf w' /\ dmap w' = <[canon (e_key e) := Some v']> (dmap w) /\
    w_dict w' = w_dict w /\ w_destroyed w' = w_destroyed w /\ dict_can_resize w' = dict_can_resize w).
Proof.
  intros Hwf Hl He v'. eapply wp_bind, wp_load; [done|]. eapply wp_store; [done|].
  destruct (setval_wf w l e (Some v') (e_metadata e) (w_destroyed w) Hwf Hl He). done.
Qed.

(** ** Finding *)

Lemma rehashed_found w w' key l : wf w -> rehashed w w' -> found w key l -> found w' key l.
Proof.
  intros Hwf Hr (Hl & e & He & Hc & Hd). pose proof Hr as (Hh & _ & _ & _ & Hp). split.
  - by rewrite Hp.
  - exists e. rewrite Hh, (rehashed_dmap type canon w w') by done. done.
Qed.

Lemma dictFind_spec key w :
  wf w ->
  wp (dictFind type key) w (λ r w', wf w' /\ rehashed w w' /\
    match r with
    | Some l => found w' key l
    | None => dmap w !! canon key = None
    end).
Proof.
  intros Hwf. apply wp_bind, wp_getd.
  destruct (Z.eqb_spec (dictSize (w_dict w)) 0) as [Hs|Hs].
  { apply wp_ret. split_and!; [done|apply rehashed_refl|].
    by rewrite (size_0_empty type canon). }
  apply wp_bind. eapply wp_mono; [by apply (rehash_if_needed_spec type canon)|].
  intros _ w1 [Hwf1 Hr1]. rewrite <- (rehashed_dmap type canon w w1) by done.
  assert (Hs1 : is_Some (ht_table (ht0 (w_dict w1)))).
  { apply (size_pos_table type canon); [done|]. rewrite (dictSize_dmap type canon) in * by done.
    by rewrite (rehashed_dmap type canon w w1). }
  apply wp_bind. eapply wp_mono; [by apply (table_search_spec type canon key false)|].
  intros r w2 [-> Hf]. destruct r as [[p l]|].
  { apply wp_ret. destruct Hf as (Hl & e & He & Hc). split_and!; [done..|].
    by eapply (found_intro type canon w1 key l e false). }
  apply wp_bind, wp_getd. destruct (dictIsRehashing (w_dict w1)) eqn:Hre; cbn [negb].
  - destruct (is_rehashing type canon w1 Hwf1 Hre) as [_ Ht1].
    apply wp_bind. eapply wp_mono; [by apply (table_search_spec type canon key true)|].
    intros r w2 [-> Hf1]. apply wp_ret. destruct r as [[p l]|]; cbn.
    + destruct Hf1 as (Hl & e & He & Hc). split_and!; [done..|].
      by eapply (found_intro type canon w1 key l e true).
    + split_and!; [done..|]. by apply (absent_both type canon).
  - apply wp_ret. split_and!; [done..|]. apply (absent_both type canon); [done..|].
    intros l e Hl. by apply (absent_ht1 type canon w1 l Hwf1 Hre) in Hl.
Qed.

(** ** Adding *)

Lemma _dictKeyIndex_spec key w :
  wf w -> ht_used (ht0 (w_dict w)) < 2 ^ 60 ->
  wp (_dictKeyIndex type key (dictHashKey type key)) w (λ r w', wf w' /\ rehashed w w' /\
    ((fst r = -1 /\ exists l, snd r = Some l /\ found w' key l) \/
     (fst r <> -1 /\ snd r = None /\ dmap w' !! canon key = None /\
      let t := ht (w_dict w') (dictIsRehashing (w_dict w')) in
      is_Some (ht_table t) /\
      fst r = Z.land (dictHashKey type key) (DICTHT_SIZE_MASK (ht_size_exp t))))).
Proof.
  intros Hwf Hu. apply wp_bind. eapply wp_mono; [by apply (_dictExpandIfNeeded_spec type canon)|].
  intros r w1 (-> & Hwf1 & Hr1 & Hs0). cbn [Z.eqb DICT_OK DICT_ERR]. apply wp_bind, wp_getd.
  assert (Hidx : forall i, is_Some (ht_table (ht (w_dict w1) i)) ->
    Z.land (dictHashKey type key) (DICTHT_SIZE_MASK (ht_size_exp (ht (w_dict w1) i))) <> -1).
  { intros i [tb Ht]. pose proof (wf_ht type canon w1 i Hwf1) as Hok.
    destruct (ht_ok_Some type _ _ _ Ht Hok) as (Hx & _).
    pose proof (idx_range (dictHashKey type key) (ht_size_exp (ht (w_dict w1) i)) ltac:(lia)). lia. }
  apply wp_bind. eapply wp_mono; [by apply (table_search_spec type canon key false)|].
  intros r w2 [-> Hf]. destruct r as [[p l]|].
  { apply wp_ret. destruct Hf as (Hl & e & He & Hc). split_and!; [done..|]. left. split; [done|].
    exists l. split; [done|]. by eapply (found_intro type canon w1 key l e false). }
  destruct (dictIsRehashing (w_dict w1)) eqn:Hre; cbn [negb].
  - destruct (is_rehashing type canon w1 Hwf1 Hre) as [_ Ht1].
    apply wp_bind. eapply wp_mono; [by apply (table_search_spec type canon key true)|].
    intros r w2 [-> Hf1]. destruct r as [[p l]|]; apply wp_ret; (split_and!; [done..|]).
    + left. split; [done|]. exists l. split; [done|]. destruct Hf1 as (Hl & e & He & Hc).
      by eapply (found_intro type canon w1 key l e true).
    + right. rewrite Hre. split_and!; [by apply Hidx|done|by apply (absent_both type canon)|done|done].
  - apply wp_ret. split_and!; [done..|]. right. rewrite Hre.
    split_and!; [by apply (Hidx false)|done| |done|done].
    apply (absent_both type canon); [done..|].
    intros l e Hl. by apply (absent_ht1 type canon w1 l Hwf1 Hre) in Hl.
Qed.

(** Room for one more element: far below the address space. *)
Definition small w : Prop := dictSize (w_dict w) < 2 ^ 60.

Lemma small_used w : wf w -> small w -> ht_used (ht0 (w_dict w)) < 2 ^ 60.
Proof.
  intros Hwf Hs. unfold small, dictSize in Hs. pose proof (wf_ht1 _ _ _ Hwf) as Hok.
  unfold ht_ok in Hok. destruct (ht_table (ht1 (w_dict w))); intuition lia.
Qed.

Lemma rehashed_small w w' : wf w -> wf w' -> rehashed w w' -> small w -> small w'.
Proof.
  intros Hwf Hwf' Hr. unfold small. rewrite !(dictSize_dmap type canon) by done.
  by rewrite (rehashed_dmap type canon w w').
Qed.

Lemma dictAddRaw_spec key w :
  wf w -> small w ->
  wp (dictAddRaw type key) w (λ r w', wf w' /\ w_destroyed w' = w_destroyed w /\
    match fst r with
    | Some l =>
        snd r = None /\ dmap w !! canon key = None /\ dmap w' = <[canon key := None]> (dmap w) /\
        l ∈ entries (w_dict w') /\ w_heap w !! l = None /\
        exists e, w_heap w' !! l = Some e /\ canon (e_key e) = canon key
    | None => rehashed w w' /\ exists l, snd r = Some l /\ found w' key l
    end).
Proof.
  intros Hwf Hs. apply wp_bind. eapply wp_mono; [by apply (rehash_if_needed_spec type canon)|].
  intros _ w1 [Hwf1 Hr1]. pose proof (rehashed_small w w1 Hwf Hwf1 Hr1 Hs) as Hs1.
  apply wp_bind. eapply wp_mono; [by apply _dictKeyIndex_spec; [|apply small_used]|].
  intros [index existing] w2 (Hwf2 & Hr2 & Hcase). cbn [fst snd] in Hcase.
  pose proof (rehashed_trans _ _ _ Hr1 Hr2) as Hr12.
  destruct Hcase as [(-> & l & -> & Hf)|(Hne & -> & Habs & [tb Ht] & Hidx)].
  { cbn. apply wp_ret. split_and!; [done|apply Hr12|]. cbn. split; [done|]. eauto. }
  rewrite (proj2 (Z.eqb_neq index (-1))) by done. apply wp_bind, wp_getd.
  set (i := dictIsRehashing (w_dict w2)) in *.
  apply wp_bind, wp_alloc. intros l Hl.
  destruct (wf_bucket type canon w2 i tb key Hwf2 Ht) as (b & Hb & H0 & _ & _ & _).
  rewrite <- Hidx in Hb, H0.
  eapply wp_bind, wp_get_bucket; [exact Ht|exact Hb|done|].
  eapply wp_bind, wp_set_bucket; [exact Ht|exact Hb|done|].
  apply wp_bind, wp_add_used. apply wp_bind. eapply wp_bind, wp_load; [apply lookup_insert_eq|].
  eapply wp_store; [apply lookup_insert_eq|]. apply wp_ret. cbn [fst snd].
  set (k := match keyDup type with Some dup => dup key | None => key end).
  assert (Hk : canon k = canon key).
  { unfold k. destruct (keyDup type) as [f|] eqn:E; [|done]. by eapply keyDup_canon. }
  destruct (insert_wf type canon w2 i tb (Z.to_nat index) b l k None (replicate (dictMetadataSize type) 0))
    as (Hwf' & Hd & Hin); [done..|by rewrite Hk| |].
  { change (hashFunction type k) with (dictHashKey type k).
    replace (dictHashKey type k) with (dictHashKey type key); [lia|].
    symmetry. apply (hash_canon (canon := canon)), Hk. }
  rewrite Hk in Hd. 
  match goal with |- DictWf.wf _ _ ?w' /\ _ =>
    assert (w' = World (upd_dict (w_dict w2) i tb (Z.to_nat index) b (l :: b))
      (<[l := Entry k None (replicate (dictMetadataSize type) 0)]> (w_heap w2)) (w_destroyed w2)
      (dict_can_resize w2)) as -> end.
  { unfold with_ht, with_dict, upd_dict. cbn. rewrite insert_insert_eq. f_equal.
    rewrite ht_set_same, set_ht_set_ht. cbn. f_equal. f_equal. lia. }
  pose proof (rehashed_dmap type canon w w2 Hwf Hr12) as Hdm. destruct Hr12 as (Hh & Hds & _).
  split_and!; first [done | by rewrite <- Hdm | by rewrite Hd, Hdm | by rewrite <- Hh | idtac].
  eexists. cbn. rewrite lookup_insert_eq. done.
Qed.

(** ** Deleting *)

(** What the destructors are called on when an entry is freed. *)
Definition freed (e : dictEntry K V) : list (K + V) :=
  (if keyDestructor type then [inl (e_key e)] else []) ++
  (if valDestructor type then match e_val e with Some v => [inr v] | None => [] end else []).

Lemma dictFreeUnlinkedEntry_spec l e w :
  w_heap w !! l = Some e ->
  dictFreeUnlinkedEntry type (Some l) w =
    Some (tt, World (w_dict w) (delete l (w_heap w)) (w_destroyed w ++ freed e) (dict_can_resize w)).
Proof.
  intros He. unfold dictFreeUnlinkedEntry, dictFreeKey, dictFreeVal, freed, zfree, load, destroy, puth, get.
  unfold mbind, ST_bind, mret, ST_ret. cbn. rewrite He. cbn.
  destruct (keyDestructor type), (valDestructor type), (e_val e); cbn; rewrite He; cbn;
    by rewrite ?app_nil_r, <- ?app_assoc.
Qed.

Definition delete_post (key : K) (nofree : bool) w (r : option loc) w' : Prop :=
  match r with
  | None => dmap w !! canon key = None /\ rehashed w w'
  | Some l => dmap w' = delete (canon key) (dmap w) /\ (l ∉ entries (w_dict w')) /\
      exists e, w_heap w !! l = Some e /\ canon (e_key e) = canon key /\
        dmap w !! canon key = Some (e_val e) /\
        w_heap w' = (if nofree then w_heap w else delete l (w_heap w)) /\
        w_destroyed w' = w_destroyed w ++ (if nofree then [] else freed e)
  end.

Lemma delete_in_spec key nofree i w :
  wf w -> is_Some (ht_table (ht (w_dict w) i)) ->
  wp (delete_in type key (dictHashKey type key) nofree i) w (λ r w',
    match r with
    | None => w' = w /\ forall l e, l ∈ ht_entries (ht (w_dict w) i) -> w_heap w !! l = Some e ->
                canon (e_key e) <> canon key
    | Some l => wf w' /\ delete_post key nofree w r w'
    end).
Proof.
  intros Hwf [tb Ht].
  destruct (wf_bucket type canon w i tb key Hwf Ht) as (b & Hb & H0 & Hh & Hin & Hall).
  apply wp_bind, wp_getd. eapply wp_bind, wp_get_bucket; [done..|].
  apply wp_bind. eapply wp_mono; [by apply (chain_search_spec type canon)|].
  intros r w1 [-> Hr]. destruct r as [[p l]|].
  2:{ apply wp_ret. split; [done|]. intros l e Hl He Hc. by apply (Hr l e (Hall l e Hl He Hc) He). }
  destruct Hr as (n & e & -> & Hn & He & Hc). cbn [Nat.add].
  eapply wp_bind, wp_set_bucket; [done..|].
  set (idx := Z.to_nat _) in *. set (h' := if nofree then w_heap w else delete l (w_heap w)).
  set (ds' := w_destroyed w ++ (if nofree then [] else freed e)).
  apply wp_bind. 
  exists tt, (World (w_dict (with_ht w i (HT (Some (<[idx := delete n b]> tb)) (ht_used (ht (w_dict w) i))
    (ht_size_exp (ht (w_dict w) i))))) h' ds' (dict_can_resize w)). split.
  { unfold h', ds'. destruct nofree.
    - rewrite app_nil_r. done.
    - by rewrite (dictFreeUnlinkedEntry_spec l e). }
  apply wp_bind, wp_add_used, wp_ret.
  destruct (remove_wf type canon w i tb idx b n l e h' ds') as (Hwf' & Hd & Hni); [done..| |].
  { intros l' Hne. unfold h'. destruct nofree; [done|]. by apply lookup_delete_ne. }
  match goal with |- DictWf.wf _ _ ?w' /\ _ =>
    assert (w' = World (upd_dict (w_dict w) i tb idx b (delete n b)) h' ds' (dict_can_resize w)) as -> end.
  { unfold with_ht, with_dict, upd_dict. cbn. f_equal. rewrite ht_set_same, set_ht_set_ht. cbn.
    f_equal. f_equal. pose proof (lookup_lt_Some _ _ _ Hn).
    rewrite (length_delete b n) by (by eexists). lia. }
  split; [done|]. cbn. rewrite <- Hc. split_and!; [done..|]. exists e. split_and!; try done.
  apply (dmap_lookup type canon); [done|]. exists l, e. split_and!; [|done..].
  eapply (ht_entries_elem w i), Hin, list_elem_of_lookup_2, Hn.
Qed.

Lemma dictGenericDelete_spec key nofree w :
  wf w ->
  wp (dictGenericDelete type key nofree) w (λ r w', wf w' /\ delete_post key nofree w r w').
Proof.
  intros Hwf. apply wp_bind, wp_getd.
  destruct (Z.eqb_spec (dictSize (w_dict w)) 0) as [Hs|Hs].
  { apply wp_ret. split; [done|]. split; [by rewrite (size_0_empty type canon)|apply rehashed_refl]. }
  apply wp_bind. eapply wp_mono; [by apply (rehash_if_needed_spec type canon)|].
  intros _ w1 [Hwf1 Hr1]. pose proof (rehashed_dmap type canon w w1 Hwf Hr1) as Hdm.
  assert (Hpost : forall r w', delete_post key nofree w1 r w' -> delete_post key nofree w r w').
  { destruct Hr1 as (Hh & Hds & Hcr & Hpr & Hp). intros [l|] w'; cbn.
    - by rewrite Hdm, Hh, Hds.
    - rewrite Hdm. intros [? (Hh' & Hds' & Hcr' & Hpr' & Hp')]. split; [done|].
      split_and!; try congruence. by rewrite Hp'. }
  assert (Hs1 : is_Some (ht_table (ht0 (w_dict w1)))).
  { apply (size_pos_table type canon); [done|]. rewrite (dictSize_dmap type canon) in * by done.
    by rewrite Hdm. }
  apply wp_bind. eapply wp_mono; [by apply (delete_in_spec key nofree false)|].
  intros [l|] w2.
  { intros [Hwf2 Hd]. apply wp_ret. split; [done|]. by apply Hpost. }
  intros [-> Hno]. apply wp_bind, wp_getd. destruct (dictIsRehashing (w_dict w1)) eqn:Hre; cbn [negb].
  - destruct (is_rehashing type canon w1 Hwf1 Hre) as [_ Ht1].
    eapply wp_mono; [by apply (delete_in_spec key nofree true)|]. intros [l|] w2.
    + intros [Hwf2 Hd]. split; [done|]. by apply Hpost.
    + intros [-> Hno1]. split; [done|]. apply Hpost. cbn. split; [|apply rehashed_refl].
      by apply (absent_both type canon).
  - apply wp_ret. split; [done|]. apply Hpost. cbn. split; [|apply rehashed_refl].
    apply (absent_both type canon); [done..|].
    intros l e Hl. by apply (absent_ht1 type canon w1 l Hwf1 Hre) in Hl.
Qed.

(** ** Clearing *)

Fixpoint freed_all h (ls : list loc) : list (K + V) :=
  match ls with
  | [] => []
  | l :: ls' => match h !! l with Some e => freed e | None => [] end ++ freed_all h ls'
  end.

Definition remove_all h (ls : list loc) : gmap loc (dictEntry K V) :=
  foldr delete h ls.

Lemma remove_all_lookup h ls l : remove_all h ls !! l = if decide (l ∈ ls) then None else h !! l.
Proof.
  induction ls as [|x ls IH]; simpl; [done|]. destruct (decide (l = x)) as [->|Hne].
  - rewrite lookup_delete_eq. rewrite decide_True by (by left). done.
  - rewrite lookup_delete_ne, IH by done. apply decide_ext. rewrite elem_of_cons. tauto.
Qed.

Lemma remove_all_delete h ls x : remove_all (delete x h) ls = delete x (remove_all h ls).
Proof. induction ls as [|y ls IH]; simpl; [done|]. by rewrite IH, delete_delete. Qed.

Lemma freed_all_delete h ls x : x ∉ ls -> freed_all (delete x h) ls = freed_all h ls.
Proof.
  induction ls as [|y ls IH]; intros Hx; simpl; [done|].
  apply not_elem_of_cons in Hx as [? ?]. rewrite lookup_delete_ne, IH by done. done.
Qed.

Lemma clear_chain_spec i chain : forall w,
  Forall (λ l, is_Some (w_heap w !! l)) chain -> NoDup chain ->
  wp (clear_chain type i chain) w (λ _ w',
    w' = World (set_ht (w_dict w) i (HT (ht_table (ht (w_dict w) i))
                 (ht_used (ht (w_dict w) i) - Z.of_nat (length chain)) (ht_size_exp (ht (w_dict w) i))))
           (remove_all (w_heap w) chain) (w_destroyed w ++ freed_all (w_heap w) chain)
           (dict_can_resize w)).
Proof.
  induction chain as [|l chain IH]; intros w Hh Hnd; cbn [clear_chain].
  { apply wp_ret. cbn. rewrite app_nil_r, Z.sub_0_r.
    destruct w as [[[] [] ? ?] ? ? ?]. by destruct i. }
  inversion Hh as [|? ? [e E] Hh']; subst. apply NoDup_cons in Hnd as [Hni Hnd].
  apply wp_bind. eexists tt, _. split; [by apply dictFreeUnlinkedEntry_spec|].
  apply wp_bind, wp_add_used. eapply wp_mono; [apply IH|].
  - cbn. rewrite Forall_forall in Hh' |- *. intros l' Hl'.
    rewrite lookup_delete_ne by (by intros ->). by apply Hh'.
  - done.
  - intros _ w' ->. unfold with_ht, with_dict. cbn. rewrite !ht_set_same, set_ht_set_ht. cbn.
    f_equal.
    + do 2 f_equal. lia.
    + apply remove_all_delete.
    + rewrite freed_all_delete by done. simpl. rewrite E. by rewrite <- app_assoc.
Qed.

Lemma freed_all_app h l1 l2 : freed_all h (l1 ++ l2) = freed_all h l1 ++ freed_all h l2.
Proof. induction l1 as [|x l1 IH]; simpl; [done|]. by rewrite IH, app_assoc. Qed.

Lemma freed_all_remove h l1 l2 :
  (forall l, l ∈ l1 -> l ∉ l2) -> freed_all (remove_all h l1) l2 = freed_all h l2.
Proof.
  intros Hd. induction l1 as [|x l1 IH]; simpl; [done|].
  rewrite freed_all_delete by (apply Hd; by left). apply IH. intros l Hl. apply Hd. by right.
Qed.

Lemma remove_all_app h l1 l2 : remove_all h (l1 ++ l2) = remove_all (remove_all h l1) l2.
Proof.
  induction l1 as [|x l1 IH]; simpl; [done|]. by rewrite remove_all_delete, IH.
Qed.

(** The loop over the buckets, from bucket [j] on. *)
Lemma clear_loop_spec i tb n : forall j w,
  ht_table (ht (w_dict w) i) = Some tb -> (j + n = length tb)%nat ->
  ht_used (ht (w_dict w) i) = Z.of_nat (length (concat (drop j tb))) ->
  Forall (λ l, is_Some (w_heap w !! l)) (concat (drop j tb)) -> NoDup (concat (drop j tb)) ->
  wp (clear_loop type i n (Z.of_nat j)) w (λ _ w', exists u,
    w' = World (set_ht (w_dict w) i (HT (Some tb) u (ht_size_exp (ht (w_dict w) i))))
           (remove_all (w_heap w) (concat (drop j tb)))
           (w_destroyed w ++ freed_all (w_heap w) (concat (drop j tb))) (dict_can_resize w)).
Proof.
  induction n as [|n IH]; intros j w Ht Hj Hu Hh Hnd; cbn [clear_loop].
  { rewrite drop_ge by lia. apply wp_ret. exists (ht_used (ht (w_dict w) i)). cbn. rewrite app_nil_r.
    destruct w as [[[] [] ? ?] ? ? ?]. destruct i; simpl in Ht |- *; by rewrite Ht. }
  apply wp_bind, wp_getd. destruct (Z.leb_spec (ht_used (ht (w_dict w) i)) 0) as [Hu0|Hu0].
  { destruct (concat (drop j tb)); [|simpl in *; lia]. apply wp_ret.
    exists (ht_used (ht (w_dict w) i)). cbn. rewrite app_nil_r.
    destruct w as [[[] [] ? ?] ? ? ?]. destruct i; simpl in Ht |- *; by rewrite Ht. }
  destruct (lookup_lt_is_Some_2 tb j) as [b Hb]; [lia|].
  rewrite (drop_S tb b j) in Hh, Hnd, Hu |- * by done. cbn [concat] in *.
  apply Forall_app in Hh as [Hhb Hh]. apply NoDup_app in Hnd as (Hndb & Hdis & Hnd).
  eapply wp_bind, wp_get_bucket; [done|by rewrite Nat2Z.id|lia|].
  apply wp_bind. eapply wp_mono; [by apply clear_chain_spec|]. intros _ w1 ->.
  replace (Z.of_nat j + 1) with (Z.of_nat (S j)) by lia.
  eapply wp_mono; [apply IH|].
  - cbn. by rewrite ht_set_same.
  - lia.
  - cbn. rewrite ht_set_same. cbn. rewrite length_app in Hu. lia.
  - cbn. rewrite Forall_forall in Hh |- *. intros l Hl. rewrite remove_all_lookup.
    rewrite decide_False by (intros Hl'; by apply (Hdis l Hl')). by apply Hh.
  - done.
  - intros _ w' (u & ->). exists u. cbn. rewrite ht_set_same, set_ht_set_ht. cbn.
    rewrite remove_all_app, freed_all_app, freed_all_remove by done. by rewrite <- app_assoc.
Qed.

Lemma _dictClear_spec i w :
  ht_ok type (w_heap w) (ht (w_dict w) i) ->
  Forall (λ l, is_Some (w_heap w !! l)) (ht_entries (ht (w_dict w) i)) ->
  NoDup (ht_entries (ht (w_dict w) i)) ->
  wp (_dictClear type i) w (λ r w', r = DICT_OK /\
    w' = World (set_ht (w_dict w) i (HT None 0 (-1)))
           (remove_all (w_heap w) (ht_entries (ht (w_dict w) i)))
           (w_destroyed w ++ freed_all (w_heap w) (ht_entries (ht (w_dict w) i))) (dict_can_resize w)).
Proof.
  intros Hok Hh Hnd. apply wp_bind, wp_getd. unfold ht_entries in *.
  destruct (ht_table (ht (w_dict w) i)) as [tb|] eqn:Ht; cbn [default] in *.
  - destruct (ht_ok_Some type _ _ _ Ht Hok) as (_ & Hl & Hu & _).
    apply wp_bind. eapply wp_mono; [apply (clear_loop_spec i tb _ 0)|].
    + done.
    + rewrite <- Hl. lia.
    + done.
    + done.
    + done.
    + intros _ w' (u & ->). apply wp_bind. apply wp_bind, wp_getd, wp_putd, wp_ret. cbn.
      by rewrite set_ht_set_ht.
  - unfold ht_ok in Hok. rewrite Ht in Hok. destruct Hok as [Hx Hu]. rewrite Hx. cbn.
    apply wp_bind, wp_ret. apply wp_bind. apply wp_bind, wp_getd, wp_putd, wp_ret. cbn.
    by rewrite app_nil_r.
Qed.

Lemma dictEmpty_spec w :
  wf w ->
  wp (dictEmpty type) w (λ _ w', wf w' /\ dmap w' = ∅ /\ entries (w_dict w') = [] /\
    w_heap w' = remove_all (w_heap w) (entries (w_dict w)) /\
    w_destroyed w' = w_destroyed w ++ freed_all (w_heap w) (entries (w_dict w))).
Proof.
  intros Hwf. pose proof (entries_NoDup type canon w Hwf) as Hnd. pose proof Hwf as [Hok0 Hok1 Hh _ _].
  unfold entries in *. apply NoDup_app in Hnd as (Hnd0 & Hdis & Hnd1).
  apply Forall_app in Hh as [Hh0 Hh1].
  apply wp_bind. eapply wp_mono; [by apply (_dictClear_spec false)|]. intros _ w1 [_ ->].
  apply wp_bind. eapply wp_mono; [apply (_dictClear_spec true)|].
  - cbn. unfold ht_ok in *. destruct (ht_table (ht1 (w_dict w))) as [tb|] eqn:Ht; [|done].
    destruct Hok1 as (? & ? & ? & Hp). split_and!; try done; try lia.
    intros m b l e Hm Hl He. rewrite remove_all_lookup in He. case_decide; [done|]. by eapply Hp.
  - cbn. rewrite Forall_forall in Hh1 |- *. intros l Hl. rewrite remove_all_lookup.
    rewrite decide_False by (intros Hl'; by apply (Hdis l Hl')). by apply Hh1.
  - done.
  - intros _ w2 [_ ->]. apply wp_bind, wp_getd, wp_putd. cbn.
    rewrite remove_all_app, freed_all_app, freed_all_remove, app_assoc by done.
    split_and!; try done. split; cbn; try done; [constructor|]. by left.
Qed.
End spec.
