(* ===== verification/DictMap.v ===== *)
(** The contract of the dictionary: each operation, and every sequence of
    operations from a new dictionary, against an abstract finite map. *)

From S2P Require Import Prelude State Dict DictWf DictRehash DictOps DictSpec.

Local Open Scope Z_scope.

(** ** A concrete type for the examples: integer keys hashed by themselves. *)

Definition ztype : dictType Z Z :=
  DictType Z Z (λ k, wrapu 64 k) None None (Some Z.eqb) true true None None.

#[export] Instance ztype_laws : DictLaws ztype (λ k : Z, k).
Proof.
  split.
  - intros k1 k2. apply Z.eqb_eq.
  - by intros ? ? ->.
  - intros. apply wrapu_range. lia.
  - done.
Qed.

(** A dictionary as [dictCreate] returns it. *)
Definition new_dict : dict := Dict (HT None 0 (-1)) (HT None 0 (-1)) (-1) 0.
Definition new_world {K V} (cr : dictResizeEnable) : world K V := World new_dict ∅ [] cr.

Lemma new_world_wf {K V C} `{EqDecision K} `{Countable C} (type : dictType K V) (canon : K -> C) cr :
  wf type canon (new_world cr).
Proof. split; cbn; try done; [constructor|]. by left. Qed.

(** [dictCreate] sets up exactly that, whatever the memory held. *)
Lemma dictCreate_new {K V} junk h ds cr :
  dictCreate (K := K) (V := V) junk (World junk h ds cr) = Some (DICT_OK, World new_dict h ds cr).
Proof. by destruct junk as [[] [] ? ?]. Qed.

Section map.
Context {K V C : Type} `{EqDecision K} `{Countable C}.
Context (type : dictType K V) (canon : K -> C) `{!DictLaws type canon}.
Implicit Types (w : world K V) (m : gmap C V).

(** The value that is stored. *)
Definition dup_val (v : V) : V := match valDup type with Some dup => dup v | None => v end.

(** The destructor calls for a replaced value. *)
Definition freed_val (v : option V) : list (K + V) :=
  if valDestructor type then match v with Some v => [inr v] | None => [] end else [].

Lemma dictAdd_spec key v w :
  wf type canon w -> small w ->
  wp (dictAdd type key v) w (λ r w', wf type canon w' /\ w_destroyed w' = w_destroyed w /\
    match dmap canon w !! canon key with
    | None => r = DICT_OK /\ dmap canon w' = <[canon key := Some (dup_val v)]> (dmap canon w)
    | Some _ => r = DICT_ERR /\ dmap canon w' = dmap canon w
    end).
Proof.
  intros Hwf Hs. apply wp_bind. eapply wp_mono; [by apply (dictAddRaw_spec type canon)|].
  intros [[l|] ex] w1 (Hwf1 & Hds & Hr); cbn [fst snd] in Hr.
  - destruct Hr as (-> & Hn & Hd & Hin & _ & e & He & Hc). rewrite Hn.
    apply wp_bind. eapply wp_mono; [by apply (dictSetVal_spec type canon w1 l e v)|].
    intros _ w2 (Hwf2 & Hd2 & _ & Hds2 & _). apply wp_ret. split_and!; [done|congruence|done|].
    by rewrite Hd2, Hc, Hd, insert_insert_eq.
  - destruct Hr as (Hr & l & -> & Hf). pose proof Hf as (_ & e & _ & _ & Hl).
    rewrite (rehashed_dmap type canon w w1) in Hl by done. rewrite Hl. apply wp_ret.
    split_and!; [done..|]. by apply (rehashed_dmap type canon).
Qed.

Lemma dictReplace_spec key v w :
  wf type canon w -> small w ->
  wp (dictReplace type key v) w (λ r w', wf type canon w' /\
    dmap canon w' = <[canon key := Some (dup_val v)]> (dmap canon w) /\
    match dmap canon w !! canon key with
    | None => r = 1 /\ w_destroyed w' = w_destroyed w
    | Some old => r = 0 /\ w_destroyed w' = w_destroyed w ++ freed_val old
    end).
Proof.
  intros Hwf Hs. apply wp_bind. eapply wp_mono; [by apply (dictAddRaw_spec type canon)|].
  intros [[l|] ex] w1 (Hwf1 & Hds & Hr); cbn [fst snd] in Hr.
  - destruct Hr as (-> & Hn & Hd & Hin & _ & e & He & Hc). rewrite Hn.
    apply wp_bind. eapply wp_mono; [by apply (dictSetVal_spec type canon w1 l e v)|].
    intros _ w2 (Hwf2 & Hd2 & _ & Hds2 & _). apply wp_ret.
    split_and!; [done| |done|congruence]. by rewrite Hd2, Hc, Hd, insert_insert_eq.
  - destruct Hr as (Hr & l & -> & Hin & e & He & Hc & Hl).
    rewrite (rehashed_dmap type canon w w1) in Hl by done. rewrite Hl.
    eapply wp_bind, wp_load; [done|].
    apply wp_bind. eapply wp_mono; [by apply (dictSetVal_spec type canon w1 l e v)|].
    intros _ w2 (Hwf2 & Hd2 & _ & Hds2 & Hcr). apply wp_bind.
    rewrite Hc, (rehashed_dmap type canon w w1) in Hd2 by done.
    unfold dictFreeVal, freed_val. destruct (valDestructor type).
    + destruct (e_val e) as [old|].
      * apply wp_destroy, wp_ret. split_and!; [|done|done|cbn; congruence].
        destruct w2. by apply (wf_same_keys type canon (World w_dict w_heap w_destroyed dict_can_resize)).
      * apply wp_ret, wp_ret. split_and!; [done..|]. rewrite app_nil_r. congruence.
    + apply wp_ret, wp_ret. split_and!; [done..|]. rewrite app_nil_r. congruence.
Qed.

Lemma dictFetchValue_spec key w :
  wf type canon w ->
  wp (dictFetchValue type key) w (λ r w', wf type canon w' /\ rehashed w w' /\
    r = (dmap canon w !! canon key) ≫= id).
Proof.
  intros Hwf. apply wp_bind. eapply wp_mono; [by apply (dictFind_spec type canon)|].
  intros [l|] w1 (Hwf1 & Hr & Hf).
  - destruct Hf as (_ & e & He & _ & Hl). eapply wp_bind, wp_load; [done|]. apply wp_ret.
    rewrite <- (rehashed_dmap type canon w w1), Hl by done. by split_and!.
  - apply wp_ret. rewrite Hf. by split_and!.
Qed.

Lemma dictResize_spec w :
  wf type canon w ->
  wp dictResize w (λ _ w', wf type canon w' /\ rehashed w w').
Proof.
  intros Hwf. apply wp_bind, wp_get. cbn zeta.
  match goal with |- wp (if ?b then _ else _) _ _ => destruct b end.
  { apply wp_ret. split; [done|apply rehashed_refl]. }
  apply wp_bind. eapply wp_mono; [by apply (_dictExpand_spec type canon)|].
  intros [] w' (? & ? & _). by apply wp_ret.
Qed.

Lemma dictTryExpand_spec size ok w :
  wf type canon w -> wp (dictTryExpand size ok) w (λ _ w', wf type canon w' /\ rehashed w w').
Proof.
  intros Hwf. apply wp_bind. eapply wp_mono; [by apply (_dictExpand_spec type canon)|].
  intros [] w' (? & ? & _). by apply wp_ret.
Qed.

(** ** Histories *)

Inductive op :=
  | Add (k : K) (v : V) | Replace (k : K) (v : V) | Delete (k : K) | Unlink (k : K)
  | Fetch (k : K) | Resize | TryExpand (size : Z) (alloc_ok : bool) | Rehash (n : nat)
  | SetResizeEnabled (e : dictResizeEnable) | Empty.

Inductive result := RInt (z : Z) | RBool (b : bool) | RVal (v : option V) | RUnit.

(** An operation of the code and the part of its result that depends on the map. *)
Definition run_op (o : op) : M K V result :=
  match o with
  | Add k v => r ← dictAdd type k v; mret (RInt r)
  | Replace k v => r ← dictReplace type k v; mret (RInt r)
  | Delete k => r ← dictDelete type k; mret (RInt r)
  | Unlink k => r ← dictUnlink type k; mret (RBool (bool_decide (is_Some r)))
  | Fetch k => r ← dictFetchValue type k; mret (RVal r)
  | Resize => _ ← dictResize; mret RUnit
  | TryExpand size ok => _ ← dictTryExpand size ok; mret RUnit
  | Rehash n => _ ← dictRehash type n; mret RUnit
  | SetResizeEnabled e => _ ← dictSetResizeEnabled e; mret RUnit
  | Empty => _ ← dictEmpty type; mret RUnit
  end.

(** The same operation on the abstract map. *)
Definition spec_op (o : op) (m : gmap C V) : result * gmap C V :=
  match o with
  | Add k v =>
      match m !! canon k with
      | None => (RInt DICT_OK, <[canon k := dup_val v]> m)
      | Some _ => (RInt DICT_ERR, m)
      end
  | Replace k v =>
      (RInt (match m !! canon k with None => 1 | Some _ => 0 end), <[canon k := dup_val v]> m)
  | Delete k =>
      (RInt (match m !! canon k with None => DICT_ERR | Some _ => DICT_OK end), delete (canon k) m)
  | Unlink k => (RBool (bool_decide (is_Some (m !! canon k))), delete (canon k) m)
  | Fetch k => (RVal (m !! canon k), m)
  | Resize | TryExpand _ _ | Rehash _ | SetResizeEnabled _ => (RUnit, m)
  | Empty => (RUnit, ∅)
  end.

Fixpoint run_ops (os : list op) : M K V (list result) :=
  match os with
  | [] => mret []
  | o :: os' => r ← run_op o; rs ← run_ops os'; mret (r :: rs)
  end.

Fixpoint spec_ops (os : list op) (m : gmap C V) : list result * gmap C V :=
  match os with
  | [] => ([], m)
  | o :: os' => let '(r, m) := spec_op o m in let '(rs, m) := spec_ops os' m in (r :: rs, m)
  end.

(** The dictionary stands for the map. *)
Definition repr w m : Prop := wf type canon w /\ dmap canon w = Some <$> m.

Lemma rehashed_repr w w' m : repr w m -> wf type canon w' -> rehashed w w' -> repr w' m.
Proof. intros [Hwf Hd] Hwf' Hr. split; [done|]. by rewrite (rehashed_dmap type canon w w'). Qed.

Lemma delete_repr w w' m k nofree r :
  repr w m -> wf type canon w' -> delete_post type canon k nofree w r w' ->
  repr w' (delete (canon k) m) /\ (is_Some r <-> is_Some (m !! canon k)).
Proof.
  intros [Hwf Hd] Hwf' Hp. assert (Hl : dmap canon w !! canon k = Some <$> m !! canon k)
    by (by rewrite Hd, lookup_fmap).
  destruct r as [l|]; cbn in Hp.
  - destruct Hp as (Hd' & _ & e & _ & _ & Hk & _). split.
    + split; [done|]. by rewrite Hd', Hd, fmap_delete.
    + rewrite Hk in Hl. destruct (m !! canon k); [|done]. by split; eauto.
  - destruct Hp as [Hk Hr]. rewrite Hk in Hl. destruct (m !! canon k) eqn:E; [done|]. split.
    + rewrite delete_id by done. by apply (rehashed_repr w).
    + by split; intros [].
Qed.

Lemma run_op_spec o w m :
  repr w m -> small w ->
  wp (run_op o) w (λ r w', r = fst (spec_op o m) /\ repr w' (snd (spec_op o m))).
Proof.
  intros Hrep Hs. pose proof Hrep as [Hwf Hd].
  assert (Hl : forall k, dmap canon w !! k = Some <$> m !! k) by (intros; by rewrite Hd, lookup_fmap).
  destruct o as [k v|k v|k|k|k| |size ok|n|e|]; cbn [run_op spec_op]; apply wp_bind.
  - eapply wp_mono; [by apply dictAdd_spec|]. intros r w' (Hwf' & _ & Hr). apply wp_ret.
    rewrite Hl in Hr. destruct (m !! canon k); destruct Hr as [-> Hd']; (split; [done|]);
      (split; [done|]); rewrite Hd', Hd; [done|]. cbn. by rewrite fmap_insert.
  - eapply wp_mono; [by apply dictReplace_spec|]. intros r w' (Hwf' & Hd' & Hr). apply wp_ret. cbn.
    rewrite Hl in Hr. split; [destruct (m !! canon k); by destruct Hr as [-> _]|].
    split; [done|]. by rewrite Hd', Hd, fmap_insert.
  - unfold dictDelete. apply wp_bind. eapply wp_mono; [by apply (dictGenericDelete_spec type canon)|].
    intros r w' [Hwf' Hp]. apply wp_ret, wp_ret. destruct (delete_repr _ _ _ _ _ _ Hrep Hwf' Hp) as [? Hiff].
    cbn. split; [|done]. destruct r, (m !! canon k); try done; destruct Hiff as [H1 H2];
      [by destruct (H1 ltac:(eauto))|by destruct (H2 ltac:(eauto))].
  - eapply wp_mono; [by apply (dictGenericDelete_spec type canon)|].
    intros r w' [Hwf' Hp]. apply wp_ret. destruct (delete_repr _ _ _ _ _ _ Hrep Hwf' Hp) as [? Hiff].
    cbn. split; [|done]. f_equal. by apply bool_decide_ext.
  - eapply wp_mono; [by apply dictFetchValue_spec|]. intros r w' (Hwf' & Hr & ->). apply wp_ret. cbn.
    rewrite Hl. split; [by destruct (m !! canon k)|]. by apply (rehashed_repr w).
  - eapply wp_mono; [by apply dictResize_spec|]. intros r w' (? & ?). apply wp_ret.
    split; [done|]. by apply (rehashed_repr w).
  - eapply wp_mono; [by apply dictTryExpand_spec|]. intros r w' (? & ?). apply wp_ret.
    split; [done|]. by apply (rehashed_repr w).
  - eapply wp_mono; [by apply (dictRehash_spec type canon)|]. intros r w' (? & ? & _). apply wp_ret.
    split; [done|]. by apply (rehashed_repr w).
  - exists tt, (World (w_dict w) (w_heap w) (w_destroyed w) e). split; [done|]. apply wp_ret.
    split; [done|]. split; [|done]. destruct Hwf as [? ? ? ? ?]. by split.
  - eapply wp_mono; [by apply (dictEmpty_spec type canon)|]. intros r w' (Hwf' & Hd' & _).
    apply wp_ret. split; [done|]. split; [done|]. rewrite Hd'. symmetry. apply fmap_empty.
Qed.

Lemma spec_op_size o m : (size (snd (spec_op o m)) <= S (size m))%nat.
Proof.
  assert (Hi : forall k v, (size (<[k := v]> m) <= S (size m))%nat).
  { intros k v. rewrite map_size_insert. destruct (m !! k); cbn; lia. }
  assert (Hd : forall k, (size (delete k m) <= S (size m))%nat).
  { intros k. rewrite map_size_delete. destruct (m !! k); cbn; lia. }
  destruct o; cbn; repeat case_match; cbn; rewrite ?map_size_empty; auto; lia.
Qed.

Lemma run_ops_spec os : forall w m,
  repr w m -> Z.of_nat (size m + length os) < 2 ^ 60 ->
  wp (run_ops os) w (λ rs w', rs = fst (spec_ops os m) /\ repr w' (snd (spec_ops os m))).
Proof.
  induction os as [|o os IH]; intros w m Hrep Hsz; cbn [run_ops spec_ops].
  { by apply wp_ret. }
  cbn [length] in Hsz. assert (Hs : small w).
  { destruct Hrep as [Hwf Hd]. unfold small. rewrite (dictSize_dmap type canon), Hd by done.
    rewrite map_size_fmap. lia. }
  apply wp_bind. eapply wp_mono; [by apply run_op_spec|]. intros r w1 [-> Hrep1].
  pose proof (spec_op_size o m) as Hso. destruct (spec_op o m) as [r m1]. cbn [fst snd] in *.
  apply wp_bind. eapply wp_mono; [apply (IH w1 m1); [done|lia]|]. intros rs w2 [-> Hrep2].
  destruct (spec_ops os m1) as [rs m2]. by apply wp_ret.
Qed.
End map.

(** ** The contract *)

(** C5: every sequence of dictionary operations, from a new dictionary and under any
    settings of the resize policy, gives the results of the same operations on a
    finite map, keys being identified as the dictionary type compares them; no
    operation fails, and the final dictionary stands for the final map. *)
Theorem dict_refines_map {K V C} `{EqDecision K} `{Countable C} (type : dictType K V)
    (canon : K -> C) `{!DictLaws type canon} (cr : dictResizeEnable) (os : list (op (K := K) (V := V))) :
  Z.of_nat (length os) < 2 ^ 60 ->
  exists w', run_ops type os (new_world cr) = Some (fst (spec_ops type canon os ∅), w') /\
    repr type canon w' (snd (spec_ops type canon os ∅)) /\
    dictSize (w_dict w') = Z.of_nat (size (snd (spec_ops type canon os ∅))).
Proof.
  intros Hlen. destruct (run_ops_spec type canon os (new_world cr) ∅) as (rs & w' & E & -> & Hrep).
  - split; [apply new_world_wf|]. symmetry. apply fmap_empty.
  - by rewrite map_size_empty.
  - exists w'. split_and!; [done..|]. destruct Hrep as [Hwf Hd].
    by rewrite (dictSize_dmap type canon), Hd, map_size_fmap.
Qed.

(** A history that crosses an expansion and a rehash. *)
Definition history : list (op (K := Z) (V := Z)) :=
  [Add 1 10; Add 2 20; Add 5 50; Add 9 90; Add 13 130; Add 1 11; Delete 9; Replace 5 51;
   Fetch 5; Unlink 2; Fetch 9; Rehash 100; Fetch 13; Resize; Fetch 1].

Lemma dict_refines_map_witness :
  exists w', run_ops ztype history (new_world DICT_RESIZE_ENABLE) =
      Some (fst (spec_ops ztype (λ k, k) history ∅), w') /\
    repr ztype (λ k, k) w' (snd (spec_ops ztype (λ k, k) history ∅)) /\
    dictSize (w_dict w') = Z.of_nat (size (snd (spec_ops ztype (λ k, k) history ∅))).
Proof. apply (dict_refines_map ztype (λ k, k) DICT_RESIZE_ENABLE history). by_compute. Defined.

(** [dictReplace] always ends with the new value under the key; it returns 1 for a
    new key and 0 for an existing one, whose old value is destroyed exactly once and
    after the new one is set. *)
Theorem dictReplace_correct {K V C} `{EqDecision K} `{Countable C} (type : dictType K V)
    (canon : K -> C) `{!DictLaws type canon} key v (w : world K V) :
  wf type canon w -> small w ->
  exists r w', dictReplace type key v w = Some (r, w') /\ wf type canon w' /\
    dmap canon w' = <[canon key := Some (dup_val type v)]> (dmap canon w) /\
    match dmap canon w !! canon key with
    | None => r = 1 /\ w_destroyed w' = w_destroyed w
    | Some old => r = 0 /\ w_destroyed w' = w_destroyed w ++ freed_val type old
    end.
Proof. intros Hwf Hs. by destruct (dictReplace_spec type canon key v w Hwf Hs) as (r & w' & ? & ?); eauto. Qed.

Lemma dictReplace_correct_witness :
  exists r w', dictReplace ztype 1 5 (new_world DICT_RESIZE_ENABLE) = Some (r, w') /\
    wf ztype (λ k, k) w' /\
    dmap (λ k, k) w' = <[1 := Some (dup_val ztype 5)]> (dmap (λ k, k) (new_world DICT_RESIZE_ENABLE)) /\
    match dmap (λ k, k) (new_world (K := Z) (V := Z) DICT_RESIZE_ENABLE) !! 1 with
    | None => r = 1 /\ w_destroyed w' = w_destroyed (new_world DICT_RESIZE_ENABLE)
    | Some old => r = 0 /\ w_destroyed w' = w_destroyed (new_world DICT_RESIZE_ENABLE) ++ freed_val ztype old
    end.
Proof.
  apply (dictReplace_correct ztype (λ k, k) 1 5 (new_world DICT_RESIZE_ENABLE)).
  - apply new_world_wf.
  - vm_compute. reflexivity.
Defined.

(** [dictDelete] removes the key and frees its entry: the key and value are
    passed to the destructors once and the memory is released; [dictUnlink] removes
    the key but leaves the entry allocated and undestroyed for the caller. *)
Theorem dictGenericDelete_correct {K V C} `{EqDecision K} `{Countable C} (type : dictType K V)
    (canon : K -> C) `{!DictLaws type canon} key (nofree : bool) (w : world K V) :
  wf type canon w ->
  exists r w', dictGenericDelete type key nofree w = Some (r, w') /\ wf type canon w' /\
    dmap canon w' = delete (canon key) (dmap canon w) /\
    match dmap canon w !! canon key with
    | None => r = None
    | Some v => exists l e, r = Some l /\ w_heap w !! l = Some e /\ canon (e_key e) = canon key /\
        e_val e = v /\ w_heap w' !! l = (if nofree then Some e else None) /\
        w_destroyed w' = w_destroyed w ++ (if nofree then [] else freed type e)
    end.
Proof.
  intros Hwf. destruct (dictGenericDelete_spec type canon key nofree w Hwf) as (r & w' & E & Hwf' & Hp).
  exists r, w'. split_and!; [done|done| |]; destruct r as [l|]; cbn in Hp.
  - apply Hp.
  - destruct Hp as [Hn Hr]. rewrite delete_id by done. by apply (rehashed_dmap type canon).
  - destruct Hp as (_ & _ & e & He & Hc & -> & Hh & Hds). exists l, e. split_and!; try done.
    rewrite Hh. destruct nofree; [done|]. apply lookup_delete_eq.
  - destruct Hp as [-> _]. done.
Qed.

(** A dictionary with three keys that share a bucket, in the middle of a rehash. *)
Definition busy_world : world Z Z :=
  match run_ops ztype [Add 1 10; Add 5 50; Add 9 90; Add 2 20; Add 3 30] (new_world DICT_RESIZE_ENABLE) with
  | Some (_, w) => w
  | None => new_world DICT_RESIZE_ENABLE
  end.

Lemma busy_world_wf : wf ztype (λ k, k) busy_world.
Proof.
  destruct (run_ops_spec ztype (λ k, k) [Add 1 10; Add 5 50; Add 9 90; Add 2 20; Add 3 30]
    (new_world DICT_RESIZE_ENABLE) ∅) as (rs & w' & E & _ & Hwf & _).
  - split; [apply new_world_wf|]. symmetry. apply fmap_empty.
  - by_compute.
  - unfold busy_world. by rewrite E.
Qed.

(** The same while a resize is forbidden. *)
Definition forbidden_world : world Z Z :=
  World (w_dict busy_world) (w_heap busy_world) (w_destroyed busy_world) DICT_RESIZE_FORBID.

Lemma forbidden_world_wf : wf ztype (λ k, k) forbidden_world.
Proof. destruct busy_world_wf. by split. Qed.

Example busy_rehashing : dictIsRehashing (w_dict busy_world) = true.
Proof. vm_compute. reflexivity. Qed.

Lemma dictGenericDelete_correct_witness :
  exists r w', dictGenericDelete ztype 5 false busy_world = Some (r, w') /\ wf ztype (λ k, k) w' /\
    dmap (λ k, k) w' = delete 5 (dmap (λ k, k) busy_world) /\
    match dmap (λ k, k) busy_world !! 5 with
    | None => r = None
    | Some v => exists l e, r = Some l /\ w_heap busy_world !! l = Some e /\ e_key e = 5 /\
        e_val e = v /\ w_heap w' !! l = None /\
        w_destroyed w' = w_destroyed busy_world ++ freed ztype e
    end.
Proof. apply (dictGenericDelete_correct ztype (λ k, k) 5 false busy_world), busy_world_wf. Defined.

Lemma dictRehash_correct_witness :
  exists r w', dictRehash ztype 1 busy_world = Some (r, w') /\ wf ztype (λ k, k) w' /\
    dmap (λ k, k) w' = dmap (λ k, k) busy_world /\
    dictSize (w_dict w') = dictSize (w_dict busy_world) /\
    (may_rehash busy_world = true -> dictIsRehashing (w_dict busy_world) = true -> 1%nat <> 0%nat ->
     rehash_left (w_dict w') < rehash_left (w_dict busy_world) /\
     r = b2z (dictIsRehashing (w_dict w'))).
Proof. apply (dictRehash_correct ztype (λ k, k) 1 busy_world), busy_world_wf. Defined.

Lemma dictRehash_terminates_witness :
  (exists w', rehash_times ztype (Z.to_nat (rehash_left (w_dict busy_world))) busy_world = Some (tt, w') /\
    wf ztype (λ k, k) w' /\ dictIsRehashing (w_dict w') = false /\
    dmap (λ k, k) w' = dmap (λ k, k) busy_world) /\
  dictIsRehashing (w_dict forbidden_world) = true /\ rehash_times ztype 1000 forbidden_world = Some (tt, forbidden_world).
Proof.
  split; [exact (dictRehash_terminates ztype (λ k, k) busy_world busy_world_wf)|].
  split; [reflexivity|]. exact (dictRehash_terminates ztype (λ k, k) forbidden_world forbidden_world_wf 1000%nat).
Defined.

(** [dictEmpty] leaves an empty dictionary; every entry is freed, and every key
    and value is destroyed exactly once. *)
Theorem dictEmpty_correct {K V C} `{EqDecision K} `{Countable C} (type : dictType K V)
    (canon : K -> C) `{!DictLaws type canon} (w : world K V) :
  wf type canon w ->
  exists w', dictEmpty type w = Some (tt, w') /\ wf type canon w' /\ dmap canon w' = ∅ /\
    (forall l, w_heap w' !! l = if decide (l ∈ entries (w_dict w)) then None else w_heap w !! l) /\
    w_destroyed w' = w_destroyed w ++ freed_all type (w_heap w) (entries (w_dict w)) /\
    NoDup (entries (w_dict w)).
Proof.
  intros Hwf. destruct (dictEmpty_spec type canon w Hwf) as ([] & w' & E & Hwf' & Hd & _ & Hh & Hds).
  exists w'. split_and!; try done; [|by eapply (entries_NoDup type canon)].
  intros l. rewrite Hh. apply remove_all_lookup.
Qed.

Lemma dictEmpty_correct_witness :
  exists w', dictEmpty ztype busy_world = Some (tt, w') /\ wf ztype (λ k, k) w' /\ dmap (λ k, k) w' = ∅ /\
    (forall l, w_heap w' !! l =
       if decide (l ∈ entries (w_dict busy_world)) then None else w_heap busy_world !! l) /\
    w_destroyed w' = w_destroyed busy_world ++ freed_all ztype (w_heap busy_world) (entries (w_dict busy_world)) /\
    NoDup (entries (w_dict busy_world)).
Proof. apply (dictEmpty_correct ztype (λ k, k) busy_world), busy_world_wf. Defined.
