(* ===== verification/DictScan.v ===== *)
(** The stateless iterator [dictScan] of [dict.c]: an element that stays in the
    dictionary is reported, whatever resizing happens between the calls. *)

From S2P Require Import Prelude State Dict DictWf DictRehash DictOps DictSpec DictMap.

Local Open Scope Z_scope.

(** ** The code *)

(** [while ((s >>= 1) > 0)] *)
Fixpoint rev_loop (fuel : nat) (s mask v : Z) : Z :=
  match fuel with
  | O => v
  | S fuel' =>
      let s := Z.shiftr s 1 in
      if 0 <? s then
        let mask := Z.lxor mask (u64 (Z.shiftl mask s)) in
        let v := Z.lor (Z.land (Z.shiftr v s) mask) (Z.land (u64 (Z.shiftl v s)) (u64 (Z.lnot mask))) in
        rev_loop fuel' s mask v
      else v
  end.

(** Six turns for 64 bits. *)
Definition rev (v : Z) : Z := rev_loop 7 64 (u64 (Z.lnot 0)) v.

(** [v |= ~m; v = rev(v); v++; v = rev(v);] *)
Definition next_cursor (v m : Z) : Z :=
  let v := Z.lor v (u64 (Z.lnot m)) in
  let v := rev v in
  let v := u64 (v + 1) in
  rev v.

(** The [do ... while] loop over the expansions in the larger table [i]: the cursor
    and the entries passed to the callback. *)
Fixpoint scan_expand {K V} (fuel : nat) (i : bool) (m0 m1 v : Z) : M K V (Z * list loc) :=
  match fuel with
  | O => fail
  | S fuel' =>
      de ← get_bucket i (Z.land v m1);
      let v := next_cursor v m1 in
      if Z.land v (Z.lxor m0 m1) =? 0 then mret (v, de)
      else
        '(v, rest) ← scan_expand fuel' i m0 m1 v;
        mret (v, de ++ rest)
  end.

(** The callback is modelled by the list of the entries it is called on, in order;
    it does not change the dictionary. *)
Definition dictScan {K V} (v : Z) : M K V (Z * list loc) :=
  d ← getd;
  if dictSize d =? 0 then mret (0, [])
  else
    dictPauseRehashing;;
    d ← getd;
    '(v, visited) ←
      (if negb (dictIsRehashing d) then
         let m0 := DICTHT_SIZE_MASK (ht_size_exp (ht0 d)) in
         de ← get_bucket false (Z.land v m0);
         mret (next_cursor v m0, de)
       else
         let swap := DICTHT_SIZE (ht_size_exp (ht1 d)) <? DICTHT_SIZE (ht_size_exp (ht0 d)) in
         let htidx0 := swap in
         let htidx1 := negb swap in
         let m0 := DICTHT_SIZE_MASK (ht_size_exp (ht d htidx0)) in
         let m1 := DICTHT_SIZE_MASK (ht_size_exp (ht d htidx1)) in
         de ← get_bucket htidx0 (Z.land v m0);
         '(v, rest) ← scan_expand (Z.to_nat (DICTHT_SIZE (ht_size_exp (ht d htidx1)))) htidx1 m0 m1 v;
         mret (v, de ++ rest));
    dictResumeRehashing;;
    mret (v, visited).

(** ** Bit reversal *)

Lemma rev_step_bits s k mask v i :
  0 <= k -> s = 2 ^ k -> k < 6 -> in_u 64 v -> in_u 64 mask ->
  (forall i, 0 <= i < 64 -> Z.testbit mask i = negb (Z.testbit i k)) ->
  0 <= i < 64 ->
  Z.testbit (Z.lor (Z.land (Z.shiftr v s) mask) (Z.land (u64 (Z.shiftl v s)) (u64 (Z.lnot mask)))) i =
  Z.testbit v (Z.lxor i s).
Proof.
  intros Hk Hs Hk6 Hv Hm Hmask Hi.
  assert (Hs32 : 1 <= s <= 32).
  { subst s. split; [lia|]. change 32 with (2 ^ 5). apply Z.pow_le_mono_r; lia. }
  rewrite Z.lor_spec, !Z.land_spec, Z.shiftr_spec by lia.
  rewrite !testbit_wrapu, !decide_True by lia. rewrite Z.shiftl_spec, Z.lnot_spec by lia.
  rewrite Hmask, negb_involutive by lia.
  assert (Hx : Z.lxor i s = if Z.testbit i k then i - s else i + s).
  { subst s. destruct (Z.testbit i k) eqn:Hb.
    - rewrite Z.lxor_comm, Z.sub_nocarry_ldiff.
      + apply Z.bits_inj'. intros n Hn. rewrite Z.lxor_spec, Z.ldiff_spec, Z.pow2_bits_eqb by lia.
        destruct (Z.eqb_spec k n) as [->|]; [by rewrite Hb|].
        by rewrite andb_true_r, xorb_false_l.
      + apply Z.bits_inj'. intros n Hn. rewrite Z.ldiff_spec, Z.pow2_bits_eqb, Z.bits_0 by lia.
        destruct (Z.eqb_spec k n) as [->|]; [by rewrite Hb|done].
    - rewrite Z.add_nocarry_lxor; [done|]. apply Z.bits_inj'. intros n Hn.
      rewrite Z.land_spec, Z.pow2_bits_eqb, Z.bits_0 by lia.
      destruct (Z.eqb_spec k n) as [->|]; [by rewrite Hb|apply andb_false_r]. }
  rewrite Hx. destruct (Z.testbit i k); cbn.
  - rewrite andb_false_r, andb_true_r. done.
  - rewrite andb_true_r, andb_false_r. apply orb_false_r.
Qed.

Definition rev_step (s mask v : Z) : Z :=
  Z.lor (Z.land (Z.shiftr v s) mask) (Z.land (u64 (Z.shiftl v s)) (u64 (Z.lnot mask))).

Lemma rev_unfold v :
  rev v = rev_step 1 0x5555555555555555 (rev_step 2 0x3333333333333333
    (rev_step 4 0x0f0f0f0f0f0f0f0f (rev_step 8 0x00ff00ff00ff00ff
      (rev_step 16 0x0000ffff0000ffff (rev_step 32 0x00000000ffffffff v))))).
Proof. reflexivity. Qed.

Lemma index_cases (P : Z -> bool) :
  forallb P (seqZ 0 64) = true -> forall i, 0 <= i < 64 -> P i = true.
Proof. intros H x Hx. rewrite forallb_forall in H. apply H, list_elem_of_In, elem_of_seqZ. lia. Qed.

Lemma land_range_r w a b : 0 <= w -> in_u w b -> in_u w (Z.land a b).
Proof.
  intros Hw Hb. apply range_of_bits; [done|]. intros i Hi.
  by rewrite Z.land_spec, (testbit_high w b), andb_false_r by (done || lia).
Qed.

Lemma rev_step_range s mask v : in_u 64 mask -> in_u 64 (rev_step s mask v).
Proof.
  intros Hm. apply lor_range; [by apply land_range_r| |lia].
  apply land_range_r; [lia|]. apply wrapu_range. lia.
Qed.

(** One stage with a concrete mask. *)
Lemma rev_stage k mask v i :
  0 <= k < 6 -> in_u 64 v -> in_u 64 mask ->
  forallb (λ i, Bool.eqb (Z.testbit mask i) (negb (Z.testbit i k))) (seqZ 0 64) = true ->
  0 <= i < 64 -> Z.testbit (rev_step (2 ^ k) mask v) i = Z.testbit v (Z.lxor i (2 ^ k)).
Proof.
  intros Hk Hv Hm Hall Hi. apply (rev_step_bits _ k); try done; try lia.
  intros j Hj. apply eqb_true_iff. by apply (index_cases (λ i, Bool.eqb (Z.testbit mask i) (negb (Z.testbit i k)))).
Qed.

Lemma lxor_index i k : 0 <= i < 64 -> 0 <= k < 6 -> 0 <= Z.lxor i (2 ^ k) < 64.
Proof.
  intros Hi Hk. apply (lxor_range 6); [done| |lia]. split; [lia|]. apply Z.pow_lt_mono_r; lia.
Qed.

Lemma rev_bits v i : in_u 64 v -> 0 <= i < 64 -> Z.testbit (rev v) i = Z.testbit v (63 - i).
Proof.
  intros Hv Hi. rewrite rev_unfold.
  change 1 with (2 ^ 0) at 1. change 2 with (2 ^ 1) at 2. change 4 with (2 ^ 2). change 8 with (2 ^ 3).
  change 16 with (2 ^ 4). change 32 with (2 ^ 5).
  rewrite (rev_stage 0); [|lia|apply rev_step_range; by_compute|by_compute|vm_compute; reflexivity|done].
  assert (Hi0 := lxor_index i 0 Hi ltac:(lia)).
  rewrite (rev_stage 1); [|lia|apply rev_step_range; by_compute|by_compute|vm_compute; reflexivity|done].
  assert (Hi1 := lxor_index _ 1 Hi0 ltac:(lia)).
  rewrite (rev_stage 2); [|lia|apply rev_step_range; by_compute|by_compute|vm_compute; reflexivity|done].
  assert (Hi2 := lxor_index _ 2 Hi1 ltac:(lia)).
  rewrite (rev_stage 3); [|lia|apply rev_step_range; by_compute|by_compute|vm_compute; reflexivity|done].
  assert (Hi3 := lxor_index _ 3 Hi2 ltac:(lia)).
  rewrite (rev_stage 4); [|lia|apply rev_step_range; by_compute|by_compute|vm_compute; reflexivity|done].
  assert (Hi4 := lxor_index _ 4 Hi3 ltac:(lia)).
  rewrite (rev_stage 5); [|lia|done|by_compute|vm_compute; reflexivity|done].
  f_equal. apply Z.eqb_eq. revert i Hi Hi0 Hi1 Hi2 Hi3 Hi4. intros i Hi _ _ _ _ _.
  revert i Hi. apply index_cases. vm_compute. reflexivity.
Qed.

Lemma rev_range v : in_u 64 (rev v).
Proof. rewrite rev_unfold. apply rev_step_range. by_compute. Qed.

Lemma rev_invol v : in_u 64 v -> rev (rev v) = v.
Proof.
  intros Hv. apply Z.bits_inj'. intros i Hi. destruct (Z.lt_ge_cases i 64).
  - rewrite !rev_bits by (apply rev_range || done || lia). f_equal. lia.
  - by rewrite (testbit_high 64 v), (testbit_high 64 (rev _)) by (apply rev_range || done || lia).
Qed.

Lemma rev_0 : rev 0 = 0.
Proof. reflexivity. Qed.

(** ** Positions

    Seen through [rev] a cursor is a position in [0, 2^64), a bucket of a table of
    size 2^e is an interval of length 2^(64-e), and a scan moves from left to right. *)

Lemma bucket_position h v e :
  in_u 64 h -> in_u 64 v -> 0 <= e <= 64 ->
  Z.land h (Z.ones e) = Z.land v (Z.ones e) <->
  rev h / 2 ^ (64 - e) = rev v / 2 ^ (64 - e).
Proof.
  intros Hh Hv He. rewrite <- !Z.shiftr_div_pow2 by lia. split; intros Heq.
  - apply Z.bits_inj'. intros i Hi. rewrite !Z.shiftr_spec by lia.
    destruct (Z.lt_ge_cases (i + (64 - e)) 64) as [Hlt|Hge].
    + rewrite !rev_bits by (done || lia).
      assert (Hb : Z.testbit (Z.land h (Z.ones e)) (63 - (i + (64 - e))) =
                   Z.testbit (Z.land v (Z.ones e)) (63 - (i + (64 - e)))) by (by rewrite Heq).
      rewrite !Z.land_spec, !Z.testbit_ones_nonneg in Hb by lia.
      rewrite (proj2 (Z.ltb_lt _ e)), !andb_true_r in Hb by lia. done.
    + by rewrite !(testbit_high 64 (rev _)) by (apply rev_range || lia).
  - apply Z.bits_inj'. intros i Hi. rewrite !Z.land_spec, Z.testbit_ones_nonneg by lia.
    destruct (Z.ltb_spec i e); [|by rewrite !andb_false_r]. rewrite !andb_true_r.
    assert (Hb : Z.testbit (Z.shiftr (rev h) (64 - e)) (e - 1 - i) =
                 Z.testbit (Z.shiftr (rev v) (64 - e)) (e - 1 - i)) by (by rewrite Heq).
    rewrite !Z.shiftr_spec, !rev_bits in Hb by (done || lia).
    by replace (63 - (e - 1 - i + (64 - e))) with i in Hb by lia.
Qed.

(** The start of the next bucket. *)
Definition next_pos (e x : Z) : Z := (x / 2 ^ (64 - e) + 1) * 2 ^ (64 - e).

Lemma next_cursor_pos v e :
  in_u 64 v -> 0 <= e <= 64 ->
  in_u 64 (next_cursor v (Z.ones e)) /\
  rev (next_cursor v (Z.ones e)) = u64 (next_pos e (rev v)).
Proof.
  intros Hv He. split; [apply rev_range|]. unfold next_cursor.
  rewrite rev_invol by (apply wrapu_range; lia). f_equal.
  assert (Hl : in_u 64 (Z.lor v (u64 (Z.lnot (Z.ones e))))).
  { apply lor_range; [done|apply wrapu_range; lia|lia]. }
  assert (Heq : rev (Z.lor v (u64 (Z.lnot (Z.ones e)))) =
                Z.lor (Z.shiftl (Z.shiftr (rev v) (64 - e)) (64 - e)) (Z.ones (64 - e))).
  { apply Z.bits_inj'. intros i Hi. rewrite Z.lor_spec, Z.testbit_ones_nonneg, Z.shiftl_spec by lia.
    destruct (Z.lt_ge_cases i 64).
    - rewrite rev_bits, Z.lor_spec, testbit_wrapu, decide_True, Z.lnot_spec, Z.testbit_ones_nonneg
        by (done || lia).
      destruct (Z.ltb_spec (63 - i) e); cbn [negb].
      + rewrite (proj2 (Z.ltb_ge i (64 - e))), !orb_false_r, Z.shiftr_spec by lia.
        replace (i - (64 - e) + (64 - e)) with i by lia. by rewrite rev_bits by (done || lia).
      + rewrite (proj2 (Z.ltb_lt i (64 - e))), !orb_true_r by lia. done.
    - rewrite (testbit_high 64 (rev _)) by (apply rev_range || lia).
      rewrite (proj2 (Z.ltb_ge i (64 - e))) by lia. rewrite Z.shiftr_spec by lia.
      by rewrite (testbit_high 64 (rev v)) by (apply rev_range || lia). }
  rewrite Heq. unfold next_pos. rewrite <- Z.shiftr_div_pow2 by lia.
  assert (Hland : Z.land (Z.shiftl (Z.shiftr (rev v) (64 - e)) (64 - e)) (Z.ones (64 - e)) = 0).
  { rewrite Z.land_ones, Z.shiftl_mul_pow2 by lia. apply Z.mod_mul. lia. }
  pose proof (Z.add_lor_land (Z.shiftl (Z.shiftr (rev v) (64 - e)) (64 - e)) (Z.ones (64 - e))) as Hadd.
  rewrite Hland, Z.add_0_r in Hadd. rewrite Hadd, Z.ones_equiv, (Z.shiftl_mul_pow2 _ (64 - e)) by lia. lia.
Qed.

Lemma next_pos_bounds e x : 0 <= e <= 64 -> in_u 64 x -> x < next_pos e x <= 2 ^ 64.
Proof.
  intros He [H0 H1]. unfold next_pos. set (B := 2 ^ (64 - e)).
  assert (HB : 0 < B) by (apply Z.pow_pos_nonneg; lia).
  pose proof (Z.div_mod x B ltac:(lia)). pose proof (Z.mod_pos_bound x B HB).
  split; [lia|]. replace (2 ^ 64) with (2 ^ e * B) in *.
  2:{ unfold B. rewrite <- Z.pow_add_r by lia. f_equal. lia. }
  assert (x / B < 2 ^ e) by (apply Z.div_lt_upper_bound; lia). nia.
Qed.

(** When the cursor has left the bits that only the larger mask covers. *)
Lemma expand_stop v e0 e1 :
  in_u 64 v -> 0 <= e0 <= e1 -> e1 <= 64 -> rev v mod 2 ^ (64 - e1) = 0 ->
  (Z.land v (Z.lxor (Z.ones e0) (Z.ones e1)) =? 0) = (rev v mod 2 ^ (64 - e0) =? 0).
Proof.
  intros Hv H0 H1 Hm.
  assert (Hlow : forall j, 0 <= j < 64 - e1 -> Z.testbit (rev v) j = false).
  { intros j Hj. rewrite <- (Z.mod_pow2_bits_low _ (64 - e1)) by lia. by rewrite Hm, Z.bits_0. }
  apply Bool.eq_iff_eq_true. rewrite !Z.eqb_eq. split; intros Hz; apply Z.bits_inj'; intros i Hi; rewrite Z.bits_0.
  - destruct (Z.lt_ge_cases i (64 - e0)); [|by apply Z.mod_pow2_bits_high; lia].
    rewrite Z.mod_pow2_bits_low by lia. destruct (Z.lt_ge_cases i (64 - e1)); [by apply Hlow|].
    rewrite rev_bits by (done || lia).
    assert (Hb : Z.testbit (Z.land v (Z.lxor (Z.ones e0) (Z.ones e1))) (63 - i) = false)
      by (by rewrite Hz, Z.bits_0).
    rewrite Z.land_spec, Z.lxor_spec, !Z.testbit_ones_nonneg in Hb by lia.
    rewrite (proj2 (Z.ltb_ge _ e0)), (proj2 (Z.ltb_lt _ e1)), andb_true_r in Hb by lia. done.
  - rewrite Z.land_spec, Z.lxor_spec, !Z.testbit_ones_nonneg by lia.
    destruct (Z.ltb_spec i e0), (Z.ltb_spec i e1); cbn; try apply andb_false_r; [lia|].
    rewrite andb_true_r. replace i with (63 - (63 - i)) by lia. rewrite <- rev_bits by (done || lia).
    rewrite <- (Z.mod_pow2_bits_low _ (64 - e0)) by lia. by rewrite Hz, Z.bits_0.
Qed.

Lemma next_pos_expand e0 e1 x :
  0 <= e0 <= e1 -> e1 <= 64 ->
  next_pos e1 x mod 2 ^ (64 - e1) = 0 /\ next_pos e1 x <= next_pos e0 x /\
  (next_pos e1 x mod 2 ^ (64 - e0) = 0 -> next_pos e1 x = next_pos e0 x) /\
  (next_pos e1 x mod 2 ^ (64 - e0) <> 0 -> next_pos e0 (next_pos e1 x) = next_pos e0 x).
Proof.
  intros H0 H1. unfold next_pos. set (A := 2 ^ (64 - e1)). set (c := 2 ^ (e1 - e0)).
  assert (HA : 0 < A) by (apply Z.pow_pos_nonneg; lia).
  assert (Hc : 0 < c) by (apply Z.pow_pos_nonneg; lia).
  assert (HB : 2 ^ (64 - e0) = A * c).
  { unfold A, c. rewrite <- Z.pow_add_r by lia. f_equal. lia. }
  rewrite HB. rewrite <- Z.div_div by lia. set (q := x / A).
  pose proof (Z.div_mod q c ltac:(lia)) as Hq. pose proof (Z.mod_pos_bound q c Hc) as Hqm.
  assert (Hmod : ((q + 1) * A) mod (A * c) = A * ((q + 1) mod c)).
  { rewrite (Z.mul_comm (q + 1) A). apply Z.mul_mod_distr_l; lia. }
  split_and!.
  - apply Z.mod_mul. lia.
  - nia.
  - rewrite Hmod. intros Hz. assert (Hz' : (q + 1) mod c = 0) by nia.
    apply Z.div_exact in Hz'; [|lia]. assert ((q + 1) / c = q / c + 1); [|nia]. nia.
  - rewrite Hmod. intros Hnz. assert (Hnz' : (q + 1) mod c <> 0) by nia.
    rewrite <- Z.div_div, Z.div_mul by lia. f_equal. f_equal.
    assert (q mod c <> c - 1).
    { intros E. apply Hnz'. replace (q + 1) with ((q / c + 1) * c) by nia. apply Z.mod_mul. lia. }
    symmetry. apply (Z.div_unique _ _ _ (q mod c + 1)); lia.
Qed.

(** ** One call *)

Section scan.
Context {K V C : Type} `{EqDecision K} `{Countable C}.
Context (type : dictType K V) (canon : K -> C) `{!DictLaws type canon}.
Implicit Types (w : world K V).

Abbreviation wf := (wf type canon).

(** The entries of the bucket of hash [h] are among the visited ones. *)
Definition covers (tb : list (list loc)) (e h : Z) (visited : list loc) : Prop :=
  forall b l, tb !! Z.to_nat (Z.land h (Z.ones e)) = Some b -> l ∈ b -> l ∈ visited.

Lemma land_index h e tb : 0 <= e -> Z.of_nat (length tb) = 2 ^ e ->
  exists b : list loc, tb !! Z.to_nat (Z.land h (Z.ones e)) = Some b /\ 0 <= Z.land h (Z.ones e).
Proof.
  intros He Hl. rewrite Z.land_ones by done. pose proof (Z.mod_pos_bound h (2 ^ e) ltac:(lia)).
  destruct (lookup_lt_is_Some_2 tb (Z.to_nat (h mod 2 ^ e))) as [b Hb]; [lia|]. eauto with lia.
Qed.

Lemma scan_expand_spec i tb e0 e1 fuel : forall v w,
  ht_table (ht (w_dict w) i) = Some tb -> Z.of_nat (length tb) = 2 ^ e1 ->
  0 <= e0 <= e1 -> e1 <= 64 -> in_u 64 v ->
  next_pos e0 (rev v) - rev v / 2 ^ (64 - e1) * 2 ^ (64 - e1) <= Z.of_nat fuel * 2 ^ (64 - e1) ->
  wp (scan_expand fuel i (Z.ones e0) (Z.ones e1) v) w (λ r w', w' = w /\ in_u 64 (fst r) /\
    rev (fst r) = u64 (next_pos e0 (rev v)) /\
    forall h, in_u 64 h -> rev v <= rev h < next_pos e0 (rev v) -> covers tb e1 h (snd r)).
Proof.
  induction fuel as [|fuel IH]; intros v w Ht Hl H0 H1 Hv Hf.
  { pose proof (next_pos_bounds e0 (rev v) ltac:(lia) (rev_range v)).
    pose proof (Z.mul_div_le (rev v) (2 ^ (64 - e1)) ltac:(lia)). lia. }
  cbn [scan_expand]. destruct (land_index v e1 tb ltac:(lia) Hl) as (b & Hb & Hb0).
  eapply wp_bind, wp_get_bucket; [done..|].
  destruct (next_cursor_pos v e1 Hv ltac:(lia)) as [Hv1 Hr1].
  set (v1 := next_cursor v (Z.ones e1)) in *. set (x := rev v) in *.
  destruct (next_pos_expand e0 e1 x H0 H1) as (Hm1 & Hle & Hstop & Hgo).
  pose proof (next_pos_bounds e1 x ltac:(lia) (rev_range v)) as Hb1.
  pose proof (next_pos_bounds e0 x ltac:(lia) (rev_range v)) as Hb2.
  set (A := 2 ^ (64 - e1)) in *. assert (HA : 0 < A) by (apply Z.pow_pos_nonneg; lia).
  assert (Hcov : forall h, in_u 64 h -> x <= rev h < next_pos e1 x -> covers tb e1 h b).
  { intros h Hh Hx b' l Hb' Hl'.
    assert (Heq : Z.land h (Z.ones e1) = Z.land v (Z.ones e1)).
    { apply bucket_position; [done..|lia|]. fold A x. unfold next_pos in Hx. fold A in Hx.
      pose proof (Z.mul_div_le x A HA). symmetry. apply (Z.div_unique _ _ _ (rev h - x / A * A)); lia. }
    rewrite Heq in Hb'. by simplify_eq. }
  assert (Hdiv : 2 ^ 64 mod A = 0).
  { unfold A. replace 64 with (e1 + (64 - e1)) at 1 by lia. rewrite Z.pow_add_r by lia.
    apply Z.mod_mul. lia. }
  assert (Hrm : rev v1 mod A = 0).
  { rewrite Hr1. unfold wrapu. rewrite Z.mod_mod_divide; [done|].
    apply Z.mod_divide; [lia|done]. }
  rewrite (expand_stop v1 e0 e1 Hv1 H0 H1 Hrm).
  assert (Hdiv0 : (2 ^ (64 - e0) | 2 ^ 64)).
  { exists (2 ^ e0). rewrite <- Z.pow_add_r by lia. f_equal. lia. }
  assert (Hr0 : rev v1 mod 2 ^ (64 - e0) = next_pos e1 x mod 2 ^ (64 - e0)).
  { rewrite Hr1. unfold wrapu. by rewrite Z.mod_mod_divide. }
  rewrite Hr0. destruct (Z.eqb_spec (next_pos e1 x mod 2 ^ (64 - e0)) 0) as [Hz|Hnz].
  - apply wp_ret. cbn [fst snd]. rewrite <- (Hstop Hz).
    split; [reflexivity|]. split; [exact Hv1|]. split; [exact Hr1|exact Hcov].
  - assert (Hlt : next_pos e1 x < 2 ^ 64).
    { destruct (Z.eq_dec (next_pos e1 x) (2 ^ 64)) as [E|]; [|lia]. exfalso. apply Hnz. rewrite E.
      by apply Z.mod_divide; [lia|]. }
    assert (Hx1 : rev v1 = next_pos e1 x).
    { rewrite Hr1. apply wrapu_small. unfold in_u. destruct (rev_range v) as [Hx0 _]. fold x in Hx0. lia. }
    apply wp_bind. eapply wp_mono; [apply (IH v1 w Ht Hl H0 H1 Hv1)|].
    + rewrite Hx1, (Hgo Hnz). fold A. replace (next_pos e1 x / A) with (x / A + 1).
      * rewrite Nat2Z.inj_succ in Hf. lia.
      * unfold next_pos. fold A. by rewrite Z.div_mul by lia.
    + intros [v2 rest] w' (-> & Hv2 & Hr2 & Hcov2). cbn [fst snd] in *.
      rewrite Hx1, (Hgo Hnz) in Hr2, Hcov2. apply wp_ret. cbn [fst snd].
      split; [reflexivity|]. split; [exact Hv2|]. split; [exact Hr2|].
      intros h Hh Hx b' l Hb' Hl'. apply elem_of_app.
      destruct (Z.lt_ge_cases (rev h) (next_pos e1 x)).
      * left. exact (Hcov h Hh ltac:(lia) b' l Hb' Hl').
      * right. exact (Hcov2 h Hh ltac:(lia) b' l Hb' Hl').
Qed.

(** The exponent of the smaller table in use. *)
Definition scan_exp (d : dict) : Z :=
  if dictIsRehashing d then Z.min (ht_size_exp (ht0 d)) (ht_size_exp (ht1 d)) else ht_size_exp (ht0 d).

(** The entry of a key with hash [h] in table [i] is covered. *)
Lemma covers_entry w i tb key l e visited :
  wf w -> ht_table (ht (w_dict w) i) = Some tb ->
  covers tb (ht_size_exp (ht (w_dict w) i)) (dictHashKey type key) visited ->
  l ∈ ht_entries (ht (w_dict w) i) -> w_heap w !! l = Some e -> canon (e_key e) = canon key ->
  l ∈ visited.
Proof.
  intros Hwf Ht Hcov Hl He Hc. pose proof (wf_ht type canon w i Hwf) as Hok.
  destruct (ht_ok_Some type _ _ _ Ht Hok) as (Hx & _).
  destruct (wf_bucket type canon w i tb key Hwf Ht) as (b & Hb & _ & _ & _ & Hall).
  rewrite DICTHT_SIZE_MASK_pow in Hb by lia. by eapply Hcov, Hall.
Qed.

Lemma covers_app_l tb e h a b : covers tb e h a -> covers tb e h (a ++ b).
Proof. intros Hc b' l Hb Hl. apply elem_of_app. left. by eapply Hc. Qed.
Lemma covers_app_r tb e h a b : covers tb e h b -> covers tb e h (a ++ b).
Proof. intros Hc b' l Hb Hl. apply elem_of_app. right. by eapply Hc. Qed.

(** The bucket of the cursor in a table of size 2^e covers its interval. *)
Lemma bucket_covers tb e v h b :
  0 <= e <= 64 -> in_u 64 v -> in_u 64 h -> tb !! Z.to_nat (Z.land v (Z.ones e)) = Some b ->
  rev v <= rev h < next_pos e (rev v) -> covers tb e h b.
Proof.
  intros He Hv Hh Hb Hx b' l Hb' Hl.
  assert (Heq : Z.land h (Z.ones e) = Z.land v (Z.ones e)).
  { apply bucket_position; [done..|]. unfold next_pos in Hx. set (A := 2 ^ (64 - e)) in *.
    assert (HA : 0 < A) by (apply Z.pow_pos_nonneg; lia).
    pose proof (Z.mul_div_le (rev v) A HA). symmetry.
    apply (Z.div_unique _ _ _ (rev h - rev v / A * A)); lia. }
  rewrite Heq in Hb'. by simplify_eq.
Qed.

(** What one call does: the cursor moves to the next bucket of the smaller table and
    every entry at a position in between is visited. *)
Definition scan_step v w (v' : Z) (visited : list loc) : Prop :=
  in_u 64 v' /\ 0 <= scan_exp (w_dict w) <= 60 /\
  rev v' = u64 (next_pos (scan_exp (w_dict w)) (rev v)) /\
  forall key l e, rev v <= rev (dictHashKey type key) < next_pos (scan_exp (w_dict w)) (rev v) ->
    l ∈ entries (w_dict w) -> w_heap w !! l = Some e -> canon (e_key e) = canon key -> l ∈ visited.

Lemma hash_u64 key : in_u 64 (dictHashKey type key).
Proof. apply (hash_range (canon := canon)). Qed.

(** The branch without rehashing. *)
Lemma scan_single v w :
  wf w -> in_u 64 v -> dictSize (w_dict w) <> 0 -> dictIsRehashing (w_dict w) = false ->
  wp (de ← get_bucket false (Z.land v (DICTHT_SIZE_MASK (ht_size_exp (ht0 (w_dict w)))));
      mret (next_cursor v (DICTHT_SIZE_MASK (ht_size_exp (ht0 (w_dict w)))), de)) w
    (λ r w', w' = w /\ scan_step v w (fst r) (snd r)).
Proof.
  intros Hwf Hv Hs Hr. destruct (size_pos_table type canon w Hwf Hs) as [tb0 Ht0].
  destruct (ht_ok_Some type _ _ _ Ht0 (wf_ht0 _ _ _ Hwf)) as (Hx0 & Hl0 & _).
  rewrite DICTHT_SIZE_pow in Hl0 by lia. rewrite DICTHT_SIZE_MASK_pow by lia.
  destruct (land_index v (ht_size_exp (ht0 (w_dict w))) tb0 ltac:(lia) Hl0) as (b & Hb & Hb0).
  eapply wp_bind, wp_get_bucket; [exact Ht0|exact Hb|exact Hb0|]. apply wp_ret. split; [reflexivity|].
  assert (He : scan_exp (w_dict w) = ht_size_exp (ht0 (w_dict w))) by (unfold scan_exp; by rewrite Hr).
  destruct (next_cursor_pos v (ht_size_exp (ht0 (w_dict w))) Hv ltac:(lia)) as [Hv1 Hr1].
  unfold scan_step. rewrite He. cbn [fst snd].
  split; [exact Hv1|]. split; [lia|]. split; [exact Hr1|]. intros key l e Hx Hl Hle Hc.
  unfold entries in Hl. apply elem_of_app in Hl as [Hl|Hl].
  - apply (covers_entry w false tb0 key l e); [done|done| |done|done|done]. cbn [ht].
    apply (bucket_covers tb0 _ v); [lia|done|apply hash_u64|done|done].
  - by apply (absent_ht1 type canon w l Hwf Hr) in Hl.
Qed.

(** The branch with two tables: [i] is the smaller one. *)
Lemma scan_double v w (i : bool) :
  wf w -> in_u 64 v -> dictIsRehashing (w_dict w) = true ->
  ht_size_exp (ht (w_dict w) i) <= ht_size_exp (ht (w_dict w) (negb i)) ->
  let m0 := DICTHT_SIZE_MASK (ht_size_exp (ht (w_dict w) i)) in
  let m1 := DICTHT_SIZE_MASK (ht_size_exp (ht (w_dict w) (negb i))) in
  wp (de ← get_bucket i (Z.land v m0);
      '(v, rest) ← scan_expand (Z.to_nat (DICTHT_SIZE (ht_size_exp (ht (w_dict w) (negb i)))))
                     (negb i) m0 m1 v;
      mret (v, de ++ rest)) w
    (λ r w', w' = w /\ scan_step v w (fst r) (snd r)).
Proof.
  intros Hwf Hv Hr Hle m0 m1.
  assert (Hts : forall j, exists tb, ht_table (ht (w_dict w) j) = Some tb /\
    2 <= ht_size_exp (ht (w_dict w) j) <= 60 /\ Z.of_nat (length tb) = 2 ^ ht_size_exp (ht (w_dict w) j)).
  { intros j. destruct (is_rehashing type canon w Hwf Hr) as [[tb0 Ht0] [tb1 Ht1]].
    assert (exists tb, ht_table (ht (w_dict w) j) = Some tb) as [tb Ht] by (destruct j; eauto).
    destruct (ht_ok_Some type _ _ _ Ht (wf_ht type canon w j Hwf)) as (Hx & Hl & _).
    rewrite DICTHT_SIZE_pow in Hl by lia. eauto. }
  destruct (Hts i) as (tb0 & Ht0 & Hx0 & Hl0). destruct (Hts (negb i)) as (tb1 & Ht1 & Hx1 & Hl1).
  subst m0 m1. rewrite !DICTHT_SIZE_MASK_pow, DICTHT_SIZE_pow by lia.
  assert (He : scan_exp (w_dict w) = ht_size_exp (ht (w_dict w) i)).
  { unfold scan_exp. rewrite Hr. destruct i; simpl in Hle |- *; lia. }
  set (e0 := ht_size_exp (ht (w_dict w) i)) in *. set (e1 := ht_size_exp (ht (w_dict w) (negb i))) in *.
  destruct (land_index v e0 tb0 ltac:(lia) Hl0) as (b & Hb & Hb0).
  eapply wp_bind, wp_get_bucket; [exact Ht0|exact Hb|exact Hb0|].
  apply wp_bind. eapply wp_mono; [apply (scan_expand_spec (negb i) tb1 e0 e1); [done|done|lia|lia|done|]|].
  - unfold next_pos. assert (HB : 2 ^ (64 - e0) = 2 ^ (64 - e1) * 2 ^ (e1 - e0)).
    { rewrite <- Z.pow_add_r by lia. f_equal. lia. }
    assert (2 ^ (e1 - e0) <= 2 ^ e1) by (apply Z.pow_le_mono_r; lia).
    rewrite Z2Nat.id by lia. rewrite HB, <- Z.div_div by lia.
    set (A := 2 ^ (64 - e1)) in *. assert (HA : 0 < A) by (apply Z.pow_pos_nonneg; lia).
    set (q := rev v / A). set (c := 2 ^ (e1 - e0)) in *. assert (Hc : 0 < c) by (apply Z.pow_pos_nonneg; lia).
    pose proof (Z.mul_div_le q c Hc). nia.
  - intros [v' rest] w' (-> & Hv' & Hr' & Hcov). cbn [fst snd] in *. apply wp_ret.
    split; [reflexivity|]. unfold scan_step. rewrite He. cbn [fst snd].
    split; [exact Hv'|]. split; [lia|]. split; [exact Hr'|]. intros key l e Hx Hl Hle' Hc.
    assert (Hl' : l ∈ ht_entries (ht (w_dict w) i) \/ l ∈ ht_entries (ht (w_dict w) (negb i))).
    { unfold entries in Hl. apply elem_of_app in Hl. destruct i; simpl; tauto. }
    destruct Hl' as [Hl'|Hl'].
    + apply (covers_entry w i tb0 key l e); [done|done| |done|done|done]. apply covers_app_l.
      apply (bucket_covers tb0 _ v); [lia|done|apply hash_u64|done|done].
    + apply (covers_entry w (negb i) tb1 key l e); [done|done| |done|done|done]. apply covers_app_r.
      apply Hcov; [apply hash_u64|done].
Qed.

Lemma dictScan_spec v w :
  wf w -> in_u 64 v -> dictSize (w_dict w) <> 0 ->
  wp (dictScan v) w (λ r w', wf w' /\ w_heap w' = w_heap w /\
    entries (w_dict w') = entries (w_dict w) /\ scan_step v w (fst r) (snd r)).
Proof.
  intros Hwf Hv Hs. apply wp_bind, wp_getd. rewrite (proj2 (Z.eqb_neq _ 0)) by done.
  apply wp_bind. apply wp_bind, wp_getd, wp_putd. apply wp_bind, wp_getd.
  set (w1 := World _ _ _ _).
  assert (Hwf1 : wf w1) by (destruct Hwf as [? ? ? ? Hre]; by split).
  assert (Hmain : wp (if negb (dictIsRehashing (w_dict w1)) then
         let m0 := DICTHT_SIZE_MASK (ht_size_exp (ht0 (w_dict w1))) in
         de ← get_bucket false (Z.land v m0);
         mret (next_cursor v m0, de)
       else
         let swap := DICTHT_SIZE (ht_size_exp (ht1 (w_dict w1))) <? DICTHT_SIZE (ht_size_exp (ht0 (w_dict w1))) in
         let htidx0 := swap in
         let htidx1 := negb swap in
         let m0 := DICTHT_SIZE_MASK (ht_size_exp (ht (w_dict w1) htidx0)) in
         let m1 := DICTHT_SIZE_MASK (ht_size_exp (ht (w_dict w1) htidx1)) in
         de ← get_bucket htidx0 (Z.land v m0);
         '(v, rest) ← scan_expand (Z.to_nat (DICTHT_SIZE (ht_size_exp (ht (w_dict w1) htidx1)))) htidx1 m0 m1 v;
         mret (v, de ++ rest)) w1 (λ r w', w' = w1 /\ scan_step v w1 (fst r) (snd r))).
  { destruct (dictIsRehashing (w_dict w1)) eqn:Hr; cbn [negb].
    - destruct (is_rehashing type canon w1 Hwf1 Hr) as [[tb0 Ht0] [tb1 Ht1]].
      destruct (ht_ok_Some type _ _ _ Ht0 (wf_ht0 _ _ _ Hwf1)) as (Hx0 & _).
      destruct (ht_ok_Some type _ _ _ Ht1 (wf_ht1 _ _ _ Hwf1)) as (Hx1 & _).
      cbn zeta. destruct (Z.ltb_spec (DICTHT_SIZE (ht_size_exp (ht1 (w_dict w1))))
        (DICTHT_SIZE (ht_size_exp (ht0 (w_dict w1))))) as [Hlt|Hge]; rewrite !DICTHT_SIZE_pow in * by lia.
      + apply (scan_double v w1 true); [done..|]. cbn [ht negb]. apply Z.pow_lt_mono_r_iff in Hlt; lia.
      + apply (scan_double v w1 false); [done..|]. cbn [ht negb]. apply Z.pow_le_mono_r_iff in Hge; lia.
    - by apply scan_single. }
  apply wp_bind. eapply wp_mono; [exact Hmain|]. intros [v' vis] w2 [-> Hstep].
  apply wp_bind. apply wp_bind, wp_getd, wp_putd, wp_ret.
  split; [destruct Hwf1 as [? ? ? ? Hre]; by split|]. split; [reflexivity|]. split; [reflexivity|exact Hstep].
Qed.

(** ** A whole scan *)

(** A sequence of calls, each on whatever the dictionary has become in between: the
    dictionaries and the entries reported, from one cursor to another. *)
Inductive scan_calls : Z -> list (world K V * list loc) -> Z -> Prop :=
  | scan_calls_nil v : scan_calls v [] v
  | scan_calls_cons v w w' v' visited calls v'' :
      dictScan v w = Some ((v', visited), w') ->
      scan_calls v' calls v'' -> scan_calls v ((w, visited) :: calls) v''.

(** The key is in the dictionary. *)
Definition has_key (key : K) w : Prop :=
  exists l e, l ∈ entries (w_dict w) /\ w_heap w !! l = Some e /\ canon (e_key e) = canon key.

(** An entry of the key is among those reported. *)
Definition reported (key : K) (call : world K V * list loc) : Prop :=
  exists l e, l ∈ snd call /\ w_heap (fst call) !! l = Some e /\ canon (e_key e) = canon key.

Lemma has_key_size key w : wf w -> has_key key w -> dictSize (w_dict w) <> 0.
Proof.
  intros Hwf (l & e & Hl & _). rewrite (dictSize_entries type canon) by done.
  destruct (entries (w_dict w)); [by apply not_elem_of_nil in Hl|simpl; lia].
Qed.

Lemma scan_calls_report key v calls :
  scan_calls v calls 0 -> in_u 64 v -> calls <> [] -> rev v <= rev (dictHashKey type key) ->
  Forall (λ c, wf (fst c) /\ has_key key (fst c)) calls ->
  Exists (reported key) calls.
Proof.
  remember 0 as v0 eqn:Hv0. intros Hsc. revert Hv0.
  induction Hsc as [v|v w w' v' vis calls v'' E Hsc IH]; intros Hv0 Hv Hne Hpos Hall; [done|].
  inversion Hall as [|? ? [Hwf Hkey] Hall']; subst. cbn [fst] in *.
  pose proof (has_key_size key w Hwf Hkey) as Hs.
  destruct (dictScan_spec v w Hwf Hv Hs) as ([v1 vis1] & w1 & E1 & _ & _ & _ & Hstep).
  rewrite E in E1. injection E1 as -> -> ->. cbn [fst snd] in Hstep.
  destruct Hstep as (Hv' & He & Hr & Hvis).
  destruct (Z.lt_ge_cases (rev (dictHashKey type key)) (next_pos (scan_exp (w_dict w)) (rev v))) as [Hlt|Hge].
  - left. destruct Hkey as (l & e & Hl & Hle & Hc). exists l, e. split_and!; [|done|done].
    eapply Hvis; [split; [exact Hpos|exact Hlt]|done..].
  - right. pose proof (next_pos_bounds (scan_exp (w_dict w)) (rev v) ltac:(lia) (rev_range v)) as Hb.
    destruct (rev_range (dictHashKey type key)) as [_ Hh]. destruct (rev_range v) as [Hrv _].
    rewrite wrapu_small in Hr by (unfold in_u; lia). apply IH; try done.
    + intros ->. inversion Hsc; subst. rewrite rev_0 in Hr. lia.
    + by rewrite Hr.
Qed.
End scan.

(** C25: the guarantee of [dictScan].  A sequence of calls that starts at cursor 0 and
    ends when cursor 0 is returned reports every key that is in the dictionary at
    each of the calls, whatever is added, removed, resized or rehashed between
    them. *)
Theorem dictScan_complete {K V C} `{EqDecision K} `{Countable C} (type : dictType K V)
    (canon : K -> C) `{!DictLaws type canon} (key : K) (calls : list (world K V * list loc)) :
  scan_calls 0 calls 0 -> calls <> [] ->
  Forall (λ c, wf type canon (fst c) /\ has_key canon key (fst c)) calls ->
  Exists (reported canon key) calls.
Proof.
  intros Hsc Hne Hall. eapply (scan_calls_report type canon key 0); [done| |done| |done].
  - by_compute.
  - rewrite rev_0. apply rev_range.
Qed.

(** The dictionary in the middle of a rehash, and after it. *)
Definition scan_before : world Z Z := busy_world.
Definition scan_after : world Z Z :=
  match dictRehash ztype 100 busy_world with Some (_, w) => w | None => busy_world end.

Lemma scan_after_wf : wf ztype (λ k, k) scan_after.
Proof.
  destruct (dictRehash_spec ztype (λ k, k) 100 busy_world busy_world_wf) as (r & w & E & Hwf & _).
  unfold scan_after. by rewrite E.
Qed.

Definition visited_by (v : Z) (w : world Z Z) : list loc :=
  match dictScan v w with Some ((_, l), _) => l | None => [] end.

(** The first call sees two tables of sizes 4 and 8, the later ones the final table. *)
Definition scan_example : list (world Z Z * list loc) :=
  (scan_before, visited_by 0 scan_before) ::
  ((λ v, (scan_after, visited_by v scan_after)) <$> [2; 6; 1; 5; 3; 7]).

Lemma dictScan_complete_witness : Exists (reported (λ k, k) 5) scan_example.
Proof.
  apply (dictScan_complete ztype (λ k, k) 5).
  - repeat (eapply scan_calls_cons; [vm_compute; reflexivity|]). apply scan_calls_nil.
  - done.
  - assert (H1 : has_key (λ k, k) 5 scan_before).
    { exists 2%positive, (Entry 5 (Some 50) []). split; [|split; [vm_compute; reflexivity|done]].
      by_compute. }
    assert (H2 : has_key (λ k, k) 5 scan_after).
    { exists 2%positive, (Entry 5 (Some 50) []). split; [|split; [vm_compute; reflexivity|done]].
      by_compute. }
    apply Forall_cons. split; [exact (conj busy_world_wf H1)|].
    apply Forall_fmap, Forall_true. intros v. exact (conj scan_after_wf H2).
Defined.

(** A call of [dictScan] on a non empty dictionary succeeds, leaves the entries as
    they are, and either ends the scan or moves the reversed cursor strictly
    forward, to the next bucket of the smaller table: scans terminate. *)
Theorem dictScan_progress {K V C} `{EqDecision K} `{Countable C} (type : dictType K V)
    (canon : K -> C) `{!DictLaws type canon} (v : Z) (w : world K V) :
  wf type canon w -> in_u 64 v -> dictSize (w_dict w) <> 0 ->
  exists v' visited w', dictScan v w = Some ((v', visited), w') /\
    wf type canon w' /\ dmap canon w' = dmap canon w /\
    (v' = 0 \/ (rev v < rev v' /\ rev v' mod 2 ^ (64 - scan_exp (w_dict w)) = 0)).
Proof.
  intros Hwf Hv Hs.
  destruct (dictScan_spec type canon v w Hwf Hv Hs) as ([v' vis] & w' & E & Hwf' & Hh & He & Hv' & Hx & Hr & _).
  exists v', vis, w'. split; [done|]. split; [done|]. split.
  { unfold dmap, alist. by rewrite Hh, He. }
  cbn [fst] in *. pose proof (next_pos_bounds (scan_exp (w_dict w)) (rev v) ltac:(lia) (rev_range v)) as Hb.
  destruct (rev_range v) as [Hrv _].
  destruct (Z.eq_dec (next_pos (scan_exp (w_dict w)) (rev v)) (2 ^ 64)) as [Heq|Hne].
  - left. rewrite Heq in Hr. unfold wrapu in Hr. rewrite Z.mod_same in Hr by lia.
    rewrite <- (rev_invol v'), Hr by done. reflexivity.
  - right. rewrite wrapu_small in Hr by (unfold in_u; lia). rewrite Hr. split; [lia|].
    unfold next_pos. apply Z.mod_mul. lia.
Qed.

Lemma dictScan_progress_witness :
  exists v' visited w', dictScan 2 busy_world = Some ((v', visited), w') /\
    wf ztype (λ k, k) w' /\ dmap (λ k, k) w' = dmap (λ k, k) busy_world /\
    (v' = 0 \/ (rev 2 < rev v' /\ rev v' mod 2 ^ (64 - scan_exp (w_dict busy_world)) = 0)).
Proof.
  apply (dictScan_progress ztype (λ k, k) 2 busy_world); [apply busy_world_wf|by_compute|by_compute].
Defined.
