(* ===== verification/Adlist.v ===== *)
(** The doubly linked lists of [adlist.c].

    Nodes live in a heap indexed by their addresses, with their [prev] and [next]
    pointers; the calls of the list's [free] method are recorded.  [zmalloc] never
    returns NULL (it aborts), so the branches for that case are dead. *)

From stdpp Require Import gmap.
From S2P Require Import Prelude State.

Local Open Scope Z_scope.

Abbreviation loc := positive.

Record listNode (V : Type) := Node { n_prev : option loc; n_next : option loc; n_value : V }.
Arguments Node {_}.
Arguments n_prev {_}.
Arguments n_next {_}.
Arguments n_value {_}.

Inductive direction := AL_START_HEAD | AL_START_TAIL.
#[export] Instance direction_eq_dec : EqDecision direction.
Proof. solve_decision. Defined.

Record listIter := Iter { it_next : option loc; it_direction : direction }.

(** [dup] may fail ([None] is NULL); of [free] only its presence matters, its calls
    being recorded. *)
Record list_ (V : Type) := List {
  l_head : option loc;
  l_tail : option loc;
  l_dup : option (V -> option V);
  l_free : bool;
  l_match : option (V -> V -> bool);
  l_len : Z }.
Arguments List {_}.
Arguments l_head {_}.
Arguments l_tail {_}.
Arguments l_dup {_}.
Arguments l_free {_}.
Arguments l_match {_}.
Arguments l_len {_}.

Record mem (V : Type) := Mem { m_heap : gmap loc (listNode V); m_freed : list V }.
Arguments Mem {_}.
Arguments m_heap {_}.
Arguments m_freed {_}.

Section adlist.
Context {V : Type} `{EqDecision V}.

Abbreviation L := (ST (mem V)).

(** ** Memory *)

Definition load (p : option loc) : L (listNode V) :=
  m ← get;
  match p with
  | None => fail
  | Some p => match m_heap m !! p with Some n => mret n | None => fail end
  end.
Definition store (p : option loc) (n : listNode V) : L unit :=
  _ ← load p;
  m ← get;
  match p with
  | None => fail
  | Some p => put (Mem (<[p := n]> (m_heap m)) (m_freed m))
  end.
Definition set_prev (p q : option loc) : L unit :=
  n ← load p; store p (Node q (n_next n) (n_value n)).
Definition set_next (p q : option loc) : L unit :=
  n ← load p; store p (Node (n_prev n) q (n_value n)).
Definition zmalloc (n : listNode V) : L loc :=
  m ← get;
  let p := fresh (dom (m_heap m)) in
  put (Mem (<[p := n]> (m_heap m)) (m_freed m));; mret p.
Definition zfree (p : option loc) : L unit :=
  _ ← load p;
  m ← get;
  match p with
  | None => fail
  | Some p => put (Mem (delete p (m_heap m)) (m_freed m))
  end.
(** [if (list->free) list->free(value)] *)
Definition call_free (l : list_ V) (v : V) : L unit :=
  if l_free l then m ← get; put (Mem (m_heap m) (m_freed m ++ [v])) else mret tt.

Definition set_ends (l : list_ V) (h t : option loc) (n : Z) : list_ V :=
  List h t (l_dup l) (l_free l) (l_match l) n.

(** ** Operations *)

Definition listCreate : list_ V := List None None None false None 0.

(** [while(len--)] *)
Fixpoint listEmpty_loop (l : list_ V) (len : nat) (current : option loc) : L unit :=
  match len with
  | O => mret tt
  | S len' =>
      n ← load current;
      call_free l (n_value n);;
      zfree current;;
      listEmpty_loop l len' (n_next n)
  end.

Definition listEmpty (l : list_ V) : L (list_ V) :=
  listEmpty_loop l (Z.to_nat (l_len l)) (l_head l);;
  mret (set_ends l None None 0).

(** The list structure itself is a value here: only the nodes are freed. *)
Definition listRelease (l : list_ V) : L unit := _ ← listEmpty l; mret tt.

Definition listAddNodeHead (l : list_ V) (value : V) : L (list_ V) :=
  if l_len l =? 0 then
    node ← zmalloc (Node None None value);
    mret (set_ends l (Some node) (Some node) (l_len l + 1))
  else
    node ← zmalloc (Node None (l_head l) value);
    set_prev (l_head l) (Some node);;
    mret (set_ends l (Some node) (l_tail l) (l_len l + 1)).

Definition listAddNodeTail (l : list_ V) (value : V) : L (list_ V) :=
  if l_len l =? 0 then
    node ← zmalloc (Node None None value);
    mret (set_ends l (Some node) (Some node) (l_len l + 1))
  else
    node ← zmalloc (Node (l_tail l) None value);
    set_next (l_tail l) (Some node);;
    mret (set_ends l (l_head l) (Some node) (l_len l + 1)).

Definition listInsertNode (l : list_ V) (old_node : loc) (value : V) (after : bool) : L (list_ V) :=
  old ← load (Some old_node);
  let node0 := if after then Node (Some old_node) (n_next old) value
               else Node (n_prev old) (Some old_node) value in
  node ← zmalloc node0;
  let l := if after
           then set_ends l (l_head l)
                  (if bool_decide (l_tail l = Some old_node) then Some node else l_tail l) (l_len l)
           else set_ends l
                  (if bool_decide (l_head l = Some old_node) then Some node else l_head l)
                  (l_tail l) (l_len l) in
  (match n_prev node0 with Some p => set_next (Some p) (Some node) | None => mret tt end);;
  (match n_next node0 with Some p => set_prev (Some p) (Some node) | None => mret tt end);;
  mret (set_ends l (l_head l) (l_tail l) (l_len l + 1)).

Definition listDelNode (l : list_ V) (node : loc) : L (list_ V) :=
  n ← load (Some node);
  (match n_prev n with Some p => set_next (Some p) (n_next n) | None => mret tt end);;
  let l := match n_prev n with Some _ => l | None => set_ends l (n_next n) (l_tail l) (l_len l) end in
  (match n_next n with Some p => set_prev (Some p) (n_prev n) | None => mret tt end);;
  let l := match n_next n with Some _ => l | None => set_ends l (l_head l) (n_prev n) (l_len l) end in
  call_free l (n_value n);;
  zfree (Some node);;
  mret (set_ends l (l_head l) (l_tail l) (l_len l - 1)).

Definition listGetIterator (l : list_ V) (d : direction) : listIter :=
  match d with AL_START_HEAD => Iter (l_head l) d | AL_START_TAIL => Iter (l_tail l) d end.

Definition listRewind (l : list_ V) : listIter := Iter (l_head l) AL_START_HEAD.
Definition listRewindTail (l : list_ V) : listIter := Iter (l_tail l) AL_START_TAIL.

Definition listNext (iter : listIter) : L (option loc * listIter) :=
  match it_next iter with
  | None => mret (None, iter)
  | Some current =>
      n ← load (Some current);
      mret (Some current,
            Iter (match it_direction iter with AL_START_HEAD => n_next n | AL_START_TAIL => n_prev n end)
                 (it_direction iter))
  end.

(** The loops over a whole list: [fuel] above its length is enough. *)
Fixpoint listDup_loop (fuel : nat) (copy : list_ V) (iter : listIter) : L (option (list_ V)) :=
  match fuel with
  | O => fail
  | S fuel' =>
      '(node, iter) ← listNext iter;
      match node with
      | None => mret (Some copy)
      | Some node =>
          n ← load (Some node);
          match (match l_dup copy with Some dup => dup (n_value n) | None => Some (n_value n) end) with
          | None => listRelease copy;; mret None
          | Some value => copy ← listAddNodeTail copy value; listDup_loop fuel' copy iter
          end
      end
  end.

Definition listDup (orig : list_ V) : L (option (list_ V)) :=
  let copy := List None None (l_dup orig) (l_free orig) (l_match orig) 0 in
  listDup_loop (S (Z.to_nat (l_len orig))) copy (listRewind orig).

Fixpoint listSearchKey_loop (fuel : nat) (l : list_ V) (key : V) (iter : listIter) : L (option loc) :=
  match fuel with
  | O => fail
  | S fuel' =>
      '(node, iter) ← listNext iter;
      match node with
      | None => mret None
      | Some node =>
          n ← load (Some node);
          if (match l_match l with Some f => f (n_value n) key | None => bool_decide (key = n_value n) end)
          then mret (Some node)
          else listSearchKey_loop fuel' l key iter
      end
  end.

Definition listSearchKey (l : list_ V) (key : V) : L (option loc) :=
  listSearchKey_loop (S (Z.to_nat (l_len l))) l key (listRewind l).

(** [while(index-- && n)] *)
Fixpoint walk (d : direction) (index : nat) (n : option loc) : L (option loc) :=
  match index, n with
  | O, _ | _, None => mret n
  | S index', Some _ =>
      nd ← load n;
      walk d index' (match d with AL_START_HEAD => n_next nd | AL_START_TAIL => n_prev nd end)
  end.

Definition listIndex (l : list_ V) (index : Z) : L (option loc) :=
  if index <? 0 then walk AL_START_TAIL (Z.to_nat (- index - 1)) (l_tail l)
  else walk AL_START_HEAD (Z.to_nat index) (l_head l).

Definition listRotateTailToHead (l : list_ V) : L (list_ V) :=
  if l_len l <=? 1 then mret l
  else
    let tail := l_tail l in
    t ← load tail;
    let l := set_ends l (l_head l) (n_prev t) (l_len l) in
    set_next (l_tail l) None;;
    set_prev (l_head l) tail;;
    set_prev tail None;;
    set_next tail (l_head l);;
    mret (set_ends l tail (l_tail l) (l_len l)).

Definition listRotateHeadToTail (l : list_ V) : L (list_ V) :=
  if l_len l <=? 1 then mret l
  else
    let head := l_head l in
    h ← load head;
    let l := set_ends l (n_next h) (l_tail l) (l_len l) in
    set_prev (l_head l) None;;
    set_next (l_tail l) head;;
    set_next head None;;
    set_prev head (l_tail l);;
    mret (set_ends l (l_head l) head (l_len l)).

(** Both lists after the call. *)
Definition listJoin (l o : list_ V) : L (list_ V * list_ V) :=
  if l_len o =? 0 then mret (l, o)
  else
    set_prev (l_head o) (l_tail l);;
    (match l_tail l with Some t => set_next (Some t) (l_head o) | None => mret tt end);;
    let l := match l_tail l with Some _ => l | None => set_ends l (l_head o) (l_tail l) (l_len l) end in
    mret (set_ends l (l_head l) (l_tail o) (l_len l + l_len o), set_ends o None None 0).
End adlist.
