(* ===== verification/AdlistSpec.v ===== *)
(** The linked lists of [adlist.c] implement sequences of values. *)

From stdpp Require Import gmap.
From S2P Require Import Prelude State Adlist.

Local Open Scope Z_scope.

Section spec.
Context {V : Type} `{EqDecision V}.
Implicit Types (m : mem V) (h : gmap loc (listNode V)) (l : list_ V) (ns : list (loc * V)).

(** ** Chains of nodes *)

Definition first_loc ns (d : option loc) : option loc :=
  match ns with [] => d | (p, _) :: _ => Some p end.

Fixpoint last_loc (d : option loc) ns : option loc :=
  match ns with [] => d | (p, _) :: ns' => last_loc (Some p) ns' end.

(** The nodes [ns] are linked in this order, between [prev] and [next]. *)
Fixpoint seg h (prev : option loc) ns (next : option loc) : Prop :=
  match ns with
  | [] => True
  | (p, v) :: ns' => h !! p = Some (Node prev (first_loc ns' next) v) /\ seg h (Some p) ns' next
  end.

(** A list structure and its nodes. *)
Definition llist m l ns : Prop :=
  seg (m_heap m) None ns None /\ NoDup ns.*1 /\ l_head l = first_loc ns None /\
  l_tail l = last_loc None ns /\ l_len l = Z.of_nat (length ns).

Definition same_methods l l' : Prop :=
  l_dup l' = l_dup l /\ l_free l' = l_free l /\ l_match l' = l_match l.

(** Memory outside the addresses [ps] is the same. *)
Definition same_outside (ps : list loc) m m' : Prop :=
  forall q, q ∉ ps -> m_heap m' !! q = m_heap m !! q.

Lemma last_loc_app d a b : last_loc d (a ++ b) = last_loc (last_loc d a) b.
Proof. revert d. induction a as [|[p v] a IH]; intros d; simpl; auto. Qed.

Lemma first_loc_app a b d : first_loc (a ++ b) d = first_loc a (first_loc b d).
Proof. by destruct a as [|[]]. Qed.

Lemma seg_app h a b : forall prev next,
  seg h prev (a ++ b) next <-> seg h prev a (first_loc b next) /\ seg h (last_loc prev a) b next.
Proof.
  induction a as [|[p v] a IH]; intros prev next; simpl; [tauto|].
  rewrite IH, first_loc_app. tauto.
Qed.

Lemma seg_frame h h' ns : forall prev next,
  (forall p, p ∈ ns.*1 -> h' !! p = h !! p) -> seg h prev ns next -> seg h' prev ns next.
Proof.
  induction ns as [|[p v] ns IH]; intros prev next Hf Hs; [done|]. destruct Hs as [Hp Hs].
  split; [by rewrite Hf by (by left)|]. apply IH; [|done]. intros q Hq. apply Hf. by right.
Qed.

Lemma seg_insert h ns prev next p n :
  p ∉ ns.*1 -> seg h prev ns next -> seg (<[p := n]> h) prev ns next.
Proof. intros Hp. apply seg_frame. intros q Hq. apply lookup_insert_ne. by intros ->. Qed.

Lemma seg_delete h ns prev next p :
  p ∉ ns.*1 -> seg h prev ns next -> seg (delete p h) prev ns next.
Proof. intros Hp. apply seg_frame. intros q Hq. apply lookup_delete_ne. by intros ->. Qed.

(** Redirecting the ends of a chain. *)
Lemma seg_set_next h a p v prev next q :
  NoDup (a ++ [(p, v)]).*1 -> seg h prev (a ++ [(p, v)]) next ->
  h !! p = Some (Node (last_loc prev a) next v) /\
  seg (<[p := Node (last_loc prev a) q v]> h) prev (a ++ [(p, v)]) q.
Proof.
  rewrite fmap_app. intros Hnd Hs. apply seg_app in Hs as [Ha [Hp _]]. split; [done|].
  apply seg_app. split.
  - apply seg_insert; [|done]. apply NoDup_app in Hnd as (_ & Hd & _). intros Hin.
    apply (Hd p Hin). by left.
  - split; [|done]. by rewrite lookup_insert_eq.
Qed.

Lemma seg_set_prev h b p v prev next q :
  NoDup ((p, v) :: b).*1 -> seg h prev ((p, v) :: b) next ->
  h !! p = Some (Node prev (first_loc b next) v) /\
  seg (<[p := Node q (first_loc b next) v]> h) q ((p, v) :: b) next.
Proof.
  cbn. intros Hnd [Hp Hs]. apply NoDup_cons in Hnd as [Hni _]. split; [done|].
  split; [by rewrite lookup_insert_eq|]. by apply seg_insert.
Qed.

Lemma seg_lookup h ns prev next p v :
  seg h prev ns next -> (p, v) ∈ ns -> exists n, h !! p = Some n /\ n_value n = v.
Proof.
  revert prev. induction ns as [|[q u] ns IH]; intros prev Hs Hin; [by apply not_elem_of_nil in Hin|].
  destruct Hs as [Hq Hs]. apply elem_of_cons in Hin as [[= -> ->]|Hin]; [eauto|by eapply IH].
Qed.

Lemma seg_dom h ns prev next p : seg h prev ns next -> h !! p = None -> p ∉ ns.*1.
Proof.
  intros Hs Hp Hin. apply list_elem_of_fmap in Hin as ([q v] & -> & Hin).
  destruct (seg_lookup _ _ _ _ _ _ Hs Hin) as (n & Hn & _). simpl in *. congruence.
Qed.

(** ** Memory accesses *)

Lemma wp_node_load p n m (Q : listNode V -> mem V -> Prop) :
  m_heap m !! p = Some n -> Q n m -> wp (load (Some p)) m Q.
Proof. intros Hp HQ. apply wp_bind, wp_get. rewrite Hp. by apply wp_ret. Qed.

Lemma wp_node_store p n0 n m (Q : unit -> mem V -> Prop) :
  m_heap m !! p = Some n0 -> Q tt (Mem (<[p := n]> (m_heap m)) (m_freed m)) ->
  wp (store (Some p) n) m Q.
Proof. intros Hp HQ. eapply wp_bind, wp_node_load; [done|]. by apply wp_bind, wp_get, wp_put. Qed.

Lemma wp_set_prev p n q m (Q : unit -> mem V -> Prop) :
  m_heap m !! p = Some n ->
  Q tt (Mem (<[p := Node q (n_next n) (n_value n)]> (m_heap m)) (m_freed m)) ->
  wp (set_prev (Some p) q) m Q.
Proof. intros Hp HQ. eapply wp_bind, wp_node_load; [done|]. by eapply wp_node_store. Qed.

Lemma wp_set_next p n q m (Q : unit -> mem V -> Prop) :
  m_heap m !! p = Some n ->
  Q tt (Mem (<[p := Node (n_prev n) q (n_value n)]> (m_heap m)) (m_freed m)) ->
  wp (set_next (Some p) q) m Q.
Proof. intros Hp HQ. eapply wp_bind, wp_node_load; [done|]. by eapply wp_node_store. Qed.

Lemma wp_zmalloc n m (Q : loc -> mem V -> Prop) :
  (forall p, m_heap m !! p = None -> Q p (Mem (<[p := n]> (m_heap m)) (m_freed m))) ->
  wp (zmalloc n) m Q.
Proof.
  intros HQ. apply wp_bind, wp_get. cbn zeta. apply wp_bind, wp_put, wp_ret, HQ.
  apply not_elem_of_dom, is_fresh.
Qed.

Lemma wp_node_zfree p n m (Q : unit -> mem V -> Prop) :
  m_heap m !! p = Some n -> Q tt (Mem (delete p (m_heap m)) (m_freed m)) -> wp (zfree (Some p)) m Q.
Proof. intros Hp HQ. eapply wp_bind, wp_node_load; [done|]. by apply wp_bind, wp_get, wp_put. Qed.

Definition freed_by l (vs : list V) : list V := if l_free l then vs else [].

Lemma wp_call_free l v m (Q : unit -> mem V -> Prop) :
  Q tt (Mem (m_heap m) (m_freed m ++ freed_by l [v])) -> wp (call_free l v) m Q.
Proof.
  unfold call_free, freed_by. destruct (l_free l); intros HQ.
  - by apply wp_bind, wp_get, wp_put.
  - apply wp_ret. rewrite app_nil_r in HQ. by destruct m.
Qed.

(** ** Adding *)

Definition add_post (p : loc) ns' ns l m l' m' : Prop :=
  m_heap m !! p = None /\ llist m' l' ns' /\ same_methods l l' /\ m_freed m' = m_freed m /\
  same_outside (p :: ns.*1) m m'.

Lemma listAddNodeHead_spec l v m ns :
  llist m l ns ->
  wp (listAddNodeHead l v) m (λ l' m', exists p, add_post p ((p, v) :: ns) ns l m l' m').
Proof.
  intros (Hs & Hnd & Hh & Ht & Hl). unfold listAddNodeHead. rewrite Hl.
  destruct (Z.eqb_spec (Z.of_nat (length ns)) 0) as [H0|H0].
  - destruct ns; [|simpl in *; lia]. apply wp_bind, wp_zmalloc. intros p Hp. apply wp_ret.
    exists p. split_and!; try done.
    + split_and!; try done; cbn.
      * split; [|done]. by rewrite lookup_insert_eq.
      * apply NoDup_singleton.
    + intros q Hq. apply lookup_insert_ne. intros ->. apply Hq. by left.
  - destruct ns as [|[q u] ns]; [done|]. simpl in Hh. rewrite Hh.
    apply wp_bind, wp_zmalloc. intros p Hp. pose proof (seg_dom _ _ _ _ _ Hs Hp) as Hni.
    destruct (seg_set_prev _ _ _ _ _ _ (Some p) Hnd Hs) as [Hq Hs'].
    eapply wp_bind, wp_set_prev; [cbn; rewrite lookup_insert_ne; [exact Hq|]|].
    { intros ->. apply Hni. by left. }
    apply wp_ret. exists p. cbn. split_and!; try done.
    + split_and!; try done; cbn -[seg]; [| |lia].
      * split; [|].
        -- rewrite lookup_insert_ne by (intros ->; apply Hni; by left). by rewrite lookup_insert_eq.
        -- rewrite insert_insert_ne by (intros ->; apply Hni; by left). by apply seg_insert.
      * by constructor.
    + intros x Hx. cbn. rewrite fmap_cons, !not_elem_of_cons in Hx. destruct Hx as (? & ? & ?).
      by rewrite !lookup_insert_ne by done.
Qed.

Lemma llist_snoc m l ns :
  llist m l ns -> ns <> [] -> exists a p v, ns = a ++ [(p, v)] /\ l_tail l = Some p.
Proof.
  intros (_ & _ & _ & Ht & _) Hne. destruct (exists_last Hne) as (a & [p v] & ->).
  exists a, p, v. split; [done|]. by rewrite Ht, last_loc_app.
Qed.

Lemma NoDup_fst_app (a b : list (loc * V)) :
  NoDup (a ++ b).*1 -> NoDup a.*1 /\ NoDup b.*1 /\ forall p, p ∈ a.*1 -> p ∉ b.*1.
Proof. rewrite fmap_app. intros (? & ? & ?)%NoDup_app. auto. Qed.

Lemma listAddNodeTail_spec l v m ns :
  llist m l ns ->
  wp (listAddNodeTail l v) m (λ l' m', exists p, add_post p (ns ++ [(p, v)]) ns l m l' m').
Proof.
  intros Hll. pose proof Hll as (Hs & Hnd & Hh & Ht & Hl). unfold listAddNodeTail. rewrite Hl.
  destruct (Z.eqb_spec (Z.of_nat (length ns)) 0) as [H0|H0].
  - destruct ns; [|simpl in *; lia]. apply wp_bind, wp_zmalloc. intros p Hp. apply wp_ret.
    exists p. split_and!; try done.
    + split_and!; try done; cbn.
      * split; [|done]. by rewrite lookup_insert_eq.
      * apply NoDup_singleton.
    + intros q Hq. apply lookup_insert_ne. intros ->. apply Hq. by left.
  - destruct (llist_snoc m l ns Hll) as (a & q & u & -> & Htq); [by intros ->|]. rewrite Htq.
    apply wp_bind, wp_zmalloc. intros p Hp. pose proof (seg_dom _ _ _ _ _ Hs Hp) as Hni.
    destruct (seg_set_next _ _ _ _ _ _ (Some p) Hnd Hs) as [Hq Hs'].
    assert (Hqp : p <> q).
    { intros ->. apply Hni. rewrite fmap_app. apply elem_of_app. right. by left. }
    eapply wp_bind, wp_set_next; [cbn; rewrite lookup_insert_ne; [exact Hq|done]|].
    apply wp_ret. exists p. cbn. split_and!; try done.
    + split_and!; cbn -[seg].
      * apply seg_app. split.
        -- rewrite insert_insert_ne by done. by apply seg_insert.
        -- rewrite last_loc_app. split; [|done]. rewrite lookup_insert_ne by done.
           by rewrite lookup_insert_eq.
      * rewrite fmap_app. apply NoDup_app. split_and!; [done| |apply NoDup_singleton].
        intros x Hx ->%list_elem_of_singleton. done.
      * rewrite Hh. by destruct a as [|[]].
      * by rewrite last_loc_app.
      * rewrite !length_app. cbn. lia.
    + intros x Hx. cbn. rewrite fmap_app, not_elem_of_cons, not_elem_of_app in Hx.
      destruct Hx as (? & ? & Hx). rewrite !lookup_insert_ne; [done|done|].
      intros ->. apply Hx. by left.
Qed.

(** Where a node is: the list around it. *)
Lemma seg_mid h a p v b :
  seg h None (a ++ (p, v) :: b) None -> h !! p = Some (Node (last_loc None a) (first_loc b None) v).
Proof. intros [_ [Hp _]]%seg_app. done. Qed.

(** Linking two chains through a new node: the common part of the insertions. *)
Lemma nil_or_snoc (a : list (loc * V)) : a = [] \/ exists a' p v, a = a' ++ [(p, v)].
Proof.
  destruct (decide (length a = 0)%nat) as [E|E]; [left; by destruct a|right].
  destruct (exists_last (l := a)) as (a' & [p v] & ->); [by intros ->|]. eauto.
Qed.

Lemma llist_tail_eq m l a p v b :
  llist m l (a ++ (p, v) :: b) -> (l_tail l = Some p <-> b = []).
Proof.
  intros (_ & Hnd & _ & Ht & _). rewrite Ht, last_loc_app. cbn [last_loc].
  split; [|by intros ->]. destruct (nil_or_snoc b) as [->|(b' & q & u & ->)]; [done|].
  rewrite last_loc_app. cbn. intros [= ->]. exfalso.
  apply NoDup_fst_app in Hnd as (_ & Hnd & _). cbn in Hnd. apply NoDup_cons in Hnd as [Hni _].
  apply Hni. rewrite fmap_app. apply elem_of_app. right. by left.
Qed.

Lemma llist_head_eq m l a p v b :
  llist m l (a ++ (p, v) :: b) -> (l_head l = Some p <-> a = []).
Proof.
  intros (_ & Hnd & Hh & _ & _). rewrite Hh. split; [|by intros ->].
  destruct a as [|[q u] a]; [done|]. cbn. intros [= ->]. exfalso. cbn in Hnd.
  apply NoDup_cons in Hnd as [Hni _]. apply Hni. rewrite fmap_app. apply elem_of_app. right. by left.
Qed.

(** Redirecting the [next] of whatever ends a chain, and the [prev] of whatever starts
    one: the two conditional stores of the insertion and the deletion. *)
Lemma wp_link_next a q m next (Q : unit -> mem V -> Prop) :
  NoDup a.*1 -> seg (m_heap m) None a next ->
  (forall m', seg (m_heap m') None a q -> m_freed m' = m_freed m ->
     (forall x, last_loc None a <> Some x -> m_heap m' !! x = m_heap m !! x) -> Q tt m') ->
  wp (match last_loc None a with Some p => set_next (Some p) q | None => mret tt end) m Q.
Proof.
  intros Hnd Hs HQ. destruct (nil_or_snoc a) as [->|(a' & p & v & ->)].
  - cbn. apply wp_ret. by apply HQ.
  - rewrite last_loc_app in *. cbn in *.
    destruct (seg_set_next _ _ _ _ _ _ q Hnd Hs) as [Hp Hs'].
    eapply wp_set_next; [exact Hp|]. apply HQ; cbn; [done|done|].
    intros x Hx. apply lookup_insert_ne. congruence.
Qed.

Lemma wp_link_prev b q m prev (Q : unit -> mem V -> Prop) :
  NoDup b.*1 -> seg (m_heap m) prev b None ->
  (forall m', seg (m_heap m') q b None -> m_freed m' = m_freed m ->
     (forall x, first_loc b None <> Some x -> m_heap m' !! x = m_heap m !! x) -> Q tt m') ->
  wp (match first_loc b None with Some p => set_prev (Some p) q | None => mret tt end) m Q.
Proof.
  intros Hnd Hs HQ. destruct b as [|[p v] b].
  - cbn. apply wp_ret. by apply HQ.
  - destruct (seg_set_prev _ _ _ _ _ _ q Hnd Hs) as [Hp Hs'].
    eapply wp_set_prev; [exact Hp|]. apply HQ; cbn [m_heap m_freed]; [done|done|].
    intros x Hx. apply lookup_insert_ne. cbn in Hx. congruence.
Qed.

Lemma last_loc_elem a x : last_loc None a = Some x -> x ∈ (a : list (loc * V)).*1.
Proof.
  destruct (nil_or_snoc a) as [->|(a' & p & v & ->)]; [done|]. rewrite last_loc_app. cbn.
  intros [= ->]. rewrite fmap_app. apply elem_of_app. right. by left.
Qed.

Lemma first_loc_elem b x : first_loc b None = Some x -> x ∈ (b : list (loc * V)).*1.
Proof. destruct b as [|[p v] b]; [done|]. intros [= ->]. by left. Qed.

(** Two disjoint chains [x] and [y] joined around a fresh node. *)
Lemma insert_between {A} (k : ST (mem V) A) x y v m (Q : A -> mem V -> Prop) p lx fy :
  last_loc None x = lx -> first_loc y None = fy -> NoDup (x ++ y).*1 -> seg (m_heap m) None (x ++ y) None -> m_heap m !! p = None ->
  (forall m', seg (m_heap m') None (x ++ (p, v) :: y) None -> m_freed m' = m_freed m ->
     same_outside (p :: (x ++ y).*1) m m' -> wp k m' Q) ->
  wp ((match lx with Some q => set_next (Some q) (Some p) | None => mret tt end);;
      (match fy with Some q => set_prev (Some q) (Some p) | None => mret tt end);; k)
     (Mem (<[p := Node lx fy v]> (m_heap m)) (m_freed m)) Q.
Proof.
  intros <- <- Hnd Hs Hp HQ. pose proof (seg_dom _ _ _ _ _ Hs Hp) as Hni.
  rewrite fmap_app, not_elem_of_app in Hni. destruct Hni as [Hpx Hpy].
  destruct (NoDup_fst_app _ _ Hnd) as (Hx & Hy & Hdis). apply seg_app in Hs as [Hsx Hsy].
  apply wp_bind. eapply wp_link_next; [done|by apply seg_insert|].
  intros m1 Hs1 Hf1 Ho1. apply wp_bind. eapply wp_link_prev; [done| |].
  - eapply (seg_frame (<[p := Node (last_loc None x) (first_loc y None) v]> (m_heap m)));
      [|by apply seg_insert]. cbn in Ho1. intros q Hq. apply Ho1.
    intros Hl%last_loc_elem. by apply (Hdis q).
  - intros m2 Hs2 Hf2 Ho2. cbn in Ho1, Hf1.
    assert (Hout : forall q, q ∉ y.*1 -> m_heap m2 !! q = m_heap m1 !! q).
    { intros q Hq. apply Ho2. by intros Hl%first_loc_elem. }
    apply HQ; [| congruence |].
    + apply seg_app. split; [|split; [|done]].
      * eapply seg_frame; [|exact Hs1]. intros q Hq. apply Hout. by apply Hdis.
      * rewrite Hout by done. rewrite Ho1 by (by intros Hl%last_loc_elem). by rewrite lookup_insert_eq.
    + intros q Hq. rewrite fmap_app, not_elem_of_cons, not_elem_of_app in Hq. destruct Hq as (? & ? & ?).
      rewrite Hout by done. rewrite Ho1 by (by intros Hl%last_loc_elem). by apply lookup_insert_ne.
Qed.

Lemma NoDup_insert_fst (x y : list (loc * V)) p v :
  NoDup (x ++ y).*1 -> p ∉ (x ++ y).*1 -> NoDup (x ++ (p, v) :: y).*1.
Proof.
  rewrite !fmap_app. cbn. intros Hnd Hp. rewrite <- Permutation_middle. by constructor.
Qed.

Lemma listInsertNode_spec l m a p0 v0 b v (after : bool) :
  llist m l (a ++ (p0, v0) :: b) ->
  wp (listInsertNode l p0 v after) m (λ l' m', exists p,
    add_post p (if after then a ++ (p0, v0) :: (p, v) :: b else a ++ (p, v) :: (p0, v0) :: b)
      (a ++ (p0, v0) :: b) l m l' m').
Proof.
  intros Hll. pose proof Hll as (Hs & Hnd & Hh & Ht & Hl). pose proof (seg_mid _ _ _ _ _ Hs) as Hp0.
  eapply wp_bind, wp_node_load; [exact Hp0|]. apply wp_bind, wp_zmalloc. intros p Hp.
  pose proof (seg_dom _ _ _ _ _ Hs Hp) as Hni.
  destruct after; cbn [n_prev n_next].
  - assert (Hx : a ++ (p0, v0) :: b = (a ++ [(p0, v0)]) ++ b) by (by rewrite <- app_assoc).
    rewrite Hx in Hnd, Hs, Hni.
    assert (Hlx : Some p0 = last_loc None (a ++ [(p0, v0)])) by (by rewrite last_loc_app).
    apply (insert_between _ (a ++ [(p0, v0)]) b v m _ p (Some p0) (first_loc b None)); [done..|].
    intros m' Hs' Hf Ho. apply wp_ret.
    + exists p. rewrite <- app_assoc in Hs', Ho. cbn in Hs', Ho. split_and!; try done.
      split_and!; cbn -[seg]; [done| | | |].
      * rewrite <- app_assoc in Hni. rewrite <- app_assoc in Hnd.
        change (a ++ (p0, v0) :: (p, v) :: b) with (a ++ [(p0, v0)] ++ (p, v) :: b). rewrite app_assoc.
        apply NoDup_insert_fst; by rewrite <- app_assoc.
      * rewrite Hh. by destruct a as [|[]].
      * rewrite last_loc_app. cbn. case_bool_decide as Hb.
        -- apply (llist_tail_eq _ _ _ _ _ _ Hll) in Hb. by subst b.
        -- rewrite Ht, last_loc_app. cbn. destruct (nil_or_snoc b) as [->|(b' & q & u & ->)].
           ++ exfalso. apply Hb. by apply (llist_tail_eq _ _ _ _ _ _ Hll).
           ++ by rewrite !last_loc_app.
      * rewrite Hl, !length_app. cbn. lia.
  - apply (insert_between _ a ((p0, v0) :: b) v m _ p (last_loc None a) (Some p0)); [done..|]. intros m' Hs' Hf Ho. apply wp_ret.
    + exists p. split_and!; try done. split_and!; cbn -[seg]; [done| | | |].
      * by apply NoDup_insert_fst.
      * case_bool_decide as Hb.
        -- apply (llist_head_eq _ _ _ _ _ _ Hll) in Hb. by subst a.
        -- rewrite Hh. destruct a as [|[]]; [|done]. exfalso. apply Hb.
           by apply (llist_head_eq _ _ _ _ _ _ Hll).
      * by rewrite Ht, !last_loc_app.
      * rewrite Hl, !length_app. cbn. lia.
Qed.

(** ** Removing *)

Definition del_post (p : loc) (v : V) ns' ns l m l' m' : Prop :=
  m_heap m' !! p = None /\ llist m' l' ns' /\ same_methods l l' /\
  m_freed m' = m_freed m ++ freed_by l [v] /\ same_outside ns.*1 m m'.

Lemma listDelNode_spec l m a p v b :
  llist m l (a ++ (p, v) :: b) ->
  wp (listDelNode l p) m (λ l' m', del_post p v (a ++ b) (a ++ (p, v) :: b) l m l' m').
Proof.
  intros Hll. pose proof Hll as (Hs & Hnd & Hh & Ht & Hl). pose proof (seg_mid _ _ _ _ _ Hs) as Hp.
  eapply wp_bind, wp_node_load; [exact Hp|]. cbn [n_prev n_next n_value].
  apply seg_app in Hs as [Hsa Hsb]. cbn [first_loc] in Hsa. destruct Hsb as [_ Hsb].
  pose proof (NoDup_fst_app _ _ Hnd) as (Hnda & Hndb & Hdis). cbn in Hndb.
  apply NoDup_cons in Hndb as [Hpb Hndb].
  assert (Hpa : p ∉ a.*1) by (intros Hin; apply (Hdis p Hin); by left).
  apply wp_bind. eapply (wp_link_next a (first_loc b None)); [done|done|].
  intros m1 Hs1 Hf1 Ho1. apply wp_bind. eapply (wp_link_prev b (last_loc None a)); [done| |].
  { eapply seg_frame; [|exact Hsb]. intros q Hq. apply Ho1. intros Hl'%last_loc_elem.
    apply (Hdis q Hl'). by right. }
  intros m2 Hs2 Hf2 Ho2.
  assert (Hout : forall q, q ∉ b.*1 -> m_heap m2 !! q = m_heap m1 !! q).
  { intros q Hq. apply Ho2. by intros Hl'%first_loc_elem. }
  assert (Hin : forall q, q ∉ a.*1 -> m_heap m1 !! q = m_heap m !! q).
  { intros q Hq. apply Ho1. by intros Hl'%last_loc_elem. }
  apply wp_bind, wp_call_free. eapply wp_bind, wp_node_zfree.
  { cbn. rewrite Hout, Hin by done. exact Hp. }
  apply wp_ret. cbn. split_and!.
  - apply lookup_delete_eq.
  - split_and!; cbn -[seg].
    + apply seg_delete; [rewrite fmap_app, not_elem_of_app; done|]. apply seg_app. split; [|done].
      eapply seg_frame; [|exact Hs1]. intros q Hq. apply Hout. intros Hqb. apply (Hdis q Hq). by right.
    + rewrite fmap_app. apply NoDup_app. split_and!; [done| |done]. intros q Hq Hqb.
      apply (Hdis q Hq). by right.
    + destruct a as [|[q u] a]; cbn.
      * by destruct (first_loc b None).
      * destruct (last_loc (Some q) a) eqn:El; [by destruct (first_loc b None); cbn; rewrite Hh|].
        exfalso. clear -El. revert q El. induction a as [|[] a IH]; intros q El; [done|]. by eapply IH.
    + rewrite last_loc_app. rewrite last_loc_app in Ht. cbn in Ht.
      destruct (nil_or_snoc b) as [->|(b' & q & u & ->)]; cbn.
      * destruct (last_loc None a); done.
      * rewrite !last_loc_app in *. cbn in *. rewrite first_loc_app. cbn.
        destruct (first_loc b' (Some q)) eqn:E; [by destruct (last_loc None a)|by destruct b' as [|[]]].
    + destruct (last_loc None a), (first_loc b None); cbn; rewrite Hl, !length_app; cbn; lia.
  - by destruct (last_loc None a), (first_loc b None).
  - rewrite Hf2, Hf1. unfold freed_by. by destruct (last_loc None a), (first_loc b None).
  - intros q Hq. cbn. rewrite fmap_app, not_elem_of_app in Hq. cbn in Hq.
    rewrite not_elem_of_cons in Hq. destruct Hq as (? & ? & ?).
    rewrite lookup_delete_ne by done. by rewrite Hout, Hin.
Qed.

Lemma listEmpty_loop_spec l ns : forall prev m,
  seg (m_heap m) prev ns None -> NoDup ns.*1 ->
  wp (listEmpty_loop l (length ns) (first_loc ns None)) m (λ _ m',
    (forall p, m_heap m' !! p = if decide (p ∈ ns.*1) then None else m_heap m !! p) /\
    m_freed m' = m_freed m ++ freed_by l ns.*2).
Proof.
  induction ns as [|[p v] ns IH]; intros prev m Hs Hnd; cbn [length listEmpty_loop first_loc].
  { apply wp_ret. split; [done|]. unfold freed_by. destruct (l_free l); by rewrite app_nil_r. }
  destruct Hs as [Hp Hs]. cbn in Hnd. apply NoDup_cons in Hnd as [Hni Hnd].
  eapply wp_bind, wp_node_load; [exact Hp|]. apply wp_bind, wp_call_free.
  eapply wp_bind, wp_node_zfree; [exact Hp|]. cbn.
  eapply wp_mono; [apply (IH (Some p)); [|done]|].
  - cbn. by apply seg_delete.
  - intros _ m' [Hh Hf]. cbn in Hh, Hf. split.
    + intros q. rewrite Hh. cbn. destruct (decide (q = p)) as [->|Hne].
      * rewrite lookup_delete_eq. rewrite (decide_True (P := p ∈ p :: _)) by (by left). by case_decide.
      * rewrite lookup_delete_ne by done. apply decide_ext. rewrite elem_of_cons. tauto.
    + rewrite Hf, <- app_assoc. f_equal. unfold freed_by. by destruct (l_free l).
Qed.

Lemma listEmpty_spec l m ns :
  llist m l ns ->
  wp (listEmpty l) m (λ l' m', llist m' l' [] /\ same_methods l l' /\
    (forall p, m_heap m' !! p = if decide (p ∈ ns.*1) then None else m_heap m !! p) /\
    m_freed m' = m_freed m ++ freed_by l ns.*2).
Proof.
  intros (Hs & Hnd & Hh & Ht & Hl). unfold listEmpty. rewrite Hl, Nat2Z.id, Hh.
  apply wp_bind. eapply wp_mono; [by apply (listEmpty_loop_spec l ns None)|].
  intros _ m' [Hheap Hf]. apply wp_ret. split_and!; try done. split_and!; try done. constructor.
Qed.

(** ** Moving nodes *)

Lemma listRotateTailToHead_spec l m a p v :
  llist m l (a ++ [(p, v)]) ->
  wp (listRotateTailToHead l) m (λ l' m', llist m' l' ((p, v) :: a) /\ same_methods l l' /\
    m_freed m' = m_freed m /\ same_outside (a ++ [(p, v)]).*1 m m').
Proof.
  intros Hll. pose proof Hll as (Hs & Hnd & Hh & Ht & Hl). unfold listRotateTailToHead.
  rewrite Hl, length_app. cbn [length]. destruct (Z.leb_spec (Z.of_nat (length a + 1)) 1) as [H1|H1].
  { destruct a; [|simpl in *; lia]. apply wp_ret. by split_and!. }
  apply seg_app in Hs as [Hsa [Hp _]]. cbn in Hsa, Hp. rewrite last_loc_app in Ht. cbn in Ht.
  destruct (NoDup_fst_app _ _ Hnd) as (Hnda & _ & Hdis).
  assert (Hpa : p ∉ a.*1) by (intros Hin; apply (Hdis p Hin); by left).
  destruct (nil_or_snoc a) as [->|(b & q & u & Ha)]; [cbn in *; lia|].
  rewrite Ht. eapply wp_bind, wp_node_load; [exact Hp|]. cbn [n_prev].
  assert (Hla : last_loc None a = Some q) by (by rewrite Ha, last_loc_app). rewrite Hla. cbn [l_tail set_ends].
  rewrite Ha in Hnda, Hsa. destruct (seg_set_next _ _ _ _ _ _ None Hnda Hsa) as [Hq Hs1].
  rewrite <- Ha in Hnda, Hsa, Hs1.
  assert (Hqp : q <> p).
  { intros ->. apply Hpa. rewrite Ha, fmap_app. apply elem_of_app. right. by left. }
  eapply wp_bind, wp_set_next; [exact Hq|]. cbn.
  destruct a as [|[f fv] a]; [by destruct b|]. cbn in Hh. rewrite Hh.
  destruct (seg_set_prev _ _ _ _ _ _ (Some p) Hnda Hs1) as [Hf Hs2].
  assert (Hfp : f <> p) by (intros ->; apply Hpa; by left).
  eapply wp_bind, wp_set_prev; [exact Hf|]. cbn.
  eapply wp_bind, wp_set_prev; [cbn; rewrite !lookup_insert_ne by done; exact Hp|]. cbn.
  eapply wp_bind, wp_set_next; [cbn; apply lookup_insert_eq|]. cbn. apply wp_ret.
  split_and!; try done.
  - split_and!; cbn -[seg].
    + split; [by rewrite lookup_insert_eq|]. rewrite insert_insert_eq. by apply seg_insert.
    + by constructor.
    + done.
    + cbn in Hla. by rewrite Hla.
    + cbn. lia.
  - intros x Hx. cbn in Hx |- *. rewrite fmap_app, not_elem_of_cons, not_elem_of_app in Hx.
    destruct Hx as (Hxf & Hxa & Hxp). cbn in Hxp. rewrite not_elem_of_cons in Hxp.
    assert (x <> q).
    { intros ->. apply last_loc_elem in Hla. cbn in Hla. apply elem_of_cons in Hla. tauto. }
    destruct Hxp as [Hxp _]. by rewrite !lookup_insert_ne by congruence.
Qed.

Lemma listRotateHeadToTail_spec l m a p v :
  llist m l ((p, v) :: a) ->
  wp (listRotateHeadToTail l) m (λ l' m', llist m' l' (a ++ [(p, v)]) /\ same_methods l l' /\
    m_freed m' = m_freed m /\ same_outside ((p, v) :: a).*1 m m').
Proof.
  intros Hll. pose proof Hll as (Hs & Hnd & Hh & Ht & Hl). unfold listRotateHeadToTail.
  rewrite Hl. cbn [length]. destruct (Z.leb_spec (Z.of_nat (S (length a))) 1) as [H1|H1].
  { destruct a; [|simpl in *; lia]. apply wp_ret. by split_and!. }
  destruct Hs as [Hp Hsa]. cbn in Hnd. apply NoDup_cons in Hnd as [Hpa Hnda].
  destruct a as [|[f fv] a]; [cbn in *; lia|]. cbn in Hh. rewrite Hh.
  eapply wp_bind, wp_node_load; [exact Hp|]. cbn [n_next first_loc l_head l_tail set_ends].
  destruct (seg_set_prev _ _ _ _ _ _ None Hnda Hsa) as [Hf Hs1].
  assert (Hfp : f <> p) by (intros ->; apply Hpa; by left).
  eapply wp_bind, wp_set_prev; [exact Hf|]. cbn [n_next n_value].
  destruct (nil_or_snoc ((f, fv) :: a)) as [?|(b & q & u & Ha)]; [done|].
  rewrite Ha in Hnda, Hs1, Ht |- *.
  destruct (seg_set_next _ _ _ _ _ _ (Some p) Hnda Hs1) as [Hq Hs2].
  assert (Hqp : q <> p).
  { intros ->. apply Hpa. rewrite Ha, fmap_app. apply elem_of_app. right. by left. }
  cbn in Ht. rewrite last_loc_app in Ht. cbn in Ht. rewrite Ht.
  eapply wp_bind, wp_set_next; [exact Hq|]. cbn.
  eapply wp_bind, wp_set_next; [cbn; rewrite !lookup_insert_ne by done; exact Hp|]. cbn.
  eapply wp_bind, wp_set_prev; [cbn; apply lookup_insert_eq|]. cbn. apply wp_ret.
  split_and!; try done.
  - split_and!; cbn -[seg].
    + apply seg_app. split.
      * rewrite insert_insert_eq. apply seg_insert; [by rewrite <- Ha|]. exact Hs2.
      * rewrite last_loc_app. split; [|done]. by rewrite lookup_insert_eq.
    + rewrite fmap_app. apply NoDup_app. split_and!; [done| |apply NoDup_singleton].
      intros x Hx ->%list_elem_of_singleton. by rewrite <- Ha in Hx.
    + by rewrite <- Ha.
    + by rewrite last_loc_app.
    + rewrite !length_app. cbn. lia.
  - intros x Hx. cbn in Hx |- *. rewrite not_elem_of_cons in Hx. destruct Hx as [Hxp Hxa].
    assert (x <> q).
    { intros ->. apply Hxa. rewrite fmap_app. apply elem_of_app. right. by left. }
    assert (x <> f) by (intros ->; apply Hxa; rewrite <- Ha; by left).
    by rewrite !lookup_insert_ne by done.
Qed.

Lemma listJoin_spec l o m ns os :
  llist m l ns -> llist m o os -> NoDup (ns ++ os).*1 ->
  wp (listJoin l o) m (λ r m', llist m' (fst r) (ns ++ os) /\ llist m' (snd r) [] /\
    same_methods l (fst r) /\ same_methods o (snd r) /\ m_freed m' = m_freed m /\
    same_outside (ns ++ os).*1 m m').
Proof.
  intros (Hs & Hnd & Hh & Ht & Hl) (Hso & Hndo & Hho & Hto & Hlo) Hall. unfold listJoin. rewrite Hlo.
  destruct (NoDup_fst_app _ _ Hall) as (_ & _ & Hdis).
  destruct (Z.eqb_spec (Z.of_nat (length os)) 0) as [H0|H0].
  { destruct os; [|simpl in *; lia]. apply wp_ret. rewrite !app_nil_r in *. by split_and!. }
  destruct os as [|[p v] os]; [done|]. cbn in Hho. rewrite Hho, Ht.
  destruct (seg_set_prev _ _ _ _ _ _ (last_loc None ns) Hndo Hso) as [Hp Hso'].
  assert (Hpn : p ∉ ns.*1) by (intros Hin; apply (Hdis p Hin); by left).
  eapply wp_bind, wp_set_prev; [exact Hp|]. cbn [n_next n_value].
  apply wp_bind. apply (wp_link_next ns (Some p)) with (next := None); [done|by apply seg_insert|].
  intros m1 Hs1 Hf1 Ho1. apply wp_ret. cbn in Hf1, Ho1.
  assert (Hos : seg (m_heap m1) (last_loc None ns) ((p, v) :: os) None).
  { eapply seg_frame; [|exact Hso']. intros q Hq. apply Ho1. intros Hq'%last_loc_elem.
    by apply (Hdis q). }
  split_and!; cbn -[seg].
  - split_and!; cbn -[seg].
    + apply seg_app. by split.
    + done.
    + destruct (last_loc None ns) eqn:E; cbn.
      * rewrite Hh. by destruct ns as [|[]].
      * by destruct (nil_or_snoc ns) as [->|(? & ? & ? & ->)]; [|by rewrite last_loc_app in E].
    + rewrite last_loc_app. rewrite Hto. done.
    + rewrite length_app. destruct (last_loc None ns); cbn; rewrite Hl; cbn; lia.
  - split_and!; try done. constructor.
  - by destruct (last_loc None ns).
  - done.
  - done.
  - intros q Hq. rewrite fmap_app, not_elem_of_app in Hq. cbn in Hq. rewrite not_elem_of_cons in Hq.
    destruct Hq as (Hqn & Hqp & _). rewrite Ho1 by (by intros Hq'%last_loc_elem).
    by apply lookup_insert_ne.
Qed.

(** ** Walking *)

Lemma walk_head k : forall h prev ns fr,
  seg h prev ns None ->
  walk AL_START_HEAD k (first_loc ns None) (Mem h fr) = Some (fst <$> ns !! k, Mem h fr).
Proof.
  induction k as [|k IH]; intros h prev ns fr Hs; destruct ns as [|[p v] ns]; try done.
  destruct Hs as [Hp Hs]. cbn [walk first_loc]. unfold mbind at 1, ST_bind at 1.
  unfold load, get, mbind, ST_bind, mret, ST_ret. cbn. rewrite Hp. cbn. by apply (IH h (Some p)).
Qed.

Lemma walk_tail k : forall h next ns fr,
  seg h None ns next ->
  walk AL_START_TAIL k (last_loc None ns) (Mem h fr) = Some (fst <$> reverse ns !! k, Mem h fr).
Proof.
  induction k as [|k IH]; intros h next ns fr Hs; destruct (nil_or_snoc ns) as [->|(a & p & v & ->)]; try done.
  - rewrite last_loc_app, reverse_app. done.
  - rewrite last_loc_app, reverse_app. cbn [last_loc]. apply seg_app in Hs as [Ha [Hp _]].
    cbn [walk]. unfold mbind at 1, ST_bind at 1.
    unfold load, get, mbind, ST_bind, mret, ST_ret. cbn. rewrite Hp. cbn. by apply (IH h (Some p)).
Qed.

(** [listIndex]: from the head for [index >= 0], from the tail for the others, -1 being
    the last node. *)
Definition node_at ns (index : Z) : option (loc * V) :=
  if 0 <=? index then ns !! Z.to_nat index
  else reverse ns !! Z.to_nat (- index - 1).

Lemma listIndex_spec l m ns index :
  llist m l ns -> listIndex l index m = Some (fst <$> node_at ns index, m).
Proof.
  intros (Hs & _ & Hh & Ht & _). unfold listIndex, node_at. destruct m as [h fr].
  destruct (Z.ltb_spec index 0), (Z.leb_spec 0 index); try lia.
  - rewrite Ht. by apply (walk_tail _ h None).
  - rewrite Hh. by apply (walk_head _ h None).
Qed.

Lemma listNext_head h fr p v next prev :
  h !! p = Some (Node prev next v) ->
  listNext (Iter (Some p) AL_START_HEAD) (Mem h fr) = Some ((Some p, Iter next AL_START_HEAD), Mem h fr).
Proof.
  intros Hp. unfold listNext, load, get, mbind, ST_bind, mret, ST_ret. cbn. by rewrite Hp.
Qed.

Definition matches l (key v : V) : bool :=
  match l_match l with Some f => f v key | None => bool_decide (key = v) end.

Lemma listSearchKey_loop_spec l key ns : forall fuel prev h fr,
  (length ns < fuel)%nat -> seg h prev ns None ->
  listSearchKey_loop fuel l key (Iter (first_loc ns None) AL_START_HEAD) (Mem h fr) =
    Some (fst <$> head (filter (λ n, matches l key n.2 = true) ns), Mem h fr).
Proof.
  induction ns as [|[p v] ns IH]; intros [|fuel] prev h fr Hf Hs; try (simpl in Hf; lia); [done|].
  destruct Hs as [Hp Hs]. rewrite filter_cons. cbn [listSearchKey_loop first_loc snd].
  unfold mbind at 1, ST_bind at 1. rewrite (listNext_head _ _ _ _ _ _ Hp). cbn [mbind option_bind].
  unfold load, get, mbind, ST_bind, mret, ST_ret. cbn -[filter]. rewrite Hp. cbn -[filter].
  change (match l_match l with Some f => f v key | None => bool_decide (key = v) end) with (matches l key v).
  destruct (matches l key v); cbn -[filter]; [done|]. apply (IH fuel (Some p)); [simpl in Hf; lia|done].
Qed.

Lemma listSearchKey_spec l key m ns :
  llist m l ns ->
  listSearchKey l key m = Some (fst <$> head (filter (λ n, matches l key n.2 = true) ns), m).
Proof.
  intros (Hs & _ & Hh & _ & Hl). unfold listSearchKey, listRewind. rewrite Hl, Nat2Z.id, Hh.
  destruct m as [h fr]. apply (listSearchKey_loop_spec l key ns _ None); [lia|done].
Qed.

(** ** Copying *)

Definition dup_value l (v : V) : option V :=
  match l_dup l with Some dup => dup v | None => Some v end.

(** The copies made before the first failure. *)
Fixpoint copies l (vs : list V) : list V :=
  match vs with
  | [] => []
  | v :: vs' => match dup_value l v with Some w => w :: copies l vs' | None => [] end
  end.

(** The nodes [cs] were all allocated since [m0], and are the only difference. *)
Definition allocated (cs : list (loc * V)) m0 m : Prop :=
  same_outside cs.*1 m0 m /\ forall p, p ∈ cs.*1 -> m_heap m0 !! p = None.

Definition dup_post m0 orig (vs done : list V) (r : option (list_ V)) m' : Prop :=
  match r with
  | Some copy => exists cs, llist m' copy cs /\ same_methods orig copy /\ allocated cs m0 m' /\
      m_freed m' = m_freed m0 /\
      exists ws, mapM (dup_value orig) vs = Some ws /\ cs.*2 = done ++ ws
  | None => mapM (dup_value orig) vs = None /\ m_heap m' = m_heap m0 /\
      m_freed m' = m_freed m0 ++ freed_by orig (done ++ copies orig vs)
  end.

Lemma allocated_add (cs : list (loc * V)) m0 m m' p v :
  allocated cs m0 m -> m_heap m !! p = None -> same_outside (p :: cs.*1) m m' ->
  allocated (cs ++ [(p, v)]) m0 m'.
Proof.
  intros [Ho Hn] Hp Ho'. split.
  - intros q. rewrite fmap_app, not_elem_of_app. cbn. rewrite list_elem_of_singleton. intros [Hq Hqp].
    rewrite Ho'; [by apply Ho|]. rewrite elem_of_cons. tauto.
  - intros q. rewrite fmap_app, elem_of_app. cbn. rewrite list_elem_of_singleton.
    intros [Hq| ->]; [by apply Hn|]. destruct (decide (p ∈ cs.*1)); [by apply Hn|].
    by rewrite <- Ho.
Qed.

Lemma listDup_loop_spec orig m0 ns : forall fuel prev copy cs m,
  (length ns < fuel)%nat -> seg (m_heap m0) prev ns None -> llist m copy cs ->
  same_methods orig copy -> allocated cs m0 m -> m_freed m = m_freed m0 ->
  wp (listDup_loop fuel copy (Iter (first_loc ns None) AL_START_HEAD)) m
     (dup_post m0 orig ns.*2 cs.*2).
Proof.
  induction ns as [|[p v] ns IH]; intros [|fuel] prev copy cs m Hf Hs Hll Hm Hal Hfr; try (simpl in Hf; lia).
  { apply wp_bind, wp_ret, wp_ret. exists cs. split_and!; try done. exists []. by rewrite app_nil_r. }
  destruct Hs as [Hp Hs]. cbn [listDup_loop first_loc].
  assert (Hpm : m_heap m !! p = Some (Node prev (first_loc ns None) v)).
  { destruct Hal as [Ho Hn]. rewrite Ho; [done|]. intros Hin. apply Hn in Hin. congruence. }
  eapply wp_bind, wp_bind, wp_node_load; [exact Hpm|]. apply wp_ret. eapply wp_bind, wp_node_load; [exact Hpm|].
  cbn [n_value n_next it_direction]. replace (l_dup copy) with (l_dup orig) by (symmetry; apply Hm).
  fold (dup_value orig v). destruct (dup_value orig v) as [w|] eqn:Ew.
  - apply wp_bind. eapply wp_mono; [by apply listAddNodeTail_spec|].
    intros copy' m' (q & Hq & Hll' & Hm' & Hfr' & Ho').
    eapply wp_mono; [apply (IH fuel (Some p) copy' (cs ++ [(q, w)])); try done|].
    + simpl in Hf. lia.
    + destruct Hm as (? & ? & ?), Hm' as (? & ? & ?). split_and!; congruence.
    + by eapply allocated_add.
    + congruence.
    + intros r m'' Hr. destruct r as [c|]; cbn in Hr |- *.
      * destruct Hr as (cs' & ? & ? & ? & ? & ws & Hws & Hcs). exists cs'. split_and!; try done.
        exists (w :: ws). cbn. rewrite Ew. cbn. rewrite Hws. split; [done|].
        by rewrite Hcs, fmap_app, <- app_assoc.
      * destruct Hr as (Hws & ? & Hfd). rewrite Ew. cbn. rewrite Hws. split_and!; try done.
        by rewrite Hfd, fmap_app, <- app_assoc.
  - unfold listRelease. apply wp_bind, wp_bind. eapply wp_mono; [by apply listEmpty_spec|].
    intros _ m' (_ & _ & Hh & Hfd). apply wp_ret, wp_ret. cbn. rewrite Ew. split_and!; [done| |].
    + apply map_eq. intros q. rewrite Hh. destruct Hal as [Ho Hn]. case_decide; [|by apply Ho].
      symmetry. by apply Hn.
    + rewrite Hfd, Hfr, app_nil_r. unfold freed_by. destruct Hm as (_ & -> & _). done.
Qed.

Lemma listDup_spec orig m ns :
  llist m orig ns -> wp (listDup orig) m (dup_post m orig ns.*2 []).
Proof.
  intros (Hs & _ & Hh & _ & Hl). unfold listDup, listRewind. rewrite Hl, Nat2Z.id, Hh.
  eapply (listDup_loop_spec orig m ns _ None _ []); try done; try lia.
  - split_and!; try done. constructor.
  - split; [done|]. intros p Hp. by apply not_elem_of_nil in Hp.
Qed.

(** ** Iterating while deleting *)

(** A client loop: visit every node from one end and delete those that [keep] rejects,
    which the comment of [listNext] allows for the node just returned. *)
Fixpoint purge (fuel : nat) (keep : V -> bool) l (iter : listIter) : ST (mem V) (list loc * list_ V) :=
  match fuel with
  | O => fail
  | S fuel' =>
      '(node, iter) ← listNext iter;
      match node with
      | None => mret ([], l)
      | Some p =>
          n ← load (Some p);
          l ← (if keep (n_value n) then mret l else listDelNode l p);
          '(visited, l) ← purge fuel' keep l iter;
          mret (p :: visited, l)
      end
  end.

Definition in_order (d : direction) {A} (xs : list A) : list A :=
  match d with AL_START_HEAD => xs | AL_START_TAIL => reverse xs end.

Definition purge_post (d : direction) (keep : V -> bool) l m (kept rest : list (loc * V))
    (r : list loc * list_ V) m' : Prop :=
  fst r = (in_order d rest).*1 /\ same_methods l (snd r) /\
  llist m' (snd r) (match d with AL_START_HEAD => kept ++ filter (λ n, keep n.2 = true) rest
                              | AL_START_TAIL => filter (λ n, keep n.2 = true) rest ++ kept end) /\
  m_freed m' = m_freed m ++ freed_by l (filter (λ n, keep n.2 = false) (in_order d rest)).*2.

Lemma same_methods_trans l l1 l2 : same_methods l l1 -> same_methods l1 l2 -> same_methods l l2.
Proof. intros (? & ? & ?) (? & ? & ?). split_and!; congruence. Qed.

Lemma freed_by_app l l' (fr1 fr vs ws : list V) :
  same_methods l l' -> fr1 = fr ++ freed_by l vs ->
  fr1 ++ freed_by l' ws = fr ++ freed_by l (vs ++ ws).
Proof.
  intros (_ & E & _) ->. unfold freed_by. rewrite E. destruct (l_free l); [by rewrite <- app_assoc|].
  by rewrite app_nil_r.
Qed.

(** One turn of the loop, in either direction: [l] before, [l1] after. *)
Lemma purge_step (keep : V -> bool) l m a p v b :
  llist m l (a ++ (p, v) :: b) ->
  wp (if keep v then mret l else listDelNode l p) m (λ (l1 : list_ V) m1,
    llist m1 l1 (a ++ (if (keep v : bool) then [(p, v)] else []) ++ b) /\ same_methods l l1 /\
    m_freed m1 = m_freed m ++ freed_by l (if keep v then [] else [v])).
Proof.
  intros Hll. destruct (keep v).
  - apply wp_ret. split_and!; try done. unfold freed_by. destruct (l_free l); by rewrite app_nil_r.
  - eapply wp_mono; [by apply listDelNode_spec|]. by intros l1 m1 (_ & ? & ? & ? & _).
Qed.

Lemma purge_head keep b : forall fuel l m a,
  (length b < fuel)%nat -> llist m l (a ++ b) ->
  wp (purge fuel keep l (Iter (first_loc b None) AL_START_HEAD)) m (purge_post AL_START_HEAD keep l m a b).
Proof.
  induction b as [|[p v] b IH]; intros [|fuel] l m a Hf Hll; try (simpl in Hf; lia).
  { apply wp_bind, wp_ret, wp_ret. rewrite app_nil_r in Hll. split_and!; try done; cbn.
    - by rewrite app_nil_r.
    - unfold freed_by. destruct (l_free l); by rewrite app_nil_r. }
  cbn [purge first_loc]. pose proof (seg_mid _ _ _ _ _ (proj1 Hll)) as Hp.
  eapply wp_bind, wp_bind, wp_node_load; [exact Hp|]. apply wp_ret. eapply wp_bind, wp_node_load; [exact Hp|].
  cbn [n_value n_next it_direction]. apply wp_bind. eapply wp_mono; [by apply purge_step|].
  intros l1 m1 (Hll1 & Hm1 & Hf1). rewrite app_assoc in Hll1. apply wp_bind.
  eapply wp_mono; [apply IH; [simpl in Hf; lia|exact Hll1]|].
  intros [vis l2] m2 (Hv & Hm2 & Hll2 & Hf2). apply wp_ret. cbn -[filter] in *.
  unfold purge_post, in_order. rewrite !filter_cons. cbn [fst snd].
  rewrite <- app_assoc in Hll2. split_and!.
  - by rewrite Hv.
  - by eapply same_methods_trans.
  - by destruct (keep v).
  - rewrite Hf2. rewrite (freed_by_app l l1 _ _ _ _ Hm1 Hf1). f_equal. by destruct (keep v).
Qed.

Lemma purge_tail keep b : forall fuel l m a,
  (length b < fuel)%nat -> llist m l (b ++ a) ->
  wp (purge fuel keep l (Iter (last_loc None b) AL_START_TAIL)) m (purge_post AL_START_TAIL keep l m a b).
Proof.
  induction b as [|[p v] b IH] using rev_ind; intros [|fuel] l m a Hf Hll;
    try (rewrite ?length_app in Hf; simpl in Hf; lia).
  { apply wp_bind, wp_ret, wp_ret. split_and!; try done; cbn.
    unfold freed_by. destruct (l_free l); by rewrite app_nil_r. }
  rewrite <- app_assoc in Hll. cbn [app] in Hll. rewrite length_app in Hf. cbn in Hf.
  rewrite last_loc_app. cbn [purge last_loc]. pose proof (seg_mid _ _ _ _ _ (proj1 Hll)) as Hp.
  eapply wp_bind, wp_bind, wp_node_load; [exact Hp|]. apply wp_ret. eapply wp_bind, wp_node_load; [exact Hp|].
  cbn [n_value n_prev it_direction]. apply wp_bind. eapply wp_mono; [by apply purge_step|].
  intros l1 m1 (Hll1 & Hm1 & Hf1). apply wp_bind.
  eapply wp_mono; [apply IH; [lia|exact Hll1]|].
  intros [vis l2] m2 (Hv & Hm2 & Hll2 & Hf2). apply wp_ret. cbn -[filter] in *.
  unfold purge_post, in_order. rewrite reverse_app, filter_app, fmap_app. cbn [fst snd].
  rewrite !filter_cons, filter_nil. cbn. split_and!.
  - by rewrite Hv.
  - by eapply same_methods_trans.
  - rewrite <- app_assoc. by destruct (keep v).
  - rewrite Hf2. rewrite (freed_by_app l l1 _ _ _ _ Hm1 Hf1). f_equal. by destruct (keep v).
Qed.
End spec.
