(* ===== verification/AdlistRefine.v ===== *)
(** The properties of the linked lists: any program of list operations behaves as the
    same program on sequences of values, with no leak and no invalid access. *)

From stdpp Require Import gmap.
From S2P Require Import Prelude State Adlist AdlistSpec.

Local Open Scope Z_scope.

(** ** Sequences of values *)

Inductive edit (V : Type) :=
  | AddHead (v : V) | AddTail (v : V)
  | InsertAt (index : Z) (v : V) (after : bool)
  | DelAt (index : Z)
  | RotateTailToHead | RotateHeadToTail | Empty.
Arguments AddHead {_}.
Arguments AddTail {_}.
Arguments InsertAt {_}.
Arguments DelAt {_}.
Arguments RotateTailToHead {_}.
Arguments RotateHeadToTail {_}.
Arguments Empty {_}.

Section sequences.
Context {V : Type} `{EqDecision V}.
Implicit Types (s : list V) (c : edit V) (m : mem V) (l : list_ V) (ns : list (loc * V)).

Definition spec_edit s c : list V :=
  match c with
  | AddHead v => v :: s
  | AddTail v => s ++ [v]
  | InsertAt index v after =>
      match resolve (length s) index with
      | Some k => let k := if after then S k else k in take k s ++ v :: drop k s
      | None => s
      end
  | DelAt index => match resolve (length s) index with Some k => delete k s | None => s end
  | RotateTailToHead => match reverse s with [] => [] | x :: r => x :: reverse r end
  | RotateHeadToTail => match s with [] => [] | x :: r => r ++ [x] end
  | Empty => []
  end.

(** The values an edit removes, in the order they are freed. *)
Definition spec_freed s c : list V :=
  match c with
  | DelAt index => match resolve (length s) index with Some k => option_list (s !! k) | None => [] end
  | Empty => s
  | _ => []
  end.

Fixpoint spec_edits s (cs : list (edit V)) : list V * list V :=
  match cs with
  | [] => (s, [])
  | c :: cs' => let '(s', fr) := spec_edits (spec_edit s c) cs' in (s', spec_freed s c ++ fr)
  end.

(** ** The same edits on a list *)

Definition run_edit l c : ST (mem V) (list_ V) :=
  match c with
  | AddHead v => listAddNodeHead l v
  | AddTail v => listAddNodeTail l v
  | InsertAt index v after =>
      p ← listIndex l index;
      match p with Some p => listInsertNode l p v after | None => mret l end
  | DelAt index =>
      p ← listIndex l index;
      match p with Some p => listDelNode l p | None => mret l end
  | RotateTailToHead => listRotateTailToHead l
  | RotateHeadToTail => listRotateHeadToTail l
  | Empty => listEmpty l
  end.

Fixpoint run_edits l (cs : list (edit V)) : ST (mem V) (list_ V) :=
  match cs with
  | [] => mret l
  | c :: cs' => l ← run_edit l c; run_edits l cs'
  end.

(** [l] holds [s], and its nodes are all that is allocated. *)
Definition owns l m s : Prop :=
  exists ns, llist m l ns /\ ns.*2 = s /\ forall p, p ∉ ns.*1 -> m_heap m !! p = None.

Lemma node_at_resolve ns index :
  node_at ns index = k ← resolve (length ns) index; ns !! k.
Proof.
  unfold node_at, resolve. destruct (Z.leb_spec 0 index), (Z.ltb_spec index 0); try lia.
  - destruct (Z.leb_spec 0 index); [|lia]. cbn.
    destruct (Z.ltb_spec index (Z.of_nat (length ns))); cbn; [done|]. apply lookup_ge_None. lia.
  - destruct (Z.ltb_spec (Z.of_nat (length ns) + index) (Z.of_nat (length ns))); [|lia].
    destruct (Z.leb_spec 0 (Z.of_nat (length ns) + index)); cbn.
    + rewrite reverse_lookup by lia. f_equal. lia.
    + apply lookup_ge_None. rewrite length_reverse. lia.
Qed.

(** The list around the node an index designates. *)
Lemma locate_node l m ns index :
  llist m l ns ->
  (resolve (length ns) index = None /\ listIndex l index m = Some (None, m)) \/
  exists a p v b, ns = a ++ (p, v) :: b /\ resolve (length ns) index = Some (length a) /\
    listIndex l index m = Some (Some p, m).
Proof.
  intros Hll. rewrite (listIndex_spec _ _ _ index Hll), node_at_resolve.
  destruct (resolve (length ns) index) as [k|] eqn:E; [right|by left].
  destruct (lookup_lt_is_Some_2 ns k) as [[p v] Hk]; [by eapply resolve_Some|].
  exists (take k ns), p, v, (drop (S k) ns). cbn. rewrite Hk. split_and!.
  - by rewrite take_drop_middle.
  - rewrite length_take_le; [done|]. apply lookup_lt_Some in Hk. lia.
  - done.
Qed.

Lemma wp_run {A} (c : ST (mem V) A) m a m' Q : c m = Some (a, m') -> Q a m' -> wp c m Q.
Proof. intros. by exists a, m'. Qed.

Lemma owns_add p ns' ns l m l' m' s :
  add_post p ns' ns l m l' m' -> ns'.*1 ≡ₚ p :: ns.*1 -> ns'.*2 = s ->
  (forall q, q ∉ ns.*1 -> m_heap m !! q = None) -> owns l' m' s.
Proof.
  intros (Hp & Hll & _ & _ & Ho) Hperm Hs Hout. exists ns'. split_and!; try done.
  intros q. rewrite Hperm. intros Hq. rewrite Ho by done. apply Hout.
  rewrite not_elem_of_cons in Hq. tauto.
Qed.

Lemma owns_moved ns' ns l' m m' s :
  llist m' l' ns' -> same_outside ns.*1 m m' -> ns'.*1 ≡ₚ ns.*1 -> ns'.*2 = s ->
  (forall q, q ∉ ns.*1 -> m_heap m !! q = None) -> owns l' m' s.
Proof.
  intros Hll Ho Hperm Hs Hout. exists ns'. split_and!; try done.
  intros q. rewrite Hperm. intros Hq. rewrite Ho by done. by apply Hout.
Qed.

(** One edit is simulated. *)
Definition edit_post l m s c l' m' : Prop :=
  owns l' m' (spec_edit s c) /\ same_methods l l' /\
  m_freed m' = m_freed m ++ freed_by l (spec_freed s c).

Lemma no_free l (fr : list V) : fr = fr ++ freed_by l [].
Proof. unfold freed_by. by destruct (l_free l); rewrite app_nil_r. Qed.

Lemma run_insert_spec l m s index v after :
  owns l m s -> wp (run_edit l (InsertAt index v after)) m (edit_post l m s (InsertAt index v after)).
Proof.
  intros (ns & Hll & <- & Hout). cbn [run_edit]. apply wp_bind. unfold edit_post, spec_edit, spec_freed.
  rewrite length_fmap.
  destruct (locate_node l m ns index Hll) as [[-> Hi]|(a & p & u & b & -> & -> & Hi)];
    eapply wp_run; try exact Hi.
  - apply wp_ret. split_and!; try done; [by exists ns|apply no_free].
  - eapply wp_mono; [by apply listInsertNode_spec|]. intros l' m' (q & Hadd).
    split_and!; [|apply Hadd|rewrite <- no_free; apply Hadd].
    eapply owns_add; [exact Hadd| | |done].
    + destruct after; rewrite !fmap_app; cbn; solve_Permutation.
    + rewrite fmap_app. cbn. destruct after; rewrite !fmap_app; cbn.
      * rewrite firstn_app, skipn_app, length_fmap.
        rewrite take_ge, drop_ge by (rewrite length_fmap; lia).
        replace (S (length a) - length a)%nat with 1%nat by lia. cbn. rewrite drop_0. by rewrite <- app_assoc.
      * rewrite firstn_app, skipn_app, length_fmap, take_ge, drop_ge, Nat.sub_diag by (rewrite length_fmap; lia).
        cbn. by rewrite app_nil_r.
Qed.

Lemma run_del_spec l m s index :
  owns l m s -> wp (run_edit l (DelAt index)) m (edit_post l m s (DelAt index)).
Proof.
  intros (ns & Hll & <- & Hout). cbn [run_edit]. apply wp_bind. unfold edit_post, spec_edit, spec_freed.
  rewrite length_fmap.
  destruct (locate_node l m ns index Hll) as [[-> Hi]|(a & p & u & b & -> & -> & Hi)];
    eapply wp_run; try exact Hi.
  - apply wp_ret. split_and!; try done; [by exists ns|apply no_free].
  - eapply wp_mono; [by apply listDelNode_spec|]. intros l' m' (Hp & Hll' & Hm & Hf & Ho).
    rewrite !fmap_app, fmap_cons. cbn [snd].
    rewrite <- (length_fmap snd a), list_lookup_middle, delete_middle by done.
    split_and!; [|done|done]. exists (a ++ b). rewrite fmap_app. split_and!; try done.
    intros q. rewrite fmap_app, not_elem_of_app. intros [Hqa Hqb]. destruct (decide (q = p)) as [->|]; [done|].
    rewrite Ho; [apply Hout|]; rewrite fmap_app, not_elem_of_app; cbn; rewrite not_elem_of_cons; tauto.
Qed.

Lemma run_rotate_spec l m s c :
  c = RotateTailToHead \/ c = RotateHeadToTail ->
  owns l m s -> wp (run_edit l c) m (edit_post l m s c).
Proof.
  intros Hc (ns & Hll & <- & Hout). unfold edit_post. destruct Hc as [-> | ->]; cbn [run_edit spec_edit spec_freed].
  - destruct (nil_or_snoc ns) as [->|(a & p & v & ->)].
    + unfold listRotateTailToHead. rewrite (proj2 (proj2 (proj2 (proj2 Hll)))). apply wp_ret.
      split_and!; try done; [by exists []|apply no_free].
    + eapply wp_mono; [by apply listRotateTailToHead_spec|]. intros l' m' (Hll' & Hm & Hf & Ho).
      rewrite <- no_free. split_and!; try done. eapply owns_moved; [done|done| | |done].
      * rewrite fmap_app. cbn. solve_Permutation.
      * rewrite fmap_app. cbn [fmap list_fmap snd]. by rewrite reverse_snoc, reverse_involutive.
  - destruct ns as [|[p v] a].
    + unfold listRotateHeadToTail. rewrite (proj2 (proj2 (proj2 (proj2 Hll)))). apply wp_ret.
      split_and!; try done; [by exists []|apply no_free].
    + eapply wp_mono; [by apply listRotateHeadToTail_spec|]. intros l' m' (Hll' & Hm & Hf & Ho).
      rewrite <- no_free. split_and!; try done. eapply owns_moved; [done|done| | |done].
      * rewrite fmap_app. cbn. solve_Permutation.
      * by rewrite fmap_app.
Qed.

Lemma run_edit_spec l m s c : owns l m s -> wp (run_edit l c) m (edit_post l m s c).
Proof.
  intros Ho. destruct c; eauto using run_insert_spec, run_del_spec, run_rotate_spec;
    destruct Ho as (ns & Hll & <- & Hout); unfold edit_post; cbn [run_edit spec_edit spec_freed].
  - eapply wp_mono; [by apply listAddNodeHead_spec|]. intros l' m' (p & Hadd). rewrite <- no_free.
    split_and!; [|apply Hadd..]. by eapply owns_add.
  - eapply wp_mono; [by apply listAddNodeTail_spec|]. intros l' m' (p & Hadd). rewrite <- no_free.
    split_and!; [|apply Hadd..]. eapply owns_add; [done| |by rewrite fmap_app|done].
    rewrite fmap_app. cbn. solve_Permutation.
  - eapply wp_mono; [by apply listEmpty_spec|]. intros l' m' (Hll' & Hm & Hh & Hf).
    split_and!; try done. exists []. split_and!; try done. intros q _. rewrite Hh. case_decide; auto.
Qed.

Lemma run_edits_spec cs : forall l m s,
  owns l m s ->
  wp (run_edits l cs) m (λ l' m', let '(s', fr) := spec_edits s cs in
    owns l' m' s' /\ same_methods l l' /\ m_freed m' = m_freed m ++ freed_by l fr).
Proof.
  induction cs as [|c cs IH]; intros l m s Ho.
  { apply wp_ret. cbn. split_and!; try done. apply no_free. }
  cbn [run_edits spec_edits]. apply wp_bind. eapply wp_mono; [by apply run_edit_spec|].
  intros l1 m1 (Ho1 & Hm1 & Hf1). eapply wp_mono; [by apply IH|]. cbn. intros l2 m2.
  destruct (spec_edits (spec_edit s c) cs) as [s' fr]. intros (Ho2 & Hm2 & Hf2). split_and!.
  - done.
  - by eapply same_methods_trans.
  - rewrite Hf2. by apply freed_by_app.
Qed.

(** C28: any sequence of insertions, deletions, rotations and clearings performed on a fresh
    list succeeds (no NULL or freed node is ever accessed), leaves the list holding exactly the
    values of the same edits on a sequence, leaves nothing else allocated (no leak), and calls
    the free method on exactly the removed values, in order, once each.  Indexes may be
    negative; those out of range edit nothing. *)
Theorem adlist_refines_sequence dup (free : bool) mtch (cs : list (edit V)) :
  wp (run_edits (List None None dup free mtch 0) cs) (Mem ∅ []) (λ l' m',
    owns l' m' (fst (spec_edits [] cs)) /\
    same_methods (List None None dup free mtch 0) l' /\
    m_freed m' = if free then snd (spec_edits [] cs) else []).
Proof.
  eapply wp_mono; [apply (run_edits_spec cs _ _ [])|].
  - exists []. split_and!; try done. split_and!; try done. constructor.
  - intros l' m'. destruct (spec_edits [] cs) as [s fr]. cbn. intros (? & ? & ?). split_and!; done.
Qed.

(** A copy holds the [dup]ed values in order, in freshly allocated nodes, and leaves
    the original and the rest of memory as they were; when [dup] fails on a value NULL is
    returned, exactly the copies already made are freed, in order, and memory is exactly
    what it was. *)
Theorem listDup_correct (orig : list_ V) m ns :
  llist m orig ns ->
  wp (listDup orig) m (λ r m',
    match r with
    | Some copy => exists cs, llist m' copy cs /\ llist m' orig ns /\ same_methods orig copy /\
        mapM (dup_value orig) ns.*2 = Some cs.*2 /\ m_freed m' = m_freed m /\
        forall p, m_heap m' !! p = m_heap m !! p \/ (m_heap m !! p = None /\ p ∈ cs.*1)
    | None => mapM (dup_value orig) ns.*2 = None /\ m_heap m' = m_heap m /\
        m_freed m' = m_freed m ++ freed_by orig (copies orig ns.*2)
    end).
Proof.
  intros Hll. eapply wp_mono; [by apply listDup_spec|]. intros [copy|] m'; cbn; [|done].
  intros (cs & Hc & Hm & [Ho Hn] & Hf & ws & Hws & Hcs). exists cs. subst ws. split_and!; try done.
  - destruct Hll as (Hs & ?). split; [|done]. eapply seg_frame; [|exact Hs]. intros p Hp. apply Ho.
    intros Hpc. apply Hn in Hpc. by eapply seg_dom in Hpc.
  - intros p. destruct (decide (p ∈ cs.*1)); auto.
Qed.

(** An iterator visits every node exactly once, in the order of its direction, even
    when the loop deletes nodes it was just given; the nodes kept stay in the list in
    order, and the values of the deleted ones are freed in the order visited. *)
Theorem listNext_delete_safe (keep : V -> bool) d l m ns :
  llist m l ns ->
  wp (purge (S (length ns)) keep l (listGetIterator l d)) m (λ r m',
    fst r = (in_order d ns).*1 /\
    llist m' (snd r) (filter (λ n, keep n.2 = true) ns) /\
    m_freed m' = m_freed m ++ freed_by l (filter (λ n, keep n.2 = false) (in_order d ns)).*2).
Proof.
  intros Hll. pose proof Hll as (_ & _ & Hh & Ht & _). destruct d; cbn [listGetIterator].
  - rewrite Hh. eapply wp_mono; [apply (purge_head keep ns _ l m []); [lia|done]|].
    by intros r m' (? & _ & ? & ?).
  - rewrite Ht. eapply wp_mono; [apply (purge_tail keep ns _ l m []); [lia|by rewrite app_nil_r]|].
    intros r m' (? & _ & Hll' & ?). rewrite app_nil_r in Hll'. done.
Qed.

(** Joining moves the nodes of the second list, themselves, after those of the first in
    constant time, empties the second list, frees nothing and touches nothing else; the
    two lists must not share nodes. *)
Theorem listJoin_correct (l o : list_ V) m ns os :
  llist m l ns -> llist m o os -> NoDup (ns ++ os).*1 ->
  wp (listJoin l o) m (λ r m', llist m' (fst r) (ns ++ os) /\ llist m' (snd r) [] /\
    same_methods l (fst r) /\ same_methods o (snd r) /\ m_freed m' = m_freed m /\
    forall p, p ∉ (ns ++ os).*1 -> m_heap m' !! p = m_heap m !! p).
Proof. apply listJoin_spec. Qed.
End sequences.

(** ** Witnesses *)

Definition demo_heap : gmap loc (listNode Z) :=
  {[ 1%positive := Node None (Some 2%positive) 10; 2%positive := Node (Some 1%positive) (Some 3%positive) 20;
     3%positive := Node (Some 2%positive) None 30; 7%positive := Node None None 40 ]}.
Definition demo_mem : mem Z := Mem demo_heap [].
Definition demo_list : list_ Z :=
  List (Some 1%positive) (Some 3%positive) (Some (λ v, if v =? 30 then None else Some (v + 1))) true None 3.
Definition demo_nodes : list (loc * Z) := [(1%positive, 10); (2%positive, 20); (3%positive, 30)].
Definition demo_other : list_ Z := List (Some 7%positive) (Some 7%positive) None false None 1.

Lemma demo_llist : llist demo_mem demo_list demo_nodes.
Proof. split_and!; try reflexivity; [repeat split|by_compute]. Qed.

Lemma demo_llist_other : llist demo_mem demo_other [(7%positive, 40)].
Proof. split_and!; try reflexivity; [repeat split|by_compute]. Qed.

(** The third value cannot be copied: the two copies made are freed. *)
Lemma listDup_correct_witness :
  exists m', listDup demo_list demo_mem = Some (None, m') /\
    m_heap m' = demo_heap /\ m_freed m' = [11; 21].
Proof.
  destruct (listDup_correct demo_list demo_mem demo_nodes demo_llist) as ([c|] & m' & E & HQ).
  - exfalso. destruct HQ as (cs & _ & _ & _ & Hm & _). vm_compute in Hm. discriminate.
  - exists m'. destruct HQ as (_ & Hh & Hf). auto.
Defined.

Lemma listNext_delete_safe_witness :
  exists l' m', purge 4 (λ v, negb (v =? 20)) demo_list (listGetIterator demo_list AL_START_TAIL) demo_mem =
    Some (([3; 2; 1]%positive, l'), m') /\ llist m' l' [(1%positive, 10); (3%positive, 30)] /\ m_freed m' = [20].
Proof.
  destruct (listNext_delete_safe (λ v, negb (v =? 20)) AL_START_TAIL demo_list demo_mem demo_nodes demo_llist)
    as ([vis l'] & m' & E & Hv & Hll & Hf).
  exists l', m'. cbn in Hv. subst vis. auto.
Defined.

Lemma listJoin_correct_witness :
  exists l' o' m', listJoin demo_list demo_other demo_mem = Some ((l', o'), m') /\
    llist m' l' (demo_nodes ++ [(7%positive, 40)]) /\ llist m' o' [].
Proof.
  destruct (listJoin_correct demo_list demo_other demo_mem demo_nodes [(7%positive, 40)]
    demo_llist demo_llist_other ltac:(by_compute)) as ([l' o'] & m' & E & H1 & H2 & _).
  exists l', o', m'. auto.
Defined.

Example adlist_demo :
  (let '(r, m') := default (demo_list, demo_mem)
     (run_edits (List None None None true None 0)
       [AddTail 1; AddTail 2; AddHead 0; InsertAt (-1) 9 false; DelAt 1; RotateHeadToTail] (Mem ∅ [])) in
   (l_len r, m_freed m')) = (3, [1]).
Proof. reflexivity. Qed.
