(* ===== verification/Listpack.v ===== *)
(** The listpacks of [listpack.c]: lists of strings and integers in one contiguous
    allocation, which can be read in both directions.

    A listpack is its whole allocation, a list of bytes; a pointer into it is an offset.
    [None] is an access outside the allocation or a failed assertion; NULL results are
    explicit.  What the C library's allocator does is a parameter: the bytes actually
    usable for a request, and what fresh bytes hold. *)

From S2P Require Import Prelude Util.

Local Open Scope Z_scope.

Class Allocator := {
  junk : Z;
  usable : nat -> nat;
  usable_ge : forall n, (n <= usable n)%nat }.

(** ** Constants *)

Definition LP_HDR_SIZE : Z := 6.
Definition UINT16_MAX : Z := 65535.
Definition UINT32_MAX : Z := 4294967295.
Definition UINT64_MAX : Z := 18446744073709551615.
Definition LP_HDR_NUMELE_UNKNOWN : Z := UINT16_MAX.
Definition LP_EOF : Z := 255.
Definition LISTPACK_MAX_SAFETY_SIZE : Z := Z.shiftl 1 30.
Definition LP_INTBUF_SIZE : Z := 21.
Definition UCHAR_MAX : Z := 255.

Definition LP_ENCODING_IS_7BIT_UINT (b : Z) : bool := Z.land b 128 =? 0.
Definition LP_ENCODING_IS_6BIT_STR (b : Z) : bool := Z.land b 192 =? 128.
Definition LP_ENCODING_IS_13BIT_INT (b : Z) : bool := Z.land b 224 =? 192.
Definition LP_ENCODING_IS_12BIT_STR (b : Z) : bool := Z.land b 240 =? 224.
Definition LP_ENCODING_IS_16BIT_INT (b : Z) : bool := Z.land b 255 =? 241.
Definition LP_ENCODING_IS_24BIT_INT (b : Z) : bool := Z.land b 255 =? 242.
Definition LP_ENCODING_IS_32BIT_INT (b : Z) : bool := Z.land b 255 =? 243.
Definition LP_ENCODING_IS_64BIT_INT (b : Z) : bool := Z.land b 255 =? 244.
Definition LP_ENCODING_IS_32BIT_STR (b : Z) : bool := Z.land b 255 =? 240.

Inductive lp_where := LP_BEFORE | LP_AFTER | LP_REPLACE.
#[export] Instance lp_where_eq_dec : EqDecision lp_where.
Proof. solve_decision. Defined.

(** ** Header *)

(** [p[off] | p[off+1]<<8 | ...] on [n] bytes. *)
Fixpoint le_load (n : nat) (lp : bytes) (off shift : Z) : option Z :=
  match n with
  | O => Some 0
  | S n' => b ← getb lp off; v ← le_load n' lp (off + 1) (shift + 8); Some (Z.lor (Z.shiftl b shift) v)
  end.

(** [p[off] = v&0xff; p[off+1] = (v>>8)&0xff; ...] on [n] bytes. *)
Fixpoint le_store (n : nat) (lp : bytes) (off v shift : Z) : option bytes :=
  match n with
  | O => Some lp
  | S n' => lp ← setb lp off (Z.land (Z.shiftr v shift) 255); le_store n' lp (off + 1) v (shift + 8)
  end.

Definition LP_ENCODING_6BIT_STR_LEN (lp : bytes) (p : Z) : option Z :=
  b ← getb lp p; Some (Z.land b 63).
Definition LP_ENCODING_12BIT_STR_LEN (lp : bytes) (p : Z) : option Z :=
  b ← getb lp p; c ← getb lp (p + 1); Some (Z.lor (Z.shiftl (Z.land b 15) 8) c).
Definition LP_ENCODING_32BIT_STR_LEN (lp : bytes) (p : Z) : option Z := le_load 4 lp (p + 1) 0.
Definition lpGetTotalBytes (lp : bytes) : option Z := le_load 4 lp 0 0.
Definition lpGetNumElements (lp : bytes) : option Z := le_load 2 lp 4 0.
Definition lpSetTotalBytes (lp : bytes) (v : Z) : option bytes := le_store 4 lp 0 v 0.
Definition lpSetNumElements (lp : bytes) (v : Z) : option bytes := le_store 2 lp 4 v 0.

Definition lpBytes (lp : bytes) : option Z := lpGetTotalBytes lp.

Definition lpSafeToAdd (lp : option bytes) (add : Z) : option bool :=
  len ← (match lp with Some lp => lpGetTotalBytes lp | None => Some 0 end);
  Some (negb (LISTPACK_MAX_SAFETY_SIZE <? u64 (len + add))).

(** ** Encoding *)

(** [while (plen < slen && p[0] >= '0' && p[0] <= '9')] *)
Fixpoint lpStringToInt64_loop (p : bytes) (v : Z) : option (Z * bytes) :=
  match p with
  | c :: p' =>
      if (48 <=? c) && (c <=? 57) then
        if UINT64_MAX / 10 <? v then None
        else
          let v := v * 10 in
          if UINT64_MAX - (c - 48) <? v then None
          else lpStringToInt64_loop p' (v + (c - 48))
      else Some (v, p)
  | [] => Some (v, [])
  end.

(** [None] is the return value 0 and [Some value] the return value 1. *)
Definition lpStringToInt64 (s : bytes) : option Z :=
  let slen := Z.of_nat (length s) in
  if (slen =? 0) || (LONG_STR_SIZE <=? slen) then None
  else if (slen =? 1) && (nth 0 s 0 =? 48) then Some 0
  else
    let '(negative, p) := if nth 0 s 0 =? 45 then (true, tail s) else (false, s) in
    match p with
    | [] => None
    | c :: p' =>
        if (49 <=? c) && (c <=? 57) then
          match lpStringToInt64_loop p' (c - 48) with
          | None => None
          | Some (v, _ :: _) => None
          | Some (v, []) =>
              if negative then
                if u64 (- (- 2 ^ 63 + 1)) + 1 <? v then None else Some (i64 (u64 (- v)))
              else
                if 2 ^ 63 - 1 <? v then None else Some (i64 v)
          end
        else None
    end.

(** The bytes stored in [intenc], [*enclen] of them; each is an [unsigned char]. *)
Definition lpEncodeIntegerGetType (v : Z) : bytes :=
  if (0 <=? v) && (v <=? 127) then [u8 v]
  else if (-4096 <=? v) && (v <=? 4095) then
    let v := if v <? 0 then Z.shiftl 1 13 + v else v in
    [u8 (Z.lor (Z.shiftr v 8) 192); u8 (Z.land v 255)]
  else if (-32768 <=? v) && (v <=? 32767) then
    let v := if v <? 0 then Z.shiftl 1 16 + v else v in
    [241; u8 (Z.land v 255); u8 (Z.shiftr v 8)]
  else if (-8388608 <=? v) && (v <=? 8388607) then
    let v := if v <? 0 then Z.shiftl 1 24 + v else v in
    [242; u8 (Z.land v 255); u8 (Z.land (Z.shiftr v 8) 255); u8 (Z.shiftr v 16)]
  else if (-2147483648 <=? v) && (v <=? 2147483647) then
    let v := if v <? 0 then Z.shiftl 1 32 + v else v in
    [243; u8 (Z.land v 255); u8 (Z.land (Z.shiftr v 8) 255); u8 (Z.land (Z.shiftr v 16) 255);
     u8 (Z.shiftr v 24)]
  else
    let uv := u64 v in
    [244; u8 (Z.land uv 255); u8 (Z.land (Z.shiftr uv 8) 255); u8 (Z.land (Z.shiftr uv 16) 255);
     u8 (Z.land (Z.shiftr uv 24) 255); u8 (Z.land (Z.shiftr uv 32) 255);
     u8 (Z.land (Z.shiftr uv 40) 255); u8 (Z.land (Z.shiftr uv 48) 255); u8 (Z.shiftr uv 56)].

Inductive lp_encoding := LP_ENCODING_INT | LP_ENCODING_STRING.

(** The encoding, [intenc] and [*enclen]. *)
Definition lpEncodeGetType (ele : bytes) : lp_encoding * bytes * Z :=
  let size := Z.of_nat (length ele) in
  match lpStringToInt64 ele with
  | Some v => let intenc := lpEncodeIntegerGetType v in (LP_ENCODING_INT, intenc, Z.of_nat (length intenc))
  | None =>
      (LP_ENCODING_STRING, [], if size <? 64 then 1 + size else if size <? 4096 then 2 + size else 5 + size)
  end.

(** What is stored in [buf]; the return value is its length. *)
Definition lpEncodeBacklen (l : Z) : bytes :=
  let low := λ s, u8 (Z.lor (Z.land (Z.shiftr l s) 127) 128) in
  if l <=? 127 then [u8 l]
  else if l <? 16383 then [u8 (Z.shiftr l 7); low 0]
  else if l <? 2097151 then [u8 (Z.shiftr l 14); low 7; low 0]
  else if l <? 268435455 then [u8 (Z.shiftr l 21); low 14; low 7; low 0]
  else [u8 (Z.shiftr l 28); low 21; low 14; low 7; low 0].
(** [lpEncodeBacklen(NULL, l)] *)
Definition backlen_size (l : Z) : Z := Z.of_nat (length (lpEncodeBacklen l)).

(** The loop stops at the sixth byte at the latest: five turns are enough. *)
Fixpoint lpDecodeBacklen_loop (fuel : nat) (lp : bytes) (p val shift : Z) : option Z :=
  match fuel with
  | O => None
  | S fuel' =>
      b ← getb lp p;
      let val := Z.lor val (u64 (Z.shiftl (Z.land b 127) shift)) in
      if Z.land b 128 =? 0 then Some val
      else
        let shift := shift + 7 in
        if 28 <? shift then Some UINT64_MAX
        else lpDecodeBacklen_loop fuel' lp (p - 1) val shift
  end.
Definition lpDecodeBacklen (lp : bytes) (p : Z) : option Z := lpDecodeBacklen_loop 5 lp p 0 0.

(** What is stored in [buf]. *)
Definition lpEncodeString (s : bytes) : bytes :=
  let len := Z.of_nat (length s) in
  if len <? 64 then u8 (Z.lor len 128) :: s
  else if len <? 4096 then u8 (Z.lor (Z.shiftr len 8) 224) :: u8 (Z.land len 255) :: s
  else 240 :: u8 (Z.land len 255) :: u8 (Z.land (Z.shiftr len 8) 255) ::
       u8 (Z.land (Z.shiftr len 16) 255) :: u8 (Z.land (Z.shiftr len 24) 255) :: s.

(** ** Walking *)

Definition lpCurrentEncodedSizeUnsafe (lp : bytes) (p : Z) : option Z :=
  b ← getb lp p;
  if LP_ENCODING_IS_7BIT_UINT b then Some 1
  else if LP_ENCODING_IS_6BIT_STR b then len ← LP_ENCODING_6BIT_STR_LEN lp p; Some (1 + len)
  else if LP_ENCODING_IS_13BIT_INT b then Some 2
  else if LP_ENCODING_IS_16BIT_INT b then Some 3
  else if LP_ENCODING_IS_24BIT_INT b then Some 4
  else if LP_ENCODING_IS_32BIT_INT b then Some 5
  else if LP_ENCODING_IS_64BIT_INT b then Some 9
  else if LP_ENCODING_IS_12BIT_STR b then len ← LP_ENCODING_12BIT_STR_LEN lp p; Some (2 + len)
  else if LP_ENCODING_IS_32BIT_STR b then len ← LP_ENCODING_32BIT_STR_LEN lp p; Some (u32 (5 + len))
  else if b =? LP_EOF then Some 1
  else Some 0.

Definition lpCurrentEncodedSizeBytes (lp : bytes) (p : Z) : option Z :=
  b ← getb lp p;
  Some (if LP_ENCODING_IS_7BIT_UINT b then 1
        else if LP_ENCODING_IS_6BIT_STR b then 1
        else if LP_ENCODING_IS_13BIT_INT b then 1
        else if LP_ENCODING_IS_16BIT_INT b then 1
        else if LP_ENCODING_IS_24BIT_INT b then 1
        else if LP_ENCODING_IS_32BIT_INT b then 1
        else if LP_ENCODING_IS_64BIT_INT b then 1
        else if LP_ENCODING_IS_12BIT_STR b then 2
        else if LP_ENCODING_IS_32BIT_STR b then 5
        else if b =? LP_EOF then 1
        else 0).

Definition lpSkip (lp : bytes) (p : Z) : option Z :=
  entrylen ← lpCurrentEncodedSizeUnsafe lp p;
  Some (p + (entrylen + backlen_size entrylen)).

(** The result and the new value of [*pp]. *)
Definition lpValidateNext (lp : bytes) (pp : option Z) (lpbytes : Z) : option (bool * option Z) :=
  let OUT_OF_RANGE p := (p <? LP_HDR_SIZE) || (lpbytes - 1 <? p) in
  match pp with
  | None => Some (false, pp)
  | Some p =>
      if OUT_OF_RANGE p then Some (false, pp)
      else
        b ← getb lp p;
        if b =? LP_EOF then Some (true, None)
        else
          lenbytes ← lpCurrentEncodedSizeBytes lp p;
          if lenbytes =? 0 then Some (false, pp)
          else if OUT_OF_RANGE (p + lenbytes) then Some (false, pp)
          else
            entrylen ← lpCurrentEncodedSizeUnsafe lp p;
            let encodedBacklen := backlen_size entrylen in
            let entrylen := entrylen + encodedBacklen in
            if OUT_OF_RANGE (p + entrylen) then Some (false, pp)
            else
              let p := p + entrylen in
              prevlen ← lpDecodeBacklen lp (p - 1);
              if negb (u64 (prevlen + encodedBacklen) =? entrylen) then Some (false, pp)
              else Some (true, Some p)
  end.

(** [assert(lpValidateNext(lp, &p, lpbytes))] *)
Definition lpAssertValidEntry (lp : bytes) (lpbytes p : Z) : option unit :=
  '(ok, _) ← lpValidateNext lp (Some p) lpbytes; if ok : bool then Some tt else None.

Definition lpNext (lp : bytes) (p : Z) : option (option Z) :=
  p ← lpSkip lp p;
  b ← getb lp p;
  if b =? LP_EOF then Some None
  else n ← lpBytes lp; _ ← lpAssertValidEntry lp n p; Some (Some p).

Definition lpPrev (lp : bytes) (p : Z) : option (option Z) :=
  if p =? LP_HDR_SIZE then Some None
  else
    let p := p - 1 in
    prevlen ← lpDecodeBacklen lp p;
    let prevlen := u64 (prevlen + backlen_size prevlen) in
    let p := p - (prevlen - 1) in
    n ← lpBytes lp; _ ← lpAssertValidEntry lp n p; Some (Some p).

Definition lpFirst (lp : bytes) : option (option Z) :=
  let p := LP_HDR_SIZE in
  b ← getb lp p;
  if b =? LP_EOF then Some None
  else n ← lpBytes lp; _ ← lpAssertValidEntry lp n p; Some (Some p).

Definition lpLast (lp : bytes) : option (option Z) :=
  n ← lpGetTotalBytes lp; lpPrev lp (n - 1).

(** [while(p) { count++; p = lpNext(lp,p); }]: an entry has at least one byte, so the
    size of the allocation is enough fuel. *)
Fixpoint lpLength_loop (fuel : nat) (lp : bytes) (p : option Z) (count : Z) : option Z :=
  match p with
  | None => Some count
  | Some p =>
      match fuel with
      | O => None
      | S fuel' => p ← lpNext lp p; lpLength_loop fuel' lp p (u32 (count + 1))
      end
  end.

(** The length, and the listpack whose header may have been updated. *)
Definition lpLength (lp : bytes) : option (Z * bytes) :=
  numele ← lpGetNumElements lp;
  if negb (numele =? LP_HDR_NUMELE_UNKNOWN) then Some (numele, lp)
  else
    p ← lpFirst lp;
    count ← lpLength_loop (length lp) lp p 0;
    lp ← (if count <? LP_HDR_NUMELE_UNKNOWN then lpSetNumElements lp count else Some lp);
    Some (count, lp).

Fixpoint seek_forward (fuel : nat) (lp : bytes) (index : Z) (ele : option Z) : option (option Z) :=
  match ele with
  | None => Some None
  | Some e =>
      if 0 <? index then
        match fuel with
        | O => None
        | S fuel' => ele ← lpNext lp e; seek_forward fuel' lp (index - 1) ele
        end
      else Some ele
  end.

Fixpoint seek_backward (fuel : nat) (lp : bytes) (index : Z) (ele : option Z) : option (option Z) :=
  match ele with
  | None => Some None
  | Some e =>
      if index <? -1 then
        match fuel with
        | O => None
        | S fuel' => ele ← lpPrev lp e; seek_backward fuel' lp (index + 1) ele
        end
      else Some ele
  end.

Definition lpSeek (lp : bytes) (index : Z) : option (option Z) :=
  numele ← lpGetNumElements lp;
  let forward index := ele ← lpFirst lp; seek_forward (length lp) lp index ele in
  let backward index := ele ← lpLast lp; seek_backward (length lp) lp index ele in
  if negb (numele =? LP_HDR_NUMELE_UNKNOWN) then
    let index := if index <? 0 then numele + index else index in
    if index <? 0 then Some None
    else if numele <=? index then Some None
    else if Z.quot numele 2 <? index then backward (index - numele)
    else forward index
  else if index <? 0 then backward index else forward index.

(** ** Reading *)

(** NULL with the integer in [*count], or a pointer into the listpack with the length in
    [*count], or [intbuf] itself with its new contents. *)
Inductive lp_got := GotInt (val : Z) | GotStr (ptr count : Z) | GotBuf (intbuf : bytes) (count : Z).

(** The common end of the integer encodings: the sign, then the value or its digits. *)
Definition lp_int_case (intbuf : option bytes) (uval negstart negmax : Z) (size : option Z)
    : option (lp_got * option Z) :=
  let val := if negstart <=? uval
             then let val := i64 (u64 (negmax - uval)) in - val - 1
             else i64 uval in
  match intbuf with
  | Some buf => '(buf, count) ← ll2string buf 0 LP_INTBUF_SIZE val; Some (GotBuf buf count, size)
  | None => Some (GotInt val, size)
  end.

(** The element and what is stored in [*entry_size], if anything is. *)
Definition lpGetWithSize (lp : bytes) (p : Z) (intbuf : option bytes) : option (lp_got * option Z) :=
  let int_case := lp_int_case intbuf in
  b ← getb lp p;
  if LP_ENCODING_IS_7BIT_UINT b then int_case (Z.land b 127) UINT64_MAX 0 (Some 2)
  else if LP_ENCODING_IS_6BIT_STR b then
    count ← LP_ENCODING_6BIT_STR_LEN lp p;
    Some (GotStr (p + 1) count, Some (1 + count + backlen_size (count + 1)))
  else if LP_ENCODING_IS_13BIT_INT b then
    c ← getb lp (p + 1);
    int_case (Z.lor (Z.shiftl (Z.land b 31) 8) c) (Z.shiftl 1 12) 8191 (Some 3)
  else if LP_ENCODING_IS_16BIT_INT b then
    uval ← le_load 2 lp (p + 1) 0; int_case uval (Z.shiftl 1 15) UINT16_MAX (Some 4)
  else if LP_ENCODING_IS_24BIT_INT b then
    uval ← le_load 3 lp (p + 1) 0; int_case uval (Z.shiftl 1 23) (Z.shiftr UINT32_MAX 8) (Some 5)
  else if LP_ENCODING_IS_32BIT_INT b then
    uval ← le_load 4 lp (p + 1) 0; int_case uval (Z.shiftl 1 31) UINT32_MAX (Some 6)
  else if LP_ENCODING_IS_64BIT_INT b then
    uval ← le_load 8 lp (p + 1) 0; int_case uval (Z.shiftl 1 63) UINT64_MAX (Some 10)
  else if LP_ENCODING_IS_12BIT_STR b then
    count ← LP_ENCODING_12BIT_STR_LEN lp p;
    Some (GotStr (p + 2) count, Some (2 + count + backlen_size (count + 2)))
  else if LP_ENCODING_IS_32BIT_STR b then
    count ← LP_ENCODING_32BIT_STR_LEN lp p;
    Some (GotStr (p + 5) count, Some (5 + count + backlen_size (count + 5)))
  else int_case (12345678900000000 + b) UINT64_MAX 0 None.

Definition lpGet (lp : bytes) (p : Z) (intbuf : option bytes) : option lp_got :=
  '(g, _) ← lpGetWithSize lp p intbuf; Some g.

(** The string with its length as an [unsigned int], or the integer. *)
Definition lpGetValue (lp : bytes) (p : Z) : option lp_got :=
  g ← lpGet lp p None;
  match g with
  | GotStr ptr ele_len => Some (GotStr ptr (u32 ele_len))
  | GotInt ele_len => Some (GotInt ele_len)
  | GotBuf _ _ => None
  end.

(** [slen == sz && memcmp(value,s,slen) == 0] *)
Definition lp_string_eq (lp : bytes) (value sz : Z) (s : bytes) : option bool :=
  if Z.of_nat (length s) =? sz then v ← rd lp value (length s); Some (bool_decide (v = s))
  else Some false.

Definition lpCompare (lp : bytes) (p : Z) (s : bytes) : option bool :=
  b ← getb lp p;
  if b =? LP_EOF then Some false
  else
    g ← lpGet lp p None;
    match g with
    | GotStr value sz => lp_string_eq lp value sz s
    | GotInt sz => Some (match lpStringToInt64 s with Some sval => sz =? sval | None => false end)
    | GotBuf _ _ => None
    end.

(** The state of the loop of [lpFind]: [skipcnt], [vencoding] with [vll], and
    [entry_size]; each turn moves at least one byte forward. *)
Fixpoint lpFind_loop (fuel : nat) (lp : bytes) (lp_bytes : Z) (s : bytes) (skip : Z)
    (p skipcnt vencoding vll entry_size : Z) : option (option Z) :=
  match fuel with
  | O => None
  | S fuel' =>
      let next p skipcnt vencoding vll entry_size :=
        _ ← (if lp_bytes <=? p + 8 then lpAssertValidEntry lp lp_bytes p
             else if (LP_HDR_SIZE <=? p) && (p <? lp_bytes) then Some tt else None);
        b ← getb lp p;
        if b =? LP_EOF then Some None
        else lpFind_loop fuel' lp lp_bytes s skip p skipcnt vencoding vll entry_size in
      if skipcnt =? 0 then
        '(g, size) ← lpGetWithSize lp p None;
        let entry_size := default entry_size size in
        match g with
        | GotStr value ll =>
            if (LP_HDR_SIZE <=? p) && (p + entry_size <? lp_bytes) then
              eq ← lp_string_eq lp value ll s;
              if eq : bool then Some (Some p)
              else next (p + entry_size) skip vencoding vll entry_size
            else None
        | GotInt ll =>
            let '(vencoding, vll) :=
              if vencoding =? 0 then
                let slen := Z.of_nat (length s) in
                if (32 <=? slen) || (slen =? 0) then (UCHAR_MAX, vll)
                else match lpStringToInt64 s with Some v => (1, v) | None => (UCHAR_MAX, vll) end
              else (vencoding, vll) in
            if negb (vencoding =? UCHAR_MAX) && (ll =? vll) then Some (Some p)
            else next (p + entry_size) skip vencoding vll entry_size
        | GotBuf _ _ => None
        end
      else
        p ← lpSkip lp p;
        next p (skipcnt - 1) vencoding vll entry_size
  end.

Definition lpFind (lp : bytes) (p : Z) (s : bytes) (skip : Z) : option (option Z) :=
  lp_bytes ← lpBytes lp;
  lpFind_loop (S (length lp)) lp lp_bytes s skip p 0 0 0 123456789.

(** ** Validation of untrusted data *)

Definition lpValidateFirst (lp : bytes) : option (option Z) :=
  b ← getb lp LP_HDR_SIZE; Some (if b =? LP_EOF then None else Some LP_HDR_SIZE).

(** The loop over the entries; the callback has a state of its own.  [inl] is an early
    [return 0], [inr] the final [p] and [count]. *)
Fixpoint validate_entries {U} (fuel : nat) (lp : bytes) (bytes_ numele : Z)
    (entry_cb : option (U -> Z -> Z -> U * bool)) (u : U) (p : option Z) (count : Z)
    : option (unit + option Z * Z) :=
  match p with
  | None => Some (inr (None, count))
  | Some q =>
      b ← getb lp q;
      if b =? LP_EOF then Some (inr (p, count))
      else
        match fuel with
        | O => None
        | S fuel' =>
            '(ok, p') ← lpValidateNext lp p bytes_;
            if negb ok then Some (inl tt)
            else
              let '(u, ok) := match entry_cb with Some cb => cb u q numele | None => (u, true) end in
              if negb ok then Some (inl tt)
              else validate_entries fuel' lp bytes_ numele entry_cb u p' (u32 (count + 1))
        end
  end.

Definition lpValidateIntegrity {U} (lp : bytes) (size : Z) (deep : bool)
    (entry_cb : option (U -> Z -> Z -> U * bool)) (cb_userdata : U) : option bool :=
  if size <? LP_HDR_SIZE + 1 then Some false
  else
    n ← lpGetTotalBytes lp;
    if negb (n =? size) then Some false
    else
      b ← getb lp (size - 1);
      if negb (b =? LP_EOF) then Some false
      else if negb deep then Some true
      else
        numele ← lpGetNumElements lp;
        r ← validate_entries (length lp) lp n numele entry_cb cb_userdata (Some LP_HDR_SIZE) 0;
        match r with
        | inl _ => Some false
        | inr (p, count) =>
            Some (bool_decide (p = Some (size - 1)) &&
                  ((numele =? LP_HDR_NUMELE_UNKNOWN) || (numele =? count)))
        end.

(** ** Updating *)

Section alloc.
Context `{Allocator}.

Definition lp_malloc (n : Z) : bytes := realloc junk [] (usable (Z.to_nat n)).
Definition lp_realloc (lp : bytes) (n : Z) : bytes := realloc junk lp (usable (Z.to_nat n)).
Definition lp_malloc_size (lp : bytes) : Z := Z.of_nat (length lp).

Definition lpNew (capacity : Z) : option bytes :=
  let lp := lp_malloc (if LP_HDR_SIZE + 1 <? capacity then capacity else LP_HDR_SIZE + 1) in
  lp ← lpSetTotalBytes lp (LP_HDR_SIZE + 1);
  lp ← lpSetNumElements lp 0;
  setb lp LP_HDR_SIZE LP_EOF.

Definition lpShrinkToFit (lp : bytes) : option bytes :=
  size ← lpGetTotalBytes lp;
  Some (if size <? lp_malloc_size lp then lp_realloc lp size else lp).

(** The second part of [lpInsert], once the element is encoded as [payload] ([None] for a
    deletion), [enclen] bytes long, and [where] is LP_BEFORE or LP_REPLACE. *)
Definition lpInsert_at (lp : bytes) (payload : option bytes) (enclen p : Z) (where_ : lp_where)
    : option (option (bytes * option Z)) :=
  let poff := p in
  let del := match payload with None => true | Some _ => false end in
  let backlen := if del then [] else lpEncodeBacklen enclen in
  let backlen_size := Z.of_nat (length backlen) in
  old_listpack_bytes ← lpGetTotalBytes lp;
  replaced_len ←
    (if decide (where_ = LP_REPLACE) then
       len ← lpCurrentEncodedSizeUnsafe lp p;
       let len := u32 (len + Listpack.backlen_size len) in
       if (LP_HDR_SIZE <=? p) && (p + len <? old_listpack_bytes) then Some len else None
     else Some 0);
  let new_listpack_bytes := u64 (old_listpack_bytes + enclen + backlen_size - replaced_len) in
  if UINT32_MAX <? new_listpack_bytes then Some None
  else
    let dst := poff in
    let lp := if (old_listpack_bytes <? new_listpack_bytes) && (lp_malloc_size lp <? new_listpack_bytes)
              then lp_realloc lp new_listpack_bytes else lp in
    lp ← (if decide (where_ = LP_BEFORE) then
            memmove lp (dst + enclen + backlen_size) dst (Z.to_nat (u64 (old_listpack_bytes - poff)))
          else
            let lendiff := enclen + backlen_size - replaced_len in
            memmove lp (dst + replaced_len + lendiff) (dst + replaced_len)
              (Z.to_nat (u64 (old_listpack_bytes - poff - replaced_len))));
    let lp := if new_listpack_bytes <? old_listpack_bytes then lp_realloc lp new_listpack_bytes else lp in
    newp ← (if del then b ← getb lp dst; Some (if b =? LP_EOF then None else Some dst)
            else Some (Some dst));
    lp ← (match payload with
          | None => Some lp
          | Some ele => lp ← wr lp dst ele; wr lp (dst + enclen) backlen
          end);
    lp ← (if negb (bool_decide (where_ = LP_REPLACE)) || del then
            num_elements ← lpGetNumElements lp;
            if negb (num_elements =? LP_HDR_NUMELE_UNKNOWN) then
              if del then lpSetNumElements lp (u32 (num_elements - 1))
              else lpSetNumElements lp (num_elements + 1)
            else Some lp
          else Some lp);
    lp ← lpSetTotalBytes lp new_listpack_bytes;
    Some (Some (lp, newp)).

(** The listpack, or NULL, and the pointer stored in [*newp]. *)
Definition lpInsert (lp : bytes) (elestr eleint : option bytes) (p : Z) (where_ : lp_where)
    : option (option (bytes * option Z)) :=
  let del := match elestr, eleint with None, None => true | _, _ => false end in
  let where_ := if del then LP_REPLACE else where_ in
  '(p, where_) ←
    (if decide (where_ = LP_AFTER) then
       p ← lpSkip lp p;
       n ← lpGetTotalBytes lp;
       if (LP_HDR_SIZE <=? p) && (p <? n) then Some (p, LP_BEFORE) else None
     else Some (p, where_));
  let '(payload, enclen) :=
    match elestr, eleint with
    | Some s, _ =>
        match lpEncodeGetType s with
        | (LP_ENCODING_INT, intenc, enclen) => (Some intenc, enclen)
        | (LP_ENCODING_STRING, _, enclen) => (Some (lpEncodeString s), enclen)
        end
    | None, Some i => (Some i, Z.of_nat (length i))
    | None, None => (None, 0)
    end in
  lpInsert_at lp payload enclen p where_.

Definition lpInsertString (lp s : bytes) (p : Z) (where_ : lp_where) : option (option (bytes * option Z)) :=
  lpInsert lp (Some s) None p where_.

Definition lpInsertInteger (lp : bytes) (lval p : Z) (where_ : lp_where) : option (option (bytes * option Z)) :=
  lpInsert lp None (Some (lpEncodeIntegerGetType lval)) p where_.

Definition lpAppend (lp ele : bytes) : option (option (bytes * option Z)) :=
  listpack_bytes ← lpGetTotalBytes lp;
  let eofptr := listpack_bytes - 1 in
  lpInsert lp (Some ele) None eofptr LP_BEFORE.

Definition lpAppendInteger (lp : bytes) (lval : Z) : option (option (bytes * option Z)) :=
  listpack_bytes ← lpGetTotalBytes lp;
  let eofptr := listpack_bytes - 1 in
  lpInsertInteger lp lval eofptr LP_BEFORE.

Definition lpPrepend (lp s : bytes) : option (option (bytes * option Z)) :=
  p ← lpFirst lp;
  match p with None => lpAppend lp s | Some p => lpInsert lp (Some s) None p LP_BEFORE end.

Definition lpPrependInteger (lp : bytes) (lval : Z) : option (option (bytes * option Z)) :=
  p ← lpFirst lp;
  match p with None => lpAppendInteger lp lval | Some p => lpInsertInteger lp lval p LP_BEFORE end.

Definition lpReplace (lp : bytes) (p : Z) (s : bytes) : option (option (bytes * option Z)) :=
  lpInsert lp (Some s) None p LP_REPLACE.

Definition lpReplaceInteger (lp : bytes) (p lval : Z) : option (option (bytes * option Z)) :=
  lpInsertInteger lp lval p LP_REPLACE.

Definition lpDelete (lp : bytes) (p : Z) : option (option (bytes * option Z)) :=
  lpInsert lp None None p LP_REPLACE.

(** [while (num--)]: the number of entries deleted and the entry after them. *)
Fixpoint delete_range_loop (fuel : nat) (lp : bytes) (bytes_ num deleted tail : Z) : option (Z * Z) :=
  if num =? 0 then Some (deleted, tail)
  else
    match fuel with
    | O => None
    | S fuel' =>
        let deleted := deleted + 1 in
        tail ← lpSkip lp tail;
        b ← getb lp tail;
        if b =? LP_EOF then Some (deleted, tail)
        else _ ← lpAssertValidEntry lp bytes_ tail; delete_range_loop fuel' lp bytes_ (num - 1) deleted tail
    end.

(** The listpack and the new value of [*p]. *)
Definition lpDeleteRangeWithEntry (lp : bytes) (p num : Z) : option (bytes * option Z) :=
  bytes_ ← lpBytes lp;
  let eofptr := bytes_ - 1 in
  let first := p in
  if num =? 0 then Some (lp, Some p)
  else
    '(deleted, tail) ← delete_range_loop (length lp) lp bytes_ num 0 first;
    let poff := first in
    lp ← memmove lp first tail (Z.to_nat (u64 (eofptr - tail + 1)));
    lp ← lpSetTotalBytes lp (bytes_ - (tail - first));
    numele ← lpGetNumElements lp;
    lp ← (if negb (numele =? LP_HDR_NUMELE_UNKNOWN) then lpSetNumElements lp (u64 (numele - deleted))
          else Some lp);
    lp ← lpShrinkToFit lp;
    b ← getb lp poff;
    Some (lp, if b =? LP_EOF then None else Some poff).

Definition lpDeleteRange (lp : bytes) (index num : Z) : option bytes :=
  numele ← lpGetNumElements lp;
  if num =? 0 then Some lp
  else
    p ← lpSeek lp index;
    match p with
    | None => Some lp
    | Some p =>
        let index := if negb (numele =? LP_HDR_NUMELE_UNKNOWN) && (index <? 0) then numele + index else index in
        if negb (numele =? LP_HDR_NUMELE_UNKNOWN) && (u64 (numele - index) <=? num) then
          lp ← setb lp p LP_EOF;
          lp ← lpSetTotalBytes lp (p + 1);
          lp ← lpSetNumElements lp index;
          lpShrinkToFit lp
        else
          '(lp, _) ← lpDeleteRangeWithEntry lp p num; Some lp
    end.

(** The merged listpack; the other argument is freed. *)
Definition lpMerge (first second : bytes) : option bytes :=
  first_bytes ← lpBytes first;
  '(first_len, first) ← lpLength first;
  second_bytes ← lpBytes second;
  '(second_len, second) ← lpLength second;
  let '(target, target_bytes, source, source_bytes, append) :=
    if second_bytes <=? first_bytes then (first, first_bytes, second, second_bytes, true)
    else (second, second_bytes, first, first_bytes, false) in
  let lpbytes := u64 (first_bytes + second_bytes - LP_HDR_SIZE - 1) in
  if negb (lpbytes <? UINT32_MAX) then None
  else
    let lplength := first_len + second_len in
    let lplength := if lplength <? UINT16_MAX then lplength else UINT16_MAX in
    let target := lp_realloc target lpbytes in
    target ←
      (if append : bool then
         src ← rd source LP_HDR_SIZE (Z.to_nat (source_bytes - LP_HDR_SIZE));
         wr target (target_bytes - 1) src
       else
         target ← memmove target (source_bytes - 1) LP_HDR_SIZE (Z.to_nat (target_bytes - LP_HDR_SIZE));
         src ← rd source 0 (Z.to_nat (source_bytes - 1));
         wr target 0 src);
    target ← lpSetNumElements target lplength;
    lpSetTotalBytes target lpbytes.

(** Two listpack entries, the second only when [val] is wanted; [rand] is what the C
    library's [rand] returns. *)
Definition lpRandomPair (rand : Z) (lp : bytes) (total_count : Z) (want_val : bool)
    : option (lp_got * option lp_got) :=
  if total_count =? 0 then None
  else
    let r := i32 (Z.rem rand total_count * 2) in
    p ← lpSeek lp r;
    p ← p;
    key ← lpGetValue lp p;
    if want_val then
      q ← lpNext lp p;
      q ← q;
      val ← lpGetValue lp q;
      Some (key, Some val)
    else Some (key, None).
End alloc.
