(* ===== verification/ListpackEnc.v ===== *)
(** The encodings of [listpack.c]: every element written is read back, in both
    directions. *)

From S2P Require Import Prelude Util Listpack.

Local Open Scope Z_scope.

(** ** Entries *)

Inductive int_enc := I7 | I13 | I16 | I24 | I32 | I64.
Inductive str_enc := S6 | S12 | S32.
Inductive entry := EInt (w : int_enc) (v : Z) | EStr (w : str_enc) (s : bytes).

(** The bytes of an entry, without its backward length. *)
Definition encode (e : entry) : bytes :=
  match e with
  | EInt I7 v => [v]
  | EInt I13 v => [192 + v mod 8192 / 256; v mod 256]
  | EInt I16 v => 241 :: le_bytes 2 v
  | EInt I24 v => 242 :: le_bytes 3 v
  | EInt I32 v => 243 :: le_bytes 4 v
  | EInt I64 v => 244 :: le_bytes 8 v
  | EStr S6 s => 128 + Z.of_nat (length s) :: s
  | EStr S12 s => 224 + Z.of_nat (length s) / 256 :: Z.of_nat (length s) mod 256 :: s
  | EStr S32 s => 240 :: le_bytes 4 (Z.of_nat (length s)) ++ s
  end.

Definition wf_entry (e : entry) : Prop :=
  match e with
  | EInt I7 v => 0 <= v < 128
  | EInt I13 v => in_s 13 v
  | EInt I16 v => in_s 16 v
  | EInt I24 v => in_s 24 v
  | EInt I32 v => in_s 32 v
  | EInt I64 v => in_s 64 v
  | EStr S6 s => Z.of_nat (length s) < 64
  | EStr S12 s => Z.of_nat (length s) < 4096
  | EStr S32 s => Z.of_nat (length s) + 5 < 2 ^ 32
  end.

(** Size of an entry, and of the part that holds its type and length. *)
Definition esize (e : entry) : Z := Z.of_nat (length (encode e)).
Definition hsize (e : entry) : Z := match e with EStr S12 _ => 2 | EStr S32 _ => 5 | _ => 1 end.

(** An entry followed by its backward length. *)
Definition full (e : entry) : bytes := encode e ++ lpEncodeBacklen (esize e).
Definition fsize (e : entry) : Z := Z.of_nat (length (full e)).

(** ** Bytes and bits *)

Lemma getb_at pre l i : 0 <= i -> getb (pre ++ l) (Z.of_nat (length pre) + i) = getb l i.
Proof.
  intros Hi. unfold getb. rewrite !decide_True by lia. rewrite lookup_app_r by lia. f_equal. lia.
Qed.

Lemma getb_at0 pre l : getb (pre ++ l) (Z.of_nat (length pre)) = getb l 0.
Proof. rewrite <- (getb_at pre l 0) by lia. f_equal. lia. Qed.

Lemma getb_succ b l i : 0 <= i -> getb (b :: l) (1 + i) = getb l i.
Proof. apply (getb_at [b]). Qed.

Lemma getb0 b l : getb (b :: l) 0 = Some b.
Proof. done. Qed.
Lemma getb1 b c l : getb (b :: c :: l) 1 = Some c.
Proof. done. Qed.

(** A little endian load. *)
Lemma le_load_spec bs : forall lp off shift, 0 <= shift -> 0 <= off ->
  Forall is_byte bs -> take (length bs) (drop (Z.to_nat off) lp) = bs ->
  le_load (length bs) lp off shift = Some (le_value bs * 2 ^ shift).
Proof.
  induction bs as [|b bs IH]; intros lp off shift Hs Ho Hb Ht; [done|].
  inversion_clear Hb as [|? ? Hb0 Hbs]. cbn [length le_load le_value].
  destruct (drop (Z.to_nat off) lp) as [|b' l] eqn:E; [done|]. cbn in Ht. injection Ht as -> Ht.
  assert (Hl : lp !! Z.to_nat off = Some b) by (rewrite <- (Nat.add_0_r (Z.to_nat off)), <- lookup_drop, E; done).
  unfold getb. rewrite decide_True, Hl by done. cbn [mbind option_bind].
  rewrite IH; [|lia|lia|done|].
  - cbn [mbind option_bind]. f_equal. rewrite Z.lor_comm.
    replace (le_value bs * 2 ^ (shift + 8)) with (Z.shiftl (le_value bs) 8 * 2 ^ shift)
      by (rewrite Z.pow_add_r, Z.shiftl_mul_pow2 by lia; ring).
    rewrite <- !Z.shiftl_mul_pow2 by lia. rewrite <- Z.shiftl_lor.
    rewrite lor_shift_add by (cint || done). f_equal. cint.
  - replace (Z.to_nat (off + 1)) with (S (Z.to_nat off)) by lia.
    rewrite <- Nat.add_1_r, <- drop_drop, E. done.
Qed.

Lemma le_load_at pre bs post off :
  Forall is_byte bs -> off = Z.of_nat (length pre) ->
  le_load (length bs) (pre ++ bs ++ post) off 0 = Some (le_value bs).
Proof.
  intros Hb ->. rewrite (le_load_spec bs) by
    (done || lia || (rewrite Nat2Z.id, drop_app_length, take_app_length; done)).
  f_equal. lia.
Qed.

Lemma le_load_bytes n v pre post off :
  off = Z.of_nat (length pre) ->
  le_load n (pre ++ le_bytes n v ++ post) off 0 = Some (v mod 2 ^ (8 * Z.of_nat n)).
Proof.
  intros Ho. rewrite <- le_value_bytes. rewrite <- (length_le_bytes n v) at 1.
  apply le_load_at; [apply le_bytes_byte|done].
Qed.

(** A little endian store. *)
Lemma le_store_spec n : forall lp off v shift, 0 <= shift -> 0 <= off ->
  off + Z.of_nat n <= Z.of_nat (length lp) ->
  le_store n lp off v shift = wr lp off (le_bytes n (Z.shiftr v shift)).
Proof.
  induction n as [|n IH]; intros lp off v shift Hs Ho Hl; cbn [le_store le_bytes].
  { unfold wr. rewrite decide_True by (cbn; lia). cbn. by rewrite Nat.add_0_r, take_drop. }
  destruct (setb_ok lp off (Z.land (Z.shiftr v shift) 255)) as [lp' E]; [lia|]. rewrite E.
  cbn [mbind option_bind]. pose proof (setb_length _ _ _ _ E) as Hl'.
  rewrite IH, shiftr8 by lia. rewrite setb_wr, land255 in E.
  destruct (wr_ok lp' (off + 1) (le_bytes n (Z.shiftr v shift / 256))) as [lp'' E'];
    [lia|rewrite length_le_bytes; lia|].
  rewrite E'. symmetry. apply (wr_wr_next lp off [Z.shiftr v shift mod 256] _ lp' lp'' Ho E). done.
Qed.

Lemma le_store_at n v pre bs post off :
  length bs = n -> off = Z.of_nat (length pre) ->
  le_store n (pre ++ bs ++ post) off v 0 = Some (pre ++ le_bytes n v ++ post).
Proof.
  intros Hl ->. rewrite le_store_spec by (rewrite ?length_app; lia).
  rewrite Z.shiftr_0_r. apply wr_app. by rewrite length_le_bytes.
Qed.

(** ** Encoding *)

Definition int_enc_of (v : Z) : int_enc :=
  if (0 <=? v) && (v <=? 127) then I7
  else if (-4096 <=? v) && (v <=? 4095) then I13
  else if (-32768 <=? v) && (v <=? 32767) then I16
  else if (-8388608 <=? v) && (v <=? 8388607) then I24
  else if (-2147483648 <=? v) && (v <=? 2147483647) then I32
  else I64.

Definition str_enc_of (s : bytes) : str_enc :=
  let len := Z.of_nat (length s) in if len <? 64 then S6 else if len <? 4096 then S12 else S32.

(** The two's complement of the encoders. *)
Lemma twos_complement k v : 0 < k -> in_s k v -> (if v <? 0 then Z.shiftl 1 k + v else v) = v mod 2 ^ k.
Proof.
  intros Hk [H1 H2]. assert (2 ^ k = 2 * 2 ^ (k - 1)) as Hp.
  { rewrite <- Z.pow_succ_r by lia. f_equal. lia. }
  rewrite Z.shiftl_1_l. destruct (Z.ltb_spec v 0).
  - rewrite <- (Z.mod_add v 1) by lia. rewrite Z.mod_small; lia.
  - rewrite Z.mod_small; lia.
Qed.

Lemma u8_mod x : u8 (x mod 256) = x mod 256.
Proof. apply wrapu_small. pose proof (Z.mod_pos_bound x 256). cint. Qed.

(** The bytes written by successive shifts. *)
Lemma shifted_bytes_spec v :
  u8 (Z.land v 255) = v mod 256 /\ u8 (Z.land (Z.shiftr v 8) 255) = v / 256 mod 256 /\
  u8 (Z.land (Z.shiftr v 16) 255) = v / 256 / 256 mod 256 /\
  u8 (Z.land (Z.shiftr v 24) 255) = v / 256 / 256 / 256 mod 256 /\
  u8 (Z.land (Z.shiftr v 32) 255) = v / 256 / 256 / 256 / 256 mod 256 /\
  u8 (Z.land (Z.shiftr v 40) 255) = v / 256 / 256 / 256 / 256 / 256 mod 256 /\
  u8 (Z.land (Z.shiftr v 48) 255) = v / 256 / 256 / 256 / 256 / 256 / 256 mod 256 /\
  u8 (Z.shiftr v 8) = v / 256 mod 256 /\ u8 (Z.shiftr v 16) = v / 256 / 256 mod 256 /\
  u8 (Z.shiftr v 24) = v / 256 / 256 / 256 mod 256 /\
  u8 (Z.shiftr v 56) = v / 256 / 256 / 256 / 256 / 256 / 256 / 256 mod 256.
Proof.
  rewrite !land255, !u8_mod.
  change (Z.shiftr v 56) with (Z.shiftr v (0 + 8 + 8 + 8 + 8 + 8 + 8 + 8)).
  change (Z.shiftr v 48) with (Z.shiftr v (0 + 8 + 8 + 8 + 8 + 8 + 8)).
  change (Z.shiftr v 40) with (Z.shiftr v (0 + 8 + 8 + 8 + 8 + 8)).
  change (Z.shiftr v 32) with (Z.shiftr v (0 + 8 + 8 + 8 + 8)).
  change (Z.shiftr v 24) with (Z.shiftr v (0 + 8 + 8 + 8)).
  change (Z.shiftr v 16) with (Z.shiftr v (0 + 8 + 8)).
  change (Z.shiftr v 8) with (Z.shiftr v (0 + 8)).
  rewrite !shiftr8, Z.shiftr_0_r by lia. done.
Qed.

Lemma range_spec a v b : reflect (a <= v <= b) ((a <=? v) && (v <=? b)).
Proof. apply iff_reflect. rewrite andb_true_iff, !Z.leb_le. lia. Qed.

Lemma in_s13 v : in_s 13 v <-> -4096 <= v <= 4095.
Proof. unfold in_s. change (2 ^ (13 - 1)) with 4096. lia. Qed.
Lemma in_s24 v : in_s 24 v <-> -8388608 <= v <= 8388607.
Proof. unfold in_s. change (2 ^ (24 - 1)) with 8388608. lia. Qed.

(** The first byte of a 13 bit integer, and of the strings with a short length. *)
Lemma tag13 x : 0 <= x < 32 -> Z.lor x 192 = 192 + x /\ Z.land (192 + x) 31 = x.
Proof.
  intros Hx. assert (E : forallb (λ x, (Z.lor x 192 =? 192 + x) && (Z.land (192 + x) 31 =? x)) (seqZ 0 32) = true) by reflexivity.
  rewrite forallb_forall in E. specialize (E x). rewrite <- list_elem_of_In, elem_of_seqZ in E.
  specialize (E ltac:(lia)). apply andb_prop in E as [E1%Z.eqb_eq E2%Z.eqb_eq]. done.
Qed.
Lemma tag6 x : 0 <= x < 64 -> Z.lor x 128 = 128 + x /\ Z.land (128 + x) 63 = x.
Proof.
  intros Hx. assert (E : forallb (λ x, (Z.lor x 128 =? 128 + x) && (Z.land (128 + x) 63 =? x)) (seqZ 0 64) = true) by reflexivity.
  rewrite forallb_forall in E. specialize (E x). rewrite <- list_elem_of_In, elem_of_seqZ in E.
  specialize (E ltac:(lia)). apply andb_prop in E as [E1%Z.eqb_eq E2%Z.eqb_eq]. done.
Qed.
Lemma tag12 x : 0 <= x < 16 -> Z.lor x 224 = 224 + x /\ Z.land (224 + x) 15 = x.
Proof.
  intros Hx. assert (E : forallb (λ x, (Z.lor x 224 =? 224 + x) && (Z.land (224 + x) 15 =? x)) (seqZ 0 16) = true) by reflexivity.
  rewrite forallb_forall in E. specialize (E x). rewrite <- list_elem_of_In, elem_of_seqZ in E.
  specialize (E ltac:(lia)). apply andb_prop in E as [E1%Z.eqb_eq E2%Z.eqb_eq]. done.
Qed.

Lemma encode13 v :
  in_s 13 v ->
  [u8 (Z.lor (Z.shiftr (v mod 8192) 8) 192); u8 (Z.land (v mod 8192) 255)] = encode (EInt I13 v).
Proof.
  intros _. pose proof (Z.mod_pos_bound v 8192 ltac:(lia)) as Hm. cbn [encode].
  rewrite Z.shiftr_div_pow2, land255, u8_mod by lia. change (2 ^ 8) with 256.
  assert (0 <= v mod 8192 / 256 < 32) as Hx.
  { split; [apply Z.div_pos; lia|]. apply Z.div_lt_upper_bound; lia. }
  destruct (tag13 _ Hx) as [-> _]. rewrite wrapu_small by cint.
  do 2 f_equal. change 8192 with (256 * 32). rewrite Z.rem_mul_r by lia.
  by rewrite (Z.mul_comm 256 (v / 256 mod 32)), Z.mod_add, Z.mod_mod by lia.
Qed.

Lemma lpEncodeIntegerGetType_spec v :
  in_s 64 v ->
  lpEncodeIntegerGetType v = encode (EInt (int_enc_of v) v) /\ wf_entry (EInt (int_enc_of v) v).
Proof.
  intros Hv. unfold lpEncodeIntegerGetType, int_enc_of.
  destruct (range_spec 0 v 127).
  { cbn. rewrite wrapu_small by cint. split; [done|lia]. }
  destruct (range_spec (-4096) v 4095).
  { cbv zeta. rewrite (twos_complement 13) by (rewrite ?in_s13; lia). split; [|by apply in_s13].
    apply encode13. by apply in_s13. }
  destruct (range_spec (-32768) v 32767).
  { cbv zeta. rewrite (twos_complement 16) by cint. split; [|cbn; cint].
    cbn [encode]. rewrite <- (le_bytes_mod 2 v). change (8 * Z.of_nat 2) with 16. cbn [le_bytes].
    pose proof (shifted_bytes_spec (v mod 2 ^ 16)) as Hb. repeat (f_equal; try apply Hb). }
  destruct (range_spec (-8388608) v 8388607).
  { cbv zeta. rewrite (twos_complement 24) by (rewrite ?in_s24; lia). split; [|by apply in_s24].
    cbn [encode]. rewrite <- (le_bytes_mod 3 v). change (8 * Z.of_nat 3) with 24. cbn [le_bytes].
    pose proof (shifted_bytes_spec (v mod 2 ^ 24)) as Hb. repeat (f_equal; try apply Hb). }
  destruct (range_spec (-2147483648) v 2147483647).
  { cbv zeta. rewrite (twos_complement 32) by cint. split; [|cbn; cint].
    cbn [encode]. rewrite <- (le_bytes_mod 4 v). change (8 * Z.of_nat 4) with 32. cbn [le_bytes].
    pose proof (shifted_bytes_spec (v mod 2 ^ 32)) as Hb. repeat (f_equal; try apply Hb). }
  split; [|done]. cbn [encode]. rewrite <- (le_bytes_mod 8 v). change (8 * Z.of_nat 8) with 64.
  cbn [le_bytes]. pose proof (shifted_bytes_spec (u64 v)) as Hb. cbv zeta.
  repeat (f_equal; try apply Hb).
Qed.

Lemma lpEncodeString_spec s :
  lpEncodeString s = encode (EStr (str_enc_of s) s) /\
  (Z.of_nat (length s) + 5 < 2 ^ 32 -> wf_entry (EStr (str_enc_of s) s)).
Proof.
  unfold lpEncodeString, str_enc_of. destruct (Z.ltb_spec (Z.of_nat (length s)) 64).
  { split; [|done]. cbn. destruct (tag6 (Z.of_nat (length s))) as [-> _]; [lia|]. by rewrite wrapu_small by cint. }
  destruct (Z.ltb_spec (Z.of_nat (length s)) 4096).
  { split; [|done]. cbn [encode]. rewrite Z.shiftr_div_pow2, land255, u8_mod by lia. change (2 ^ 8) with 256.
    assert (0 <= Z.of_nat (length s) / 256 < 16) as Hx.
    { split; [apply Z.div_pos; lia|]. apply Z.div_lt_upper_bound; lia. }
    destruct (tag12 _ Hx) as [-> _]. by rewrite wrapu_small by cint. }
  split; [|done]. cbn [encode le_bytes app]. pose proof (shifted_bytes_spec (Z.of_nat (length s))) as Hb.
  repeat (f_equal; try apply Hb).
Qed.

(** ** Decoding *)

(** What the type tests mean. *)
Definition classes (b : Z) : bool :=
  eqb (LP_ENCODING_IS_7BIT_UINT b) (b <? 128) &&
  eqb (LP_ENCODING_IS_6BIT_STR b) ((128 <=? b) && (b <? 192)) &&
  eqb (LP_ENCODING_IS_13BIT_INT b) ((192 <=? b) && (b <? 224)) &&
  eqb (LP_ENCODING_IS_12BIT_STR b) ((224 <=? b) && (b <? 240)) &&
  eqb (LP_ENCODING_IS_16BIT_INT b) (b =? 241) && eqb (LP_ENCODING_IS_24BIT_INT b) (b =? 242) &&
  eqb (LP_ENCODING_IS_32BIT_INT b) (b =? 243) && eqb (LP_ENCODING_IS_64BIT_INT b) (b =? 244) &&
  eqb (LP_ENCODING_IS_32BIT_STR b) (b =? 240).

Lemma classes_spec b : is_byte b ->
  LP_ENCODING_IS_7BIT_UINT b = (b <? 128) /\
  LP_ENCODING_IS_6BIT_STR b = ((128 <=? b) && (b <? 192)) /\
  LP_ENCODING_IS_13BIT_INT b = ((192 <=? b) && (b <? 224)) /\
  LP_ENCODING_IS_12BIT_STR b = ((224 <=? b) && (b <? 240)) /\
  LP_ENCODING_IS_16BIT_INT b = (b =? 241) /\ LP_ENCODING_IS_24BIT_INT b = (b =? 242) /\
  LP_ENCODING_IS_32BIT_INT b = (b =? 243) /\ LP_ENCODING_IS_64BIT_INT b = (b =? 244) /\
  LP_ENCODING_IS_32BIT_STR b = (b =? 240).
Proof.
  intros Hb. assert (E : classes b = true) by (apply byte_cases; [by vm_compute|done]).
  unfold classes in E. rewrite !andb_true_iff, !eqb_true_iff in E. tauto.
Qed.

(** Evaluate the type tests of a byte whose range is known. *)
Ltac eval_class b :=
  let H := fresh in
  assert (is_byte b) as H by cint;
  destruct (classes_spec b H) as (-> & -> & -> & -> & -> & -> & -> & -> & ->); clear H;
  repeat match goal with
  | |- context [b <? ?n] => (rewrite (proj2 (Z.ltb_lt b n)) by lia) || (rewrite (proj2 (Z.ltb_ge b n)) by lia)
  | |- context [?n <=? b] => (rewrite (proj2 (Z.leb_le n b)) by lia) || (rewrite (proj2 (Z.leb_gt n b)) by lia)
  | |- context [b =? ?n] => (rewrite (proj2 (Z.eqb_eq b n)) by lia) || (rewrite (proj2 (Z.eqb_neq b n)) by lia)
  end; cbn [andb].

Lemma div13 v : 0 <= v mod 8192 / 256 < 32.
Proof.
  pose proof (Z.mod_pos_bound v 8192 ltac:(lia)). split; [apply Z.div_pos; lia|].
  apply Z.div_lt_upper_bound; lia.
Qed.
Lemma div12 n : 0 <= n < 4096 -> 0 <= n / 256 < 16.
Proof. split; [apply Z.div_pos; lia|]. apply Z.div_lt_upper_bound; lia. Qed.

(** The first byte of an entry decides its type. *)
Lemma encode_head e : wf_entry e -> exists b l, encode e = b :: l /\ is_byte b /\ b <> 255.
Proof.
  destruct e as [[] v|[] s]; cbn; intros Hw; eexists _, _; (split; [reflexivity|]); try cint.
  - pose proof (div13 v). cint.
  - pose proof (div12 (Z.of_nat (length s)) ltac:(lia)). cint.
Qed.

Lemma len12 b c : is_byte c -> 0 <= b -> Z.lor (Z.shiftl b 8) c = b * 256 + c.
Proof. intros. by rewrite lor_shift_add by (done || lia). Qed.

Lemma mod256_byte x : is_byte (x mod 256).
Proof. pose proof (Z.mod_pos_bound x 256). cint. Qed.

Lemma str12_len pre s post :
  Z.of_nat (length s) < 4096 ->
  LP_ENCODING_12BIT_STR_LEN (pre ++ encode (EStr S12 s) ++ post) (Z.of_nat (length pre)) = Some (Z.of_nat (length s)).
Proof.
  intros Hs. unfold LP_ENCODING_12BIT_STR_LEN. rewrite getb_at0, getb_at by lia. cbn [encode app].
  rewrite getb0, getb1. cbn [mbind option_bind]. destruct (tag12 _ (div12 (Z.of_nat (length s)) ltac:(lia))) as [_ ->].
  rewrite len12 by (apply mod256_byte || apply Z.div_pos; lia). f_equal.
  rewrite (Z.div_mod (Z.of_nat (length s)) 256) at 3 by lia. lia.
Qed.

Lemma str32_len pre s post :
  Z.of_nat (length s) < 2 ^ 32 ->
  LP_ENCODING_32BIT_STR_LEN (pre ++ encode (EStr S32 s) ++ post) (Z.of_nat (length pre)) = Some (Z.of_nat (length s)).
Proof.
  intros Hs. unfold LP_ENCODING_32BIT_STR_LEN. cbn [encode].
  replace (pre ++ (240 :: le_bytes 4 (Z.of_nat (length s)) ++ s) ++ post)
    with ((pre ++ [240]) ++ le_bytes 4 (Z.of_nat (length s)) ++ (s ++ post)) by (by rewrite <- !app_assoc).
  rewrite le_load_bytes by (rewrite length_app; cbn; lia). f_equal. apply Z.mod_small. cint.
Qed.

(** Read the first byte of an entry. *)
Ltac entry_head := cbn [encode app]; rewrite ?getb0; cbn [mbind option_bind].

Lemma lpCurrentEncodedSizeUnsafe_spec pre e post :
  wf_entry e ->
  lpCurrentEncodedSizeUnsafe (pre ++ encode e ++ post) (Z.of_nat (length pre)) = Some (esize e).
Proof.
  intros Hw. unfold lpCurrentEncodedSizeUnsafe. rewrite getb_at0.
  destruct e as [[] v|[] s].
  - cbn in Hw. entry_head. by eval_class v.
  - entry_head. pose proof (div13 v). by eval_class (192 + v mod 8192 / 256).
  - done.
  - done.
  - done.
  - done.
  - cbn in Hw. unfold LP_ENCODING_6BIT_STR_LEN. rewrite getb_at0. entry_head. eval_class (128 + Z.of_nat (length s)).
    destruct (tag6 (Z.of_nat (length s))) as [_ ->]; [lia|]. unfold esize. cbn [length encode mbind option_bind]. f_equal. lia.
  - rewrite str12_len by (cbn in Hw; lia). cbn in Hw. entry_head. pose proof (div12 (Z.of_nat (length s)) ltac:(lia)).
    eval_class (224 + Z.of_nat (length s) / 256). unfold esize. cbn [length encode mbind option_bind]. f_equal. lia.
  - rewrite str32_len by (cbn in Hw; lia). cbn [wf_entry] in Hw. entry_head. eval_class 240.
    unfold esize. cbn [length encode mbind option_bind]. rewrite wrapu_small by cint. f_equal.
    rewrite length_app, length_le_bytes. lia.
Qed.

Lemma lpCurrentEncodedSizeBytes_spec pre e post :
  wf_entry e ->
  lpCurrentEncodedSizeBytes (pre ++ encode e ++ post) (Z.of_nat (length pre)) = Some (hsize e).
Proof.
  intros Hw. unfold lpCurrentEncodedSizeBytes. rewrite getb_at0.
  destruct e as [[] v|[] s]; try done; cbn in Hw; entry_head.
  - by eval_class v.
  - pose proof (div13 v). by eval_class (192 + v mod 8192 / 256).
  - by eval_class (128 + Z.of_nat (length s)).
  - pose proof (div12 (Z.of_nat (length s)) ltac:(lia)). by eval_class (224 + Z.of_nat (length s) / 256).
Qed.

Lemma hsize_le e : wf_entry e -> 1 <= hsize e <= esize e.
Proof. intros _. unfold esize. destruct e as [[] v|[] s]; cbn; rewrite ?length_app; lia. Qed.

(** The sign conversion of [lpGetWithSize]. *)
Lemma lp_int_case_spec k v buf size negstart negmax :
  1 < k <= 64 -> in_s k v -> negstart = 2 ^ (k - 1) -> negmax = 2 ^ k - 1 ->
  lp_int_case buf (v mod 2 ^ k) negstart negmax size =
    match buf with
    | Some b => '(b, n) ← ll2string b 0 LP_INTBUF_SIZE v; Some (GotBuf b n, size)
    | None => Some (GotInt v, size)
    end.
Proof.
  intros Hk [H1 H2] -> ->. unfold lp_int_case.
  assert (2 ^ k = 2 * 2 ^ (k - 1)) as Hp by (rewrite <- Z.pow_succ_r by lia; f_equal; lia).
  assert (2 ^ (k - 1) <= 2 ^ 63) by (apply Z.pow_le_mono_r; lia).
  replace (if 2 ^ (k - 1) <=? v mod 2 ^ k then _ else _) with v; [done|].
  destruct (Z.lt_ge_cases v 0).
  - replace (v mod 2 ^ k) with (v + 2 ^ k)
      by (rewrite <- (Z.mod_add v 1) by lia; symmetry; rewrite Z.mod_small; lia).
    rewrite (proj2 (Z.leb_le _ _)) by lia. rewrite (wrapu_small 64), (wraps_small 64) by cint. lia.
  - rewrite Z.mod_small by lia. rewrite (proj2 (Z.leb_gt _ _)) by lia. rewrite (wraps_small 64) by cint. done.
Qed.

Lemma int_backlen w v : backlen_size (esize (EInt w v)) = 1.
Proof. destruct w; done. Qed.

(** What reading an entry at address [p] returns. *)
Definition got (p : Z) (e : entry) (buf : option bytes) (size : option Z) : option (lp_got * option Z) :=
  match e with
  | EStr _ s => Some (GotStr (p + hsize e) (Z.of_nat (length s)), size)
  | EInt _ v =>
      match buf with
      | Some b => '(b, n) ← ll2string b 0 LP_INTBUF_SIZE v; Some (GotBuf b n, size)
      | None => Some (GotInt v, size)
      end
  end.

Lemma fsize_eq e : fsize e = esize e + backlen_size (esize e).
Proof. unfold fsize, full, esize, backlen_size. rewrite length_app. lia. Qed.

Lemma le_load_tail n v b pre post :
  le_load n (pre ++ b :: le_bytes n v ++ post) (Z.of_nat (length pre) + 1) 0 = Some (v mod 2 ^ (8 * Z.of_nat n)).
Proof.
  replace (pre ++ b :: le_bytes n v ++ post) with ((pre ++ [b]) ++ le_bytes n v ++ post)
    by (by rewrite <- app_assoc).
  apply le_load_bytes. rewrite length_app. cbn. lia.
Qed.

Lemma lpGetWithSize_spec pre e post buf :
  wf_entry e ->
  lpGetWithSize (pre ++ encode e ++ post) (Z.of_nat (length pre)) buf =
    got (Z.of_nat (length pre)) e buf (Some (fsize e)).
Proof.
  intros Hw. rewrite fsize_eq. unfold lpGetWithSize. rewrite getb_at0. unfold got.
  destruct e as [w v|w s].
  - rewrite int_backlen. destruct w; cbn [wf_entry] in Hw; entry_head.
    + eval_class v. assert (Z.land v 127 = v mod 2 ^ 64) as ->.
      { change 127 with (Z.ones 7). rewrite Z.land_ones by lia. rewrite !Z.mod_small; cint. }
      rewrite Z.mod_small by cint. unfold lp_int_case, UINT64_MAX.
      rewrite (proj2 (Z.leb_gt _ _)), (wraps_small 64) by cint. done.
    + pose proof (div13 v). eval_class (192 + v mod 8192 / 256). rewrite getb_at by lia. cbn [app].
      rewrite getb1. cbn [mbind option_bind]. destruct (tag13 _ H) as [_ ->].
      rewrite len12 by (apply mod256_byte || lia).
      replace (v mod 8192 / 256 * 256 + v mod 256) with (v mod 2 ^ 13).
      * by apply (lp_int_case_spec 13).
      * change (2 ^ 13) with 8192. rewrite (Z.div_mod (v mod 8192) 256) at 1 by lia.
        replace (v mod 8192 mod 256) with (v mod 256); [lia|]. change 8192 with (256 * 32).
        rewrite Z.rem_mul_r by lia. by rewrite (Z.mul_comm 256 (v / 256 mod 32)), Z.mod_add, Z.mod_mod by lia.
    + eval_class 241. rewrite (le_load_tail 2 v 241). cbn [mbind option_bind]. by apply (lp_int_case_spec 16).
    + eval_class 242. rewrite (le_load_tail 3 v 242). cbn [mbind option_bind]. by apply (lp_int_case_spec 24).
    + eval_class 243. rewrite (le_load_tail 4 v 243). cbn [mbind option_bind]. by apply (lp_int_case_spec 32).
    + eval_class 244. rewrite (le_load_tail 8 v 244). cbn [mbind option_bind]. by apply (lp_int_case_spec 64).
  - destruct w; cbn [wf_entry] in Hw.
    + unfold LP_ENCODING_6BIT_STR_LEN. rewrite getb_at0. entry_head. eval_class (128 + Z.of_nat (length s)).
      destruct (tag6 (Z.of_nat (length s))) as [_ ->]; [lia|]. unfold esize. cbn [encode length hsize].
      do 3 f_equal. replace (Z.of_nat (length s) + 1) with (Z.of_nat (S (length s))) by lia. lia.
    + rewrite str12_len by lia. entry_head. pose proof (div12 (Z.of_nat (length s)) ltac:(lia)).
      eval_class (224 + Z.of_nat (length s) / 256). unfold esize. cbn [encode length hsize mbind option_bind].
      do 3 f_equal. replace (Z.of_nat (length s) + 2) with (Z.of_nat (S (S (length s)))) by lia. lia.
    + rewrite str32_len by lia. entry_head. eval_class 240. unfold esize. cbn [encode length hsize mbind option_bind].
      rewrite length_app, length_le_bytes. do 3 f_equal.
      replace (Z.of_nat (length s) + 5) with (Z.of_nat (S (4 + length s))) by lia. lia.
Qed.

(** ** The backward length *)

(** [lpDecodeBacklen] on the bytes before the pointer, nearest first. *)
Fixpoint dec_rev (fuel : nat) (bs : bytes) (val shift : Z) : option Z :=
  match fuel, bs with
  | S fuel', b :: bs' =>
      let val := Z.lor val (u64 (Z.shiftl (Z.land b 127) shift)) in
      if Z.land b 128 =? 0 then Some val
      else if 28 <? shift + 7 then Some UINT64_MAX
      else dec_rev fuel' bs' val (shift + 7)
  | _, _ => None
  end.

Lemma lpDecodeBacklen_rev fuel : forall bs post val shift,
  lpDecodeBacklen_loop fuel (bs ++ post) (Z.of_nat (length bs) - 1) val shift =
    dec_rev fuel (reverse bs) val shift.
Proof.
  induction fuel as [|fuel IH]; intros bs post val shift; [done|].
  destruct bs as [|b bs _] using rev_ind; [done|].
  rewrite reverse_snoc, length_app, <- app_assoc. cbn [length lpDecodeBacklen_loop dec_rev app].
  replace (Z.of_nat (length bs + 1) - 1) with (Z.of_nat (length bs)) by lia.
  rewrite getb_at0, getb0. cbn [mbind option_bind]. by rewrite IH.
Qed.

Lemma low7 b : is_byte b -> Z.land b 127 = b mod 128 /\ (Z.land b 128 =? 0) = (b <? 128).
Proof.
  intros Hb. split; [change 127 with (Z.ones 7); by rewrite Z.land_ones|].
  refine (proj1 (eqb_true_iff _ _) _).
  apply (byte_cases (λ b, eqb (Z.land b 128 =? 0) (b <? 128))); [by vm_compute|done].
Qed.

Lemma low_byte x : u8 (Z.lor (Z.land x 127) 128) = 128 + x mod 128.
Proof.
  change 127 with (Z.ones 7). rewrite Z.land_ones by lia. change (2 ^ 7) with 128.
  pose proof (Z.mod_pos_bound x 128 ltac:(lia)).
  change 128 with (Z.shiftl 1 7) at 2. rewrite Z.lor_comm, lor_shift_add by (done || lia).
  rewrite wrapu_small; cint.
Qed.

Lemma dec_rev_step fuel b bs val shift :
  0 <= val < 2 ^ shift -> 0 <= shift <= 28 -> is_byte b ->
  dec_rev (S fuel) (b :: bs) val shift =
    (if b <? 128 then Some (val + b mod 128 * 2 ^ shift)
     else if 28 <? shift + 7 then Some UINT64_MAX
     else dec_rev fuel bs (val + b mod 128 * 2 ^ shift) (shift + 7)) /\
  0 <= val + b mod 128 * 2 ^ shift < 2 ^ (shift + 7).
Proof.
  intros Hv Hs Hb. destruct (low7 b Hb) as [E1 E2]. cbn [dec_rev]. rewrite E1, E2.
  pose proof (Z.mod_pos_bound b 128 ltac:(lia)) as Hm.
  assert (2 ^ shift <= 2 ^ 28) by (apply Z.pow_le_mono_r; lia). change (2 ^ 28) with 268435456 in *.
  rewrite wrapu_small by (rewrite Z.shiftl_mul_pow2 by lia; split; [nia|cint_unfold; nia]).
  rewrite Z.lor_comm, lor_shift_add by (lia || done).
  rewrite (Z.add_comm _ val). split; [done|]. rewrite Z.pow_add_r by lia. change (2 ^ 7) with 128. nia.
Qed.

Lemma shiftr7 v k : 0 <= k -> Z.shiftr v (k + 7) = Z.shiftr v k / 128.
Proof. intros. rewrite <- Z.shiftr_shiftr, (Z.shiftr_div_pow2 _ 7) by lia. done. Qed.

Lemma backlen_bytes l :
  lpEncodeBacklen l =
    if l <=? 127 then [u8 l]
    else if l <? 16383 then [u8 (l / 128); 128 + l mod 128]
    else if l <? 2097151 then [u8 (l / 128 / 128); 128 + l / 128 mod 128; 128 + l mod 128]
    else if l <? 268435455 then
      [u8 (l / 128 / 128 / 128); 128 + l / 128 / 128 mod 128; 128 + l / 128 mod 128; 128 + l mod 128]
    else [u8 (l / 128 / 128 / 128 / 128); 128 + l / 128 / 128 / 128 mod 128; 128 + l / 128 / 128 mod 128;
          128 + l / 128 mod 128; 128 + l mod 128].
Proof.
  unfold lpEncodeBacklen. rewrite !low_byte.
  change (Z.shiftr l 28) with (Z.shiftr l (0 + 7 + 7 + 7 + 7)).
  change (Z.shiftr l 21) with (Z.shiftr l (0 + 7 + 7 + 7)).
  change (Z.shiftr l 14) with (Z.shiftr l (0 + 7 + 7)).
  change (Z.shiftr l 7) with (Z.shiftr l (0 + 7)).
  by rewrite !shiftr7, Z.shiftr_0_r by lia.
Qed.

Lemma dec_rev_more fuel x bs val shift :
  0 <= val < 2 ^ shift -> 0 <= shift <= 21 ->
  dec_rev (S fuel) (128 + x mod 128 :: bs) val shift =
    dec_rev fuel bs (val + x mod 128 * 2 ^ shift) (shift + 7) /\
  0 <= val + x mod 128 * 2 ^ shift < 2 ^ (shift + 7).
Proof.
  intros Hv Hs. pose proof (Z.mod_pos_bound x 128 ltac:(lia)) as Hx.
  destruct (dec_rev_step fuel (128 + x mod 128) bs val shift) as [-> Hr]; [done|lia|cint|].
  replace ((128 + x mod 128) mod 128) with (x mod 128) in *
    by (rewrite <- (Z.mul_1_l 128) at 2; rewrite Z.add_comm, Z.mod_add, Z.mod_mod; lia).
  rewrite (proj2 (Z.ltb_ge _ _)), (proj2 (Z.ltb_ge 28 _)) by lia. done.
Qed.

Lemma dec_rev_last fuel x bs val shift :
  0 <= val < 2 ^ shift -> 0 <= shift <= 28 -> 0 <= x < 128 ->
  dec_rev (S fuel) (u8 x :: bs) val shift = Some (val + x * 2 ^ shift).
Proof.
  intros Hv Hs Hx. rewrite wrapu_small by cint.
  destruct (dec_rev_step fuel x bs val shift) as [-> _]; [done|lia|cint|].
  rewrite (proj2 (Z.ltb_lt _ _)), Z.mod_small by lia. done.
Qed.

Lemma div128_bound l n : 0 <= l < 128 * n -> 0 <= l / 128 < n.
Proof. intros. split; [apply Z.div_pos; lia|]. apply Z.div_lt_upper_bound; lia. Qed.

Lemma dec_rev_encoded l rest :
  0 <= l < 2 ^ 35 -> dec_rev 5 (reverse (lpEncodeBacklen l) ++ rest) 0 0 = Some l.
Proof.
  change (2 ^ 35) with 34359738368. intros Hl. rewrite backlen_bytes.
  set (a := l / 128). set (b := a / 128). set (c := b / 128). set (d := c / 128).
  pose proof (Z.div_mod l 128 ltac:(lia)) as E1. fold a in E1.
  pose proof (Z.div_mod a 128 ltac:(lia)) as E2. fold b in E2.
  pose proof (Z.div_mod b 128 ltac:(lia)) as E3. fold c in E3.
  pose proof (Z.div_mod c 128 ltac:(lia)) as E4. fold d in E4.
  pose proof (Z.mod_pos_bound l 128 ltac:(lia)). pose proof (Z.mod_pos_bound a 128 ltac:(lia)).
  pose proof (Z.mod_pos_bound b 128 ltac:(lia)). pose proof (Z.mod_pos_bound c 128 ltac:(lia)).
  destruct (Z.leb_spec l 127); [|destruct (Z.ltb_spec l 16383); [|destruct (Z.ltb_spec l 2097151); [|destruct (Z.ltb_spec l 268435455)]]];
    cbn [reverse rev_append app].
  - change (reverse [u8 l] ++ rest) with (u8 l :: rest). rewrite dec_rev_last by lia. f_equal. lia.
  - change (reverse [u8 a; 128 + l mod 128] ++ rest) with (128 + l mod 128 :: u8 a :: rest).
    destruct (dec_rev_more 4 l (u8 a :: rest) 0 0) as [-> Hr1]; [lia..|].
    rewrite dec_rev_last by lia. f_equal. lia.
  - change (reverse [u8 b; 128 + a mod 128; 128 + l mod 128] ++ rest)
      with (128 + l mod 128 :: 128 + a mod 128 :: u8 b :: rest).
    destruct (dec_rev_more 4 l (128 + a mod 128 :: u8 b :: rest) 0 0) as [-> Hr1]; [lia..|].
    destruct (dec_rev_more 3 a (u8 b :: rest) (0 + l mod 128 * 2 ^ 0) (0 + 7)) as [-> Hr2]; [lia..|].
    rewrite dec_rev_last by lia. f_equal. lia.
  - change (reverse [u8 c; 128 + b mod 128; 128 + a mod 128; 128 + l mod 128] ++ rest)
      with (128 + l mod 128 :: 128 + a mod 128 :: 128 + b mod 128 :: u8 c :: rest).
    destruct (dec_rev_more 4 l (128 + a mod 128 :: 128 + b mod 128 :: u8 c :: rest) 0 0) as [-> Hr1]; [lia..|].
    destruct (dec_rev_more 3 a (128 + b mod 128 :: u8 c :: rest) (0 + l mod 128 * 2 ^ 0) (0 + 7)) as [-> Hr2]; [lia..|].
    destruct (dec_rev_more 2 b (u8 c :: rest) _ (0 + 7 + 7) Hr2) as [-> Hr3]; [lia..|].
    rewrite dec_rev_last by lia. f_equal. lia.
  - change (reverse [u8 d; 128 + c mod 128; 128 + b mod 128; 128 + a mod 128; 128 + l mod 128] ++ rest)
      with (128 + l mod 128 :: 128 + a mod 128 :: 128 + b mod 128 :: 128 + c mod 128 :: u8 d :: rest).
    destruct (dec_rev_more 4 l (128 + a mod 128 :: 128 + b mod 128 :: 128 + c mod 128 :: u8 d :: rest) 0 0) as [-> Hr1]; [lia..|].
    destruct (dec_rev_more 3 a (128 + b mod 128 :: 128 + c mod 128 :: u8 d :: rest) _ (0 + 7) Hr1) as [-> Hr2]; [lia..|].
    destruct (dec_rev_more 2 b (128 + c mod 128 :: u8 d :: rest) _ (0 + 7 + 7) Hr2) as [-> Hr3]; [lia..|].
    destruct (dec_rev_more 1 c (u8 d :: rest) _ (0 + 7 + 7 + 7) Hr3) as [-> Hr4]; [lia..|].
    rewrite dec_rev_last by lia. f_equal. lia.
Qed.

Lemma backlen_size_range l : 1 <= backlen_size l <= 5.
Proof. unfold backlen_size. rewrite backlen_bytes. repeat case_match; cbn; lia. Qed.

Lemma lpDecodeBacklen_spec pre l post p :
  0 <= l < 2 ^ 35 -> p = Z.of_nat (length pre) + backlen_size l - 1 ->
  lpDecodeBacklen (pre ++ lpEncodeBacklen l ++ post) p = Some l.
Proof.
  intros Hl ->. unfold lpDecodeBacklen, backlen_size. rewrite app_assoc.
  replace (Z.of_nat (length pre) + Z.of_nat (length (lpEncodeBacklen l)) - 1)
    with (Z.of_nat (length (pre ++ lpEncodeBacklen l)) - 1) by (rewrite length_app; lia).
  rewrite lpDecodeBacklen_rev, reverse_app. by apply dec_rev_encoded.
Qed.

(** * Well-formed listpacks and the navigation among their entries *)

(** ** Representation *)

Fixpoint body (es : list entry) : bytes :=
  match es with [] => [] | e :: es' => full e ++ body es' end.

Definition header (total n : Z) : bytes := le_bytes 4 total ++ le_bytes 2 n.

(** Offset of what follows the entries [a]; total size of a listpack of [es]. *)
Definition off (a : list entry) : Z := LP_HDR_SIZE + Z.of_nat (length (body a)).
Definition total (es : list entry) : Z := off es + 1.

(** The count of the header is exact or unknown; memory may be left after the end. *)
Definition lp_bytes_of (es : list entry) (n : Z) (slack : bytes) : bytes :=
  header (total es) n ++ body es ++ LP_EOF :: slack.
Definition count_ok (es : list entry) (n : Z) : Prop :=
  in_u 16 n /\ (n = LP_HDR_NUMELE_UNKNOWN \/ n = Z.of_nat (length es)).
Definition listpack (lp : bytes) (es : list entry) : Prop :=
  exists n slack, lp = lp_bytes_of es n slack /\ total es < 2 ^ 32 /\ Forall wf_entry es /\ count_ok es n.

Lemma body_app a b : body (a ++ b) = body a ++ body b.
Proof. induction a as [|e a IH]; [done|]. cbn. by rewrite IH, app_assoc. Qed.

Lemma length_header t n : length (header t n) = 6%nat.
Proof. done. Qed.

Lemma off_app a b : off (a ++ b) = off a + Z.of_nat (length (body b)).
Proof. unfold off. rewrite body_app, length_app. lia. Qed.

Lemma off_snoc a e : off (a ++ [e]) = off a + fsize e.
Proof. rewrite off_app. cbn. by rewrite app_nil_r. Qed.

Lemma off_ge a : LP_HDR_SIZE <= off a.
Proof. unfold off. lia. Qed.

Lemma esize_range e : wf_entry e -> 1 <= esize e < 2 ^ 32.
Proof.
  intros Hw. pose proof (hsize_le e Hw). split; [lia|]. unfold esize in *. clear H.
  destruct e as [[] v|[] s]; cbn [encode length wf_entry] in *; rewrite ?length_app, ?length_le_bytes; try cint.
Qed.

Lemma fsize_range e : wf_entry e -> 2 <= fsize e < 2 ^ 32 + 5.
Proof.
  intros Hw. rewrite fsize_eq. pose proof (esize_range e Hw). pose proof (backlen_size_range (esize e)). lia.
Qed.

Lemma body_length es : Forall wf_entry es -> 2 * Z.of_nat (length es) <= Z.of_nat (length (body es)).
Proof.
  induction 1 as [|e es He _ IH]; [done|]. cbn [body length]. rewrite length_app.
  pose proof (fsize_range e He) as Hf. unfold fsize in Hf. lia.
Qed.

(** ** The header *)

Lemma le_load_header_total t n l : in_u 32 t -> lpGetTotalBytes (header t n ++ l) = Some t.
Proof.
  intros Ht. unfold lpGetTotalBytes, header. rewrite <- app_assoc.
  pose proof (le_load_bytes 4 t [] (le_bytes 2 n ++ l) 0 eq_refl) as E. cbn [app] in E. rewrite E.
  f_equal. by apply Z.mod_small.
Qed.

Lemma le_load_header_num t n l : in_u 16 n -> lpGetNumElements (header t n ++ l) = Some n.
Proof.
  intros Hn. unfold lpGetNumElements, header. rewrite <- app_assoc.
  rewrite (le_load_bytes 2 n (le_bytes 4 t) _ 4) by done. f_equal. by apply Z.mod_small.
Qed.

Lemma set_header_total t n v l : lpSetTotalBytes (header t n ++ l) v = Some (header v n ++ l).
Proof.
  unfold lpSetTotalBytes, header. rewrite <- !app_assoc.
  exact (le_store_at 4 v [] (le_bytes 4 t) (le_bytes 2 n ++ l) 0 eq_refl eq_refl).
Qed.

Lemma set_header_num t n v l : lpSetNumElements (header t n ++ l) v = Some (header t v ++ l).
Proof.
  unfold lpSetNumElements, header. rewrite <- !app_assoc.
  by rewrite (le_store_at 2 v (le_bytes 4 t) (le_bytes 2 n)).
Qed.

Lemma total_range es : total es < 2 ^ 32 -> in_u 32 (total es).
Proof. intros. split; [|done]. unfold total, off, LP_HDR_SIZE. lia. Qed.

Lemma get_num es n slack : in_u 16 n -> lpGetNumElements (lp_bytes_of es n slack) = Some n.
Proof. apply le_load_header_num. Qed.
Lemma set_num es n slack v : lpSetNumElements (lp_bytes_of es n slack) v = Some (lp_bytes_of es v slack).
Proof. apply set_header_num. Qed.
Lemma get_total es n slack : total es < 2 ^ 32 -> lpGetTotalBytes (lp_bytes_of es n slack) = Some (total es).
Proof. intros. by apply le_load_header_total, total_range. Qed.

(** Splitting at an entry, and at the end. *)
Lemma lp_split_entry a e b n slack :
  lp_bytes_of (a ++ e :: b) n slack =
    (header (total (a ++ e :: b)) n ++ body a) ++ encode e ++
      lpEncodeBacklen (esize e) ++ body b ++ LP_EOF :: slack /\
  Z.of_nat (length (header (total (a ++ e :: b)) n ++ body a)) = off a.
Proof.
  unfold lp_bytes_of. rewrite body_app. cbn [body]. unfold full. rewrite <- !app_assoc. split; [done|].
  rewrite length_app, length_header. unfold off, LP_HDR_SIZE. lia.
Qed.

Lemma lp_split_eof es n slack :
  lp_bytes_of es n slack = (header (total es) n ++ body es) ++ LP_EOF :: slack /\
  Z.of_nat (length (header (total es) n ++ body es)) = off es.
Proof.
  unfold lp_bytes_of. rewrite <- app_assoc. split; [done|].
  rewrite length_app, length_header. unfold off, LP_HDR_SIZE. lia.
Qed.

(** ** Validation of one entry *)

(** An entry followed by a field [bl] of the right length that decodes to its size. *)
Lemma lpValidateNext_item pre e bl post lpbytes :
  LP_HDR_SIZE <= Z.of_nat (length pre) -> wf_entry e -> Z.of_nat (length bl) = backlen_size (esize e) ->
  lpDecodeBacklen (pre ++ encode e ++ bl ++ post) (Z.of_nat (length pre) + esize e + Z.of_nat (length bl) - 1) = Some (esize e) ->
  Z.of_nat (length pre) + fsize e <= lpbytes - 1 ->
  lpValidateNext (pre ++ encode e ++ bl ++ post) (Some (Z.of_nat (length pre))) lpbytes =
    Some (true, Some (Z.of_nat (length pre) + fsize e)).
Proof.
  intros Hpre Hw Hbl Hdec Hb. unfold lpValidateNext. pose proof (hsize_le e Hw) as Hh.
  pose proof (esize_range e Hw) as He. pose proof (backlen_size_range (esize e)) as Hbs.
  pose proof (fsize_eq e) as Hf.
  destruct (Z.ltb_spec (Z.of_nat (length pre)) LP_HDR_SIZE); [lia|].
  destruct (Z.ltb_spec (lpbytes - 1) (Z.of_nat (length pre))); [lia|]. cbn [orb].
  rewrite getb_at0. destruct (encode_head e Hw) as (b & l & Ee & _ & Hne). rewrite Ee at 1. cbn [app].
  rewrite getb0. cbn [mbind option_bind]. unfold LP_EOF. rewrite (proj2 (Z.eqb_neq _ _) Hne).
  rewrite lpCurrentEncodedSizeBytes_spec by done. cbn [mbind option_bind].
  rewrite (proj2 (Z.eqb_neq _ _)) by lia.
  rewrite (proj2 (Z.ltb_ge _ LP_HDR_SIZE)), (proj2 (Z.ltb_ge (lpbytes - 1) _)) by lia. cbn [orb].
  rewrite lpCurrentEncodedSizeUnsafe_spec by done. cbn [mbind option_bind].
  rewrite <- Hf. rewrite (proj2 (Z.ltb_ge _ LP_HDR_SIZE)), (proj2 (Z.ltb_ge (lpbytes - 1) _)) by lia. cbn [orb].
  replace (Z.of_nat (length pre) + fsize e - 1) with (Z.of_nat (length pre) + esize e + Z.of_nat (length bl) - 1) by lia.
  rewrite Hdec. cbn [mbind option_bind]. rewrite wrapu_small by cint. rewrite <- Hf, Z.eqb_refl. done.
Qed.

Lemma lpValidateNext_entry pre e post lpbytes :
  LP_HDR_SIZE <= Z.of_nat (length pre) -> wf_entry e ->
  Z.of_nat (length pre) + fsize e <= lpbytes - 1 ->
  lpValidateNext (pre ++ encode e ++ lpEncodeBacklen (esize e) ++ post) (Some (Z.of_nat (length pre))) lpbytes =
    Some (true, Some (Z.of_nat (length pre) + fsize e)).
Proof.
  intros Hpre Hw Hb. apply lpValidateNext_item; try done. rewrite app_assoc.
  pose proof (esize_range e Hw) as He.
  apply lpDecodeBacklen_spec; [change (2 ^ 35) with 34359738368; cint|].
  rewrite length_app. unfold esize, backlen_size in *. lia.
Qed.

Lemma lpValidateNext_eof pre slack lpbytes :
  LP_HDR_SIZE <= Z.of_nat (length pre) <= lpbytes - 1 ->
  lpValidateNext (pre ++ LP_EOF :: slack) (Some (Z.of_nat (length pre))) lpbytes = Some (true, None).
Proof.
  intros Hpre. unfold lpValidateNext.
  rewrite (proj2 (Z.ltb_ge _ LP_HDR_SIZE)), (proj2 (Z.ltb_ge (lpbytes - 1) _)) by lia. cbn [orb].
  by rewrite getb_at0, getb0.
Qed.

(** ** Moving *)

(** The address of an entry, if there is one after [a]. *)
Definition at_ (a b : list entry) : option Z := match b with [] => None | _ => Some (off a) end.

Section valid.
Context (n : Z) (slack : bytes).

Lemma total_split a b : total (a ++ b) = off a + Z.of_nat (length (body b)) + 1.
Proof. unfold total. by rewrite off_app. Qed.

Lemma lpBytes_spec es : total es < 2 ^ 32 -> lpBytes (lp_bytes_of es n slack) = Some (total es).
Proof. apply get_total. Qed.

(** Every position is accepted by the assertions. *)
Lemma valid_position a b :
  Forall wf_entry b -> 
  lpAssertValidEntry (lp_bytes_of (a ++ b) n slack) (total (a ++ b)) (off a) = Some tt.
Proof.
  intros Hw. unfold lpAssertValidEntry. destruct b as [|e b].
  - rewrite app_nil_r. destruct (lp_split_eof a n slack) as [-> <-].
    rewrite lpValidateNext_eof; [done|]. rewrite length_app, length_header. unfold total, off, LP_HDR_SIZE. lia.
  - inversion_clear Hw. destruct (lp_split_entry a e b n slack) as [-> Hl]. rewrite <- Hl.
    rewrite lpValidateNext_entry; [done| |done|].
    + rewrite Hl. apply off_ge.
    + rewrite Hl, total_split. cbn [body]. rewrite length_app. unfold fsize. lia.
Qed.

Lemma byte_at a b :
  Forall wf_entry b ->
  exists x, getb (lp_bytes_of (a ++ b) n slack) (off a) = Some x /\ (x =? LP_EOF) = match b with [] => true | _ => false end.
Proof.
  intros Hw. destruct b as [|e b].
  - rewrite app_nil_r. destruct (lp_split_eof a n slack) as [-> <-]. rewrite getb_at0. eauto.
  - inversion_clear Hw. destruct (lp_split_entry a e b n slack) as [-> <-]. rewrite getb_at0.
    destruct (encode_head e) as (x & l & -> & _ & Hne); [done|]. exists x. split; [done|].
    by apply Z.eqb_neq.
Qed.

Lemma lpSkip_spec a e b :
  wf_entry e -> lpSkip (lp_bytes_of (a ++ e :: b) n slack) (off a) = Some (off (a ++ [e])).
Proof.
  intros Hw. destruct (lp_split_entry a e b n slack) as [-> Hl]. unfold lpSkip. rewrite <- Hl.
  rewrite lpCurrentEncodedSizeUnsafe_spec by done. cbn [mbind option_bind].
  by rewrite <- fsize_eq, Hl, off_snoc.
Qed.

Lemma snoc_app {A} (a : list A) e b : a ++ e :: b = (a ++ [e]) ++ b.
Proof. by rewrite <- app_assoc. Qed.

Lemma lpNext_spec a e b :
  wf_entry e -> Forall wf_entry b -> total (a ++ e :: b) < 2 ^ 32 ->
  lpNext (lp_bytes_of (a ++ e :: b) n slack) (off a) = Some (at_ (a ++ [e]) b).
Proof.
  intros He Hb Ht. unfold lpNext. rewrite lpSkip_spec by done. cbn [mbind option_bind].
  rewrite (snoc_app a e b) in Ht |- *. destruct (byte_at (a ++ [e]) b Hb) as (x & -> & Hx). cbn [mbind option_bind].
  rewrite Hx. destruct b as [|e' b]; [done|].
  rewrite lpBytes_spec by done. cbn [mbind option_bind]. by rewrite valid_position.
Qed.

Lemma lpPrev_spec a e b :
  wf_entry e -> Forall wf_entry b -> total (a ++ e :: b) < 2 ^ 32 ->
  lpPrev (lp_bytes_of (a ++ e :: b) n slack) (off (a ++ [e])) = Some (Some (off a)).
Proof.
  intros He Hb Ht. unfold lpPrev. pose proof (fsize_range e He) as Hf. pose proof (off_ge a) as Ho.
  pose proof (esize_range e He) as Hes. pose proof (backlen_size_range (esize e)) as Hbl.
  rewrite off_snoc. rewrite (proj2 (Z.eqb_neq _ _)) by lia.
  assert (E : lpDecodeBacklen (lp_bytes_of (a ++ e :: b) n slack) (off a + fsize e - 1) = Some (esize e)).
  { destruct (lp_split_entry a e b n slack) as [-> Hl]. rewrite app_assoc.
    apply lpDecodeBacklen_spec; [change (2 ^ 35) with 34359738368; cint|].
    rewrite length_app. rewrite fsize_eq. unfold esize in *. lia. }
  rewrite E. cbn [mbind option_bind]. rewrite lpBytes_spec by done. cbn [mbind option_bind].
  rewrite wrapu_small by cint. rewrite <- fsize_eq.
  replace (off a + fsize e - 1 - (fsize e - 1)) with (off a) by lia.
  by rewrite valid_position by (by constructor).
Qed.

Lemma lpPrev_first lp : lpPrev lp (off []) = Some None.
Proof. done. Qed.

Lemma lpFirst_spec es :
  Forall wf_entry es -> total es < 2 ^ 32 -> lpFirst (lp_bytes_of es n slack) = Some (at_ [] es).
Proof.
  intros Hw Ht. unfold lpFirst. destruct (byte_at [] es Hw) as (x & E & Hx). cbn [app] in E.
  change (off []) with LP_HDR_SIZE in E. rewrite E. cbn [mbind option_bind]. rewrite Hx.
  destruct es as [|e es]; [done|]. rewrite lpBytes_spec by done. cbn [mbind option_bind].
  pose proof (valid_position [] (e :: es) Hw) as Hv. cbn [app] in Hv.
  change (off []) with LP_HDR_SIZE in Hv. by rewrite Hv.
Qed.

(** The address of the last entry of [a]. *)
Definition before (a : list entry) : option Z := match a with [] => None | _ => Some (off (removelast a)) end.

Lemma lpPrev_before a b :
  Forall wf_entry (a ++ b) -> total (a ++ b) < 2 ^ 32 ->
  lpPrev (lp_bytes_of (a ++ b) n slack) (off a) = Some (before a).
Proof.
  intros Hw Ht. destruct a as [|e a _] using rev_ind; [done|].
  unfold before. destruct (a ++ [e]) eqn:E; [by destruct a|]. rewrite <- E in *. rewrite removelast_last.
  rewrite <- app_assoc in *. cbn [app] in *. apply Forall_app in Hw as [_ Hw]. inversion_clear Hw.
  by apply lpPrev_spec.
Qed.

Lemma lpLast_spec es :
  Forall wf_entry es -> total es < 2 ^ 32 -> lpLast (lp_bytes_of es n slack) = Some (before es).
Proof.
  intros Hw Ht. unfold lpLast. rewrite get_total by done.
  cbn [mbind option_bind]. replace (total es - 1) with (off es) by (unfold total; lia).
  pose proof (lpPrev_before es []) as Hp. rewrite app_nil_r in Hp. auto.
Qed.

(** ** Counting and seeking *)

Lemma lpLength_loop_spec b : forall fuel a count,
  Forall wf_entry b -> total (a ++ b) < 2 ^ 32 -> (length b <= fuel)%nat ->
  0 <= count -> count + Z.of_nat (length b) < 2 ^ 32 ->
  lpLength_loop fuel (lp_bytes_of (a ++ b) n slack) (at_ a b) count = Some (count + Z.of_nat (length b)).
Proof.
  induction b as [|e b IH]; intros fuel a count Hw Ht Hf Hc Hl.
  { cbn. destruct fuel; cbn; f_equal; lia. }
  destruct fuel as [|fuel]; [cbn in Hf; lia|]. inversion_clear Hw. cbn [at_ lpLength_loop].
  rewrite lpNext_spec by done. cbn [mbind option_bind]. rewrite (snoc_app a e b) in Ht |- *.
  cbn [length] in Hl, Hf |- *. rewrite wrapu_small by cint. rewrite IH; [f_equal; lia|done|done|cint..].
Qed.
End valid.

Lemma length_lp es n slack : Z.of_nat (length (lp_bytes_of es n slack)) = total es + Z.of_nat (length slack).
Proof.
  destruct (lp_split_eof es n slack) as [-> Hl]. rewrite length_app, Nat2Z.inj_add, Hl.
  cbn [length]. unfold total. lia.
Qed.

Lemma lp_length_le es n slack :
  Forall wf_entry es -> total es < 2 ^ 32 ->
  (length es <= length (lp_bytes_of es n slack))%nat /\ Z.of_nat (length es) < 2 ^ 31.
Proof.
  intros Hw Ht. pose proof (body_length es Hw). pose proof (length_lp es n slack).
  unfold total, off, LP_HDR_SIZE in *. cint.
Qed.

(** [lpLength] counts the entries, and repairs an unknown count when it fits. *)
Lemma lpLength_spec es n slack :
  Forall wf_entry es -> total es < 2 ^ 32 -> count_ok es n ->
  exists n', count_ok es n' /\
    lpLength (lp_bytes_of es n slack) = Some (Z.of_nat (length es), lp_bytes_of es n' slack) /\
    (Z.of_nat (length es) < LP_HDR_NUMELE_UNKNOWN -> n' = Z.of_nat (length es)).
Proof.
  intros Hw Ht [Hn Hc]. unfold lpLength. rewrite get_num by done.
  cbn [mbind option_bind]. destruct (Z.eqb_spec n LP_HDR_NUMELE_UNKNOWN) as [->|Hne]; cbn [negb].
  - rewrite lpFirst_spec by done. cbn [mbind option_bind].
    destruct (lp_length_le es LP_HDR_NUMELE_UNKNOWN slack Hw Ht) as [H1 H2].
    rewrite (lpLength_loop_spec _ _ es _ []) by (done || cint). cbn [mbind option_bind]. rewrite Z.add_0_l.
    destruct (Z.ltb_spec (Z.of_nat (length es)) LP_HDR_NUMELE_UNKNOWN).
    + rewrite set_num. cbn [mbind option_bind]. unfold LP_HDR_NUMELE_UNKNOWN, UINT16_MAX in *.
      exists (Z.of_nat (length es)). split; [|done]. split; [cint|auto].
    + exists LP_HDR_NUMELE_UNKNOWN. split; [by split; [|left]|]. split; [done|lia].
  - destruct Hc as [?|Hc]; [done|]. exists n. split; [by split; [|right]|]. split; [|done]. by rewrite <- Hc.
Qed.

Section seek.
Context (n : Z) (slack : bytes).

Lemma seek_forward_spec b : forall k fuel a,
  Forall wf_entry b -> total (a ++ b) < 2 ^ 32 -> (length b <= fuel)%nat ->
  seek_forward fuel (lp_bytes_of (a ++ b) n slack) (Z.of_nat k) (at_ a b) =
    Some (at_ (a ++ take k b) (drop k b)).
Proof.
  induction b as [|e b IH]; intros k fuel a Hw Ht Hf.
  { cbn. by destruct fuel, k. }
  destruct fuel as [|fuel]; [cbn in Hf; lia|]. inversion_clear Hw. cbn [at_ seek_forward].
  destruct k as [|k]; [cbn; by rewrite app_nil_r|].
  rewrite (proj2 (Z.ltb_lt 0 _)) by lia. rewrite lpNext_spec by done. cbn [mbind option_bind take drop].
  replace (Z.of_nat (S k) - 1) with (Z.of_nat k) by lia. cbn in Hf. rewrite (snoc_app a e b) in Ht |- *.
  rewrite IH by (done || lia). by rewrite <- app_assoc.
Qed.

Lemma seek_backward_spec a : forall k fuel b,
  Forall wf_entry (a ++ b) -> total (a ++ b) < 2 ^ 32 -> (length a <= fuel)%nat ->
  seek_backward fuel (lp_bytes_of (a ++ b) n slack) (-1 - Z.of_nat k) (before a) =
    Some (before (take (length a - k) a)).
Proof.
  induction a as [|e a IH] using rev_ind; intros k fuel b Hw Ht Hf.
  { cbn. by destruct fuel. }
  rewrite length_app in *. cbn [length] in *. destruct fuel as [|fuel]; [lia|].
  assert (Hb : before (a ++ [e]) = Some (off a)).
  { unfold before. destruct (a ++ [e]) eqn:E; [by destruct a|]. by rewrite <- E, removelast_last. }
  rewrite Hb. cbn [seek_backward]. destruct k as [|k].
  { rewrite Nat.sub_0_r, take_ge by (rewrite length_app; cbn; lia). by rewrite Hb. }
  rewrite (proj2 (Z.ltb_lt _ (-1))) by lia. rewrite <- app_assoc in *. cbn [app] in *.
  rewrite lpPrev_before by done. cbn [mbind option_bind].
  replace (-1 - Z.of_nat (S k) + 1) with (-1 - Z.of_nat k) by lia. rewrite IH by (done || lia).
  rewrite take_app_le by lia. do 3 f_equal. lia.
Qed.
End seek.

(** The address an index designates. *)
Definition seek_addr (es : list entry) (index : Z) : option Z :=
  match resolve (length es) index with Some k => Some (off (take k es)) | None => None end.

Lemma before_take es k :
  (k <= length es)%nat -> before (take k es) = match k with O => None | S k' => Some (off (take k' es)) end.
Proof.
  intros Hk. destruct k as [|k]; [done|]. unfold before. rewrite removelast_firstn by lia.
  destruct es; [cbn in Hk; lia|done].
Qed.

Lemma seek_from_head es n slack k :
  Forall wf_entry es -> total es < 2 ^ 32 ->
  (ele ← lpFirst (lp_bytes_of es n slack);
   seek_forward (length (lp_bytes_of es n slack)) (lp_bytes_of es n slack) (Z.of_nat k) ele) =
    Some (if decide (k < length es)%nat then Some (off (take k es)) else None).
Proof.
  intros Hw Ht. destruct (lp_length_le es n slack Hw Ht) as [Hfuel _].
  rewrite lpFirst_spec by done. cbn [mbind option_bind].
  rewrite (seek_forward_spec n slack es k _ []) by done. cbn [app]. unfold at_.
  destruct (drop k es) eqn:E; case_decide; try done.
  - apply (f_equal length) in E. rewrite length_drop in E. cbn in E. lia.
  - rewrite drop_ge in E by lia. done.
Qed.

Lemma seek_from_tail es n slack k :
  Forall wf_entry es -> total es < 2 ^ 32 ->
  (ele ← lpLast (lp_bytes_of es n slack);
   seek_backward (length (lp_bytes_of es n slack)) (lp_bytes_of es n slack) (-1 - Z.of_nat k) ele) =
    Some (if decide (k < length es)%nat then Some (off (take (length es - S k) es)) else None).
Proof.
  intros Hw Ht. destruct (lp_length_le es n slack Hw Ht) as [Hfuel _].
  rewrite lpLast_spec by done. cbn [mbind option_bind].
  pose proof (seek_backward_spec n slack es k (length (lp_bytes_of es n slack)) []) as Hs.
  rewrite app_nil_r in Hs. rewrite Hs, before_take by (done || lia).
  destruct (length es - k)%nat as [|j] eqn:E; case_decide; try lia; [done|].
  do 4 f_equal. lia.
Qed.

Lemma lpSeek_spec es n slack index :
  Forall wf_entry es -> total es < 2 ^ 32 -> count_ok es n ->
  lpSeek (lp_bytes_of es n slack) index = Some (seek_addr es index).
Proof.
  intros Hw Ht [Hn Hc]. unfold lpSeek. rewrite get_num by done. cbn [mbind option_bind].
  assert (Hfwd := λ k, seek_from_head es n slack k Hw Ht).
  assert (Hbwd := λ k, seek_from_tail es n slack k Hw Ht).
  unfold seek_addr. destruct (Z.eqb_spec n LP_HDR_NUMELE_UNKNOWN) as [->|Hne]; cbn [negb].
  - destruct (Z.ltb_spec index 0).
    + rewrite resolve_neg by done. specialize (Hbwd (Z.to_nat (-1 - index))).
      replace (-1 - Z.of_nat (Z.to_nat (-1 - index))) with index in Hbwd by lia. rewrite Hbwd.
      repeat case_decide; try lia; [|done]. do 4 f_equal. lia.
    + rewrite resolve_pos by done. specialize (Hfwd (Z.to_nat index)). rewrite Z2Nat.id in Hfwd by done.
      rewrite Hfwd. repeat case_decide; try lia; done.
  - destruct Hc as [?|Hc]; [done|]. rewrite Hc.
    assert (Hk : forall i, 0 <= i < Z.of_nat (length es) ->
      (if Z.quot (Z.of_nat (length es)) 2 <? i
       then ele ← lpLast (lp_bytes_of es n slack);
         seek_backward (length (lp_bytes_of es n slack)) (lp_bytes_of es n slack) (i - Z.of_nat (length es)) ele
       else ele ← lpFirst (lp_bytes_of es n slack);
         seek_forward (length (lp_bytes_of es n slack)) (lp_bytes_of es n slack) i ele) =
      Some (Some (off (take (Z.to_nat i) es)))).
    { intros i Hi. case_match.
      - specialize (Hbwd (Z.to_nat (Z.of_nat (length es) - 1 - i))).
        replace (-1 - Z.of_nat (Z.to_nat (Z.of_nat (length es) - 1 - i))) with (i - Z.of_nat (length es)) in Hbwd by lia.
        rewrite Hbwd, decide_True by lia. do 4 f_equal. lia.
      - specialize (Hfwd (Z.to_nat i)). rewrite Z2Nat.id in Hfwd by lia. by rewrite Hfwd, decide_True by lia. }
    rewrite Hc in Hk. destruct (Z.ltb_spec index 0).
    + rewrite resolve_neg by done. case_decide.
      * rewrite (proj2 (Z.ltb_ge _ 0)), (proj2 (Z.leb_gt _ (_ + _))) by lia. apply Hk. lia.
      * by rewrite (proj2 (Z.ltb_lt _ 0)) by lia.
    + rewrite resolve_pos by done. rewrite (proj2 (Z.ltb_ge _ 0)) by lia. case_decide.
      * rewrite (proj2 (Z.leb_gt _ _)) by lia. apply Hk. lia.
      * by rewrite (proj2 (Z.leb_le _ _)) by lia.
Qed.
