(* ===== verification/ListpackOps.v ===== *)
(** Insertion, replacement and deletion in listpacks. *)

From S2P Require Import Prelude Util Listpack ListpackEnc.

Local Open Scope Z_scope.

(** ** The entry an element becomes *)

Lemma lpStringToInt64_loop_eq p : forall v, lpStringToInt64_loop p v = string2ll_loop p v.
Proof. induction p as [|c p IH]; intros v; [done|]. cbn. by rewrite IH. Qed.

(** [lpStringToInt64] is [string2ll]. *)
Lemma lpStringToInt64_eq s : lpStringToInt64 s = string2ll s.
Proof.
  unfold lpStringToInt64, string2ll. rewrite (Z.eqb_sym 0).
  destruct (_ || _); [done|]. destruct (_ && _); [done|].
  destruct (nth 0 s 0 =? 45); [destruct (tail s) as [|c p]|destruct s as [|c p]]; try done;
    destruct (_ && _); try done; by rewrite lpStringToInt64_loop_eq.
Qed.

Definition entry_of (s : bytes) : entry :=
  match lpStringToInt64 s with Some v => EInt (int_enc_of v) v | None => EStr (str_enc_of s) s end.
Definition entry_of_int (v : Z) : entry := EInt (int_enc_of v) v.

Lemma entry_of_spec s :
  (Z.of_nat (length s) + 5 < 2 ^ 32 -> wf_entry (entry_of s)) /\
  lpEncodeGetType s = (match lpStringToInt64 s with Some _ => LP_ENCODING_INT | None => LP_ENCODING_STRING end,
                       match lpStringToInt64 s with Some v => encode (entry_of s) | None => [] end,
                       esize (entry_of s)) /\
  (lpStringToInt64 s = None -> lpEncodeString s = encode (entry_of s)).
Proof.
  unfold lpEncodeGetType, entry_of. destruct (lpStringToInt64 s) as [v|] eqn:E.
  - rewrite lpStringToInt64_eq in E. apply string2ll_spec in E as [Hv _].
    destruct (lpEncodeIntegerGetType_spec v Hv) as [-> ?]. done.
  - destruct (lpEncodeString_spec s) as [-> ?]. split_and!; try done. f_equal. unfold esize, str_enc_of.
    destruct (Z.ltb_spec (Z.of_nat (length s)) 64); [cbn; lia|].
    destruct (Z.ltb_spec (Z.of_nat (length s)) 4096); cbn [encode length]; [lia|].
    rewrite length_app, length_le_bytes. lia.
Qed.

(** ** Making room *)

Section alloc.
Context `{Allocator}.

Lemma realloc_prefix x s k :
  (length x <= k)%nat -> exists s', realloc junk (x ++ s) k = x ++ s' /\ length s' = (k - length x)%nat.
Proof.
  intros Hk. unfold realloc. rewrite resize_spec.
  destruct (decide (k <= length (x ++ s))%nat).
  - replace (k - length (x ++ s))%nat with 0%nat by lia. rewrite app_nil_r, take_app.
    rewrite (take_ge x) by lia. exists (take (k - length x) s). split; [done|].
    rewrite length_take, length_app in *. lia.
  - rewrite take_ge by lia. rewrite <- app_assoc. eexists. split; [done|].
    rewrite length_app, length_replicate, length_app in *. lia.
Qed.

Lemma memmove_at x o t s (k : nat) :
  (length x + k + length t <= length (x ++ o ++ t ++ s))%nat ->
  exists g s', memmove (x ++ o ++ t ++ s) (Z.of_nat (length x + k)) (Z.of_nat (length x + length o)) (length t) =
    Some (x ++ g ++ t ++ s') /\ length g = k.
Proof.
  intros Hl. unfold memmove.
  pose proof (rd_app (x ++ o) t s) as Hr. rewrite <- app_assoc, length_app in Hr. rewrite Hr. cbn [mbind option_bind].
  set (y := o ++ t ++ s) in *. unfold wr. rewrite decide_True by lia. rewrite Nat2Z.id.
  rewrite length_app in Hl. rewrite take_app, (take_ge x) by lia.
  replace (length x + k - length x)%nat with k by lia.
  exists (take k y), (drop (length x + k + length t) (x ++ y)). rewrite <- !app_assoc. split; [done|].
  rewrite length_take. lia.
Qed.

(** The reallocations and the move of [lpInsert]: [o] is replaced by [k] bytes. *)
Lemma make_room x o t s (k : nat) old new :
  old = Z.of_nat (length x + length o + length t) -> new = Z.of_nat (length x + k + length t) ->
  let lp := x ++ o ++ t ++ s in
  let lp := if (old <? new) && (lp_malloc_size lp <? new) then lp_realloc lp new else lp in
  exists lp', memmove lp (Z.of_nat (length x + k)) (Z.of_nat (length x + length o)) (length t) = Some lp' /\
    exists g s', (if new <? old then lp_realloc lp' new else lp') = x ++ g ++ t ++ s' /\ length g = k.
Proof.
  intros Ho Hn lp0 lp.
  assert (exists s1, lp = x ++ o ++ t ++ s1 /\ (length x + k + length t <= length (x ++ o ++ t ++ s1))%nat) as (s1 & -> & Hl).
  { subst lp lp0. unfold lp_malloc_size, lp_realloc. destruct (_ && _) eqn:E.
    - apply andb_prop in E as [E1%Z.ltb_lt E2%Z.ltb_lt].
      pose proof (usable_ge (Z.to_nat new)) as Hu.
      destruct (realloc_prefix (x ++ o ++ t) s (usable (Z.to_nat new))) as (s1 & E & Hs1); [rewrite !length_app; lia|].
      rewrite <- !app_assoc in E. exists s1. split; [done|]. rewrite !length_app in *. lia.
    - exists s. split; [done|]. apply andb_false_iff in E as [E%Z.ltb_ge|E%Z.ltb_ge]; rewrite !length_app in *; lia. }
  destruct (memmove_at x o t s1 k Hl) as (g & s2 & -> & Hg). eexists. split; [done|].
  destruct (Z.ltb_spec new old); [|by exists g, s2]. unfold lp_realloc.
  pose proof (usable_ge (Z.to_nat new)) as Hu.
  destruct (realloc_prefix (x ++ g ++ t) s2 (usable (Z.to_nat new))) as (s3 & E & _); [rewrite !length_app; lia|].
  rewrite <- !app_assoc in E. by exists g, s3.
Qed.

(** Storing an entry in the room made for it. *)
Lemma store_entry x g t s a b :
  length g = (length a + length b)%nat ->
  (lp ← wr (x ++ g ++ t ++ s) (Z.of_nat (length x)) a; wr lp (Z.of_nat (length x) + Z.of_nat (length a)) b) =
    Some (x ++ (a ++ b) ++ t ++ s).
Proof.
  intros Hg. rewrite <- (take_drop (length a) g), <- !app_assoc.
  rewrite (wr_app x (take (length a) g) a) by (rewrite length_take; lia). cbn [mbind option_bind].
  rewrite (app_assoc x a), <- Nat2Z.inj_add, <- length_app.
  rewrite (wr_app (x ++ a) (drop (length a) g) b) by (rewrite length_drop; lia).
  by rewrite <- !app_assoc.
Qed.

(** ** Insertion *)

(** The bytes of the entries [new], none or one. *)
Definition payload_of (new : option entry) : option bytes := encode <$> new.
Definition size_of (new : option entry) : Z := from_option esize 0 new.
Definition where_of (old : option entry) : lp_where := match old with Some _ => LP_REPLACE | None => LP_BEFORE end.

(** The count of the header after [old] became [new]. *)
Definition new_count (old new : option entry) (n : Z) : Z :=
  if n =? LP_HDR_NUMELE_UNKNOWN then n
  else n - Z.of_nat (length (option_list old)) + Z.of_nat (length (option_list new)).

Lemma total_mid a (o : option entry) b :
  total (a ++ option_list o ++ b) =
    off a + from_option fsize 0 o + Z.of_nat (length (body b)) + 1.
Proof.
  unfold total. rewrite !off_app, body_app, length_app. destruct o; cbn; rewrite ?app_nil_r; unfold fsize; lia.
Qed.

Lemma lp_split_mid a (o : option entry) b n slack :
  lp_bytes_of (a ++ option_list o ++ b) n slack =
    (header (total (a ++ option_list o ++ b)) n ++ body a) ++ body (option_list o) ++
      (body b ++ [LP_EOF]) ++ slack.
Proof. unfold lp_bytes_of. rewrite !body_app, <- !app_assoc. done. Qed.

Lemma length_prefix t n a : Z.of_nat (length (header t n ++ body a)) = off a.
Proof. rewrite length_app, length_header. unfold off, LP_HDR_SIZE. lia. Qed.

Lemma body_option (o : option entry) : Z.of_nat (length (body (option_list o))) = from_option fsize 0 o.
Proof. destruct o; cbn; [|done]. by rewrite app_nil_r. Qed.

(** [replaced_len] *)
Lemma replaced_len_spec a old b n slack :
  Forall wf_entry (a ++ option_list old ++ b) -> total (a ++ option_list old ++ b) < 2 ^ 32 ->
  (if decide (where_of old = LP_REPLACE) then
     len ← lpCurrentEncodedSizeUnsafe (lp_bytes_of (a ++ option_list old ++ b) n slack) (off a);
     let len := u32 (len + Listpack.backlen_size len) in
     if (LP_HDR_SIZE <=? off a) && (off a + len <? total (a ++ option_list old ++ b)) then Some len else None
   else Some 0) = Some (from_option fsize 0 old).
Proof.
  intros Hw Ht. destruct old as [e|]; [|done]. cbn [where_of]. rewrite decide_True by done.
  assert (Heq : a ++ option_list (Some e) ++ b = a ++ e :: b) by done. rewrite Heq in *. apply Forall_app in Hw as [_ Hw]. inversion_clear Hw.
  destruct (lp_split_entry a e b n slack) as [E Hl]. rewrite E, <- Hl.
  rewrite lpCurrentEncodedSizeUnsafe_spec by done. cbn [mbind option_bind]. rewrite <- fsize_eq, Hl.
  pose proof (total_mid a (Some e) b) as Hm. rewrite Heq in Hm. cbn [from_option] in Hm.
  pose proof (fsize_range e ltac:(done)). pose proof (off_ge a). unfold LP_HDR_SIZE in *.
  rewrite (wrapu_small 32) by cint. cbn [from_option].
  rewrite (proj2 (Z.leb_le _ _)), (proj2 (Z.ltb_lt _ _)) by lia. done.
Qed.

Definition backlen_of (new : option entry) : bytes :=
  match new with Some e => lpEncodeBacklen (esize e) | None => [] end.

Lemma size_of_spec (new : option entry) :
  size_of new + Z.of_nat (length (backlen_of new)) = from_option fsize 0 new.
Proof. destruct new as [e|]; cbn; [|done]. rewrite fsize_eq. done. Qed.

(** The two stores of an entry, or none. *)
Lemma store_payload x g t s new p :
  p = Z.of_nat (length x) -> length g = length (body (option_list new)) ->
  match payload_of new with
  | None => Some (x ++ g ++ t ++ s)
  | Some ele => lp ← wr (x ++ g ++ t ++ s) p ele; wr lp (p + size_of new) (backlen_of new)
  end = Some (x ++ body (option_list new) ++ t ++ s).
Proof.
  intros -> Hg. destruct new as [e|]; cbn [payload_of fmap option_fmap option_map size_of from_option backlen_of] in *.
  - unfold esize. rewrite store_entry; [by cbn; rewrite app_nil_r|].
    cbn in Hg. rewrite app_nil_r in Hg. unfold full in Hg. by rewrite length_app in Hg.
  - cbn in Hg. by destruct g.
Qed.

(** The pointer returned: the new entry, or what follows a deleted one. *)
Definition newp_of a (new : option entry) b : option Z :=
  match new with Some _ => Some (off a) | None => at_ a b end.

Lemma newp_spec a new b t n s x g p :
  x = header t n ++ body a -> p = off a -> Forall wf_entry b -> length g = length (body (option_list new)) ->
  (if match payload_of new with None => true | Some _ => false end
   then c ← getb (x ++ g ++ (body b ++ [LP_EOF]) ++ s) p; Some (if c =? LP_EOF then None else Some p)
   else Some (Some p)) = Some (newp_of a new b).
Proof.
  intros -> -> Hb Hg. destruct new as [e|]; [done|]. destruct g; [|done]. cbn [app].
  cbn [payload_of fmap option_fmap option_map newp_of].
  rewrite <- (length_prefix t n a), getb_at0, <- app_assoc.
  destruct b as [|e b]; [done|]. inversion_clear Hb. cbn [body]. unfold full.
  destruct (encode_head e) as (c & l & -> & _ & Hc); [done|]. cbn [app]. rewrite getb0. cbn [mbind option_bind].
  unfold LP_EOF. rewrite (proj2 (Z.eqb_neq _ _) Hc), length_prefix. done.
Qed.

(** The update of the count. *)
Lemma count_update_spec (old new : option entry) t n l :
  is_Some old \/ is_Some new -> in_u 16 n -> (is_Some old -> n <> 0) ->
  (if negb (bool_decide (where_of old = LP_REPLACE)) || match payload_of new with None => true | Some _ => false end then
     num_elements ← lpGetNumElements (header t n ++ l);
     if negb (num_elements =? LP_HDR_NUMELE_UNKNOWN) then
       if match payload_of new with None => true | Some _ => false end
       then lpSetNumElements (header t n ++ l) (u32 (num_elements - 1))
       else lpSetNumElements (header t n ++ l) (num_elements + 1)
     else Some (header t n ++ l)
   else Some (header t n ++ l)) = Some (header t (new_count old new n) ++ l).
Proof.
  intros Hsome Hn H0. unfold new_count. destruct (Z.eqb_spec n LP_HDR_NUMELE_UNKNOWN) as [->|Hne].
  { case_match; [|done]. by rewrite le_load_header_num by done. }
  rewrite le_load_header_num by done. cbn [mbind option_bind]. rewrite (proj2 (Z.eqb_neq _ _) Hne). cbn [negb].
  destruct old as [o|], new as [e|]; cbn [where_of payload_of fmap option_fmap option_map option_list length].
  - rewrite bool_decide_true by done. cbn. repeat f_equal; lia.
  - rewrite orb_true_r, set_header_num. specialize (H0 ltac:(eauto)). rewrite wrapu_small by cint.
    repeat f_equal; cbn; lia.
  - rewrite bool_decide_false by done. cbn [negb orb]. rewrite set_header_num. repeat f_equal; cbn; lia.
  - destruct Hsome as [[]|[]]; done.
Qed.

Lemma lpInsert_at_spec a old new b n slack :
  is_Some old \/ is_Some new ->
  Forall wf_entry (a ++ option_list old ++ b) -> total (a ++ option_list old ++ b) < 2 ^ 32 ->
  count_ok (a ++ option_list old ++ b) n -> size_of new < 2 ^ 33 ->
  exists slack',
    lpInsert_at (lp_bytes_of (a ++ option_list old ++ b) n slack) (payload_of new) (size_of new) (off a) (where_of old) =
    Some (if decide (total (a ++ option_list new ++ b) < 2 ^ 32)
          then Some (lp_bytes_of (a ++ option_list new ++ b) (new_count old new n) slack', newp_of a new b)
          else None).
Proof.
  intros Hsome Hw Ht [Hn Hc] Hsz. unfold lpInsert_at. rewrite get_total by done. cbn [mbind option_bind].
  rewrite replaced_len_spec by done. cbn [mbind option_bind].
  replace (if match payload_of new with Some _ => false | None => true end then [] else lpEncodeBacklen (size_of new))
    with (backlen_of new) by (by destruct new).
  pose proof (total_mid a old b) as Ho. pose proof (total_mid a new b) as Hnw. pose proof (size_of_spec new) as Hs.
  pose proof (off_ge a) as Hoff. unfold LP_HDR_SIZE in Hoff.
  assert (0 <= from_option fsize 0 new < 2 ^ 33 + 5 /\ 0 <= from_option fsize 0 old) as [Hfn Hfo].
  { split; [|destruct old; cbn; unfold fsize; lia]. rewrite <- Hs. destruct new as [e|]; cbn in Hsz |- *; [|lia].
    pose proof (backlen_size_range (esize e)) as Hb. unfold backlen_size in Hb. unfold esize in *. lia. }
  change (2 ^ 33) with 8589934592 in *.
  assert (Hnew : u64 (total (a ++ option_list old ++ b) + size_of new + Z.of_nat (length (backlen_of new)) -
    from_option fsize 0 old) = total (a ++ option_list new ++ b)) by (rewrite wrapu_small; cint).
  rewrite Hnew. unfold UINT32_MAX. destruct (Z.ltb_spec 4294967295 (total (a ++ option_list new ++ b))).
  { exists []. rewrite decide_False by cint. done. }
  assert (Hk : Z.of_nat (length (body (option_list new))) = from_option fsize 0 new) by apply body_option.
  assert (Hk' : Z.of_nat (length (body (option_list old))) = from_option fsize 0 old) by apply body_option.
  rewrite lp_split_mid. set (x := header (total (a ++ option_list old ++ b)) n ++ body a).
  assert (Hx : Z.of_nat (length x) = off a) by apply length_prefix.
  assert (Htl : Z.of_nat (length (body b ++ [LP_EOF])) = Z.of_nat (length (body b)) + 1) by (rewrite length_app; cbn; lia).
  destruct (make_room x (body (option_list old)) (body b ++ [LP_EOF]) slack (length (body (option_list new)))
    (total (a ++ option_list old ++ b)) (total (a ++ option_list new ++ b))) as (lp' & Hmv & g & s' & Hlp & Hg); [lia..|].
  cbv zeta in Hmv. match goal with |- context [mbind _ (if decide (where_of old = LP_BEFORE) then ?u else ?v)] =>
    assert ((if decide (where_of old = LP_BEFORE) then u else v) = Some lp') as -> end.
  { rewrite <- Hmv. destruct (decide (where_of old = LP_BEFORE)) as [E|E].
    - destruct old; [done|]. cbn [from_option] in *. rewrite wrapu_small by cint. f_equal; lia.
    - rewrite wrapu_small by cint. f_equal; lia. }
  cbn [mbind option_bind]. rewrite Hlp.
  rewrite (newp_spec a new b (total (a ++ option_list old ++ b)) n s' x g) by
    (done || (apply Forall_app in Hw as [_ [_ Hw]%Forall_app]; exact Hw)).
  cbn [mbind option_bind]. rewrite (store_payload x g _ _ new) by done. cbn [mbind option_bind].
  unfold x. rewrite <- app_assoc. rewrite count_update_spec; [|done|done|].
  - cbn [mbind option_bind]. rewrite set_header_total. cbn [mbind option_bind].
    exists s'. rewrite decide_True by cint. do 3 f_equal. rewrite lp_split_mid. by rewrite <- app_assoc.
  - intros [o ->] ->. destruct Hc as [?|Hc]; [done|]. rewrite length_app in Hc. cbn in Hc. lia.
Qed.

(** ** [lpInsert] *)

Lemma string_front s :
  match lpEncodeGetType s with
  | (LP_ENCODING_INT, intenc, enclen) => (Some intenc, enclen)
  | (LP_ENCODING_STRING, _, enclen) => (Some (lpEncodeString s), enclen)
  end = (payload_of (Some (entry_of s)), size_of (Some (entry_of s))).
Proof.
  destruct (entry_of_spec s) as (_ & -> & Hs). destruct (lpStringToInt64 s); [done|]. by rewrite Hs.
Qed.

Lemma entry_of_size s : Z.of_nat (length s) < 2 ^ 32 -> size_of (Some (entry_of s)) < 2 ^ 33.
Proof.
  intros Hs. unfold entry_of. destruct (lpStringToInt64 s) as [v|] eqn:E; cbn [size_of from_option].
  - rewrite lpStringToInt64_eq in E. apply string2ll_spec in E as [Hv _].
    destruct (lpEncodeIntegerGetType_spec v Hv) as [_ Hw]. pose proof (esize_range _ Hw).
    change (2 ^ 33) with 8589934592. cint.
  - unfold esize, str_enc_of. change (2 ^ 33) with 8589934592. change (2 ^ 32) with 4294967296 in Hs.
    repeat case_match; cbn [encode length]; rewrite ?length_app, ?length_le_bytes; lia.
Qed.

(** A string argument, or an already encoded integer. *)
Inductive elem := ElemStr (s : bytes) | ElemInt (v : Z).
Definition elem_entry (x : elem) : entry := match x with ElemStr s => entry_of s | ElemInt v => entry_of_int v end.
Definition elem_ok (x : elem) : Prop :=
  match x with ElemStr s => Z.of_nat (length s) < 2 ^ 32 | ElemInt v => in_s 64 v end.
Definition elestr_of (x : elem) : option bytes := match x with ElemStr s => Some s | ElemInt _ => None end.
Definition eleint_of (x : elem) : option bytes :=
  match x with ElemStr _ => None | ElemInt v => Some (lpEncodeIntegerGetType v) end.

Lemma elem_front x :
  elem_ok x ->
  (match elestr_of x, eleint_of x with
  | Some s, _ =>
      match lpEncodeGetType s with
      | (LP_ENCODING_INT, intenc, enclen) => (Some intenc, enclen)
      | (LP_ENCODING_STRING, _, enclen) => (Some (lpEncodeString s), enclen)
      end
  | None, Some i => (Some i, Z.of_nat (length i))
  | None, None => (None, 0)
  end) = (payload_of (Some (elem_entry x)), size_of (Some (elem_entry x))) /\
  size_of (Some (elem_entry x)) < 2 ^ 33 /\
  (match elestr_of x, eleint_of x with None, None => true | _, _ => false end) = false.
Proof.
  destruct x as [s|v]; cbn [elestr_of eleint_of elem_entry elem_ok]; intros Hx.
  - split; [apply string_front|]. split; [by apply entry_of_size|done].
  - destruct (lpEncodeIntegerGetType_spec v Hx) as [-> Hw]. split; [done|]. split; [|done].
    pose proof (esize_range _ Hw). change (2 ^ 33) with 8589934592. cbn [size_of from_option].
    unfold entry_of_int. cint.
Qed.

(** Where an element goes relative to the entry [e0]. *)
Definition placed (a : list entry) (e0 : entry) (b : list entry) (w : lp_where) (e : entry) : list entry :=
  match w with
  | LP_BEFORE => a ++ e :: e0 :: b
  | LP_AFTER => a ++ e0 :: e :: b
  | LP_REPLACE => a ++ e :: b
  end.
Definition placed_at (a : list entry) (e0 : entry) (w : lp_where) : Z :=
  match w with LP_AFTER => off (a ++ [e0]) | _ => off a end.

(** What [lpInsert] returns: NULL when the result is too large. *)
Definition inserted (es : list entry) (p : option Z) (r : option (bytes * option Z)) : Prop :=
  match r with
  | Some (lp', newp) => total es < 2 ^ 32 /\ newp = p /\ exists n slack, lp' = lp_bytes_of es n slack /\ count_ok es n
  | None => 2 ^ 32 <= total es
  end.

Lemma new_count_ok a old new b n :
  count_ok (a ++ option_list old ++ b) n -> count_ok (a ++ option_list new ++ b) (new_count old new n).
Proof.
  unfold count_ok, new_count, LP_HDR_NUMELE_UNKNOWN, UINT16_MAX. rewrite !length_app.
  assert (length (option_list old) <= 1 /\ length (option_list new) <= 1)%nat by (by destruct old, new; cbn; lia).
  intros [Hn Hc]. destruct (Z.eqb_spec n 65535); [tauto|]. destruct Hc as [?|Hc]; [done|]. split; [cint|right; lia].
Qed.

Lemma insert_result a old new b n slack :
  is_Some old \/ is_Some new ->
  Forall wf_entry (a ++ option_list old ++ b) -> total (a ++ option_list old ++ b) < 2 ^ 32 ->
  count_ok (a ++ option_list old ++ b) n -> size_of new < 2 ^ 33 ->
  exists r,
    lpInsert_at (lp_bytes_of (a ++ option_list old ++ b) n slack) (payload_of new) (size_of new) (off a) (where_of old) =
      Some r /\ inserted (a ++ option_list new ++ b) (newp_of a new b) r.
Proof.
  intros Hs Hw Ht Hc Hsz. destruct (lpInsert_at_spec a old new b n slack Hs Hw Ht Hc Hsz) as (s' & ->).
  eexists. split; [done|]. case_decide; cbn; [|lia]. split_and!; try done.
  eexists _, _. split; [done|]. by apply new_count_ok.
Qed.

Lemma lpInsert_before_spec a b n slack x :
  Forall wf_entry (a ++ b) -> total (a ++ b) < 2 ^ 32 -> count_ok (a ++ b) n -> elem_ok x ->
  exists r, lpInsert (lp_bytes_of (a ++ b) n slack) (elestr_of x) (eleint_of x) (off a) LP_BEFORE = Some r /\
    inserted (a ++ elem_entry x :: b) (Some (off a)) r.
Proof.
  intros Hw Ht Hc Hx. destruct (elem_front x Hx) as (E & Hsz & Hdel). unfold lpInsert. rewrite E, Hdel.
  cbn [mbind option_bind]. by apply (insert_result a None (Some (elem_entry x)) b n slack); eauto.
Qed.

Lemma lpInsert_spec a e0 b n slack x w :
  Forall wf_entry (a ++ e0 :: b) -> total (a ++ e0 :: b) < 2 ^ 32 -> count_ok (a ++ e0 :: b) n -> elem_ok x ->
  exists r, lpInsert (lp_bytes_of (a ++ e0 :: b) n slack) (elestr_of x) (eleint_of x) (off a) w = Some r /\
    inserted (placed a e0 b w (elem_entry x)) (Some (placed_at a e0 w)) r.
Proof.
  intros Hw Ht Hc Hx. destruct w.
  - by apply (lpInsert_before_spec a (e0 :: b)).
  - destruct (elem_front x Hx) as (E & Hsz & Hdel). unfold lpInsert. rewrite E, Hdel.
    rewrite decide_True by done. pose proof Hw as Hw'. apply Forall_app in Hw' as [_ Hw']. inversion_clear Hw'.
    rewrite lpSkip_spec by done. cbn [mbind option_bind]. rewrite get_total by done. cbn [mbind option_bind].
    rewrite (snoc_app a e0 b) in *. pose proof (off_ge (a ++ [e0])).
    rewrite (proj2 (Z.leb_le _ _)) by lia. rewrite (proj2 (Z.ltb_lt _ _)) by (rewrite total_split; lia).
    cbn [mbind option_bind andb]. cbn [placed placed_at].
    rewrite (snoc_app a e0 (elem_entry x :: b)).
    by apply (insert_result (a ++ [e0]) None (Some (elem_entry x)) b n slack); eauto.
  - destruct (elem_front x Hx) as (E & Hsz & Hdel). unfold lpInsert. rewrite E, Hdel.
    cbn [mbind option_bind]. by apply (insert_result a (Some e0) (Some (elem_entry x)) b n slack); eauto.
Qed.

Lemma lpDelete_spec a e0 b n slack :
  Forall wf_entry (a ++ e0 :: b) -> total (a ++ e0 :: b) < 2 ^ 32 -> count_ok (a ++ e0 :: b) n ->
  exists n' slack', lpDelete (lp_bytes_of (a ++ e0 :: b) n slack) (off a) =
    Some (Some (lp_bytes_of (a ++ b) n' slack', at_ a b)) /\ count_ok (a ++ b) n'.
Proof.
  intros Hw Ht Hc.
  destruct (insert_result a (Some e0) None b n slack) as (r & E & Hr); [by eauto..|done|].
  unfold lpDelete, lpInsert. cbn [mbind option_bind]. rewrite decide_False by done. cbn [mbind option_bind].
  cbn [where_of payload_of fmap option_fmap option_map size_of from_option] in E, Hr.
  change (a ++ option_list (Some e0) ++ b) with (a ++ e0 :: b) in E. rewrite E.
  pose proof (total_mid a (Some e0) b) as H1. pose proof (total_mid a None b) as H2.
  change (a ++ option_list (Some e0) ++ b) with (a ++ e0 :: b) in H1.
  change (a ++ option_list None ++ b) with (a ++ b) in H2, Hr. cbn [from_option] in H1, H2. pose proof (fsize_range e0) as Hf.
  apply Forall_app in Hw as [_ Hw]. inversion_clear Hw. specialize (Hf ltac:(done)).
  destruct r as [[lp' np]|]; cbn in Hr; [|lia]. destruct Hr as (_ & -> & n' & s' & -> & Hc').
  by exists n', s'.
Qed.

(** ** Creation and resizing *)

Lemma lpNew_spec capacity : exists slack, lpNew capacity = Some (lp_bytes_of [] 0 slack).
Proof.
  unfold lpNew, lp_malloc. set (k := usable _).
  assert (7 <= k)%nat as Hk.
  { subst k. eapply Nat.le_trans; [|apply usable_ge]. unfold LP_HDR_SIZE. case_match eqn:E; [apply Z.ltb_lt in E|]; lia. }
  assert (exists h4 h2 b s, realloc junk [] k = h4 ++ h2 ++ b :: s /\ length h4 = 4%nat /\ length h2 = 2%nat) as (h4 & h2 & b & s & -> & H4 & H2).
  { unfold realloc. rewrite resize_nil. do 7 (destruct k as [|k]; [lia|]).
    by exists (replicate 4 junk), (replicate 2 junk), junk, (replicate k junk). }
  exists s. unfold lpSetTotalBytes. rewrite (le_store_at 4 (LP_HDR_SIZE + 1) [] h4 (h2 ++ b :: s) 0 H4 eq_refl : le_store 4 (h4 ++ _) _ _ _ = _).
  cbn [mbind option_bind app]. unfold lpSetNumElements.
  rewrite (le_store_at 2 0 (le_bytes 4 (LP_HDR_SIZE + 1)) h2) by done. cbn [mbind option_bind].
  rewrite setb_wr, app_assoc. exact (wr_app (le_bytes 4 (LP_HDR_SIZE + 1) ++ le_bytes 2 0) [b] [LP_EOF] s eq_refl).
Qed.

Lemma lp_realloc_spec es n slack k :
  total es <= k -> exists slack', lp_realloc (lp_bytes_of es n slack) k = lp_bytes_of es n slack' /\
    k <= total es + Z.of_nat (length slack').
Proof.
  intros Hk. unfold lp_realloc. pose proof (usable_ge (Z.to_nat k)) as Hu.
  pose proof (length_lp es n []) as Hl. cbn [length] in Hl.
  assert (E : forall s, lp_bytes_of es n s = lp_bytes_of es n [] ++ s)
    by (intros s; unfold lp_bytes_of; by rewrite <- !app_assoc).
  destruct (realloc_prefix (lp_bytes_of es n []) slack (usable (Z.to_nat k))) as (s' & Er & Hs'); [lia|].
  exists s'. rewrite (E slack), (E s'). split; [done|]. lia.
Qed.

Lemma lpShrinkToFit_spec es n slack :
  total es < 2 ^ 32 ->
  exists slack', lpShrinkToFit (lp_bytes_of es n slack) = Some (lp_bytes_of es n slack').
Proof.
  intros Ht. unfold lpShrinkToFit. rewrite get_total by done. cbn [mbind option_bind].
  case_match; [|by exists slack]. destruct (lp_realloc_spec es n slack (total es)) as (s' & -> & _); [lia|]. by exists s'.
Qed.

(** ** Ranges *)

Lemma delete_range_loop_spec n slack b : forall fuel a num deleted,
  Forall wf_entry b -> total (a ++ b) < 2 ^ 32 -> (length b <= fuel)%nat -> b <> [] -> 0 <= num ->
  delete_range_loop fuel (lp_bytes_of (a ++ b) n slack) (total (a ++ b)) num deleted (off a) =
    Some (deleted + Z.of_nat (length (take (Z.to_nat num) b)), off (a ++ take (Z.to_nat num) b)).
Proof.
  induction b as [|e b IH]; intros fuel a num deleted Hw Ht Hf Hne Hnum; [done|].
  destruct fuel as [|fuel]; [cbn in Hf; lia|]. inversion_clear Hw. cbn [delete_range_loop].
  destruct (Z.eqb_spec num 0) as [->|Hn0].
  { change (Z.to_nat 0) with 0%nat. rewrite take_0, app_nil_r. cbn [length]. by rewrite Z.add_0_r. }
  replace (Z.to_nat num) with (S (Z.to_nat (num - 1))) by lia. cbn [take length].
  rewrite lpSkip_spec by done. cbn [mbind option_bind]. rewrite (snoc_app a e b) in Ht |- *.
  destruct (byte_at n slack (a ++ [e]) b) as (x & -> & Hx); [done|]. cbn [mbind option_bind]. rewrite Hx.
  destruct b as [|e' b].
  { rewrite take_nil. cbn [length]. done. }
  rewrite valid_position by done. cbn [mbind option_bind].
  rewrite IH by (done || lia || (cbn [length] in Hf |- *; lia)). rewrite <- (app_assoc a [e]). cbn [app]. do 2 f_equal. lia.
Qed.

Lemma body_pos (b : list entry) : Forall wf_entry b -> b <> [] -> 0 < Z.of_nat (length (body b)).
Proof. intros Hw Hb. pose proof (body_length b Hw). destruct b; [done|]. cbn [length] in *. lia. Qed.

Lemma lpDeleteRangeWithEntry_spec a b n slack num :
  Forall wf_entry (a ++ b) -> total (a ++ b) < 2 ^ 32 -> count_ok (a ++ b) n -> b <> [] -> 0 < num ->
  let c := drop (Z.to_nat num) b in
  exists n' slack', lpDeleteRangeWithEntry (lp_bytes_of (a ++ b) n slack) (off a) num =
    Some (lp_bytes_of (a ++ c) n' slack', at_ a c) /\ count_ok (a ++ c) n'.
Proof.
  intros Hw Ht [Hn Hc] Hb Hnum c. set (d := take (Z.to_nat num) b).
  assert (Hdc : b = d ++ c) by (unfold d, c; by rewrite take_drop). apply Forall_app in Hw as [Hwa Hwb].
  assert (Hd : take (Z.to_nat num) b = d) by done. clearbody c d.
  assert (Hwc : Forall wf_entry c) by (rewrite Hdc in Hwb; apply Forall_app in Hwb as [_ ?]; done).
  unfold lpDeleteRangeWithEntry. rewrite lpBytes_spec by done. cbn [mbind option_bind].
  rewrite (proj2 (Z.eqb_neq num 0)) by lia.
  destruct (lp_length_le (a ++ b) n slack) as [Hfuel _]; [by apply Forall_app|done|].
  rewrite length_app in Hfuel. rewrite (delete_range_loop_spec n slack b) by
    (done || lia).
  rewrite Hd. cbn [mbind option_bind]. rewrite Z.add_0_l.
  pose proof (total_split a b) as Htot. pose proof (off_ge a) as Ho. unfold LP_HDR_SIZE in Ho.
  assert (Hbl : Z.of_nat (length (body b)) = Z.of_nat (length (body d)) + Z.of_nat (length (body c)))
    by (rewrite Hdc, body_app, length_app; lia).
  pose proof (off_app a d) as Hod. pose proof (total_split a c) as Htc.
  set (x := header (total (a ++ b)) n ++ body a).
  assert (Hx : Z.of_nat (length x) = off a) by apply length_prefix.
  assert (E : lp_bytes_of (a ++ b) n slack = x ++ body d ++ (body c ++ [LP_EOF]) ++ slack).
  { unfold lp_bytes_of, x. rewrite !body_app, Hdc, body_app, <- !app_assoc. done. }
  assert (Htl : Z.of_nat (length (body c ++ [LP_EOF])) = Z.of_nat (length (body c)) + 1) by (rewrite length_app; cbn; lia).
  rewrite E. destruct (memmove_at x (body d) (body c ++ [LP_EOF]) slack 0) as (g & s' & Hmv & Hg); [rewrite !length_app; lia|].
  destruct g; [|done]. cbn [app] in Hmv.
  rewrite wrapu_small by cint.
  replace (memmove _ (off a) (off (a ++ d)) _) with (Some (x ++ (body c ++ [LP_EOF]) ++ s')) by (rewrite <- Hmv; f_equal; lia).
  cbn [mbind option_bind]. unfold x. rewrite <- app_assoc, set_header_total. cbn [mbind option_bind].
  rewrite le_load_header_num by done. cbn [mbind option_bind].
  replace (total (a ++ b) - (off (a ++ d) - off a)) with (total (a ++ c)) by lia.
  set (n' := if n =? LP_HDR_NUMELE_UNKNOWN then n else n - Z.of_nat (length d)).
  assert (Hlen : Z.of_nat (length (a ++ b)) = Z.of_nat (length (a ++ c)) + Z.of_nat (length d))
    by (rewrite Hdc, !length_app; lia).
  assert (Hcount : count_ok (a ++ c) n').
  { unfold count_ok, n'. destruct (Z.eqb_spec n LP_HDR_NUMELE_UNKNOWN); [split; [done|by left]|].
    destruct Hc as [?|Hc]; [done|]. split; [cint|right; lia]. }
  match goal with |- context [mbind _ (if negb _ then ?u else ?v)] =>
    assert ((if negb (n =? LP_HDR_NUMELE_UNKNOWN) then u else v) = Some (lp_bytes_of (a ++ c) n' s')) as -> end.
  { unfold n', lp_bytes_of. rewrite !body_app, <- !app_assoc.
    destruct (Z.eqb_spec n LP_HDR_NUMELE_UNKNOWN); cbn [negb]; [done|]. rewrite set_header_num.
    destruct Hc as [?|Hc]; [done|]. rewrite wrapu_small by cint. done. }
  cbn [mbind option_bind]. destruct (lpShrinkToFit_spec (a ++ c) n' s') as (s'' & ->); [lia|]. cbn [mbind option_bind].
  destruct (byte_at n' s'' a c Hwc) as (y & -> & Hy). cbn [mbind option_bind]. rewrite Hy.
  exists n', s''. split; [|done]. by destruct c.
Qed.

(** Truncating at an entry. *)
Lemma lp_truncate a b n slack k :
  b <> [] -> Forall wf_entry b -> in_u 16 k -> total (a ++ b) < 2 ^ 32 ->
  exists slack',
    (lp ← setb (lp_bytes_of (a ++ b) n slack) (off a) LP_EOF;
     lp ← lpSetTotalBytes lp (off a + 1);
     lp ← lpSetNumElements lp k;
     lpShrinkToFit lp) = Some (lp_bytes_of a k slack').
Proof.
  intros Hb Hw Hk Ht. destruct b as [|e b]; [done|]. inversion_clear Hw.
  destruct (lp_split_entry a e b n slack) as [-> Hl]. destruct (encode_head e) as (c & l & -> & _); [done|].
  rewrite setb_wr, <- Hl. cbn [app].
  match goal with |- context [wr (?x ++ c :: ?y)] => rewrite (wr_app x [c] [LP_EOF] y eq_refl : wr (x ++ c :: y) _ _ = _) end.
  cbn [mbind option_bind]. rewrite Hl, <- app_assoc, set_header_total. cbn [mbind option_bind].
  rewrite set_header_num. cbn [mbind option_bind app].
  match goal with |- context [LP_EOF :: ?s] => destruct (lpShrinkToFit_spec a k s) as (s' & E) end.
  { rewrite total_split in Ht. pose proof (body_pos (e :: b)). unfold total. lia. }
  exists s'. exact E.
Qed.

(** The entries left by [lpDeleteRange]. *)
Definition delete_range (es : list entry) (index num : Z) : list entry :=
  match resolve (length es) index with
  | Some k => take k es ++ drop (k + Z.to_nat num) es
  | None => es
  end.

Lemma lpDeleteRange_spec es n slack index num :
  Forall wf_entry es -> total es < 2 ^ 32 -> count_ok es n -> in_u 64 num ->
  exists n' slack', lpDeleteRange (lp_bytes_of es n slack) index num =
    Some (lp_bytes_of (delete_range es index num) n' slack') /\ count_ok (delete_range es index num) n'.
Proof.
  intros Hw Ht Hc Hnum. pose proof Hc as [Hn Hcn]. unfold lpDeleteRange, delete_range.
  rewrite get_num by done. cbn [mbind option_bind]. rewrite lpSeek_spec by done. unfold seek_addr.
  destruct (Z.eqb_spec num 0) as [->|Hn0].
  { exists n, slack. destruct (resolve (length es) index); [|done]. rewrite Nat.add_0_r, take_drop. done. }
  destruct (resolve (length es) index) as [k|] eqn:Er; cbn [mbind option_bind]; [|by exists n, slack].
  pose proof (resolve_Some _ _ _ Er) as Hk.
  assert (Hb : drop k es <> []) by (intros E; apply (f_equal length) in E; rewrite length_drop in E; cbn in E; lia).
  assert (E0 : lp_bytes_of es n slack = lp_bytes_of (take k es ++ drop k es) n slack) by (by rewrite take_drop).
  rewrite E0. clear E0. rewrite <- (take_drop k es) in Hw, Ht, Hc. rewrite <- drop_drop.
  destruct (negb (n =? LP_HDR_NUMELE_UNKNOWN)) eqn:Eu; cbn [andb].
  2:{ destruct (lpDeleteRangeWithEntry_spec (take k es) (drop k es) n slack num) as (n' & s' & E & Hc'); try done; [cint|].
      rewrite E. cbn [mbind option_bind]. eauto. }
  destruct Hcn as [->|Hcn]; [done|].
  assert (Hidx : (if index <? 0 then n + index else index) = Z.of_nat k).
  { unfold resolve in Er. rewrite Hcn. destruct (_ && _) eqn:E; [|done]. apply andb_prop in E as [E1%Z.leb_le _].
    injection Er as Er. lia. }
  rewrite Hidx, wrapu_small by cint.
  destruct (Z.leb_spec (n - Z.of_nat k) num).
  - destruct (lp_truncate (take k es) (drop k es) n slack (Z.of_nat k)) as (s' & E); try done.
    { apply Forall_app in Hw as [_ ?]. done. }
    { cint. }
    rewrite E. exists (Z.of_nat k), s'. rewrite drop_ge, app_nil_r by (rewrite length_drop; lia). split; [done|].
    split; [cint|right]. rewrite length_take. lia.
  - destruct (lpDeleteRangeWithEntry_spec (take k es) (drop k es) n slack num) as (n' & s' & E & Hc'); try done; [cint|].
    rewrite E. cbn [mbind option_bind]. eauto.
Qed.

(** ** Ends *)

Lemma lpAppend_spec es n slack x :
  Forall wf_entry es -> total es < 2 ^ 32 -> count_ok es n -> elem_ok x ->
  exists r, (match x with ElemStr s => lpAppend (lp_bytes_of es n slack) s
             | ElemInt v => lpAppendInteger (lp_bytes_of es n slack) v end) = Some r /\
    inserted (es ++ [elem_entry x]) (Some (off es)) r.
Proof.
  intros Hw Ht Hc Hx. pose proof (lpInsert_before_spec es [] n slack x) as Hi. rewrite app_nil_r in Hi.
  specialize (Hi Hw Ht Hc Hx).
  destruct x; unfold lpAppend, lpAppendInteger, lpInsertInteger; rewrite get_total by done;
    cbn [mbind option_bind]; replace (total es - 1) with (off es) by (unfold total; lia); exact Hi.
Qed.

Lemma lpPrepend_spec es n slack x :
  Forall wf_entry es -> total es < 2 ^ 32 -> count_ok es n -> elem_ok x ->
  exists r, (match x with ElemStr s => lpPrepend (lp_bytes_of es n slack) s
             | ElemInt v => lpPrependInteger (lp_bytes_of es n slack) v end) = Some r /\
    inserted (elem_entry x :: es) (Some LP_HDR_SIZE) r.
Proof.
  intros Hw Ht Hc Hx. pose proof (lpInsert_before_spec [] es n slack x Hw Ht Hc Hx) as Hi.
  destruct es as [|e es].
  - pose proof (lpAppend_spec [] n slack x Hw Ht Hc Hx) as Ha.
    destruct x; unfold lpPrepend, lpPrependInteger; rewrite lpFirst_spec by done; exact Ha.
  - destruct x; unfold lpPrepend, lpPrependInteger; rewrite lpFirst_spec by done; exact Hi.
Qed.

(** ** Merging *)

Lemma rd_prefix x y (k : nat) : length x = k -> rd (x ++ y) 0 k = Some x.
Proof. intros <-. exact (rd_app [] x y). Qed.

(** The body and the end of a listpack, after its header. *)
Lemma rd_tail es n slack :
  rd (lp_bytes_of es n slack) LP_HDR_SIZE (Z.to_nat (total es - LP_HDR_SIZE)) = Some (body es ++ [LP_EOF]).
Proof.
  unfold lp_bytes_of. replace (LP_EOF :: slack) with ([LP_EOF] ++ slack) by done. rewrite (app_assoc (body es)).
  replace (Z.to_nat (total es - LP_HDR_SIZE)) with (length (body es ++ [LP_EOF])).
  - exact (rd_app (header (total es) n) (body es ++ [LP_EOF]) slack).
  - rewrite length_app. unfold total, off, LP_HDR_SIZE. cbn. lia.
Qed.

(** Header and body, without the end. *)
Lemma rd_front es n slack :
  rd (lp_bytes_of es n slack) 0 (Z.to_nat (total es - 1)) = Some (header (total es) n ++ body es).
Proof.
  unfold lp_bytes_of. rewrite app_assoc. apply rd_prefix. rewrite length_app, length_header.
  unfold total, off, LP_HDR_SIZE. lia.
Qed.

Lemma total_app a b : total (a ++ b) = total a + total b - LP_HDR_SIZE - 1.
Proof. unfold total. rewrite off_app. unfold off. lia. Qed.

Lemma merge_append a b n slack src :
  src = body b ++ [LP_EOF] ->
  total (a ++ b) <= total a + Z.of_nat (length slack) ->
  exists slack', wr (lp_bytes_of a n slack) (total a - 1) src =
    Some (header (total a) n ++ body (a ++ b) ++ LP_EOF :: slack').
Proof.
  intros -> Hs. destruct (lp_split_eof a n slack) as [-> Hl].
  assert (Z.of_nat (length (body b)) <= Z.of_nat (length slack)) as Hlen.
  { rewrite total_split in Hs. unfold total in Hs. lia. }
  exists (drop (length (body b)) slack).
  replace (total a - 1) with (Z.of_nat (length (header (total a) n ++ body a))) by (rewrite Hl; unfold total; lia).
  rewrite <- (take_drop (length (body b)) slack) at 1.
  pose proof (wr_app (header (total a) n ++ body a) (LP_EOF :: take (length (body b)) slack) (body b ++ [LP_EOF])
    (drop (length (body b)) slack)) as E. cbn [app] in E.
  rewrite E by (rewrite length_app; cbn; rewrite length_take; lia). by rewrite body_app, <- !app_assoc.
Qed.

Lemma merge_prepend a b n m slack :
  total (a ++ b) <= total b + Z.of_nat (length slack) ->
  exists slack',
    (t ← memmove (lp_bytes_of b n slack) (total a - 1) LP_HDR_SIZE (Z.to_nat (total b - LP_HDR_SIZE));
     wr t 0 (header (total a) m ++ body a)) =
    Some (header (total a) m ++ body (a ++ b) ++ LP_EOF :: slack').
Proof.
  intros Hs. rewrite total_app in Hs. unfold LP_HDR_SIZE in Hs.
  set (x := header (total b) n). set (t := body b ++ [LP_EOF]).
  assert (E : lp_bytes_of b n slack = x ++ [] ++ t ++ slack) by (unfold lp_bytes_of, t; by rewrite <- app_assoc).
  assert (Ht : Z.of_nat (length t) = total b - LP_HDR_SIZE)
    by (unfold t; rewrite length_app; unfold total, off, LP_HDR_SIZE; cbn; lia).
  assert (Ha : Z.of_nat (length (body a)) = total a - 1 - LP_HDR_SIZE) by (unfold total, off; lia).
  unfold LP_HDR_SIZE in *. assert (Hx : length x = 6%nat) by done.
  rewrite E. destruct (memmove_at x [] t slack (length (body a))) as (g & s' & Hmv & Hg).
  { rewrite !length_app. cbn [length]. lia. }
  replace (memmove (x ++ [] ++ t ++ slack) (total a - 1) 6 (Z.to_nat (total b - 6)))
    with (Some (x ++ g ++ t ++ s')) by (rewrite <- Hmv; f_equal; cbn [length]; lia).
  cbn [mbind option_bind]. exists s'. rewrite (app_assoc x g).
  pose proof (wr_app [] (x ++ g) (header (total a) m ++ body a) (t ++ s')) as W. cbn [app length] in W.
  change (Z.of_nat 0) with 0 in W. rewrite W by (rewrite !length_app, length_header; lia).
  unfold t. by rewrite body_app, <- !app_assoc.
Qed.

Lemma finish_merge es k t n slack :
  (target ← lpSetNumElements (header t n ++ body es ++ LP_EOF :: slack) k; lpSetTotalBytes target (total es)) =
    Some (lp_bytes_of es k slack).
Proof. rewrite set_header_num. cbn [mbind option_bind]. by rewrite set_header_total. Qed.

Lemma lpMerge_spec a b n m sa sb :
  Forall wf_entry a -> Forall wf_entry b -> total (a ++ b) < UINT32_MAX -> count_ok a n -> count_ok b m ->
  exists k s, lpMerge (lp_bytes_of a n sa) (lp_bytes_of b m sb) = Some (lp_bytes_of (a ++ b) k s) /\
    count_ok (a ++ b) k.
Proof.
  intros Hwa Hwb Ht Ha Hb. pose proof (total_app a b) as Hab. pose proof (off_ge a). pose proof (off_ge b).
  unfold LP_HDR_SIZE, UINT32_MAX in *. unfold total in Hab.
  assert (Hta : total a < 2 ^ 32 /\ total b < 2 ^ 32) by (unfold total in *; cint). destruct Hta as [Hta Htb].
  unfold lpMerge. rewrite !lpBytes_spec by done. cbn [mbind option_bind].
  destruct (lpLength_spec a n sa Hwa Hta Ha) as (n' & Hn' & -> & _). cbn [mbind option_bind].
  destruct (lpLength_spec b m sb Hwb Htb Hb) as (m' & Hm' & -> & _). cbn [mbind option_bind].
  set (k := if _ <? UINT16_MAX then _ else _).
  assert (Hk : count_ok (a ++ b) k).
  { unfold k, count_ok, LP_HDR_NUMELE_UNKNOWN, UINT16_MAX. rewrite length_app.
    case_match eqn:E; [apply Z.ltb_lt in E; split; [cint|right; lia]|split; [done|by left]]. }
  assert (Hnew : u64 (total a + total b - LP_HDR_SIZE - 1) = total (a ++ b)).
  { rewrite wrapu_small; unfold total, LP_HDR_SIZE in *; cint. }
  destruct (Z.leb_spec (total b) (total a)); rewrite Hnew, (proj2 (Z.ltb_lt _ _)) by done; cbn [negb].
  - rewrite rd_tail. cbn [mbind option_bind].
    destruct (lp_realloc_spec a n' sa (total (a ++ b))) as (s1 & -> & Hs1); [unfold total; lia|].
    destruct (merge_append a b n' s1 (body b ++ [LP_EOF])) as (s2 & ->); [done|done|]. cbn [mbind option_bind].
    exists k, s2. split; [apply finish_merge|done].
  - rewrite rd_front. cbn [mbind option_bind].
    destruct (lp_realloc_spec b m' sb (total (a ++ b))) as (s1 & -> & Hs1); [unfold total; lia|].
    destruct (merge_prepend a b m' n' s1) as (s2 & E); [done|]. cbn [mbind option_bind] in E |- *. rewrite E.
    cbn [mbind option_bind]. exists k, s2. split; [apply finish_merge|done].
Qed.
End alloc.
