(* ===== verification/ListpackValid.v ===== *)
(** Validation of untrusted listpacks: [lpValidateIntegrity] never reads outside the
    payload, accepts every well-formed listpack, and what it accepts is a sequence of
    entries. *)

From S2P Require Import Prelude Util Listpack ListpackEnc.

Local Open Scope Z_scope.

(** ** Parsing one entry *)

Lemma getb_in (m : bytes) i : 0 <= i < Z.of_nat (length m) -> exists b, getb m i = Some b.
Proof.
  intros Hi. unfold getb. rewrite decide_True by lia.
  destruct (lookup_lt_is_Some_2 m (Z.to_nat i)) as [b Hb]; [lia|eauto].
Qed.

Lemma wraps_mod k v : 0 < k -> wraps k v mod 2 ^ k = v mod 2 ^ k.
Proof.
  intros Hk. unfold wraps. rewrite Zminus_mod_idemp_l. f_equal. lia.
Qed.

Lemma le_bytes_wraps (m : nat) l :
  (0 < m)%nat -> Forall is_byte l -> length l = m ->
  le_bytes m (wraps (8 * Z.of_nat m) (le_value l)) = l.
Proof.
  intros Hm Hb <-. rewrite <- le_bytes_mod, wraps_mod, le_bytes_mod by lia. by apply le_bytes_value.
Qed.

(** The entry made of an integer type byte and [m] bytes. *)
Lemma parse_int (w : int_enc) (tag : Z) (m : nat) l :
  (w = I16 /\ tag = 241 /\ m = 2%nat) \/ (w = I24 /\ tag = 242 /\ m = 3%nat) \/
  (w = I32 /\ tag = 243 /\ m = 4%nat) \/ (w = I64 /\ tag = 244 /\ m = 8%nat) ->
  Forall is_byte l -> (m <= length l)%nat ->
  exists e, wf_entry e /\ tag :: take m l = encode e.
Proof.
  intros Hcase Hb Hl. exists (EInt w (wraps (8 * Z.of_nat m) (le_value (take m l)))).
  assert (Hm : (0 < m)%nat) by (destruct_or!; destruct_and!; lia).
  pose proof (wraps_range (8 * Z.of_nat m) (le_value (take m l)) ltac:(lia)) as Hr.
  pose proof (le_bytes_wraps m (take m l) Hm (Forall_take _ _ _ Hb) ltac:(rewrite length_take; lia)) as E.
  destruct_or!; destruct_and!; subst; (split; [exact Hr|]); cbn [encode]; by rewrite <- E at 1.
Qed.

Lemma parse13 b c :
  192 <= b < 224 -> is_byte c -> exists e, wf_entry e /\ [b; c] = encode e.
Proof.
  intros Hb Hc. set (u := (b - 192) * 256 + c). exists (EInt I13 (wraps 13 u)). split; [by apply wraps_range|].
  cbn [encode]. assert (Hm : wraps 13 u mod 8192 = u).
  { change 8192 with (2 ^ 13). rewrite wraps_mod by lia. apply Z.mod_small. change (2 ^ 13) with 8192. unfold u. cint. }
  assert (Hd : u / 256 = b - 192) by (unfold u; rewrite Z.add_comm, Z.div_add, Z.div_small by cint; lia).
  rewrite Hm, Hd. f_equal; [lia|]. f_equal.
  transitivity (wraps 13 u mod 8192 mod 256).
  - rewrite Hm. unfold u. rewrite Z.add_comm, Z.mod_add, Z.mod_small by cint. done.
  - change 8192 with (256 * 32). rewrite Z.rem_mul_r by lia.
    by rewrite (Z.mul_comm 256 (wraps 13 u / 256 mod 32)), Z.mod_add, Z.mod_mod by lia.
Qed.

Lemma parse6 b l :
  128 <= b < 192 -> b - 128 <= Z.of_nat (length l) ->
  exists e, wf_entry e /\ b :: take (Z.to_nat (b - 128)) l = encode e.
Proof.
  intros Hb Hl. exists (EStr S6 (take (Z.to_nat (b - 128)) l)). cbn [wf_entry encode].
  rewrite length_take, Nat.min_l by lia. split; [lia|]. f_equal. lia.
Qed.

Lemma parse12 b c l n :
  224 <= b < 240 -> is_byte c -> n = (b - 224) * 256 + c -> n <= Z.of_nat (length l) ->
  exists e, wf_entry e /\ b :: c :: take (Z.to_nat n) l = encode e.
Proof.
  intros Hb Hc Hn Hl. exists (EStr S12 (take (Z.to_nat n) l)). cbn [wf_entry encode].
  rewrite length_take, Nat.min_l by cint. split; [cint|]. rewrite Z2Nat.id by cint. subst n.
  f_equal; [|f_equal].
  - rewrite Z.add_comm, Z.div_add_l, Z.div_small by cint. lia.
  - rewrite Z.add_comm, Z.mod_add, Z.mod_small by cint. done.
Qed.

Lemma parse32 h l n :
  Forall is_byte h -> length h = 4%nat -> n = le_value h -> n + 5 < 2 ^ 32 -> n <= Z.of_nat (length l) ->
  exists e, wf_entry e /\ 240 :: h ++ take (Z.to_nat n) l = encode e.
Proof.
  intros Hh Hl4 Hn Hs Hl. pose proof (le_value_range h Hh) as Hr. rewrite Hl4 in Hr.
  exists (EStr S32 (take (Z.to_nat n) l)). cbn [wf_entry encode].
  rewrite length_take, Nat.min_l by cint. rewrite Z2Nat.id by cint. split; [done|]. subst n.
  rewrite <- Hl4, le_bytes_value by done. done.
Qed.

(** A length field above 2^32-6 makes the 32 bit size of the entry wrap to a few bytes. *)
Definition wrapped (l : bytes) (sz : Z) : Prop :=
  0 <= sz <= 4 /\ exists c, getb l sz = Some c /\ is_byte c /\ 112 <= c mod 128.

Lemma wrapped_length h l :
  Forall is_byte h -> length h = 4%nat -> 2 ^ 32 <= le_value h + 5 -> wrapped (240 :: h ++ l) (u32 (5 + le_value h)).
Proof.
  intros Hh Hl Hbig. destruct h as [|b1 [|b2 [|b3 [|b4 [|]]]]]; try done. clear Hl.
  rewrite !Forall_cons in Hh. destruct Hh as (H1 & H2 & H3 & H4 & _). cbn [le_value] in *.
  set (v := b1 + 256 * (b2 + 256 * (b3 + 256 * (b4 + 256 * 0)))) in *.
  assert (Hv : v < 2 ^ 32) by (unfold v; cint).
  assert (E : u32 (5 + v) = 5 + v - 2 ^ 32).
  { unfold wrapu. rewrite <- (Z.mod_add _ (-1)) by lia. rewrite Z.mod_small; cint. }
  rewrite E. split; [cint|].
  assert (b4 = 255 /\ b3 = 255 /\ b2 = 255 /\ 251 <= b1) as (-> & -> & -> & Hb1) by (unfold v in *; cint).
  assert (251 <= b1 <= 255) as Hb by cint.
  assert (Hs : 5 + v - 2 ^ 32 = b1 - 251) by (unfold v; cint). rewrite Hs.
  assert (Hm : 112 <= b1 mod 128).
  { replace b1 with (b1 - 128 + 1 * 128) by lia. rewrite Z.mod_add, Z.mod_small by lia. lia. }
  destruct (decide (b1 = 251)) as [->|]; [exists 240; by split|].
  destruct (decide (b1 = 252)) as [->|]; [exists 252; by split|].
  destruct (decide (b1 = 253)) as [->|]; [exists 255; by split|].
  destruct (decide (b1 = 254)) as [->|]; [exists 255; by split|].
  assert (b1 = 255) as -> by lia. exists 255. by split.
Qed.

(** The header of an entry is enough to know its size, and the size to parse it. *)
Lemma parse_entry pre b l :
  is_byte b -> Forall is_byte l -> b <> 255 ->
  exists lenbytes, lpCurrentEncodedSizeBytes (pre ++ b :: l) (Z.of_nat (length pre)) = Some lenbytes /\
    0 <= lenbytes /\
    (lenbytes <> 0 -> lenbytes <= Z.of_nat (length l) ->
     exists sz, lpCurrentEncodedSizeUnsafe (pre ++ b :: l) (Z.of_nat (length pre)) = Some sz /\ in_u 32 sz /\
       (sz <= Z.of_nat (length (b :: l)) ->
        (exists e, wf_entry e /\ take (Z.to_nat sz) (b :: l) = encode e) \/ wrapped (b :: l) sz)).
Proof.
  intros Hb Hl Hne. unfold lpCurrentEncodedSizeBytes, lpCurrentEncodedSizeUnsafe.
  rewrite getb_at0, getb0. cbn [mbind option_bind]. eexists. split; [done|].
  destruct (classes_spec b Hb) as (-> & -> & -> & -> & -> & -> & -> & -> & ->).
  destruct (Z.ltb_spec b 128).
  { split; [done|]. intros _ _. eexists. split; [done|]. split; [done|]. intros _. left.
    exists (EInt I7 b). split; [cbn; cint|done]. }
  destruct (Z.leb_spec 128 b); [|lia]. destruct (Z.ltb_spec b 192); cbn [andb].
  { split; [done|]. intros _ _. unfold LP_ENCODING_6BIT_STR_LEN. rewrite getb_at0, getb0. cbn [mbind option_bind].
    destruct (tag6 (b - 128)) as [_ E]; [lia|]. replace (128 + (b - 128)) with b in E by lia. rewrite E.
    eexists. split; [done|]. split; [cint|]. intros Hsz. left. cbn [length] in Hsz.
    destruct (parse6 b l) as (e & Hw & Ee); [lia|lia|]. exists e. split; [done|]. rewrite <- Ee.
    replace (Z.to_nat (1 + (b - 128))) with (S (Z.to_nat (b - 128))) by lia. done. }
  destruct (Z.leb_spec 192 b); [|lia]. destruct (Z.ltb_spec b 224); cbn [andb].
  { split; [done|]. intros _ Hln. destruct l as [|c l]; [cbn in Hln; lia|]. inversion_clear Hl.
    eexists. split; [done|]. split; [done|]. intros _. left. destruct (parse13 b c) as (e & ? & E); [lia|done|].
    exists e. by rewrite <- E. }
  destruct (Z.eqb_spec b 241) as [->|]; [|destruct (Z.eqb_spec b 242) as [->|]; [|destruct (Z.eqb_spec b 243) as [->|]; [|destruct (Z.eqb_spec b 244) as [->|]]]].
  - split; [done|]. intros _ _. eexists. split; [done|]. split; [done|]. intros Hsz. left.
    destruct (parse_int I16 241 2 l) as (e & ? & E); [tauto|done|cbn in Hsz; lia|]. exists e. by rewrite <- E.
  - split; [done|]. intros _ _. eexists. split; [done|]. split; [done|]. intros Hsz. left.
    destruct (parse_int I24 242 3 l) as (e & ? & E); [tauto|done|cbn in Hsz; lia|]. exists e. by rewrite <- E.
  - split; [done|]. intros _ _. eexists. split; [done|]. split; [done|]. intros Hsz. left.
    destruct (parse_int I32 243 4 l) as (e & ? & E); [tauto|done|cbn in Hsz; lia|]. exists e. by rewrite <- E.
  - split; [done|]. intros _ _. eexists. split; [done|]. split; [done|]. intros Hsz. left.
    destruct (parse_int I64 244 8 l) as (e & ? & E); [tauto|done|cbn in Hsz; lia|]. exists e. by rewrite <- E.
  - destruct (Z.leb_spec 224 b); [|lia]. destruct (Z.ltb_spec b 240); cbn [andb].
    { split; [done|]. intros _ Hln. destruct l as [|c l]; [cbn in Hln; lia|]. inversion_clear Hl.
      unfold LP_ENCODING_12BIT_STR_LEN. rewrite getb_at0, getb_at, getb0, getb1 by lia. cbn [mbind option_bind].
      destruct (tag12 (b - 224)) as [_ E]; [lia|]. replace (224 + (b - 224)) with b in E by lia. rewrite E.
      rewrite len12 by (done || lia). eexists. split; [done|]. split; [cint|]. intros Hsz. left.
      destruct (parse12 b c l _ ltac:(lia) ltac:(done) eq_refl) as (e & ? & Ee); [cbn in Hsz; lia|].
      exists e. split; [done|]. rewrite <- Ee.
      replace (Z.to_nat (2 + ((b - 224) * 256 + c))) with (S (S (Z.to_nat ((b - 224) * 256 + c)))) by cint. done. }
    destruct (Z.eqb_spec b 240) as [->|].
    + split; [done|]. intros _ Hln. unfold LP_ENCODING_32BIT_STR_LEN.
      set (h := take 4 l). set (t := drop 4 l). assert (El : l = h ++ t) by (unfold h, t; by rewrite take_drop).
      assert (Hh4 : length h = 4%nat) by (unfold h; rewrite length_take; lia).
      assert (Hh : Forall is_byte h) by (by apply Forall_take). clearbody h t. subst l.
      replace (pre ++ 240 :: h ++ t) with ((pre ++ [240]) ++ h ++ t) by (by rewrite <- app_assoc).
      rewrite <- Hh4, le_load_at by (done || (rewrite length_app; cbn; lia)). cbn [mbind option_bind].
      eexists. split; [done|]. split; [by apply wrapu_range|]. intros Hsz.
      destruct (Z.lt_ge_cases (le_value h + 5) (2 ^ 32)); [left|right; by apply wrapped_length].
      pose proof (le_value_range h Hh) as Hr. rewrite wrapu_small in Hsz |- * by (unfold in_u in Hr |- *; lia).
      cbn [length] in Hsz. rewrite length_app, Hh4 in Hsz.
      destruct (parse32 h t (le_value h)) as (e & ? & Ee); [done..|lia|]. exists e. split; [done|]. rewrite <- Ee.
      replace (Z.to_nat (5 + le_value h)) with (S (length h + Z.to_nat (le_value h))) by (unfold in_u in Hr; lia).
      cbn [take]. by rewrite take_app_add.
    + destruct (Z.eqb_spec b LP_EOF); [done|]. split; [done|]. done.
Qed.

(** ** The backward length *)

Lemma dec_rev_total fuel : forall bs val shift,
  (fuel <= length bs)%nat -> 28 < shift + 7 * Z.of_nat fuel -> shift <= 28 ->
  exists v, dec_rev fuel bs val shift = Some v.
Proof.
  induction fuel as [|fuel IH]; intros bs val shift Hl Hs Hs'; [lia|].
  destruct bs as [|b bs]; [cbn in Hl; lia|]. cbn [dec_rev]. destruct (_ =? 0); [eauto|].
  destruct (Z.ltb_spec 28 (shift + 7)); [eauto|]. apply IH; [cbn in Hl|..]; lia.
Qed.

Lemma dec_rev_range fuel : forall bs val shift v,
  Forall is_byte bs -> 0 <= val < 2 ^ shift -> 0 <= shift <= 28 -> dec_rev fuel bs val shift = Some v ->
  (v = UINT64_MAX \/ 0 <= v < 2 ^ 35) /\ (7 <= shift -> v = UINT64_MAX \/ v mod 128 = val mod 128).
Proof.
  induction fuel as [|fuel IH]; intros bs val shift v Hb Hv Hs E; [done|].
  destruct bs as [|b bs]; [done|]. inversion_clear Hb.
  destruct (dec_rev_step fuel b bs val shift) as [Es Hr]; [done..|]. rewrite Es in E.
  assert (Hp : 2 ^ (shift + 7) <= 2 ^ 35) by (apply Z.pow_le_mono_r; lia).
  assert (Hm : 7 <= shift -> (val + b mod 128 * 2 ^ shift) mod 128 = val mod 128).
  { intros H7. replace shift with (shift - 7 + 7) by lia. rewrite Z.pow_add_r by lia. change (2 ^ 7) with 128.
    rewrite Z.mul_assoc. apply Z.mod_add. lia. }
  destruct (b <? 128); [injection E as <-; split; [right; lia|intros H7; right; by apply Hm]|].
  destruct (Z.ltb_spec 28 (shift + 7)); [injection E as <-; tauto|].
  apply IH in E; [|done|done|lia]. destruct E as [E1 E2]. split; [done|]. intros H7. rewrite <- Hm by done.
  apply E2. lia.
Qed.

Lemma dec_rev_low b bs v :
  Forall is_byte (b :: bs) -> dec_rev 5 (b :: bs) 0 0 = Some v ->
  (v = UINT64_MAX \/ 0 <= v < 2 ^ 35) /\ (v = UINT64_MAX \/ v mod 128 = b mod 128).
Proof.
  intros Hb E. inversion_clear Hb. split; [by eapply dec_rev_range in E as [? _]; try done; [constructor|..]|].
  destruct (dec_rev_step 4 b bs 0 0) as [Es Hr]; [done..|]. rewrite Es in E.
  replace (0 + b mod 128 * 2 ^ 0) with (b mod 128) in * by lia.
  destruct (b <? 128); [injection E as <-; right; by rewrite Z.mod_mod by lia|].
  destruct (Z.ltb_spec 28 (0 + 7)); [lia|].
  apply dec_rev_range in E; [|done|done|lia]. destruct E as [_ E]. rewrite Z.mod_mod in E by lia. apply E. lia.
Qed.

(** The comparison of [lpValidateNext] succeeds only on the size itself. *)
Lemma accepted_size c bs v sz k :
  Forall is_byte (c :: bs) -> dec_rev 5 (c :: bs) 0 0 = Some v -> in_u 32 sz -> 1 <= k <= 5 ->
  u64 (v + k) = sz + k -> v = sz /\ sz mod 128 = c mod 128.
Proof.
  intros Hb E Hsz Hk Heq. apply dec_rev_low in E as [Hr Hlow]; [|done]. change (2 ^ 35) with 34359738368 in Hr.
  assert (Hv : v = sz).
  { destruct Hr as [->|Hr].
    - exfalso. assert (E : u64 (UINT64_MAX + k) = k - 1).
      { unfold wrapu. rewrite <- (Z.mod_add _ (-1)) by lia. rewrite Z.mod_small; unfold UINT64_MAX; cint. }
      rewrite E in Heq. cint.
    - rewrite wrapu_small in Heq by cint. lia. }
  split; [done|]. subst v. destruct Hlow as [->|]; [|done]. unfold UINT64_MAX in Hsz. cint.
Qed.

(** ** One step of the validation *)

(** What an accepted step has read: an entry and a field that decodes to its size. *)
Definition step_read (lp pre rest : bytes) (p' : Z) : Prop :=
  exists e bl tl, wf_entry e /\ rest = encode e ++ bl ++ tl /\ tl <> [] /\
    Z.of_nat (length bl) = backlen_size (esize e) /\
    p' = Z.of_nat (length pre) + esize e + Z.of_nat (length bl) /\
    lpDecodeBacklen lp (p' - 1) = Some (esize e).

(** The bytes of an entry and of its length field, the last one apart. *)
Lemma split_field (b : Z) (l : bytes) sz bs :
  0 <= sz -> 1 <= bs -> sz + bs <= Z.of_nat (length l) ->
  exists y c tl, b :: l = y ++ c :: tl /\ Z.of_nat (length y) = sz + bs - 1 /\ tl <> [].
Proof.
  intros H0 H1 Hl. set (k := Z.to_nat (sz + bs - 1)).
  destruct (lookup_lt_is_Some_2 (b :: l) k) as [c Hc]; [cbn [length]; lia|].
  exists (take k (b :: l)), c, (drop (S k) (b :: l)). split; [by rewrite take_drop_middle|].
  rewrite length_take. cbn [length]. split; [lia|]. intros E. apply (f_equal length) in E.
  rewrite length_drop in E. cbn [length] in E. lia.
Qed.

Lemma backlen_small sz : sz <= 127 -> backlen_size sz = 1.
Proof. intros. unfold backlen_size. rewrite backlen_bytes, (proj2 (Z.leb_le _ _)) by lia. done. Qed.

Lemma step_read_intro e sz bs y c tl lp pre b l :
  b :: l = y ++ c :: tl -> Z.of_nat (length y) = sz + bs - 1 -> tl <> [] -> bs = backlen_size sz ->
  wf_entry e -> take (Z.to_nat sz) (b :: l) = encode e -> in_u 32 sz ->
  lpDecodeBacklen lp (Z.of_nat (length pre) + (sz + bs) - 1) = Some sz ->
  step_read lp pre (b :: l) (Z.of_nat (length pre) + (sz + bs)).
Proof.
  intros Hy Hyl Htl Hbs Hw Ee Hr Hdec. pose proof (backlen_size_range sz) as Hb. unfold in_u in Hr.
  assert (Hes : esize e = sz).
  { unfold esize. rewrite <- Ee, Hy, length_take, length_app. cbn [length]. lia. }
  exists e, (drop (Z.to_nat sz) (y ++ [c])), tl. split_and!; [done| |done| | |by rewrite Hes].
  - rewrite <- Ee, Hy. replace (y ++ c :: tl) with ((y ++ [c]) ++ tl) by (by rewrite <- app_assoc).
    rewrite take_app_le by (rewrite length_app; cbn; lia). by rewrite app_assoc, take_drop.
  - rewrite length_drop, length_app, Hes. cbn. lia.
  - rewrite length_drop, length_app, Hes. cbn. lia.
Qed.

Lemma lpValidateNext_sound pre b l lp n :
  lp = pre ++ b :: l -> n = Z.of_nat (length lp) -> Forall is_byte lp -> LP_HDR_SIZE <= Z.of_nat (length pre) ->
  exists ok pp, lpValidateNext lp (Some (Z.of_nat (length pre))) n = Some (ok, pp) /\
    match ok, pp with
    | true, Some p' => step_read lp pre (b :: l) p'
    | true, None => b = 255
    | false, _ => True
    end.
Proof.
  intros Hlp Hn Hbytes Hpre. pose proof Hbytes as Hb. rewrite Hlp in Hb.
  apply Forall_app in Hb as [Hbp Hbl]. inversion_clear Hbl as [|? ? Hb Hbl'].
  assert (Hlen : n = Z.of_nat (length pre) + 1 + Z.of_nat (length l)) by (rewrite Hn, Hlp, length_app; cbn; lia).
  unfold lpValidateNext. unfold LP_HDR_SIZE in *.
  rewrite (proj2 (Z.ltb_ge _ 6)), (proj2 (Z.ltb_ge (n - 1) _)) by lia. cbn [orb].
  assert (Hg : getb lp (Z.of_nat (length pre)) = Some b) by (rewrite Hlp, getb_at0; done).
  rewrite Hg. cbn [mbind option_bind]. destruct (Z.eqb_spec b LP_EOF) as [->|Hne]; [by exists true, None|].
  destruct (parse_entry pre b l Hb Hbl' Hne) as (lenbytes & Hlb & Hlb0 & Hparse). rewrite <- Hlp in Hlb, Hparse.
  rewrite Hlb. cbn [mbind option_bind]. destruct (Z.eqb_spec lenbytes 0) as [->|Hlb1]; [by exists false, (Some (Z.of_nat (length pre)))|].
  rewrite (proj2 (Z.ltb_ge _ 6)) by lia. cbn [orb].
  destruct (Z.ltb_spec (n - 1) (Z.of_nat (length pre) + lenbytes)); [by exists false, (Some (Z.of_nat (length pre)))|].
  destruct Hparse as (sz & Hsz & Hr & He); [lia..|]. rewrite Hsz. cbn [mbind option_bind].
  pose proof (backlen_size_range sz) as Hbs. set (bs := backlen_size sz) in *.
  rewrite (proj2 (Z.ltb_ge _ 6)) by (unfold in_u in Hr; lia). cbn [orb].
  destruct (Z.ltb_spec (n - 1) (Z.of_nat (length pre) + (sz + bs))); [by exists false, (Some (Z.of_nat (length pre)))|].
  specialize (He ltac:(cbn [length]; lia)).
  destruct (split_field b l sz bs) as (y & c & tl & Hy & Hyl & Htl); [unfold in_u in Hr; lia..|].
  assert (Hdec : lpDecodeBacklen lp (Z.of_nat (length pre) + (sz + bs) - 1) = dec_rev 5 (c :: reverse (pre ++ y)) 0 0).
  { unfold lpDecodeBacklen. rewrite <- reverse_snoc, <- lpDecodeBacklen_rev with (post := tl).
    rewrite Hlp, Hy, <- !app_assoc. cbn [app]. f_equal. rewrite !length_app. cbn. lia. }
  assert (Hcb : Forall is_byte (c :: reverse (pre ++ y))).
  { rewrite Hlp, Hy in Hbytes. rewrite !Forall_app, Forall_cons in Hbytes. destruct Hbytes as (? & ? & ? & ?).
    constructor; [done|]. apply Forall_reverse, Forall_app. done. }
  rewrite Hdec. destruct (dec_rev_total 5 (c :: reverse (pre ++ y)) 0 0) as (v & Hv);
    [cbn; rewrite length_reverse, length_app; lia|lia..|].
  rewrite Hv. cbn [mbind option_bind]. destruct (Z.eqb_spec (u64 (v + bs)) (sz + bs)) as [Heq|]; cbn [negb];
    [|by exists false, (Some (Z.of_nat (length pre)))].
  destruct (accepted_size c _ v sz bs Hcb Hv Hr Hbs Heq) as [-> Hlow].
  eexists true, _. split; [done|].
  destruct He as [(e & Hw & Ee)|(Hsz4 & c' & Hc' & _ & Hc112)].
  - apply (step_read_intro e sz bs y c tl); try done. by rewrite Hdec.
  - exfalso. assert (bs = 1) by (unfold bs; rewrite (backlen_small sz) by lia; done).
    rewrite Hy in Hc'. replace sz with (Z.of_nat (length y)) in Hc' by lia.
    rewrite getb_at0, getb0 in Hc'. injection Hc' as <-. rewrite Z.mod_small in Hlow; lia.
Qed.

(** ** The whole payload *)

(** Entries with their length fields. *)
Fixpoint raw (its : list (entry * bytes)) : bytes :=
  match its with [] => [] | (e, bl) :: its' => encode e ++ bl ++ raw its' end.

Fixpoint items_ok (lp : bytes) (start : Z) (its : list (entry * bytes)) : Prop :=
  match its with
  | [] => True
  | (e, bl) :: its' =>
      wf_entry e /\ Z.of_nat (length bl) = backlen_size (esize e) /\
      lpDecodeBacklen lp (start + esize e + Z.of_nat (length bl) - 1) = Some (esize e) /\
      items_ok lp (start + esize e + Z.of_nat (length bl)) its'
  end.

Definition loop_result (lp pre rest : bytes) (count : Z) (r : unit + option Z * Z) : Prop :=
  match r with
  | inl _ => True
  | inr (p, cnt) => exists its tl, rest = raw its ++ 255 :: tl /\
      p = Some (Z.of_nat (length pre) + Z.of_nat (length (raw its))) /\
      items_ok lp (Z.of_nat (length pre)) its /\ cnt = u32 (count + Z.of_nat (length its))
  end.

Lemma loop_result_cons lp pre e bl rest count r :
  wf_entry e -> Z.of_nat (length bl) = backlen_size (esize e) ->
  lpDecodeBacklen lp (Z.of_nat (length pre) + esize e + Z.of_nat (length bl) - 1) = Some (esize e) ->
  loop_result lp (pre ++ encode e ++ bl) rest (u32 (count + 1)) r ->
  loop_result lp pre (encode e ++ bl ++ rest) count r.
Proof.
  intros Hw Hbl Hdec. destruct r as [|[p cnt]]; [done|]. intros (its & tl & -> & -> & Hok & ->).
  rewrite !length_app in *. exists ((e, bl) :: its), tl. cbn [raw items_ok length]. rewrite <- !app_assoc, !length_app.
  split_and!; try done.
  - f_equal. lia.
  - replace (Z.of_nat (length pre) + esize e + Z.of_nat (length bl)) with (Z.of_nat (length pre + (length (encode e) + length bl)))
      by (unfold esize; lia). done.
  - unfold wrapu. rewrite Zplus_mod_idemp_l. f_equal. lia.
Qed.

Lemma validate_entries_sound {U} (cb : option (U -> Z -> Z -> U * bool)) lp n numele fuel : forall pre rest u count,
  lp = pre ++ rest -> n = Z.of_nat (length lp) -> Forall is_byte lp -> LP_HDR_SIZE <= Z.of_nat (length pre) ->
  rest <> [] -> (length rest <= fuel)%nat ->
  exists r, validate_entries fuel lp n numele cb u (Some (Z.of_nat (length pre))) (u32 count) = Some r /\
    loop_result lp pre rest count r.
Proof.
  induction fuel as [|fuel IH]; intros pre rest u count Hlp Hn Hb Hpre Hne Hf;
    (destruct rest as [|b l]; [done|]); [cbn in Hf; lia|].
  cbn [validate_entries]. assert (Hg : getb lp (Z.of_nat (length pre)) = Some b) by (rewrite Hlp, getb_at0; done).
  rewrite Hg. cbn [mbind option_bind]. destruct (Z.eqb_spec b LP_EOF) as [->|Hneq].
  { eexists. split; [done|]. exists [], l. cbn. rewrite !Z.add_0_r. done. }
  destruct (lpValidateNext_sound pre b l lp n) as (ok & pp & -> & Hst); [done..|]. cbn [mbind option_bind].
  destruct ok; cbn [negb]; [|by exists (inl tt)].
  destruct pp as [p'|]; [|done]. destruct (match cb with Some f => f u _ numele | None => (u, true) end) as [u' ok].
  destruct ok; cbn [negb]; [|by exists (inl tt)].
  destruct Hst as (e & bl & tl & Hw & Erest & Htl & Hbl & -> & Hdec).
  pose proof (esize_range e Hw) as Hes.
  destruct (IH (pre ++ encode e ++ bl) tl u' (u32 count + 1)) as (r & Er & Hr); try done.
  - by rewrite Hlp, Erest, <- !app_assoc.
  - rewrite !length_app. unfold LP_HDR_SIZE in *. lia.
  - apply (f_equal length) in Erest. rewrite !length_app in Erest. cbn [length] in Erest, Hf. unfold esize in Hes. lia.
  - exists r. rewrite !length_app in Er. split.
    + rewrite <- Er. do 2 f_equal. unfold esize. lia.
    + rewrite Erest. apply loop_result_cons; try done.
      replace (u32 (count + 1)) with (u32 (u32 count + 1)) by (unfold wrapu; by rewrite Zplus_mod_idemp_l).
      destruct r as [|[p cnt]]; [done|]. destruct Hr as (its & tl' & ? & ? & ? & ->). exists its, tl'.
      split_and!; try done. unfold wrapu. by rewrite Zplus_mod_idemp_l.
Qed.

(** ** The header *)

Lemma split_header (lp : bytes) :
  Forall is_byte lp -> (7 <= length lp)%nat ->
  exists t n rest, lp = header t n ++ rest /\ in_u 32 t /\ in_u 16 n /\ rest <> [] /\ Forall is_byte rest.
Proof.
  intros Hb Hl. destruct lp as [|a [|b [|c [|d [|x [|y rest]]]]]]; cbn in Hl; try lia.
  change (a :: b :: c :: d :: x :: y :: rest) with ([a; b; c; d] ++ [x; y] ++ rest) in *.
  apply Forall_app in Hb as [H4 [H2 Hr]%Forall_app].
  exists (le_value [a; b; c; d]), (le_value [x; y]), rest.
  split_and!; try apply (le_value_range _ H4); try apply (le_value_range _ H2); try done.
  - unfold header. rewrite <- (le_bytes_value _ H4) at 1. rewrite <- (le_bytes_value _ H2) at 1.
    by rewrite <- app_assoc.
  - destruct rest; [cbn in Hl; lia|done].
Qed.

Lemma raw_length lp start its : items_ok lp start its -> 2 * Z.of_nat (length its) <= Z.of_nat (length (raw its)).
Proof.
  revert start. induction its as [|[e bl] its IH]; intros start; [done|]. intros (Hw & Hbl & _ & Hok).
  apply IH in Hok. cbn [raw length]. rewrite !length_app. pose proof (esize_range e Hw) as He.
  pose proof (backlen_size_range (esize e)). unfold esize in *. lia.
Qed.

(** What a deep validation establishes of a payload of [length lp] bytes. *)
Definition validated (lp : bytes) (its : list (entry * bytes)) : Prop :=
  exists n, lp = header (Z.of_nat (length lp)) n ++ raw its ++ [LP_EOF] /\ Z.of_nat (length lp) < 2 ^ 32 /\
    in_u 16 n /\ (n = LP_HDR_NUMELE_UNKNOWN \/ n = Z.of_nat (length its)) /\ items_ok lp LP_HDR_SIZE its.

Lemma lpValidateIntegrity_spec {U} lp deep (cb : option (U -> Z -> Z -> U * bool)) u :
  Forall is_byte lp ->
  exists b, lpValidateIntegrity lp (Z.of_nat (length lp)) deep cb u = Some b /\
    (b = true -> deep = true -> exists its, validated lp its).
Proof.
  intros Hb. unfold lpValidateIntegrity. destruct (Z.ltb_spec (Z.of_nat (length lp)) (LP_HDR_SIZE + 1)) as [|Hl]; [by exists false|].
  unfold LP_HDR_SIZE in Hl. destruct (split_header lp Hb) as (t & n & rest & Elp & Ht & Hn & Hne & _); [lia|].
  assert (Htot : lpGetTotalBytes lp = Some t) by (rewrite Elp; by apply le_load_header_total).
  assert (Hnum : lpGetNumElements lp = Some n) by (rewrite Elp; by apply le_load_header_num).
  rewrite Htot. cbn [mbind option_bind].
  destruct (Z.eqb_spec t (Z.of_nat (length lp))) as [->|]; cbn [negb]; [|by exists false].
  destruct (getb_in lp (Z.of_nat (length lp) - 1)) as (c & ->); [lia|]. cbn [mbind option_bind].
  destruct (Z.eqb_spec c LP_EOF); cbn [negb]; [|by exists false]. destruct deep; cbn [negb]; [|by exists true].
  rewrite Hnum. cbn [mbind option_bind].
  destruct (validate_entries_sound cb lp (Z.of_nat (length lp)) n (length lp) (header (Z.of_nat (length lp)) n) rest u 0)
    as (r & Er & Hr); try done; [apply (f_equal length) in Elp; rewrite length_app in Elp; lia|].
  change (Some LP_HDR_SIZE) with (Some (Z.of_nat (length (header (Z.of_nat (length lp)) n)))).
  change (u32 0) with 0 in Er. rewrite Er. cbn [mbind option_bind].
  destruct r as [|[p cnt]]; [by exists false|]. eexists. split; [done|]. intros [E1 E2]%andb_prop _.
  apply bool_decide_eq_true in E1. destruct Hr as (its & tl & Erest & -> & Hok & ->). exists its.
  injection E1 as E1. pose proof (f_equal length Elp) as El.
  rewrite Erest, !length_app, length_header in El. cbn [length] in El.
  assert (tl = []) as -> by (destruct tl; [done|cbn in El; lia]). pose proof (raw_length _ _ _ Hok) as Hrl.
  exists n. split; [exact (eq_trans Elp (f_equal (app _) Erest))|]. split; [apply Ht|]. split; [done|]. split; [|done].
  apply orb_prop in E2 as [E2%Z.eqb_eq|E2%Z.eqb_eq]; [by left|right].
  rewrite E2. rewrite Z.add_0_l. apply wrapu_small. unfold in_u in *. lia.
Qed.

(** ** Walking an accepted payload *)

Lemma raw_app a b : raw (a ++ b) = raw a ++ raw b.
Proof. induction a as [|[e bl] a IH]; [done|]. cbn. by rewrite IH, <- !app_assoc. Qed.

Lemma items_ok_app lp a b : forall start,
  items_ok lp start (a ++ b) <-> items_ok lp start a /\ items_ok lp (start + Z.of_nat (length (raw a))) b.
Proof.
  induction a as [|[e bl] a IH]; intros start; cbn [app items_ok raw length]; [by rewrite Z.add_0_r; tauto|].
  rewrite IH, !length_app.
  replace (start + esize e + Z.of_nat (length bl) + Z.of_nat (length (raw a)))
    with (start + Z.of_nat (length (encode e) + (length bl + length (raw a)))) by (unfold esize; lia). tauto.
Qed.

Definition pos (a : list (entry * bytes)) : Z := LP_HDR_SIZE + Z.of_nat (length (raw a)).

Lemma pos_snoc a e bl :
  Z.of_nat (length bl) = backlen_size (esize e) -> pos (a ++ [(e, bl)]) = pos a + fsize e.
Proof.
  intros Hbl. unfold pos. rewrite raw_app, fsize_eq. cbn [raw]. rewrite !length_app. cbn. unfold esize in *. lia.
Qed.

Lemma validated_split lp its a b :
  validated lp its -> its = a ++ b ->
  exists pre, lp = pre ++ raw b ++ [LP_EOF] /\ Z.of_nat (length pre) = pos a /\ items_ok lp (pos a) b /\
    lpBytes lp = Some (Z.of_nat (length lp)).
Proof.
  intros (n & Elp & Hl & Hn & _ & Hok) ->. rewrite items_ok_app in Hok.
  exists (header (Z.of_nat (length lp)) n ++ raw a). split_and!; [| |apply Hok|].
  - rewrite Elp at 1. by rewrite raw_app, <- !app_assoc.
  - rewrite length_app, length_header. unfold pos, LP_HDR_SIZE. lia.
  - rewrite Elp at 1. apply le_load_header_total. split; lia.
Qed.

(** The assertions of the iterators hold at every position. *)
Lemma validated_position lp its a b :
  validated lp its -> its = a ++ b ->
  lpAssertValidEntry lp (Z.of_nat (length lp)) (pos a) = Some tt /\
  exists x, getb lp (pos a) = Some x /\ (x =? LP_EOF) = match b with [] => true | _ => false end.
Proof.
  intros Hv E. destruct (validated_split lp its a b Hv E) as (pre & Elp & Hpos & Hok & _). rewrite <- Hpos in Hok |- *.
  assert (Hpre : LP_HDR_SIZE <= Z.of_nat (length pre)) by (rewrite Hpos; unfold pos; lia).
  unfold lpAssertValidEntry. pose proof (f_equal length Elp) as Hlen. rewrite !length_app in Hlen. cbn [length] in Hlen.
  destruct b as [|[e bl] b]; cbn [raw items_ok] in *.
  - cbn [app] in Elp. split; [|rewrite Elp, getb_at0; by exists LP_EOF].
    rewrite Elp at 1. by rewrite lpValidateNext_eof by lia.
  - destruct Hok as (Hw & Hbl & Hdec & _). rewrite <- !app_assoc in Elp. rewrite !length_app in Hlen. split.
    + rewrite Elp in Hdec. rewrite Elp at 1. rewrite lpValidateNext_item; try done.
      rewrite fsize_eq. unfold esize in *. lia.
    + rewrite Elp, getb_at0. destruct (encode_head e Hw) as (c & l & -> & _ & Hc). exists c. split; [done|].
      by apply Z.eqb_neq.
Qed.

Lemma validated_walk lp its a e bl b :
  validated lp its -> its = a ++ (e, bl) :: b ->
  lpNext lp (pos a) = Some (match b with [] => None | _ => Some (pos a + fsize e) end) /\
  lpPrev lp (pos a + fsize e) = Some (Some (pos a)) /\
  lpGetWithSize lp (pos a) None = got (pos a) e None (Some (fsize e)).
Proof.
  intros Hv E. destruct (validated_split lp its a _ Hv E) as (pre & Elp & Hpos & Hok & Hbytes).
  pose proof Hok as (Hw & Hbl & Hdec & _). pose proof (fsize_range e Hw) as Hf. pose proof (fsize_eq e) as Hfe.
  pose proof (esize_range e Hw) as He. pose proof (backlen_size_range (esize e)) as Hbs.
  assert (E' : its = (a ++ [(e, bl)]) ++ b) by (by rewrite <- app_assoc).
  destruct (validated_position lp its a _ Hv E) as [Hva _].
  destruct (validated_position lp its _ b Hv E') as [Hvb (x & Hx & Hxe)]. rewrite pos_snoc in Hvb, Hx by done.
  cbn [raw] in Elp. rewrite <- !app_assoc in Elp.
  assert (Hsk : lpSkip lp (pos a) = Some (pos a + fsize e)).
  { unfold lpSkip. rewrite Elp, <- Hpos, lpCurrentEncodedSizeUnsafe_spec by done. cbn [mbind option_bind]. by rewrite <- Hfe. }
  split_and!.
  - unfold lpNext. rewrite Hsk. cbn [mbind option_bind]. rewrite Hx. cbn [mbind option_bind]. rewrite Hxe.
    destruct b; [done|]. rewrite Hbytes. cbn [mbind option_bind]. by rewrite Hvb.
  - unfold lpPrev. assert (LP_HDR_SIZE <= pos a) by (unfold pos; lia).
    rewrite (proj2 (Z.eqb_neq _ _)) by lia.
    replace (pos a + fsize e - 1) with (pos a + esize e + Z.of_nat (length bl) - 1) by lia.
    rewrite Hdec. cbn [mbind option_bind]. rewrite wrapu_small by cint. rewrite Hbytes. cbn [mbind option_bind].
    replace (pos a + esize e + Z.of_nat (length bl) - 1 - (esize e + backlen_size (esize e) - 1)) with (pos a) by lia.
    by rewrite Hva.
  - rewrite Elp, <- Hpos. by apply lpGetWithSize_spec.
Qed.

(** ** Every listpack is accepted *)

Lemma validate_entries_complete n slack b : forall fuel a count,
  Forall wf_entry b -> total (a ++ b) < 2 ^ 32 -> (length b <= fuel)%nat ->
  0 <= count -> count + Z.of_nat (length b) < 2 ^ 32 ->
  validate_entries (U := unit) fuel (lp_bytes_of (a ++ b) n slack) (total (a ++ b)) n None tt (Some (off a)) count =
    Some (inr (Some (off (a ++ b)), count + Z.of_nat (length b))).
Proof.
  induction b as [|e b IH]; intros fuel a count Hw Ht Hf Hc Hl.
  { destruct (byte_at n slack a [] Hw) as (x & Hx & Hxe). destruct fuel; cbn [validate_entries];
      rewrite Hx; cbn [mbind option_bind]; rewrite Hxe, app_nil_r; cbn [length]; by rewrite Z.add_0_r. }
  destruct fuel as [|fuel]; [cbn in Hf; lia|]. cbn [validate_entries].
  destruct (byte_at n slack a (e :: b) Hw) as (x & -> & Hxe). cbn [mbind option_bind]. rewrite Hxe.
  inversion_clear Hw. destruct (lp_split_entry a e b n slack) as [E Hlen].
  assert (Hv : lpValidateNext (lp_bytes_of (a ++ e :: b) n slack) (Some (off a)) (total (a ++ e :: b)) =
    Some (true, Some (off (a ++ [e])))).
  { rewrite E, <- Hlen, lpValidateNext_entry; [by rewrite Hlen, off_snoc| |done|].
    - rewrite Hlen. apply off_ge.
    - rewrite Hlen, total_split. cbn [body]. rewrite length_app. unfold fsize. lia. }
  rewrite Hv. cbn [mbind option_bind negb]. cbn [length] in Hl, Hf |- *. rewrite wrapu_small by cint.
  rewrite (snoc_app a e b) in Ht |- *. rewrite IH; [|done|done|cint..].
  replace (count + 1 + Z.of_nat (length b)) with (count + Z.of_nat (S (length b))) by lia. done.
Qed.

Lemma lpValidateIntegrity_complete es n deep :
  Forall wf_entry es -> total es < 2 ^ 32 -> count_ok es n ->
  lpValidateIntegrity (U := unit) (lp_bytes_of es n []) (total es) deep None tt = Some true.
Proof.
  intros Hw Ht [Hn Hc]. unfold lpValidateIntegrity. pose proof (off_ge es) as Ho.
  rewrite (proj2 (Z.ltb_ge _ _)) by (unfold total, LP_HDR_SIZE in *; lia).
  rewrite get_total by done. cbn [mbind option_bind]. rewrite Z.eqb_refl. cbn [negb].
  replace (total es - 1) with (off es) by (unfold total; lia).
  destruct (byte_at n [] es []) as (x & Hx & Hxe); [done|]. rewrite app_nil_r in Hx. rewrite Hx. cbn [mbind option_bind].
  rewrite Hxe. destruct deep; cbn [negb]; [|done]. rewrite get_num by done. cbn [mbind option_bind].
  destruct (lp_length_le es n [] Hw Ht) as [Hf Hl].
  pose proof (validate_entries_complete n [] es (length (lp_bytes_of es n [])) [] 0) as E. cbn [app] in E.
  change (off []) with LP_HDR_SIZE in E. rewrite E by (done || cint). cbn [mbind option_bind]. rewrite Z.add_0_l.
  rewrite bool_decide_true by done. destruct Hc as [->| ->]; [done|]. by rewrite Z.eqb_refl, orb_true_r.
Qed.
