(* ===== verification/ListpackSpec.v ===== *)
(** The properties of listpacks: they implement lists of strings. *)

From S2P Require Import Prelude Util Listpack ListpackEnc ListpackOps ListpackValid.

Local Open Scope Z_scope.

(** ** The string an entry stands for *)

(** The decimal notation [ll2string] prints. *)
Definition dec_string (v : Z) : bytes :=
  match ll2string (replicate 21 0) 0 LP_INTBUF_SIZE v with
  | Some (m, n) => take (Z.to_nat n) m
  | None => []
  end.

Definition logical (e : entry) : bytes := match e with EInt _ v => dec_string v | EStr _ s => s end.

Lemma ll2string_dec buf v :
  in_s 64 v -> (21 <= length buf)%nat ->
  exists b, ll2string buf 0 LP_INTBUF_SIZE v = Some (b, Z.of_nat (length (dec_string v))) /\
    take (length (dec_string v)) b = dec_string v /\ signed_decimal v (dec_string v) /\ (length (dec_string v) <= length b)%nat.
Proof.
  intros Hv Hl.
  assert (H : forall m, (21 <= length m)%nat -> exists s m', ll2string m 0 LP_INTBUF_SIZE v = Some (m', Z.of_nat (length s)) /\
    take (length s) m' = s /\ signed_decimal v s /\ (length s <= length m')%nat).
  { intros m Hm. unfold LP_INTBUF_SIZE. destruct (ll2string_string2ll m 0 21 v) as (s & m' & E & W & R & S); [lia|done|lia..|].
    apply string2ll_spec in S as [_ S]. exists s, m'. pose proof (wr_length _ _ _ _ W) as Hl'.
    apply rd_Some in R as (_ & Hb & R). change (Z.to_nat 0) with 0%nat in R. rewrite drop_0 in R.
    apply (f_equal (take (length s))) in R. rewrite take_app_length, take_take, Nat.min_l in R by lia.
    split_and!; try done. lia. }
  destruct (H (replicate 21 0)) as (s & m & E & T & S & _); [by rewrite length_replicate|].
  assert (Hd : dec_string v = s) by (unfold dec_string; by rewrite E, Nat2Z.id).
  destruct (H buf Hl) as (s' & b & E' & T' & S' & L'). rewrite Hd. rewrite (signed_decimal_unique v s s') by done.
  by exists b.
Qed.

Lemma dec_string_spec v : in_s 64 v -> signed_decimal v (dec_string v).
Proof. intros Hv. destruct (ll2string_dec (replicate 21 0) v Hv) as (_ & _ & _ & ? & _); [by rewrite length_replicate|done]. Qed.

(** Storing a string as an integer loses nothing. *)
Lemma lpStringToInt64_dec s v : lpStringToInt64 s = Some v <-> in_s 64 v /\ s = dec_string v.
Proof.
  rewrite lpStringToInt64_eq, string2ll_spec. split; intros [Hv Hs]; split; try done.
  - by apply (signed_decimal_unique v); [|apply dec_string_spec].
  - subst s. by apply dec_string_spec.
Qed.

Lemma logical_entry_of s : logical (entry_of s) = s.
Proof. unfold entry_of. destruct (lpStringToInt64 s) eqn:E; [|done]. by apply lpStringToInt64_dec in E as [_ ->]. Qed.

Lemma entry_of_dec v : in_s 64 v -> entry_of_int v = entry_of (dec_string v).
Proof.
  intros Hv. unfold entry_of. by rewrite (proj2 (lpStringToInt64_dec (dec_string v) v)).
Qed.

(** The string of an argument. *)
Definition elem_string (x : elem) : bytes := match x with ElemStr s => s | ElemInt v => dec_string v end.

Lemma elem_entry_string x : elem_ok x -> elem_entry x = entry_of (elem_string x).
Proof. destruct x; [done|]. apply entry_of_dec. Qed.

(** ** Lists of strings *)

Abbreviation encoded ss := (entry_of <$> ss : list entry).
Definition fits (ss : list bytes) : bool := bool_decide (total (encoded ss) < 2 ^ 32).

Lemma wf_entry_of s : Z.of_nat (length (full (entry_of s))) < 2 ^ 32 -> wf_entry (entry_of s).
Proof.
  intros Hf. destruct (entry_of_spec s) as (Hw & _ & _). unfold entry_of in *.
  destruct (lpStringToInt64 s) as [v|] eqn:E.
  - apply lpStringToInt64_dec in E as [Hv _]. by destruct (lpEncodeIntegerGetType_spec v Hv).
  - apply Hw. unfold full in Hf. rewrite length_app in Hf. unfold str_enc_of in Hf.
    destruct (Z.ltb_spec (Z.of_nat (length s)) 64); [cint|].
    destruct (Z.ltb_spec (Z.of_nat (length s)) 4096); [cint|]. cbn [encode length] in Hf.
    rewrite length_app, length_le_bytes in Hf. cint.
Qed.

Lemma wf_encoded ss : total (encoded ss) < 2 ^ 32 -> Forall wf_entry (encoded ss).
Proof.
  intros Ht. unfold total, off, LP_HDR_SIZE in Ht.
  assert (Hb : Z.of_nat (length (body (encoded ss))) < 2 ^ 32) by lia. clear Ht.
  induction ss as [|s ss IH]; [constructor|]. cbn [fmap list_fmap body] in Hb |- *. rewrite length_app in Hb.
  constructor; [apply wf_entry_of|apply IH]; lia.
Qed.

Inductive lp_edit :=
  | LAppend (x : elem) | LPrepend (x : elem)
  | LInsert (index : Z) (w : lp_where) (x : elem)
  | LDelete (index : Z) | LDeleteRange (index num : Z).

Definition edit_ok (c : lp_edit) : Prop :=
  match c with
  | LAppend x | LPrepend x | LInsert _ _ x => elem_ok x
  | LDelete _ => True
  | LDeleteRange _ num => in_u 64 num
  end.

(** An insertion that does not fit in 32 bits of total size is refused. *)
Definition guard_fits (old new : list bytes) : list bytes := if fits new then new else old.

Definition spec_lp_edit (ss : list bytes) (c : lp_edit) : list bytes :=
  match c with
  | LAppend x => guard_fits ss (ss ++ [elem_string x])
  | LPrepend x => guard_fits ss (elem_string x :: ss)
  | LInsert index w x =>
      match resolve (length ss) index with
      | Some k => guard_fits ss
          (match w with
           | LP_BEFORE => take k ss ++ elem_string x :: drop k ss
           | LP_AFTER => take (S k) ss ++ elem_string x :: drop (S k) ss
           | LP_REPLACE => take k ss ++ elem_string x :: drop (S k) ss
           end)
      | None => ss
      end
  | LDelete index => match resolve (length ss) index with Some k => take k ss ++ drop (S k) ss | None => ss end
  | LDeleteRange index num =>
      match resolve (length ss) index with Some k => take k ss ++ drop (k + Z.to_nat num) ss | None => ss end
  end.

Section edits.
Context `{Allocator}.

(** A client keeps its listpack when an insertion returns NULL. *)
Definition keep (lp : bytes) (r : option (option (bytes * option Z))) : option bytes :=
  r ← r; Some (match r with Some (lp', _) => lp' | None => lp end).

Definition run_lp_edit (lp : bytes) (c : lp_edit) : option bytes :=
  match c with
  | LAppend (ElemStr s) => keep lp (lpAppend lp s)
  | LAppend (ElemInt v) => keep lp (lpAppendInteger lp v)
  | LPrepend (ElemStr s) => keep lp (lpPrepend lp s)
  | LPrepend (ElemInt v) => keep lp (lpPrependInteger lp v)
  | LInsert index w x =>
      p ← lpSeek lp index;
      match p with
      | Some p =>
          match w, x with
          | LP_REPLACE, ElemStr s => keep lp (lpReplace lp p s)
          | LP_REPLACE, ElemInt v => keep lp (lpReplaceInteger lp p v)
          | _, ElemStr s => keep lp (lpInsertString lp s p w)
          | _, ElemInt v => keep lp (lpInsertInteger lp v p w)
          end
      | None => Some lp
      end
  | LDelete index =>
      p ← lpSeek lp index;
      match p with Some p => keep lp (lpDelete lp p) | None => Some lp end
  | LDeleteRange index num => lpDeleteRange lp index num
  end.

Fixpoint run_lp_edits (lp : bytes) (cs : list lp_edit) : option bytes :=
  match cs with [] => Some lp | c :: cs' => lp ← run_lp_edit lp c; run_lp_edits lp cs' end.

Lemma listpack_encoded ss n slack :
  total (encoded ss) < 2 ^ 32 -> count_ok (encoded ss) n -> listpack (lp_bytes_of (encoded ss) n slack) (encoded ss).
Proof. intros Ht Hc. exists n, slack. split_and!; try done; [by apply wf_encoded|apply Hc..]. Qed.

Lemma keep_inserted lp ss new p r :
  listpack lp (encoded ss) -> inserted (encoded new) p r ->
  exists lp', keep lp (Some r) = Some lp' /\ listpack lp' (encoded (guard_fits ss new)).
Proof.
  intros Hlp Hi. eexists. split; [done|]. unfold guard_fits, fits. destruct r as [[lp' np]|]; cbn in Hi |- *.
  - destruct Hi as (Ht & _ & n & s & -> & Hc). rewrite bool_decide_true by done. by apply listpack_encoded.
  - rewrite bool_decide_false by lia. done.
Qed.

(** The strings around a position, and their entries. *)
Lemma encoded_at ss k :
  (k < length ss)%nat ->
  exists s, encoded ss = encoded (take k ss) ++ entry_of s :: encoded (drop (S k) ss) /\
    ss = take k ss ++ s :: drop (S k) ss.
Proof.
  intros Hk. destruct (lookup_lt_is_Some_2 ss k Hk) as [s Hs]. exists s.
  split; [|by rewrite take_drop_middle]. rewrite <- fmap_cons, <- fmap_app, take_drop_middle by done. done.
Qed.

Lemma insert_placed ss k s w x :
  (k < length ss)%nat -> ss = take k ss ++ s :: drop (S k) ss -> elem_ok x ->
  placed (encoded (take k ss)) (entry_of s) (encoded (drop (S k) ss)) w (elem_entry x) =
    encoded (match w with
     | LP_BEFORE => take k ss ++ elem_string x :: drop k ss
     | LP_AFTER => take (S k) ss ++ elem_string x :: drop (S k) ss
     | LP_REPLACE => take k ss ++ elem_string x :: drop (S k) ss
     end).
Proof.
  intros Hk Hs Hx. rewrite elem_entry_string by done.
  assert (Hd : drop k ss = s :: drop (S k) ss).
  { apply (drop_S ss s k). rewrite Hs. rewrite lookup_app_r; rewrite length_take_le by lia; [by rewrite Nat.sub_diag|done]. }
  assert (Htk : take (S k) ss = take k ss ++ [s]).
  { apply take_S_r. rewrite Hs. rewrite lookup_app_r; rewrite length_take_le by lia; [by rewrite Nat.sub_diag|done]. }
  destruct w; cbn [placed].
  - by rewrite Hd, fmap_app.
  - rewrite Htk, fmap_app, fmap_app, <- app_assoc. done.
  - by rewrite fmap_app.
Qed.

Lemma run_insert lp ss index w x :
  listpack lp (encoded ss) -> elem_ok x ->
  exists lp', run_lp_edit lp (LInsert index w x) = Some lp' /\ listpack lp' (encoded (spec_lp_edit ss (LInsert index w x))).
Proof.
  intros Hlp Hx. pose proof Hlp as (n & slack & -> & Ht & Hw & Hc). cbn [run_lp_edit spec_lp_edit].
  rewrite lpSeek_spec by done. cbn [mbind option_bind]. unfold seek_addr. rewrite length_fmap.
  destruct (resolve (length ss) index) as [k|] eqn:Er; [|by eexists]. pose proof (resolve_Some _ _ _ Er) as Hk.
  destruct (encoded_at ss k Hk) as (s & Ee & Es).
  rewrite <- fmap_take. rewrite Ee in Ht, Hw, Hc |- *.
  destruct (lpInsert_spec (encoded (take k ss)) (entry_of s) (encoded (drop (S k) ss)) n slack x w Hw Ht Hc Hx) as (r & Er' & Hi).
  rewrite (insert_placed ss k s w x Hk Es Hx) in Hi. rewrite <- Ee in *.
  destruct (keep_inserted _ _ _ _ _ Hlp Hi) as (lp' & Ek & Hlp'). exists lp'. split; [|exact Hlp'].
  rewrite <- Ek, <- Er'. by destruct w, x.
Qed.

Lemma run_delete lp ss index :
  listpack lp (encoded ss) ->
  exists lp', run_lp_edit lp (LDelete index) = Some lp' /\ listpack lp' (encoded (spec_lp_edit ss (LDelete index))).
Proof.
  intros Hlp. pose proof Hlp as (n & slack & -> & Ht & Hw & Hc). cbn [run_lp_edit spec_lp_edit].
  rewrite lpSeek_spec by done. cbn [mbind option_bind]. unfold seek_addr. rewrite length_fmap.
  destruct (resolve (length ss) index) as [k|] eqn:Er; [|by eexists]. pose proof (resolve_Some _ _ _ Er) as Hk.
  destruct (encoded_at ss k Hk) as (s & Ee & Es). rewrite <- fmap_take. rewrite Ee in Ht, Hw, Hc |- *.
  destruct (lpDelete_spec _ _ _ n slack Hw Ht Hc) as (n' & s' & E & Hc'). rewrite E. unfold keep. cbn [mbind option_bind].
  eexists. split; [done|]. rewrite fmap_app. exists n', s'. split; [done|].
  split; [|split; [|done]].
  - unfold total in *. rewrite off_app in *. cbn [body] in Ht. rewrite length_app in Ht. lia.
  - apply Forall_app in Hw as [? Hw']. inversion_clear Hw'. by apply Forall_app.
Qed.

Lemma run_delete_range lp ss index num :
  listpack lp (encoded ss) -> in_u 64 num ->
  exists lp', run_lp_edit lp (LDeleteRange index num) = Some lp' /\
    listpack lp' (encoded (spec_lp_edit ss (LDeleteRange index num))).
Proof.
  intros (n & slack & -> & Ht & Hw & Hc) Hnum. cbn [run_lp_edit spec_lp_edit].
  destruct (lpDeleteRange_spec (encoded ss) n slack index num Hw Ht Hc Hnum) as (n' & s' & -> & Hc').
  eexists. split; [done|]. unfold delete_range in *. rewrite length_fmap in *.
  destruct (resolve (length ss) index) as [k|] eqn:Er; [|by exists n', s'].
  rewrite fmap_app, fmap_take, fmap_drop. exists n', s'. split; [done|].
  assert (Hsub : encoded ss = take k (encoded ss) ++ take (Z.to_nat num) (drop k (encoded ss)) ++ drop (k + Z.to_nat num) (encoded ss)).
  { by rewrite <- drop_drop, take_drop, take_drop. }
  split; [|split; [|done]].
  - rewrite Hsub in Ht. unfold total in *. rewrite !off_app, !body_app, !length_app in *. lia.
  - rewrite Hsub in Hw. apply Forall_app in Hw as [? [_ ?]%Forall_app]. by apply Forall_app.
Qed.

Lemma run_lp_edit_spec lp ss c :
  listpack lp (encoded ss) -> edit_ok c ->
  exists lp', run_lp_edit lp c = Some lp' /\ listpack lp' (encoded (spec_lp_edit ss c)).
Proof.
  intros Hlp Hc. destruct c as [x|x|index w x|index|index num]; cbn [edit_ok] in Hc;
    eauto using run_insert, run_delete, run_delete_range;
    pose proof Hlp as (n & slack & Elp & Ht & Hw & Hcn); cbn [spec_lp_edit].
  - destruct (lpAppend_spec (encoded ss) n slack x Hw Ht Hcn Hc) as (r & E & Hi). rewrite <- Elp in E.
    rewrite elem_entry_string in Hi by done. change [entry_of (elem_string x)] with (encoded [elem_string x]) in Hi.
    rewrite <- fmap_app in Hi. destruct (keep_inserted _ _ _ _ _ Hlp Hi) as (lp' & Ek & Hlp'). exists lp'.
    split; [|done]. rewrite <- Ek, <- E. by destruct x.
  - destruct (lpPrepend_spec (encoded ss) n slack x Hw Ht Hcn Hc) as (r & E & Hi). rewrite <- Elp in E.
    rewrite elem_entry_string in Hi by done. rewrite <- fmap_cons in Hi.
    destruct (keep_inserted _ _ _ _ _ Hlp Hi) as (lp' & Ek & Hlp'). exists lp'.
    split; [|done]. rewrite <- Ek, <- E. by destruct x.
Qed.

Lemma run_lp_edits_spec cs : forall lp ss,
  listpack lp (encoded ss) -> Forall edit_ok cs ->
  exists lp', run_lp_edits lp cs = Some lp' /\ listpack lp' (encoded (fold_left spec_lp_edit cs ss)).
Proof.
  induction cs as [|c cs IH]; intros lp ss Hlp Hok; [by exists lp|]. inversion_clear Hok.
  cbn [run_lp_edits fold_left]. destruct (run_lp_edit_spec lp ss c) as (lp1 & -> & Hlp1); [done..|].
  cbn [mbind option_bind]. by apply IH.
Qed.

(** ** Reading *)

(** A client reads the element at an address as a string, with a buffer for integers. *)
Definition lp_read (lp : bytes) (p : Z) : option bytes :=
  g ← lpGet lp p (Some (replicate 21 0));
  match g with
  | GotStr ptr count => rd lp ptr (Z.to_nat count)
  | GotBuf buf count => rd buf 0 (Z.to_nat count)
  | GotInt _ => None
  end.

Lemma encode_str w s : encode (EStr w s) = take (Z.to_nat (hsize (EStr w s))) (encode (EStr w s)) ++ s /\
  Z.of_nat (length (encode (EStr w s))) = hsize (EStr w s) + Z.of_nat (length s).
Proof. destruct w; cbn [encode hsize length]; rewrite ?length_app, ?length_le_bytes; split; (done || lia). Qed.

Lemma int_range w v : wf_entry (EInt w v) -> in_s 64 v.
Proof. destruct w; cbn [wf_entry]; rewrite ?in_s13, ?in_s24; cint. Qed.

Lemma rd_entry_string pre w s post :
  rd (pre ++ encode (EStr w s) ++ post) (Z.of_nat (length pre) + hsize (EStr w s)) (length s) = Some s.
Proof.
  destruct (encode_str w s) as [E Hl]. set (h := take (Z.to_nat (hsize (EStr w s))) (encode (EStr w s))) in *.
  assert (Hh : Z.of_nat (length h) = hsize (EStr w s)).
  { apply (f_equal length) in E. rewrite length_app in E. lia. }
  rewrite E, <- app_assoc, app_assoc, <- Hh, <- Nat2Z.inj_add, <- length_app. apply rd_app.
Qed.

Lemma lp_read_spec a e b n slack :
  wf_entry e -> lp_read (lp_bytes_of (a ++ e :: b) n slack) (off a) = Some (logical e).
Proof.
  intros Hw. unfold lp_read, lpGet. destruct (lp_split_entry a e b n slack) as [-> <-].
  rewrite lpGetWithSize_spec by done. destruct e as [w v|w s]; cbn [got logical].
  - destruct (ll2string_dec (replicate 21 0) v (int_range w v Hw)) as (m & -> & Ht & _ & Hl); [by rewrite length_replicate|].
    cbn [mbind option_bind]. rewrite Nat2Z.id. unfold rd. rewrite decide_True by lia. by rewrite drop_0, Ht.
  - cbn [mbind option_bind]. rewrite Nat2Z.id. apply rd_entry_string.
Qed.

(** ** Searching *)

(** Whether an entry equals a string, as [lpFind] and [lpCompare] decide it. *)
Definition entry_eq (e : entry) (s : bytes) : bool :=
  match e with
  | EInt _ v => bool_decide (lpStringToInt64 s = Some v)
  | EStr _ t => bool_decide (t = s)
  end.

Lemma entry_eq_spec t s : entry_eq (entry_of t) s = bool_decide (t = s).
Proof.
  unfold entry_eq, entry_of. destruct (lpStringToInt64 t) as [v|] eqn:E; [|done].
  apply bool_decide_ext. split; [|by intros <-]. intros E'.
  apply lpStringToInt64_dec in E as [_ ->], E' as [_ ->]. done.
Qed.

Lemma lp_string_eq_spec pre w t post s :
  lp_string_eq (pre ++ encode (EStr w t) ++ post) (Z.of_nat (length pre) + hsize (EStr w t)) (Z.of_nat (length t)) s =
    Some (bool_decide (t = s)).
Proof.
  unfold lp_string_eq. destruct (Z.eqb_spec (Z.of_nat (length s)) (Z.of_nat (length t))) as [E|E].
  - replace (length s) with (length t) by lia. rewrite rd_entry_string. done.
  - rewrite bool_decide_false; [done|]. intros ->. lia.
Qed.

Lemma lpCompare_spec a e b n slack s :
  wf_entry e -> lpCompare (lp_bytes_of (a ++ e :: b) n slack) (off a) s = Some (entry_eq e s).
Proof.
  intros Hw. unfold lpCompare, lpGet. destruct (lp_split_entry a e b n slack) as [-> <-].
  rewrite getb_at0. destruct (encode_head e Hw) as (c & l & Ee & _ & Hc). rewrite Ee at 1. cbn [app].
  rewrite getb0. cbn [mbind option_bind]. unfold LP_EOF. rewrite (proj2 (Z.eqb_neq _ _) Hc).
  rewrite lpGetWithSize_spec by done. destruct e as [w v|w t]; cbn [got mbind option_bind entry_eq].
  - f_equal. destruct (lpStringToInt64 s) as [v'|]; [|by rewrite bool_decide_false].
    destruct (Z.eqb_spec v v') as [->|]; [by rewrite bool_decide_true|rewrite bool_decide_false; congruence].
  - apply lp_string_eq_spec.
Qed.

(** The first entry equal to [s] among those at multiples of [skip+1]. *)
Fixpoint find_addr (skip skipcnt : nat) (s : bytes) (a b : list entry) : option Z :=
  match b with
  | [] => None
  | e :: b' =>
      match skipcnt with
      | O => if entry_eq e s then Some (off a) else find_addr skip skip s (a ++ [e]) b'
      | S skipcnt' => find_addr skip skipcnt' s (a ++ [e]) b'
      end
  end.

(** What the loop remembers of the conversion of [s]. *)
Definition venc_ok (s : bytes) (vencoding vll : Z) : Prop :=
  vencoding = 0 \/ (vencoding = 1 /\ lpStringToInt64 s = Some vll) \/ (vencoding = UCHAR_MAX /\ lpStringToInt64 s = None).

Lemma lpStringToInt64_short s v : lpStringToInt64 s = Some v -> 0 < Z.of_nat (length s) < 32.
Proof.
  unfold lpStringToInt64. destruct (_ || _) eqn:E; [done|]. intros _. apply orb_false_iff in E as [E1%Z.eqb_neq E2%Z.leb_gt]. lia.
Qed.

Lemma venc_step s vencoding vll :
  venc_ok s vencoding vll ->
  exists venc' vll', (if vencoding =? 0 then
      if (32 <=? Z.of_nat (length s)) || (Z.of_nat (length s) =? 0) then (UCHAR_MAX, vll)
      else match lpStringToInt64 s with Some v => (1, v) | None => (UCHAR_MAX, vll) end
    else (vencoding, vll)) = (venc', vll') /\ venc_ok s venc' vll' /\
    forall v, negb (venc' =? UCHAR_MAX) && (v =? vll') = bool_decide (lpStringToInt64 s = Some v).
Proof.
  intros Hv. assert (Hdone : forall venc' vll', (venc' = 1 /\ lpStringToInt64 s = Some vll') \/
      (venc' = UCHAR_MAX /\ lpStringToInt64 s = None) ->
    venc_ok s venc' vll' /\ forall v, negb (venc' =? UCHAR_MAX) && (v =? vll') = bool_decide (lpStringToInt64 s = Some v)).
  { intros venc' vll' Hc. split; [by right|]. intros v. destruct Hc as [[-> ->]|[-> ->]]; cbn; [|by rewrite bool_decide_false].
    destruct (Z.eqb_spec v vll') as [->|]; [by rewrite bool_decide_true|rewrite bool_decide_false; congruence]. }
  destruct Hv as [->|Hv].
  - cbn [Z.eqb]. destruct (lpStringToInt64 s) as [v|] eqn:E.
    + pose proof (lpStringToInt64_short s v E). rewrite (proj2 (Z.leb_gt 32 _)), (proj2 (Z.eqb_neq _ 0)) by lia. cbn [orb].
      exists 1, v. split; [done|]. apply Hdone. by left.
    + exists UCHAR_MAX, vll. split; [by destruct (_ || _)|]. apply Hdone. by right.
  - exists vencoding, vll. rewrite (proj2 (Z.eqb_neq vencoding 0)) by (unfold UCHAR_MAX in Hv; lia).
    split; [done|]. by apply Hdone.
Qed.

Lemma find_next n slack a b (k : option (option Z)) :
  Forall wf_entry b -> total (a ++ b) < 2 ^ 32 ->
  (_ ← (if total (a ++ b) <=? off a + 8 then lpAssertValidEntry (lp_bytes_of (a ++ b) n slack) (total (a ++ b)) (off a)
        else if (LP_HDR_SIZE <=? off a) && (off a <? total (a ++ b)) then Some tt else None);
   c ← getb (lp_bytes_of (a ++ b) n slack) (off a);
   if c =? LP_EOF then Some None else k) = match b with [] => Some None | _ => k end.
Proof.
  intros Hw Ht. rewrite valid_position by done. pose proof (off_ge a). pose proof (total_split a b).
  rewrite (proj2 (Z.leb_le LP_HDR_SIZE _)), (proj2 (Z.ltb_lt (off a) _)) by lia. cbn [andb].
  destruct (total (a ++ b) <=? off a + 8); cbn [mbind option_bind];
    destruct (byte_at n slack a b Hw) as (x & -> & Hx); cbn [mbind option_bind]; rewrite Hx; by destruct b.
Qed.

Lemma lpFind_loop_spec n slack s (skip : nat) b : forall fuel a (skipcnt : nat) vencoding vll es,
  Forall wf_entry b -> total (a ++ b) < 2 ^ 32 -> (length b <= fuel)%nat -> b <> [] -> venc_ok s vencoding vll ->
  lpFind_loop fuel (lp_bytes_of (a ++ b) n slack) (total (a ++ b)) s (Z.of_nat skip) (off a) (Z.of_nat skipcnt)
    vencoding vll es = Some (find_addr skip skipcnt s a b).
Proof.
  induction b as [|e b IH]; intros fuel a skipcnt vencoding vll es Hw Ht Hf Hne Hv; [done|].
  destruct fuel as [|fuel]; [cbn in Hf; lia|]. inversion_clear Hw as [|? ? He Hb]. cbn [lpFind_loop find_addr].
  assert (Hstep : forall skc venc vl es', venc_ok s venc vl ->
    (_ ← (if total (a ++ e :: b) <=? off (a ++ [e]) + 8
          then lpAssertValidEntry (lp_bytes_of (a ++ e :: b) n slack) (total (a ++ e :: b)) (off (a ++ [e]))
          else if (LP_HDR_SIZE <=? off (a ++ [e])) && (off (a ++ [e]) <? total (a ++ e :: b)) then Some tt else None);
     c ← getb (lp_bytes_of (a ++ e :: b) n slack) (off (a ++ [e]));
     if c =? LP_EOF then Some None
     else lpFind_loop fuel (lp_bytes_of (a ++ e :: b) n slack) (total (a ++ e :: b)) s (Z.of_nat skip)
            (off (a ++ [e])) (Z.of_nat skc) venc vl es') = Some (find_addr skip skc s (a ++ [e]) b)).
  { intros skc venc vl es' Hv'. rewrite (snoc_app a e b) in Ht |- *. rewrite find_next by done.
    destruct b as [|e' b]; [done|]. apply IH; try done. cbn in Hf |- *. lia. }
  destruct skipcnt as [|skc].
  - rewrite Z.eqb_refl. pose proof (off_snoc a e) as Hoff.
    assert (Hget : lpGetWithSize (lp_bytes_of (a ++ e :: b) n slack) (off a) None = got (off a) e None (Some (fsize e))).
    { destruct (lp_split_entry a e b n slack) as [-> <-]. by apply lpGetWithSize_spec. }
    rewrite Hget. destruct e as [w v|w t]; cbn [got mbind option_bind from_option id]; cbv zeta.
    + destruct (venc_step s vencoding vll Hv) as (venc' & vll' & -> & Hv' & Heq). rewrite Heq. cbn [entry_eq].
      case_bool_decide; [done|]. rewrite <- Hoff. by apply Hstep.
    + pose proof (off_ge a). pose proof (total_split a (EStr w t :: b)) as Htot. cbn [body] in Htot.
      rewrite length_app in Htot. fold (fsize (EStr w t)) in Htot.
      assert (Hlt : (off a + fsize (EStr w t) <? total (a ++ EStr w t :: b)) = true)
        by (apply Z.ltb_lt; unfold fsize in *; lia).
      rewrite (proj2 (Z.leb_le LP_HDR_SIZE (off a))), Hlt by lia. cbn [andb].
      assert (Hs : lp_string_eq (lp_bytes_of (a ++ EStr w t :: b) n slack) (off a + hsize (EStr w t)) (Z.of_nat (length t)) s = Some (bool_decide (t = s))).
      { destruct (lp_split_entry a (EStr w t) b n slack) as [-> <-]. apply lp_string_eq_spec. }
      rewrite Hs. cbn [mbind option_bind entry_eq]. case_bool_decide; [done|].
      specialize (Hstep skip vencoding vll (fsize (EStr w t)) Hv). rewrite Hoff, Hlt in Hstep. exact Hstep.
  - rewrite (proj2 (Z.eqb_neq _ 0)) by lia. rewrite lpSkip_spec by done. cbn [mbind option_bind].
    replace (Z.of_nat (S skc) - 1) with (Z.of_nat skc) by lia. by apply Hstep.
Qed.

Lemma lpFind_spec es n slack s skip :
  Forall wf_entry es -> total es < 2 ^ 32 -> es <> [] -> 0 <= skip ->
  lpFind (lp_bytes_of es n slack) LP_HDR_SIZE s skip = Some (find_addr (Z.to_nat skip) 0 s [] es).
Proof.
  intros Hw Ht Hne Hs. unfold lpFind. rewrite lpBytes_spec by done. cbn [mbind option_bind].
  destruct (lp_length_le es n slack Hw Ht) as [Hf _].
  pose proof (lpFind_loop_spec n slack s (Z.to_nat skip) es (S (length (lp_bytes_of es n slack))) [] 0 0 0 123456789) as E.
  rewrite Z2Nat.id in E by done. cbn [app] in E. apply E; try done; [lia|by left].
Qed.
End edits.

(** ** Properties *)

Section properties.
Context `{Allocator}.

(** Seek and read; [Some None] when the index is out of range. *)
Definition read_at (lp : bytes) (index : Z) : option (option bytes) :=
  p ← lpSeek lp index;
  match p with Some p => s ← lp_read lp p; Some (Some s) | None => Some None end.

Lemma read_at_spec lp ss index :
  listpack lp (encoded ss) -> read_at lp index = Some (k ← resolve (length ss) index; ss !! k).
Proof.
  intros (n & slack & -> & Ht & Hw & Hc). unfold read_at. rewrite lpSeek_spec by done. cbn [mbind option_bind].
  unfold seek_addr. rewrite length_fmap. destruct (resolve (length ss) index) as [k|] eqn:E; [|done].
  pose proof (resolve_Some _ _ _ E) as Hk. destruct (encoded_at ss k Hk) as (s & Ee & Es).
  rewrite <- fmap_take. rewrite Ee in Hw |- *. rewrite lp_read_spec.
  - cbn [mbind option_bind]. rewrite logical_entry_of, Es, lookup_app_r; rewrite length_take_le by lia; [|done].
    by rewrite Nat.sub_diag.
  - apply Forall_app in Hw as [_ Hw]. by inversion_clear Hw.
Qed.

(** C14: any sequence of appends, prepends, insertions, replacements, deletions and range
    deletions on a new listpack, with string or integer elements and positive or negative
    positions, succeeds without any invalid access or failed assertion, and the listpack
    then holds exactly the list of strings of the same edits on a list: its length is right,
    and every position reads back the very string inserted, although strings that look like
    integers are stored as integers of six different widths.  An insertion that would exceed
    the 32 bit total size is refused and changes nothing. *)
Theorem listpack_refines_list capacity (cs : list lp_edit) :
  Forall edit_ok cs ->
  let ss := fold_left spec_lp_edit cs [] in
  exists lp, (lp ← lpNew capacity; run_lp_edits lp cs) = Some lp /\ listpack lp (encoded ss) /\
    (exists lp', lpLength lp = Some (Z.of_nat (length ss), lp')) /\
    forall index, read_at lp index = Some (k ← resolve (length ss) index; ss !! k).
Proof.
  intros Hok ss. destruct (lpNew_spec capacity) as (slack & ->). cbn [mbind option_bind].
  destruct (run_lp_edits_spec cs (lp_bytes_of [] 0 slack) []) as (lp & E & Hlp); [|done|].
  { by apply (listpack_encoded [] 0 slack); [|split; [|right]]. }
  exists lp. split; [done|]. split; [done|]. split; [|intros; by apply read_at_spec].
  destruct Hlp as (n & s & -> & Ht & Hw & Hc). destruct (lpLength_spec _ n s Hw Ht Hc) as (n' & _ & E' & _).
  eexists. rewrite E', length_fmap. done.
Qed.

(** Merging appends the second list of strings to the first, whichever of the two
    allocations is extended; the assertion on the size holds below 2^32-1 bytes. *)
Theorem lpMerge_correct lp1 lp2 ss1 ss2 :
  listpack lp1 (encoded ss1) -> listpack lp2 (encoded ss2) -> total (encoded (ss1 ++ ss2)) < UINT32_MAX ->
  exists lp, lpMerge lp1 lp2 = Some lp /\ listpack lp (encoded (ss1 ++ ss2)).
Proof.
  intros (n & s & -> & _ & Hw1 & Hc1) (m & t & -> & _ & Hw2 & Hc2) Ht. rewrite fmap_app in Ht.
  destruct (lpMerge_spec _ _ n m s t Hw1 Hw2 Ht Hc1 Hc2) as (k & u & -> & Hk). eexists. split; [done|].
  rewrite <- fmap_app in *. apply listpack_encoded; [unfold UINT32_MAX in Ht; cint|done].
Qed.

Lemma find_addr_spec (skip : nat) s (bs : list bytes) : forall a (skipcnt : nat),
  match find_addr skip skipcnt s (encoded a) (encoded bs) with
  | Some p => exists i, p = off (encoded (a ++ take i bs)) /\ bs !! i = Some s /\
      (i >= skipcnt /\ Nat.divide (S skip) (i - skipcnt))%nat /\
      forall j, (j < i)%nat -> (j >= skipcnt /\ Nat.divide (S skip) (j - skipcnt))%nat -> bs !! j <> Some s
  | None => forall j, (j >= skipcnt /\ Nat.divide (S skip) (j - skipcnt))%nat -> bs !! j <> Some s
  end.
Proof.
  induction bs as [|t bs IH]; intros a skipcnt; [done|]. rewrite fmap_cons. cbn [find_addr].
  assert (Hsn : encoded a ++ [entry_of t] = encoded (a ++ [t])) by (by rewrite fmap_app).
  assert (Hshift : forall sk, (skipcnt = O /\ sk = skip) \/ skipcnt = S sk ->
    forall j, (S j >= skipcnt /\ Nat.divide (S skip) (S j - skipcnt) <-> j >= sk /\ Nat.divide (S skip) (j - sk))%nat).
  { intros sk [[-> ->]| ->] j; cbn [Nat.sub]; [|split; intros [? Hd]; (split; [lia|done])].
    split.
    - intros [_ [q Hq]]. destruct q as [|q]; [lia|]. split; [lia|]. exists q. lia.
    - intros [Hj [q Hq]]. split; [lia|]. exists (S q). lia. }
  assert (Hrec : forall sk, (skipcnt = O /\ sk = skip /\ t <> s) \/ skipcnt = S sk ->
    match find_addr skip sk s (encoded a ++ [entry_of t]) (encoded bs) with
    | Some p => exists i, p = off (encoded (a ++ take i (t :: bs))) /\ (t :: bs) !! i = Some s /\
        (i >= skipcnt /\ Nat.divide (S skip) (i - skipcnt))%nat /\
        forall j, (j < i)%nat -> (j >= skipcnt /\ Nat.divide (S skip) (j - skipcnt))%nat -> (t :: bs) !! j <> Some s
    | None => forall j, (j >= skipcnt /\ Nat.divide (S skip) (j - skipcnt))%nat -> (t :: bs) !! j <> Some s
    end).
  { intros sk Hsk. specialize (Hshift sk ltac:(tauto)). rewrite Hsn. specialize (IH (a ++ [t]) sk).
    assert (H0 : (O >= skipcnt /\ Nat.divide (S skip) (O - skipcnt))%nat -> (t :: bs) !! O <> Some s).
    { intros [Hz _]. destruct Hsk as [(_ & _ & Hne)| ->]; [cbn; congruence|lia]. }
    case_match.
    - destruct IH as (i & -> & Hi & Hd & Hmin). exists (S i). cbn [take]. rewrite <- app_assoc.
      split_and!; try done; [by apply Hshift..|]. intros [|j] Hj Hdj; [by apply H0|]. apply Hmin; [lia|by apply Hshift].
    - intros [|j] Hdj; [by apply H0|]. apply IH. by apply Hshift. }
  destruct skipcnt as [|skc]; [|by apply Hrec; right].
  rewrite entry_eq_spec. case_bool_decide as Et; [|apply Hrec; by left].
  exists O. cbn [take lookup list_lookup Nat.sub]. rewrite app_nil_r. split; [done|]. split; [by subst|].
  split; [split; [lia|by exists O]|]. intros j; lia.
Qed.

(** [lpFind] from the first element returns the address of the first element equal to
    the searched string among those at multiples of [skip+1] (the fields of a hash for
    [skip] = 1), and NULL exactly when there is none; the elements in between are never
    compared. *)
Theorem lpFind_correct lp ss s skip :
  listpack lp (encoded ss) -> ss <> [] -> 0 <= skip ->
  exists r, lpFind lp LP_HDR_SIZE s skip = Some r /\
    match r with
    | Some p => exists i, p = off (encoded (take i ss)) /\ ss !! i = Some s /\ Nat.divide (S (Z.to_nat skip)) i /\
        forall j, (j < i)%nat -> Nat.divide (S (Z.to_nat skip)) j -> ss !! j <> Some s
    | None => forall j, Nat.divide (S (Z.to_nat skip)) j -> ss !! j <> Some s
    end.
Proof.
  intros (n & slack & -> & Ht & Hw & Hc) Hne Hs. rewrite lpFind_spec by (done || by destruct ss).
  eexists. split; [done|]. pose proof (find_addr_spec (Z.to_nat skip) s ss [] 0) as Hf.
  change (encoded []) with (@nil entry) in Hf. case_match.
  - destruct Hf as (i & -> & Hi & [_ Hd] & Hmin). rewrite Nat.sub_0_r in Hd. exists i. split_and!; try done.
    intros j Hj Hdj. apply Hmin; [done|]. rewrite Nat.sub_0_r. split; [lia|done].
  - intros j Hd. apply Hf. rewrite Nat.sub_0_r. split; [lia|done].
Qed.
End properties.

(** C31: validation of an untrusted payload of any bytes never reads outside it, whatever
    the callback; and after a successful deep validation the payload is a header with the
    right total size and a right or unknown count, well-formed entries and the terminator,
    so that from every entry [lpNext], [lpPrev] and [lpGet] succeed (no assertion fails) and
    move to, or read, exactly the neighbouring entry. *)
Theorem lpValidateIntegrity_sound {U} lp deep (cb : option (U -> Z -> Z -> U * bool)) u :
  Forall is_byte lp ->
  exists b, lpValidateIntegrity lp (Z.of_nat (length lp)) deep cb u = Some b /\
    (b = true -> deep = true -> exists its, validated lp its /\
       forall x e bl y, its = x ++ (e, bl) :: y ->
         lpNext lp (pos x) = Some (match y with [] => None | _ => Some (pos x + fsize e) end) /\
         lpPrev lp (pos x + fsize e) = Some (Some (pos x)) /\
         lpGetWithSize lp (pos x) None = got (pos x) e None (Some (fsize e))).
Proof.
  intros Hb. destruct (lpValidateIntegrity_spec lp deep cb u Hb) as (b & E & Hv). exists b. split; [done|].
  intros Hb' Hd. destruct (Hv Hb' Hd) as (its & Hits). exists its. split; [done|]. intros x e bl y Hx.
  by apply (validated_walk lp its x e bl y).
Qed.

(** Every listpack that the operations build is accepted by the deep validation. *)
Theorem lpValidateIntegrity_accepts ss n deep :
  total (encoded ss) < 2 ^ 32 -> count_ok (encoded ss) n ->
  lpValidateIntegrity (U := unit) (lp_bytes_of (encoded ss) n []) (total (encoded ss)) deep None tt = Some true.
Proof. intros Ht Hc. apply lpValidateIntegrity_complete; [by apply wf_encoded|done|done]. Qed.

(** ** Examples *)

(** An allocator that gives exactly what is asked. *)
#[export] Program Instance exact_allocator : Allocator := {| junk := 0; usable n := n |}.
Next Obligation. done. Qed.

(** A payload of one empty string whose one byte length field has its continuation bit
    set: the decoder runs on into the entry and into the header, where it finds zeros. *)
Definition overlong_payload : bytes := [9; 0; 0; 0; 1; 0; 128; 129; 255].

(** C37: deep validation accepts a payload whose length field continues outside its own
    byte, because decoding it happens to give the right value; but pushing one element in
    front changes the bytes it runs into, and the next backward step (here [lpLast], as for
    RPOP or a reverse range) fails its assertion: data that passed the validation crashes
    the server. *)
Theorem validated_payload_crashes :
  lpValidateIntegrity (U := unit) overlong_payload 9 true None tt = Some true /\
  exists lp p, lpPrepend overlong_payload (str "1") = Some (Some (lp, p)) /\ lpLast lp = None /\
    lpValidateIntegrity (U := unit) lp (Z.of_nat (length lp)) true None tt = Some false.
Proof.
  split; [by_compute|]. exists [11; 0; 0; 0; 2; 0; 1; 1; 128; 129; 255], (Some 6).
  split; [by_compute|]. split; by_compute.
Qed.

#[export] Instance elem_ok_dec x : Decision (elem_ok x).
Proof. destruct x; apply _. Defined.
#[export] Instance edit_ok_dec c : Decision (edit_ok c).
Proof. destruct c; apply _. Defined.
#[export] Instance count_ok_dec es n : Decision (count_ok es n).
Proof. unfold count_ok. apply _. Defined.

Definition demo_edits : list lp_edit :=
  [LAppend (ElemStr (str "name")); LAppend (ElemStr (str "-4096")); LPrepend (ElemInt 127);
   LInsert (-1) LP_AFTER (ElemStr (str "007")); LInsert 1 LP_REPLACE (ElemInt (-9223372036854775808));
   LDelete 0; LDeleteRange 2 10].

Lemma listpack_refines_list_witness :
  exists lp, (lp ← lpNew 0; run_lp_edits lp demo_edits) = Some lp /\
    read_at lp 0 = Some (Some (str "-9223372036854775808")) /\ read_at lp (-1) = Some (Some (str "-4096")) /\
    read_at lp 2 = Some None.
Proof.
  destruct (listpack_refines_list 0 demo_edits) as (lp & E & _ & _ & Hr); [by_compute|].
  exists lp. rewrite !Hr. split; [exact E|]. split; [by_compute|]. split; by_compute.
Defined.

Definition demo_strings : list bytes := [str "a"; str "12"; str "b"; str "12"; str "12"; str "x"].
Definition demo_listpack_bytes : bytes := lp_bytes_of (encoded demo_strings) 6 [7].

Lemma demo_listpack_ok : listpack demo_listpack_bytes (encoded demo_strings).
Proof. apply listpack_encoded; by_compute. Qed.

Lemma lpMerge_correct_witness :
  exists lp, lpMerge demo_listpack_bytes demo_listpack_bytes = Some lp /\
    listpack lp (encoded (demo_strings ++ demo_strings)).
Proof.
  exact (lpMerge_correct demo_listpack_bytes demo_listpack_bytes demo_strings demo_strings
    demo_listpack_ok demo_listpack_ok ltac:(by_compute)).
Defined.

(** "12" is skipped as a value at positions 1 and 3 and found as a field at position 4. *)
Lemma lpFind_correct_witness :
  lpFind demo_listpack_bytes LP_HDR_SIZE (str "12") 1 = Some (Some 16) /\
  exists i, 16 = off (encoded (take i demo_strings)) /\ demo_strings !! i = Some (str "12").
Proof.
  destruct (lpFind_correct demo_listpack_bytes demo_strings (str "12") 1 demo_listpack_ok)
    as (r & E & Hr); [done|by_compute|].
  assert (E' : lpFind demo_listpack_bytes LP_HDR_SIZE (str "12") 1 = Some (Some 16)) by by_compute.
  rewrite E' in E. injection E as <-. split; [exact E'|]. destruct Hr as (i & Hp & Hi & _). eauto.
Defined.

Lemma lpValidateIntegrity_sound_witness :
  exists b, lpValidateIntegrity (U := unit) overlong_payload 9 true None tt = Some b.
Proof.
  destruct (lpValidateIntegrity_sound (U := unit) overlong_payload true None tt ltac:(by_compute)) as (b & E & _).
  exists b. exact E.
Defined.

Lemma lpValidateIntegrity_accepts_witness :
  lpValidateIntegrity (U := unit) (lp_bytes_of (encoded demo_strings) 6 []) (total (encoded demo_strings)) true None tt = Some true.
Proof. apply (lpValidateIntegrity_accepts demo_strings 6 true); by_compute. Defined.
