(* ===== verification/SdsArgs.v ===== *)
(** Quoted string notation: [sdscatrepr], [sdsneedsrepr] and [sdssplitargs] of [sds.c].

    [sdssplitargs] splits a line into arguments: the inline protocol, the
    configuration file, the cluster and the AOF manifests are read with it.  The
    line is a C string: the list [p] holds the bytes from the pointer on, and the
    character under the pointer is 0 at the end of the list. *)

From S2P Require Import Prelude Util.

Local Open Scope string_scope.
Local Open Scope list_scope.
Local Open Scope Z_scope.

(** ** The definitions of [sds.c] *)

(** [isprint] in the C locale. *)
Definition isprint (c : Z) : bool := (32 <=? c) && (c <=? 126).

(** [isspace] on a byte is [Util.isspace].  The digits of ["%02x"]. *)
Definition hex_char (d : Z) : Z := if d <? 10 then 48 + d else 87 + d.

(** The output of [sdscatrepr] for one character. *)
Definition repr_char (c : Z) : bytes :=
  if (c =? 92) || (c =? 34) then [92; c]
  else if c =? 10 then str "\n"
  else if c =? 13 then str "\r"
  else if c =? 9 then str "\t"
  else if c =? 7 then str "\a"
  else if c =? 8 then str "\b"
  else if isprint c then [c]
  else str "\x" ++ [hex_char (c / 16); hex_char (c mod 16)].

Fixpoint repr_loop (s p : bytes) : bytes :=
  match p with
  | [] => s
  | c :: p' => repr_loop (s ++ repr_char c) p'
  end.

Definition sdscatrepr (s p : bytes) : bytes := repr_loop (s ++ [34]) p ++ [34].

Fixpoint sdsneedsrepr (p : bytes) : bool :=
  match p with
  | [] => false
  | c :: p' =>
      if (c =? 92) || (c =? 34) || (c =? 10) || (c =? 13) || (c =? 9) || (c =? 7) ||
         (c =? 8) || negb (isprint c) || isspace c
      then true else sdsneedsrepr p'
  end.

Definition is_hex_digit (c : Z) : bool :=
  ((48 <=? c) && (c <=? 57)) || ((97 <=? c) && (c <=? 102)) || ((65 <=? c) && (c <=? 70)).

Definition hex_digit_to_int (c : Z) : Z :=
  if (48 <=? c) && (c <=? 57) then c - 48
  else if (97 <=? c) && (c <=? 102) then c - 87
  else if (65 <=? c) && (c <=? 70) then c - 55
  else 0.

(** [p[k]]. *)
Definition at_ (p : bytes) (k : nat) : Z := nth k p 0.

(** [p++]. *)
Definition next (p : bytes) : bytes := match p with [] => p | _ :: p' => p' end.

Definition unescape (c : Z) : Z :=
  if c =? 110 then 10
  else if c =? 114 then 13
  else if c =? 116 then 9
  else if c =? 98 then 8
  else if c =? 97 then 7
  else c.

(** The loop that reads one token; [None] is [goto err]. *)
Fixpoint get_token (inq insq : bool) (p current : bytes) {struct p} : option (bytes * bytes) :=
  match p with
  | [] => if inq || insq then None else Some (current, p)
  | c :: p1 =>
      if inq then
        if (c =? 92) && (at_ p1 0 =? 120) && is_hex_digit (at_ p1 1) && is_hex_digit (at_ p1 2) then
          get_token inq insq (next (next (next p1)))
            (current ++ [hex_digit_to_int (at_ p1 1) * 16 + hex_digit_to_int (at_ p1 2)])
        else if (c =? 92) && negb (at_ p1 0 =? 0) then
          get_token inq insq (next p1) (current ++ [unescape (at_ p1 0)])
        else if c =? 34 then
          if negb (at_ p1 0 =? 0) && negb (isspace (at_ p1 0)) then None else Some (current, p1)
        else if c =? 0 then None
        else get_token inq insq p1 (current ++ [c])
      else if insq then
        if (c =? 92) && (at_ p1 0 =? 39) then get_token inq insq (next p1) (current ++ [39])
        else if c =? 39 then
          if negb (at_ p1 0 =? 0) && negb (isspace (at_ p1 0)) then None else Some (current, p1)
        else if c =? 0 then None
        else get_token inq insq p1 (current ++ [c])
      else if c =? 0 then Some (current, p)
      else if (c =? 32) || (c =? 10) || (c =? 13) || (c =? 9) then Some (current, p1)
      else if c =? 34 then get_token true insq p1 current
      else if c =? 39 then get_token inq true p1 current
      else get_token inq insq p1 (current ++ [c])
  end.

(** Skipping blanks; the terminating zero is not a space. *)
Fixpoint skip_blanks (p : bytes) : bytes :=
  match p with
  | [] => p
  | c :: p' => if isspace c then skip_blanks p' else p
  end.

(** The outer loop.  A token consumes at least one character, so the length of
    the line is enough fuel ([splitargs_loop_eq]). *)
Fixpoint splitargs_loop (fuel : nat) (p : bytes) (vector : list bytes) : option (list bytes) :=
  match fuel with
  | O => None
  | S fuel' =>
      let p := skip_blanks p in
      if at_ p 0 =? 0 then Some vector
      else
        '(current, p) ← get_token false false p [];
        splitargs_loop fuel' p (vector ++ [current])
  end.

Definition sdssplitargs (line : bytes) : option (list bytes) :=
  splitargs_loop (S (length line)) line [].

(** [foo "a b\x41" 'it\'s'] *)
Example splitargs_quotes :
  sdssplitargs (str "foo " ++ [34] ++ str "a b\x41" ++ [34] ++ str "  'it\'s'") =
  Some [str "foo"; str "a bA"; str "it's"].
Proof. reflexivity. Qed.
Example splitargs_unbalanced : sdssplitargs (str "it's") = None.
Proof. reflexivity. Qed.
Example splitargs_glued : sdssplitargs ([34] ++ str "foo" ++ [34] ++ str "bar") = None.
Proof. reflexivity. Qed.

(** ** Termination *)

Lemma length_next p : (length (next p) <= length p)%nat.
Proof. destruct p; simpl; lia. Qed.

Lemma get_token_length n : forall inq insq p cur t p',
  (length p <= n)%nat -> get_token inq insq p cur = Some (t, p') -> (length p' <= length p)%nat.
Proof.
  induction n as [|n IH]; intros inq insq p cur t p' Hn; (destruct p as [|c p1]; cbn [get_token];
    [destruct (inq || insq); [done|intros [= _ <-]; done]|]); cbn [length] in *; [lia|].
  pose proof (length_next p1). pose proof (length_next (next p1)).
  pose proof (length_next (next (next p1))).
  repeat case_match; intros E; try done;
    solve [ apply IH in E; lia | injection E as _ <-; cbn [length]; lia ].
Qed.

Lemma skip_blanks_length p : (length (skip_blanks p) <= length p)%nat.
Proof. induction p as [|c p IH]; cbn; [done|]. case_match; simpl; lia. Qed.

Lemma skip_blanks_head p c p' : skip_blanks p = c :: p' -> isspace c = false.
Proof. induction p as [|d p IH]; cbn; [done|]. destruct (isspace d) eqn:E; [done|]. by intros [= <- _]. Qed.

(** A token that starts at a non blank character consumes it. *)
Lemma get_token_consumes p cur t p' c p1 :
  p = c :: p1 -> c <> 0 -> get_token false false p cur = Some (t, p') -> (length p' < length p)%nat.
Proof.
  intros -> Hc. cbn [get_token]. rewrite (proj2 (Z.eqb_neq c 0)) by done.
  repeat case_match; intros E; try (apply get_token_length with (n := length p1) in E; [|done]);
    try (injection E as _ <-); cbn [length]; lia.
Qed.

Lemma splitargs_loop_eq fuel fuel' p v :
  (length p < fuel)%nat -> (length p < fuel')%nat ->
  splitargs_loop fuel p v = splitargs_loop fuel' p v.
Proof.
  revert fuel' p v. induction fuel as [|fuel IH]; intros [|fuel'] p v H H'; try lia.
  cbn [splitargs_loop]. destruct (at_ (skip_blanks p) 0 =? 0) eqn:E0; [done|].
  destruct (get_token _ _ _ _) as [[t p']|] eqn:E; [|done]. cbn [mbind option_bind].
  pose proof (skip_blanks_length p).
  destruct (skip_blanks p) as [|c p1] eqn:Es; [done|].
  apply (get_token_consumes _ _ _ _ c p1) in E; [|done|by apply Z.eqb_neq in E0].
  apply IH; lia.
Qed.

(** One turn of the outer loop. *)
Lemma splitargs_token p t p' v fuel :
  (length p < fuel)%nat -> skip_blanks p = p -> at_ p 0 <> 0 ->
  get_token false false p [] = Some (t, p') ->
  splitargs_loop fuel p v = splitargs_loop (S (length p')) p' (v ++ [t]).
Proof.
  intros Hf Hs H0 Ht. destruct fuel as [|fuel]; [lia|].
  assert (Hk : (length p' < S (length p'))%nat) by lia. revert Hk. generalize (S (length p')) as k.
  intros k Hk. cbn [splitargs_loop]. rewrite Hs.
  rewrite (proj2 (Z.eqb_neq _ 0)) by done. rewrite Ht. cbn [mbind option_bind].
  destruct p as [|c p1]; [done|].
  pose proof (get_token_consumes _ _ _ _ c p1 eq_refl H0 Ht).
  apply splitargs_loop_eq; lia.
Qed.

(** ** Quoted and plain tokens *)

Lemma repr_loop_eq p : forall s, repr_loop s p = s ++ (p ≫= repr_char).
Proof.
  induction p as [|c p IH]; intros s; cbn [repr_loop mbind list_bind]; [by rewrite app_nil_r|].
  by rewrite IH, <- app_assoc.
Qed.

Lemma sdscatrepr_eq s p : sdscatrepr s p = s ++ [34] ++ (p ≫= repr_char) ++ [34].
Proof. unfold sdscatrepr. by rewrite repr_loop_eq, <- !app_assoc. Qed.

Lemma hex_char_ok d :
  0 <= d < 16 -> is_hex_digit (hex_char d) = true /\ hex_digit_to_int (hex_char d) = d.
Proof.
  intros Hd. unfold is_hex_digit, hex_digit_to_int, hex_char.
  destruct (Z.ltb_spec d 10); split; repeat case_match; lia.
Qed.

(** Reading back the notation of one character. *)
Lemma get_token_repr_char c insq rest cur :
  is_byte c ->
  get_token true insq (repr_char c ++ rest) cur = get_token true insq rest (cur ++ [c]).
Proof.
  intros Hb. unfold repr_char.
  destruct (Z.eqb_spec c 92) as [->|]; [done|]. destruct (Z.eqb_spec c 34) as [->|]; [done|].
  destruct (Z.eqb_spec c 10) as [->|]; [done|]. destruct (Z.eqb_spec c 13) as [->|]; [done|].
  destruct (Z.eqb_spec c 9) as [->|]; [done|]. destruct (Z.eqb_spec c 7) as [->|]; [done|].
  destruct (Z.eqb_spec c 8) as [->|]; [done|]. cbn [orb].
  destruct (isprint c) eqn:Hp.
  - cbn [app get_token]. rewrite !(proj2 (Z.eqb_neq c _)) by (unfold isprint in Hp; lia). done.
  - change (str "\x" ++ [hex_char (c / 16); hex_char (c mod 16)])
      with [92; 120; hex_char (c / 16); hex_char (c mod 16)].
    assert (0 <= c / 16 < 16 /\ 0 <= c mod 16 < 16) as [H1 H2].
    { split; [|apply Z.mod_pos_bound; lia]. split; [apply Z.div_pos; cint|].
      apply Z.div_lt_upper_bound; cint. }
    destruct (hex_char_ok _ H1) as [X1 Y1], (hex_char_ok _ H2) as [X2 Y2].
    cbn [app get_token]. unfold at_. cbn [nth next]. rewrite X1, X2, Y1, Y2. cbn [andb Z.eqb Pos.eqb].
    do 3 f_equal. rewrite (Z.div_mod c 16) at 3 by lia. lia.
Qed.

Lemma get_token_repr s insq rest cur :
  Forall is_byte s ->
  get_token true insq ((s ≫= repr_char) ++ rest) cur = get_token true insq rest (cur ++ s).
Proof.
  intros Hs. revert cur. induction Hs as [|c s Hc Hs IH]; intros cur; [by rewrite app_nil_r|].
  change (((c :: s) ≫= repr_char)) with (repr_char c ++ (s ≫= repr_char)).
  rewrite <- app_assoc, get_token_repr_char, IH, <- app_assoc by done. done.
Qed.

(** What may follow a token on a line. *)
Definition ends_token (rest : bytes) : Prop := rest = [] \/ exists r, rest = 32 :: r.

Lemma get_token_quoted s rest :
  Forall is_byte s -> ends_token rest ->
  get_token false false (sdscatrepr [] s ++ rest) [] = Some (s, rest).
Proof.
  intros Hs Hr. rewrite sdscatrepr_eq. cbn [app].
  rewrite <- app_assoc. cbn [get_token]. cbn [Z.eqb Pos.eqb orb].
  rewrite get_token_repr by done. destruct Hr as [->|[r ->]]; done.
Qed.

Lemma needsrepr_cons c s :
  sdsneedsrepr (c :: s) = false <->
  sdsneedsrepr s = false /\ 32 < c <= 126 /\ c <> 92 /\ c <> 34.
Proof.
  cbn [sdsneedsrepr]. destruct (_ || isspace c) eqn:E; unfold isprint, isspace in E; split; intros H.
  - done.
  - lia.
  - split; [done|lia].
  - by destruct H.
Qed.

Lemma needsrepr_app a b :
  sdsneedsrepr (a ++ b) = false <-> sdsneedsrepr a = false /\ sdsneedsrepr b = false.
Proof.
  induction a as [|c a IH]; cbn [app]; [tauto|]. rewrite !needsrepr_cons. tauto.
Qed.

(** Characters that need no escape are copied. *)
Lemma get_token_copy s rest cur :
  sdsneedsrepr s = false -> 39 ∉ s ->
  get_token false false (s ++ rest) cur = get_token false false rest (cur ++ s).
Proof.
  revert cur. induction s as [|c s IH]; intros cur; [by rewrite app_nil_r|].
  rewrite needsrepr_cons, not_elem_of_cons. intros (Hn & Hc) (Hq1 & Hq2). cbn [app get_token].
  rewrite !(proj2 (Z.eqb_neq c _)) by lia. cbn [orb]. rewrite IH by done.
  by rewrite <- app_assoc.
Qed.

Lemma get_token_plain s rest cur :
  sdsneedsrepr s = false -> 39 ∉ s -> ends_token rest ->
  get_token false false (s ++ rest) cur = Some (cur ++ s, match rest with [] => [] | _ :: r => r end).
Proof. intros Hn Hq Hr. rewrite get_token_copy by done. destruct Hr as [->|[r ->]]; done. Qed.

(** Without a closing quote the end of the line is an error. *)
Lemma get_token_unbalanced s cur :
  sdsneedsrepr s = false -> 39 ∉ s -> get_token false true s cur = None.
Proof.
  revert cur. induction s as [|c s IH]; intros cur; [done|].
  rewrite needsrepr_cons, not_elem_of_cons. intros (Hn & Hc) (Hq1 & Hq2). cbn [get_token].
  rewrite !(proj2 (Z.eqb_neq c _)) by lia. cbn [andb]. by apply IH.
Qed.

(** [denotes t a]: [t] is a notation of the argument [a]: quoted by [sdscatrepr],
    or [a] itself when [sdsneedsrepr] finds nothing to escape and it is not empty
    and has no single quote. *)
Inductive denotes : bytes -> bytes -> Prop :=
  | denotes_repr a : Forall is_byte a -> denotes (sdscatrepr [] a) a
  | denotes_plain a : a <> [] -> sdsneedsrepr a = false -> 39 ∉ a -> denotes a a.

(** Texts separated by one space. *)
Fixpoint line_of (texts : list bytes) : bytes :=
  match texts with
  | [] => []
  | [t] => t
  | t :: r => t ++ 32 :: line_of r
  end.

Lemma denotes_start t a rest :
  denotes t a -> skip_blanks (t ++ rest) = t ++ rest /\ at_ (t ++ rest) 0 <> 0.
Proof.
  destruct 1 as [a Ha|a Hne Hn Hq]; [by rewrite sdscatrepr_eq|].
  destruct a as [|c a]; [done|]. apply needsrepr_cons in Hn as (_ & Hc & _).
  cbn [app skip_blanks]. destruct (isspace c) eqn:Es; [unfold isspace in Es; lia|].
  split; [done|]. unfold at_. cbn [nth]. lia.
Qed.

Lemma denotes_token t a rest :
  denotes t a -> ends_token rest ->
  exists rest', get_token false false (t ++ rest) [] = Some (a, rest') /\
    (rest = [] -> rest' = []) /\ (forall r, rest = 32 :: r -> skip_blanks rest' = skip_blanks r /\ (length r <= length rest')%nat).
Proof.
  intros Hd Hr. destruct Hd as [a Ha|a Hne Hn Hq].
  - exists rest. split; [by apply get_token_quoted|]. split; [done|]. intros r ->. cbn. split; [done|lia].
  - eexists. split; [by apply get_token_plain|]. destruct Hr as [->|[r ->]]; split; try done.
    by intros r' [= <-].
Qed.

(** The loop ignores leading blanks. *)
Lemma splitargs_blanks fuel p p' v :
  skip_blanks p = skip_blanks p' -> splitargs_loop fuel p v = splitargs_loop fuel p' v.
Proof. intros H. destruct fuel; [done|]. cbn [splitargs_loop]. by rewrite H. Qed.

Lemma splitargs_line texts args : Forall2 denotes texts args ->
  forall fuel v, (length (line_of texts) < fuel)%nat ->
  splitargs_loop fuel (line_of texts) v = Some (v ++ args).
Proof.
  induction 1 as [|t a texts args Hd Hr IH]; intros fuel v Hf.
  { destruct fuel; [simpl in Hf; lia|]. cbn. by rewrite app_nil_r. }
  set (rest := match texts with [] => [] | _ => 32 :: line_of texts end).
  assert (Hl : line_of (t :: texts) = t ++ rest).
  { unfold rest. destruct texts; cbn [line_of]; [by rewrite app_nil_r|done]. }
  assert (He : ends_token rest) by (unfold rest, ends_token; destruct texts; eauto).
  rewrite Hl in *. destruct (denotes_start t a rest Hd) as [Hs H0].
  destruct (denotes_token t a rest Hd He) as (rest' & Ht & Hnil & Hsp).
  rewrite (splitargs_token _ a rest') by done.
  assert (skip_blanks rest' = skip_blanks (line_of texts) /\
          (length (line_of texts) <= length rest')%nat) as [Hrest Hlen].
  { destruct texts as [|t' ts]; [by rewrite Hnil|by apply Hsp]. }
  rewrite (splitargs_blanks _ _ _ _ Hrest), IH by lia. by rewrite <- app_assoc.
Qed.

(** ** Properties *)

(** C35: what [sdscatrepr] writes, [sdssplitargs] reads back: a line of arguments,
    each quoted by [sdscatrepr] or left plain where that is possible, separated by
    spaces, splits into exactly these arguments, whatever bytes they hold. *)
Theorem sdssplitargs_repr texts args :
  Forall2 denotes texts args -> sdssplitargs (line_of texts) = Some args.
Proof. intros H. unfold sdssplitargs. rewrite (splitargs_line _ _ H) by lia. done. Qed.

Lemma sdssplitargs_repr_witness :
  let a := str "a b" ++ [0; 10; 34; 255] in
  sdssplitargs (line_of [str "set"; sdscatrepr [] a; sdscatrepr [] []]) = Some [str "set"; a; []].
Proof.
  intros a. apply sdssplitargs_repr.
  apply Forall2_cons; split.
  { apply denotes_plain; [done|reflexivity|by_compute]. }
  apply Forall2_cons; split; [apply denotes_repr; by_compute|].
  apply Forall2_cons; split; [apply denotes_repr; constructor|constructor].
Defined.

(** [sdsneedsrepr] is meant to tell which strings can be left unquoted on a line
    for [sdssplitargs].  It is right about every string but the empty one and those
    with a single quote: any string with one single quote and nothing else to
    escape is declared safe, and [sdssplitargs] rejects it. *)
Theorem sdsneedsrepr_misses_quote a b :
  sdsneedsrepr (a ++ b) = false -> 39 ∉ a ++ b ->
  sdsneedsrepr (a ++ [39] ++ b) = false /\ sdssplitargs (a ++ [39] ++ b) = None /\
  (a ++ b <> [] -> sdssplitargs (a ++ b) = Some [a ++ b]) /\
  sdsneedsrepr [] = false /\ sdssplitargs [] = Some [].
Proof.
  intros Hn Hq. pose proof Hn as [Ha Hb]%needsrepr_app.
  apply not_elem_of_app in Hq as Hq'. destruct Hq' as [Hqa Hqb]. split_and!.
  - rewrite !needsrepr_app. by split_and!.
  - assert (Hs : skip_blanks (a ++ [39] ++ b) = a ++ [39] ++ b /\ at_ (a ++ [39] ++ b) 0 <> 0).
    { destruct a as [|c a]; [done|]. apply denotes_start with (a := c :: a). by apply denotes_plain. }
    unfold sdssplitargs. cbn [splitargs_loop]. rewrite (proj1 Hs), (proj2 (Z.eqb_neq _ 0)) by apply Hs.
    rewrite get_token_copy by done. cbn [app get_token Z.eqb Pos.eqb orb].
    by rewrite get_token_unbalanced.
  - intros Hne. unfold sdssplitargs. apply (splitargs_line [a ++ b] [a ++ b]); [|cbn [line_of]; lia].
    constructor; [by apply denotes_plain|constructor].
  - done.
  - done.
Qed.

Lemma sdsneedsrepr_misses_quote_witness :
  sdsneedsrepr (str "it's.aof") = false /\ sdssplitargs (str "it's.aof") = None.
Proof.
  destruct (sdsneedsrepr_misses_quote (str "it") (str "s.aof")) as (H1 & H2 & _);
    [reflexivity|by_compute|]. by split.
Defined.
