(* ===== verification/Resp.v ===== *)
(** The request parser of [networking.c]: inline and RESP (multi bulk) requests.

    A client accumulates what it reads in [querybuf]; [qb_pos] is the position of
    the first byte that is not parsed yet.  [processInputBuffer] turns the buffer
    into commands and executes them; a request that is not complete yet leaves its
    progress in [reqtype], [multibulklen], [bulklen] and [argv], and parsing is
    resumed when more data has been read.

    Each function of the source is one definition here, with the conditions and the
    early returns of the code.  [None] is a failed [serverAssert], [serverPanic] or
    a write beyond the end of the [argv] array.  Executing a command
    ([processCommand] of [server.c]) and feeding sub-replicas are operations of the
    interface [Server]. *)

From S2P Require Import Prelude Util SdsArgs.

Local Open Scope string_scope.
Local Open Scope list_scope.
Local Open Scope Z_scope.

Abbreviation CLIENT_SLAVE := (Z.shiftl 1 0).
Abbreviation CLIENT_MASTER := (Z.shiftl 1 1).
Abbreviation CLIENT_MONITOR := (Z.shiftl 1 2).
Abbreviation CLIENT_MULTI := (Z.shiftl 1 3).
Abbreviation CLIENT_BLOCKED := (Z.shiftl 1 4).
Abbreviation CLIENT_CLOSE_AFTER_REPLY := (Z.shiftl 1 6).
Abbreviation CLIENT_SCRIPT := (Z.shiftl 1 8).
Abbreviation CLIENT_ASKING := (Z.shiftl 1 9).
Abbreviation CLIENT_CLOSE_ASAP := (Z.shiftl 1 10).
Abbreviation CLIENT_REPLY_SKIP_NEXT := (Z.shiftl 1 23).
Abbreviation CLIENT_REPLY_SKIP := (Z.shiftl 1 24).
Abbreviation CLIENT_PENDING_COMMAND := (Z.shiftl 1 30).
Abbreviation CLIENT_TRACKING_CACHING := (Z.shiftl 1 36).
Abbreviation CLIENT_PROTOCOL_ERROR := (Z.shiftl 1 39).
Abbreviation USER_FLAG_DISABLED := (Z.shiftl 1 1).
Abbreviation USER_FLAG_NOPASS := (Z.shiftl 1 2).
Abbreviation PROTO_INLINE_MAX_SIZE := 65536.
Abbreviation PROTO_MBULK_BIG_ARG := 32768.
Abbreviation PROTO_IOBUF_LEN := 16384.
Abbreviation PROTO_REQ_INLINE := 1.
Abbreviation PROTO_REQ_MULTIBULK := 2.
Abbreviation INT_MAX := 2147483647.

(** [flags & mask] as a truth value. *)
Definition has (fl mask : Z) : bool := negb (Z.land fl mask =? 0).

Inductive status := C_OK | C_ERR.
Inductive io_op := IO_THREADS_OP_IDLE | IO_THREADS_OP_READ | IO_THREADS_OP_WRITE.

(** The command implementations [resetClient] compares with. *)
Inductive proc := askingCommand | clientCommand | otherCommand.

(** ** The client

    [session] is the part of a client that commands read and change, [client] the
    part that belongs to the parser.  [argv] lists the [argc] arguments stored so
    far; [argv_len] is the size of the array. *)

#[projections(primitive)] Record session := Session {
  flags : Z;
  authenticated : bool;
  cmd : option proc;
  slot : Z;
  cur_script : option bytes;
  deferred_reply_errors : option (list bytes);
  reply : list bytes }.

Definition set_flags (v : Z) (c : session) : session :=
  Session v (authenticated c) (cmd c) (slot c) (cur_script c) (deferred_reply_errors c) (reply c).
Definition set_cmd (v : option proc) (c : session) : session :=
  Session (flags c) (authenticated c) v (slot c) (cur_script c) (deferred_reply_errors c) (reply c).
Definition set_slot (v : Z) (c : session) : session :=
  Session (flags c) (authenticated c) (cmd c) v (cur_script c) (deferred_reply_errors c) (reply c).
Definition set_cur_script (v : option bytes) (c : session) : session :=
  Session (flags c) (authenticated c) (cmd c) (slot c) v (deferred_reply_errors c) (reply c).
Definition set_deferred_reply_errors (v : option (list bytes)) (c : session) : session :=
  Session (flags c) (authenticated c) (cmd c) (slot c) (cur_script c) v (reply c).
Definition set_reply (v : list bytes) (c : session) : session :=
  Session (flags c) (authenticated c) (cmd c) (slot c) (cur_script c) (deferred_reply_errors c) v.

#[projections(primitive)] Record client := Client {
  querybuf : bytes;
  qb_pos : Z;
  argv : list bytes;
  argv_len : Z;
  argv_len_sum : Z;
  reqtype : Z;
  multibulklen : Z;
  bulklen : Z;
  reploff : Z;
  read_reploff : Z;
  repl_applied : Z;
  repl_ack_time : Z;
  querybuf_peak : Z;
  lastinteraction : Z;
  sess : session }.

Definition set_querybuf (v : bytes) (c : client) : client :=
  Client v (qb_pos c) (argv c) (argv_len c) (argv_len_sum c) (reqtype c) (multibulklen c) (bulklen c) (reploff c) (read_reploff c) (repl_applied c) (repl_ack_time c) (querybuf_peak c) (lastinteraction c) (sess c).
Definition set_qb_pos (v : Z) (c : client) : client :=
  Client (querybuf c) v (argv c) (argv_len c) (argv_len_sum c) (reqtype c) (multibulklen c) (bulklen c) (reploff c) (read_reploff c) (repl_applied c) (repl_ack_time c) (querybuf_peak c) (lastinteraction c) (sess c).
Definition set_argv (v : list bytes) (c : client) : client :=
  Client (querybuf c) (qb_pos c) v (argv_len c) (argv_len_sum c) (reqtype c) (multibulklen c) (bulklen c) (reploff c) (read_reploff c) (repl_applied c) (repl_ack_time c) (querybuf_peak c) (lastinteraction c) (sess c).
Definition set_argv_len (v : Z) (c : client) : client :=
  Client (querybuf c) (qb_pos c) (argv c) v (argv_len_sum c) (reqtype c) (multibulklen c) (bulklen c) (reploff c) (read_reploff c) (repl_applied c) (repl_ack_time c) (querybuf_peak c) (lastinteraction c) (sess c).
Definition set_argv_len_sum (v : Z) (c : client) : client :=
  Client (querybuf c) (qb_pos c) (argv c) (argv_len c) v (reqtype c) (multibulklen c) (bulklen c) (reploff c) (read_reploff c) (repl_applied c) (repl_ack_time c) (querybuf_peak c) (lastinteraction c) (sess c).
Definition set_reqtype (v : Z) (c : client) : client :=
  Client (querybuf c) (qb_pos c) (argv c) (argv_len c) (argv_len_sum c) v (multibulklen c) (bulklen c) (reploff c) (read_reploff c) (repl_applied c) (repl_ack_time c) (querybuf_peak c) (lastinteraction c) (sess c).
Definition set_multibulklen (v : Z) (c : client) : client :=
  Client (querybuf c) (qb_pos c) (argv c) (argv_len c) (argv_len_sum c) (reqtype c) v (bulklen c) (reploff c) (read_reploff c) (repl_applied c) (repl_ack_time c) (querybuf_peak c) (lastinteraction c) (sess c).
Definition set_bulklen (v : Z) (c : client) : client :=
  Client (querybuf c) (qb_pos c) (argv c) (argv_len c) (argv_len_sum c) (reqtype c) (multibulklen c) v (reploff c) (read_reploff c) (repl_applied c) (repl_ack_time c) (querybuf_peak c) (lastinteraction c) (sess c).
Definition set_reploff (v : Z) (c : client) : client :=
  Client (querybuf c) (qb_pos c) (argv c) (argv_len c) (argv_len_sum c) (reqtype c) (multibulklen c) (bulklen c) v (read_reploff c) (repl_applied c) (repl_ack_time c) (querybuf_peak c) (lastinteraction c) (sess c).
Definition set_read_reploff (v : Z) (c : client) : client :=
  Client (querybuf c) (qb_pos c) (argv c) (argv_len c) (argv_len_sum c) (reqtype c) (multibulklen c) (bulklen c) (reploff c) v (repl_applied c) (repl_ack_time c) (querybuf_peak c) (lastinteraction c) (sess c).
Definition set_repl_applied (v : Z) (c : client) : client :=
  Client (querybuf c) (qb_pos c) (argv c) (argv_len c) (argv_len_sum c) (reqtype c) (multibulklen c) (bulklen c) (reploff c) (read_reploff c) v (repl_ack_time c) (querybuf_peak c) (lastinteraction c) (sess c).
Definition set_repl_ack_time (v : Z) (c : client) : client :=
  Client (querybuf c) (qb_pos c) (argv c) (argv_len c) (argv_len_sum c) (reqtype c) (multibulklen c) (bulklen c) (reploff c) (read_reploff c) (repl_applied c) v (querybuf_peak c) (lastinteraction c) (sess c).
Definition set_querybuf_peak (v : Z) (c : client) : client :=
  Client (querybuf c) (qb_pos c) (argv c) (argv_len c) (argv_len_sum c) (reqtype c) (multibulklen c) (bulklen c) (reploff c) (read_reploff c) (repl_applied c) (repl_ack_time c) v (lastinteraction c) (sess c).
Definition set_lastinteraction (v : Z) (c : client) : client :=
  Client (querybuf c) (qb_pos c) (argv c) (argv_len c) (argv_len_sum c) (reqtype c) (multibulklen c) (bulklen c) (reploff c) (read_reploff c) (repl_applied c) (repl_ack_time c) (querybuf_peak c) v (sess c).
Definition set_sess (v : session) (c : client) : client :=
  Client (querybuf c) (qb_pos c) (argv c) (argv_len c) (argv_len_sum c) (reqtype c) (multibulklen c) (bulklen c) (reploff c) (read_reploff c) (repl_applied c) (repl_ack_time c) (querybuf_peak c) (lastinteraction c) v.


Record config := Config {
  proto_max_bulk_len : Z;
  client_max_querybuf_len : Z;
  unixtime : Z;
  io_threads_op : io_op }.

(** What the parser uses of the rest of the server, whose state is [W].
    [processCommand] executes the command in [argv]; it returns [C_ERR] when the
    client is to be destroyed, and whether [server.current_client] is still set.
    The parser fields of the client are not its business. *)
Class Server (W : Type) := {
  processCommand : list bytes -> session -> W -> W * session * status * bool;
  replicationFeedStreamFromMasterStream : bytes -> W -> W;
  isInsideYieldingLongCommand : W -> bool;
  DefaultUser_flags : W -> Z }.

(** What the parser relies on: a command does not change whether the client is the
    master, and when it fails the client was freed or is marked to be closed. *)
Class ServerLaws (W : Type) `{Server W} : Prop := {
  command_keeps_master args s w :
    let '(_, s', _, _) := processCommand args s w in
    has (flags s') CLIENT_MASTER = has (flags s) CLIENT_MASTER;
  command_error_closes args s w :
    let '(_, s', st, alive) := processCommand args s w in
    st = C_ERR -> alive = true ->
    has (flags s') (Z.lor CLIENT_CLOSE_AFTER_REPLY CLIENT_CLOSE_ASAP) = true }.

(** ** Helpers *)

Definition sdslen (s : bytes) : Z := Z.of_nat (length s).

(** [strchr(p, ch)] as an offset from [p]; the search ends at a zero byte. *)
Fixpoint strchr (p : bytes) (ch : Z) : option Z :=
  match p with
  | [] => None
  | c :: p' => if c =? ch then Some 0 else if c =? 0 then None
               else n ← strchr p' ch; Some (n + 1)
  end.

(** [sdssubstr] and [sdsrange] on the contents of the string. *)
Definition sdssubstr (s : bytes) (start len : Z) : bytes :=
  let oldlen := sdslen s in
  let '(start, len) := if oldlen <=? start then (0, 0) else (start, len) in
  let len := if oldlen - start <? len then oldlen - start else len in
  take (Z.to_nat len) (drop (Z.to_nat start) s).

Definition sdsrange (s : bytes) (start end_ : Z) : bytes :=
  let len := sdslen s in
  if len =? 0 then s else
  let start := if start <? 0 then len + start else start in
  let end_ := if end_ <? 0 then len + end_ else end_ in
  let newlen := if end_ <? start then 0 else end_ - start + 1 in
  sdssubstr s (u64 start) newlen.

(** The bytes at [c->querybuf+c->qb_pos]. *)
Definition pending (c : client) : bytes := drop (Z.to_nat (qb_pos c)) (querybuf c).

(** [sdslen(c->querybuf)-c->qb_pos], a [size_t]. *)
Definition remaining (c : client) : Z := u64 (sdslen (querybuf c) - qb_pos c).

Definition is_master (c : client) : bool := has (flags (sess c)) CLIENT_MASTER.

Definition or_flags (mask : Z) (s : session) : session := set_flags (Z.lor (flags s) mask) s.
Definition clear_flags (mask : Z) (s : session) : session := set_flags (Z.ldiff (flags s) mask) s.
Definition on_sess (f : session -> session) (c : client) : client := set_sess (f (sess c)) c.

Definition addReplyError (msg : bytes) (c : client) : client :=
  on_sess (λ s, set_reply (reply s ++ [str "-ERR " ++ msg]) s) c.

(** The log line it writes is not modelled. *)
Definition setProtocolError (c : client) : client :=
  on_sess (or_flags (Z.lor CLIENT_CLOSE_AFTER_REPLY CLIENT_PROTOCOL_ERROR)) c.

Definition protocol_error (msg : bytes) (c : client) : client :=
  setProtocolError (addReplyError (str "Protocol error: " ++ msg) c).

(** [getClientType(c) == CLIENT_TYPE_SLAVE]. *)
Definition is_slave_type (c : client) : bool :=
  negb (is_master c) && has (flags (sess c)) CLIENT_SLAVE && negb (has (flags (sess c)) CLIENT_MONITOR).

Definition freeClientArgv (c : client) : client :=
  on_sess (set_cmd None) (set_argv_len 0 (set_argv_len_sum 0 (set_argv [] c))).

Definition is_proc (p : proc) (o : option proc) : bool :=
  match o, p with
  | Some askingCommand, askingCommand => true
  | Some clientCommand, clientCommand => true
  | Some otherCommand, otherCommand => true
  | _, _ => false
  end.

Definition resetClient (c : client) : client :=
  let prevcmd := cmd (sess c) in
  let c := freeClientArgv c in
  let c := on_sess (set_cur_script None) c in
  let c := set_reqtype 0 c in
  let c := set_multibulklen 0 c in
  let c := set_bulklen (-1) c in
  let c := on_sess (set_slot (-1)) c in
  let c := on_sess (set_deferred_reply_errors None) c in
  let multi := has (flags (sess c)) CLIENT_MULTI in
  let c := if negb multi && negb (is_proc askingCommand prevcmd)
           then on_sess (clear_flags CLIENT_ASKING) c else c in
  let c := if negb multi && negb (is_proc clientCommand prevcmd)
           then on_sess (clear_flags CLIENT_TRACKING_CACHING) c else c in
  let c := on_sess (clear_flags CLIENT_REPLY_SKIP) c in
  if has (flags (sess c)) CLIENT_REPLY_SKIP_NEXT
  then on_sess (clear_flags CLIENT_REPLY_SKIP_NEXT) (on_sess (or_flags CLIENT_REPLY_SKIP) c)
  else c.

(** Queueing the client for [freeClientsInAsyncFreeQueue] is not modelled. *)
Definition freeClientAsync (c : client) : client :=
  if has (flags (sess c)) CLIENT_CLOSE_ASAP || has (flags (sess c)) CLIENT_SCRIPT then c
  else on_sess (or_flags CLIENT_CLOSE_ASAP) c.

(** ** Reading from the socket *)

(** The outcomes of [connRead]: no data yet, an error, end of file, data. *)
Inductive read_result := ReadAgain | ReadError | ReadEof | ReadData (bs : bytes).

(** The number of bytes asked for; [alloc] and [avail] stand for [sdsalloc] before
    and [sdsavail] after the buffer has been enlarged. *)
Definition read_length (alloc avail : Z) (c : client) : Z :=
  let '(readlen, big_arg) :=
    if (reqtype c =? PROTO_REQ_MULTIBULK) && negb (multibulklen c =? 0) && negb (bulklen c =? -1) &&
       (PROTO_MBULK_BIG_ARG <=? bulklen c)
    then
      let rem := i64 (u64 (u64 (i64 (bulklen c + 2)) - remaining c)) in
      let readlen := if 0 <? rem then rem else PROTO_IOBUF_LEN in
      (if is_master c && (readlen <? PROTO_IOBUF_LEN) then PROTO_IOBUF_LEN else readlen, true)
    else (PROTO_IOBUF_LEN, false) in
  if negb (is_master c) && (big_arg || (alloc <? PROTO_IOBUF_LEN)) then readlen else avail.

Section parser.
Context {W : Type} `{Server W} (cf : config).

Definition authRequired (w : W) (c : client) : bool :=
  (negb (has (DefaultUser_flags w) USER_FLAG_NOPASS) || has (DefaultUser_flags w) USER_FLAG_DISABLED)
  && negb (authenticated (sess c)).

(** ** Inline requests *)

(** The loop that stores the arguments of an inline request. *)
Definition store_inline (args : list bytes) (c : client) : client :=
  let c := if bool_decide (args = []) then c
           else set_argv_len_sum 0 (set_argv_len (Z.of_nat (length args)) c) in
  set_argv_len_sum (u64 (argv_len_sum c + Z.of_nat (length (concat args)))) (set_argv args c).

Definition processInlineBuffer (c : client) : status * client :=
  match strchr (pending c) 10 with
  | None =>
      (C_ERR, if PROTO_INLINE_MAX_SIZE <? remaining c
              then protocol_error (str "too big inline request") c else c)
  | Some newline =>
      let '(newline, linefeed_chars) :=
        if negb (newline =? 0) && (at_ (pending c) (Z.to_nat (newline - 1)) =? 13)
        then (newline - 1, 2) else (newline, 1) in
      let querylen := newline in
      match sdssplitargs (take (Z.to_nat querylen) (pending c)) with
      | None => (C_ERR, protocol_error (str "unbalanced quotes in request") c)
      | Some args =>
          let c := if (querylen =? 0) && is_slave_type c then set_repl_ack_time (unixtime cf) c else c in
          if negb (querylen =? 0) && is_master c then (C_ERR, setProtocolError c)
          else (C_OK, store_inline args (set_qb_pos (qb_pos c + (querylen + linefeed_chars)) c))
      end
  end.

(** ** RESP requests *)

(** A part of a function that either returns or lets it go on. *)
Inductive outcome := Return (st : status) (c : client) | Break (c : client) | Go (c : client).

(** The multi bulk length, read when it is not known. *)
Definition read_mbulk_count (w : W) (c : client) : option outcome :=
  if negb (bool_decide (argv c = [])) then None else
  match strchr (pending c) 13 with
  | None =>
      Some (Return C_ERR (if PROTO_INLINE_MAX_SIZE <? remaining c
                          then protocol_error (str "too big mbulk count string") c else c))
  | Some newline =>
      if i64 (u64 (remaining c - 2)) <? newline then Some (Return C_ERR c)
      else if negb (at_ (pending c) 0 =? 42) then None
      else match string2ll (take (Z.to_nat (newline - 1)) (drop 1 (pending c))) with
      | None => Some (Return C_ERR (protocol_error (str "invalid multibulk length") c))
      | Some ll =>
          if INT_MAX <? ll then
            Some (Return C_ERR (protocol_error (str "invalid multibulk length") c))
          else if (10 <? ll) && authRequired w c then
            Some (Return C_ERR (protocol_error (str "unauthenticated multibulk length") c))
          else
            let c := set_qb_pos (qb_pos c + newline + 2) c in
            if ll <=? 0 then Some (Return C_OK c)
            else
              let c := set_multibulklen (i32 ll) c in
              Some (Go (set_argv_len_sum 0 (set_argv [] (set_argv_len (Z.min (multibulklen c) 1024) c))))
      end
  end.

(** Making room for a big argument at the start of the buffer. *)
Definition align_big_arg (ll : Z) (c : client) : client :=
  if negb (is_master c) && (PROTO_MBULK_BIG_ARG <=? ll) then
    if remaining c <=? u64 (ll + 2)
    then set_qb_pos 0 (set_querybuf (sdsrange (querybuf c) (qb_pos c) (-1)) c) else c
  else c.

(** The length of the next argument, read when it is not known. *)
Definition read_bulk_len (w : W) (c : client) : outcome :=
  match strchr (pending c) 13 with
  | None =>
      if PROTO_INLINE_MAX_SIZE <? remaining c
      then Return C_ERR (protocol_error (str "too big bulk count string") c) else Break c
  | Some newline =>
      if i64 (u64 (remaining c - 2)) <? newline then Break c
      else if negb (at_ (pending c) 0 =? 36) then
        Return C_ERR (protocol_error (str "expected '$', got '" ++ [at_ (pending c) 0] ++ str "'") c)
      else match string2ll (take (Z.to_nat (newline - 1)) (drop 1 (pending c))) with
      | None => Return C_ERR (protocol_error (str "invalid bulk length") c)
      | Some ll =>
          if (ll <? 0) || (negb (is_master c) && (proto_max_bulk_len cf <? ll)) then
            Return C_ERR (protocol_error (str "invalid bulk length") c)
          else if (16384 <? ll) && authRequired w c then
            Return C_ERR (protocol_error (str "unauthenticated bulk length") c)
          else
            Go (set_bulklen ll (align_big_arg ll (set_qb_pos (qb_pos c + newline + 2) c)))
      end
  end.

(** [c->argv[c->argc++] = o], growing the array first when it is full. *)
Definition push_arg (o : bytes) (c : client) : option client :=
  let argc := Z.of_nat (length (argv c)) in
  let c :=
    if argv_len c <=? argc
    then set_argv_len (Z.min (if argv_len c <? INT_MAX / 2 then argv_len c * 2 else INT_MAX)
                             (argc + multibulklen c)) c
    else c in
  if argc <? argv_len c then Some (set_argv (argv c ++ [o]) c) else None.

(** The argument itself, once it is all in the buffer. *)
Definition read_bulk (c : client) : option outcome :=
  if remaining c <? u64 (i64 (bulklen c + 2)) then Some (Break c)
  else
    let len := bulklen c in
    c ← (if negb (is_master c) && (qb_pos c =? 0) && (PROTO_MBULK_BIG_ARG <=? len) &&
            (sdslen (querybuf c) =? u64 (i64 (len + 2)))
         then
           (* the buffer becomes the argument, without its CRLF *)
           c ← push_arg (take (Z.to_nat len) (querybuf c)) c;
           Some (set_querybuf [] (set_argv_len_sum (u64 (argv_len_sum c + len)) c))
         else
           c ← push_arg (take (Z.to_nat len) (pending c)) c;
           Some (set_qb_pos (qb_pos c + (len + 2)) (set_argv_len_sum (u64 (argv_len_sum c + len)) c)));
    Some (Go (set_multibulklen (multibulklen c - 1) (set_bulklen (-1) c))).

(** The while loop over the arguments; an argument consumes two bytes at least. *)
Fixpoint multibulk_loop (fuel : nat) (w : W) (c : client) : option outcome :=
  if multibulklen c =? 0 then Some (Break c) else
  match fuel with
  | O => None
  | S fuel' =>
      match (if bulklen c =? -1 then read_bulk_len w c else Go c) with
      | Go c =>
          o ← read_bulk c;
          match o with
          | Go c => multibulk_loop fuel' w c
          | o => Some o
          end
      | o => Some o
      end
  end.

Definition processMultibulkBuffer (w : W) (c : client) : option (status * client) :=
  o ← (if multibulklen c =? 0 then read_mbulk_count w c else Some (Go c));
  match o with
  | Return st c => Some (st, c)
  | Break c | Go c =>
      if multibulklen c <=? 0 then None else
      o ← multibulk_loop (S (length (querybuf c))) w c;
      match o with
      | Return st c => Some (st, c)
      | Break c | Go c => Some (if multibulklen c =? 0 then C_OK else C_ERR, c)
      end
  end.

(** ** Executing the requests *)

Definition commandProcessed (w : W) (c : client) : option (W * client) :=
  if has (flags (sess c)) CLIENT_BLOCKED then Some (w, c) else
  let c := resetClient c in
  let prev_offset := reploff c in
  let c := if is_master c && negb (has (flags (sess c)) CLIENT_MULTI)
           then set_reploff (read_reploff c - sdslen (querybuf c) + qb_pos c) c else c in
  if is_master c then
    let applied := reploff c - prev_offset in
    if applied =? 0 then Some (w, c)
    else
      buf ← rd (querybuf c) (repl_applied c) (Z.to_nat applied);
      if applied <? 0 then None
      else Some (replicationFeedStreamFromMasterStream buf w, set_repl_applied (repl_applied c + applied) c)
  else Some (w, c).

(** From here on the status [C_ERR] means that the client was freed; the result
    then has no client. *)
Definition processCommandAndResetClient (w : W) (c : client) : option (W * option client) :=
  let '(w, s, st, alive) := processCommand (argv c) (sess c) w in
  let c := set_sess s c in
  '(w, c) ← (match st with C_OK => commandProcessed w c | C_ERR => Some (w, c) end);
  Some (w, if alive : bool then Some c else None).

(** The request type, from the first byte. *)
Definition detect_reqtype (c : client) : client :=
  if reqtype c =? 0 then
    set_reqtype (if at_ (pending c) 0 =? 42 then PROTO_REQ_MULTIBULK else PROTO_REQ_INLINE) c
  else c.

(** The conditions that end the loop before a request is parsed. *)
Definition stopped (w : W) (c : client) : bool :=
  has (flags (sess c)) CLIENT_BLOCKED || has (flags (sess c)) CLIENT_PENDING_COMMAND ||
  (isInsideYieldingLongCommand w && is_master c) ||
  has (flags (sess c)) (Z.lor CLIENT_CLOSE_AFTER_REPLY CLIENT_CLOSE_ASAP).

Definition parse_request (w : W) (c : client) : option (status * client) :=
  if reqtype c =? PROTO_REQ_INLINE then Some (processInlineBuffer c)
  else if reqtype c =? PROTO_REQ_MULTIBULK then processMultibulkBuffer w c
  else None.

(** A request consumes one byte at least. *)
Fixpoint input_loop (fuel : nat) (w : W) (c : client) : option (W * option client) :=
  if sdslen (querybuf c) <=? qb_pos c then Some (w, Some c) else
  if stopped w c then Some (w, Some c) else
  match fuel with
  | O => None
  | S fuel' =>
      let c := detect_reqtype c in
      '(st, c) ← parse_request w c;
      match st with
      | C_ERR => Some (w, Some c)
      | C_OK =>
          if bool_decide (argv c = []) then input_loop fuel' w (resetClient c)
          else
            match io_threads_op cf with
            | IO_THREADS_OP_IDLE =>
                '(w, c) ← processCommandAndResetClient w c;
                match c with
                | None => Some (w, None)
                | Some c => input_loop fuel' w c
                end
            | IO_THREADS_OP_READ => Some (w, Some (on_sess (or_flags CLIENT_PENDING_COMMAND) c))
            | IO_THREADS_OP_WRITE => None
            end
      end
  end.

(** The parsed part is dropped; a master keeps what it has not applied. *)
Definition trim (c : client) : client :=
  if is_master c then
    if repl_applied c =? 0 then c
    else set_repl_applied 0 (set_qb_pos (qb_pos c - repl_applied c)
           (set_querybuf (sdsrange (querybuf c) (repl_applied c) (-1)) c))
  else if qb_pos c =? 0 then c
  else set_qb_pos 0 (set_querybuf (sdsrange (querybuf c) (qb_pos c) (-1)) c).

Definition processInputBuffer (w : W) (c : client) : option (W * option client) :=
  '(w, c) ← input_loop (S (length (querybuf c))) w c;
  Some (w, option_map trim c).

Definition processPendingCommandAndInputBuffer (w : W) (c : client) : option (W * option client) :=
  '(w, c) ←
    (if has (flags (sess c)) CLIENT_PENDING_COMMAND
     then processCommandAndResetClient w (on_sess (clear_flags CLIENT_PENDING_COMMAND) c)
     else Some (w, Some c));
  match c with
  | None => Some (w, None)
  | Some c => if 0 <? sdslen (querybuf c) then processInputBuffer w c else Some (w, Some c)
  end.

(** [connRead] is given the number of bytes asked for.  The statistics it updates
    and the I/O thread test at its start are not modelled. *)
Definition readQueryFromClient (connRead : Z -> read_result) (alloc avail : Z) (w : W) (c : client)
    : option (W * option client) :=
  match connRead (read_length alloc avail c) with
  | ReadAgain => Some (w, Some c)
  | ReadError | ReadEof => Some (w, Some (freeClientAsync c))
  | ReadData bs =>
      let c := set_querybuf (querybuf c ++ bs) c in
      let qblen := sdslen (querybuf c) in
      let c := if querybuf_peak c <? qblen then set_querybuf_peak qblen c else c in
      let c := set_lastinteraction (unixtime cf) c in
      let c := if is_master c then set_read_reploff (read_reploff c + sdslen bs) c else c in
      if negb (is_master c) && (client_max_querybuf_len cf <? sdslen (querybuf c))
      then Some (w, Some (freeClientAsync c))
      else processInputBuffer w c
  end.
End parser.
