(* ===== verification/RespRef.v ===== *)
(** A reference parser for requests, and the refinement of [Resp] to it.

    The reference works on the bytes that are not parsed yet, as a list: no buffer
    position, no alignment of big arguments, no reuse of the query buffer as an
    argument, no machine integers in the length computations.  The rest of the
    client is a [client] whose buffer is empty. *)

From S2P Require Import Prelude Util SdsArgs Resp.

Local Open Scope string_scope.
Local Open Scope list_scope.
Local Open Scope Z_scope.

(** What a parsing step does: fail with a protocol error, wait for more data,
    complete the request, or go on; it consumes [n] bytes. *)
Inductive verdict := VErr (n : nat) (r : client) | VWait (n : nat) (r : client)
  | VDone (n : nat) (r : client) | VGo (n : nat) (r : client).

Definition vclient (v : verdict) : client :=
  match v with VErr _ r | VWait _ r | VDone _ r | VGo _ r => r end.
Definition vlen (v : verdict) : nat :=
  match v with VErr n _ | VWait n _ | VDone n _ | VGo n _ => n end.

(** Consuming [n] more bytes before. *)
Definition vadd (n : nat) (v : verdict) : verdict :=
  match v with
  | VErr m r => VErr (n + m) r | VWait m r => VWait (n + m) r
  | VDone m r => VDone (n + m) r | VGo m r => VGo (n + m) r
  end.

Section reference.
Context {W : Type} `{Server W} (cf : config).
Implicit Types (w : W) (p : bytes) (r c : client).

(** A line that ends with CR and one more byte: the number after its first byte. *)
Inductive header := HLong | HWait | HNum (first : Z) (n : nat) (num : option Z).

Definition ref_header p : header :=
  match strchr p 13 with
  | None => if PROTO_INLINE_MAX_SIZE <? Z.of_nat (length p) then HLong else HWait
  | Some n =>
      if Z.of_nat (length p) <? n + 2 then HWait
      else HNum (at_ p 0) (Z.to_nat n + 2) (string2ll (take (Z.to_nat (n - 1)) (drop 1 p)))
  end.

Definition ref_count w p r : option verdict :=
  if negb (bool_decide (argv r = [])) then None else
  match ref_header p with
  | HLong => Some (VErr 0 (protocol_error (str "too big mbulk count string") r))
  | HWait => Some (VWait 0 r)
  | HNum first n num =>
      if negb (first =? 42) then None else
      match num with
      | None => Some (VErr 0 (protocol_error (str "invalid multibulk length") r))
      | Some ll =>
          if INT_MAX <? ll then Some (VErr 0 (protocol_error (str "invalid multibulk length") r))
          else if (10 <? ll) && authRequired w r then
            Some (VErr 0 (protocol_error (str "unauthenticated multibulk length") r))
          else if ll <=? 0 then Some (VDone n r)
          else Some (VGo n (set_argv_len_sum 0 (set_argv [] (set_argv_len (Z.min ll 1024)
                              (set_multibulklen ll r)))))
      end
  end.

Definition ref_len w p r : verdict :=
  match ref_header p with
  | HLong => VErr 0 (protocol_error (str "too big bulk count string") r)
  | HWait => VWait 0 r
  | HNum first n num =>
      if negb (first =? 36) then
        VErr 0 (protocol_error (str "expected '$', got '" ++ [first] ++ str "'") r)
      else match num with
      | None => VErr 0 (protocol_error (str "invalid bulk length") r)
      | Some ll =>
          if (ll <? 0) || (negb (is_master r) && (proto_max_bulk_len cf <? ll)) then
            VErr 0 (protocol_error (str "invalid bulk length") r)
          else if (16384 <? ll) && authRequired w r then
            VErr 0 (protocol_error (str "unauthenticated bulk length") r)
          else VGo n (set_bulklen ll r)
      end
  end.

Definition ref_bulk p r : option verdict :=
  let len := bulklen r in
  if Z.of_nat (length p) <? len + 2 then Some (VWait 0 r)
  else
    r ← push_arg (take (Z.to_nat len) p) r;
    Some (VGo (Z.to_nat (len + 2))
      (set_multibulklen (multibulklen r - 1) (set_bulklen (-1)
        (set_argv_len_sum (u64 (argv_len_sum r + len)) r)))).

(** One argument. *)
Definition ref_arg w p r : option verdict :=
  if bulklen r =? -1 then
    match ref_len w p r with
    | VGo n r => v ← ref_bulk (drop n p) r; Some (vadd n v)
    | v => Some v
    end
  else ref_bulk p r.

Fixpoint ref_args (fuel : nat) w p r : option verdict :=
  if multibulklen r =? 0 then Some (VDone 0 r) else
  match fuel with
  | O => None
  | S fuel' =>
      v ← ref_arg w p r;
      match v with
      | VGo n r => v ← ref_args fuel' w (drop n p) r; Some (vadd n v)
      | v => Some v
      end
  end.

Definition ref_multibulk w p r : option verdict :=
  if multibulklen r =? 0 then
    v ← ref_count w p r;
    match v with
    | VGo n r => v ← ref_args (S (length p)) w (drop n p) r; Some (vadd n v)
    | v => Some v
    end
  else ref_args (S (length p)) w p r.

(** ** Inline requests and the command loop *)

Definition ref_inline p r : verdict :=
  match strchr p 10 with
  | None =>
      if PROTO_INLINE_MAX_SIZE <? Z.of_nat (length p)
      then VErr 0 (protocol_error (str "too big inline request") r) else VWait 0 r
  | Some n =>
      let '(len, lf) := if negb (n =? 0) && (at_ p (Z.to_nat (n - 1)) =? 13)
                        then (n - 1, 2%nat) else (n, 1%nat) in
      match sdssplitargs (take (Z.to_nat len) p) with
      | None => VErr 0 (protocol_error (str "unbalanced quotes in request") r)
      | Some args =>
          let r := if (len =? 0) && is_slave_type r then set_repl_ack_time (unixtime cf) r else r in
          if negb (len =? 0) && is_master r then VErr 0 (setProtocolError r)
          else VDone (Z.to_nat len + lf) (store_inline args r)
      end
  end.

Definition ref_detect p r : client :=
  if reqtype r =? 0 then
    set_reqtype (if at_ p 0 =? 42 then PROTO_REQ_MULTIBULK else PROTO_REQ_INLINE) r
  else r.

Definition ref_request w p r : option verdict :=
  if reqtype r =? PROTO_REQ_INLINE then Some (ref_inline p r)
  else if reqtype r =? PROTO_REQ_MULTIBULK then ref_multibulk w p r
  else None.

(** [d] holds what a master sent and is not passed on to the sub-replicas yet. *)
Definition ref_processed w (d : bytes) r : W * bytes * client :=
  if has (flags (sess r)) CLIENT_BLOCKED then (w, d, r) else
  let r := resetClient r in
  if is_master r && negb (has (flags (sess r)) CLIENT_MULTI) then
    (if bool_decide (d = []) then w else replicationFeedStreamFromMasterStream d w, [],
     set_reploff (reploff r + Z.of_nat (length d)) r)
  else (w, d, r).

Definition ref_exec w (d : bytes) r : W * option (bytes * client) :=
  let '(w, s, st, alive) := processCommand (argv r) (sess r) w in
  let r := set_sess s r in
  let '(w, d, r) := match st with C_OK => ref_processed w d r | C_ERR => (w, d, r) end in
  (w, if alive : bool then Some (d, r) else None).

(** Parsed bytes are kept for a master only. *)
Definition keep r (d p : bytes) (n : nat) : bytes := if is_master r then d ++ take n p else d.

Fixpoint ref_input (fuel : nat) w (d p : bytes) r : option (W * option (bytes * bytes * client)) :=
  if bool_decide (p = []) then Some (w, Some (d, p, r)) else
  if stopped w r then Some (w, Some (d, p, r)) else
  match fuel with
  | O => None
  | S fuel' =>
      v ← ref_request w p (ref_detect p r);
      let d := keep r d p (vlen v) in
      let p := drop (vlen v) p in
      match v with
      | VErr _ r | VWait _ r => Some (w, Some (d, p, r))
      | VGo _ _ => None
      | VDone _ r =>
          if bool_decide (argv r = []) then ref_input fuel' w d p (resetClient r)
          else
            match io_threads_op cf with
            | IO_THREADS_OP_IDLE =>
                match ref_exec w d r with
                | (w, Some (d, r)) => ref_input fuel' w d p r
                | (w, None) => Some (w, None)
                end
            | IO_THREADS_OP_READ => Some (w, Some (d, p, on_sess (or_flags CLIENT_PENDING_COMMAND) r))
            | IO_THREADS_OP_WRITE => None
            end
      end
  end.
End reference.

(** ** Positions *)

(** The client without its buffer and the number of bytes it has read. *)
Definition rest (c : client) : client :=
  set_querybuf [] (set_qb_pos 0 (set_repl_applied 0 (set_read_reploff 0 c))).

(** What a master sent, parsed and not passed on yet. *)
Definition unapplied (c : client) : bytes :=
  if is_master c then drop (Z.to_nat (repl_applied c)) (take (Z.to_nat (qb_pos c)) (querybuf c)) else [].

Definition pos_ok (c : client) : Prop :=
  0 <= qb_pos c <= sdslen (querybuf c) /\ in_s 64 (sdslen (querybuf c)) /\
  if is_master c then 0 <= repl_applied c <= qb_pos c else repl_applied c = 0.

(** [c'] is [c] after [n] bytes were parsed; the rest of the client may differ. *)
Record moved (c : client) (n : nat) (c' : client) : Prop := {
  moved_ok : pos_ok c';
  moved_master : is_master c' = is_master c;
  moved_read : read_reploff c' = read_reploff c;
  moved_len : (n <= length (pending c))%nat;
  moved_pending : pending c' = drop n (pending c);
  moved_unapplied : unapplied c' = unapplied c ++ if is_master c then take n (pending c) else [] }.

Lemma has_bit fl k : 0 <= k -> has fl (Z.shiftl 1 k) = Z.testbit fl k.
Proof.
  intros Hk. unfold has. rewrite Z.shiftl_1_l, Z.eqb_sym.
  destruct (Z.testbit fl k) eqn:E.
  - apply negb_true_iff, Z.eqb_neq. intros E'.
    assert (Z.testbit (Z.land fl (2 ^ k)) k = true) as Ht
      by by rewrite Z.land_spec, E, Z.pow2_bits_true.
    by rewrite <- E', Z.testbit_0_l in Ht.
  - apply negb_false_iff, Z.eqb_eq, Z.bits_inj'. intros i Hi.
    rewrite Z.testbit_0_l, Z.land_spec, Z.pow2_bits_eqb by lia.
    destruct (Z.eqb_spec k i) as [<-|]; [by rewrite E|by rewrite andb_false_r].
Qed.

Lemma length_pending c : pos_ok c -> Z.of_nat (length (pending c)) = sdslen (querybuf c) - qb_pos c.
Proof. intros [? _]. unfold pending, sdslen in *. rewrite length_drop. lia. Qed.

Lemma remaining_spec c : pos_ok c -> remaining c = Z.of_nat (length (pending c)).
Proof.
  intros Hc. rewrite length_pending by done. destruct Hc as (? & ? & _). unfold remaining.
  apply wrapu_small. cint.
Qed.

Lemma pending_range c : pos_ok c -> in_s 64 (Z.of_nat (length (pending c))).
Proof. intros Hc. rewrite length_pending by done. destruct Hc as (? & ? & _). cint. Qed.

Lemma sdsrange_drop s k : 0 <= k <= sdslen s -> in_s 64 (sdslen s) -> sdsrange s k (-1) = drop (Z.to_nat k) s.
Proof.
  unfold sdsrange, sdssubstr, sdslen. intros Hk Hs. remember (Z.of_nat (length s)) as l eqn:Hl0.
  destruct (Z.eqb_spec l 0) as [E|E].
  { destruct s; [by rewrite drop_nil|simpl in Hl0; lia]. }
  rewrite (proj2 (Z.ltb_ge k 0)), (proj2 (Z.ltb_lt (-1) 0)) by lia. rewrite wrapu_small by cint.
  destruct (Z.leb_spec l k) as [Hl|Hl].
  - rewrite (drop_ge s (Z.to_nat k)) by lia. destruct (Z.ltb_spec (l - 0) 0); [lia|done].
  - rewrite (proj2 (Z.ltb_ge (l + -1) k)) by lia.
    destruct (Z.ltb_spec (l - k) (l + -1 - k + 1)); [lia|].
    apply take_ge. rewrite length_drop. lia.
Qed.

Lemma moved_advance c n :
  pos_ok c -> (n <= length (pending c))%nat -> moved c n (set_qb_pos (qb_pos c + Z.of_nat n) c).
Proof.
  intros Hc Hn. pose proof (length_pending c Hc) as Hl. pose proof Hc as (H1 & H2 & H3).
  assert (Hp : pending (set_qb_pos (qb_pos c + Z.of_nat n) c) = drop n (pending c)).
  { unfold pending. cbn [set_qb_pos qb_pos querybuf]. rewrite drop_drop. f_equal. lia. }
  split; [|done|done|done|exact Hp|].
  - unfold pos_ok. cbn [set_qb_pos qb_pos querybuf repl_applied].
    change (is_master (set_qb_pos (qb_pos c + Z.of_nat n) c)) with (is_master c).
    unfold sdslen in *. split; [lia|]. split; [done|]. destruct (is_master c); lia.
  - unfold unapplied. change (is_master (set_qb_pos (qb_pos c + Z.of_nat n) c)) with (is_master c).
    destruct (is_master c); [|done]. cbn [set_qb_pos qb_pos querybuf repl_applied].
    replace (Z.to_nat (qb_pos c + Z.of_nat n)) with (Z.to_nat (qb_pos c) + n)%nat by lia.
    rewrite <- (take_take_drop (querybuf c)).
    unfold sdslen in *. rewrite drop_app_le by (rewrite length_take; lia). done.
Qed.

(** Changes outside the buffer. *)
Definition same_buf (c c' : client) : Prop :=
  querybuf c' = querybuf c /\ qb_pos c' = qb_pos c /\ repl_applied c' = repl_applied c /\
  is_master c' = is_master c /\ read_reploff c' = read_reploff c.

Lemma moved_same_buf c n c' c'' : moved c n c' -> same_buf c' c'' -> moved c n c''.
Proof.
  intros [H1 H2 H2' H3 H4 H5] (E1 & E2 & E3 & E4 & E5).
  split; [|congruence|congruence|done|rewrite <- H4; unfold pending; by rewrite E1, E2|
    rewrite <- H5; unfold unapplied; by rewrite E1, E2, E3, E4].
  unfold pos_ok in *. by rewrite E1, E2, E3, E4.
Qed.

Lemma moved_refl c : pos_ok c -> moved c 0 c.
Proof.
  intros Hc. split; [done|done|done|lia|by rewrite drop_0|].
  destruct (is_master c); [by rewrite take_0, app_nil_r|by rewrite app_nil_r].
Qed.

Lemma moved_trans c n c' n' c'' : moved c n c' -> moved c' n' c'' -> moved c (n + n') c''.
Proof.
  intros [H1 H2 H2r H3 H4 H5] [H1' H2' H2r' H3' H4' H5'].
  split; [done|congruence|congruence|rewrite H4, length_drop in H3'; lia| |].
  - rewrite H4', H4, drop_drop. done.
  - rewrite H5', H5, H2, H4, <- app_assoc. f_equal. destruct (is_master c); [|done].
    apply take_take_drop.
Qed.

(** Dropping the parsed part of a buffer that no replica waits for. *)
Lemma moved_align c :
  pos_ok c -> is_master c = false ->
  moved c 0 (set_qb_pos 0 (set_querybuf (sdsrange (querybuf c) (qb_pos c) (-1)) c)).
Proof.
  intros Hc Hm. destruct Hc as (H1 & H2 & H3). rewrite Hm in H3. rewrite sdsrange_drop by done.
  set (c' := set_qb_pos _ _).
  assert (Hm' : is_master c' = false) by done.
  assert (Hp : pending c' = drop 0 (pending c)) by (unfold pending, c'; by rewrite drop_0).
  split; [|congruence|done|lia|done|unfold unapplied; by rewrite Hm, Hm'].
  unfold pos_ok. rewrite Hm'. unfold sdslen in *.
  change (querybuf c') with (drop (Z.to_nat (qb_pos c)) (querybuf c)). rewrite length_drop.
  change (qb_pos c') with 0. change (repl_applied c') with (repl_applied c). cint_unfold.
  split; [lia|]. split; [lia|done].
Qed.

Lemma moved_drop_all c n c' :
  pos_ok c -> is_master c = false -> n = length (pending c) ->
  querybuf c' = [] -> qb_pos c' = 0 -> repl_applied c' = repl_applied c -> is_master c' = false ->
  read_reploff c' = read_reploff c -> moved c n c'.
Proof.
  intros Hc Hm -> E1 E2 E3 E4 E5. split; [|congruence|done|done| |].
  - unfold pos_ok. rewrite E1, E2, E3, E4. destruct Hc as (_ & _ & H3). rewrite Hm in H3.
    unfold sdslen. simpl. split; [lia|]. split; [cint|done].
  - unfold pending at 1. by rewrite E1, drop_nil, drop_all.
  - unfold unapplied. by rewrite E4, Hm.
Qed.

(** ** Each function of [Resp] follows the reference *)

Lemma strchr_Some p ch n : strchr p ch = Some n -> 0 <= n < Z.of_nat (length p).
Proof.
  revert n. induction p as [|c p IH]; intros n; cbn [strchr length]; [done|].
  destruct (c =? ch); [intros [= <-]; lia|]. destruct (c =? 0); [done|].
  destruct (strchr p ch) as [m|]; [|done]. cbn. intros [= <-]. specialize (IH m eq_refl). lia.
Qed.

(** The end of a line is at the same place when more data follows. *)
Lemma strchr_app p q ch n : strchr p ch = Some n -> strchr (p ++ q) ch = Some n.
Proof.
  revert n. induction p as [|c p IH]; intros n; cbn [strchr app]; [done|].
  destruct (c =? ch); [done|]. destruct (c =? 0); [done|].
  destruct (strchr p ch) as [m|]; [|done]. by rewrite (IH m).
Qed.

(** [resetClient] in one step. *)
Definition reset_sess (s : session) : session :=
  let multi := has (flags s) CLIENT_MULTI in
  let fl := if negb multi && negb (is_proc askingCommand (cmd s)) then Z.ldiff (flags s) CLIENT_ASKING else flags s in
  let fl := if negb multi && negb (is_proc clientCommand (cmd s)) then Z.ldiff fl CLIENT_TRACKING_CACHING else fl in
  let fl := Z.ldiff fl CLIENT_REPLY_SKIP in
  let fl := if has fl CLIENT_REPLY_SKIP_NEXT
            then Z.ldiff (Z.lor fl CLIENT_REPLY_SKIP) CLIENT_REPLY_SKIP_NEXT else fl in
  Session fl (authenticated s) None (-1) None None (reply s).

Lemma resetClient_eq c :
  resetClient c = set_sess (reset_sess (sess c)) (set_bulklen (-1) (set_multibulklen 0 (set_reqtype 0
    (set_argv_len 0 (set_argv_len_sum 0 (set_argv [] c)))))).
Proof.
  unfold resetClient, reset_sess. cbn zeta.
  change (flags (sess (on_sess (set_deferred_reply_errors None) _))) with (flags (sess c)).
  destruct (negb _ && negb (is_proc askingCommand _)), (negb _ && negb (is_proc clientCommand _));
    (match goal with |- (if ?b then _ else _) = _ => destruct b eqn:E end);
    cbn in E |- *; rewrite E; done.
Qed.

Lemma reset_sess_master s : has (flags (reset_sess s)) CLIENT_MASTER = has (flags s) CLIENT_MASTER.
Proof.
  unfold reset_sess. cbn [flags]. rewrite !(has_bit _ 1) by lia.
  repeat case_match; rewrite ?Z.ldiff_spec, ?Z.lor_spec, ?Z.ldiff_spec;
    by destruct (Z.testbit (flags s) 1).
Qed.

(** The outcome of a part of a function against the verdict of the reference. *)
Definition agrees (c : client) (o : outcome) (v : verdict) : Prop :=
  match o, v with
  | Return C_ERR c', VErr n r | Return C_ERR c', VWait n r | Break c', VWait n r
  | Return C_OK c', VDone n r | Break c', VDone n r | Go c', VGo n r => moved c n c' /\ rest c' = r
  | _, _ => False
  end.

Section refinement.
Context {W : Type} {SV : Server W} {SL : ServerLaws W} (cf : config).
Implicit Types (w : W) (c : client).

(** An error leaves the buffer alone. *)
Lemma error_moved c msg : pos_ok c -> moved c 0 (protocol_error msg c).
Proof.
  intros Hc. apply (moved_same_buf c 0 c); [by apply moved_refl|]. split_and!; try done.
  unfold is_master, protocol_error, setProtocolError, addReplyError, on_sess, or_flags.
  cbn [sess set_sess set_flags flags set_reply]. rewrite !has_bit by lia.
  rewrite Z.lor_spec. change (Z.testbit (Z.lor (Z.shiftl 1 6) (Z.shiftl 1 39)) 1) with false.
  by rewrite orb_false_r.
Qed.

Lemma line_wait c n :
  pos_ok c -> 0 <= n < Z.of_nat (length (pending c)) ->
  (i64 (u64 (remaining c - 2)) <? n) = (Z.of_nat (length (pending c)) <? n + 2).
Proof.
  intros Hc Hn. rewrite remaining_spec by done. pose proof (pending_range c Hc).
  rewrite wraps_wrapu, wraps_small by cint.
  destruct (Z.ltb_spec (Z.of_nat (length (pending c)) - 2) n), (Z.ltb_spec (Z.of_nat (length (pending c))) (n + 2)); lia.
Qed.

Lemma header_moved c n :
  pos_ok c -> 0 <= n -> n + 2 <= Z.of_nat (length (pending c)) ->
  moved c (Z.to_nat n + 2) (set_qb_pos (qb_pos c + n + 2) c).
Proof.
  intros Hc H0 Hn. replace (qb_pos c + n + 2) with (qb_pos c + Z.of_nat (Z.to_nat n + 2)) by lia.
  apply moved_advance; [done|lia].
Qed.

Lemma read_mbulk_count_agrees w c :
  pos_ok c -> option_Forall2 (agrees c) (read_mbulk_count w c) (ref_count w (pending c) (rest c)).
Proof.
  intros Hc. unfold read_mbulk_count, ref_count, ref_header. change (argv (rest c)) with (argv c).
  destruct (negb (bool_decide (argv c = []))); [constructor|].
  destruct (strchr (pending c) 13) as [n|] eqn:E.
  2:{ rewrite remaining_spec by done. case_match; constructor; cbn;
      (split; [|done]); [by apply error_moved|by apply moved_refl]. }
  apply strchr_Some in E as Hn. rewrite line_wait by done.
  destruct (Z.ltb_spec (Z.of_nat (length (pending c))) (n + 2)) as [Hw|Hw].
  { constructor. split; [by apply moved_refl|done]. }
  destruct (negb (at_ (pending c) 0 =? 42)); [constructor|].
  destruct (string2ll _) as [ll|]; [|constructor; split; [by apply error_moved|done]].
  destruct (Z.ltb_spec INT_MAX ll); [constructor; split; [by apply error_moved|done]|].
  change (authRequired w (rest c)) with (authRequired w c).
  destruct ((10 <? ll) && authRequired w c); [constructor; split; [by apply error_moved|done]|].
  pose proof (header_moved c n Hc ltac:(lia) ltac:(lia)) as Hm.
  destruct (Z.leb_spec ll 0); constructor; [by split|].
  cbn [set_multibulklen multibulklen]. rewrite wraps_small by cint. split; [|done].
  eapply moved_same_buf; [exact Hm|]. by split_and!.
Qed.

Lemma align_moved ll c : pos_ok c -> moved c 0 (align_big_arg ll c) /\ rest (align_big_arg ll c) = rest c.
Proof.
  intros Hc. unfold align_big_arg. destruct (is_master c) eqn:Hm; cbn [negb andb].
  { split; [by apply moved_refl|done]. }
  destruct (_ <=? ll); [|split; [by apply moved_refl|done]].
  case_match; (split; [|done]); [by apply moved_align|by apply moved_refl].
Qed.

Lemma read_bulk_len_agrees w c :
  pos_ok c -> agrees c (read_bulk_len cf w c) (ref_len cf w (pending c) (rest c)).
Proof.
  intros Hc. unfold read_bulk_len, ref_len, ref_header.
  assert (Herr : forall msg, agrees c (Return C_ERR (protocol_error msg c)) (VErr 0 (protocol_error msg (rest c)))).
  { intros msg. split; [by apply error_moved|done]. }
  assert (Hwait : agrees c (Break c) (VWait 0 (rest c))) by (split; [by apply moved_refl|done]).
  destruct (strchr (pending c) 13) as [n|] eqn:E.
  2:{ rewrite remaining_spec by done. case_match; auto. }
  apply strchr_Some in E as Hn. rewrite line_wait by done.
  destruct (Z.ltb_spec (Z.of_nat (length (pending c))) (n + 2)) as [Hw|Hw]; [done|].
  destruct (negb (at_ (pending c) 0 =? 36)); [done|].
  destruct (string2ll _) as [ll|]; [|done].
  change (is_master (rest c)) with (is_master c).
  destruct (_ || _); [done|]. change (authRequired w (rest c)) with (authRequired w c).
  destruct (_ && _); [done|].
  pose proof (header_moved c n Hc ltac:(lia) ltac:(lia)) as Hm.
  destruct (align_moved ll _ (moved_ok _ _ _ Hm)) as [Ha Er]. split.
  - pose proof (moved_trans _ _ _ _ _ Hm Ha) as Ht. rewrite Nat.add_0_r in Ht.
    eapply moved_same_buf; [exact Ht|]. by split_and!.
  - transitivity (set_bulklen ll (rest (align_big_arg ll (set_qb_pos (qb_pos c + n + 2) c)))); [done|].
    by rewrite Er.
Qed.

(** [push_arg] does not look at the buffer. *)
Lemma push_arg_rest o c :
  option_Forall2 (λ c1 r1, rest c1 = r1 /\ same_buf c c1) (push_arg o c) (push_arg o (rest c)).
Proof.
  unfold push_arg. change (argv (rest c)) with (argv c). change (argv_len (rest c)) with (argv_len c).
  change (multibulklen (rest c)) with (multibulklen c).
  destruct (argv_len c <=? Z.of_nat (length (argv c))); cbn [argv_len set_argv_len argv];
    change (argv_len (rest c)) with (argv_len c);
    (case_match; constructor; split; [reflexivity|by split_and!]).
Qed.

Lemma read_bulk_agrees c :
  pos_ok c -> 0 <= bulklen c <= LLONG_MAX ->
  option_Forall2 (agrees c) (read_bulk c) (ref_bulk (pending c) (rest c)).
Proof.
  intros Hc Hb. unfold read_bulk, ref_bulk. change (bulklen (rest c)) with (bulklen c).
  pose proof (pending_range c Hc). rewrite remaining_spec by done.
  assert (Hlen : bulklen c + 2 = u64 (i64 (bulklen c + 2)) \/
                 bulklen c + 2 > LLONG_MAX /\ u64 (i64 (bulklen c + 2)) > LLONG_MAX).
  { destruct (Z.le_gt_cases (bulklen c + 2) LLONG_MAX).
    - left. rewrite wraps_small, wrapu_small; cint.
    - right. split; [lia|]. unfold wraps, wrapu. change (2 ^ (64 - 1)) with 9223372036854775808.
      change (2 ^ 64) with 18446744073709551616.
      replace (bulklen c + 2 + 9223372036854775808)
        with (bulklen c + 2 - 9223372036854775808 + 1 * 18446744073709551616) by lia.
      rewrite Z.mod_add, (Z.mod_small (bulklen c + 2 - 9223372036854775808)) by lia.
      replace (bulklen c + 2 - 9223372036854775808 - 9223372036854775808)
        with (bulklen c + 2 + (-1) * 18446744073709551616) by lia.
      rewrite Z.mod_add, Z.mod_small by lia. lia. }
  destruct (Z.ltb_spec (Z.of_nat (length (pending c))) (bulklen c + 2)) as [Hw|Hw].
  { rewrite (proj2 (Z.ltb_lt _ _)) by cint. constructor. split; [by apply moved_refl|done]. }
  destruct Hlen as [Hlen|]; [|cint]. rewrite <- Hlen, (proj2 (Z.ltb_ge _ _)) by lia.
  destruct (_ && _ && _ && _) eqn:Eopt.
  - rewrite !andb_true_iff in Eopt. destruct Eopt as [[[Hm Hq] _] Hl].
    apply negb_true_iff in Hm. apply Z.eqb_eq in Hq, Hl.
    assert (Hp : pending c = querybuf c) by (unfold pending; by rewrite Hq, drop_0). rewrite <- Hp.
    destruct (push_arg_rest (take (Z.to_nat (bulklen c)) (pending c)) c) as [c1 r1 [Hr Hs]|]; [|constructor].
    constructor. subst r1. destruct Hs as (E1 & E2 & E3 & E4 & E5). split; [|done].
    apply moved_drop_all; try done; [unfold sdslen in Hl; rewrite Hp; lia|cbn; congruence|].
    by rewrite <- Hm, <- E4.
  - destruct (push_arg_rest (take (Z.to_nat (bulklen c)) (pending c)) c) as [c1 r1 [Hr Hs]|]; [|constructor].
    constructor. subst r1. split; [|done].
    pose proof (moved_advance c (Z.to_nat (bulklen c + 2)) Hc ltac:(lia)) as Hm.
    eapply moved_same_buf; [exact Hm|]. destruct Hs as (E1 & E2 & E3 & E4 & E5).
    split; [done|]. split; [cbn; lia|]. by split_and!.
Qed.

Definition bulklen_ok (c : client) : Prop := bulklen c = -1 \/ 0 <= bulklen c <= LLONG_MAX.

Lemma ref_len_bulklen w p r n r' : ref_len cf w p r = VGo n r' -> 0 <= bulklen r' <= LLONG_MAX.
Proof.
  unfold ref_len, ref_header. repeat case_match; intros E; try done. injection E as _ <-.
  cbn [set_bulklen bulklen]. simplify_eq.
  match goal with Hs : string2ll _ = Some _ |- _ => apply string2ll_spec in Hs as [Hs _] end.
  match goal with Hs : _ || _ = false |- _ => apply orb_false_iff in Hs as [Hs%Z.ltb_ge _] end.
  cint.
Qed.

Lemma ref_bulk_Go p r n r' :
  ref_bulk p r = Some (VGo n r') -> 0 <= bulklen r ->
  bulklen r' = -1 /\ (2 <= n <= length p)%nat.
Proof.
  unfold ref_bulk. destruct (Z.ltb_spec (Z.of_nat (length p)) (bulklen r + 2)); [done|].
  destruct (push_arg _ _); cbn; [|done]. intros [= <- <-] Hb. split; [done|lia].
Qed.

(** An argument that is complete consumes two bytes at least. *)
Lemma ref_arg_Go w p r n r' :
  bulklen_ok r -> ref_arg cf w p r = Some (VGo n r') -> bulklen r' = -1 /\ (2 <= n <= length p)%nat.
Proof.
  intros Hb. unfold ref_arg. destruct (Z.eqb_spec (bulklen r) (-1)) as [E|E].
  - destruct (ref_len cf w p r) as [| | |m r1] eqn:El; try done.
    apply ref_len_bulklen in El. destruct (ref_bulk _ _) as [[]|] eqn:Eb; cbn; try done.
    intros [= <- <-]. apply ref_bulk_Go in Eb as [? Hn]; [|lia]. rewrite length_drop in Hn. lia.
  - intros Eb. apply ref_bulk_Go in Eb as []; [lia|]. destruct Hb; lia.
Qed.

Lemma ref_args_fuel fuel fuel' w p r :
  bulklen_ok r -> (length p < fuel)%nat -> (length p < fuel')%nat ->
  ref_args cf fuel w p r = ref_args cf fuel' w p r.
Proof.
  revert fuel' p r. induction fuel as [|fuel IH]; intros [|fuel'] p r Hb H1 H2; try lia.
  cbn [ref_args]. destruct (multibulklen r =? 0); [done|].
  destruct (ref_arg cf w p r) as [[| | |n r']|] eqn:E; cbn; try done.
  apply ref_arg_Go in E as [Hb' Hn]; [|done].
  rewrite (IH fuel'); [done|by left|rewrite length_drop; lia..].
Qed.

(** The verdicts each part can have. *)
Lemma ref_len_kind w p r :
  match ref_len cf w p r with
  | VErr n _ => n = 0%nat
  | VWait n r' => n = 0%nat /\ r' = r
  | VDone _ _ => False
  | VGo _ r' => exists ll, r' = set_bulklen ll r
  end.
Proof.
  unfold ref_len. destruct (ref_header p) as [| |f n num]; [done|done|].
  destruct (negb _); [done|]. destruct num as [ll|]; [|done].
  destruct (_ || _); [done|]. destruct (_ && _); [done|eauto].
Qed.

Lemma ref_bulk_kind p r v :
  ref_bulk p r = Some v ->
  match v with VErr _ _ | VDone _ _ => False | VWait n r' => n = 0%nat /\ r' = r | VGo _ _ => True end.
Proof.
  unfold ref_bulk. case_match; [by intros [= <-]|]. destruct (push_arg _ _); cbn; [|done]. by intros [= <-].
Qed.

Lemma ref_arg_kind w p r v :
  ref_arg cf w p r = Some v ->
  match v with VDone _ _ => False | VWait _ r' => multibulklen r' = multibulklen r | _ => True end.
Proof.
  unfold ref_arg. pose proof (ref_len_kind w p r) as Hk. destruct (_ =? -1).
  - destruct (ref_len cf w p r) as [| | |n r1]; [by intros [= <-]|intros [= <-]; by destruct Hk as [_ ->]|done|].
    destruct Hk as [ll ->]. destruct (ref_bulk _ _) as [v1|] eqn:E; [|done]. intros [= <-].
    apply ref_bulk_kind in E. destruct v1; [done| |done..]. by destruct E as [-> ->].
  - intros E%ref_bulk_kind. destruct v; [done| |done..]. by destruct E as [_ ->].
Qed.

(** The verdicts of the loop tell whether arguments are missing. *)
Lemma ref_args_kind fuel w p r v :
  ref_args cf fuel w p r = Some v ->
  match v with VDone _ r' => multibulklen r' = 0 | VWait _ r' => multibulklen r' <> 0 | VErr _ _ => True | VGo _ _ => False end.
Proof.
  revert p r v. induction fuel as [|fuel IH]; intros p r v; cbn [ref_args];
    (destruct (Z.eqb_spec (multibulklen r) 0) as [E0|E0]; [by intros [= <-]|]); [done|].
  destruct (ref_arg cf w p r) as [v1|] eqn:E; [|done]. cbn [mbind option_bind].
  apply ref_arg_kind in E. destruct v1 as [n1 r1|n1 r1|n1 r1|n1 r1].
  - by intros [= <-].
  - intros [= <-]. congruence.
  - done.
  - destruct (ref_args cf fuel w _ r1) as [v2|] eqn:E2; [|done]. intros [= <-].
    apply IH in E2. by destruct v2.
Qed.

Lemma agrees_vadd c n c1 o v : moved c n c1 -> agrees c1 o v -> agrees c o (vadd n v).
Proof.
  intros Hm. destruct o as [[] c'|c'|c'], v; cbn; try done; intros [Hm' Hr];
    (split; [by eapply moved_trans|done]).
Qed.

(** The body of the loop. *)
Definition read_arg w c : option outcome :=
  match (if bulklen c =? -1 then read_bulk_len cf w c else Go c) with
  | Go c => read_bulk c
  | o => Some o
  end.

Lemma multibulk_loop_S fuel w c :
  multibulk_loop cf (S fuel) w c =
  if multibulklen c =? 0 then Some (Break c)
  else o ← read_arg w c; match o with Go c => multibulk_loop cf fuel w c | o => Some o end.
Proof.
  cbn [multibulk_loop]. unfold read_arg. destruct (multibulklen c =? 0); [done|].
  destruct (bulklen c =? -1); [by destruct (read_bulk_len cf w c)|done].
Qed.

Lemma read_arg_agrees w c :
  pos_ok c -> bulklen_ok c ->
  option_Forall2 (agrees c) (read_arg w c) (ref_arg cf w (pending c) (rest c)).
Proof.
  intros Hc Hb. unfold read_arg, ref_arg. change (bulklen (rest c)) with (bulklen c).
  destruct (Z.eqb_spec (bulklen c) (-1)) as [E|E].
  - pose proof (read_bulk_len_agrees w c Hc) as Ha. pose proof (ref_len_bulklen w (pending c) (rest c)) as Hl.
    destruct (read_bulk_len cf w c) as [st c1|c1|c1], (ref_len cf w (pending c) (rest c)) as [n r|n r|n r|n r];
      cbn in Ha; try done; try (by constructor); try (by destruct st).
    destruct Ha as [Hm <-]. specialize (Hl n _ eq_refl).
    pose proof (read_bulk_agrees c1 (moved_ok _ _ _ Hm) Hl) as Hbulk.
    rewrite (moved_pending _ _ _ Hm) in Hbulk. destruct Hbulk as [o v Ho|]; constructor.
    by eapply agrees_vadd.
  - apply read_bulk_agrees; [done|]. destruct Hb; [done|lia].
Qed.

Lemma multibulk_loop_agrees fuel w c :
  pos_ok c -> bulklen_ok c ->
  option_Forall2 (agrees c) (multibulk_loop cf fuel w c) (ref_args cf fuel w (pending c) (rest c)).
Proof.
  revert c. induction fuel as [|fuel IH]; intros c Hc Hb;
    [cbn [multibulk_loop]|rewrite multibulk_loop_S]; cbn [ref_args];
    change (multibulklen (rest c)) with (multibulklen c);
    (destruct (multibulklen c =? 0); [constructor; split; [by apply moved_refl|done]|]); [constructor|].
  pose proof (read_arg_agrees w c Hc Hb) as Ha.
  pose proof (ref_arg_Go w (pending c) (rest c)) as Hgo.
  destruct Ha as [o v Ha|]; [|constructor]. cbn [mbind option_bind].
  destruct o as [st c1|c1|c1], v as [n r|n r|n r|n r]; cbn in Ha; try done; try (by constructor);
    try (by destruct st).
  destruct Ha as [Hm <-]. destruct (Hgo n (rest c1)) as [Hb1 _]; [done|done|].
  pose proof (IH c1 (moved_ok _ _ _ Hm) (or_introl Hb1)) as Hl.
  rewrite (moved_pending _ _ _ Hm) in Hl. destruct Hl as [o v Ho|]; constructor.
  by eapply agrees_vadd.
Qed.

(** A request: error or not enough data, or a complete one. *)
Definition req_agrees (c : client) (x : status * client) (v : verdict) : Prop :=
  match x.1, v with
  | C_ERR, VErr n r | C_ERR, VWait n r | C_OK, VDone n r => moved c n x.2 /\ rest x.2 = r
  | _, _ => False
  end.

Lemma pending_fuel c : pos_ok c -> (length (pending c) < S (length (querybuf c)))%nat.
Proof. intros _. unfold pending. rewrite length_drop. lia. Qed.

Lemma loop_request fuel w c0 n c :
  moved c0 n c -> bulklen_ok c -> (length (pending c) < fuel)%nat ->
  option_Forall2 (req_agrees c0)
    (o ← multibulk_loop cf (S (length (querybuf c))) w c;
     match o with
     | Return st c => Some (st, c)
     | Break c | Go c => Some (if multibulklen c =? 0 then C_OK else C_ERR, c)
     end)
    (v ← ref_args cf fuel w (pending c) (rest c); Some (vadd n v)).
Proof.
  intros Hm Hb Hf. pose proof (moved_ok _ _ _ Hm) as Hc.
  rewrite (ref_args_fuel fuel (S (length (querybuf c)))) by (done || by apply pending_fuel).
  pose proof (multibulk_loop_agrees (S (length (querybuf c))) w c Hc Hb) as Ha.
  pose proof (ref_args_kind (S (length (querybuf c))) w (pending c) (rest c)) as Hk.
  destruct Ha as [o v Ha|]; [|constructor]. specialize (Hk v eq_refl). cbn [mbind option_bind].
  apply (agrees_vadd c0 n) in Ha; [|done].
  destruct o as [[] c1|c1|c1], v as [m r|m r|m r|m r]; cbn in Ha; try done; try (by constructor);
    destruct Ha as [Hm' <-]; change (multibulklen (rest c1)) with (multibulklen c1) in Hk;
    [rewrite (proj2 (Z.eqb_neq _ 0)) by done|rewrite Hk]; by constructor.
Qed.

Definition parse_ok (c : client) : Prop :=
  bulklen_ok c /\ 0 <= multibulklen c /\ (multibulklen c = 0 -> bulklen c = -1).

Lemma ref_count_Go w p r n r' :
  ref_count w p r = Some (VGo n r') -> bulklen r' = bulklen r /\ 0 < multibulklen r' <= INT_MAX.
Proof.
  unfold ref_count. repeat case_match; intros E; try done. injection E as _ <-. cbn. split; [done|].
  repeat match goal with Hl : (_ <? _) = false |- _ => apply Z.ltb_ge in Hl
    | Hl : (_ <=? _) = false |- _ => apply Z.leb_gt in Hl end. lia.
Qed.

Lemma read_mbulk_count_no_Break w c c' : read_mbulk_count w c <> Some (Break c').
Proof. unfold read_mbulk_count. repeat case_match; congruence. Qed.

Lemma processMultibulkBuffer_agrees w c :
  pos_ok c -> parse_ok c ->
  option_Forall2 (req_agrees c) (processMultibulkBuffer cf w c) (ref_multibulk cf w (pending c) (rest c)).
Proof.
  intros Hc (Hb & Hm0 & Hb0). unfold processMultibulkBuffer, ref_multibulk.
  change (multibulklen (rest c)) with (multibulklen c).
  destruct (Z.eqb_spec (multibulklen c) 0) as [E|E].
  - pose proof (read_mbulk_count_agrees w c Hc) as Ha.
    pose proof (ref_count_Go w (pending c) (rest c)) as Hgo.
    pose proof (read_mbulk_count_no_Break w c) as Hnb.
    destruct Ha as [o v Ha|]; [|constructor]. cbn [mbind option_bind].
    destruct o as [[] c1|c1|c1], v as [n r|n r|n r|n r]; cbn in Ha; try done; try (by constructor);
      try (by destruct (Hnb c1)).
    destruct Ha as [Hm <-]. destruct (Hgo n (rest c1) eq_refl) as [E1 E2].
    change (multibulklen (rest c1)) with (multibulklen c1) in E2.
    rewrite (proj2 (Z.leb_gt _ 0)) by lia. rewrite <- (moved_pending _ _ _ Hm).
    apply loop_request; [done|left; rewrite <- Hb0; done|].
    rewrite (moved_pending _ _ _ Hm), length_drop. lia.
  - cbn [mbind option_bind]. rewrite (proj2 (Z.leb_gt _ 0)) by lia.
    pose proof (loop_request (S (length (pending c))) w c 0 c (moved_refl c Hc) Hb ltac:(lia)) as Hl.
    destruct (ref_args _ _ _ _ _) as [v|]; [by destruct v|done].
Qed.

Lemma is_master_setProtocolError c : is_master (setProtocolError c) = is_master c.
Proof.
  unfold is_master, setProtocolError, on_sess, or_flags. cbn [sess set_sess set_flags flags].
  rewrite !has_bit, Z.lor_spec by lia.
  change (Z.testbit (Z.lor (Z.shiftl 1 6) (Z.shiftl 1 39)) 1) with false. apply orb_false_r.
Qed.

Lemma processInlineBuffer_agrees c :
  pos_ok c -> req_agrees c (processInlineBuffer cf c) (ref_inline cf (pending c) (rest c)).
Proof.
  intros Hc. unfold processInlineBuffer, ref_inline. rewrite remaining_spec by done.
  destruct (strchr (pending c) 10) as [n|] eqn:E.
  2:{ case_match; (split; [|done]); [by apply error_moved|by apply moved_refl]. }
  apply strchr_Some in E as Hn.
  set (len := if negb (n =? 0) && (at_ (pending c) (Z.to_nat (n - 1)) =? 13) then n - 1 else n).
  set (lf := if negb (n =? 0) && (at_ (pending c) (Z.to_nat (n - 1)) =? 13) then 2%nat else 1%nat).
  assert (Hlf : len + Z.of_nat lf = n + 1 /\ 0 <= len).
  { unfold len, lf. destruct (Z.eqb_spec n 0); cbn [negb andb]; [lia|]. case_match; lia. }
  assert (forall A (k : Z -> Z -> A),
    (let '(newline, linefeed_chars) :=
       if negb (n =? 0) && (at_ (pending c) (Z.to_nat (n - 1)) =? 13) then (n - 1, 2) else (n, 1) in
     k newline linefeed_chars) = k len (Z.of_nat lf)) as Hk.
  { intros A k. unfold len, lf. by destruct (_ && _). }
  rewrite Hk.
  assert (forall A (k : Z -> nat -> A),
    (let '(len, lf) :=
       if negb (n =? 0) && (at_ (pending c) (Z.to_nat (n - 1)) =? 13) then (n - 1, 2%nat) else (n, 1%nat) in
     k len lf) = k len lf) as Hk'.
  { intros A k. unfold len, lf. by destruct (_ && _). }
  rewrite Hk'. clear Hk Hk'. clearbody len lf.
  destruct (sdssplitargs _) as [args|]; [|split; [by apply error_moved|done]].
  change (is_slave_type (rest c)) with (is_slave_type c).
  set (c1 := if (len =? 0) && is_slave_type c then set_repl_ack_time (unixtime cf) c else c).
  assert (same_buf c c1 /\ rest c1 = if (len =? 0) && is_slave_type c
            then set_repl_ack_time (unixtime cf) (rest c) else rest c) as [Hs Hr]
    by (unfold c1; case_match; (split; [by split_and!|done])).
  rewrite <- Hr. change (is_master (rest c1)) with (is_master c1). clearbody c1.
  assert (Hm1 : moved c 0 c1) by (eapply moved_same_buf; [by apply moved_refl|done]).
  destruct (negb (len =? 0) && is_master c1).
  { split; [|done]. eapply moved_same_buf; [exact Hm1|]. split_and!; try done.
    apply is_master_setProtocolError. }
  pose proof (moved_advance c1 (Z.to_nat len + lf) (moved_ok _ _ _ Hm1)) as Hm2.
  rewrite (moved_pending _ _ _ Hm1), drop_0 in Hm2. specialize (Hm2 ltac:(lia)).
  pose proof (moved_trans _ _ _ _ _ Hm1 Hm2) as Hm. cbn [Nat.add] in Hm.
  replace (qb_pos c1 + (len + Z.of_nat lf)) with (qb_pos c1 + Z.of_nat (Z.to_nat len + lf)) by lia.
  unfold store_inline. destruct (bool_decide (args = []));
    (split; [eapply moved_same_buf; [exact Hm|by split_and!]|done]).
Qed.

Lemma reset_same_buf c : same_buf c (resetClient c).
Proof. rewrite resetClient_eq. split_and!; try done. apply reset_sess_master. Qed.

Lemma reset_rest c : rest (resetClient c) = resetClient (rest c).
Proof. by rewrite !resetClient_eq. Qed.

(** The replication offset of a master is behind by what it has not passed on. *)
Definition offset_ok (read : Z) (d p : bytes) (r : client) : Prop :=
  is_master r = true -> reploff r + Z.of_nat (length d) + Z.of_nat (length p) = read.

(** The reference state of a client. *)
Definition abs (c : client) : bytes * bytes * client := (unapplied c, pending c, rest c).

Lemma same_buf_abs c c' :
  same_buf c c' -> pos_ok c ->
  pos_ok c' /\ unapplied c' = unapplied c /\ pending c' = pending c.
Proof.
  intros Hs Hc. pose proof (moved_same_buf _ _ _ _ (moved_refl c Hc) Hs) as Hm.
  split; [apply Hm|]. split.
  - rewrite (moved_unapplied _ _ _ Hm). case_match; by rewrite app_nil_r.
  - by rewrite (moved_pending _ _ _ Hm), drop_0.
Qed.

Lemma length_unapplied c :
  pos_ok c -> is_master c = true -> Z.of_nat (length (unapplied c)) = qb_pos c - repl_applied c.
Proof.
  intros (H1 & _ & H3) Hm. unfold unapplied. rewrite Hm in *. unfold sdslen in *.
  rewrite length_drop, length_take. lia.
Qed.

Lemma rd_unapplied c :
  pos_ok c -> is_master c = true ->
  rd (querybuf c) (repl_applied c) (length (unapplied c)) = Some (unapplied c).
Proof.
  intros Hc Hm. pose proof (length_unapplied c Hc Hm) as Hl. destruct Hc as (H1 & _ & H3).
  rewrite Hm in H3. unfold sdslen in *. unfold rd. rewrite decide_True by lia.
  f_equal. unfold unapplied at 2. rewrite Hm, skipn_firstn_comm. f_equal. lia.
Qed.

Lemma commandProcessed_agrees w c :
  pos_ok c -> offset_ok (read_reploff c) (unapplied c) (pending c) (rest c) ->
  exists w' c', commandProcessed w c = Some (w', c') /\ pos_ok c' /\ pending c' = pending c /\
    read_reploff c' = read_reploff c /\ ref_processed w (unapplied c) (rest c) = (w', unapplied c', rest c').
Proof.
  intros Hc Hoff. unfold commandProcessed, ref_processed.
  change (flags (sess (rest c))) with (flags (sess c)).
  destruct (has (flags (sess c)) CLIENT_BLOCKED); [by exists w, c|].
  rewrite <- reset_rest. pose proof (reset_same_buf c) as Hs.
  destruct (same_buf_abs _ _ Hs Hc) as (Hc1 & Hu & Hp).
  assert (Hoff1 : offset_ok (read_reploff (resetClient c)) (unapplied (resetClient c)) (pending (resetClient c)) (resetClient c)).
  { destruct Hs as (_ & _ & _ & Em & Er). unfold offset_ok. rewrite Hu, Hp, Em, Er. rewrite resetClient_eq. exact Hoff. }
  destruct Hs as (_ & _ & _ & _ & Er). rewrite <- Hu, <- Hp, <- Er.
  revert Hc1 Hoff1. clear. generalize (resetClient c) as c1. intros c1 Hc1 Hoff1.
  change (is_master (rest c1)) with (is_master c1). change (flags (sess (rest c1))) with (flags (sess c1)).
  destruct (is_master c1) eqn:Hm; cbn [andb].
  2:{ rewrite Hm. by exists w, c1. }
  destruct (has (flags (sess c1)) CLIENT_MULTI); cbn [negb].
  { rewrite Hm, Z.sub_diag. by exists w, c1. }
  set (c2 := set_reploff _ c1). change (is_master c2) with (is_master c1). rewrite Hm.
  pose proof (length_pending c1 Hc1) as Hlp. pose proof (length_unapplied c1 Hc1 Hm) as Hlu.
  specialize (Hoff1 Hm).
  assert (Eapp : reploff c2 - reploff c1 = Z.of_nat (length (unapplied c1))) by (cbn; lia).
  rewrite Eapp. assert (Hr : rest c2 = set_reploff (reploff c1 + Z.of_nat (length (unapplied c1))) (rest c1)).
  { unfold c2. rewrite <- Eapp. cbn. by replace (reploff c1 + (read_reploff c1 - sdslen (querybuf c1) + qb_pos c1 - reploff c1))
      with (read_reploff c1 - sdslen (querybuf c1) + qb_pos c1) by lia. }
  destruct (Z.eqb_spec (Z.of_nat (length (unapplied c1))) 0) as [E0|E0].
  - assert (En : unapplied c1 = []) by (destruct (unapplied c1); [done|simpl in E0; lia]).
    exists w, c2. split_and!; [done..|]. rewrite bool_decide_true by done.
    change (unapplied c2) with (unapplied c1). by rewrite Hr, En.
  - rewrite Nat2Z.id. change (querybuf c2) with (querybuf c1). change (repl_applied c2) with (repl_applied c1).
    rewrite rd_unapplied by done. cbn [mbind option_bind]. rewrite (proj2 (Z.ltb_ge _ 0)) by lia.
    eexists _, _. split; [done|]. split; [|split; [done|split; [done|]]].
    + destruct Hc1 as (H1 & H2 & H3). rewrite Hm in H3. split; [done|]. split; [done|].
      match goal with |- if ?b then _ else _ => change b with (is_master c1) end. rewrite Hm. cbn. lia.
    + rewrite bool_decide_false by (intros E; by rewrite E in E0).
      f_equal; [|exact (eq_sym Hr)]. f_equal. symmetry. apply nil_length_inv. clear E0 Eapp Hr.
      revert Hlu Hoff1. generalize (Z.of_nat (length (unapplied c1))) as k. intros k Hlu Hoff1. unfold unapplied.
      match goal with |- context [is_master ?x] => change (is_master x) with (is_master c1) end.
      rewrite Hm. cbn [set_repl_applied repl_applied]. rewrite length_drop, length_take.
      change (qb_pos (set_repl_applied _ c2)) with (qb_pos c1). lia.
Qed.

(** ** What parsing preserves *)

(** The fields of the replication stream are not the parser's. *)
Definition frame (r r' : client) : Prop :=
  reploff r' = reploff r /\ is_master r' = is_master r.

Definition keeps (r r' : client) : Prop := (parse_ok r -> parse_ok r') /\ frame r r'.

#[local] Instance keeps_preorder : PreOrder keeps.
Proof.
  split.
  - intros r. by split.
  - intros r1 r2 r3 (H1 & E1 & E2) (H2 & E3 & E4). split; [auto|]. split; congruence.
Qed.

Lemma is_master_error msg r : is_master (protocol_error msg r) = is_master r.
Proof. unfold protocol_error. by rewrite is_master_setProtocolError. Qed.

Lemma keeps_error msg r : keeps r (protocol_error msg r).
Proof. split; [done|]. split; [done|apply is_master_error]. Qed.

Lemma keeps_push o r r' : push_arg o r = Some r' -> keeps r r' /\ bulklen r' = bulklen r /\ multibulklen r' = multibulklen r.
Proof.
  unfold push_arg. destruct (argv_len r <=? _); (destruct (_ <? _); [|done]); intros [= <-];
    (split; [|done]); by split.
Qed.

Lemma ref_bulk_keeps p r v :
  multibulklen r <> 0 -> ref_bulk p r = Some v -> keeps r (vclient v).
Proof.
  intros H0. unfold ref_bulk. case_match; [by intros [= <-]|].
  destruct (push_arg _ r) as [r1|] eqn:E; [|done]. intros [= <-].
  apply keeps_push in E as ([Hp Hf] & E1 & E2). split; [|done].
  intros Hr. unfold parse_ok, bulklen_ok. cbn. destruct Hr as (_ & Hm & _). rewrite E2. split_and!; [by left|lia|done].
Qed.

Lemma ref_len_keeps w p r : multibulklen r <> 0 -> keeps r (vclient (ref_len cf w p r)).
Proof.
  intros H0. pose proof (ref_len_bulklen w p r) as Hb. unfold ref_len in *.
  destruct (ref_header p) as [| |f n num]; [apply keeps_error|done|].
  destruct (negb _); [apply keeps_error|]. destruct num as [ll|]; [|apply keeps_error].
  destruct (_ || _); [apply keeps_error|]. destruct (_ && _); [apply keeps_error|].
  specialize (Hb n (set_bulklen ll r) eq_refl). split; [|done]. intros (_ & Hm & _).
  split; [right; exact Hb|]. split; [done|]. intros E. by destruct H0.
Qed.

Lemma ref_arg_keeps w p r v :
  multibulklen r <> 0 -> ref_arg cf w p r = Some v -> keeps r (vclient v).
Proof.
  intros H0. unfold ref_arg. pose proof (ref_len_keeps w p r H0) as Hl. pose proof (ref_len_kind w p r) as Hk.
  destruct (_ =? -1); [|by apply ref_bulk_keeps].
  destruct (ref_len cf w p r) as [| | |n r1]; try (by intros [= <-]).
  destruct (ref_bulk _ r1) as [v1|] eqn:E; [|done]. intros [= <-].
  destruct Hk as [ll ->]. apply ref_bulk_keeps in E; [|done].
  etransitivity; [exact Hl|]. by destruct v1.
Qed.

Lemma ref_args_keeps fuel w p r v : ref_args cf fuel w p r = Some v -> keeps r (vclient v).
Proof.
  revert p r v. induction fuel as [|fuel IH]; intros p r v; cbn [ref_args];
    (destruct (Z.eqb_spec (multibulklen r) 0) as [E0|E0]; [by intros [= <-]|]); [done|].
  destruct (ref_arg cf w p r) as [v1|] eqn:E; [|done]. apply ref_arg_keeps in E; [|done].
  cbn [mbind option_bind]. destruct v1 as [n1 r1|n1 r1|n1 r1|n1 r1]; try (by intros [= <-]).
  destruct (ref_args cf fuel w _ r1) as [v2|] eqn:E2; [|done]. intros [= <-].
  apply IH in E2. etransitivity; [exact E|]. by destruct v2.
Qed.

Lemma ref_count_keeps w p r v :
  multibulklen r = 0 -> ref_count w p r = Some v -> keeps r (vclient v).
Proof.
  intros H0. pose proof (ref_count_Go w p r) as Hgo. unfold ref_count in *.
  destruct (negb _); [done|]. destruct (ref_header p) as [| |f n num].
  { intros [= <-]. apply keeps_error. } { by intros [= <-]. }
  destruct (negb _); [done|]. destruct num as [ll|]; [|intros [= <-]; apply keeps_error].
  destruct (_ <? ll); [intros [= <-]; apply keeps_error|].
  destruct (_ && _); [intros [= <-]; apply keeps_error|].
  destruct (ll <=? 0); [by intros [= <-]|]. intros [= <-].
  destruct (Hgo _ _ eq_refl) as [E1 E2]. split; [|done]. intros (_ & _ & Hb).
  split; [left; rewrite <- (Hb H0); exact E1|]. split; [cbn in *; lia|]. cbn in *. lia.
Qed.

Lemma ref_multibulk_keeps w p r v : ref_multibulk cf w p r = Some v -> keeps r (vclient v).
Proof.
  unfold ref_multibulk. destruct (Z.eqb_spec (multibulklen r) 0) as [E0|E0]; [|apply ref_args_keeps].
  destruct (ref_count w p r) as [v1|] eqn:E; [|done]. apply ref_count_keeps in E; [|done].
  cbn [mbind option_bind]. destruct v1 as [n1 r1|n1 r1|n1 r1|n1 r1]; try (by intros [= <-]).
  destruct (ref_args cf _ w _ r1) as [v2|] eqn:E2; [|done]. intros [= <-].
  apply ref_args_keeps in E2. etransitivity; [exact E|]. by destruct v2.
Qed.

Lemma ref_inline_keeps p r : keeps r (vclient (ref_inline cf p r)).
Proof.
  unfold ref_inline. destruct (strchr p 10) as [n|]; [|case_match; [apply keeps_error|done]].
  destruct (if _ && _ then _ else _) as [len lf].
  destruct (sdssplitargs _) as [args|]; [|apply keeps_error].
  set (r1 := if (len =? 0) && _ then _ else r).
  assert (Hr1 : keeps r r1) by (unfold r1; by case_match). clearbody r1.
  etransitivity; [exact Hr1|]. destruct (_ && _).
  - split; [done|]. split; [done|apply is_master_setProtocolError].
  - cbn [vclient]. unfold store_inline. case_match; by split.
Qed.

Lemma ref_request_keeps w p r v : ref_request cf w p r = Some v -> keeps r (vclient v).
Proof.
  unfold ref_request. destruct (_ =? _); [intros [= <-]; apply ref_inline_keeps|].
  destruct (_ =? _); [apply ref_multibulk_keeps|done].
Qed.

Lemma ref_detect_keeps p r : keeps r (ref_detect p r).
Proof. unfold ref_detect. case_match; by split. Qed.

Lemma exec_agrees w c :
  pos_ok c -> offset_ok (read_reploff c) (unapplied c) (pending c) (rest c) ->
  exists w' o, processCommandAndResetClient w c = Some (w', o) /\
    (ref_exec w (unapplied c) (rest c)).1 = w' /\
    option_Forall2 (λ c' y, pos_ok c' /\ pending c' = pending c /\ read_reploff c' = read_reploff c /\
                            y = (unapplied c', rest c'))
      o (ref_exec w (unapplied c) (rest c)).2.
Proof.
  intros Hc Hoff. unfold processCommandAndResetClient, ref_exec.
  change (argv (rest c)) with (argv c). change (sess (rest c)) with (sess c).
  pose proof (command_keeps_master (argv c) (sess c) w) as Hk.
  destruct (processCommand (argv c) (sess c) w) as [[[w1 s] st] alive].
  assert (Hs : same_buf c (set_sess s c)) by by split_and!.
  destruct (same_buf_abs _ _ Hs Hc) as (Hc1 & Hu & Hp).
  change (set_sess s (rest c)) with (rest (set_sess s c)). change (read_reploff c) with (read_reploff (set_sess s c)) in *.
  assert (Hoff1 : offset_ok (read_reploff (set_sess s c)) (unapplied (set_sess s c)) (pending (set_sess s c)) (rest (set_sess s c))).
  { rewrite Hu, Hp. intros Hm. apply Hoff. revert Hm. unfold is_master. cbn. by rewrite Hk. }
  rewrite <- Hu, <- Hp. destruct st.
  - destruct (commandProcessed_agrees w1 _ Hc1 Hoff1) as (w' & c' & E & Hc' & Hp' & Hr' & Er).
    rewrite E, Er. cbn. eexists _, _. split; [done|]. split; [done|].
    destruct alive; constructor. by split_and!.
  - cbn. eexists _, _. split; [done|]. split; [done|]. destruct alive; constructor. by split_and!.
Qed.

Definition ref_inv (read : Z) (d p : bytes) (r : client) : Prop := parse_ok r /\ offset_ok read d p r.

(** The result of the loop against the reference. *)
Definition result_agrees (read : Z) (x : W * option client) (y : W * option (bytes * bytes * client)) : Prop :=
  x.1 = y.1 /\ option_Forall2 (λ c z, pos_ok c /\ ref_inv read (unapplied c) (pending c) (rest c) /\
                                       read_reploff c = read /\ abs c = z) x.2 y.2.

Lemma idle_parse_ok c : bulklen c = -1 -> multibulklen c = 0 -> parse_ok c.
Proof. intros Hb Hm. split; [by left|]. split; [lia|done]. Qed.

Lemma ref_exec_inv read w d p r d' r' :
  parse_ok r -> offset_ok read d p r ->
  (ref_exec w d r).2 = Some (d', r') -> ref_inv read d' p r'.
Proof.
  intros Hp Hoff. unfold ref_exec. pose proof (command_keeps_master (argv r) (sess r) w) as Hk.
  destruct (processCommand (argv r) (sess r) w) as [[[w1 s] st] alive].
  assert (Hoff1 : offset_ok read d p (set_sess s r)).
  { intros Hm. apply Hoff. revert Hm. unfold is_master. cbn. by rewrite Hk. }
  destruct st.
  - unfold ref_processed. destruct (has _ CLIENT_BLOCKED).
    { cbn. destruct alive; [|done]. intros [= <- <-]. by split. }
    pose proof (reset_same_buf (set_sess s r)) as (_ & _ & _ & Em & _).
    rewrite resetClient_eq in *. destruct (is_master _ && _) eqn:E; cbn.
    + apply andb_true_iff in E as [E _]. rewrite Em in E. specialize (Hoff1 E).
      destruct alive; [|done]. intros [= <- <-]. split; [by apply idle_parse_ok|]. intros _. cbn in *. lia.
    + destruct alive; [|done]. intros [= <- <-]. split; [by apply idle_parse_ok|]. intros Hm.
      apply Hoff1. by rewrite <- Em.
  - cbn. destruct alive; [|done]. intros [= <- <-]. by split.
Qed.

Lemma parse_request_agrees w c :
  pos_ok c -> parse_ok c ->
  option_Forall2 (req_agrees c) (parse_request cf w c) (ref_request cf w (pending c) (rest c)).
Proof.
  intros Hc Hp. unfold parse_request, ref_request. change (reqtype (rest c)) with (reqtype c).
  destruct (_ =? _); [constructor; by apply processInlineBuffer_agrees|].
  destruct (_ =? _); [by apply processMultibulkBuffer_agrees|constructor].
Qed.

Lemma result_same w c :
  pos_ok c -> ref_inv (read_reploff c) (unapplied c) (pending c) (rest c) ->
  option_Forall2 (result_agrees (read_reploff c)) (Some (w, Some c)) (Some (w, Some (abs c))).
Proof. intros Hc Hi. constructor. split; [done|]. by constructor. Qed.

Lemma input_loop_agrees fuel w c :
  pos_ok c -> ref_inv (read_reploff c) (unapplied c) (pending c) (rest c) ->
  option_Forall2 (result_agrees (read_reploff c)) (input_loop cf fuel w c)
    (ref_input cf fuel w (unapplied c) (pending c) (rest c)).
Proof.
  revert w c. induction fuel as [|fuel IH]; intros w c Hc [Hp Hoff]; cbn [input_loop ref_input];
    change (stopped w (rest c)) with (stopped w c);
    (assert (Hend : (sdslen (querybuf c) <=? qb_pos c) = bool_decide (pending c = []));
     [pose proof (length_pending c Hc); destruct (pending c);
       [apply Z.leb_le; simpl in *; lia|apply Z.leb_gt; simpl in *; lia]|]); rewrite Hend;
    (destruct (bool_decide (pending c = [])); [by apply result_same; [|split]|]);
    (destruct (stopped w c); [by apply result_same; [|split]|]); [constructor|].
  set (c0 := detect_reqtype c).
  assert (same_buf c c0 /\ rest c0 = ref_detect (pending c) (rest c)) as [Hs Hr0]
    by (unfold c0, detect_reqtype, ref_detect; change (reqtype (rest c)) with (reqtype c);
        case_match; (split; [by split_and!|done])).
  destruct (same_buf_abs _ _ Hs Hc) as (Hc0 & Hu & Hpe).
  assert (Hread : read_reploff c0 = read_reploff c) by apply Hs.
  pose proof (ref_detect_keeps (pending c) (rest c)) as Hkd. rewrite <- Hr0 in *.
  clearbody c0. clear Hs Hr0. assert (Hp0 : parse_ok c0) by (by apply Hkd).
  assert (Hoff0 : offset_ok (read_reploff c) (unapplied c) (pending c) (rest c0)).
  { intros Hm. destruct Hkd as (_ & E1 & E2). rewrite E1. apply Hoff. by rewrite <- E2. }
  pose proof (parse_request_agrees w c0 Hc0 Hp0) as Ha. rewrite Hpe in Ha.
  pose proof (ref_request_keeps w (pending c) (rest c0)) as Hkr.
  destruct Ha as [[st c1] v Ha|]; [|constructor]. specialize (Hkr v eq_refl). cbn [mbind option_bind].
  assert (Hm1 : moved c0 (vlen v) c1 /\ rest c1 = vclient v) by (destruct st, v; done).
  destruct Hm1 as [Hm1 Hr1]. rewrite <- Hr1 in *.
  assert (Hd1 : keep (rest c) (unapplied c) (pending c) (vlen v) = unapplied c1).
  { rewrite (moved_unapplied _ _ _ Hm1), Hu, Hpe. unfold keep.
    destruct Hkd as (_ & _ & E3). change (is_master (rest c0)) with (is_master c0) in E3. rewrite <- E3.
    case_match; [done|by rewrite app_nil_r]. }
  rewrite Hd1. rewrite <- Hpe, <- (moved_pending _ _ _ Hm1).
  pose proof (moved_ok _ _ _ Hm1) as Hc1. pose proof (moved_read _ _ _ Hm1) as Hread1. rewrite Hread in Hread1.
  assert (Hp1 : parse_ok (rest c1)) by by apply Hkr.
  assert (Hoff1 : offset_ok (read_reploff c) (unapplied c1) (pending c1) (rest c1)).
  { intros Hm. destruct Hkr as (_ & E1 & E3). rewrite E1. rewrite E3 in Hm.
    specialize (Hoff0 Hm). rewrite (moved_unapplied _ _ _ Hm1), (moved_pending _ _ _ Hm1), Hu, Hpe.
    change (is_master (rest c0)) with (is_master c0) in Hm. rewrite Hm, length_app, length_take, length_drop.
    pose proof (moved_len _ _ _ Hm1). rewrite Hpe in *. lia. }
  rewrite <- Hread1 in *. clear Hread Hread1.
  destruct st, v as [n r|n r|n r|n r]; cbn in Ha; try done.
  - cbn in Hr1. subst r. change (argv (rest c1)) with (argv c1).
    case_bool_decide.
    { rewrite <- reset_rest. destruct (same_buf_abs _ _ (reset_same_buf c1) Hc1) as (Hc2 & Hu2 & Hp2).
      rewrite <- Hu2, <- Hp2. destruct (reset_same_buf c1) as (_ & _ & _ & _ & Er). rewrite <- Er.
      apply IH; [done|]. rewrite Hu2, Hp2, Er. rewrite reset_rest, resetClient_eq.
      split; [by apply idle_parse_ok|]. intros Hm. apply Hoff1. revert Hm.
      unfold is_master. cbn [sess set_sess]. by rewrite reset_sess_master. }
    destruct (io_threads_op cf); [|constructor|constructor].
    + destruct (exec_agrees w c1 Hc1 Hoff1) as (w' & o & E & E1 & E2). rewrite E. cbn [mbind option_bind].
      pose proof (ref_exec_inv (read_reploff c1) w (unapplied c1) (pending c1) (rest c1)) as Hinv.
      destruct (ref_exec w (unapplied c1) (rest c1)) as [w2 o2]. cbn in E1, E2, Hinv. subst w2.
      destruct E2 as [c2 y (Hc2 & Hp2 & Er & ->)|]; [|constructor; split; [done|constructor]].
      rewrite <- Hp2, <- Er. apply IH; [done|]. rewrite Hp2, Er. by apply Hinv.
    + split; [done|]. constructor.
      destruct (same_buf_abs c1 (on_sess (or_flags CLIENT_PENDING_COMMAND) c1)) as (Hc2 & Hu2 & Hp2); [|done|].
      { split_and!; try done. unfold is_master. cbn [sess on_sess or_flags set_flags flags set_sess].
        rewrite !has_bit, Z.lor_spec by lia. apply orb_false_r. }
      split; [done|]. split; [|split; [done|unfold abs; by rewrite Hu2, Hp2]].
      rewrite Hu2, Hp2. split; [done|]. intros Hm. apply Hoff1. revert Hm.
      change (is_master (rest (on_sess _ c1))) with (has (Z.lor (flags (sess c1)) CLIENT_PENDING_COMMAND) CLIENT_MASTER).
      rewrite has_bit, Z.lor_spec, <- has_bit by lia. by rewrite orb_false_r.
  - cbn in Hr1. subst. by apply result_same; [|split].
  - cbn in Hr1. subst. by apply result_same; [|split].
Qed.
End refinement.
