(* ===== verification/RespChunk.v ===== *)
(** The reference parser and the way the input is cut into pieces.

    A part of the parser that has completed does the same when more data follows,
    and one that waits goes on from the state it has saved as if all the data had
    been there from the start. *)

From S2P Require Import Prelude Util SdsArgs Resp RespRef.

Local Open Scope string_scope.
Local Open Scope list_scope.
Local Open Scope Z_scope.

Section chunks.
Context {W : Type} {SV : Server W} {SL : ServerLaws W} (cf : config).
Implicit Types (w : W) (p b d : bytes) (r c : client).

Definition vmap (n : nat) (o : option verdict) : option verdict := v ← o; Some (vadd n v).

Lemma at_app p b k : (k < length p)%nat -> at_ (p ++ b) k = at_ p k.
Proof. intros Hk. unfold at_. by apply app_nth1. Qed.

Lemma take_app_pre p b n : (n <= length p)%nat -> take n (p ++ b) = take n p.
Proof. intros. by apply take_app_le. Qed.

Lemma drop_app_pre p b n : (n <= length p)%nat -> drop n (p ++ b) = drop n p ++ b.
Proof. intros. by apply drop_app_le. Qed.

Lemma ref_header_app p b f n num :
  ref_header p = HNum f n num -> ref_header (p ++ b) = HNum f n num /\ (2 <= n <= length p)%nat.
Proof.
  unfold ref_header. destruct (strchr p 13) as [k|] eqn:E; [|by case_match].
  apply strchr_Some in E as Hk. rewrite (strchr_app _ b _ _ E).
  destruct (Z.ltb_spec (Z.of_nat (length p)) (k + 2)) as [Hw|Hw]; [done|]. intros [= <- <- <-].
  rewrite (proj2 (Z.ltb_ge _ _)) by (rewrite length_app; lia). split; [|lia].
  destruct p as [|x p]; [simpl in *; lia|]. rewrite at_app by (simpl; lia). do 2 f_equal.
  rewrite drop_app_pre by (simpl; lia). rewrite take_app_pre; [done|].
  rewrite length_drop. lia.
Qed.

(** ** Lengths and arguments *)

Lemma ref_count_app w p b r :
  match ref_count w p r with
  | Some (VDone n r') | Some (VGo n r') =>
      ref_count w (p ++ b) r = ref_count w p r /\ (2 <= n <= length p)%nat
  | Some (VWait n r') => n = 0%nat /\ r' = r
  | _ => True
  end.
Proof.
  unfold ref_count. destruct (negb _); [done|].
  destruct (ref_header p) as [| |f n num] eqn:E; [done|done|].
  destruct (ref_header_app p b f n num E) as [-> Hn].
  destruct (negb _); [done|]. destruct num as [ll|]; [|done].
  destruct (_ <? ll); [done|]. destruct (_ && _); [done|]. by destruct (ll <=? 0).
Qed.

Lemma ref_len_app w p b r n r' :
  ref_len cf w p r = VGo n r' -> ref_len cf w (p ++ b) r = VGo n r' /\ (2 <= n <= length p)%nat.
Proof.
  unfold ref_len. destruct (ref_header p) as [| |f m num] eqn:E; [done|done|].
  destruct (ref_header_app p b f m num E) as [-> Hn].
  destruct (negb _); [done|]. destruct num as [ll|]; [|done].
  destruct (_ || _); [done|]. destruct (_ && _); [done|]. intros [= <- <-]. done.
Qed.

Lemma ref_bulk_app p b r n r' :
  0 <= bulklen r -> ref_bulk p r = Some (VGo n r') ->
  ref_bulk (p ++ b) r = Some (VGo n r') /\ (2 <= n <= length p)%nat.
Proof.
  intros Hb Hg. pose proof Hg as [_ Hn]%ref_bulk_Go; [|done]. split; [|done]. revert Hg. unfold ref_bulk.
  destruct (Z.ltb_spec (Z.of_nat (length p)) (bulklen r + 2)) as [Hw|Hw]; [done|].
  rewrite (proj2 (Z.ltb_ge _ _)) by (rewrite length_app; lia).
  by rewrite take_app_pre by lia.
Qed.

Lemma ref_arg_app w p b r n r' :
  bulklen_ok r -> ref_arg cf w p r = Some (VGo n r') -> ref_arg cf w (p ++ b) r = Some (VGo n r').
Proof.
  intros Hb. unfold ref_arg. destruct (Z.eqb_spec (bulklen r) (-1)) as [E|E].
  - destruct (ref_len cf w p r) as [| | |m r1] eqn:El; try done.
    pose proof (ref_len_bulklen _ _ _ _ _ _ El) as Hb1. apply (ref_len_app _ _ b) in El as [-> Hm].
    destruct (ref_bulk (drop m p) r1) as [[| | |k r2]|] eqn:Eb; try done. intros [= <- <-].
    apply (ref_bulk_app _ b) in Eb as [Eb _]; [|lia]. rewrite drop_app_pre by lia. by rewrite Eb.
  - intros Eb. apply (ref_bulk_app _ b) in Eb as [Eb _]; [done|]. destruct Hb; lia.
Qed.

(** A saved state resumes where it was left. *)
Lemma ref_arg_resume w p b r n r' :
  bulklen_ok r -> ref_arg cf w p r = Some (VWait n r') ->
  (n <= length p)%nat /\ ref_arg cf w (p ++ b) r = vmap n (ref_arg cf w (drop n p ++ b) r').
Proof.
  intros Hb. unfold ref_arg at 1. destruct (Z.eqb_spec (bulklen r) (-1)) as [E|E].
  - pose proof (ref_len_kind cf w p r) as Hk.
    destruct (ref_len cf w p r) as [| | |m r1] eqn:El; try done.
    + intros [= <- <-]. destruct Hk as [-> ->]. split; [lia|]. unfold vmap.
      rewrite drop_0. destruct (ref_arg _ _ _ r) as [[]|]; done.
    + pose proof (ref_len_bulklen _ _ _ _ _ _ El) as Hb1.
      destruct (ref_bulk (drop m p) r1) as [v|] eqn:Eb; [|done]. apply ref_bulk_kind in Eb as Hkb.
      destruct v; try done. destruct Hkb as [-> ->]. intros [= <- <-].
      apply (ref_len_app _ _ b) in El as [El Hm]. rewrite Nat.add_0_r. split; [lia|].
      unfold ref_arg. rewrite E, El, drop_app_pre by lia. cbn [Z.eqb Pos.eqb].
      by rewrite (proj2 (Z.eqb_neq _ (-1))) by lia.
  - intros Eb%ref_bulk_kind. destruct Eb as [-> ->]. split; [lia|]. rewrite drop_0. unfold vmap.
    destruct (ref_arg _ _ _ r) as [[]|]; done.
Qed.

Lemma vmap_vmap n m o : vmap n (vmap m o) = vmap (n + m) o.
Proof. destruct o as [[]|]; cbn; try done; do 2 f_equal; lia. Qed.

(** The bytes a verdict consumes are there. *)
Lemma ref_args_app fuel fuel' w p b r n r' :
  parse_ok r -> (length (p ++ b) < fuel')%nat -> ref_args cf fuel w p r = Some (VDone n r') ->
  ref_args cf fuel' w (p ++ b) r = Some (VDone n r') /\ (n <= length p)%nat /\ (multibulklen r <> 0 -> (2 <= n)%nat).
Proof.
  revert fuel' p r n. induction fuel as [|fuel IH]; intros fuel' p r n Hp Hf;
    (destruct fuel' as [|fuel']; [lia|]); cbn [ref_args];
    (destruct (Z.eqb_spec (multibulklen r) 0) as [E0|E0]; [intros [= <- <-]; split; [done|]; split; [lia|done]|]); [done|].
  destruct (ref_arg cf w p r) as [v1|] eqn:E; [|done]. cbn [mbind option_bind].
  pose proof (ref_arg_kind _ _ _ _ _ E) as Hk. destruct v1 as [n1 r1|n1 r1|n1 r1|n1 r1]; try done.
  pose proof (ref_arg_keeps _ _ _ _ _ E0 E) as [Hp1 _].
  pose proof (ref_arg_Go _ _ _ _ _ _ (proj1 Hp) E) as [_ Hn1].
  apply (ref_arg_app _ _ b) in E; [|apply Hp]. rewrite E. cbn [mbind option_bind].
  rewrite drop_app_pre by lia.
  destruct (ref_args cf fuel w (drop n1 p) r1) as [v2|] eqn:E2; [|done].
  intros Hv. destruct v2 as [n2 r2|n2 r2|n2 r2|n2 r2]; try done. injection Hv as <- <-.
  destruct (IH fuel' (drop n1 p) r1 n2) as (Ea & Hl & _); [by apply Hp1| |done|].
  { rewrite length_app, length_drop in *. lia. }
  rewrite Ea. rewrite length_drop in Hl. split; [done|]. lia.
Qed.

Lemma ref_args_resume fuel fuel1 fuel2 w p b r n r' :
  parse_ok r -> (length (p ++ b) < fuel1)%nat -> (length (drop n p ++ b) < fuel2)%nat ->
  ref_args cf fuel w p r = Some (VWait n r') ->
  (n <= length p)%nat /\ ref_args cf fuel1 w (p ++ b) r = vmap n (ref_args cf fuel2 w (drop n p ++ b) r').
Proof.
  revert fuel1 fuel2 p r n. induction fuel as [|fuel IH]; intros fuel1 fuel2 p r n Hp Hf1 Hf2; cbn [ref_args];
    (destruct (Z.eqb_spec (multibulklen r) 0) as [E0|E0]; [done|]); [done|].
  destruct (ref_arg cf w p r) as [v1|] eqn:E; [|done]. cbn [mbind option_bind].
  pose proof (ref_arg_kind _ _ _ _ _ E) as Hk.
  destruct v1 as [n1 r1|n1 r1|n1 r1|n1 r1]; try done.
  - (* this argument is not complete *)
    intros [= <- <-]. pose proof (ref_arg_keeps _ _ _ _ _ E0 E) as [Hp1 _].
    apply (ref_arg_resume _ _ b) in E as [Hn E]; [|apply Hp]. split; [done|].
    destruct fuel1 as [|fuel1], fuel2 as [|fuel2]; [lia..|]. cbn [ref_args].
    rewrite (proj2 (Z.eqb_neq (multibulklen r) 0)), Hk, (proj2 (Z.eqb_neq (multibulklen r) 0)) by done.
    rewrite E. pose proof (ref_arg_Go cf w (drop n1 p ++ b) r1) as Hgo.
    pose proof (ref_arg_keeps cf w (drop n1 p ++ b) r1) as Hk1.
    destruct (ref_arg cf w (drop n1 p ++ b) r1) as [v2|] eqn:E2; [|done]. cbn [vmap mbind option_bind].
    destruct v2 as [n2 r2|n2 r2|n2 r2|n2 r2]; try done. cbn [vadd].
    destruct (Hgo n2 r2) as [_ Hn2]; [by apply Hp1|done|].
    assert (Hp2 : parse_ok r2) by (apply (Hk1 (VGo n2 r2)); [by rewrite Hk|done|by apply Hp1]).
    replace (drop (n1 + n2) (p ++ b)) with (drop n2 (drop n1 p ++ b))
      by (rewrite <- drop_app_pre, drop_drop by lia; done).
    rewrite (ref_args_fuel cf fuel1 fuel2); [|apply Hp2|rewrite length_drop, length_app, ?length_drop in *; lia..].
    destruct (ref_args _ _ _ _ r2) as [[]|]; cbn; try done; do 2 f_equal; lia.
  - (* a later argument is not complete *)
    pose proof (ref_arg_keeps _ _ _ _ _ E0 E) as [Hp1 _].
    pose proof (ref_arg_Go _ _ _ _ _ _ (proj1 Hp) E) as [_ Hn1].
    apply (ref_arg_app _ _ b) in E; [|apply Hp].
    destruct (ref_args cf fuel w (drop n1 p) r1) as [v2|] eqn:E2; [|done]. intros Hv.
    destruct v2 as [n2 r2|n2 r2|n2 r2|n2 r2]; try done. injection Hv as <- <-.
    destruct fuel1 as [|fuel1]; [lia|]. cbn [ref_args].
    rewrite (proj2 (Z.eqb_neq (multibulklen r) 0)), E by done. cbn [mbind option_bind].
    rewrite drop_app_pre by lia.
    destruct (IH fuel1 fuel2 (drop n1 p) r1 n2) as [Hl Ea]; [by apply Hp1|..|done|].
    { rewrite length_app, length_drop in *. lia. }
    { rewrite drop_drop. done. }
    rewrite length_drop in Hl. split; [lia|]. rewrite Ea, drop_drop.
    change (v ← vmap n2 ?o; Some (vadd n1 v)) with (vmap n1 (vmap n2 o)). apply vmap_vmap.
Qed.

(** ** Requests *)

Lemma ref_multibulk_app w p b r n r' :
  parse_ok r -> ref_multibulk cf w p r = Some (VDone n r') ->
  ref_multibulk cf w (p ++ b) r = Some (VDone n r') /\ (2 <= n <= length p)%nat.
Proof.
  intros Hp. unfold ref_multibulk. destruct (Z.eqb_spec (multibulklen r) 0) as [E0|E0].
  - pose proof (ref_count_app w p b r) as Hc. destruct (ref_count w p r) as [v1|] eqn:E; [|done].
    pose proof (ref_count_keeps _ _ _ _ E0 E) as [Hp1 _].
    destruct v1 as [n1 r1|n1 r1|n1 r1|n1 r1]; cbn [mbind option_bind]; try done.
    { destruct Hc as [-> Hn]. cbn. by intros [= <- <-]. }
    destruct Hc as [-> Hn]. cbn [mbind option_bind]. rewrite drop_app_pre by lia.
    destruct (ref_args cf _ w (drop n1 p) r1) as [v2|] eqn:E2; [|done]. intros Hv.
    destruct v2 as [n2 r2|n2 r2|n2 r2|n2 r2]; try done. injection Hv as <- <-.
    apply (ref_args_app _ (S (length (p ++ b))) _ _ b) in E2 as (-> & Hl & _);
      [|by apply Hp1|rewrite !length_app, length_drop; lia].
    rewrite length_drop in Hl. split; [done|lia].
  - intros E. apply (ref_args_app _ (S (length (p ++ b))) _ _ b) in E as (-> & Hl & Hn); [|done|lia].
    split; [done|]. split; [by apply Hn|done].
Qed.

Lemma ref_multibulk_resume w p b r n r' :
  parse_ok r -> ref_multibulk cf w p r = Some (VWait n r') ->
  (n <= length p)%nat /\ ref_multibulk cf w (p ++ b) r = vmap n (ref_multibulk cf w (drop n p ++ b) r').
Proof.
  intros Hp. unfold ref_multibulk at 1. destruct (Z.eqb_spec (multibulklen r) 0) as [E0|E0].
  - pose proof (ref_count_app w p b r) as Hc. destruct (ref_count w p r) as [v1|] eqn:E; [|done].
    pose proof (ref_count_keeps _ _ _ _ E0 E) as [Hp1 _].
    destruct v1 as [n1 r1|n1 r1|n1 r1|n1 r1]; cbn [mbind option_bind]; try done.
    { intros [= <- <-]. destruct Hc as [-> ->]. split; [lia|]. rewrite drop_0. unfold vmap.
      by destruct (ref_multibulk _ _ _ r) as [[]|]. }
    destruct Hc as [Ec Hn].
    destruct (ref_args cf _ w (drop n1 p) r1) as [v2|] eqn:E2; [|done]. intros Hv.
    destruct v2 as [n2 r2|n2 r2|n2 r2|n2 r2]; try done. injection Hv as <- <-.
    pose proof (ref_args_kind _ _ _ _ _ _ E2) as Hk.
    apply (ref_args_resume _ (S (length (p ++ b))) (S (length (drop (n1 + n2) p ++ b))) _ _ b) in E2 as [Hl E2];
      [|by apply Hp1|rewrite !length_app, length_drop; lia|rewrite drop_drop; lia].
    rewrite length_drop in Hl. split; [lia|]. unfold ref_multibulk.
    rewrite E0, Ec, (proj2 (Z.eqb_neq (multibulklen r2) 0)) by done. cbn [Z.eqb mbind option_bind].
    rewrite drop_app_pre, E2, drop_drop by lia. apply vmap_vmap.
  - intros E. pose proof (ref_args_kind _ _ _ _ _ _ E) as Hk.
    apply (ref_args_resume _ (S (length (p ++ b))) (S (length (drop n p ++ b))) _ _ b) in E as [Hl E]; [|done|lia..].
    split; [done|]. unfold ref_multibulk.
    by rewrite (proj2 (Z.eqb_neq (multibulklen r) 0)), (proj2 (Z.eqb_neq (multibulklen r') 0)).
Qed.

Lemma ref_inline_app p b r n r' :
  ref_inline cf p r = VDone n r' ->
  ref_inline cf (p ++ b) r = VDone n r' /\ (1 <= n <= length p)%nat.
Proof.
  unfold ref_inline. destruct (strchr p 10) as [k|] eqn:E; [|by case_match].
  apply strchr_Some in E as Hk. rewrite (strchr_app _ b _ _ E).
  rewrite at_app by lia.
  assert (Hlen : forall len lf, (if negb (k =? 0) && (at_ p (Z.to_nat (k - 1)) =? 13)
      then (k - 1, 2%nat) else (k, 1%nat)) = (len, lf) -> 0 <= len /\ (1 <= lf)%nat /\ len + Z.of_nat lf = k + 1).
  { intros len lf. destruct (Z.eqb_spec k 0); cbn [negb andb]; [intros [= <- <-]; lia|].
    destruct (_ =? 13); intros [= <- <-]; lia. }
  destruct (if _ && _ then _ else _) as [len lf]. destruct (Hlen len lf eq_refl) as (H1 & H2 & H3).
  rewrite take_app_pre by lia. destruct (sdssplitargs _); [|done].
  match goal with |- context [if negb (len =? 0) && ?m then _ else _] => destruct (negb (len =? 0) && m) end; [done|].
  intros [= <- <-]. split; [done|lia].
Qed.

(** Only a protocol error touches the session; nothing changes the request type. *)
Definition calm (v : verdict) (r : client) : Prop :=
  match v with
  | VErr _ r' => has (flags (sess r')) (Z.lor CLIENT_CLOSE_AFTER_REPLY CLIENT_CLOSE_ASAP) = true
  | _ => sess (vclient v) = sess r /\ reqtype (vclient v) = reqtype r
  end.

Lemma has_lor fl m m' : Z.land m m' <> 0 -> 0 <= m' -> has (Z.lor fl m) m' = true.
Proof.
  intros Hm _. unfold has. apply negb_true_iff, Z.eqb_neq. intros E. apply Hm.
  apply Z.bits_inj'. intros i Hi. apply (f_equal (λ z, Z.testbit z i)) in E. revert E. cbv beta.
  rewrite !Z.land_spec, Z.lor_spec, Z.testbit_0_l.
  destruct (Z.testbit fl i), (Z.testbit m i), (Z.testbit m' i); done.
Qed.

Lemma setProtocolError_closes r :
  has (flags (sess (setProtocolError r))) (Z.lor CLIENT_CLOSE_AFTER_REPLY CLIENT_CLOSE_ASAP) = true.
Proof. cbn [setProtocolError on_sess sess set_sess or_flags set_flags flags]. by apply has_lor. Qed.

Lemma calm_error n msg r r0 : calm (VErr n (protocol_error msg r)) r0.
Proof. apply setProtocolError_closes. Qed.

Lemma calm_vadd n v r r' : sess r' = sess r -> reqtype r' = reqtype r -> calm v r' -> calm (vadd n v) r.
Proof. intros E1 E2. destruct v; cbn; try done; intros [-> ->]; done. Qed.

Lemma ref_len_calm w p r : calm (ref_len cf w p r) r.
Proof.
  unfold ref_len. destruct (ref_header p) as [| |f n num]; [apply calm_error|done|].
  destruct (negb _); [apply calm_error|]. destruct num as [ll|]; [|apply calm_error].
  destruct (_ || _); [apply calm_error|]. destruct (_ && _); [apply calm_error|done].
Qed.

Lemma push_arg_calm o r r' : push_arg o r = Some r' -> sess r' = sess r /\ reqtype r' = reqtype r.
Proof.
  unfold push_arg. destruct (argv_len r <=? _);
    match goal with |- (if ?b then _ else _) = _ -> _ => destruct b end; [|done| |done]; by intros [= <-].
Qed.

Lemma ref_bulk_calm p r v : ref_bulk p r = Some v -> calm v r.
Proof.
  unfold ref_bulk. case_match; [by intros [= <-]|].
  destruct (push_arg _ r) as [r1|] eqn:E; [|done]. apply push_arg_calm in E as [E1 E2].
  by intros [= <-].
Qed.

Lemma ref_arg_calm w p r v : ref_arg cf w p r = Some v -> calm v r.
Proof.
  unfold ref_arg. destruct (_ =? -1); [|apply ref_bulk_calm].
  pose proof (ref_len_calm w p r) as Hl. destruct (ref_len cf w p r) as [| | |n r1]; try (by intros [= <-]).
  destruct (ref_bulk _ r1) as [v1|] eqn:E; [|done]. intros [= <-]. apply ref_bulk_calm in E.
  destruct Hl. by eapply calm_vadd.
Qed.

Lemma ref_args_calm fuel w p r v : ref_args cf fuel w p r = Some v -> calm v r.
Proof.
  revert p r v. induction fuel as [|fuel IH]; intros p r v; cbn [ref_args];
    (destruct (multibulklen r =? 0); [by intros [= <-]|]); [done|].
  destruct (ref_arg cf w p r) as [v1|] eqn:E; [|done]. apply ref_arg_calm in E.
  cbn [mbind option_bind]. destruct v1 as [n1 r1|n1 r1|n1 r1|n1 r1]; try (by intros [= <-]).
  destruct (ref_args cf fuel w _ r1) as [v2|] eqn:E2; [|done]. intros [= <-]. apply IH in E2.
  destruct E. by eapply calm_vadd.
Qed.

Lemma ref_count_calm w p r v : ref_count w p r = Some v -> calm v r.
Proof.
  unfold ref_count. destruct (negb _); [done|]. destruct (ref_header p) as [| |f n num].
  { intros [= <-]. apply calm_error. } { by intros [= <-]. }
  destruct (negb _); [done|]. destruct num as [ll|]; [|intros [= <-]; apply calm_error].
  destruct (_ <? ll); [intros [= <-]; apply calm_error|].
  destruct (_ && _); [intros [= <-]; apply calm_error|]. destruct (ll <=? 0); by intros [= <-].
Qed.

Lemma ref_request_calm w p r v : ref_request cf w p r = Some v -> calm v r.
Proof.
  unfold ref_request. destruct (_ =? _).
  { intros [= <-]. unfold ref_inline. destruct (strchr p 10); [|case_match; [apply calm_error|done]].
    destruct (if _ && _ then _ else _) as [len lf]. destruct (sdssplitargs _); [|apply calm_error].
    set (r1 := if (len =? 0) && is_slave_type r then _ else r).
    assert (Hr1 : sess r1 = sess r /\ reqtype r1 = reqtype r) by (unfold r1; by case_match).
    clearbody r1. destruct (negb _ && _); [apply setProtocolError_closes|].
    cbn [calm vclient]. unfold store_inline. case_match; done. }
  destruct (_ =? _); [|done]. unfold ref_multibulk.
  destruct (_ =? 0); [|apply ref_args_calm].
  destruct (ref_count w p r) as [v1|] eqn:E; [|done]. apply ref_count_calm in E.
  cbn [mbind option_bind]. destruct v1 as [n1 r1|n1 r1|n1 r1|n1 r1]; try (by intros [= <-]).
  destruct (ref_args cf _ w _ r1) as [v2|] eqn:E2; [|done]. intros [= <-]. apply ref_args_calm in E2.
  destruct E. by eapply calm_vadd.
Qed.

Lemma ref_request_app w p b r n r' :
  parse_ok r -> ref_request cf w p r = Some (VDone n r') ->
  ref_request cf w (p ++ b) r = Some (VDone n r') /\ (1 <= n <= length p)%nat.
Proof.
  intros Hp. unfold ref_request. destruct (_ =? _).
  - intros [= E]. apply (ref_inline_app _ b) in E as [-> Hn]. done.
  - destruct (_ =? _); [|done]. intros E. apply (ref_multibulk_app _ _ b) in E as [-> Hn]; [|done].
    split; [done|lia].
Qed.

Lemma ref_request_resume w p b r n r' :
  parse_ok r -> ref_request cf w p r = Some (VWait n r') ->
  (n <= length p)%nat /\ ref_request cf w (p ++ b) r = vmap n (ref_request cf w (drop n p ++ b) r').
Proof.
  intros Hp E. pose proof (ref_request_calm _ _ _ _ E) as [_ Hq]. cbn in Hq. revert E.
  unfold ref_request. rewrite Hq. destruct (_ =? _).
  - intros [= E]. unfold ref_inline in E.
    assert (n = 0%nat /\ r' = r) as [-> ->].
    { destruct (strchr p 10); [|case_match; [done|by injection E]].
      destruct (if _ && _ then _ else _) as [len lf]. destruct (sdssplitargs _); [|done].
      by destruct (negb _ && _). }
    split; [lia|]. rewrite drop_0. cbn. by destruct (ref_inline _ _ _).
  - destruct (_ =? _); [|done]. by apply ref_multibulk_resume.
Qed.

(** ** The command loop *)

Lemma ref_exec_parse_ok w d r w' d' r' : parse_ok r -> ref_exec w d r = (w', Some (d', r')) -> parse_ok r'.
Proof.
  intros Hp E. eapply (ref_exec_inv (reploff r + Z.of_nat (length d) + 0) w d [] r d' r' Hp).
  - intros _. cbn. lia.
  - by rewrite E.
Qed.

Lemma reset_parse_ok r : parse_ok (resetClient r).
Proof. rewrite resetClient_eq. by apply idle_parse_ok. Qed.

(** Unfolding one turn. *)
Definition ref_turn (k : W -> bytes -> bytes -> client -> option (W * option (bytes * bytes * client)))
    w d p (v : verdict) (r0 : client) : option (W * option (bytes * bytes * client)) :=
  let d := keep r0 d p (vlen v) in
  let p := drop (vlen v) p in
  match v with
  | VErr _ r | VWait _ r => Some (w, Some (d, p, r))
  | VGo _ _ => None
  | VDone _ r =>
      if bool_decide (argv r = []) then k w d p (resetClient r)
      else
        match io_threads_op cf with
        | IO_THREADS_OP_IDLE =>
            match ref_exec w d r with
            | (w, Some (d, r)) => k w d p r
            | (w, None) => Some (w, None)
            end
        | IO_THREADS_OP_READ => Some (w, Some (d, p, on_sess (or_flags CLIENT_PENDING_COMMAND) r))
        | IO_THREADS_OP_WRITE => None
        end
  end.

Lemma ref_input_S fuel w d p r :
  ref_input cf (S fuel) w d p r =
  if bool_decide (p = []) then Some (w, Some (d, p, r)) else
  if stopped w r then Some (w, Some (d, p, r)) else
  v ← ref_request cf w p (ref_detect p r); ref_turn (ref_input cf fuel) w d p v r.
Proof. reflexivity. Qed.

Lemma ref_turn_ext k k' w d p v r :
  (forall n r', v = VDone n r' -> parse_ok r' /\
     forall w d r'', parse_ok r'' -> k w d (drop n p) r'' = k' w d (drop n p) r'') ->
  ref_turn k w d p v r = ref_turn k' w d p v r.
Proof.
  intros Hv. unfold ref_turn. destruct v as [n r1|n r1|n r1|n r1]; try done. cbn [vlen].
  destruct (Hv n r1 eq_refl) as [Hr1 Hk].
  case_bool_decide; [apply Hk, reset_parse_ok|]. destruct (io_threads_op cf); try done.
  destruct (ref_exec _ _ r1) as [w1 [[d1 r2]|]] eqn:E; [|done].
  apply Hk. by eapply ref_exec_parse_ok; [|exact E].
Qed.

Lemma ref_request_ok w p r v : parse_ok r -> ref_request cf w p (ref_detect p r) = Some v -> parse_ok (vclient v).
Proof.
  intros Hp E. apply ref_request_keeps in E as [Hk _]. apply Hk. by apply ref_detect_keeps.
Qed.

Lemma ref_input_fuel fuel fuel' w d p r :
  parse_ok r -> (length p < fuel)%nat -> (length p < fuel')%nat ->
  ref_input cf fuel w d p r = ref_input cf fuel' w d p r.
Proof.
  revert fuel' w d p r. induction fuel as [|fuel IH]; intros [|fuel'] w d p r Hp Hf Hf'; try lia.
  rewrite !ref_input_S. case_bool_decide; [done|]. destruct (stopped w r); [done|].
  destruct (ref_request cf w p (ref_detect p r)) as [v|] eqn:E; [|done]. cbn [mbind option_bind].
  pose proof (ref_request_ok _ _ _ _ Hp E) as Hv. destruct v as [n r1|n r1|n r1|n r1]; try done.
  assert (Hp0 : parse_ok (ref_detect p r)) by by apply ref_detect_keeps.
  apply (ref_request_app _ _ []) in E as [_ Hn]; [|done].
  apply ref_turn_ext. intros ? ? [= <- <-]. split; [done|].
  intros w1 d1 r2 Hr2. apply IH; [done|rewrite length_drop; lia..].
Qed.

(** The client is to be closed once its replies are sent, or at once. *)
Definition closing r : bool := has (flags (sess r)) (Z.lor CLIENT_CLOSE_AFTER_REPLY CLIENT_CLOSE_ASAP).

Lemma stopped_sess w r r' : sess r' = sess r -> stopped w r' = stopped w r.
Proof. intros E. unfold stopped, is_master. by rewrite E. Qed.

Lemma pending_stopped w r : stopped w (on_sess (or_flags CLIENT_PENDING_COMMAND) r) = true.
Proof.
  unfold stopped. cbn [on_sess sess set_sess or_flags set_flags flags].
  rewrite (has_lor _ CLIENT_PENDING_COMMAND CLIENT_PENDING_COMMAND) by done. by rewrite orb_true_r.
Qed.

Lemma ref_detect_app p b r : p <> [] -> ref_detect (p ++ b) r = ref_detect p r.
Proof. intros Hne. unfold ref_detect. destruct p as [|x p]; [done|]. by rewrite at_app by (simpl; lia). Qed.

Lemma detect_nonzero p r : reqtype (ref_detect p r) <> 0.
Proof. unfold ref_detect. destruct (Z.eqb_spec (reqtype r) 0); [cbn; case_match; lia|done]. Qed.

Lemma keep_split r r1 d p b n m :
  is_master r1 = is_master r -> (n <= length p)%nat ->
  keep r d (p ++ b) (n + m) = keep r1 (keep r d p n) (drop n p ++ b) m.
Proof.
  intros E Hn. unfold keep. rewrite E. destruct (is_master r); [|done]. rewrite <- app_assoc. f_equal.
  rewrite <- (take_app_pre p b n), <- (drop_app_pre p b n) by done. symmetry. apply take_take_drop.
Qed.

Lemma drop_split p b n m :
  (n <= length p)%nat -> drop (n + m) (p ++ b) = drop m (drop n p ++ b).
Proof. intros Hn. rewrite <- drop_app_pre, drop_drop by done. done. Qed.

Lemma ref_turn_vadd k w d p b n v r r1 :
  is_master r1 = is_master r -> (n <= length p)%nat ->
  ref_turn k w d (p ++ b) (vadd n v) r = ref_turn k w (keep r d p n) (drop n p ++ b) v r1.
Proof.
  intros E Hn. unfold ref_turn. destruct v as [m r2|m r2|m r2|m r2]; cbn [vadd vlen];
    by rewrite ?(keep_split r r1 d p b n m E Hn), ?(drop_split p b n m Hn).
Qed.

(** Waiting for more data and going on with it is having had it all. *)
Lemma ref_input_wait fuel1 fuel2 w d p b r n r1 :
  parse_ok r -> p <> [] -> stopped w r = false ->
  ref_request cf w p (ref_detect p r) = Some (VWait n r1) ->
  (length (p ++ b) < fuel1)%nat -> (length (drop n p ++ b) < fuel2)%nat ->
  ref_input cf fuel1 w d (p ++ b) r = ref_input cf fuel2 w (keep r d p n) (drop n p ++ b) r1.
Proof.
  intros Hp Hne Hst E Hf1 Hf2. destruct fuel1 as [|fuel1], fuel2 as [|fuel2]; try lia.
  assert (Hp0 : parse_ok (ref_detect p r)) by by apply ref_detect_keeps.
  pose proof (ref_request_calm _ _ _ _ E) as [Es Eq]. cbn [vclient] in Es, Eq.
  pose proof (ref_request_ok _ _ _ _ Hp E) as Hp1. cbn [vclient] in Hp1.
  assert (Es' : sess r1 = sess r) by (rewrite Es; unfold ref_detect; by case_match).
  pose proof E as Ew. apply (ref_request_resume _ _ b) in E as [Hn E]; [|done].
  rewrite !ref_input_S, ref_detect_app, (bool_decide_false (p ++ b = [])), Hst by
    (done || by destruct p). rewrite (stopped_sess w r r1 Es'), Hst.
  case_bool_decide as Hnil.
  { apply app_eq_nil in Hnil as [Hd ->]. rewrite !app_nil_r, Ew in *. cbn. by rewrite Hd. }
  assert (Hd : ref_detect (drop n p ++ b) r1 = r1).
  { unfold ref_detect. by rewrite Eq, (proj2 (Z.eqb_neq _ 0)) by apply detect_nonzero. }
  rewrite Hd, E. destruct (ref_request cf w (drop n p ++ b) r1) as [v|] eqn:Ev; [|done].
  cbn [vmap mbind option_bind].
  rewrite (ref_turn_vadd _ _ _ _ _ _ _ _ r1) by (done || unfold is_master; by rewrite Es').
  apply ref_turn_ext. intros m r2 ->. pose proof (ref_request_keeps _ _ _ _ _ Ev) as [Hk _].
  apply (ref_request_app _ _ []) in Ev as [_ Hm]; [|done]. rewrite length_app, length_drop in *.
  split; [by apply Hk|]. intros w1 d1 r3 Hr3.
  apply ref_input_fuel; [done|rewrite length_drop, length_app, length_drop; lia..].
Qed.

(** Input that was processed and then followed by more. *)
Lemma ref_input_app fuel w d p b r w' d' p' r' :
  parse_ok r -> (length p < fuel)%nat ->
  ref_input cf fuel w d p r = Some (w', Some (d', p', r')) -> closing r' = false ->
  forall fuel1 fuel2, (length (p ++ b) < fuel1)%nat -> (length (p' ++ b) < fuel2)%nat ->
  ref_input cf fuel1 w d (p ++ b) r = ref_input cf fuel2 w' d' (p' ++ b) r'.
Proof.
  revert w d p r. induction fuel as [|fuel IH]; intros w d p r Hp Hf; [lia|].
  rewrite ref_input_S. case_bool_decide as Hne.
  { intros [= <- <- <- <-] _ f1 f2 H1 H2. by apply ref_input_fuel. }
  destruct (stopped w r) eqn:Hst.
  { intros [= <- <- <- <-] _ f1 f2 H1 H2. by apply ref_input_fuel. }
  destruct (ref_request cf w p (ref_detect p r)) as [v|] eqn:E; [|done]. cbn [mbind option_bind].
  pose proof (ref_request_calm _ _ _ _ E) as Hcalm. pose proof (ref_request_ok _ _ _ _ Hp E) as Hv.
  destruct v as [n r1|n r1|n r1|n r1]; cbn [ref_turn vlen]; [| | |done].
  - intros [= <- <- <- <-] Hcl. by rewrite Hcalm in Hcl.
  - intros [= <- <- <- <-] _ f1 f2 H1 H2. by apply ref_input_wait.
  - assert (Hp0 : parse_ok (ref_detect p r)) by by apply ref_detect_keeps.
    apply (ref_request_app _ _ b) in E as [E Hn]; [|done].
    intros Hrun Hcl f1 f2 H1 H2. destruct f1 as [|f1]; [lia|].
    rewrite ref_input_S, ref_detect_app, (bool_decide_false (p ++ b = [])), Hst, E by (done || by destruct p).
    cbn [mbind option_bind ref_turn vlen]. revert Hrun.
    replace (keep r d (p ++ b) n) with (keep r d p n) by (unfold keep; by rewrite take_app_pre by lia).
    rewrite drop_app_pre by lia. rewrite length_app in *.
    assert (Hl : (length (drop n p) < fuel)%nat /\ (length (drop n p ++ b) < f1)%nat)
      by (rewrite length_app, length_drop; lia).
    case_bool_decide.
    { intros Hrun. by eapply IH; [apply reset_parse_ok|apply Hl|exact Hrun|done|apply Hl|]. }
    destruct (io_threads_op cf); [| |done].
    + destruct (ref_exec w (keep r d p n) r1) as [w1 [[d1 r2]|]] eqn:Ex; [|done]. intros Hrun.
      by eapply IH; [eapply ref_exec_parse_ok; [|exact Ex]|apply Hl|exact Hrun|done|apply Hl|].
    + intros [= <- <- <- <-]. destruct f2 as [|f2]; [lia|]. rewrite ref_input_S, pending_stopped.
      by destruct (bool_decide _).
Qed.

(** The role of the client does not change. *)
Lemma ref_exec_master w d r w' d' r' : ref_exec w d r = (w', Some (d', r')) -> is_master r' = is_master r.
Proof.
  unfold ref_exec. pose proof (command_keeps_master (argv r) (sess r) w) as Hk.
  destruct (processCommand (argv r) (sess r) w) as [[[w1 s] st] alive].
  assert (Hm : is_master (set_sess s r) = is_master r) by exact Hk. destruct st.
  - unfold ref_processed. destruct (has _ CLIENT_BLOCKED); [destruct alive; [by intros [= <- <- <-]|done]|].
    pose proof (reset_same_buf (set_sess s r)) as (_ & _ & _ & Em & _). rewrite Hm in Em. cbn zeta.
    destruct (is_master (resetClient (set_sess s r)) && _); (destruct alive; [|done]); by intros [= <- <- <-].
  - destruct alive; [by intros [= <- <- <-]|done].
Qed.

Lemma ref_input_master fuel w d p r w' d' p' r' :
  ref_input cf fuel w d p r = Some (w', Some (d', p', r')) -> is_master r' = is_master r.
Proof.
  revert w d p r. induction fuel as [|fuel IH]; intros w d p r.
  { cbn [ref_input]. case_bool_decide; [by intros [= <- <- <- <-]|].
    destruct (stopped w r); [by intros [= <- <- <- <-]|done]. }
  rewrite ref_input_S. case_bool_decide as Hne; [by intros [= <- <- <- <-]|].
  destruct (stopped w r) eqn:Hst; [by intros [= <- <- <- <-]|].
  destruct (ref_request cf w p (ref_detect p r)) as [v|] eqn:E; [|done]. cbn [mbind option_bind].
  assert (Hv : is_master (vclient v) = is_master r).
  { pose proof (ref_request_keeps _ _ _ _ _ E) as (_ & _ & ->). apply ref_detect_keeps. }
  destruct v as [n r1|n r1|n r1|n r1]; cbn [ref_turn vlen]; [by intros [= <- <- <- <-]..| |done].
  case_bool_decide.
  { intros ->%IH. rewrite <- Hv. apply reset_same_buf. }
  destruct (io_threads_op cf); [| |done].
  - destruct (ref_exec _ _ r1) as [w1 [[d1 r2]|]] eqn:Ex; [|done]. intros ->%IH.
    apply ref_exec_master in Ex. by rewrite Ex.
  - intros [= <- <- <- <-]. rewrite <- Hv. cbn [vclient].
    change (is_master (on_sess _ r1)) with (has (Z.lor (flags (sess r1)) CLIENT_PENDING_COMMAND) CLIENT_MASTER).
    unfold is_master. rewrite !has_bit, Z.lor_spec by lia. apply orb_false_r.
Qed.

(** The buffer does not grow. *)
Lemma keep_size r d p n : (length (keep r d p n) + length (drop n p) <= length d + length p)%nat.
Proof. unfold keep. destruct (is_master r); rewrite ?length_app, ?length_take, length_drop; lia. Qed.

Lemma ref_exec_size w d r w' d' r' : ref_exec w d r = (w', Some (d', r')) -> (length d' <= length d)%nat.
Proof.
  unfold ref_exec. destruct (processCommand (argv r) (sess r) w) as [[[w1 s] st] alive]. destruct st.
  - unfold ref_processed. destruct (has _ CLIENT_BLOCKED); [destruct alive; [by intros [= <- <- <-]|done]|].
    cbn zeta. destruct (_ && _); (destruct alive; [|done]); intros [= <- <- <-]; simpl; lia.
  - destruct alive; [by intros [= <- <- <-]|done].
Qed.

Lemma ref_input_size fuel w d p r w' d' p' r' :
  ref_input cf fuel w d p r = Some (w', Some (d', p', r')) ->
  (length d' + length p' <= length d + length p)%nat.
Proof.
  revert w d p r. induction fuel as [|fuel IH]; intros w d p r.
  { cbn [ref_input]. case_bool_decide; [by intros [= <- <- <- <-]|].
    destruct (stopped w r); [by intros [= <- <- <- <-]|done]. }
  rewrite ref_input_S. case_bool_decide as Hne; [by intros [= <- <- <- <-]|].
  destruct (stopped w r) eqn:Hst; [by intros [= <- <- <- <-]|].
  destruct (ref_request cf w p (ref_detect p r)) as [v|] eqn:E; [|done]. cbn [mbind option_bind].
  pose proof (keep_size r d p (vlen v)) as Hk.
  destruct v as [n r1|n r1|n r1|n r1]; cbn [ref_turn vlen] in *; [by intros [= <- <- <- <-]..| |done].
  case_bool_decide; [intros Hs%IH; lia|]. destruct (io_threads_op cf); [| |done].
  - destruct (ref_exec _ _ r1) as [w1 [[d1 r2]|]] eqn:Ex; [|done]. intros Hs%IH.
    apply ref_exec_size in Ex. lia.
  - by intros [= <- <- <- <-].
Qed.
End chunks.
