(* ===== verification/RespSpec.v ===== *)
(** Properties of the request parser: it refines the reference parser, does not
    depend on how the input is cut into reads, never fails an assertion or writes
    beyond [argv], and passes on exactly the replication stream. *)

From S2P Require Import Prelude Util SdsArgs Resp RespRef RespChunk.

Local Open Scope string_scope.
Local Open Scope list_scope.
Local Open Scope Z_scope.

(** ** Clients between two calls *)

Definition client_ok (c : client) : Prop :=
  pos_ok c /\ ref_inv (read_reploff c) (unapplied c) (pending c) (rest c).

(** The concrete client of a reference state. *)
Definition build (read : Z) (x : bytes * bytes * client) : client :=
  let '(d, p, r) := x in
  set_read_reploff read (set_querybuf (d ++ p) (set_qb_pos (Z.of_nat (length d)) r)).

(** What [readQueryFromClient] does with the bytes it has read. *)
Definition receive (bs : bytes) (c : client) : client :=
  let c := set_querybuf (querybuf c ++ bs) c in
  if is_master c then set_read_reploff (read_reploff c + sdslen bs) c else c.

Lemma unapplied_pending c :
  pos_ok c -> is_master c = true -> unapplied c ++ pending c = drop (Z.to_nat (repl_applied c)) (querybuf c).
Proof.
  intros (H1 & _ & H3) Hm. unfold unapplied, pending. rewrite Hm in *. unfold sdslen in *.
  rewrite <- (take_drop (Z.to_nat (qb_pos c)) (querybuf c)) at 3.
  by rewrite drop_app_le by (rewrite length_take; lia).
Qed.

(** A client is determined by its buffer and the rest. *)
Lemma client_ext c c' :
  querybuf c = querybuf c' -> qb_pos c = qb_pos c' -> repl_applied c = repl_applied c' ->
  read_reploff c = read_reploff c' -> rest c = rest c' -> c = c'.
Proof.
  assert (E : forall x, x = set_read_reploff (read_reploff x) (set_repl_applied (repl_applied x)
            (set_qb_pos (qb_pos x) (set_querybuf (querybuf x) (rest x))))) by reflexivity.
  intros E1 E2 E3 E4 E5. rewrite (E c), (E c'), E1, E2, E3, E4, E5. done.
Qed.

Lemma abs_inj c d p r : abs c = (d, p, r) -> unapplied c = d /\ pending c = p /\ rest c = r.
Proof. unfold abs. rewrite !pair_equal_spec. tauto. Qed.

Lemma trim_build c : pos_ok c -> trim c = build (read_reploff c) (abs c).
Proof.
  intros Hc. pose proof Hc as (H1 & H2 & H3). unfold trim.
  destruct (is_master c) eqn:Hm.
  - pose proof (unapplied_pending c Hc Hm) as Hup. pose proof (length_unapplied c Hc Hm) as Hl.
    destruct (Z.eqb_spec (repl_applied c) 0) as [E|E]; apply client_ext; try reflexivity.
    + cbn. by rewrite Hup, E, drop_0.
    + cbn. lia.
    + by rewrite E.
    + cbn. by rewrite Hup, sdsrange_drop by (lia || done).
    + cbn. lia.
  - assert (Hu : unapplied c = []) by (unfold unapplied; by rewrite Hm).
    destruct (Z.eqb_spec (qb_pos c) 0) as [E|E]; apply client_ext; try reflexivity.
    + cbn. rewrite Hu. unfold pending. by rewrite E, drop_0.
    + cbn. by rewrite Hu, E.
    + by rewrite H3.
    + cbn. by rewrite Hu, sdsrange_drop.
    + cbn. by rewrite Hu.
    + cbn. by rewrite H3.
Qed.

Lemma abs_build c : pos_ok c -> pos_ok (build (read_reploff c) (abs c)) /\ abs (build (read_reploff c) (abs c)) = abs c.
Proof.
  intros Hc. set (c' := build _ _).
  assert (Hm' : is_master c' = is_master c) by done.
  assert (Hp : pending c' = pending c).
  { unfold c', pending at 1, build, abs. cbn [querybuf qb_pos set_read_reploff set_querybuf set_qb_pos].
    by rewrite Nat2Z.id, drop_app_length. }
  assert (Hu : unapplied c' = unapplied c).
  { unfold unapplied at 1. rewrite Hm'. destruct (is_master c) eqn:Hm; [|unfold unapplied; by rewrite Hm].
    unfold c', build, abs. cbn [querybuf qb_pos set_read_reploff set_querybuf set_qb_pos rest].
    by rewrite Nat2Z.id, take_app_length. }
  split; [|unfold abs at 1; by rewrite Hp, Hu].
  pose proof (length_pending c Hc). destruct Hc as (H1 & H2 & H3). unfold pos_ok. rewrite Hm'.
  unfold c', build, abs. cbn [querybuf qb_pos set_read_reploff set_querybuf set_qb_pos rest set_repl_applied repl_applied].
  unfold sdslen in *. rewrite length_app.
  assert (Z.of_nat (length (unapplied c)) <= qb_pos c).
  { unfold unapplied. destruct (is_master c); [|simpl; lia]. rewrite length_drop, length_take. lia. }
  split; [lia|]. split; [cint|]. destruct (is_master c); lia.
Qed.

Lemma receive_abs bs c :
  pos_ok c -> in_s 64 (sdslen (querybuf c ++ bs)) ->
  pos_ok (receive bs c) /\ abs (receive bs c) = (unapplied c, pending c ++ bs, rest c).
Proof.
  intros (H1 & H2 & H3) Hs. unfold sdslen in *. rewrite length_app in Hs.
  assert (E : forall c', querybuf c' = querybuf c ++ bs -> qb_pos c' = qb_pos c -> repl_applied c' = repl_applied c ->
    is_master c' = is_master c -> rest c' = rest c -> pos_ok c' /\ abs c' = (unapplied c, pending c ++ bs, rest c)).
  { intros c' E1 E2 E3 E4 E5. split.
    - unfold pos_ok. rewrite E1, E2, E3, E4. unfold sdslen. rewrite length_app. split; [lia|]. split; [cint|done].
    - unfold abs, unapplied, pending. rewrite E1, E2, E3, E4, E5.
      rewrite drop_app_le, take_app_le by lia. done. }
  clear H3. unfold receive. cbn zeta. destruct (is_master (set_querybuf _ c)); apply E; reflexivity.
Qed.

(** ** Statistics

    A read also updates the peak of the query buffer and the time of the last
    interaction, at which the parser does not look. *)

Definition stats (peak time : Z) (c : client) : client := set_lastinteraction time (set_querybuf_peak peak c).

Definition vmap (f : client -> client) (v : verdict) : verdict :=
  match v with VErr n r => VErr n (f r) | VWait n r => VWait n (f r) | VDone n r => VDone n (f r) | VGo n r => VGo n (f r) end.

Section stats.
Context {W : Type} {SV : Server W} (cf : config) (k t : Z).
Implicit Types (w : W) (r c : client).
Abbreviation st := (stats k t).

Lemma vmap_add n v : vmap st (vadd n v) = vadd n (vmap st v).
Proof. by destruct v. Qed.

Lemma stats_store_inline args r : store_inline args (st r) = st (store_inline args r).
Proof. unfold store_inline. by case_match. Qed.

Lemma stats_reset r : resetClient (st r) = st (resetClient r).
Proof. by rewrite !resetClient_eq. Qed.

Lemma stats_push_arg o r : push_arg o (st r) = st <$> push_arg o r.
Proof.
  unfold push_arg. cbn zeta. change (argv_len (st r)) with (argv_len r). change (argv (st r)) with (argv r).
  change (multibulklen (st r)) with (multibulklen r).
  destruct (argv_len r <=? _); [change (argv_len (set_argv_len ?x ?y)) with x|change (argv_len (st r)) with (argv_len r)]; by case_match.
Qed.

Lemma stats_ref_len w p r : ref_len cf w p (st r) = vmap st (ref_len cf w p r).
Proof.
  unfold ref_len. destruct (ref_header p) as [| |first n num]; [done|done|]. destruct (negb _); [done|]. destruct num as [ll|]; [|done].
  change (is_master (st r)) with (is_master r). change (authRequired w (st r)) with (authRequired w r).
  destruct ((ll <? 0) || _); [done|]. by destruct ((16384 <? ll) && _).
Qed.

Lemma stats_ref_bulk p r : ref_bulk p (st r) = vmap st <$> ref_bulk p r.
Proof.
  unfold ref_bulk. change (bulklen (st r)) with (bulklen r). cbn zeta. case_match; [done|].
  rewrite stats_push_arg. by destruct (push_arg _ r).
Qed.

Lemma stats_ref_arg w p r : ref_arg cf w p (st r) = vmap st <$> ref_arg cf w p r.
Proof.
  unfold ref_arg. change (bulklen (st r)) with (bulklen r). case_match; [|apply stats_ref_bulk].
  rewrite stats_ref_len. destruct (ref_len cf w p r) as [n x|n x|n x|n x]; try done. cbn [vmap].
  rewrite stats_ref_bulk. destruct (ref_bulk _ x) as [v|]; [|done]. cbn. by rewrite vmap_add.
Qed.

Lemma stats_ref_args w fuel : forall p r, ref_args cf fuel w p (st r) = vmap st <$> ref_args cf fuel w p r.
Proof.
  induction fuel as [|fuel IH]; intros p r; cbn [ref_args]; change (multibulklen (st r)) with (multibulklen r); (case_match; [done|]); [done|].
  rewrite stats_ref_arg. destruct (ref_arg cf w p r) as [[n x|n x|n x|n x]|]; try done. cbn.
  rewrite IH. destruct (ref_args cf fuel w _ x) as [v|]; [|done]. cbn. by rewrite vmap_add.
Qed.

Lemma stats_ref_count w p r : ref_count w p (st r) = vmap st <$> ref_count w p r.
Proof.
  unfold ref_count. change (argv (st r)) with (argv r). change (authRequired w (st r)) with (authRequired w r).
  destruct (negb (bool_decide _)); [reflexivity|]. destruct (ref_header p) as [| |first n num]; [reflexivity|reflexivity|].
  destruct (negb (first =? 42)); [reflexivity|]. destruct num as [ll|]; [|reflexivity].
  destruct (INT_MAX <? ll); [reflexivity|]. destruct ((10 <? ll) && _); [reflexivity|]. destruct (ll <=? 0); reflexivity.
Qed.

Lemma stats_ref_multibulk w p r : ref_multibulk cf w p (st r) = vmap st <$> ref_multibulk cf w p r.
Proof.
  unfold ref_multibulk. change (multibulklen (st r)) with (multibulklen r). case_match; [|apply stats_ref_args].
  rewrite stats_ref_count. destruct (ref_count w p r) as [[n x|n x|n x|n x]|]; try done. cbn [vmap fmap option_fmap option_map mbind option_bind].
  rewrite stats_ref_args. destruct (ref_args cf _ w _ x) as [v|]; [|done]. cbn. by rewrite vmap_add.
Qed.

Lemma stats_ref_inline p r : ref_inline cf p (st r) = vmap st (ref_inline cf p r).
Proof.
  unfold ref_inline. destruct (strchr p 10) as [n|]; [|by case_match]. destruct (if negb (n =? 0) && _ then (n - 1, 2%nat) else (n, 1%nat)) as [len lf].
  destruct (sdssplitargs _) as [args|]; [|done].
  change (is_slave_type (st r)) with (is_slave_type r). destruct ((len =? 0) && is_slave_type r).
  - change (is_master (set_repl_ack_time ?x ?y)) with (is_master y). change (is_master (st r)) with (is_master r).
    case_match; [done|]. cbn [vmap]. by rewrite <- stats_store_inline.
  - change (is_master (st r)) with (is_master r). case_match; [done|]. cbn [vmap]. by rewrite <- stats_store_inline.
Qed.

Lemma stats_ref_request w p r : ref_request cf w p (ref_detect p (st r)) = vmap st <$> ref_request cf w p (ref_detect p r).
Proof.
  assert (E : ref_detect p (st r) = st (ref_detect p r)) by (unfold ref_detect; change (reqtype (st r)) with (reqtype r); by case_match).
  rewrite E. set (x := ref_detect p r). unfold ref_request. change (reqtype (st x)) with (reqtype x).
  case_match; [cbn; by rewrite stats_ref_inline|]. case_match; [apply stats_ref_multibulk|done].
Qed.

Lemma stats_ref_exec w d r : ref_exec w d (st r) = (let '(w, x) := ref_exec w d r in (w, option_map (prod_map id st) x)).
Proof.
  unfold ref_exec. change (argv (st r)) with (argv r). change (sess (st r)) with (sess r).
  destruct (processCommand (argv r) (sess r) w) as [[[w1 s] stt] alive]. destruct stt; [|by destruct alive].
  unfold ref_processed. change (set_sess s (st r)) with (st (set_sess s r)). set (x := set_sess s r).
  change (sess (st x)) with (sess x). destruct (has (flags (sess x)) CLIENT_BLOCKED); [by destruct alive|]. rewrite stats_reset. set (y := resetClient x).
  change (is_master (st y)) with (is_master y). change (sess (st y)) with (sess y). by destruct (is_master y && _), alive.
Qed.

Definition out_stats (o : option (W * option (bytes * bytes * client))) : option (W * option (bytes * bytes * client)) :=
  option_map (λ '(w, x), (w, option_map (prod_map id st) x)) o.

Lemma stats_ref_input fuel : forall w d p r, ref_input cf fuel w d p (st r) = out_stats (ref_input cf fuel w d p r).
Proof.
  induction fuel as [|fuel IH]; intros w d p r.
  { cbn [ref_input]. case_bool_decide; [done|]. change (stopped w (st r)) with (stopped w r). by case_match. }
  cbn [ref_input]. case_bool_decide; [done|]. change (stopped w (st r)) with (stopped w r). case_match; [done|].
  rewrite stats_ref_request. destruct (ref_request cf w p (ref_detect p r)) as [v|]; [|done]. cbn [fmap option_fmap option_map mbind option_bind].
  change (keep (st r) d p ?n) with (keep r d p n). destruct v as [n x|n x|n x|n x]; try done. cbn [vmap vlen].
  change (argv (st x)) with (argv x). case_bool_decide; [rewrite stats_reset; apply IH|].
  destruct (io_threads_op cf); [|done|done]. rewrite stats_ref_exec.
  destruct (ref_exec w (keep r d p n) x) as [w1 [[d1 y]|]]; [|done]. cbn. apply IH.
Qed.
End stats.

Section properties.
Context {W : Type} {SV : Server W} {SL : ServerLaws W} (cf : config).
Implicit Types (w : W) (c : client) (bs : bytes).

(** The reference run on the whole input. *)
Definition ref_run w (x : bytes * bytes * client) : option (W * option (bytes * bytes * client)) :=
  let '(d, p, r) := x in ref_input cf (S (length p)) w d p r.

Lemma processInputBuffer_run w c :
  client_ok c ->
  processInputBuffer cf w c = ('(w', o) ← ref_run w (abs c); Some (w', option_map (build (read_reploff c)) o)) /\
  (forall w' d p r, ref_run w (abs c) = Some (w', Some (d, p, r)) ->
     exists c', client_ok c' /\ read_reploff c' = read_reploff c /\ abs c' = (d, p, r)).
Proof.
  intros [Hc Hi]. unfold processInputBuffer, ref_run, abs at 1 2.
  assert (Hf : (length (pending c) < S (length (querybuf c)))%nat) by by apply pending_fuel.
  rewrite (ref_input_fuel cf (S (length (pending c))) (S (length (querybuf c)))); [|apply Hi|lia|done].
  pose proof (input_loop_agrees cf (S (length (querybuf c))) w c Hc Hi) as Ha.
  destruct Ha as [[w1 o1] [w2 o2] [E Ho]|]; [|done]. cbn in E, Ho. subst w2. cbn [mbind option_bind].
  destruct Ho as [c1 z (Hc1 & Hi1 & Hr & <-)|]; cbn [option_map]; [|done].
  split; [by rewrite trim_build, Hr|]. intros w' d p r [= <- <- <- <-]. exists c1.
  split; [|done]. split; [done|]. by rewrite Hr.
Qed.

(** The state of the client after reading more bytes. *)
Definition feed w c bs : option (W * option client) := processInputBuffer cf w (receive bs c).

Lemma build_ok c : client_ok c -> client_ok (build (read_reploff c) (abs c)).
Proof.
  intros [Hc Hi]. destruct (abs_build c Hc) as [Hb Ha]. split; [done|].
  assert (Hr : read_reploff (build (read_reploff c) (abs c)) = read_reploff c) by done. rewrite Hr.
  apply abs_inj in Ha as (E1 & E2 & E3). by rewrite E1, E2, E3.
Qed.

Lemma receive_ok bs c :
  client_ok c -> in_s 64 (sdslen (querybuf c ++ bs)) -> client_ok (receive bs c).
Proof.
  intros [Hc [Hp Hoff]] Hs. destruct (receive_abs bs c Hc Hs) as [Hc1 Ha]. split; [done|].
  apply abs_inj in Ha as (E1 & E2 & E3). rewrite E1, E2, E3. split; [done|]. intros Hm. specialize (Hoff Hm).
  change (is_master (rest c)) with (is_master c) in Hm. unfold receive. cbn zeta.
  change (is_master (set_querybuf _ c)) with (is_master c). rewrite Hm. cbn in Hoff |- *.
  rewrite length_app. unfold sdslen. lia.
Qed.

Lemma feed_run w c bs :
  client_ok c -> in_s 64 (sdslen (querybuf c ++ bs)) ->
  feed w c bs = ('(w', o) ← ref_run w (unapplied c, pending c ++ bs, rest c);
                 Some (w', option_map (build (read_reploff (receive bs c))) o)).
Proof.
  intros Hc Hs. unfold feed. rewrite (proj1 (processInputBuffer_run w _ (receive_ok bs c Hc Hs))).
  by rewrite (proj2 (receive_abs bs c (proj1 Hc) Hs)).
Qed.

(** The client a call leaves is again one the next call can start from. *)
Lemma feed_ok w c bs w' c' :
  client_ok c -> in_s 64 (sdslen (querybuf c ++ bs)) -> feed w c bs = Some (w', Some c') ->
  client_ok c' /\ ref_run w (unapplied c, pending c ++ bs, rest c) = Some (w', Some (abs c')) /\
  read_reploff c' = read_reploff (receive bs c) /\ build (read_reploff c') (abs c') = c'.
Proof.
  intros Hc Hs. unfold feed. destruct (processInputBuffer_run w _ (receive_ok bs c Hc Hs)) as [-> Hex].
  rewrite (proj2 (receive_abs bs c (proj1 Hc) Hs)) in *.
  destruct (ref_run w _) as [[w1 [[[d p] r]|]]|] eqn:E; [|done..]. cbn [mbind option_bind option_map].
  destruct (Hex w1 d p r eq_refl) as (c1 & Hc1 & Hr & Ha). rewrite <- Ha, <- Hr. intros Heq.
  assert (w1 = w' /\ build (read_reploff c1) (abs c1) = c') as [-> <-] by (clear -Heq; split; congruence).
  destruct (abs_build c1 (proj1 Hc1)) as [_ Hab]. rewrite Hab.
  split; [by apply build_ok|]. by rewrite Ha.
Qed.

Lemma length_built c : build (read_reploff c) (abs c) = c -> sdslen (querybuf c) = Z.of_nat (length (unapplied c) + length (pending c)).
Proof. intros E. rewrite <- E at 1. unfold sdslen, build, abs. cbn. by rewrite length_app. Qed.

(** The loop is not left with fewer parsed bytes than it had. *)
Lemma feed_split w c a b w1 c1 :
  client_ok c -> in_s 64 (sdslen (querybuf c ++ a ++ b)) -> in_s 64 (sdslen (querybuf c1 ++ b)) ->
  feed w c a = Some (w1, Some c1) -> closing c1 = false -> feed w c (a ++ b) = feed w1 c1 b.
Proof.
  intros Hc Hs Hs1 Ha Hcl.
  assert (Hsa : in_s 64 (sdslen (querybuf c ++ a))).
  { unfold sdslen in *. rewrite !length_app in *. cint. }
  destruct (feed_ok w c a w1 c1 Hc Hsa Ha) as (Hc1 & Hrun & Hread & _).
  rewrite (feed_run w c (a ++ b) Hc Hs), (feed_run w1 c1 b Hc1 Hs1). unfold ref_run in *. unfold abs in Hrun.
  rewrite app_assoc.
  rewrite (ref_input_app cf (S (length (pending c ++ a))) w (unapplied c) (pending c ++ a) b (rest c)
             w1 (unapplied c1) (pending c1) (rest c1) (proj1 (proj2 Hc)) ltac:(lia) Hrun Hcl
             (S (length ((pending c ++ a) ++ b))) (S (length (pending c1 ++ b)))) by lia.
  assert (Hr : read_reploff (receive (a ++ b) c) = read_reploff (receive b c1)); [|by rewrite Hr].
  apply ref_input_master in Hrun. change (is_master c1 = is_master c) in Hrun. revert Hread.
  unfold receive. cbn zeta. change (is_master (set_querybuf ?x ?y)) with (is_master y). rewrite Hrun.
  destruct (is_master c); cbn; [|by intros ->]. intros ->. unfold sdslen. rewrite length_app. lia.
Qed.

Lemma parts_size c : pos_ok c -> (length (unapplied c) + length (pending c) <= length (querybuf c))%nat.
Proof.
  intros (H1 & _ & H3). unfold unapplied, pending, sdslen in *.
  destruct (is_master c); rewrite ?length_drop, ?length_take; simpl; lia.
Qed.

Lemma feed_size w c bs w' c' :
  client_ok c -> in_s 64 (sdslen (querybuf c ++ bs)) -> feed w c bs = Some (w', Some c') ->
  (length (querybuf c') <= length (querybuf c ++ bs))%nat.
Proof.
  intros Hc Hs Hf. destruct (feed_ok w c bs w' c' Hc Hs Hf) as (Hc' & Hrun & _ & Hb).
  apply length_built in Hb. unfold sdslen in Hb. apply ref_input_size in Hrun.
  pose proof (parts_size c (proj1 Hc)). rewrite length_app in *. lia.
Qed.

(** A client that is to be closed executes nothing more. *)
Lemma feed_closing w c bs w' c' :
  client_ok c -> in_s 64 (sdslen (querybuf c ++ bs)) -> feed w c bs = Some (w', Some c') ->
  closing c = true -> closing c' = true.
Proof.
  intros Hc Hs Hf Hcl. destruct (feed_ok w c bs w' c' Hc Hs Hf) as (_ & Hrun & _ & _).
  unfold ref_run in Hrun. rewrite ref_input_S in Hrun.
  assert (Hst : stopped w (rest c) = true).
  { unfold stopped. change (has (flags (sess (rest c))) (Z.lor CLIENT_CLOSE_AFTER_REPLY CLIENT_CLOSE_ASAP)) with (closing c).
    by rewrite Hcl, orb_true_r. }
  rewrite Hst in Hrun.
  assert (Hr : rest c' = rest c) by (destruct (bool_decide _); unfold abs in Hrun; congruence).
  change (closing (rest c') = true). by rewrite Hr.
Qed.

(** A sequence of reads. *)
Fixpoint feed_all w c (chunks : list bytes) : option (W * option client) :=
  match chunks with
  | [] => Some (w, Some c)
  | bs :: l =>
      '(w, o) ← feed w c bs;
      match o with None => Some (w, None) | Some c => feed_all w c l end
  end.

Lemma feed_all_closing chunks w c w' c' :
  client_ok c -> in_s 64 (sdslen (querybuf c ++ concat chunks)) ->
  feed_all w c chunks = Some (w', Some c') -> closing c = true -> closing c' = true.
Proof.
  revert w c. induction chunks as [|a l IH]; intros w c Hc Hs; [by intros [= <- <-]|].
  cbn [feed_all concat] in *.
  assert (Hsa : in_s 64 (sdslen (querybuf c ++ a))) by (unfold sdslen in *; rewrite !length_app in *; cint).
  destruct (feed w c a) as [[w1 [c1|]]|] eqn:E; [|done..]. cbn [mbind option_bind]. intros Hl Hcl.
  pose proof (feed_size _ _ _ _ _ Hc Hsa E). eapply (IH w1 c1); [by eapply feed_ok|..|done|by eapply feed_closing].
  unfold sdslen in *. rewrite !length_app in *. cint.
Qed.

(** ** [readQueryFromClient]

    It is [feed] but for the statistics, and for the limit of the query buffer of a
    client that is not the master. *)

Lemma processInputBuffer_stats k t w c : client_ok c ->
  processInputBuffer cf w (stats k t c) = ('(w', o) ← processInputBuffer cf w c; Some (w', option_map (stats k t) o)).
Proof.
  intros Hc. assert (Hs : client_ok (stats k t c)) by exact Hc.
  rewrite (proj1 (processInputBuffer_run w _ Hs)), (proj1 (processInputBuffer_run w c Hc)).
  change (abs (stats k t c)) with (unapplied c, pending c, stats k t (rest c)). unfold abs, ref_run.
  change (S (length (pending c))) with (S (length (pending c))). rewrite stats_ref_input. unfold out_stats.
  by destruct (ref_input cf _ w _ _ _) as [[w1 [[[d p] r]|]]|].
Qed.

(** One read that returns [bs]; it does not matter how many bytes were asked for. *)
Definition read_data alloc avail w c bs : option (W * option client) :=
  readQueryFromClient cf (λ _, ReadData bs) alloc avail w c.

Definition under_limit c (n : Z) : Prop := is_master c = true \/ sdslen (querybuf c) + n <= client_max_querybuf_len cf.

Definition new_peak c bs : Z := if querybuf_peak c <? sdslen (querybuf c ++ bs) then sdslen (querybuf c ++ bs) else querybuf_peak c.

Lemma read_data_feed alloc avail w c bs :
  client_ok c -> in_s 64 (sdslen (querybuf c ++ bs)) -> under_limit c (sdslen bs) ->
  read_data alloc avail w c bs = ('(w', o) ← feed w c bs; Some (w', option_map (stats (new_peak c bs) (unixtime cf)) o)).
Proof.
  intros Hc Hs Hlim. unfold feed. rewrite <- processInputBuffer_stats by by apply receive_ok.
  assert (E : forall x, x = stats (new_peak c bs) (unixtime cf) (receive bs c) ->
    (if negb (is_master x) && (client_max_querybuf_len cf <? sdslen (querybuf x)) then Some (w, Some (freeClientAsync x))
     else processInputBuffer cf w x) = processInputBuffer cf w (stats (new_peak c bs) (unixtime cf) (receive bs c))).
  { intros x ->. assert (Em : is_master (stats (new_peak c bs) (unixtime cf) (receive bs c)) = is_master c)
      by (unfold receive; cbn zeta; by case_match).
    assert (Eb : querybuf (stats (new_peak c bs) (unixtime cf) (receive bs c)) = querybuf c ++ bs)
      by (unfold receive; cbn zeta; by case_match).
    rewrite Em, Eb. destruct Hlim as [->|Hl]; [done|]. rewrite (proj2 (Z.ltb_ge _ _)), andb_false_r; [done|].
    unfold sdslen in *. rewrite length_app. lia. }
  apply E. unfold receive, new_peak. cbn zeta.
  change (querybuf (set_querybuf ?x ?y)) with x. change (querybuf_peak (set_querybuf ?x ?y)) with (querybuf_peak y).
  change (is_master (set_querybuf ?x ?y)) with (is_master y).
  destruct (querybuf_peak c <? _); change (is_master (set_lastinteraction ?x ?y)) with (is_master c); by destruct (is_master c).
Qed.

(** A sequence of reads. *)
Fixpoint read_all w c (l : list (Z * Z * bytes)) : option (W * option client) :=
  match l with
  | [] => Some (w, Some c)
  | (alloc, avail, bs) :: l =>
      '(w, o) ← read_data alloc avail w c bs;
      match o with None => Some (w, None) | Some c => read_all w c l end
  end.

Lemma feed_stats k t w c bs : client_ok c -> in_s 64 (sdslen (querybuf c ++ bs)) ->
  feed w (stats k t c) bs = ('(w', o) ← feed w c bs; Some (w', option_map (stats k t) o)).
Proof.
  intros Hc Hs. unfold feed. rewrite <- processInputBuffer_stats by by apply receive_ok.
  f_equal. unfold receive. cbn zeta. change (is_master (set_querybuf ?x ?y)) with (is_master y).
  change (is_master (stats k t c)) with (is_master c). by destruct (is_master c).
Qed.

Lemma feed_master w c bs w' c' : client_ok c -> in_s 64 (sdslen (querybuf c ++ bs)) -> feed w c bs = Some (w', Some c') ->
  is_master c' = is_master c.
Proof. intros Hc Hs Hf. destruct (feed_ok w c bs w' c' Hc Hs Hf) as (_ & Hrun & _). by apply ref_input_master in Hrun. Qed.

Lemma feed_all_stats k t l : forall w c, client_ok c -> in_s 64 (sdslen (querybuf c ++ concat l)) ->
  feed_all w (stats k t c) l = ('(w', o) ← feed_all w c l; Some (w', option_map (stats k t) o)).
Proof.
  induction l as [|a l IH]; intros w c Hc Hs; [done|]. cbn [feed_all concat] in *.
  assert (Hsa : in_s 64 (sdslen (querybuf c ++ a))) by (unfold sdslen in *; rewrite !length_app in *; cint).
  rewrite feed_stats by done. destruct (feed w c a) as [[w1 [c1|]]|] eqn:E; [|done..]. cbn [mbind option_bind option_map].
  pose proof (feed_size _ _ _ _ _ Hc Hsa E). apply IH; [by eapply feed_ok|].
  unfold sdslen in *. rewrite !length_app in *. cint.
Qed.

(** The reads of [read_all] are those of [feed_all]. *)
Lemma read_all_feed l : forall x w c,
  client_ok c -> in_s 64 (sdslen (querybuf c ++ concat (snd <$> x :: l))) -> under_limit c (sdslen (concat (snd <$> x :: l))) ->
  exists k, read_all w c (x :: l) = ('(w', o) ← feed_all w c (snd <$> x :: l); Some (w', option_map (stats k (unixtime cf)) o)).
Proof.
  induction l as [|y l IH]; intros [[alloc avail] a] w c Hc Hs Hlim.
  - exists (new_peak c a). cbn [fmap list_fmap snd concat] in *. rewrite app_nil_r in *. cbn [read_all feed_all snd].
    rewrite read_data_feed by done. by destruct (feed w c a) as [[w1 [c1|]]|].
  - cbn [fmap list_fmap snd concat] in Hs, Hlim.
    assert (Hsa : in_s 64 (sdslen (querybuf c ++ a))) by (unfold sdslen in *; rewrite !length_app in *; cint).
    change (read_all w c (?b :: y :: l)) with ('(w, o) ← read_data alloc avail w c a; match o with None => Some (w, None) | Some c => read_all w c (y :: l) end).
    change (feed_all w c (snd <$> ?b :: y :: l)) with ('(w, o) ← feed w c a; match o with None => Some (w, None) | Some c => feed_all w c (snd <$> y :: l) end).
    rewrite read_data_feed; [|done|done|destruct Hlim; [by left|right; unfold sdslen in *; rewrite !length_app in *; lia]].
    destruct (feed w c a) as [[w1 [c1|]]|] eqn:E; [|by exists 0..]. cbn [mbind option_bind option_map].
    pose proof (feed_size _ _ _ _ _ Hc Hsa E) as Hl. pose proof (feed_master _ _ _ _ _ Hc Hsa E) as Hm.
    assert (Hc1 : client_ok c1) by by eapply feed_ok. set (k := new_peak c a).
    assert (Hs1 : in_s 64 (sdslen (querybuf c1 ++ concat (snd <$> y :: l)))).
    { cbn [fmap list_fmap snd concat]. unfold sdslen in *. rewrite !length_app in *. cint. }
    destruct (IH y w1 (stats k (unixtime cf) c1)) as [k' ->]; [exact Hc1|exact Hs1| |].
    { destruct Hlim as [H|H]; [left; by transitivity (is_master c1); [|rewrite Hm]|right].
      change (querybuf (stats k (unixtime cf) c1)) with (querybuf c1). cbn [fmap list_fmap snd concat]. unfold sdslen in *. rewrite !length_app in *. lia. }
    exists k'. rewrite feed_all_stats by done. by destruct (feed_all w1 c1 (snd <$> y :: l)) as [[w2 [c2|]]|].
Qed.

(** Pieces of [feed] and all at once. *)
Lemma feed_cut_anywhere a l w c w' c' :
  client_ok c -> in_s 64 (sdslen (querybuf c ++ concat (a :: l))) ->
  feed_all w c (a :: l) = Some (w', Some c') -> closing c' = false ->
  feed w c (concat (a :: l)) = Some (w', Some c').
Proof.
  revert w c a. induction l as [|b l IH]; intros w c a Hc Hs Hf Hcl.
  { cbn [feed_all concat] in *. rewrite app_nil_r. by destruct (feed w c a) as [[? [?|]]|]. }
  assert (Hsa : in_s 64 (sdslen (querybuf c ++ a))).
  { unfold sdslen in *. cbn [concat] in Hs. rewrite !length_app in *. cint. }
  change (feed_all w c (a :: b :: l)) with
    ('(w, o) ← feed w c a; match o with None => Some (w, None) | Some c => feed_all w c (b :: l) end) in Hf.
  destruct (feed w c a) as [[w1 [c1|]]|] eqn:E; [|done..]. cbn [mbind option_bind] in Hf.
  pose proof (feed_size _ _ _ _ _ Hc Hsa E) as Hl. assert (Hc1 : client_ok c1) by by eapply feed_ok.
  assert (Hs1 : in_s 64 (sdslen (querybuf c1 ++ concat (b :: l)))).
  { unfold sdslen in *. change (concat (a :: b :: l)) with (a ++ concat (b :: l)) in Hs.
    rewrite !length_app in *. cint. }
  change (concat (a :: b :: l)) with (a ++ concat (b :: l)).
  rewrite (feed_split w c a (concat (b :: l)) w1 c1 Hc Hs Hs1 E); [by apply IH|].
  destruct (closing c1) eqn:Hc1cl; [|done].
  pose proof (feed_all_closing _ _ _ _ _ Hc1 Hs1 Hf Hc1cl). congruence.
Qed.

(** C7: the commands a client sends are executed in the same way however its bytes
    are cut into reads, as long as they fit into its query buffer ([client_max_querybuf_len]; the
    buffer of a master has no limit) and the reads leave the client open:
    if [readQueryFromClient] gets them in the pieces [x :: l], whatever room its buffer has, then a single call that
    gets them all executes the same commands with the same results, and leaves the very same
    client (parser state, unparsed bytes, flags, replies, replication offsets, time of
    the last interaction) except for the statistics of the largest buffer.
    Where the client is closed the cut does matter: see [long_line_depends_on_cut]. *)
Theorem reads_cut_anywhere x l alloc avail w c w' c' : let bs := concat (snd <$> x :: l) in
  client_ok c -> in_s 64 (sdslen (querybuf c ++ bs)) -> under_limit c (sdslen bs) ->
  read_all w c (x :: l) = Some (w', Some c') -> closing c' = false ->
  readQueryFromClient cf (λ _, ReadData bs) alloc avail w c = Some (w', Some (set_querybuf_peak (new_peak c bs) c')).
Proof.
  intros bs Hc Hs Hlim Hrun Hcl. destruct (read_all_feed l x w c Hc Hs Hlim) as [k E]. rewrite Hrun in E.
  destruct (feed_all w c (snd <$> x :: l)) as [[w1 [c1|]]|] eqn:Ef; [|done..]. cbn in E. injection E as <- ->.
  change (closing c1 = false) in Hcl. change (read_data alloc avail w c bs = Some (w', Some (stats (new_peak c bs) (unixtime cf) c1))).
  rewrite read_data_feed by done. pose proof (feed_cut_anywhere (snd x) l.*2 w c w' c1 Hc Hs Ef Hcl) as Hf.
  change (concat _) with bs in Hf. by rewrite Hf.
Qed.

(** C30: the parser with its machinery (a position in a shared buffer, big arguments
    moved to the start of the buffer and used in place of a copy, lengths computed
    in 64 bit machine integers, arrays grown on demand) does exactly what the
    reference parser does on the list of bytes that are not parsed yet. *)
Theorem processInputBuffer_reference w c :
  client_ok c ->
  processInputBuffer cf w c =
  ('(w', o) ← ref_run w (abs c); Some (w', option_map (build (read_reploff c)) o)).
Proof. intros Hc. apply (processInputBuffer_run w c Hc). Qed.
End properties.
