(* ===== verification/RespSafe.v ===== *)
(** Safety of the request parser: no [serverAssert] or [serverPanic] is reached and
    [argv] is never written beyond its end, whatever a client sends. *)

From S2P Require Import Prelude Util SdsArgs Resp RespRef RespChunk RespSpec.

Local Open Scope string_scope.
Local Open Scope list_scope.
Local Open Scope Z_scope.

(** ** The invariant *)

Abbreviation argc c := (Z.of_nat (length (argv c))).

(** While arguments are missing there is an array to store them in, and their number
    fits an [int]. *)
Definition args_ok (r : client) : Prop :=
  parse_ok r /\
  (multibulklen r <> 0 -> 1 <= argv_len r /\ argc r <= argv_len r /\ argc r + multibulklen r <= INT_MAX).

(** Between requests, or in the middle of one. *)
Definition idle_ok (p : bytes) (r : client) : Prop :=
  args_ok r /\
  (reqtype r = 0 \/ reqtype r = PROTO_REQ_INLINE \/ reqtype r = PROTO_REQ_MULTIBULK) /\
  (reqtype r <> PROTO_REQ_MULTIBULK -> multibulklen r = 0) /\
  (multibulklen r = 0 -> argv r = [] /\ (reqtype r = PROTO_REQ_MULTIBULK -> at_ p 0 = 42)).

(** A command waits: the client is blocked, an I/O thread has read its request, or it
    is about to be closed. *)
Definition parked (r : client) : bool :=
  has (flags (sess r)) CLIENT_BLOCKED || has (flags (sess r)) CLIENT_PENDING_COMMAND || closing r.

Definition resp_ok (p : bytes) (r : client) : Prop := parse_ok r /\ (parked r = true \/ idle_ok p r).

Section safety.
Context {W : Type} {SV : Server W} {SL : ServerLaws W} (cf : config).
Implicit Types (w : W) (p b d : bytes) (r c : client).

Lemma push_arg_safe o r :
  multibulklen r <> 0 -> args_ok r ->
  exists r', push_arg o r = Some r' /\ argv r' = argv r ++ [o] /\ multibulklen r' = multibulklen r /\
    1 <= argv_len r' /\ argc r + 1 <= argv_len r'.
Proof.
  intros H0 ((_ & Hm & _) & Ha). specialize (Ha H0) as (H1 & H2 & H3). unfold push_arg. cbn zeta.
  destruct (Z.leb_spec (argv_len r) (argc r)) as [Hl|Hl].
  - assert (E : argv_len r = argc r) by lia. cbn [argv_len set_argv_len].
    set (n := Z.min _ _). assert (Hn : argc r + 1 <= n).
    { unfold n. change (INT_MAX / 2) with 1073741823. destruct (Z.ltb_spec (argv_len r) 1073741823); lia. }
    rewrite (proj2 (Z.ltb_lt _ _)) by lia. eexists. split; [done|]. cbn. split_and!; [done..|lia|lia].
  - rewrite (proj2 (Z.ltb_lt _ _)) by lia. eexists. split; [done|]. cbn. split_and!; [done..|lia|lia].
Qed.

Lemma ref_bulk_safe p r :
  multibulklen r <> 0 -> args_ok r -> 0 <= bulklen r ->
  exists v, ref_bulk p r = Some v /\ args_ok (vclient v).
Proof.
  intros H0 Ha Hb. destruct (ref_bulk p r) as [v|] eqn:E.
  - exists v. split; [done|]. pose proof (ref_bulk_keeps _ _ _ H0 E) as [Hk _].
    split; [apply Hk, Ha|]. revert E. unfold ref_bulk. case_match; [intros [= <-]; apply Ha|].
    destruct (push_arg_safe (take (Z.to_nat (bulklen r)) p) r H0 Ha) as (r' & -> & E1 & E2 & E3 & E4).
    intros [= <-]. cbn. intros _. destruct Ha as [_ Ha]. specialize (Ha H0). rewrite E1, E2, length_app. cbn. lia.
  - exfalso. revert E. unfold ref_bulk. case_match; [done|].
    destruct (push_arg_safe (take (Z.to_nat (bulklen r)) p) r H0 Ha) as (r' & -> & _). done.
Qed.

Lemma ref_arg_safe w p r :
  multibulklen r <> 0 -> args_ok r ->
  exists v, ref_arg cf w p r = Some v /\ (match v with VErr _ _ => True | _ => args_ok (vclient v) end).
Proof.
  intros H0 Ha. unfold ref_arg. pose proof (ref_len_kind cf w p r) as Hk.
  pose proof (ref_len_keeps cf w p r H0) as [Hp _]. pose proof (ref_len_bulklen cf w p r) as Hbl.
  destruct (Z.eqb_spec (bulklen r) (-1)) as [E|E].
  - destruct (ref_len cf w p r) as [n r1|n r1|n r1|n r1]; [by eexists|eexists; split; [done|]; by destruct Hk as [_ ->]|done|].
    destruct Hk as [ll ->]. specialize (Hbl n _ eq_refl).
    destruct (ref_bulk_safe (drop n p) (set_bulklen ll r)) as (v & -> & Hv); [done| |lia|].
    { split; [apply Hp, Ha|apply Ha]. }
    eexists. split; [done|]. by destruct v.
  - destruct (ref_bulk_safe p r H0 Ha) as (v & -> & Hv); [destruct Ha as [[[Hb|Hb] _] _]; lia|].
    exists v. split; [done|]. by destruct v.
Qed.

Lemma ref_args_safe fuel w p r :
  args_ok r -> (length p < fuel)%nat ->
  exists v, ref_args cf fuel w p r = Some v /\ (match v with VErr _ _ => True | _ => args_ok (vclient v) end).
Proof.
  revert p r. induction fuel as [|fuel IH]; intros p r Ha Hf; [lia|]. cbn [ref_args].
  destruct (Z.eqb_spec (multibulklen r) 0) as [E0|E0]; [by eexists|].
  destruct (ref_arg_safe w p r E0 Ha) as (v & E & Hv). rewrite E. cbn [mbind option_bind].
  destruct v as [n r1|n r1|n r1|n r1]; try (by eexists).
  apply ref_arg_Go in E as [_ Hn]; [|apply Ha].
  destruct (IH (drop n p) r1 Hv) as (v & -> & Hv2); [rewrite length_drop; lia|].
  eexists. split; [done|]. by destruct v.
Qed.

Lemma ref_multibulk_safe w p r :
  p <> [] -> idle_ok p r -> reqtype r = PROTO_REQ_MULTIBULK ->
  exists v, ref_multibulk cf w p r = Some v /\
    match v with VErr _ _ => True | VGo _ _ => False | _ => args_ok (vclient v) end /\
    (forall n r', v = VWait n r' -> multibulklen r' = 0 -> n = 0%nat /\ r' = r).
Proof.
  intros Hne (Ha & _ & _ & H3) Hq. unfold ref_multibulk. destruct (Z.eqb_spec (multibulklen r) 0) as [E0|E0].
  - destruct (H3 E0) as [Hargv Hstar]. specialize (Hstar Hq).
    assert (exists v, ref_count w p r = Some v) as [v Ev].
    { unfold ref_count. rewrite bool_decide_true by done. cbn [negb]. unfold ref_header.
      destruct (strchr p 13) as [k|]; [|destruct (_ <? _); eauto]. destruct (_ <? k + 2); [eauto|].
      rewrite Hstar. cbn [Z.eqb Pos.eqb negb]. repeat case_match; eauto. }
    pose proof (ref_count_keeps _ _ _ _ E0 Ev) as [Hk _]. pose proof (ref_count_app w p [] r) as Hc.
    rewrite Ev in *. cbn [mbind option_bind]. destruct v as [n r1|n r1|n r1|n r1].
    + eexists. split; [done|]. split; [done|]. by intros ? ? [=].
    + destruct Hc as [-> ->]. eexists. split; [done|]. split; [done|]. by intros ? ? [= <- <-].
    + eexists. split; [done|]. split; [|by intros ? ? [=]].
      assert (r1 = r) as ->; [|done]. revert Ev. unfold ref_count. repeat case_match; congruence.
    + pose proof (ref_count_Go _ _ _ _ _ Ev) as [_ Hm].
      assert (Ha1 : args_ok r1).
      { split; [apply Hk, Ha|]. intros _. revert Ev. unfold ref_count. repeat case_match; try done.
        intros [= _ <-]. cbn in *. lia. }
      destruct (ref_args_safe (S (length p)) w (drop n p) r1 Ha1) as (v & E & Hv); [rewrite length_drop; lia|].
      rewrite E. cbn [mbind option_bind]. apply ref_args_kind in E. eexists. split; [done|].
      split; [by destruct v|]. destruct v; cbn; try done. intros ? ? [= <- <-]. done.
  - destruct (ref_args_safe (S (length p)) w p r Ha) as (v & E & Hv); [lia|].
    rewrite E. apply ref_args_kind in E. eexists. split; [done|]. split; [by destruct v|].
    destruct v; try done. intros ? ? [= <- <-]. done.
Qed.

Lemma reset_idle p r : idle_ok p (resetClient r).
Proof.
  rewrite resetClient_eq. split; [split; [by apply idle_parse_ok|done]|]. cbn. split; [by left|]. by split.
Qed.

Lemma detect_idle p r : p <> [] -> idle_ok p r -> idle_ok p (ref_detect p r).
Proof.
  intros Hne Hi. unfold ref_detect. destruct (Z.eqb_spec (reqtype r) 0) as [E|E]; [|done].
  destruct Hi as (Ha & _ & H2 & H3). specialize (H2 ltac:(lia)). destruct (H3 H2) as [H4 _].
  split; [done|]. cbn. destruct (Z.eqb_spec (at_ p 0) 42); (split; [lia|]); split; try done.
Qed.

Lemma ref_request_safe w p r :
  p <> [] -> idle_ok p r -> reqtype r <> 0 ->
  exists v, ref_request cf w p r = Some v /\
    match v with VGo _ _ => False | VWait n r' => idle_ok (drop n p) r' | _ => True end.
Proof.
  intros Hne Hi Hq. pose proof Hi as (Ha & H1 & H2 & H3). unfold ref_request.
  destruct (Z.eqb_spec (reqtype r) PROTO_REQ_INLINE) as [E|E].
  - eexists. split; [done|]. unfold ref_inline. destruct (strchr p 10).
    + destruct (if _ && _ then _ else _) as [len lf]. destruct (sdssplitargs _); [|done].
      by destruct (negb _ && _).
    + destruct (_ <? _); [done|]. by rewrite drop_0.
  - assert (E2 : reqtype r = PROTO_REQ_MULTIBULK) by lia. rewrite (proj2 (Z.eqb_eq _ PROTO_REQ_MULTIBULK)) by done.
    destruct (ref_multibulk_safe w p r Hne Hi E2) as (v & Ev & Hv & Hw). exists v. split; [done|].
    assert (Hc : calm v r).
    { apply (ref_request_calm cf w p). unfold ref_request. rewrite (proj2 (Z.eqb_neq _ _)) by done.
      by rewrite (proj2 (Z.eqb_eq _ _)). }
    destruct v as [n r1|n r1|n r1|n r1]; try done. destruct Hc as [_ Hc]. cbn [vclient] in *.
    destruct (Z.eq_dec (multibulklen r1) 0) as [E0|E0].
    + destruct (Hw n r1 eq_refl E0) as [-> ->]. by rewrite drop_0.
    + split; [done|]. rewrite Hc, E2. split; [lia|]. split; [done|]. by intros.
Qed.

Lemma closing_parked r : closing r = true -> parked r = true.
Proof. unfold parked. intros ->. apply orb_true_r. Qed.

Lemma not_stopped w r : stopped w r = false -> parked r = false.
Proof.
  unfold stopped, parked, closing. rewrite !orb_false_iff. tauto.
Qed.

Lemma ref_exec_safe w d p r w' d' r' :
  parse_ok r -> ref_exec w d r = (w', Some (d', r')) -> resp_ok p r'.
Proof.
  intros Hp E. split; [by eapply ref_exec_parse_ok|]. revert E. unfold ref_exec.
  pose proof (command_error_closes (argv r) (sess r) w) as Hcl.
  destruct (processCommand (argv r) (sess r) w) as [[[w1 s] st] alive]. destruct st.
  - unfold ref_processed. destruct (has _ CLIENT_BLOCKED) eqn:Hb.
    { destruct alive; [|done]. intros [= <- <- <-]. left. unfold parked. by rewrite Hb. }
    cbn zeta. pose proof (reset_idle p (set_sess s r)) as Hi.
    destruct (_ && _); (destruct alive; [|done]); intros [= <- <- <-]; right; exact Hi.
  - destruct alive; [|done]. intros [= <- <- <-]. left. by apply closing_parked, Hcl.
Qed.

Lemma ref_input_safe fuel w d p r :
  io_threads_op cf <> IO_THREADS_OP_WRITE -> (length p < fuel)%nat -> resp_ok p r ->
  exists w' o, ref_input cf fuel w d p r = Some (w', o) /\
    forall d' p' r', o = Some (d', p', r') -> resp_ok p' r'.
Proof.
  intros Hio. revert w d p r. induction fuel as [|fuel IH]; intros w d p r Hf Hr; [lia|].
  rewrite ref_input_S. case_bool_decide as Hne.
  { eexists _, _. split; [done|]. by intros ? ? ? [= <- <- <-]. }
  destruct (stopped w r) eqn:Hst.
  { eexists _, _. split; [done|]. by intros ? ? ? [= <- <- <-]. }
  pose proof Hr as [Hp [Hpk|Hi]]; [by rewrite (not_stopped w r Hst) in Hpk|].
  destruct (ref_request_safe w p (ref_detect p r) Hne (detect_idle p r Hne Hi) (detect_nonzero p r))
    as (v & E & Hv). rewrite E. cbn [mbind option_bind].
  pose proof (ref_request_ok _ _ _ _ _ Hp E) as Hpv. pose proof (ref_request_calm _ _ _ _ _ E) as Hcalm.
  destruct v as [n r1|n r1|n r1|n r1]; cbn [ref_turn vlen]; [| | |done].
  - eexists _, _. split; [done|]. intros ? ? ? [= <- <- <-]. split; [done|]. left. by apply closing_parked.
  - eexists _, _. split; [done|]. intros ? ? ? [= <- <- <-]. split; [done|]. by right.
  - apply (ref_request_app _ _ _ []) in E as [_ Hn]; [|by apply ref_detect_keeps].
    assert (Hl : (length (drop n p) < fuel)%nat) by (rewrite length_drop; lia).
    case_bool_decide.
    { apply IH; [done|]. split; [apply reset_parse_ok|]. right. apply reset_idle. }
    destruct (io_threads_op cf); [| |done].
    + destruct (ref_exec w _ r1) as [w1 [[d1 r2]|]] eqn:Ex; [|by eexists _, _].
      apply IH; [done|]. by eapply ref_exec_safe.
    + eexists _, _. split; [done|]. intros ? ? ? [= <- <- <-]. split; [done|]. left.
      unfold parked. cbn [on_sess sess set_sess or_flags set_flags flags].
      rewrite (has_lor _ CLIENT_PENDING_COMMAND CLIENT_PENDING_COMMAND) by done. by rewrite orb_true_r.
Qed.

Lemma resp_ok_app p b r : resp_ok p r -> resp_ok (p ++ b) r.
Proof.
  intros [Hp [Hk|(Ha & H1 & H2 & H3)]]; (split; [done|]); [by left|right].
  split; [done|]. split; [done|]. split; [done|]. intros E0. destruct (H3 E0) as [H4 H5]. split; [done|].
  intros Hq. specialize (H5 Hq). destruct p as [|x p]; [done|]. by rewrite at_app by (simpl; lia).
Qed.

(** C16: whatever bytes a client sends, processing them ends, fails no assertion and
    never writes beyond [argv]; the client it leaves, if it was not freed, is again
    consistent: its positions are in range, its replication offset is exact, and it
    can take the next read. *)
Theorem requests_never_crash w c bs :
  io_threads_op cf <> IO_THREADS_OP_WRITE ->
  client_ok c -> resp_ok (pending c) c -> in_s 64 (sdslen (querybuf c ++ bs)) ->
  exists w' o, feed cf w c bs = Some (w', o) /\
    forall c', o = Some c' -> client_ok c' /\ resp_ok (pending c') c'.
Proof.
  intros Hio Hc Hr Hs. destruct (feed cf w c bs) as [[w' o]|] eqn:E.
  - exists w', o. split; [done|]. intros c' ->. destruct (feed_ok cf w c bs w' c' Hc Hs E) as (Hc' & Hrun & _).
    split; [done|]. destruct (ref_input_safe (S (length (pending c ++ bs))) w (unapplied c) (pending c ++ bs) (rest c))
      as (w1 & o1 & E1 & Hok); [done|lia|by apply resp_ok_app|].
    unfold ref_run in Hrun. rewrite E1 in Hrun. injection Hrun as -> ->. by apply (Hok _ _ (rest c') eq_refl).
  - exfalso. rewrite feed_run in E by done. unfold ref_run in E.
    destruct (ref_input_safe (S (length (pending c ++ bs))) w (unapplied c) (pending c ++ bs) (rest c))
      as (w1 & o1 & E1 & Hok); [done|lia|by apply resp_ok_app|]. by rewrite E1 in E.
Qed.
End safety.
