(* ===== verification/RespRepl.v ===== *)
(** The request parser of a replica: the master's stream is passed on exactly.

    The file also has the concrete server that the examples run on. *)

From S2P Require Import Prelude Util SdsArgs Resp RespRef RespChunk RespSpec RespSafe.

Local Open Scope string_scope.
Local Open Scope list_scope.
Local Open Scope Z_scope.

(** What the sub-replicas have been sent: a fed buffer is appended, and executing a
    command of the master does not send anything by itself. *)
Class FedStream (W : Type) `{Server W} := {
  fed : W -> bytes;
  fed_feed b w : fed (replicationFeedStreamFromMasterStream b w) = fed w ++ b;
  fed_command args s w : fed (processCommand args s w).1.1.1 = fed w }.

Section replication.
Context {W : Type} {SV : Server W} {SL : ServerLaws W} {FS : FedStream W} (cf : config).
Implicit Types (w : W) (p b d : bytes) (r c : client).

(** From [(w, d, p, r)] to [(w', d', p', r')] the bytes [a] were passed on. *)
Definition passed_on w d p r w' d' p' r' : Prop :=
  exists a, fed w' = fed w ++ a /\ d ++ p = a ++ d' ++ p' /\ reploff r' = reploff r + Z.of_nat (length a).

Lemma passed_refl w d p r r' : reploff r' = reploff r -> passed_on w d p r w d p r'.
Proof. intros E. exists []. rewrite app_nil_r. split; [done|]. split; [done|]. simpl. lia. Qed.

Lemma passed_trans w d p r w1 d1 p1 r1 w2 d2 p2 r2 :
  passed_on w d p r w1 d1 p1 r1 -> passed_on w1 d1 p1 r1 w2 d2 p2 r2 -> passed_on w d p r w2 d2 p2 r2.
Proof.
  intros (a & E1 & E2 & E3) (a' & E1' & E2' & E3'). exists (a ++ a').
  rewrite length_app, E1', E1, E2, E2', <- !app_assoc. split; [done|]. split; [done|]. lia.
Qed.

Lemma keep_all r d p n : is_master r = true -> keep r d p n ++ drop n p = d ++ p.
Proof. intros Hm. unfold keep. by rewrite Hm, <- app_assoc, take_drop. Qed.

Lemma ref_exec_passed w d p r w' d' r' :
  is_master r = true -> ref_exec w d r = (w', Some (d', r')) -> passed_on w d p r w' d' p r'.
Proof.
  intros Hm. unfold ref_exec. pose proof (fed_command (argv r) (sess r) w) as Hf.
  pose proof (command_keeps_master (argv r) (sess r) w) as Hk.
  destruct (processCommand (argv r) (sess r) w) as [[[w1 s] st] alive]. cbn in Hf.
  assert (Hsame : passed_on w d p r w1 d p (set_sess s r)).
  { exists []. rewrite Hf, app_nil_r. split; [done|]. split; [done|]. cbn. lia. }
  destruct st; [|destruct alive; [by intros [= <- <- <-]|done]].
  unfold ref_processed. destruct (has _ CLIENT_BLOCKED); [destruct alive; [by intros [= <- <- <-]|done]|].
  cbn zeta. assert (Hr : reploff (resetClient (set_sess s r)) = reploff r) by by rewrite resetClient_eq.
  destruct (_ && _); (destruct alive; [|done]); intros [= <- <- <-].
  - exists d. split; [|split; [done|cbn; by rewrite Hr]].
    case_bool_decide as E; [by rewrite E, app_nil_r|by rewrite fed_feed, Hf].
  - eapply passed_trans; [exact Hsame|]. by apply passed_refl.
Qed.

Lemma ref_input_passed fuel w d p r w' d' p' r' :
  is_master r = true -> ref_input cf fuel w d p r = Some (w', Some (d', p', r')) ->
  passed_on w d p r w' d' p' r'.
Proof.
  revert w d p r. induction fuel as [|fuel IH]; intros w d p r Hm.
  { cbn [ref_input]. case_bool_decide; [intros [= <- <- <- <-]; by apply passed_refl|].
    destruct (stopped w r); [intros [= <- <- <- <-]; by apply passed_refl|done]. }
  rewrite ref_input_S. case_bool_decide as Hne; [intros [= <- <- <- <-]; by apply passed_refl|].
  destruct (stopped w r) eqn:Hst; [intros [= <- <- <- <-]; by apply passed_refl|].
  destruct (ref_request cf w p (ref_detect p r)) as [v|] eqn:E; [|done]. cbn [mbind option_bind].
  assert (Hv : is_master (vclient v) = true /\ reploff (vclient v) = reploff r).
  { pose proof (ref_request_keeps _ _ _ _ _ E) as (_ & -> & ->).
    pose proof (ref_detect_keeps p r) as (_ & -> & ->). done. }
  destruct Hv as [Hmv Hrv].
  assert (Hstep : passed_on w d p r w (keep r d p (vlen v)) (drop (vlen v) p) (vclient v)).
  { exists []. rewrite app_nil_r. split; [done|]. split; [by rewrite keep_all|]. simpl. lia. }
  destruct v as [n r1|n r1|n r1|n r1]; cbn [ref_turn vlen] in *; [by intros [= <- <- <- <-]..| |done].
  case_bool_decide.
  { intros Hrun. eapply passed_trans; [exact Hstep|].
    eapply passed_trans; [|eapply IH; [|exact Hrun]].
    - apply passed_refl. by rewrite resetClient_eq.
    - rewrite <- Hmv. apply reset_same_buf. }
  destruct (io_threads_op cf); [| |done].
  - destruct (ref_exec w (keep r d p n) r1) as [w1 [[d1 r2]|]] eqn:Ex; [|done]. intros Hrun.
    eapply passed_trans; [exact Hstep|]. eapply passed_trans; [by eapply ref_exec_passed|].
    eapply IH; [|exact Hrun]. apply ref_exec_master in Ex. by rewrite Ex.
  - intros [= <- <- <- <-]. eapply passed_trans; [exact Hstep|]. by apply passed_refl.
Qed.

(** C27: a replica passes its master's stream on to its own replicas without a gap, a
    repetition or a change of order: after any read, what was passed on followed by
    what is still in the query buffer (parsed or not) is what was there before
    followed by the new bytes, and the applied replication offset has advanced by
    exactly the number of bytes passed on. *)
Theorem master_stream_exact w c bs w' c' :
  is_master c = true -> client_ok c -> in_s 64 (sdslen (querybuf c ++ bs)) ->
  feed cf w c bs = Some (w', Some c') ->
  exists applied, fed w' = fed w ++ applied /\
    drop (Z.to_nat (repl_applied c)) (querybuf c) ++ bs = applied ++ querybuf c' /\
    reploff c' = reploff c + Z.of_nat (length applied) /\ repl_applied c' = 0.
Proof.
  intros Hm Hc Hs Hf. destruct (feed_ok cf w c bs w' c' Hc Hs Hf) as (Hc' & Hrun & _ & Hb).
  apply ref_input_passed in Hrun as (a & E1 & E2 & E3); [|done]. exists a. split; [done|].
  rewrite app_assoc, unapplied_pending in E2 by (done || apply Hc). split; [|split; [exact E3|by rewrite <- Hb]].
  rewrite E2. f_equal. by rewrite <- Hb at 3.
Qed.
End replication.

(** ** A concrete server

    It logs the commands it executes and the stream it is fed, has a password, and
    knows three commands: [AUTH], [QUIT], which closes the client, and [BLPOP], which
    blocks it. *)

Record log := Log { executed : list (list bytes); stream : bytes }.

Definition log_command (args : list bytes) (s : session) (w : log) : log * session * status * bool :=
  let w := Log (executed w ++ [args]) (stream w) in
  let name := at_ (default [] (head args)) 0 in
  if name =? 65 then
    (w, Session (flags s) true (cmd s) (slot s) (cur_script s) (deferred_reply_errors s) (reply s), C_OK, true)
  else if name =? 81 then (w, or_flags CLIENT_CLOSE_AFTER_REPLY s, C_ERR, true)
  else if name =? 66 then (w, or_flags CLIENT_BLOCKED s, C_OK, true)
  else (w, set_cmd (Some otherCommand) s, C_OK, true).

#[export] Instance log_server : Server log := {
  processCommand := log_command;
  replicationFeedStreamFromMasterStream b w := Log (executed w) (stream w ++ b);
  isInsideYieldingLongCommand w := false;
  DefaultUser_flags w := 0 }.

#[export] Instance log_server_laws : ServerLaws log.
Proof.
  split; intros args s w; cbn [processCommand log_server]; unfold log_command.
  - repeat case_match; simplify_eq; cbn [or_flags set_flags flags set_cmd]; try done;
      rewrite !has_bit, Z.lor_spec by lia; apply orb_false_r.
  - repeat case_match; simplify_eq; try done. intros _ _. cbn [or_flags set_flags flags]. by apply has_lor.
Qed.

#[export] Instance log_fed : FedStream log := {
  fed := stream;
  fed_feed b w := eq_refl;
  fed_command args s w := ltac:(cbn [processCommand log_server]; unfold log_command; by repeat case_match) }.

Definition example_config : config := Config 536870912 1073741824 0 IO_THREADS_OP_IDLE.

(** A client that has just connected, and a connection to the master. *)
Definition new_client (fl : Z) : client :=
  Client [] 0 [] 0 0 0 0 (-1) 0 0 0 0 0 0 (Session fl false None (-1) None None []).

Lemma new_client_ok fl : client_ok (new_client fl) /\ resp_ok [] (new_client fl).
Proof.
  assert (Hu : unapplied (new_client fl) = []) by (unfold unapplied; case_match; reflexivity).
  assert (Hp : parse_ok (new_client fl)) by by apply idle_parse_ok.
  split.
  - split.
    + unfold pos_ok. change (sdslen (querybuf (new_client fl))) with 0.
      change (qb_pos (new_client fl)) with 0. change (repl_applied (new_client fl)) with 0.
      split; [lia|]. split; [cint|]. destruct (is_master _); lia.
    + split; [done|]. intros _. rewrite Hu. reflexivity.
  - split; [done|]. right. split; [split; [done|done]|]. cbn. split; [by left|]. by split.
Qed.

(** [ECHO hi], then the beginning of [PING]. *)
Definition example_stream : list bytes :=
  [str "*2" ++ [13]; [10] ++ str "$4" ++ [13; 10] ++ str "EC";
   str "HO" ++ [13; 10] ++ str "$2" ++ [13; 10] ++ str "hi" ++ [13; 10] ++ str "*1" ++ [13]].

(** Gives the result of a closed run. *)
Ltac run_result e :=
  let r := eval vm_compute in e in
  match r with Some (?w, Some ?c) => exists w, c end.

Definition example_reads : list (Z * Z * bytes) := [(16384, 0, str "HO" ++ [13; 10] ++ str "$2" ++ [13; 10] ++ str "hi" ++ [13; 10] ++ str "*1" ++ [13])].
Definition example_start : bytes := str "*2" ++ [13; 10] ++ str "$4" ++ [13; 10] ++ str "EC".

Lemma reads_cut_anywhere_witness :
  exists w' c', read_all example_config (Log [] []) (new_client 0) ((0, 16384, example_start) :: example_reads) = Some (w', Some c') /\
    (let bs := concat (snd <$> (0, 16384, example_start) :: example_reads) in
     readQueryFromClient example_config (λ _, ReadData bs) 16384 0 (Log [] []) (new_client 0) =
       Some (w', Some (set_querybuf_peak (new_peak (new_client 0) bs) c'))) /\
    executed w' = [[str "ECHO"; str "hi"]] /\ querybuf c' = str "*1" ++ [13].
Proof.
  run_result (read_all example_config (Log [] []) (new_client 0) ((0, 16384, example_start) :: example_reads)).
  split; [vm_compute; reflexivity|]. split; [|split; reflexivity]. apply reads_cut_anywhere.
  - apply new_client_ok.
  - by_compute.
  - right. by_compute.
  - vm_compute. reflexivity.
  - reflexivity.
Defined.

(** A line that is longer than [PROTO_INLINE_MAX_SIZE] is executed if its end arrives
    with it, and closes the client if it arrives later. *)
Definition long_line : bytes := str "PING" ++ replicate (Z.to_nat PROTO_INLINE_MAX_SIZE) 32.

(** The commands executed, and whether the client is to be closed. *)
Definition run_summary (o : option (log * option client)) : option (list (list bytes) * option bool) :=
  option_map (λ '(w, o), (executed w, option_map closing o)) o.

Lemma long_line_depends_on_cut :
  run_summary (feed example_config (Log [] []) (new_client 0) (long_line ++ [13; 10])) = Some ([[str "PING"]], Some false) /\
  run_summary (feed_all example_config (Log [] []) (new_client 0) [long_line; [13; 10]]) = Some ([], Some true).
Proof. split; vm_compute; reflexivity. Qed.

Lemma requests_never_crash_witness :
  exists w' o, feed example_config (Log [] []) (new_client 0) (str "*1" ++ [13; 10] ++ str "+x" ++ [13; 10]) = Some (w', o) /\
    forall c', o = Some c' -> client_ok c' /\ resp_ok (pending c') c'.
Proof. apply requests_never_crash; [done|apply new_client_ok|apply new_client_ok|by_compute]. Defined.

Lemma master_stream_exact_witness :
  exists w' c',
    feed example_config (Log [] []) (new_client CLIENT_MASTER) (concat example_stream) = Some (w', Some c') /\
    exists applied, fed w' = applied /\ concat example_stream = applied ++ querybuf c' /\
    reploff c' = Z.of_nat (length applied) /\ reploff c' = 22.
Proof.
  run_result (feed example_config (Log [] []) (new_client CLIENT_MASTER) (concat example_stream)).
  match goal with |- _ = Some (?w, Some ?c) /\ _ =>
    destruct (master_stream_exact example_config (Log [] []) (new_client CLIENT_MASTER) (concat example_stream) w c)
      as (a & E1 & E2 & E3 & _) end.
  - reflexivity.
  - apply new_client_ok.
  - by_compute.
  - vm_compute. reflexivity.
  - split; [vm_compute; reflexivity|]. exists a. split; [exact E1|]. split; [exact E2|]. split; [exact E3|reflexivity].
Defined.

Lemma processInputBuffer_reference_witness :
  let c := set_querybuf (concat example_stream) (new_client 0) in
  processInputBuffer example_config (Log [] []) c =
  ('(w', o) ← ref_run example_config (Log [] []) (abs c); Some (w', option_map (build 0) o)).
Proof.
  intros c. apply (processInputBuffer_reference example_config (Log [] []) c).
  exact (receive_ok (concat example_stream) (new_client 0) (proj1 (new_client_ok 0)) ltac:(by_compute)).
Defined.
