(* ===== verification/AofCmd.v ===== *)
(** The command encoding of [aof.c] and its round trip through the request parser.

    [catAppendOnlyGenericCommand] writes a command in the same format clients use:
    what is appended to the AOF is parsed back to the same arguments. *)

From S2P Require Import Prelude Util SdsArgs Resp RespRef RespChunk RespSpec RespSafe RespRepl.

Local Open Scope string_scope.
Local Open Scope list_scope.
Local Open Scope Z_scope.

(** A prefix byte, a number and CRLF in the local buffer of 32 bytes; the bytes that
    are appended, and the buffer. *)
Definition length_line (buf : bytes) (prefix v : Z) : option (bytes * bytes) :=
  buf ← setb buf 0 prefix;
  '(buf, n) ← ll2string buf 1 (Z.of_nat (length buf) - 1) v;
  let len := 1 + n in
  buf ← setb buf len 13;
  buf ← setb buf (len + 1) 10;
  line ← rd buf 0 (Z.to_nat (len + 2));
  Some (buf, line).

(** The loop over the arguments, which are decoded strings. *)
Fixpoint cat_args (buf dst : bytes) (argv : list bytes) : option bytes :=
  match argv with
  | [] => Some dst
  | o :: argv' =>
      '(buf, line) ← length_line buf 36 (sdslen o);
      cat_args buf (((dst ++ line) ++ o) ++ [13; 10]) argv'
  end.

(** [buf] holds the initial contents of the local array. *)
Definition catAppendOnlyGenericCommand (buf dst : bytes) (argv : list bytes) : option bytes :=
  '(buf, line) ← length_line buf 42 (Z.of_nat (length argv));
  cat_args buf (dst ++ line) argv.

Example cat_set :
  catAppendOnlyGenericCommand (replicate 32 0) [] [str "SET"; str "k"; []] =
  Some (str "*3" ++ [13; 10] ++ str "$3" ++ [13; 10] ++ str "SET" ++ [13; 10] ++ str "$1" ++ [13; 10] ++ str "k"
        ++ [13; 10] ++ str "$0" ++ [13; 10] ++ [13; 10]).
Proof. reflexivity. Qed.

(** ** The encoding *)

(** [line] is a length line for [v]. *)
Definition line_for (prefix v : Z) (line : bytes) : Prop :=
  exists s, line = prefix :: s ++ [13; 10] /\ decimal v s.

Inductive encoded_args : list bytes -> bytes -> Prop :=
  | enc_nil : encoded_args [] []
  | enc_cons o args line enc :
      line_for 36 (sdslen o) line -> encoded_args args enc ->
      encoded_args (o :: args) (line ++ o ++ [13; 10] ++ enc).

Definition encoded (args : list bytes) (enc : bytes) : Prop :=
  exists line body, line_for 42 (Z.of_nat (length args)) line /\ encoded_args args body /\ enc = line ++ body.

Lemma sdigits_small v : 0 <= v -> in_s 64 v -> sdigits10 v <= 20.
Proof.
  intros H0 Hv. unfold sdigits10. rewrite (proj2 (Z.ltb_ge v 0)) by lia.
  pose proof (digits10_range v ltac:(cint)). lia.
Qed.

Lemma setb_mid a x x' c : setb (a ++ x :: c) (Z.of_nat (length a)) x' = Some (a ++ x' :: c).
Proof. rewrite setb_wr. by apply (wr_app a [x] [x'] c). Qed.

Lemma length_line_spec buf prefix v :
  (24 <= length buf)%nat -> 0 <= v -> in_s 64 v ->
  exists buf' line, length_line buf prefix v = Some (buf', line) /\ length buf' = length buf /\ line_for prefix v line.
Proof.
  intros Hl H0 Hv. destruct buf as [|b0 t]; [simpl in Hl; lia|]. unfold length_line. simpl in Hl.
  pose proof (setb_mid [] b0 prefix t) as E0. cbn [app length] in E0. change (Z.of_nat 0) with 0 in E0. rewrite E0.
  cbn [mbind option_bind]. replace (Z.of_nat (length (prefix :: t)) - 1) with (Z.of_nat (length t)) by (simpl; lia).
  destruct (ll2string_spec (prefix :: t) 1 (Z.of_nat (length t)) v) as (m & n & E & Hs); [lia|done|lia|simpl; lia|].
  rewrite E. cbn [mbind option_bind]. pose proof (sdigits_small v H0 Hv). rewrite decide_True in Hs by lia.
  destruct Hs as (s & Hw & Hd & -> & Hn). unfold signed_decimal in Hd. rewrite decide_False in Hd by lia.
  apply wr_Some in Hw as (_ & Hb & ->). rewrite length_app in Hb. simpl in Hb.
  change (Z.to_nat 1) with 1%nat. rewrite length_app.
  change (take 1 (prefix :: t)) with [prefix]. change (drop (1 + _) (prefix :: t)) with (drop (length s + 1) t).
  assert (exists y u, drop (length s + 1) t = y :: u) as (y & u & Eu).
  { destruct (drop (length s + 1) t) as [|y u] eqn:Ed; [|eauto].
    apply (f_equal length) in Ed. rewrite length_drop in Ed. simpl in Ed. lia. }
  rewrite Eu. rewrite <- app_assoc. cbn [app].
  pose proof (setb_mid (prefix :: s) 0 13 (y :: u)) as E1. cbn [app length] in E1.
  replace (1 + Z.of_nat (length s)) with (Z.of_nat (S (length s))) by lia. rewrite E1. cbn [mbind option_bind].
  pose proof (setb_mid (prefix :: s ++ [13]) y 10 u) as E2. cbn [app length] in E2.
  rewrite <- !app_assoc in E2. cbn [app] in E2. rewrite length_app in E2. simpl in E2.
  replace (Z.of_nat (S (length s)) + 1) with (Z.of_nat (S (length s + 1))) by lia. rewrite E2. cbn [mbind option_bind].
  pose proof (rd_app [] (prefix :: s ++ [13; 10]) u) as E3. cbn [app length] in E3.
  rewrite <- app_assoc in E3. cbn [app] in E3. rewrite length_app in E3. cbn [length] in E3. change (Z.of_nat 0) with 0 in E3.
  replace (Z.to_nat (Z.of_nat (S (length s)) + 2)) with (S (length s + 2)) by lia. rewrite E3. cbn [mbind option_bind].
  eexists _, _. split; [done|]. split; [|by exists s].
  apply (f_equal length) in Eu. rewrite length_drop in Eu. simpl in Eu |- *. rewrite length_app. simpl. lia.
Qed.

Lemma cat_args_spec argv : forall buf dst,
  length buf = 32%nat -> Forall (λ o, in_s 64 (sdslen o)) argv ->
  exists enc, cat_args buf dst argv = Some (dst ++ enc) /\ encoded_args argv enc.
Proof.
  induction argv as [|o argv IH]; intros buf dst Hl Ha.
  { exists []. rewrite app_nil_r. split; [done|constructor]. }
  apply Forall_cons in Ha as [Ho Ha]. cbn [cat_args].
  destruct (length_line_spec buf 36 (sdslen o)) as (buf' & line & -> & Hl' & Hline); [lia|unfold sdslen; lia|done|].
  cbn [mbind option_bind].
  destruct (IH buf' (((dst ++ line) ++ o) ++ [13; 10]) (eq_trans Hl' Hl) Ha) as (enc & -> & He).
  exists (line ++ o ++ [13; 10] ++ enc). split; [by rewrite <- !app_assoc|by constructor].
Qed.

Lemma catAppendOnlyGenericCommand_spec buf dst argv :
  length buf = 32%nat -> in_s 64 (Z.of_nat (length argv)) -> Forall (λ o, in_s 64 (sdslen o)) argv ->
  exists enc, catAppendOnlyGenericCommand buf dst argv = Some (dst ++ enc) /\ encoded argv enc.
Proof.
  intros Hl Hn Ha. unfold catAppendOnlyGenericCommand.
  destruct (length_line_spec buf 42 (Z.of_nat (length argv))) as (buf' & line & -> & Hl' & Hline); [lia|lia|done|].
  cbn [mbind option_bind]. destruct (cat_args_spec argv buf' (dst ++ line) (eq_trans Hl' Hl) Ha) as (body & -> & Hb).
  exists (line ++ body). split; [by rewrite <- app_assoc|]. by exists line, body.
Qed.

(** ** Parsing it back *)

Lemma strchr_found s t ch : ch <> 0 -> Forall (λ c, c <> ch /\ c <> 0) s -> strchr (s ++ ch :: t) ch = Some (Z.of_nat (length s)).
Proof.
  intros H0. induction 1 as [|c s [H1 H2] Hs IH]; cbn [app strchr]; [by rewrite Z.eqb_refl|].
  rewrite !(proj2 (Z.eqb_neq c _)) by done. rewrite IH. cbn. f_equal. lia.
Qed.

Lemma decimal_digits v s : decimal v s -> Forall (λ c, c <> 13 /\ c <> 0) s.
Proof. intros [Hs _]. eapply Forall_impl; [exact Hs|]. unfold is_digit. intros c Hc. cbn in Hc. lia. Qed.

Lemma header_line prefix v line t :
  prefix <> 13 -> prefix <> 0 -> 0 <= v -> in_s 64 v -> line_for prefix v line ->
  ref_header (line ++ t) = HNum prefix (length line) (Some v).
Proof.
  intros H1 H2 H0 Hv (s & -> & Hd). unfold ref_header.
  replace ((prefix :: s ++ [13; 10]) ++ t) with ((prefix :: s) ++ 13 :: 10 :: t) by (cbn; by rewrite <- app_assoc).
  rewrite strchr_found; [|lia|constructor; [done|by eapply decimal_digits]].
  rewrite (proj2 (Z.ltb_ge _ _)) by (rewrite length_app; simpl; lia).
  change (at_ ((prefix :: s) ++ 13 :: 10 :: t) 0) with prefix.
  replace (Z.to_nat (Z.of_nat (length (prefix :: s)) - 1)) with (length s) by (simpl; lia).
  change (drop 1 ((prefix :: s) ++ 13 :: 10 :: t)) with (s ++ 13 :: 10 :: t). rewrite take_app_length.
  assert (string2ll s = Some v) as ->.
  { apply string2ll_spec. split; [done|]. unfold signed_decimal. by rewrite decide_False by lia. }
  f_equal. cbn [length]. rewrite length_app. simpl. lia.
Qed.

Section roundtrip.
Context {W : Type} {SV : Server W} {SL : ServerLaws W} (cf : config).
Implicit Types (w : W) (r : client).

(** The limits of [processMultibulkBuffer] for one argument. *)
Definition arg_allowed w r (o : bytes) : Prop :=
  in_s 64 (sdslen o) /\ (is_master r = true \/ sdslen o <= proto_max_bulk_len cf) /\
  (sdslen o <= 16384 \/ authRequired w r = false).

Lemma ref_arg_encoded w r o line t :
  bulklen r = -1 -> multibulklen r <> 0 -> args_ok r -> arg_allowed w r o -> line_for 36 (sdslen o) line ->
  exists r', ref_arg cf w (line ++ o ++ [13; 10] ++ t) r = Some (VGo (length line + (length o + 2)) r') /\
    argv r' = argv r ++ [o] /\ multibulklen r' = multibulklen r - 1 /\ bulklen r' = -1 /\ sess r' = sess r.
Proof.
  intros Hb H0 Ha (Ho & Hmax & Hauth) Hline. unfold ref_arg. rewrite Hb. cbn [Z.eqb Pos.eqb]. unfold ref_len.
  assert (0 <= sdslen o) by (unfold sdslen; lia).
  rewrite (header_line 36 (sdslen o)) by (done || lia). cbn [Z.eqb Pos.eqb negb].
  rewrite (proj2 (Z.ltb_ge _ 0)) by lia. cbn [orb].
  assert (negb (is_master r) && (proto_max_bulk_len cf <? sdslen o) = false) as ->.
  { destruct Hmax as [->|Hmax]; [done|]. rewrite (proj2 (Z.ltb_ge _ _)) by lia. apply andb_false_r. }
  assert ((16384 <? sdslen o) && authRequired w r = false) as ->.
  { destruct Hauth as [Hauth| ->]; [by rewrite (proj2 (Z.ltb_ge _ _)) by lia|apply andb_false_r]. }
  rewrite drop_app_length. unfold ref_bulk. cbn [bulklen set_bulklen].
  rewrite (proj2 (Z.ltb_ge _ _)) by (unfold sdslen; rewrite !length_app; simpl; lia).
  replace (Z.to_nat (sdslen o)) with (length o) by (unfold sdslen; lia). rewrite take_app_length.
  destruct (push_arg_safe o (set_bulklen (sdslen o) r)) as (r1 & Hpush & E1 & E2 & _); [done| |].
  { destruct Ha as [(_ & Hm & _) Ha]. split; [|done]. split; [right; cbn; cint|]. split; [done|]. intros E. by destruct H0. }
  rewrite Hpush. cbn [mbind option_bind vadd]. eexists. split.
  { do 3 f_equal. unfold sdslen. lia. }
  split; [exact E1|]. split; [cbn; by rewrite E2|]. split; [done|].
  apply push_arg_calm in Hpush as [E _]. exact E.
Qed.

Lemma ref_args_encoded w args body : encoded_args args body ->
  forall fuel r t, (length (body ++ t) < fuel)%nat ->
  bulklen r = -1 -> args_ok r -> multibulklen r = Z.of_nat (length args) -> Forall (arg_allowed w r) args ->
  exists r', ref_args cf fuel w (body ++ t) r = Some (VDone (length body) r') /\
    argv r' = argv r ++ args /\ sess r' = sess r.
Proof.
  induction 1 as [|o args line enc Hline He IH]; intros fuel r t Hf Hb Ha Hm Hall.
  { exists r. rewrite app_nil_r. destruct fuel; cbn [ref_args]; by rewrite Hm. }
  destruct fuel as [|fuel]; [lia|]. cbn [ref_args length] in *.
  rewrite (proj2 (Z.eqb_neq (multibulklen r) 0)) by lia. apply Forall_cons in Hall as [Ho Hall].
  rewrite <- !app_assoc.
  destruct (ref_arg_encoded w r o line (enc ++ t)) as (r1 & E & E1 & E2 & E3 & E4); [done|lia|done..|].
  assert (Ha1 : args_ok r1).
  { destruct (ref_arg_safe cf w (line ++ o ++ [13; 10] ++ enc ++ t) r) as (v & Ev & Hv); [lia|done|].
    rewrite E in Ev. by injection Ev as <-. }
  rewrite E. cbn [mbind option_bind].
  replace (drop (length line + (length o + 2)) (line ++ o ++ [13; 10] ++ enc ++ t)) with (enc ++ t).
  2:{ rewrite <- drop_drop, drop_app_length, <- drop_drop, drop_app_length. done. }
  destruct (IH fuel r1 t) as (r2 & -> & E5 & E6); [|done|done|lia| |].
  { clear -Hf. rewrite !length_app in Hf. cbn [length] in Hf. rewrite length_app. lia. }
  { eapply Forall_impl; [exact Hall|]. unfold arg_allowed, is_master, authRequired. by rewrite E4. }
  exists r2. cbn [mbind option_bind vadd]. split; [|by rewrite E5, E1, <- app_assoc, E6, E4].
  do 2 f_equal. rewrite !length_app. simpl. lia.
Qed.

Lemma ref_multibulk_encoded w args enc t r :
  encoded args enc -> argv r = [] -> multibulklen r = 0 -> args_ok r -> args <> [] ->
  Z.of_nat (length args) <= INT_MAX -> (Z.of_nat (length args) <= 10 \/ authRequired w r = false) ->
  Forall (arg_allowed w r) args ->
  exists r', ref_multibulk cf w (enc ++ t) r = Some (VDone (length enc) r') /\ argv r' = args /\ sess r' = sess r.
Proof.
  intros (line & body & Hline & Hbody & ->) Hargv H0 Ha Hne Hmax Hauth Hall. unfold ref_multibulk.
  rewrite H0. cbn [Z.eqb]. unfold ref_count. rewrite bool_decide_true by done. cbn [negb].
  rewrite <- app_assoc. rewrite (header_line 42 (Z.of_nat (length args))) by (done || lia || cint).
  cbn [Z.eqb Pos.eqb negb]. rewrite (proj2 (Z.ltb_ge INT_MAX _)) by lia.
  assert ((10 <? Z.of_nat (length args)) && authRequired w r = false) as ->.
  { destruct Hauth as [Hauth| ->]; [by rewrite (proj2 (Z.ltb_ge _ _)) by lia|apply andb_false_r]. }
  assert (0 < Z.of_nat (length args)) by (destruct args; [done|simpl; lia]).
  rewrite (proj2 (Z.leb_gt _ 0)) by lia. cbn [mbind option_bind]. rewrite drop_app_length.
  set (r1 := set_argv_len_sum _ _).
  destruct (ref_args_encoded w args body Hbody (S (length (line ++ body ++ t))) r1 t) as (r2 & -> & E1 & E2); try done.
  - rewrite !length_app. lia.
  - destruct Ha as [(_ & _ & Hb) _]. by apply Hb.
  - destruct Ha as [(Hb & _ & Hb0) _]. split; [split; [exact Hb|]|].
    + cbn. split; [lia|]. intros E. lia.
    + intros _. cbn. lia.
  - exists r2. cbn [mbind option_bind vadd]. by rewrite length_app.
Qed.

(** C29: what [catAppendOnlyGenericCommand] appends for a command, the request parser
    reads back: from an idle client whose unparsed input starts with the encoding of
    [args], the next request is complete, its argument vector is exactly [args]
    whatever bytes they hold, and what follows the encoding is left in the buffer.
    The limits are those of the parser: at most INT_MAX arguments, and the bulk
    length limits of the client. *)
Theorem aof_command_roundtrip buf args enc t w c :
  length buf = 32%nat -> args <> [] -> Z.of_nat (length args) <= INT_MAX ->
  (Z.of_nat (length args) <= 10 \/ authRequired w c = false) -> Forall (arg_allowed w c) args ->
  catAppendOnlyGenericCommand buf [] args = Some enc ->
  pos_ok c -> idle_ok (pending c) c -> reqtype c = 0 -> pending c = enc ++ t ->
  exists c', parse_request cf w (detect_reqtype c) = Some (C_OK, c') /\
    argv c' = args /\ pending c' = t /\ sess c' = sess c.
Proof.
  intros Hbuf Hne Hmax Hauth Hall Hcat Hc (Ha & _ & H2 & H3) Hq Hp.
  destruct (catAppendOnlyGenericCommand_spec buf [] args Hbuf) as (enc' & Hcat' & Henc); [cint| |].
  { eapply Forall_impl; [exact Hall|]. by intros o [Ho _]. }
  rewrite Hcat in Hcat'. injection Hcat' as <-. cbn [app] in *.
  assert (Hstar : at_ (pending c) 0 = 42).
  { rewrite Hp. by destruct Henc as (line & body & (s & -> & _) & _ & ->). }
  specialize (H2 ltac:(lia)). destruct (H3 H2) as [Hargv _].
  assert (Hd : detect_reqtype c = set_reqtype PROTO_REQ_MULTIBULK c) by (unfold detect_reqtype; by rewrite Hq, Hstar).
  rewrite Hd. set (c0 := set_reqtype _ c).
  destruct (same_buf_abs c c0) as (Hc0 & _ & Hp0); [by split_and!|done|].
  pose proof (parse_request_agrees cf w c0 Hc0 ltac:(apply Ha)) as Hagree. rewrite Hp0 in Hagree.
  change (ref_request cf w (pending c) (rest c0)) with (ref_multibulk cf w (pending c) (rest c0)) in Hagree.
  destruct (ref_multibulk_encoded w args enc t (rest c0)) as (r' & E & E1 & E2); [done..|].
  rewrite Hp, E in Hagree. destruct (parse_request cf w c0) as [[st c1]|]; [|by inversion Hagree].
  assert (Hx : req_agrees c0 (st, c1) (VDone (length enc) r')) by by inversion Hagree.
  destruct st; cbn in Hx; [|done].
  destruct Hx as [Hm Hr]. exists c1. split; [done|]. split; [by rewrite <- E1, <- Hr|]. split.
  - by rewrite (moved_pending _ _ _ Hm), Hp0, Hp, drop_app_length.
  - by rewrite <- Hr in E2.
Qed.
End roundtrip.

Lemma aof_command_roundtrip_witness :
  let enc := str "*2" ++ [13; 10] ++ str "$3" ++ [13; 10] ++ str "GET" ++ [13; 10] ++ str "$2" ++ [13; 10] ++ [0; 13] ++ [13; 10] in
  let c := set_querybuf (enc ++ str "PI") (new_client 0) in
  exists c', parse_request example_config (Log [] []) (detect_reqtype c) = Some (C_OK, c') /\
    argv c' = [str "GET"; [0; 13]] /\ pending c' = str "PI" /\ sess c' = sess c.
Proof.
  intros enc c. apply (aof_command_roundtrip example_config (replicate 32 7) [str "GET"; [0; 13]] enc (str "PI")).
  - reflexivity.
  - done.
  - by_compute.
  - left. by_compute.
  - unfold arg_allowed. repeat constructor; try by_compute; right; by_compute.
  - reflexivity.
  - unfold pos_ok. change (is_master c) with false. repeat split; by_compute.
  - split; [split; [by apply idle_parse_ok|done]|]. split; [by left|]. by split.
  - reflexivity.
  - reflexivity.
Defined.
