(* ===== verification/ZslOrder.v ===== *)
(** The order of sorted set elements: by score, then by the bytes of the element.

    Scores are C doubles, here the IEEE 754 values of [SpecFloat] with its
    comparisons; [-0.0] and [0.0] are different values that compare equal, and a NaN
    compares with nothing. *)

From Stdlib Require Export SpecFloat.
From S2P Require Import Prelude.

Local Open Scope Z_scope.

(** ** Doubles *)

Abbreviation double := spec_float.

Definition isnan (a : double) : bool := match a with S754_nan => true | _ => false end.

(** The C operators [<], [==] and [<=]; [a > b] is [b < a]. *)
Abbreviation dlt := SFltb.
Abbreviation deq := SFeqb.
Abbreviation dle := SFleb.

(** Comparing two numbers is comparing their keys lexicographically. *)
Definition key (a : double) : Z * Z * Z :=
  match a with
  | S754_infinity true => (-2, 0, 0)
  | S754_finite true m e => (-1, - e, Z.neg m)
  | S754_zero _ | S754_nan => (0, 0, 0)
  | S754_finite false m e => (1, e, Z.pos m)
  | S754_infinity false => (2, 0, 0)
  end.

Definition klt (a b : Z * Z * Z) : Prop :=
  let '(a1, a2, a3) := a in let '(b1, b2, b3) := b in
  a1 < b1 \/ a1 = b1 /\ (a2 < b2 \/ a2 = b2 /\ a3 < b3).

Lemma klt_irrefl a : ~ klt a a.
Proof. destruct a as [[]]; cbn; lia. Qed.
Lemma klt_trans a b c : klt a b -> klt b c -> klt a c.
Proof. destruct a as [[]], b as [[]], c as [[]]; cbn; lia. Qed.
Lemma klt_total a b : klt a b \/ a = b \/ klt b a.
Proof.
  destruct a as [[a1 a2] a3], b as [[b1 b2] b3]; cbn.
  destruct (Z.lt_trichotomy a1 b1) as [?|[->|?]]; [lia| |lia].
  destruct (Z.lt_trichotomy a2 b2) as [?|[->|?]]; [lia| |lia].
  destruct (Z.lt_trichotomy a3 b3) as [?|[->|?]]; [lia| |lia]. auto.
Qed.

Lemma SFcompare_key a b :
  isnan a = false -> isnan b = false ->
  match SFcompare a b with
  | Some Lt => klt (key a) (key b)
  | Some Eq => key a = key b
  | Some Gt => klt (key b) (key a)
  | None => False
  end.
Proof.
  intros Ha Hb. destruct a as [sa|[]| |[] ma ea], b as [sb|[]| |[] mb eb]; cbn; try done; try lia.
  - change (Pos.compare_cont Eq ma mb) with (Pos.compare ma mb).
    destruct (Z.compare_spec ea eb) as [->| |]; [|lia..].
    destruct (Pos.compare_spec ma mb) as [->| |]; cbn; [done|lia..].
  - change (Pos.compare_cont Eq ma mb) with (Pos.compare ma mb).
    destruct (Z.compare_spec ea eb) as [->| |]; [|lia..].
    destruct (Pos.compare_spec ma mb) as [->| |]; cbn; [done|lia..].
Qed.

Lemma dlt_key a b : isnan a = false -> isnan b = false -> dlt a b = true <-> klt (key a) (key b).
Proof.
  intros Ha Hb. pose proof (SFcompare_key a b Ha Hb) as H. unfold SFltb.
  destruct (SFcompare a b) as [[]|]; split; try done; intros Hk; exfalso.
  - rewrite H in Hk. by apply (klt_irrefl (key b)).
  - apply (klt_irrefl (key a)). by eapply klt_trans.
Qed.

Lemma deq_key a b : isnan a = false -> isnan b = false -> deq a b = true <-> key a = key b.
Proof.
  intros Ha Hb. pose proof (SFcompare_key a b Ha Hb) as H. unfold SFeqb.
  destruct (SFcompare a b) as [[]|]; split; try done; intros Hk; exfalso;
    rewrite Hk in H; by apply (klt_irrefl (key b)).
Qed.

Lemma dle_dlt a b : isnan a = false -> isnan b = false -> dle a b = negb (dlt b a).
Proof.
  intros Ha Hb. pose proof (SFcompare_key a b Ha Hb) as H1. pose proof (SFcompare_key b a Hb Ha) as H2.
  unfold SFleb, SFltb. destruct (SFcompare a b) as [[]|], (SFcompare b a) as [[]|]; try done; exfalso;
    first [rewrite H1 in H2; by eapply klt_irrefl | rewrite H2 in H1; by eapply klt_irrefl
          | eapply klt_irrefl; by eapply klt_trans].
Qed.

(** ** Byte strings *)

(** The sign of [memcmp], as the difference of the first two different bytes. *)
Fixpoint memcmp (a b : bytes) (n : nat) : Z :=
  match n, a, b with
  | S n', x :: a', y :: b' => if x =? y then memcmp a' b' n' else x - y
  | _, _, _ => 0
  end.

Definition sdscmp (s1 s2 : bytes) : Z :=
  let l1 := length s1 in
  let l2 := length s2 in
  let minlen := if (l1 <? l2)%nat then l1 else l2 in
  let cmp := memcmp s1 s2 minlen in
  if cmp =? 0 then if (l2 <? l1)%nat then 1 else if (l1 <? l2)%nat then -1 else 0
  else cmp.

(** Lexicographic order. *)
Fixpoint blt (a b : bytes) : Prop :=
  match a, b with
  | _, [] => False
  | [], _ :: _ => True
  | x :: a', y :: b' => x < y \/ x = y /\ blt a' b'
  end.

Lemma blt_irrefl a : ~ blt a a.
Proof. induction a as [|x a IH]; cbn; [tauto|]. intros [?|[_ ?]]; [lia|done]. Qed.

Lemma blt_trans a b c : blt a b -> blt b c -> blt a c.
Proof.
  revert b c. induction a as [|x a IH]; intros [|y b] [|z c]; cbn; try tauto.
  intros [?|[-> ?]] [?|[-> ?]]; [left; lia..|]. right. split; [done|]. by eapply IH.
Qed.

Lemma sdscmp_nil s : sdscmp [] s = match s with [] => 0 | _ => -1 end.
Proof. by destruct s. Qed.

Lemma sdscmp_nil_r s : sdscmp s [] = match s with [] => 0 | _ => 1 end.
Proof. by destruct s. Qed.

Lemma sdscmp_cons x y a b : sdscmp (x :: a) (y :: b) = if x =? y then sdscmp a b else x - y.
Proof.
  unfold sdscmp. cbn [length].
  change (S (length a) <? S (length b))%nat with (length a <? length b)%nat.
  change (S (length b) <? S (length a))%nat with (length b <? length a)%nat.
  replace (if (length a <? length b)%nat then S (length a) else S (length b))
    with (S (if (length a <? length b)%nat then length a else length b)) by (by case_match).
  cbn [memcmp]. destruct (Z.eqb_spec x y) as [->|Hne]; [done|]. by rewrite (proj2 (Z.eqb_neq _ 0)) by lia.
Qed.

Lemma sdscmp_spec a b :
  sdscmp a b < 0 /\ blt a b \/ sdscmp a b = 0 /\ a = b \/ 0 < sdscmp a b /\ blt b a.
Proof.
  revert b. induction a as [|x a IH]; intros [|y b].
  - right. left. done.
  - left. rewrite sdscmp_nil. cbn. lia.
  - right. right. rewrite sdscmp_nil_r. cbn. lia.
  - rewrite sdscmp_cons. destruct (Z.eqb_spec x y) as [->|Hne].
    + destruct (IH b) as [[? ?]|[[? ->]|[? ?]]]; cbn; [left|right; left|right; right]; split; auto.
    + cbn. destruct (Z.lt_ge_cases x y); [left; lia|right; right; lia].
Qed.

Lemma sdscmp_lt a b : sdscmp a b < 0 <-> blt a b.
Proof.
  destruct (sdscmp_spec a b) as [[? ?]|[[? ->]|[? Hb]]]; split; try done; try lia.
  - intros Hb. by destruct (blt_irrefl b).
  - intros Ha. destruct (blt_irrefl a). by eapply blt_trans.
Qed.

Lemma sdscmp_eq a b : sdscmp a b = 0 <-> a = b.
Proof.
  destruct (sdscmp_spec a b) as [[? Ha]|[[? ->]|[? Hb]]]; split; try done; try lia; intros ->;
    by destruct (blt_irrefl b).
Qed.

(** ** Elements *)

Abbreviation item := (double * bytes)%type.

Definition ilt (a b : item) : Prop :=
  klt (key a.1) (key b.1) \/ key a.1 = key b.1 /\ blt a.2 b.2.

(** The comparison in the loops of the skiplist: is the first item smaller? *)
Definition item_ltb (a b : item) : bool :=
  dlt a.1 b.1 || (deq a.1 b.1 && (sdscmp a.2 b.2 <? 0)).

Definition item_leb (a b : item) : bool :=
  dlt a.1 b.1 || (deq a.1 b.1 && (sdscmp a.2 b.2 <=? 0)).

Lemma ilt_irrefl a : ~ ilt a a.
Proof. intros [H|[_ H]]; [by eapply klt_irrefl|by eapply blt_irrefl]. Qed.

Lemma ilt_trans a b c : ilt a b -> ilt b c -> ilt a c.
Proof.
  intros [H1|[E1 H1]] [H2|[E2 H2]].
  - left. by eapply klt_trans.
  - left. by rewrite <- E2.
  - left. by rewrite E1.
  - right. split; [congruence|]. by eapply blt_trans.
Qed.

Lemma item_ltb_spec a b : isnan a.1 = false -> isnan b.1 = false -> item_ltb a b = true <-> ilt a b.
Proof.
  intros Ha Hb. unfold item_ltb, ilt. rewrite orb_true_iff, andb_true_iff, Z.ltb_lt.
  by rewrite dlt_key, deq_key, sdscmp_lt.
Qed.

(** Same score (up to the sign of zero) and same element. *)
Definition same_item (a b : item) : Prop := key a.1 = key b.1 /\ a.2 = b.2.

Lemma item_leb_spec a b :
  isnan a.1 = false -> isnan b.1 = false -> item_leb a b = true <-> ilt a b \/ same_item a b.
Proof.
  intros Ha Hb. unfold item_leb, ilt, same_item. rewrite orb_true_iff, andb_true_iff, Z.leb_le.
  rewrite dlt_key, deq_key by done. rewrite Z.lt_eq_cases, sdscmp_lt, sdscmp_eq. tauto.
Qed.

Lemma ilt_total a b : ilt a b \/ same_item a b \/ ilt b a.
Proof.
  unfold ilt, same_item. destruct (klt_total (key a.1) (key b.1)) as [?|[E|?]]; [tauto| |tauto].
  destruct (sdscmp_spec a.2 b.2) as [[_ ?]|[[_ ?]|[_ ?]]]; [tauto|tauto|].
  right. right. right. by split.
Qed.

Lemma same_item_lt_l a b c : same_item a b -> ilt b c -> ilt a c.
Proof. unfold ilt. intros [-> ->]. done. Qed.
Lemma same_item_lt_r a b c : same_item a b -> ilt c b -> ilt c a.
Proof. unfold ilt. intros [-> ->]. done. Qed.
