(* ===== verification/Zsl.v ===== *)
(** The skiplist of sorted sets, [zskiplist] of [t_zset.c].

    Nodes live in a heap indexed by their addresses; a node has as many levels as it
    was created with, each with a forward pointer and the number of nodes it spans.
    The element strings that are freed are recorded.  Counters are [unsigned long].
    Dereferencing NULL or a freed node, a level outside a node's array and a failed
    [serverAssert] make the program fail. *)

From stdpp Require Import gmap.
From S2P Require Import Prelude State ZslOrder.

Local Open Scope Z_scope.

Abbreviation loc := positive.
Abbreviation ZSKIPLIST_MAXLEVEL := 32%nat.

Record zskiplistLevel := Level { forward : option loc; span : Z }.
Record zskiplistNode := ZNode {
  ele : option bytes;
  score : double;
  backward : option loc;
  level : list zskiplistLevel }.
Record zskiplist := Zsl { header : loc; tail : option loc; zlength : Z; zlevel : nat }.

Record zmem := ZMem { heap : gmap loc zskiplistNode; freed : list bytes }.
Abbreviation M := (ST zmem).

(** ** Memory *)

Definition zget (p : loc) : M zskiplistNode :=
  m ← get; match heap m !! p with Some n => mret n | None => fail end.

Definition zput (p : loc) (n : zskiplistNode) : M unit :=
  _ ← zget p; m ← get; put (ZMem (<[p := n]> (heap m)) (freed m)).

Definition zalloc (n : zskiplistNode) : M loc :=
  m ← get;
  let p := fresh (dom (heap m)) in
  put (ZMem (<[p := n]> (heap m)) (freed m));; mret p.

Definition set_backward (p : loc) (b : option loc) : M unit :=
  n ← zget p; zput p (ZNode (ele n) (score n) b (level n)).

Definition set_score (p : loc) (s : double) : M unit :=
  n ← zget p; zput p (ZNode (ele n) s (backward n) (level n)).

Definition clear_ele (p : loc) : M unit :=
  n ← zget p; zput p (ZNode None (score n) (backward n) (level n)).

(** [p->level[i]] *)
Definition level_at (p : loc) (i : nat) : M zskiplistLevel :=
  n ← zget p; match level n !! i with Some l => mret l | None => fail end.

Definition set_level_at (p : loc) (i : nat) (l : zskiplistLevel) : M unit :=
  n ← zget p; _ ← level_at p i; zput p (ZNode (ele n) (score n) (backward n) (<[i := l]> (level n))).

(** ** Creating and freeing *)

(** The memory [zmalloc] returns is not initialised; every field is set before it is
    read. *)
Definition zslCreateNode (lv : nat) (s : double) (e : option bytes) : M loc :=
  zalloc (ZNode e s None (replicate lv (Level None 0))).

Definition zslCreate : M zskiplist :=
  hd ← zslCreateNode ZSKIPLIST_MAXLEVEL (S754_zero false) None;
  mret (Zsl hd None 0 1).

Definition zslFreeNode (p : loc) : M unit :=
  n ← zget p; m ← get;
  put (ZMem (delete p (heap m)) (match ele n with Some e => freed m ++ [e] | None => freed m end)).

(** The loop over the nodes; the length of the list bounds it. *)
Fixpoint free_loop (fuel : nat) (node : option loc) : M unit :=
  match node with
  | None => mret tt
  | Some p =>
      match fuel with
      | O => fail
      | S fuel' => l ← level_at p 0; zslFreeNode p;; free_loop fuel' (forward l)
      end
  end.

(** [zfree(zsl->header)] does not free an element: the header has none. *)
Definition zslFree (zsl : zskiplist) : M unit :=
  l ← level_at (header zsl) 0;
  zslFreeNode (header zsl);;
  free_loop (Z.to_nat (zlength zsl)) (forward l).

(** [draws] are the values [random()] returns; the threshold is [(int)(0.25*RAND_MAX)]. *)
Fixpoint random_level_loop (draws : list Z) (lv : nat) : nat :=
  match draws with
  | r :: draws' => if r <? 536870911 then random_level_loop draws' (S lv) else lv
  | [] => lv
  end.

Definition zslRandomLevel (draws : list Z) : nat :=
  let lv := random_level_loop draws 1 in
  if (lv <? ZSKIPLIST_MAXLEVEL)%nat then lv else ZSKIPLIST_MAXLEVEL.

(** ** Searching

    Every search descends the levels from the highest and walks each of them while
    the next node satisfies a condition; [cond n r] is the condition on the next node
    [n], whose rank is [r].  The walk keeps the rank of the node it is at. *)

Definition item_of (n : zskiplistNode) : item := (score n, default [] (ele n)).

Fixpoint level_walk (fuel : nat) (cond : zskiplistNode -> Z -> bool) (i : nat) (x : loc) (rank : Z) : M (loc * Z) :=
  match fuel with
  | O => fail
  | S fuel' =>
      l ← level_at x i;
      match forward l with
      | None => mret (x, rank)
      | Some p =>
          n ← zget p;
          if cond n (u64 (rank + span l)) then level_walk fuel' cond i p (u64 (rank + span l))
          else mret (x, rank)
      end
  end.

(** The levels below [lv]; the result lists [update[i]] with [rank[i]]. *)
Fixpoint descend (fuel : nat) (cond : zskiplistNode -> Z -> bool) (lv : nat) (x : loc) (rank : Z)
    (update : list (loc * Z)) : M (list (loc * Z)) :=
  match lv with
  | O => mret update
  | S i =>
      '(x, rank) ← level_walk fuel cond i x rank;
      descend fuel cond i x rank ((x, rank) :: update)
  end.

(** A level is walked in at most [length] steps. *)
Definition search (zsl : zskiplist) (cond : zskiplistNode -> Z -> bool) : M (list (loc * Z)) :=
  descend (S (Z.to_nat (zlength zsl))) cond (zlevel zsl) (header zsl) 0 [].

Definition less_than (it : item) (n : zskiplistNode) (_ : Z) : bool := item_ltb (item_of n) it.
Definition at_most (it : item) (n : zskiplistNode) (_ : Z) : bool := item_leb (item_of n) it.

(** ** Insertion *)

(** [for (i = zsl->level; i < level; i++)]; [n] levels from [i] on. *)
Fixpoint raise_loop (zsl : zskiplist) (i n : nat) : M unit :=
  match n with
  | O => mret tt
  | S n' =>
      l ← level_at (header zsl) i;
      set_level_at (header zsl) i (Level (forward l) (zlength zsl));;
      raise_loop zsl (S i) n'
  end.

(** [for (i = 0; i < level; i++)]: linking [x] after [update[i]]. *)
Fixpoint link_loop (x : loc) (rank0 : Z) (i : nat) (update : list (loc * Z)) : M unit :=
  match update with
  | [] => mret tt
  | (u, rank) :: update' =>
      lu ← level_at u i;
      set_level_at x i (Level (forward lu) (u64 (span lu - u64 (rank0 - rank))));;
      set_level_at u i (Level (Some x) (u64 (u64 (rank0 - rank) + 1)));;
      link_loop x rank0 (S i) update'
  end.

(** [for (i = level; i < zsl->level; i++)]: the untouched levels. *)
Fixpoint widen_loop (i : nat) (update : list (loc * Z)) : M unit :=
  match update with
  | [] => mret tt
  | (u, _) :: update' =>
      lu ← level_at u i;
      set_level_at u i (Level (forward lu) (u64 (span lu + 1)));;
      widen_loop (S i) update'
  end.

Definition zslInsert (zsl : zskiplist) (draws : list Z) (s : double) (e : bytes) : M (zskiplist * loc) :=
  if isnan s then fail else
  update ← search zsl (less_than (s, e));
  let lv := zslRandomLevel draws in
  raise_loop zsl (zlevel zsl) (lv - zlevel zsl);;
  let update := update ++ replicate (lv - zlevel zsl) (header zsl, 0) in
  let zsl := Zsl (header zsl) (tail zsl) (zlength zsl) (zlevel zsl `max` lv) in
  x ← zslCreateNode lv s (Some e);
  match update with
  | [] => fail
  | (u0, rank0) :: _ =>
      link_loop x rank0 0 (take lv update);;
      widen_loop lv (drop lv update);;
      set_backward x (if bool_decide (u0 = header zsl) then None else Some u0);;
      l0 ← level_at x 0;
      match forward l0 with
      | Some p =>
          set_backward p (Some x);;
          mret (Zsl (header zsl) (tail zsl) (u64 (zlength zsl + 1)) (zlevel zsl), x)
      | None => mret (Zsl (header zsl) (Some x) (u64 (zlength zsl + 1)) (zlevel zsl), x)
      end
  end.

(** ** Deletion *)

Fixpoint unlink_loop (x : loc) (i : nat) (update : list loc) : M unit :=
  match update with
  | [] => mret tt
  | u :: update' =>
      lu ← level_at u i;
      (if bool_decide (forward lu = Some x) then
         lx ← level_at x i;
         set_level_at u i (Level (forward lx) (u64 (span lu + u64 (span lx - 1))))
       else set_level_at u i (Level (forward lu) (u64 (span lu - 1))));;
      unlink_loop x (S i) update'
  end.

(** [while(zsl->level > 1 && ...) zsl->level--] *)
Fixpoint lower_loop (hd : loc) (lv : nat) : M nat :=
  match lv with
  | S (S lv' as lv1) =>
      l ← level_at hd lv1;
      match forward l with None => lower_loop hd lv1 | Some _ => mret lv end
  | _ => mret lv
  end.

(** [update] holds [update[0]], ..., [update[zsl->level-1]]. *)
Definition zslDeleteNode (zsl : zskiplist) (x : loc) (update : list loc) : M zskiplist :=
  unlink_loop x 0 (take (zlevel zsl) update);;
  l0 ← level_at x 0;
  nx ← zget x;
  tl ← (match forward l0 with
        | Some p => set_backward p (backward nx);; mret (tail zsl)
        | None => mret (backward nx)
        end);
  lv ← lower_loop (header zsl) (zlevel zsl);
  mret (Zsl (header zsl) tl (u64 (zlength zsl - 1)) lv).

(** The node after the last one of the search. *)
Definition next_of (zsl : zskiplist) (update : list (loc * Z)) : M (option loc) :=
  l ← level_at (match update with (u, _) :: _ => u | [] => header zsl end) 0;
  mret (forward l).

(** The deleted node is freed, or returned when [keep] is set ([node] is not NULL). *)
Definition zslDelete (zsl : zskiplist) (s : double) (e : bytes) (keep : bool)
    : M (zskiplist * bool * option loc) :=
  update ← search zsl (less_than (s, e));
  x ← next_of zsl update;
  match x with
  | None => mret (zsl, false, None)
  | Some x =>
      n ← zget x;
      if deq s (score n) && (sdscmp (default [] (ele n)) e =? 0) then
        zsl ← zslDeleteNode zsl x update.*1;
        if keep then mret (zsl, true, Some x)
        else zslFreeNode x;; mret (zsl, true, None)
      else mret (zsl, false, None)
  end.

Definition zslUpdateScore (zsl : zskiplist) (draws : list Z) (curscore : double) (e : bytes) (newscore : double)
    : M (zskiplist * loc) :=
  update ← search zsl (less_than (curscore, e));
  x ← next_of zsl update;
  match x with
  | None => fail
  | Some x =>
      n ← zget x;
      if negb (deq curscore (score n) && (sdscmp (default [] (ele n)) e =? 0)) then fail else
      lower ← (match backward n with
               | None => mret true
               | Some b => nb ← zget b; mret (dlt (score nb) newscore)
               end);
      l0 ← level_at x 0;
      upper ← (match forward l0 with
               | None => mret true
               | Some f => nf ← zget f; mret (dlt newscore (score nf))
               end);
      if lower && upper then set_score x newscore;; mret (zsl, x)
      else
        zsl ← zslDeleteNode zsl x update.*1;
        '(zsl, newnode) ← zslInsert zsl draws newscore (default [] (ele n));
        clear_ele x;; zslFreeNode x;;
        mret (zsl, newnode)
  end.

(** ** Ranges *)

(** What the range functions, which the source has twice, use of a kind of range: the
    test for ranges that are always empty, the two comparisons, and whether these read
    the element, which the header does not have. *)
Class Range (R : Type) := {
  always_empty : R -> bool;
  gte_min : item -> R -> bool;
  lte_max : item -> R -> bool;
  reads_ele : bool }.

Record zrangespec := ZRange { rmin : double; rmax : double; minex : bool; maxex : bool }.

Definition zslValueGteMin (value : double) (spec : zrangespec) : bool :=
  if minex spec then dlt (rmin spec) value else dle (rmin spec) value.
Definition zslValueLteMax (value : double) (spec : zrangespec) : bool :=
  if maxex spec then dlt value (rmax spec) else dle value (rmax spec).

#[export] Instance score_range : Range zrangespec := {
  always_empty r := dlt (rmax r) (rmin r) || (deq (rmin r) (rmax r) && (minex r || maxex r));
  gte_min it r := zslValueGteMin it.1 r;
  lte_max it r := zslValueLteMax it.1 r;
  reads_ele := false }.

(** A string, or one of the shared strings that stand for the ends. *)
Inductive lexstring := minstring | maxstring | lexstr (s : bytes).
Record zlexrangespec := ZLexRange { lmin : lexstring; lmax : lexstring; lminex : bool; lmaxex : bool }.

Definition sdscmplex (a b : lexstring) : Z :=
  match a, b with
  | minstring, minstring | maxstring, maxstring => 0
  | minstring, _ | _, maxstring => -1
  | maxstring, _ | _, minstring => 1
  | lexstr a, lexstr b => sdscmp a b
  end.

Definition zslLexValueGteMin (value : bytes) (spec : zlexrangespec) : bool :=
  if lminex spec then 0 <? sdscmplex (lexstr value) (lmin spec) else 0 <=? sdscmplex (lexstr value) (lmin spec).
Definition zslLexValueLteMax (value : bytes) (spec : zlexrangespec) : bool :=
  if lmaxex spec then sdscmplex (lexstr value) (lmax spec) <? 0 else sdscmplex (lexstr value) (lmax spec) <=? 0.

#[export] Instance lex_range : Range zlexrangespec := {
  always_empty r := let cmp := sdscmplex (lmin r) (lmax r) in
                    (0 <? cmp) || ((cmp =? 0) && (lminex r || lmaxex r));
  gte_min it r := zslLexValueGteMin it.2 r;
  lte_max it r := zslLexValueLteMax it.2 r;
  reads_ele := true }.

(** [None] is [C_ERR].  The argument is a C string: [c[1]] of a one character string is
    its NUL. *)
Definition zslParseLexRangeItem (c : bytes) : option (lexstring * bool) :=
  match c with
  | 43 :: c' => match c' with [] | 0 :: _ => Some (maxstring, true) | _ => None end
  | 45 :: c' => match c' with [] | 0 :: _ => Some (minstring, true) | _ => None end
  | 40 :: c' => Some (lexstr c', true)
  | 91 :: c' => Some (lexstr c', false)
  | _ => None
  end.

(** [int_encoded] tells whether an argument is an integer object. *)
Definition zslParseLexRange (int_encoded : bool) (min max : bytes) : option zlexrangespec :=
  if int_encoded then None else
  '(lo, loex) ← zslParseLexRangeItem min;
  '(hi, hiex) ← zslParseLexRangeItem max;
  Some (ZLexRange lo hi loex hiex).

Section range.
Context {R : Type} `{Range R}.

Definition is_in_range (zsl : zskiplist) (range : R) : M bool :=
  if always_empty range then mret false
  else
    match tail zsl with
    | None => mret false
    | Some t =>
        nt ← zget t;
        if negb (gte_min (item_of nt) range) then mret false
        else
          l ← level_at (header zsl) 0;
          match forward l with
          | None => mret false
          | Some f => nf ← zget f; mret (lte_max (item_of nf) range)
          end
    end.

Definition first_in_range (zsl : zskiplist) (range : R) : M (option loc) :=
  ok ← is_in_range zsl range;
  if negb ok then mret None else
  update ← search zsl (λ n _, negb (gte_min (item_of n) range));
  x ← next_of zsl update;
  match x with
  | None => fail
  | Some x => n ← zget x; mret (if lte_max (item_of n) range then Some x else None)
  end.

Definition last_in_range (zsl : zskiplist) (range : R) : M (option loc) :=
  ok ← is_in_range zsl range;
  if negb ok then mret None else
  update ← search zsl (λ n _, lte_max (item_of n) range);
  let x := match update with (u, _) :: _ => u | [] => header zsl end in
  n ← zget x;
  match ele n with
  | None => if reads_ele then fail else mret (if gte_min (item_of n) range then Some x else None)
  | Some _ => mret (if gte_min (item_of n) range then Some x else None)
  end.
End range.

Definition zslIsInRange (zsl : zskiplist) (range : zrangespec) : M bool := is_in_range zsl range.
Definition zslFirstInRange (zsl : zskiplist) (range : zrangespec) : M (option loc) := first_in_range zsl range.
Definition zslLastInRange (zsl : zskiplist) (range : zrangespec) : M (option loc) := last_in_range zsl range.
Definition zslIsInLexRange (zsl : zskiplist) (range : zlexrangespec) : M bool := is_in_range zsl range.
Definition zslFirstInLexRange (zsl : zskiplist) (range : zlexrangespec) : M (option loc) := first_in_range zsl range.
Definition zslLastInLexRange (zsl : zskiplist) (range : zlexrangespec) : M (option loc) := last_in_range zsl range.

(** Deleting from [x] on while [in_range] holds of the node and the counter, which
    starts at [k]; the elements are also deleted from the dictionary, in the order of
    the result. *)
Fixpoint delete_loop (fuel : nat) (in_range : zskiplistNode -> Z -> bool) (zsl : zskiplist)
    (update : list loc) (x : option loc) (k : Z) (deleted : list bytes) : M (zskiplist * list bytes) :=
  match x with
  | None => mret (zsl, deleted)
  | Some p =>
      n ← zget p;
      if in_range n k then
        match fuel with
        | O => fail
        | S fuel' =>
            l ← level_at p 0;
            zsl ← zslDeleteNode zsl p update;
            zslFreeNode p;;
            delete_loop fuel' in_range zsl update (forward l) (u64 (k + 1)) (deleted ++ [default [] (ele n)])
        end
      else mret (zsl, deleted)
  end.

Definition delete_in_range `{Range R} (zsl : zskiplist) (range : R) : M (zskiplist * list bytes) :=
  update ← search zsl (λ n _, negb (gte_min (item_of n) range));
  x ← next_of zsl update;
  delete_loop (Z.to_nat (zlength zsl)) (λ n _, lte_max (item_of n) range) zsl update.*1 x 0 [].

Definition zslDeleteRangeByScore (zsl : zskiplist) (range : zrangespec) : M (zskiplist * list bytes) :=
  delete_in_range zsl range.
Definition zslDeleteRangeByLex (zsl : zskiplist) (range : zlexrangespec) : M (zskiplist * list bytes) :=
  delete_in_range zsl range.

(** [start] and [end] are 1-based and 32 bits wide. *)
Definition zslDeleteRangeByRank (zsl : zskiplist) (start end_ : Z) : M (zskiplist * list bytes) :=
  update ← search zsl (λ _ r, r <? start);
  x ← next_of zsl update;
  let traversed := match update with (_, r) :: _ => r | [] => 0 end in
  delete_loop (Z.to_nat (zlength zsl)) (λ _ k, k <=? end_) zsl update.*1 x (u64 (traversed + 1)) [].

(** ** Ranks *)

Fixpoint rank_loop (fuel : nat) (it : item) (lv : nat) (x : loc) (rank : Z) : M Z :=
  match lv with
  | O => mret 0
  | S i =>
      '(x, rank) ← level_walk fuel (at_most it) i x rank;
      n ← zget x;
      match ele n with
      | Some e => if deq (score n) it.1 && (sdscmp e it.2 =? 0) then mret rank else rank_loop fuel it i x rank
      | None => rank_loop fuel it i x rank
      end
  end.

Definition zslGetRank (zsl : zskiplist) (s : double) (e : bytes) : M Z :=
  rank_loop (S (Z.to_nat (zlength zsl))) (s, e) (zlevel zsl) (header zsl) 0.

Fixpoint by_rank_loop (fuel : nat) (rank : Z) (lv : nat) (x : loc) (traversed : Z) : M (option loc) :=
  match lv with
  | O => mret None
  | S i =>
      '(x, traversed) ← level_walk fuel (λ _ r, r <=? rank) i x traversed;
      if traversed =? rank then mret (Some x) else by_rank_loop fuel rank i x traversed
  end.

Definition zslGetElementByRank (zsl : zskiplist) (rank : Z) : M (option loc) :=
  by_rank_loop (S (Z.to_nat (zlength zsl))) rank (zlevel zsl) (header zsl) 0.
