(* ===== verification/ZslInv.v ===== *)
(** The invariant of the skiplist and what a search finds.

    A skiplist stands for the list of its entries in order: address, height and item
    of each node.  The forward pointer of a node at a level leads to the next entry
    that is taller than the level, and its span is the distance. *)

From stdpp Require Import gmap.
From S2P Require Import Prelude State ZslOrder Zsl.

Local Open Scope Z_scope.

(** ** Entries and levels *)

Record ent := Ent { e_loc : loc; e_height : nat; e_item : item }.

Abbreviation locs es := (e_loc <$> es).
Abbreviation items es := (e_item <$> es).

(** Level [i] of a node that is followed by the entries [l]. *)
Fixpoint fwd (i : nat) (l : list ent) : zskiplistLevel :=
  match l with
  | [] => Level None 0
  | e :: l' => if (i <? e_height e)%nat then Level (Some (e_loc e)) 1
               else Level (forward (fwd i l')) (span (fwd i l') + 1)
  end.

Definition node_of (prev : option loc) (e : ent) (l : list ent) : zskiplistNode :=
  ZNode (Some (e_item e).2) (e_item e).1 prev ((λ i, fwd i l) <$> seq 0 (e_height e)).

(** The entries [l] are in the heap, the first after [prev]. *)
Fixpoint chain (h : gmap loc zskiplistNode) (prev : option loc) (l : list ent) : Prop :=
  match l with
  | [] => True
  | e :: l' => h !! e_loc e = Some (node_of prev e l') /\ chain h (Some (e_loc e)) l'
  end.

Definition last_ent (d : option loc) (l : list ent) : option loc :=
  match last l with Some e => Some (e_loc e) | None => d end.

(** The node after which the suffix of the entries [a] starts. *)
Definition x_of (hd : loc) (a : list ent) : loc := default hd (last_ent None a).

(** The header: pointers up to the level of the list, none above. *)
Record header_node (nd : zskiplistNode) (lv : nat) (es : list ent) : Prop := {
  hd_ele : ele nd = None;
  hd_backward : backward nd = None;
  hd_length : length (level nd) = ZSKIPLIST_MAXLEVEL;
  hd_low i : (i < lv)%nat -> level nd !! i = Some (fwd i es);
  hd_high i : (lv <= i < ZSKIPLIST_MAXLEVEL)%nat -> exists s, level nd !! i = Some (Level None s) }.

(** The items are strictly increasing and no score is a NaN. *)
Definition sorted (l : list item) : Prop := StronglySorted ilt l /\ Forall (λ it, isnan it.1 = false) l.

Record zsl_ok (h : gmap loc zskiplistNode) (zsl : zskiplist) (es : list ent) : Prop := {
  ok_header : exists nd, h !! header zsl = Some nd /\ header_node nd (zlevel zsl) es;
  ok_chain : chain h None es;
  ok_nodup : NoDup (header zsl :: locs es);
  ok_tail : tail zsl = last_ent None es;
  ok_length : zlength zsl = Z.of_nat (length es);
  ok_small : Z.of_nat (length es) < 2 ^ 63;
  ok_level : (1 <= zlevel zsl <= ZSKIPLIST_MAXLEVEL)%nat;
  ok_heights : Forall (λ e, (1 <= e_height e <= zlevel zsl)%nat) es;
  ok_sorted : sorted (items es) }.

(** ** Lists of entries *)

Lemma last_ent_snoc d l e : last_ent d (l ++ [e]) = Some (e_loc e).
Proof. unfold last_ent. by rewrite last_snoc. Qed.

Lemma x_of_snoc hd l e : x_of hd (l ++ [e]) = e_loc e.
Proof. unfold x_of. by rewrite last_ent_snoc. Qed.

Lemma last_ent_cons d e l : last_ent d (e :: l) = last_ent (Some (e_loc e)) l.
Proof. unfold last_ent. destruct l as [|e' l]; [done|]. change (last (e :: e' :: l)) with (last (e' :: l)).
  destruct (last (e' :: l)) eqn:E; [done|]. by apply last_None in E. Qed.

Lemma last_ent_app d a b : last_ent d (a ++ b) = last_ent (last_ent d a) b.
Proof.
  destruct b as [|e b] using rev_ind; [by rewrite app_nil_r|]. by rewrite app_assoc, !last_ent_snoc.
Qed.

Lemma chain_app h prev a b : chain h prev (a ++ b) <->
  (forall a1 e a2, a = a1 ++ e :: a2 -> h !! e_loc e = Some (node_of (last_ent prev a1) e (a2 ++ b))) /\
  chain h (last_ent prev a) b.
Proof.
  revert prev. induction a as [|e a IH]; intros prev; cbn [app chain].
  { split; [intros Hb; split; [by intros [|??]|done]|tauto]. }
  rewrite IH, last_ent_cons. split.
  - intros (He & Ha & Hb). split; [|done]. intros [|e1 a1] e' a2 [= -> ->]; [done|].
    rewrite last_ent_cons. by apply Ha.
  - intros (Ha & Hb). split; [by apply (Ha [] e a)|]. split; [|done]. intros a1 e' a2 ->.
    rewrite <- (last_ent_cons prev). by apply (Ha (e :: a1)).
Qed.

Lemma chain_lookup h prev a e b :
  chain h prev (a ++ e :: b) -> h !! e_loc e = Some (node_of (last_ent prev a) e b).
Proof. intros Hc. apply chain_app in Hc as [_ [He _]]. done. Qed.

(** Either no entry is taller than the level, or there is a first one. *)
Lemma split_first i l :
  Forall (λ e, (e_height e <= i)%nat) l \/
  exists a e b, l = a ++ e :: b /\ Forall (λ e, (e_height e <= i)%nat) a /\ (i < e_height e)%nat.
Proof.
  induction l as [|e l IH]; [by left|]. destruct (Nat.lt_ge_cases i (e_height e)) as [H|H].
  - right. by exists [], e, l.
  - destruct IH as [IH|(a & e' & b & -> & Ha & He)]; [left; by constructor|].
    right. exists (e :: a), e', b. split; [done|]. split; [by constructor|done].
Qed.

Lemma fwd_skip i a b :
  Forall (λ e, (e_height e <= i)%nat) a ->
  fwd i (a ++ b) = Level (forward (fwd i b)) (span (fwd i b) + Z.of_nat (length a)).
Proof.
  induction 1 as [|e a He Ha IH]; cbn [app fwd]; [destruct (fwd i b); cbn; f_equal; lia|].
  rewrite (proj2 (Nat.ltb_ge _ _)) by done. rewrite IH. cbn. f_equal. lia.
Qed.

Lemma fwd_first i a e b :
  Forall (λ e, (e_height e <= i)%nat) a -> (i < e_height e)%nat ->
  fwd i (a ++ e :: b) = Level (Some (e_loc e)) (Z.of_nat (length a) + 1).
Proof. intros Ha He. rewrite fwd_skip by done. cbn [fwd]. rewrite (proj2 (Nat.ltb_lt _ _)) by done. cbn. f_equal. lia. Qed.

(** The next entry is in [a]: what follows [a] does not matter. *)
Lemma fwd_inside i a b b' :
  ~ Forall (λ e, (e_height e <= i)%nat) a -> fwd i (a ++ b) = fwd i (a ++ b').
Proof.
  intros Hn. destruct (split_first i a) as [|(a1 & e & a2 & -> & Ha & He)]; [done|].
  rewrite <- !app_assoc. cbn [app]. by rewrite !fwd_first.
Qed.

Lemma fwd_none i l : Forall (λ e, (e_height e <= i)%nat) l -> fwd i l = Level None (Z.of_nat (length l)).
Proof. intros Hl. rewrite <- (app_nil_r l) at 1. by rewrite fwd_skip. Qed.

Lemma fwd_span i l : 0 <= span (fwd i l) <= Z.of_nat (length l).
Proof. induction l as [|e l IH]; cbn [fwd]; [simpl; lia|]. case_match; cbn [span length]; lia. Qed.

(** ** Where a search stops *)

(** The position after the last entry that is taller than the level, from the start. *)
Fixpoint above (i : nat) (a : list ent) : nat :=
  match a with
  | [] => 0
  | e :: a' => match above i a' with
               | O => if (i <? e_height e)%nat then 1 else 0
               | S k => S (S k)
               end
  end.

Lemma above_le i a : (above i a <= length a)%nat.
Proof. induction a as [|e a IH]; cbn; [done|]. repeat case_match; lia. Qed.

Lemma above_low i a : Forall (λ e, (e_height e <= i)%nat) a -> above i a = 0%nat.
Proof. induction 1 as [|e a He Ha IH]; cbn [above]; [done|]. rewrite IH. by rewrite (proj2 (Nat.ltb_ge _ _)). Qed.

Lemma above_app_tall i a e b : (i < e_height e)%nat -> above i (a ++ e :: b) = (length a + 1 + above i b)%nat.
Proof.
  intros He. induction a as [|e' a IH]; cbn [app above length].
  - rewrite (proj2 (Nat.ltb_lt _ _)) by done. destruct (above i b); lia.
  - rewrite IH. destruct (length a + 1 + above i b)%nat eqn:E; lia.
Qed.

(** The entries up to this position end with a taller one, the others are not taller. *)
Definition ends_above (i : nat) (a : list ent) : Prop :=
  a = [] \/ exists a' e, a = a' ++ [e] /\ (i < e_height e)%nat.

Lemma above_ends i a : ends_above i (take (above i a) a) /\ Forall (λ e, (e_height e <= i)%nat) (drop (above i a) a).
Proof.
  destruct (decide (Forall (λ e, (e_height e <= i)%nat) a)) as [Ha|Ha].
  { rewrite above_low by done. split; [by left|done]. }
  assert (exists a1 e a2, a = a1 ++ e :: a2 /\ (i < e_height e)%nat /\ Forall (λ e, (e_height e <= i)%nat) a2)
    as (a1 & e & a2 & -> & He & Ha2).
  { induction a as [|x a IH]; [by destruct Ha|].
    destruct (decide (Forall (λ e, (e_height e <= i)%nat) a)) as [Ha'|Ha'].
    - exists [], x, a. split; [done|]. split; [|done]. destruct (Nat.lt_ge_cases i (e_height x)); [done|].
      destruct Ha. by constructor.
    - destruct (IH Ha') as (a1 & e & a2 & -> & He & Ha2). by exists (x :: a1), e, a2. }
  rewrite above_app_tall, (above_low i a2), Nat.add_0_r by done.
  replace (a1 ++ e :: a2) with ((a1 ++ [e]) ++ a2) by (by rewrite <- app_assoc).
  rewrite take_app_length', drop_app_length' by (rewrite length_app; done).
  split; [right; by exists a1, e|done].
Qed.

Lemma above_app i a b : ends_above i a -> above i (a ++ b) = (length a + above i b)%nat.
Proof.
  intros [->|(a' & e & -> & He)]; [done|]. rewrite <- app_assoc. cbn [app].
  rewrite above_app_tall, length_app by done. cbn [length]. lia.
Qed.

Lemma ends_above_mono i j a : (i <= j)%nat -> ends_above j a -> ends_above i a.
Proof. intros Hij [->|(a' & e & -> & He)]; [by left|right]. exists a', e. split; [done|lia]. Qed.

(** ** Memory rules *)

Lemma wp_zget p n m (Q : zskiplistNode -> zmem -> Prop) :
  heap m !! p = Some n -> Q n m -> wp (zget p) m Q.
Proof. intros E HQ. apply wp_bind, wp_get. rewrite E. by apply wp_ret. Qed.

Lemma wp_zput p n n0 m (Q : unit -> zmem -> Prop) :
  heap m !! p = Some n0 -> Q tt (ZMem (<[p := n]> (heap m)) (freed m)) -> wp (zput p n) m Q.
Proof. intros E HQ. eapply wp_bind, wp_zget; [exact E|]. apply wp_bind, wp_get. by eexists _, _. Qed.

Lemma wp_zalloc n m (Q : loc -> zmem -> Prop) :
  (forall p, heap m !! p = None -> Q p (ZMem (<[p := n]> (heap m)) (freed m))) -> wp (zalloc n) m Q.
Proof.
  intros HQ. apply wp_bind, wp_get. cbn zeta. apply wp_bind. eexists _, _. split; [done|].
  apply wp_ret, HQ. apply not_elem_of_dom, is_fresh.
Qed.

Lemma wp_level_at p i n l m (Q : zskiplistLevel -> zmem -> Prop) :
  heap m !! p = Some n -> level n !! i = Some l -> Q l m -> wp (level_at p i) m Q.
Proof.
  intros E El HQ. eapply wp_bind, wp_zget; [exact E|]. rewrite El. by apply wp_ret.
Qed.

(** A node with one level replaced. *)
Definition with_level (i : nat) (l : zskiplistLevel) (n : zskiplistNode) : zskiplistNode :=
  ZNode (ele n) (score n) (backward n) (<[i := l]> (level n)).

Lemma wp_set_level_at p i l n l0 m (Q : unit -> zmem -> Prop) :
  heap m !! p = Some n -> level n !! i = Some l0 ->
  Q tt (ZMem (<[p := with_level i l n]> (heap m)) (freed m)) -> wp (set_level_at p i l) m Q.
Proof.
  intros E El HQ. eapply wp_bind, wp_zget; [exact E|]. eapply wp_bind, wp_level_at; [exact E|exact El|].
  by eapply wp_zput.
Qed.

Lemma wp_set_backward p b n m (Q : unit -> zmem -> Prop) :
  heap m !! p = Some n ->
  Q tt (ZMem (<[p := ZNode (ele n) (score n) b (level n)]> (heap m)) (freed m)) -> wp (set_backward p b) m Q.
Proof. intros E HQ. eapply wp_bind, wp_zget; [exact E|]. by eapply wp_zput. Qed.

(** ** Searching *)

Lemma item_of_node prev e l : item_of (node_of prev e l) = e_item e.
Proof. unfold item_of, node_of. cbn. by destruct (e_item e). Qed.

Lemma node_level prev e l i : (i < e_height e)%nat -> level (node_of prev e l) !! i = Some (fwd i l).
Proof. intros Hi. unfold node_of. cbn. by rewrite list_lookup_fmap, lookup_seq_lt. Qed.

Section search.
Context (zsl : zskiplist) (es : list ent).

Lemma level_after h a b i :
  zsl_ok h zsl es -> es = a ++ b -> ends_above i a -> (i < zlevel zsl)%nat ->
  exists nd, h !! x_of (header zsl) a = Some nd /\ level nd !! i = Some (fwd i b).
Proof.
  intros Hok He [->|(a' & e & -> & Hi)] Hl.
  - destruct (ok_header _ _ _ Hok) as (nd & Hnd & Hh). exists nd. split; [done|].
    rewrite He in Hh. by apply Hh.
  - rewrite x_of_snoc. pose proof (ok_chain _ _ _ Hok) as Hc. rewrite He, <- app_assoc in Hc.
    apply chain_lookup in Hc. eexists. split; [exact Hc|]. by apply node_level.
Qed.

(** The search condition holds exactly of the first entries [a]. *)
Definition splits (P : item -> Z -> bool) (a b : list ent) : Prop :=
  es = a ++ b /\ forall j e, es !! j = Some e -> P (e_item e) (Z.of_nat j + 1) = (j <? length a)%nat.

Lemma rank_small n : (n <= length es)%nat -> Z.of_nat (length es) < 2 ^ 63 -> u64 (Z.of_nat n) = Z.of_nat n.
Proof. intros H1 H2. apply wrapu_small. cint. Qed.

Lemma wp_walk m P i : zsl_ok (heap m) zsl es -> (i < zlevel zsl)%nat ->
  forall fuel a1 a2 b (Q : loc * Z -> zmem -> Prop),
  splits P (a1 ++ a2) b -> ends_above i a1 -> (length a2 < fuel)%nat ->
  Q (x_of (header zsl) (take (above i (a1 ++ a2)) (a1 ++ a2)), Z.of_nat (above i (a1 ++ a2))) m ->
  wp (level_walk fuel (λ n r, P (item_of n) r) i (x_of (header zsl) a1) (Z.of_nat (length a1))) m Q.
Proof.
  intros Hok Hi. induction fuel as [|fuel IH]; intros a1 a2 b Q Hs Ha1 Hf HQ; [lia|]. cbn [level_walk].
  destruct Hs as [He HP]. pose proof (ok_small _ _ _ Hok) as Hsmall.
  destruct (level_after (heap m) a1 (a2 ++ b) i Hok) as (nd & Hnd & Hlv); [by rewrite app_assoc|done|done|].
  eapply wp_bind, wp_level_at; [exact Hnd|exact Hlv|].
  destruct (split_first i a2) as [Hlow|(c & e & d & -> & Hc & Hhi)].
  - (* nothing more to pass *)
    assert (Hdone : Q (x_of (header zsl) a1, Z.of_nat (length a1)) m).
    { rewrite above_app, (above_low i a2), Nat.add_0_r, take_app_length in HQ by done. done. }
    destruct (split_first i b) as [Hb|(c & e & d & -> & Hc & Hhi)].
    { rewrite fwd_none by (by apply Forall_app). cbn [forward]. by apply wp_ret. }
    rewrite app_assoc, fwd_first by (done || by apply Forall_app). cbn [forward span].
    assert (Hlook : es !! (length (a1 ++ a2 ++ c)) = Some e).
    { rewrite He. replace ((a1 ++ a2) ++ c ++ e :: d) with ((a1 ++ a2 ++ c) ++ e :: d) by (by rewrite <- !app_assoc).
      by apply list_lookup_middle. }
    pose proof (lookup_lt_Some _ _ _ Hlook) as Hlt.
    pose proof (ok_chain _ _ _ Hok) as Hch. rewrite He in Hch.
    replace ((a1 ++ a2) ++ c ++ e :: d) with ((a1 ++ a2 ++ c) ++ e :: d) in Hch by (by rewrite <- !app_assoc).
    eapply wp_bind, wp_zget; [by eapply chain_lookup|]. rewrite item_of_node.
    replace (Z.of_nat (length a1) + (Z.of_nat (length (a2 ++ c)) + 1))
      with (Z.of_nat (length (a1 ++ a2 ++ c) + 1)) by (rewrite !length_app; lia).
    rewrite rank_small by (done || lia). rewrite Nat2Z.inj_add. change (Z.of_nat 1) with 1.
    rewrite (HP _ _ Hlook), (proj2 (Nat.ltb_ge _ _)) by (rewrite !length_app; lia). by apply wp_ret.
  - rewrite <- app_assoc. cbn [app]. rewrite fwd_first by done. cbn [forward span].
    assert (Hlook : es !! (length (a1 ++ c)) = Some e).
    { rewrite He. replace ((a1 ++ c ++ e :: d) ++ b) with ((a1 ++ c) ++ e :: d ++ b) by (by rewrite <- !app_assoc).
      by apply list_lookup_middle. }
    pose proof (lookup_lt_Some _ _ _ Hlook) as Hlt.
    pose proof (ok_chain _ _ _ Hok) as Hch. rewrite He in Hch.
    replace ((a1 ++ c ++ e :: d) ++ b) with ((a1 ++ c) ++ e :: d ++ b) in Hch by (by rewrite <- !app_assoc).
    eapply wp_bind, wp_zget; [by eapply chain_lookup|]. rewrite item_of_node.
    replace (Z.of_nat (length a1) + (Z.of_nat (length c) + 1))
      with (Z.of_nat (length (a1 ++ c) + 1)) by (rewrite !length_app; lia).
    rewrite rank_small by (done || lia). rewrite Nat2Z.inj_add at 1. change (Z.of_nat 1) with 1.
    rewrite (HP _ _ Hlook), (proj2 (Nat.ltb_lt _ _)) by (rewrite !length_app; simpl; lia).
    rewrite length_app in Hf. cbn [length] in Hf.
    assert (Ea : a1 ++ c ++ e :: d = (a1 ++ c ++ [e]) ++ d) by (by rewrite <- !app_assoc).
    rewrite Ea in *.
    replace (e_loc e) with (x_of (header zsl) (a1 ++ c ++ [e])) by (by rewrite app_assoc, x_of_snoc).
    replace (length (a1 ++ c) + 1)%nat with (length (a1 ++ c ++ [e])) by (rewrite !length_app; simpl; lia).
    apply (IH (a1 ++ c ++ [e]) d b); [by split| |lia|done].
    right. exists (a1 ++ c), e. by rewrite <- app_assoc.
Qed.

(** The nodes after which the entries that follow [a] are linked. *)
Definition update_of (a : list ent) (lv : nat) : list (loc * Z) :=
  (λ i, (x_of (header zsl) (take (above i a) a), Z.of_nat (above i a))) <$> seq 0 lv.

Lemma wp_descend m P fuel b : zsl_ok (heap m) zsl es ->
  forall lv a1 a2 acc (Q : list (loc * Z) -> zmem -> Prop),
  (lv <= zlevel zsl)%nat -> splits P (a1 ++ a2) b -> (forall i, (i < lv)%nat -> ends_above i a1) ->
  (length (a1 ++ a2) < fuel)%nat -> Q (update_of (a1 ++ a2) lv ++ acc) m ->
  wp (descend fuel (λ n r, P (item_of n) r) lv (x_of (header zsl) a1) (Z.of_nat (length a1)) acc) m Q.
Proof.
  intros Hok. induction lv as [|i IH]; intros a1 a2 acc Q Hlv Hs Hends Hf HQ; cbn [descend].
  { by apply wp_ret. }
  apply wp_bind. eapply (wp_walk m P i Hok Hlv); [exact Hs|by apply Hends; lia|rewrite length_app in Hf; lia|].
  destruct (above_ends i (a1 ++ a2)) as [He Hlow].
  assert (Hle := above_le i (a1 ++ a2)).
  assert (Ea : a1 ++ a2 = take (above i (a1 ++ a2)) (a1 ++ a2) ++ drop (above i (a1 ++ a2)) (a1 ++ a2))
    by (by rewrite take_drop).
  set (k := above i (a1 ++ a2)) in *. rewrite <- (length_take_le (a1 ++ a2) k) at 2 by done.
  rewrite Ea in Hs, Hf |- *. rewrite take_app_length' by (by rewrite length_take_le).
  eapply IH; [lia|exact Hs| |done|].
  - intros j Hj. eapply ends_above_mono; [|exact He]. lia.
  - rewrite <- Ea. unfold update_of in HQ. rewrite seq_S, fmap_app, <- app_assoc in HQ. cbn in HQ.
    exact HQ.
Qed.

Lemma wp_search m P a b (Q : list (loc * Z) -> zmem -> Prop) :
  zsl_ok (heap m) zsl es -> splits P a b -> Q (update_of a (zlevel zsl)) m ->
  wp (search zsl (λ n r, P (item_of n) r)) m Q.
Proof.
  intros Hok Hs HQ. unfold search. change (header zsl) with (x_of (header zsl) []) at 1.
  change 0 with (Z.of_nat (length (@nil ent))).
  eapply (wp_descend m P _ b Hok (zlevel zsl) [] a []); [done|done|by left| |by rewrite app_nil_r].
  rewrite (ok_length _ _ _ Hok), Nat2Z.id, (proj1 Hs), !length_app. simpl. lia.
Qed.
End search.
