(* ===== verification/ZslOps.v ===== *)
(** Relinking the nodes of the skiplist: insertion and deletion of a node.

    Both change, at each level, only the node after which the search stopped; the
    lemmas here give the heap after such a change. *)

From stdpp Require Import gmap.
From S2P Require Import Prelude State ZslOrder Zsl ZslInv.

Local Open Scope Z_scope.

(** ** Changing one node per level *)

(** Node [us[j]] gets [f (i+j)] as its level [i+j]. *)
Fixpoint relink (h : gmap loc zskiplistNode) (i : nat) (us : list loc) (f : nat -> zskiplistLevel)
    : gmap loc zskiplistNode :=
  match us with
  | [] => h
  | u :: us' => relink (alter (with_level i (f i)) u h) (S i) us' f
  end.

Lemma relink_lookup us f q : forall h i n, h !! q = Some n ->
  exists n', relink h i us f !! q = Some n' /\ ele n' = ele n /\ score n' = score n /\ backward n' = backward n /\
    length (level n') = length (level n) /\
    (forall j, (i <= j)%nat -> us !! (j - i)%nat = Some q -> (j < length (level n))%nat -> level n' !! j = Some (f j)) /\
    (forall j, ((i <= j)%nat -> us !! (j - i)%nat <> Some q) -> level n' !! j = level n !! j).
Proof.
  induction us as [|u us IH]; intros h i n Hq; cbn [relink].
  { exists n. by split_and!. }
  set (n1 := if decide (u = q) then with_level i (f i) n else n).
  assert (Hq1 : alter (with_level i (f i)) u h !! q = Some n1).
  { unfold n1. case_decide as E; [subst u; by rewrite lookup_alter_eq, Hq|by rewrite lookup_alter_ne, Hq]. }
  destruct (IH _ (S i) n1 Hq1) as (n' & Hn' & E1 & E2 & E3 & E4 & Hhit & Hmiss).
  assert (En : ele n1 = ele n /\ score n1 = score n /\ backward n1 = backward n /\ length (level n1) = length (level n)).
  { unfold n1. case_decide; [|done]. cbn. by rewrite length_insert. }
  destruct En as (F1 & F2 & F3 & F4). exists n'. split; [done|].
  split; [congruence|]. split; [congruence|]. split; [congruence|]. split; [congruence|]. split.
  - intros j Hij Hj Hlen. destruct (Nat.eq_dec j i) as [->|Hne].
    + rewrite Nat.sub_diag in Hj. injection Hj as ->.
      rewrite Hmiss by lia. unfold n1. rewrite decide_True by done. cbn. by apply list_lookup_insert_eq.
    + apply Hhit; [lia| |by rewrite F4]. replace (j - i)%nat with (S (j - S i)) in Hj by lia. done.
  - intros j Hj. rewrite Hmiss.
    + unfold n1. case_decide as E; [|done]. cbn. destruct (Nat.eq_dec i j) as [<-|Hne].
      * exfalso. apply (Hj ltac:(lia)). rewrite Nat.sub_diag. by rewrite E.
      * by rewrite list_lookup_insert_ne.
    + intros Hij Hus. apply (Hj ltac:(lia)). by replace (j - i)%nat with (S (j - S i)) by lia.
Qed.

Lemma relink_None us f q : forall h i, h !! q = None -> relink h i us f !! q = None.
Proof.
  induction us as [|u us IH]; intros h i Hq; [done|]. cbn [relink]. apply IH.
  destruct (decide (u = q)) as [->|]; [by rewrite lookup_alter_eq, Hq|by rewrite lookup_alter_ne].
Qed.

Lemma relink_other us f q h i : q ∉ us -> relink h i us f !! q = h !! q.
Proof.
  revert h i. induction us as [|u us IH]; intros h i Hq; [done|]. cbn [relink].
  apply not_elem_of_cons in Hq as [Hne Hq]. rewrite IH by done. by rewrite lookup_alter_ne.
Qed.

Lemma relink_insert us f x nx : forall h i, x ∉ us -> relink (<[x := nx]> h) i us f = <[x := nx]> (relink h i us f).
Proof.
  induction us as [|u us IH]; intros h i Hx; [done|]. cbn [relink]. apply not_elem_of_cons in Hx as [Hne Hx].
  rewrite <- IH by done. f_equal. apply map_eq. intros q. destruct (decide (q = x)) as [->|].
  - by rewrite lookup_alter_ne, !lookup_insert_eq.
  - rewrite lookup_insert_ne by done. destruct (decide (q = u)) as [->|].
    + by rewrite !lookup_alter_eq, lookup_insert_ne.
    + by rewrite !lookup_alter_ne, lookup_insert_ne.
Qed.

Lemma relink_app us1 us2 f : forall h i,
  relink h i (us1 ++ us2) f = relink (relink h i us1 f) (i + length us1) us2 f.
Proof.
  induction us1 as [|u us1 IH]; intros h i; cbn [app relink length]; [by rewrite Nat.add_0_r|].
  by rewrite IH, Nat.add_succ_comm.
Qed.

Lemma relink_ext us f g : forall h i,
  (forall j, (j < length us)%nat -> f (i + j)%nat = g (i + j)%nat) -> relink h i us f = relink h i us g.
Proof.
  induction us as [|u us IH]; intros h i Hfg; [done|]. cbn [relink].
  pose proof (Hfg 0%nat ltac:(simpl; lia)) as H0. rewrite Nat.add_0_r in H0. rewrite H0. apply IH.
  intros j Hj. specialize (Hfg (S j) ltac:(simpl; lia)). by replace (S i + j)%nat with (i + S j)%nat by lia.
Qed.

(** ** The effect on the entries before the change *)

Section patch.
Context (hd : loc) (a b0 b1 : list ent) (n : nat) (h : gmap loc zskiplistNode).
Context (Hnd : NoDup (hd :: locs a)) (Hn : Forall (λ e, (e_height e <= n)%nat) a).

Definition stops : list loc := (λ i, x_of hd (take (above i a) a)) <$> seq 0 n.

Lemma stops_lookup j : (j < n)%nat -> stops !! j = Some (x_of hd (take (above j a) a)).
Proof. intros Hj. unfold stops. by rewrite list_lookup_fmap, lookup_seq_lt. Qed.

Lemma x_of_take k e : a !! k = Some e -> x_of hd (take (S k) a) = e_loc e.
Proof. intros Hk. by rewrite (take_S_r _ _ _ Hk), x_of_snoc. Qed.

Lemma x_of_elem k : (k <= length a)%nat -> x_of hd (take k a) ∈ hd :: locs a.
Proof.
  intros Hk. destruct k as [|k]; [by left|]. destruct (lookup_lt_is_Some_2 a k ltac:(lia)) as [e He].
  rewrite (x_of_take k e He). right. apply list_elem_of_fmap. exists e. split; [done|]. by eapply list_elem_of_lookup_2.
Qed.

(** Different positions are different nodes. *)
Lemma x_of_inj k k' : (k <= length a)%nat -> (k' <= length a)%nat ->
  x_of hd (take k a) = x_of hd (take k' a) -> k = k'.
Proof.
  assert (Hl : forall k, (k <= length a)%nat -> (hd :: locs a) !! k = Some (x_of hd (take k a))).
  { intros [|j] Hj; [done|]. destruct (lookup_lt_is_Some_2 a j ltac:(lia)) as [e He].
    rewrite (x_of_take j e He). change ((e_loc <$> a) !! j = Some (e_loc e)). by rewrite list_lookup_fmap, He. }
  intros Hk Hk' E. eapply (NoDup_lookup (hd :: locs a)); [done|by apply Hl|]. rewrite E. by apply Hl.
Qed.

Lemma stops_elem q : q ∈ stops -> q ∈ hd :: locs a.
Proof. unfold stops. intros (i & -> & _)%list_elem_of_fmap. apply x_of_elem, above_le. Qed.

Context (f : nat -> zskiplistLevel).
Context (Hf : forall j, (j < n)%nat -> f j = fwd j (drop (above j a) a ++ b1)).

Lemma relink_entry a1 e a2 :
  chain h None (a ++ b0) -> a = a1 ++ e :: a2 ->
  relink h 0 stops f !! e_loc e = Some (node_of (last_ent None a1) e (a2 ++ b1)).
Proof using Hnd Hn Hf.
  intros Hc Ea. apply chain_app in Hc as [Hc _]. specialize (Hc a1 e a2 Ea).
  destruct (relink_lookup stops f (e_loc e) h 0 _ Hc) as (n' & -> & E1 & E2 & E3 & E4 & Hhit & Hmiss).
  cbn in E1, E2, E3, E4. rewrite length_fmap, length_seq in E4.
  assert (He : (e_height e <= n)%nat) by (rewrite Forall_forall in Hn; apply Hn; rewrite Ea; set_solver).
  assert (Hpos : a !! length a1 = Some e) by (rewrite Ea; by apply list_lookup_middle).
  pose proof (x_of_take _ _ Hpos) as Hx.
  f_equal. destruct n' as [e' s' b' ls']. cbn in *. subst. unfold node_of. f_equal.
  apply list_eq. intros j. destruct (Nat.lt_ge_cases j (e_height e)) as [Hj|Hj].
  2:{ rewrite !lookup_ge_None_2; [done|rewrite length_fmap, length_seq; lia|lia]. }
  rewrite list_lookup_fmap, lookup_seq_lt by done. cbn.
  pose proof (above_app_tall j a1 e a2 Hj) as Hab. rewrite <- Ea in Hab.
  destruct (Nat.eq_dec (above j a2) 0) as [H0|H0].
  - rewrite Hhit; [|lia| |by rewrite length_fmap, length_seq].
    + rewrite Hf by lia. rewrite Hab, H0, Nat.add_0_r, Ea.
      replace (a1 ++ e :: a2) with ((a1 ++ [e]) ++ a2) by (by rewrite <- app_assoc).
      by rewrite drop_app_length' by (by rewrite length_app).
    + rewrite Nat.sub_0_r, stops_lookup by lia. rewrite Hab, H0, Nat.add_0_r, Nat.add_1_r. by rewrite Hx.
  - rewrite Hmiss.
    + rewrite list_lookup_fmap, lookup_seq_lt by done. cbn. f_equal. apply fwd_inside. intros Hlow.
      by rewrite above_low in H0.
    + intros _. rewrite Nat.sub_0_r, stops_lookup by lia. intros [= E]. rewrite <- Hx in E.
      apply x_of_inj in E; [lia|apply above_le|]. apply lookup_lt_Some in Hpos. lia.
Qed.

Lemma relink_header nd :
  h !! hd = Some nd -> header_node nd n (a ++ b0) -> (n <= ZSKIPLIST_MAXLEVEL)%nat ->
  exists nd', relink h 0 stops f !! hd = Some nd' /\ header_node nd' n (a ++ b1) /\ score nd' = score nd.
Proof using Hnd Hn Hf.
  intros Hh [H1 H2 H3 H4 H5] Hmax.
  destruct (relink_lookup stops f hd h 0 _ Hh) as (n' & -> & E1 & E2 & E3 & E4 & Hhit & Hmiss).
  exists n'. split; [done|]. split; [|done]. split; [congruence..| |].
  - intros i Hi. destruct (Nat.eq_dec (above i a) 0) as [H0|H0].
    + rewrite Hhit; [|lia| |rewrite H3; lia].
      * rewrite Hf, H0 by done. by rewrite drop_0.
      * rewrite Nat.sub_0_r, stops_lookup, H0 by done. done.
    + rewrite Hmiss.
      * rewrite H4 by done. f_equal. apply fwd_inside. intros Hlow. by rewrite above_low in H0.
      * intros _. rewrite Nat.sub_0_r, stops_lookup by done. intros [= E].
        change hd with (x_of hd (take 0 a)) in E at 2. apply x_of_inj in E; [lia|apply above_le|lia].
  - intros i Hi. destruct (H5 i Hi) as [s Hs]. exists s. rewrite Hmiss; [done|]. intros _.
    rewrite Nat.sub_0_r. unfold stops. rewrite lookup_ge_None_2; [done|]. rewrite length_fmap, length_seq. lia.
Qed.

Lemma relink_chain :
  chain h None (a ++ b0) -> chain (relink h 0 stops f) (last_ent None a) b1 ->
  chain (relink h 0 stops f) None (a ++ b1).
Proof using Hnd Hn Hf.
  intros Hc Hb. apply chain_app. split; [|done]. intros a1 e a2 Ea. by apply relink_entry.
Qed.
End patch.

Lemma chain_frame h h' prev l : (forall e, e ∈ l -> h' !! e_loc e = h !! e_loc e) -> chain h prev l -> chain h' prev l.
Proof.
  revert prev. induction l as [|e l IH]; intros prev Hf; [done|]. intros [He Hl]. split.
  - rewrite Hf; [done|by left].
  - apply IH; [|done]. intros e' He'. apply Hf. by right.
Qed.

(** ** The loops of insertion and deletion *)

(** Node [us[j]] has [old (i+j)] as its level [i+j]. *)
Definition has_levels (h : gmap loc zskiplistNode) (i : nat) (us : list loc) (old : nat -> zskiplistLevel) : Prop :=
  forall j u, us !! j = Some u -> exists nd, h !! u = Some nd /\ level nd !! (i + j)%nat = Some (old (i + j)%nat).

Lemma has_levels_cons h i u us old l :
  has_levels h i (u :: us) old ->
  (exists nd, h !! u = Some nd /\ level nd !! i = Some (old i)) /\
  has_levels (alter (with_level i l) u h) (S i) us old.
Proof.
  intros H. split; [destruct (H 0%nat u eq_refl) as (nd & Hnd & Hl); exists nd; by rewrite Nat.add_0_r in Hl|].
  intros j v Hv. destruct (H (S j) v Hv) as (nd & Hnd & Hl). rewrite <- Nat.add_succ_comm in Hl.
  destruct (decide (u = v)) as [->|Hne].
  - exists (with_level i l nd). split; [by rewrite lookup_alter_eq, Hnd|].
    cbn. rewrite list_lookup_insert_ne by lia. exact Hl.
  - exists nd. by rewrite lookup_alter_ne.
Qed.

Lemma alter_is_insert (f : zskiplistNode -> zskiplistNode) (h : gmap loc zskiplistNode) p n :
  h !! p = Some n -> alter f p h = <[p := f n]> h.
Proof.
  intros Hp. apply map_eq. intros q. destruct (decide (q = p)) as [->|].
  - by rewrite lookup_alter_eq, lookup_insert_eq, Hp.
  - by rewrite lookup_alter_ne, lookup_insert_ne.
Qed.

(** Storing a level is one step of [relink]. *)
Lemma wp_relink_step u i l nd l0 m (Q : unit -> zmem -> Prop) :
  heap m !! u = Some nd -> level nd !! i = Some l0 ->
  Q tt (ZMem (alter (with_level i l) u (heap m)) (freed m)) -> wp (set_level_at u i l) m Q.
Proof.
  intros Hu Hl HQ. eapply wp_set_level_at; [exact Hu|exact Hl|].
  by rewrite <- (alter_is_insert (with_level i l)).
Qed.

Lemma wp_widen_loop old f (Q : unit -> zmem -> Prop) : forall update i m,
  has_levels (heap m) i update.*1 old ->
  (forall j, (j < length update)%nat -> f (i + j)%nat = Level (forward (old (i + j)%nat)) (u64 (span (old (i + j)%nat) + 1))) ->
  Q tt (ZMem (relink (heap m) i update.*1 f) (freed m)) -> wp (widen_loop i update) m Q.
Proof.
  induction update as [|[u r] update IH]; intros i m Hold Hf HQ; cbn [widen_loop].
  { apply wp_ret. by destruct m. }
  apply (has_levels_cons _ _ _ _ _ (f i)) in Hold as [(nd & Hnd & Hl) Hold].
  eapply wp_bind, wp_level_at; [exact Hnd|exact Hl|].
  pose proof (Hf 0%nat ltac:(simpl; lia)) as H0. rewrite Nat.add_0_r in H0. rewrite <- H0.
  eapply wp_bind, wp_relink_step; [exact Hnd|exact Hl|].
  apply IH; [exact Hold| |exact HQ].
  intros j Hj. rewrite Nat.add_succ_comm. apply Hf. simpl. lia.
Qed.

Lemma wp_unlink_loop x nx old f (Q : unit -> zmem -> Prop) : forall update i m,
  has_levels (heap m) i update old -> x ∉ update -> heap m !! x = Some nx ->
  (forall j, (j < length update)%nat ->
     if bool_decide (forward (old (i + j)%nat) = Some x) then
       exists lx, level nx !! (i + j)%nat = Some lx /\
         f (i + j)%nat = Level (forward lx) (u64 (span (old (i + j)%nat) + u64 (span lx - 1)))
     else f (i + j)%nat = Level (forward (old (i + j)%nat)) (u64 (span (old (i + j)%nat) - 1))) ->
  Q tt (ZMem (relink (heap m) i update f) (freed m)) -> wp (unlink_loop x i update) m Q.
Proof.
  induction update as [|u update IH]; intros i m Hold Hx Hnx Hf HQ; cbn [unlink_loop].
  { apply wp_ret. by destruct m. }
  apply not_elem_of_cons in Hx as [Hne Hx].
  apply (has_levels_cons _ _ _ _ _ (f i)) in Hold as [(nd & Hnd & Hl) Hold].
  eapply wp_bind, wp_level_at; [exact Hnd|exact Hl|].
  assert (Hrest : wp (unlink_loop x (S i) update) (ZMem (alter (with_level i (f i)) u (heap m)) (freed m)) Q).
  { apply IH; [exact Hold|done|cbn [heap]; by rewrite lookup_alter_ne| |exact HQ].
    intros j Hj. rewrite Nat.add_succ_comm. apply Hf. simpl. lia. }
  pose proof (Hf 0%nat ltac:(simpl; lia)) as H0. rewrite Nat.add_0_r in H0.
  apply wp_bind. destruct (bool_decide (forward (old i) = Some x)).
  - destruct H0 as (lx & Hlx & H0). eapply wp_bind, wp_level_at; [exact Hnx|exact Hlx|].
    rewrite <- H0. by eapply wp_relink_step.
  - rewrite <- H0. by eapply wp_relink_step.
Qed.

(** Linking fills the levels of the new node [x]. *)
Lemma wp_link_loop x rank0 old new f (Q : unit -> zmem -> Prop) : forall update i h nx fr,
  has_levels h i update.*1 old -> x ∉ update.*1 ->
  length (level nx) = (i + length update)%nat -> take i (level nx) = new <$> seq 0 i ->
  (forall j u r, update !! j = Some (u, r) ->
     new (i + j)%nat = Level (forward (old (i + j)%nat)) (u64 (span (old (i + j)%nat) - u64 (rank0 - r))) /\
     f (i + j)%nat = Level (Some x) (u64 (u64 (rank0 - r) + 1))) ->
  Q tt (ZMem (<[x := ZNode (ele nx) (score nx) (backward nx) (new <$> seq 0 (i + length update))]>
                (relink h i update.*1 f)) fr) ->
  wp (link_loop x rank0 i update) (ZMem (<[x := nx]> h) fr) Q.
Proof.
  induction update as [|[u r] update IH]; intros i h nx fr Hold Hx Hlen Htake Hf HQ; cbn [link_loop].
  { apply wp_ret. rewrite Nat.add_0_r in Hlen, HQ. rewrite take_ge in Htake by lia.
    rewrite <- Htake in HQ. by destruct nx. }
  apply not_elem_of_cons in Hx as [Hne Hx]. cbn [length] in Hlen.
  apply (has_levels_cons _ _ _ _ _ (f i)) in Hold as [(nd & Hnd & Hl) Hold].
  destruct (Hf 0%nat u r eq_refl) as [Hnew Hfi]. rewrite Nat.add_0_r in Hnew, Hfi.
  destruct (lookup_lt_is_Some_2 (level nx) i ltac:(lia)) as [l0 Hl0].
  eapply wp_bind, wp_level_at; [cbn; by rewrite lookup_insert_ne|exact Hl|].
  eapply wp_bind, wp_set_level_at; [cbn; by rewrite lookup_insert_eq|exact Hl0|].
  rewrite <- Hnew, <- Hfi. cbn [heap freed].
  eapply wp_bind, wp_relink_step; [cbn; by rewrite insert_insert_eq, lookup_insert_ne|exact Hl|].
  cbn [heap freed]. rewrite insert_insert_eq.
  replace (alter (with_level i (f i)) u (<[x := with_level i (new i) nx]> h))
    with (<[x := with_level i (new i) nx]> (alter (with_level i (f i)) u h))
    by (symmetry; apply (relink_insert [u] f x _ h i); by apply not_elem_of_cons; split; [|apply not_elem_of_nil]).
  apply IH; [exact Hold|done|cbn; rewrite length_insert; lia| | |].
  - cbn [with_level level]. rewrite (take_S_r _ _ (new i)) by (apply list_lookup_insert_eq; lia).
    rewrite take_insert_ge, Htake, seq_S, fmap_app by lia. done.
  - intros j v r' Hj. rewrite Nat.add_succ_comm. by apply (Hf (S j) v r').
  - cbn [length] in HQ. rewrite <- Nat.add_succ_comm in HQ. exact HQ.
Qed.

(** ** What insertion and deletion share *)

Definition with_zlevel (zsl : zskiplist) (lv : nat) : zskiplist := Zsl (header zsl) (tail zsl) (zlength zsl) lv.

(** The two heaps differ at most at the given addresses. *)
Definition same_except (h h' : gmap loc zskiplistNode) (l : list loc) : Prop :=
  forall q, q ∉ l -> h' !! q = h !! q.

Lemma same_except_trans h1 h2 h3 l l' :
  same_except h1 h2 l -> same_except h2 h3 l' -> same_except h1 h3 (l ++ l').
Proof. intros H1 H2 q Hq. rewrite elem_of_app in Hq. rewrite H2, H1 by tauto. done. Qed.

Lemma same_except_mono h h' l l' : same_except h h' l -> (forall q, q ∈ l -> q ∈ l') -> same_except h h' l'.
Proof. intros H Hl q Hq. apply H. auto. Qed.

(** The node that follows gets a new [backward]. *)
Definition fix_back (prev : option loc) (b : list ent) (h : gmap loc zskiplistNode) : gmap loc zskiplistNode :=
  match b with
  | [] => h
  | e :: _ => alter (λ n, ZNode (ele n) (score n) prev (level n)) (e_loc e) h
  end.

Lemma fix_back_other prev b h q : q ∉ locs b -> fix_back prev b h !! q = h !! q.
Proof. destruct b as [|e b]; [done|]. cbn. intros Hq. apply not_elem_of_cons in Hq as [Hq _]. by rewrite lookup_alter_ne. Qed.

Lemma fix_back_chain prev prev0 b h : NoDup (locs b) -> chain h prev0 b -> chain (fix_back prev b h) prev b.
Proof.
  destruct b as [|e b]; [done|]. cbn [fix_back chain fmap list_fmap]. intros [Hne _]%NoDup_cons [He Hb]. split.
  - by rewrite lookup_alter_eq, He.
  - eapply chain_frame; [|exact Hb]. intros e' He'. rewrite lookup_alter_ne; [done|]. intros E. apply Hne.
    rewrite E. by apply list_elem_of_fmap_2.
Qed.

Lemma stops_update zsl a n : (update_of zsl a n).*1 = stops (header zsl) a n.
Proof. unfold update_of, stops. by rewrite <- list_fmap_compose. Qed.

Lemma length_update zsl a n : length (update_of zsl a n) = n.
Proof. unfold update_of. by rewrite length_fmap, length_seq. Qed.

Lemma take_update zsl a n k : (k <= n)%nat -> take k (update_of zsl a n) = update_of zsl a k.
Proof. intros Hk. unfold update_of. rewrite <- fmap_take, take_seq. by rewrite Nat.min_l. Qed.

Lemma stops_levels h zsl a b n : zsl_ok h zsl (a ++ b) -> (n <= zlevel zsl)%nat ->
  has_levels h 0 (stops (header zsl) a n) (λ i, fwd i (drop (above i a) a ++ b)).
Proof.
  intros Hok Hn j u Hj. assert (Hlt : (j < n)%nat).
  { apply lookup_lt_Some in Hj. unfold stops in Hj. by rewrite length_fmap, length_seq in Hj. }
  rewrite stops_lookup in Hj by done. injection Hj as <-. cbn.
  eapply (level_after zsl (a ++ b)); [done| |apply above_ends|lia]. by rewrite app_assoc, take_drop.
Qed.

(** The header and the entries after the change: the entries before it have the new
    levels, and [b1] follows. *)
Lemma relinked zsl a b0 b1 h h' f :
  zsl_ok h zsl (a ++ b0) ->
  (forall j, (j < zlevel zsl)%nat -> f j = fwd j (drop (above j a) a ++ b1)) ->
  (forall q, q ∈ header zsl :: locs a -> h' !! q = relink h 0 (stops (header zsl) a (zlevel zsl)) f !! q) ->
  chain h' (last_ent None a) b1 ->
  (exists nd, h' !! header zsl = Some nd /\ header_node nd (zlevel zsl) (a ++ b1)) /\ chain h' None (a ++ b1).
Proof.
  intros Hok Hf Hh' Hb.
  assert (Hnd : NoDup (header zsl :: locs a)).
  { pose proof (ok_nodup _ _ _ Hok) as Hnd. rewrite fmap_app, app_comm_cons in Hnd. by apply NoDup_app in Hnd as (? & _). }
  assert (Hht : Forall (λ e, (e_height e <= zlevel zsl)%nat) a).
  { pose proof (ok_heights _ _ _ Hok) as Hh. apply Forall_app in Hh as [Hh _]. eapply Forall_impl; [exact Hh|]. cbn. lia. }
  pose proof (ok_chain _ _ _ Hok) as Hc. destruct (ok_header _ _ _ Hok) as (nd & Hn & Hhd). split.
  - destruct (relink_header _ a b0 b1 _ h Hnd Hht f Hf nd Hn Hhd) as (nd' & Hn' & Hhd' & _); [apply Hok|].
    exists nd'. split; [|done]. rewrite Hh' by (by left). done.
  - apply chain_app. split; [|done]. intros a1 e a2 Ea. rewrite Hh'.
    + by eapply relink_entry.
    + right. rewrite Ea, fmap_app. set_solver.
Qed.
