(* ===== verification/ZslIns.v ===== *)
(** Insertion into the skiplist: the heap after [zslInsert] represents the list with
    the new entry in its place. *)

From stdpp Require Import gmap.
From S2P Require Import Prelude State ZslOrder Zsl ZslInv ZslOps.

Local Open Scope Z_scope.

(** ** Where the search stops *)

Lemma splits_items es (P : item -> bool) a b :
  es = a ++ b -> Forall (λ it, P it = true) (items a) -> Forall (λ it, P it = false) (items b) ->
  splits es (λ it _, P it) a b.
Proof.
  intros -> Ha Hb. split; [done|]. intros j e Hj. rewrite Forall_fmap in Ha, Hb. apply lookup_app_Some in Hj as [Hj|[Hle Hj]].
  - rewrite (proj2 (Nat.ltb_lt _ _)) by (by eapply lookup_lt_Some). by eapply (Forall_lookup_1 _ _ _ _ Ha).
  - rewrite (proj2 (Nat.ltb_ge _ _)) by done. by eapply (Forall_lookup_1 _ _ _ _ Hb).
Qed.

Lemma item_ltb_false a b : isnan a.1 = false -> isnan b.1 = false -> ~ ilt a b -> item_ltb a b = false.
Proof. intros Ha Hb Hn. apply not_true_iff_false. by rewrite item_ltb_spec. Qed.

Lemma ilt_asym a b : ilt a b -> ~ ilt b a.
Proof. intros H1 H2. apply (ilt_irrefl a). by eapply ilt_trans. Qed.

(** The entries smaller than an item come first. *)
Lemma splits_less es it a b :
  es = a ++ b -> sorted (items es) -> isnan it.1 = false ->
  Forall (λ x, ilt x it) (items a) -> Forall (λ x, ~ ilt x it) (items b) ->
  splits es (λ x _, item_ltb x it) a b.
Proof.
  intros -> [_ Hn] Hit Ha Hb. apply (splits_items _ (λ x, item_ltb x it)); [done| |].
  - rewrite fmap_app in Hn. apply Forall_app in Hn as [Hn _]. rewrite Forall_forall in *. intros x Hx.
    apply item_ltb_spec; auto.
  - rewrite fmap_app in Hn. apply Forall_app in Hn as [_ Hn]. rewrite Forall_forall in *. intros x Hx.
    apply item_ltb_false; auto.
Qed.

(** ** Raising the level of the list *)

Lemma wp_raise_loop zsl es (Q : unit -> zmem -> Prop) : forall n i m,
  zsl_ok (heap m) (with_zlevel zsl i) es -> (i + n <= ZSKIPLIST_MAXLEVEL)%nat ->
  (forall h', zsl_ok h' (with_zlevel zsl (i + n)) es -> same_except (heap m) h' [header zsl] ->
     Q tt (ZMem h' (freed m))) ->
  wp (raise_loop zsl i n) m Q.
Proof.
  induction n as [|n IH]; intros i m Hok Hmax HQ; cbn [raise_loop].
  { apply wp_ret. rewrite Nat.add_0_r in HQ. destruct m. by apply HQ. }
  destruct (ok_header _ _ _ Hok) as (nd & Hnd & [H1 H2 H3 H4 H5]). cbn in Hnd, H4, H5.
  destruct (H5 i ltac:(lia)) as [s Hs].
  eapply wp_bind, wp_level_at; [exact Hnd|exact Hs|].
  eapply wp_bind, wp_set_level_at; [exact Hnd|exact Hs|]. cbn [forward].
  assert (Hlen := ok_length _ _ _ Hok). cbn in Hlen. rewrite Hlen.
  assert (Hlow : Forall (λ e, (e_height e <= i)%nat) es).
  { eapply Forall_impl; [apply Hok|]. cbn. lia. }
  apply IH; [|lia|].
  - cbn [heap]. pose proof (ok_nodup _ _ _ Hok) as Hdup. pose proof (ok_heights _ _ _ Hok) as Hht.
    cbn in Hdup, Hht. destruct Hok. split; cbn in *; try done; try lia.
    + eexists. split; [by rewrite lookup_insert_eq|]. split; cbn; [done..| | |].
      * by rewrite length_insert.
      * intros j Hj. destruct (Nat.eq_dec i j) as [<-|Hne].
        -- rewrite list_lookup_insert_eq by lia. by rewrite fwd_none.
        -- rewrite list_lookup_insert_ne by done. apply H4. lia.
      * intros j Hj. rewrite list_lookup_insert_ne by lia. apply H5. lia.
    + eapply chain_frame; [|done]. intros e He. rewrite lookup_insert_ne; [done|]. intros E.
      apply NoDup_cons in Hdup as [Hdup _]. apply Hdup. rewrite E. by apply list_elem_of_fmap_2.
    + eapply Forall_impl; [exact Hht|]. cbn. lia.
  - cbn [heap freed]. intros h' Hok' Hsame. rewrite Nat.add_succ_comm in Hok'. apply HQ; [done|].
    intros q Hq. rewrite Hsame by done. apply lookup_insert_ne. set_solver.
Qed.

(** The levels above the list's start at the header. *)
Lemma update_raise zsl es a n k :
  Forall (λ e, (e_height e <= n)%nat) a ->
  update_of zsl a n ++ replicate k (header zsl, 0) = update_of (with_zlevel zsl es) a (n + k).
Proof.
  intros Hn. unfold update_of. rewrite seq_app, fmap_app. f_equal.
  apply list_eq. intros i. destruct (Nat.lt_ge_cases i k) as [Hi|Hi].
  - rewrite lookup_replicate_2, list_lookup_fmap, lookup_seq_lt by done. cbn. rewrite above_low; [done|].
    eapply Forall_impl; [exact Hn|]. cbn. lia.
  - rewrite !lookup_ge_None_2; [done|rewrite length_fmap, length_seq; lia|rewrite length_replicate; lia].
Qed.

Lemma above_all a : Forall (λ e, (1 <= e_height e)%nat) a -> above 0 a = length a.
Proof.
  intros Ha. destruct a as [|e a _] using rev_ind; [done|].
  apply Forall_app in Ha as [_ He]. apply Forall_cons in He as [He _]. cbn in He.
  rewrite above_app_tall by lia. cbn. rewrite length_app. cbn. lia.
Qed.

(** ** The heap after insertion *)

Lemma zslRandomLevel_range draws : (1 <= zslRandomLevel draws <= ZSKIPLIST_MAXLEVEL)%nat.
Proof.
  unfold zslRandomLevel. assert (H : forall lv, (1 <= lv)%nat -> (1 <= random_level_loop draws lv)%nat).
  { induction draws as [|r draws IH]; intros lv Hlv; cbn [random_level_loop]; [done|].
    destruct (r <? 536870911); [apply IH; lia|done]. }
  specialize (H 1%nat ltac:(lia)). destruct (Nat.ltb_spec (random_level_loop draws 1) ZSKIPLIST_MAXLEVEL); lia.
Qed.

Lemma in_front hd a b q : q ∈ hd :: locs a -> q ∈ hd :: locs (a ++ b).
Proof. rewrite fmap_app, !elem_of_cons, elem_of_app. tauto. Qed.
Lemma in_back hd a b q : q ∈ locs b -> q ∈ hd :: locs (a ++ b).
Proof. rewrite fmap_app, !elem_of_cons, elem_of_app. tauto. Qed.

Section insert.
Context (zsl : zskiplist) (a b : list ent) (h : gmap loc zskiplistNode) (x : loc).
Context (Hok : zsl_ok h zsl (a ++ b)) (Hx : h !! x = None).

Let hd := header zsl.
Let n := zlevel zsl.

Lemma used_not_x q : q ∈ hd :: locs (a ++ b) -> q <> x.
Proof.
  intros Hq ->. apply elem_of_cons in Hq as [->|Hq].
  - destruct (ok_header _ _ _ Hok) as (nd & Hnd & _). unfold hd in Hx. congruence.
  - apply list_elem_of_fmap in Hq as (e & -> & He). apply list_elem_of_split in He as (l1 & l2 & E).
    pose proof (ok_chain _ _ _ Hok) as Hc. rewrite E in Hc. apply chain_lookup in Hc. congruence.
Qed.

Lemma stops_not_x k : x ∉ stops hd a k.
Proof.
  intros Hq%stops_elem. apply (used_not_x x); [|done]. by apply in_front.
Qed.

Context (en : ent) (Hen : e_loc en = x) (Hen_height : (1 <= e_height en <= zlevel zsl)%nat).
Context (Hsmall : Z.of_nat (length (a ++ b)) + 1 < 2 ^ 63).
Context (Hsorted : sorted (items (a ++ en :: b))).

(** The levels before and after, and those of the new node. *)
Definition ins_old (j : nat) : zskiplistLevel := fwd j (drop (above j a) a ++ b).
Definition ins_new (j : nat) : zskiplistLevel := fwd j (drop (above j a) a ++ en :: b).

Definition ins_heap : gmap loc zskiplistNode :=
  fix_back (Some x) b (<[x := node_of (last_ent None a) en b]> (relink h 0 (stops hd a n) ins_new)).

Lemma inserted_same : same_except h ins_heap (x :: hd :: locs (a ++ b)).
Proof.
  intros q Hq. unfold ins_heap. rewrite !not_elem_of_cons, fmap_app, not_elem_of_app in Hq.
  destruct Hq as (H1 & H2 & H3 & H4). rewrite fix_back_other, lookup_insert_ne, relink_other; [done| |done|done].
  intros Hq%stops_elem. apply elem_of_cons in Hq as [?|?]; done.
Qed.

Lemma inserted_ok :
  zsl_ok ins_heap (Zsl hd (last_ent None (a ++ en :: b)) (u64 (zlength zsl + 1)) n) (a ++ en :: b).
Proof.
  pose proof (ok_nodup _ _ _ Hok) as Hnd. pose proof used_not_x as Hux.
  assert (Hnb : NoDup (locs b)).
  { rewrite fmap_app in Hnd. apply NoDup_cons in Hnd as [_ Hnd]. by apply NoDup_app in Hnd as (_ & _ & ?). }
  assert (Hdisj : forall q, q ∈ hd :: locs a -> q ∉ locs b).
  { rewrite fmap_app, app_comm_cons in Hnd. by apply NoDup_app in Hnd as (_ & ? & _). }
  destruct (relinked zsl a b (en :: b) h ins_heap ins_new Hok) as [Hhd Hch].
  - done.
  - intros q Hq. unfold ins_heap. rewrite fix_back_other by auto.
    rewrite lookup_insert_ne; [done|]. intros E. apply (Hux q); [|done]. by apply in_front.
  - cbn [chain]. rewrite Hen. split.
    + unfold ins_heap. rewrite fix_back_other; [by rewrite lookup_insert_eq|].
      intros Hq. apply (Hux x); [|done]. by apply in_back.
    + unfold ins_heap. eapply fix_back_chain; [done|].
      pose proof (ok_chain _ _ _ Hok) as Hc. apply chain_app in Hc as [_ Hc].
      eapply chain_frame; [|exact Hc]. intros e He. apply (list_elem_of_fmap_2 e_loc) in He as Hel.
      rewrite lookup_insert_ne by (intros E; apply (Hux (e_loc e)); [by apply in_back|done]).
      apply relink_other. intros Hs%stops_elem. by apply (Hdisj _ Hs).
  - split; cbn [header zlevel tail zlength]; try done.
    + rewrite fmap_app. cbn [fmap list_fmap]. rewrite Hen. fold hd in Hnd. rewrite fmap_app in Hnd, Hux.
      rewrite <- Permutation_middle, Permutation_swap.
      apply NoDup_cons. split; [|done]. intros Hq. by apply (Hux x).
    + rewrite (ok_length _ _ _ Hok). rewrite !length_app. cbn [length].
      rewrite length_app in Hsmall. rewrite wrapu_small by cint. lia.
    + rewrite length_app in *. cbn [length] in *. lia.
    + apply Hok.
    + pose proof (ok_heights _ _ _ Hok) as Hh. apply Forall_app in Hh as [??]. apply Forall_app. split; [done|].
      by constructor.
Qed.
End insert.

(** ** The program *)

Lemma has_levels_relink us1 us2 f old : forall h i,
  has_levels h i (us1 ++ us2) old -> has_levels (relink h i us1 f) (i + length us1) us2 old.
Proof.
  induction us1 as [|u us1 IH]; intros h i H; cbn [app relink length] in *; [by rewrite Nat.add_0_r|].
  apply (has_levels_cons _ _ _ _ _ (f i)) in H as [_ H]. rewrite <- Nat.add_succ_comm. by apply IH.
Qed.

Lemma has_levels_insert h i us old x nx : x ∉ us -> has_levels h i us old -> has_levels (<[x := nx]> h) i us old.
Proof.
  intros Hx H j u Hu. destruct (H j u Hu) as (nd & Hnd & Hl). exists nd. split; [|done].
  rewrite lookup_insert_ne; [done|]. intros ->. apply Hx. by eapply list_elem_of_lookup_2.
Qed.

Lemma has_levels_app_l h i us1 us2 old : has_levels h i (us1 ++ us2) old -> has_levels h i us1 old.
Proof. intros H j u Hu. apply H. by apply lookup_app_l_Some. Qed.

Section link.
Context (zsl : zskiplist) (a b : list ent) (en : ent).
Context (Hsmall : Z.of_nat (length (a ++ b)) + 1 < 2 ^ 63) (Ha : Forall (λ e, (1 <= e_height e)%nat) a).

Lemma gap j : u64 (Z.of_nat (above 0 a) - Z.of_nat (above j a)) = Z.of_nat (length (drop (above j a) a)).
Proof.
  rewrite above_all by done. rewrite length_drop. pose proof (above_le j a). rewrite length_app in Hsmall.
  rewrite wrapu_small by cint. lia.
Qed.

(** The arithmetic of [link_loop] and [widen_loop]. *)
Lemma link_new j : (j < e_height en)%nat ->
  fwd j b = Level (forward (ins_old a b j)) (u64 (span (ins_old a b j) - u64 (Z.of_nat (above 0 a) - Z.of_nat (above j a)))) /\
  ins_new a b en j = Level (Some (e_loc en)) (u64 (u64 (Z.of_nat (above 0 a) - Z.of_nat (above j a)) + 1)).
Proof.
  intros Hj. rewrite gap. unfold ins_old, ins_new. destruct (above_ends j a) as [_ Hlow].
  rewrite fwd_first, fwd_skip by done. cbn [forward span]. pose proof (fwd_span j b) as Hsp.
  rewrite length_drop, length_app in *.
  rewrite Z.add_simpl_r, !wrapu_small by cint. split; [by destruct (fwd j b)|done].
Qed.

Lemma widen_new j : (e_height en <= j)%nat ->
  ins_new a b en j = Level (forward (ins_old a b j)) (u64 (span (ins_old a b j) + 1)).
Proof.
  intros Hj. unfold ins_old, ins_new. destruct (above_ends j a) as [_ Hlow].
  rewrite !fwd_skip by done. cbn [fwd]. rewrite (proj2 (Nat.ltb_ge _ _)) by done. cbn [forward span].
  pose proof (fwd_span j b) as Hsp. rewrite length_drop, length_app in *.
  rewrite wrapu_small by cint. f_equal. lia.
Qed.
End link.

Lemma update_lookup zsl a n j u r : update_of zsl a n !! j = Some (u, r) ->
  (j < n)%nat /\ u = x_of (header zsl) (take (above j a) a) /\ r = Z.of_nat (above j a).
Proof.
  unfold update_of. intros Hj. pose proof (lookup_lt_Some _ _ _ Hj) as Hlt. rewrite length_fmap, length_seq in Hlt.
  rewrite list_lookup_fmap, lookup_seq_lt in Hj by done. cbn in Hj. by injection Hj as <- <-.
Qed.

Lemma wp_link zsl a b en h fr nx (Q : unit -> zmem -> Prop) :
  zsl_ok h zsl (a ++ b) -> Z.of_nat (length (a ++ b)) + 1 < 2 ^ 63 -> h !! e_loc en = None ->
  (1 <= e_height en <= zlevel zsl)%nat -> length (level nx) = e_height en ->
  Q tt (ZMem (<[e_loc en := ZNode (ele nx) (score nx) (backward nx) ((λ j, fwd j b) <$> seq 0 (e_height en))]>
                (relink h 0 (stops (header zsl) a (zlevel zsl)) (ins_new a b en))) fr) ->
  let update := update_of zsl a (zlevel zsl) in
  wp (link_loop (e_loc en) (Z.of_nat (above 0 a)) 0 (take (e_height en) update))
    (ZMem (<[e_loc en := nx]> h) fr)
    (λ _ m, wp (widen_loop (e_height en) (drop (e_height en) update)) m Q).
Proof.
  intros Hok Hsmall Hx Hht Hlen HQ update. set (ht := e_height en) in *. set (x := e_loc en) in *.
  assert (Ha : Forall (λ e, (1 <= e_height e)%nat) a).
  { pose proof (ok_heights _ _ _ Hok) as Hh. apply Forall_app in Hh as [Hh _]. eapply Forall_impl; [exact Hh|]. cbn. lia. }
  pose proof (stops_levels h zsl a b (zlevel zsl) Hok ltac:(done)) as Hold. fold (ins_old a b) in Hold.
  pose proof (stops_not_x zsl a b h x Hok Hx (zlevel zsl)) as Hxs.
  rewrite <- stops_update in Hold, Hxs, HQ. fold update in Hold, Hxs, HQ.
  rewrite <- (take_drop ht update), fmap_app in Hold, Hxs, HQ. rewrite relink_app in HQ.
  assert (Hlu : length (take ht update).*1 = ht).
  { rewrite length_fmap. apply length_take_le. unfold update. rewrite length_update. lia. }
  rewrite Hlu in HQ. apply not_elem_of_app in Hxs as [Hx1 Hx2].
  eapply (wp_link_loop x _ (ins_old a b) (λ j, fwd j b) (ins_new a b en)).
  - by eapply has_levels_app_l.
  - done.
  - rewrite Hlen. rewrite length_fmap in Hlu. by rewrite Hlu.
  - by rewrite take_0.
  - intros j u r Hj. pose proof (lookup_lt_Some _ _ _ Hj) as Hjl. rewrite length_fmap in Hlu. rewrite Hlu in Hjl.
    rewrite lookup_take_Some in Hj. destruct Hj as [Hj _]. apply update_lookup in Hj as (_ & _ & ->).
    cbn. by apply link_new.
  - rewrite length_fmap in Hlu. rewrite Hlu. cbn [plus Nat.add].
    eapply (wp_widen_loop (ins_old a b) (ins_new a b en)).
    + cbn [heap]. apply has_levels_insert; [done|]. rewrite <- Hlu at 2. rewrite <- (length_fmap fst).
      by apply has_levels_relink.
    + intros j Hj. apply widen_new; [done|lia].
    + cbn [heap freed]. by rewrite relink_insert.
Qed.

Lemma sorted_insert a b it : sorted (a ++ b) -> isnan it.1 = false ->
  Forall (λ x, ilt x it) a -> Forall (ilt it) b -> sorted (a ++ it :: b).
Proof.
  intros [Hs Hn] Hit Ha Hb. split.
  - apply StronglySorted_app in Hs as (Hab & Hsa & Hsb). apply StronglySorted_app. split_and!; [|done|by constructor].
    intros x y Hx Hy. apply elem_of_cons in Hy as [->|Hy]; [|by apply Hab]. rewrite Forall_forall in Ha. by apply Ha.
  - apply Forall_app in Hn as [Hna Hnb]. apply Forall_app. split; [done|]. by constructor.
Qed.

Lemma last_ent_is_x hd a : NoDup (hd :: locs a) ->
  (if bool_decide (x_of hd a = hd) then None else Some (x_of hd a)) = last_ent None a.
Proof.
  intros Hnd. destruct a as [|e a _] using rev_ind; [by rewrite bool_decide_true|].
  rewrite x_of_snoc, last_ent_snoc, bool_decide_false; [done|]. intros E. apply NoDup_cons in Hnd as [Hnd _].
  apply Hnd. rewrite <- E, fmap_app. apply elem_of_app. right. by left.
Qed.

Lemma update_first zsl a n : (1 <= n)%nat -> Forall (λ e, (1 <= e_height e)%nat) a ->
  exists rest, update_of zsl a n = (x_of (header zsl) a, Z.of_nat (above 0 a)) :: rest.
Proof.
  intros Hn Ha. destruct n as [|n]; [lia|]. unfold update_of. cbn [seq fmap list_fmap].
  rewrite above_all, take_ge by done. by eexists.
Qed.

Lemma fwd_0 b : Forall (λ e, (1 <= e_height e)%nat) b -> forward (fwd 0 b) = match b with [] => None | e :: _ => Some (e_loc e) end.
Proof. destruct 1 as [|e b He Hb]; cbn [fwd]; [done|]. by rewrite (proj2 (Nat.ltb_lt _ _)) by lia. Qed.

Lemma wp_fix_back p b n m (Q : unit -> zmem -> Prop) :
  heap m !! p = Some n ->
  Q tt (ZMem (alter (λ n, ZNode (ele n) (score n) b (level n)) p (heap m)) (freed m)) -> wp (set_backward p b) m Q.
Proof.
  intros Hp HQ. eapply wp_set_backward; [exact Hp|].
  by rewrite <- (alter_is_insert (λ n, ZNode (ele n) (score n) b (level n))).
Qed.

(** From the raised list on. *)
Lemma wp_zslInsert_tail zsl a b draws s e h fr (Q : zskiplist * loc -> zmem -> Prop) :
  let lv := zslRandomLevel draws in
  let update := update_of zsl a (zlevel zsl) in
  zsl_ok h zsl (a ++ b) -> (lv <= zlevel zsl)%nat -> isnan s = false ->
  Forall (λ x, ilt x (s, e)) (items a) -> Forall (ilt (s, e)) (items b) ->
  Z.of_nat (length (a ++ b)) + 1 < 2 ^ 63 ->
  (forall x h' zsl', h !! x = None -> zsl_ok h' zsl' (a ++ Ent x lv (s, e) :: b) -> header zsl' = header zsl ->
     same_except h h' (x :: header zsl :: locs (a ++ b)) -> Q (zsl', x) (ZMem h' fr)) ->
  wp (x ← zslCreateNode lv s (Some e);
      match update with
      | [] => fail
      | (u0, rank0) :: _ =>
          link_loop x rank0 0 (take lv update);;
          widen_loop lv (drop lv update);;
          set_backward x (if bool_decide (u0 = header zsl) then None else Some u0);;
          l0 ← level_at x 0;
          match forward l0 with
          | Some p =>
              set_backward p (Some x);;
              mret (Zsl (header zsl) (tail zsl) (u64 (zlength zsl + 1)) (zlevel zsl), x)
          | None => mret (Zsl (header zsl) (Some x) (u64 (zlength zsl + 1)) (zlevel zsl), x)
          end
      end) (ZMem h fr) Q.
Proof.
  intros lv update Hok Hlv Hs Ha Hb Hsmall HQ. pose proof (zslRandomLevel_range draws) as Hr. fold lv in Hr.
  pose proof (ok_heights _ _ _ Hok) as Hh. apply Forall_app in Hh as [Hha Hhb].
  assert (Hha1 : Forall (λ e, (1 <= e_height e)%nat) a) by (eapply Forall_impl; [exact Hha|]; cbn; lia).
  assert (Hhb1 : Forall (λ e, (1 <= e_height e)%nat) b) by (eapply Forall_impl; [exact Hhb|]; cbn; lia).
  assert (Hnda : NoDup (header zsl :: locs a)).
  { pose proof (ok_nodup _ _ _ Hok) as Hnd. rewrite fmap_app, app_comm_cons in Hnd. by apply NoDup_app in Hnd as (? & _). }
  apply wp_bind, wp_zalloc. cbn [heap freed]. intros x Hx. set (en := Ent x lv (s, e)).
  destruct (update_first zsl a (zlevel zsl) ltac:(lia) Hha1) as [rest Hup]. fold update in Hup.
  rewrite Hup at 1. apply wp_bind.
  eapply wp_mono; [eapply (wp_link zsl a b en h fr (ZNode (Some e) s None (replicate lv (Level None 0))) _ Hok Hsmall Hx)|intros ? ? Hw; apply wp_bind; exact Hw].
  { cbn. lia. }
  { apply length_replicate. }
  cbn [ele score backward e_loc e_height en]. rewrite last_ent_is_x by done.
  eapply wp_bind, wp_set_backward; [cbn; by rewrite lookup_insert_eq|]. cbn [heap freed ele score level].
  rewrite insert_insert_eq.
  eapply wp_bind, wp_level_at; [cbn; by rewrite lookup_insert_eq|cbn; by rewrite list_lookup_fmap, lookup_seq_lt by lia|].
  cbn beta. rewrite fwd_0 by done.
  pose proof (inserted_same zsl a b h x en) as Hsame.
  pose proof (inserted_ok zsl a b h x Hok Hx en eq_refl ltac:(cbn; lia) Hsmall) as Hins.
  assert (Hso : sorted (items (a ++ en :: b))).
  { rewrite fmap_app, fmap_cons. apply (sorted_insert (items a) (items b) (s, e)); [rewrite <- fmap_app; apply Hok|done..]. }
  specialize (Hins Hso).
  unfold ins_heap, node_of in Hsame, Hins. cbn [e_item e_height en fst snd] in Hsame, Hins.
  destruct b as [|eb b].
  - apply wp_ret. eapply HQ; [exact Hx| |done|exact Hsame]. rewrite last_ent_snoc in Hins. exact Hins.
  - pose proof (ok_chain _ _ _ Hins) as Hc. rewrite cons_middle, app_assoc in Hc. apply chain_lookup in Hc.
    cbn [fix_back] in Hc, Hsame, Hins. apply lookup_alter_Some in Hc as [(_ & nb & Hnb & _)|[[] _]]; [|done].
    eapply wp_bind, wp_fix_back; [exact Hnb|]. apply wp_ret. cbn [heap freed].
    eapply HQ; [exact Hx| |done|exact Hsame].
    rewrite (ok_tail _ _ _ Hok). rewrite !last_ent_app, !last_ent_cons in *. exact Hins.
Qed.

Theorem wp_zslInsert zsl a b draws s e m (Q : zskiplist * loc -> zmem -> Prop) :
  zsl_ok (heap m) zsl (a ++ b) -> isnan s = false ->
  Forall (λ x, ilt x (s, e)) (items a) -> Forall (ilt (s, e)) (items b) ->
  Z.of_nat (length (a ++ b)) + 1 < 2 ^ 63 ->
  (forall x h' zsl', heap m !! x = None -> zsl_ok h' zsl' (a ++ Ent x (zslRandomLevel draws) (s, e) :: b) ->
     header zsl' = header zsl -> same_except (heap m) h' (x :: header zsl :: locs (a ++ b)) ->
     Q (zsl', x) (ZMem h' (freed m))) ->
  wp (zslInsert zsl draws s e) m Q.
Proof.
  intros Hok Hs Ha Hb Hsmall HQ. unfold zslInsert. rewrite Hs. pose proof (zslRandomLevel_range draws) as Hr.
  set (lv := zslRandomLevel draws) in *.
  apply wp_bind. change (less_than (s, e)) with (λ n (_ : Z), item_ltb (item_of n) (s, e)).
  apply (wp_search zsl (a ++ b) m (λ it _, item_ltb it (s, e)) a b); [done| |].
  { apply splits_less; [done|apply Hok|done|done|]. eapply Forall_impl; [exact Hb|]. intros x. apply ilt_asym. }
  pose proof (ok_level _ _ _ Hok) as Hl.
  apply wp_bind. eapply (wp_raise_loop zsl (a ++ b)); [by destruct zsl|lia|]. intros h1 Hok1 Hsame1. cbn zeta.
  assert (Hmax : (zlevel zsl + (lv - zlevel zsl) = zlevel zsl `max` lv)%nat) by lia. rewrite Hmax in Hok1.
  rewrite (update_raise zsl (zlevel zsl `max` lv)), Hmax.
  2:{ pose proof (ok_heights _ _ _ Hok) as Hh. apply Forall_app in Hh as [Hh _]. eapply Forall_impl; [exact Hh|]. cbn. lia. }
  eapply (wp_zslInsert_tail (with_zlevel zsl (zlevel zsl `max` lv)) a b draws s e); [done|cbn; lia|done..|].
  intros x h' zsl' Hx Hok' Hhd' Hsame.
  assert (Hxm : x ∉ [header zsl]).
  { intros ->%list_elem_of_singleton. destruct (ok_header _ _ _ Hok1) as (nd & Hnd & _). cbn in Hnd. congruence. }
  apply HQ; [by rewrite <- (Hsame1 _ Hxm)|done|done|].
  eapply same_except_mono; [by eapply same_except_trans|]. cbn. intros q. rewrite !elem_of_cons. tauto.
Qed.

(** * Deletion from the skiplist: unlinking a node, and the operations built on it *)

(** ** The heap after unlinking *)

Lemma take_stops hd a n k : (k <= n)%nat -> take k (stops hd a n) = stops hd a k.
Proof. intros Hk. unfold stops. rewrite <- fmap_take, take_seq. by rewrite Nat.min_l. Qed.

Section unlink.
Context (zsl : zskiplist) (a b : list ent) (e : ent) (h : gmap loc zskiplistNode).
Context (Hok : zsl_ok h zsl (a ++ e :: b)).

Let hd := header zsl.
Let n := zlevel zsl.
Let x := e_loc e.

Definition del_new (j : nat) : zskiplistLevel := fwd j (drop (above j a) a ++ b).
Definition del_heap : gmap loc zskiplistNode :=
  fix_back (last_ent None a) b (relink h 0 (stops hd a n) del_new).

(** The addresses are different. *)
Lemma unlink_disjoint : NoDup (hd :: locs a) /\ NoDup (locs b) /\ (x ∉ hd :: locs a) /\ (x ∉ locs b) /\
  (forall q, q ∈ hd :: locs a -> q ∉ locs b).
Proof.
  pose proof (ok_nodup _ _ _ Hok) as Hnd. rewrite fmap_app, app_comm_cons, fmap_cons in Hnd.
  apply NoDup_app in Hnd as (Ha & Hab & Hb). apply NoDup_cons in Hb as [Hxb Hb].
  split_and!; [done|done| |done|].
  - intros Hq. apply (Hab _ Hq). by left.
  - intros q Hq Hq'. apply (Hab _ Hq). by right.
Qed.

Lemma sorted_remove a' it b' : sorted (a' ++ it :: b') -> sorted (a' ++ b').
Proof.
  intros [Hs Hn]. split.
  - apply StronglySorted_app in Hs as (Hab & Hsa & Hsb). apply StronglySorted_inv in Hsb as [Hsb _].
    apply StronglySorted_app. split_and!; [|done..]. intros y z Hy Hz. apply Hab; [done|by right].
  - apply Forall_app in Hn as [Hna Hnb]. apply Forall_cons in Hnb as [_ Hnb]. by apply Forall_app.
Qed.

Lemma unlinked_same : same_except h del_heap (hd :: locs (a ++ b)).
Proof.
  intros q Hq. unfold del_heap. rewrite fix_back_other, relink_other; [done| |].
  - intros Hs%stops_elem. apply Hq. by apply in_front.
  - intros Hb. apply Hq. by apply in_back.
Qed.

Lemma unlinked_node : del_heap !! x = Some (node_of (last_ent None a) e b).
Proof.
  destruct unlink_disjoint as (_ & _ & Hxa & Hxb & _). rewrite unlinked_same.
  - apply (chain_lookup _ _ _ _ _ (ok_chain _ _ _ Hok)).
  - rewrite fmap_app, app_comm_cons. by apply not_elem_of_app.
Qed.

Lemma unlinked_ok :
  zsl_ok del_heap (Zsl hd (last_ent None (a ++ b)) (u64 (zlength zsl - 1)) n) (a ++ b).
Proof.
  destruct unlink_disjoint as (Hna & Hnb & Hxa & Hxb & Hdisj).
  destruct (relinked zsl a (e :: b) b h del_heap del_new Hok) as [Hhd Hch].
  - done.
  - intros q Hq. unfold del_heap. by rewrite fix_back_other by auto.
  - unfold del_heap. eapply fix_back_chain; [done|].
    pose proof (ok_chain _ _ _ Hok) as Hc. rewrite cons_middle, app_assoc in Hc. apply chain_app in Hc as [_ Hc].
    eapply chain_frame; [|exact Hc]. intros e' He. apply (list_elem_of_fmap_2 e_loc) in He.
    apply relink_other. intros Hs%stops_elem. by apply (Hdisj _ Hs).
  - assert (Hlen : length (a ++ e :: b) = S (length (a ++ b))) by (rewrite !length_app; cbn; lia).
    pose proof (ok_small _ _ _ Hok) as Hsmall. rewrite Hlen in Hsmall.
    split; cbn [header zlevel tail zlength]; try done.
    + rewrite fmap_app, app_comm_cons. by apply NoDup_app.
    + rewrite (ok_length _ _ _ Hok), Hlen. rewrite wrapu_small by cint. lia.
    + lia.
    + apply Hok.
    + pose proof (ok_heights _ _ _ Hok) as Hh. apply Forall_app in Hh as [? Hh]. apply Forall_cons in Hh as [_ Hh].
      by apply Forall_app.
    + pose proof (ok_sorted _ _ _ Hok) as Hs. rewrite fmap_app, fmap_cons in Hs. rewrite fmap_app.
      by eapply sorted_remove.
Qed.

(** The arithmetic of [unlink_loop]. *)
Lemma unlink_new j : (j < n)%nat ->
  let old := fwd j (drop (above j a) a ++ e :: b) in
  if bool_decide (forward old = Some x) then
    exists lx, level (node_of (last_ent None a) e b) !! j = Some lx /\
      del_new j = Level (forward lx) (u64 (span old + u64 (span lx - 1)))
  else del_new j = Level (forward old) (u64 (span old - 1)).
Proof.
  intros Hj old. destruct (above_ends j a) as [_ Hlow]. unfold old, del_new.
  pose proof (fwd_span j b) as Hsp. pose proof (ok_small _ _ _ Hok) as Hsmall.
  assert (Hd : (length (drop (above j a) a) <= length a)%nat) by (rewrite length_drop; lia).
  rewrite length_app in Hsmall. cbn [length] in Hsmall. rewrite !fwd_skip by done. cbn [fwd].
  destruct (Nat.ltb_spec j (e_height e)) as [Hlt|Hge]; cbn [forward span].
  - rewrite bool_decide_true by done. exists (fwd j b). split; [by apply node_level|]. f_equal.
    unfold wrapu. rewrite Zplus_mod_idemp_r, Z.mod_small by cint. lia.
  - rewrite bool_decide_false.
    + f_equal. rewrite wrapu_small by cint. lia.
    + intros Hf. destruct unlink_disjoint as (_ & _ & _ & Hxb & _). apply Hxb.
      destruct (split_first j b) as [Hb|(b1 & e' & b2 & -> & Hb1 & He')].
      * by rewrite fwd_none in Hf.
      * rewrite fwd_first in Hf by done. injection Hf as <-. rewrite fmap_app. apply elem_of_app. right. by left.
Qed.
End unlink.

(** ** The program *)

Lemma wp_lower_loop zsl es m (Q : nat -> zmem -> Prop) : forall lv,
  zsl_ok (heap m) (with_zlevel zsl lv) es ->
  (forall lv', (lv' <= lv)%nat -> zsl_ok (heap m) (with_zlevel zsl lv') es -> Q lv' m) ->
  wp (lower_loop (header zsl) lv) m Q.
Proof.
  induction lv as [|[|lv] IH]; intros Hok HQ; [by apply wp_ret, HQ..|]. cbn [lower_loop].
  destruct (ok_header _ _ _ Hok) as (nd & Hnd & [H1 H2 H3 H4 H5]). cbn in Hnd, H4, H5.
  eapply wp_bind, wp_level_at; [exact Hnd|apply H4; lia|].
  destruct (forward (fwd (S lv) es)) eqn:Hf; [by apply wp_ret, HQ|].
  apply IH; [|intros lv' Hlv'; apply HQ; lia].
  assert (Hlow : Forall (λ e, (e_height e <= S lv)%nat) es).
  { destruct (split_first (S lv) es) as [?|(b1 & e' & b2 & -> & Hb1 & He')]; [done|]. by rewrite fwd_first in Hf. }
  pose proof (ok_level _ _ _ Hok) as Hlv. pose proof (ok_heights _ _ _ Hok) as Hht. cbn in Hlv, Hht.
  destruct Hok. split; cbn in *; try done; [|lia|].
  - exists nd. split; [done|]. split; [done..| |].
    + intros i Hi. apply H4. lia.
    + intros i Hi. destruct (Nat.eq_dec i (S lv)) as [->|]; [|apply H5; lia].
      rewrite H4 by lia. destruct (fwd (S lv) es) as [f s]. cbn in Hf. subst f. by exists s.
  - rewrite Forall_forall in *. intros e He. specialize (Hlow e He). specialize (Hht e He). cbn in *. lia.
Qed.

Lemma wp_zslDeleteNode zsl a e b update m (Q : zskiplist -> zmem -> Prop) :
  zsl_ok (heap m) zsl (a ++ e :: b) ->
  take (zlevel zsl) update = stops (header zsl) a (zlevel zsl) ->
  (forall zsl' h', zsl_ok h' zsl' (a ++ b) -> header zsl' = header zsl -> (zlevel zsl' <= zlevel zsl)%nat ->
     h' !! e_loc e = Some (node_of (last_ent None a) e b) -> same_except (heap m) h' (header zsl :: locs (a ++ b)) ->
     Q zsl' (ZMem h' (freed m))) ->
  wp (zslDeleteNode zsl (e_loc e) update) m Q.
Proof.
  intros Hok Hup HQ. unfold zslDeleteNode. rewrite Hup.
  destruct (unlink_disjoint zsl a b e _ Hok) as (_ & _ & Hxa & Hxb & _).
  pose proof (chain_lookup _ _ _ _ _ (ok_chain _ _ _ Hok)) as Hx.
  pose proof (ok_heights _ _ _ Hok) as Hh. apply Forall_app in Hh as [_ Hh]. apply Forall_cons in Hh as [Hhe Hhb].
  assert (Hhb1 : Forall (λ e, (1 <= e_height e)%nat) b) by (eapply Forall_impl; [exact Hhb|]; cbn; lia).
  assert (Hxs : e_loc e ∉ stops (header zsl) a (zlevel zsl)) by (by intros Hs%stops_elem).
  apply wp_bind. eapply (wp_unlink_loop _ _ _ (del_new a b)); [by apply stops_levels|done|exact Hx| |].
  { intros j Hj. unfold stops in Hj. rewrite length_fmap, length_seq in Hj. by eapply unlink_new. }
  pose proof (unlinked_ok zsl a b e _ Hok) as Hdel. pose proof (unlinked_same zsl a b (heap m)) as Hsame.
  pose proof (unlinked_node zsl a b e _ Hok) as Hnode. unfold del_heap in Hdel, Hsame, Hnode.
  set (h1 := relink (heap m) 0 _ _) in *.
  assert (Hx1 : h1 !! e_loc e = Some (node_of (last_ent None a) e b)) by (unfold h1; by rewrite relink_other).
  eapply wp_bind, wp_level_at; [exact Hx1|apply node_level; cbn in Hhe; lia|].
  eapply wp_bind, wp_zget; [exact Hx1|]. rewrite fwd_0 by done. apply wp_bind. cbn [backward node_of].
  assert (Hfin : wp (lv ← lower_loop (header zsl) (zlevel zsl);
                     mret (Zsl (header zsl) (last_ent None (a ++ b)) (u64 (zlength zsl - 1)) lv))
                    (ZMem (fix_back (last_ent None a) b h1) (freed m)) Q).
  { apply wp_bind. eapply (wp_lower_loop (Zsl (header zsl) (last_ent None (a ++ b)) (u64 (zlength zsl - 1)) (zlevel zsl)) _ (ZMem _ _)); [exact Hdel|]. intros lv' Hlv' Hok'. apply wp_ret.
    by eapply HQ. }
  destruct b as [|eb b].
  - apply wp_ret. rewrite app_nil_r in Hfin. exact Hfin.
  - pose proof (ok_chain _ _ _ Hdel) as Hc. apply chain_lookup in Hc.
    cbn [fix_back] in Hc. apply lookup_alter_Some in Hc as [(_ & nb & Hnb & _)|[[] _]]; [|done].
    eapply wp_bind, wp_fix_back; [exact Hnb|]. apply wp_ret.
    rewrite (ok_tail _ _ _ Hok). rewrite !last_ent_app, !last_ent_cons in *. exact Hfin.
Qed.

Lemma wp_zslFreeNode p n m (Q : unit -> zmem -> Prop) : heap m !! p = Some n ->
  Q tt (ZMem (delete p (heap m)) (match ele n with Some e => freed m ++ [e] | None => freed m end)) ->
  wp (zslFreeNode p) m Q.
Proof. intros Hp HQ. eapply wp_bind, wp_zget; [exact Hp|]. apply wp_bind, wp_get. by apply wp_put. Qed.

(** Freeing a node that is not of the list. *)
Lemma zsl_ok_frame h h' zsl es : zsl_ok h zsl es -> (forall q, q ∈ header zsl :: locs es -> h' !! q = h !! q) -> zsl_ok h' zsl es.
Proof.
  intros [? ? ? ? ? ? ? ? ?] Hq. split; try done.
  - rewrite Hq by (by left). done.
  - eapply chain_frame; [|done]. intros e He. apply Hq. right. by apply list_elem_of_fmap_2.
Qed.

Lemma wp_next_of zsl es a b m (Q : option loc -> zmem -> Prop) n :
  zsl_ok (heap m) zsl es -> es = a ++ b -> (1 <= n)%nat ->
  Q (match b with [] => None | e :: _ => Some (e_loc e) end) m ->
  wp (next_of zsl (update_of zsl a n)) m Q.
Proof.
  intros Hok -> Hn HQ. pose proof (ok_heights _ _ _ Hok) as Hh. apply Forall_app in Hh as [Hha Hhb].
  assert (Hha1 : Forall (λ e, (1 <= e_height e)%nat) a) by (eapply Forall_impl; [exact Hha|]; cbn; lia).
  assert (Hhb1 : Forall (λ e, (1 <= e_height e)%nat) b) by (eapply Forall_impl; [exact Hhb|]; cbn; lia).
  unfold next_of. destruct (update_first zsl a n Hn Hha1) as [rest ->].
  destruct (level_after zsl (a ++ b) (heap m) a b 0 Hok eq_refl) as (nd & Hnd & Hl).
  - destruct a as [|e a _] using rev_ind; [by left|right]. exists a, e. split; [done|].
    apply Forall_app in Hha1 as [_ He]. apply Forall_cons in He as [He _]. cbn in He. lia.
  - pose proof (ok_level _ _ _ Hok). lia.
  - eapply wp_bind, wp_level_at; [exact Hnd|exact Hl|]. apply wp_ret. by rewrite fwd_0.
Qed.
