(* ===== verification/ZslSpec.v ===== *)
(** The sorted set as a sorted list of items: insertion, deletion and update.

    [zset m zsl l]: the memory [m] holds exactly the nodes of the skiplist [zsl],
    which stands for the items [l]; so an operation that leaks a node, or frees one
    that is in use, does not preserve it. *)

From stdpp Require Import gmap.
From S2P Require Import Prelude State ZslOrder Zsl ZslInv ZslOps ZslIns.

Local Open Scope Z_scope.

(** ** Representation *)

Definition owned (zsl : zskiplist) (es : list ent) : list loc := header zsl :: locs es.

Definition holds (m : zmem) (zsl : zskiplist) (es : list ent) : Prop :=
  zsl_ok (heap m) zsl es /\ (forall q, is_Some (heap m !! q) <-> q ∈ owned zsl es).

Definition zset (m : zmem) (zsl : zskiplist) (l : list item) : Prop := exists es, holds m zsl es /\ items es = l.

(** Insertion into a sorted list. *)
Fixpoint insert_item (it : item) (l : list item) : list item :=
  match l with
  | [] => [it]
  | x :: l' => if item_ltb x it then x :: insert_item it l' else it :: l
  end.

(** Same score and same bytes, as the code compares them. *)
Definition is_item (it x : item) : bool := deq it.1 x.1 && (sdscmp x.2 it.2 =? 0).

Definition remove_item (it : item) (l : list item) : list item := filter (λ x, is_item it x = false) l.

Lemma is_item_spec it x : isnan it.1 = false -> isnan x.1 = false -> is_item it x = true <-> same_item x it.
Proof.
  intros H1 H2. unfold is_item, same_item. rewrite andb_true_iff, Z.eqb_eq, sdscmp_eq, deq_key by done.
  split; intros [? ?]; done.
Qed.

Lemma is_item_false it x : isnan it.1 = false -> isnan x.1 = false -> ~ same_item x it -> is_item it x = false.
Proof. intros H1 H2 H. apply not_true_iff_false. by rewrite is_item_spec. Qed.

Lemma same_item_irr a b : same_item a b -> ~ ilt a b.
Proof. intros [E1 E2] [H|[_ H]]; [rewrite E1 in H; by eapply klt_irrefl|rewrite E2 in H; by eapply blt_irrefl]. Qed.

Lemma sorted_nan l it : sorted l -> it ∈ l -> isnan it.1 = false.
Proof. intros [_ H]. rewrite Forall_forall in H. apply H. Qed.

Lemma sorted_app a b : sorted (a ++ b) -> sorted a /\ sorted b.
Proof.
  intros [Hs Hn]. apply StronglySorted_app in Hs as (_ & ? & ?). apply Forall_app in Hn as [? ?]. by split; split.
Qed.

(** A sorted list splits at an item. *)
Lemma sorted_split es it : sorted (items es) -> isnan it.1 = false ->
  exists a b, es = a ++ b /\ Forall (λ x, ilt x it) (items a) /\ Forall (λ x, ~ ilt x it) (items b).
Proof.
  intros Hs Hit. induction es as [|e es IH]; [by exists [], []|].
  destruct Hs as [Hs Hn]. rewrite fmap_cons in *.
  apply StronglySorted_inv in Hs as [Hs Hlt]. apply Forall_cons in Hn as [He Hn].
  destruct (decide (item_ltb (e_item e) it = true)) as [H|H].
  - destruct IH as (a & b & -> & Ha & Hb); [by split|]. exists (e :: a), b. split; [done|]. split; [|done].
    rewrite fmap_cons. constructor; [by apply item_ltb_spec|done].
  - rewrite item_ltb_spec in H by done. exists [], (e :: es). split; [done|]. split; [constructor|].
    rewrite fmap_cons. constructor; [done|]. eapply Forall_impl; [exact Hlt|]. intros x Hx Hxi. apply H. by eapply ilt_trans.
Qed.

Lemma not_less it x : ~ ilt x it -> ~ same_item x it -> ilt it x.
Proof. intros H1 H2. destruct (ilt_total x it) as [?|[?|?]]; done. Qed.

Lemma insert_item_split a b it : Forall (λ x, isnan x.1 = false) (a ++ b) -> isnan it.1 = false ->
  Forall (λ x, ilt x it) a -> Forall (λ x, ~ ilt x it) b -> insert_item it (a ++ b) = a ++ it :: b.
Proof.
  intros Hn Hit Ha Hb. induction Ha as [|x a Hx Ha IH]; cbn [app insert_item] in *.
  - destruct Hb as [|x b Hx Hb]; [done|]. cbn. apply Forall_cons in Hn as [Hn _]. by rewrite item_ltb_false.
  - apply Forall_cons in Hn as [Hnx Hn]. rewrite (proj2 (item_ltb_spec x it Hnx Hit) Hx). by rewrite IH.
Qed.

(** The nodes of the list are allocated: it is enough that nothing else is. *)
Lemma owned_all h zsl es : zsl_ok h zsl es -> (forall q, is_Some (h !! q) -> q ∈ owned zsl es) ->
  forall q, is_Some (h !! q) <-> q ∈ owned zsl es.
Proof.
  intros Hok Hown q. split; [apply Hown|]. intros Hin. apply elem_of_cons in Hin as [->|Hin].
  - destruct (ok_header _ _ _ Hok) as (nd & Hnd & _). by exists nd.
  - apply list_elem_of_fmap in Hin as (e & -> & He). apply list_elem_of_split in He as (l1 & l2 & ->).
    pose proof (ok_chain _ _ _ Hok) as Hc. apply chain_lookup in Hc. rewrite Hc. by eexists.
Qed.

Lemma holds_intro m zsl es : zsl_ok (heap m) zsl es ->
  (forall q, is_Some (heap m !! q) -> q ∈ owned zsl es) -> holds m zsl es.
Proof. intros Hok Hown. split; [done|]. by apply owned_all. Qed.

Lemma zset_sorted m zsl l : zset m zsl l -> sorted l.
Proof. intros (es & [Hok _] & <-). apply Hok. Qed.

(** ** Insertion *)

Lemma zslInsert_holds m zsl es draws s e :
  holds m zsl es -> isnan s = false -> Forall (λ x, ~ same_item x (s, e)) (items es) ->
  Z.of_nat (length es) + 1 < 2 ^ 63 ->
  wp (zslInsert zsl draws s e) m (λ '(zsl', x) m', exists es',
    holds m' zsl' es' /\ items es' = insert_item (s, e) (items es) /\
    es' ≡ₚ Ent x (zslRandomLevel draws) (s, e) :: es /\ freed m' = freed m).
Proof.
  intros [Hok Hown] Hs Hnew Hsmall.
  destruct (sorted_split es (s, e) (ok_sorted _ _ _ Hok) Hs) as (a & b & -> & Ha & Hb).
  pose proof (proj2 (ok_sorted _ _ _ Hok)) as Hn. rewrite fmap_app in *. apply Forall_app in Hnew as [_ Hnew].
  apply wp_zslInsert with (a := a) (b := b); [done|done|done| |done|].
  { rewrite Forall_forall in *. intros x Hx. apply not_less; auto. }
  intros x h' zsl' Hx Hok' Hhd Hsame. eexists. rewrite insert_item_split by done. split_and!.
  - apply holds_intro; [exact Hok'|]. intros q Hq. cbn in Hq. unfold owned. rewrite fmap_app, fmap_cons, Hhd. cbn [e_loc].
    destruct (decide (q ∈ x :: header zsl :: locs (a ++ b))) as [Hin|Hout].
    + rewrite fmap_app, !elem_of_cons, elem_of_app in Hin. rewrite elem_of_cons, elem_of_app, elem_of_cons. tauto.
    + rewrite Hsame in Hq by done. apply Hown in Hq. destruct Hout. by right.
  - by rewrite fmap_app, fmap_cons.
  - by rewrite <- Permutation_middle.
  - done.
Qed.

(** The node of an entry. *)
Lemma holds_node m zsl es x : holds m zsl es -> x ∈ es -> item_of <$> heap m !! e_loc x = Some (e_item x).
Proof.
  intros [Hok _] Hx. apply list_elem_of_split in Hx as (l1 & l2 & ->). pose proof (ok_chain _ _ _ Hok) as Hc.
  apply chain_lookup in Hc. rewrite Hc. cbn. by rewrite item_of_node.
Qed.

Lemma zslInsert_zset m zsl l draws s e :
  zset m zsl l -> isnan s = false -> Forall (λ x, ~ same_item x (s, e)) l -> Z.of_nat (length l) + 1 < 2 ^ 63 ->
  wp (zslInsert zsl draws s e) m (λ '(zsl', x) m',
    zset m' zsl' (insert_item (s, e) l) /\ freed m' = freed m /\ item_of <$> heap m' !! x = Some (s, e)).
Proof.
  intros (es & Hh & <-) Hs Hnew Hsmall. rewrite length_fmap in Hsmall.
  eapply wp_mono; [by apply zslInsert_holds|]. intros [zsl' x] m' (es' & Hh' & Hi & Hp & Hf).
  split_and!; [by exists es'|done|]. apply (holds_node m' zsl' es' (Ent x (zslRandomLevel draws) (s, e))); [done|].
  rewrite Hp. by left.
Qed.

(** ** Deletion *)

Lemma filter_all {A} (P : A -> Prop) `{forall x, Decision (P x)} l : Forall P l -> filter P l = l.
Proof. induction 1 as [|x l Hx Hl IH]; [done|]. by rewrite filter_cons_True, IH. Qed.

(** At most the first of the items that are not smaller is the item. *)
Lemma item_split a b it : sorted (a ++ b) -> isnan it.1 = false ->
  Forall (λ x, ilt x it) a -> Forall (λ x, ~ ilt x it) b ->
  Forall (λ x, is_item it x = false) a /\ Forall (λ x, is_item it x = false) (list.tail b).
Proof.
  intros [Hs Hn] Hit Ha Hb. apply Forall_app in Hn as [Hna Hnb]. rewrite Forall_forall in *. split.
  - intros x Hx. apply is_item_false; [done|by apply Hna|]. intros Hsame%same_item_irr. auto.
  - apply StronglySorted_app in Hs as (_ & _ & Hs). destruct b as [|x b]; [constructor|].
    apply StronglySorted_inv in Hs as [_ Hlt]. rewrite Forall_forall in Hlt. cbn [list.tail]. apply Forall_forall. intros y Hy.
    apply is_item_false; [done|apply Hnb; by right|]. intros [H1 H2]. apply (Hb x); [by left|].
    eapply same_item_lt_r; [|by apply Hlt]. by split.
Qed.

Lemma remove_item_split a b it : sorted (a ++ b) -> isnan it.1 = false ->
  Forall (λ x, ilt x it) a -> Forall (λ x, ~ ilt x it) b ->
  remove_item it (a ++ b) = a ++ match b with x :: b' => if is_item it x then b' else b | [] => [] end.
Proof.
  intros Hs Hit Ha Hb. destruct (item_split a b it Hs Hit Ha Hb) as [H1 H2].
  unfold remove_item. rewrite filter_app, filter_all by done. destruct b as [|x b]; [done|].
  rewrite filter_cons, (filter_all _ b) by done. destruct (is_item it x); [by rewrite decide_False|by rewrite decide_True].
Qed.

Lemma found_split a b it : sorted (a ++ b) -> isnan it.1 = false ->
  Forall (λ x, ilt x it) a -> Forall (λ x, ~ ilt x it) b ->
  existsb (is_item it) (a ++ b) = match b with x :: _ => is_item it x | [] => false end.
Proof.
  intros Hs Hit Ha Hb. destruct (item_split a b it Hs Hit Ha Hb) as [H1 H2].
  assert (Hno : forall l, Forall (λ x, is_item it x = false) l -> existsb (is_item it) l = false).
  { induction 1 as [|x l Hx Hl IH]; [done|]. cbn. by rewrite Hx. }
  rewrite existsb_app, Hno by done. destruct b as [|x b]; [done|]. cbn. rewrite (Hno b) by done. apply orb_false_r.
Qed.

(** Freeing the unlinked node. *)
Lemma unlinked_freed m h' zsl zsl' a e b :
  (forall q, is_Some (heap m !! q) <-> q ∈ owned zsl (a ++ e :: b)) -> NoDup (owned zsl (a ++ e :: b)) ->
  zsl_ok h' zsl' (a ++ b) -> header zsl' = header zsl -> same_except (heap m) h' (header zsl :: locs (a ++ b)) ->
  zsl_ok (delete (e_loc e) h') zsl' (a ++ b) /\
  (forall q, is_Some (delete (e_loc e) h' !! q) -> q ∈ owned zsl' (a ++ b)).
Proof.
  intros Hown Hnd Hok Hhd Hsame. split.
  - eapply zsl_ok_frame; [exact Hok|]. intros q Hq. rewrite lookup_delete_ne; [done|]. intros <-.
    unfold owned in Hnd. rewrite fmap_app, fmap_cons, <- Permutation_middle, Permutation_swap in Hnd.
    apply NoDup_cons in Hnd as [Hnd _]. by rewrite <- fmap_app, <- Hhd in Hnd.
  - intros q [v Hq]. apply lookup_delete_Some in Hq as [Hne Hq]. unfold owned. rewrite Hhd.
    destruct (decide (q ∈ header zsl :: locs (a ++ b))) as [Hin|Hout]; [done|].
    rewrite Hsame in Hq by done. pose proof (proj1 (Hown q) (mk_is_Some _ _ Hq)) as Hin.
    unfold owned in Hin. rewrite fmap_app, fmap_cons, elem_of_cons, elem_of_app, elem_of_cons in Hin.
    rewrite fmap_app, elem_of_cons, elem_of_app. destruct Hin as [?|[?|[->|?]]]; tauto.
Qed.

(** After [zslDeleteNode]: the list without the entry, whose node is still allocated. *)
Record unlinked (m : zmem) (zsl : zskiplist) (a : list ent) (e : ent) (b : list ent)
    (zsl' : zskiplist) (h' : gmap loc zskiplistNode) : Prop := {
  un_ok : zsl_ok h' zsl' (a ++ b);
  un_header : header zsl' = header zsl;
  un_level : (zlevel zsl' <= zlevel zsl)%nat;
  un_node : h' !! e_loc e = Some (node_of (last_ent None a) e b);
  un_same : same_except (heap m) h' (header zsl :: locs (a ++ b)) }.

Lemma wp_deleteNode zsl a e b m (Q : zskiplist -> zmem -> Prop) :
  zsl_ok (heap m) zsl (a ++ e :: b) ->
  (forall zsl' h', unlinked m zsl a e b zsl' h' -> Q zsl' (ZMem h' (freed m))) ->
  wp (zslDeleteNode zsl (e_loc e) (update_of zsl a (zlevel zsl)).*1) m Q.
Proof.
  intros Hok HQ. eapply wp_zslDeleteNode; [exact Hok| |].
  - rewrite stops_update. by apply take_stops.
  - intros. by apply HQ.
Qed.

Lemma next_item zsl a x b m : zsl_ok (heap m) zsl (a ++ x :: b) ->
  heap m !! e_loc x = Some (node_of (last_ent None a) x b).
Proof. intros Hok. apply (chain_lookup _ _ _ _ _ (ok_chain _ _ _ Hok)). Qed.

Lemma wp_zslDelete zsl a b s e (keep : bool) m (Q : zskiplist * bool * option loc -> zmem -> Prop) :
  zsl_ok (heap m) zsl (a ++ b) -> isnan s = false ->
  Forall (λ x, ilt x (s, e)) (items a) -> Forall (λ x, ~ ilt x (s, e)) (items b) ->
  match b with
  | x :: b' =>
      if is_item (s, e) (e_item x) then
        forall zsl' h', unlinked m zsl a x b' zsl' h' ->
        if keep then Q (zsl', true, Some (e_loc x)) (ZMem h' (freed m))
        else Q (zsl', true, None) (ZMem (delete (e_loc x) h') (freed m ++ [(e_item x).2]))
      else Q (zsl, false, None) m
  | [] => Q (zsl, false, None) m
  end ->
  wp (zslDelete zsl s e keep) m Q.
Proof.
  intros Hok Hs Ha Hb HQ. unfold zslDelete. apply wp_bind.
  change (less_than (s, e)) with (λ n (_ : Z), item_ltb (item_of n) (s, e)).
  apply (wp_search zsl (a ++ b) m (λ it _, item_ltb it (s, e)) a b); [done| |].
  { apply splits_less; [done|apply Hok|done|done|done]. }
  apply wp_bind. eapply wp_next_of; [exact Hok|done|apply Hok|].
  destruct b as [|x b]; [by apply wp_ret|].
  eapply wp_bind, wp_zget; [by eapply next_item|].
  change (deq s (score (node_of (last_ent None a) x b)) &&
            (sdscmp (default [] (ele (node_of (last_ent None a) x b))) e =? 0)) with (is_item (s, e) (e_item x)).
  destruct (is_item (s, e) (e_item x)); [|by apply wp_ret].
  eapply wp_bind, wp_deleteNode; [exact Hok|]. intros zsl' h' Hun. specialize (HQ zsl' h' Hun).
  destruct keep; [by apply wp_ret|].
  eapply wp_bind, wp_zslFreeNode; [cbn; apply (un_node _ _ _ _ _ _ _ Hun)|]. by apply wp_ret.
Qed.

Lemma zslDelete_holds m zsl es s e :
  holds m zsl es -> isnan s = false ->
  wp (zslDelete zsl s e false) m (λ '(zsl', found, node) m', exists es',
    holds m' zsl' es' /\ items es' = remove_item (s, e) (items es) /\ found = existsb (is_item (s, e)) (items es) /\
    node = None /\ freed m' = (freed m ++ if found then [e] else []) /\
    (if found then exists x, es ≡ₚ x :: es' /\ same_item (e_item x) (s, e) else es' = es)).
Proof.
  intros [Hok Hown] Hs.
  destruct (sorted_split es (s, e) (ok_sorted _ _ _ Hok) Hs) as (a & b & -> & Ha & Hb).
  pose proof (ok_sorted _ _ _ Hok) as Hso. rewrite fmap_app in Hso.
  pose proof (remove_item_split _ _ (s, e) Hso Hs Ha Hb) as Hrem.
  pose proof (found_split _ _ (s, e) Hso Hs Ha Hb) as Hfound.
  apply wp_zslDelete with (a := a) (b := b); [done..|]. rewrite fmap_app, Hrem, Hfound.
  destruct b as [|x b]; [exists (a ++ []); rewrite fmap_app; split_and!; [by split|done..|by rewrite app_nil_r|done]|]. rewrite fmap_cons in *.
  destruct (is_item (s, e) (e_item x)) eqn:Hx.
  2:{ exists (a ++ x :: b). rewrite fmap_app, fmap_cons. split_and!; [by split|done..|by rewrite app_nil_r|done]. }
  intros zsl' h' [Hok' Hhd Hlv Hnode Hsame]. exists (a ++ b).
  apply is_item_spec in Hx; [|done|apply (sorted_nan _ _ Hso), elem_of_app; right; by left].
  destruct (unlinked_freed m h' zsl zsl' a x b Hown (ok_nodup _ _ _ Hok)) as [? ?]; [done..|].
  split_and!; [by apply holds_intro|by rewrite fmap_app|done|done|cbn; destruct Hx as [_ Hx]; by rewrite Hx|].
  exists x. by rewrite <- Permutation_middle.
Qed.

Lemma zslDelete_zset m zsl l s e :
  zset m zsl l -> isnan s = false ->
  wp (zslDelete zsl s e false) m (λ '(zsl', found, node) m',
    zset m' zsl' (remove_item (s, e) l) /\ found = existsb (is_item (s, e)) l /\ node = None /\
    freed m' = freed m ++ if found then [e] else []).
Proof.
  intros (es & Hh & <-) Hs. eapply wp_mono; [by apply zslDelete_holds|].
  intros [[zsl' found] node] m' (es' & Hh' & Hi & Hf & Hn & Hfr & _). split_and!; [by exists es'|done..].
Qed.
