(* ===== verification/ZslUpdate.v ===== *)
(** Changing the score of an element: in place when the element keeps its position, by
    removing and reinserting it otherwise.  The element's string is kept. *)

From stdpp Require Import gmap.
From S2P Require Import Prelude State ZslOrder Zsl ZslInv ZslOps ZslIns ZslSpec.

Local Open Scope Z_scope.

(** ** In place *)

(** The levels depend on the addresses and heights only. *)
Lemma fwd_reitem i a x it b : fwd i (a ++ Ent (e_loc x) (e_height x) it :: b) = fwd i (a ++ x :: b).
Proof. induction a as [|y a IH]; cbn [app fwd]; [done|]. by rewrite IH. Qed.

Lemma locs_reitem a x it b : locs (a ++ Ent (e_loc x) (e_height x) it :: b) = locs (a ++ x :: b).
Proof. by rewrite !fmap_app, !fmap_cons. Qed.

Lemma last_ent_locs d l l' : locs l = locs l' -> last_ent d l = last_ent d l'.
Proof.
  intros E. assert (H : e_loc <$> last l = e_loc <$> last l') by (by rewrite <- !fmap_last, E).
  unfold last_ent. destruct (last l), (last l'); by try injection H as ->.
Qed.

Lemma rescored h zsl a x b s :
  zsl_ok h zsl (a ++ x :: b) -> sorted (items a ++ (s, (e_item x).2) :: items b) ->
  let it := (s, (e_item x).2) in
  zsl_ok (<[e_loc x := ZNode (Some (e_item x).2) s (last_ent None a) (level (node_of (last_ent None a) x b))]> h)
    zsl (a ++ Ent (e_loc x) (e_height x) it :: b).
Proof.
  intros Hok Hso it. destruct (unlink_disjoint zsl a b x h Hok) as (_ & _ & Hxa & Hxb & _).
  pose proof (ok_chain _ _ _ Hok) as Hc. apply chain_app in Hc as [Ha [Hx Hb]].
  apply not_elem_of_cons in Hxa as [Hxh Hxa].
  split; rewrite ?locs_reitem; try apply Hok.
  - destruct (ok_header _ _ _ Hok) as (nd & Hnd & [H1 H2 H3 H4 H5]). exists nd.
    split; [by rewrite lookup_insert_ne|]. split; try done. intros i Hi. rewrite fwd_reitem. by apply H4.
  - apply chain_app. split; [|split].
    + intros a1 e a2 Ea. rewrite lookup_insert_ne.
      * rewrite (Ha a1 e a2 Ea). unfold node_of. do 2 f_equal. apply list_fmap_ext. intros j i _. by rewrite fwd_reitem.
      * intros E. apply Hxa. rewrite E, Ea, fmap_app. apply elem_of_app. right. by left.
    + cbn [e_loc]. by rewrite lookup_insert_eq.
    + eapply chain_frame; [|exact Hb]. intros e He. rewrite lookup_insert_ne; [done|]. intros E. apply Hxb.
      rewrite E. by apply list_elem_of_fmap_2.
  - rewrite (ok_tail _ _ _ Hok). apply last_ent_locs. by rewrite locs_reitem.
  - rewrite (ok_length _ _ _ Hok). by rewrite !length_app.
  - pose proof (ok_small _ _ _ Hok) as Hsm. by rewrite length_app in *.
  - pose proof (ok_heights _ _ _ Hok) as Hh. apply Forall_app in Hh as [? Hh]. apply Forall_cons in Hh as [? ?].
    apply Forall_app. split; [done|]. by constructor.
  - by rewrite fmap_app, fmap_cons.
Qed.

(** Between its neighbours. *)
Lemma above_last a it : sorted a -> isnan it.1 = false ->
  match last a with Some y => dlt y.1 it.1 = true | None => True end -> Forall (λ x, ilt x it) a.
Proof.
  intros [Hs Hn] Hit Hl. destruct a as [|y a _] using rev_ind; [constructor|]. rewrite last_snoc in Hl.
  apply StronglySorted_app in Hs as (Hlt & _ & _). apply Forall_app in Hn as [_ Hn]. apply Forall_cons in Hn as [Hn _].
  apply dlt_key in Hl; [|done..]. assert (Hy : ilt y it) by (by left).
  apply Forall_app. split; [|by constructor]. apply Forall_forall. intros x Hx. eapply ilt_trans; [|exact Hy].
  apply Hlt; [done|by left].
Qed.

Lemma below_head b it : sorted b -> isnan it.1 = false ->
  match head b with Some y => dlt it.1 y.1 = true | None => True end -> Forall (ilt it) b.
Proof.
  intros [Hs Hn] Hit Hl. destruct b as [|y b]; [constructor|]. cbn in Hl. apply StronglySorted_inv in Hs as [_ Hlt].
  apply Forall_cons in Hn as [Hn _]. apply dlt_key in Hl; [|done..]. assert (Hy : ilt it y) by (by left).
  constructor; [done|]. eapply Forall_impl; [exact Hlt|]. intros x Hx. by eapply ilt_trans.
Qed.

Lemma holds_rescored m zsl a x b s :
  let it := (s, (e_item x).2) in
  zsl_ok (heap m) zsl (a ++ x :: b) -> (forall q, is_Some (heap m !! q) <-> q ∈ owned zsl (a ++ x :: b)) ->
  isnan s = false ->
  match last (items a) with Some y => dlt y.1 s | None => true end &&
  match head (items b) with Some y => dlt s y.1 | None => true end = true ->
  let es' := a ++ Ent (e_loc x) (e_height x) it :: b in
  holds (ZMem (<[e_loc x := ZNode (Some (e_item x).2) s (last_ent None a) (level (node_of (last_ent None a) x b))]>
                (heap m)) (freed m)) zsl es' /\ items es' = insert_item it (items a ++ items b).
Proof.
  intros it Hok Hown Hs [Hlo Hup]%andb_true_iff es'. pose proof (ok_sorted _ _ _ Hok) as Hso.
  rewrite fmap_app, fmap_cons in Hso. pose proof (sorted_remove _ _ _ Hso) as Hsab.
  destruct (sorted_app _ _ Hsab) as [Hsa Hsb].
  assert (Hla : Forall (λ y, ilt y it) (items a)) by (apply above_last; [done|done|by destruct (last (items a))]).
  assert (Hlb : Forall (ilt it) (items b)) by (apply below_head; [done|done|by destruct (head (items b))]).
  rewrite insert_item_split; [|apply Hsab|done|done|eapply Forall_impl; [exact Hlb|]; intros y; apply ilt_asym].
  split; [|unfold es'; by rewrite fmap_app, fmap_cons].
  apply holds_intro; cbn [heap]; [by apply rescored, sorted_insert|].
  intros q Hq. unfold owned, es'. rewrite locs_reitem. apply Hown.
  destruct (decide (q = e_loc x)) as [->|Hne]; [|by rewrite lookup_insert_ne in Hq].
  exists (node_of (last_ent None a) x b). by eapply next_item.
Qed.

(** ** The program *)

Lemma wp_lower zsl a b m s (Q : bool -> zmem -> Prop) : zsl_ok (heap m) zsl (a ++ b) ->
  Q (match last (items a) with Some y => dlt y.1 s | None => true end) m ->
  wp (match last_ent None a with
      | None => mret true
      | Some p => nb ← zget p; mret (dlt (score nb) s)
      end) m Q.
Proof.
  intros Hok HQ. destruct a as [|y a _] using rev_ind; [by apply wp_ret|].
  rewrite last_ent_snoc. rewrite fmap_last, last_snoc in HQ. rewrite <- app_assoc in Hok.
  eapply wp_bind, wp_zget; [by eapply next_item|]. by apply wp_ret.
Qed.

Lemma wp_upper zsl a x b m s (Q : bool -> zmem -> Prop) : zsl_ok (heap m) zsl (a ++ x :: b) ->
  Q (match head (items b) with Some y => dlt s y.1 | None => true end) m ->
  wp (match match b with [] => None | e :: _ => Some (e_loc e) end with
      | None => mret true
      | Some p => nf ← zget p; mret (dlt s (score nf))
      end) m Q.
Proof.
  intros Hok HQ. destruct b as [|y b]; [by apply wp_ret|]. rewrite cons_middle, app_assoc in Hok.
  eapply wp_bind, wp_zget; [by eapply next_item|]. by apply wp_ret.
Qed.

Lemma wp_clear_ele p n m (Q : unit -> zmem -> Prop) : heap m !! p = Some n ->
  Q tt (ZMem (<[p := ZNode None (score n) (backward n) (level n)]> (heap m)) (freed m)) -> wp (clear_ele p) m Q.
Proof. intros E HQ. eapply wp_bind, wp_zget; [exact E|]. by eapply wp_zput. Qed.

Lemma wp_set_score p s n m (Q : unit -> zmem -> Prop) : heap m !! p = Some n ->
  Q tt (ZMem (<[p := ZNode (ele n) s (backward n) (level n)]> (heap m)) (freed m)) -> wp (set_score p s) m Q.
Proof. intros E HQ. eapply wp_bind, wp_zget; [exact E|]. by eapply wp_zput. Qed.

(** Reinserting the unlinked entry [x] with another score, and freeing its old node. *)
Lemma wp_reinsert m zsl a x b zsl1 h1 draws s (Q : zskiplist * loc -> zmem -> Prop) :
  let it := (s, (e_item x).2) in
  zsl_ok (heap m) zsl (a ++ x :: b) -> (forall q, is_Some (heap m !! q) <-> q ∈ owned zsl (a ++ x :: b)) ->
  unlinked m zsl a x b zsl1 h1 -> isnan s = false -> Forall (λ y, ~ same_item y it) (items (a ++ b)) ->
  (forall zsl' p m' es', holds m' zsl' es' -> items es' = insert_item it (items (a ++ b)) ->
     es' ≡ₚ Ent p (zslRandomLevel draws) it :: a ++ b -> freed m' = freed m -> Q (zsl', p) m') ->
  wp ('(zsl2, newnode) ← zslInsert zsl1 draws s (e_item x).2;
      clear_ele (e_loc x);; zslFreeNode (e_loc x);; mret (zsl2, newnode)) (ZMem h1 (freed m)) Q.
Proof.
  intros it Hok Hown [Hok1 Hhd1 Hlv1 Hnode1 Hsame1] Hs Hnew HQ.
  destruct (sorted_split (a ++ b) it (ok_sorted _ _ _ Hok1) Hs) as (c & d & E & Hc & Hd). rewrite E in *.
  assert (Hx : e_loc x ∉ header zsl :: locs (c ++ d)).
  { rewrite <- E. destruct (unlink_disjoint zsl a b x _ Hok) as (_ & _ & Hxa & Hxb & _).
    rewrite fmap_app, app_comm_cons. by apply not_elem_of_app. }
  pose proof (proj2 (ok_sorted _ _ _ Hok1)) as Hn. rewrite fmap_app in Hn, Hnew, HQ. apply Forall_app in Hnew as [_ Hnew].
  apply wp_bind, wp_zslInsert with (a := c) (b := d); [done|done|done| | |].
  { rewrite Forall_forall in *. intros y Hy. apply not_less; auto. }
  { pose proof (ok_small _ _ _ Hok) as Hsm. rewrite <- E. rewrite length_app in *. cbn [length] in Hsm. lia. }
  intros p h2 zsl2 Hp Hok2 Hhd2 Hsame2. cbn [heap freed] in *.
  assert (Hne : e_loc x <> p) by congruence.
  assert (Hnode2 : h2 !! e_loc x = Some (node_of (last_ent None a) x b)).
  { rewrite Hsame2; [done|]. rewrite Hhd1. by apply not_elem_of_cons. }
  eapply wp_bind, wp_clear_ele; [exact Hnode2|]. cbn [heap freed].
  eapply wp_bind, wp_zslFreeNode; [cbn; by rewrite lookup_insert_eq|]. cbn [heap freed ele].
  rewrite delete_insert_eq. apply wp_ret. rewrite Hhd1 in *.
  assert (Hxo : e_loc x ∉ owned zsl2 (c ++ Ent p (zslRandomLevel draws) it :: d)).
  { unfold owned. rewrite Hhd2, fmap_app, fmap_cons. cbn [e_loc]. rewrite fmap_app in Hx.
    rewrite elem_of_cons, elem_of_app in *. rewrite elem_of_cons. tauto. }
  apply (HQ _ _ _ (c ++ Ent p (zslRandomLevel draws) it :: d)); [| |by rewrite <- Permutation_middle|done].
  - apply holds_intro; cbn [heap].
    + eapply zsl_ok_frame; [exact Hok2|]. intros q Hq. rewrite lookup_delete_ne; [done|]. by intros <-.
    + intros q [v Hq]. apply lookup_delete_Some in Hq as [Hqx Hq]. unfold owned. rewrite Hhd2, fmap_app, fmap_cons. cbn [e_loc].
      destruct (decide (q ∈ p :: header zsl :: locs (c ++ d))) as [Hin|Hout].
      { rewrite fmap_app, !elem_of_cons, elem_of_app in Hin. rewrite elem_of_cons, elem_of_app, elem_of_cons. tauto. }
      rewrite Hsame2 in Hq by done. apply not_elem_of_cons in Hout as [_ Hout]. rewrite Hsame1 in Hq by done.
      pose proof (proj1 (Hown q) (mk_is_Some _ _ Hq)) as Hin. destruct Hout. rewrite <- E.
      unfold owned in Hin. rewrite fmap_app, fmap_cons, elem_of_cons, elem_of_app, elem_of_cons in Hin.
      rewrite fmap_app, elem_of_cons, elem_of_app. destruct Hin as [?|[?|[->|?]]]; tauto.
  - by rewrite insert_item_split, fmap_app, fmap_cons.
Qed.

(** No other item has the element. *)
Lemma others_differ a x b cur e new : sorted (a ++ x :: b) -> isnan cur = false ->
  Forall (λ y, ilt y (cur, e)) a -> Forall (λ y, ~ ilt y (cur, e)) (x :: b) ->
  Forall (λ y, y.2 = e -> same_item y (cur, e)) (a ++ x :: b) -> Forall (λ y, ~ same_item y (new, e)) (a ++ b).
Proof.
  intros Hso Hcur Ha Hb Huniq. pose proof (item_split _ _ (cur, e) Hso Hcur Ha Hb) as [H1 H2]. cbn [list.tail] in H2.
  pose proof (Forall_app_2 _ _ _ H1 H2) as Hno. rewrite Forall_forall in *. intros y Hy [_ Hye]. cbn in Hye.
  assert (Hyl : y ∈ a ++ x :: b).
  { apply elem_of_app in Hy as [?|?]; apply elem_of_app; [by left|right; by right]. }
  specialize (Hno y Hy). specialize (Huniq y Hyl Hye).
  by rewrite (proj2 (is_item_spec (cur, e) y Hcur (sorted_nan _ _ Hso Hyl)) Huniq) in Hno.
Qed.

Lemma zslUpdateScore_holds m zsl es draws cur e new :
  holds m zsl es -> isnan cur = false -> isnan new = false ->
  existsb (is_item (cur, e)) (items es) = true -> Forall (λ x, x.2 = e -> same_item x (cur, e)) (items es) ->
  wp (zslUpdateScore zsl draws cur e new) m (λ '(zsl', p) m', exists es' rest x ht,
    holds m' zsl' es' /\ items es' = insert_item (new, e) (remove_item (cur, e) (items es)) /\
    es ≡ₚ x :: rest /\ (e_item x).2 = e /\ es' ≡ₚ Ent p ht (new, e) :: rest /\ freed m' = freed m).
Proof.
  intros [Hok Hown] Hcur Hnew Hin Huniq.
  destruct (sorted_split es (cur, e) (ok_sorted _ _ _ Hok) Hcur) as (a & b & -> & Ha & Hb).
  pose proof (ok_sorted _ _ _ Hok) as Hso. rewrite fmap_app in Hso.
  pose proof (remove_item_split _ _ (cur, e) Hso Hcur Ha Hb) as Hrem.
  pose proof (found_split _ _ (cur, e) Hso Hcur Ha Hb) as Hfound. rewrite <- fmap_app in Hrem, Hfound.
  rewrite Hin in Hfound. destruct b as [|x b]; [done|]. rewrite fmap_cons in Hso, Hrem, Hfound.
  rewrite <- Hfound in Hrem. symmetry in Hfound. rewrite Hrem.
  assert (Hex : (e_item x).2 = e).
  { apply is_item_spec in Hfound as [_ ?]; [done|done|]. apply (sorted_nan _ _ Hso). apply elem_of_app. right. by left. }
  assert (Hun : Forall (λ y, ~ same_item y (new, e)) (items (a ++ b))).
  { rewrite fmap_app in *. by eapply (others_differ _ _ _ cur). }
  unfold zslUpdateScore. apply wp_bind.
  change (less_than (cur, e)) with (λ n (_ : Z), item_ltb (item_of n) (cur, e)).
  apply (wp_search zsl (a ++ x :: b) m (λ it _, item_ltb it (cur, e)) a (x :: b)); [done| |].
  { apply splits_less; [done|apply Hok|done|done|done]. }
  apply wp_bind. eapply wp_next_of; [exact Hok|done|apply Hok|].
  pose proof (next_item _ _ _ _ _ Hok) as Hx.
  pose proof (ok_heights _ _ _ Hok) as Hh. apply Forall_app in Hh as [_ Hh]. apply Forall_cons in Hh as [Hhx Hhb].
  eapply wp_bind, wp_zget; [exact Hx|].
  change (deq cur (score (node_of (last_ent None a) x b)) &&
            (sdscmp (default [] (ele (node_of (last_ent None a) x b))) e =? 0)) with (is_item (cur, e) (e_item x)).
  rewrite Hfound. cbn [negb]. cbn [backward node_of].
  eapply wp_bind, wp_lower; [exact Hok|].
  eapply wp_bind, wp_level_at; [exact Hx|apply node_level; cbn in Hhx; lia|].
  rewrite fwd_0 by (eapply Forall_impl; [exact Hhb|]; cbn; lia).
  eapply wp_bind, wp_upper; [exact Hok|].
  destruct (_ && _) eqn:Hfit.
  - eapply wp_bind, wp_set_score; [exact Hx|]. apply wp_ret. cbn [ele node_of backward level heap freed].
    rewrite <- Hex in *. exists (a ++ Ent (e_loc x) (e_height x) (new, (e_item x).2) :: b), (a ++ b), x, (e_height x).
    destruct (holds_rescored m zsl a x b new Hok Hown Hnew Hfit) as [Hh Hi].
    split_and!; [exact Hh|exact Hi|by rewrite <- Permutation_middle|done|by rewrite <- Permutation_middle|done].
  - eapply wp_bind, wp_deleteNode; [exact Hok|]. intros zsl1 h1 Hun1. cbn [ele node_of default]. 
    rewrite <- fmap_app. rewrite <- Hex in *.
    eapply wp_reinsert; [exact Hok|exact Hown|exact Hun1|done|done|].
    intros zsl' p m' es' Hh Hi Hp Hf. exists es', (a ++ b), x, (zslRandomLevel draws).
    split_and!; [done|done|by rewrite <- Permutation_middle|done|done|done].
Qed.

Lemma zslUpdateScore_zset m zsl l draws cur e new :
  zset m zsl l -> isnan cur = false -> isnan new = false ->
  existsb (is_item (cur, e)) l = true -> Forall (λ x, x.2 = e -> same_item x (cur, e)) l ->
  wp (zslUpdateScore zsl draws cur e new) m (λ '(zsl', x) m',
    zset m' zsl' (insert_item (new, e) (remove_item (cur, e) l)) /\ freed m' = freed m /\
    item_of <$> heap m' !! x = Some (new, e)).
Proof.
  intros (es & Hh & <-) Hcur Hnew Hin Huniq. eapply wp_mono; [by apply zslUpdateScore_holds|].
  intros [zsl' p] m' (es' & rest & x & ht & Hh' & Hi & _ & _ & Hp & Hf).
  split_and!; [by exists es'|done|]. apply (holds_node m' zsl' es' (Ent p ht (new, e))); [done|]. rewrite Hp. by left.
Qed.

(** * Ranks and ranges: what the queries return, for every argument *)

(** The node of the entry before position [k]. *)
Lemma x_of_node h zsl es k : zsl_ok h zsl es -> (k <= length es)%nat ->
  exists nd, h !! x_of (header zsl) (take k es) = Some nd /\
    match k with
    | O => ele nd = None
    | S j => exists y, es !! j = Some y /\ ele nd = Some (e_item y).2 /\ score nd = (e_item y).1
    end.
Proof.
  intros Hok Hk. destruct k as [|j].
  - destruct (ok_header _ _ _ Hok) as (nd & Hnd & Hh). exists nd. split; [done|]. apply Hh.
  - destruct (lookup_lt_is_Some_2 es j ltac:(lia)) as [y Hy]. rewrite (x_of_take _ es j y Hy).
    apply list_elem_of_split_length in Hy as (l1 & l2 & -> & ->).
    pose proof (ok_chain _ _ _ Hok) as Hc. apply chain_lookup in Hc. eexists. split; [exact Hc|].
    exists y. split; [by apply list_lookup_middle|done].
Qed.

Lemma above_0 a b h zsl : zsl_ok h zsl (a ++ b) -> above 0 a = length a.
Proof.
  intros Hok. apply above_all. pose proof (ok_heights _ _ _ Hok) as Hh. apply Forall_app in Hh as [Hh _].
  eapply Forall_impl; [exact Hh|]. cbn. lia.
Qed.

(** One level of a descent that starts after [a1], a prefix of the entries [a] to pass. *)
Lemma wp_walk_level zsl a b m P i fuel a1 (Q : loc * Z -> zmem -> Prop) :
  zsl_ok (heap m) zsl (a ++ b) -> (i < zlevel zsl)%nat -> splits (a ++ b) P a b ->
  a1 = take (length a1) a -> ends_above i a1 -> (length a < fuel)%nat ->
  Q (x_of (header zsl) (take (above i a) a), Z.of_nat (above i a)) m ->
  wp (level_walk fuel (λ n r, P (item_of n) r) i (x_of (header zsl) a1) (Z.of_nat (length a1))) m Q.
Proof.
  intros Hok Hi Hs Ha1 He Hf HQ. pose proof (take_drop (length a1) a) as E. rewrite <- Ha1 in E.
  rewrite <- E in HQ, Hs, Hok. eapply (wp_walk zsl _ m P i Hok Hi); [exact Hs|done| |exact HQ].
  rewrite length_drop. lia.
Qed.

Lemma take_above i a : take (above i a) a = take (length (take (above i a) a)) a.
Proof. by rewrite length_take_le by apply above_le. Qed.

Lemma length_take_above i a : length (take (above i a) a) = above i a.
Proof. apply length_take_le, above_le. Qed.

(** ** The rank of an item *)

Section rank.
Context (zsl : zskiplist) (a b : list ent) (m : zmem) (it : item) (Hit : isnan it.1 = false).
Context (Hok : zsl_ok (heap m) zsl (a ++ b)).
Context (Ha : Forall (λ x, ilt x it \/ same_item x it) (items a)).
Context (Hb : Forall (λ x, ilt it x) (items b)).

Lemma le_splits : splits (a ++ b) (λ x _, item_leb x it) a b.
Proof.
  pose proof (proj2 (ok_sorted _ _ _ Hok)) as Hn. rewrite fmap_app in Hn. apply Forall_app in Hn as [Hna Hnb].
  apply (splits_items _ (λ x, item_leb x it)); [done| |]; rewrite Forall_forall in *; intros x Hx.
  - apply item_leb_spec; auto.
  - apply not_true_iff_false. rewrite item_leb_spec by auto. specialize (Hb x Hx). intros [H|H].
    + by apply (ilt_asym _ _ H).
    + apply (ilt_irrefl x). by eapply same_item_lt_l.
Qed.

(** Only the last of the entries that are not greater can be the item. *)
Lemma same_is_last j y : a !! j = Some y -> same_item (e_item y) it -> S j = length a.
Proof.
  intros Hj Hsame. pose proof (lookup_lt_Some _ _ _ Hj) as Hlt.
  destruct (Nat.eq_dec (S j) (length a)) as [?|Hne]; [done|]. exfalso.
  destruct (lookup_lt_is_Some_2 a (S j) ltac:(lia)) as [z Hz].
  pose proof (proj1 (ok_sorted _ _ _ Hok)) as Hs. rewrite fmap_app in Hs. apply StronglySorted_app in Hs as (_ & Hs & _).
  apply list_elem_of_split_length in Hj as (l1 & l2 & -> & ->). rewrite fmap_app, fmap_cons in Hs.
  apply StronglySorted_app in Hs as (_ & _ & Hs). apply StronglySorted_inv in Hs as [_ Hlt'].
  rewrite lookup_app_r in Hz by lia. replace (S (length l1) - length l1)%nat with 1%nat in Hz by lia. cbn in Hz.
  assert (Hyz : ilt (e_item y) (e_item z)).
  { rewrite Forall_forall in Hlt'. apply Hlt'. apply list_elem_of_fmap_2. by eapply list_elem_of_lookup_2. }
  assert (Hiz : ilt it (e_item z)) by (eapply same_item_lt_l; [|exact Hyz]; by destruct Hsame).
  rewrite Forall_forall in Ha. destruct (Ha (e_item z)) as [Hzi|Hzi].
  - rewrite fmap_app, fmap_cons. apply elem_of_app. right. right. apply list_elem_of_fmap_2. by eapply list_elem_of_lookup_2.
  - by apply (ilt_asym _ _ Hiz).
  - apply (ilt_irrefl (e_item z)). by eapply same_item_lt_l.
Qed.

Definition rank_found : Prop := exists y, last a = Some y /\ same_item (e_item y) it.

Lemma wp_rank_loop fuel (Q : Z -> zmem -> Prop) : (length a < fuel)%nat ->
  (rank_found -> Q (Z.of_nat (length a)) m) -> (~ rank_found -> Q 0 m) ->
  forall lv a1, (lv <= zlevel zsl)%nat -> a1 = take (length a1) a -> (forall i, (i < lv)%nat -> ends_above i a1) ->
  (lv = 0%nat -> ~ rank_found) ->
  wp (rank_loop fuel it lv (x_of (header zsl) a1) (Z.of_nat (length a1))) m Q.
Proof.
  intros Hf Hyes Hno. induction lv as [|i IH]; intros a1 Hlv Ha1 Hends H0; cbn [rank_loop].
  { apply wp_ret. auto. }
  apply wp_bind. change (at_most it) with (λ n (_ : Z), item_leb (item_of n) it).
  eapply (wp_walk_level zsl a b m (λ x _, item_leb x it)); [done|lia|apply le_splits|done|by apply Hends; lia|done|].
  destruct (x_of_node (heap m) zsl (a ++ b) (above i a) Hok) as (nd & Hnd & Hk).
  { rewrite length_app. pose proof (above_le i a). lia. }
  rewrite take_app_le in Hnd by apply above_le.
  eapply wp_bind, wp_zget; [exact Hnd|].
  assert (Hgo : (i = 0%nat -> ~ rank_found) ->
    wp (rank_loop fuel it i (x_of (header zsl) (take (above i a) a)) (Z.of_nat (above i a))) m Q).
  { intros Hi. rewrite <- length_take_above. rewrite <- take_above. apply IH; [lia|apply take_above| |done].
    intros j Hj. eapply ends_above_mono; [|apply above_ends]. lia. }
  destruct (above i a) as [|j] eqn:Hab.
  - rewrite Hk. apply Hgo. intros -> (y & Hy & _). rewrite (above_0 a b _ _ Hok) in Hab.
    by destruct a.
  - destruct Hk as (y & Hy & He & Hs). rewrite He, Hs.
    assert (Hja : (j < length a)%nat) by (pose proof (above_le i a); lia).
    rewrite lookup_app_l in Hy by done.
    assert (Hny : isnan (e_item y).1 = false).
    { eapply sorted_nan; [apply Hok|]. apply list_elem_of_fmap_2, elem_of_app. left. by eapply list_elem_of_lookup_2. }
    destruct (deq (e_item y).1 it.1 && (sdscmp (e_item y).2 it.2 =? 0)) eqn:Hsame.
    + apply wp_ret. apply andb_true_iff in Hsame as [H1 H2]. apply deq_key in H1; [|done..].
      rewrite Z.eqb_eq, sdscmp_eq in H2. pose proof (same_is_last j y Hy (conj H1 H2)) as Hl. rewrite Hl. apply Hyes.
      exists y. split; [|done]. rewrite last_lookup, <- Hl. done.
    + apply Hgo. intros -> (z & Hz & Hzs). rewrite (above_0 a b _ _ Hok) in Hab.
      rewrite last_lookup, Hab in Hz. cbn in Hz. rewrite Hy in Hz. injection Hz as <-. destruct Hzs as [H1 H2].
      rewrite (proj2 (deq_key _ _ Hny Hit) H1), (proj2 (sdscmp_eq _ _) H2) in Hsame. done.
Qed.
End rank.

Lemma sorted_split_le es it : sorted (items es) -> isnan it.1 = false ->
  exists a b, es = a ++ b /\ Forall (λ x, ilt x it \/ same_item x it) (items a) /\ Forall (λ x, ilt it x) (items b).
Proof.
  intros Hs Hit. destruct (sorted_split es it Hs Hit) as (a & b & -> & Ha & Hb).
  assert (Ha' : Forall (λ x, ilt x it \/ same_item x it) (items a)) by (eapply Forall_impl; [exact Ha|]; tauto).
  rewrite fmap_app in Hs. destruct Hs as [Hs Hn]. apply StronglySorted_app in Hs as (_ & _ & Hs).
  destruct b as [|x b]; [by exists a, []|]. rewrite fmap_cons in *. apply StronglySorted_inv in Hs as [_ Hlt].
  apply Forall_cons in Hb as [Hx Hb]. destruct (ilt_total (e_item x) it) as [?|[Hsame|Hgt]]; [done| |].
  - exists (a ++ [x]), b. rewrite <- app_assoc. split; [done|]. split.
    + rewrite fmap_app. apply Forall_app. split; [done|]. constructor; [by right|constructor].
    + eapply Forall_impl; [exact Hlt|]. intros y Hy. eapply same_item_lt_l; [|exact Hy]. by destruct Hsame.
  - exists a, (x :: b). split; [done|]. split; [done|]. rewrite fmap_cons. constructor; [done|].
    eapply Forall_impl; [exact Hlt|]. intros y Hy. by eapply ilt_trans.
Qed.

Lemma zslGetRank_zset m zsl l s e : zset m zsl l -> isnan s = false ->
  wp (zslGetRank zsl s e) m (λ r m', m' = m /\
    (forall i x, l !! i = Some x -> same_item x (s, e) -> r = Z.of_nat i + 1) /\
    (Forall (λ x, ~ same_item x (s, e)) l -> r = 0)).
Proof.
  intros (es & [Hok _] & <-) Hs.
  destruct (sorted_split_le es (s, e) (ok_sorted _ _ _ Hok) Hs) as (a & b & -> & Ha & Hb).
  unfold zslGetRank. change (header zsl) with (x_of (header zsl) []) at 1. change 0 with (Z.of_nat (length (@nil ent))) at 1.
  assert (Hpos : forall i x, items (a ++ b) !! i = Some x -> same_item x (s, e) -> exists y, a !! i = Some y /\ x = e_item y).
  { intros i x Hi Hsame. rewrite list_lookup_fmap in Hi. apply fmap_Some in Hi as (y & Hy & ->).
    exists y. split; [|done]. apply lookup_app_Some in Hy as [?|[_ Hy]]; [done|]. exfalso.
    rewrite Forall_forall in Hb. apply (ilt_irrefl (e_item y)). eapply same_item_lt_l; [exact Hsame|]. apply Hb.
    apply list_elem_of_fmap_2. by eapply list_elem_of_lookup_2. }
  eapply (wp_rank_loop zsl a b m (s, e) Hs Hok Ha Hb); [| | |done|done|by left|].
  - rewrite (ok_length _ _ _ Hok), Nat2Z.id, length_app. lia.
  - intros (y & Hy & Hsame). split; [done|]. split.
    + intros i x Hi Hx. destruct (Hpos i x Hi Hx) as (z & Hz & ->).
      rewrite <- (same_is_last zsl a b m (s, e) Hok Ha i z Hz Hx). lia.
    + intros Hno. rewrite Forall_forall in Hno. destruct (Hno (e_item y)); [|done].
      apply list_elem_of_fmap_2, elem_of_app. left. by apply last_Some_elem_of.
  - intros Hno. split; [done|]. split; [|done]. intros i x Hi Hx. destruct Hno.
    destruct (Hpos i x Hi Hx) as (z & Hz & ->). exists z. split; [|done].
    rewrite last_lookup, <- (same_is_last zsl a b m (s, e) Hok Ha i z Hz Hx). done.
  - pose proof (ok_level _ _ _ Hok). lia.
Qed.

(** ** The item of a rank *)

Lemma rank_splits es rank : 0 <= rank ->
  splits es (λ _ r, r <=? rank) (take (Z.to_nat rank) es) (drop (Z.to_nat rank) es).
Proof.
  intros Hr. split; [by rewrite take_drop|]. intros j x Hj. apply lookup_lt_Some in Hj. rewrite length_take.
  destruct (Z.leb_spec (Z.of_nat j + 1) rank), (Nat.ltb_spec j (Z.to_nat rank `min` length es)); lia.
Qed.

Section by_rank.
Context (zsl : zskiplist) (a b : list ent) (m : zmem) (rank : Z).
Context (Hok : zsl_ok (heap m) zsl (a ++ b)) (Hs : splits (a ++ b) (λ _ r, r <=? rank) a b).

Lemma wp_by_rank_loop fuel (Q : option loc -> zmem -> Prop) : (length a < fuel)%nat ->
  (rank = Z.of_nat (length a) -> Q (Some (x_of (header zsl) a)) m) -> (rank <> Z.of_nat (length a) -> Q None m) ->
  Z.of_nat (length a) <= rank ->
  forall lv a1, (lv <= zlevel zsl)%nat -> a1 = take (length a1) a -> (forall i, (i < lv)%nat -> ends_above i a1) ->
  (lv = 0%nat -> rank <> Z.of_nat (length a)) ->
  wp (by_rank_loop fuel rank lv (x_of (header zsl) a1) (Z.of_nat (length a1))) m Q.
Proof.
  intros Hf Hyes Hno Hle. induction lv as [|i IH]; intros a1 Hlv Ha1 Hends H0; cbn [by_rank_loop].
  { apply wp_ret. auto. }
  apply wp_bind.
  eapply (wp_walk_level zsl a b m (λ _ r, r <=? rank)); [done|lia|done|done|by apply Hends; lia|done|].
  pose proof (above_le i a) as Hab.
  destruct (Z.eqb_spec (Z.of_nat (above i a)) rank) as [E|Hne].
  - apply wp_ret. rewrite take_ge by lia. apply Hyes. lia.
  - rewrite <- length_take_above. rewrite <- take_above. apply IH; [lia|apply take_above| |].
    + intros j Hj. eapply ends_above_mono; [|apply above_ends]. lia.
    + intros ->. rewrite (above_0 a b _ _ Hok) in Hne. lia.
Qed.
End by_rank.

Lemma zslGetElementByRank_zset m zsl l rank : zset m zsl l -> 0 <= rank < 2 ^ 64 ->
  wp (zslGetElementByRank zsl rank) m (λ r m', m' = m /\
    (rank = 0 -> r = Some (header zsl)) /\
    (forall i x, l !! i = Some x -> rank = Z.of_nat i + 1 -> exists p, r = Some p /\ item_of <$> heap m !! p = Some x) /\
    (Z.of_nat (length l) < rank -> r = None)).
Proof.
  intros (es & [Hok _] & <-) Hr. pose proof (rank_splits es rank ltac:(lia)) as Hs.
  pose proof Hok as Hok'. rewrite <- (take_drop (Z.to_nat rank) es) in Hok', Hs at 1.
  unfold zslGetElementByRank. change (header zsl) with (x_of (header zsl) []) at 1.
  change 0 with (Z.of_nat (length (@nil ent))) at 1. rewrite length_fmap.
  eapply (wp_by_rank_loop zsl (take (Z.to_nat rank) es) (drop (Z.to_nat rank) es) m rank Hok' Hs);
    [rewrite (ok_length _ _ _ Hok), Nat2Z.id; rewrite length_take; lia| | |rewrite length_take; lia|done|done|by left|].
  - intros E. rewrite length_take in E. split; [done|]. split; [by intros ->|]. split; [|lia].
    intros i x Hi ->. rewrite list_lookup_fmap in Hi. apply fmap_Some in Hi as (y & Hy & ->).
    eexists. split; [done|]. replace (Z.to_nat (Z.of_nat i + 1)) with (S i) by lia.
    destruct (x_of_node (heap m) zsl es (S i) Hok) as (nd & Hnd & z & Hz & He & Hsc).
    { apply lookup_lt_Some in Hy. lia. }
    rewrite Hy in Hz. injection Hz as <-. rewrite Hnd. cbn. unfold item_of. rewrite He, Hsc. cbn. by destruct (e_item y).
  - rewrite length_take. intros Hne. split; [done|]. split; [lia|]. split; [|done]. intros i x Hi ->.
    rewrite list_lookup_fmap in Hi. apply fmap_Some in Hi as (y & Hy & ->). apply lookup_lt_Some in Hy. lia.
  - pose proof (ok_level _ _ _ Hok). lia.
Qed.

(** ** Ranges *)

(** What the range functions need of a kind of range and the items of a list: a range
    is an interval of the list, and the ranges that are rejected at once hold none of
    its items. *)
Record range_laws `{Range R} (r : R) (l : list item) : Prop := {
  law_gte x y : x ∈ l -> y ∈ l -> ilt x y -> gte_min x r = true -> gte_min y r = true;
  law_lte x y : x ∈ l -> y ∈ l -> ilt x y -> lte_max y r = true -> lte_max x r = true;
  law_empty x : x ∈ l -> always_empty r = true -> gte_min x r = true -> lte_max x r = true -> False }.

Definition in_range `{Range R} (r : R) (it : item) : bool := gte_min it r && lte_max it r.

(** A condition that holds of smaller items holds of a prefix. *)
Lemma prefix_split es (P : item -> bool) : sorted (items es) ->
  (forall x y, x ∈ items es -> y ∈ items es -> ilt x y -> P y = true -> P x = true) ->
  exists a b, es = a ++ b /\ Forall (λ x, P x = true) (items a) /\ Forall (λ x, P x = false) (items b).
Proof.
  intros Hs. induction es as [|e es IH]; intros HP; [by exists [], []|].
  destruct Hs as [Hs Hn]. rewrite fmap_cons in *. apply StronglySorted_inv in Hs as [Hs Hlt]. apply Forall_cons in Hn as [He Hn].
  destruct (P (e_item e)) eqn:E.
  - destruct IH as (a & b & -> & Ha & Hb); [by split|intros x y Hx Hy; apply HP; by right|]. exists (e :: a), b.
    split; [done|]. split; [|done]. rewrite fmap_cons. by constructor.
  - exists [], (e :: es). split; [done|]. split; [constructor|]. rewrite fmap_cons. constructor; [done|].
    rewrite Forall_forall in *. intros x Hx. destruct (P x) eqn:Ex; [|done].
    rewrite (HP (e_item e) x) in E; [done|by left|by right|by apply Hlt|done].
Qed.

Section laws.
Context {R : Type} `{Range R} (r : R).

Lemma range_laws_sub l l' : (forall x, x ∈ l' -> x ∈ l) -> range_laws r l -> range_laws r l'.
Proof. intros Hsub [H1 H2 H3]. split; [intros ????; apply H1; auto|intros ????; apply H2; auto|intros ??; apply H3; auto]. Qed.

Lemma gte_split es : sorted (items es) -> range_laws r (items es) ->
  exists a b, es = a ++ b /\ Forall (λ x, negb (gte_min x r) = true) (items a) /\
    Forall (λ x, negb (gte_min x r) = false) (items b).
Proof.
  intros Hs Hr. apply (prefix_split _ (λ x, negb (gte_min x r))); [done|]. intros x y Hx Hy Hxy.
  rewrite !negb_true_iff, <- !not_true_iff_false. intros Hn Hg. apply Hn. by apply (law_gte _ _ Hr x y).
Qed.

Lemma lte_split es : sorted (items es) -> range_laws r (items es) ->
  exists a b, es = a ++ b /\ Forall (λ x, lte_max x r = true) (items a) /\
    Forall (λ x, lte_max x r = false) (items b).
Proof. intros Hs Hr. apply (prefix_split _ (λ x, lte_max x r)); [done|]. apply Hr. Qed.

Lemma last_below l t : sorted l -> range_laws r l -> last l = Some t -> gte_min t r = false ->
  Forall (λ x, in_range r x = false) l.
Proof.
  intros [Hs _] Hr Hl Ht. apply Forall_forall. intros x Hx. unfold in_range.
  destruct (gte_min x r) eqn:E; [|done]. destruct l as [|t' l _] using rev_ind; [done|].
  rewrite last_snoc in Hl. injection Hl as ->. apply StronglySorted_app in Hs as (Hlt & _ & _).
  apply elem_of_app in Hx as [Hx|[->|[]%elem_of_nil]%elem_of_cons]; [|congruence].
  rewrite (law_gte _ _ Hr x t) in Ht; [done|apply elem_of_app..| |done]; [by left|right; by left|].
  apply Hlt; [done|by left].
Qed.

Lemma head_over l f : sorted l -> range_laws r l -> head l = Some f -> lte_max f r = false ->
  Forall (λ x, in_range r x = false) l.
Proof.
  intros [Hs _] Hr Hl Hf. apply Forall_forall. intros x Hx. unfold in_range. apply andb_false_iff. right.
  destruct (lte_max x r) eqn:E; [|done]. destruct l as [|f' l]; [done|]. injection Hl as ->.
  apply StronglySorted_inv in Hs as [_ Hlt]. apply elem_of_cons in Hx as [->|Hx]; [congruence|].
  rewrite Forall_forall in Hlt. by rewrite (law_lte _ _ Hr f x) in Hf; [|by left|by right|apply Hlt|].
Qed.

Lemma out_gte l : Forall (λ x, negb (gte_min x r) = true) l -> Forall (λ x, in_range r x = false) l.
Proof. intros H'. eapply Forall_impl; [exact H'|]. intros x Hx%negb_true_iff. unfold in_range. by rewrite Hx. Qed.

Lemma out_lte l : Forall (λ x, lte_max x r = false) l -> Forall (λ x, in_range r x = false) l.
Proof. intros H'. eapply Forall_impl; [exact H'|]. intros x Hx. cbn in Hx. unfold in_range. rewrite Hx. apply andb_false_r. Qed.

Lemma wp_is_in_range zsl es m (Q : bool -> zmem -> Prop) : zsl_ok (heap m) zsl es -> range_laws r (items es) ->
  (forall t f, last (items es) = Some t -> head (items es) = Some f ->
     gte_min t r = true -> lte_max f r = true -> Q true m) ->
  (Forall (λ x, in_range r x = false) (items es) -> Q false m) ->
  wp (is_in_range zsl r) m Q.
Proof.
  intros Hok Hr Hyes Hno. unfold is_in_range. pose proof (ok_sorted _ _ _ Hok) as Hso.
  destruct (always_empty r) eqn:He.
  { apply wp_ret, Hno. apply Forall_forall. intros x Hx. apply not_true_iff_false.
    unfold in_range. rewrite andb_true_iff. intros [H1 H2]. by eapply (law_empty _ _ Hr). }
  rewrite (ok_tail _ _ _ Hok). destruct es as [|f es]; [apply wp_ret, Hno; constructor|].
  destruct (last (f :: es)) as [t|] eqn:Hl; [|by apply last_None in Hl]. unfold last_ent at 1. rewrite Hl.
  assert (Hli : last (items (f :: es)) = Some (e_item t)) by (by rewrite fmap_last, Hl).
  pose proof Hl as (l' & Ht)%last_Some.
  eapply wp_bind, wp_zget; [rewrite Ht in Hok; by eapply next_item|]. rewrite item_of_node.
  destruct (gte_min (e_item t) r) eqn:Hgt; cbn [negb]; [|by eapply wp_ret, Hno, last_below].
  destruct (ok_header _ _ _ Hok) as (nd & Hnd & Hh).
  eapply wp_bind, wp_level_at; [exact Hnd|apply Hh; pose proof (ok_level _ _ _ Hok); lia|].
  rewrite fwd_0 by (eapply Forall_impl; [apply Hok|]; cbn; lia).
  eapply wp_bind, wp_zget; [by eapply (next_item zsl [])|]. apply wp_ret. rewrite item_of_node.
  destruct (lte_max (e_item f) r) eqn:Hle; [by eapply Hyes|by eapply Hno, head_over].
Qed.

(** [p] is the node of an item in the range, before (after) which no item is in the
    range. *)
Definition first_found (m : zmem) (l : list item) (p : option loc) : Prop :=
  match p with
  | Some p => exists l1 it l2, l = l1 ++ it :: l2 /\ item_of <$> heap m !! p = Some it /\ in_range r it = true /\
      Forall (λ x, in_range r x = false) l1
  | None => Forall (λ x, in_range r x = false) l
  end.

Definition last_found (m : zmem) (l : list item) (p : option loc) : Prop :=
  match p with
  | Some p => exists l1 it l2, l = l1 ++ it :: l2 /\ item_of <$> heap m !! p = Some it /\ in_range r it = true /\
      Forall (λ x, in_range r x = false) l2
  | None => Forall (λ x, in_range r x = false) l
  end.

Lemma first_in_range_zset m zsl l : zset m zsl l -> range_laws r l ->
  wp (first_in_range zsl r) m (λ p m', m' = m /\ first_found m l p).
Proof.
  intros (es & [Hok _] & <-) Hr. pose proof (ok_sorted _ _ _ Hok) as Hso. unfold first_in_range.
  apply wp_bind. eapply wp_is_in_range; [exact Hok|done| |by intros Hno; apply wp_ret].
  intros t f Hlast _ Ht _. cbn [negb].
  destruct (gte_split es Hso Hr) as (a & b & -> & Ha & Hb).
  apply wp_bind, (wp_search zsl (a ++ b) m (λ it _, negb (gte_min it r)) a b); [done| |].
  { by apply (splits_items _ (λ it, negb (gte_min it r))). }
  apply wp_bind. eapply wp_next_of; [exact Hok|done|apply Hok|].
  destruct b as [|x b].
  { exfalso. rewrite app_nil_r in Hlast. rewrite Forall_forall in Ha. specialize (Ha t).
    rewrite Ht in Ha. by specialize (Ha ltac:(by apply last_Some_elem_of)). }
  eapply wp_bind, wp_zget; [by eapply next_item|]. apply wp_ret. split; [done|].
  rewrite item_of_node. rewrite fmap_app, fmap_cons in *. apply Forall_cons in Hb as [Hx%negb_false_iff _].
  destruct (lte_max (e_item x) r) eqn:Hle.
  - exists (items a), (e_item x), (items b). split; [done|].
    split; [|split; [unfold in_range; by rewrite Hx|by apply out_gte]].
    rewrite (next_item _ _ _ _ _ Hok). cbn. by rewrite item_of_node.
  - apply Forall_app. split; [by apply out_gte|]. eapply head_over; [by apply sorted_app in Hso as [_ Hso]| |done|done].
    eapply range_laws_sub; [|exact Hr]. intros y Hy. apply elem_of_app. by right.
Qed.

Lemma last_in_range_zset m zsl l : zset m zsl l -> range_laws r l ->
  wp (last_in_range zsl r) m (λ p m', m' = m /\ last_found m l p).
Proof.
  intros (es & [Hok _] & <-) Hr. pose proof (ok_sorted _ _ _ Hok) as Hso. unfold last_in_range.
  apply wp_bind. eapply wp_is_in_range; [exact Hok|done| |by intros Hno; apply wp_ret].
  intros t f _ Hhead _ Hf. cbn [negb].
  destruct (lte_split es Hso Hr) as (a & b & -> & Ha & Hb).
  apply wp_bind, (wp_search zsl (a ++ b) m (λ it _, lte_max it r) a b); [done| |].
  { by apply (splits_items _ (λ it, lte_max it r)). }
  destruct (update_first zsl a (zlevel zsl)) as [rest ->].
  { apply Hok. }
  { pose proof (ok_heights _ _ _ Hok) as Hh. apply Forall_app in Hh as [Hh _]. eapply Forall_impl; [exact Hh|]. cbn. lia. }
  destruct a as [|x a _] using rev_ind.
  { exfalso. cbn in Hhead. destruct b; [done|]. rewrite fmap_cons in *. injection Hhead as <-.
    apply Forall_cons in Hb as [Hb _]. cbn in Hb. congruence. }
  rewrite x_of_snoc. rewrite <- app_assoc in Hok. cbn [app] in Hok.
  eapply wp_bind, wp_zget; [by eapply next_item|]. cbn [ele node_of]. apply wp_ret. split; [done|].
  rewrite item_of_node. rewrite !fmap_app, fmap_cons in *.
  apply Forall_app in Ha as [_ Hx]. apply Forall_cons in Hx as [Hx _].
  destruct (gte_min (e_item x) r) eqn:Hge.
  - exists (items a), (e_item x), (items b). rewrite <- app_assoc. split; [done|].
    split; [|split; [unfold in_range; by rewrite Hge|by apply out_lte]].
    rewrite (next_item _ _ _ _ _ Hok). cbn. by rewrite item_of_node.
  - apply Forall_app. split; [|by apply out_lte]. apply sorted_app in Hso as [Hso _].
    eapply last_below; [exact Hso| |apply last_snoc|done].
    eapply range_laws_sub; [|exact Hr]. intros y Hy. apply elem_of_app. by left.
Qed.
End laws.
