(* ===== verification/ZslLaws.v ===== *)
(** The two kinds of range satisfy the laws of ranges: score ranges whose bounds are
    numbers, on every list; lexicographic ranges on the lists whose items have the same
    score, as their commands require. *)

From stdpp Require Import gmap.
From S2P Require Import Prelude State ZslOrder Zsl ZslInv ZslOps ZslIns ZslSpec ZslUpdate.

Local Open Scope Z_scope.

(** ** Score ranges *)

Definition range_ok (range : zrangespec) : Prop := isnan (rmin range) = false /\ isnan (rmax range) = false.

Lemma gte_key r v : range_ok r -> isnan v = false -> zslValueGteMin v r = true <->
  if minex r then klt (key (rmin r)) (key v) else ~ klt (key v) (key (rmin r)).
Proof.
  intros [H1 H2] Hv. unfold zslValueGteMin. destruct (minex r); [by rewrite dlt_key|].
  rewrite dle_dlt, negb_true_iff, <- not_true_iff_false by done. by rewrite dlt_key.
Qed.

Lemma lte_key r v : range_ok r -> isnan v = false -> zslValueLteMax v r = true <->
  if maxex r then klt (key v) (key (rmax r)) else ~ klt (key (rmax r)) (key v).
Proof.
  intros [H1 H2] Hv. unfold zslValueLteMax. destruct (maxex r); [by rewrite dlt_key|].
  rewrite dle_dlt, negb_true_iff, <- not_true_iff_false by done. by rewrite dlt_key.
Qed.

(** Lexicographic comparison of keys is linear. *)
Ltac key_order :=
  repeat match goal with H : context [key ?x] |- _ => generalize dependent (key x); intros [[??]?]; intros
                       | |- context [key ?x] => generalize dependent (key x); intros [[??]?]; intros end;
  cbn in *; repeat match goal with H : (_, _, _) = (_, _, _) |- _ => injection H as ? ? ? end; lia.

Lemma ilt_key a b : ilt a b -> ~ klt (key b.1) (key a.1).
Proof. intros [H|[E _]] H2; [apply (klt_irrefl (key a.1)); by eapply klt_trans|rewrite E in H2; by eapply klt_irrefl]. Qed.

Lemma gte_mono r a b : range_ok r -> isnan a.1 = false -> isnan b.1 = false -> ilt a b ->
  zslValueGteMin a.1 r = true -> zslValueGteMin b.1 r = true.
Proof. intros Hr Ha Hb H%ilt_key. rewrite !gte_key by done. destruct (minex r); intros; key_order. Qed.

Lemma lte_mono r a b : range_ok r -> isnan a.1 = false -> isnan b.1 = false -> ilt a b ->
  zslValueLteMax b.1 r = true -> zslValueLteMax a.1 r = true.
Proof. intros Hr Ha Hb H%ilt_key. rewrite !lte_key by done. destruct (maxex r); intros; key_order. Qed.

(** The ranges that [zslIsInRange] rejects at once hold no score. *)
Lemma empty_range r v : range_ok r -> isnan v = false ->
  dlt (rmax r) (rmin r) || (deq (rmin r) (rmax r) && (minex r || maxex r)) = true ->
  zslValueGteMin v r = true -> zslValueLteMax v r = true -> False.
Proof.
  intros Hr Hv. pose proof Hr as [H1 H2]. rewrite orb_true_iff, andb_true_iff, orb_true_iff, dlt_key, deq_key, gte_key, lte_key by done.
  destruct (minex r), (maxex r); intros [?|[? ?]] ? ?; try (key_order); destruct_or?; try done; key_order.
Qed.

Lemma score_laws r l : range_ok r -> sorted l -> range_laws r l.
Proof.
  intros Hr Hl. split; cbn [gte_min lte_max always_empty score_range].
  - intros x y Hx Hy. by apply gte_mono; [|eapply sorted_nan..].
  - intros x y Hx Hy. by apply lte_mono; [|eapply sorted_nan..].
  - intros x Hx. by apply empty_range; [|eapply sorted_nan].
Qed.

(** ** Lexicographic ranges *)

Definition same_scores (l : list item) : Prop := forall x y, x ∈ l -> y ∈ l -> key x.1 = key y.1.

(** The strings with the two ends. *)
Definition llt (a b : lexstring) : Prop :=
  match a, b with
  | lexstr a, lexstr b => blt a b
  | minstring, maxstring | minstring, lexstr _ | lexstr _, maxstring => True
  | _, _ => False
  end.

Lemma llt_irrefl a : ~ llt a a.
Proof. destruct a; cbn; [tauto..|apply blt_irrefl]. Qed.
Lemma llt_trans a b c : llt a b -> llt b c -> llt a c.
Proof. destruct a, b, c; cbn; try tauto. apply blt_trans. Qed.

Lemma sdscmplex_spec a b :
  sdscmplex a b < 0 /\ llt a b \/ sdscmplex a b = 0 /\ a = b \/ 0 < sdscmplex a b /\ llt b a.
Proof.
  destruct a as [| |a], b as [| |b]; cbn; try (first [left; lia | right; left; by split | right; right; lia]; fail).
  destruct (sdscmp_spec a b) as [?|[[? ->]|?]]; [by left|right; by left|by do 2 right].
Qed.

Lemma sdscmplex_lt a b : sdscmplex a b < 0 <-> llt a b.
Proof.
  destruct (sdscmplex_spec a b) as [[? ?]|[[? ->]|[? Hb]]]; split; try done; try lia.
  - intros Hb. by destruct (llt_irrefl b).
  - intros Ha. destruct (llt_irrefl a). by eapply llt_trans.
Qed.
Lemma sdscmplex_gt a b : 0 < sdscmplex a b <-> llt b a.
Proof.
  destruct (sdscmplex_spec a b) as [[? Ha]|[[? ->]|[? Hb]]]; split; try done; try lia.
  - intros Hb. destruct (llt_irrefl a). by eapply llt_trans.
  - intros Ha. by destruct (llt_irrefl b).
Qed.
Lemma sdscmplex_eq a b : sdscmplex a b = 0 -> a = b.
Proof. destruct (sdscmplex_spec a b) as [[? ?]|[[? ->]|[? ?]]]; [lia|done|lia]. Qed.

Lemma lex_gte v r : zslLexValueGteMin v r = true <->
  if lminex r then llt (lmin r) (lexstr v) else ~ llt (lexstr v) (lmin r).
Proof.
  unfold zslLexValueGteMin. destruct (lminex r); [by rewrite Z.ltb_lt, sdscmplex_gt|].
  by rewrite Z.leb_le, <- sdscmplex_lt, Z.nlt_ge.
Qed.
Lemma lex_lte v r : zslLexValueLteMax v r = true <->
  if lmaxex r then llt (lexstr v) (lmax r) else ~ llt (lmax r) (lexstr v).
Proof.
  unfold zslLexValueLteMax. destruct (lmaxex r); [by rewrite Z.ltb_lt, sdscmplex_lt|].
  by rewrite Z.leb_le, <- sdscmplex_gt, Z.nlt_ge.
Qed.

Lemma same_scores_lt l x y : same_scores l -> x ∈ l -> y ∈ l -> ilt x y -> llt (lexstr x.2) (lexstr y.2).
Proof. intros Hl Hx Hy [Hk|[_ Hb]]; [|done]. rewrite (Hl x y Hx Hy) in Hk. by apply klt_irrefl in Hk. Qed.

(** Between two strings that are not ordered there is none. *)
Lemma llt_between a b c : llt a b -> ~ llt a c -> llt c b.
Proof.
  intros Hab Hac. destruct (sdscmplex_spec c b) as [[_ ?]|[[_ ->]|[_ ?]]]; [done|done|].
  destruct Hac. by eapply llt_trans.
Qed.

Lemma lex_laws r l : same_scores l -> range_laws r l.
Proof.
  intros Hl. split; cbn [gte_min lte_max always_empty lex_range].
  - intros x y Hx Hy Hxy%(same_scores_lt l x y Hl Hx Hy). rewrite !lex_gte.
    destruct (lminex r); [by intros ?; eapply llt_trans|]. intros Hn Hy'. apply Hn. by eapply llt_trans.
  - intros x y Hx Hy Hxy%(same_scores_lt l x y Hl Hx Hy). rewrite !lex_lte.
    destruct (lmaxex r); [by intros ?; eapply llt_trans|]. intros Hn Hy'. apply Hn. by eapply llt_trans.
  - intros x _. rewrite lex_gte, lex_lte, orb_true_iff, andb_true_iff, Z.ltb_lt, Z.eqb_eq, sdscmplex_gt.
    intros [He|[He%sdscmplex_eq Hex]] H1 H2.
    + assert (Hlt : llt (lexstr x.2) (lmin r)) by (destruct (lmaxex r); [by eapply llt_trans|by eapply llt_between]).
      destruct (lminex r); [eapply llt_irrefl, llt_trans; eassumption|done].
    + rewrite <- He in H2. destruct (lminex r), (lmaxex r); try done. eapply llt_irrefl, llt_trans; eassumption.
Qed.
