(* ===== verification/ZslRange.v ===== *)
(** Deleting ranges, and freeing the list: the elements in the range, and no others,
    are deleted, and their nodes and strings are freed. *)

From stdpp Require Import gmap.
From S2P Require Import Prelude State ZslOrder Zsl ZslInv ZslOps ZslIns ZslSpec ZslUpdate ZslLaws.

Local Open Scope Z_scope.

Abbreviation elements l := (snd <$> l).

(** ** The loop *)

(** The entries [d] after [a] are in range and the next is not. *)
Definition run_of (R : item -> Z -> bool) (k : Z) (d c : list ent) : Prop :=
  (forall j x, d !! j = Some x -> R (e_item x) (u64 (k + Z.of_nat j)) = true) /\
  (forall x, head c = Some x -> R (e_item x) (u64 (k + Z.of_nat (length d))) = false).

Lemma run_of_cons R k x d c : run_of R k (x :: d) c -> u64 k = k -> R (e_item x) k = true /\ run_of R (u64 (k + 1)) d c.
Proof.
  intros [H1 H2] Hk. assert (Hadd : forall j, u64 (u64 (k + 1) + Z.of_nat j) = u64 (k + Z.of_nat (S j))).
  { intros j. unfold wrapu. rewrite Zplus_mod_idemp_l. f_equal. lia. }
  split; [specialize (H1 0%nat x eq_refl); by rewrite Z.add_0_r, Hk in H1|]. split.
  - intros j y Hy. rewrite Hadd. by apply (H1 (S j)).
  - intros y Hy. rewrite Hadd. by apply H2.
Qed.

Lemma wp_delete_loop R a c update (Q : zskiplist * list bytes -> zmem -> Prop) : forall d fuel zsl m k deleted,
  zsl_ok (heap m) zsl (a ++ d ++ c) -> (forall q, is_Some (heap m !! q) <-> q ∈ owned zsl (a ++ d ++ c)) ->
  take (zlevel zsl) update = stops (header zsl) a (zlevel zsl) -> (length d <= fuel)%nat -> u64 k = k ->
  run_of R k d c ->
  (forall zsl' m', zset m' zsl' (items (a ++ c)) -> freed m' = freed m ++ elements (items d) ->
     Q (zsl', deleted ++ elements (items d)) m') ->
  wp (delete_loop fuel (λ n k, R (item_of n) k) zsl update
        (match d ++ c with [] => None | e :: _ => Some (e_loc e) end) k deleted) m Q.
Proof.
  induction d as [|x d IH]; intros fuel zsl m k deleted Hok Hown Hup Hf Hk Hrun HQ; cbn [app] in *.
  - assert (Hdone : Q (zsl, deleted) m).
    { rewrite <- (app_nil_r deleted). apply HQ; [by exists (a ++ c)|by rewrite app_nil_r]. }
    destruct c as [|y c]; [destruct fuel; by apply wp_ret|].
    assert (HR : R (e_item y) k = false).
    { rewrite <- Hk. destruct Hrun as [_ H2]. specialize (H2 y eq_refl). by rewrite Z.add_0_r in H2. }
    destruct fuel; cbn [delete_loop]; (eapply wp_bind, wp_zget; [by eapply next_item|]);
      rewrite item_of_node, HR; by apply wp_ret.
  - destruct (run_of_cons _ _ _ _ _ Hrun Hk) as [HR Hrun']. destruct fuel as [|fuel]; [cbn in Hf; lia|]. cbn [delete_loop].
    pose proof (next_item _ _ _ _ _ Hok) as Hx. eapply wp_bind, wp_zget; [exact Hx|]. rewrite item_of_node, HR.
    pose proof (ok_heights _ _ _ Hok) as Hh. apply Forall_app in Hh as [_ Hh]. apply Forall_cons in Hh as [Hhx Hhb].
    eapply wp_bind, wp_level_at; [exact Hx|apply node_level; cbn in Hhx; lia|].
    rewrite fwd_0 by (eapply Forall_impl; [exact Hhb|]; cbn; lia).
    eapply wp_bind, wp_zslDeleteNode; [exact Hok|done|]. intros zsl' h' Hok' Hhd Hlv Hnode Hsame.
    eapply wp_bind, wp_zslFreeNode; [exact Hnode|]. cbn [ele node_of heap freed default].
    destruct (unlinked_freed m h' zsl zsl' a x (d ++ c) Hown (ok_nodup _ _ _ Hok) Hok' Hhd Hsame) as [Hokd Hownd].
    assert (Hown' := owned_all _ _ _ Hokd Hownd).
    apply IH; [done|done| |cbn in Hf; lia|unfold wrapu; apply Z.mod_mod; lia|done|].
    + rewrite Hhd, <- (take_stops _ a _ _ Hlv), <- Hup, take_take. by rewrite Nat.min_l.
    + intros zsl'' m' Hz Hfr. specialize (HQ zsl'' m' Hz). rewrite !fmap_cons in HQ. cbn [freed] in Hfr.
      rewrite <- app_assoc in Hfr |- *. by apply HQ.
Qed.

Lemma filter_none {A} (P : A -> Prop) `{forall x, Decision (P x)} l : Forall (λ x, ~ P x) l -> filter P l = [].
Proof. induction 1 as [|x l Hx Hl IH]; [done|]. by rewrite filter_cons_False. Qed.

Section delete.
Context {R : Type} `{Range R} (r : R).

(** The range is a segment of the list. *)
Lemma range_segment es : sorted (items es) -> range_laws r (items es) ->
  exists a d c, es = a ++ d ++ c /\
    Forall (λ x, negb (gte_min x r) = true) (items a) /\ Forall (λ x, negb (gte_min x r) = false) (items (d ++ c)) /\
    Forall (λ x, lte_max x r = true) (items d) /\ Forall (λ x, lte_max x r = false) (items c).
Proof.
  intros Hs Hr. destruct (gte_split r es Hs Hr) as (a & b & -> & Ha & Hb). rewrite fmap_app in Hs.
  apply sorted_app in Hs as [_ Hs]. destruct (lte_split r b Hs) as (d & c & -> & Hd & Hc); [|by exists a, d, c].
  eapply range_laws_sub; [|exact Hr]. intros x Hx. rewrite fmap_app. apply elem_of_app. by right.
Qed.

Lemma delete_range_zset m zsl l : zset m zsl l -> range_laws r l ->
  wp (delete_in_range zsl r) m (λ '(zsl', deleted) m',
    zset m' zsl' (filter (λ x, in_range r x = false) l) /\
    deleted = elements (filter (λ x, in_range r x = true) l) /\ freed m' = freed m ++ deleted).
Proof.
  intros (es & [Hok Hown] & <-) Hr.
  destruct (range_segment es (ok_sorted _ _ _ Hok) Hr) as (a & d & c & -> & Ha & Hb & Hd & Hc).
  pose proof (out_gte r _ Ha) as Hna. pose proof (out_lte r _ Hc) as Hnc.
  assert (Hyd : Forall (λ x, in_range r x = true) (items d)).
  { rewrite fmap_app in Hb. apply Forall_app in Hb as [Hb _]. rewrite Forall_forall in *. intros x Hx.
    unfold in_range. by rewrite (Hd x Hx), (proj1 (negb_false_iff _) (Hb x Hx)). }
  unfold delete_in_range.
  apply wp_bind, (wp_search zsl (a ++ d ++ c) m (λ it _, negb (gte_min it r)) a (d ++ c)); [done| |].
  { by apply (splits_items _ (λ it, negb (gte_min it r))). }
  apply wp_bind. eapply wp_next_of; [exact Hok|done|apply Hok|].
  apply (wp_delete_loop (λ it _, lte_max it r) a c); [done|done| | |done| |].
  - rewrite stops_update. by apply take_stops.
  - rewrite (ok_length _ _ _ Hok), Nat2Z.id, !length_app. lia.
  - rewrite Forall_fmap in Hd, Hc. split.
    + intros j x Hx. by apply (Forall_lookup_1 _ _ _ _ Hd Hx).
    + intros x Hx. destruct c as [|y c]; [done|]. injection Hx as ->. by apply Forall_cons in Hc as [Hc _].
  - intros zsl' m' Hz Hfr. cbn [app]. rewrite !fmap_app, !filter_app in *.
    rewrite !(filter_all _ (items a)), !(filter_all _ (items c)), (filter_none _ (items d)) by
      (done || (eapply Forall_impl; [done|]; intros ? ->; done)).
    rewrite (filter_none _ (items a)), (filter_none _ (items c)), (filter_all _ (items d)) by
      (done || (eapply Forall_impl; [done|]; intros ? ->; done)).
    cbn [app]. by rewrite app_nil_r.
Qed.
End delete.

Lemma zslDeleteRangeByRank_zset m zsl l start end_ :
  let from := Z.to_nat (start - 1) in let num := Z.to_nat (end_ - start + 1) in
  zset m zsl l -> 1 <= start < 2 ^ 32 -> 0 <= end_ < 2 ^ 32 ->
  wp (zslDeleteRangeByRank zsl start end_) m (λ '(zsl', deleted) m',
    zset m' zsl' (take from l ++ drop (from + num) l) /\
    deleted = elements (take num (drop from l)) /\ freed m' = freed m ++ deleted).
Proof.
  intros from num (es & [Hok Hown] & <-) Hst Hen. pose proof (ok_small _ _ _ Hok) as Hsmall.
  set (a := take from es). set (d := take num (drop from es)). set (c := drop (from + num) es).
  assert (Ees : es = a ++ d ++ c) by (unfold a, d, c; rewrite <- drop_drop, !take_drop; done).
  rewrite <- !fmap_take, <- !fmap_drop, <- fmap_app, <- fmap_take. fold a d c.
  pose proof Hok as Hok'. rewrite Ees in Hok', Hown. unfold zslDeleteRangeByRank.
  apply wp_bind, (wp_search zsl es m (λ _ r, r <? start) a (d ++ c)); [done| |].
  { split; [done|]. intros j x Hj. apply lookup_lt_Some in Hj. unfold a. rewrite length_take.
    destruct (Z.ltb_spec (Z.of_nat j + 1) start), (Nat.ltb_spec j (from `min` length es)); lia. }
  apply wp_bind. eapply wp_next_of; [exact Hok'|done|apply Hok|].
  destruct (update_first zsl a (zlevel zsl)) as [rest Hup].
  { apply Hok. }
  { pose proof (ok_heights _ _ _ Hok') as Hh. apply Forall_app in Hh as [Hh _]. eapply Forall_impl; [exact Hh|]. cbn. lia. }
  rewrite Hup at 2. rewrite (above_0 a _ _ _ Hok').
  assert (Hla : (length a <= length es)%nat) by (unfold a; rewrite length_take; lia).
  assert (Hlad : (length a + length d <= length es)%nat) by (rewrite Ees, !length_app; lia).
  apply (wp_delete_loop (λ _ k, k <=? end_) a c); [done|done| | | | |].
  - rewrite stops_update. by apply take_stops.
  - rewrite (ok_length _ _ _ Hok), Nat2Z.id. lia.
  - unfold wrapu. by rewrite Z.mod_mod.
  - rewrite wrapu_small by cint. split.
    + intros j x Hx. apply lookup_lt_Some in Hx. rewrite wrapu_small by cint. apply Z.leb_le.
      unfold d, a in *. rewrite !length_take, length_drop in *. lia.
    + intros x Hx. rewrite wrapu_small by cint. apply Z.leb_gt.
      assert (Hc : (0 < length c)%nat) by (destruct c; [done|simpl; lia]).
      unfold d, a, c in *. rewrite !length_take, ?length_drop in *. lia.
  - intros zsl' m' Hz Hfr. done.
Qed.
