(* ===== verification/ZslHist.v ===== *)
(** The life of a skiplist, from [zslCreate] to [zslFree].

    Every skiplist that a sequence of operations can build satisfies the invariant and
    stands for the sorted list of its items, and each string it was given is freed
    exactly once, by the operation that removes it or by [zslFree]. *)

From stdpp Require Import gmap.
From S2P Require Import Prelude State ZslOrder Zsl ZslInv ZslOps ZslIns ZslSpec ZslUpdate ZslLaws ZslRange.

Local Open Scope Z_scope.

(** ** Creating and freeing *)

Lemma zslCreate_zset m : heap m = ∅ -> wp zslCreate m (λ zsl m', zset m' zsl [] /\ freed m' = freed m).
Proof.
  intros Hm. apply wp_bind, wp_zalloc. intros p _. apply wp_ret. split; [|done]. rewrite Hm.
  exists []. split; [|done]. apply holds_intro; cbn [heap].
  - split; cbn; try done; try lia.
    + eexists. split; [by rewrite lookup_insert_eq|]. split; try done.
      * intros [|i] Hi; [done|lia].
      * intros i Hi. exists 0. apply (lookup_replicate_2 32); lia.
    + apply NoDup_singleton.
    + split; constructor.
  - intros q [v Hq]. apply lookup_insert_Some in Hq as [[<- _]|[_ Hq]]; [by left|by rewrite lookup_empty in Hq].
Qed.

Lemma wp_free_loop (Q : unit -> zmem -> Prop) : forall l fuel prev m,
  chain (heap m) prev l -> NoDup (locs l) -> Forall (λ e, (1 <= e_height e)%nat) l ->
  (forall q, is_Some (heap m !! q) -> q ∈ locs l) -> (length l <= fuel)%nat ->
  Q tt (ZMem ∅ (freed m ++ elements (items l))) ->
  wp (free_loop fuel (match l with [] => None | e :: _ => Some (e_loc e) end)) m Q.
Proof.
  induction l as [|e l IH]; intros fuel prev m Hc Hnd Hh Hown Hf HQ.
  - assert (E : m = ZMem ∅ (freed m ++ elements (items []))).
    { destruct m as [h f]. cbn in *. rewrite app_nil_r. f_equal. apply map_eq. intros q. rewrite lookup_empty.
      destruct (h !! q) eqn:Hq; [|done]. by pose proof (Hown q (mk_is_Some _ _ Hq)) as ?%elem_of_nil. }
    rewrite <- E in HQ. destruct fuel; by apply wp_ret.
  - destruct Hc as [He Hc]. apply NoDup_cons in Hnd as [Hne Hnd]. apply Forall_cons in Hh as [Hhe Hh].
    destruct fuel as [|fuel]; [cbn in Hf; lia|]. cbn [free_loop].
    eapply wp_bind, wp_level_at; [exact He|by apply node_level|]. rewrite fwd_0 by done.
    eapply wp_bind, wp_zslFreeNode; [exact He|]. cbn [ele node_of].
    apply (IH fuel (Some (e_loc e))); cbn [heap freed]; [|done|done| |cbn in Hf; lia|].
    + eapply chain_frame; [|exact Hc]. intros e' He'. rewrite lookup_delete_ne; [done|]. intros E. apply Hne.
      rewrite E. by apply list_elem_of_fmap_2.
    + intros q [v Hq]. apply lookup_delete_Some in Hq as [Hqe Hq].
      pose proof (Hown q (mk_is_Some _ _ Hq)) as Hin. rewrite fmap_cons in Hin. apply elem_of_cons in Hin as [->|?]; done.
    + rewrite <- app_assoc. exact HQ.
Qed.

Lemma zslFree_zset m zsl l : zset m zsl l ->
  wp (zslFree zsl) m (λ _ m', heap m' = ∅ /\ freed m' = freed m ++ elements l).
Proof.
  intros (es & [Hok Hown] & <-). destruct (ok_header _ _ _ Hok) as (nd & Hnd & Hh).
  assert (Hh1 : Forall (λ e, (1 <= e_height e)%nat) es) by (eapply Forall_impl; [apply Hok|]; cbn; lia).
  pose proof (ok_nodup _ _ _ Hok) as Hdup. apply NoDup_cons in Hdup as [Hne Hdup].
  eapply wp_bind, wp_level_at; [exact Hnd|apply Hh; pose proof (ok_level _ _ _ Hok); lia|]. rewrite fwd_0 by done.
  eapply wp_bind, wp_zslFreeNode; [exact Hnd|]. rewrite (hd_ele _ _ _ Hh).
  eapply (wp_free_loop _ es _ None); cbn [heap freed]; [|done|done| |rewrite (ok_length _ _ _ Hok); lia|done].
  - eapply chain_frame; [|apply Hok]. intros e' He'. rewrite lookup_delete_ne; [done|]. intros E. apply Hne.
    rewrite E. by apply list_elem_of_fmap_2.
  - intros q [v Hq]. apply lookup_delete_Some in Hq as [Hqe Hq].
    pose proof (proj1 (Hown q) (mk_is_Some _ _ Hq)) as Hin. apply elem_of_cons in Hin as [->|?]; done.
Qed.

(** ** Histories *)

(** [lives m zsl l given]: the skiplist [zsl] in the memory [m] was built by operations
    called as their callers do (the element to add is not in the list, the one to
    update is, once), its items should be [l], and it was given the strings [given]. *)
Inductive lives : zmem -> zskiplist -> list item -> list bytes -> Prop :=
| lives_create zsl m : zslCreate (ZMem ∅ []) = Some (zsl, m) -> lives m zsl [] []
| lives_insert m zsl l given draws s e zsl' x m' :
    lives m zsl l given -> isnan s = false -> Forall (λ y, ~ same_item y (s, e)) l ->
    Z.of_nat (length l) + 1 < 2 ^ 63 -> zslInsert zsl draws s e m = Some ((zsl', x), m') ->
    lives m' zsl' (insert_item (s, e) l) (e :: given)
| lives_delete m zsl l given s e r m' :
    lives m zsl l given -> isnan s = false -> zslDelete zsl s e false m = Some (r, m') ->
    lives m' r.1.1 (remove_item (s, e) l) given
| lives_update m zsl l given draws cur e new zsl' x m' :
    lives m zsl l given -> isnan cur = false -> isnan new = false -> existsb (is_item (cur, e)) l = true ->
    Forall (λ y, y.2 = e -> same_item y (cur, e)) l ->
    zslUpdateScore zsl draws cur e new m = Some ((zsl', x), m') ->
    lives m' zsl' (insert_item (new, e) (remove_item (cur, e) l)) given
| lives_delete_scores m zsl l given r zsl' deleted m' :
    lives m zsl l given -> range_ok r -> zslDeleteRangeByScore zsl r m = Some ((zsl', deleted), m') ->
    lives m' zsl' (filter (λ x, in_range r x = false) l) given
| lives_delete_lex m zsl l given r zsl' deleted m' :
    lives m zsl l given -> same_scores l -> zslDeleteRangeByLex zsl r m = Some ((zsl', deleted), m') ->
    lives m' zsl' (filter (λ x, in_range r x = false) l) given
| lives_delete_ranks m zsl l given start end_ zsl' deleted m' :
    lives m zsl l given -> 1 <= start < 2 ^ 32 -> 0 <= end_ < 2 ^ 32 ->
    zslDeleteRangeByRank zsl start end_ m = Some ((zsl', deleted), m') ->
    lives m' zsl' (take (Z.to_nat (start - 1)) l ++
                   drop (Z.to_nat (start - 1) + Z.to_nat (end_ - start + 1)) l) given.

(** A run and a total-correctness statement about it. *)
Lemma run_post {A} (f : ST zmem A) m (Q : A -> zmem -> Prop) a m' : wp f m Q -> f m = Some (a, m') -> Q a m'.
Proof. intros (a0 & m0 & E & HQ) E'. rewrite E in E'. by injection E' as -> ->. Qed.

Lemma insert_item_perm it l : insert_item it l ≡ₚ it :: l.
Proof.
  induction l as [|x l IH]; cbn; [done|]. destruct (item_ltb x it); [|done]. rewrite IH. by rewrite Permutation_swap.
Qed.

Lemma filter_perm {A} (f : A -> bool) l :
  filter (λ x, f x = false) l ++ filter (λ x, f x = true) l ≡ₚ l.
Proof.
  induction l as [|x l IH]; [done|]. rewrite !filter_cons. destruct (f x).
  - rewrite decide_False, decide_True by done. by rewrite <- Permutation_middle, IH.
  - rewrite decide_True, decide_False by done. cbn. by rewrite IH.
Qed.

Lemma elements_remove it l : isnan it.1 = false -> sorted l ->
  elements l ≡ₚ elements (remove_item it l) ++ (if existsb (is_item it) l then [it.2] else []).
Proof.
  intros Hit Hs. destruct (sorted_split ((λ x, Ent 1 1 x) <$> l) it) as (a & b & E & Ha & Hb).
  { rewrite <- list_fmap_compose. cbn. by rewrite list_fmap_id. }
  { done. }
  apply (f_equal (fmap e_item)) in E. rewrite <- list_fmap_compose in E. cbn in E. rewrite list_fmap_id, fmap_app in E. subst l.
  rewrite remove_item_split, found_split by done. destruct (items b) as [|x b'] eqn:Eb; [by rewrite !app_nil_r|].
  destruct (is_item it x) eqn:Hx; [|by rewrite app_nil_r].
  apply is_item_spec in Hx as [_ Hx]; [|done|apply (sorted_nan _ _ Hs), elem_of_app; right; by left].
  rewrite !fmap_app, fmap_cons, Hx. by rewrite <- Permutation_middle, <- Permutation_cons_append.
Qed.

Lemma segment_perm {A} (l : list A) i n : (take i l ++ drop (i + n) l) ++ take n (drop i l) ≡ₚ l.
Proof.
  rewrite <- (take_drop i l) at 4. rewrite <- (take_drop n (drop i l)) at 2. rewrite drop_drop, <- app_assoc.
  f_equiv. apply Permutation_app_comm.
Qed.

Lemma elements_freed (kept deleted l : list item) (fr : list bytes) :
  kept ++ deleted ≡ₚ l -> elements kept ++ (fr ++ elements deleted) ≡ₚ elements l ++ fr.
Proof. intros <-. rewrite fmap_app, <- app_assoc. f_equiv. apply Permutation_app_comm. Qed.

(** Histories keep the invariant; a string given is in the list or was freed, once. *)
Lemma lives_zset m zsl l given : lives m zsl l given -> zset m zsl l /\ elements l ++ freed m ≡ₚ given.
Proof.
  induction 1 as [zsl m E|m zsl l g draws s e zsl' x m' _ [Hz Hp] Hs Hnew Hsm E
    |m zsl l g s e [[zsl' found] node] m' _ [Hz Hp] Hs E|m zsl l g draws cur e new zsl' x m' _ [Hz Hp] Hc Hn Hin Hun E
    |m zsl l g r zsl' del m' _ [Hz Hp] Hr E|m zsl l g r zsl' del m' _ [Hz Hp] Hr E|m zsl l g st en zsl' del m' _ [Hz Hp] Hst Hen E].
  - destruct (run_post _ _ _ _ _ (zslCreate_zset (ZMem ∅ []) eq_refl) E) as [Hz ->]. done.
  - destruct (run_post _ _ _ _ _ (zslInsert_zset m zsl l draws s e Hz Hs Hnew Hsm) E) as (Hz' & -> & _).
    split; [done|]. rewrite insert_item_perm, fmap_cons, <- Hp. done.
  - destruct (run_post _ _ _ _ _ (zslDelete_zset m zsl l s e Hz Hs) E) as (Hz' & -> & _ & ->). split; [done|].
    rewrite <- Hp, (elements_remove (s, e) l Hs (zset_sorted _ _ _ Hz)). cbn [snd].
    rewrite <- app_assoc. f_equiv. apply Permutation_app_comm.
  - destruct (run_post _ _ _ _ _ (zslUpdateScore_zset m zsl l draws cur e new Hz Hc Hn Hin Hun) E) as (Hz' & -> & _).
    split; [done|]. rewrite <- Hp, (elements_remove (cur, e) l Hc (zset_sorted _ _ _ Hz)), Hin.
    rewrite insert_item_perm, fmap_cons. cbn [snd]. by rewrite <- Permutation_cons_append.
  - destruct (run_post _ _ _ _ _ (delete_range_zset r m zsl l Hz (score_laws r l Hr (zset_sorted _ _ _ Hz))) E)
      as (Hz' & -> & ->). split; [done|]. rewrite <- Hp. apply elements_freed, filter_perm.
  - destruct (run_post _ _ _ _ _ (delete_range_zset r m zsl l Hz (lex_laws r l Hr)) E) as (Hz' & -> & ->).
    split; [done|]. rewrite <- Hp. apply elements_freed, filter_perm.
  - destruct (run_post _ _ _ _ _ (zslDeleteRangeByRank_zset m zsl l st en Hz Hst Hen) E) as (Hz' & -> & ->). split; [done|].
    rewrite <- Hp. apply elements_freed, segment_perm.
Qed.

(** ** Ranges of any kind *)

Lemma range_ends_of `{Range R} (r : R) m zsl l : zset m zsl l -> range_laws r l ->
  exists p q, first_in_range zsl r m = Some (p, m) /\ last_in_range zsl r m = Some (q, m) /\
    first_found r m l p /\ last_found r m l q.
Proof.
  intros Hz Hr. destruct (first_in_range_zset r m zsl l Hz Hr) as (p & m1 & E1 & -> & Hp).
  destruct (last_in_range_zset r m zsl l Hz Hr) as (q & m2 & E2 & -> & Hq). by exists p, q.
Qed.

Lemma delete_range_of `{Range R} (r : R) m zsl l : zset m zsl l -> range_laws r l ->
  exists zsl' m', let deleted := elements (filter (λ x, in_range r x = true) l) in
    delete_in_range zsl r m = Some ((zsl', deleted), m') /\
    zset m' zsl' (filter (λ x, in_range r x = false) l) /\ freed m' = freed m ++ deleted.
Proof.
  intros Hz Hr. destruct (delete_range_zset r m zsl l Hz Hr) as ([zsl' del] & m' & E & Hz' & -> & Hf).
  by exists zsl', m'.
Qed.

(** ** The properties *)

(** C13: a skiplist built by [zslCreate] and any sequence of insertions, deletions,
    score updates and range deletions, called as their callers do, satisfies its
    invariant: its levels, spans, backward pointers, tail and length describe exactly
    the sorted list of the items that a list with the same operations would have, and
    no node outside the list is allocated. *)
Theorem skiplist_invariant m zsl l given : lives m zsl l given -> zset m zsl l.
Proof. intros H. by apply lives_zset in H as [H _]. Qed.

(** After any such history [zslFree] succeeds, leaves no node allocated, and every
    element string the list was given has been freed exactly once, by the operation
    that removed it or by [zslFree]. *)
Theorem skiplist_no_leak m zsl l given : lives m zsl l given ->
  exists m', zslFree zsl m = Some (tt, m') /\ heap m' = ∅ /\ freed m' ≡ₚ given.
Proof.
  intros [Hz Hp]%lives_zset. destruct (zslFree_zset m zsl l Hz) as ([] & m' & E & Hh & Hf).
  exists m'. split; [done|]. split; [done|]. by rewrite Hf, Permutation_app_comm.
Qed.

(** C23: [zslInsert] of an item that is not in the list succeeds for every random level
    and inserts it at its place in the order; it returns the node of the item and frees
    nothing. *)
Theorem zslInsert_refines m zsl l draws s e :
  zset m zsl l -> isnan s = false -> Forall (λ x, ~ same_item x (s, e)) l -> Z.of_nat (length l) + 1 < 2 ^ 63 ->
  exists zsl' x m', zslInsert zsl draws s e m = Some ((zsl', x), m') /\
    zset m' zsl' (insert_item (s, e) l) /\ freed m' = freed m /\ item_of <$> heap m' !! x = Some (s, e).
Proof.
  intros H1 H2 H3 H4. destruct (zslInsert_zset m zsl l draws s e H1 H2 H3 H4) as ([zsl' x] & m' & E & HQ).
  by exists zsl', x, m'.
Qed.

(** [zslDelete] removes the item with this score and element if there is one,
    returning 1 and freeing the node and its string, and otherwise returns 0 and changes
    nothing. *)
Theorem zslDelete_refines m zsl l s e :
  zset m zsl l -> isnan s = false ->
  exists zsl' m', let found := existsb (is_item (s, e)) l in
    zslDelete zsl s e false m = Some ((zsl', found, None), m') /\
    zset m' zsl' (remove_item (s, e) l) /\ freed m' = freed m ++ if found then [e] else [].
Proof.
  intros H1 H2. destruct (zslDelete_zset m zsl l s e H1 H2) as ([[zsl' found] node] & m' & E & Hz & -> & -> & Hf).
  by exists zsl', m'.
Qed.

(** C24: [zslUpdateScore] of an element of the list gives the list in which the element
    has the new score, at its new place, whether the node is updated in place or a new
    one is linked; the element's string is not freed, and no node is leaked. *)
Theorem zslUpdateScore_refines m zsl l draws cur e new :
  zset m zsl l -> isnan cur = false -> isnan new = false ->
  existsb (is_item (cur, e)) l = true -> Forall (λ x, x.2 = e -> same_item x (cur, e)) l ->
  exists zsl' x m', zslUpdateScore zsl draws cur e new m = Some ((zsl', x), m') /\
    zset m' zsl' (insert_item (new, e) (remove_item (cur, e) l)) /\ freed m' = freed m /\
    item_of <$> heap m' !! x = Some (new, e).
Proof.
  intros H1 H2 H3 H4 H5.
  destruct (zslUpdateScore_zset m zsl l draws cur e new H1 H2 H3 H4 H5) as ([zsl' x] & m' & E & HQ).
  by exists zsl', x, m'.
Qed.

(** Ranks and elements: [zslGetRank] gives the 1-based position of an item of the
    list and 0 for one that is not in it, and [zslGetElementByRank] gives back the node
    of that item from its rank. *)
Theorem rank_roundtrip m zsl l s e :
  zset m zsl l -> isnan s = false ->
  (forall i x, l !! i = Some x -> same_item x (s, e) ->
     exists p, zslGetRank zsl s e m = Some (Z.of_nat i + 1, m) /\
       zslGetElementByRank zsl (Z.of_nat i + 1) m = Some (Some p, m) /\ item_of <$> heap m !! p = Some x) /\
  (Forall (λ x, ~ same_item x (s, e)) l -> zslGetRank zsl s e m = Some (0, m)).
Proof.
  intros Hz Hs. destruct (zslGetRank_zset m zsl l s e Hz Hs) as (r & m1 & E & -> & Hin & Hout). split.
  - intros i x Hi Hx. assert (Hlt : Z.of_nat (length l) < 2 ^ 63).
    { destruct Hz as (es & [Hok _] & <-). rewrite length_fmap. apply Hok. }
    pose proof (lookup_lt_Some _ _ _ Hi) as Hil.
    destruct (zslGetElementByRank_zset m zsl l (Z.of_nat i + 1) Hz ltac:(lia)) as (q & m2 & E2 & -> & _ & Hq & _).
    destruct (Hq i x Hi eq_refl) as (p & -> & Hp). exists p. by rewrite E, (Hin i x Hi Hx).
  - intros Hno. by rewrite E, (Hout Hno).
Qed.

(** [zslFirstInRange] and [zslLastInRange] return the nodes of the first and of the
    last item whose score is in the range, and NULL exactly when no score is; so do
    [zslFirstInLexRange] and [zslLastInLexRange] for the elements, in a list whose items
    have the same score.  Their assertions hold and the early test is right. *)
Theorem range_ends m zsl l :
  zset m zsl l ->
  (forall r, range_ok r -> exists p q,
     zslFirstInRange zsl r m = Some (p, m) /\ zslLastInRange zsl r m = Some (q, m) /\
     first_found r m l p /\ last_found r m l q) /\
  (same_scores l -> forall r, exists p q,
     zslFirstInLexRange zsl r m = Some (p, m) /\ zslLastInLexRange zsl r m = Some (q, m) /\
     first_found r m l p /\ last_found r m l q).
Proof.
  intros Hz. split; [intros r Hr; apply range_ends_of; [done|]; apply score_laws; [done|by eapply zset_sorted]|].
  intros Hs r. apply range_ends_of; [done|]. by apply lex_laws.
Qed.

(** [zslDeleteRangeByScore] deletes the items whose score is in the range and no
    others, passes their elements to the dictionary in order, and frees them; so does
    [zslDeleteRangeByLex] with the elements in the range, in a list whose items have the
    same score. *)
Theorem delete_range_refines m zsl l :
  zset m zsl l ->
  (forall r, range_ok r -> exists zsl' m', let deleted := elements (filter (λ x, in_range r x = true) l) in
     zslDeleteRangeByScore zsl r m = Some ((zsl', deleted), m') /\
     zset m' zsl' (filter (λ x, in_range r x = false) l) /\ freed m' = freed m ++ deleted) /\
  (same_scores l -> forall r, exists zsl' m', let deleted := elements (filter (λ x, in_range r x = true) l) in
     zslDeleteRangeByLex zsl r m = Some ((zsl', deleted), m') /\
     zset m' zsl' (filter (λ x, in_range r x = false) l) /\ freed m' = freed m ++ deleted).
Proof.
  intros Hz. split; [intros r Hr; apply delete_range_of; [done|]; apply score_laws; [done|by eapply zset_sorted]|].
  intros Hs r. apply delete_range_of; [done|]. by apply lex_laws.
Qed.

(** [zslDeleteRangeByRank] deletes the items of the ranks from [start] to [end],
    1-based and inclusive, for every pair of 32-bit ranks, in or out of the list. *)
Theorem zslDeleteRangeByRank_refines m zsl l start end_ :
  zset m zsl l -> 1 <= start < 2 ^ 32 -> 0 <= end_ < 2 ^ 32 ->
  exists zsl' m', let from := Z.to_nat (start - 1) in let num := Z.to_nat (end_ - start + 1) in
    let deleted := elements (take num (drop from l)) in
    zslDeleteRangeByRank zsl start end_ m = Some ((zsl', deleted), m') /\
    zset m' zsl' (take from l ++ drop (from + num) l) /\ freed m' = freed m ++ deleted.
Proof.
  intros Hz Hs He. destruct (zslDeleteRangeByRank_zset m zsl l start end_ Hz Hs He) as ([zsl' del] & m' & E & Hz' & -> & Hf).
  by exists zsl', m'.
Qed.

(** ** An example: three items, one of them linked at two levels *)

Definition one : double := S754_finite false 4503599627370496 (-52).
Definition two : double := S754_finite false 4503599627370496 (-51).
Definition three : double := S754_finite false 6755399441055744 (-51).

Definition state_of {A} (r : option (zskiplist * A * zmem)) : zskiplist * zmem :=
  match r with Some (zsl, _, m) => (zsl, m) | None => (Zsl 1 None 0 1, ZMem ∅ []) end.

Definition ex0 : zskiplist * zmem :=
  match zslCreate (ZMem ∅ []) with Some r => r | None => (Zsl 1 None 0 1, ZMem ∅ []) end.
Definition ex1 := Eval vm_compute in state_of (zslInsert ex0.1 [] two [98] ex0.2).
Definition ex2 := Eval vm_compute in state_of (zslInsert ex1.1 [0; 2147483647] one [97] ex1.2).
Definition ex3 := Eval vm_compute in state_of (zslInsert ex2.1 [] two [99] ex2.2).

Definition ex_items : list item := [(one, [97]); (two, [98]); (two, [99])].

Ltac ex_insert draws s e H :=
  eapply (lives_insert _ _ _ _ draws s e); [exact H|reflexivity| |cbn; lia|vm_compute; reflexivity];
  repeat (constructor; [intros [_ E]; discriminate E|]); constructor.

Lemma ex1_lives : lives ex1.2 ex1.1 (insert_item (two, [98]) []) [[98]].
Proof. assert (H : lives ex0.2 ex0.1 [] []) by (apply lives_create; vm_compute; reflexivity). ex_insert (@nil Z) two [98] H. Qed.
Lemma ex2_lives : lives ex2.2 ex2.1 (insert_item (one, [97]) (insert_item (two, [98]) [])) [[97]; [98]].
Proof. ex_insert [0; 2147483647] one [97] ex1_lives. Qed.
Lemma ex3_lives : lives ex3.2 ex3.1 (insert_item (two, [99]) (insert_item (one, [97]) (insert_item (two, [98]) []))) [[99]; [97]; [98]].
Proof. ex_insert (@nil Z) two [99] ex2_lives. Qed.

Lemma ex_zset : zset ex3.2 ex3.1 ex_items.
Proof. apply (lives_zset _ _ _ _ ex3_lives). Qed.

Lemma skiplist_invariant_witness : zset ex3.2 ex3.1 (insert_item (two, [99]) (insert_item (one, [97]) (insert_item (two, [98]) []))).
Proof. exact (skiplist_invariant _ _ _ _ ex3_lives). Defined.

Lemma skiplist_no_leak_witness :
  exists m', zslFree ex3.1 ex3.2 = Some (tt, m') /\ heap m' = ∅ /\ freed m' ≡ₚ [[99]; [97]; [98]].
Proof. exact (skiplist_no_leak _ _ _ _ ex3_lives). Defined.

Lemma zslInsert_refines_witness :
  exists zsl' x m', zslInsert ex3.1 [] three [97] ex3.2 = Some ((zsl', x), m') /\
    zset m' zsl' (ex_items ++ [(three, [97])]) /\ freed m' = [] /\ item_of <$> heap m' !! x = Some (three, [97]).
Proof.
  apply (zslInsert_refines _ _ _ [] three [97] ex_zset eq_refl); [|cbn; lia].
  repeat (constructor; [intros [E1 E2]; discriminate|]). constructor.
Defined.

Lemma zslDelete_refines_witness :
  exists zsl' m', zslDelete ex3.1 two [98] false ex3.2 = Some ((zsl', true, None), m') /\
    zset m' zsl' [(one, [97]); (two, [99])] /\ freed m' = [[98]].
Proof. exact (zslDelete_refines _ _ _ two [98] ex_zset eq_refl). Defined.

Lemma zslUpdateScore_refines_witness :
  exists zsl' x m', zslUpdateScore ex3.1 [0; 0; 2147483647] one [97] three ex3.2 = Some ((zsl', x), m') /\
    zset m' zsl' [(two, [98]); (two, [99]); (three, [97])] /\ freed m' = [] /\
    item_of <$> heap m' !! x = Some (three, [97]).
Proof.
  apply (zslUpdateScore_refines _ _ _ [0; 0; 2147483647] one [97] three ex_zset eq_refl eq_refl eq_refl).
  repeat (constructor; [intros E; first [discriminate E | done]|]). constructor.
Defined.

Lemma rank_roundtrip_witness :
  (forall i x, ex_items !! i = Some x -> same_item x (two, [99]) ->
     exists p, zslGetRank ex3.1 two [99] ex3.2 = Some (Z.of_nat i + 1, ex3.2) /\
       zslGetElementByRank ex3.1 (Z.of_nat i + 1) ex3.2 = Some (Some p, ex3.2) /\ item_of <$> heap ex3.2 !! p = Some x) /\
  (Forall (λ x, ~ same_item x (two, [99])) ex_items -> zslGetRank ex3.1 two [99] ex3.2 = Some (0, ex3.2)).
Proof. exact (rank_roundtrip _ _ _ two [99] ex_zset eq_refl). Defined.

Definition ex_range : zrangespec := ZRange one two true false.

(** A list whose items have the same score. *)
Definition ex_two := Eval vm_compute in state_of (zslInsert ex1.1 [] two [99] ex1.2).
Definition two_items : list item := [(two, [98]); (two, [99])].
Definition ex_lex : zlexrangespec := ZLexRange (lexstr [98]) maxstring true true.

Lemma ex_two_lives : lives ex_two.2 ex_two.1 (insert_item (two, [99]) (insert_item (two, [98]) [])) [[99]; [98]].
Proof. ex_insert (@nil Z) two [99] ex1_lives. Qed.
Lemma ex_two_zset : zset ex_two.2 ex_two.1 two_items.
Proof. apply (lives_zset _ _ _ _ ex_two_lives). Qed.
Lemma ex_two_same : same_scores two_items.
Proof.
  assert (H : forall x, x ∈ two_items -> key x.1 = key two).
  { intros x [->|[->|[]%elem_of_nil]%elem_of_cons]%elem_of_cons; done. }
  intros x y Hx Hy. by rewrite (H x Hx), (H y Hy).
Qed.

Lemma range_ends_witness :
  (exists p q, zslFirstInRange ex3.1 ex_range ex3.2 = Some (p, ex3.2) /\
    zslLastInRange ex3.1 ex_range ex3.2 = Some (q, ex3.2) /\
    first_found ex_range ex3.2 ex_items p /\ last_found ex_range ex3.2 ex_items q) /\
  (exists p q, zslFirstInLexRange ex_two.1 ex_lex ex_two.2 = Some (p, ex_two.2) /\
    zslLastInLexRange ex_two.1 ex_lex ex_two.2 = Some (q, ex_two.2) /\
    first_found ex_lex ex_two.2 two_items p /\ last_found ex_lex ex_two.2 two_items q).
Proof.
  split; [exact (proj1 (range_ends _ _ _ ex_zset) ex_range (conj eq_refl eq_refl))|].
  exact (proj2 (range_ends _ _ _ ex_two_zset) ex_two_same ex_lex).
Defined.

Lemma delete_range_refines_witness :
  (exists zsl' m', zslDeleteRangeByScore ex3.1 ex_range ex3.2 = Some ((zsl', [[98]; [99]]), m') /\
    zset m' zsl' [(one, [97])] /\ freed m' = [[98]; [99]]) /\
  (exists zsl' m', zslDeleteRangeByLex ex_two.1 ex_lex ex_two.2 = Some ((zsl', [[99]]), m') /\
    zset m' zsl' [(two, [98])] /\ freed m' = [[99]]).
Proof.
  split; [exact (proj1 (delete_range_refines _ _ _ ex_zset) ex_range (conj eq_refl eq_refl))|].
  exact (proj2 (delete_range_refines _ _ _ ex_two_zset) ex_two_same ex_lex).
Defined.

Lemma zslDeleteRangeByRank_refines_witness :
  exists zsl' m', zslDeleteRangeByRank ex3.1 2 9 ex3.2 = Some ((zsl', [[98]; [99]]), m') /\
    zset m' zsl' [(one, [97])] /\ freed m' = [[98]; [99]].
Proof. apply (zslDeleteRangeByRank_refines _ _ _ 2 9 ex_zset); lia. Defined.
