(* ===== verification/Zset.v ===== *)
(** Sorted sets in their large encoding: a dictionary and a skiplist that share the
    elements, the functions of [t_zset.c] above them.

    The dictionary maps an element to a pointer to the score inside its skiplist node,
    here the address of the node.  The hash function of the dictionary is a parameter,
    as is the sequence of random numbers of each call. *)

From stdpp Require Import gmap.
From S2P Require Import Prelude State Dict DictWf DictRehash DictOps DictSpec DictMap.
From S2P Require Import ZslOrder Zsl.

Local Open Scope Z_scope.

(** ** Flags and arithmetic *)

Definition ZADD_IN_INCR := Z.shiftl 1 0.
Definition ZADD_IN_NX := Z.shiftl 1 1.
Definition ZADD_IN_XX := Z.shiftl 1 2.
Definition ZADD_IN_GT := Z.shiftl 1 3.
Definition ZADD_IN_LT := Z.shiftl 1 4.
Definition ZADD_OUT_NOP := Z.shiftl 1 0.
Definition ZADD_OUT_NAN := Z.shiftl 1 1.
Definition ZADD_OUT_ADDED := Z.shiftl 1 2.
Definition ZADD_OUT_UPDATED := Z.shiftl 1 3.

Definition flag (flags f : Z) : bool := negb (Z.land flags f =? 0).

(** Addition of doubles, rounded to the nearest. *)
Abbreviation dadd := (SFadd 53 1024).

(** ** The object *)

(** The two memories are disjoint: the entries of the dictionary and the nodes of the
    skiplist. *)
Record zobj := ZObj { zs_dict : world bytes loc; zs_mem : zmem; zs_zsl : zskiplist }.

Abbreviation Z_ := (ST zobj).

Definition on_dict {A} (f : ST (world bytes loc) A) : Z_ A :=
  λ o, '(a, w) ← f (zs_dict o); Some (a, ZObj w (zs_mem o) (zs_zsl o)).
Definition on_mem {A} (f : ST zmem A) : Z_ A :=
  λ o, '(a, m) ← f (zs_mem o); Some (a, ZObj (zs_dict o) m (zs_zsl o)).
Definition set_zsl (zsl : zskiplist) : Z_ unit := λ o, Some (tt, ZObj (zs_dict o) (zs_mem o) zsl).

(** [dictSdsKeyCompare]; the lengths fit in an [int]. *)
Definition dictSdsKeyCompare (key1 key2 : bytes) : bool :=
  if (length key1 =? length key2)%nat then memcmp key1 key2 (length key1) =? 0 else false.

Section zset.
Context (dictSdsHash : bytes -> Z).

(** No destructors: the string is shared with the skiplist, which frees it. *)
Definition zsetDictType : dictType bytes loc :=
  DictType bytes loc dictSdsHash None None (Some dictSdsKeyCompare) false false None None.

Definition createZsetObject (junk : dict) (resize : dictResizeEnable) : option zobj :=
  '(_, w) ← dictCreate junk (World junk ∅ [] resize);
  '(zsl, m) ← zslCreate (ZMem ∅ []);
  Some (ZObj w m zsl).

Definition zsetLength : Z_ Z := o ← get; mret (zlength (zs_zsl o)).

(** [dictGetVal(de)], and the score it points to. *)
Definition entry_node (de : loc) : Z_ loc :=
  e ← on_dict (load de); match e_val e with Some p => mret p | None => fail end.
Definition entry_score (de : loc) : Z_ double :=
  p ← entry_node de; n ← on_mem (zget p); mret (score n).

(** [None] is [C_ERR]. *)
Definition zsetScore (member : bytes) : Z_ (option double) :=
  de ← on_dict (dictFind zsetDictType member);
  match de with
  | None => mret None
  | Some de => s ← entry_score de; mret (Some s)
  end.

Record add_result := Added { ret : Z; out_flags : Z; newscore : option double }.

(** [zsetAdd] for an object in this encoding. *)
Definition zsetAdd (draws : list Z) (score : double) (ele : bytes) (in_flags : Z) : Z_ add_result :=
  let incr := flag in_flags ZADD_IN_INCR in
  let nx := flag in_flags ZADD_IN_NX in
  let xx := flag in_flags ZADD_IN_XX in
  let gt := flag in_flags ZADD_IN_GT in
  let lt := flag in_flags ZADD_IN_LT in
  if isnan score then mret (Added 0 ZADD_OUT_NAN None) else
  de ← on_dict (dictFind zsetDictType ele);
  match de with
  | Some de =>
      if nx then mret (Added 1 ZADD_OUT_NOP None) else
      curscore ← entry_score de;
      let score := if incr then dadd score curscore else score in
      if incr && isnan score then mret (Added 0 ZADD_OUT_NAN None) else
      if (lt && dle curscore score) || (gt && dle score curscore) then mret (Added 1 ZADD_OUT_NOP None) else
      if negb (deq score curscore) then
        o ← get;
        '(zsl, znode) ← on_mem (zslUpdateScore (zs_zsl o) draws curscore ele score);
        set_zsl zsl;;
        on_dict (dictSetVal zsetDictType de znode);;
        mret (Added 1 ZADD_OUT_UPDATED (Some score))
      else mret (Added 1 0 (Some score))
  | None =>
      if negb xx then
        o ← get;
        '(zsl, znode) ← on_mem (zslInsert (zs_zsl o) draws score ele);
        set_zsl zsl;;
        r ← on_dict (dictAdd zsetDictType ele znode);
        if r =? DICT_OK then mret (Added 1 ZADD_OUT_ADDED (Some score)) else fail
      else mret (Added 1 ZADD_OUT_NOP None)
  end.

(** [dictGetVal(de)] is read before the entry is freed. *)
Definition zsetRemoveFromSkiplist (ele : bytes) : Z_ bool :=
  de ← on_dict (dictUnlink zsetDictType ele);
  match de with
  | None => mret false
  | Some de =>
      s ← entry_score de;
      on_dict (dictFreeUnlinkedEntry zsetDictType (Some de));;
      o ← get;
      '(zsl, retval, _) ← on_mem (zslDelete (zs_zsl o) s ele false);
      set_zsl zsl;;
      if retval : bool then mret true else fail
  end.

Definition HASHTABLE_MIN_FILL : Z := 10.

Definition htNeedsResize (d : dict) : bool :=
  let size := dictSlots d in
  let used := dictSize d in
  (DICT_HT_INITIAL_SIZE <? size) && (Z.quot (used * 100) size <? HASHTABLE_MIN_FILL).

Definition zsetDel (ele : bytes) : Z_ bool :=
  r ← zsetRemoveFromSkiplist ele;
  if r : bool then
    o ← get;
    (if htNeedsResize (w_dict (zs_dict o)) then on_dict dictResize else mret 0);;
    mret true
  else mret false.

(** The 0-based rank, -1 for an absent element. *)
Definition zsetRank (ele : bytes) (reverse : bool) : Z_ Z :=
  llen ← zsetLength;
  de ← on_dict (dictFind zsetDictType ele);
  match de with
  | None => mret (-1)
  | Some de =>
      s ← entry_score de;
      o ← get;
      rank ← on_mem (zslGetRank (zs_zsl o) s ele);
      if rank =? 0 then fail else
      mret (i64 (if reverse then u64 (llen - rank) else u64 (rank - 1)))
  end.
End zset.
