(* ===== verification/ZsetSpec.v ===== *)
(** The contract of the sorted set: the dictionary and the skiplist hold the same
    elements, and every operation does what it does on a sorted list of items with
    distinct elements. *)

From stdpp Require Import gmap.
From S2P Require Import Prelude State Dict DictWf DictRehash DictOps DictSpec DictMap.
From S2P Require Import ZslOrder Zsl ZslInv ZslOps ZslIns ZslSpec ZslUpdate ZslRange ZslHist Zset.

Local Open Scope Z_scope.

(** ** The dictionary type *)

Lemma memcmp_eq a b : length a = length b -> memcmp a b (length a) = 0 <-> a = b.
Proof.
  revert b. induction a as [|x a IH]; intros [|y b] Hl; try done. cbn. injection Hl as Hl.
  destruct (Z.eqb_spec x y) as [->|Hne]; [rewrite IH by done; split; congruence|].
  split; [lia|congruence].
Qed.

Lemma dictSdsKeyCompare_eq k1 k2 : dictSdsKeyCompare k1 k2 = true <-> k1 = k2.
Proof.
  unfold dictSdsKeyCompare. destruct (Nat.eqb_spec (length k1) (length k2)) as [E|Hne].
  - by rewrite Z.eqb_eq, memcmp_eq.
  - split; [done|]. intros ->. done.
Qed.

(** ** Sorted lists of items *)

Definition score_of (e : bytes) (l : list item) : option double :=
  match filter (λ x, x.2 = e) l with x :: _ => Some x.1 | [] => None end.

Definition with_score (e : bytes) (s : double) (l : list item) : list item :=
  insert_item (s, e) (filter (λ x, x.2 <> e) l).

Definition position (e : bytes) (l : list item) : option nat := fst <$> list_find (λ x, x.2 = e) l.

(** The result of an addition and the score to set, if any, from the current score. *)
Definition zadd_reference (flags : Z) (score : double) (cur : option double) : add_result * option double :=
  let nop := (Added 1 ZADD_OUT_NOP None, None) in
  let nan := (Added 0 ZADD_OUT_NAN None, None) in
  if isnan score then nan else
  match cur with
  | None => if flag flags ZADD_IN_XX then nop else (Added 1 ZADD_OUT_ADDED (Some score), Some score)
  | Some c =>
      let s := if flag flags ZADD_IN_INCR then dadd score c else score in
      if flag flags ZADD_IN_NX then nop
      else if isnan s then nan
      else if (flag flags ZADD_IN_LT && negb (dlt s c)) || (flag flags ZADD_IN_GT && negb (dlt c s)) then nop
      else if deq s c then (Added 1 0 (Some s), None)
      else (Added 1 ZADD_OUT_UPDATED (Some s), Some s)
  end.

(** ** The invariant *)

Definition indexes (d : gmap bytes (option loc)) (es : list ent) : Prop :=
  forall e v, d !! e = Some v <-> exists x, x ∈ es /\ (e_item x).2 = e /\ v = Some (e_loc x).

Lemma indexes_perm d es es' : es ≡ₚ es' -> indexes d es -> indexes d es'.
Proof. intros Hp Hi e v. rewrite (Hi e v). by setoid_rewrite Hp. Qed.

Lemma indexes_cons d x es : (forall y, y ∈ es -> (e_item y).2 <> (e_item x).2) ->
  indexes d es -> indexes (<[(e_item x).2 := Some (e_loc x)]> d) (x :: es).
Proof.
  intros Hx Hi e v. rewrite lookup_insert_Some, (Hi e v). setoid_rewrite elem_of_cons. split.
  - intros [[<- <-]|[_ (y & Hy & <- & ->)]]; [by exists x; auto|by exists y; auto].
  - intros (y & [->|Hy] & <- & ->); [by left|right]. split; [by apply not_eq_sym, Hx|]. by exists y.
Qed.

Lemma indexes_tail d x es : NoDup (locs (x :: es)) -> indexes d (x :: es) ->
  (forall y, y ∈ es -> (e_item y).2 <> (e_item x).2) /\ indexes (delete (e_item x).2 d) es.
Proof.
  intros [Hx _]%NoDup_cons Hi.
  assert (Hne : forall y, y ∈ es -> (e_item y).2 <> (e_item x).2).
  { intros y Hy E. apply Hx. assert (Hdx : d !! (e_item x).2 = Some (Some (e_loc x))) by (apply Hi; exists x; by split_and!; [left|..]).
    assert (Hdy : d !! (e_item x).2 = Some (Some (e_loc y))) by (apply Hi; exists y; by split_and!; [right|..]).
    rewrite Hdx in Hdy. injection Hdy as ->. by apply list_elem_of_fmap_2. }
  split; [done|]. intros e v. rewrite lookup_delete_Some, (Hi e v). setoid_rewrite elem_of_cons. split.
  - intros [Hxe (y & [->|Hy] & <- & ->)]; [done|]. by exists y.
  - intros (y & Hy & <- & ->). split; [by apply not_eq_sym, Hne|]. exists y. auto.
Qed.

Lemma indexes_size d es : NoDup (locs es) -> indexes d es -> size d = length es.
Proof.
  revert d. induction es as [|x es IH]; intros d Hnd Hi.
  - assert (d = ∅) as ->; [|apply map_size_empty]. apply map_eq. intros e. rewrite lookup_empty.
    destruct (d !! e) as [v|] eqn:E; [|done]. apply Hi in E as (y & Hy%elem_of_nil & _). done.
  - destruct (indexes_tail d x es Hnd Hi) as [_ Hi']. apply NoDup_cons in Hnd as [_ Hnd].
    specialize (IH _ Hnd Hi'). assert (Hx : d !! (e_item x).2 = Some (Some (e_loc x))) by (apply Hi; exists x; by split_and!; [left|..]).
    rewrite <- (insert_delete_id d _ _ Hx), map_size_insert_None by apply lookup_delete_eq. cbn. by rewrite IH.
Qed.

Lemma indexes_absent d es e : indexes d es -> d !! e = None <-> forall x, x ∈ es -> (e_item x).2 <> e.
Proof.
  intros Hi. split.
  - intros Hn x Hx E. assert (d !! e = Some (Some (e_loc x))); [|congruence]. apply Hi. by exists x.
  - intros Hall. destruct (d !! e) as [v|] eqn:E; [|done]. apply Hi in E as (x & Hx & E & _). by destruct (Hall x Hx).
Qed.

(** ** Lists with distinct elements *)

Definition distinct (l : list item) : Prop := NoDup l.*2.

Lemma score_of_None e l : Forall (λ x, x.2 <> e) l -> score_of e l = None /\ filter (λ x, x.2 <> e) l = l.
Proof. intros H. unfold score_of. rewrite filter_none by done. by rewrite filter_all. Qed.

Lemma distinct_split a x b e : distinct (a ++ x :: b) -> x.2 = e ->
  score_of e (a ++ x :: b) = Some x.1 /\ filter (λ y, y.2 <> e) (a ++ x :: b) = a ++ b /\
  position e (a ++ x :: b) = Some (length a) /\ Forall (λ y, y.2 <> e) (a ++ b).
Proof.
  unfold distinct. rewrite fmap_app, fmap_cons. intros Hnd Hx.
  assert (Hab : Forall (λ y, y.2 <> e) a /\ Forall (λ y, y.2 <> e) b).
  { rewrite <- Permutation_middle in Hnd. apply NoDup_cons in Hnd as [Hn _]. rewrite not_elem_of_app in Hn.
    destruct Hn as [Ha Hb]. rewrite !Forall_forall. subst e.
    split; intros y Hy E; [apply Ha|apply Hb]; rewrite <- E; by apply list_elem_of_fmap_2. }
  destruct Hab as [Ha Hb]. split_and!.
  - unfold score_of. rewrite filter_app, (filter_none _ a), filter_cons_True by done. done.
  - rewrite filter_app, filter_cons_False, !filter_all by (done || tauto). done.
  - unfold position. rewrite (proj2 (list_find_Some _ _ (length a) x)); [done|].
    split; [by apply list_lookup_middle|]. split; [done|]. intros j y Hj Hlt.
    rewrite lookup_app_l in Hj by done. rewrite Forall_forall in Ha. eapply Ha, list_elem_of_lookup_2, Hj.
  - by apply Forall_app.
Qed.

(** With distinct elements, removing the item is removing the element. *)
Lemma remove_item_distinct l s e : sorted l -> distinct l -> isnan s = false -> score_of e l = Some s ->
  remove_item (s, e) l = filter (λ x, x.2 <> e) l /\ existsb (is_item (s, e)) l = true /\
  Forall (λ x, x.2 = e -> same_item x (s, e)) l.
Proof.
  intros Hs Hd Hn Hsc.
  assert (Hin : exists a x b, l = a ++ x :: b /\ x.2 = e).
  { unfold score_of in Hsc. destruct (filter _ l) as [|x f] eqn:E; [done|].
    assert (Hx : x ∈ filter (λ x, x.2 = e) l) by (rewrite E; by left).
    apply list_elem_of_filter in Hx as [Hx Hxl]. apply list_elem_of_split in Hxl as (a & b & ->). by exists a, x, b. }
  destruct Hin as (a & x & b & -> & Hx). destruct (distinct_split a x b e Hd Hx) as (Hsc' & Hf & _ & Hab).
  rewrite Hsc' in Hsc. injection Hsc as Hxs. destruct x as [s' e']. cbn in Hx, Hxs. subst s' e'.
  assert (Hit : is_item (s, e) (s, e) = true) by (apply is_item_spec; [done..|by split]).
  assert (Hno : Forall (λ y, is_item (s, e) y = false) (a ++ b)).
  { rewrite Forall_forall in *. intros y Hy. specialize (Hab y Hy). unfold is_item. cbn.
    rewrite (proj2 (Z.eqb_neq _ 0)); [apply andb_false_r|]. by rewrite sdscmp_eq. }
  split_and!.
  - rewrite Hf. apply Forall_app in Hno as [Ha Hb]. unfold remove_item.
    rewrite filter_app, filter_cons_False, !filter_all by (done || by rewrite Hit). done.
  - apply existsb_exists. exists (s, e). split; [|done]. apply in_or_app. right. by left.
  - apply Forall_app in Hab as [Ha Hb]. apply Forall_app. split; [|constructor; [done|]].
    + eapply Forall_impl; [exact Ha|]. intros y H1 H2. done.
    + eapply Forall_impl; [exact Hb|]. intros y H1 H2. done.
Qed.

(** ** Programs on the two memories *)

Lemma wp_on_dict {A} (f : ST (world bytes loc) A) o (Q : A -> zobj -> Prop) :
  wp f (zs_dict o) (λ a w, Q a (ZObj w (zs_mem o) (zs_zsl o))) -> wp (on_dict f) o Q.
Proof. intros (a & w & E & HQ). eexists _, _. split; [|exact HQ]. unfold on_dict. by rewrite E. Qed.

Lemma wp_on_mem {A} (f : ST zmem A) o (Q : A -> zobj -> Prop) :
  wp f (zs_mem o) (λ a m, Q a (ZObj (zs_dict o) m (zs_zsl o))) -> wp (on_mem f) o Q.
Proof. intros (a & w & E & HQ). eexists _, _. split; [|exact HQ]. unfold on_mem. by rewrite E. Qed.

Lemma wp_set_zsl zsl o (Q : unit -> zobj -> Prop) : Q tt (ZObj (zs_dict o) (zs_mem o) zsl) -> wp (set_zsl zsl) o Q.
Proof. intros HQ. by eexists _, _. Qed.

Section zset.
Context (hash : bytes -> Z) (Hhash : forall k, in_u 64 (hash k)).
Abbreviation type := (zsetDictType hash).
Abbreviation dmap := (dmap (λ k : bytes, k)).
Abbreviation wf := (wf type (λ k : bytes, k)).

#[local] Instance zset_laws : DictLaws type (λ k : bytes, k).
Proof using Hhash.
  split; [|by intros k1 k2 ->|intros k; apply Hhash|done].
  intros k1 k2. apply dictSdsKeyCompare_eq.
Qed.

(** The object stands for the entries [es]: both structures hold them. *)
Record zobj_ok (o : zobj) (es : list ent) : Prop := {
  zo_zsl : holds (zs_mem o) (zs_zsl o) es;
  zo_wf : wf (zs_dict o);
  zo_index : indexes (dmap (zs_dict o)) es }.

Definition sorted_set (o : zobj) (l : list item) : Prop := exists es, zobj_ok o es /\ items es = l.

Lemma zobj_locs o es : zobj_ok o es -> NoDup (locs es).
Proof. intros [[Hok _] _ _]. pose proof (ok_nodup _ _ _ Hok) as Hnd. by apply NoDup_cons in Hnd as [_ Hnd]. Qed.

Lemma zobj_distinct o es : zobj_ok o es -> distinct (items es).
Proof.
  intros Hok. pose proof (zobj_locs _ _ Hok) as Hnd. destruct Hok as [_ _ Hi].
  unfold distinct. rewrite <- list_fmap_compose. revert Hnd Hi. generalize (dmap (zs_dict o)). clear o.
  induction es as [|x es IH]; intros d Hnd Hi; [constructor|].
  destruct (indexes_tail d x es Hnd Hi) as [Hne Hi']. apply NoDup_cons in Hnd as [_ Hnd].
  rewrite fmap_cons. apply NoDup_cons. split; [|by eapply IH].
  intros (y & E & Hy)%list_elem_of_fmap. by apply (Hne y Hy).
Qed.

Lemma zobj_small o es : zobj_ok o es -> Z.of_nat (length es) < 2 ^ 60 -> small (zs_dict o).
Proof using Hhash.
  intros Hok Hlt. pose proof (zobj_locs _ _ Hok) as Hnd. destruct Hok as [_ Hwf Hi]. unfold small.
  rewrite (dictSize_dmap type (λ k, k)) by done. by rewrite (indexes_size _ es).
Qed.

(** An entry of the dictionary that points to the node of [x]. *)
Definition points_to (o : zobj) (de : loc) (x : ent) : Prop :=
  de ∈ entries (w_dict (zs_dict o)) /\
  exists e, w_heap (zs_dict o) !! de = Some e /\ e_key e = (e_item x).2 /\ e_val e = Some (e_loc x).

Lemma wp_find o es ele (Q : option loc -> zobj -> Prop) : zobj_ok o es ->
  (forall o', zobj_ok o' es -> zs_mem o' = zs_mem o -> zs_zsl o' = zs_zsl o ->
     (forall x, x ∈ es -> (e_item x).2 <> ele) -> Q None o') ->
  (forall o' de x, zobj_ok o' es -> zs_mem o' = zs_mem o -> zs_zsl o' = zs_zsl o ->
     x ∈ es -> (e_item x).2 = ele -> points_to o' de x -> Q (Some de) o') ->
  wp (on_dict (dictFind type ele)) o Q.
Proof using Hhash.
  intros [Hh Hwf Hi] Hnone Hsome. apply wp_on_dict.
  eapply wp_mono; [by apply (dictFind_spec type (λ k, k))|]. intros r w' (Hwf' & Hr & Hf).
  pose proof (rehashed_dmap type (λ k, k) _ _ Hwf Hr) as Hd.
  assert (Hok' : zobj_ok (ZObj w' (zs_mem o) (zs_zsl o)) es) by (split; cbn; [done|done|by rewrite Hd]).
  destruct r as [de|].
  - destruct Hf as (Hin & e & He & Hk & Hv). cbn in Hk. rewrite Hd in Hv. apply Hi in Hv as (x & Hx & Hxe & Hv).
    apply (Hsome _ de x); [done|done|done|done|done|]. split; [done|]. exists e. split_and!; [done|congruence|done].
  - apply Hnone; [done|done|done|]. by apply (indexes_absent _ _ ele Hi).
Qed.

Lemma wp_entry_score o es de x (Q : double -> zobj -> Prop) : zobj_ok o es -> x ∈ es -> points_to o de x ->
  Q (e_item x).1 o -> wp (entry_score de) o Q.
Proof.
  intros [Hh _ _] Hx (_ & e & He & _ & Hv) HQ.
  apply wp_bind, wp_bind, wp_on_dict. eapply DictWf.wp_load; [exact He|]. rewrite Hv. apply wp_ret.
  apply wp_bind, wp_on_mem. cbn [zs_mem]. pose proof (holds_node _ _ _ _ Hh Hx) as Hn.
  destruct (heap (zs_mem o) !! e_loc x) as [n|] eqn:En; [|done]. cbn in Hn. injection Hn as Hn.
  eapply wp_zget; [exact En|]. apply wp_ret. destruct o. cbn in *. by rewrite <- Hn in HQ.
Qed.

Lemma entry_split o es x : zobj_ok o es -> x ∈ es ->
  exists a b, items es = items a ++ e_item x :: items b /\ es = a ++ x :: b /\
    score_of (e_item x).2 (items es) = Some (e_item x).1 /\ isnan (e_item x).1 = false /\
    position (e_item x).2 (items es) = Some (length a).
Proof.
  intros Hok Hx. pose proof (zobj_distinct _ _ Hok) as Hd. apply list_elem_of_split in Hx as (a & b & ->).
  destruct Hok as [[Hz _] _ _]. pose proof (ok_sorted _ _ _ Hz) as Hs.
  rewrite fmap_app, fmap_cons in *. destruct (distinct_split _ _ _ _ Hd eq_refl) as (H1 & _ & H2 & _).
  rewrite length_fmap in H2. exists a, b. split_and!; [done..| |done]. apply (sorted_nan _ _ Hs), elem_of_app. right. by left.
Qed.

Lemma absent_items es ele : (forall x, x ∈ es -> (e_item x).2 <> ele) -> Forall (λ y, y.2 <> ele) (items es).
Proof. intros H. rewrite Forall_fmap. apply Forall_forall. intros x Hx. by apply H. Qed.

(** A new element: the skiplist and the dictionary are extended. *)
Lemma wp_add_new o es draws s ele (Q : add_result -> zobj -> Prop) : zobj_ok o es -> isnan s = false ->
  (forall x, x ∈ es -> (e_item x).2 <> ele) -> Z.of_nat (length es) < 2 ^ 60 ->
  (forall o' es', zobj_ok o' es' -> items es' = with_score ele s (items es) -> freed (zs_mem o') = freed (zs_mem o) ->
     Q (Added 1 ZADD_OUT_ADDED (Some s)) o') ->
  wp (o ← get;
      '(zsl, znode) ← on_mem (zslInsert (zs_zsl o) draws s ele);
      set_zsl zsl;;
      r ← on_dict (dictAdd type ele znode);
      if r =? DICT_OK then mret (Added 1 ZADD_OUT_ADDED (Some s)) else fail) o Q.
Proof using Hhash.
  intros Hok Hs Habs Hlen HQ. pose proof (zobj_small _ _ Hok Hlen) as Hsm. destruct Hok as [Hh Hwf Hi].
  pose proof (absent_items _ _ Habs) as Hno.
  apply wp_bind, wp_get. apply wp_bind, wp_on_mem. eapply wp_mono; [apply zslInsert_holds; [exact Hh|exact Hs| |lia]|].
  { eapply Forall_impl; [exact Hno|]. intros y Hy [_ E]. done. }
  intros [zsl' p] m' (es' & Hh' & Hit & Hp & Hf). apply wp_bind, wp_set_zsl. apply wp_bind, wp_on_dict.
  eapply wp_mono; [by apply (dictAdd_spec type (λ k, k))|]. intros r w' (Hwf' & _ & Hr). cbn [zs_dict] in Hr.
  rewrite (proj2 (indexes_absent _ _ ele Hi)) in Hr by done. destruct Hr as [-> Hd].
  apply wp_ret. cbn [zs_mem zs_zsl]. apply (HQ _ es').
  - split; cbn; [done|done|]. rewrite Hd. eapply indexes_perm; [by symmetry|]. by apply (indexes_cons _ (Ent p (zslRandomLevel draws) (s, ele))).
  - unfold with_score. rewrite filter_all; [done|]. done.
  - done.
Qed.

(** Another score: the node may be replaced, and the dictionary points to the new one. *)
Lemma wp_add_update o es draws s de x (Q : add_result -> zobj -> Prop) : zobj_ok o es -> isnan s = false ->
  x ∈ es -> points_to o de x ->
  (forall o' es', zobj_ok o' es' -> items es' = with_score (e_item x).2 s (items es) ->
     freed (zs_mem o') = freed (zs_mem o) -> Q (Added 1 ZADD_OUT_UPDATED (Some s)) o') ->
  wp (o ← get;
      '(zsl, znode) ← on_mem (zslUpdateScore (zs_zsl o) draws (e_item x).1 (e_item x).2 s);
      set_zsl zsl;;
      on_dict (dictSetVal type de znode);;
      mret (Added 1 ZADD_OUT_UPDATED (Some s))) o Q.
Proof using Hhash.
  intros Hok Hs Hx (Hde & e & He & Hk & Hv) HQ. pose proof (zobj_locs _ _ Hok) as Hnd.
  pose proof (zobj_distinct _ _ Hok) as Hdi.
  destruct (entry_split o es x Hok Hx) as (_ & _ & _ & _ & Hsc & Hn & _). destruct Hok as [Hh Hwf Hi].
  destruct (remove_item_distinct (items es) (e_item x).1 (e_item x).2) as (Hrem & Hex & Hun);
    [apply (proj1 Hh)|done|done|done|].
  apply wp_bind, wp_get. apply wp_bind, wp_on_mem. eapply wp_mono; [by apply zslUpdateScore_holds|].
  intros [zsl' p] m' (es' & rest & x' & ht & Hh' & Hit & Hp & Hx' & Hp' & Hf). apply wp_bind, wp_set_zsl.
  apply wp_bind, wp_on_dict. cbn [zs_dict].
  eapply wp_mono; [by apply (dictSetVal_spec type (λ k, k) _ _ e)|]. cbn [valDup zsetDictType].
  intros _ w' (Hwf' & Hd & _). apply wp_ret. apply (HQ _ es').
  - split; cbn; [done|done|]. rewrite Hd, Hk. eapply indexes_perm; [by symmetry|].
    assert (Hnd' : NoDup (locs (x' :: rest))) by (by rewrite <- Hp).
    destruct (indexes_tail (dmap (zs_dict o)) x' rest Hnd') as [Hne Hti]; [by eapply indexes_perm|].
    rewrite <- insert_delete_eq. rewrite <- Hx' in *.
    apply (indexes_cons _ (Ent p ht (s, (e_item x').2))); [done|done].
  - unfold with_score. by rewrite Hit, Hrem.
  - done.
Qed.

Lemma zsetAdd_sorted_set o l draws s ele flags : sorted_set o l -> Z.of_nat (length l) < 2 ^ 60 ->
  wp (zsetAdd hash draws s ele flags) o (λ r o',
    let '(res, new) := zadd_reference flags s (score_of ele l) in
    r = res /\ sorted_set o' (match new with Some s => with_score ele s l | None => l end) /\
    freed (zs_mem o') = freed (zs_mem o)).
Proof using Hhash.
  intros (es & Hok & <-) Hlen. rewrite length_fmap in Hlen. unfold zsetAdd, zadd_reference. cbn zeta.
  destruct (isnan s) eqn:Hs; [apply wp_ret; by split_and!; [|exists es|]|].
  apply wp_bind. apply (wp_find o es ele); [done| |].
  - intros o' Hok' Hm Hz Habs. destruct (score_of_None ele (items es) (absent_items _ _ Habs)) as [-> _].
    destruct (flag flags ZADD_IN_XX); cbn [negb].
    { apply wp_ret. split_and!; [done|by exists es|by rewrite Hm]. }
    eapply wp_add_new; [done|done|done|done|]. intros o2 es2 Hok2 Hi2 Hf2. rewrite Hm in Hf2.
    split_and!; [done|by exists es2|done].
  - intros o' de x Hok' Hm Hz Hx Hxe Hpt.
    destruct (entry_split o' es x Hok' Hx) as (_ & _ & _ & _ & Hsc & Hn & _). rewrite Hxe in Hsc. rewrite Hsc.
    assert (Hstay : sorted_set o' (items es) /\ freed (zs_mem o') = freed (zs_mem o)) by (split; [by exists es|by rewrite Hm]).
    destruct (flag flags ZADD_IN_NX); [by apply wp_ret|].
    apply wp_bind. eapply wp_entry_score; [done|done|done|]. set (c := (e_item x).1) in *.
    set (s' := if flag flags ZADD_IN_INCR then dadd s c else s).
    assert (Hnan : flag flags ZADD_IN_INCR && isnan s' = isnan s').
    { unfold s'. by destruct (flag flags ZADD_IN_INCR); [|rewrite Hs]. }
    rewrite Hnan. destruct (isnan s') eqn:Hs'; [by apply wp_ret|].
    rewrite !dle_dlt by done. destruct (_ || _); [by apply wp_ret|].
    destruct (deq s' c); cbn [negb]; [by apply wp_ret|].
    rewrite <- Hxe. eapply wp_add_update; [done|done|done|done|]. intros o2 es2 Hok2 Hi2 Hf2. rewrite Hm in Hf2.
    split_and!; [done|by exists es2|done].
Qed.

Lemma zsetScore_sorted_set o l ele : sorted_set o l ->
  wp (zsetScore hash ele) o (λ r o', r = score_of ele l /\ sorted_set o' l /\ freed (zs_mem o') = freed (zs_mem o)).
Proof using Hhash.
  intros (es & Hok & <-). apply wp_bind. apply (wp_find o es ele); [done| |].
  - intros o' Hok' Hm Hz Habs. destruct (score_of_None ele (items es) (absent_items _ _ Habs)) as [-> _].
    apply wp_ret. split_and!; [done|by exists es|by rewrite Hm].
  - intros o' de x Hok' Hm Hz Hx Hxe Hpt. apply wp_bind. eapply wp_entry_score; [done|done|done|]. apply wp_ret.
    destruct (entry_split o' es x Hok' Hx) as (_ & _ & _ & _ & Hsc & _). rewrite Hxe in Hsc.
    split_and!; [done|by exists es|by rewrite Hm].
Qed.

Lemma zsetLength_sorted_set o l : sorted_set o l -> wp zsetLength o (λ r o', r = Z.of_nat (length l) /\ o' = o).
Proof.
  intros (es & [[Hz _] _ _] & <-). apply wp_bind, wp_get, wp_ret. rewrite length_fmap. split; [apply Hz|done].
Qed.

Lemma position_None ele l : Forall (λ y, y.2 <> ele) l -> position ele l = None.
Proof. intros H. unfold position. by rewrite (proj2 (list_find_None _ _) H). Qed.

Definition rank_reference (ele : bytes) (reverse : bool) (l : list item) : Z :=
  match position ele l with
  | Some i => if reverse then Z.of_nat (length l) - 1 - Z.of_nat i else Z.of_nat i
  | None => -1
  end.

Lemma zsetRank_sorted_set o l ele reverse : sorted_set o l ->
  wp (zsetRank hash ele reverse) o (λ r o',
    r = rank_reference ele reverse l /\ sorted_set o' l /\ freed (zs_mem o') = freed (zs_mem o)).
Proof using Hhash.
  intros Hso. apply wp_bind. eapply wp_mono; [by apply (zsetLength_sorted_set o l)|]. intros llen o1 [-> ->].
  destruct Hso as (es & Hok & <-). unfold rank_reference. rewrite length_fmap.
  apply wp_bind. apply (wp_find o es ele); [done| |].
  - intros o' Hok' Hm Hz Habs. rewrite position_None by (by apply absent_items).
    apply wp_ret. split_and!; [done|by exists es|by rewrite Hm].
  - intros o' de x Hok' Hm Hz Hx Hxe Hpt. apply wp_bind. eapply wp_entry_score; [done|done|done|].
    destruct (entry_split o' es x Hok' Hx) as (a & b & Eit & Ees & _ & Hn & Hpos). rewrite Hxe in Hpos. rewrite Hpos.
    apply wp_bind, wp_get. pose proof (zo_zsl _ _ Hok') as Hh.
    apply wp_bind, wp_on_mem. eapply wp_mono; [apply (zslGetRank_zset _ _ (items es)); [by exists es|done]|].
    intros r m' (-> & Hr & _). pose proof (ok_small _ _ _ (proj1 Hh)) as Hsm.
    assert (Hi : items es !! length a = Some (e_item x)) by (rewrite Eit, <- (length_fmap e_item a); by apply list_lookup_middle).
    rewrite (Hr (length a) (e_item x) Hi) by (by rewrite <- Hxe).
    rewrite (proj2 (Z.eqb_neq _ 0)) by lia. apply wp_ret.
    assert (Hla : (length a < length es)%nat) by (rewrite Ees, length_app; cbn; lia).
    split_and!; [|exists es; split; [by destruct o'|done]|by rewrite Hm].
    destruct reverse; rewrite wrapu_small, wraps_small by cint; lia.
Qed.

(** Freeing an entry that is not linked any more. *)
Lemma unlinked_entry w l ds : wf w -> l ∉ entries (w_dict w) ->
  let w' := World (w_dict w) (delete l (w_heap w)) ds (dict_can_resize w) in wf w' /\ dmap w' = dmap w.
Proof using Hhash.
  intros Hwf Hl w'.
  assert (Hsame : forall q, q ∈ entries (w_dict w) -> delete l (w_heap w) !! q = w_heap w !! q).
  { intros q Hq. rewrite lookup_delete_ne; [done|]. by intros ->. }
  assert (Hwf' : wf w') by (apply (wf_same_keys type (λ k, k)); [done|]; intros q Hq; by rewrite Hsame).
  split; [done|]. apply map_eq. intros c. apply option_eq. intros v.
  rewrite !(dmap_lookup type (λ k, k)) by done. cbn. split; intros (q & e & Hq & He & Hr); exists q, e.
  - by rewrite <- (Hsame q Hq).
  - by rewrite (Hsame q Hq).
Qed.

Lemma zsetRemove_sorted_set o l ele : sorted_set o l ->
  wp (zsetRemoveFromSkiplist hash ele) o (λ r o',
    r = bool_decide (is_Some (score_of ele l)) /\ sorted_set o' (filter (λ x, x.2 <> ele) l) /\
    freed (zs_mem o') = freed (zs_mem o) ++ if r then [ele] else []).
Proof using Hhash.
  intros (es & Hok & <-). pose proof Hok as [Hh Hwf Hi].
  apply wp_bind, wp_on_dict. eapply wp_mono; [by apply (dictGenericDelete_spec type (λ k, k))|].
  intros [de|] w' [Hwf' Hpost]; cbn in Hpost.
  2:{ destruct Hpost as [Hn Hr]. pose proof (rehashed_dmap type (λ k, k) _ _ Hwf Hr) as Hd.
      destruct (score_of_None ele (items es)) as [-> ->]; [apply absent_items; by apply (indexes_absent _ _ ele Hi)|].
      apply wp_ret. rewrite app_nil_r. split_and!; [done| |done]. exists es. split; [|done]. split; cbn; [done|done|by rewrite Hd]. }
  destruct Hpost as (Hd & Hout & e & He & Hk & Hv & Hheap & _).
  apply Hi in Hv as Hx. destruct Hx as (x & Hx & <- & Hex).
  destruct (entry_split o es x Hok Hx) as (a & b & Eit & Ees & Hsc & Hn & _).
  pose proof (zobj_distinct _ _ Hok) as Hdi.
  destruct (remove_item_distinct (items es) (e_item x).1 (e_item x).2) as (Hrem & Hfound & _); [apply (proj1 Hh)|done|done|done|].
  apply wp_bind. apply wp_bind, wp_bind, wp_on_dict. eapply DictWf.wp_load; [cbn; rewrite Hheap; exact He|].
  rewrite Hex. apply wp_ret. apply wp_bind, wp_on_mem. cbn [zs_mem]. pose proof (holds_node _ _ _ _ Hh Hx) as Hnode.
  destruct (heap (zs_mem o) !! e_loc x) as [n|] eqn:En; [|done]. cbn in Hnode. injection Hnode as Hnode.
  eapply wp_zget; [exact En|]. apply wp_ret. cbn [zs_dict zs_zsl].
  assert (Hsn : score n = (e_item x).1) by (by rewrite <- Hnode). rewrite Hsn.
  apply wp_bind, wp_on_dict. cbn [zs_dict]. eexists _, _. split.
  { apply (dictFreeUnlinkedEntry_spec type de e). rewrite Hheap. exact He. }
  destruct (unlinked_entry w' de (w_destroyed w' ++ DictSpec.freed type e) Hwf' Hout) as [Hwf2 Hd2].
  apply wp_bind, wp_get. cbn [zs_zsl]. apply wp_bind, wp_on_mem. cbn [zs_mem].
  eapply wp_mono; [apply zslDelete_holds; [exact Hh|exact Hn]|].
  intros [[zsl' found] node] m' (es' & Hh' & Hit & Hf & _ & Hfr & Hes). rewrite Hfound in Hf. subst found.
  apply wp_bind, wp_set_zsl, wp_ret. rewrite Hsc. split_and!; [done| |done].
  destruct Hes as (y & Hp & _ & Hye). cbn in Hye.
  exists es'. split; [|by rewrite Hit, Hrem]. split; cbn [zs_mem zs_zsl zs_dict]; [done|done|].
  rewrite Hd2, Hd, <- Hye. apply (indexes_tail _ y es'); [rewrite <- Hp; by eapply zobj_locs|by eapply indexes_perm].
Qed.

Lemma zsetDel_sorted_set o l ele : sorted_set o l ->
  wp (zsetDel hash ele) o (λ r o',
    r = bool_decide (is_Some (score_of ele l)) /\ sorted_set o' (filter (λ x, x.2 <> ele) l) /\
    freed (zs_mem o') = freed (zs_mem o) ++ if r then [ele] else []).
Proof using Hhash.
  intros Hso. apply wp_bind. eapply wp_mono; [by apply zsetRemove_sorted_set|]. intros r o1 (Hr & (es & Hok & Hi) & Hf).
  destruct r; [|apply wp_ret; split_and!; [done|by exists es|done]].
  apply wp_bind, wp_get. apply wp_bind. destruct (htNeedsResize _).
  2:{ apply wp_ret, wp_ret. split_and!; [done|by exists es|done]. }
  apply wp_on_dict. destruct Hok as [Hh Hwf Hix].
  eapply wp_mono; [by apply (dictResize_spec type (λ k, k))|]. intros _ w' [Hwf' Hre]. apply wp_ret.
  split_and!; [done| |done]. exists es. split; [|done]. split; cbn; [done|done|].
  by rewrite (rehashed_dmap type (λ k, k) _ _ Hwf Hre).
Qed.

Lemma createZsetObject_sorted_set junk resize : exists o, createZsetObject junk resize = Some o /\ sorted_set o [].
Proof.
  unfold createZsetObject. rewrite dictCreate_new. assert (H0 : heap (ZMem ∅ []) = ∅) by done.
  destruct (zslCreate_zset _ H0) as (zsl & m & E & (es & Hh & Hi) & _).
  exists (ZObj (World new_dict ∅ [] resize) m zsl). split; [by rewrite E|]. exists es. split; [|done].
  apply fmap_nil_inv in Hi as ->. split; cbn; [done|apply new_world_wf|].
  intros e v. unfold DictWf.dmap, alist, entries. cbn. split; [|intros (x & Hx%elem_of_nil & _); done].
  intros Hl. by rewrite lookup_empty in Hl.
Qed.

(** ** Histories *)

Inductive zop :=
  | OAdd (draws : list Z) (score : double) (ele : bytes) (flags : Z)
  | ODel (ele : bytes) | OScore (ele : bytes) | ORank (ele : bytes) (reverse : bool) | OLength.

Inductive zres := RAdd (r : add_result) | RDel (r : bool) | RScore (r : option double) | RNum (r : Z).

Definition run_zop (op : zop) : ST zobj zres :=
  match op with
  | OAdd draws s ele flags => r ← zsetAdd hash draws s ele flags; mret (RAdd r)
  | ODel ele => r ← zsetDel hash ele; mret (RDel r)
  | OScore ele => r ← zsetScore hash ele; mret (RScore r)
  | ORank ele reverse => r ← zsetRank hash ele reverse; mret (RNum r)
  | OLength => r ← zsetLength; mret (RNum r)
  end.

(** The same operation on a sorted list: the result, the new list and the strings that
    are freed. *)
Definition spec_zop (op : zop) (l : list item) : zres * list item * list bytes :=
  match op with
  | OAdd _ s ele flags =>
      let '(r, new) := zadd_reference flags s (score_of ele l) in
      (RAdd r, match new with Some s => with_score ele s l | None => l end, [])
  | ODel ele =>
      let found := bool_decide (is_Some (score_of ele l)) in
      (RDel found, filter (λ x, x.2 <> ele) l, if found then [ele] else [])
  | OScore ele => (RScore (score_of ele l), l, [])
  | ORank ele reverse => (RNum (rank_reference ele reverse l), l, [])
  | OLength => (RNum (Z.of_nat (length l)), l, [])
  end.

Fixpoint run_zops (ops : list zop) : ST zobj (list zres) :=
  match ops with
  | [] => mret []
  | op :: ops' => r ← run_zop op; rs ← run_zops ops'; mret (r :: rs)
  end.

Fixpoint spec_zops (ops : list zop) (l : list item) : list zres * list item * list bytes :=
  match ops with
  | [] => ([], l, [])
  | op :: ops' =>
      let '(r, l1, f1) := spec_zop op l in
      let '(rs, l2, f2) := spec_zops ops' l1 in
      (r :: rs, l2, f1 ++ f2)
  end.

Lemma run_zop_spec op o l : sorted_set o l -> Z.of_nat (length l) < 2 ^ 60 ->
  wp (run_zop op) o (λ r o', let '(r', l', f) := spec_zop op l in
    r = r' /\ sorted_set o' l' /\ freed (zs_mem o') = freed (zs_mem o) ++ f).
Proof using Hhash.
  intros Hso Hlen. destruct op as [draws s ele flags|ele|ele|ele reverse|]; cbn [run_zop spec_zop]; apply wp_bind.
  - eapply wp_mono; [by apply zsetAdd_sorted_set|]. intros r o' Hr. apply wp_ret.
    destruct (zadd_reference _ _ _) as [res new]. rewrite app_nil_r. by destruct Hr as (-> & ? & ?).
  - eapply wp_mono; [by apply zsetDel_sorted_set|]. intros r o' (-> & ? & ?). by apply wp_ret.
  - eapply wp_mono; [by apply zsetScore_sorted_set|]. intros r o' (-> & ? & ?). apply wp_ret. by rewrite app_nil_r.
  - eapply wp_mono; [by apply zsetRank_sorted_set|]. intros r o' (-> & ? & ?). apply wp_ret. by rewrite app_nil_r.
  - eapply wp_mono; [by apply zsetLength_sorted_set|]. intros r o' (-> & ->). apply wp_ret. by rewrite app_nil_r.
Qed.

Lemma length_set_score ele s l : (length (with_score ele s l) <= S (length l))%nat.
Proof.
  unfold with_score. rewrite (Permutation_length (insert_item_perm _ _)). cbn.
  pose proof (length_filter (λ x : item, x.2 <> ele) l). lia.
Qed.

Lemma spec_zop_length op l : (length (spec_zop op l).1.2 <= S (length l))%nat.
Proof.
  destruct op as [draws s ele flags|ele|ele|ele reverse|]; cbn [spec_zop fst snd]; [| |cbn; lia..].
  - destruct (zadd_reference _ _ _) as [res [s'|]]; cbn; [apply length_set_score|lia].
  - pose proof (length_filter (λ x : item, x.2 <> ele) l). lia.
Qed.

Lemma run_zops_spec ops : forall o l, sorted_set o l -> Z.of_nat (length l + length ops) < 2 ^ 60 ->
  wp (run_zops ops) o (λ rs o', let '(rs', l', f) := spec_zops ops l in
    rs = rs' /\ sorted_set o' l' /\ freed (zs_mem o') = freed (zs_mem o) ++ f).
Proof using Hhash.
  induction ops as [|op ops IH]; intros o l Hso Hlen; cbn [run_zops spec_zops].
  { apply wp_ret. by rewrite app_nil_r. }
  apply wp_bind. eapply wp_mono; [apply run_zop_spec; [done|lia]|].
  pose proof (spec_zop_length op l) as Hl. destruct (spec_zop op l) as [[r1 l1] f1]. cbn in Hl.
  intros r o1 (-> & Hso1 & Hf1). apply wp_bind. eapply wp_mono; [apply (IH o1 l1); [done|cbn in Hlen; lia]|].
  destruct (spec_zops ops l1) as [[rs l2] f2]. intros rs' o2 (-> & Hso2 & Hf2). apply wp_ret.
  split_and!; [done|done|]. by rewrite Hf2, Hf1, <- app_assoc.
Qed.
End zset.

(** ** The properties *)

(** C11: every sequence of [zsetAdd] (with any combination of flags), [zsetDel],
    [zsetScore], [zsetRank] and [zsetLength] on a new sorted set succeeds, for every hash
    function and all random levels, and returns what the same operations return on a
    sorted list of items with distinct elements; afterwards the dictionary and the
    skiplist both hold exactly that list, each element of the dictionary pointing to its
    node, and exactly the strings of the deleted elements have been freed. *)
Theorem zset_refines_list hash ops junk resize :
  (forall k, in_u 64 (hash k)) -> Z.of_nat (length ops) < 2 ^ 60 ->
  exists o o', createZsetObject junk resize = Some o /\
    let '(rs, l, deleted) := spec_zops ops [] in
    run_zops hash ops o = Some (rs, o') /\ sorted_set hash o' l /\ freed (zs_mem o') = freed (zs_mem o) ++ deleted.
Proof.
  intros Hhash Hlen. destruct (createZsetObject_sorted_set hash junk resize) as (o & Ho & Hso).
  destruct (run_zops_spec hash Hhash ops o [] Hso Hlen) as (rs & o' & E & HQ). exists o, o'. split; [done|].
  destruct (spec_zops ops []) as [[rs' l] f]. destruct HQ as (<- & ? & ?). done.
Qed.

(** [zsetAdd] on any sorted set of this encoding: the returned value, the output
    flags and the reported score are those of the reference, and the new score is set in
    both structures; on every error and no-op path the set is unchanged. *)
Theorem zsetAdd_correct hash o l draws s ele flags :
  (forall k, in_u 64 (hash k)) -> sorted_set hash o l -> Z.of_nat (length l) < 2 ^ 60 ->
  exists o', let '(r, new) := zadd_reference flags s (score_of ele l) in
    zsetAdd hash draws s ele flags o = Some (r, o') /\
    sorted_set hash o' (match new with Some s => with_score ele s l | None => l end) /\
    freed (zs_mem o') = freed (zs_mem o).
Proof.
  intros Hhash Hso Hlen. destruct (zsetAdd_sorted_set hash Hhash o l draws s ele flags Hso Hlen) as (r & o' & E & HQ).
  exists o'. destruct (zadd_reference _ _ _) as [res new]. by destruct HQ as (<- & ? & ?).
Qed.

(** ** Examples *)

Definition ex_hash (k : bytes) : Z := wrapu 64 (fold_left (λ a c, a * 33 + c) k 5381).

Lemma ex_hash_range k : in_u 64 (ex_hash k).
Proof. apply wrapu_range. lia. Qed.

Definition ex_ops : list zop :=
  [OAdd [0; 2147483647] two [98] 0; OAdd [] one [97] 0; OAdd [] two [97] ZADD_IN_INCR;
   OAdd [] one [98] ZADD_IN_GT; ORank [97] false; OScore [97]; ODel [98]; OAdd [] one [99] ZADD_IN_XX; OLength].

(** The results of the sequence: [97] goes from score 1 to score 3, past [98]. *)
Example ex_ops_results :
  spec_zops ex_ops [] =
    ([RAdd (Added 1 ZADD_OUT_ADDED (Some two)); RAdd (Added 1 ZADD_OUT_ADDED (Some one));
      RAdd (Added 1 ZADD_OUT_UPDATED (Some three)); RAdd (Added 1 ZADD_OUT_NOP None); RNum 1; RScore (Some three);
      RDel true; RAdd (Added 1 ZADD_OUT_NOP None); RNum 1], [(three, [97])], [[98]]).
Proof. vm_compute. reflexivity. Qed.

Lemma zset_refines_list_witness :
  exists o o', createZsetObject new_dict DICT_RESIZE_ENABLE = Some o /\
    let '(rs, l, deleted) := spec_zops ex_ops [] in
    run_zops ex_hash ex_ops o = Some (rs, o') /\ sorted_set ex_hash o' l /\ freed (zs_mem o') = freed (zs_mem o) ++ deleted.
Proof. apply (zset_refines_list ex_hash ex_ops new_dict DICT_RESIZE_ENABLE ex_hash_range). cbn. lia. Defined.

Definition ex_obj : zobj :=
  match createZsetObject new_dict DICT_RESIZE_ENABLE with
  | Some o => match run_zops ex_hash [OAdd [] one [97] 0] o with Some (_, o) => o | None => o end
  | None => ZObj (new_world DICT_RESIZE_ENABLE) (ZMem ∅ []) (Zsl 1 None 0 1)
  end.

Lemma ex_sorted_set : sorted_set ex_hash ex_obj [(one, [97])].
Proof.
  unfold ex_obj. destruct (createZsetObject_sorted_set ex_hash new_dict DICT_RESIZE_ENABLE) as (o & -> & Hso).
  destruct (run_zops_spec ex_hash ex_hash_range [OAdd [] one [97] 0] o [] Hso) as (rs & o' & -> & HQ); [cbn; lia|].
  apply HQ.
Qed.

Lemma zsetAdd_correct_witness :
  exists o', zsetAdd ex_hash [] two [97] (Z.lor ZADD_IN_INCR ZADD_IN_XX) ex_obj =
    Some (Added 1 ZADD_OUT_UPDATED (Some three), o') /\
    sorted_set ex_hash o' [(three, [97])] /\ freed (zs_mem o') = freed (zs_mem ex_obj).
Proof.
  assert (E1 : zadd_reference (Z.lor ZADD_IN_INCR ZADD_IN_XX) two (score_of [97] [(one, [97])]) =
    (Added 1 ZADD_OUT_UPDATED (Some three), Some three)) by (vm_compute; reflexivity).
  assert (E2 : with_score [97] three [(one, [97])] = [(three, [97])]) by (vm_compute; reflexivity).
  destruct (zsetAdd_correct ex_hash ex_obj [(one, [97])] [] two [97] (Z.lor ZADD_IN_INCR ZADD_IN_XX)) as [o' H];
    [exact ex_hash_range|exact ex_sorted_set|cbn; lia|].
  rewrite E1, E2 in H. exists o'. exact H.
Defined.
