(* ===== verification/Keyspace.v ===== *)
(** The keyspace and the transactions: the state of [server.h], and the basic functions of
    [db.c] on expire times.

    A database maps keys to values and, in a second table, to the time at which they
    expire; a third table holds, for each key that clients WATCH, the list of the
    [watchedKey] structures that clients have for it.  The hash tables are finite maps
    (DictMap.v) and the linked lists are lists (AdlistRefine.v); a [watchedKey] is shared
    by the list of its client and the list of its key and lives in a heap.  Failed
    assertions and accesses to freed memory make the program fail.

    Keyspace events, client side tracking, blocked clients, modules, the least recently
    used clocks of values and the reference counts of key objects are not modelled. *)

From stdpp Require Import gmap.
From S2P Require Import Prelude State.

Local Open Scope Z_scope.

(** ** Flags *)

Definition CLIENT_MULTI : Z := Z.shiftl 1 3.
Definition CLIENT_DIRTY_CAS : Z := Z.shiftl 1 5.
Definition CLIENT_DIRTY_EXEC : Z := Z.shiftl 1 12.
Definition CLIENT_DENY_BLOCKING : Z := Z.shiftl 1 41.

Definition LOOKUP_NONE : Z := 0.
Definition LOOKUP_NOTOUCH : Z := Z.shiftl 1 0.
Definition LOOKUP_NOSTATS : Z := Z.shiftl 1 2.
Definition LOOKUP_WRITE : Z := Z.shiftl 1 3.
Definition LOOKUP_NOEXPIRE : Z := Z.shiftl 1 4.

Definition EXPIRE_FORCE_DELETE_EXPIRED : Z := 1.
Definition EXPIRE_AVOID_DELETE_EXPIRED : Z := 2.

Definition SETKEY_KEEPTTL : Z := 1.
Definition SETKEY_NO_SIGNAL : Z := 2.
Definition SETKEY_ALREADY_EXIST : Z := 4.
Definition SETKEY_DOESNT_EXIST : Z := 8.

(** [flags & x] as a condition, and [flags & ~x]. *)
Definition has (flags x : Z) : bool := negb (Z.land flags x =? 0).
Definition clear (flags x : Z) : Z := Z.ldiff flags x.

(** ** The state *)

Section state.
Context {V Cmd : Type}.

Record watchedKey := WKey { wk_key : bytes; wk_db : nat; wk_client : positive; wk_expired : bool }.

Record redisDb := Db {
  db_dict : gmap bytes V;
  db_expires : gmap bytes Z;
  db_watched : gmap bytes (list positive) }.

(** [argc] is the length of [argv]; [argv_len] is the capacity of the array. *)
Record multiCmd := MCmd { mc_argv : list bytes; mc_argv_len : Z; mc_cmd : Cmd }.

(** The array [commands] holds the first [count] of its [alloc_count] elements. *)
Record multiState := MState {
  commands : list multiCmd;
  cmd_flags : Z;
  cmd_inv_flags : Z;
  argv_len_sums : Z;
  alloc_count : Z }.

Record client := Client {
  c_flags : Z;
  c_db : nat;
  c_cmd : multiCmd;
  c_argv_len_sum : Z;
  c_mstate : multiState;
  c_watched : list positive }.

(** What the functions read of the rest of the server: is this a replica, is it read only,
    is the current client its master, is a file being loaded, are clients paused, the time
    of a running script, the time of the running command and the clock. *)
Record env := Env {
  masterhost : bool;
  repl_slave_ro : bool;
  current_is_master : bool;
  loading : bool;
  paused : bool;
  lazyfree_lazy_expire : bool;
  script_time : option Z;
  fixed_time : option Z;
  mstime : Z }.

(** [propagated] lists the deletions passed to [alsoPropagate]: the database, whether the
    command is UNLINK, and the key. *)
Record redisServer := Server {
  s_env : env;
  dbs : list redisDb;
  clients : gmap positive client;
  wkeys : gmap positive watchedKey;
  propagated : list (nat * bool * bytes);
  stat_expiredkeys : Z;
  stat_hits : Z;
  stat_misses : Z;
  dirty : Z }.

Abbreviation M := (ST redisServer).

(** ** Access *)

Definition asks {A} (f : redisServer -> A) : M A := s ← get; mret (f s).

Definition with_dbs (f : list redisDb -> list redisDb) (s : redisServer) : redisServer :=
  Server (s_env s) (f (dbs s)) (clients s) (wkeys s) (propagated s) (stat_expiredkeys s) (stat_hits s) (stat_misses s) (dirty s).
Definition with_clients (f : gmap positive client -> gmap positive client) (s : redisServer) : redisServer :=
  Server (s_env s) (dbs s) (f (clients s)) (wkeys s) (propagated s) (stat_expiredkeys s) (stat_hits s) (stat_misses s) (dirty s).
Definition with_wkeys (f : gmap positive watchedKey -> gmap positive watchedKey) (s : redisServer) : redisServer :=
  Server (s_env s) (dbs s) (clients s) (f (wkeys s)) (propagated s) (stat_expiredkeys s) (stat_hits s) (stat_misses s) (dirty s).
Definition with_stats (exp hits misses dirt : Z) (s : redisServer) : redisServer :=
  Server (s_env s) (dbs s) (clients s) (wkeys s) (propagated s) (stat_expiredkeys s + exp) (stat_hits s + hits)
    (stat_misses s + misses) (dirty s + dirt).
Definition with_propagated (x : nat * bool * bytes) (s : redisServer) : redisServer :=
  Server (s_env s) (dbs s) (clients s) (wkeys s) (propagated s ++ [x]) (stat_expiredkeys s) (stat_hits s) (stat_misses s) (dirty s).

Definition update (f : redisServer -> redisServer) : M unit := s ← get; put (f s).

Definition found {A} (x : option A) : M A := match x with Some a => mret a | None => fail end.

Definition get_db (i : nat) : M redisDb := s ← get; found (dbs s !! i).
Definition get_client (c : positive) : M client := s ← get; found (clients s !! c).
Definition get_wkey (w : positive) : M watchedKey := s ← get; found (wkeys s !! w).

Definition put_db (i : nat) (d : redisDb) : M unit := _ ← get_db i; update (with_dbs <[i := d]>).
Definition put_client (c : positive) (x : client) : M unit := _ ← get_client c; update (with_clients <[c := x]>).
Definition put_wkey (w : positive) (x : watchedKey) : M unit := _ ← get_wkey w; update (with_wkeys <[w := x]>).

(** ** Fields *)

Definition set_flags (f : Z) (c : client) : client := Client f (c_db c) (c_cmd c) (c_argv_len_sum c) (c_mstate c) (c_watched c).
Definition set_mstate (m : multiState) (c : client) : client := Client (c_flags c) (c_db c) (c_cmd c) (c_argv_len_sum c) m (c_watched c).
Definition set_watched (w : list positive) (c : client) : client := Client (c_flags c) (c_db c) (c_cmd c) (c_argv_len_sum c) (c_mstate c) w.
Definition set_cmd (x : multiCmd) (sum : Z) (c : client) : client := Client (c_flags c) (c_db c) x sum (c_mstate c) (c_watched c).
Definition set_expired (b : bool) (w : watchedKey) : watchedKey := WKey (wk_key w) (wk_db w) (wk_client w) b.
Definition set_dict (f : gmap bytes V) (d : redisDb) : redisDb := Db f (db_expires d) (db_watched d).
Definition set_expires (f : gmap bytes Z) (d : redisDb) : redisDb := Db (db_dict d) f (db_watched d).
Definition set_db_watched (f : gmap bytes (list positive)) (d : redisDb) : redisDb := Db (db_dict d) (db_expires d) f.

Definition or_flags (c : positive) (f : Z) : M unit := x ← get_client c; put_client c (set_flags (Z.lor (c_flags x) f) x).
Definition clear_flags (c : positive) (f : Z) : M unit := x ← get_client c; put_client c (set_flags (clear (c_flags x) f) x).

(** ** Expire times *)

(** An empty table has no entry for the key. *)
Definition getExpire (db : nat) (key : bytes) : M Z :=
  d ← get_db db;
  match db_expires d !! key with
  | None => mret (-1)
  | Some t => match db_dict d !! key with None => fail | Some _ => mret t end
  end.

(** The time the expire times are compared with. *)
Definition clock (e : env) : Z :=
  match script_time e with
  | Some t => t
  | None => match fixed_time e with Some t => t | None => mstime e end
  end.

Definition keyIsExpired (db : nat) (key : bytes) : M bool :=
  t ← getExpire db key;
  e ← asks s_env;
  mret (if t <? 0 then false else if loading e then false else t <? clock e).

Definition removeExpire (db : nat) (key : bytes) : M bool :=
  d ← get_db db;
  match db_dict d !! key with
  | None => fail
  | Some _ =>
      put_db db (set_expires (delete key (db_expires d)) d);;
      mret (bool_decide (is_Some (db_expires d !! key)))
  end.

(** The keys that writable replicas remember to expire themselves are not modelled. *)
Definition setExpire (db : nat) (key : bytes) (t : Z) : M unit :=
  d ← get_db db;
  match db_dict d !! key with
  | None => fail
  | Some _ => put_db db (set_expires (<[key := t]> (db_expires d)) d)
  end.
End state.

Arguments redisDb : clear implicits.
Arguments multiCmd : clear implicits.
Arguments multiState : clear implicits.
Arguments client : clear implicits.
Arguments redisServer : clear implicits.
