(* ===== verification/Multi.v ===== *)
(** WATCH and MULTI: [multi.c].

    The loops over the lists of [watchedKey] structures are the loops of the source with
    their iterators: the successor of the current node is read before the body runs, and
    it is an error to use it when the body has removed it from the list. *)

From stdpp Require Import gmap.
From S2P Require Import Prelude State Keyspace.

Local Open Scope Z_scope.

Section multi.
Context {V Cmd : Type}.
Abbreviation M := (ST (redisServer V Cmd)).

(** ** The queue *)

Definition no_state : multiState Cmd := MState [] 0 0 0 0.

Definition initClientMultiState (c : positive) : M unit := x ← get_client c; put_client c (set_mstate no_state x).

Definition INT_MAX : Z := 2 ^ 31 - 1.

(** Writing after the [alloc_count] elements of the array is an error; a pointer has
    8 bytes. *)
Definition queueMultiCommand (c : positive) (flags : Z) : M unit :=
  x ← get_client c;
  if has (c_flags x) (Z.lor CLIENT_DIRTY_CAS CLIENT_DIRTY_EXEC) then mret tt
  else
    let m := c_mstate x in
    let count := Z.of_nat (length (commands m)) in
    let alloc := if count =? 0 then 2 else alloc_count m in
    let alloc := if count =? alloc then (if alloc <? INT_MAX / 2 then alloc * 2 else INT_MAX) else alloc in
    if alloc <=? count then fail
    else
      let argc := Z.of_nat (length (mc_argv (c_cmd x))) in
      let m := MState (commands m ++ [c_cmd x])
                 (i32 (Z.lor (cmd_flags m) flags)) (i32 (Z.lor (cmd_inv_flags m) (u64 (Z.lnot flags))))
                 (u64 (argv_len_sums m + c_argv_len_sum x + 8 * argc)) alloc in
      put_client c (set_cmd (MCmd [] 0 (mc_cmd (c_cmd x))) 0 (set_mstate m x)).

Definition flagTransaction (c : positive) : M unit :=
  x ← get_client c;
  if has (c_flags x) CLIENT_MULTI then or_flags c CLIENT_DIRTY_EXEC else mret tt.

(** ** Watching *)

Fixpoint already_watched (db : nat) (key : bytes) (ws : list positive) : M bool :=
  match ws with
  | [] => mret false
  | w :: ws' =>
      wk ← get_wkey w;
      if bool_decide (wk_db wk = db) && bool_decide (wk_key wk = key) then mret true
      else already_watched db key ws'
  end.

Definition watchForKey (c : positive) (key : bytes) : M unit :=
  x ← get_client c;
  b ← already_watched (c_db x) key (c_watched x);
  if b : bool then mret tt
  else
    d ← get_db (c_db x);
    ex ← keyIsExpired (c_db x) key;
    heap ← asks wkeys;
    let w := fresh (dom heap) in
    update (with_wkeys <[w := WKey key (c_db x) c ex]>);;
    put_client c (set_watched (c_watched x ++ [w]) x);;
    put_db (c_db x) (set_db_watched (<[key := default [] (db_watched d !! key) ++ [w]]> (db_watched d)) d).

(** [listDelNode(clients,listSearchKey(clients,wk))]: the list is searched for the
    pointer. *)
Fixpoint del_node (w : positive) (l : list positive) : option (list positive) :=
  match l with
  | [] => None
  | w' :: l' => if bool_decide (w' = w) then Some l' else l'' ← del_node w l'; Some (w' :: l'')
  end.

(** The body of the loop of [unwatchAllKeys]. *)
Definition unwatch (c : positive) (w : positive) : M unit :=
  wk ← get_wkey w;
  d ← get_db (wk_db wk);
  l ← found (db_watched d !! wk_key wk);
  l ← found (del_node w l);
  put_db (wk_db wk) (set_db_watched
    (match l with [] => delete (wk_key wk) (db_watched d) | _ => <[wk_key wk := l]> (db_watched d) end) d);;
  x ← get_client c;
  ws ← found (del_node w (c_watched x));
  put_client c (set_watched ws x);;
  update (with_wkeys (delete w)).

(** The loop deletes each node it visits and no other: it visits the nodes of the list at
    its start. *)
Fixpoint unwatch_loop (c : positive) (ws : list positive) : M unit :=
  match ws with
  | [] => mret tt
  | w :: ws' => unwatch c w;; unwatch_loop c ws'
  end.

Definition unwatchAllKeys (c : positive) : M unit := x ← get_client c; unwatch_loop c (c_watched x).

Fixpoint watched_expired (ws : list positive) : M bool :=
  match ws with
  | [] => mret false
  | w :: ws' =>
      wk ← get_wkey w;
      if wk_expired wk then watched_expired ws'
      else ex ← keyIsExpired (wk_db wk) (wk_key wk);
           if ex : bool then mret true else watched_expired ws'
  end.

Definition isWatchedKeyExpired (c : positive) : M bool := x ← get_client c; watched_expired (c_watched x).

(** [listNext] on the list of the clients of a key: the list must still be there and hold
    the node [w]; the result is the node after it. *)
Fixpoint node_after (w : positive) (l : list positive) : option (option positive) :=
  match l with
  | [] => None
  | w' :: l' => if bool_decide (w' = w) then Some (head l') else node_after w l'
  end.

Definition next_node (db : nat) (key : bytes) (w : positive) : M (option positive) :=
  d ← get_db db; l ← found (db_watched d !! key); found (node_after w l).

(** The loop visits every node once: the length of the list bounds it. *)
Fixpoint touch_loop (fuel : nat) (db : nat) (key : bytes) (node : option positive) : M unit :=
  match node with
  | None => mret tt
  | Some w =>
      match fuel with
      | O => fail
      | S fuel' =>
          next ← next_node db key w;
          wk ← get_wkey w;
          d ← get_db db;
          if wk_expired wk then
            if bool_decide (db = wk_db wk) && bool_decide (key = wk_key wk) && bool_decide (db_dict d !! key = None)
            then put_wkey w (set_expired false wk);; touch_loop fuel' db key next
            else mret tt
          else
            or_flags (wk_client wk) CLIENT_DIRTY_CAS;;
            unwatchAllKeys (wk_client wk);;
            touch_loop fuel' db key next
      end
  end.

Definition touchWatchedKey (db : nat) (key : bytes) : M unit :=
  d ← get_db db;
  match db_watched d !! key with
  | None => mret tt
  | Some l => touch_loop (length l) db key (head l)
  end.

(** [replaced_with && dictFind(replaced_with->dict,key->ptr)] *)
Definition exists_in (r : option nat) (key : bytes) : M bool :=
  match r with None => mret false | Some r => d ← get_db r; mret (bool_decide (is_Some (db_dict d !! key))) end.

(** [keyIsExpired(replaced_with,key)] *)
Definition expired_in (r : option nat) (key : bytes) : M bool :=
  match r with None => fail | Some r => keyIsExpired r key end.

(** The body of the inner loop of [touchAllWatchedKeysInDb]: [wk] watches [key] of the
    database [emptied], whose contents are about to be replaced with those of
    [replaced_with], or with nothing. *)
Definition touch_one (emptied : nat) (replaced_with : option nat) (key : bytes) (w : positive) : M unit :=
  wk ← get_wkey w;
  d ← get_db emptied;
  replaced ← exists_in replaced_with key;
  if wk_expired wk then
    if negb replaced then put_wkey w (set_expired false wk)
    else
      ex ← expired_in replaced_with key;
      if ex : bool then mret tt else or_flags (wk_client wk) CLIENT_DIRTY_CAS
  else
    ex ← (if bool_decide (db_dict d !! key = None) then expired_in replaced_with key else mret false);
    if ex : bool then put_wkey w (set_expired true wk) else or_flags (wk_client wk) CLIENT_DIRTY_CAS.

Fixpoint touch_list (emptied : nat) (replaced_with : option nat) (key : bytes) (ws : list positive) : M unit :=
  match ws with
  | [] => mret tt
  | w :: ws' => touch_one emptied replaced_with key w;; touch_list emptied replaced_with key ws'
  end.

(** The loop over the entries of the table. *)
Fixpoint touch_entries (emptied : nat) (replaced_with : option nat) (entries : list (bytes * list positive)) : M unit :=
  match entries with
  | [] => mret tt
  | (key, ws) :: entries' =>
      d ← get_db emptied;
      replaced ← exists_in replaced_with key;
      (if bool_decide (is_Some (db_dict d !! key)) || replaced then touch_list emptied replaced_with key ws else mret tt);;
      touch_entries emptied replaced_with entries'
  end.

Definition touchAllWatchedKeysInDb (emptied : nat) (replaced_with : option nat) : M unit :=
  d ← get_db emptied; touch_entries emptied replaced_with (map_to_list (db_watched d)).

(** ** Commands *)

Inductive reply := r_ok | r_error | r_nil | r_execabort | r_array (n : nat) | r_int (n : Z).

Definition discardTransaction (c : positive) : M unit :=
  initClientMultiState c;;
  clear_flags c (Z.lor CLIENT_MULTI (Z.lor CLIENT_DIRTY_CAS CLIENT_DIRTY_EXEC));;
  unwatchAllKeys c.

Definition multiCommand (c : positive) : M reply :=
  x ← get_client c;
  if has (c_flags x) CLIENT_MULTI then mret r_error
  else or_flags c CLIENT_MULTI;; mret r_ok.

Definition discardCommand (c : positive) : M reply :=
  x ← get_client c;
  if negb (has (c_flags x) CLIENT_MULTI) then mret r_error
  else discardTransaction c;; mret r_ok.

Fixpoint watch_keys (c : positive) (keys : list bytes) : M unit :=
  match keys with
  | [] => mret tt
  | key :: keys' => watchForKey c key;; watch_keys c keys'
  end.

Definition watchCommand (c : positive) (keys : list bytes) : M reply :=
  x ← get_client c;
  if has (c_flags x) CLIENT_MULTI then mret r_error
  else if has (c_flags x) CLIENT_DIRTY_CAS then mret r_ok
  else watch_keys c keys;; mret r_ok.

Definition unwatchCommand (c : positive) : M reply :=
  unwatchAllKeys c;; clear_flags c CLIENT_DIRTY_CAS;; mret r_ok.

(** The part of [freeClient] of [networking.c] that concerns transactions. *)
Definition release_client (c : positive) : M unit := unwatchAllKeys c;; update (with_clients (delete c)).

(** [call] runs the command that the client has in [argv]; [permitted] is the test of the
    access control lists. *)
Section exec.
Context (call : positive -> M unit) (permitted : positive -> M bool).

(** The command of the client when EXEC runs the [j]th of the queued ones.  Commands may
    change their arguments: the queue gets them back. *)
Fixpoint exec_loop (c : positive) (j n : nat) : M unit :=
  match n with
  | O => mret tt
  | S n' =>
      x ← get_client c;
      mc ← found (commands (c_mstate x) !! j);
      put_client c (set_cmd mc (c_argv_len_sum x) x);;
      ok ← permitted c;
      (if ok : bool then call c else mret tt);;
      x ← get_client c;
      let m := c_mstate x in
      put_client c (set_mstate (MState (<[j := c_cmd x]> (commands m)) (cmd_flags m) (cmd_inv_flags m)
                                  (argv_len_sums m) (alloc_count m)) x);;
      exec_loop c (S j) n'
  end.

Definition execCommand (c : positive) : M reply :=
  x ← get_client c;
  if negb (has (c_flags x) CLIENT_MULTI) then mret r_error
  else
    ex ← isWatchedKeyExpired c;
    (if ex : bool then or_flags c CLIENT_DIRTY_CAS else mret tt);;
    x ← get_client c;
    if has (c_flags x) (Z.lor CLIENT_DIRTY_CAS CLIENT_DIRTY_EXEC) then
      discardTransaction c;;
      mret (if has (c_flags x) CLIENT_DIRTY_EXEC then r_execabort else r_nil)
    else
      let old_flags := c_flags x in
      or_flags c CLIENT_DENY_BLOCKING;;
      unwatchAllKeys c;;
      let count := length (commands (c_mstate x)) in
      exec_loop c 0 count;;
      (if has old_flags CLIENT_DENY_BLOCKING then mret tt else clear_flags c CLIENT_DENY_BLOCKING);;
      y ← get_client c;
      put_client c (set_cmd (c_cmd x) (c_argv_len_sum y) y);;
      discardTransaction c;;
      mret (r_array count).
End exec.
End multi.
