(* ===== verification/Db.v ===== *)
(** The keyspace: lookups, writes, deletions, expiry and the whole-database commands of
    [db.c], [expire.c] and [t_string.c].  Every change of a key is followed by
    [signalModifiedKey], which marks the clients that watch it. *)

From stdpp Require Import gmap.
From S2P Require Import Prelude State Keyspace Multi.

Local Open Scope Z_scope.

Section db.
Context {V Cmd : Type}.
Abbreviation M := (ST (redisServer V Cmd)).

Definition signalModifiedKey (db : nat) (key : bytes) : M unit := touchWatchedKey db key.

(** ** Deleting and expiring *)

(** Freeing the value, now or in another thread, is not modelled. *)
Definition dbGenericDelete (db : nat) (key : bytes) : M bool :=
  d ← get_db db;
  put_db db (Db (delete key (db_dict d)) (delete key (db_expires d)) (db_watched d));;
  mret (bool_decide (is_Some (db_dict d !! key))).

Definition propagateDeletion (db : nat) (key : bytes) (lazy : bool) : M unit :=
  update (with_propagated (db, lazy, key)).

Definition deleteExpiredKeyAndPropagate (db : nat) (key : bytes) : M unit :=
  _ ← dbGenericDelete db key;
  signalModifiedKey db key;;
  e ← asks s_env;
  propagateDeletion db key (lazyfree_lazy_expire e);;
  update (with_stats 1 0 0 0).

Definition expireIfNeeded (db : nat) (key : bytes) (flags : Z) : M bool :=
  ex ← keyIsExpired db key;
  if negb ex then mret false
  else
    e ← asks s_env;
    if masterhost e && current_is_master e then mret false
    else if masterhost e && negb (has flags EXPIRE_FORCE_DELETE_EXPIRED) then mret true
    else if has flags EXPIRE_AVOID_DELETE_EXPIRED then mret true
    else if paused e then mret true
    else deleteExpiredKeyAndPropagate db key;; mret true.

(** The entry [t] of the table of expire times; its clock is the one of the caller. *)
Definition activeExpireCycleTryExpire (db : nat) (key : bytes) (now : Z) : M bool :=
  d ← get_db db;
  match db_expires d !! key with
  | None => fail
  | Some t => if t <? now then deleteExpiredKeyAndPropagate db key;; mret true else mret false
  end.

(** ** Lookups *)

Definition lookupKey (db : nat) (key : bytes) (flags : Z) : M (option V) :=
  d ← get_db db;
  e ← asks s_env;
  let is_ro_replica := masterhost e && repl_slave_ro e in
  let expire_flags :=
    Z.lor (if has flags LOOKUP_WRITE && negb is_ro_replica then EXPIRE_FORCE_DELETE_EXPIRED else 0)
          (if has flags LOOKUP_NOEXPIRE then EXPIRE_AVOID_DELETE_EXPIRED else 0) in
  val ← match db_dict d !! key with
        | None => mret None
        | Some v => ex ← expireIfNeeded db key expire_flags; mret (if ex : bool then None else Some v)
        end;
  let quiet := has flags (Z.lor LOOKUP_NOSTATS LOOKUP_WRITE) in
  update (match val with
          | Some _ => with_stats 0 (if quiet then 0 else 1) 0 0
          | None => with_stats 0 0 (if quiet then 0 else 1) 0
          end);;
  mret val.

Definition lookupKeyReadWithFlags (db : nat) (key : bytes) (flags : Z) : M (option V) :=
  if has flags LOOKUP_WRITE then fail else lookupKey db key flags.
Definition lookupKeyRead (db : nat) (key : bytes) : M (option V) := lookupKeyReadWithFlags db key LOOKUP_NONE.
Definition lookupKeyWriteWithFlags (db : nat) (key : bytes) (flags : Z) : M (option V) :=
  lookupKey db key (Z.lor flags LOOKUP_WRITE).
Definition lookupKeyWrite (db : nat) (key : bytes) : M (option V) := lookupKeyWriteWithFlags db key LOOKUP_NONE.

(** ** Writes *)

Definition dbAdd (db : nat) (key : bytes) (val : V) : M unit :=
  d ← get_db db;
  match db_dict d !! key with Some _ => fail | None => put_db db (set_dict (<[key := val]> (db_dict d)) d) end.

Definition dbOverwrite (db : nat) (key : bytes) (val : V) : M unit :=
  d ← get_db db;
  match db_dict d !! key with None => fail | Some _ => put_db db (set_dict (<[key := val]> (db_dict d)) d) end.

Definition setKey (db : nat) (key : bytes) (val : V) (flags : Z) : M unit :=
  keyfound ← (if has flags SETKEY_ALREADY_EXIST then mret true
              else if negb (has flags SETKEY_DOESNT_EXIST) then
                v ← lookupKeyWrite db key; mret (bool_decide (is_Some v))
              else mret false);
  (if keyfound : bool then dbOverwrite db key val else dbAdd db key val);;
  (if has flags SETKEY_KEEPTTL then mret tt else _ ← removeExpire db key; mret tt);;
  (if has flags SETKEY_NO_SIGNAL then mret tt else signalModifiedKey db key).

Definition OBJ_SET_NX : Z := Z.shiftl 1 0.
Definition OBJ_SET_XX : Z := Z.shiftl 1 1.
Definition OBJ_KEEPTTL : Z := Z.shiftl 1 4.

(** SET, without its GET option; [expire] is the absolute time in milliseconds.  The
    rewriting of the command for replicas is not modelled. *)
Definition setGenericCommand (db : nat) (flags : Z) (key : bytes) (val : V) (expire : option Z) : M reply :=
  v ← lookupKeyWrite db key;
  let found := bool_decide (is_Some v) in
  if (has flags OBJ_SET_NX && found) || (has flags OBJ_SET_XX && negb found) then mret r_nil
  else
    setKey db key val (Z.lor (if has flags OBJ_KEEPTTL then SETKEY_KEEPTTL else 0)
                             (if found then SETKEY_ALREADY_EXIST else SETKEY_DOESNT_EXIST));;
    update (with_stats 0 0 0 1);;
    (match expire with None => mret tt | Some t => setExpire db key t end);;
    mret r_ok.

(** ** Generic commands *)

Fixpoint delete_keys (db : nat) (keys : list bytes) (numdel : Z) : M Z :=
  match keys with
  | [] => mret numdel
  | key :: keys' =>
      _ ← expireIfNeeded db key 0;
      deleted ← dbGenericDelete db key;
      if deleted : bool then
        signalModifiedKey db key;;
        update (with_stats 0 0 0 1);;
        delete_keys db keys' (numdel + 1)
      else delete_keys db keys' numdel
  end.

Definition delGenericCommand (db : nat) (keys : list bytes) : M reply :=
  n ← delete_keys db keys 0; mret (r_int n).

Definition renameGenericCommand (db : nat) (from to : bytes) (nx : bool) : M reply :=
  o ← lookupKeyWrite db from;
  match o with
  | None => mret r_error
  | Some o =>
      if bool_decide (from = to) then mret (if nx then r_int 0 else r_ok)
      else
        expire ← getExpire db from;
        v ← lookupKeyWrite db to;
        if bool_decide (is_Some v) && nx then mret (r_int 0)
        else
          (if bool_decide (is_Some v) then _ ← dbGenericDelete db to; mret tt else mret tt);;
          dbAdd db to o;;
          (if expire =? -1 then mret tt else setExpire db to expire);;
          _ ← dbGenericDelete db from;
          signalModifiedKey db from;;
          signalModifiedKey db to;;
          update (with_stats 0 0 0 1);;
          mret (if nx then r_int 1 else r_ok)
  end.

(** MOVE, without cluster mode. *)
Definition moveCommand (src : nat) (dbid : Z) (key : bytes) : M reply :=
  n ← asks (λ s, Z.of_nat (length (dbs s)));
  if (dbid <? 0) || (n <=? dbid) then mret r_error
  else
    let dst := Z.to_nat dbid in
    if bool_decide (src = dst) then mret r_error
    else
      o ← lookupKeyWrite src key;
      match o with
      | None => mret (r_int 0)
      | Some o =>
          expire ← getExpire src key;
          v ← lookupKeyWrite dst key;
          if bool_decide (is_Some v) then mret (r_int 0)
          else
            dbAdd dst key o;;
            (if expire =? -1 then mret tt else setExpire dst key expire);;
            _ ← dbGenericDelete src key;
            signalModifiedKey src key;;
            signalModifiedKey dst key;;
            update (with_stats 0 0 0 1);;
            mret (r_int 1)
      end.

(** ** Expire commands *)

Definition EXPIRE_NX : Z := Z.shiftl 1 0.
Definition EXPIRE_XX : Z := Z.shiftl 1 1.
Definition EXPIRE_GT : Z := Z.shiftl 1 2.
Definition EXPIRE_LT : Z := Z.shiftl 1 3.
Definition LLONG_MAX : Z := 2 ^ 63 - 1.
Definition LLONG_MIN : Z := - 2 ^ 63.

Definition checkAlreadyExpired (t : Z) : M bool :=
  e ← asks s_env; mret ((t <=? mstime e) && negb (loading e) && negb (masterhost e)).

(** The time [t] of the argument in milliseconds since the epoch, [None] when it does not
    fit. *)
Definition expire_time (t basetime : Z) (seconds : bool) : option Z :=
  if seconds && ((Z.quot LLONG_MAX 1000 <? t) || (t <? Z.quot LLONG_MIN 1000)) then None
  else
    let t := if seconds then i64 (t * 1000) else t in
    if i64 (LLONG_MAX - basetime) <? t then None else Some (i64 (t + basetime)).

(** The options of EXPIRE forbid a change. *)
Definition expire_refused (flag t current : Z) : bool :=
  (has flag EXPIRE_NX && negb (current =? -1)) ||
  (has flag EXPIRE_XX && (current =? -1)) ||
  (has flag EXPIRE_GT && ((t <=? current) || (current =? -1))) ||
  (has flag EXPIRE_LT && (negb (current =? -1) && (current <=? t))).

(** EXPIRE after its options are parsed into [flag]. *)
Definition expireGenericCommand (db : nat) (key : bytes) (t basetime : Z) (seconds : bool) (flag : Z) : M reply :=
  match expire_time t basetime seconds with
  | None => mret r_error
  | Some t =>
      v ← lookupKeyWrite db key;
      if negb (bool_decide (is_Some v)) then mret (r_int 0)
      else
        current ← (if flag =? 0 then mret (-1) else getExpire db key);
        if negb (flag =? 0) && expire_refused flag t current then mret (r_int 0)
        else
          past ← checkAlreadyExpired t;
          if past : bool then
            deleted ← dbGenericDelete db key;
            if negb deleted then fail
            else
              update (with_stats 0 0 0 1);;
              signalModifiedKey db key;;
              mret (r_int 1)
          else
            setExpire db key t;;
            signalModifiedKey db key;;
            update (with_stats 0 0 0 1);;
            mret (r_int 1)
  end.

Definition ttlGenericCommand (db : nat) (key : bytes) (output_ms output_abs : bool) : M Z :=
  v ← lookupKeyReadWithFlags db key LOOKUP_NOTOUCH;
  if negb (bool_decide (is_Some v)) then mret (-2)
  else
    expire ← getExpire db key;
    e ← asks s_env;
    let ttl := if expire =? -1 then -1
               else let ttl := if output_abs then expire else i64 (expire - mstime e) in
                    if ttl <? 0 then 0 else ttl in
    mret (if ttl =? -1 then -1 else if output_ms then ttl else Z.quot (i64 (ttl + 500)) 1000).

Definition persistCommand (db : nat) (key : bytes) : M reply :=
  v ← lookupKeyWrite db key;
  if bool_decide (is_Some v) then
    removed ← removeExpire db key;
    if removed : bool then
      signalModifiedKey db key;; update (with_stats 0 0 0 1);; mret (r_int 1)
    else mret (r_int 0)
  else mret (r_int 0).

(** ** Whole databases *)

(** The databases from [i] on, [n] of them. *)
Fixpoint touch_dbs (i n : nat) : M unit :=
  match n with
  | O => mret tt
  | S n' => touchAllWatchedKeysInDb i None;; touch_dbs (S i) n'
  end.

(** [start] and number of the databases that [dbnum] names. *)
Definition db_range (dbnum : Z) (n : nat) : nat * nat := if dbnum =? -1 then (0%nat, n) else (Z.to_nat dbnum, 1%nat).

Definition signalFlushedDb (dbnum : Z) : M unit :=
  n ← asks (λ s, length (dbs s)); let '(i, k) := db_range dbnum n in touch_dbs i k.

Fixpoint empty_dbs (i n : nat) (removed : Z) : M Z :=
  match n with
  | O => mret removed
  | S n' =>
      d ← get_db i;
      put_db i (Db ∅ ∅ (db_watched d));;
      empty_dbs (S i) n' (removed + Z.of_nat (size (db_dict d)))
  end.

Definition emptyDbStructure (dbnum : Z) : M Z :=
  n ← asks (λ s, length (dbs s)); let '(i, k) := db_range dbnum n in empty_dbs i k 0.

Definition emptyData (dbnum : Z) : M Z :=
  n ← asks (λ s, Z.of_nat (length (dbs s)));
  if (dbnum <? -1) || (n <=? dbnum) then mret (-1)
  else signalFlushedDb dbnum;; emptyDbStructure dbnum.

(** FLUSHDB ([dbnum] is the database of the client) and FLUSHALL ([dbnum] is -1); saving
    the empty RDB file is not modelled. *)
Definition flushCommand (dbnum : Z) : M reply :=
  removed ← emptyData dbnum; update (with_stats 0 0 0 removed);; mret r_ok.

Definition dbSwapDatabases (id1 id2 : Z) : M bool :=
  n ← asks (λ s, Z.of_nat (length (dbs s)));
  if (id1 <? 0) || (n <=? id1) || (id2 <? 0) || (n <=? id2) then mret false
  else if id1 =? id2 then mret true
  else
    let db1 := Z.to_nat id1 in
    let db2 := Z.to_nat id2 in
    touchAllWatchedKeysInDb db1 (Some db2);;
    touchAllWatchedKeysInDb db2 (Some db1);;
    d1 ← get_db db1;
    d2 ← get_db db2;
    put_db db1 (Db (db_dict d2) (db_expires d2) (db_watched d1));;
    put_db db2 (Db (db_dict d1) (db_expires d1) (db_watched d2));;
    mret true.

(** SWAPDB after its arguments are parsed, without cluster mode. *)
Definition swapdbCommand (id1 id2 : Z) : M reply :=
  ok ← dbSwapDatabases id1 id2;
  if ok : bool then update (with_stats 0 0 0 1);; mret r_ok else mret r_error.
End db.
