(* ===== verification/MultiInv.v ===== *)
(** The invariant of the WATCH structures: every [watchedKey] is in the list of its client
    and in the list of its key, once, and nothing else is; a client watches a key once. *)

From stdpp Require Import gmap.
From S2P Require Import Prelude State Keyspace Multi.

Local Open Scope Z_scope.

Section inv.
Context {V Cmd : Type}.
Implicit Types s : redisServer V Cmd.

(** ** Views of a state *)

(** The value of a key with its expire time. *)
Definition raw s (db : nat) (key : bytes) : option (V * option Z) :=
  d ← dbs s !! db; v ← db_dict d !! key; Some (v, db_expires d !! key).

Definition watching s (db : nat) (key : bytes) : list positive :=
  match dbs s !! db with Some d => default [] (db_watched d !! key) | None => [] end.

(** No expire time without a key. *)
Definition expires_ok s : Prop :=
  forall db d key, dbs s !! db = Some d -> is_Some (db_expires d !! key) -> is_Some (db_dict d !! key).

Record watch_ok s : Prop := {
  wk_listed w wk : wkeys s !! w = Some wk -> w ∈ watching s (wk_db wk) (wk_key wk);
  wk_owned w wk : wkeys s !! w = Some wk -> exists x, clients s !! wk_client wk = Some x /\ w ∈ c_watched x;
  watching_wk db key w : w ∈ watching s db key -> exists wk, wkeys s !! w = Some wk /\ wk_db wk = db /\ wk_key wk = key;
  watched_wk c x w : clients s !! c = Some x -> w ∈ c_watched x -> exists wk, wkeys s !! w = Some wk /\ wk_client wk = c;
  watching_nodup db d key l : dbs s !! db = Some d -> db_watched d !! key = Some l -> l <> [] /\ NoDup l;
  watched_nodup c x : clients s !! c = Some x -> NoDup (c_watched x);
  watched_once w1 w2 wk1 wk2 : wkeys s !! w1 = Some wk1 -> wkeys s !! w2 = Some wk2 ->
    wk_client wk1 = wk_client wk2 -> wk_db wk1 = wk_db wk2 -> wk_key wk1 = wk_key wk2 -> w1 = w2 }.

(** The keyspace and everything else that the WATCH functions leave alone. *)
Record same s s' : Prop := {
  same_env : s_env s' = s_env s;
  same_dbs : (λ d, (db_dict d, db_expires d)) <$> dbs s' = (λ d, (db_dict d, db_expires d)) <$> dbs s;
  same_prop : propagated s' = propagated s;
  same_stats : (stat_expiredkeys s', stat_hits s', stat_misses s', dirty s') = (stat_expiredkeys s, stat_hits s, stat_misses s, dirty s) }.

Lemma same_refl s : same s s.
Proof. done. Qed.
Lemma same_trans s1 s2 s3 : same s1 s2 -> same s2 s3 -> same s1 s3.
Proof. intros [] []. split; congruence. Qed.

Lemma same_db s s' db d : same s s' -> dbs s !! db = Some d ->
  exists d', dbs s' !! db = Some d' /\ db_dict d' = db_dict d /\ db_expires d' = db_expires d.
Proof.
  intros [_ H _ _] Hd. apply (f_equal (.!! db)) in H. rewrite !list_lookup_fmap, Hd in H.
  destruct (dbs s' !! db) as [d'|]; [|done]. injection H as H1 H2. by exists d'.
Qed.

Lemma same_sym s s' : same s s' -> same s' s.
Proof. intros []. split; congruence. Qed.

Lemma same_raw s s' db key : same s s' -> raw s' db key = raw s db key.
Proof.
  intros H. unfold raw. destruct (dbs s !! db) as [d|] eqn:Hd.
  - destruct (same_db _ _ _ _ H Hd) as (d' & -> & E1 & E2). cbn. by rewrite E1, E2.
  - destruct (dbs s' !! db) as [d'|] eqn:Hd'; [|done].
    destruct (same_db _ _ _ _ (same_sym _ _ H) Hd') as (? & ? & _). congruence.
Qed.

Lemma same_length s s' : same s s' -> length (dbs s') = length (dbs s).
Proof. intros [_ H _ _]. apply (f_equal length) in H. by rewrite !length_fmap in H. Qed.

Lemma same_expires_ok s s' : same s s' -> expires_ok s -> expires_ok s'.
Proof.
  intros H Hok db d' key Hd' Hk. destruct (same_db _ _ _ _ (same_sym _ _ H) Hd') as (d & Hd & E1 & E2).
  rewrite <- E1. apply (Hok db d); [done|]. by rewrite E2.
Qed.

(** ** Running the primitives *)

Lemma wp_get_db s db d (Q : redisDb V -> redisServer V Cmd -> Prop) : dbs s !! db = Some d -> Q d s -> wp (get_db db) s Q.
Proof. intros Hd HQ. apply wp_bind, wp_get. rewrite Hd. by apply wp_ret. Qed.
Lemma wp_get_client s c x (Q : client Cmd -> redisServer V Cmd -> Prop) : clients s !! c = Some x -> Q x s -> wp (get_client c) s Q.
Proof. intros Hd HQ. apply wp_bind, wp_get. rewrite Hd. by apply wp_ret. Qed.
Lemma wp_get_wkey s w wk (Q : watchedKey -> redisServer V Cmd -> Prop) : wkeys s !! w = Some wk -> Q wk s -> wp (get_wkey w) s Q.
Proof. intros Hd HQ. apply wp_bind, wp_get. rewrite Hd. by apply wp_ret. Qed.
Lemma wp_asks {A} s (f : redisServer V Cmd -> A) (Q : A -> redisServer V Cmd -> Prop) : Q (f s) s -> wp (asks f) s Q.
Proof. intros. by apply wp_bind, wp_get, wp_ret. Qed.
Lemma wp_update s f (Q : unit -> redisServer V Cmd -> Prop) : Q tt (f s) -> wp (update f) s Q.
Proof. intros. by apply wp_bind, wp_get, wp_put. Qed.
Lemma wp_found {A} s (o : option A) a (Q : A -> redisServer V Cmd -> Prop) : o = Some a -> Q a s -> wp (found o) s Q.
Proof. intros ->. by apply wp_ret. Qed.

Lemma wp_put_db s db d d' (Q : unit -> redisServer V Cmd -> Prop) :
  dbs s !! db = Some d -> Q tt (with_dbs <[db := d']> s) -> wp (put_db db d') s Q.
Proof. intros Hd HQ. eapply wp_bind, wp_get_db; [done|]. by apply wp_update. Qed.
Lemma wp_put_client s c x x' (Q : unit -> redisServer V Cmd -> Prop) :
  clients s !! c = Some x -> Q tt (with_clients <[c := x']> s) -> wp (put_client c x') s Q.
Proof. intros Hd HQ. eapply wp_bind, wp_get_client; [done|]. by apply wp_update. Qed.
Lemma wp_put_wkey s w wk wk' (Q : unit -> redisServer V Cmd -> Prop) :
  wkeys s !! w = Some wk -> Q tt (with_wkeys <[w := wk']> s) -> wp (put_wkey w wk') s Q.
Proof. intros Hd HQ. eapply wp_bind, wp_get_wkey; [done|]. by apply wp_update. Qed.

Lemma wp_or_flags s c x f (Q : unit -> redisServer V Cmd -> Prop) :
  clients s !! c = Some x -> Q tt (with_clients <[c := set_flags (Z.lor (c_flags x) f) x]> s) -> wp (or_flags c f) s Q.
Proof. intros Hd HQ. eapply wp_bind, wp_get_client; [done|]. by eapply wp_put_client. Qed.
Lemma wp_clear_flags s c x f (Q : unit -> redisServer V Cmd -> Prop) :
  clients s !! c = Some x -> Q tt (with_clients <[c := set_flags (clear (c_flags x) f) x]> s) -> wp (clear_flags c f) s Q.
Proof. intros Hd HQ. eapply wp_bind, wp_get_client; [done|]. by eapply wp_put_client. Qed.

(** ** Expiry *)

(** Is an entry expired? *)
Definition expired_at (e : env) (r : option (V * option Z)) : bool :=
  match r with
  | Some (_, Some t) => if t <? 0 then false else if loading e then false else t <? clock e
  | _ => false
  end.
Definition is_expired s db key : bool := expired_at (s_env s) (raw s db key).

(** What a command sees. *)
Definition logical s db key : option (V * option Z) := if is_expired s db key then None else raw s db key.

Lemma same_expired s s' db key : same s s' -> is_expired s' db key = is_expired s db key.
Proof. intros H. unfold is_expired. by rewrite (same_env _ _ H), (same_raw _ _ _ _ H). Qed.
Lemma same_logical s s' db key : same s s' -> logical s' db key = logical s db key.
Proof. intros H. unfold logical. by rewrite (same_expired _ _ _ _ H), (same_raw _ _ _ _ H). Qed.

Lemma wp_getExpire s db d key (Q : Z -> redisServer V Cmd -> Prop) : expires_ok s -> dbs s !! db = Some d ->
  Q (default (-1) (db_expires d !! key)) s -> wp (getExpire db key) s Q.
Proof.
  intros Hok Hd HQ. eapply wp_bind, wp_get_db; [done|]. destruct (db_expires d !! key) as [t|] eqn:Ht.
  - destruct (Hok db d key Hd) as [v Hv]; [by rewrite Ht|]. rewrite Hv. by apply wp_ret.
  - by apply wp_ret.
Qed.

Lemma raw_db s db d key : dbs s !! db = Some d -> raw s db key = (v ← db_dict d !! key; Some (v, db_expires d !! key)).
Proof. intros H. unfold raw. by rewrite H. Qed.

Lemma wp_keyIsExpired s db d key (Q : bool -> redisServer V Cmd -> Prop) : expires_ok s -> dbs s !! db = Some d ->
  Q (is_expired s db key) s -> wp (keyIsExpired db key) s Q.
Proof.
  intros Hok Hd HQ. unfold keyIsExpired. apply wp_bind. eapply wp_getExpire; [done|done|].
  eapply wp_bind, wp_asks, wp_ret. unfold is_expired in HQ. rewrite (raw_db _ _ _ _ Hd) in HQ. revert HQ.
  destruct (db_expires d !! key) as [t|] eqn:Ht; cbn.
  - destruct (Hok db d key Hd) as [v Hv]; [by rewrite Ht|]. by rewrite Hv.
  - by destruct (db_dict d !! key).
Qed.
End inv.

(** What [unwatchAllKeys] and [touchWatchedKey] do to a state that satisfies the invariant:
    they do not fail, and their iterators never reach a node that was freed. *)

Section watch.
Context {V Cmd : Type}.
Implicit Types s : redisServer V Cmd.

(** ** Lists of nodes *)

Lemma filter_id {A} (P : A -> Prop) `{forall x, Decision (P x)} (l : list A) : (forall x, x ∈ l -> P x) -> filter P l = l.
Proof.
  induction l as [|a l IH]; intros Hl; [done|]. rewrite filter_cons_True by (apply Hl; by left).
  f_equal. apply IH. intros x Hx. apply Hl. by right.
Qed.

Lemma del_node_spec w l : w ∈ l -> NoDup l -> del_node w l = Some (filter (λ w', w' ≠ w) l).
Proof.
  induction l as [|a l IH]; intros Hw Hn; [by apply elem_of_nil in Hw|]. apply NoDup_cons in Hn as [Ha Hn]. cbn [del_node].
  destruct (bool_decide_reflect (a = w)) as [->|Hne].
  - rewrite filter_cons_False by tauto. f_equal. symmetry. apply filter_id. by intros x Hx ->.
  - rewrite filter_cons_True by done. apply elem_of_cons in Hw as [->|Hw]; [done|]. by rewrite IH.
Qed.

Lemma node_after_spec l1 w l2 : NoDup (l1 ++ w :: l2) -> node_after w (l1 ++ w :: l2) = Some (head l2).
Proof.
  induction l1 as [|a l1 IH]; intros Hn; cbn [app node_after].
  - by rewrite bool_decide_true.
  - apply NoDup_cons in Hn as [Ha Hn]. rewrite bool_decide_false; [by apply IH|].
    intros ->. apply Ha. apply elem_of_app. right. by left.
Qed.

(** ** Watch lists *)

Lemma watching_db s db d key : dbs s !! db = Some d -> watching s db key = default [] (db_watched d !! key).
Proof. intros H. unfold watching. by rewrite H. Qed.

Lemma watching_elem s db key w : w ∈ watching s db key ->
  exists d l, dbs s !! db = Some d /\ db_watched d !! key = Some l /\ watching s db key = l /\ w ∈ l.
Proof.
  unfold watching. destruct (dbs s !! db) as [d|]; [|by intros ?%elem_of_nil].
  destruct (db_watched d !! key) as [l|] eqn:Hl; [|by intros ?%elem_of_nil]. by exists d, l.
Qed.

Lemma watching_NoDup s db key : watch_ok s -> NoDup (watching s db key).
Proof.
  intros Hok. unfold watching. destruct (dbs s !! db) as [d|] eqn:Hd; [|constructor].
  destruct (db_watched d !! key) as [l|] eqn:Hl; [|constructor]. by eapply (watching_nodup _ Hok).
Qed.

(** Replacing the watch table of a database. *)
Lemma same_with_watched s db d t : dbs s !! db = Some d -> same s (with_dbs <[db := set_db_watched t d]> s).
Proof.
  intros Hd. split; try done. cbn [dbs with_dbs]. rewrite list_fmap_insert. apply list_insert_id.
  by rewrite list_lookup_fmap, Hd.
Qed.

Lemma watching_with s db d t db' key : dbs s !! db = Some d ->
  watching (with_dbs <[db := set_db_watched t d]> s) db' key =
  if decide (db' = db) then default [] (t !! key) else watching s db' key.
Proof.
  intros Hd. unfold watching. cbn [dbs with_dbs]. case_decide as E.
  - subst. by rewrite list_lookup_insert_eq by by eapply lookup_lt_Some.
  - by rewrite list_lookup_insert_ne.
Qed.

Lemma same_with_clients s f : same s (with_clients f s).
Proof. done. Qed.
Lemma same_with_wkeys s f : same s (with_wkeys f s).
Proof. done. Qed.

(** ** Unwatching *)

(** [s'] is [s] without the [watchedKey]s [ws], all of them of the client [c]. *)
Record unwatched (c : positive) (ws : list positive) s s' : Prop := {
  un_same : same s s';
  un_wkeys w : wkeys s' !! w = if decide (w ∈ ws) then None else wkeys s !! w;
  un_clients : clients s' = alter (λ x, set_watched (filter (λ w, w ∉ ws) (c_watched x)) x) c (clients s);
  un_watching db key : watching s' db key = filter (λ w, w ∉ ws) (watching s db key);
  un_nonempty db d key l : dbs s' !! db = Some d -> db_watched d !! key = Some l -> l <> [] }.

Lemma unwatched_ok c ws s s' : watch_ok s -> (forall w wk, w ∈ ws -> wkeys s !! w = Some wk -> wk_client wk = c) ->
  unwatched c ws s s' -> watch_ok s'.
Proof.
  intros Hok Hws [Hsame Hwk Hcl Hwat Hne].
  assert (Hin : forall w wk, wkeys s' !! w = Some wk -> (w ∉ ws) /\ wkeys s !! w = Some wk).
  { intros w wk. rewrite Hwk. case_decide; [done|]. done. }
  assert (Hin' : forall w wk, w ∉ ws -> wkeys s !! w = Some wk -> wkeys s' !! w = Some wk).
  { intros w wk Hw H. rewrite Hwk. by rewrite decide_False. }
  assert (Hc : forall c' x', clients s' !! c' = Some x' -> exists x, clients s !! c' = Some x /\
    c_watched x' = (if decide (c' = c) then filter (λ w, w ∉ ws) (c_watched x) else c_watched x)).
  { intros c' x'. rewrite Hcl. case_decide as E.
    - subst. rewrite lookup_alter_eq. intros (x & Hx & ->)%fmap_Some. by exists x.
    - rewrite lookup_alter_ne by done. by exists x'. }
  split.
  - intros w wk (Hw & H)%Hin. rewrite Hwat. apply list_elem_of_filter. split; [done|]. by apply (wk_listed _ Hok).
  - intros w wk (Hw & H)%Hin. destruct (wk_owned _ Hok w wk H) as (x & Hx & Hxw). rewrite Hcl.
    destruct (decide (wk_client wk = c)) as [E|E].
    + rewrite E in *. rewrite lookup_alter_eq, Hx. eexists. split; [done|]. by apply list_elem_of_filter.
    + rewrite lookup_alter_ne by done. by exists x.
  - intros db key w. rewrite Hwat, list_elem_of_filter. intros [Hw H].
    destruct (watching_wk _ Hok db key w H) as (wk & H1 & H2). exists wk. split; [by apply Hin'|done].
  - intros c' x' w (x & Hx & E)%Hc. rewrite E. case_decide as Hcc.
    + rewrite list_elem_of_filter. intros [Hw H]. destruct (watched_wk _ Hok c' x w Hx H) as (wk & H1 & H2).
      exists wk. split; [by apply Hin'|done].
    + intros H. destruct (watched_wk _ Hok c' x w Hx H) as (wk & H1 & H2). exists wk. split; [|done].
      apply Hin'; [|done]. intros Hw. apply Hcc. rewrite <- H2. by eapply Hws.
  - intros db d key l Hd Hl. split; [by eapply Hne|].
    pose proof (Hwat db key) as E. rewrite (watching_db _ _ _ _ Hd), Hl in E. cbn in E. rewrite E.
    apply NoDup_filter, watching_NoDup, Hok.
  - intros c' x' (x & Hx & ->)%Hc. pose proof (watched_nodup _ Hok c' x Hx). case_decide; [by apply NoDup_filter|done].
  - intros w1 w2 wk1 wk2 [_ H1]%Hin [_ H2]%Hin. by apply (watched_once _ Hok).
Qed.

Lemma wp_unwatch s c x w (Q : unit -> redisServer V Cmd -> Prop) :
  watch_ok s -> clients s !! c = Some x -> w ∈ c_watched x ->
  (forall s', unwatched c [w] s s' -> watch_ok s' -> Q tt s') -> wp (unwatch c w) s Q.
Proof.
  intros Hok Hx Hw HQ. destruct (watched_wk _ Hok c x w Hx Hw) as (wk & Hwk & Hc).
  pose proof (wk_listed _ Hok w wk Hwk) as Hin. destruct (watching_elem _ _ _ _ Hin) as (d & l & Hd & Hl & El & Hwl).
  destruct (watching_nodup _ Hok _ _ _ _ Hd Hl) as [_ Hnl]. unfold unwatch.
  eapply wp_bind, wp_get_wkey; [done|]. eapply wp_bind, wp_get_db; [done|].
  eapply wp_bind, wp_found; [done|]. eapply wp_bind, wp_found; [by apply del_node_spec|].
  set (l' := filter _ l). set (t := match l' with [] => _ | _ => _ end).
  eapply wp_bind, wp_put_db; [done|]. eapply wp_bind, wp_get_client; [done|].
  eapply wp_bind, wp_found; [apply del_node_spec; [done|by eapply (watched_nodup _ Hok)]|].
  eapply wp_bind, wp_put_client; [done|]. apply wp_update.
  assert (Ht : forall key, default [] (t !! key) = if decide (key = wk_key wk) then l' else default [] (db_watched d !! key)).
  { intros key. unfold t. case_decide as E; destruct l'; subst; by simplify_map_eq. }
  match goal with |- Q tt ?s' => assert (Hun : unwatched c [w] s s') end.
  { split.
    - eapply same_trans; [by apply (same_with_watched s (wk_db wk) d t)|done].
    - intros w'. cbn [wkeys with_wkeys with_clients with_dbs]. case_decide as H.
      + apply list_elem_of_singleton in H as ->. by rewrite lookup_delete_eq.
      + rewrite list_elem_of_singleton in H. by rewrite lookup_delete_ne.
    - cbn [clients with_wkeys with_clients with_dbs]. apply map_eq. intros c'.
      destruct (decide (c' = c)) as [->|Hne].
      + rewrite lookup_insert_eq, lookup_alter_eq, Hx. cbn. do 2 f_equal. apply list_filter_iff. intros w'.
        by rewrite list_elem_of_singleton.
      + by rewrite lookup_insert_ne, lookup_alter_ne.
    - intros db key. transitivity (watching (with_dbs <[wk_db wk := set_db_watched t d]> s) db key); [done|].
      rewrite (watching_with _ _ _ _ _ _ Hd).
      assert (Hother : (db, key) <> (wk_db wk, wk_key wk) -> filter (λ w', w' ∉ [w]) (watching s db key) = watching s db key).
      { intros Hne. apply filter_id. intros w' Hw' ->%list_elem_of_singleton. apply Hne.
        destruct (watching_wk _ Hok _ _ _ Hw') as (wk' & Hwk' & <- & <-). congruence. }
      case_decide as E; [subst db; rewrite Ht; case_decide as Ek; [subst key|]|].
      + rewrite El. apply list_filter_iff. intros w'. by rewrite list_elem_of_singleton.
      + rewrite Hother by congruence. by rewrite (watching_db _ _ _ _ Hd).
      + by rewrite Hother by congruence.
    - intros db d' key l0. cbn [dbs with_wkeys with_clients with_dbs]. intros Hd' Hl0.
      destruct (decide (db = wk_db wk)) as [->|Hne].
      + rewrite list_lookup_insert_eq in Hd' by by eapply lookup_lt_Some. injection Hd' as <-. cbn in Hl0.
        pose proof (Ht key) as E. rewrite Hl0 in E. cbn in E. unfold t in Hl0. case_decide as Ek.
        * subst. destruct l'; [by rewrite lookup_delete_eq in Hl0|done].
        * destruct l'; [rewrite lookup_delete_ne in Hl0 by done|rewrite lookup_insert_ne in Hl0 by done];
            by apply (watching_nodup _ Hok _ _ _ _ Hd Hl0).
      + rewrite list_lookup_insert_ne in Hd' by done. by apply (watching_nodup _ Hok _ _ _ _ Hd' Hl0). }
  apply HQ; [done|]. eapply unwatched_ok; [done| |done]. intros w' wk' ->%list_elem_of_singleton. congruence.
Qed.

Lemma unwatched_trans c ws1 ws2 s1 s2 s3 :
  unwatched c ws1 s1 s2 -> unwatched c ws2 s2 s3 -> unwatched c (ws1 ++ ws2) s1 s3.
Proof.
  intros [A1 A2 A3 A4 A5] [B1 B2 B3 B4 B5].
  assert (Hf : forall l : list positive, filter (λ w, w ∉ ws2) (filter (λ w, w ∉ ws1) l) = filter (λ w, w ∉ ws1 ++ ws2) l).
  { intros l. rewrite list_filter_filter. apply list_filter_iff. intros w. rewrite elem_of_app. tauto. }
  split.
  - by eapply same_trans.
  - intros w. rewrite B2, A2. destruct (decide (w ∈ ws1)) as [H1|H1], (decide (w ∈ ws2)) as [H2|H2];
      [rewrite decide_True by (apply elem_of_app; tauto); done..|].
    by rewrite decide_False by (rewrite elem_of_app; tauto).
  - rewrite B3, A3. apply map_eq. intros c'. destruct (decide (c' = c)) as [->|]; [|by rewrite !lookup_alter_ne].
    rewrite !lookup_alter_eq. destruct (clients s1 !! c) as [x|]; [|done]. cbn. by rewrite <- Hf.
  - intros db key. rewrite B4, A4. apply Hf.
  - done.
Qed.

Lemma wp_unwatch_loop c (Q : unit -> redisServer V Cmd -> Prop) : forall ws s x,
  watch_ok s -> clients s !! c = Some x -> (forall w, w ∈ ws -> w ∈ c_watched x) -> NoDup ws ->
  (forall s', unwatched c ws s s' -> watch_ok s' -> Q tt s') -> wp (unwatch_loop c ws) s Q.
Proof.
  induction ws as [|w ws IH]; intros s x Hok Hx Hin Hnd HQ.
  - apply wp_ret, HQ; [|done].
    assert (Hid : forall l : list positive, filter (λ w, w ∉ []) l = l) by (intros l; apply filter_id; intros ? _; apply not_elem_of_nil).
    split; [apply same_refl| | | |].
    + intros w. by rewrite decide_False by apply not_elem_of_nil.
    + symmetry. apply map_eq. intros c'. destruct (decide (c' = c)) as [->|].
      * rewrite lookup_alter_eq, Hx. cbn. rewrite Hid. by destruct x.
      * by rewrite lookup_alter_ne.
    + intros. by rewrite Hid.
    + intros db d key l Hd Hl. by apply (watching_nodup _ Hok _ _ _ _ Hd Hl).
  - apply NoDup_cons in Hnd as [Hw Hnd]. eapply wp_bind, wp_unwatch; [done|done|apply Hin; by left|].
    intros s1 Hun Hok1. eapply (IH s1 (set_watched _ x)); [done| | |done|].
    + rewrite (un_clients _ _ _ _ Hun), lookup_alter_eq, Hx. done.
    + intros w' Hw'. apply list_elem_of_filter. split; [|apply Hin; by right]. intros ->%list_elem_of_singleton. done.
    + intros s' Hun' Hok'. apply HQ; [|done]. by eapply (unwatched_trans c [w] ws).
Qed.

Lemma wp_unwatchAllKeys s c x (Q : unit -> redisServer V Cmd -> Prop) : watch_ok s -> clients s !! c = Some x ->
  (forall s', unwatched c (c_watched x) s s' -> watch_ok s' -> Q tt s') -> wp (unwatchAllKeys c) s Q.
Proof.
  intros Hok Hx HQ. eapply wp_bind, wp_get_client; [done|].
  by eapply wp_unwatch_loop; [|done| |eapply (watched_nodup _ Hok)|].
Qed.
End watch.

(** * [touchWatchedKey]: which clients it marks, and what it leaves as it was *)

(** ** Flags *)

Lemma flag_bit f n : 0 <= n -> has f (Z.shiftl 1 n) = Z.testbit f n.
Proof.
  intros Hn. unfold has. rewrite Z.shiftl_1_l. destruct (Z.testbit f n) eqn:E.
  - apply negb_true_iff, Z.eqb_neq. intros H. apply (f_equal (λ z, Z.testbit z n)) in H.
    rewrite Z.land_spec, E, Z.pow2_bits_true, Z.bits_0 in H by done. done.
  - apply negb_false_iff, Z.eqb_eq. apply Z.bits_inj'. intros i Hi. rewrite Z.land_spec, Z.bits_0.
    destruct (decide (i = n)) as [->|Hne]; [by rewrite E|]. rewrite Z.pow2_bits_false by lia. apply andb_false_r.
Qed.

Lemma flag_lor f x y : has f (Z.lor x y) = has f x || has f y.
Proof.
  unfold has. rewrite Z.land_lor_distr_r. destruct (Z.eqb_spec (Z.land f x) 0) as [E1|E1], (Z.eqb_spec (Z.land f y) 0) as [E2|E2]; cbn.
  - by rewrite E1, E2.
  - rewrite E1, Z.lor_0_l. by apply negb_true_iff, Z.eqb_neq.
  - apply negb_true_iff, Z.eqb_neq. by intros [? _]%Z.lor_eq_0_iff.
  - apply negb_true_iff, Z.eqb_neq. by intros [? _]%Z.lor_eq_0_iff.
Qed.

Abbreviation CAS := CLIENT_DIRTY_CAS.

Lemma has_or_same f n : 0 <= n -> has (Z.lor f (Z.shiftl 1 n)) (Z.shiftl 1 n) = true.
Proof.
  intros Hn. rewrite flag_bit, Z.lor_spec by done. rewrite Z.shiftl_1_l, Z.pow2_bits_true by done. apply orb_true_r.
Qed.
Lemma has_or_other f n m : 0 <= n -> 0 <= m -> n <> m -> has (Z.lor f (Z.shiftl 1 n)) (Z.shiftl 1 m) = has f (Z.shiftl 1 m).
Proof.
  intros Hn Hm Hne. rewrite !flag_bit, Z.lor_spec by done. rewrite Z.shiftl_1_l, Z.pow2_bits_false by lia. apply orb_false_r.
Qed.
Lemma has_clear f x n : 0 <= n -> has (clear f x) (Z.shiftl 1 n) = has f (Z.shiftl 1 n) && negb (Z.testbit x n).
Proof. intros Hn. by rewrite !flag_bit, Z.ldiff_spec. Qed.

Section touch.
Context {V Cmd : Type}.
Implicit Types s : redisServer V Cmd.

(** ** Changes that keep the shape of the lists *)

Record shape s s' : Prop := {
  sh_dbs : db_watched <$> dbs s' = db_watched <$> dbs s;
  sh_wkeys w : set_expired false <$> wkeys s' !! w = set_expired false <$> wkeys s !! w;
  sh_clients c : c_watched <$> clients s' !! c = c_watched <$> clients s !! c }.

Lemma shape_refl s : shape s s.
Proof. done. Qed.
Lemma shape_sym s s' : shape s s' -> shape s' s.
Proof. intros []. done. Qed.
Lemma shape_trans s1 s2 s3 : shape s1 s2 -> shape s2 s3 -> shape s1 s3.
Proof. intros [] []. split; intros; etransitivity; eauto. Qed.

Lemma shape_watching s s' db key : shape s s' -> watching s' db key = watching s db key.
Proof.
  intros [H _ _]. apply (f_equal (.!! db)) in H. rewrite !list_lookup_fmap in H. unfold watching.
  destruct (dbs s !! db), (dbs s' !! db); try done. by injection H as ->.
Qed.

Lemma shape_wkey s s' w wk' : shape s s' -> wkeys s' !! w = Some wk' ->
  exists wk, wkeys s !! w = Some wk /\ wk' = set_expired (wk_expired wk') wk.
Proof.
  intros Hs Hw. pose proof (sh_wkeys _ _ Hs w) as E. rewrite Hw in E. destruct (wkeys s !! w) as [wk|]; [|done].
  exists wk. split; [done|]. destruct wk, wk'. injection E as -> -> ->. done.
Qed.

Lemma shape_client s s' c x' : shape s s' -> clients s' !! c = Some x' ->
  exists x, clients s !! c = Some x /\ c_watched x' = c_watched x.
Proof.
  intros Hs Hc. pose proof (sh_clients _ _ Hs c) as E. rewrite Hc in E.
  destruct (clients s !! c) as [x|]; [|done]. injection E as E. by exists x.
Qed.

Lemma shape_ok s s' : watch_ok s -> shape s s' -> watch_ok s'.
Proof.
  intros Hok Hs. pose proof (shape_sym _ _ Hs) as Hs'.
  split.
  - intros w wk (wk0 & H & ->)%(shape_wkey s). 2: done. rewrite (shape_watching _ _ _ _ Hs). exact (wk_listed _ Hok w wk0 H).
  - intros w wk (wk0 & H & ->)%(shape_wkey s). 2: done. destruct (wk_owned _ Hok w wk0 H) as (x & Hx & Hin).
    destruct (shape_client _ _ _ _ Hs' Hx) as (x' & Hx' & E). exists x'. by rewrite <- E.
  - intros db key w. rewrite (shape_watching _ _ _ _ Hs). intros H. destruct (watching_wk _ Hok _ _ _ H) as (wk & Hw & <- & <-).
    destruct (shape_wkey _ _ _ _ Hs' Hw) as (wk' & Hw' & ->). by exists wk'.
  - intros c x' w (x & Hx & ->)%(shape_client s). 2: done. intros H.
    destruct (watched_wk _ Hok _ _ _ Hx H) as (wk & Hw & <-).
    destruct (shape_wkey _ _ _ _ Hs' Hw) as (wk' & Hw' & ->). by exists wk'.
  - intros db d key l Hd Hl. pose proof (sh_dbs _ _ Hs) as E. apply (f_equal (.!! db)) in E.
    rewrite !list_lookup_fmap, Hd in E. destruct (dbs s !! db) as [d0|] eqn:Hd0; [|done]. injection E as E.
    rewrite E in Hl. by apply (watching_nodup _ Hok _ _ _ _ Hd0 Hl).
  - intros c x' (x & Hx & ->)%(shape_client s). 2: done. by apply (watched_nodup _ Hok c).
  - intros w1 w2 wk1 wk2 (wk1' & H1 & ->)%(shape_wkey s). 2: done. intros (wk2' & H2 & ->)%(shape_wkey s). 2: done.
    exact (watched_once _ Hok w1 w2 wk1' wk2' H1 H2).
Qed.

Lemma shape_set_client s c x x' : clients s !! c = Some x -> c_watched x' = c_watched x ->
  shape s (with_clients <[c := x']> s).
Proof.
  intros Hx E. split; try done. intros c'. cbn. destruct (decide (c' = c)) as [->|].
  - rewrite lookup_insert_eq, Hx. cbn. by rewrite E.
  - by rewrite lookup_insert_ne.
Qed.

Lemma shape_set_wkey s w wk b : wkeys s !! w = Some wk -> shape s (with_wkeys <[w := set_expired b wk]> s).
Proof.
  intros Hx. split; try done. intros w'. cbn. destruct (decide (w' = w)) as [->|].
  - by rewrite lookup_insert_eq, Hx.
  - by rewrite lookup_insert_ne.
Qed.

(** ** What touching may change *)

(** A client is left alone, or marked with watches removed. *)
Definition calmed (x x' : client Cmd) : Prop :=
  x' = x \/ exists ws, x' = set_watched ws (set_flags (Z.lor (c_flags x) CAS) x) /\ forall w, w ∈ ws -> w ∈ c_watched x.

Record evolves s s' : Prop := {
  ev_same : same s s';
  ev_client c : option_relation calmed (λ _, False) (λ _, False) (clients s !! c) (clients s' !! c);
  ev_wkey w wk' : wkeys s' !! w = Some wk' -> exists wk, wkeys s !! w = Some wk /\ wk' = set_expired (wk_expired wk') wk }.

Lemma calmed_trans x1 x2 x3 : calmed x1 x2 -> calmed x2 x3 -> calmed x1 x3.
Proof.
  intros [->|(ws & -> & Hws)] [->|(ws' & -> & Hws')]; [by left|right; by exists ws'|right; by exists ws|right].
  exists ws'. split; [|intros w Hw; apply Hws, Hws', Hw].
  unfold set_watched, set_flags. cbn. by rewrite <- Z.lor_assoc, Z.lor_diag.
Qed.

Lemma evolves_refl s : evolves s s.
Proof.
  split; [apply same_refl| |].
  - intros c. destruct (clients s !! c); [by left|done].
  - intros w wk Hw. exists wk. split; [done|]. by destruct wk.
Qed.

Lemma evolves_trans s1 s2 s3 : evolves s1 s2 -> evolves s2 s3 -> evolves s1 s3.
Proof.
  intros [A1 A2 A3] [B1 B2 B3]. split; [by eapply same_trans| |].
  - intros c. specialize (A2 c). specialize (B2 c).
    destruct (clients s1 !! c), (clients s2 !! c), (clients s3 !! c); try done. by eapply calmed_trans.
  - intros w wk3 (wk2 & (wk1 & H1 & E1)%A3 & E2)%B3. exists wk1. split; [done|]. rewrite E2, E1. done.
Qed.

Lemma ev_client_inv s s' c x' : evolves s s' -> clients s' !! c = Some x' ->
  exists x, clients s !! c = Some x /\ calmed x x'.
Proof. intros Hev Hx. pose proof (ev_client _ _ Hev c) as H. rewrite Hx in H. destruct (clients s !! c) as [x|]; [|done]. by exists x. Qed.

Lemma ev_client_fwd s s' c x : evolves s s' -> clients s !! c = Some x ->
  exists x', clients s' !! c = Some x' /\ calmed x x'.
Proof. intros Hev Hx. pose proof (ev_client _ _ Hev c) as H. rewrite Hx in H. destruct (clients s' !! c) as [x'|]; [|done]. by exists x'. Qed.

Lemma calmed_clean x x' : calmed x x' -> has (c_flags x') CAS = false -> x' = x.
Proof.
  intros [->|(ws & -> & _)]; [done|]. cbn. intros H. unfold CLIENT_DIRTY_CAS in H. by rewrite has_or_same in H.
Qed.

(** Marking a client and unwatching its keys. *)
Lemma wp_mark s c x (Q : unit -> redisServer V Cmd -> Prop) : watch_ok s -> clients s !! c = Some x ->
  (forall s', watch_ok s' -> evolves s s' ->
     (forall w, wkeys s' !! w = if decide (w ∈ c_watched x) then None else wkeys s !! w) ->
     (forall db key, watching s' db key = filter (λ w, w ∉ c_watched x) (watching s db key)) -> Q tt s') ->
  wp (or_flags c CAS;; unwatchAllKeys c) s Q.
Proof.
  intros Hok Hx HQ. eapply wp_bind, wp_or_flags; [done|]. set (s1 := with_clients _ s).
  assert (Hok1 : watch_ok s1) by (eapply shape_ok; [exact Hok|by eapply shape_set_client]).
  assert (Hx1 : clients s1 !! c = Some (set_flags (Z.lor (c_flags x) CAS) x)) by (cbn; by rewrite lookup_insert_eq).
  eapply wp_unwatchAllKeys; [done|done|]. intros s' Hun Hok'. apply HQ; [done| |exact (un_wkeys _ _ _ _ Hun)|exact (un_watching _ _ _ _ Hun)].
  split; [exact (same_trans s s1 s' (same_with_clients _ _) (un_same _ _ _ _ Hun))| |].
  - intros c'. rewrite (un_clients _ _ _ _ Hun). destruct (decide (c' = c)) as [->|Hne].
    + rewrite lookup_alter_eq, Hx1, Hx. right. eexists. split; [done|]. by intros w [_ ?]%list_elem_of_filter.
    + rewrite lookup_alter_ne by done. cbn. rewrite lookup_insert_ne by done. destruct (clients s !! c'); [by left|done].
  - intros w wk'. rewrite (un_wkeys _ _ _ _ Hun). case_decide; [done|]. intros Hw. exists wk'. split; [done|]. by destruct wk'.
Qed.

Lemma wp_assoc {A} (f g : ST (redisServer V Cmd) unit) (h : ST (redisServer V Cmd) A) s Q :
  wp ((f;; g);; h) s Q -> wp (f;; g;; h) s Q.
Proof. intros (a & s' & E & HQ). exists a, s'. split; [|done]. rewrite <- E. unfold mbind, ST_bind. by destruct (f s) as [[]|]. Qed.

(** ** The loop *)

(** A watch of [key] was set on the expired key only if the key is gone. *)
Definition clean s db key : Prop :=
  forall w wk, wkeys s !! w = Some wk -> wk_db wk = db -> wk_key wk = key -> wk_expired wk = true -> raw s db key = None.

(** [s'] is [s] after [key] was touched; the watches [done] were visited before. *)
Record touches (db : nat) (key : bytes) (before : list positive) s s' : Prop := {
  tc_ok : watch_ok s';
  tc_evolves : evolves s s';
  tc_frame w wk wk' : wkeys s !! w = Some wk -> wkeys s' !! w = Some wk' ->
    wk' = wk \/ wk_db wk = db /\ wk_key wk = key /\ raw s db key = None /\ wk_expired wk = true /\ wk' = set_expired false wk;
  tc_left : clean s db key -> forall w, w ∈ watching s' db key -> w ∈ before \/
    exists wk wk', wkeys s !! w = Some wk /\ wkeys s' !! w = Some wk' /\ wk_expired wk = true /\ wk_expired wk' = false }.

Lemma touches_refl db key l s : watch_ok s -> (clean s db key -> forall w, w ∈ watching s db key -> w ∈ l) -> touches db key l s s.
Proof.
  intros Hok Hl. split; [done|apply evolves_refl| |].
  - intros w wk wk' H1 H2. left. congruence.
  - intros Hc w Hw. left. by apply Hl.
Qed.

Lemma clean_evolves s s' db key : evolves s s' ->
  (forall w wk', wkeys s' !! w = Some wk' -> wkeys s !! w = Some wk' \/ wk_expired wk' = false) ->
  clean s db key -> clean s' db key.
Proof.
  intros Hev Hwk Hc w wk Hw Hd Hk He. rewrite (same_raw _ _ _ _ (ev_same _ _ Hev)).
  destruct (Hwk w wk Hw) as [H|H]; [by eapply Hc|congruence].
Qed.

Lemma next_node_ok s db key l1 w l2 (Q : option positive -> redisServer V Cmd -> Prop) : watch_ok s ->
  watching s db key = l1 ++ w :: l2 -> Q (head l2) s -> wp (next_node db key w) s Q.
Proof.
  intros Hok Hl HQ. pose proof (watching_NoDup s db key Hok) as Hnd. rewrite Hl in Hnd.
  destruct (watching_elem s db key w) as (d & l & Hd & Hkl & E & _); [rewrite Hl; apply elem_of_app; right; by left|].
  eapply wp_bind, wp_get_db; [done|]. eapply wp_bind, wp_found; [done|]. rewrite <- E, Hl.
  eapply wp_found; [by apply node_after_spec|done].
Qed.

Lemma touch_loop_ok db key : forall l2 s l1, watch_ok s -> watching s db key = l1 ++ l2 ->
  wp (touch_loop (length l2) db key (head l2)) s (λ _ s', touches db key l1 s s').
Proof.
  induction l2 as [|w l2 IH]; intros s l1 Hok Hl.
  { apply wp_ret. apply touches_refl; [done|]. intros _ w. by rewrite Hl, app_nil_r. }
  cbn [touch_loop head length]. apply wp_bind. eapply next_node_ok; [done..|].
  assert (Hwin : w ∈ watching s db key) by (rewrite Hl; apply elem_of_app; right; by left).
  destruct (watching_wk _ Hok _ _ _ Hwin) as (wk & Hwk & Edb & Ekey).
  eapply wp_bind, wp_get_wkey; [done|]. destruct (watching_elem _ _ _ _ Hwin) as (d & _ & Hd & _).
  eapply wp_bind, wp_get_db; [done|]. destruct (wk_expired wk) eqn:Hex.
  - rewrite !bool_decide_true by done. cbn [andb]. destruct (bool_decide_reflect (db_dict d !! key = None)) as [Habs|Hpres].
    + assert (Hraw : raw s db key = None) by (by rewrite (raw_db _ _ _ _ Hd), Habs).
      eapply wp_bind, wp_put_wkey; [done|]. set (s1 := with_wkeys _ s).
      assert (Hsh : shape s s1) by (by apply shape_set_wkey). pose proof (shape_ok _ _ Hok Hsh) as Hok1.
      assert (Hw1 : wkeys s1 !! w = Some (set_expired false wk)) by (cbn; by rewrite lookup_insert_eq).
      assert (Hev : evolves s s1).
      { split; [done| |intros w' wk'; by apply shape_wkey]. intros c. cbn. destruct (clients s !! c); [by left|done]. }
      eapply wp_mono; [apply (IH s1 (l1 ++ [w]) Hok1)|].
      { rewrite (shape_watching _ _ _ _ Hsh), Hl. by rewrite <- app_assoc. }
      intros _ s' [T1 T2 T3 T4]. assert (Hother : forall w', w' <> w -> wkeys s1 !! w' = wkeys s !! w').
      { intros w' Hne. cbn. by rewrite lookup_insert_ne. }
      split; [done|by eapply evolves_trans| |].
      * intros w' wk0 wk' H0 H'. destruct (decide (w' = w)) as [->|Hne].
        -- rewrite Hwk in H0. injection H0 as <-. destruct (T3 w _ wk' Hw1 H') as [->|(_ & _ & _ & E & _)]; [|done]. by right.
        -- rewrite <- Hother in H0 by done. exact (T3 w' wk0 wk' H0 H').
      * intros Hc w' Hw'. assert (Hc1 : clean s1 db key).
        { eapply clean_evolves; [done| |done]. intros w0 wk0 H0. destruct (decide (w0 = w)) as [->|Hne].
          - rewrite Hw1 in H0. injection H0 as <-. by right.
          - left. by rewrite <- Hother. }
        destruct (T4 Hc1 w' Hw') as [Hin|(wk1 & wk' & H1 & H2 & H3 & H4)].
        -- apply elem_of_app in Hin as [Hin| ->%list_elem_of_singleton]; [by left|]. right.
           destruct (watching_wk _ T1 _ _ _ Hw') as (wk' & Hwk' & _). exists wk, wk'. split_and!; [done..|].
           destruct (T3 w _ wk' Hw1 Hwk') as [->|(_ & _ & _ & E & _)]; done.
        -- right. exists wk1, wk'. split_and!; try done. rewrite <- Hother; [done|]. intros ->. rewrite Hw1 in H1. by injection H1 as <-.
    + apply wp_ret. apply touches_refl; [done|]. intros Hc. exfalso. apply Hpres.
      specialize (Hc w wk Hwk Edb Ekey Hex). rewrite (raw_db _ _ _ _ Hd) in Hc. by destruct (db_dict d !! key).
  - destruct (wk_owned _ Hok w wk Hwk) as (x & Hx & Hxw).
    apply wp_assoc, wp_bind. eapply wp_mark; [done|done|]. intros s1 Hok1 Hev1 Hwk1 Hwat1.
    assert (Hl1 : watching s1 db key = l1 ++ l2).
    { pose proof (watching_NoDup s db key Hok) as Hnd. rewrite Hl in Hnd.
      rewrite Hwat1, Hl, filter_app, filter_cons_False by (intros H; by apply H).
      assert (Hrest : forall w', w' ∈ l1 ++ w :: l2 -> w' <> w -> w' ∉ c_watched x).
      { intros w' Hin Hne Hw'. apply Hne. rewrite <- Hl in Hin. destruct (watching_wk _ Hok _ _ _ Hin) as (wk' & H1 & H2 & H3).
        destruct (watched_wk _ Hok _ _ _ Hx Hw') as (wk'' & H1' & H4). rewrite H1 in H1'. injection H1' as <-.
        apply (watched_once _ Hok w' w wk' wk); congruence. }
      apply NoDup_app in Hnd as (_ & Hn1 & Hn2). apply NoDup_cons in Hn2 as [Hn2 _].
      rewrite !filter_id; [done|..]; intros w' Hw'; apply Hrest.
      - apply elem_of_app. right. by right.
      - by intros ->.
      - apply elem_of_app. by left.
      - intros ->. apply (Hn1 w Hw'). by left. }
    eapply wp_mono; [apply (IH s1 l1 Hok1 Hl1)|]. intros _ s' [T1 T2 T3 T4].
    assert (Hkeep : forall w' wk0, wkeys s1 !! w' = Some wk0 -> wkeys s !! w' = Some wk0).
    { intros w' wk0. rewrite Hwk1. by case_decide. }
    split; [done|by eapply evolves_trans| |].
    + intros w' wk0 wk' H0 H'. destruct (ev_wkey _ _ T2 w' wk' H') as (wk1 & H1 & _).
      pose proof (Hkeep _ _ H1) as H1'. rewrite H0 in H1'. injection H1' as <-.
      rewrite <- (same_raw _ _ db key (ev_same _ _ Hev1)). by apply T3 with w'.
    + intros Hc w' Hw'. assert (Hc1 : clean s1 db key).
      { eapply clean_evolves; [done| |done]. intros w0 wk0 H0. left. by apply Hkeep. }
      destruct (T4 Hc1 w' Hw') as [Hin|(wk1 & wk' & H1 & H2)]; [by left|]. right. exists wk1, wk'. split; [by apply Hkeep|done].
Qed.

(** Touching a key of a database that exists never fails. *)
Lemma touchWatchedKey_ok s db d key : watch_ok s -> dbs s !! db = Some d ->
  wp (touchWatchedKey db key) s (λ _ s', touches db key [] s s').
Proof.
  intros Hok Hd. eapply wp_bind, wp_get_db; [done|]. pose proof (watching_db s db d key Hd) as E.
  destruct (db_watched d !! key) as [l|]; cbn in E.
  - by apply touch_loop_ok.
  - apply wp_ret, touches_refl; [done|]. intros _ w. rewrite E. by intros ?%elem_of_nil.
Qed.
End touch.
