(* ===== verification/MultiTrack.v ===== *)
(** What the watches of a primary mean, and how changes of the keyspace keep it.

    For every key that a client asked to WATCH, [W] is what the client saw then.  While the
    client is not marked, it has a [watchedKey] for the key, and the key still is what the
    client saw, except for the keys [P] that a running command has changed and not yet
    signalled. *)

From stdpp Require Import gmap.
From S2P Require Import Prelude State Keyspace Multi MultiInv Db.

Local Open Scope Z_scope.

Section track.
Context {V Cmd : Type}.
Implicit Types s : redisServer V Cmd.

Abbreviation entry := (V * option Z)%type.
Abbreviation seen := (positive -> nat -> bytes -> option (option entry)).

Definition primary s : Prop := masterhost (s_env s) = false /\ loading (s_env s) = false.

Record tracked (P : nat -> bytes -> Prop) (W : seen) s : Prop := {
  t_ok : watch_ok s;
  t_exp : expires_ok s;
  t_env : primary s;
  t_flag w wk : wkeys s !! w = Some wk -> wk_expired wk = true ->
    is_expired s (wk_db wk) (wk_key wk) = true \/ P (wk_db wk) (wk_key wk) /\ raw s (wk_db wk) (wk_key wk) = None;
  t_seen c x db key v : clients s !! c = Some x -> has (c_flags x) CAS = false -> W c db key = Some v ->
    exists w wk, w ∈ c_watched x /\ wkeys s !! w = Some wk /\ wk_db wk = db /\ wk_key wk = key /\
      (if wk_expired wk then v = None else P db key \/ v = raw s db key) }.

Definition nothing (_ : nat) (_ : bytes) : Prop := False.
Definition also (P : nat -> bytes -> Prop) db key (d : nat) (k : bytes) : Prop := P d k \/ d = db /\ k = key.
Definition except (P : nat -> bytes -> Prop) db key (d : nat) (k : bytes) : Prop := P d k /\ (d, k) <> (db, key).

Lemma tracked_weaken (P P' : nat -> bytes -> Prop) W s : (forall d k, P d k -> P' d k) -> tracked P W s -> tracked P' W s.
Proof.
  intros HP [H1 H2 H3 H4 H5]. split; [done|done|done| |].
  - intros w wk Hw He. destruct (H4 w wk Hw He) as [?|[? ?]]; [by left|right; auto].
  - intros c x db key v Hc Hf HW. destruct (H5 c x db key v Hc Hf HW) as (w & wk & Hin & Hw & E1 & E2 & E3).
    exists w, wk. split_and!; try done. destruct (wk_expired wk); [done|]. destruct E3; auto.
Qed.

(** ** Frames *)

(** No watch was set on the key while it was expired. *)
Definition quiet s db key : Prop :=
  forall w wk, wkeys s !! w = Some wk -> wk_db wk = db -> wk_key wk = key -> wk_expired wk = false.

(** What every command preserves. *)
Record kept s s' : Prop := {
  k_env : s_env s' = s_env s;
  k_len : length (dbs s') = length (dbs s);
  k_clients c : option_relation calmed (λ _, False) (λ _, False) (clients s !! c) (clients s' !! c);
  k_wkeys w wk' : wkeys s' !! w = Some wk' -> exists wk, wkeys s !! w = Some wk /\ wk' = set_expired (wk_expired wk') wk;
  k_quiet d k : quiet s d k -> quiet s' d k }.

Lemma kept_refl s : kept s s.
Proof.
  split; [done|done| | |done].
  - intros c. destruct (clients s !! c); [by left|done].
  - intros w wk Hw. exists wk. split; [done|by destruct wk].
Qed.
Lemma kept_trans s1 s2 s3 : kept s1 s2 -> kept s2 s3 -> kept s1 s3.
Proof.
  intros [A1 A2 A3 A4 A5] [B1 B2 B3 B4 B5]. split; [congruence|congruence| | |auto].
  - intros c. specialize (A3 c). specialize (B3 c).
    destruct (clients s1 !! c), (clients s2 !! c), (clients s3 !! c); try done. by eapply calmed_trans.
  - intros w wk3 (wk2 & (wk1 & H1 & E1)%A4 & E2)%B4. exists wk1. split; [done|]. by rewrite E2, E1.
Qed.

Lemma kept_db s s' db : kept s s' -> is_Some (dbs s !! db) -> is_Some (dbs s' !! db).
Proof. intros H. rewrite !lookup_lt_is_Some. by rewrite (k_len _ _ H). Qed.

(** ** Touching *)

Lemma touches_quiet db key s s' d k : touches db key [] s s' -> quiet s d k -> quiet s' d k.
Proof.
  intros [H1 H2 H3 _] Hq w wk' Hw Ed Ek. destruct (ev_wkey _ _ H2 w wk' Hw) as (wk & Hwk & E).
  destruct (H3 w wk wk' Hwk Hw) as [->|(_ & _ & _ & _ & ->)]; [|done]. by apply (Hq w).
Qed.

Lemma touches_kept db key s s' : touches db key [] s s' -> kept s s'.
Proof.
  intros H. pose proof H as [_ H2 _ _]. split.
  - apply H2.
  - apply same_length, H2.
  - apply H2.
  - apply H2.
  - intros d k. by eapply touches_quiet.
Qed.

Lemma tracked_clean P W s db key : tracked P W s -> (is_expired s db key = true -> False) -> clean s db key.
Proof.
  intros Ht He w wk Hw Ed Ek Hex. destruct (t_flag _ _ _ Ht w wk Hw Hex) as [H|[_ H]]; subst; [done|exact H].
Qed.

Lemma quiet_clean s db key : quiet s db key -> clean s db key.
Proof. intros Hq w wk Hw Ed Ek Hex. rewrite (Hq w wk Hw Ed Ek) in Hex. done. Qed.

Lemma tracked_quiet P W s db key : tracked P W s -> ~ P db key -> is_expired s db key = false -> quiet s db key.
Proof.
  intros Ht HP He w wk Hw Ed Ek. destruct (wk_expired wk) eqn:Hex; [|done]. exfalso.
  destruct (t_flag _ _ _ Ht w wk Hw Hex) as [H|[H _]]; subst; [congruence|done].
Qed.

(** After the signal a changed key is as safe as the others. *)
Lemma tracked_touches P W s s' db key : tracked P W s -> clean s db key -> touches db key [] s s' ->
  tracked (except P db key) W s' /\ quiet s' db key.
Proof.
  intros Ht Hc [T1 T2 T3 T4]. pose proof (ev_same _ _ T2) as Hsame. split.
  2: { intros w wk' Hw Ed Ek. destruct (T4 Hc w) as [?%elem_of_nil|(wk & wk2 & H1 & H2 & H3 & H4)]; [|done|congruence].
       subst. by apply (wk_listed _ T1). }
  split; [done|by eapply same_expires_ok, Ht|unfold primary; rewrite (same_env _ _ Hsame); apply Ht| |].
  - intros w wk' Hw He. rewrite (same_expired _ _ _ _ Hsame), (same_raw _ _ _ _ Hsame).
    destruct (ev_wkey _ _ T2 w wk' Hw) as (wk & Hwk & E).
    destruct (T3 w wk wk' Hwk Hw) as [->|(_ & _ & _ & _ & ->)]; [|done].
    destruct (t_flag _ _ _ Ht w wk Hwk He) as [?|[HP ?]]; [by left|]. right. split; [|done]. split; [done|].
    intros [= Ed Ek]. destruct (T4 Hc w) as [?%elem_of_nil|(wk1 & wk2 & H1 & H2 & H3 & H4)]; [|done|congruence].
    subst. by apply (wk_listed _ T1).
  - intros c x' d k v Hx' Hf HW. destruct (ev_client_inv _ _ _ _ T2 Hx') as (x & Hx & ->%calmed_clean); [|done].
    destruct (t_seen _ _ _ Ht c x d k v Hx Hf HW) as (w & wk & Hin & Hw & Ed & Ek & Hv).
    destruct (watched_wk _ T1 c x w Hx' Hin) as (wk' & Hw' & _). exists w, wk'.
    destruct (ev_wkey _ _ T2 w wk' Hw') as (wk0 & Hwk0 & E). rewrite Hw in Hwk0. injection Hwk0 as <-.
    split; [done|]. split; [done|]. split; [by rewrite E|]. split; [by rewrite E|]. rewrite (same_raw _ _ _ _ Hsame).
    destruct (T3 w wk wk' Hw Hw') as [->|(Ed' & Ek' & Hr & He & ->)].
    + destruct (wk_expired wk) eqn:Hex; [done|]. destruct Hv as [HP|Hv]; [|by right]. left. split; [done|].
      intros [= -> ->]. destruct (T4 Hc w) as [?%elem_of_nil|(wk1 & wk2 & H1 & H2 & H3 & H4)]; [|done|congruence].
      subst. by apply (wk_listed _ T1).
    + rewrite He in Hv. subst. cbn. by right.
Qed.

(** ** Changing a key *)

Lemma expired_raw s s' d k : s_env s' = s_env s -> raw s' d k = raw s d k -> is_expired s' d k = is_expired s d k.
Proof. intros E1 E2. unfold is_expired. by rewrite E1, E2. Qed.

(** [s'] is [s] with another entry at one key. *)
Record changed (db : nat) (key : bytes) (r : option entry) s s' : Prop := {
  ch_here : raw s' db key = r;
  ch_other d k : (d, k) <> (db, key) -> raw s' d k = raw s d k;
  ch_exp : expires_ok s -> expires_ok s';
  ch_env : s_env s' = s_env s;
  ch_watched : db_watched <$> dbs s' = db_watched <$> dbs s;
  ch_clients : clients s' = clients s;
  ch_wkeys : wkeys s' = wkeys s }.

Lemma changed_shape db key r s s' : changed db key r s s' -> shape s s'.
Proof. intros H. split; [apply H|by rewrite (ch_wkeys _ _ _ _ _ H)|by rewrite (ch_clients _ _ _ _ _ H)]. Qed.

Lemma changed_kept db key r s s' : changed db key r s s' -> kept s s'.
Proof.
  intros H. split; [apply H| | | |].
  - pose proof (ch_watched _ _ _ _ _ H) as E. apply (f_equal length) in E. by rewrite !length_fmap in E.
  - intros c. rewrite (ch_clients _ _ _ _ _ H). destruct (clients s !! c); [by left|done].
  - intros w wk. rewrite (ch_wkeys _ _ _ _ _ H). intros Hw. exists wk. split; [done|by destruct wk].
  - intros d k Hq w wk. rewrite (ch_wkeys _ _ _ _ _ H). apply Hq.
Qed.

Lemma tracked_changed P W s s' db key r : tracked P W s -> quiet s db key \/ r = None -> changed db key r s s' ->
  tracked (also P db key) W s'.
Proof.
  intros Ht Hq Hch. pose proof Hch as [C1 C2 C3 C4 C5 C6 C7]. split.
  - eapply shape_ok; [apply Ht|by eapply changed_shape].
  - apply C3, Ht.
  - unfold primary. rewrite C4. apply Ht.
  - intros w wk. rewrite C7. intros Hw He. destruct (decide ((wk_db wk, wk_key wk) = (db, key))) as [[= Ed Ek]|Hne].
    + destruct Hq as [Hq| ->]; [by rewrite (Hq w wk Hw Ed Ek) in He|]. right. rewrite Ed, Ek. split; [by right|done].
    + rewrite C2 by done. rewrite (expired_raw s s') by auto.
      destruct (t_flag _ _ _ Ht w wk Hw He) as [?|[? ?]]; [by left|right; split; [by left|done]].
  - intros c x d k v. rewrite C6, C7. intros Hx Hf HW. destruct (t_seen _ _ _ Ht c x d k v Hx Hf HW) as (w & wk & Hin & Hw & Ed & Ek & Hv).
    exists w, wk. split_and!; try done. destruct (wk_expired wk); [done|].
    destruct (decide ((d, k) = (db, key))) as [[= -> ->]|Hne]; [left; by right|]. rewrite C2 by done.
    destruct Hv as [?|?]; [left; by left|by right].
Qed.

Lemma changed_trans db key r1 r2 s1 s2 s3 : changed db key r1 s1 s2 -> changed db key r2 s2 s3 -> changed db key r2 s1 s3.
Proof.
  intros [A1 A2 A3 A4 A5 A6 A7] [B1 B2 B3 B4 B5 B6 B7]. split; try congruence; [|auto].
  intros d k Hne. by rewrite B2, A2.
Qed.

(** Replacing the tables of a database at one key. *)
Lemma changed_put s db d key dict exps :
  dbs s !! db = Some d ->
  (forall k, k <> key -> dict !! k = db_dict d !! k /\ exps !! k = db_expires d !! k) ->
  (is_Some (exps !! key) -> is_Some (dict !! key)) ->
  changed db key (v ← dict !! key; Some (v, exps !! key)) s (with_dbs <[db := Db dict exps (db_watched d)]> s).
Proof.
  intros Hd Hother Hexp. assert (Hlt : (db < length (dbs s))%nat) by (by eapply lookup_lt_Some).
  split; try done; cbn [dbs with_dbs].
  - unfold raw. cbn [dbs with_dbs]. by rewrite list_lookup_insert_eq.
  - intros d' k Hne. unfold raw. cbn [dbs with_dbs]. destruct (decide (d' = db)) as [->|Hnd].
    + rewrite list_lookup_insert_eq, Hd by done. cbn. destruct (Hother k) as [-> ->]; [congruence|done].
    + by rewrite list_lookup_insert_ne.
  - intros Hok db' d' k Hd'. cbn [dbs with_dbs] in Hd'. destruct (decide (db' = db)) as [->|Hnd].
    + rewrite list_lookup_insert_eq in Hd' by done. injection Hd' as <-. cbn. intros Hk.
      destruct (decide (k = key)) as [->|Hne]; [auto|]. destruct (Hother k Hne) as [E1 E2].
      rewrite E1. apply (Hok db d); [done|]. by rewrite <- E2.
    + rewrite list_lookup_insert_ne in Hd' by done. by apply (Hok db').
  - rewrite list_fmap_insert. cbn. apply list_insert_id. by rewrite list_lookup_fmap, Hd.
Qed.
End track.
