(* ===== verification/DbOps.v ===== *)
(** The primitives of the keyspace on a primary: what each does to the entry of its key,
    and that the watches stay right. *)

From stdpp Require Import gmap.
From S2P Require Import Prelude State Keyspace Multi MultiInv MultiTrack Db.

Local Open Scope Z_scope.

Section ops.
Context {V Cmd : Type}.
Implicit Types s : redisServer V Cmd.
Abbreviation entry := (V * option Z)%type.
Abbreviation seen := (positive -> nat -> bytes -> option (option entry)).

(** ** Entries *)

Definition upd (db : nat) (key : bytes) (r : option entry) (L : nat -> bytes -> option entry) (d : nat) (k : bytes) : option entry :=
  if decide ((d, k) = (db, key)) then r else L d k.

Lemma upd_same db key r L : upd db key r L db key = r.
Proof. unfold upd. by rewrite decide_True. Qed.
Lemma upd_other db key r L d k : (d, k) <> (db, key) -> upd db key r L d k = L d k.
Proof. intros H. unfold upd. by rewrite decide_False. Qed.

(** What a command sees of an entry. *)
Definition view (e : env) (r : option entry) : option entry := if expired_at e r then None else r.

Lemma logical_view s d k : logical s d k = view (s_env s) (raw s d k).
Proof. done. Qed.
Lemma view_view e r : view e (view e r) = view e r.
Proof. unfold view. destruct (expired_at e r) eqn:E; [done|by rewrite E]. Qed.

Definition exists_db s (db : nat) : Prop := is_Some (dbs s !! db).
Definition writable s : Prop := paused (s_env s) = false.

Lemma changed_raw db key r s s' d k : changed db key r s s' -> raw s' d k = upd db key r (raw s) d k.
Proof.
  intros H. unfold upd. case_decide as E; [injection E as -> ->; apply H|by apply (ch_other _ _ _ _ _ H)].
Qed.

(** ** Fields that the watches do not depend on *)

Record core_eq s s' : Prop := {
  ce_env : s_env s' = s_env s; ce_dbs : dbs s' = dbs s; ce_clients : clients s' = clients s; ce_wkeys : wkeys s' = wkeys s }.

Lemma core_raw s s' d k : core_eq s s' -> raw s' d k = raw s d k.
Proof. intros H. unfold raw. by rewrite (ce_dbs _ _ H). Qed.

Lemma core_tracked P (W : seen) s s' : core_eq s s' -> tracked P W s -> tracked P W s'.
Proof.
  intros H [H1 H2 H3 H4 H5]. pose proof H as [E1 E2 E3 E4]. split.
  - eapply shape_ok; [exact H1|]. split; [by rewrite E2|by rewrite E4|by rewrite E3].
  - intros db d k. rewrite E2. apply H2.
  - unfold primary. by rewrite E1.
  - intros w wk. rewrite E4, (core_raw _ _ _ _ H). unfold is_expired. rewrite E1, (core_raw _ _ _ _ H). apply H4.
  - intros c x d k v. rewrite E3, E4, (core_raw _ _ _ _ H). apply H5.
Qed.

Lemma core_kept s s' : core_eq s s' -> kept s s'.
Proof.
  intros [E1 E2 E3 E4]. split; [done|by rewrite E2| | |].
  - intros c. rewrite E3. destruct (clients s !! c); [by left|done].
  - intros w wk. rewrite E4. intros Hw. exists wk. split; [done|by destruct wk].
  - intros d k Hq w wk. rewrite E4. apply Hq.
Qed.

Lemma stats_core a b c d s : core_eq s (with_stats a b c d s).
Proof. done. Qed.
Lemma propagated_core x s : core_eq s (with_propagated x s).
Proof. done. Qed.

(** ** Single tables *)

Lemma raw_get s db d key r : dbs s !! db = Some d -> raw s db key = r ->
  db_dict d !! key = fst <$> r /\ (is_Some r -> db_expires d !! key = r ≫= snd).
Proof.
  intros Hd. rewrite (raw_db _ _ _ _ Hd). destruct (db_dict d !! key); cbn; intros <-; [done|]. split; [done|]. by intros [? ?].
Qed.

Lemma no_expire s db d key : expires_ok s -> dbs s !! db = Some d -> raw s db key = None -> db_expires d !! key = None.
Proof.
  intros Hok Hd Hr. apply eq_None_not_Some. intros Hk. destruct (Hok db d key Hd Hk) as [v Hv].
  by rewrite (raw_db _ _ _ _ Hd), Hv in Hr.
Qed.

Lemma wp_dbGenericDelete s db key (Q : bool -> redisServer V Cmd -> Prop) : exists_db s db ->
  (forall s', changed db key None s s' -> Q (bool_decide (is_Some (raw s db key))) s') -> wp (dbGenericDelete db key) s Q.
Proof.
  intros [d Hd] HQ. eapply wp_bind, wp_get_db; [done|]. eapply wp_bind, wp_put_db; [done|]. apply wp_ret.
  replace (bool_decide (is_Some (db_dict d !! key))) with (bool_decide (is_Some (raw s db key))).
  - apply HQ. eapply eq_rect with (P := λ r, changed db key r s _); [apply changed_put; [done| |]|].
    + intros k Hk. by rewrite !lookup_delete_ne.
    + rewrite lookup_delete_eq. by intros [? ?].
    + by rewrite !lookup_delete_eq.
  - apply bool_decide_ext. rewrite (raw_db _ _ _ _ Hd). rewrite !is_Some_alt. by destruct (db_dict d !! key).
Qed.

Lemma wp_dbAdd s db key val (Q : unit -> redisServer V Cmd -> Prop) : expires_ok s -> exists_db s db -> raw s db key = None ->
  (forall s', changed db key (Some (val, None)) s s' -> Q tt s') -> wp (dbAdd db key val) s Q.
Proof.
  intros Hok [d Hd] Hr HQ. eapply wp_bind, wp_get_db; [done|]. destruct (raw_get _ _ _ _ _ Hd Hr) as [E _]. rewrite E.
  eapply wp_put_db; [done|]. apply HQ. eapply eq_rect with (P := λ r, changed db key r s _); [apply (changed_put s db d); [done| |]|].
  - intros k Hk. by rewrite lookup_insert_ne.
  - by rewrite lookup_insert_eq.
  - rewrite lookup_insert_eq, (no_expire _ _ _ _ Hok Hd Hr). done.
Qed.

Lemma wp_dbOverwrite s db key val v t (Q : unit -> redisServer V Cmd -> Prop) : exists_db s db -> raw s db key = Some (v, t) ->
  (forall s', changed db key (Some (val, t)) s s' -> Q tt s') -> wp (dbOverwrite db key val) s Q.
Proof.
  intros [d Hd] Hr HQ. eapply wp_bind, wp_get_db; [done|]. destruct (raw_get _ _ _ _ _ Hd Hr) as [E1 E2]. rewrite E1.
  eapply wp_put_db; [done|]. apply HQ. eapply eq_rect with (P := λ r, changed db key r s _); [apply (changed_put s db d); [done| |]|].
  - intros k Hk. by rewrite lookup_insert_ne.
  - by rewrite lookup_insert_eq.
  - rewrite lookup_insert_eq, E2 by done. done.
Qed.

Lemma wp_setExpire s db key v t0 t (Q : unit -> redisServer V Cmd -> Prop) : exists_db s db -> raw s db key = Some (v, t0) ->
  (forall s', changed db key (Some (v, Some t)) s s' -> Q tt s') -> wp (setExpire db key t) s Q.
Proof.
  intros [d Hd] Hr HQ. eapply wp_bind, wp_get_db; [done|]. destruct (raw_get _ _ _ _ _ Hd Hr) as [E1 E2]. rewrite E1.
  eapply wp_put_db; [done|]. apply HQ. eapply eq_rect with (P := λ r, changed db key r s _); [apply (changed_put s db d); [done| |]|].
  - intros k Hk. by rewrite lookup_insert_ne.
  - by rewrite E1.
  - by rewrite E1, lookup_insert_eq.
Qed.

Lemma wp_removeExpire s db key v t0 (Q : bool -> redisServer V Cmd -> Prop) : exists_db s db -> raw s db key = Some (v, t0) ->
  (forall s', changed db key (Some (v, None)) s s' -> Q (bool_decide (is_Some t0)) s') -> wp (removeExpire db key) s Q.
Proof.
  intros [d Hd] Hr HQ. eapply wp_bind, wp_get_db; [done|]. destruct (raw_get _ _ _ _ _ Hd Hr) as [E1 E2]. rewrite E1.
  eapply wp_bind, wp_put_db; [done|]. rewrite E2 by done. apply wp_ret, HQ.
  eapply eq_rect with (P := λ r, changed db key r s _); [apply (changed_put s db d); [done| |]|].
  - intros k Hk. by rewrite lookup_delete_ne.
  - by rewrite E1.
  - by rewrite E1, lookup_delete_eq.
Qed.

Lemma wp_getExpire_raw s db key v t (Q : Z -> redisServer V Cmd -> Prop) : expires_ok s -> exists_db s db -> raw s db key = Some (v, t) ->
  Q (default (-1) t) s -> wp (getExpire db key) s Q.
Proof.
  intros Hok [d Hd] Hr HQ. eapply wp_getExpire; [done..|]. destruct (raw_get _ _ _ _ _ Hd Hr) as [_ E]. by rewrite E.
Qed.

(** ** Signals *)

(** Nobody watches the key. *)
Definition lonely s db key : Prop := forall w wk, wkeys s !! w = Some wk -> ~ (wk_db wk = db /\ wk_key wk = key).

Lemma gone_clean s db key : raw s db key = None -> clean s db key.
Proof. by intros H w wk _ _ _ _. Qed.

Lemma wp_signal P (W : seen) s db key (Q : unit -> redisServer V Cmd -> Prop) : tracked P W s -> exists_db s db -> clean s db key ->
  (forall s', tracked (except P db key) W s' -> kept s s' -> quiet s' db key -> (quiet s db key -> lonely s' db key) ->
     (forall d k, raw s' d k = raw s d k) -> Q tt s') ->
  wp (signalModifiedKey db key) s Q.
Proof.
  intros Ht [d Hd] Hc HQ. eapply wp_mono; [eapply touchWatchedKey_ok; [apply Ht|done]|].
  intros [] s' Hto. destruct (tracked_touches _ _ _ _ _ _ Ht Hc Hto) as [Ht' Hq']. apply HQ; [done|by eapply touches_kept|done| |].
  - intros Hq w wk Hw [Ed Ek]. destruct (tc_left _ _ _ _ _ Hto Hc w) as [?%elem_of_nil|(wk1 & wk2 & H1 & H2 & H3 & H4)]; [|done|].
    + subst. by apply (wk_listed _ (t_ok _ _ _ Ht')).
    + rewrite H2 in Hw. injection Hw as ->. destruct (ev_wkey _ _ (tc_evolves _ _ _ _ _ Hto) w wk H2) as (wk0 & H0 & E).
      rewrite H1 in H0. injection H0 as <-. rewrite E in Ed, Ek. rewrite (Hq w wk1 H1 Ed Ek) in H3. done.
  - intros d' k. apply same_raw, (tc_evolves _ _ _ _ _ Hto).
Qed.

(** A change of a key that nobody watches needs no signal. *)
Lemma tracked_lonely P (W : seen) s db key : lonely s db key -> tracked (also P db key) W s -> tracked P W s.
Proof.
  intros Hl [H1 H2 H3 H4 H5]. split; [done|done|done| |].
  - intros w wk Hw He. destruct (H4 w wk Hw He) as [?|[[?|[? ?]] ?]]; [by left|by right|]. by destruct (Hl w wk Hw).
  - intros c x d k v Hx Hf HW. destruct (H5 c x d k v Hx Hf HW) as (w & wk & Hin & Hw & Ed & Ek & Hv).
    exists w, wk. split_and!; try done. destruct (wk_expired wk); [done|].
    destruct Hv as [[?|[-> ->]]|?]; [by left| |by right]. by destruct (Hl w wk Hw).
Qed.

Lemma except_also P db key d k : @except (also P db key) db key d k -> P d k.
Proof. intros [[?|[-> ->]] Hne]; [done|done]. Qed.

(** A change followed by its signal. *)
Lemma wp_signal_changed P (W : seen) s s1 db key r (Q : unit -> redisServer V Cmd -> Prop) :
  tracked P W s -> exists_db s db -> quiet s db key -> changed db key r s s1 ->
  (forall s', tracked P W s' -> kept s s' -> lonely s' db key -> (forall d k, raw s' d k = upd db key r (raw s) d k) -> Q tt s') ->
  wp (signalModifiedKey db key) s1 Q.
Proof.
  intros Ht Hdb Hq Hch HQ. pose proof (changed_kept _ _ _ _ _ Hch) as Hk.
  eapply wp_signal; [eapply tracked_changed; [done|by left|done]|by eapply kept_db|by apply quiet_clean, Hk|].
  intros s' Ht' Hk' _ Hl Hr. apply HQ; [|by eapply kept_trans|by apply Hl, Hk|].
  - eapply tracked_weaken; [apply except_also|done].
  - intros d k. by rewrite Hr, (changed_raw _ _ _ _ _ _ _ Hch).
Qed.

(** ** Expiry *)

Lemma expired_present e (r : option entry) : expired_at e r = true -> is_Some r.
Proof. destruct r; [done|done]. Qed.

Lemma wp_deleteExpired P (W : seen) s db key (Q : unit -> redisServer V Cmd -> Prop) :
  tracked P W s -> exists_db s db ->
  (forall s', tracked P W s' -> kept s s' -> quiet s' db key -> (forall d k, raw s' d k = upd db key None (raw s) d k) -> Q tt s') ->
  wp (deleteExpiredKeyAndPropagate db key) s Q.
Proof.
  intros Ht Hdb HQ. apply wp_bind. apply wp_dbGenericDelete; [done|]. intros s1 Hch.
  pose proof (changed_kept _ _ _ _ _ Hch) as Hk. apply wp_bind.
  eapply wp_signal; [eapply tracked_changed; [done|by right|done]|by eapply kept_db|apply gone_clean, Hch|].
  intros s2 Ht2 Hk2 Hq2 _ Hr2. eapply wp_bind, wp_asks. apply wp_bind, wp_update, wp_update.
  match goal with |- Q tt ?s => assert (Hce : core_eq s2 s) by done end.
  apply HQ.
  - eapply core_tracked; [done|]. eapply tracked_weaken; [apply except_also|done].
  - eapply kept_trans; [done|]. eapply kept_trans; [done|]. by apply core_kept.
  - by eapply k_quiet; [apply core_kept|].
  - intros d k. by rewrite (core_raw _ _ _ _ Hce), Hr2, (changed_raw _ _ _ _ _ _ _ Hch).
Qed.

(** [expireIfNeeded] deletes the expired keys, unless it is told not to. *)
Lemma wp_expireIfNeeded P (W : seen) s db key flags (Q : bool -> redisServer V Cmd -> Prop) :
  tracked P W s -> exists_db s db ->
  (forall s', tracked P W s' -> kept s s' ->
     (forall d k, (d, k) <> (db, key) -> raw s' d k = raw s d k) ->
     raw s' db key = raw s db key \/ raw s' db key = logical s db key ->
     (writable s -> has flags EXPIRE_AVOID_DELETE_EXPIRED = false ->
        raw s' db key = logical s db key /\ (~ P db key -> quiet s' db key)) ->
     Q (is_expired s db key) s') ->
  wp (expireIfNeeded db key flags) s Q.
Proof.
  intros Ht [d Hd] HQ. destruct (t_env _ _ _ Ht) as [Hm Hload]. apply wp_bind.
  eapply wp_keyIsExpired; [apply Ht|done|]. destruct (is_expired s db key) eqn:He; cbn [negb].
  - eapply wp_bind, wp_asks. rewrite Hm. cbn [andb].
    assert (Hstay : (writable s -> has flags EXPIRE_AVOID_DELETE_EXPIRED = false -> False) -> Q true s).
    { intros Hno. apply HQ; [done|apply kept_refl|done|by left|]. intros H1 H2. by destruct Hno. }
    destruct (has flags EXPIRE_AVOID_DELETE_EXPIRED) eqn:Ha; [apply wp_ret, Hstay; done|].
    destruct (paused (s_env s)) eqn:Hp; [apply wp_ret, Hstay; unfold writable; congruence|].
    apply wp_bind. eapply wp_deleteExpired; [done|by exists d|]. intros s' Ht' Hk Hq Hr. apply wp_ret.
    assert (Hl : raw s' db key = logical s db key) by (rewrite Hr, upd_same; unfold logical; by rewrite He).
    apply HQ; [done|done| |by right|by intros _ _].
    intros d' k Hne. by rewrite Hr, upd_other.
  - apply wp_ret, HQ; [done|apply kept_refl|done|by left|]. intros _ _. split; [unfold logical; by rewrite He|].
    intros HP. by eapply tracked_quiet.
Qed.

(** ** Lookups *)

Lemma has_write flags : has (Z.lor flags LOOKUP_WRITE) LOOKUP_NOEXPIRE = has flags LOOKUP_NOEXPIRE.
Proof. by apply has_or_other. Qed.

Lemma wp_lookupKey P (W : seen) s db key flags (Q : option V -> redisServer V Cmd -> Prop) :
  tracked P W s -> exists_db s db ->
  (forall s', tracked P W s' -> kept s s' ->
     (forall d k, (d, k) <> (db, key) -> raw s' d k = raw s d k) ->
     raw s' db key = raw s db key \/ raw s' db key = logical s db key ->
     (writable s -> has flags LOOKUP_NOEXPIRE = false ->
        raw s' db key = logical s db key /\ (~ P db key -> quiet s' db key)) ->
     Q (fst <$> logical s db key) s') ->
  wp (lookupKey db key flags) s Q.
Proof.
  intros Ht [d Hd] HQ. eapply wp_bind, wp_get_db; [done|]. eapply wp_bind, wp_asks. apply wp_bind.
  assert (Hfin : forall s1 v, tracked P W s1 -> kept s s1 -> (forall d k, (d, k) <> (db, key) -> raw s1 d k = raw s d k) ->
     raw s1 db key = raw s db key \/ raw s1 db key = logical s db key ->
     (writable s -> has flags LOOKUP_NOEXPIRE = false -> raw s1 db key = logical s db key /\ (~ P db key -> quiet s1 db key)) ->
     v = fst <$> logical s db key ->
     wp (let quiet := has flags (Z.lor LOOKUP_NOSTATS LOOKUP_WRITE) in
         update (match v with Some _ => with_stats 0 (if quiet then 0 else 1) 0 0 | None => with_stats 0 0 (if quiet then 0 else 1) 0 end);;
         mret v) s1 Q).
  { intros s1 v Ht1 Hk1 Ho Hr Hw ->. cbn zeta. apply wp_bind, wp_update, wp_ret.
    match goal with |- Q _ ?s => assert (Hce : core_eq s1 s) by (by destruct (logical _ _ _)) end.
    apply HQ; [by eapply core_tracked|eapply kept_trans; [done|by apply core_kept]| | |].
    - intros d' k Hne. by rewrite (core_raw _ _ _ _ Hce), Ho.
    - by rewrite (core_raw _ _ _ _ Hce).
    - intros H1 H2. rewrite (core_raw _ _ _ _ Hce). destruct (Hw H1 H2) as [? Hq]. split; [done|].
      intros HP. eapply k_quiet; [by apply core_kept|auto]. }
  destruct (db_dict d !! key) as [v|] eqn:Hv.
  - apply wp_bind. eapply wp_expireIfNeeded; [done|by exists d|]. intros s1 Ht1 Hk1 Ho Hr Hw. apply wp_ret.
    apply Hfin; [done|done|done|done| |].
    + intros H1 H2. apply Hw; [done|]. rewrite H2. destruct (has flags LOOKUP_WRITE && _); done.
    + unfold logical. rewrite (raw_db _ _ _ _ Hd), Hv. by destruct (is_expired s db key).
  - assert (Hraw : raw s db key = None) by (by rewrite (raw_db _ _ _ _ Hd), Hv).
    assert (He : is_expired s db key = false) by (unfold is_expired; by rewrite Hraw).
    assert (Hl : logical s db key = None) by (unfold logical; by rewrite He).
    apply wp_ret, Hfin; [done|apply kept_refl|done|by left| |by rewrite Hl].
    intros _ _. rewrite Hl, Hraw. split; [done|]. intros HP. by eapply tracked_quiet.
Qed.

Lemma wp_lookupKeyWrite P (W : seen) s db key (Q : option V -> redisServer V Cmd -> Prop) :
  tracked P W s -> exists_db s db -> writable s -> ~ P db key ->
  (forall s', tracked P W s' -> kept s s' -> quiet s' db key ->
     (forall d k, raw s' d k = upd db key (logical s db key) (raw s) d k) -> Q (fst <$> logical s db key) s') ->
  wp (lookupKeyWrite db key) s Q.
Proof.
  intros Ht Hdb Hwr HP HQ. eapply wp_lookupKey; [done|done|]. intros s' Ht' Hk Ho _ Hw.
  destruct (Hw Hwr) as [Hr Hq]; [done|]. apply HQ; [done|done|auto|].
  intros d k. unfold upd. case_decide as E; [by injection E as -> ->|auto].
Qed.
End ops.

(** The commands on single keys against their specification on a map from keys to values
    and expire times, on a primary whose clients are not paused. *)

Section cmd.
Context {V Cmd : Type}.
Implicit Types s : redisServer V Cmd.
Abbreviation entry := (V * option Z)%type.
Abbreviation seen := (positive -> nat -> bytes -> option (option entry)).
Abbreviation keymap := (nat -> bytes -> option entry).

(** ** Specification *)

Definition spec_set (db : nat) (flags : Z) (key : bytes) (val : V) (expire : option Z) (L : keymap) : reply * keymap :=
  let old := L db key in
  if (has flags OBJ_SET_NX && bool_decide (is_Some old)) || (has flags OBJ_SET_XX && negb (bool_decide (is_Some old)))
  then (r_nil, L)
  else
    let t := match expire with Some t => Some t | None => if has flags OBJ_KEEPTTL then old ≫= snd else None end in
    (r_ok, upd db key (Some (val, t)) L).

Fixpoint spec_del (db : nat) (keys : list bytes) (n : Z) (L : keymap) : reply * keymap :=
  match keys with
  | [] => (r_int n, L)
  | key :: keys' =>
      match L db key with
      | Some _ => spec_del db keys' (n + 1) (upd db key None L)
      | None => spec_del db keys' n L
      end
  end.

(** The expire time -1 stands for none. *)
Definition moved (r : entry) : entry := (r.1, if default (-1) r.2 =? -1 then None else r.2).

Definition spec_rename (db : nat) (from to : bytes) (nx : bool) (L : keymap) : reply * keymap :=
  match L db from with
  | None => (r_error, L)
  | Some r =>
      if bool_decide (from = to) then (if nx then r_int 0 else r_ok, L)
      else if bool_decide (is_Some (L db to)) && nx then (r_int 0, L)
      else (if nx then r_int 1 else r_ok, upd db from None (upd db to (Some (moved r)) L))
  end.

(** [n] is the number of databases. *)
Definition spec_move (n : nat) (src : nat) (dbid : Z) (key : bytes) (L : keymap) : reply * keymap :=
  if (dbid <? 0) || (Z.of_nat n <=? dbid) then (r_error, L)
  else
    let dst := Z.to_nat dbid in
    if bool_decide (src = dst) then (r_error, L)
    else
      match L src key with
      | None => (r_int 0, L)
      | Some r =>
          if bool_decide (is_Some (L dst key)) then (r_int 0, L)
          else (r_int 1, upd src key None (upd dst key (Some (moved r)) L))
      end.

Definition spec_expire (now : Z) (db : nat) (key : bytes) (t basetime : Z) (seconds : bool) (flag : Z) (L : keymap) : reply * keymap :=
  match expire_time t basetime seconds with
  | None => (r_error, L)
  | Some t =>
      match L db key with
      | None => (r_int 0, L)
      | Some (v, current) =>
          if negb (flag =? 0) && expire_refused flag t (default (-1) current) then (r_int 0, L)
          else if t <=? now then (r_int 1, upd db key None L)
          else (r_int 1, upd db key (Some (v, Some t)) L)
      end
  end.

Definition spec_persist (db : nat) (key : bytes) (L : keymap) : reply * keymap :=
  match L db key with
  | Some (v, Some _) => (r_int 1, upd db key (Some (v, None)) L)
  | _ => (r_int 0, L)
  end.

(** ** Refinement *)

(** The run from [s] to [s'] keeps the watches right, and the commands now see [L]; an
    entry whose time has passed already is not seen. *)
Record runs (W : seen) s s' (L : keymap) : Prop := {
  rn_tracked : tracked nothing W s';
  rn_kept : kept s s';
  rn_logical d k : logical s' d k = view (s_env s) (L d k) }.

Lemma logical_idem s d k : view (s_env s) (logical s d k) = logical s d k.
Proof. apply view_view. Qed.

Lemma logical_of s s' L : s_env s' = s_env s -> (forall d k, raw s' d k = L d k) -> forall d k, logical s' d k = view (s_env s) (L d k).
Proof. intros E H d k. by rewrite logical_view, E, H. Qed.

Lemma view_upd s db key r d k : view (s_env s) (upd db key r (raw s) d k) = view (s_env s) (upd db key r (logical s) d k).
Proof. unfold upd. case_decide; [done|]. by rewrite logical_idem. Qed.

(** A lookup changes nothing that commands see. *)
Lemma lookup_logical s s1 db key : kept s s1 -> (forall d k, raw s1 d k = upd db key (logical s db key) (raw s) d k) ->
  forall d k, logical s1 d k = logical s d k.
Proof.
  intros Hk Hr d k. rewrite logical_view, (k_env _ _ Hk), Hr, view_upd. unfold upd.
  case_decide as E; [injection E as -> ->; apply logical_idem|apply logical_idem].
Qed.

Lemma runs_same W s s' : tracked nothing W s' -> kept s s' -> (forall d k, logical s' d k = logical s d k) -> runs W s s' (logical s).
Proof. intros H1 H2 H3. split; [done|done|]. intros d k. by rewrite H3, logical_idem. Qed.

Lemma runs_upd W s s1 s' db key r : kept s s1 -> (forall d k, logical s1 d k = logical s d k) ->
  tracked nothing W s' -> kept s1 s' -> (forall d k, raw s' d k = upd db key r (raw s1) d k) -> runs W s s' (upd db key r (logical s)).
Proof.
  intros Hk Hl Ht Hk' Hr. split; [done|by eapply kept_trans|]. intros d k.
  rewrite logical_view, (k_env _ _ Hk'), Hr, view_upd, (k_env _ _ Hk). unfold upd. case_decide; [done|by rewrite Hl].
Qed.

Lemma runs_core W s s1 s' L : core_eq s1 s' -> runs W s s1 L -> runs W s s' L.
Proof.
  intros Hc [H1 H2 H3]. split; [by eapply core_tracked|eapply kept_trans; [done|by apply core_kept]|].
  intros d k. rewrite logical_view, (core_raw _ _ _ _ Hc), (ce_env _ _ Hc). apply H3.
Qed.

Lemma exists_kept s s' db : kept s s' -> exists_db s db -> exists_db s' db.
Proof. apply kept_db. Qed.

Lemma writable_kept s s' : kept s s' -> writable s -> writable s'.
Proof. intros H. unfold writable. by rewrite (k_env _ _ H). Qed.

Lemma logical_here s s1 db key : (forall d k, raw s1 d k = upd db key (logical s db key) (raw s) d k) -> raw s1 db key = logical s db key.
Proof. intros H. by rewrite H, upd_same. Qed.

(** The first step of most commands. *)
Lemma wp_lookup_first W s db key (Q : option V -> redisServer V Cmd -> Prop) : tracked nothing W s -> exists_db s db -> writable s ->
  (forall s1, tracked nothing W s1 -> kept s s1 -> quiet s1 db key -> exists_db s1 db -> raw s1 db key = logical s db key ->
     (forall d k, logical s1 d k = logical s d k) -> Q (fst <$> logical s db key) s1) ->
  wp (lookupKeyWrite db key) s Q.
Proof.
  intros Ht Hdb Hw HQ. eapply wp_lookupKeyWrite; [done|done|done|intros []|]. intros s1 Ht1 Hk1 Hq1 Hr1.
  apply HQ; [done|done|done|by eapply exists_kept|by eapply logical_here|by eapply lookup_logical].
Qed.

(** [setKey] after the caller looked the key up. *)
Lemma wp_setKey W s db key val flags (keep : bool) (Q : unit -> redisServer V Cmd -> Prop) :
  tracked nothing W s -> exists_db s db -> quiet s db key ->
  flags = Z.lor (if keep then SETKEY_KEEPTTL else 0)
                (if bool_decide (is_Some (raw s db key)) then SETKEY_ALREADY_EXIST else SETKEY_DOESNT_EXIST) ->
  (forall s', tracked nothing W s' -> kept s s' -> lonely s' db key ->
     (forall d k, raw s' d k = upd db key (Some (val, if keep then raw s db key ≫= snd else None)) (raw s) d k) -> Q tt s') ->
  wp (setKey db key val flags) s Q.
Proof.
  intros Ht Hdb Hq -> HQ. unfold setKey.
  assert (Hsig : forall s1 s2, changed db key (Some (val, raw s db key ≫= snd)) s s1 ->
    wp ((if keep then mret tt else _ ← removeExpire db key; mret tt);; signalModifiedKey db key) s1 Q).
  { intros s1 _ Hch. pose proof (changed_kept _ _ _ _ _ Hch) as Hk. destruct keep.
    - apply wp_bind, wp_ret. eapply wp_signal_changed; eauto.
    - apply wp_bind, wp_bind. eapply wp_removeExpire; [by eapply kept_db|apply Hch|]. intros s2 Hch2. apply wp_ret.
      eapply wp_signal_changed; [done|done|done|by eapply changed_trans|done]. }
  destruct (raw s db key) as [[v0 t0]|] eqn:Hraw.
  - rewrite bool_decide_true by done.
    assert (has (Z.lor (if keep then SETKEY_KEEPTTL else 0) SETKEY_ALREADY_EXIST) SETKEY_ALREADY_EXIST = true) as -> by by destruct keep.
    apply wp_bind, wp_ret, wp_bind. eapply wp_dbOverwrite; [done|done|]. intros s1 Hch.
    replace (has _ SETKEY_KEEPTTL) with keep by by destruct keep. replace (has _ SETKEY_NO_SIGNAL) with false by by destruct keep.
    by apply Hsig.
  - rewrite bool_decide_false by by intros [? ?].
    assert (has (Z.lor (if keep then SETKEY_KEEPTTL else 0) SETKEY_DOESNT_EXIST) SETKEY_ALREADY_EXIST = false) as -> by by destruct keep.
    assert (has (Z.lor (if keep then SETKEY_KEEPTTL else 0) SETKEY_DOESNT_EXIST) SETKEY_DOESNT_EXIST = true) as -> by by destruct keep.
    cbn [negb]. apply wp_bind, wp_ret, wp_bind. eapply wp_dbAdd; [apply Ht|done|done|]. intros s1 Hch.
    replace (has _ SETKEY_KEEPTTL) with keep by by destruct keep. replace (has _ SETKEY_NO_SIGNAL) with false by by destruct keep.
    by apply Hsig.
Qed.

Lemma set_refines W s db flags key val expire : tracked nothing W s -> exists_db s db -> writable s ->
  wp (setGenericCommand db flags key val expire) s (λ r s',
    r = (spec_set db flags key val expire (logical s)).1 /\ runs W s s' (spec_set db flags key val expire (logical s)).2 /\
    (r = r_ok -> lonely s' db key)).
Proof.
  intros Ht Hdb Hw. apply wp_bind, (wp_lookup_first W); [done..|]. intros s1 Ht1 Hk1 Hq1 Hdb1 Hr1 Hl1. unfold spec_set.
  replace (bool_decide (is_Some (fst <$> logical s db key))) with (bool_decide (is_Some (logical s db key)))
    by (apply bool_decide_ext; by rewrite fmap_is_Some).
  destruct ((has flags OBJ_SET_NX && _) || _); [apply wp_ret; split; [done|split; [by apply runs_same|done]]|].
  apply wp_bind. eapply (wp_setKey W _ _ _ _ _ (has flags OBJ_KEEPTTL)); [done|done|done|by rewrite Hr1|].
  intros s2 Ht2 Hk2 Hlone Hr2. apply wp_bind, wp_update. set (s3 := with_stats 0 0 0 1 s2).
  assert (Hce : core_eq s2 s3) by done. rewrite Hr1 in Hr2.
  assert (Hr3 : forall d k, raw s3 d k = upd db key (Some (val, if has flags OBJ_KEEPTTL then logical s db key ≫= snd else None)) (raw s1) d k).
  { intros d k. rewrite (core_raw _ _ _ _ Hce). apply Hr2. }
  assert (Hk3 : kept s1 s3) by (eapply kept_trans; [done|by apply core_kept]).
  apply wp_bind. destruct expire as [t|].
  - eapply wp_setExpire; [by eapply exists_kept|by rewrite Hr3, upd_same|]. intros s4 Hch.
    assert (Hl4 : lonely s4 db key) by (intros w wk; rewrite (ch_wkeys _ _ _ _ _ Hch); apply Hlone).
    apply wp_ret. split; [done|]. split; [|done]. eapply (runs_upd W s s1); [done|done| | |].
    + eapply tracked_lonely, tracked_changed; [exact Hl4|by eapply core_tracked| |done].
      left. intros w wk Hwk Ed Ek. by destruct (Hlone w wk Hwk).
    + eapply kept_trans; [done|by eapply changed_kept].
    + intros d k. rewrite (changed_raw _ _ _ _ _ _ _ Hch). unfold upd at 1 2. case_decide; [done|]. by rewrite Hr3, upd_other.
  - apply wp_ret, wp_ret. split; [done|]. split; [|done]. eapply (runs_upd W s s1); [done|done|by eapply core_tracked|done|done].
Qed.

(** Whoever watched a key that nobody watches any more is marked. *)
Lemma lonely_marks s s' db key c x w wk : watch_ok s' -> kept s s' -> lonely s' db key ->
  clients s !! c = Some x -> w ∈ c_watched x -> wkeys s !! w = Some wk -> wk_db wk = db -> wk_key wk = key ->
  exists x', clients s' !! c = Some x' /\ has (c_flags x') CAS = true.
Proof.
  intros Hok Hk Hl Hx Hin Hw Ed Ek. pose proof (k_clients _ _ Hk c) as Hc. rewrite Hx in Hc.
  destruct (clients s' !! c) as [x'|] eqn:Hx'; [|done]. exists x'. split; [done|]. destruct Hc as [->|(ws & -> & _)].
  - exfalso. destruct (watched_wk _ Hok c x w Hx' Hin) as (wk' & Hw' & _). destruct (k_wkeys _ _ Hk w wk' Hw') as (wk0 & Hw0 & E).
    rewrite Hw in Hw0. injection Hw0 as <-. apply (Hl w wk' Hw'). rewrite E. by split.
  - cbn. unfold CLIENT_DIRTY_CAS. by apply has_or_same.
Qed.

(** A change that writes the entry that was there. *)
Lemma unchanged W s s' db key : tracked nothing W s -> changed db key (raw s db key) s s' ->
  tracked nothing W s' /\ kept s s' /\ forall d k, logical s' d k = logical s d k.
Proof.
  intros [H1 H2 H3 H4 H5] Hch. pose proof (changed_kept _ _ _ _ _ Hch) as Hk.
  assert (Hraw : forall d k, raw s' d k = raw s d k).
  { intros d k. rewrite (changed_raw _ _ _ _ _ _ _ Hch). unfold upd. case_decide as E; [by injection E as -> ->|done]. }
  assert (Hex : forall d k, is_expired s' d k = is_expired s d k) by (intros; by apply expired_raw; [apply Hk|]).
  split; [|split; [done|intros d k; unfold logical; by rewrite Hex, Hraw]]. pose proof Hch as [_ _ C3 C4 _ C6 C7]. split.
  - eapply shape_ok; [done|by eapply changed_shape].
  - auto.
  - unfold primary. by rewrite C4.
  - intros w wk. rewrite C7, Hex, Hraw. apply H4.
  - intros c x d k v. rewrite C6, C7, Hraw. apply H5.
Qed.

Lemma persist_refines W s db key : tracked nothing W s -> exists_db s db -> writable s ->
  wp (persistCommand db key) s (λ r s',
    r = (spec_persist db key (logical s)).1 /\ runs W s s' (spec_persist db key (logical s)).2).
Proof.
  intros Ht Hdb Hw. apply wp_bind, (wp_lookup_first W); [done..|]. intros s1 Ht1 Hk1 Hq1 Hdb1 Hr1 Hl1. unfold spec_persist.
  destruct (logical s db key) as [[v t]|] eqn:Hl; cbn [fmap option_fmap option_map].
  2: { rewrite bool_decide_false by by intros [? ?]. apply wp_ret. split; [done|by apply runs_same]. }
  rewrite bool_decide_true by done. apply wp_bind. eapply wp_removeExpire; [done|done|]. intros s2 Hch.
  destruct t as [t|].
  - rewrite bool_decide_true by done. apply wp_bind. eapply wp_signal_changed; [exact Ht1|done|done|done|].
    intros s3 Ht3 Hk3 _ Hr3. apply wp_bind, wp_update, wp_ret. split; [done|].
    eapply runs_core; [apply stats_core|]. by eapply runs_upd.
  - rewrite bool_decide_false by by intros [? ?]. apply wp_ret. split; [done|].
    rewrite <- Hr1 in Hch. destruct (unchanged W s1 s2 db key Ht1 Hch) as (Ht2 & Hk2 & Hl2).
    apply runs_same; [done|by eapply kept_trans|intros d k; by rewrite Hl2].
Qed.

(** ** Deletions *)

Lemma del_step W s db key : tracked nothing W s -> exists_db s db -> writable s ->
  forall Q : bool -> redisServer V Cmd -> Prop,
  (forall s1, tracked nothing W s1 -> kept s s1 -> quiet s1 db key -> exists_db s1 db -> raw s1 db key = logical s db key ->
     (forall d k, logical s1 d k = logical s d k) -> Q (is_expired s db key) s1) -> wp (expireIfNeeded db key 0) s Q.
Proof.
  intros Ht Hdb Hw Q HQ. eapply wp_expireIfNeeded; [done|done|]. intros s1 Ht1 Hk1 Ho _ Hr. destruct (Hr Hw eq_refl) as [Hr1 Hq1].
  apply HQ; [done|done|apply Hq1; intros []|by eapply exists_kept|done|].
  apply (lookup_logical s s1 db key); [done|]. intros d k. unfold upd. case_decide as E; [by injection E as -> ->|auto].
Qed.

Lemma runs_trans W s1 s2 s3 L L2 : (forall d k, logical s2 d k = L2 d k) -> kept s1 s2 -> runs W s2 s3 L -> runs W s1 s3 L.
Proof. intros _ Hk [H1 H2 H3]. split; [done|by eapply kept_trans|]. intros d k. by rewrite H3, (k_env _ _ Hk). Qed.

(** Specifications look at a map through its values only. *)
Lemma spec_del_ext db keys : forall n L L', (forall d k, L d k = L' d k) ->
  (spec_del db keys n L).1 = (spec_del db keys n L').1 /\ forall d k, (spec_del db keys n L).2 d k = (spec_del db keys n L').2 d k.
Proof.
  induction keys as [|key keys IH]; intros n L L' HL; [done|]. cbn [spec_del]. rewrite HL.
  destruct (L' db key); [|by apply IH]. apply IH. intros d k. unfold upd. by case_decide.
Qed.

Lemma runs_ext W s s' L L' : (forall d k, L d k = L' d k) -> runs W s s' L -> runs W s s' L'.
Proof. intros HL [H1 H2 H3]. split; [done|done|]. intros d k. by rewrite H3, HL. Qed.

Lemma delete_keys_refines W db keys : forall s n, tracked nothing W s -> exists_db s db -> writable s ->
  wp (delete_keys db keys n) s (λ r s',
    r_int r = (spec_del db keys n (logical s)).1 /\ runs W s s' (spec_del db keys n (logical s)).2).
Proof.
  induction keys as [|key keys IH]; intros s n Ht Hdb Hw; cbn [delete_keys spec_del].
  { apply wp_ret. split; [done|]. apply runs_same; [done|apply kept_refl|done]. }
  apply wp_bind, (del_step W); [done..|]. intros s1 Ht1 Hk1 Hq1 Hdb1 Hr1 Hl1.
  apply wp_bind, wp_dbGenericDelete; [done|]. intros s2 Hch. rewrite Hr1.
  destruct (logical s db key) as [r|] eqn:Hl.
  - rewrite bool_decide_true by done. apply wp_bind. eapply wp_signal_changed; [exact Ht1|done|done|done|].
    intros s3 Ht3 Hk3 _ Hr3. apply wp_bind, wp_update. set (s4 := with_stats 0 0 0 1 s3).
    assert (Hru : runs W s s4 (upd db key None (logical s))) by (eapply runs_core; [apply stats_core|]; by eapply runs_upd).
    assert (Hl4 : forall d k, logical s4 d k = upd db key None (logical s) d k).
    { intros d k. rewrite (rn_logical _ _ _ _ Hru). unfold upd. case_decide; [done|apply logical_idem]. }
    pose proof (rn_kept _ _ _ _ Hru) as Hk4.
    eapply wp_mono; [apply IH; [apply Hru|by eapply exists_kept|by eapply writable_kept]|].
    intros r' s5 [-> Hru5]. destruct (spec_del_ext db keys (n + 1) _ _ Hl4) as [-> HL]. split; [done|].
    eapply runs_ext; [exact HL|]. by eapply runs_trans.
  - rewrite bool_decide_false by by intros [? ?].
    assert (Hn : raw s1 db key = None) by congruence. rewrite <- Hn in Hch. destruct (unchanged W s1 s2 db key Ht1 Hch) as (Ht2 & Hk2 & Hl2).
    assert (Hk : kept s s2) by (by eapply kept_trans).
    assert (Hls : forall d k, logical s2 d k = logical s d k) by (intros; by rewrite Hl2).
    eapply wp_mono; [apply IH; [done|by eapply exists_kept|by eapply writable_kept]|].
    intros r' s5 [-> Hru5]. destruct (spec_del_ext db keys n _ _ Hls) as [-> HL]. split; [done|].
    eapply runs_ext; [exact HL|]. by eapply runs_trans.
Qed.

Lemma del_refines W s db keys : tracked nothing W s -> exists_db s db -> writable s ->
  wp (delGenericCommand db keys) s (λ r s',
    r = (spec_del db keys 0 (logical s)).1 /\ runs W s s' (spec_del db keys 0 (logical s)).2).
Proof. intros Ht Hdb Hw. apply wp_bind. eapply wp_mono; [by apply delete_keys_refines|]. intros r s' H. by apply wp_ret. Qed.

(** ** EXPIRE *)

Lemma expire_refines W s db key t basetime seconds flag : tracked nothing W s -> exists_db s db -> writable s ->
  wp (expireGenericCommand db key t basetime seconds flag) s (λ r s',
    r = (spec_expire (mstime (s_env s)) db key t basetime seconds flag (logical s)).1 /\
    runs W s s' (spec_expire (mstime (s_env s)) db key t basetime seconds flag (logical s)).2).
Proof.
  intros Ht Hdb Hw. unfold expireGenericCommand, spec_expire.
  destruct (expire_time t basetime seconds) as [t'|]; [|apply wp_ret; split; [done|apply runs_same; [done|apply kept_refl|done]]].
  apply wp_bind, (wp_lookup_first W); [done..|]. intros s1 Ht1 Hk1 Hq1 Hdb1 Hr1 Hl1.
  destruct (logical s db key) as [[v cur]|] eqn:Hl; cbn [fmap option_fmap option_map fst].
  2: { rewrite bool_decide_false by by intros [? ?]. apply wp_ret. split; [done|by apply runs_same]. }
  rewrite bool_decide_true by done. cbn [negb]. apply wp_bind.
  assert (Hmain : forall Q : reply -> redisServer V Cmd -> Prop,
    (forall s', runs W s s' (upd db key (if t' <=? mstime (s_env s) then None else Some (v, Some t')) (logical s)) -> Q (r_int 1) s') ->
    wp (past ← checkAlreadyExpired t';
        if past : bool then
          deleted ← dbGenericDelete db key;
          if negb deleted then fail
          else update (with_stats 0 0 0 1);; signalModifiedKey db key;; mret (r_int 1)
        else setExpire db key t';; signalModifiedKey db key;; update (with_stats 0 0 0 1);; mret (r_int 1)) s1 Q).
  { intros Q HQ. destruct (t_env _ _ _ Ht1) as [Hm Hld]. apply wp_bind. eapply wp_bind, wp_asks, wp_ret.
    rewrite Hm, Hld, !andb_true_r, (k_env _ _ Hk1). destruct (t' <=? mstime (s_env s)).
    - apply wp_bind, wp_dbGenericDelete; [done|]. intros s2 Hch. rewrite Hr1, bool_decide_true by done. cbn [negb].
      apply wp_bind, wp_update, wp_bind. set (s3 := with_stats 0 0 0 1 s2).
      assert (Hch3 : changed db key None s1 s3) by (destruct Hch; by split).
      eapply wp_signal_changed; [exact Ht1|done|done|exact Hch3|]. intros s4 Ht4 Hk4 _ Hr4. apply wp_ret, HQ. by eapply runs_upd.
    - apply wp_bind. eapply wp_setExpire; [done|done|]. intros s2 Hch. apply wp_bind.
      eapply wp_signal_changed; [exact Ht1|done|done|done|]. intros s3 Ht3 Hk3 _ Hr3. apply wp_bind, wp_update, wp_ret, HQ.
      eapply runs_core; [apply stats_core|]. by eapply runs_upd. }
  destruct (flag =? 0) eqn:Hf; cbn [negb andb].
  - apply wp_ret, Hmain. intros s' Hru. by destruct (t' <=? _).
  - eapply wp_getExpire_raw; [apply Ht1|done|done|]. destruct (expire_refused _ _ _).
    + apply wp_ret. split; [done|]. by apply runs_same.
    + apply Hmain. intros s' Hru. by destruct (t' <=? _).
Qed.

(** ** RENAME and MOVE *)

Lemma quiet_changed s s' db key r d k : changed db key r s s' -> quiet s d k -> quiet s' d k.
Proof. intros H. apply (changed_kept _ _ _ _ _ H). Qed.

(** Adding the value under its new key, deleting the old key and the two signals. *)
Lemma wp_transfer W s s1 d1 k1 d2 k2 o t a (Q : reply -> redisServer V Cmd -> Prop) :
  tracked nothing W s -> exists_db s d1 -> exists_db s d2 -> quiet s d1 k1 -> quiet s d2 k2 -> (d1, k1) <> (d2, k2) ->
  s1 = s /\ raw s d2 k2 = None \/ changed d2 k2 None s s1 ->
  (forall s', tracked nothing W s' -> kept s s' ->
     (forall d k, raw s' d k = upd d1 k1 None (upd d2 k2 (Some (moved (o, t))) (raw s)) d k) -> Q a s') ->
  wp (dbAdd d2 k2 o;;
      (if default (-1) t =? -1 then mret tt else setExpire d2 k2 (default (-1) t));;
      _ ← dbGenericDelete d1 k1;
      signalModifiedKey d1 k1;; signalModifiedKey d2 k2;; update (with_stats 0 0 0 1);; mret a) s1 Q.
Proof.
  intros Ht H1 H2 Hq1 Hq2 Hne Hpre HQ.
  assert (Hs1 : raw s1 d2 k2 = None /\ exists_db s1 d2 /\ expires_ok s1 /\
                forall r s', changed d2 k2 r s1 s' -> changed d2 k2 r s s').
  { destruct Hpre as [[-> Hr]|Hch]; [split_and!; [done|done|apply Ht|done]|].
    split_and!; [apply Hch|by eapply exists_kept, H2; eapply changed_kept|apply Hch, Ht|].
    intros r s' H. by eapply changed_trans. }
  destruct Hs1 as (Hr1 & Hdb1 & He1 & Htr). apply wp_bind, wp_dbAdd; [done..|]. intros s2 Hch2%Htr.
  assert (Hadd : forall Q' : unit -> redisServer V Cmd -> Prop,
    (forall s3, changed d2 k2 (Some (moved (o, t))) s s3 -> Q' tt s3) ->
    wp (if default (-1) t =? -1 then mret tt else setExpire d2 k2 (default (-1) t)) s2 Q').
  { intros Q' HQ'. unfold moved in HQ'. cbn [fst snd] in HQ'. destruct (default (-1) t =? -1) eqn:Et; [by apply wp_ret, HQ'|].
    destruct t as [t|]; [|done]. eapply wp_setExpire; [eapply exists_kept, H2; by eapply changed_kept|apply Hch2|].
    intros s3 Hch3. apply HQ'. by eapply changed_trans. }
  apply wp_bind, Hadd. intros s3 Hch3. pose proof (changed_kept _ _ _ _ _ Hch3) as Hk3.
  assert (Ht3 : tracked (also nothing d2 k2) W s3) by (eapply tracked_changed; [done|by left|done]).
  apply wp_bind, wp_dbGenericDelete; [by eapply exists_kept|]. intros s4 Hch4. apply wp_bind.
  eapply wp_signal_changed; [exact Ht3|by eapply exists_kept|by eapply quiet_changed|done|].
  intros s5 Ht5 Hk5 _ Hr5. assert (Hk05 : kept s s5) by (by eapply kept_trans).
  apply wp_bind. eapply wp_signal; [exact Ht5|by eapply exists_kept|apply quiet_clean; by eapply k_quiet|].
  intros s6 Ht6 Hk6 _ _ Hr6. apply wp_bind, wp_update, wp_ret. set (s7 := with_stats 0 0 0 1 s6).
  assert (Hce : core_eq s6 s7) by done. apply HQ.
  - eapply core_tracked; [done|]. eapply tracked_weaken; [apply except_also|done].
  - eapply kept_trans; [done|]. eapply kept_trans; [done|by apply core_kept].
  - intros d k. rewrite (core_raw _ _ _ _ Hce), Hr6, Hr5. unfold upd at 1 2. case_decide; [done|].
    by apply changed_raw.
Qed.

Lemma wp_bind_ret_r (f : ST (redisServer V Cmd) bool) (Q : unit -> redisServer V Cmd -> Prop) s :
  wp f s (λ _ s', Q tt s') -> wp (_ ← f; mret tt) s Q.
Proof. intros H. apply wp_bind. eapply wp_mono; [exact H|]. intros a s' HQ. by apply wp_ret. Qed.

Lemma runs_transfer W s s2 s' d1 k1 d2 k2 (r : entry) : kept s s2 -> (forall d k, logical s2 d k = logical s d k) ->
  tracked nothing W s' -> kept s2 s' -> (forall d k, raw s' d k = upd d1 k1 None (upd d2 k2 (Some r) (raw s2)) d k) ->
  runs W s s' (upd d1 k1 None (upd d2 k2 (Some r) (logical s))).
Proof.
  intros Hk Hl Ht Hk' Hr. split; [done|by eapply kept_trans|]. intros d k.
  rewrite logical_view, (k_env _ _ Hk'), Hr, (k_env _ _ Hk). unfold upd. case_decide; [done|]. case_decide; [done|].
  rewrite <- Hl. by rewrite logical_view, (k_env _ _ Hk), view_view.
Qed.

Lemma rename_refines W s db from to nx : tracked nothing W s -> exists_db s db -> writable s ->
  wp (renameGenericCommand db from to nx) s (λ r s',
    r = (spec_rename db from to nx (logical s)).1 /\ runs W s s' (spec_rename db from to nx (logical s)).2).
Proof.
  intros Ht Hdb Hw. apply wp_bind, (wp_lookup_first W); [done..|]. intros s1 Ht1 Hk1 Hq1 Hdb1 Hr1 Hl1. unfold spec_rename.
  destruct (logical s db from) as [[o t]|] eqn:Hl; cbn [fmap option_fmap option_map fst];
    [|apply wp_ret; split; [done|by apply runs_same]].
  case_bool_decide as Hsame; [apply wp_ret; split; [done|by apply runs_same]|].
  apply wp_bind. eapply wp_getExpire_raw; [apply Ht1|done|done|].
  apply wp_bind, (wp_lookup_first W); [done|done|by eapply writable_kept|]. intros s2 Ht2 Hk2 Hq2 Hdb2 Hr2 Hl2.
  rewrite Hl1 in Hr2 |- *. assert (Hk : kept s s2) by (by eapply kept_trans).
  assert (Hls : forall d k, logical s2 d k = logical s d k) by (intros; by rewrite Hl2).
  replace (bool_decide (is_Some (fst <$> logical s db to))) with (bool_decide (is_Some (logical s db to)))
    by (apply bool_decide_ext; by rewrite fmap_is_Some).
  destruct (bool_decide (is_Some (logical s db to)) && nx) eqn:Hc; [apply wp_ret; split; [done|by apply runs_same]|].
  assert (Hgo : forall s3, s3 = s2 /\ raw s2 db to = None \/ changed db to None s2 s3 ->
    wp (dbAdd db to o;;
        (if default (-1) t =? -1 then mret tt else setExpire db to (default (-1) t));;
        _ ← dbGenericDelete db from;
        signalModifiedKey db from;; signalModifiedKey db to;; update (with_stats 0 0 0 1);;
        mret (if nx then r_int 1 else r_ok)) s3 (λ r s',
      r = (if nx then r_int 1 else r_ok) /\ runs W s s' (upd db from None (upd db to (Some (moved (o, t))) (logical s))))).
  { intros s3 Hs3. eapply (wp_transfer W s2); [done|done|done|by apply (k_quiet s1 s2)|done|congruence|done|].
    intros s' Ht' Hk' Hr'. split; [done|]. by eapply (runs_transfer W s s2). }
  destruct (bool_decide_reflect (is_Some (logical s db to))) as [Hsome|Hnone].
  - apply wp_bind, wp_bind_ret_r, wp_dbGenericDelete; [done|]. intros s3 Hch. apply Hgo. by right.
  - apply wp_bind, wp_ret, Hgo. left. split; [done|]. rewrite Hr2. by apply eq_None_not_Some.
Qed.

Lemma move_refines W s src dbid key : tracked nothing W s -> exists_db s src -> writable s ->
  wp (moveCommand src dbid key) s (λ r s',
    r = (spec_move (length (dbs s)) src dbid key (logical s)).1 /\
    runs W s s' (spec_move (length (dbs s)) src dbid key (logical s)).2).
Proof.
  intros Ht Hdb Hw. unfold moveCommand, spec_move. eapply wp_bind, wp_asks.
  destruct ((dbid <? 0) || (Z.of_nat (length (dbs s)) <=? dbid)) eqn:Hrange.
  { apply wp_ret. split; [done|]. apply runs_same; [done|apply kept_refl|done]. }
  apply orb_false_iff in Hrange as [Hlo%Z.ltb_ge Hhi%Z.leb_gt]. set (dst := Z.to_nat dbid).
  assert (Hdst : exists_db s dst) by (apply lookup_lt_is_Some; unfold dst; lia).
  case_bool_decide as Hsame; [apply wp_ret; split; [done|apply runs_same; [done|apply kept_refl|done]]|].
  apply wp_bind, (wp_lookup_first W); [done..|]. intros s1 Ht1 Hk1 Hq1 Hdb1 Hr1 Hl1.
  destruct (logical s src key) as [[o t]|] eqn:Hl; cbn [fmap option_fmap option_map fst];
    [|apply wp_ret; split; [done|by apply runs_same]].
  apply wp_bind. eapply wp_getExpire_raw; [apply Ht1|done|done|].
  apply wp_bind, (wp_lookup_first W); [done|by eapply exists_kept|by eapply writable_kept|]. intros s2 Ht2 Hk2 Hq2 Hdb2 Hr2 Hl2.
  rewrite Hl1 in Hr2 |- *. assert (Hk : kept s s2) by (by eapply kept_trans).
  assert (Hls : forall d k, logical s2 d k = logical s d k) by (intros; by rewrite Hl2).
  replace (bool_decide (is_Some (fst <$> logical s dst key))) with (bool_decide (is_Some (logical s dst key)))
    by (apply bool_decide_ext; by rewrite fmap_is_Some).
  case_bool_decide as Hc; [apply wp_ret; split; [done|by apply runs_same]|].
  eapply (wp_transfer W s2); [done|by eapply exists_kept|done|by apply (k_quiet s1 s2)|done|congruence| |].
  - left. split; [done|]. rewrite Hr2. by apply eq_None_not_Some.
  - intros s' Ht' Hk' Hr'. split; [done|]. by eapply (runs_transfer W s s2).
Qed.
End cmd.
