(* ===== verification/MultiAll.v ===== *)
(** Replacing the contents of a whole database: FLUSHDB, FLUSHALL and SWAPDB. *)

From stdpp Require Import gmap.
From S2P Require Import Prelude State Keyspace Multi MultiInv MultiTrack Db DbOps.

Local Open Scope Z_scope.

Section all.
Context {V Cmd : Type}.
Implicit Types s : redisServer V Cmd.
Abbreviation entry := (V * option Z)%type.
Abbreviation seen := (positive -> nat -> bytes -> option (option entry)).

Definition marked s (c : positive) : Prop := exists x, clients s !! c = Some x /\ has (c_flags x) CAS = true.

Lemma marked_evolves s s' c : evolves s s' -> marked s c -> marked s' c.
Proof.
  intros Hev (x & Hx & Hf). destruct (ev_client_fwd _ _ _ _ Hev Hx) as (x' & Hx' & Hc). exists x'. split; [done|].
  destruct Hc as [->|(ws & -> & _)]; [done|]. cbn. unfold CLIENT_DIRTY_CAS. by rewrite has_or_same.
Qed.

(** The entry that will replace the one of a key. *)
Definition target s (r : option nat) (key : bytes) : option entry := match r with Some r => raw s r key | None => None end.

(** What is left of a watch [wk] of the database after [touchAllWatchedKeysInDb]. *)
Definition settled (r : option nat) (wk wk' : watchedKey) s s' : Prop :=
  let T := target s r (wk_key wk) in
  let X := raw s (wk_db wk) (wk_key wk) in
  if bool_decide (is_Some X) || bool_decide (is_Some T) then
    if wk_expired wk then
      match T with
      | None => wk' = set_expired false wk
      | Some _ => wk' = wk /\ (expired_at (s_env s) T = false -> marked s' (wk_client wk))
      end
    else
      if negb (bool_decide (is_Some X)) && expired_at (s_env s) T then wk' = set_expired true wk
      else wk' = wk /\ marked s' (wk_client wk)
  else wk' = wk.

Lemma settled_later r wk wk' s s1 s2 : evolves s1 s2 -> settled r wk wk' s s1 -> settled r wk wk' s s2.
Proof.
  intros Hev. unfold settled. pose proof (marked_evolves s1 s2 (wk_client wk) Hev) as Hm.
  repeat case_match; try tauto; intuition auto.
Qed.

Lemma settled_same r wk wk' s0 s s' : same s0 s -> settled r wk wk' s s' -> settled r wk wk' s0 s'.
Proof.
  intros Hs. unfold settled. rewrite (same_env _ _ Hs), (same_raw _ _ _ _ Hs).
  assert (target s r (wk_key wk) = target s0 r (wk_key wk)) as -> by (destruct r; [by apply same_raw|done]). done.
Qed.

(** ** One watch *)

Record settles (s s' : redisServer V Cmd) : Prop := { st_shape : shape s s'; st_evolves : evolves s s' }.

Lemma settles_refl s : settles s s.
Proof. split; [done|apply evolves_refl]. Qed.
Lemma settles_trans s1 s2 s3 : settles s1 s2 -> settles s2 s3 -> settles s1 s3.
Proof. intros [] []. split; [by eapply shape_trans|by eapply evolves_trans]. Qed.

Lemma settles_mark s c x : clients s !! c = Some x ->
  settles s (with_clients <[c := set_flags (Z.lor (c_flags x) CAS) x]> s) /\
  marked (with_clients <[c := set_flags (Z.lor (c_flags x) CAS) x]> s) c.
Proof.
  intros Hx. split; [split; [by eapply shape_set_client|split; [done| |]]|].
  - intros c'. cbn. destruct (decide (c' = c)) as [->|Hne].
    + rewrite lookup_insert_eq, Hx. right. exists (c_watched x). done.
    + rewrite lookup_insert_ne by done. destruct (clients s !! c'); [by left|done].
  - intros w wk Hw. exists wk. split; [done|]. by destruct wk.
  - eexists. cbn. rewrite lookup_insert_eq. split; [done|]. cbn. unfold CLIENT_DIRTY_CAS. by rewrite has_or_same.
Qed.

Lemma settles_wkey s w wk b : wkeys s !! w = Some wk -> settles s (with_wkeys <[w := set_expired b wk]> s).
Proof.
  intros Hw. split; [by apply shape_set_wkey|split; [done| |]].
  - intros c. cbn. destruct (clients s !! c); [by left|done].
  - intros w' wk'. apply shape_wkey. by apply shape_set_wkey.
Qed.

Lemma wp_exists_in s r key (Q : bool -> redisServer V Cmd -> Prop) : (forall r', r = Some r' -> exists_db s r') ->
  Q (bool_decide (is_Some (target s r key))) s -> wp (exists_in r key) s Q.
Proof.
  intros Hr HQ. destruct r as [r|]; [|by apply wp_ret]. destruct (Hr r eq_refl) as [d Hd].
  eapply wp_bind, wp_get_db; [done|]. apply wp_ret. cbn in HQ. rewrite (raw_db _ _ _ _ Hd) in HQ.
  replace (bool_decide (is_Some (db_dict d !! key))) with (bool_decide (is_Some (v ← db_dict d !! key; Some (v, db_expires d !! key)))).
  - done.
  - apply bool_decide_ext. rewrite !is_Some_alt. by destruct (db_dict d !! key).
Qed.

Lemma wp_expired_in s r r' key (Q : bool -> redisServer V Cmd -> Prop) : expires_ok s -> r = Some r' -> exists_db s r' ->
  Q (expired_at (s_env s) (target s r key)) s -> wp (expired_in r key) s Q.
Proof. intros Hok -> [d Hd] HQ. by eapply wp_keyIsExpired. Qed.

Lemma touch_one_ok s r w wk : watch_ok s -> expires_ok s -> wkeys s !! w = Some wk ->
  exists_db s (wk_db wk) -> (forall r', r = Some r' -> exists_db s r') ->
  bool_decide (is_Some (raw s (wk_db wk) (wk_key wk))) || bool_decide (is_Some (target s r (wk_key wk))) = true ->
  wp (touch_one (wk_db wk) r (wk_key wk) w) s (λ _ s',
    settles s s' /\ (forall w', w' <> w -> wkeys s' !! w' = wkeys s !! w') /\
    exists wk', wkeys s' !! w = Some wk' /\ settled r wk wk' s s').
Proof.
  intros Hok He Hw [d Hd] Hr Hsome. destruct (wk_owned _ Hok w wk Hw) as (x & Hx & _).
  eapply wp_bind, wp_get_wkey; [done|]. eapply wp_bind, wp_get_db; [done|]. apply wp_bind, wp_exists_in; [done|].
  assert (HX : bool_decide (db_dict d !! wk_key wk = None) = negb (bool_decide (is_Some (raw s (wk_db wk) (wk_key wk))))).
  { rewrite (raw_db _ _ _ _ Hd). destruct (db_dict d !! wk_key wk); [|done].
    rewrite bool_decide_false by done. by rewrite bool_decide_true. }
  rewrite HX.
  assert (Hmark : (forall s', marked s' (wk_client wk) -> settled r wk wk s s') ->
    wp (or_flags (wk_client wk) CAS) s (λ _ s', settles s s' /\ (forall w', w' <> w -> wkeys s' !! w' = wkeys s !! w') /\
      exists wk', wkeys s' !! w = Some wk' /\ settled r wk wk' s s')).
  { intros Hset. eapply wp_or_flags; [done|]. destruct (settles_mark s _ _ Hx) as [H1 H2].
    split; [done|]. split; [done|]. exists wk. split; [done|]. by apply Hset. }
  assert (Hput : forall b, (forall s', settled r wk (set_expired b wk) s s') ->
    wp (put_wkey w (set_expired b wk)) s (λ _ s', settles s s' /\ (forall w', w' <> w -> wkeys s' !! w' = wkeys s !! w') /\
      exists wk', wkeys s' !! w = Some wk' /\ settled r wk wk' s s')).
  { intros b Hset. eapply wp_put_wkey; [done|]. split; [by apply settles_wkey|]. split.
    - intros w' Hne. cbn. by rewrite lookup_insert_ne.
    - eexists. cbn. by rewrite lookup_insert_eq. }
  destruct (wk_expired wk) eqn:Hex.
  - destruct (target s r (wk_key wk)) as [t|] eqn:Ht.
    + rewrite bool_decide_true by done. cbn [negb]. apply wp_bind.
      destruct r as [r|]; [|done]. eapply (wp_expired_in s (Some r) r); [done|done|by apply Hr|]. rewrite Ht.
      destruct (expired_at (s_env s) (Some t)) eqn:Hexp.
      * apply wp_ret. split; [apply settles_refl|]. split; [done|]. exists wk. split; [done|].
        unfold settled. by rewrite Ht, Hsome, Hex, Hexp.
      * apply Hmark. intros s' Hm. unfold settled. by rewrite Ht, Hsome, Hex.
    + rewrite bool_decide_false by by intros [? ?]. apply Hput. intros s'. unfold settled. by rewrite Ht, Hsome, Hex.
  - destruct (bool_decide (is_Some (raw s (wk_db wk) (wk_key wk)))) eqn:HXX; cbn [negb] in *.
    + apply wp_bind, wp_ret, Hmark. intros s' Hm. unfold settled. by rewrite HXX, Hex.
    + apply wp_bind. destruct r as [r|]; [|by rewrite bool_decide_false in Hsome by by intros [? ?]].
      eapply (wp_expired_in s (Some r) r); [done|done|by apply Hr|].
      destruct (expired_at (s_env s) (target s (Some r) (wk_key wk))) eqn:Hexp.
      * apply Hput. intros s'. unfold settled. by rewrite HXX, Hsome, Hex, Hexp.
      * apply Hmark. intros s' Hm. unfold settled. by rewrite HXX, Hsome, Hex, Hexp.
Qed.

(** ** All watches of a key, and of a database *)

Lemma exists_same s s' db : same s s' -> exists_db s db -> exists_db s' db.
Proof. intros H. unfold exists_db. rewrite !lookup_lt_is_Some. by rewrite (same_length _ _ H). Qed.

Lemma target_same s s' r key : same s s' -> target s' r key = target s r key.
Proof. intros H. destruct r; [by apply same_raw|done]. Qed.

(** [s'] is [s] with the watches [ws] settled. *)
Definition settled_all (r : option nat) (ws : list positive) s s' : Prop :=
  settles s s' /\ (forall w, w ∉ ws -> wkeys s' !! w = wkeys s !! w) /\
  forall w wk, w ∈ ws -> wkeys s !! w = Some wk -> exists wk', wkeys s' !! w = Some wk' /\ settled r wk wk' s s'.

Lemma settled_all_app r ws1 ws2 s s1 s2 : (forall w, w ∈ ws1 -> w ∈ ws2 -> False) ->
  settled_all r ws1 s s1 -> settled_all r ws2 s1 s2 -> settled_all r (ws1 ++ ws2) s s2.
Proof.
  intros Hdis (A1 & A2 & A3) (B1 & B2 & B3). split; [by eapply settles_trans|]. split.
  - intros w Hw. rewrite B2, A2; [done|..]; intros H; apply Hw, elem_of_app; tauto.
  - intros w wk Hw Hwk. destruct (decide (w ∈ ws1)) as [H1|H1].
    + destruct (A3 w wk H1 Hwk) as (wk' & Hwk' & Hs). exists wk'. rewrite B2 by (intros H2; by eapply Hdis).
      split; [done|]. eapply settled_later; [apply B1|done].
    + apply elem_of_app in Hw as [Hw|Hw]; [done|]. destruct (B3 w wk Hw) as (wk' & Hwk' & Hs); [by rewrite A2|].
      exists wk'. split; [done|]. eapply settled_same; [apply A1|done].
Qed.

Lemma touch_list_ok db r key : forall ws s, watch_ok s -> expires_ok s -> exists_db s db -> (forall r', r = Some r' -> exists_db s r') ->
  NoDup ws -> (forall w, w ∈ ws -> w ∈ watching s db key) ->
  bool_decide (is_Some (raw s db key)) || bool_decide (is_Some (target s r key)) = true ->
  wp (touch_list db r key ws) s (λ _ s', settled_all r ws s s').
Proof.
  induction ws as [|w ws IH]; intros s Hok He Hdb Hr Hnd Hin Hsome.
  { apply wp_ret. split; [apply settles_refl|]. split; [done|]. by intros w wk ?%elem_of_nil. }
  apply NoDup_cons in Hnd as [Hw Hnd]. destruct (watching_wk _ Hok db key w) as (wk & Hwk & <- & <-); [apply Hin; by left|].
  eapply wp_bind, wp_mono; [by eapply touch_one_ok|]. intros [] s1 (Hs1 & Hother & wk' & Hwk' & Hset).
  pose proof (ev_same _ _ (st_evolves _ _ Hs1)) as Hsame. pose proof (shape_ok _ _ Hok (st_shape _ _ Hs1)) as Hok1.
  assert (H1 : settled_all r [w] s s1).
  { split; [done|]. split; [intros w' Hw'; apply Hother; by intros ->; apply Hw'; left|].
    intros w' wk0 ->%list_elem_of_singleton Hwk0. rewrite Hwk in Hwk0. injection Hwk0 as <-. by exists wk'. }
  eapply wp_mono; [apply (IH s1)|].
  - done.
  - by eapply same_expires_ok.
  - by eapply exists_same.
  - intros r' Hr'. eapply exists_same; [done|by apply Hr].
  - done.
  - intros w' Hw'. rewrite (shape_watching _ _ _ _ (st_shape _ _ Hs1)). apply Hin. by right.
  - by rewrite (same_raw _ _ _ _ Hsame), (target_same _ _ _ _ Hsame).
  - intros [] s2 H2. apply (settled_all_app r [w] ws s s1 s2); [by intros w' ->%list_elem_of_singleton|done|done].
Qed.

Lemma touch_entries_ok db r : forall entries s, watch_ok s -> expires_ok s -> exists_db s db -> (forall r', r = Some r' -> exists_db s r') ->
  NoDup entries.*1 -> (forall key ws, (key, ws) ∈ entries -> ws = watching s db key) ->
  wp (touch_entries db r entries) s (λ _ s',
    settles s s' /\ (forall w wk, wkeys s !! w = Some wk -> wk_db wk <> db \/ wk_key wk ∉ entries.*1 -> wkeys s' !! w = Some wk) /\
    forall w wk, wkeys s !! w = Some wk -> wk_db wk = db -> wk_key wk ∈ entries.*1 ->
      exists wk', wkeys s' !! w = Some wk' /\ settled r wk wk' s s').
Proof.
  induction entries as [|[key ws] entries IH]; intros s Hok He Hdb Hr Hnd Hin.
  { apply wp_ret. split; [apply settles_refl|]. split; [done|]. by intros w wk _ _ ?%elem_of_nil. }
  cbn [touch_entries fmap list_fmap fst] in *. apply NoDup_cons in Hnd as [Hkey Hnd]. destruct Hdb as [d Hd].
  assert (Hws : ws = watching s db key) by (apply Hin; by left).
  eapply wp_bind, wp_get_db; [done|]. apply wp_bind, wp_exists_in; [done|].
  replace (bool_decide (is_Some (db_dict d !! key))) with (bool_decide (is_Some (raw s db key))).
  2: { apply bool_decide_ext. rewrite (raw_db _ _ _ _ Hd), !is_Some_alt. by destruct (db_dict d !! key). }
  assert (Hrest : forall s1, settles s s1 -> (forall w wk, wkeys s !! w = Some wk -> wk_db wk <> db \/ wk_key wk <> key -> wkeys s1 !! w = Some wk) ->
    (forall w wk, wkeys s !! w = Some wk -> wk_db wk = db -> wk_key wk = key -> exists wk', wkeys s1 !! w = Some wk' /\ settled r wk wk' s s1) ->
    wp (touch_entries db r entries) s1 (λ _ s',
      settles s s' /\ (forall w wk, wkeys s !! w = Some wk -> wk_db wk <> db \/ wk_key wk ∉ key :: entries.*1 -> wkeys s' !! w = Some wk) /\
      forall w wk, wkeys s !! w = Some wk -> wk_db wk = db -> wk_key wk ∈ key :: entries.*1 ->
        exists wk', wkeys s' !! w = Some wk' /\ settled r wk wk' s s')).
  { intros s1 Hs1 Hother Hhere. pose proof (ev_same _ _ (st_evolves _ _ Hs1)) as Hsame.
    eapply wp_mono; [apply (IH s1)|].
    - by eapply shape_ok, Hs1.
    - by eapply same_expires_ok.
    - eapply exists_same; [done|by exists d].
    - intros r' Hr'. eapply exists_same; [done|by apply Hr].
    - done.
    - intros k l Hkl. rewrite (shape_watching _ _ _ _ (st_shape _ _ Hs1)). apply Hin. by right.
    - intros [] s2 (C1 & C2 & C3). split; [by eapply settles_trans|]. split.
      + intros w wk Hw Hno. apply C2; [apply Hother; [done|]|].
        * destruct Hno as [?|Hno]; [by left|right]. intros E. apply Hno. rewrite E. by left.
        * destruct Hno as [?|Hno]; [by left|right]. intros H. apply Hno. by right.
      + intros w wk Hw Hwd Hwk. destruct (decide (wk_key wk = key)) as [E|E].
        * destruct (Hhere w wk Hw Hwd E) as (wk' & Hwk' & Hset). exists wk'. split.
          -- apply C2; [done|]. right. unfold settled in Hset.
             assert (wk_key wk' = wk_key wk) as ->; [|congruence].
             destruct (shape_wkey _ _ _ _ (st_shape _ _ Hs1) Hwk') as (wk0 & H0 & ->). rewrite Hw in H0. by injection H0 as <-.
          -- eapply settled_later; [apply C1|done].
        * apply elem_of_cons in Hwk as [?|Hwk]; [done|].
          destruct (C3 w wk) as (wk' & Hwk' & Hset); [apply Hother; [done|by right]|done|done|].
          exists wk'. split; [done|]. by eapply settled_same. }
  destruct (bool_decide (is_Some (raw s db key)) || bool_decide (is_Some (target s r key))) eqn:Hsome.
  - eapply wp_bind, wp_mono; [apply (touch_list_ok db r key ws s Hok He)|].
    + by exists d.
    + done.
    + rewrite Hws. by apply watching_NoDup.
    + by rewrite Hws.
    + done.
    + intros [] s1 (A1 & A2 & A3). apply Hrest; [done| |].
      * intros w wk Hw Hno. rewrite A2; [done|]. rewrite Hws. intros Hin'. destruct (watching_wk _ Hok _ _ _ Hin') as (wk0 & H0 & E1 & E2).
        rewrite Hw in H0. injection H0 as <-. tauto.
      * intros w wk Hw <- <-. apply A3; [|done]. rewrite Hws. by apply (wk_listed _ Hok).
  - apply wp_bind, wp_ret, Hrest; [apply settles_refl|done|].
    intros w wk Hw <- <-. exists wk. split; [done|]. unfold settled. by rewrite Hsome.
Qed.

Lemma touchAll_ok s db r : watch_ok s -> expires_ok s -> exists_db s db -> (forall r', r = Some r' -> exists_db s r') ->
  wp (touchAllWatchedKeysInDb db r) s (λ _ s',
    settles s s' /\ (forall w wk, wkeys s !! w = Some wk -> wk_db wk <> db -> wkeys s' !! w = Some wk) /\
    forall w wk, wkeys s !! w = Some wk -> wk_db wk = db -> exists wk', wkeys s' !! w = Some wk' /\ settled r wk wk' s s').
Proof.
  intros Hok He [d Hd] Hr. eapply wp_bind, wp_get_db; [done|]. eapply wp_mono; [apply touch_entries_ok; [done|done|by exists d|done| |]|].
  - apply NoDup_fst_map_to_list.
  - intros key ws H%elem_of_map_to_list. by rewrite (watching_db _ _ _ _ Hd), H.
  - intros [] s' (H1 & H2 & H3). split; [done|]. split; [auto|]. intros w wk Hw Hwd. apply H3; [done|done|].
    pose proof (wk_listed _ Hok w wk Hw) as Hin. rewrite Hwd, (watching_db _ _ _ _ Hd) in Hin.
    destruct (db_watched d !! wk_key wk) as [l|] eqn:Hl; [|by apply elem_of_nil in Hin].
    apply list_elem_of_fmap. exists (wk_key wk, l). split; [done|]. by apply elem_of_map_to_list.
Qed.

(** ** The watches after the contents are replaced *)

Abbreviation keymap := (nat -> bytes -> option entry).

(** [tracked], for the keyspace [F] that is about to be put in place. *)
Record tracked_to (F : keymap) (W : seen) s : Prop := {
  tt_ok : watch_ok s;
  tt_exp : expires_ok s;
  tt_env : primary s;
  tt_flag w wk : wkeys s !! w = Some wk -> wk_expired wk = true -> expired_at (s_env s) (F (wk_db wk) (wk_key wk)) = true;
  tt_seen c x db key v : clients s !! c = Some x -> has (c_flags x) CAS = false -> W c db key = Some v ->
    exists w wk, w ∈ c_watched x /\ wkeys s !! w = Some wk /\ wk_db wk = db /\ wk_key wk = key /\
      (if wk_expired wk then v = None else v = F db key) }.

Lemma tracked_to_raw W s : tracked nothing W s -> tracked_to (raw s) W s.
Proof.
  intros [H1 H2 H3 H4 H5]. split; [done|done|done| |].
  - intros w wk Hw He. by destruct (H4 w wk Hw He) as [?|[[] _]].
  - intros c x db key v Hx Hf HW. destruct (H5 c x db key v Hx Hf HW) as (w & wk & Hin & Hw & Ed & Ek & Hv).
    exists w, wk. split_and!; try done. destruct (wk_expired wk); [done|]. by destruct Hv as [[]|?].
Qed.

Lemma tracked_to_done F W s s' : tracked_to F W s -> db_watched <$> dbs s' = db_watched <$> dbs s ->
  clients s' = clients s -> wkeys s' = wkeys s -> s_env s' = s_env s -> (forall d k, raw s' d k = F d k) -> expires_ok s' ->
  tracked nothing W s'.
Proof.
  intros [H1 H2 H3 H4 H5] E1 E2 E3 E4 HF He. split; [|done|unfold primary; by rewrite E4| |].
  - eapply shape_ok; [exact H1|]. split; [done|by rewrite E3|by rewrite E2].
  - intros w wk. rewrite E3. intros Hw Hex. left. unfold is_expired. rewrite E4, HF. by eapply H4.
  - intros c x db key v. rewrite E2, E3. intros Hx Hf HW. destruct (H5 c x db key v Hx Hf HW) as (w & wk & Hin & Hw & Ed & Ek & Hv).
    exists w, wk. split_and!; try done. destruct (wk_expired wk); [done|]. right. by rewrite HF.
Qed.

Lemma tracked_to_ext F F' W s : (forall d k, F d k = F' d k) -> tracked_to F W s -> tracked_to F' W s.
Proof.
  intros HF [H1 H2 H3 H4 H5]. split; [done|done|done| |].
  - intros w wk. rewrite <- HF. apply H4.
  - intros c x db key v Hx Hf HW. rewrite <- HF. by eapply H5.
Qed.

(** No watch of the database that was set on an expired key is about to see a live one:
    see [swapdb_loses_watch]. *)
Definition no_revival (db : nat) (r : option nat) s : Prop :=
  forall w wk, wkeys s !! w = Some wk -> wk_db wk = db -> wk_expired wk = true ->
    target s r (wk_key wk) = None \/ expired_at (s_env s) (target s r (wk_key wk)) = true.

Lemma touchAll_tracked F W s db r : tracked_to F W s -> (forall k, F db k = raw s db k) -> no_revival db r s ->
  exists_db s db -> (forall r', r = Some r' -> exists_db s r') ->
  wp (touchAllWatchedKeysInDb db r) s (λ _ s',
    settles s s' /\ (forall w wk, wkeys s !! w = Some wk -> wk_db wk <> db -> wkeys s' !! w = Some wk) /\
    tracked_to (λ d k, if decide (d = db) then target s r k else F d k) W s').
Proof.
  intros [H1 H2 H3 H4 H5] HF Hno Hdb Hr. eapply wp_mono; [by apply touchAll_ok|]. intros [] s' (Hs & Hother & Hhere).
  split; [done|]. split; [done|]. pose proof Hs as [Hsh Hev]. pose proof (ev_same _ _ Hev) as Hsame.
  pose proof (shape_ok _ _ H1 Hsh) as Hok'. split; [done|by eapply same_expires_ok|unfold primary; by rewrite (same_env _ _ Hsame)| |].
  - intros w wk' Hw' Hex. rewrite (same_env _ _ Hsame). destruct (shape_wkey _ _ _ _ Hsh Hw') as (wk & Hw & E).
    assert (Ed : wk_db wk' = wk_db wk) by (by rewrite E). assert (Ek : wk_key wk' = wk_key wk) by (by rewrite E).
    rewrite Ed, Ek. case_decide as Hd.
    + destruct (Hhere w wk Hw Hd) as (wk'' & Hw'' & Hset). rewrite Hw' in Hw''. injection Hw'' as <-.
      unfold settled in Hset. rewrite Hd in Hset.
      pose proof (H4 w wk Hw) as Hflag. rewrite Hd, HF in Hflag. pose proof (Hno w wk Hw Hd) as Hrev.
      destruct (wk_expired wk) eqn:Hwe.
      * pose proof (expired_present _ _ (Hflag eq_refl)) as HX. rewrite bool_decide_true in Hset by done. cbn [orb] in Hset.
        destruct (target s r (wk_key wk)) as [t|] eqn:Ht; [by destruct (Hrev eq_refl) as [?|?]|]. by rewrite Hset in Hex.
      * destruct (bool_decide (is_Some (raw s db (wk_key wk)))); cbn [orb negb andb] in Hset;
          [destruct Hset as [-> _]; congruence|].
        destruct (bool_decide (is_Some (target s r (wk_key wk)))); [|congruence].
        destruct (expired_at (s_env s) (target s r (wk_key wk))); [done|]. destruct Hset as [-> _]. congruence.
    + pose proof (Hother w wk Hw Hd) as Hw''. rewrite Hw' in Hw''. injection Hw'' as ->. by eapply H4.
  - intros c x' d k v Hx' Hf HW. destruct (ev_client_inv _ _ _ _ Hev Hx') as (x & Hx & ->%calmed_clean); [|done].
    destruct (H5 c x d k v Hx Hf HW) as (w & wk & Hin & Hw & Ed & Ek & Hv). case_decide as Hd.
    + destruct (Hhere w wk Hw) as (wk' & Hw' & Hset); [congruence|]. exists w, wk'.
      destruct (shape_wkey _ _ _ _ Hsh Hw') as (wk0 & Hwk0 & E). rewrite Hw in Hwk0. injection Hwk0 as <-.
      split; [done|]. split; [done|]. split; [by rewrite E|]. split; [by rewrite E|].
      assert (Hnm : ~ marked s' (wk_client wk)).
      { destruct (watched_wk _ Hok' c x w Hx' Hin) as (wk1 & Hwk1 & Hc). rewrite Hw' in Hwk1. injection Hwk1 as <-.
        assert (Ec : wk_client wk = c) by (rewrite <- Hc; by rewrite E). rewrite Ec. intros (y & Hy & Hyf).
        rewrite Hx' in Hy. injection Hy as <-. congruence. }
      unfold settled in Hset. rewrite Ed, Ek in Hset.
      destruct (wk_expired wk) eqn:Hwe.
      * subst v. destruct (bool_decide (is_Some (raw s d k)) || _) eqn:Hany; [|by rewrite Hset, Hwe].
        destruct (target s r k); [destruct Hset as [-> _]; by rewrite Hwe|by rewrite Hset].
      * subst v. rewrite Hd in Hset |- *. rewrite HF. destruct (bool_decide_reflect (is_Some (raw s db k))) as [HX|HX%eq_None_not_Some]; cbn [orb negb andb] in Hset;
          [by destruct Hset|]. rewrite HX.
        destruct (bool_decide_reflect (is_Some (target s r k))) as [HT|HT%eq_None_not_Some].
        -- destruct (expired_at (s_env s) (target s r k)); [by rewrite Hset|by destruct Hset].
        -- by rewrite Hset, Hwe, HT.
    + exists w, wk. split_and!; [done|apply Hother; [done|congruence]|done|done|done].
Qed.

(** ** FLUSHDB and FLUSHALL *)

Definition spec_flush (i n : nat) (L : keymap) (d : nat) (k : bytes) : option entry :=
  if decide (i <= d < i + n)%nat then None else L d k.

Lemma touch_dbs_tracked W L : forall n i s, (i + n <= length (dbs s))%nat ->
  tracked_to L W s -> (forall d k, (i <= d)%nat -> L d k = raw s d k) ->
  wp (touch_dbs i n) s (λ _ s', settles s s' /\ tracked_to (spec_flush i n L) W s').
Proof.
  intros n. revert L. induction n as [|n IH]; intros L i s Hlen Ht HL; cbn [touch_dbs].
  { apply wp_ret. split; [apply settles_refl|]. eapply tracked_to_ext; [|exact Ht]. intros d k. unfold spec_flush. by rewrite decide_False by lia. }
  apply wp_bind. eapply wp_mono; [apply (touchAll_tracked L W s i None Ht)|].
  - intros k. by apply HL.
  - intros w wk _ _ _. by left.
  - apply lookup_lt_is_Some. lia.
  - done.
  - intros [] s1 (Hs1 & _ & Ht1). pose proof (ev_same _ _ (st_evolves _ _ Hs1)) as Hsame.
    match type of Ht1 with tracked_to ?L1 _ _ => eapply wp_mono; [apply (IH L1 (S i) s1)|] end.
    + rewrite (same_length _ _ Hsame). lia.
    + exact Ht1.
    + intros d k Hd. rewrite decide_False by lia. rewrite HL by lia. by rewrite (same_raw _ _ _ _ Hsame).
    + intros [] s2 [Hs2 Ht2]. split; [by eapply settles_trans|]. eapply tracked_to_ext; [|exact Ht2].
      intros d k. unfold spec_flush. repeat case_decide; try done; lia.
Qed.

Definition dict_sizes (i n : nat) s : Z := foldr Z.add 0 ((λ d, Z.of_nat (size (db_dict d))) <$> take n (drop i (dbs s))).

Lemma empty_dbs_run : forall n i s removed, (i + n <= length (dbs s))%nat ->
  wp (empty_dbs i n removed) s (λ r s', r = removed + dict_sizes i n s /\ s' = with_dbs (λ _, dbs s') s /\
    db_watched <$> dbs s' = db_watched <$> dbs s /\ (forall d k, raw s' d k = spec_flush i n (raw s) d k) /\ (expires_ok s -> expires_ok s')).
Proof.
  induction n as [|n IH]; intros i s removed Hlen; cbn [empty_dbs].
  { apply wp_ret. split; [unfold dict_sizes; rewrite take_0; symmetry; apply Z.add_0_r|]. split; [by destruct s|]. split; [done|]. split; [|done].
    intros d k. unfold spec_flush. by rewrite decide_False by lia. }
  destruct (lookup_lt_is_Some_2 (dbs s) i) as [d Hd]; [lia|]. eapply wp_bind, wp_get_db; [done|].
  eapply wp_bind, wp_put_db; [done|]. set (s1 := with_dbs _ s).
  assert (Hlen1 : length (dbs s1) = length (dbs s)) by (cbn; apply length_insert).
  assert (Hraw1 : forall d' k, raw s1 d' k = if decide (d' = i) then None else raw s d' k).
  { intros d' k. unfold raw. cbn [dbs s1 with_dbs]. case_decide as E.
    - subst. by rewrite list_lookup_insert_eq by lia.
    - by rewrite list_lookup_insert_ne. }
  eapply wp_mono; [apply IH; lia|]. intros r s' (-> & Hs' & Hw & Hr & He). split_and!.
  - unfold dict_sizes. rewrite (drop_S (dbs s) d i Hd). cbn [take fmap list_fmap foldr].
    cbn [dbs s1 with_dbs]. rewrite drop_insert_lt by lia. lia.
  - rewrite Hs' at 1. done.
  - rewrite Hw. cbn [dbs s1 with_dbs]. rewrite list_fmap_insert. apply list_insert_id. by rewrite list_lookup_fmap, Hd.
  - intros d' k. rewrite Hr. unfold spec_flush. rewrite Hraw1. repeat case_decide; try done; lia.
  - intros Hok. apply He. intros db d' k Hd'. cbn [dbs s1 with_dbs] in Hd'. destruct (decide (db = i)) as [->|Hne].
    + rewrite list_lookup_insert_eq in Hd' by lia. injection Hd' as <-. cbn. rewrite lookup_empty. by intros [? ?].
    + rewrite list_lookup_insert_ne in Hd' by done. by apply (Hok db).
Qed.

Lemma settles_kept_evolves s s' : settles s s' -> s_env s' = s_env s /\ length (dbs s') = length (dbs s) /\
  forall c, option_relation calmed (λ _, False) (λ _, False) (clients s !! c) (clients s' !! c).
Proof. intros [_ H]. split; [apply H|]. split; [apply same_length, H|apply H]. Qed.

(** The fields that commands on whole databases preserve: a SWAPDB may set the flag of a
    watch. *)
Record kept_all s s' : Prop := {
  ka_env : s_env s' = s_env s;
  ka_len : length (dbs s') = length (dbs s);
  ka_clients c : option_relation calmed (λ _, False) (λ _, False) (clients s !! c) (clients s' !! c);
  ka_wkeys w wk' : wkeys s' !! w = Some wk' -> exists wk, wkeys s !! w = Some wk /\ wk' = set_expired (wk_expired wk') wk }.

Record runs_all (W : seen) s s' (L : keymap) : Prop := {
  ra_tracked : tracked nothing W s';
  ra_kept : kept_all s s';
  ra_logical d k : logical s' d k = view (s_env s) (L d k) }.

Lemma runs_runs_all W s s' L : runs W s s' L -> runs_all W s s' L.
Proof. intros [H1 [A1 A2 A3 A4 _] H3]. by split. Qed.

Lemma flush_refines W s dbnum : tracked nothing W s -> -1 <= dbnum < Z.of_nat (length (dbs s)) ->
  let '(i, n) := db_range dbnum (length (dbs s)) in
  wp (flushCommand dbnum) s (λ r s',
    r = r_ok /\ runs_all W s s' (spec_flush i n (logical s)) /\ dirty s' = dirty s + dict_sizes i n s).
Proof.
  intros Ht Hrange. destruct (db_range dbnum (length (dbs s))) as [i n] eqn:Hin.
  assert (Hbound : (i + n <= length (dbs s))%nat) by (unfold db_range in Hin; destruct (Z.eqb_spec dbnum (-1)); injection Hin as <- <-; lia).
  apply wp_bind. eapply wp_bind, wp_asks. rewrite (proj2 (Z.ltb_ge _ _)) by lia. rewrite (proj2 (Z.leb_gt _ _)) by lia. cbn [orb].
  apply wp_bind. eapply wp_bind, wp_asks. rewrite Hin.
  eapply wp_mono; [apply (touch_dbs_tracked W (raw s) n i s); [done|by apply tracked_to_raw|done]|].
  intros [] s1 [Hs1 Ht1]. pose proof (ev_same _ _ (st_evolves _ _ Hs1)) as Hsame. pose proof (same_length _ _ Hsame) as Hlen.
  eapply wp_bind, wp_asks. rewrite Hlen, Hin. eapply wp_mono; [apply empty_dbs_run; lia|].
  intros removed s2 (-> & Hs2 & Hw2 & Hr2 & He2). apply wp_bind, wp_update, wp_ret. set (s3 := with_stats _ _ _ _ s2).
  assert (Hce : core_eq s2 s3) by done. destruct (settles_kept_evolves _ _ Hs1) as (E1 & E2 & E3).
  assert (F1 : s_env s2 = s_env s1) by (by rewrite Hs2). assert (F2 : clients s2 = clients s1) by (by rewrite Hs2).
  assert (F3 : wkeys s2 = wkeys s1) by (by rewrite Hs2).
  assert (Hraw2 : forall d k, raw s2 d k = spec_flush i n (raw s) d k).
  { intros d k. rewrite Hr2. unfold spec_flush. case_decide; [done|]. by apply same_raw. }
  split; [done|]. split; [split|].
  - eapply core_tracked; [done|]. eapply tracked_to_done; [exact Ht1|done|done|done|done|done|]. apply He2, Ht1.
  - split; cbn.
    + by rewrite F1, E1.
    + apply (f_equal length) in Hw2. rewrite !length_fmap in Hw2. by rewrite Hw2.
    + by rewrite F2.
    + rewrite F3. apply Hs1.
  - intros d k. rewrite logical_view. cbn. rewrite F1, E1. change (raw s3 d k) with (raw s2 d k). rewrite Hraw2. unfold spec_flush.
    case_decide; [done|]. by rewrite logical_idem.
  - cbn. assert (dirty s2 = dirty s1) as -> by (by rewrite Hs2). pose proof (same_stats _ _ Hsame) as Est. injection Est as _ _ _ ->.
    f_equal. rewrite Z.add_0_l. unfold dict_sizes. f_equal. apply list_eq. intros j. rewrite !list_lookup_fmap.
    destruct (decide (j < n)%nat) as [Hj|Hj]; [|by rewrite !lookup_take_ge by lia].
    rewrite !lookup_take_lt, !lookup_drop by done. destruct (lookup_lt_is_Some_2 (dbs s) (i + j)) as [d Hd]; [lia|].
    destruct (same_db _ _ _ _ Hsame Hd) as (d' & Hd' & E & _). rewrite Hd, Hd'. cbn. by rewrite E.
Qed.

(** ** SWAPDB *)

Definition spec_swap (i j : nat) (L : keymap) (d : nat) (k : bytes) : option entry :=
  if decide (d = i) then L j k else if decide (d = j) then L i k else L d k.

Lemma swap_refines W s id1 id2 : tracked nothing W s ->
  let i := Z.to_nat id1 in let j := Z.to_nat id2 in
  no_revival i (Some j) s -> no_revival j (Some i) s ->
  let ok := (0 <=? id1) && (id1 <? Z.of_nat (length (dbs s))) && (0 <=? id2) && (id2 <? Z.of_nat (length (dbs s))) in
  wp (swapdbCommand id1 id2) s (λ r s',
    r = (if ok then r_ok else r_error) /\ runs_all W s s' (if ok then spec_swap i j (logical s) else logical s)).
Proof.
  intros Ht i j Hno1 Hno2 ok. apply wp_bind. eapply wp_bind, wp_asks.
  assert (Hself : runs_all W s s (logical s)) by (apply runs_runs_all, runs_same; [done|apply kept_refl|done]).
  destruct ((id1 <? 0) || _ || _ || _) eqn:Hbad.
  { apply wp_ret, wp_ret. assert (ok = false) as ->; [|done]. unfold ok.
    destruct (Z.ltb_spec id1 0), (Z.leb_spec (Z.of_nat (length (dbs s))) id1), (Z.ltb_spec id2 0), (Z.leb_spec (Z.of_nat (length (dbs s))) id2);
      try done; destruct (Z.leb_spec 0 id1), (Z.ltb_spec id1 (Z.of_nat (length (dbs s)))), (Z.leb_spec 0 id2), (Z.ltb_spec id2 (Z.of_nat (length (dbs s)))); try done; lia. }
  rewrite !orb_false_iff in Hbad. destruct Hbad as [[[B1%Z.ltb_ge B2%Z.leb_gt] B3%Z.ltb_ge] B4%Z.leb_gt].
  assert (ok = true) as ->.
  { unfold ok. rewrite !andb_true_iff, !Z.leb_le, !Z.ltb_lt. lia. }
  destruct (Z.eqb_spec id1 id2) as [Hsame12|Hne].
  { apply wp_ret, wp_bind, wp_update, wp_ret. split; [done|]. set (s3 := with_stats _ _ _ _ s).
    assert (Hru : runs W s s3 (logical s)) by (eapply runs_core; [apply stats_core|]; apply runs_same; [done|apply kept_refl|done]).
    apply runs_runs_all. eapply runs_ext; [|exact Hru]. intros d k. unfold spec_swap, i, j. rewrite Hsame12. by repeat case_decide; subst. }
  assert (Hij : i <> j) by (unfold i, j; lia).
  assert (Hi : exists_db s i) by (apply lookup_lt_is_Some; unfold i; lia).
  assert (Hj : exists_db s j) by (apply lookup_lt_is_Some; unfold j; lia).
  apply wp_bind. eapply wp_mono; [apply (touchAll_tracked (raw s) W s i (Some j)); [by apply tracked_to_raw|done|done|done|by intros ? [= <-]]|].
  intros [] s1 (Hs1 & Hother1 & Ht1). pose proof (ev_same _ _ (st_evolves _ _ Hs1)) as Sm1.
  assert (Hno2' : no_revival j (Some i) s1).
  { intros w wk Hw Hd He. destruct (shape_wkey _ _ _ _ (st_shape _ _ Hs1) Hw) as (wk0 & Hw0 & E0).
    assert (Hd0 : wk_db wk0 = j) by (rewrite <- Hd; by rewrite E0). assert (Hw1 : wkeys s1 !! w = Some wk0) by (apply Hother1; [done|congruence]).
    rewrite Hw in Hw1. injection Hw1 as ->. rewrite (target_same _ _ _ _ Sm1), (same_env _ _ Sm1).
    by apply (Hno2 w). }
  apply wp_bind. eapply wp_mono; [eapply (touchAll_tracked _ W s1 j (Some i) Ht1)|].
  - intros k. rewrite decide_False by done. by rewrite (same_raw _ _ _ _ Sm1).
  - done.
  - by eapply exists_same.
  - intros ? [= <-]. by eapply exists_same.
  - intros [] s2 (Hs2 & _ & Ht2). pose proof (settles_trans _ _ _ Hs1 Hs2) as Hs. pose proof (ev_same _ _ (st_evolves _ _ Hs)) as Sm.
    destruct (exists_same _ _ _ Sm Hi) as [di Hdi], (exists_same _ _ _ Sm Hj) as [dj Hdj].
    eapply wp_bind, wp_get_db; [exact Hdi|]. eapply wp_bind, wp_get_db; [exact Hdj|].
    eapply wp_bind, wp_put_db; [exact Hdi|]. eapply wp_bind, wp_put_db; [cbn; rewrite list_lookup_insert_ne by done; exact Hdj|].
    apply wp_ret, wp_bind, wp_update, wp_ret. set (s3 := with_stats _ _ _ _ _).
    assert (Hlook : forall d, dbs s3 !! d = if decide (d = i) then Some (Db (db_dict dj) (db_expires dj) (db_watched di))
      else if decide (d = j) then Some (Db (db_dict di) (db_expires di) (db_watched dj)) else dbs s2 !! d).
    { intros d. cbn. pose proof (lookup_lt_Some _ _ _ Hdi). pose proof (lookup_lt_Some _ _ _ Hdj). repeat case_decide; subst.
      - rewrite list_lookup_insert_ne, list_lookup_insert_eq by done. done.
      - by rewrite list_lookup_insert_eq by (rewrite length_insert; lia).
      - by rewrite !list_lookup_insert_ne. }
    assert (Hraw : forall d k, raw s3 d k = spec_swap i j (raw s) d k).
    { intros d k. unfold raw at 1. rewrite Hlook. unfold spec_swap. rewrite <- !(same_raw _ _ _ _ Sm).
      destruct (decide (d = i)) as [->|]; [by rewrite (raw_db _ _ _ _ Hdj)|].
      destruct (decide (d = j)) as [->|]; [by rewrite (raw_db _ _ _ _ Hdi)|done]. }
    destruct (settles_kept_evolves _ _ Hs) as (E1 & E2 & E3). split; [done|]. split.
    + eapply tracked_to_done; [exact Ht2| |done|done|done| |].
      * apply list_eq. intros d. rewrite !list_lookup_fmap, Hlook.
        destruct (decide (d = i)) as [->|]; [by rewrite Hdi|]. destruct (decide (d = j)) as [->|]; [by rewrite Hdj|done].
      * intros d k. rewrite Hraw. unfold spec_swap.
        destruct (decide (d = i)) as [->|]; [by rewrite decide_False by done|].
        destruct (decide (d = j)) as [->|]; [cbn; by rewrite (same_raw _ _ _ _ Sm1)|done].
      * intros d d' k. rewrite Hlook.
        destruct (decide (d = i)) as [->|]; [intros [= <-]; exact (tt_exp _ _ _ Ht2 j dj k Hdj)|].
        destruct (decide (d = j)) as [->|]; [intros [= <-]; exact (tt_exp _ _ _ Ht2 i di k Hdi)|]. by apply (tt_exp _ _ _ Ht2).
    + split; [done|by cbn; rewrite !length_insert|done|apply Hs].
    + intros d k. rewrite logical_view. cbn [s_env s3]. change (s_env s3) with (s_env s2). rewrite E1, Hraw. unfold spec_swap.
      repeat case_decide; by rewrite logical_idem.
Qed.
End all.
