(* ===== verification/MultiCmd.v ===== *)
(** WATCH, UNWATCH, MULTI, DISCARD and the queue on the states of a primary. *)

From stdpp Require Import gmap.
From S2P Require Import Prelude State Keyspace Multi MultiInv MultiTrack Db DbOps MultiAll.

Local Open Scope Z_scope.

Section cmds.
Context {V Cmd : Type}.
Implicit Types s : redisServer V Cmd.
Abbreviation entry := (V * option Z)%type.
Abbreviation seen := (positive -> nat -> bytes -> option (option entry)).

(** ** The invariant of reachable states *)

Definition queue_ok (m : multiState Cmd) : Prop :=
  commands m = [] \/ 2 <= alloc_count m <= INT_MAX /\ Z.of_nat (length (commands m)) <= alloc_count m.

Record good (W : seen) s : Prop := {
  g_tracked : tracked nothing W s;
  g_cover w wk : wkeys s !! w = Some wk -> is_Some (W (wk_client wk) (wk_db wk) (wk_key wk));
  g_queue c x : clients s !! c = Some x -> queue_ok (c_mstate x);
  g_db c x : clients s !! c = Some x -> exists_db s (c_db x) }.

Lemma good_kept W s s' : good W s -> tracked nothing W s' -> kept_all s s' -> good W s'.
Proof.
  intros [H1 H2 H3 H4] Ht [_ Hlen Hcl Hwk]. split; [done| | |].
  - intros w wk' Hw. destruct (Hwk w wk' Hw) as (wk & Hwk0 & E). rewrite E. exact (H2 w wk Hwk0).
  - intros c x' Hx. specialize (Hcl c). rewrite Hx in Hcl. destruct (clients s !! c) as [x|] eqn:Hx0; [|done].
    destruct Hcl as [->|(ws & -> & _)]; by apply (H3 c x Hx0).
  - intros c x' Hx. specialize (Hcl c). rewrite Hx in Hcl. destruct (clients s !! c) as [x|] eqn:Hx0; [|done].
    unfold exists_db. rewrite lookup_lt_is_Some, Hlen, <- lookup_lt_is_Some.
    destruct Hcl as [->|(ws & -> & _)]; by apply (H4 c x Hx0).
Qed.

Lemma kept_kept_all s s' : kept s s' -> kept_all s s'.
Proof. intros []. by split. Qed.

(** ** Forgetting *)

Definition forget (c : positive) (W : seen) : seen := λ c' d k, if decide (c' = c) then None else W c' d k.

(** Changing the flags, the queue or the arguments of a client. *)
Definition same_watches (x x' : client Cmd) : Prop :=
  c_watched x' = c_watched x /\ (has (c_flags x') CAS = has (c_flags x) CAS \/ c_watched x = []).

Lemma good_client W W' s c x x' : good W s -> clients s !! c = Some x ->
  c_watched x' = c_watched x -> queue_ok (c_mstate x') -> exists_db s (c_db x') ->
  (has (c_flags x') CAS = false -> has (c_flags x) CAS = false \/ forall d k, W' c d k = None) ->
  (forall c' d k, W' c' d k = W c' d k \/ c' = c /\ W' c' d k = None /\ c_watched x = []) ->
  good W' (with_clients <[c := x']> s).
Proof.
  intros [H1 H2 H3 H4] Hx Hw Hq Hdb Hf HW. set (s' := with_clients _ s). pose proof (t_ok _ _ _ H1) as Hok.
  assert (Hlook : forall c' y, clients s' !! c' = Some y -> c' = c /\ y = x' \/ c' <> c /\ clients s !! c' = Some y).
  { intros c' y. cbn. destruct (decide (c' = c)) as [->|Hne].
    - rewrite lookup_insert_eq. intros [= <-]. by left.
    - rewrite lookup_insert_ne by done. by right. }
  split.
  - split; [eapply shape_ok; [exact Hok|by eapply shape_set_client]|apply H1|apply H1|apply H1|].
    intros c' y d k v [[-> ->]|[Hne Hy]]%Hlook Hyf Hv.
    + destruct (Hf Hyf) as [Hxf|Hnone]; [|congruence]. destruct (HW c d k) as [E|(_ & E & _)]; [|congruence].
      rewrite E in Hv. destruct (t_seen _ _ _ H1 c x d k v Hx Hxf Hv) as (w & wk & Hin & Hrest).
      exists w, wk. by rewrite Hw.
    + destruct (HW c' d k) as [E|(? & _)]; [|done]. rewrite E in Hv. by apply (t_seen _ _ _ H1 c' y d k v Hy Hyf Hv).
  - intros w wk Hwk. destruct (HW (wk_client wk) (wk_db wk) (wk_key wk)) as [->|(Ec & _ & Hempty)]; [by eapply H2|].
    exfalso. destruct (wk_owned _ Hok w wk Hwk) as (y & Hy & Hin). rewrite Ec, Hx in Hy. injection Hy as <-.
    rewrite Hempty in Hin. by apply elem_of_nil in Hin.
  - intros c' y [[-> ->]|[_ Hy]]%Hlook; [done|by eapply H3].
  - intros c' y [[-> ->]|[_ Hy]]%Hlook; [done|by eapply (H4 c')].
Qed.

(** Marking a client. *)
Lemma good_or_flags W s c x f : good W s -> clients s !! c = Some x ->
  (has (Z.lor (c_flags x) f) CAS = false -> has (c_flags x) CAS = false) ->
  good W (with_clients <[c := set_flags (Z.lor (c_flags x) f) x]> s).
Proof.
  intros Hg Hx Hf. eapply good_client; [done|exact Hx|done|exact (g_queue _ _ Hg c x Hx)|exact (g_db _ _ Hg c x Hx)| |by left].
  intros H. left. by apply Hf.
Qed.

Lemma lor_cas f n : 0 <= n -> has (Z.lor f (Z.shiftl 1 n)) CAS = false -> has f CAS = false.
Proof.
  intros Hn. unfold CLIENT_DIRTY_CAS. destruct (decide (n = 5)) as [->|Hne]; [by rewrite has_or_same|].
  by rewrite has_or_other.
Qed.

(** ** Unwatching *)

Lemma unwatched_client c ws s s' c' x' : unwatched c ws s s' -> clients s' !! c' = Some x' ->
  exists x, clients s !! c' = Some x /\ x' = set_watched (if decide (c' = c) then filter (λ w, w ∉ ws) (c_watched x) else c_watched x) x.
Proof.
  intros Hun. rewrite (un_clients _ _ _ _ Hun). case_decide as E.
  - subst. rewrite lookup_alter_eq. intros (x & Hx & ->)%fmap_Some. by exists x.
  - rewrite lookup_alter_ne by done. intros Hx. exists x'. split; [done|]. by destruct x'.
Qed.

(** [good], but for the client [c]: its flags were changed before its watches are removed. *)
Record almost (c : positive) (W : seen) s : Prop := {
  al_ok : watch_ok s;
  al_exp : expires_ok s;
  al_env : primary s;
  al_flag w wk : wkeys s !! w = Some wk -> wk_expired wk = true -> is_expired s (wk_db wk) (wk_key wk) = true;
  al_seen c' x db key v : c' <> c -> clients s !! c' = Some x -> has (c_flags x) CAS = false -> W c' db key = Some v ->
    exists w wk, w ∈ c_watched x /\ wkeys s !! w = Some wk /\ wk_db wk = db /\ wk_key wk = key /\
      (if wk_expired wk then v = None else v = raw s db key);
  al_cover w wk : wkeys s !! w = Some wk -> is_Some (W (wk_client wk) (wk_db wk) (wk_key wk));
  al_queue c' x : clients s !! c' = Some x -> queue_ok (c_mstate x);
  al_db c' x : clients s !! c' = Some x -> exists_db s (c_db x) }.

Lemma good_almost c W s : good W s -> almost c W s.
Proof.
  intros [[A1 A2 A3 A4 A5] H2 H3 H4]. split; try done.
  - intros w wk Hw He. by destruct (A4 w wk Hw He) as [?|[[] _]].
  - intros c' x d k v _ Hx Hf HW. destruct (A5 c' x d k v Hx Hf HW) as (w & wk & Hin & Hw & Ed & Ek & Hv).
    exists w, wk. split_and!; try done. destruct (wk_expired wk); [done|by destruct Hv as [[]|?]].
Qed.

Lemma almost_client c W s x x' : almost c W s -> clients s !! c = Some x -> c_watched x' = c_watched x ->
  queue_ok (c_mstate x') -> exists_db s (c_db x') -> almost c W (with_clients <[c := x']> s).
Proof.
  intros [A1 A2 A3 A4 A5 A6 A7 A8] Hx Hw Hq Hdb.
  assert (Hlook : forall c' y, clients (with_clients <[c := x']> s) !! c' = Some y -> c' = c /\ y = x' \/ c' <> c /\ clients s !! c' = Some y).
  { intros c' y. cbn. destruct (decide (c' = c)) as [->|Hne].
    - rewrite lookup_insert_eq. intros [= <-]. by left.
    - rewrite lookup_insert_ne by done. by right. }
  split; try done.
  - eapply shape_ok; [done|by eapply shape_set_client].
  - intros c' y d k v Hne [[-> _]|[_ Hy]]%Hlook; [done|]. by apply (A5 c' y d k v Hne).
  - intros c' y [[-> ->]|[_ Hy]]%Hlook; [done|by eapply A7].
  - intros c' y [[-> ->]|[_ Hy]]%Hlook; [done|exact (A8 c' y Hy)].
Qed.

Lemma almost_unwatched W s s' c x : almost c W s -> clients s !! c = Some x -> unwatched c (c_watched x) s s' -> watch_ok s' ->
  good (forget c W) s'.
Proof.
  intros [Hok H1 Hp Hfl Hseen H2 H3 H4] Hx Hun Hok'. pose proof (un_same _ _ _ _ Hun) as Hsame.
  assert (Hwk : forall w wk, wkeys s' !! w = Some wk -> (w ∉ c_watched x) /\ wkeys s !! w = Some wk).
  { intros w wk. rewrite (un_wkeys _ _ _ _ Hun). by case_decide. }
  split; [split|..].
  - done.
  - by eapply same_expires_ok.
  - unfold primary. rewrite (same_env _ _ Hsame). apply Hp.
  - intros w wk [_ Hw]%Hwk He. left. rewrite (same_expired _ _ _ _ Hsame). by apply (Hfl w).
  - intros c' y' d k v Hy' Hf HW. unfold forget in HW. case_decide as Hc; [done|].
    destruct (unwatched_client _ _ _ _ _ _ Hun Hy') as (y & Hy & ->). rewrite decide_False in * by done.
    destruct (Hseen c' y d k v Hc Hy Hf HW) as (w & wk & Hin & Hw & Ed & Ek & Hv). exists w, wk.
    rewrite (same_raw _ _ _ _ Hsame). split_and!; try done; [|destruct (wk_expired wk); [done|by right]].
    rewrite (un_wkeys _ _ _ _ Hun). rewrite decide_False; [done|].
    intros Hwx. apply Hc. destruct (watched_wk _ Hok c' y w Hy Hin) as (wk1 & E1 & <-).
    destruct (watched_wk _ Hok c x w Hx Hwx) as (wk2 & E2 & <-). congruence.
  - intros w wk [Hw Hw0]%Hwk. unfold forget. rewrite decide_False; [by eapply H2|]. intros E.
    destruct (wk_owned _ Hok w wk Hw0) as (y & Hy & Hin). rewrite E, Hx in Hy. by injection Hy as <-.
  - intros c' y' Hy'. destruct (unwatched_client _ _ _ _ _ _ Hun Hy') as (y & Hy & ->). exact (H3 c' y Hy).
  - intros c' y' Hy'. destruct (unwatched_client _ _ _ _ _ _ Hun Hy') as (y & Hy & ->).
    eapply exists_same; [done|]. exact (H4 c' y Hy).
Qed.

Lemma unwatched_empty c s s' x : clients s !! c = Some x -> unwatched c (c_watched x) s s' ->
  clients s' !! c = Some (set_watched [] x).
Proof.
  intros Hx Hun. rewrite (un_clients _ _ _ _ Hun), lookup_alter_eq, Hx. cbn. do 2 f_equal.
  induction (c_watched x) as [|w l IH] eqn:E; [done|]. clear IH. apply elem_of_nil_inv. intros w'.
  rewrite list_elem_of_filter. tauto.
Qed.

Lemma wp_unwatchAll_good W s c x (Q : unit -> redisServer V Cmd -> Prop) : almost c W s -> clients s !! c = Some x ->
  (forall s', good (forget c W) s' -> same s s' -> clients s' !! c = Some (set_watched [] x) ->
     (forall c', c' <> c -> clients s' !! c' = clients s !! c') -> Q tt s') ->
  wp (unwatchAllKeys c) s Q.
Proof.
  intros Hg Hx HQ. eapply wp_unwatchAllKeys; [apply Hg|done|]. intros s' Hun Hok'. apply HQ.
  - by eapply almost_unwatched.
  - apply Hun.
  - by eapply unwatched_empty.
  - intros c' Hne. by rewrite (un_clients _ _ _ _ Hun), lookup_alter_ne.
Qed.

(** ** WATCH *)

Lemma wp_already_watched s db key (Q : bool -> redisServer V Cmd -> Prop) : forall ws,
  (forall w, w ∈ ws -> is_Some (wkeys s !! w)) ->
  ((exists w wk, w ∈ ws /\ wkeys s !! w = Some wk /\ wk_db wk = db /\ wk_key wk = key) -> Q true s) ->
  ((forall w wk, w ∈ ws -> wkeys s !! w = Some wk -> ~ (wk_db wk = db /\ wk_key wk = key)) -> Q false s) ->
  wp (already_watched db key ws) s Q.
Proof.
  induction ws as [|w ws IH]; intros Hin Hyes Hno.
  { apply wp_ret, Hno. by intros w wk ?%elem_of_nil. }
  destruct (Hin w) as [wk Hw]; [by left|]. eapply wp_bind, wp_get_wkey; [done|].
  destruct (bool_decide_reflect (wk_db wk = db)) as [Ed|Ed], (bool_decide_reflect (wk_key wk = key)) as [Ek|Ek]; cbn [andb].
  { apply wp_ret, Hyes. exists w, wk. split; [by left|done]. }
  all: apply IH; [intros w' Hw'; apply Hin; by right|intros (w' & wk' & H1 & H2); apply Hyes; exists w', wk'; split; [by right|done]|].
  all: intros H; apply Hno; intros w' wk' [->|Hw']%elem_of_cons Hwk'; [|by eapply H]; rewrite Hw in Hwk'; injection Hwk' as <-; tauto.
Qed.

(** What the client saw of a key when it asked to watch it; the first time counts. *)
Definition watch1 (c : positive) (db : nat) (key : bytes) s (W : seen) : seen := λ c' d k,
  if decide ((c', d, k) = (c, db, key)) then match W c' d k with Some v => Some v | None => Some (logical s db key) end
  else W c' d k.

Definition with_watch (c : positive) (x : client Cmd) (d : redisDb V) (w : positive) (wk : watchedKey) s : redisServer V Cmd :=
  with_dbs <[wk_db wk := set_db_watched (<[wk_key wk := default [] (db_watched d !! wk_key wk) ++ [w]]> (db_watched d)) d]>
    (with_clients <[c := set_watched (c_watched x ++ [w]) x]> (with_wkeys <[w := wk]> s)).

Lemma with_watch_watching s c x d w wk db key : dbs s !! wk_db wk = Some d ->
  watching (with_watch c x d w wk s) db key =
  if decide ((db, key) = (wk_db wk, wk_key wk)) then watching s db key ++ [w] else watching s db key.
Proof.
  intros Hd. unfold watching. cbn [dbs with_watch with_dbs with_clients with_wkeys]. destruct (decide (db = wk_db wk)) as [->|Hne].
  - rewrite list_lookup_insert_eq, Hd by by eapply lookup_lt_Some. cbn. destruct (decide (key = wk_key wk)) as [->|Hk].
    + by rewrite decide_True, lookup_insert_eq.
    + rewrite decide_False by congruence. by rewrite lookup_insert_ne.
  - rewrite decide_False by congruence. by rewrite list_lookup_insert_ne.
Qed.

Section new_watch.
Context s (c : positive) (x : client Cmd) (d : redisDb V) (w : positive) (wk : watchedKey).
Context (Hok : watch_ok s) (Hx : clients s !! c = Some x) (Hd : dbs s !! wk_db wk = Some d) (Hc : wk_client wk = c).
Context (Hw : wkeys s !! w = None).
Context (Hnew : forall w' wk', w' ∈ c_watched x -> wkeys s !! w' = Some wk' -> ~ (wk_db wk' = wk_db wk /\ wk_key wk' = wk_key wk)).
Abbreviation s' := (with_watch c x d w wk s).

Lemma nw_wkey w' wk' : wkeys s' !! w' = Some wk' -> w' = w /\ wk' = wk \/ w' <> w /\ wkeys s !! w' = Some wk'.
Proof using.
  cbn. destruct (decide (w' = w)) as [->|Hne]; [rewrite lookup_insert_eq; intros [= <-]; by left|].
  rewrite lookup_insert_ne by done. by right.
Qed.

Lemma nw_old w' wk' : wkeys s !! w' = Some wk' -> wkeys s' !! w' = Some wk'.
Proof using Hw. intros H. cbn. rewrite lookup_insert_ne; [done|]. intros ->. congruence. Qed.

Lemma nw_client c' y : clients s' !! c' = Some y ->
  exists y0, clients s !! c' = Some y0 /\ y = set_watched (if decide (c' = c) then c_watched y0 ++ [w] else c_watched y0) y0.
Proof using Hx.
  cbn. case_decide as E.
  - rewrite E, lookup_insert_eq. intros [= <-]. by exists x.
  - rewrite lookup_insert_ne by done. intros H. exists y. split; [done|]. by destruct y.
Qed.

Lemma nw_client_fwd c' y : clients s !! c' = Some y ->
  clients s' !! c' = Some (set_watched (if decide (c' = c) then c_watched y ++ [w] else c_watched y) y).
Proof using Hx.
  intros Hy. cbn. case_decide as E.
  - rewrite E, lookup_insert_eq in *. congruence.
  - rewrite lookup_insert_ne, Hy by done. by destruct y.
Qed.

Lemma nw_fresh_list db key : w ∉ watching s db key.
Proof using Hok Hw. intros H. destruct (watching_wk _ Hok _ _ _ H) as (wk0 & H0 & _). congruence. Qed.
Lemma nw_fresh_client c' y : clients s !! c' = Some y -> w ∉ c_watched y.
Proof using Hok Hw. intros Hy H. destruct (watched_wk _ Hok _ _ _ Hy H) as (wk0 & H0 & _). congruence. Qed.

Lemma nw_watching db key w' : w' ∈ watching s db key -> w' ∈ watching s' db key.
Proof using Hd. intros H. rewrite (with_watch_watching _ _ _ _ _ _ _ _ Hd). case_decide; [apply elem_of_app; by left|done]. Qed.

Lemma nw_ok : watch_ok s'.
Proof using Hok Hx Hd Hc Hw Hnew.
  split.
  - intros w' wk' [[-> ->]|[_ H]]%nw_wkey.
    + rewrite (with_watch_watching _ _ _ _ _ _ _ _ Hd), decide_True by done. apply elem_of_app. right. by left.
    + by apply nw_watching, (wk_listed _ Hok).
  - intros w' wk' [[-> ->]|[_ H]]%nw_wkey.
    + rewrite Hc. eexists. split; [by apply nw_client_fwd|]. cbn. rewrite decide_True by done. apply elem_of_app. right. by left.
    + destruct (wk_owned _ Hok w' wk' H) as (y & Hy & Hin). eexists. split; [by apply nw_client_fwd|]. cbn.
      case_decide; [apply elem_of_app; by left|done].
  - intros db key w'. rewrite (with_watch_watching _ _ _ _ _ _ _ _ Hd). case_decide as E.
    + rewrite elem_of_app, list_elem_of_singleton. injection E as -> ->. intros [H| ->].
      * destruct (watching_wk _ Hok _ _ _ H) as (wk0 & H0 & Hrest). exists wk0. split; [by apply nw_old|done].
      * exists wk. cbn. by rewrite lookup_insert_eq.
    + intros H. destruct (watching_wk _ Hok _ _ _ H) as (wk0 & H0 & Hrest). exists wk0. split; [by apply nw_old|done].
  - intros c' y w' (y0 & Hy0 & ->)%nw_client. cbn. intros Hin.
    assert (w' ∈ c_watched y0 \/ c' = c /\ w' = w) as [Hin'|[-> ->]].
    { case_decide; [|by left]. apply elem_of_app in Hin as [?| ->%list_elem_of_singleton]; [by left|by right]. }
    + destruct (watched_wk _ Hok c' y0 w' Hy0 Hin') as (wk0 & H0 & Hrest). exists wk0. split; [by apply nw_old|done].
    + exists wk. cbn. by rewrite lookup_insert_eq.
  - intros db d' key l Hd' Hl.
    pose proof (with_watch_watching s c x d w wk db key Hd) as E. rewrite (watching_db _ _ _ _ Hd'), Hl in E. cbn [default] in E.
    assert (Hne : (db, key) <> (wk_db wk, wk_key wk) -> exists d0, dbs s !! db = Some d0 /\ db_watched d0 !! key = Some l).
    { intros Hne. cbn in Hd'. destruct (decide (db = wk_db wk)) as [->|Hdb].
      - rewrite list_lookup_insert_eq in Hd' by by eapply lookup_lt_Some. injection Hd' as <-. cbn in Hl.
        rewrite lookup_insert_ne in Hl by congruence. by exists d.
      - rewrite list_lookup_insert_ne in Hd' by done. by exists d'. }
    case_decide as Ek; [|destruct (Hne Ek) as (d0 & Hd0 & Hl0); by apply (watching_nodup _ Hok _ _ _ _ Hd0 Hl0)].
    change (l = watching s db key ++ [w]) in E. rewrite E. split; [by intros [_ ?]%app_nil|].
    apply NoDup_app. split; [by apply watching_NoDup|]. split; [|apply NoDup_singleton].
    intros w' H1 ->%list_elem_of_singleton. by apply nw_fresh_list in H1.
  - intros c' y (y0 & Hy0 & ->)%nw_client. cbn. pose proof (watched_nodup _ Hok c' y0 Hy0). case_decide; [|done].
    apply NoDup_app. split; [done|]. split; [|apply NoDup_singleton]. intros w' H1 ->%list_elem_of_singleton. by eapply nw_fresh_client.
  - assert (Hdis : forall w' wk', wkeys s !! w' = Some wk' -> wk_client wk' = wk_client wk -> ~ (wk_db wk' = wk_db wk /\ wk_key wk' = wk_key wk)).
    { intros w' wk' H1 H2. destruct (wk_owned _ Hok w' wk' H1) as (y & Hy & Hin). rewrite H2, Hc, Hx in Hy. injection Hy as <-. by eapply Hnew. }
    intros w1 w2 wk1 wk2 [[-> ->]|[_ H1]]%nw_wkey [[-> ->]|[_ H2]]%nw_wkey Ec Ed Ek; [done| | |by apply (watched_once _ Hok w1 w2 wk1 wk2)].
    + by destruct (Hdis w2 wk2 H2).
    + by destruct (Hdis w1 wk1 H1).
Qed.

Lemma nw_same : same s s'.
Proof using Hd. eapply same_trans; [apply (same_with_wkeys s <[w := wk]>)|]. eapply same_trans; [apply (same_with_clients _ <[c := set_watched (c_watched x ++ [w]) x]>)|]. by apply same_with_watched. Qed.
End new_watch.

Lemma wp_watchForKey W s c x key (Q : unit -> redisServer V Cmd -> Prop) : good W s -> clients s !! c = Some x ->
  has (c_flags x) CAS = false ->
  (forall s' x', good (watch1 c (c_db x) key s W) s' -> same s s' -> clients s' !! c = Some x' -> c_db x' = c_db x ->
     c_flags x' = c_flags x -> Q tt s') ->
  wp (watchForKey c key) s Q.
Proof.
  intros Hg Hx Hf HQ. pose proof (g_tracked _ _ Hg) as Ht. pose proof (t_ok _ _ _ Ht) as Hok.
  eapply wp_bind, wp_get_client; [done|]. apply wp_bind, wp_already_watched.
  { intros w Hw. destruct (watched_wk _ Hok c x w Hx Hw) as (wk & Hwk & _). by exists wk. }
  - intros (w & wk & Hin & Hw & Ed & Ek). apply wp_ret. apply (HQ s x); [|done|done|done|done].
    destruct (watched_wk _ Hok c x w Hx Hin) as (wk0 & H0 & Hc0). rewrite Hw in H0. injection H0 as <-.
    destruct (g_cover _ _ Hg w wk Hw) as [v Hv]. rewrite Hc0, Ed, Ek in Hv.
    assert (HW : forall c' d k, watch1 c (c_db x) key s W c' d k = W c' d k).
    { intros c' d k. unfold watch1. case_decide as E; [injection E as -> -> ->; by rewrite Hv|done]. }
    destruct Hg as [[A1 A2 A3 A4 A5] G2 G3 G4]. split; [split|..]; try done.
    + intros c' y d k v'. rewrite HW. apply A5.
    + intros w' wk' Hw'. rewrite HW. by eapply G2.
  - intros Hnew. destruct (g_db _ _ Hg c x Hx) as [d Hd]. eapply wp_bind, wp_get_db; [done|].
    apply wp_bind. eapply wp_keyIsExpired; [apply Ht|done|]. eapply wp_bind, wp_asks.
    set (w := fresh (dom (wkeys s))). set (wk := WKey key (c_db x) c (is_expired s (c_db x) key)).
    assert (Hw : wkeys s !! w = None) by (apply not_elem_of_dom, is_fresh).
    apply wp_bind, wp_update. apply wp_bind. eapply wp_put_client; [exact Hx|]. eapply wp_put_db; [exact Hd|].
    change (Q tt (with_watch c x d w wk s)).
    pose proof (nw_ok s c x d w wk Hok Hx Hd eq_refl Hw Hnew) as Hok'. pose proof (nw_same s c x d w wk Hd) as Hsame.
    assert (HWnone : W c (c_db x) key = None).
    { destruct (W c (c_db x) key) as [v|] eqn:Hv; [|done]. exfalso.
      destruct (t_seen _ _ _ Ht c x _ _ v Hx Hf Hv) as (w' & wk' & Hin & Hw' & Ed & Ek & _). by eapply Hnew. }
    eapply HQ; [|done|exact (nw_client_fwd s c x d w wk Hx c x Hx)|done|done].
    split; [split|..].
    + done.
    + by eapply same_expires_ok, Ht.
    + unfold primary. rewrite (same_env _ _ Hsame). apply Ht.
    + intros w' wk' [[-> ->]|[_ H]]%nw_wkey He; rewrite (same_expired _ _ _ _ Hsame); [by left|].
      rewrite (same_raw _ _ _ _ Hsame). by apply (t_flag _ _ _ Ht w').
    + intros c' y d' k v (y0 & Hy0 & ->)%nw_client Hyf HW; [|done]. cbn [c_watched set_watched].
      destruct (decide ((c', d', k) = (c, c_db x, key))) as [[= -> -> ->]|Hne].
      * unfold watch1 in HW. rewrite decide_True, HWnone in HW by done. injection HW as <-.
        exists w, wk. split; [rewrite decide_True by done; apply elem_of_app; right; by left|].
        split; [cbn; by rewrite lookup_insert_eq|]. split; [done|]. split; [done|]. rewrite (same_raw _ _ _ _ Hsame).
        cbn [wk_expired wk]. unfold logical. destruct (is_expired s (c_db x) key); [done|by right].
      * unfold watch1 in HW. rewrite decide_False in HW by done.
        destruct (t_seen _ _ _ Ht c' y0 d' k v Hy0 Hyf HW) as (w' & wk' & Hin & Hw' & Ed & Ek & Hv). exists w', wk'.
        split; [case_decide; [apply elem_of_app; by left|done]|]. split; [by apply (nw_old s c x d w wk Hw)|].
        by rewrite (same_raw _ _ _ _ Hsame).
    + intros w' wk' [[-> ->]|[_ H]]%nw_wkey.
      * unfold watch1. rewrite decide_True by done. case_match; by eexists.
      * unfold watch1. case_decide; [case_match; by eexists|exact (g_cover _ _ Hg w' wk' H)].
    + intros c' y (y0 & Hy0 & ->)%nw_client; [|done]. exact (g_queue _ _ Hg c' y0 Hy0).
    + intros c' y (y0 & Hy0 & ->)%nw_client; [|done]. eapply exists_same; [done|]. exact (g_db _ _ Hg c' y0 Hy0).
Qed.
End cmds.

(** * EXEC: a transaction runs only if every watched key still is what the client saw *)

Section ops.
Context {V Cmd : Type}.
Implicit Types s : redisServer V Cmd.
Abbreviation entry := (V * option Z)%type.
Abbreviation seen := (positive -> nat -> bytes -> option (option entry)).
Abbreviation keymap := (nat -> bytes -> option entry).

(** ** The operations of the keyspace *)

Inductive op :=
| o_lookup (db : nat) (key : bytes) (flags : Z)
| o_set (db : nat) (flags : Z) (key : bytes) (val : V) (expire : option Z)
| o_del (db : nat) (keys : list bytes)
| o_rename (db : nat) (from to : bytes) (nx : bool)
| o_move (src : nat) (dbid : Z) (key : bytes)
| o_expire (db : nat) (key : bytes) (t basetime : Z) (seconds : bool) (flag : Z)
| o_persist (db : nat) (key : bytes)
| o_flush (dbnum : Z)
| o_swap (id1 id2 : Z).

Definition exec_op (o : op) : ST (redisServer V Cmd) reply :=
  match o with
  | o_lookup db key flags => v ← lookupKey db key flags; mret (if bool_decide (is_Some v) then r_ok else r_nil)
  | o_set db flags key val expire => setGenericCommand db flags key val expire
  | o_del db keys => delGenericCommand db keys
  | o_rename db from to nx => renameGenericCommand db from to nx
  | o_move src dbid key => moveCommand src dbid key
  | o_expire db key t basetime seconds flag => expireGenericCommand db key t basetime seconds flag
  | o_persist db key => persistCommand db key
  | o_flush dbnum => flushCommand dbnum
  | o_swap id1 id2 => swapdbCommand id1 id2
  end.

(** [now] is the clock and [n] the number of databases. *)
Definition spec_op (now : Z) (n : nat) (o : op) (L : keymap) : reply * keymap :=
  match o with
  | o_lookup db key _ => (if bool_decide (is_Some (L db key)) then r_ok else r_nil, L)
  | o_set db flags key val expire => spec_set db flags key val expire L
  | o_del db keys => spec_del db keys 0 L
  | o_rename db from to nx => spec_rename db from to nx L
  | o_move src dbid key => spec_move n src dbid key L
  | o_expire db key t basetime seconds flag => spec_expire now db key t basetime seconds flag L
  | o_persist db key => spec_persist db key L
  | o_flush dbnum => (r_ok, let '(i, k) := db_range dbnum n in spec_flush i k L)
  | o_swap id1 id2 =>
      if (0 <=? id1) && (id1 <? Z.of_nat n) && (0 <=? id2) && (id2 <? Z.of_nat n)
      then (r_ok, spec_swap (Z.to_nat id1) (Z.to_nat id2) L) else (r_error, L)
  end.

(** Writes need clients that are not paused; a SWAPDB must not revive a key that was
    expired when it was watched. *)
Definition op_ok (o : op) s : Prop :=
  match o with
  | o_lookup db _ _ => exists_db s db
  | o_set db _ _ _ _ | o_del db _ | o_rename db _ _ _ | o_move db _ _ | o_expire db _ _ _ _ _ | o_persist db _ =>
      exists_db s db /\ writable s
  | o_flush dbnum => -1 <= dbnum < Z.of_nat (length (dbs s))
  | o_swap id1 id2 => no_revival (Z.to_nat id1) (Some (Z.to_nat id2)) s /\ no_revival (Z.to_nat id2) (Some (Z.to_nat id1)) s
  end.

Lemma lookup_refines W s db key flags : tracked nothing W s -> exists_db s db ->
  wp (lookupKey db key flags) s (λ r s', r = fst <$> logical s db key /\ runs W s s' (logical s)).
Proof.
  intros Ht Hdb. eapply wp_lookupKey; [done|done|]. intros s' Ht' Hk Ho Hor _. split; [done|]. apply runs_same; [done|done|].
  intros d k. rewrite logical_view, (k_env _ _ Hk). destruct (decide ((d, k) = (db, key))) as [[= -> ->]|Hne].
  - destruct Hor as [-> | ->]; [done|apply logical_idem].
  - by rewrite Ho.
Qed.

Lemma op_refines W s o : tracked nothing W s -> op_ok o s ->
  wp (exec_op o) s (λ r s', let sp := spec_op (mstime (s_env s)) (length (dbs s)) o (logical s) in
    r = sp.1 /\ runs_all W s s' sp.2).
Proof.
  intros Ht Hop. assert (Hrun : forall (m : ST (redisServer V Cmd) reply) r L,
    wp m s (λ r' s', r' = r /\ runs W s s' L) -> wp m s (λ r' s', r' = r /\ runs_all W s s' L)).
  { intros m r L H. eapply wp_mono; [exact H|]. intros r' s' [-> Hr]. split; [done|by apply runs_runs_all]. }
  destruct o; cbn [exec_op spec_op op_ok] in *.
  1: { apply wp_bind. eapply wp_mono; [by apply (lookup_refines W)|]. intros r s' [-> Hr]. apply wp_ret.
    split; [|by apply runs_runs_all]. cbn [fst]. by destruct (logical s db key). }
  all: destruct Hop as [Hop1 Hop2].
  - apply Hrun. eapply wp_mono; [by apply (set_refines W)|]. intros r s' (-> & Hr & _). done.
  - by apply Hrun, del_refines.
  - by apply Hrun, rename_refines.
  - by apply Hrun, move_refines.
  - by apply Hrun, expire_refines.
  - by apply Hrun, persist_refines.
  - pose proof (flush_refines W s dbnum Ht (conj Hop1 Hop2)) as H. destruct (db_range dbnum (length (dbs s))) as [i n].
    eapply wp_mono; [exact H|]. intros r s' (-> & Hr & _). done.
  - eapply wp_mono; [by apply (swap_refines W)|]. intros r s' [-> Hr].
    by destruct ((0 <=? id1) && _ && _ && _).
Qed.

(** ** What a command does *)

(** A step of a command: an operation of the keyspace, a SELECT, or the command changing
    its arguments. *)
Inductive cstep s : redisServer V Cmd -> Prop :=
| cs_op o r s' : op_ok o s -> exec_op o s = Some (r, s') -> cstep s s'
| cs_select c x i : clients s !! c = Some x -> exists_db s i ->
    cstep s (with_clients <[c := Client (c_flags x) i (c_cmd x) (c_argv_len_sum x) (c_mstate x) (c_watched x)]> s)
| cs_args c x mc sum : clients s !! c = Some x -> cstep s (with_clients <[c := set_cmd mc sum x]> s).

Record csteps (W : seen) s s' : Prop := {
  cs_good : good W s';
  cs_mstate c : c_mstate <$> clients s' !! c = c_mstate <$> clients s !! c;
  cs_env : s_env s' = s_env s }.

Lemma good_ext (W W' : seen) s : (forall c d k, W c d k = W' c d k) -> good W s -> good W' s.
Proof.
  intros HW [[A1 A2 A3 A4 A5] H2 H3 H4]. split; [split|..]; try done.
  - intros c x d k v. rewrite <- HW. apply A5.
  - intros w wk Hw. rewrite <- HW. by eapply H2.
Qed.

Lemma good_set_client W s c x x' : good W s -> clients s !! c = Some x -> c_watched x' = c_watched x -> c_mstate x' = c_mstate x ->
  exists_db s (c_db x') -> c_flags x' = c_flags x -> good W (with_clients <[c := x']> s).
Proof.
  intros Hg Hx Hw Hm Hdb Hf. eapply good_client; [done|exact Hx|done| |done| |by left].
  - rewrite Hm. exact (g_queue _ _ Hg c x Hx).
  - rewrite Hf. by left.
Qed.

Lemma mstate_insert s c x x' c' : clients s !! c = Some x -> c_mstate x' = c_mstate x ->
  c_mstate <$> clients (with_clients <[c := x']> s) !! c' = c_mstate <$> clients s !! c'.
Proof.
  intros Hx Hm. cbn. destruct (decide (c' = c)) as [->|]; [by rewrite lookup_insert_eq, Hx; cbn; rewrite Hm|by rewrite lookup_insert_ne].
Qed.

Lemma kept_mstate s s' c : kept_all s s' -> c_mstate <$> clients s' !! c = c_mstate <$> clients s !! c.
Proof.
  intros H. pose proof (ka_clients _ _ H c) as Hc. destruct (clients s !! c), (clients s' !! c); try done.
  destruct Hc as [->|(ws & -> & _)]; done.
Qed.

Lemma cstep_good W s s' : good W s -> cstep s s' -> csteps W s s'.
Proof.
  intros Hg [o r s1 Hop E|c x i Hx Hi|c x mc sum Hx].
  - destruct (op_refines W s o (g_tracked _ _ Hg) Hop) as (r' & s2 & E2 & _ & [H1 H2 _]). rewrite E in E2. injection E2 as <- <-.
    split; [by eapply good_kept|intros c; by apply kept_mstate|apply H2].
  - split; [by eapply good_set_client|intros c'; by eapply mstate_insert|done].
  - split; [eapply good_set_client; [done|exact Hx|done|done|exact (g_db _ _ Hg c x Hx)|done]|intros c'; by eapply mstate_insert|done].
Qed.

Lemma csteps_good W s s' : good W s -> rtc cstep s s' -> csteps W s s'.
Proof.
  intros Hg H. revert Hg. induction H as [s|s s1 s' H1 _ IH]; intros Hg; [by split|].
  destruct (cstep_good W s s1 Hg H1) as [G1 M1 E1]. destruct (IH G1) as [G2 M2 E2].
  split; [done|intros c; by rewrite M2, M1|congruence].
Qed.

(** ** Commands of transactions *)

Lemma wp_discardTransaction W s c x (Q : unit -> redisServer V Cmd -> Prop) : almost c W s -> clients s !! c = Some x ->
  (forall s' x', good (forget c W) s' -> same s s' -> clients s' !! c = Some x' ->
     x' = set_watched [] (set_flags (clear (c_flags x) (Z.lor CLIENT_MULTI (Z.lor CLIENT_DIRTY_CAS CLIENT_DIRTY_EXEC))) (set_mstate no_state x)) ->
     Q tt s') ->
  wp (discardTransaction c) s Q.
Proof.
  intros Hg Hx HQ. apply wp_bind. eapply wp_bind, wp_get_client; [exact Hx|]. eapply wp_put_client; [exact Hx|].
  set (s1 := with_clients _ s). assert (Hx1 : clients s1 !! c = Some (set_mstate no_state x)) by (cbn; by rewrite lookup_insert_eq).
  assert (Hg1 : almost c W s1) by (eapply almost_client; [done|exact Hx|done|by left|exact (al_db _ _ _ Hg c x Hx)]).
  eapply wp_bind, wp_clear_flags; [exact Hx1|]. set (s2 := with_clients _ s1).
  assert (Hg2 : almost c W s2) by (eapply almost_client; [done|exact Hx1|done|by left|exact (al_db _ _ _ Hg c x Hx)]).
  eapply wp_unwatchAll_good; [exact Hg2|cbn; by rewrite lookup_insert_eq|]. intros s' Hg' Hs' Hx' _.
  eapply HQ; [done| |exact Hx'|done]. eapply same_trans; [apply (same_with_clients s)|].
  eapply same_trans; [apply (same_with_clients s1)|done].
Qed.

Fixpoint watch_all (c : positive) (db : nat) (keys : list bytes) s (W : seen) : seen :=
  match keys with [] => W | key :: keys' => watch_all c db keys' s (watch1 c db key s W) end.

Lemma watch1_ext c db key s s' W W' : same s s' -> (forall a b d, W a b d = W' a b d) ->
  forall a b d, watch1 c db key s' W a b d = watch1 c db key s W' a b d.
Proof. intros Hs HW a b d. unfold watch1. rewrite (same_logical _ _ _ _ Hs), HW. done. Qed.

Lemma watch_all_ext c db keys : forall s s' W W', same s s' -> (forall a b d, W a b d = W' a b d) ->
  forall a b d, watch_all c db keys s' W a b d = watch_all c db keys s W' a b d.
Proof.
  induction keys as [|key keys IH]; intros s s' W W' Hs HW; [done|]. cbn. apply IH; [done|]. by apply watch1_ext.
Qed.

Lemma wp_watch_keys c : forall keys W s x (Q : unit -> redisServer V Cmd -> Prop), good W s -> clients s !! c = Some x ->
  has (c_flags x) CAS = false ->
  (forall s', good (watch_all c (c_db x) keys s W) s' -> same s s' -> Q tt s') -> wp (watch_keys c keys) s Q.
Proof.
  induction keys as [|key keys IH]; intros W s x Q Hg Hx Hf HQ; [by apply wp_ret, HQ|].
  eapply wp_bind, wp_watchForKey; [done|done|done|]. intros s1 x1 Hg1 Hs1 Hx1 Hd1 Hf1.
  eapply IH; [done|done|by rewrite Hf1|]. intros s2 Hg2 Hs2. apply HQ; [|by eapply same_trans]. rewrite Hd1 in Hg2.
  eapply good_ext; [|exact Hg2]. intros c' d k. cbn [watch_all]. by apply watch_all_ext.
Qed.

(** What the client is known to have seen after a WATCH. *)
Definition watch_spec (c : positive) (keys : list bytes) s (W : seen) : seen :=
  match clients s !! c with
  | Some x => if has (c_flags x) CLIENT_MULTI || has (c_flags x) CAS then W else watch_all c (c_db x) keys s W
  | None => W
  end.

Lemma watchCommand_good W s c x keys : good W s -> clients s !! c = Some x ->
  wp (watchCommand c keys) s (λ _ s', good (watch_spec c keys s W) s' /\ same s s').
Proof.
  intros Hg Hx. eapply wp_bind, wp_get_client; [done|]. unfold watch_spec. rewrite Hx.
  destruct (has (c_flags x) CLIENT_MULTI); [by apply wp_ret|].
  destruct (has (c_flags x) CLIENT_DIRTY_CAS) eqn:Hf; [by apply wp_ret|]. cbn [orb].
  apply wp_bind. eapply wp_watch_keys; [done|done|done|]. intros s' Hg' Hs'. by apply wp_ret.
Qed.

Lemma good_clear W s c x : good (forget c W) s -> clients s !! c = Some x -> c_watched x = [] ->
  forall f, good (forget c W) (with_clients <[c := set_flags f x]> s).
Proof.
  intros Hg Hx Hw f. eapply good_client; [done|exact Hx|done|exact (g_queue _ _ Hg c x Hx)|exact (g_db _ _ Hg c x Hx)| |by left].
  intros _. right. intros d k. unfold forget. by rewrite decide_True.
Qed.

Lemma unwatchCommand_good W s c x : good W s -> clients s !! c = Some x ->
  wp (unwatchCommand c) s (λ _ s', good (forget c W) s' /\ same s s').
Proof.
  intros Hg Hx. eapply wp_bind, wp_unwatchAll_good; [by apply good_almost|done|]. intros s1 Hg1 Hs1 Hx1 _.
  eapply wp_bind, wp_clear_flags; [done|]. apply wp_ret. split; [by apply good_clear|]. by eapply same_trans.
Qed.

Lemma multiCommand_good W s c x : good W s -> clients s !! c = Some x ->
  wp (multiCommand c) s (λ _ s', good W s' /\ same s s').
Proof.
  intros Hg Hx. eapply wp_bind, wp_get_client; [done|]. destruct (has _ _); [by apply wp_ret|].
  eapply wp_bind, wp_or_flags; [done|]. apply wp_ret. split; [|done]. apply good_or_flags; [done|done|]. by apply (lor_cas _ 3).
Qed.

Lemma flagTransaction_good W s c x : good W s -> clients s !! c = Some x ->
  wp (flagTransaction c) s (λ _ s', good W s' /\ same s s').
Proof.
  intros Hg Hx. eapply wp_bind, wp_get_client; [done|]. destruct (has _ _); [|by apply wp_ret].
  eapply wp_or_flags; [done|]. split; [|done]. apply good_or_flags; [done|done|]. by apply (lor_cas _ 12).
Qed.

Lemma discardCommand_good W s c x : good W s -> clients s !! c = Some x ->
  wp (discardCommand c) s (λ r s', good (if has (c_flags x) CLIENT_MULTI then forget c W else W) s' /\ same s s').
Proof.
  intros Hg Hx. eapply wp_bind, wp_get_client; [done|]. destruct (has _ _); [|by apply wp_ret]. cbn [negb].
  apply wp_bind. eapply wp_discardTransaction; [by apply good_almost|done|]. intros s' x' Hg' Hs' _ _. by apply wp_ret.
Qed.

(** The array grows before it is full. *)
Lemma queue_room count al : 0 <= count < INT_MAX -> count = 0 \/ 2 <= al <= INT_MAX /\ count <= al ->
  let a0 := if count =? 0 then 2 else al in
  let a := if count =? a0 then (if a0 <? INT_MAX / 2 then a0 * 2 else INT_MAX) else a0 in
  count < a /\ 2 <= a <= INT_MAX.
Proof.
  change INT_MAX with 2147483647. change (2147483647 / 2) with 1073741823. intros Hc H. cbn zeta.
  destruct (Z.eqb_spec count 0) as [E|]; [subst; by vm_compute|]. destruct (Z.eqb_spec count al); [|lia].
  destruct (Z.ltb_spec al 1073741823); lia.
Qed.

Lemma queue_good W s c x flags : good W s -> clients s !! c = Some x ->
  Z.of_nat (length (commands (c_mstate x))) < INT_MAX ->
  wp (queueMultiCommand c flags) s (λ _ s', good W s' /\ same s s' /\
    exists x', clients s' !! c = Some x' /\ c_flags x' = c_flags x /\
      commands (c_mstate x') = commands (c_mstate x) ++
        (if has (c_flags x) (Z.lor CLIENT_DIRTY_CAS CLIENT_DIRTY_EXEC) then [] else [c_cmd x])).
Proof.
  intros Hg Hx Hmax. eapply wp_bind, wp_get_client; [done|]. destruct (has _ _); [apply wp_ret; split_and!; [done|done|]; exists x; by rewrite app_nil_r|].
  set (m := c_mstate x). set (count := Z.of_nat (length (commands m))).
  set (a0 := if count =? 0 then 2 else alloc_count m).
  set (a := if count =? a0 then (if a0 <? INT_MAX / 2 then a0 * 2 else INT_MAX) else a0).
  assert (Ha : count < a /\ 2 <= a <= INT_MAX).
  { apply queue_room; [unfold count, m; lia|]. destruct (g_queue _ _ Hg c x Hx) as [Hq|Hq]; [left|by right].
    unfold count, m. by rewrite Hq. }
  cbv zeta. fold m count. fold a0. fold a. rewrite (proj2 (Z.leb_gt _ _)) by lia.
  eapply wp_put_client; [done|]. split_and!; [|done|].
  - eapply good_client; [done|exact Hx|done| |exact (g_db _ _ Hg c x Hx)| |by left].
    + right. cbn. rewrite length_app. cbn [length]. unfold count in Ha. lia.
    + by left.
  - eexists. cbn. rewrite lookup_insert_eq. done.
Qed.

Lemma release_good W s c x : good W s -> clients s !! c = Some x ->
  wp (release_client c) s (λ _ s', good (forget c W) s' /\ same s s').
Proof.
  intros Hg Hx. eapply wp_bind, wp_unwatchAll_good; [by apply good_almost|done|]. intros s1 Hg1 Hs1 Hx1 _.
  apply wp_update. split; [|by destruct Hs1]. destruct Hg1 as [[A1 A2 A3 A4 A5] H2 H3 H4]. set (s2 := with_clients _ s1).
  assert (Hlook : forall c' y, clients s2 !! c' = Some y -> c' <> c /\ clients s1 !! c' = Some y).
  { intros c' y. cbn. intros [? ?]%lookup_delete_Some. done. }
  split; [split|..]; try done.
  - destruct A1 as [B1 B2 B3 B4 B5 B6 B7]. split; try done.
    + intros w wk Hw. destruct (B2 w wk Hw) as (y & Hy & Hin). exists y. split; [|done]. cbn. rewrite lookup_delete_ne; [done|].
      intros E. rewrite <- E in Hy. rewrite Hx1 in Hy. injection Hy as <-. by apply elem_of_nil in Hin.
    + intros c' y w [_ Hy]%Hlook. by apply (B4 c').
    + intros c' y [_ Hy]%Hlook. by apply (B6 c').
  - intros c' y d k v [_ Hy]%Hlook. by apply A5.
  - intros c' y [_ Hy]%Hlook. by eapply H3.
  - intros c' y [_ Hy]%Hlook. by eapply (H4 c').
Qed.
End ops.
