(* ===== verification/MultiHist.v ===== *)
(** The histories of a primary: clients connect, watch keys, queue commands and execute
    them, and the clock goes on. *)

From stdpp Require Import gmap.
From S2P Require Import Prelude State Keyspace Multi MultiInv MultiTrack Db DbOps MultiAll MultiCmd.

Local Open Scope Z_scope.

Section history.
Context {V Cmd : Type}.
Implicit Types s : redisServer V Cmd.
Abbreviation entry := (V * option Z)%type.
Abbreviation seen := (positive -> nat -> bytes -> option (option entry)).

(** ** The test of EXEC *)

(** Has a key that the client watches expired since? *)
Definition stale s (x : client Cmd) : bool :=
  existsb (λ w, match wkeys s !! w with
                | Some wk => negb (wk_expired wk) && is_expired s (wk_db wk) (wk_key wk)
                | None => false
                end) (c_watched x).

Lemma wp_watched_expired s (Q : bool -> redisServer V Cmd -> Prop) : watch_ok s -> expires_ok s -> forall ws,
  (forall w, w ∈ ws -> is_Some (wkeys s !! w)) ->
  Q (existsb (λ w, match wkeys s !! w with
                   | Some wk => negb (wk_expired wk) && is_expired s (wk_db wk) (wk_key wk)
                   | None => false
                   end) ws) s ->
  wp (watched_expired ws) s Q.
Proof.
  intros Hok He. induction ws as [|w ws IH]; intros Hin HQ; [by apply wp_ret|]. cbn [existsb] in HQ.
  destruct (Hin w) as [wk Hw]; [by left|]. rewrite Hw in HQ. eapply wp_bind, wp_get_wkey; [done|].
  destruct (wk_expired wk); cbn [negb andb orb] in HQ; [apply IH; [intros w' ?; apply Hin; by right|done]|].
  assert (exists d, dbs s !! wk_db wk = Some d) as [d Hd].
  { pose proof (wk_listed _ Hok w wk Hw) as Hl. unfold watching in Hl. destruct (dbs s !! wk_db wk) as [d|]; [by exists d|by apply elem_of_nil in Hl]. }
  eapply wp_bind, wp_keyIsExpired; [done|exact Hd|]. destruct (is_expired s (wk_db wk) (wk_key wk)); [by apply wp_ret|].
  apply IH; [intros w' ?; apply Hin; by right|done].
Qed.

Lemma wp_isWatchedKeyExpired W s c x (Q : bool -> redisServer V Cmd -> Prop) : good W s -> clients s !! c = Some x ->
  Q (stale s x) s -> wp (isWatchedKeyExpired c) s Q.
Proof.
  intros Hg Hx HQ. pose proof (t_ok _ _ _ (g_tracked _ _ Hg)) as Hok. eapply wp_bind, wp_get_client; [done|].
  apply wp_watched_expired; [done|apply (g_tracked _ _ Hg)| |done].
  intros w Hw. destruct (watched_wk _ Hok c x w Hx Hw) as (wk & Hwk & _). by eexists.
Qed.

(** What the client saw is what is there. *)
Lemma seen_logical W s c x d k v : good W s -> clients s !! c = Some x -> has (c_flags x) CAS = false -> stale s x = false ->
  W c d k = Some v -> logical s d k = v.
Proof.
  intros Hg Hx Hf Hst HW. destruct (t_seen _ _ _ (g_tracked _ _ Hg) c x d k v Hx Hf HW) as (w & wk & Hin & Hw & <- & <- & Hv).
  unfold logical. destruct (wk_expired wk) eqn:He.
  - destruct (t_flag _ _ _ (g_tracked _ _ Hg) w wk Hw He) as [->|[[] _]]. done.
  - destruct Hv as [[]| ->]. destruct (is_expired s (wk_db wk) (wk_key wk)) eqn:Hex; [|done]. exfalso.
    apply not_true_iff_false in Hst. apply Hst, existsb_exists. exists w. split; [by apply list_elem_of_In|]. by rewrite Hw, He, Hex.
Qed.

(** ** The loop of EXEC *)

Context (call : positive -> ST (redisServer V Cmd) unit) (permitted : positive -> ST (redisServer V Cmd) bool).

(** The commands of the table are made of operations of the keyspace; the test of the
    access control lists only reads. *)
Record calls_ok : Prop := {
  call_steps W c s : good W s -> is_Some (clients s !! c) -> exists s', call c s = Some (tt, s') /\ rtc cstep s s';
  permitted_reads c s : exists b, permitted c s = Some (b, s) }.

(** The commands of [l], from the [j]th of the queue, run one after the other. *)
Inductive ran (c : positive) : nat -> list (multiCmd Cmd) -> redisServer V Cmd -> redisServer V Cmd -> Prop :=
| ran_nil j s : ran c j [] s s
| ran_cons j mc l s x b s1 x1 s' :
    clients s !! c = Some x ->
    let s0 := with_clients <[c := set_cmd mc (c_argv_len_sum x) x]> s in
    permitted c s0 = Some (b, s0) ->
    (if b : bool then call c s0 = Some (tt, s1) else s1 = s0) ->
    clients s1 !! c = Some x1 ->
    ran c (S j) l (with_clients <[c := set_mstate (MState (<[j := c_cmd x1]> (commands (c_mstate x1))) (cmd_flags (c_mstate x1))
      (cmd_inv_flags (c_mstate x1)) (argv_len_sums (c_mstate x1)) (alloc_count (c_mstate x1))) x1]> s1) s' ->
    ran c j (mc :: l) s s'.

Lemma wp_exec_loop (Hc : calls_ok) W c : forall n j s x (Q : unit -> redisServer V Cmd -> Prop), good W s -> clients s !! c = Some x ->
  length (commands (c_mstate x)) = (j + n)%nat ->
  (forall s', good W s' -> s_env s' = s_env s -> is_Some (clients s' !! c) ->
     ran c j (drop j (commands (c_mstate x))) s s' -> Q tt s') ->
  wp (exec_loop call permitted c j n) s Q.
Proof.
  induction n as [|n IH]; intros j s x Q Hg Hx Hlen HQ.
  { apply wp_ret, HQ; [done|done|by eexists|]. rewrite drop_ge by lia. constructor. }
  destruct (lookup_lt_is_Some_2 (commands (c_mstate x)) j) as [mc Hmc]; [lia|].
  rewrite (drop_S _ _ _ Hmc) in HQ. cbn [exec_loop]. eapply wp_bind, wp_get_client; [done|]. rewrite Hmc.
  apply wp_bind, wp_ret. eapply wp_bind, wp_put_client; [done|]. set (s0 := with_clients _ s).
  assert (H0 : csteps W s s0) by (apply csteps_good; [done|]; by apply rtc_once, cs_args).
  assert (Hx0 : clients s0 !! c = Some (set_cmd mc (c_argv_len_sum x) x)) by (cbn; by rewrite lookup_insert_eq).
  destruct (permitted_reads Hc c s0) as [b Hb]. apply wp_bind. exists b, s0. split; [exact Hb|].
  assert (exists s1, (if b : bool then call c else mret tt) s0 = Some (tt, s1) /\ rtc cstep s0 s1 /\
    (if b : bool then call c s0 = Some (tt, s1) else s1 = s0)) as (s1 & Hrun & Hsteps & Hcall).
  { destruct b; [|exists s0; split; [done|split; [constructor|done]]].
    destruct (call_steps Hc W c s0) as (s1 & E & Hs); [apply H0|by eexists|]. by exists s1. }
  apply wp_bind. exists tt, s1. split; [exact Hrun|].
  pose proof (csteps_good W s0 s1 (cs_good _ _ _ H0) Hsteps) as H1.
  pose proof (cs_mstate _ _ _ H1 c) as Hm. rewrite Hx0 in Hm. destruct (clients s1 !! c) as [x1|] eqn:Hx1; [|done].
  injection Hm as Hm. cbn in Hm. eapply wp_bind, wp_get_client; [done|]. cbv zeta. eapply wp_bind, wp_put_client; [done|].
  set (m1 := MState _ _ _ _ _). set (s2 := with_clients _ s1).
  assert (Hg2 : good W s2).
  { eapply good_client; [apply (cs_good _ _ _ H1)|exact Hx1|done| |exact (g_db _ _ (cs_good _ _ _ H1) c x1 Hx1)|by left|by left].
    pose proof (g_queue _ _ (cs_good _ _ _ H1) c x1 Hx1) as [Hq|Hq].
    - exfalso. rewrite Hm in Hq. rewrite Hq in Hlen. cbn in Hlen. lia.
    - right. unfold m1. cbn. by rewrite length_insert. }
  eapply (IH (S j) s2 (set_mstate m1 x1)); [done|cbn; by rewrite lookup_insert_eq|cbn; rewrite length_insert, Hm; lia|].
  intros s' Hg' He' Hs' Hran. apply HQ; [done| |done|].
  - rewrite He'. transitivity (s_env s1); [done|]. rewrite (cs_env _ _ _ H1). done.
  - eapply ran_cons; [exact Hx|exact Hb|exact Hcall|exact Hx1|]. cbn [c_mstate set_mstate commands m1] in Hran.
    rewrite drop_insert_lt in Hran by lia. rewrite Hm in Hran at 1. exact Hran.
Qed.

(** ** EXEC *)

Definition exec_reply s (x : client Cmd) : reply :=
  if negb (has (c_flags x) CLIENT_MULTI) then r_error
  else if has (c_flags x) CLIENT_DIRTY_EXEC then r_execabort
  else if has (c_flags x) CAS || stale s x then r_nil
  else r_array (length (commands (c_mstate x))).

(** The client has left the transaction. *)
Definition left_multi (c : positive) s : Prop := exists x, clients s !! c = Some x /\ c_mstate x = no_state /\ c_watched x = [] /\
  has (c_flags x) (Z.lor CLIENT_MULTI (Z.lor CAS CLIENT_DIRTY_EXEC)) = false.

Lemma has_clear_same f x : has (clear f x) x = false.
Proof.
  unfold has, clear. replace (Z.land (Z.ldiff f x) x) with 0; [done|]. symmetry. apply Z.bits_inj'. intros n _.
  rewrite Z.land_spec, Z.ldiff_spec, Z.bits_0. by destruct (Z.testbit f n), (Z.testbit x n).
Qed.

Lemma forget_forget c (W : seen) c' d k : forget c (forget c W) c' d k = forget c W c' d k.
Proof. unfold forget. by case_decide. Qed.

Lemma wp_discard_left W s c x (Q : unit -> redisServer V Cmd -> Prop) : almost c W s -> clients s !! c = Some x ->
  (forall s', good (forget c W) s' -> same s s' -> left_multi c s' -> Q tt s') -> wp (discardTransaction c) s Q.
Proof.
  intros Hg Hx HQ. eapply wp_discardTransaction; [done|done|]. intros s' x' Hg' Hs' Hx' ->. apply HQ; [done|done|].
  eexists. split; [done|]. split; [done|]. split; [done|]. apply has_clear_same.
Qed.

Lemma almost_flags W s c x f : almost c W s -> clients s !! c = Some x ->
  almost c W (with_clients <[c := set_flags f x]> s).
Proof. intros Hg Hx. eapply almost_client; [done|exact Hx|done|exact (al_queue _ _ _ Hg c x Hx)|exact (al_db _ _ _ Hg c x Hx)]. Qed.

(** What EXEC does: [x] is the client. *)
Definition exec_does (W : seen) (c : positive) (x : client Cmd) s (r : reply) s' : Prop :=
  match r with
  | r_array _ =>
      (forall d k v, W c d k = Some v -> logical s d k = v) /\
      exists s1 s2, same s s1 /\ ran c 0 (commands (c_mstate x)) s1 s2 /\ same s2 s'
  | _ => same s s'
  end.

Lemma wp_exec_run (Hc : calls_ok) W s c x : good W s -> clients s !! c = Some x -> has (c_flags x) CAS = false -> stale s x = false ->
  wp (or_flags c CLIENT_DENY_BLOCKING;;
      unwatchAllKeys c;;
      let count := length (commands (c_mstate x)) in
      exec_loop call permitted c 0 count;;
      (if has (c_flags x) CLIENT_DENY_BLOCKING then mret tt else clear_flags c CLIENT_DENY_BLOCKING);;
      y ← get_client c;
      put_client c (set_cmd (c_cmd x) (c_argv_len_sum y) y);;
      discardTransaction c;;
      mret (r_array count)) s
    (λ r s', r = r_array (length (commands (c_mstate x))) /\ good (forget c W) s' /\ s_env s' = s_env s /\
       exec_does W c x s r s' /\ left_multi c s').
Proof.
  intros Hg Hx Hf Hst. eapply wp_bind, wp_or_flags; [done|]. set (x1 := set_flags _ x). set (s1 := with_clients _ s).
  assert (Hx1 : clients s1 !! c = Some x1) by (cbn; by rewrite lookup_insert_eq).
  assert (Hg1 : good W s1) by (apply good_or_flags; [done|done|]; by apply (lor_cas _ 41)).
  eapply wp_bind, wp_unwatchAll_good; [by apply good_almost|done|]. intros s2 Hg2 Hs2 Hx2 _. cbv zeta.
  eapply wp_bind, (wp_exec_loop Hc _ c); [exact Hg2|exact Hx2|done|]. intros s3 Hg3 He3 [x3 Hx3] Hran.
  assert (He : s_env s3 = s_env s) by (by rewrite He3, (same_env _ _ Hs2)).
  apply wp_bind. eapply wp_mono with (Q := λ _ s4, almost c (forget c W) s4 /\ same s3 s4 /\ is_Some (clients s4 !! c)).
  { destruct (has (c_flags x) CLIENT_DENY_BLOCKING); [apply wp_ret; split; [by apply good_almost|split; [done|by eexists]]|].
    eapply wp_clear_flags; [done|]. split; [apply almost_flags; [by apply good_almost|done]|]. split; [done|].
    cbn. rewrite lookup_insert_eq. by eexists. }
  intros [] s4 (Hg4 & Hs4 & [y Hy]). eapply wp_bind, wp_get_client; [done|]. eapply wp_bind, wp_put_client; [done|].
  set (s5 := with_clients _ s4). apply wp_bind. eapply wp_discard_left with (W := forget c W).
  { eapply almost_client; [exact Hg4|exact Hy|done|exact (al_queue _ _ _ Hg4 c y Hy)|exact (al_db _ _ _ Hg4 c y Hy)]. }
  { cbn. by rewrite lookup_insert_eq. }
  intros s6 Hg6 Hs6 Hl6. assert (Hs36 : same s3 s6) by (eapply same_trans; [exact Hs4|eapply same_trans; [|exact Hs6]; by apply (same_with_clients s4)]).
  apply wp_ret. split; [done|]. split; [eapply good_ext; [apply forget_forget|done]|].
  split; [by rewrite (same_env _ _ Hs36)|]. split; [|done]. split; [intros d k v; by eapply seen_logical|].
  exists s2, s3. split; [eapply same_trans; [|exact Hs2]; by apply (same_with_clients s)|]. done.
Qed.

Lemma execCommand_good (Hc : calls_ok) W s c x : good W s -> clients s !! c = Some x ->
  wp (execCommand call permitted c) s (λ r s', r = exec_reply s x /\
    good (if has (c_flags x) CLIENT_MULTI then forget c W else W) s' /\ s_env s' = s_env s /\ exec_does W c x s r s' /\
    (has (c_flags x) CLIENT_MULTI = true -> left_multi c s')).
Proof.
  intros Hg Hx. eapply wp_bind, wp_get_client; [done|]. unfold exec_reply.
  destruct (has (c_flags x) CLIENT_MULTI) eqn:Hm; cbn [negb]; [|by apply wp_ret].
  eapply wp_bind, wp_isWatchedKeyExpired; [done|done|].
  apply wp_bind. set (x1 := if stale s x then set_flags (Z.lor (c_flags x) CAS) x else x).
  eapply wp_mono with (Q := λ _ s1, good W s1 /\ same s s1 /\ clients s1 !! c = Some x1 /\ (stale s x = false -> s1 = s)).
  { unfold x1. destruct (stale s x); [|by apply wp_ret]. eapply wp_or_flags; [done|]. split.
    - apply good_or_flags; [done|done|]. by apply (lor_cas _ 5).
    - split; [done|]. cbn. by rewrite lookup_insert_eq. }
  intros [] s1 (Hg1 & Hs1 & Hx1 & Hsame). eapply wp_bind, wp_get_client; [exact Hx1|].
  assert (Hcas : has (c_flags x1) CAS = has (c_flags x) CAS || stale s x).
  { unfold x1. destruct (stale s x); cbn; [unfold CLIENT_DIRTY_CAS; rewrite has_or_same by done; by rewrite orb_true_r|by rewrite orb_false_r]. }
  assert (Hexec : has (c_flags x1) CLIENT_DIRTY_EXEC = has (c_flags x) CLIENT_DIRTY_EXEC).
  { unfold x1. destruct (stale s x); [|done]. by apply (has_or_other _ 5 12). }
  rewrite flag_lor, Hcas, Hexec.
  destruct (has (c_flags x) CLIENT_DIRTY_EXEC) eqn:He, (has (c_flags x) CAS || stale s x) eqn:Hd; cbn [orb].
  4: { apply orb_false_iff in Hd as [Hd Hst]. rewrite (Hsame Hst). unfold x1. rewrite Hst.
       eapply wp_mono; [by apply wp_exec_run|]. intros r s' (-> & ? & ? & ? & ?). done. }
  all: apply wp_bind; eapply wp_discard_left; [by apply good_almost|exact Hx1|]; intros s' Hg' Hs' Hl'; apply wp_ret;
    (split; [done|]); (split; [done|]); (split; [by rewrite (same_env _ _ Hs'), (same_env _ _ Hs1)|]); (split; [|done]); by eapply same_trans.
Qed.
End history.
