(* ===== verification/MultiSpec.v ===== *)
(** Transactions as clients see them: EXEC is a check-and-set on a keyspace that the
    commands update as a map. *)

From stdpp Require Import gmap.
From S2P Require Import Prelude State Keyspace Multi MultiInv MultiTrack Db DbOps MultiAll MultiCmd MultiHist.

Local Open Scope Z_scope.

Section reach.
Context {V Cmd : Type}.
Implicit Types s : redisServer V Cmd.
Abbreviation entry := (V * option Z)%type.
Abbreviation seen := (positive -> nat -> bytes -> option (option entry)).

(** ** Time and connections *)

Definition with_env (e : env) s : redisServer V Cmd :=
  Server e (dbs s) (clients s) (wkeys s) (propagated s) (stat_expiredkeys s) (stat_hits s) (stat_misses s) (dirty s).

(** A primary that is not loading a file, and a clock that does not go back. *)
Definition env_step (e e' : env) : Prop := masterhost e' = false /\ loading e' = false /\ clock e <= clock e'.

Lemma expired_later e e' (r : option entry) : loading e = false -> env_step e e' -> expired_at e r = true -> expired_at e' r = true.
Proof.
  intros Hl (_ & Hl' & Hc). unfold expired_at. destruct r as [[v [t|]]|]; [|done..]. rewrite Hl, Hl'.
  destruct (t <? 0); [done|]. rewrite !Z.ltb_lt. lia.
Qed.

Lemma good_env W s e : good W s -> env_step (s_env s) e -> good W (with_env e s).
Proof.
  intros [[A1 A2 A3 A4 A5] H2 H3 H4] He. split; [split|..]; try done.
  - eapply shape_ok; [exact A1|by split].
  - split; apply He.
  - intros w wk Hw Hex. left. destruct (A4 w wk Hw Hex) as [H|[[] _]]. by apply (expired_later (s_env s)); [apply A3|..].
Qed.

Definition new_client (mc : multiCmd Cmd) : client Cmd := Client 0 0 mc 0 no_state [].

Lemma good_connect W s c mc : good W s -> clients s !! c = None -> exists_db s 0 ->
  good (forget c W) (with_clients <[c := new_client mc]> s).
Proof.
  intros [[A1 A2 A3 A4 A5] H2 H3 H4] Hc Hdb. set (s' := with_clients _ s).
  assert (Hlook : forall c' y, clients s' !! c' = Some y -> c' = c /\ y = new_client mc \/ c' <> c /\ clients s !! c' = Some y).
  { intros c' y. cbn. destruct (decide (c' = c)) as [->|Hne].
    - rewrite lookup_insert_eq. intros [= <-]. by left.
    - rewrite lookup_insert_ne by done. by right. }
  assert (Hown : forall w wk, wkeys s !! w = Some wk -> wk_client wk <> c).
  { intros w wk Hw E. destruct (wk_owned _ A1 w wk Hw) as (y & Hy & _). congruence. }
  split; [split|..]; try done.
  - destruct A1 as [B1 B2 B3 B4 B5 B6 B7]. split; try done.
    + intros w wk Hw. destruct (B2 w wk Hw) as (y & Hy & Hin). exists y. split; [|done]. cbn.
      by rewrite lookup_insert_ne by (intros E; by apply (Hown w wk Hw)).
    + intros c' y w [[-> ->]|[_ Hy]]%Hlook; [by intros ?%elem_of_nil|]. by apply (B4 c').
    + intros c' y [[-> ->]|[_ Hy]]%Hlook; [constructor|]. by apply (B6 c').
  - intros c' y d k v [[-> ->]|[Hne Hy]]%Hlook; unfold forget; [by rewrite decide_True|rewrite decide_False by done]. by apply A5.
  - intros w wk Hw. unfold forget. rewrite decide_False by by eapply Hown. by eapply H2.
  - intros c' y [[-> ->]|[_ Hy]]%Hlook; [by left|by eapply H3].
  - intros c' y [[-> ->]|[_ Hy]]%Hlook; [done|by eapply (H4 c')].
Qed.

Definition start (e : env) (n : nat) : redisServer V Cmd := Server e (replicate n (Db ∅ ∅ ∅)) ∅ ∅ [] 0 0 0 0.

Lemma good_start e n : masterhost e = false -> loading e = false -> good (λ _ _ _, None) (start e n).
Proof.
  intros H1 H2.
  assert (Hdb : forall i d, dbs (start e n) !! i = Some d -> d = Db ∅ ∅ ∅) by (intros i d [-> _]%lookup_replicate; done).
  assert (Hw : forall i k, watching (start e n) i k = []).
  { intros i k. unfold watching. destruct (dbs (start e n) !! i) as [d|] eqn:Hd; [|done]. by rewrite (Hdb _ _ Hd). }
  split; [split|..]; try done; [split; try done|].
  - intros i k w. rewrite Hw. by intros ?%elem_of_nil.
  - intros i d k l Hd. by rewrite (Hdb _ _ Hd).
  - intros i d k Hd. rewrite (Hdb _ _ Hd). by intros [? ?].
Qed.

(** ** Histories *)

Context (call : positive -> ST (redisServer V Cmd) unit) (permitted : positive -> ST (redisServer V Cmd) bool).

(** The transaction of a client ends. *)
Definition end_multi (c : positive) s (W : seen) : seen :=
  match clients s !! c with Some x => if has (c_flags x) CLIENT_MULTI then forget c W else W | None => W end.

(** The states of a primary, with what each client saw of the keys when it asked to
    watch them. *)
Inductive reach : seen -> redisServer V Cmd -> Prop :=
| re_start e n : masterhost e = false -> loading e = false -> reach (λ _ _ _, None) (start e n)
| re_env W s e : reach W s -> env_step (s_env s) e -> reach W (with_env e s)
| re_op W s o r s' : reach W s -> op_ok o s -> exec_op o s = Some (r, s') -> reach W s'
| re_connect W s c mc : reach W s -> clients s !! c = None -> exists_db s 0 ->
    reach (forget c W) (with_clients <[c := new_client mc]> s)
| re_free W s c s' : reach W s -> release_client c s = Some (tt, s') -> reach (forget c W) s'
| re_args W s c x mc sum : reach W s -> clients s !! c = Some x -> reach W (with_clients <[c := set_cmd mc sum x]> s)
| re_select W s c x i : reach W s -> clients s !! c = Some x -> exists_db s i ->
    reach W (with_clients <[c := Client (c_flags x) i (c_cmd x) (c_argv_len_sum x) (c_mstate x) (c_watched x)]> s)
| re_watch W s c keys r s' : reach W s -> watchCommand c keys s = Some (r, s') -> reach (watch_spec c keys s W) s'
| re_unwatch W s c r s' : reach W s -> unwatchCommand c s = Some (r, s') -> reach (forget c W) s'
| re_multi W s c r s' : reach W s -> multiCommand c s = Some (r, s') -> reach W s'
| re_discard W s c r s' : reach W s -> discardCommand c s = Some (r, s') -> reach (end_multi c s W) s'
| re_flag W s c s' : reach W s -> flagTransaction c s = Some (tt, s') -> reach W s'
| re_queue W s c x flags s' : reach W s -> clients s !! c = Some x -> Z.of_nat (length (commands (c_mstate x))) < INT_MAX ->
    queueMultiCommand c flags s = Some (tt, s') -> reach W s'
| re_exec W s c r s' : reach W s -> execCommand call permitted c s = Some (r, s') -> reach (end_multi c s W) s'.

Lemma wp_result {A} (m : ST (redisServer V Cmd) A) s Q a s' : wp m s Q -> m s = Some (a, s') -> Q a s'.
Proof. intros (b & s'' & E & HQ) E'. rewrite E in E'. by injection E' as -> ->. Qed.

(** A command that returns had a client. *)
Lemma ran_client {A} c (f : client Cmd -> ST (redisServer V Cmd) A) s r :
  (x ← get_client c; f x) s = Some r -> exists x, clients s !! c = Some x.
Proof.
  destruct (clients s !! c) as [x|] eqn:Hx; [by exists x|]. unfold get_client, mbind, ST_bind. cbn. by rewrite Hx.
Qed.

Lemma unwatchAll_client c s r : unwatchAllKeys c s = Some r -> exists x, clients s !! c = Some x.
Proof. apply ran_client. Qed.

Lemma bind_first {A B} (m : ST (redisServer V Cmd) A) (f : A -> ST (redisServer V Cmd) B) s r :
  (m ≫= f) s = Some r -> exists r', m s = Some r'.
Proof. unfold mbind, ST_bind. destruct (m s); [by eexists|done]. Qed.

Lemma good_reach (Hc : calls_ok call permitted) W s : reach W s -> good W s.
Proof.
  induction 1 as [e n H1 H2|W s e _ IH He|W s o r s' _ IH Hop E|W s c mc _ IH Hn Hdb|W s c s' _ IH E|W s c x mc sum _ IH Hx
    |W s c x i _ IH Hx Hi|W s c keys r s' _ IH E|W s c r s' _ IH E|W s c r s' _ IH E|W s c r s' _ IH E|W s c s' _ IH E
    |W s c x flags s' _ IH Hx Hl E|W s c r s' _ IH E].
  - by apply good_start.
  - by apply good_env.
  - apply (cs_good _ s), csteps_good; [done|]. by eapply rtc_once, cs_op.
  - by apply good_connect.
  - destruct (bind_first _ _ _ _ E) as [r' E1]. destruct (unwatchAll_client _ _ _ E1) as [x Hx].
    by apply (wp_result _ _ _ _ _ (release_good W s c x IH Hx) E).
  - apply (cs_good _ s), csteps_good; [done|]. by apply rtc_once, cs_args.
  - apply (cs_good _ s), csteps_good; [done|]. by apply rtc_once, cs_select.
  - destruct (ran_client _ _ _ _ E) as [x Hx]. by apply (wp_result _ _ _ _ _ (watchCommand_good W s c x keys IH Hx) E).
  - destruct (bind_first _ _ _ _ E) as [r' E1]. destruct (unwatchAll_client _ _ _ E1) as [x Hx].
    by apply (wp_result _ _ _ _ _ (unwatchCommand_good W s c x IH Hx) E).
  - destruct (ran_client _ _ _ _ E) as [x Hx]. by apply (wp_result _ _ _ _ _ (multiCommand_good W s c x IH Hx) E).
  - destruct (ran_client _ _ _ _ E) as [x Hx]. unfold end_multi. rewrite Hx.
    by apply (wp_result _ _ _ _ _ (discardCommand_good W s c x IH Hx) E).
  - destruct (ran_client _ _ _ _ E) as [x Hx]. by apply (wp_result _ _ _ _ _ (flagTransaction_good W s c x IH Hx) E).
  - by apply (wp_result _ _ _ _ _ (queue_good W s c x flags IH Hx Hl) E).
  - destruct (ran_client _ _ _ _ E) as [x Hx]. unfold end_multi. rewrite Hx.
    by apply (wp_result _ _ _ _ _ (execCommand_good call permitted Hc W s c x IH Hx) E).
Qed.
End reach.
