(* ===== verification/MultiProps.v ===== *)
(** The properties of transactions and of the keyspace, with concrete histories. *)

From stdpp Require Import gmap.
From S2P Require Import Prelude State Keyspace Multi MultiInv MultiTrack Db DbOps MultiAll MultiCmd MultiHist MultiSpec.

Local Open Scope Z_scope.

Section props.
Context {V Cmd : Type}.
Implicit Types s : redisServer V Cmd.
Abbreviation entry := (V * option Z)%type.
Abbreviation seen := (positive -> nat -> bytes -> option (option entry)).
Context (call : positive -> ST (redisServer V Cmd) unit) (permitted : positive -> ST (redisServer V Cmd) bool).

(** The histories [reach] of the next two theorems are those of a primary that is not loading a file, whose
    clock does not go back; commands that write run while clients are not paused, as [processCommand]
    sees to ([op_ok]); and no SWAPDB puts a live key in the place of one that had expired when a client asked to watch it
    ([no_revival]): such a SWAPDB loses watches, see [swapdb_loses_watch].  On a replica the commands of the master see
    expired keys: see [replica_loses_watch]. *)

(** C1: In every history of a primary without a SWAPDB that revives a watched expired key ([reach], [no_revival]),
    EXEC returns and is a check-and-set.  Its reply is
    determined by the flags and the watches of the client; it runs the queued commands, all
    of them, in order and once, only if every key that the client watches has the value and
    the expire time that the client saw when it asked to watch it (or still is missing);
    otherwise it changes nothing of the keyspace.  After it the client is out of the
    transaction and watches nothing. *)
Theorem exec_is_compare_and_set (Hc : calls_ok call permitted) W s c x : reach call permitted W s -> clients s !! c = Some x ->
  exists r s', execCommand call permitted c s = Some (r, s') /\ r = exec_reply s x /\ exec_does call permitted W c x s r s' /\
    (has (c_flags x) CLIENT_MULTI = true -> left_multi c s').
Proof.
  intros Hr Hx. destruct (execCommand_good call permitted Hc W s c x (good_reach _ _ Hc W s Hr) Hx) as (r & s' & E & H1 & _ & _ & H2 & H3).
  by exists r, s'.
Qed.

(** C6: The commands of the keyspace refine a map from databases and keys to values with
    expire times: in every state of the histories [reach] of a primary, while clients are not paused (for the
    commands that write) and SWAPDB does not revive a watched expired key ([op_ok]), each of them returns, its reply is the one of
    the map operation, and the map that commands see afterwards is its result, less the
    entries whose time is over.  Whether expired keys are still in memory is invisible. *)
Theorem keyspace_refines_map (Hc : calls_ok call permitted) W s o : reach call permitted W s -> op_ok o s ->
  exists r s', exec_op o s = Some (r, s') /\
    let '(r0, L) := spec_op (mstime (s_env s)) (length (dbs s)) o (logical s) in
    r = r0 /\ forall d k, logical s' d k = view (s_env s) (L d k).
Proof.
  intros Hr Hop. destruct (op_refines W s o (g_tracked _ _ (good_reach _ _ Hc W s Hr)) Hop) as (r & s' & E & H1 & H2).
  exists r, s'. split; [done|]. destruct (spec_op _ _ o (logical s)) as [r0 L]. split; [done|]. apply H2.
Qed.

(** After a SET that writes a key, EXEC of every client that watches the key fails and
    changes nothing, even if the key has its former value again by then. *)
Theorem set_dooms_watchers (Hc : calls_ok call permitted) W s db flags key val expire c x w wk s' :
  reach call permitted W s -> exists_db s db -> writable s ->
  clients s !! c = Some x -> w ∈ c_watched x -> wkeys s !! w = Some wk -> wk_db wk = db -> wk_key wk = key ->
  setGenericCommand db flags key val expire s = Some (r_ok, s') ->
  exists r s'', execCommand call permitted c s' = Some (r, s'') /\ r ∈ [r_nil; r_execabort; r_error] /\ same s' s''.
Proof.
  intros Hr Hdb Hwr Hx Hin Hw Ed Ek E. pose proof (good_reach _ _ Hc W s Hr) as Hg.
  destruct (wp_result _ _ _ _ _ (set_refines W s db flags key val expire (g_tracked _ _ Hg) Hdb Hwr) E) as (_ & [H1 H2 _] & H3).
  destruct (lonely_marks s s' db key c x w wk (t_ok _ _ _ H1) H2 (H3 eq_refl) Hx Hin Hw Ed Ek) as (x' & Hx' & Hf).
  assert (Hg' : good W s') by (eapply good_kept; [done|done|by apply kept_kept_all]).
  destruct (execCommand_good call permitted Hc W s' c x' Hg' Hx') as (r & s'' & E' & Hrep & _ & _ & Hdoes & _).
  exists r, s''. split; [done|]. unfold exec_reply in Hrep. rewrite Hf in Hrep. cbn [orb] in Hrep.
  destruct (has (c_flags x') CLIENT_MULTI), (has (c_flags x') CLIENT_DIRTY_EXEC); cbn [negb] in Hrep; subst r;
    (split; [rewrite !elem_of_cons; tauto|exact Hdoes]).
Qed.
End props.

(** ** A history *)

Module History.
(** The commands of the table: SET with a key and a value. *)
Definition call (c : positive) : ST (redisServer bytes unit) unit :=
  x ← get_client c;
  e ← asks s_env;
  match mc_argv (c_cmd x) with
  | [key; val] => if paused e then mret tt else _ ← setGenericCommand (c_db x) 0 key val None; mret tt
  | _ => mret tt
  end.
Definition permitted (_ : positive) : ST (redisServer bytes unit) bool := mret true.

Lemma ok : calls_ok call permitted.
Proof.
  split; [|by intros c s; exists true].
  intros W c s Hg [x Hx]. unfold call, get_client, asks, mbind, ST_bind, get, found. cbn. rewrite Hx. cbn.
  destruct (mc_argv (c_cmd x)) as [|key [|val [|? ?]]]; try (exists s; split; [done|constructor]).
  destruct (paused (s_env s)) eqn:Hp; [exists s; split; [done|constructor]|].
  destruct (set_refines W s (c_db x) 0 key val None (g_tracked _ _ Hg) (g_db _ _ Hg c x Hx) Hp) as (r & s' & E & _).
  exists s'. rewrite E. split; [done|]. apply rtc_once. apply (cs_op _ (o_set (c_db x) 0 key val None) r); [|done].
  split; [exact (g_db _ _ Hg c x Hx)|done].
Qed.

Definition env_at (t : Z) : env := Env false true false false false false None None t.
Definition run {A} (m : ST (redisServer bytes unit) A) s := match m s with Some (_, s') => s' | None => s end.

(** Client 1 watches the key of bytes [107], which holds 1 until the time 50, and queues a
    SET. *)
Definition no_cmd : multiCmd unit := MCmd [] 0 tt.
Definition key : bytes := [107].
Definition s1 : redisServer bytes unit := with_clients <[1%positive := new_client no_cmd]> (start (env_at 10) 2).
Definition s2 := run (setGenericCommand 0 0 key [1] (Some 50)) s1.
Definition s3 := run (watchCommand 1 [key]) s2.
Definition s4 := run (multiCommand 1) s3.
Definition s5 := match clients s4 !! 1%positive with
                 | Some x => with_clients <[1%positive := set_cmd (MCmd [[97]; [2]] 2 tt) 2 x]> s4 | None => s4 end.
Definition s6 := run (queueMultiCommand 1 0) s5.

Definition W3 := watch_spec 1 [key] s2 (forget 1 (λ _ _ _, None)).

Lemma reach2 : reach call permitted (forget 1 (λ _ _ _, None)) s2.
Proof.
  apply (re_op _ _ _ s1 (o_set 0 0 key [1] (Some 50)) r_ok); [|split; [by eexists|done]|by vm_compute].
  apply re_connect; [by apply re_start|done|by eexists].
Qed.
Lemma reach3 : reach call permitted W3 s3.
Proof. apply (re_watch _ _ _ s2 1 [key] r_ok); [apply reach2|by vm_compute]. Qed.
Lemma reach6 : reach call permitted W3 s6.
Proof.
  assert (H5 : exists x, clients s4 !! 1%positive = Some x /\ s5 = with_clients <[1%positive := set_cmd (MCmd [[97]; [2]] 2 tt) 2 x]> s4).
  { eexists. split; [vm_compute; reflexivity|vm_compute; reflexivity]. }
  destruct H5 as (x & Hx & E5).
  assert (Hr5 : reach call permitted W3 s5).
  { rewrite E5. apply re_args; [|done]. apply (re_multi _ _ _ s3 1 r_ok); [apply reach3|by vm_compute]. }
  eapply (re_queue _ _ _ s5 1 (set_cmd (MCmd [[97]; [2]] 2 tt) 2 x) 0); [exact Hr5|by rewrite E5; cbn; rewrite lookup_insert_eq| |by vm_compute].
  vm_compute in Hx. injection Hx as <-. by vm_compute.
Qed.
End History.

Lemma exec_is_compare_and_set_witness : exists x,
  clients History.s6 !! 1%positive = Some x /\ exec_reply History.s6 x = r_array 1 /\
  exists r s', execCommand History.call History.permitted 1 History.s6 = Some (r, s') /\ r = exec_reply History.s6 x /\
    exec_does History.call History.permitted History.W3 1 x History.s6 r s' /\
    (has (c_flags x) CLIENT_MULTI = true -> left_multi 1 s').
Proof.
  eexists. split; [vm_compute; reflexivity|]. split; [vm_compute; reflexivity|].
  apply (exec_is_compare_and_set _ _ History.ok _ _ _ _ History.reach6). vm_compute; reflexivity.
Defined.

Lemma keyspace_refines_map_witness : exists r s', exec_op (o_rename 0 History.key [97] false) History.s2 = Some (r, s') /\
  let '(r0, L) := spec_op (mstime (s_env History.s2)) (length (dbs History.s2)) (o_rename 0 History.key [97] false) (logical History.s2) in
  r = r0 /\ forall d k, logical s' d k = view (s_env History.s2) (L d k).
Proof. apply (keyspace_refines_map _ _ History.ok _ _ _ History.reach2). split; [by eexists|done]. Defined.

Lemma set_dooms_watchers_witness :
  setGenericCommand 0 0 History.key [1] (Some 50) History.s6 = Some (r_ok, History.run (setGenericCommand 0 0 History.key [1] (Some 50)) History.s6) /\
  exists r s'', execCommand History.call History.permitted 1 (History.run (setGenericCommand 0 0 History.key [1] (Some 50)) History.s6) = Some (r, s'') /\
    r ∈ [r_nil; r_execabort; r_error] /\ same (History.run (setGenericCommand 0 0 History.key [1] (Some 50)) History.s6) s''.
Proof.
  split; [by vm_compute|].
  eapply (set_dooms_watchers _ _ History.ok _ _ 0 0 History.key [1] (Some 50) 1 _ _ _ _ History.reach6); [by eexists|done| | | | | |by vm_compute].
  - vm_compute; reflexivity.
  - by left.
  - vm_compute; reflexivity.
  - reflexivity.
  - reflexivity.
Defined.

(** ** Watches that are lost *)

(** C36: A SWAPDB can make EXEC run although a watched key has changed.  In a state of a
    primary client 1 watches a key that is expired but still in memory; SWAPDB puts a live
    key in its place; client 2 watches this key and opens a transaction; another client
    overwrites the key.  [touchWatchedKey] stops at the watch of client 1, which still has
    its [expired] field, and EXEC of client 2 does not fail. *)
Theorem swapdb_loses_watch : exists W s s1 s2 s3 s4 s5 v,
  reach History.call History.permitted W s /\
  swapdbCommand 0 1 s = Some (r_ok, s1) /\
  watchCommand 2 [History.key] s1 = Some (r_ok, s2) /\ logical s2 0 History.key = Some v /\
  multiCommand 2 s2 = Some (r_ok, s3) /\
  setGenericCommand 0 0 History.key [7] None s3 = Some (r_ok, s4) /\ logical s4 0 History.key <> Some v /\
  execCommand History.call History.permitted 2 s4 = Some (r_array 0, s5).
Proof.
  set (h1 := with_clients <[2%positive := new_client History.no_cmd]> History.s2).
  set (h2 := History.run (setGenericCommand 1 0 History.key [2] None) h1).
  set (h3 := with_env (History.env_at 60) h2).
  set (h4 := History.run (watchCommand 1 [History.key]) h3).
  eexists. exists h4. do 6 eexists.
  split.
  - eapply (re_watch _ _ _ h3 1 [History.key] r_ok); [|by vm_compute]. apply re_env; [|by vm_compute].
    eapply (re_op _ _ _ h1 (o_set 1 0 History.key [2] None) r_ok); [|split; [by eexists|done]|by vm_compute].
    apply re_connect; [apply History.reach2|by vm_compute|by eexists].
  - split; [vm_compute; reflexivity|]. split; [vm_compute; reflexivity|]. split; [vm_compute; reflexivity|].
    split; [vm_compute; reflexivity|]. split; [vm_compute; reflexivity|]. split; [by vm_compute|]. vm_compute; reflexivity.
Qed.

(** On a replica EXEC can run although a watched key has changed.  A client watches a
    key that is expired but still in memory, as replicas leave it to their master, and saw
    no value; the master sets the key; EXEC of the client runs the transaction. *)
Theorem replica_loses_watch : exists (s s1 s2 s3 s4 : redisServer bytes unit) v,
  masterhost (s_env s) = true /\ current_is_master (s_env s) = false /\ logical s 0 History.key = None /\
  watchCommand 1 [History.key] s = Some (r_ok, s1) /\ multiCommand 1 s1 = Some (r_ok, s2) /\
  let master := Env true true true false false false None None 60 in
  setGenericCommand 0 0 History.key [7] None (with_env master s2) = Some (r_ok, s3) /\
  let s3' := with_env (s_env s) s3 in
  logical s3' 0 History.key = Some v /\
  execCommand History.call History.permitted 1 s3' = Some (r_array 0, s4).
Proof.
  exists (with_env (Env true true false false false false None None 60) History.s2). do 5 eexists.
  split; [done|]. split; [done|]. split; [by vm_compute|]. split; [vm_compute; reflexivity|]. split; [vm_compute; reflexivity|].
  cbv zeta. split; [vm_compute; reflexivity|]. split; [vm_compute; reflexivity|]. vm_compute; reflexivity.
Qed.
