(* ===== verification/Cluster.v ===== *)
(** The cluster: [cluster.c].  What an instance knows of the nodes and of the hash slots,
    how slots change hands, failure reports, and the votes that elect a replica in the
    place of its failed master.

    Nodes are named by positive numbers, in the order of their names.  The bitmap
    [unsigned char slots[CLUSTER_SLOTS/8]] is the number whose bit [8 i + j] is bit [j] of
    its byte [i].  A failed assertion and a NULL node make the program fail.  Links,
    handshakes, addresses, what [clusterDoBeforeSleep] schedules and the files are not
    modelled: the messages of an instance are collected in [outbox], and the network may
    lose them. *)

From stdpp Require Import gmap.
From S2P Require Import Prelude State.

Local Open Scope Z_scope.

Definition CLUSTER_SLOTS : Z := 16384.
Definition CLUSTER_FAIL_REPORT_VALIDITY_MULT : Z := 2.
Definition CLUSTER_FAIL_UNDO_TIME_MULT : Z := 2.
Definition CLUSTER_MF_TIMEOUT : Z := 5000.
Definition CLUSTER_MAX_REJOIN_DELAY : Z := 5000.
Definition CLUSTER_MIN_REJOIN_DELAY : Z := 500.
Definition CLUSTER_WRITABLE_DELAY : Z := 2000.

Definition CLUSTER_NODE_MASTER : Z := 1.
Definition CLUSTER_NODE_SLAVE : Z := 2.
Definition CLUSTER_NODE_PFAIL : Z := 4.
Definition CLUSTER_NODE_FAIL : Z := 8.
Definition CLUSTER_NODE_MYSELF : Z := 16.
Definition CLUSTER_NODE_HANDSHAKE : Z := 32.
Definition CLUSTER_NODE_MIGRATE_TO : Z := 256.
Definition CLUSTER_NODE_NOFAILOVER : Z := 512.

(** ** The state *)

Abbreviation id := positive.

(** [slaves] holds the names of its [numslaves] elements; a report is the reporting node
    and the time. *)
Record clusterNode := Node {
  flags : Z;
  configEpoch : Z;
  n_slots : Z;
  numslots : Z;
  slaves : list id;
  slaveof : option id;
  ping_sent : Z;
  pong_received : Z;
  fail_time : Z;
  voted_time : Z;
  repl_offset : Z;
  fail_reports : list (id * Z) }.

(** The election of this replica. *)
Record election := Election {
  failover_auth_time : Z;
  failover_auth_count : Z;
  failover_auth_sent : bool;
  failover_auth_rank : Z;
  failover_auth_epoch : Z }.

Record manual := Manual {
  mf_end : Z;
  mf_slave : option id;
  mf_master_offset : Z;
  mf_can_start : bool }.

(** What a message is about: the gossip section of a ping is the flags and the time of the
    last pong, in seconds, of some nodes. *)
Inductive msgdata :=
| PING (pong : bool) (gossip : list (id * Z * Z))
| FAIL (about : id)
| FAILOVER_AUTH_REQUEST
| FAILOVER_AUTH_ACK
| UPDATE (about : id) (epoch : Z) (slots : Z)
| MFSTART.

Record clusterMsg := Msg {
  m_data : msgdata;
  m_sender : id;
  m_myslots : Z;
  m_slaveof : option id;
  m_flags : Z;
  m_currentEpoch : Z;
  m_configEpoch : Z;
  m_offset : Z;
  m_paused : bool;
  m_forceack : bool }.

(** [state_ok] is [state == CLUSTER_OK]; [first_call_time] and [among_minority_time] are
    the static variables of [clusterUpdateState].  A message without receiver goes to
    every node. *)
Record clusterState := CState {
  myself : id;
  currentEpoch : Z;
  lastVoteEpoch : Z;
  state_ok : bool;
  size : Z;
  nodes : gmap id clusterNode;
  importing_slots_from : gmap Z id;
  slots : gmap Z id;
  elec : election;
  mf : manual;
  first_call_time : Z;
  among_minority_time : Z;
  outbox : list (option id * clusterMsg) }.

(** What the functions read of the rest of the server; [ping_gossip] is the gossip section
    of the pings that are sent, a random choice of nodes. *)
Record cenv := CEnv {
  now : Z;
  cached_mstime : Z;
  node_timeout : Z;
  validity_factor : Z;
  no_failover : bool;
  ping_slave_period : Z;
  data_age : Z;
  random : Z;
  slave_offset : Z;
  master_repl_offset : Z;
  require_full_coverage : bool;
  allow_replica_migration : bool;
  no_redirection : bool;
  ping_gossip : list (id * Z * Z) }.

Abbreviation M := (ST clusterState).

(** ** Access *)

Definition has (x m : Z) : bool := negb (Z.land x m =? 0).

Definition nodeIsMaster (n : clusterNode) : bool := has (flags n) CLUSTER_NODE_MASTER.
Definition nodeIsSlave (n : clusterNode) : bool := has (flags n) CLUSTER_NODE_SLAVE.
Definition nodeInHandshake (n : clusterNode) : bool := has (flags n) CLUSTER_NODE_HANDSHAKE.
Definition nodeTimedOut (n : clusterNode) : bool := has (flags n) CLUSTER_NODE_PFAIL.
Definition nodeFailed (n : clusterNode) : bool := has (flags n) CLUSTER_NODE_FAIL.
Definition nodeCantFailover (n : clusterNode) : bool := has (flags n) CLUSTER_NODE_NOFAILOVER.

Definition set_flags (f : Z) (n : clusterNode) : clusterNode :=
  Node f (configEpoch n) (n_slots n) (numslots n) (slaves n) (slaveof n) (ping_sent n) (pong_received n) (fail_time n)
    (voted_time n) (repl_offset n) (fail_reports n).
Definition set_configEpoch (x : Z) (n : clusterNode) : clusterNode :=
  Node (flags n) x (n_slots n) (numslots n) (slaves n) (slaveof n) (ping_sent n) (pong_received n) (fail_time n)
    (voted_time n) (repl_offset n) (fail_reports n).
Definition set_slots (m k : Z) (n : clusterNode) : clusterNode :=
  Node (flags n) (configEpoch n) m k (slaves n) (slaveof n) (ping_sent n) (pong_received n) (fail_time n)
    (voted_time n) (repl_offset n) (fail_reports n).
Definition set_slaves (l : list id) (n : clusterNode) : clusterNode :=
  Node (flags n) (configEpoch n) (n_slots n) (numslots n) l (slaveof n) (ping_sent n) (pong_received n) (fail_time n)
    (voted_time n) (repl_offset n) (fail_reports n).
Definition set_slaveof (x : option id) (n : clusterNode) : clusterNode :=
  Node (flags n) (configEpoch n) (n_slots n) (numslots n) (slaves n) x (ping_sent n) (pong_received n) (fail_time n)
    (voted_time n) (repl_offset n) (fail_reports n).
Definition set_pings (s r : Z) (n : clusterNode) : clusterNode :=
  Node (flags n) (configEpoch n) (n_slots n) (numslots n) (slaves n) (slaveof n) s r (fail_time n)
    (voted_time n) (repl_offset n) (fail_reports n).
Definition set_fail_time (t : Z) (n : clusterNode) : clusterNode :=
  Node (flags n) (configEpoch n) (n_slots n) (numslots n) (slaves n) (slaveof n) (ping_sent n) (pong_received n) t
    (voted_time n) (repl_offset n) (fail_reports n).
Definition set_voted_time (t : Z) (n : clusterNode) : clusterNode :=
  Node (flags n) (configEpoch n) (n_slots n) (numslots n) (slaves n) (slaveof n) (ping_sent n) (pong_received n) (fail_time n)
    t (repl_offset n) (fail_reports n).
Definition set_repl_offset (x : Z) (n : clusterNode) : clusterNode :=
  Node (flags n) (configEpoch n) (n_slots n) (numslots n) (slaves n) (slaveof n) (ping_sent n) (pong_received n) (fail_time n)
    (voted_time n) x (fail_reports n).
Definition set_fail_reports (l : list (id * Z)) (n : clusterNode) : clusterNode :=
  Node (flags n) (configEpoch n) (n_slots n) (numslots n) (slaves n) (slaveof n) (ping_sent n) (pong_received n) (fail_time n)
    (voted_time n) (repl_offset n) l.

Definition with_currentEpoch (x : Z) (s : clusterState) : clusterState :=
  CState (myself s) x (lastVoteEpoch s) (state_ok s) (size s) (nodes s) (importing_slots_from s) (slots s) (elec s) (mf s)
    (first_call_time s) (among_minority_time s) (outbox s).
Definition with_lastVoteEpoch (x : Z) (s : clusterState) : clusterState :=
  CState (myself s) (currentEpoch s) x (state_ok s) (size s) (nodes s) (importing_slots_from s) (slots s) (elec s) (mf s)
    (first_call_time s) (among_minority_time s) (outbox s).
Definition with_state (ok : bool) (first minority : Z) (s : clusterState) : clusterState :=
  CState (myself s) (currentEpoch s) (lastVoteEpoch s) ok (size s) (nodes s) (importing_slots_from s) (slots s) (elec s) (mf s)
    first minority (outbox s).
Definition with_size (k : Z) (s : clusterState) : clusterState :=
  CState (myself s) (currentEpoch s) (lastVoteEpoch s) (state_ok s) k (nodes s) (importing_slots_from s) (slots s) (elec s) (mf s)
    (first_call_time s) (among_minority_time s) (outbox s).
Definition with_nodes (f : gmap id clusterNode -> gmap id clusterNode) (s : clusterState) : clusterState :=
  CState (myself s) (currentEpoch s) (lastVoteEpoch s) (state_ok s) (size s) (f (nodes s)) (importing_slots_from s) (slots s)
    (elec s) (mf s) (first_call_time s) (among_minority_time s) (outbox s).
Definition with_importing (f : gmap Z id -> gmap Z id) (s : clusterState) : clusterState :=
  CState (myself s) (currentEpoch s) (lastVoteEpoch s) (state_ok s) (size s) (nodes s) (f (importing_slots_from s)) (slots s)
    (elec s) (mf s) (first_call_time s) (among_minority_time s) (outbox s).
Definition with_slots (f : gmap Z id -> gmap Z id) (s : clusterState) : clusterState :=
  CState (myself s) (currentEpoch s) (lastVoteEpoch s) (state_ok s) (size s) (nodes s) (importing_slots_from s) (f (slots s))
    (elec s) (mf s) (first_call_time s) (among_minority_time s) (outbox s).
Definition with_elec (x : election) (s : clusterState) : clusterState :=
  CState (myself s) (currentEpoch s) (lastVoteEpoch s) (state_ok s) (size s) (nodes s) (importing_slots_from s) (slots s) x (mf s)
    (first_call_time s) (among_minority_time s) (outbox s).
Definition with_mf (x : manual) (s : clusterState) : clusterState :=
  CState (myself s) (currentEpoch s) (lastVoteEpoch s) (state_ok s) (size s) (nodes s) (importing_slots_from s) (slots s) (elec s) x
    (first_call_time s) (among_minority_time s) (outbox s).
Definition with_outbox (f : list (option id * clusterMsg) -> list (option id * clusterMsg)) (s : clusterState) : clusterState :=
  CState (myself s) (currentEpoch s) (lastVoteEpoch s) (state_ok s) (size s) (nodes s) (importing_slots_from s) (slots s) (elec s) (mf s)
    (first_call_time s) (among_minority_time s) (f (outbox s)).

Definition asks {A} (f : clusterState -> A) : M A := s ← get; mret (f s).
Definition update (f : clusterState -> clusterState) : M unit := s ← get; put (f s).
Definition get_node (n : id) : M clusterNode := s ← get; match nodes s !! n with Some x => mret x | None => fail end.
Definition set_node (n : id) (f : clusterNode -> clusterNode) : M unit := x ← get_node n; update (with_nodes <[n := f x]>).
Definition get_myself : M clusterNode := me ← asks myself; get_node me.
Definition send (to : option id) (m : clusterMsg) : M unit := update (with_outbox (λ l, l ++ [(to, m)])).

(** The slots from [j] on, [n] of them. *)
Fixpoint slots_from (n : nat) (j : Z) : list Z := match n with O => [] | S n' => j :: slots_from n' (j + 1) end.
Definition all_slots : list Z := slots_from (Z.to_nat CLUSTER_SLOTS) 0.

(** ** Bitmaps and slots *)

Definition bitmapTestBit (bitmap pos : Z) : bool := Z.testbit bitmap pos.
Definition bitmapSetBit (bitmap pos : Z) : Z := Z.lor bitmap (Z.shiftl 1 pos).
Definition bitmapClearBit (bitmap pos : Z) : Z := Z.ldiff bitmap (Z.shiftl 1 pos).

Definition clusterMastersHaveSlaves : M bool :=
  ns ← asks nodes;
  mret (negb (map_fold (λ _ n k, if nodeIsSlave n then k else (k + length (slaves n))%nat) 0%nat ns =? 0)%nat).

Definition clusterNodeSetSlotBit (n : id) (slot : Z) : M bool :=
  x ← get_node n;
  let old := bitmapTestBit (n_slots x) slot in
  set_node n (set_slots (bitmapSetBit (n_slots x) slot) (if old then numslots x else numslots x + 1));;
  (if old then mret tt
   else
     x ← get_node n;
     b ← (if numslots x =? 1 then clusterMastersHaveSlaves else mret false);
     if b : bool then set_node n (set_flags (Z.lor (flags x) CLUSTER_NODE_MIGRATE_TO)) else mret tt);;
  mret old.

Definition clusterNodeClearSlotBit (n : id) (slot : Z) : M bool :=
  x ← get_node n;
  let old := bitmapTestBit (n_slots x) slot in
  set_node n (set_slots (bitmapClearBit (n_slots x) slot) (if old then numslots x - 1 else numslots x));;
  mret old.

Definition clusterNodeGetSlotBit (n : id) (slot : Z) : M bool := x ← get_node n; mret (bitmapTestBit (n_slots x) slot).

Definition clusterAddSlot (n : id) (slot : Z) : M bool :=
  t ← asks slots;
  match t !! slot with
  | Some _ => mret false
  | None => _ ← clusterNodeSetSlotBit n slot; update (with_slots <[slot := n]>);; mret true
  end.

(** [clusterGetNodesServingMySlots] asserts that a replica has a master; the channels that
    are removed for the nodes it returns are not modelled. *)
Definition clusterDelSlot (slot : Z) : M bool :=
  t ← asks slots;
  match t !! slot with
  | None => mret false
  | Some n =>
      x ← get_node n;
      (if nodeIsMaster x then mret tt else match slaveof x with Some p => _ ← get_node p; mret tt | None => fail end);;
      old ← clusterNodeClearSlotBit n slot;
      if negb old then fail else update (with_slots (delete slot));; mret true
  end.

Fixpoint del_slots (n : id) (js : list Z) (deleted : Z) : M Z :=
  match js with
  | [] => mret deleted
  | j :: js' =>
      b ← clusterNodeGetSlotBit n j;
      if b : bool then _ ← clusterDelSlot j; del_slots n js' (deleted + 1) else del_slots n js' deleted
  end.

Definition clusterDelNodeSlots (n : id) : M Z := del_slots n all_slots 0.

Definition clusterCloseAllSlots : M unit := update (with_importing (λ _, ∅)).

(** ** Masters and replicas *)

Fixpoint remove_first (x : id) (l : list id) : option (list id) :=
  match l with
  | [] => None
  | y :: l' => if bool_decide (y = x) then Some l' else l'' ← remove_first x l'; Some (y :: l'')
  end.

Definition clear (x m : Z) : Z := Z.ldiff x m.

Definition clusterNodeRemoveSlave (master slave : id) : M bool :=
  x ← get_node master;
  match remove_first slave (slaves x) with
  | None => mret false
  | Some l =>
      set_node master (λ x, set_flags (match l with [] => clear (flags x) CLUSTER_NODE_MIGRATE_TO | _ => flags x end) (set_slaves l x));;
      mret true
  end.

Definition clusterNodeAddSlave (master slave : id) : M bool :=
  x ← get_node master;
  if bool_decide (slave ∈ slaves x) then mret false
  else set_node master (λ x, set_flags (Z.lor (flags x) CLUSTER_NODE_MIGRATE_TO) (set_slaves (slaves x ++ [slave]) x));; mret true.

Definition clusterSetNodeAsMaster (n : id) : M unit :=
  x ← get_node n;
  if nodeIsMaster x then mret tt
  else
    me ← asks myself;
    match slaveof x with
    | Some m =>
        _ ← clusterNodeRemoveSlave m n;
        if bool_decide (n = me) then mret tt else set_node n (λ x, set_flags (Z.lor (flags x) CLUSTER_NODE_MIGRATE_TO) x)
    | None => mret tt
    end;;
    set_node n (λ x, set_slaveof None (set_flags (Z.lor (clear (flags x) CLUSTER_NODE_SLAVE) CLUSTER_NODE_MASTER) x)).

(** Unpausing the clients is not modelled. *)
Definition resetManualFailover : M unit := update (with_mf (Manual 0 None (-1) false)).

(** Replication itself is not modelled. *)
Definition clusterSetMaster (n : id) : M unit :=
  me ← asks myself;
  x ← get_node me;
  if bool_decide (n = me) || negb (numslots x =? 0) then fail
  else
    (if nodeIsMaster x then
       set_node me (λ x, set_flags (Z.lor (clear (flags x) (Z.lor CLUSTER_NODE_MASTER CLUSTER_NODE_MIGRATE_TO)) CLUSTER_NODE_SLAVE) x);;
       clusterCloseAllSlots
     else match slaveof x with Some m => _ ← clusterNodeRemoveSlave m me; mret tt | None => mret tt end);;
    set_node me (set_slaveof (Some n));;
    _ ← clusterNodeAddSlave n me;
    resetManualFailover.
