(* ===== verification/ClusterBus.v ===== *)
(** The cluster bus: epochs, failure reports, the messages, the votes, and what an instance
    does with a message ([clusterProcessPacket] of [cluster.c]). *)

From stdpp Require Import gmap.
From S2P Require Import Prelude State Cluster.

Local Open Scope Z_scope.

Section bus.
Context (e : cenv).

(** ** The state of the cluster *)

(** Masters that serve slots, and how many of them are reachable. *)
Definition count_masters (ns : gmap id clusterNode) : Z * Z :=
  map_fold (λ _ n '(size, reachable),
    if nodeIsMaster n && negb (numslots n =? 0)
    then (size + 1, if has (flags n) (Z.lor CLUSTER_NODE_FAIL CLUSTER_NODE_PFAIL) then reachable else reachable + 1)
    else (size, reachable)) (0, 0) ns.

Definition slot_covered (ns : gmap id clusterNode) (t : gmap Z id) (j : Z) : bool :=
  match t !! j with
  | None => false
  | Some n => match ns !! n with Some x => negb (has (flags x) CLUSTER_NODE_FAIL) | None => false end
  end.

Definition clusterUpdateState : M unit :=
  s ← get;
  me ← get_myself;
  let first := if first_call_time s =? 0 then now e else first_call_time s in
  let minority := among_minority_time s in
  if nodeIsMaster me && negb (state_ok s) && (now e - first <? CLUSTER_WRITABLE_DELAY)
  then update (with_state (state_ok s) first minority)
  else
    let covered := negb (require_full_coverage e) || forallb (slot_covered (nodes s) (slots s)) all_slots in
    let '(size, reachable) := count_masters (nodes s) in
    update (with_size size);;
    let in_minority := reachable <? size / 2 + 1 in
    let ok := covered && negb in_minority in
    let minority := if in_minority then now e else minority in
    let rejoin_delay := node_timeout e in
    let rejoin_delay := if CLUSTER_MAX_REJOIN_DELAY <? rejoin_delay then CLUSTER_MAX_REJOIN_DELAY else rejoin_delay in
    let rejoin_delay := if rejoin_delay <? CLUSTER_MIN_REJOIN_DELAY then CLUSTER_MIN_REJOIN_DELAY else rejoin_delay in
    if eqb ok (state_ok s) || (ok && nodeIsMaster me && (now e - minority <? rejoin_delay))
    then update (with_state (state_ok s) first minority)
    else update (with_state ok first minority).

(** ** Epochs *)

Definition clusterGetMaxEpoch : M Z :=
  s ← get;
  let m := map_fold (λ _ n m, if m <? configEpoch n then configEpoch n else m) 0 (nodes s) in
  mret (if m <? currentEpoch s then currentEpoch s else m).

(** [server.cluster->currentEpoch++; myself->configEpoch = server.cluster->currentEpoch] *)
Definition next_epoch : M unit :=
  s ← get;
  let c := u64 (currentEpoch s + 1) in
  update (with_currentEpoch c);;
  set_node (myself s) (set_configEpoch c).

Definition clusterBumpConfigEpochWithoutConsensus : M bool :=
  me ← get_myself;
  maxEpoch ← clusterGetMaxEpoch;
  if (configEpoch me =? 0) || negb (configEpoch me =? maxEpoch) then next_epoch;; mret true
  else mret false.

(** The names of nodes are compared as strings of the same length. *)
Definition clusterHandleConfigEpochCollision (sender : id) : M unit :=
  x ← get_node sender;
  me ← asks myself;
  y ← get_myself;
  if negb (configEpoch x =? configEpoch y) || negb (nodeIsMaster x) || negb (nodeIsMaster y) then mret tt
  else if (sender <=? me)%positive then mret tt
  else next_epoch.

(** ** Messages *)

Definition clusterBuildMessageHdr (type : msgdata) : M clusterMsg :=
  s ← get;
  me ← get_myself;
  master ← match slaveof me with
           | Some m => if nodeIsSlave me then get_node m else mret me
           | None => mret me
           end;
  mret (Msg type (myself s) (n_slots master) (slaveof me) (flags me) (currentEpoch s) (configEpoch master)
          (if nodeIsSlave me then slave_offset e else master_repl_offset e)
          (nodeIsMaster me && negb (mf_end (mf s) =? 0)) false).

Definition clusterSendFail (n : id) : M unit := m ← clusterBuildMessageHdr (FAIL n); send None m.

Definition clusterSendUpdate (to n : id) : M unit :=
  x ← get_node n;
  m ← clusterBuildMessageHdr (UPDATE n (configEpoch x) (n_slots x));
  send (Some to) m.

Definition set_forceack (m : clusterMsg) : clusterMsg :=
  Msg (m_data m) (m_sender m) (m_myslots m) (m_slaveof m) (m_flags m) (m_currentEpoch m) (m_configEpoch m) (m_offset m) (m_paused m) true.

Definition clusterRequestFailoverAuth : M unit :=
  s ← get;
  m ← clusterBuildMessageHdr FAILOVER_AUTH_REQUEST;
  send None (if mf_end (mf s) =? 0 then m else set_forceack m).

Definition clusterSendFailoverAuth (to : id) : M unit :=
  m ← clusterBuildMessageHdr FAILOVER_AUTH_ACK; send (Some to) m.

(** ** Failure reports *)

Fixpoint refresh_report (sender : id) (l : list (id * Z)) : option (list (id * Z)) :=
  match l with
  | [] => None
  | (n, t) :: l' =>
      if bool_decide (n = sender) then Some ((n, now e) :: l')
      else l'' ← refresh_report sender l'; Some ((n, t) :: l'')
  end.

Definition clusterNodeAddFailureReport (failing sender : id) : M bool :=
  x ← get_node failing;
  match refresh_report sender (fail_reports x) with
  | Some l => set_node failing (set_fail_reports l);; mret false
  | None => set_node failing (set_fail_reports (fail_reports x ++ [(sender, now e)]));; mret true
  end.

Definition fresh_report (r : id * Z) : bool := negb (node_timeout e * CLUSTER_FAIL_REPORT_VALIDITY_MULT <? now e - r.2).

Definition clusterNodeCleanupFailureReports (n : id) : M unit :=
  set_node n (λ x, set_fail_reports (filter fresh_report (fail_reports x)) x).

Fixpoint drop_report (sender : id) (l : list (id * Z)) : option (list (id * Z)) :=
  match l with
  | [] => None
  | r :: l' => if bool_decide (r.1 = sender) then Some l' else l'' ← drop_report sender l'; Some (r :: l'')
  end.

Definition clusterNodeDelFailureReport (n sender : id) : M bool :=
  x ← get_node n;
  match drop_report sender (fail_reports x) with
  | None => mret false
  | Some l => set_node n (set_fail_reports l);; clusterNodeCleanupFailureReports n;; mret true
  end.

Definition clusterNodeFailureReportsCount (n : id) : M Z :=
  clusterNodeCleanupFailureReports n;; x ← get_node n; mret (Z.of_nat (length (fail_reports x))).

Definition markNodeAsFailingIfNeeded (n : id) : M unit :=
  s ← get;
  let needed_quorum := size s / 2 + 1 in
  x ← get_node n;
  if negb (nodeTimedOut x) then mret tt
  else if nodeFailed x then mret tt
  else
    failures ← clusterNodeFailureReportsCount n;
    me ← get_myself;
    let failures := if nodeIsMaster me then failures + 1 else failures in
    if failures <? needed_quorum then mret tt
    else
      set_node n (λ x, set_fail_time (now e) (set_flags (Z.lor (clear (flags x) CLUSTER_NODE_PFAIL) CLUSTER_NODE_FAIL) x));;
      clusterSendFail n.

Definition clearNodeFailureIfNeeded (n : id) : M unit :=
  x ← get_node n;
  if negb (nodeFailed x) then fail
  else
    (if nodeIsSlave x || (numslots x =? 0) then set_node n (λ x, set_flags (clear (flags x) CLUSTER_NODE_FAIL) x) else mret tt);;
    x ← get_node n;
    if nodeIsMaster x && (0 <? numslots x) && (node_timeout e * CLUSTER_FAIL_UNDO_TIME_MULT <? now e - fail_time x)
    then set_node n (λ x, set_flags (clear (flags x) CLUSTER_NODE_FAIL) x) else mret tt.

(** ** Slots that change hands *)

(** The loop over the slots; the result tells whether a slot of [curmaster] went to the
    sender ([newmaster] is set), how many did, and how many slots the sender claims.
    Deleting the keys of slots that are lost is not modelled. *)
Fixpoint claim_slots (sender : id) (epoch bitmap : Z) (curmaster : option id) (js : list Z) (r : bool * Z * Z) : M (bool * Z * Z) :=
  match js with
  | [] => mret r
  | j :: js' =>
      if negb (bitmapTestBit bitmap j) then claim_slots sender epoch bitmap curmaster js' r
      else
        let '(newmaster, migrated, claimed) := r in
        let r := (newmaster, migrated, claimed + 1) in
        s ← get;
        let owner := slots s !! j in
        if bool_decide (owner = Some sender) || bool_decide (is_Some (importing_slots_from s !! j))
        then claim_slots sender epoch bitmap curmaster js' r
        else
          free ← match owner with None => mret true | Some n => x ← get_node n; mret (configEpoch x <? epoch) end;
          if negb free then claim_slots sender epoch bitmap curmaster js' r
          else
            let r := if bool_decide (owner = curmaster) then (true, migrated + 1, claimed + 1) else r in
            _ ← clusterDelSlot j;
            _ ← clusterAddSlot sender j;
            claim_slots sender epoch bitmap curmaster js' r
  end.

Definition clusterUpdateSlotsConfigWith (sender : id) (senderConfigEpoch bitmap : Z) : M unit :=
  me ← asks myself;
  x ← get_node me;
  let curmaster := if nodeIsMaster x then Some me else slaveof x in
  if bool_decide (sender = me) then mret tt
  else
    r ← claim_slots sender senderConfigEpoch bitmap curmaster all_slots (false, 0, 0);
    let '(newmaster, migrated, claimed) := r in
    if no_redirection e then mret tt
    else
      empty ← (if newmaster : bool then
                 match curmaster with None => fail | Some c => y ← get_node c; mret (numslots y =? 0) end
               else mret false);
      if empty && (allow_replica_migration e || (claimed =? migrated)) then clusterSetMaster sender
      else
        x ← get_node me;
        match slaveof x with
        | None => mret tt
        | Some m =>
            y ← get_node m;
            match slaveof y with
            | Some g => if bool_decide (g = me) then mret tt else clusterSetMaster g
            | None => mret tt
            end
        end.

(** ** Voting *)

(** The check of the slots that a replica claims. *)
Fixpoint slots_allow (epoch bitmap : Z) (js : list Z) : M bool :=
  match js with
  | [] => mret true
  | j :: js' =>
      if negb (bitmapTestBit bitmap j) then slots_allow epoch bitmap js'
      else
        t ← asks slots;
        match t !! j with
        | None => slots_allow epoch bitmap js'
        | Some n => x ← get_node n; if configEpoch x <=? epoch then slots_allow epoch bitmap js' else mret false
        end
  end.

Definition clusterSendFailoverAuthIfNeeded (node : id) (request : clusterMsg) : M unit :=
  s ← get;
  me ← get_myself;
  n ← get_node node;
  if nodeIsSlave me || (numslots me =? 0) then mret tt
  else if m_currentEpoch request <? currentEpoch s then mret tt
  else if lastVoteEpoch s =? currentEpoch s then mret tt
  else
    match slaveof n with
    | None => mret tt
    | Some master =>
        x ← get_node master;
        if nodeIsMaster n || (negb (nodeFailed x) && negb (m_forceack request)) then mret tt
        else if now e - voted_time x <? node_timeout e * 2 then mret tt
        else
          ok ← slots_allow (m_configEpoch request) (m_myslots request) all_slots;
          if negb ok then mret tt
          else
            update (with_lastVoteEpoch (currentEpoch s));;
            set_node master (set_voted_time (now e));;
            clusterSendFailoverAuth node
    end.

(** A vote is received. *)
Definition auth_ack (sender : id) (senderCurrentEpoch : Z) : M unit :=
  s ← get;
  x ← get_node sender;
  let el := elec s in
  if nodeIsMaster x && (0 <? numslots x) && (failover_auth_epoch el <=? senderCurrentEpoch)
  then update (with_elec (Election (failover_auth_time el) (failover_auth_count el + 1) (failover_auth_sent el)
                            (failover_auth_rank el) (failover_auth_epoch el)))
  else mret tt.
End bus.
