(* ===== verification/ClusterFail.v ===== *)
(** Failing over, and the messages: what a replica does when its master fails, and
    [clusterProcessPacket] of [cluster.c]. *)

From stdpp Require Import gmap.
From S2P Require Import Prelude State Cluster ClusterBus.

Local Open Scope Z_scope.

Section failover.
Context (e : cenv).

Definition clusterSendPing (to : option id) (pong : bool) : M unit :=
  m ← clusterBuildMessageHdr e (PING pong (ping_gossip e)); send to m.

(** A replica of this node, or of its master. *)
Definition local_slave (s : clusterState) (me : clusterNode) (n : clusterNode) : bool :=
  nodeIsSlave n && match slaveof n with
                   | Some m => bool_decide (m = myself s) || bool_decide (slaveof me = Some m)
                   | None => false
                   end.

Fixpoint pong_each (l : list id) : M unit :=
  match l with [] => mret tt | n :: l' => clusterSendPing (Some n) true;; pong_each l' end.

(** [CLUSTER_BROADCAST_LOCAL_SLAVES] if [local], [CLUSTER_BROADCAST_ALL] otherwise. *)
Definition clusterBroadcastPong (local : bool) : M unit :=
  s ← get;
  me ← get_myself;
  pong_each (omap (λ '(n, x), if bool_decide (n = myself s) || nodeInHandshake x || (local && negb (local_slave s me x)) then None else Some n)
               (map_to_list (nodes s))).

(** ** The failover of a replica *)

Fixpoint better_slaves (me : id) (myoffset : Z) (l : list id) (rank : Z) : M Z :=
  match l with
  | [] => mret rank
  | n :: l' =>
      x ← get_node n;
      better_slaves me myoffset l'
        (if negb (bool_decide (n = me)) && negb (nodeCantFailover x) && (myoffset <? repl_offset x) then rank + 1 else rank)
  end.

Definition clusterGetSlaveRank : M Z :=
  me ← asks myself;
  x ← get_node me;
  if negb (nodeIsSlave x) then fail
  else match slaveof x with
       | None => mret 0
       | Some m => y ← get_node m; better_slaves me (slave_offset e) (slaves y) 0
       end.

(** The loop over the slots of the old master. *)
Fixpoint take_slots (oldmaster me : id) (js : list Z) : M unit :=
  match js with
  | [] => mret tt
  | j :: js' =>
      b ← clusterNodeGetSlotBit oldmaster j;
      (if b : bool then _ ← clusterDelSlot j; _ ← clusterAddSlot me j; mret tt else mret tt);;
      take_slots oldmaster me js'
  end.

Definition clusterFailoverReplaceYourMaster : M unit :=
  me ← asks myself;
  x ← get_node me;
  match slaveof x with
  | None => mret tt
  | Some oldmaster =>
      if nodeIsMaster x then mret tt
      else
        clusterSetNodeAsMaster me;;
        take_slots oldmaster me all_slots;;
        clusterUpdateState e;;
        clusterBroadcastPong false;;
        resetManualFailover
  end.

Definition set_elec (f : election -> election) : M unit := s ← get; put (with_elec (f (elec s)) s).

(** The result tells whether the election was won. *)
Definition clusterHandleSlaveFailover : M bool :=
  s ← get;
  let el := elec s in
  let auth_age := now e - failover_auth_time el in
  let needed_quorum := size s / 2 + 1 in
  let manual_failover := negb (mf_end (mf s) =? 0) && mf_can_start (mf s) in
  let auth_timeout := Z.max (node_timeout e * 2) 2000 in
  let auth_retry_time := auth_timeout * 2 in
  me ← get_myself;
  go ← (if nodeIsMaster me then mret false
        else match slaveof me with
             | None => mret false
             | Some m =>
                 x ← get_node m;
                 mret (negb ((negb (nodeFailed x) && negb manual_failover) || (no_failover e && negb manual_failover) ||
                             (numslots x =? 0)))
             end);
  if negb go then mret false
  else
    let age := if node_timeout e <? data_age e then data_age e - node_timeout e else data_age e in
    if negb (validity_factor e =? 0) && (ping_slave_period e * 1000 + node_timeout e * validity_factor e <? age) && negb manual_failover
    then mret false
    else if auth_retry_time <? auth_age then
      rank ← clusterGetSlaveRank;
      set_elec (λ _, Election (now e + 500 + Z.rem (random e) 500 + rank * 1000) 0 false rank (failover_auth_epoch el));;
      (if mf_end (mf s) =? 0 then mret tt
       else set_elec (λ _, Election (now e) 0 false 0 (failover_auth_epoch el)));;
      clusterBroadcastPong true;;
      mret false
    else
      (if negb (failover_auth_sent el) && (mf_end (mf s) =? 0) then
         newrank ← clusterGetSlaveRank;
         if failover_auth_rank el <? newrank then
           set_elec (λ _, Election (failover_auth_time el + (newrank - failover_auth_rank el) * 1000) (failover_auth_count el)
                            (failover_auth_sent el) newrank (failover_auth_epoch el))
         else mret tt
       else mret tt);;
      el ← asks elec;
      if now e <? failover_auth_time el then mret false
      else if auth_timeout <? auth_age then mret false
      else if negb (failover_auth_sent el) then
        let c := u64 (currentEpoch s + 1) in
        update (with_currentEpoch c);;
        set_elec (λ el, Election (failover_auth_time el) (failover_auth_count el) (failover_auth_sent el) (failover_auth_rank el) c);;
        clusterRequestFailoverAuth e;;
        set_elec (λ el, Election (failover_auth_time el) (failover_auth_count el) true (failover_auth_rank el) (failover_auth_epoch el));;
        mret false
      else if needed_quorum <=? failover_auth_count el then
        (if configEpoch me <? failover_auth_epoch el then set_node (myself s) (set_configEpoch (failover_auth_epoch el)) else mret tt);;
        clusterFailoverReplaceYourMaster;;
        mret true
      else mret false.

(** ** Manual failovers *)

Definition manualFailoverCheckTimeout : M unit :=
  s ← get;
  if negb (mf_end (mf s) =? 0) && (mf_end (mf s) <? now e) then resetManualFailover else mret tt.

Definition clusterHandleManualFailover : M unit :=
  s ← get;
  let m := mf s in
  if (mf_end m =? 0) || mf_can_start m || (mf_master_offset m =? -1) then mret tt
  else if mf_master_offset m =? slave_offset e then update (with_mf (Manual (mf_end m) (mf_slave m) (mf_master_offset m) true))
  else mret tt.

(** ** Messages *)

(** The reports and pongs of the gossip section, for the nodes that are known. *)
Fixpoint gossip_section (sender : id) (l : list (id * Z * Z)) : M unit :=
  match l with
  | [] => mret tt
  | (n, fl, pong) :: l' =>
      s ← get;
      match nodes s !! n with
      | None => mret tt
      | Some _ =>
          x ← get_node sender;
          let failing := has fl (Z.lor CLUSTER_NODE_FAIL CLUSTER_NODE_PFAIL) in
          (if nodeIsMaster x && negb (bool_decide (n = myself s)) then
             if failing then _ ← clusterNodeAddFailureReport e n sender; markNodeAsFailingIfNeeded e n
             else _ ← clusterNodeDelFailureReport e n sender; mret tt
           else mret tt);;
          y ← get_node n;
          if negb failing && (ping_sent y =? 0) then
            k ← clusterNodeFailureReportsCount e n;
            y ← get_node n;
            let pongtime := pong * 1000 in
            if (k =? 0) && (pongtime <=? cached_mstime e + 500) && (pong_received y <? pongtime)
            then set_node n (set_pings (ping_sent y) pongtime) else mret tt
          else mret tt
      end;;
      gossip_section sender l'
  end.

(** The role that the sender announces. *)
Definition role_switch (sender : id) (m : clusterMsg) : M unit :=
  match m_slaveof m with
  | None => clusterSetNodeAsMaster sender
  | Some master =>
      x ← get_node sender;
      (if nodeIsMaster x then
         _ ← clusterDelNodeSlots sender;
         set_node sender (λ x, set_flags (Z.lor (clear (flags x) (Z.lor CLUSTER_NODE_MASTER CLUSTER_NODE_MIGRATE_TO)) CLUSTER_NODE_SLAVE) x)
       else mret tt);;
      s ← get;
      x ← get_node sender;
      match nodes s !! master with
      | None => mret tt
      | Some _ =>
          if bool_decide (slaveof x = Some master) then mret tt
          else
            (match slaveof x with Some old => _ ← clusterNodeRemoveSlave old sender; mret tt | None => mret tt end);;
            _ ← clusterNodeAddSlave master sender;
            set_node sender (set_slaveof (Some master))
      end
  end.

(** The owner of the first claimed slot whose owner has a greater epoch. *)
Fixpoint newer_owner (sender : id) (epoch bitmap : Z) (js : list Z) : M (option id) :=
  match js with
  | [] => mret None
  | j :: js' =>
      if negb (bitmapTestBit bitmap j) then newer_owner sender epoch bitmap js'
      else
        t ← asks slots;
        match t !! j with
        | None => newer_owner sender epoch bitmap js'
        | Some n =>
            if bool_decide (n = sender) then newer_owner sender epoch bitmap js'
            else x ← get_node n; if epoch <? configEpoch x then mret (Some n) else newer_owner sender epoch bitmap js'
        end
  end.

(** The pong of a node that was reached: [link->node]. *)
Definition reached (n : id) : M unit :=
  set_node n (set_pings 0 (now e));;
  x ← get_node n;
  if nodeTimedOut x then set_node n (λ x, set_flags (clear (flags x) CLUSTER_NODE_PFAIL) x)
  else if nodeFailed x then clearNodeFailureIfNeeded e n else mret tt.

(** [direct]: a pong on the connection that this instance made. *)
Definition process_ping (sender : id) (m : clusterMsg) (gossip : list (id * Z * Z)) (direct : bool) : M unit :=
  set_node sender (λ x, set_flags (Z.lor (clear (flags x) CLUSTER_NODE_NOFAILOVER) (Z.land (m_flags m) CLUSTER_NODE_NOFAILOVER)) x);;
  (if direct : bool then reached sender else mret tt);;
  role_switch sender m;;
  x ← get_node sender;
  dirty ← match (if nodeIsMaster x then Some sender else slaveof x) with
          | Some o => y ← get_node o; mret (negb (n_slots y =? m_myslots m))
          | None => mret false
          end;
  (if nodeIsMaster x && dirty then clusterUpdateSlotsConfigWith e sender (m_configEpoch m) (m_myslots m) else mret tt);;
  (if dirty : bool then
     o ← newer_owner sender (m_configEpoch m) (m_myslots m) all_slots;
     match o with Some n => clusterSendUpdate e sender n | None => mret tt end
   else mret tt);;
  me ← get_myself;
  x ← get_node sender;
  (if nodeIsMaster me && nodeIsMaster x && (m_configEpoch m =? configEpoch me) then clusterHandleConfigEpochCollision sender else mret tt);;
  gossip_section sender gossip.

(** What every message tells. *)
Definition process_header (m : clusterMsg) : M unit :=
  s ← get;
  let sender := m_sender m in
  x ← get_node sender;
  (if currentEpoch s <? m_currentEpoch m then update (with_currentEpoch (m_currentEpoch m)) else mret tt);;
  (if configEpoch x <? m_configEpoch m then set_node sender (set_configEpoch (m_configEpoch m)) else mret tt);;
  set_node sender (set_repl_offset (m_offset m));;
  me ← get_myself;
  if negb (mf_end (mf s) =? 0) && nodeIsSlave me && bool_decide (slaveof me = Some sender) && m_paused m && (mf_master_offset (mf s) =? -1)
  then update (with_mf (Manual (mf_end (mf s)) (mf_slave (mf s)) (m_offset m) (mf_can_start (mf s)))) else mret tt.

(** A message from a node that is known and not in a handshake.  [inbound]: the node made
    the connection. *)
Definition clusterProcessPacket (inbound : bool) (m : clusterMsg) : M unit :=
  process_header m;;
  let sender := m_sender m in
  match m_data m with
  | PING pong gossip =>
      (if pong then mret tt else clusterSendPing (Some sender) true);;
      process_ping sender m gossip (pong && negb inbound)
  | FAIL about =>
      s ← get;
      match nodes s !! about with
      | None => mret tt
      | Some x =>
          if has (flags x) (Z.lor CLUSTER_NODE_FAIL CLUSTER_NODE_MYSELF) then mret tt
          else set_node about (λ x, set_fail_time (now e) (set_flags (clear (Z.lor (flags x) CLUSTER_NODE_FAIL) CLUSTER_NODE_PFAIL) x))
      end
  | FAILOVER_AUTH_REQUEST => clusterSendFailoverAuthIfNeeded e sender m
  | FAILOVER_AUTH_ACK => auth_ack sender (m_currentEpoch m)
  | MFSTART =>
      me ← asks myself;
      x ← get_node sender;
      if negb (bool_decide (slaveof x = Some me)) then mret tt
      else
        resetManualFailover;;
        update (with_mf (Manual (now e + CLUSTER_MF_TIMEOUT) (Some sender) (-1) false));;
        clusterSendPing (Some sender) false
  | UPDATE about epoch bitmap =>
      s ← get;
      match nodes s !! about with
      | None => mret tt
      | Some x =>
          if epoch <=? configEpoch x then mret tt
          else
            (if nodeIsSlave x then clusterSetNodeAsMaster about else mret tt);;
            set_node about (set_configEpoch epoch);;
            clusterUpdateSlotsConfigWith e about epoch bitmap
      end
  end.
End failover.
