(* ===== verification/ClusterFrame.v ===== *)
(** What the functions of the cluster leave alone: everything but the failover functions
    keeps the election of this replica and its last vote, and sends no votes and no
    requests for votes. *)

From stdpp Require Import gmap.
From S2P Require Import Prelude State Cluster ClusterBus ClusterFail.

Local Open Scope Z_scope.

(** ** Frames *)

(** Whenever [m] returns, it changed the state within [R]. *)
Definition frames {S A} (R : S -> S -> Prop) (m : ST S A) : Prop := forall s a s', m s = Some (a, s') -> R s s'.

Section frames.
Context {S : Type} (R : S -> S -> Prop) `{!PreOrder R}.

Lemma frames_ret {A} (a : A) : frames R (mret a).
Proof. intros s a' s' [= _ <-]. reflexivity. Qed.
Lemma frames_fail {A} : frames R (fail : ST S A).
Proof. done. Qed.
Lemma frames_get : frames R get.
Proof. intros s a s' [= _ <-]. reflexivity. Qed.
Lemma frames_bind {A B} (m : ST S A) (f : A -> ST S B) : frames R m -> (forall a, frames R (f a)) -> frames R (m ≫= f).
Proof.
  intros Hm Hf s b s' E. unfold mbind, ST_bind in E. destruct (m s) as [[a s1]|] eqn:E1; [|done].
  transitivity s1; [by eapply Hm|by eapply Hf].
Qed.
Lemma frames_get_put (f : S -> S) : (forall s, R s (f s)) -> frames R (s ← get; put (f s)).
Proof. intros H s a s' [= _ <-]. apply H. Qed.
End frames.

(** Messages of an election. *)
Definition is_request (m : clusterMsg) : bool := match m_data m with FAILOVER_AUTH_REQUEST => true | _ => false end.
Definition is_ack (m : clusterMsg) : bool := match m_data m with FAILOVER_AUTH_ACK => true | _ => false end.

Definition sends (P : option id * clusterMsg -> Prop) (s s' : clusterState) : Prop :=
  exists l, outbox s' = outbox s ++ l /\ Forall P l.

Definition plain (x : option id * clusterMsg) : Prop := is_request x.2 = false /\ is_ack x.2 = false.

Record quiet (s s' : clusterState) : Prop := {
  q_myself : myself s' = myself s;
  q_vote : lastVoteEpoch s' = lastVoteEpoch s;
  q_elec : elec s' = elec s;
  q_sends : sends plain s s' }.

#[export] Instance quiet_preorder : PreOrder quiet.
Proof.
  split.
  - intros s. split; [done..|]. exists []. by rewrite app_nil_r.
  - intros s1 s2 s3 [A1 A2 A3 (l1 & A4 & A5)] [B1 B2 B3 (l2 & B4 & B5)]. split; [congruence..|].
    exists (l1 ++ l2). split; [by rewrite B4, A4, (assoc app)|by apply Forall_app].
Qed.

Lemma quiet_refl_out s s' : myself s' = myself s -> lastVoteEpoch s' = lastVoteEpoch s -> elec s' = elec s -> outbox s' = outbox s -> quiet s s'.
Proof. intros. split; [done..|]. exists []. by rewrite app_nil_r. Qed.

Create HintDb frames.
#[export] Hint Resolve frames_ret frames_fail frames_get : frames.

(** Decomposes a program into its primitives. *)
Ltac frames_step :=
  match goal with
  | |- frames _ (_ ≫= _) => apply frames_bind; [try apply _| |intros ?]
  | |- frames _ (mret _) => apply frames_ret; apply _
  | |- frames _ fail => apply frames_fail
  | |- frames _ get => apply frames_get; apply _
  | |- frames _ (match ?x with _ => _ end) => destruct x
  | |- frames _ (let _ := _ in _) => cbv zeta
  | |- frames _ _ => solve [eauto 2 with frames]
  end.
Ltac frames_tac := repeat frames_step.

(** Solves [R s s'] when the run [E] goes from [s] to [s']. *)
Ltac by_frames E :=
  match goal with
  | |- ?R _ _ => match type of E with ?m _ = _ => let H := fresh in assert (H : frames R m) by frames_tac; exact (H _ _ _ E) end
  end.

Section quiet.
Context (e : cenv).

Lemma quiet_update f : (forall s, quiet s (f s)) -> frames quiet (update f).
Proof. apply frames_get_put. Qed.
Lemma quiet_asks {A} (f : clusterState -> A) : frames quiet (asks f).
Proof. intros s a s' [= _ <-]. reflexivity. Qed.
Lemma quiet_get_node n : frames quiet (get_node n).
Proof. unfold get_node. frames_tac. Qed.
Hint Resolve quiet_asks quiet_get_node : frames.
Lemma quiet_get_myself : frames quiet get_myself.
Proof. unfold get_myself. frames_tac. Qed.
Hint Resolve quiet_get_myself : frames.

Hint Extern 1 (frames quiet (update _)) => apply quiet_update; intros; apply quiet_refl_out; reflexivity : frames.

Lemma quiet_set_node n f : frames quiet (set_node n f).
Proof. unfold set_node. frames_tac. Qed.
Hint Resolve quiet_set_node : frames.

Lemma quiet_send to m : plain (to, m) -> frames quiet (send to m).
Proof.
  intros Hm. apply quiet_update. intros s. split; [done..|]. exists [(to, m)]. split; [done|]. by constructor.
Qed.

Lemma quiet_setbit n j : frames quiet (clusterNodeSetSlotBit n j).
Proof. unfold clusterNodeSetSlotBit, clusterMastersHaveSlaves. frames_tac. Qed.
Lemma quiet_clearbit n j : frames quiet (clusterNodeClearSlotBit n j).
Proof. unfold clusterNodeClearSlotBit. frames_tac. Qed.
Lemma quiet_getbit n j : frames quiet (clusterNodeGetSlotBit n j).
Proof. unfold clusterNodeGetSlotBit. frames_tac. Qed.
Hint Resolve quiet_setbit quiet_clearbit quiet_getbit : frames.
Lemma quiet_addslot n j : frames quiet (clusterAddSlot n j).
Proof. unfold clusterAddSlot. frames_tac. Qed.
Lemma quiet_delslot j : frames quiet (clusterDelSlot j).
Proof. unfold clusterDelSlot. frames_tac. Qed.
Hint Resolve quiet_addslot quiet_delslot : frames.
Lemma quiet_delslots n : forall js k, frames quiet (del_slots n js k).
Proof. induction js; intros k; cbn [del_slots]; frames_tac. Qed.
Lemma quiet_delnodeslots n : frames quiet (clusterDelNodeSlots n).
Proof. apply quiet_delslots. Qed.
Lemma quiet_closeall : frames quiet clusterCloseAllSlots.
Proof. unfold clusterCloseAllSlots. frames_tac. Qed.
Lemma quiet_removeslave m n : frames quiet (clusterNodeRemoveSlave m n).
Proof. unfold clusterNodeRemoveSlave. frames_tac. Qed.
Lemma quiet_addslave m n : frames quiet (clusterNodeAddSlave m n).
Proof. unfold clusterNodeAddSlave. frames_tac. Qed.
Hint Resolve quiet_delnodeslots quiet_closeall quiet_removeslave quiet_addslave : frames.
Lemma quiet_setmaster n : frames quiet (clusterSetNodeAsMaster n).
Proof. unfold clusterSetNodeAsMaster. frames_tac. Qed.
Lemma quiet_reset : frames quiet resetManualFailover.
Proof. unfold resetManualFailover. frames_tac. Qed.
Hint Resolve quiet_setmaster quiet_reset : frames.
Lemma quiet_SetMaster n : frames quiet (clusterSetMaster n).
Proof. unfold clusterSetMaster. frames_tac. Qed.
Lemma quiet_updatestate : frames quiet (clusterUpdateState e).
Proof. unfold clusterUpdateState. frames_tac. Qed.
Hint Resolve quiet_SetMaster quiet_updatestate : frames.

Lemma quiet_next_epoch : frames quiet next_epoch.
Proof. unfold next_epoch. frames_tac. Qed.
Hint Resolve quiet_next_epoch : frames.
Lemma quiet_collision n : frames quiet (clusterHandleConfigEpochCollision n).
Proof. unfold clusterHandleConfigEpochCollision. frames_tac. Qed.

(** The header of a message. *)
Lemma build_hdr_inv type s m s' : clusterBuildMessageHdr e type s = Some (m, s') ->
  s' = s /\ m_data m = type /\ m_sender m = myself s /\ m_currentEpoch m = currentEpoch s.
Proof.
  unfold clusterBuildMessageHdr, get_myself, get_node, asks, mbind, ST_bind. cbn.
  destruct (nodes s !! myself s) as [me|]; [|done]. cbn. destruct (slaveof me) as [p|]; [destruct (nodeIsSlave me)|].
  - destruct (nodes s !! p); [|done]. cbn. by intros [= <- <-].
  - by intros [= <- <-].
  - by intros [= <- <-].
Qed.

Lemma quiet_message type to : plain (to, Msg type 1 0 None 0 0 0 0 false false) -> frames quiet (m ← clusterBuildMessageHdr e type; send to m).
Proof.
  intros Hp s a s' E. unfold mbind, ST_bind in E. destruct (clusterBuildMessageHdr e type s) as [[m s1]|] eqn:E1; [|done].
  apply build_hdr_inv in E1 as (-> & Hd & _). apply (quiet_send to m) in E; [done|]. unfold plain, is_request, is_ack in *. cbn in *. by rewrite Hd.
Qed.

Lemma quiet_sendfail n : frames quiet (clusterSendFail e n).
Proof. by apply quiet_message. Qed.
Lemma quiet_sendupdate to n : frames quiet (clusterSendUpdate e to n).
Proof. unfold clusterSendUpdate. apply frames_bind; [apply _|auto with frames|]. intros x. by apply quiet_message. Qed.
Lemma quiet_ping to b : frames quiet (clusterSendPing e to b).
Proof. by apply quiet_message. Qed.
Hint Resolve quiet_collision quiet_sendfail quiet_sendupdate quiet_ping : frames.

Lemma quiet_addreport n m : frames quiet (clusterNodeAddFailureReport e n m).
Proof. unfold clusterNodeAddFailureReport. frames_tac. Qed.
Lemma quiet_cleanup n : frames quiet (clusterNodeCleanupFailureReports e n).
Proof. unfold clusterNodeCleanupFailureReports. frames_tac. Qed.
Hint Resolve quiet_addreport quiet_cleanup : frames.
Lemma quiet_delreport n m : frames quiet (clusterNodeDelFailureReport e n m).
Proof. unfold clusterNodeDelFailureReport. frames_tac. Qed.
Lemma quiet_countreports n : frames quiet (clusterNodeFailureReportsCount e n).
Proof. unfold clusterNodeFailureReportsCount. frames_tac. Qed.
Hint Resolve quiet_delreport quiet_countreports : frames.
Lemma quiet_markfailing n : frames quiet (markNodeAsFailingIfNeeded e n).
Proof. unfold markNodeAsFailingIfNeeded. frames_tac. Qed.
Lemma quiet_clearfailure n : frames quiet (clearNodeFailureIfNeeded e n).
Proof. unfold clearNodeFailureIfNeeded. frames_tac. Qed.
Hint Resolve quiet_markfailing quiet_clearfailure : frames.

Lemma quiet_claim n ep b c : forall js r, frames quiet (claim_slots n ep b c js r).
Proof.
  induction js as [|j js IH]; intros r; cbn [claim_slots]; [frames_tac|].
  destruct r as [[r1 r2] r3]. frames_tac.
Qed.
Hint Resolve quiet_claim : frames.
Lemma quiet_updateslots n ep b : frames quiet (clusterUpdateSlotsConfigWith e n ep b).
Proof. unfold clusterUpdateSlotsConfigWith. frames_tac. Qed.
Lemma quiet_slots_allow ep b : forall js, frames quiet (slots_allow ep b js).
Proof. induction js; cbn [slots_allow]; frames_tac. Qed.
Hint Resolve quiet_updateslots quiet_slots_allow : frames.

Lemma quiet_pong_each : forall l, frames quiet (pong_each e l).
Proof. induction l; cbn [pong_each]; frames_tac. Qed.
Hint Resolve quiet_pong_each : frames.
Lemma quiet_broadcastpong b : frames quiet (clusterBroadcastPong e b).
Proof. unfold clusterBroadcastPong. frames_tac. Qed.
Lemma quiet_better me off : forall l k, frames quiet (better_slaves me off l k).
Proof. induction l; intros k; cbn [better_slaves]; frames_tac. Qed.
Hint Resolve quiet_broadcastpong quiet_better : frames.
Lemma quiet_rank : frames quiet (clusterGetSlaveRank e).
Proof. unfold clusterGetSlaveRank. frames_tac. Qed.
Lemma quiet_takeslots o me : forall js, frames quiet (take_slots o me js).
Proof. induction js; cbn [take_slots]; frames_tac. Qed.
Hint Resolve quiet_rank quiet_takeslots : frames.
Lemma quiet_replacemaster : frames quiet (clusterFailoverReplaceYourMaster e).
Proof. unfold clusterFailoverReplaceYourMaster. frames_tac. Qed.
Hint Resolve quiet_replacemaster : frames.

Lemma quiet_manual : frames quiet (clusterHandleManualFailover e).
Proof. unfold clusterHandleManualFailover. frames_tac. Qed.
Lemma quiet_mftimeout : frames quiet (manualFailoverCheckTimeout e).
Proof. unfold manualFailoverCheckTimeout. frames_tac. Qed.

Lemma quiet_gossip n : forall l, frames quiet (gossip_section e n l).
Proof. induction l as [|[[m f] p] l IH]; cbn [gossip_section]; frames_tac. Qed.
Lemma quiet_role n m : frames quiet (role_switch n m).
Proof. unfold role_switch. frames_tac. Qed.
Lemma quiet_newer n ep b : forall js, frames quiet (newer_owner n ep b js).
Proof. induction js; cbn [newer_owner]; frames_tac. Qed.
Lemma quiet_reached n : frames quiet (reached e n).
Proof. unfold reached. frames_tac. Qed.
Hint Resolve quiet_gossip quiet_role quiet_newer quiet_reached : frames.
Lemma quiet_processping n m g b : frames quiet (process_ping e n m g b).
Proof. unfold process_ping. frames_tac. Qed.
Hint Resolve quiet_processping : frames.
End quiet.

#[export] Hint Resolve quiet_asks quiet_get_node quiet_get_myself quiet_set_node quiet_delnodeslots quiet_closeall quiet_removeslave
  quiet_addslave quiet_setmaster quiet_reset quiet_SetMaster quiet_updatestate quiet_next_epoch quiet_collision quiet_sendfail
  quiet_sendupdate quiet_ping quiet_updateslots quiet_broadcastpong quiet_rank quiet_takeslots quiet_replacemaster quiet_manual
  quiet_mftimeout quiet_processping : frames.
#[export] Hint Extern 1 (frames quiet (update _)) => apply quiet_update; intros; apply quiet_refl_out; reflexivity : frames.

(** What the election functions do to an instance: casting a vote, counting one, and the
    steps of a failover. *)

Lemma bind_inv {S A B} (m : ST S A) (f : A -> ST S B) s b s' : (m ≫= f) s = Some (b, s') ->
  exists a s1, m s = Some (a, s1) /\ f a s1 = Some (b, s').
Proof. unfold mbind, ST_bind. destruct (m s) as [[a s1]|]; [|done]. intros E. by exists a, s1. Qed.

Lemma get_node_inv n s x s' : get_node n s = Some (x, s') -> s' = s /\ nodes s !! n = Some x.
Proof. unfold get_node, mbind, ST_bind. cbn. destruct (nodes s !! n); [|done]. by intros [= <- <-]. Qed.

Lemma get_myself_inv s x s' : get_myself s = Some (x, s') -> s' = s /\ nodes s !! myself s = Some x.
Proof. unfold get_myself. intros E. apply bind_inv in E as (me & s1 & [= <- <-] & E). by apply get_node_inv in E. Qed.

(** Changes that the election does not see. *)
Record core (s s' : clusterState) : Prop := {
  c_myself : myself s' = myself s;
  c_epoch : currentEpoch s' = currentEpoch s;
  c_vote : lastVoteEpoch s' = lastVoteEpoch s;
  c_elec : elec s' = elec s;
  c_outbox : outbox s' = outbox s }.

#[export] Instance core_preorder : PreOrder core.
Proof.
  split; [done|]. intros s1 s2 s3 [] []. split; congruence.
Qed.

Lemma core_quiet s s' : core s s' -> quiet s s'.
Proof. intros []. by apply quiet_refl_out. Qed.

Section vote.
Context (e : cenv).

Lemma core_get_node n : frames core (get_node n).
Proof. intros s x s' E. by apply get_node_inv in E as [-> _]. Qed.
Lemma core_asks {A} (f : clusterState -> A) : frames core (asks f).
Proof. by intros s a s' [= _ <-]. Qed.
Lemma core_update f : (forall s, core s (f s)) -> frames core (update f).
Proof. apply frames_get_put. Qed.
Hint Resolve core_get_node core_asks : frames.
Hint Extern 1 (frames core (update _)) => apply core_update; intros; by split : frames.
Lemma core_set_node n f : frames core (set_node n f).
Proof. unfold set_node. frames_tac. Qed.
Lemma core_get_myself : frames core get_myself.
Proof. unfold get_myself. frames_tac. Qed.
Hint Resolve core_set_node core_get_myself : frames.
Lemma core_slots_allow ep b : forall js, frames core (slots_allow ep b js).
Proof. induction js; cbn [slots_allow]; frames_tac. Qed.
Hint Resolve core_slots_allow : frames.

(** ** The header *)

Lemma header_inv m s a s' : process_header m s = Some (a, s') ->
  myself s' = myself s /\ lastVoteEpoch s' = lastVoteEpoch s /\ elec s' = elec s /\ outbox s' = outbox s /\
  currentEpoch s' = Z.max (currentEpoch s) (m_currentEpoch m).
Proof.
  unfold process_header. intros E. apply bind_inv in E as (s0 & s1 & [= <- <-] & E). cbv zeta in E.
  apply bind_inv in E as (x & s1 & Ex & E). apply get_node_inv in Ex as [-> _].
  apply bind_inv in E as ([] & s1 & E1 & E).
  assert (Hc : core s1 s') by by_frames E.
  destruct Hc as [C1 C2 C3 C4 C5]. rewrite C1, C2, C3, C4, C5. destruct (Z.ltb_spec (currentEpoch s) (m_currentEpoch m)) as [H|H].
  - injection E1 as <-. cbn. by rewrite Z.max_r by lia.
  - injection E1 as <-. by rewrite Z.max_l by lia.
Qed.

(** ** Casting a vote *)

Record casts (node : id) (s s' : clusterState) : Prop := {
  cast_myself : myself s' = myself s;
  cast_elec : elec s' = elec s;
  cast_epoch : currentEpoch s' = currentEpoch s;
  cast_first : lastVoteEpoch s <> currentEpoch s;
  cast_vote : lastVoteEpoch s' = currentEpoch s;
  cast_ack : exists h, outbox s' = outbox s ++ [(Some node, h)] /\ m_data h = FAILOVER_AUTH_ACK /\ m_sender h = myself s /\
    m_currentEpoch h = currentEpoch s }.

Lemma core_ret {A} (a : A) s a' s' : (mret a : M A) s = Some (a', s') -> core s s'.
Proof. by intros [= _ <-]. Qed.

Lemma vote_inv node m s a s' : clusterSendFailoverAuthIfNeeded e node m s = Some (a, s') ->
  core s s' \/ currentEpoch s <= m_currentEpoch m /\ casts node s s'.
Proof.
  unfold clusterSendFailoverAuthIfNeeded. intros E.
  apply bind_inv in E as (s0 & s1 & [= <- <-] & E).
  apply bind_inv in E as (me & s1 & Em & E). apply get_myself_inv in Em as [-> Hme].
  apply bind_inv in E as (n & s1 & En & E). apply get_node_inv in En as [-> Hn].
  destruct (nodeIsSlave me || (numslots me =? 0)); [left; by eapply core_ret|].
  destruct (Z.ltb_spec (m_currentEpoch m) (currentEpoch s)) as [Hep|Hep]; [left; by eapply core_ret|].
  destruct (Z.eqb_spec (lastVoteEpoch s) (currentEpoch s)) as [|Hfirst]; [left; by eapply core_ret|].
  destruct (slaveof n) as [master|]; [|left; by eapply core_ret].
  apply bind_inv in E as (x & s1 & Ex & E). apply get_node_inv in Ex as [-> Hx].
  destruct (nodeIsMaster n || _); [left; by eapply core_ret|].
  destruct (now e - voted_time x <? node_timeout e * 2); [left; by eapply core_ret|].
  apply bind_inv in E as (ok & s1 & Eok & E). apply core_slots_allow in Eok.
  destruct ok; cbn [negb] in E; [|left; etransitivity; [exact Eok|by eapply core_ret]].
  apply bind_inv in E as ([] & s2 & [= <-] & E). apply bind_inv in E as ([] & s3 & E3 & E). apply core_set_node in E3.
  unfold clusterSendFailoverAuth in E. apply bind_inv in E as (h & s4 & Eh & E). apply build_hdr_inv in Eh as (-> & Hd & Hs & He).
  injection E as _ <-. right. split; [done|]. destruct Eok as [A1 A2 A3 A4 A5], E3 as [B1 B2 B3 B4 B5]. cbn in *. split; cbn; try congruence.
  exists h. split; [congruence|]. split; [done|]. split; congruence.
Qed.

Lemma auth_ack_inv sender ep s a s' : auth_ack sender ep s = Some (a, s') ->
  s' = s \/ failover_auth_epoch (elec s) <= ep /\
    s' = with_elec (Election (failover_auth_time (elec s)) (failover_auth_count (elec s) + 1) (failover_auth_sent (elec s))
                      (failover_auth_rank (elec s)) (failover_auth_epoch (elec s))) s.
Proof.
  unfold auth_ack. intros E. apply bind_inv in E as (s0 & s1 & [= <- <-] & E).
  apply bind_inv in E as (x & s1 & Ex & E). apply get_node_inv in Ex as [-> Hx]. cbv zeta in E.
  destruct (nodeIsMaster x && (0 <? numslots x)); cbn [andb] in E; [|left; by injection E].
  destruct (Z.leb_spec (failover_auth_epoch (elec s)) ep); [|left; by injection E]. right. split; [done|]. by injection E.
Qed.

(** ** Failing over *)

(** The fields of an election that count. *)
Definition ballot (s : clusterState) : Z * bool * Z :=
  (failover_auth_count (elec s), failover_auth_sent (elec s), failover_auth_epoch (elec s)).

Record stays (s s' : clusterState) : Prop := {
  st_myself : myself s' = myself s;
  st_vote : lastVoteEpoch s' = lastVoteEpoch s;
  st_sends : sends plain s s' }.

Lemma quiet_stays s s' : quiet s s' -> stays s s'.
Proof. intros []. by split. Qed.
Lemma stays_trans s1 s2 s3 : stays s1 s2 -> stays s2 s3 -> stays s1 s3.
Proof.
  intros [A1 A2 (l1 & A4 & A5)] [B1 B2 (l2 & B4 & B5)]. split; [congruence..|].
  exists (l1 ++ l2). split; [by rewrite B4, A4, (assoc app)|by apply Forall_app].
Qed.
Lemma stays_out s s' : myself s' = myself s -> lastVoteEpoch s' = lastVoteEpoch s -> outbox s' = outbox s -> stays s s'.
Proof. intros H1 H2 H3. split; [done|done|]. exists []. by rewrite app_nil_r. Qed.

Inductive failover (s s' : clusterState) : bool -> Prop :=
| fo_idle : stays s s' -> ballot s' = ballot s -> failover s s' false
| fo_schedule : stays s s' -> ballot s' = (0, false, failover_auth_epoch (elec s)) -> failover s s' false
| fo_start h : myself s' = myself s -> lastVoteEpoch s' = lastVoteEpoch s -> currentEpoch s' = u64 (currentEpoch s + 1) ->
    failover_auth_sent (elec s) = false -> ballot s' = (failover_auth_count (elec s), true, currentEpoch s') ->
    outbox s' = outbox s ++ [(None, h)] -> m_data h = FAILOVER_AUTH_REQUEST -> m_sender h = myself s ->
    m_currentEpoch h = currentEpoch s' -> failover s s' false
| fo_win : stays s s' -> ballot s' = ballot s -> size s / 2 + 1 <= failover_auth_count (elec s) ->
    failover_auth_sent (elec s) = true -> failover s s' true.

Lemma set_elec_inv f s a s' : set_elec f s = Some (a, s') -> s' = with_elec (f (elec s)) s.
Proof. by intros [= _ <-]. Qed.

Lemma ret_inv {A} (a : A) s a' s' : (mret a : M A) s = Some (a', s') -> a' = a /\ s' = s.
Proof. by intros [= <- <-]. Qed.

(** The update of the rank. *)
Lemma rank_update_inv el s a s' : elec s = el ->
  (if negb (failover_auth_sent el) && (mf_end (mf s) =? 0) then
     newrank ← clusterGetSlaveRank e;
     if failover_auth_rank el <? newrank then
       set_elec (λ _, Election (failover_auth_time el + (newrank - failover_auth_rank el) * 1000) (failover_auth_count el)
                        (failover_auth_sent el) newrank (failover_auth_epoch el))
     else mret tt
   else mret tt) s = Some (a, s') -> core s (with_elec el s') /\ ballot s' = ballot s.
Proof.
  intros Hel E. destruct (negb _ && _); [|apply ret_inv in E as [_ ->]; split; [by split|done]].
  apply bind_inv in E as (rank & s1 & E1 & E). assert (Hc : core s s1).
  { revert E1. unfold clusterGetSlaveRank. assert (Hb : forall me off l k, frames core (better_slaves me off l k))
      by (intros me off l; induction l; intros k; cbn [better_slaves]; frames_tac). intros E1. by_frames E1. }
  destruct Hc as [C1 C2 C3 C4 C5]. unfold ballot. destruct (_ <? _).
  - apply set_elec_inv in E as ->. split; [by split|]. cbn. by rewrite Hel.
  - apply ret_inv in E as [_ ->]. split; [by split|]. by rewrite C4.
Qed.

Lemma failover_inv s b s' : clusterHandleSlaveFailover e s = Some (b, s') -> failover s s' b.
Proof.
  unfold clusterHandleSlaveFailover. intros E. apply bind_inv in E as (s0 & s1 & [= <- <-] & E). cbv zeta in E.
  apply bind_inv in E as (me & s1 & Em & E). apply get_myself_inv in Em as [-> Hme].
  apply bind_inv in E as (go & s1 & Eg & E).
  assert (Hidle : failover s s false) by (by apply fo_idle; [apply stays_out|]).
  assert (s1 = s) as ->.
  { destruct (nodeIsMaster me); [by apply ret_inv in Eg as [_ ->]|]. destruct (slaveof me); [|by apply ret_inv in Eg as [_ ->]].
    apply bind_inv in Eg as (x & s2 & Ex & Eg). apply get_node_inv in Ex as [-> _]. by apply ret_inv in Eg as [_ ->]. }
  destruct go; cbn [negb] in E; [|by apply ret_inv in E as [-> ->]].
  destruct (negb _ && _ && _); [by apply ret_inv in E as [-> ->]|].
  set (el := elec s) in *. destruct (_ <? now e - failover_auth_time el).
  - apply bind_inv in E as (rank & s1 & E1 & E). assert (Q1 : quiet s s1) by by_frames E1.
    apply bind_inv in E as ([] & s2 & E2 & E). apply set_elec_inv in E2.
    apply bind_inv in E as ([] & s3 & E3 & E). apply bind_inv in E as ([] & s4 & E4 & E). apply ret_inv in E as [-> ->].
    assert (Q4 : quiet s3 s4) by by_frames E4.
    assert (H3 : stays s2 s3 /\ ballot s3 = (0, false, failover_auth_epoch el)).
    { subst s2. destruct (mf_end (mf s) =? 0); [apply ret_inv in E3 as [_ ->]|apply set_elec_inv in E3 as ->]; (split; [by apply stays_out|done]). }
    destruct H3 as [H3 Hb]. apply fo_schedule.
    + eapply stays_trans; [by apply quiet_stays|]. eapply stays_trans; [|by apply quiet_stays].
      eapply stays_trans; [|exact H3]. subst s2. by apply stays_out.
    + unfold ballot in *. by rewrite (q_elec _ _ Q4).
  - apply bind_inv in E as ([] & s1 & E1 & E). apply rank_update_inv in E1 as [C1 Hb1]; [|done].
    assert (Hst : stays s s1) by (destruct C1; by apply stays_out).
    assert (Hi : failover s s1 false) by (by apply fo_idle).
    apply bind_inv in E as (el1 & s2 & [= <- <-] & E).
    destruct (now e <? _); [by apply ret_inv in E as [-> ->]|].
    destruct (_ <? now e - _); [by apply ret_inv in E as [-> ->]|].
    unfold ballot in Hb1. injection Hb1 as B1 B2 B3.
    destruct (failover_auth_sent (elec s1)) eqn:Hsent; cbn [negb] in E.
    + destruct (Z.leb_spec (size s / 2 + 1) (failover_auth_count (elec s1))) as [Hq|]; [|by apply ret_inv in E as [-> ->]].
      apply bind_inv in E as ([] & s3 & E3 & E). apply bind_inv in E as ([] & s4 & E4 & E). apply ret_inv in E as [-> ->].
      assert (Q3 : quiet s1 s3) by by_frames E3. assert (Q4 : quiet s3 s4) by by_frames E4.
      apply fo_win; [|unfold ballot; rewrite (q_elec _ _ Q4), (q_elec _ _ Q3); congruence|by rewrite <- B1|congruence].
      eapply stays_trans; [exact Hst|]. apply quiet_stays. by transitivity s3.
    + apply bind_inv in E as ([] & s2 & [= <-] & E). apply bind_inv in E as ([] & s3 & E3 & E). apply set_elec_inv in E3.
      apply bind_inv in E as ([] & s4 & E4 & E). apply bind_inv in E as ([] & s5 & E5 & E). apply set_elec_inv in E5.
      apply ret_inv in E as [-> ->]. unfold clusterRequestFailoverAuth in E4.
      apply bind_inv in E4 as (s3' & s3'' & [= <- <-] & E4). apply bind_inv in E4 as (h & s6 & Eh & E4).
      apply build_hdr_inv in Eh as (-> & Hd & Hs & Hep). injection E4 as <-. subst s5. subst s3. destruct C1 as [D1 D2 D3 D4 D5]. cbn in *.
      eapply (fo_start _ _ (if mf_end (mf s1) =? 0 then h else set_forceack h)); cbn; try congruence.
      * unfold ballot. cbn. fold el. congruence.
      * destruct (mf_end (mf s1) =? 0); cbn; congruence.
      * destruct (mf_end (mf s1) =? 0); cbn; congruence.
      * destruct (mf_end (mf s1) =? 0); cbn; congruence.
Qed.

(** ** Messages *)

Inductive packet (m : clusterMsg) (s s' : clusterState) : Prop :=
| pk_quiet : quiet s s' -> packet m s s'
| pk_vote h : is_request m = true -> myself s' = myself s -> elec s' = elec s ->
    lastVoteEpoch s <> m_currentEpoch m -> currentEpoch s <= m_currentEpoch m ->
    lastVoteEpoch s' = m_currentEpoch m -> currentEpoch s' = m_currentEpoch m ->
    outbox s' = outbox s ++ [(Some (m_sender m), h)] -> m_data h = FAILOVER_AUTH_ACK -> m_sender h = myself s ->
    m_currentEpoch h = m_currentEpoch m -> packet m s s'
| pk_count : is_ack m = true -> failover_auth_epoch (elec s) <= m_currentEpoch m -> myself s' = myself s ->
    lastVoteEpoch s' = lastVoteEpoch s -> outbox s' = outbox s ->
    ballot s' = (failover_auth_count (elec s) + 1, failover_auth_sent (elec s), failover_auth_epoch (elec s)) -> packet m s s'.

Lemma packet_inv inbound m s a s' : clusterProcessPacket e inbound m s = Some (a, s') -> packet m s s'.
Proof.
  unfold clusterProcessPacket. intros E. apply bind_inv in E as ([] & s1 & Eh & E). cbv zeta in E.
  apply header_inv in Eh as (H1 & H2 & H3 & H4 & H5). assert (Q1 : quiet s s1) by (by apply quiet_refl_out).
  destruct (m_data m) eqn:Hm.
  - apply pk_quiet. transitivity s1; [done|]. by_frames E.
  - apply pk_quiet. transitivity s1; [done|]. by_frames E.
  - apply vote_inv in E as [C|[Hep C]]; [apply pk_quiet; transitivity s1; [done|by apply core_quiet]|].
    destruct C as [C1 C2 C3 C4 C5 (h & C6 & C7 & C8 & C9)].
    apply (pk_vote _ _ _ h); [unfold is_request; by rewrite Hm|congruence|congruence|rewrite <- H2; lia|lia|lia|lia|congruence|done|congruence|lia].
  - apply auth_ack_inv in E as [-> |[Hle ->]]; [by apply pk_quiet|].
    apply pk_count; [unfold is_ack; by rewrite Hm|by rewrite <- H3|done..|]. unfold ballot. cbn. by rewrite H3.
  - apply pk_quiet. transitivity s1; [done|]. by_frames E.
  - apply pk_quiet. transitivity s1; [done|]. by_frames E.
Qed.
End vote.
