(* ===== verification/ClusterElect.v ===== *)
(** Elections: instances that exchange messages over a network that loses, delays and
    reorders them. *)

From stdpp Require Import gmap.
From S2P Require Import Prelude State Cluster ClusterBus ClusterFail ClusterFrame.

Local Open Scope Z_scope.

(** ** The system *)

(** The instances, the messages on their way, and who won the election of which epoch. *)
Record world := World {
  locals : gmap id clusterState;
  net : list (option id * clusterMsg);
  won : list (id * Z) }.

Definition flush (s : clusterState) : clusterState := with_outbox (λ _, []) s.

(** Histories.  [voters] gives, for each epoch, the masters that may vote in it; [timely]
    says that votes arrive while the replica is waiting for them. *)
Section world.
Context (voters : Z -> gset id) (timely : bool).

(** Messages other than votes may be delivered any number of times.  An instance may do
    anything else that is [quiet]: commands, timers, what the configuration file says. *)
Inductive wstep (w : world) : world -> Prop :=
| ws_deliver n s l1 l2 to m (keep : bool) e inbound s' :
    locals w !! n = Some s -> net w = l1 ++ (to, m) :: l2 -> to = None \/ to = Some n ->
    (is_ack m = true -> keep = false) ->
    (timely = true -> is_ack m = true -> failover_auth_sent (elec s) = true) ->
    clusterProcessPacket e inbound m s = Some (tt, s') -> currentEpoch s <= currentEpoch s' ->
    (forall to' h, (to', h) ∈ outbox s' -> is_ack h = true -> n ∈ voters (m_currentEpoch h)) ->
    wstep w (World (<[n := flush s']> (locals w)) ((if keep then net w else l1 ++ l2) ++ outbox s') (won w))
| ws_failover n s e b s' :
    locals w !! n = Some s -> clusterHandleSlaveFailover e s = Some (b, s') -> currentEpoch s <= currentEpoch s' ->
    (b = true -> size s = Z.of_nat (base.size (voters (failover_auth_epoch (elec s))))) ->
    wstep w (World (<[n := flush s']> (locals w)) (net w ++ outbox s')
               (if b then (n, failover_auth_epoch (elec s)) :: won w else won w))
| ws_other n s s' :
    locals w !! n = Some s -> quiet s s' -> currentEpoch s <= currentEpoch s' ->
    wstep w (World (<[n := flush s']> (locals w)) (net w ++ outbox s') (won w))
| ws_lose l1 x l2 : net w = l1 ++ x :: l2 -> wstep w (World (locals w) (l1 ++ l2) (won w)).

Record initial (w : world) : Prop := {
  in_net : net w = [];
  in_won : won w = [];
  in_local n s : locals w !! n = Some s -> myself s = n /\ outbox s = [] /\ lastVoteEpoch s <= currentEpoch s /\
    failover_auth_count (elec s) = 0 /\ failover_auth_sent (elec s) = false /\ failover_auth_epoch (elec s) <= currentEpoch s }.

Definition reach (w : world) : Prop := exists w0, initial w0 /\ rtc wstep w0 w.

(** ** The invariant *)

(** A vote: who voted, in which epoch, for whom. *)
Abbreviation vote := (id * Z * id)%type.

Definition ack_vote (x : option id * clusterMsg) : option vote :=
  match x with
  | (Some c, h) => if is_ack h then Some (m_sender h, m_currentEpoch h, c) else None
  | (None, _) => None
  end.

Definition votes_for (c : id) (ep : Z) (l : list vote) : list vote := filter (λ v, v.2 = c /\ v.1.2 = ep) l.

(** [votes] have been cast, [taken] of them have been received. *)
Record inv (votes taken : list vote) (w : world) : Prop := {
  i_local n s : locals w !! n = Some s -> myself s = n /\ outbox s = [] /\ lastVoteEpoch s <= currentEpoch s /\
    failover_auth_epoch (elec s) <= currentEpoch s;
  i_vote v ep c : (v, ep, c) ∈ votes -> v ∈ voters ep /\
    (exists s, locals w !! v = Some s /\ ep <= lastVoteEpoch s) /\
    (exists s, locals w !! c = Some s /\ ep <= failover_auth_epoch (elec s));
  i_once v ep c1 c2 : (v, ep, c1) ∈ votes -> (v, ep, c2) ∈ votes -> c1 = c2;
  i_request x m : (x, m) ∈ net w -> is_request m = true ->
    exists s, locals w !! m_sender m = Some s /\ m_currentEpoch m <= failover_auth_epoch (elec s);
  i_ack x m : (x, m) ∈ net w -> is_ack m = true -> is_Some x;
  i_acks : NoDup (omap ack_vote (net w) ++ taken) /\ forall v, v ∈ omap ack_vote (net w) ++ taken -> v ∈ votes;
  i_count n s : locals w !! n = Some s ->
    failover_auth_count (elec s) <= Z.of_nat (length (votes_for n (failover_auth_epoch (elec s)) taken)) /\
    (failover_auth_sent (elec s) = false -> failover_auth_count (elec s) <= 0);
  i_won c ep : (c, ep) ∈ won w -> exists l, NoDup l /\ (forall v, v ∈ l -> (v, ep, c) ∈ votes) /\
    Z.of_nat (base.size (voters ep)) / 2 + 1 <= Z.of_nat (length l) }.

Lemma inv_initial w : initial w -> inv [] [] w.
Proof.
  intros [H1 H2 H3]. split; rewrite ?H1, ?H2.
  - intros n s Hs. destruct (H3 n s Hs) as (? & ? & ? & ? & ? & ?). done.
  - by intros v ep c ?%elem_of_nil.
  - by intros v ep c1 c2 ?%elem_of_nil.
  - by intros x m ?%elem_of_nil.
  - by intros x m ?%elem_of_nil.
  - split; [constructor|]. by intros v ?%elem_of_nil.
  - intros n s Hs. destruct (H3 n s Hs) as (? & ? & ? & -> & ? & ?). cbn. lia.
  - by intros c ep ?%elem_of_nil.
Qed.

(** Two quorums meet. *)
Lemma quorums_meet (X : gset id) l1 l2 : NoDup l1 -> NoDup l2 -> (forall v, v ∈ l1 -> v ∈ X) -> (forall v, v ∈ l2 -> v ∈ X) ->
  Z.of_nat (base.size X) / 2 + 1 <= Z.of_nat (length l1) -> Z.of_nat (base.size X) / 2 + 1 <= Z.of_nat (length l2) ->
  exists v, v ∈ l1 /\ v ∈ l2.
Proof.
  intros N1 N2 H1 H2 Q1 Q2. destruct (decide (list_to_set (C := gset id) l1 ## list_to_set l2)) as [Hd|Hd].
  - exfalso.
    assert (Hsub : list_to_set (C := gset id) l1 ∪ list_to_set l2 ⊆ X).
    { intros v [Hv|Hv]%elem_of_union; apply elem_of_list_to_set in Hv; auto. }
    apply subseteq_size in Hsub. rewrite size_union in Hsub by done. rewrite !size_list_to_set in Hsub by done.
    pose proof (Z.div_mod (Z.of_nat (base.size X)) 2). pose proof (Z.mod_pos_bound (Z.of_nat (base.size X)) 2). lia.
  - destruct (set_choose_or_empty (list_to_set (C := gset id) l1 ∩ list_to_set l2)) as [[v Hv]|Hv]; [|set_solver].
    exists v. set_solver.
Qed.

Lemma winner_unique votes taken w c1 c2 ep : inv votes taken w -> (c1, ep) ∈ won w -> (c2, ep) ∈ won w -> c1 = c2.
Proof.
  intros I H1 H2. destruct (i_won _ _ _ I c1 ep H1) as (l1 & N1 & V1 & Q1), (i_won _ _ _ I c2 ep H2) as (l2 & N2 & V2 & Q2).
  destruct (quorums_meet (voters ep) l1 l2 N1 N2) as (v & A1 & A2); try done.
  - intros v Hv. by apply (i_vote _ _ _ I v ep c1), V1.
  - intros v Hv. by apply (i_vote _ _ _ I v ep c2), V2.
  - eapply (i_once _ _ _ I v ep); [by apply V1|by apply V2].
Qed.

(** ** Steps *)

(** The part of the network that a step leaves. *)
Record left_of (w : world) (N : list (option id * clusterMsg)) : Prop := {
  lo_in x : x ∈ N -> x ∈ net w;
  lo_acks : sublist (omap ack_vote N) (omap ack_vote (net w)) }.

Lemma left_all w : left_of w (net w).
Proof. by split. Qed.

Lemma left_removed w l1 x l2 : net w = l1 ++ x :: l2 -> left_of w (l1 ++ l2).
Proof.
  intros E. split; rewrite E.
  - intros y. rewrite !elem_of_app, elem_of_cons. tauto.
  - rewrite !omap_app. apply sublist_app; [done|]. cbn. destruct (ack_vote x); [by apply sublist_cons|done].
Qed.

Lemma left_kept w l1 x l2 (keep : bool) : net w = l1 ++ x :: l2 -> left_of w (if keep then net w else l1 ++ l2).
Proof. intros E. destruct keep; [apply left_all|by eapply left_removed]. Qed.

(** What other instances know of an instance only grows. *)
Definition grows (s s' : clusterState) : Prop :=
  lastVoteEpoch s <= lastVoteEpoch s' /\ failover_auth_epoch (elec s) <= failover_auth_epoch (elec s').

Lemma local_grows (L : gmap id clusterState) n s s' (P : clusterState -> Prop) m :
  L !! n = Some s -> (forall x, P x -> x = s -> P (flush s')) -> (exists x, L !! m = Some x /\ P x) ->
  exists x, <[n := flush s']> L !! m = Some x /\ P x.
Proof.
  intros Hs HP (x & Hx & Hp). destruct (decide (m = n)) as [->|Hne].
  - exists (flush s'). rewrite lookup_insert_eq. split; [done|]. apply (HP x); [done|congruence].
  - exists x. by rewrite lookup_insert_ne.
Qed.

(** What a step has to show: [new] are the messages it sends and [cast] the votes among
    them. *)
Lemma inv_step votes taken w n s s' N cast taken' won' :
  inv votes taken w -> locals w !! n = Some s -> left_of w N ->
  myself s' = n -> lastVoteEpoch s' <= currentEpoch s' -> failover_auth_epoch (elec s') <= currentEpoch s' -> grows s s' ->
  (forall x m, (x, m) ∈ outbox s' -> is_request m = true -> m_sender m = n /\ m_currentEpoch m <= failover_auth_epoch (elec s')) ->
  (forall x m, (x, m) ∈ outbox s' -> is_ack m = true -> is_Some x) ->
  omap ack_vote (outbox s') = cast ->
  (forall v ep c, (v, ep, c) ∈ cast -> v = n /\ v ∈ voters ep /\ ep = lastVoteEpoch s' /\ lastVoteEpoch s < ep /\
     exists sc, <[n := flush s']> (locals w) !! c = Some sc /\ ep <= failover_auth_epoch (elec sc)) ->
  (forall v1 v2, v1 ∈ cast -> v2 ∈ cast -> v1 = v2) -> NoDup cast ->
  NoDup (omap ack_vote N ++ taken') -> (forall v, v ∈ omap ack_vote N ++ taken' -> v ∈ votes) ->
  (forall v, v ∈ taken -> v ∈ taken') ->
  (forall m sm, m <> n -> locals w !! m = Some sm -> length (votes_for m (failover_auth_epoch (elec sm)) taken) <=
      length (votes_for m (failover_auth_epoch (elec sm)) taken'))%nat ->
  failover_auth_count (elec s') <= Z.of_nat (length (votes_for n (failover_auth_epoch (elec s')) taken')) ->
  (failover_auth_sent (elec s') = false -> failover_auth_count (elec s') <= 0) ->
  (forall c ep, (c, ep) ∈ won' -> (c, ep) ∈ won w \/ exists l, NoDup l /\ (forall v, v ∈ l -> (v, ep, c) ∈ votes) /\
    Z.of_nat (base.size (voters ep)) / 2 + 1 <= Z.of_nat (length l)) ->
  inv (cast ++ votes) taken' (World (<[n := flush s']> (locals w)) (N ++ outbox s') won').
Proof.
  intros I Hs HN Hme Hv Ha Hg Hreq Hsome Hcast Hnew Hone Hnd HND Hvotes Htak Hothers Hcount Hsent Hwon.
  assert (Hfresh : forall v, v ∈ cast -> v ∉ votes).
  { intros [[v ep] c] Hc Hvo. destruct (Hnew v ep c Hc) as (-> & _ & -> & Hlt & _).
    destruct (i_vote _ _ _ I _ _ _ Hvo) as (_ & (s0 & Hs0 & Hle) & _). rewrite Hs in Hs0. injection Hs0 as <-. lia. }
  split; cbn [locals net won].
  - intros m sm. destruct (decide (m = n)) as [->|Hne]; [rewrite lookup_insert_eq|rewrite lookup_insert_ne by done; apply (i_local _ _ _ I)].
    by intros [= <-].
  - intros v ep c [Hc|Hc]%elem_of_app.
    + destruct (Hnew v ep c Hc) as (-> & H1 & -> & H2 & H3). split; [done|]. split; [|done].
      exists (flush s'). by rewrite lookup_insert_eq.
    + destruct (i_vote _ _ _ I v ep c Hc) as (H1 & H2 & H3). split; [done|]. destruct Hg as [G1 G2]. split.
      * eapply (local_grows _ n s); [done| |exact H2]. cbn. intros x ? ->. lia.
      * eapply (local_grows _ n s); [done| |exact H3]. cbn. intros x ? ->. lia.
  - intros v ep c1 c2 [H1|H1]%elem_of_app [H2|H2]%elem_of_app.
    + by injection (Hone _ _ H1 H2).
    + exfalso. destruct (Hnew _ _ _ H1) as (-> & _ & -> & Hlt & _). destruct (i_vote _ _ _ I _ _ _ H2) as (_ & (s0 & Hs0 & Hle) & _).
      rewrite Hs in Hs0. injection Hs0 as <-. lia.
    + exfalso. destruct (Hnew _ _ _ H2) as (-> & _ & -> & Hlt & _). destruct (i_vote _ _ _ I _ _ _ H1) as (_ & (s0 & Hs0 & Hle) & _).
      rewrite Hs in Hs0. injection Hs0 as <-. lia.
    + by eapply (i_once _ _ _ I).
  - intros x m [Hm|Hm]%elem_of_app Hr.
    + eapply (local_grows _ n s); [done| |by eapply (i_request _ _ _ I x), Hr; apply HN]. cbn. destruct Hg as [G1 G2]. intros y ? ->. lia.
    + destruct (Hreq x m Hm Hr) as [-> Hle]. exists (flush s'). by rewrite lookup_insert_eq.
  - intros x m [Hm|Hm]%elem_of_app Hr; [eapply (i_ack _ _ _ I x); [by apply HN|done]|by eapply Hsome].
  - rewrite omap_app, Hcast. split.
    + rewrite <- (assoc app), (Permutation_app_comm cast taken'), (assoc app). apply NoDup_app. split; [done|]. split; [|done].
      intros v Hv1 Hv2. apply (Hfresh v Hv2). by apply Hvotes.
    + intros v. rewrite !elem_of_app. intros [[H|H]|H]; [right; apply Hvotes, elem_of_app; by left|by left|right; apply Hvotes, elem_of_app; by right].
  - intros m sm. destruct (decide (m = n)) as [->|Hne].
    + rewrite lookup_insert_eq. by intros [= <-].
    + rewrite lookup_insert_ne by done. intros Hm. destruct (i_count _ _ _ I m sm Hm) as [H1 H2]. split; [|done].
      specialize (Hothers m sm Hne Hm). lia.
  - intros c ep Hc. destruct (Hwon c ep Hc) as [Hc'|(l & L1 & L2 & L3)].
    + destruct (i_won _ _ _ I c ep Hc') as (l & L1 & L2 & L3). exists l. split; [done|]. split; [|done].
      intros v Hv'. apply elem_of_app. right. by apply L2.
    + exists l. split; [done|]. split; [|done]. intros v Hv'. apply elem_of_app. right. by apply L2.
Qed.

Lemma plain_none l : Forall plain l -> omap ack_vote l = [].
Proof.
  induction 1 as [|[to h] l [_ Hp] _ IH]; [done|]. cbn [omap list_omap ack_vote snd] in *. destruct to; [|done]. by rewrite Hp.
Qed.

(** A step without votes and requests. *)
Lemma inv_plain votes taken w n s s' N won' :
  inv votes taken w -> locals w !! n = Some s -> left_of w N -> stays s s' -> currentEpoch s <= currentEpoch s' ->
  ballot s' = ballot s \/ ballot s' = (0, false, failover_auth_epoch (elec s)) ->
  (forall c ep, (c, ep) ∈ won' -> (c, ep) ∈ won w \/ exists l, NoDup l /\ (forall v, v ∈ l -> (v, ep, c) ∈ votes) /\
    Z.of_nat (base.size (voters ep)) / 2 + 1 <= Z.of_nat (length l)) ->
  inv votes taken (World (<[n := flush s']> (locals w)) (N ++ outbox s') won').
Proof.
  intros I Hs HN [S1 S2 (l & Hl & Hp)] Hmono Hb Hwon. destruct (i_local _ _ _ I n s Hs) as (L1 & L2 & L3 & L4).
  rewrite L2 in Hl. cbn in Hl. subst l. destruct (i_count _ _ _ I n s Hs) as [C1 C2]. rewrite Forall_forall in Hp.
  assert (Hep : failover_auth_epoch (elec s') = failover_auth_epoch (elec s)) by (unfold ballot in Hb; destruct Hb as [[= _ _ E]|[= _ _ E]]; exact E).
  destruct (i_acks _ _ _ I) as [A1 A2].
  assert (Hsub : sublist (omap ack_vote N ++ taken) (omap ack_vote (net w) ++ taken)) by (apply sublist_app; [apply HN|done]).
  apply (inv_step votes taken w n s s' N []); try done.
  - by rewrite S1.
  - rewrite S2. lia.
  - rewrite Hep. lia.
  - split; [rewrite S2; lia|rewrite Hep; lia].
  - intros x m Hm Hr. destruct (Hp _ Hm) as [Hp1 _]. cbn in Hp1. congruence.
  - intros x m Hm Hr. destruct (Hp _ Hm) as [_ Hp1]. cbn in Hp1. congruence.
  - apply plain_none. by rewrite Forall_forall.
  - intros v ep c Hv. by apply elem_of_nil in Hv.
  - intros v1 v2 Hv. by apply elem_of_nil in Hv.
  - constructor.
  - by eapply sublist_NoDup.
  - intros v Hv. apply A2. by eapply sublist_subseteq.
  - rewrite Hep. unfold ballot in Hb. destruct Hb as [[= -> _ _]|[= -> _ _]]; [done|lia].
  - unfold ballot in Hb. destruct Hb as [[= -> -> _]|[= -> -> _]]; [done|lia].
Qed.

(** A vote is cast. *)
Lemma inv_cast votes taken w n s s' N x m h :
  inv votes taken w -> locals w !! n = Some s -> left_of w N -> (x, m) ∈ net w -> is_request m = true ->
  myself s' = myself s -> elec s' = elec s -> lastVoteEpoch s <> m_currentEpoch m -> currentEpoch s <= m_currentEpoch m ->
  lastVoteEpoch s' = m_currentEpoch m -> currentEpoch s' = m_currentEpoch m ->
  outbox s' = outbox s ++ [(Some (m_sender m), h)] -> m_data h = FAILOVER_AUTH_ACK -> m_sender h = myself s ->
  m_currentEpoch h = m_currentEpoch m -> n ∈ voters (m_currentEpoch h) ->
  inv ((n, m_currentEpoch m, m_sender m) :: votes) taken (World (<[n := flush s']> (locals w)) (N ++ outbox s') (won w)).
Proof.
  intros I Hs HN Hm Hreq E1 E2 E3 E4 E5 E6 E7 E8 E9 E10 Hvoter. destruct (i_local _ _ _ I n s Hs) as (L1 & L2 & L3 & L4).
  destruct (i_count _ _ _ I n s Hs) as [C1 C2]. destruct (i_acks _ _ _ I) as [A1 A2]. rewrite L2 in E7. cbn in E7.
  assert (Hsub : sublist (omap ack_vote N ++ taken) (omap ack_vote (net w) ++ taken)) by (apply sublist_app; [apply HN|done]).
  assert (Hcast : omap ack_vote (outbox s') = [(n, m_currentEpoch m, m_sender m)]).
  { rewrite E7. cbn. unfold is_ack. by rewrite E8, E9, E10, L1. }
  apply (inv_step votes taken w n s s' N [(n, m_currentEpoch m, m_sender m)]); rewrite ?E2; try done.
  - by rewrite E1.
  - lia.
  - lia.
  - split; [lia|rewrite E2; lia].
  - intros y k. rewrite E7, list_elem_of_singleton. intros [= -> ->]. unfold is_request. by rewrite E8.
  - intros y k. rewrite E7, list_elem_of_singleton. by intros [= -> ->].
  - intros v ep c [= -> -> ->]%list_elem_of_singleton. rewrite <- E10. split; [done|]. split; [done|]. rewrite E10. split; [done|]. split; [lia|].
    eapply (local_grows _ n s); [done| |by eapply (i_request _ _ _ I x)]. cbn. intros y ? ->. by rewrite E2.
  - intros v1 v2 ->%list_elem_of_singleton ->%list_elem_of_singleton. done.
  - apply NoDup_singleton.
  - by eapply sublist_NoDup.
  - intros v Hv. apply A2. by eapply sublist_subseteq.
  - intros c ep Hc. by left.
Qed.

(** A vote is counted. *)
Lemma inv_take votes taken w n s s' l1 l2 x m :
  inv votes taken w -> locals w !! n = Some s -> net w = l1 ++ (x, m) :: l2 -> x = None \/ x = Some n -> is_ack m = true ->
  failover_auth_sent (elec s) = true -> failover_auth_epoch (elec s) <= m_currentEpoch m -> currentEpoch s <= currentEpoch s' ->
  myself s' = myself s -> lastVoteEpoch s' = lastVoteEpoch s -> outbox s' = outbox s ->
  ballot s' = (failover_auth_count (elec s) + 1, failover_auth_sent (elec s), failover_auth_epoch (elec s)) ->
  exists taken', inv votes taken' (World (<[n := flush s']> (locals w)) ((l1 ++ l2) ++ outbox s') (won w)).
Proof.
  intros I Hs Hnet Hto Hack Hsent Hle Hmono E1 E2 E3 E4. destruct (i_local _ _ _ I n s Hs) as (L1 & L2 & L3 & L4).
  destruct (i_count _ _ _ I n s Hs) as [C1 C2]. destruct (i_acks _ _ _ I) as [A1 A2]. rewrite L2 in E3. unfold ballot in E4. injection E4 as B1 B2 B3.
  destruct (i_ack _ _ _ I x m) as [y Hy]; [rewrite Hnet; apply elem_of_app; right; by left|done|]. subst x.
  destruct Hto as [|[= ->]]; [done|]. set (v := (m_sender m, m_currentEpoch m, n)).
  assert (Hav : ack_vote (Some n, m) = Some v) by (cbn; by rewrite Hack).
  rewrite Hnet in A1, A2. rewrite omap_app in A1, A2. cbn [omap list_omap] in A1, A2. rewrite Hav in A1, A2.
  assert (Hperm : (omap ack_vote (l1 ++ l2) ++ v :: taken) ≡ₚ (omap ack_vote l1 ++ v :: omap ack_vote l2) ++ taken).
  { rewrite omap_app, <- !(assoc app). apply Permutation_app_head. cbn. symmetry. apply Permutation_middle. }
  assert (Hvote : v ∈ votes) by (apply A2, elem_of_app; left; apply elem_of_app; right; by left).
  destruct (i_vote _ _ _ I _ _ _ Hvote) as (_ & _ & (s0 & Hs0 & Hle0)). rewrite Hs in Hs0. injection Hs0 as <-.
  assert (Hep : m_currentEpoch m = failover_auth_epoch (elec s)) by lia.
  exists (v :: taken). apply (inv_step votes taken w n s s' (l1 ++ l2) []); rewrite ?B3; try done.
  - by eapply left_removed.
  - by rewrite E1.
  - rewrite E2. lia.
  - lia.
  - split; [rewrite E2; lia|rewrite B3; lia].
  - intros z k. rewrite E3. by intros ?%elem_of_nil.
  - intros z k. rewrite E3. by intros ?%elem_of_nil.
  - by rewrite E3.
  - intros z ep c Hv. by apply elem_of_nil in Hv.
  - intros v1 v2 Hv. by apply elem_of_nil in Hv.
  - constructor.
  - by rewrite Hperm.
  - intros z. rewrite Hperm. apply A2.
  - intros z Hz. by right.
  - intros k sk Hne Hk. unfold votes_for. rewrite filter_cons. destruct (decide _) as [[Hd _]|_]; [by cbn in Hd|done].
  - rewrite B1. unfold votes_for. rewrite filter_cons_True by done. cbn [length]. fold (votes_for n (failover_auth_epoch (elec s)) taken). lia.
  - rewrite B2. congruence.
  - intros c ep Hc. by left.
Qed.

(** An election starts. *)
Lemma inv_start votes taken w n s s' h :
  inv votes taken w -> locals w !! n = Some s -> currentEpoch s <= currentEpoch s' ->
  myself s' = myself s -> lastVoteEpoch s' = lastVoteEpoch s -> currentEpoch s' = u64 (currentEpoch s + 1) ->
  failover_auth_sent (elec s) = false -> ballot s' = (failover_auth_count (elec s), true, currentEpoch s') ->
  outbox s' = outbox s ++ [(None, h)] -> m_data h = FAILOVER_AUTH_REQUEST -> m_sender h = myself s ->
  m_currentEpoch h = currentEpoch s' ->
  inv votes taken (World (<[n := flush s']> (locals w)) (net w ++ outbox s') (won w)).
Proof.
  intros I Hs Hmono E1 E2 E3 E4 E5 E6 E7 E8 E9. destruct (i_local _ _ _ I n s Hs) as (L1 & L2 & L3 & L4).
  destruct (i_count _ _ _ I n s Hs) as [C1 C2]. destruct (i_acks _ _ _ I) as [A1 A2]. rewrite L2 in E6. cbn in E6.
  unfold ballot in E5. injection E5 as B1 B2 B3. specialize (C2 E4).
  apply (inv_step votes taken w n s s' (net w) []); try done.
  - by rewrite E1.
  - rewrite E2. lia.
  - rewrite B3. lia.
  - split; [rewrite E2; lia|rewrite B3; lia].
  - intros z k. rewrite E6, list_elem_of_singleton. intros [= -> ->] _. split; [congruence|lia].
  - intros z k. rewrite E6, list_elem_of_singleton. intros [= -> ->]. unfold is_ack. by rewrite E7.
  - by rewrite E6.
  - intros z ep c Hv. by apply elem_of_nil in Hv.
  - intros v1 v2 Hv. by apply elem_of_nil in Hv.
  - constructor.
  - rewrite B1. lia.
  - rewrite B2. done.
  - intros c ep Hc. by left.
Qed.

(** An election is won. *)
Lemma votes_for_elem c ep l v : v ∈ votes_for c ep l <-> v ∈ l /\ v.2 = c /\ v.1.2 = ep.
Proof. unfold votes_for. rewrite list_elem_of_filter. tauto. Qed.

Lemma quorum votes taken w n s : inv votes taken w -> locals w !! n = Some s ->
  size s = Z.of_nat (base.size (voters (failover_auth_epoch (elec s)))) -> size s / 2 + 1 <= failover_auth_count (elec s) ->
  exists l, NoDup l /\ (forall v, v ∈ l -> (v, failover_auth_epoch (elec s), n) ∈ votes) /\
    Z.of_nat (base.size (voters (failover_auth_epoch (elec s)))) / 2 + 1 <= Z.of_nat (length l).
Proof.
  intros I Hs Hsize Hq. set (ep := failover_auth_epoch (elec s)) in *. destruct (i_count _ _ _ I n s Hs) as [C1 _].
  destruct (i_acks _ _ _ I) as [A1 A2]. apply NoDup_app in A1 as (_ & _ & A1).
  exists ((λ v : vote, v.1.1) <$> votes_for n ep taken). split; [|split].
  - apply NoDup_fmap_2_strong; [|by apply NoDup_filter]. intros [[v1 e1] c1] [[v2 e2] c2].
    rewrite !votes_for_elem. cbn. intros (_ & -> & ->) (_ & -> & ->) ->. done.
  - intros v ([[v1 e1] c1] & -> & Hv)%list_elem_of_fmap. apply votes_for_elem in Hv as (Hv & Ec & Ee). cbn in *. subst.
    apply A2, elem_of_app. by right.
  - rewrite length_fmap, <- Hsize. fold ep in C1. lia.
Qed.

Lemma inv_wstep votes taken w w' : timely = true -> inv votes taken w -> wstep w w' -> exists votes' taken', inv votes' taken' w'.
Proof.
  intros Ht I [n s l1 l2 to m keep e inbound s' Hs Hnet Hto Hkeep Htime E Hmono Hvote|n s e b s' Hs E Hmono Hsize|n s s' Hs Hq Hmono|l1 x l2 Hnet].
  - pose proof (left_kept w l1 _ l2 keep Hnet) as HN. apply packet_inv in E as [Hq|h H1 H2 H3 H4 H5 H6 H7 H8 H9 H10 H11|H1 H2 H3 H4 H5 H6].
    + exists votes, taken. eapply inv_plain; [done|done|done|by apply quiet_stays|done|left|intros c ep Hc; by left].
      unfold ballot. by rewrite (q_elec _ _ Hq).
    + eexists _, taken. eapply inv_cast; [done|done|done| |done|done|done|done|done|done|done|done|done|done|done|].
      * rewrite Hnet. apply elem_of_app. right. by left.
      * apply (Hvote (Some (m_sender m))); [rewrite H8; apply elem_of_app; right; by left|]. unfold is_ack. by rewrite H9.
    + rewrite (Hkeep H1). destruct (inv_take votes taken w n s s' l1 l2 to m) as [taken' I']; try done; [by apply Htime|].
      by exists votes, taken'.
  - exists votes, taken. revert Hsize. apply failover_inv in E as [H1 H2|H1 H2|h H1 H2 H3 H4 H5 H6 H7 H8 H9|H1 H2 H3 H4]; intros Hsize.
    + eapply inv_plain; [done|done|apply left_all|done|done|by left|intros c ep Hc; by left].
    + eapply inv_plain; [done|done|apply left_all|done|done|by right|intros c ep Hc; by left].
    + by eapply inv_start.
    + eapply inv_plain; [done|done|apply left_all|done|done|by left|].
      intros c ep [[= -> ->]|Hc]%elem_of_cons; [right|by left]. eapply quorum; [done|done|by apply Hsize|done].
  - exists votes, taken. eapply inv_plain; [done|done|apply left_all|by apply quiet_stays|done|left|intros c ep Hc; by left].
    unfold ballot. by rewrite (q_elec _ _ Hq).
  - exists votes, taken. pose proof (left_removed w l1 x l2 Hnet) as [N1 N2]. destruct I as [I1 I2 I3 I4 I5 [I6 I6'] I7 I8].
    assert (Hsub : sublist (omap ack_vote (l1 ++ l2) ++ taken) (omap ack_vote (net w) ++ taken)) by (by apply sublist_app).
    split; try done; cbn [net].
    + intros y m Hm. by apply (I4 y), N1.
    + intros y m Hm. by apply (I5 y m), N1.
    + split; [by eapply sublist_NoDup|]. intros v Hv. apply I6'. by eapply sublist_subseteq.
Qed.

Lemma inv_reach w : timely = true -> reach w -> exists votes taken, inv votes taken w.
Proof.
  intros Ht (w0 & H0 & H). assert (exists votes taken, inv votes taken w0) as Hi by (exists [], []; by apply inv_initial).
  clear H0. induction H as [w|w w1 w2 H1 _ IH]; [done|]. apply IH. destruct Hi as (votes & taken & I). by eapply inv_wstep.
Qed.
End world.
