(* ===== verification/ClusterProps.v ===== *)
(** Elections: at most one replica wins an epoch while votes arrive in time, and two can
    win when they do not. *)

From stdpp Require Import gmap.
From S2P Require Import Prelude State Cluster ClusterBus ClusterFail ClusterFrame ClusterElect.

Local Open Scope Z_scope.

(** C2: In every history of a cluster in which the masters that vote in an epoch are the
    ones that its winners count, and votes arrive while the replica is waiting for them, at
    most one replica wins the election of an epoch: whatever is lost, delayed or reordered,
    and whatever else the instances do. *)
Theorem one_winner_per_epoch voters w c1 c2 ep : reach voters true w -> (c1, ep) ∈ won w -> (c2, ep) ∈ won w -> c1 = c2.
Proof.
  intros Hr H1 H2. destruct (inv_reach voters true w eq_refl Hr) as (votes & taken & I). by eapply winner_unique.
Qed.

(** ** Running a history *)

Inductive action :=
| a_deliver (n : id) (k : nat) (keep : bool) (e : cenv)
| a_failover (n : id) (e : cenv).

Section run.
Context (voters : Z -> gset id) (timely : bool).

Definition voters_ok (n : id) (l : list (option id * clusterMsg)) : bool :=
  forallb (λ x, negb (is_ack x.2) || bool_decide (n ∈ voters (m_currentEpoch x.2))) l.

Definition act (a : action) (w : world) : option world :=
  match a with
  | a_deliver n k keep e =>
      s ← locals w !! n;
      x ← net w !! k;
      if negb (bool_decide (x.1 = None) || bool_decide (x.1 = Some n)) || (is_ack x.2 && keep) ||
         (timely && is_ack x.2 && negb (failover_auth_sent (elec s)))
      then None
      else
        '(_, s') ← clusterProcessPacket e true x.2 s;
        if (currentEpoch s <=? currentEpoch s') && voters_ok n (outbox s')
        then Some (World (<[n := flush s']> (locals w)) ((if keep then net w else take k (net w) ++ drop (S k) (net w)) ++ outbox s') (won w))
        else None
  | a_failover n e =>
      s ← locals w !! n;
      '(b, s') ← clusterHandleSlaveFailover e s;
      if (currentEpoch s <=? currentEpoch s') &&
         (negb b || (size s =? Z.of_nat (base.size (voters (failover_auth_epoch (elec s))))))
      then Some (World (<[n := flush s']> (locals w)) (net w ++ outbox s')
                  (if b : bool then (n, failover_auth_epoch (elec s)) :: won w else won w))
      else None
  end.

Fixpoint run (l : list action) (w : world) : option world :=
  match l with [] => Some w | a :: l' => w' ← act a w; run l' w' end.

Lemma act_sound a w w' : act a w = Some w' -> wstep voters timely w w'.
Proof.
  destruct a as [n k keep e|n e]; cbn [act]; intros E.
  - apply bind_Some in E as (s & Hs & E). apply bind_Some in E as ([to m] & Hx & E). cbn [fst snd] in E.
    destruct (_ || _) eqn:Hc in E; [done|]. apply orb_false_iff in Hc as [Hc1 Htime]. apply orb_false_iff in Hc1 as [Hto Hkeep].
    apply bind_Some in E as ([[] s'] & Hp & E). destruct (_ && _) eqn:Hv in E; [|done]. injection E as <-.
    apply andb_true_iff in Hv as [Hmono Hv]. apply (ws_deliver _ _ _ n s (take k (net w)) (drop (S k) (net w)) to m keep e true s').
    + done.
    + symmetry. by apply take_drop_middle.
    + apply negb_false_iff, orb_true_iff in Hto as [H|H]; apply bool_decide_eq_true in H; tauto.
    + intros Ha. rewrite Ha in Hkeep. by destruct keep.
    + intros -> Ha. rewrite Ha in Htime. by apply negb_false_iff.
    + done.
    + lia.
    + intros to' h Hin Ha. unfold voters_ok in Hv. rewrite forallb_forall in Hv. specialize (Hv (to', h) (proj1 (list_elem_of_In _ _) Hin)).
      cbn in Hv. rewrite Ha in Hv. by apply bool_decide_eq_true in Hv.
  - apply bind_Some in E as (s & Hs & E). apply bind_Some in E as ([b s'] & Hp & E). destruct (_ && _) eqn:Hv in E; [|done].
    injection E as <-. apply andb_true_iff in Hv as [Hmono Hv]. eapply ws_failover; [done|done|lia|].
    intros ->. cbn in Hv. lia.
Qed.

Lemma run_sound l : forall w w', run l w = Some w' -> rtc (wstep voters timely) w w'.
Proof.
  induction l as [|a l IH]; intros w w' E; [injection E as <-; constructor|].
  apply bind_Some in E as (w1 & H1 & E). eapply rtc_l; [by eapply act_sound|by apply IH].
Qed.
End run.

(** ** A cluster *)

(** The masters 1, 2 and 3 serve a slot each; 3 has failed; 4 and 5 are its replicas. *)
Module Example.
Definition master (slot : Z) (fl : Z) (l : list id) : clusterNode :=
  Node (Z.lor CLUSTER_NODE_MASTER fl) 0 (Z.shiftl 1 slot) 1 l None 0 0 0 0 0 [].
Definition replica : clusterNode := Node CLUSTER_NODE_SLAVE 0 0 0 [] (Some 3%positive) 0 0 0 0 0 [].
Definition table : gmap id clusterNode :=
  {[ 1%positive := master 0 0 []; 2%positive := master 1 0 []; 3%positive := master 2 CLUSTER_NODE_FAIL [4%positive; 5%positive];
     4%positive := replica; 5%positive := replica ]}.
Definition local (n : id) : clusterState :=
  CState n 0 0 true 3 table ∅ {[ 0 := 1%positive; 1 := 2%positive; 2 := 3%positive ]} (Election 0 0 false 0 0) (Manual 0 None (-1) false) 1 0 [].
Definition w0 : world := World {[ 1%positive := local 1; 2%positive := local 2; 4%positive := local 4; 5%positive := local 5 ]} [] [].
Definition voters (_ : Z) : gset id := {[ 1%positive; 2%positive; 3%positive ]}.
Definition at_time (t : Z) : cenv := CEnv t t 1000 0 false 10 0 0 0 0 false true false [].

Lemma start : initial w0.
Proof.
  split; [done|done|]. intros n s. unfold w0. cbn [locals]. rewrite !lookup_insert_Some, lookup_singleton_Some.
  intros [[<- <-]|[_ [[<- <-]|[_ [[<- <-]|[_ [<- <-]]]]]]]; done.
Qed.

(** Replica 4 is elected. *)
Definition election : list action :=
  [a_failover 4 (at_time 10000); a_failover 4 (at_time 10500); a_deliver 1 1 true (at_time 10510); a_deliver 2 1 true (at_time 10520);
   a_deliver 4 2 false (at_time 10530); a_deliver 4 2 false (at_time 10540); a_failover 4 (at_time 10550)].

(** The votes for replica 4 in epoch 1 arrive when it waits for its second election. *)
Definition late_votes : list action :=
  [a_failover 4 (at_time 10000); a_failover 4 (at_time 10500); a_deliver 1 1 true (at_time 10510); a_deliver 2 1 true (at_time 10520);
   a_deliver 5 1 true (at_time 10530); a_failover 4 (at_time 15000); a_failover 5 (at_time 15000);
   a_deliver 4 2 false (at_time 15100); a_deliver 4 2 false (at_time 15110);
   a_failover 4 (at_time 15500); a_failover 5 (at_time 15500); a_failover 4 (at_time 15510);
   a_deliver 1 5 true (at_time 15600); a_deliver 2 5 true (at_time 15610);
   a_deliver 5 10 false (at_time 15620); a_deliver 5 10 false (at_time 15630); a_failover 5 (at_time 15650)].
End Example.

Lemma one_winner_per_epoch_witness : exists w, run Example.voters true Example.election Example.w0 = Some w /\
  (4%positive, 1) ∈ won w /\ forall c, (c, 1) ∈ won w -> c = 4%positive.
Proof.
  eexists. split; [vm_compute; reflexivity|]. split; [by left|]. intros c Hc.
  eapply (one_winner_per_epoch Example.voters); [|exact Hc|by left].
  exists Example.w0. split; [apply Example.start|]. apply (run_sound _ _ Example.election). vm_compute. reflexivity.
Defined.

(** C21: Two replicas of a failed master can win the election of the same epoch, although
    each master votes once in an epoch and the masters are the same throughout.  The votes
    for replica 4 in epoch 1 are delayed until it has scheduled its second election: it
    counts them, and counts on in epoch 2.  Both replicas then serve the slot of their
    master with the same configuration epoch. *)
Theorem late_votes_elect_two : exists w, reach Example.voters false w /\ (4%positive, 2) ∈ won w /\ (5%positive, 2) ∈ won w /\
  forall n, n = 4%positive \/ n = 5%positive -> exists s x, locals w !! n = Some s /\ slots s !! 2 = Some n /\
    nodes s !! n = Some x /\ configEpoch x = 2.
Proof.
  destruct (run Example.voters false Example.late_votes Example.w0) as [w|] eqn:E; [|by vm_compute in E].
  assert (Hr : reach Example.voters false w) by (exists Example.w0; split; [apply Example.start|by eapply run_sound]).
  exists w. split; [done|]. clear Hr. vm_compute in E. injection E as <-. split; [right; by left|]. split; [by left|].
  intros n [-> | ->]; (eexists; eexists; split; [vm_compute; reflexivity|]; split; [vm_compute; reflexivity|]; split; vm_compute; reflexivity).
Qed.
