(* ===== verification/ClusterSlots.v ===== *)
(** The hash slots: the table of owners agrees with the bitmaps and the counts of the
    nodes, and the owner with the greatest configuration epoch wins. *)

From stdpp Require Import gmap.
From S2P Require Import Prelude State Cluster ClusterBus ClusterFail.

Local Open Scope Z_scope.

(** ** Rules *)

Lemma wp_asks_c {A} s (f : clusterState -> A) (Q : A -> clusterState -> Prop) : Q (f s) s -> wp (asks f) s Q.
Proof. intros. by apply wp_bind, wp_get, wp_ret. Qed.
Lemma wp_update_c s f (Q : unit -> clusterState -> Prop) : Q tt (f s) -> wp (update f) s Q.
Proof. intros. by apply wp_bind, wp_get, wp_put. Qed.
Lemma wp_get_node s n x (Q : clusterNode -> clusterState -> Prop) : nodes s !! n = Some x -> Q x s -> wp (get_node n) s Q.
Proof. intros Hx HQ. apply wp_bind, wp_get. rewrite Hx. by apply wp_ret. Qed.
Lemma wp_set_node s n x f (Q : unit -> clusterState -> Prop) : nodes s !! n = Some x -> Q tt (with_nodes <[n := f x]> s) -> wp (set_node n f) s Q.
Proof. intros Hx HQ. eapply wp_bind, wp_get_node; [done|]. by apply wp_update_c. Qed.
Lemma wp_get_myself s x (Q : clusterNode -> clusterState -> Prop) : nodes s !! myself s = Some x -> Q x s -> wp get_myself s Q.
Proof. intros Hx HQ. apply wp_bind, wp_asks_c. by eapply wp_get_node. Qed.

(** ** The invariant *)

Definition owned (t : gmap Z id) (n : id) : Z := Z.of_nat (base.size (filter (λ '(_, m), m = n) t)).

Record slots_ok (s : clusterState) : Prop := {
  so_range j n : slots s !! j = Some n -> 0 <= j < CLUSTER_SLOTS;
  so_owner j n : slots s !! j = Some n -> exists x, nodes s !! n = Some x /\ nodeIsMaster x = true /\ bitmapTestBit (n_slots x) j = true;
  so_bit j n x : nodes s !! n = Some x -> 0 <= j -> bitmapTestBit (n_slots x) j = true -> slots s !! j = Some n;
  so_count n x : nodes s !! n = Some x -> numslots x = owned (slots s) n }.

Lemma owned_insert t j n m : t !! j = None -> owned (<[j := n]> t) m = owned t m + (if decide (n = m) then 1 else 0).
Proof.
  intros Hj. unfold owned. destruct (decide (n = m)) as [->|Hne].
  - rewrite map_filter_insert_True by done. rewrite map_size_insert_None; [lia|].
    apply map_lookup_filter_None. by left.
  - rewrite map_filter_insert_False by done. rewrite delete_id by done. lia.
Qed.

Lemma owned_delete t j n m : t !! j = Some n -> owned (delete j t) m = owned t m - (if decide (n = m) then 1 else 0).
Proof.
  intros Hj. rewrite <- (insert_delete_id t j n Hj) at 2. rewrite owned_insert by apply lookup_delete_eq. lia.
Qed.

Lemma owned_zero t n : owned t n = 0 <-> forall j, t !! j <> Some n.
Proof.
  unfold owned. split.
  - intros H j Hj. assert (filter (λ '(_, m), m = n) t = ∅) as He by (apply map_size_empty_inv; lia).
    assert (filter (λ '(_, m), m = n) t !! j = Some n) as Hf by (by apply map_lookup_filter_Some). by rewrite He in Hf.
  - intros H. assert (filter (λ '(_, m), m = n) t = ∅) as ->; [|done]. apply map_empty.
    intros j. apply map_lookup_filter_None. right. intros m Hj ->. by apply (H j).
Qed.

(** What slots moving between nodes leaves alone. *)
Definition role_view (x : clusterNode) : Z * option id * bool * bool * bool * list id :=
  (configEpoch x, slaveof x, nodeIsMaster x, nodeIsSlave x, nodeInHandshake x, slaves x).

Record moves (s s' : clusterState) : Prop := {
  mv_myself : myself s' = myself s;
  mv_importing : importing_slots_from s' = importing_slots_from s;
  mv_nodes n : role_view <$> nodes s' !! n = role_view <$> nodes s !! n }.

#[export] Instance moves_preorder : PreOrder moves.
Proof.
  split; [done|]. intros s1 s2 s3 [A1 A2 A3] [B1 B2 B3]. split; [congruence..|]. intros n. by rewrite B3, A3.
Qed.

Lemma moves_node s s' n x : moves s s' -> nodes s !! n = Some x -> exists x', nodes s' !! n = Some x' /\ role_view x' = role_view x.
Proof.
  intros H Hx. pose proof (mv_nodes _ _ H n) as E. rewrite Hx in E. destruct (nodes s' !! n) as [x'|]; [|done].
  exists x'. split; [done|]. by apply (inj Some).
Qed.

Lemma moves_sym s s' : moves s s' -> moves s' s.
Proof. intros [A1 A2 A3]. by split. Qed.

Lemma moves_set s n x x' : nodes s !! n = Some x -> role_view x' = role_view x -> moves s (with_nodes <[n := x']> s).
Proof.
  intros Hx E. split; [done|done|]. intros m. cbn. destruct (decide (m = n)) as [->|].
  - rewrite lookup_insert_eq, Hx. cbn. by rewrite E.
  - by rewrite lookup_insert_ne.
Qed.

Lemma has_migrate f m : Z.land 256 m = 0 -> has (Z.lor f CLUSTER_NODE_MIGRATE_TO) m = has f m.
Proof. intros H. unfold has, CLUSTER_NODE_MIGRATE_TO. rewrite Z.land_lor_distr_l, H, Z.lor_0_r. done. Qed.

(** ** Single slots *)

Lemma testbit_set b j k : 0 <= j -> 0 <= k -> bitmapTestBit (bitmapSetBit b j) k = (k =? j) || bitmapTestBit b k.
Proof.
  intros Hj Hk. unfold bitmapTestBit, bitmapSetBit. rewrite Z.lor_spec, Z.shiftl_1_l, Z.pow2_bits_eqb by done.
  rewrite (Z.eqb_sym j k). by rewrite orb_comm.
Qed.
Lemma testbit_clear b j k : 0 <= j -> 0 <= k -> bitmapTestBit (bitmapClearBit b j) k = negb (k =? j) && bitmapTestBit b k.
Proof.
  intros Hj Hk. unfold bitmapTestBit, bitmapClearBit. rewrite Z.ldiff_spec, Z.shiftl_1_l, Z.pow2_bits_eqb by done.
  rewrite (Z.eqb_sym j k). by rewrite andb_comm.
Qed.

Lemma wp_setbit s n x j (Q : bool -> clusterState -> Prop) : nodes s !! n = Some x -> bitmapTestBit (n_slots x) j = false ->
  (forall s' x', nodes s' !! n = Some x' -> n_slots x' = bitmapSetBit (n_slots x) j -> numslots x' = numslots x + 1 ->
     (forall m, m <> n -> nodes s' !! m = nodes s !! m) -> slots s' = slots s -> moves s s' -> Q false s') ->
  wp (clusterNodeSetSlotBit n j) s Q.
Proof.
  intros Hx Hb HQ. eapply wp_bind, wp_get_node; [done|]. cbv zeta. rewrite Hb. eapply wp_bind, wp_set_node; [done|].
  set (x1 := set_slots _ _ x). set (s1 := with_nodes _ s). assert (Hx1 : nodes s1 !! n = Some x1) by (cbn; by rewrite lookup_insert_eq).
  assert (Hm1 : moves s s1) by (by eapply moves_set).
  assert (Ho1 : forall m, m <> n -> nodes s1 !! m = nodes s !! m) by (intros m Hne; cbn; by rewrite lookup_insert_ne).
  apply wp_bind. eapply wp_bind, wp_get_node; [done|]. apply wp_bind.
  eapply wp_mono with (Q := λ b s2, s2 = s1).
  { destruct (numslots x1 =? 1); [|by apply wp_ret]. by apply wp_bind, wp_asks_c, wp_ret. }
  intros b s2 ->. destruct b.
  - eapply wp_set_node; [done|]. apply wp_ret. eapply HQ; cbn; [by rewrite lookup_insert_eq|done|done| |done|].
    + intros m Hne. rewrite lookup_insert_ne by done. by apply Ho1.
    + etransitivity; [exact Hm1|]. eapply moves_set; [done|]. unfold role_view. cbn. unfold nodeIsMaster, nodeIsSlave, nodeInHandshake. cbn.
      by rewrite !has_migrate.
  - apply wp_ret, wp_ret. by eapply HQ.
Qed.

Lemma wp_addslot s n x j (Q : bool -> clusterState -> Prop) : slots_ok s -> nodes s !! n = Some x -> nodeIsMaster x = true ->
  0 <= j < CLUSTER_SLOTS -> slots s !! j = None ->
  (forall s', slots_ok s' -> moves s s' -> slots s' = <[j := n]> (slots s) -> Q true s') ->
  wp (clusterAddSlot n j) s Q.
Proof.
  intros [R1 R2 R3 R4] Hx Hm Hj Hfree HQ. unfold clusterAddSlot. apply wp_bind, wp_asks_c. rewrite Hfree.
  assert (Hb : bitmapTestBit (n_slots x) j = false).
  { destruct (bitmapTestBit (n_slots x) j) eqn:E; [|done]. exfalso. specialize (R3 j n x Hx (proj1 Hj) E). congruence. }
  apply wp_bind. eapply wp_setbit; [done|done|]. intros s1 x1 Hx1 Es En Ho Et Hmv. eapply wp_bind, wp_update_c, wp_ret, HQ.
  - assert (Hview : role_view x1 = role_view x).
    { destruct (moves_node _ _ _ _ Hmv Hx) as (x2 & Hx2 & E). congruence. }
    assert (Hnode : forall m y, nodes s1 !! m = Some y -> m = n /\ y = x1 \/ m <> n /\ nodes s !! m = Some y).
    { intros m y Hy. destruct (decide (m = n)) as [->|Hne]; [left; split; congruence|right; by rewrite <- Ho]. }
    split; cbn [slots nodes with_slots]; rewrite ?Et.
    + intros k m. rewrite lookup_insert_Some. intros [[<- <-]|[_ H]]; [done|by eapply R1].
    + intros k m. rewrite lookup_insert_Some. intros [[<- <-]|[Hne H]].
      * exists x1. split; [done|]. split; [unfold role_view in Hview; congruence|]. rewrite Es, testbit_set by lia. by rewrite Z.eqb_refl.
      * destruct (R2 k m H) as (y & Hy & M & B). destruct (decide (m = n)) as [->|Hmn].
        -- exists x1. split; [done|]. split; [unfold role_view in Hview; congruence|]. rewrite Es, testbit_set by (specialize (R1 k n H); lia).
           rewrite Hx in Hy. injection Hy as <-. rewrite B. apply orb_true_r.
        -- exists y. by rewrite Ho.
    + intros k m y Hy Hk Hbit. destruct (Hnode m y Hy) as [[-> ->]|[Hne Hy0]].
      * rewrite Es, testbit_set in Hbit by lia. destruct (Z.eqb_spec k j) as [->|Hkj]; [by rewrite lookup_insert_eq|].
        rewrite lookup_insert_ne by congruence. by eapply R3.
      * assert (slots s !! k = Some m) as Hs by (by eapply R3). rewrite lookup_insert_ne; [done|]. intros ->. congruence.
    + intros m y Hy. rewrite owned_insert by done. destruct (Hnode m y Hy) as [[-> ->]|[Hne Hy0]].
      * rewrite En, decide_True by done. by rewrite (R4 n x Hx).
      * rewrite decide_False by congruence. rewrite (R4 m y Hy0). lia.
  - etransitivity; [exact Hmv|]. by split.
  - cbn. by rewrite Et.
Qed.

Lemma wp_delslot s j n (Q : bool -> clusterState -> Prop) : slots_ok s -> slots s !! j = Some n ->
  (forall s', slots_ok s' -> moves s s' -> slots s' = delete j (slots s) -> Q true s') ->
  wp (clusterDelSlot j) s Q.
Proof.
  intros [R1 R2 R3 R4] Hj HQ. unfold clusterDelSlot. apply wp_bind, wp_asks_c. rewrite Hj.
  destruct (R2 j n Hj) as (x & Hx & Hm & Hb). pose proof (R1 j n Hj) as Hr.
  eapply wp_bind, wp_get_node; [done|]. rewrite Hm. apply wp_bind, wp_ret. apply wp_bind.
  eapply wp_bind, wp_get_node; [done|]. cbv zeta. rewrite Hb. eapply wp_bind, wp_set_node; [done|]. apply wp_ret. cbn [negb].
  set (x1 := set_slots _ _ x). set (s1 := with_nodes _ s). eapply wp_bind, wp_update_c, wp_ret, HQ.
  - assert (Hnode : forall m y, nodes s1 !! m = Some y -> m = n /\ y = x1 \/ m <> n /\ nodes s !! m = Some y).
    { intros m y. cbn. destruct (decide (m = n)) as [->|Hne]; [rewrite lookup_insert_eq; intros [= <-]; by left|].
      rewrite lookup_insert_ne by done. by right. }
    split; cbn [slots nodes with_slots].
    + intros k m. rewrite lookup_delete_Some. intros [_ H]. by eapply R1.
    + intros k m. rewrite lookup_delete_Some. intros [Hne H]. destruct (R2 k m H) as (y & Hy & M & B). cbn.
      destruct (decide (m = n)) as [->|Hmn].
      * exists x1. rewrite lookup_insert_eq. split; [done|]. rewrite Hx in Hy. injection Hy as <-. split; [done|]. cbn.
        rewrite testbit_clear by (specialize (R1 k n H); lia). rewrite B. by rewrite (proj2 (Z.eqb_neq k j)) by congruence.
      * exists y. by rewrite lookup_insert_ne.
    + intros k m y Hy Hk Hbit. destruct (Hnode m y Hy) as [[-> ->]|[Hne Hy0]].
      * cbn in Hbit. rewrite testbit_clear in Hbit by lia. apply andb_true_iff in Hbit as [H1 H2].
        apply negb_true_iff, Z.eqb_neq in H1. rewrite lookup_delete_ne by congruence. by eapply R3.
      * assert (slots s !! k = Some m) as Hs by (by eapply R3). rewrite lookup_delete_ne; [done|]. intros ->. congruence.
    + intros m y Hy. rewrite (owned_delete _ _ _ _ Hj). destruct (Hnode m y Hy) as [[-> ->]|[Hne Hy0]].
      * rewrite decide_True by done. cbn. by rewrite (R4 n x Hx).
      * rewrite decide_False by congruence. rewrite (R4 m y Hy0). lia.
  - transitivity s1; [by eapply moves_set|by split].
  - done.
Qed.

(** ** Claims *)

(** The owner of a slot after [sender] has claimed the slots of [bitmap] with [epoch]. *)
Definition wins (s : clusterState) (epoch bitmap : Z) (j : Z) : bool :=
  bitmapTestBit bitmap j && bool_decide (importing_slots_from s !! j = None) &&
  match slots s !! j with
  | None => true
  | Some n => match nodes s !! n with Some x => configEpoch x <? epoch | None => false end
  end.

Definition owner_after (s : clusterState) (sender : id) (epoch bitmap : Z) (j : Z) : option id :=
  if wins s epoch bitmap j then Some sender else slots s !! j.

Lemma wins_moves s s' epoch bitmap j : moves s s' -> slots s' !! j = slots s !! j -> wins s' epoch bitmap j = wins s epoch bitmap j.
Proof.
  intros [M1 M2 M3] E. unfold wins. rewrite M2, E. destruct (slots s !! j) as [n|]; [|done]. specialize (M3 n).
  destruct (nodes s' !! n) as [x'|], (nodes s !! n) as [x|]; try done. apply (inj Some) in M3. unfold role_view in M3.
  by injection M3 as ->.
Qed.

Lemma wp_claim sender epoch bitmap cur : forall js r s, slots_ok s ->
  (exists x, nodes s !! sender = Some x /\ nodeIsMaster x = true) -> NoDup js -> (forall j, j ∈ js -> 0 <= j < CLUSTER_SLOTS) ->
  wp (claim_slots sender epoch bitmap cur js r) s (λ _ s', slots_ok s' /\ moves s s' /\
    forall j, slots s' !! j = if bool_decide (j ∈ js) then owner_after s sender epoch bitmap j else slots s !! j).
Proof.
  induction js as [|j js IH]; intros r s Hok (x & Hx & Hm) Hnd Hr.
  { apply wp_ret. split; [done|]. split; [reflexivity|]. intros j. by rewrite bool_decide_eq_false_2 by apply not_elem_of_nil. }
  apply NoDup_cons in Hnd as [Hj Hnd].
  assert (Hskip : forall r', owner_after s sender epoch bitmap j = slots s !! j ->
    wp (claim_slots sender epoch bitmap cur js r') s (λ _ s', slots_ok s' /\ moves s s' /\
      forall k, slots s' !! k = if bool_decide (k ∈ j :: js) then owner_after s sender epoch bitmap k else slots s !! k)).
  { intros r' Ho. eapply wp_mono; [apply IH; [done|by exists x|done|intros k Hk; apply Hr; by right]|].
    intros _ s' (H1 & H2 & H3). split; [done|]. split; [done|]. intros k. rewrite H3. destruct (decide (k = j)) as [->|Hne].
    - rewrite (bool_decide_eq_false_2 _ Hj), bool_decide_eq_true_2 by by left. done.
    - by rewrite (bool_decide_ext (k ∈ js) (k ∈ j :: js)) by (rewrite elem_of_cons; tauto). }
  assert (Htake : forall r' s0, slots_ok s0 -> moves s s0 -> slots s0 = delete j (slots s) -> wins s epoch bitmap j = true ->
    wp (_ ← clusterAddSlot sender j; claim_slots sender epoch bitmap cur js r') s0 (λ _ s', slots_ok s' /\ moves s s' /\
      forall k, slots s' !! k = if bool_decide (k ∈ j :: js) then owner_after s sender epoch bitmap k else slots s !! k)).
  { intros r' s0 Hok0 Hmv0 Es Hw. destruct (moves_node _ _ _ _ Hmv0 Hx) as (x0 & Hx0 & Hv0). apply wp_bind.
    eapply wp_addslot; [done|exact Hx0|unfold role_view in Hv0; congruence|apply Hr; by left|rewrite Es; apply lookup_delete_eq|].
    intros s1 Hok1 Hmv1 E1. assert (Hmv : moves s s1) by (by transitivity s0). destruct (moves_node _ _ _ _ Hmv Hx) as (x1 & Hx1 & Hv1).
    eapply wp_mono; [apply IH; [done|exists x1; split; [done|unfold role_view in Hv1; congruence]|done|intros k Hk; apply Hr; by right]|].
    intros _ s' (H1 & H2 & H3). split; [done|]. split; [by transitivity s1|]. intros k. rewrite H3. destruct (decide (k = j)) as [->|Hne].
    - rewrite (bool_decide_eq_false_2 _ Hj), bool_decide_eq_true_2 by by left. unfold owner_after. rewrite Hw, E1. apply lookup_insert_eq.
    - assert (Ek : slots s1 !! k = slots s !! k) by (rewrite E1, Es, lookup_insert_ne, lookup_delete_ne; congruence).
      rewrite (bool_decide_ext (k ∈ js) (k ∈ j :: js)) by (rewrite elem_of_cons; tauto).
      unfold owner_after. rewrite (wins_moves _ _ _ _ _ Hmv Ek). by rewrite Ek. }
  cbn [claim_slots]. destruct (bitmapTestBit bitmap j) eqn:Hbit; cbn [negb].
  2: { apply Hskip. unfold owner_after, wins. by rewrite Hbit. }
  destruct r as [[r1 r2] r3]. cbv zeta. apply wp_bind, wp_get.
  destruct (bool_decide (slots s !! j = Some sender)) eqn:Hown; cbn [orb].
  { apply bool_decide_eq_true in Hown. apply Hskip. unfold owner_after. destruct (wins _ _ _ _); [done|done]. }
  destruct (bool_decide (is_Some (importing_slots_from s !! j))) eqn:Himp.
  { apply bool_decide_eq_true in Himp as [i Hi]. apply Hskip. unfold owner_after, wins. rewrite Hi.
    rewrite bool_decide_eq_false_2 by done. by rewrite andb_false_r. }
  assert (Hi : importing_slots_from s !! j = None) by (apply bool_decide_eq_false in Himp; by apply eq_None_not_Some).
  apply wp_bind. destruct (slots s !! j) as [n|] eqn:Hsl.
  - destruct (so_owner _ Hok j n Hsl) as (y & Hy & _). eapply wp_bind, wp_get_node; [done|]. apply wp_ret.
    assert (Hw : wins s epoch bitmap j = (configEpoch y <? epoch)).
    { unfold wins. rewrite Hbit, Hi, Hsl, Hy. by rewrite bool_decide_eq_true_2. }
    destruct (configEpoch y <? epoch) eqn:He; cbn [negb]; [|apply Hskip; unfold owner_after; by rewrite Hw, Hsl].
    apply wp_bind. eapply wp_delslot; [done|done|]. intros s0 Hok0 Hmv0 Es. by apply Htake.
  - apply wp_ret. cbn [negb]. unfold clusterDelSlot at 1. apply wp_bind, wp_bind, wp_asks_c. rewrite Hsl. apply wp_ret. apply Htake; [done|done| |].
    + by rewrite delete_id.
    + unfold wins. rewrite Hbit, Hi, Hsl. by rewrite bool_decide_eq_true_2.
Qed.

Lemma slots_from_elem n : forall j k, k ∈ slots_from n j <-> j <= k < j + Z.of_nat n.
Proof.
  induction n as [|n IH]; intros j k; cbn [slots_from]; [rewrite elem_of_nil; lia|].
  rewrite elem_of_cons, IH. lia.
Qed.
Lemma slots_from_nodup n : forall j, NoDup (slots_from n j).
Proof. induction n as [|n IH]; intros j; cbn [slots_from]; constructor; [rewrite slots_from_elem; lia|apply IH]. Qed.
Lemma all_slots_elem j : j ∈ all_slots <-> 0 <= j < CLUSTER_SLOTS.
Proof. unfold all_slots. rewrite slots_from_elem. unfold CLUSTER_SLOTS. lia. Qed.
