(* ===== verification/ClusterRole.v ===== *)
(** The role of an instance, and the slot configuration that it hears of. *)

From stdpp Require Import gmap.
From S2P Require Import Prelude State Cluster ClusterBus ClusterFail ClusterSlots.

Local Open Scope Z_scope.

(** ** Roles *)

(** A node is a master or a replica, unless it is in a handshake; a replica that has a
    master has one that is known, the replicas of a node are known, and this instance
    is a master or has one, and is in no handshake. *)
Record role_ok (s : clusterState) : Prop := {
  ro_me : exists x, nodes s !! myself s = Some x /\ (nodeIsMaster x = true <-> slaveof x = None);
  ro_slaveof n x m : nodes s !! n = Some x -> slaveof x = Some m -> is_Some (nodes s !! m);
  ro_kind n x : nodes s !! n = Some x -> nodeInHandshake x = false -> nodeIsSlave x = negb (nodeIsMaster x);
  ro_slaves n x m : nodes s !! n = Some x -> m ∈ slaves x -> is_Some (nodes s !! m);
  ro_joined x : nodes s !! myself s = Some x -> nodeInHandshake x = false }.

(** What becoming a replica leaves alone: [me] is this instance. *)
Definition dview (me n : id) (x : clusterNode) : Z * Z * Z * option (bool * bool * option id) * bool :=
  (configEpoch x, n_slots x, numslots x, if decide (n = me) then None else Some (nodeIsMaster x, nodeIsSlave x, slaveof x), nodeInHandshake x).

Record demotes (s s' : clusterState) : Prop := {
  dm_myself : myself s' = myself s;
  dm_slots : slots s' = slots s;
  dm_importing : importing_slots_from s' = importing_slots_from s \/ importing_slots_from s' = ∅;
  dm_nodes n : dview (myself s) n <$> nodes s' !! n = dview (myself s) n <$> nodes s !! n }.

#[export] Instance demotes_preorder : PreOrder demotes.
Proof.
  split; [intros s; by split; [..|left|]|]. intros s1 s2 s3 [A1 A2 A3 A4] [B1 B2 B3 B4]. split; [congruence..| |].
  - destruct B3 as [->|]; [done|by right].
  - intros n. rewrite A1 in B4. by rewrite B4, A4.
Qed.

Lemma demotes_set s n x x' : nodes s !! n = Some x -> dview (myself s) n x' = dview (myself s) n x -> demotes s (with_nodes <[n := x']> s).
Proof.
  intros Hx E. split; [done|done|by left|]. intros m. cbn. destruct (decide (m = n)) as [->|].
  - rewrite lookup_insert_eq, Hx. cbn. by rewrite E.
  - by rewrite lookup_insert_ne.
Qed.

Lemma demotes_node s s' n x : demotes s s' -> nodes s !! n = Some x ->
  exists x', nodes s' !! n = Some x' /\ dview (myself s) n x' = dview (myself s) n x.
Proof.
  intros H Hx. pose proof (dm_nodes _ _ H n) as E. rewrite Hx in E. destruct (nodes s' !! n) as [x'|]; [|done].
  exists x'. split; [done|]. by apply (inj Some).
Qed.

Lemma demotes_node_back s s' n x' : demotes s s' -> nodes s' !! n = Some x' ->
  exists x, nodes s !! n = Some x /\ dview (myself s) n x' = dview (myself s) n x.
Proof.
  intros H Hx. pose proof (dm_nodes _ _ H n) as E. rewrite Hx in E. destruct (nodes s !! n) as [x|]; [|done].
  exists x. split; [done|]. by apply (inj Some).
Qed.

Lemma demotes_ok s s' x : demotes s s' -> slots_ok s -> nodes s !! myself s = Some x -> numslots x = 0 -> slots_ok s'.
Proof.
  intros D [R1 R2 R3 R4] Hx H0. rewrite (R4 _ x Hx) in H0. rewrite owned_zero in H0. split; rewrite (dm_slots _ _ D).
  - done.
  - intros j n Hj. destruct (R2 j n Hj) as (y & Hy & M & B). destruct (demotes_node _ _ _ _ D Hy) as (y' & Hy' & E). exists y'. split; [done|].
    unfold dview in E. destruct (decide (n = myself s)) as [->|_]; [by destruct (H0 j)|].
    assert (n_slots y' = n_slots y) as -> by congruence. assert (nodeIsMaster y' = nodeIsMaster y) as -> by congruence. done.
  - intros j n y' Hy'. destruct (demotes_node_back _ _ _ _ D Hy') as (y & Hy & E). unfold dview in E. assert (n_slots y' = n_slots y) as -> by congruence. by apply R3.
  - intros n y' Hy'. destruct (demotes_node_back _ _ _ _ D Hy') as (y & Hy & E). unfold dview in E. assert (numslots y' = numslots y) as -> by congruence. by apply R4.
Qed.

Lemma has_clear_other f k m : Z.land k m = 0 -> has (Z.ldiff f k) m = has f m.
Proof.
  intros H. unfold has. f_equal. f_equal. apply Z.bits_inj'. intros n _. rewrite !Z.land_spec, Z.ldiff_spec.
  apply (f_equal (λ z, Z.testbit z n)) in H. rewrite Z.land_spec, Z.bits_0 in H.
  destruct (Z.testbit f n), (Z.testbit k n), (Z.testbit m n); done.
Qed.

(** The role of a node. *)
Definition rview (x : clusterNode) : option id * bool * bool := (slaveof x, nodeIsMaster x, nodeIsSlave x).

(** All roles stay. *)
Definition same_roles (s s' : clusterState) : Prop :=
  forall y y' k, nodes s !! k = Some y -> nodes s' !! k = Some y' -> rview y' = rview y.

Lemma same_roles_refl s : same_roles s s.
Proof. intros y y' k H1 H2. by simplify_eq. Qed.
Lemma same_roles_set s n x x' : nodes s !! n = Some x -> rview x' = rview x -> same_roles s (with_nodes <[n := x']> s).
Proof.
  intros Hx E y y' k Hy. cbn. destruct (decide (k = n)) as [->|]; [|rewrite lookup_insert_ne by done; intros H; by simplify_eq].
  rewrite lookup_insert_eq. intros [= <-]. congruence.
Qed.

Lemma demotes_set_flags s n x x' : nodes s !! n = Some x -> rview x' = rview x -> nodeInHandshake x' = nodeInHandshake x ->
  configEpoch x' = configEpoch x -> n_slots x' = n_slots x -> numslots x' = numslots x -> demotes s (with_nodes <[n := x']> s).
Proof.
  unfold rview. intros Hx E E1 E2 E3 E4. eapply demotes_set; [done|]. unfold dview. rewrite E1, E2, E3, E4.
  do 2 f_equal. destruct (decide _); [done|]. congruence.
Qed.

(** No replica but [n] is new to its master. *)
Definition slaves_in (n : id) (s s' : clusterState) : Prop :=
  forall k y' m, nodes s' !! k = Some y' -> m ∈ slaves y' -> m = n \/ exists y, nodes s !! k = Some y /\ m ∈ slaves y.

Lemma slaves_in_refl n s : slaves_in n s s.
Proof. intros k y' m H1 H2. right. by exists y'. Qed.
Lemma slaves_in_set n s k x x' : nodes s !! k = Some x -> (forall m, m ∈ slaves x' -> m = n \/ m ∈ slaves x) ->
  slaves_in n s (with_nodes <[k := x']> s).
Proof.
  intros Hx E i y' m. cbn. destruct (decide (i = k)) as [->|]; [|rewrite lookup_insert_ne by done; right; by exists y'].
  rewrite lookup_insert_eq. intros [= <-] Hm. destruct (E m Hm); [by left|right; by exists x].
Qed.

Lemma slaves_in_known n s s' : slaves_in n s s' -> role_ok s -> is_Some (nodes s !! n) ->
  forall k y' m, nodes s' !! k = Some y' -> m ∈ slaves y' -> is_Some (nodes s !! m).
Proof. intros H Hro Hn k y' m Hy Hm. destruct (H k y' m Hy Hm) as [->|(y & Hk & Hin)]; [done|by eapply ro_slaves]. Qed.

Lemma remove_first_in x l l' m : remove_first x l = Some l' -> m ∈ l' -> m ∈ l.
Proof.
  revert l'. induction l as [|y l IH]; intros l' E; [done|]. cbn [remove_first] in E. case_bool_decide.
  - injection E as <-. by right.
  - apply bind_Some in E as (l2 & E2 & [= <-]). rewrite !elem_of_cons. intros [->|Hm]; [by left|right; by eapply IH].
Qed.

Lemma wp_removeslave s m n x (Q : bool -> clusterState -> Prop) : nodes s !! m = Some x ->
  (forall b s', demotes s s' -> same_roles s s' -> slaves_in n s s' -> Q b s') -> wp (clusterNodeRemoveSlave m n) s Q.
Proof.
  intros Hx HQ. eapply wp_bind, wp_get_node; [done|]. destruct (remove_first n (slaves x)) as [l|] eqn:El.
  2: { apply wp_ret, HQ; [reflexivity|apply same_roles_refl|apply slaves_in_refl]. }
  eapply wp_bind, wp_set_node; [done|]. apply wp_ret.
  set (x' := set_flags _ _). assert (Hm : rview x' = rview x /\ nodeInHandshake x' = nodeInHandshake x).
  { unfold rview, nodeIsMaster, nodeIsSlave, nodeInHandshake, x'. cbn. destruct l; [|done]. split; [f_equal; [f_equal|]|]; by apply has_clear_other. }
  destruct Hm. apply HQ; [by eapply demotes_set_flags|by eapply same_roles_set|].
  eapply slaves_in_set; [done|]. intros k Hk. right. by eapply remove_first_in.
Qed.

Lemma wp_addslave s m n x (Q : bool -> clusterState -> Prop) : nodes s !! m = Some x ->
  (forall b s', demotes s s' -> same_roles s s' -> slaves_in n s s' -> Q b s') -> wp (clusterNodeAddSlave m n) s Q.
Proof.
  intros Hx HQ. eapply wp_bind, wp_get_node; [done|]. case_bool_decide.
  { apply wp_ret, HQ; [reflexivity|apply same_roles_refl|apply slaves_in_refl]. }
  eapply wp_bind, wp_set_node; [done|]. apply wp_ret.
  set (x' := set_flags _ _). assert (Hm : rview x' = rview x /\ nodeInHandshake x' = nodeInHandshake x).
  { unfold rview, nodeIsMaster, nodeIsSlave, nodeInHandshake, x'. cbn. by rewrite !has_migrate. }
  destruct Hm. apply HQ; [by eapply demotes_set_flags|by eapply same_roles_set|].
  eapply slaves_in_set; [done|]. intros k. cbn. rewrite elem_of_app, list_elem_of_singleton. tauto.
Qed.

(** The flags of a node that becomes a replica. *)
Lemma slave_flags f x : let x' := set_flags (Z.lor (clear f (Z.lor CLUSTER_NODE_MASTER CLUSTER_NODE_MIGRATE_TO)) CLUSTER_NODE_SLAVE) x in
  nodeIsMaster x' = false /\ nodeIsSlave x' = true /\ nodeInHandshake x' = has f CLUSTER_NODE_HANDSHAKE.
Proof.
  unfold nodeIsMaster, nodeIsSlave, nodeInHandshake, has, clear. cbn [flags set_flags]. repeat split.
  - replace (Z.land _ _) with 0; [done|]. symmetry. apply Z.bits_inj'. intros i Hi. rewrite Z.land_spec, Z.lor_spec, Z.ldiff_spec, Z.bits_0.
    destruct (decide (i = 0)) as [->|]; [by destruct (Z.testbit f 0)|].
    replace (Z.testbit CLUSTER_NODE_MASTER i) with false; [by rewrite andb_false_r|]. symmetry. by apply (Z.pow2_bits_false 0).
  - apply negb_true_iff, Z.eqb_neq. intros E. apply (f_equal (λ z, Z.testbit z 1)) in E.
    rewrite Z.land_spec, Z.lor_spec, Z.bits_0 in E. by rewrite orb_true_r in E.
  - by rewrite Z.land_lor_distr_l, Z.lor_0_r; apply has_clear_other.
Qed.

Lemma wp_SetMaster s n x (Q : unit -> clusterState -> Prop) : role_ok s -> n <> myself s -> is_Some (nodes s !! n) ->
  nodes s !! myself s = Some x -> numslots x = 0 ->
  (forall s', demotes s s' -> role_ok s' -> Q tt s') -> wp (clusterSetMaster n) s Q.
Proof.
  intros Hro Hne [y Hy] Hx H0 HQ. destruct (ro_me _ Hro) as (x0 & Hx0 & Hrole).
  pose proof (ro_slaveof _ Hro) as Hsl. pose proof (ro_kind _ Hro) as Hkind. rewrite Hx in Hx0. injection Hx0 as <-.
  apply wp_bind, wp_asks_c. eapply wp_bind, wp_get_node; [done|]. rewrite bool_decide_eq_false_2 by done. rewrite H0. cbn [orb negb Z.eqb].
  apply wp_bind. eapply wp_mono with (Q := λ _ s1, demotes s s1 /\ slaves_in (myself s) s s1 /\
    (exists x1, nodes s1 !! myself s = Some x1 /\ nodeIsMaster x1 = false /\ (nodeInHandshake x1 = false -> nodeIsSlave x1 = true))).
  { destruct (nodeIsMaster x) eqn:Hm.
    - eapply wp_bind, wp_set_node; [done|]. apply wp_update_c. destruct (slave_flags (flags x) x) as (F1 & F2 & F3).
      set (x1 := set_flags _ x) in *. split.
      + transitivity (with_nodes <[myself s := x1]> s); [eapply demotes_set; [done|]; unfold dview; rewrite !decide_True, F3 by done; done|].
        split; [done|done|by right|done].
      + split; [by eapply slaves_in_set; [done|right]|]. exists x1. cbn. by rewrite lookup_insert_eq.
    - destruct (slaveof x) as [m|] eqn:Hs; [|discriminate (proj2 Hrole eq_refl)].
      destruct (Hsl _ _ _ Hx Hs) as [z Hz]. apply wp_bind. eapply wp_removeslave; [done|]. intros b s1 D1 Hk Hin. apply wp_ret.
      split; [done|]. split; [done|]. destruct (demotes_node _ _ _ _ D1 Hx) as (x1 & Hx1 & E1).
      exists x1. split; [done|]. specialize (Hk x x1 _ Hx Hx1). unfold rview, dview in *. split; [congruence|]. intros Hh.
      assert (nodeIsSlave x1 = nodeIsSlave x) as -> by congruence. rewrite (Hkind _ _ Hx) by congruence. by rewrite Hm. }
  intros [] s1 (D1 & In1 & x1 & Hx1 & Hm1 & Hk1). eapply wp_bind, wp_set_node; [done|]. set (s2 := with_nodes _ s1).
  assert (D2 : demotes s s2).
  { transitivity s1; [done|]. eapply demotes_set; [done|]. unfold dview. rewrite (dm_myself _ _ D1). by rewrite !decide_True. }
  destruct (demotes_node _ _ _ _ D2 Hy) as (y2 & Hy2 & _). apply wp_bind. eapply wp_addslave; [exact Hy2|]. intros b s3 D3 Hk3 In3.
  unfold resetManualFailover. apply wp_update_c. set (s4 := with_mf _ s3).
  assert (D4 : demotes s s4) by (transitivity s2; [done|]; transitivity s3; [done|by split; [..|left|]]).
  assert (Hdom : forall k, is_Some (nodes s !! k) -> is_Some (nodes s3 !! k)).
  { intros k' [w Hw]. destruct (demotes_node _ _ _ _ D4 Hw) as (w' & Hw' & _). by exists w'. }
  apply HQ; [done|]. assert (Hx2 : nodes s2 !! myself s = Some (set_slaveof (Some n) x1)) by (cbn; by rewrite lookup_insert_eq).
  destruct (demotes_node s2 s3 (myself s) _ D3 Hx2) as (x3 & Hx3 & Hv3). pose proof (Hk3 _ _ _ Hx2 Hx3) as E.
  unfold rview, nodeIsMaster, nodeIsSlave, dview, nodeInHandshake in E, Hv3. cbn in E, Hv3. split.
  - exists x3. rewrite (dm_myself _ _ D4). split; [done|]. unfold nodeIsMaster in *. split; congruence.
  - intros k z m Hz Hm. change (nodes s4) with (nodes s3) in *.
    apply Hdom. destruct (decide (k = myself s)) as [->|Hk].
    + rewrite Hx3 in Hz. injection Hz as <-. assert (m = n) as -> by congruence. by exists y.
    + destruct (demotes_node_back _ _ _ _ D4 Hz) as (z0 & Hz0 & Ez). unfold dview in Ez. rewrite !decide_False in Ez by done.
      eapply Hsl; [exact Hz0|congruence].
  - intros k z Hz Hh. change (nodes s4) with (nodes s3) in *. destruct (decide (k = myself s)) as [->|Hk].
    + rewrite Hx3 in Hz. injection Hz as <-. unfold nodeInHandshake, nodeIsMaster, nodeIsSlave in *.
      assert (has (flags x3) CLUSTER_NODE_MASTER = false) as -> by congruence. cbn. 
      assert (has (flags x3) CLUSTER_NODE_SLAVE = has (flags x1) CLUSTER_NODE_SLAVE) as -> by congruence. apply Hk1. congruence.
    + destruct (demotes_node_back _ _ _ _ D4 Hz) as (z0 & Hz0 & Ez). unfold dview in Ez. rewrite !decide_False in Ez by done.
      assert (nodeIsSlave z = nodeIsSlave z0) as -> by congruence. assert (nodeIsMaster z = nodeIsMaster z0) as -> by congruence.
      apply (Hkind _ _ Hz0). congruence.
  - intros k z m Hz Hm. apply Hdom. destruct (In3 k z m Hz Hm) as [->|(z2 & Hz2 & Hm2)]; [by exists x|].
    assert (exists z1, nodes s1 !! k = Some z1 /\ m ∈ slaves z1) as (z1 & Hz1 & Hm1').
    { cbn in Hz2. destruct (decide (k = myself s)) as [->|]; [|rewrite lookup_insert_ne in Hz2 by done; by exists z2].
      rewrite lookup_insert_eq in Hz2. injection Hz2 as <-. by exists x1. }
    eapply slaves_in_known; [exact In1|done|by exists x|done|done].
  - intros z Hz. change (nodes s4) with (nodes s3) in Hz. rewrite (dm_myself _ _ D4), Hx3 in Hz. injection Hz as <-.
    destruct (demotes_node _ _ _ _ D4 Hx) as (x5 & Hx5 & E5). change (nodes s4) with (nodes s3) in Hx5. rewrite Hx3 in Hx5.
    injection Hx5 as <-. rewrite <- (ro_joined _ Hro x Hx). unfold dview in E5. congruence.
Qed.
