(* ===== verification/ClusterConfig.v ===== *)
(** What an instance makes of the slots that a master claims, and that the order of the
    claims does not matter ([clusterUpdateSlotsConfigWith] of [cluster.c]). *)

From stdpp Require Import gmap.
From S2P Require Import Prelude State Cluster ClusterBus ClusterFail ClusterSlots ClusterRole.

Local Open Scope Z_scope.

(** ** One claim *)

(** What the configuration of the slots of another node leaves alone. *)
Definition hview (me n : id) (x : clusterNode) : Z * option bool := (configEpoch x, if decide (n = me) then None else Some (nodeIsMaster x)).

Record hears (s s' : clusterState) : Prop := {
  he_myself : myself s' = myself s;
  he_importing : importing_slots_from s' = importing_slots_from s \/ importing_slots_from s' = ∅;
  he_nodes n : hview (myself s) n <$> nodes s' !! n = hview (myself s) n <$> nodes s !! n }.

#[export] Instance hears_preorder : PreOrder hears.
Proof.
  split; [intros s; split; [done|by left|done]|]. intros s1 s2 s3 [A1 A2 A3] [B1 B2 B3]. split; [congruence| |].
  - destruct B2 as [->|]; [done|by right].
  - intros n. rewrite A1 in B3. by rewrite B3, A3.
Qed.

Lemma moves_hears s s' : moves s s' -> hears s s'.
Proof.
  intros [A1 A2 A3]. split; [done|by left|]. intros n. specialize (A3 n). destruct (nodes s' !! n), (nodes s !! n); try done.
  cbn in *. unfold hview, role_view in *. f_equal. f_equal; [congruence|]. destruct (decide _); congruence.
Qed.

Lemma demotes_hears s s' : demotes s s' -> hears s s'.
Proof.
  intros [A1 _ A2 A3]. split; [done|done|]. intros n. specialize (A3 n). destruct (nodes s' !! n), (nodes s !! n); try done.
  cbn in *. unfold hview, dview in *. f_equal. f_equal; [congruence|]. destruct (decide _); congruence.
Qed.

Lemma moves_role_ok s s' : moves s s' -> role_ok s -> role_ok s'.
Proof.
  intros Hmv [(x & Hx & Hr) Hs Hk Hl Hj]. destruct (moves_node _ _ _ _ Hmv Hx) as (x' & Hx' & Ev). split.
  - exists x'. rewrite (mv_myself _ _ Hmv). split; [done|]. unfold role_view in Ev.
    assert (nodeIsMaster x' = nodeIsMaster x) as -> by congruence. by assert (slaveof x' = slaveof x) as -> by congruence.
  - intros n y' m Hy' Hm. destruct (moves_node _ _ _ _ (moves_sym _ _ Hmv) Hy') as (y & Hy & Ey).
    destruct (Hs n y m Hy) as [z Hz]; [unfold role_view in Ey; congruence|].
    destruct (moves_node _ _ _ _ Hmv Hz) as (z' & Hz' & _). by exists z'.
  - intros n y' Hy' Hh. destruct (moves_node _ _ _ _ (moves_sym _ _ Hmv) Hy') as (y & Hy & Ey). unfold role_view in Ey.
    assert (nodeIsSlave y' = nodeIsSlave y) as -> by congruence. assert (nodeIsMaster y' = nodeIsMaster y) as -> by congruence.
    apply (Hk n y Hy). congruence.
  - intros n y' m Hy' Hm. destruct (moves_node _ _ _ _ (moves_sym _ _ Hmv) Hy') as (y & Hy & Ey). unfold role_view in Ey.
    assert (slaves y' = slaves y) as E by congruence. rewrite E in Hm. destruct (Hl n y m Hy Hm) as [z Hz].
    destruct (moves_node _ _ _ _ Hmv Hz) as (z' & Hz' & _). by exists z'.
  - intros y' Hy'. rewrite (mv_myself _ _ Hmv) in Hy'. destruct (moves_node _ _ _ _ (moves_sym _ _ Hmv) Hy') as (y & Hy & Ey).
    rewrite <- (Hj y Hy). unfold role_view in Ey. congruence.
Qed.

(** A replica serves no slot. *)
Lemma replica_numslots s n x : slots_ok s -> nodes s !! n = Some x -> nodeIsMaster x = false -> numslots x = 0.
Proof.
  intros Hok Hx Hm. rewrite (so_count _ Hok _ _ Hx). apply owned_zero. intros j Hj.
  destruct (so_owner _ Hok _ _ Hj) as (y & Hy & My & _). congruence.
Qed.

Lemma wp_become_replica s n x : slots_ok s -> role_ok s -> n <> myself s -> is_Some (nodes s !! n) ->
  nodes s !! myself s = Some x -> numslots x = 0 ->
  wp (clusterSetMaster n) s (λ _ s', slots_ok s' /\ role_ok s' /\ hears s s' /\ slots s' = slots s).
Proof.
  intros Hok Hro Hne Hn Hx H0. eapply wp_SetMaster; [done..|]. intros s' D R. split; [by eapply demotes_ok|]. split; [done|].
  split; [by apply demotes_hears|by apply dm_slots].
Qed.

Lemma wp_update_slots e s sender epoch bitmap : slots_ok s -> role_ok s ->
  (exists x, nodes s !! sender = Some x /\ nodeIsMaster x = true) -> sender <> myself s ->
  wp (clusterUpdateSlotsConfigWith e sender epoch bitmap) s (λ _ s', slots_ok s' /\ role_ok s' /\ hears s s' /\
    forall j, slots s' !! j = if bool_decide (0 <= j < CLUSTER_SLOTS) then owner_after s sender epoch bitmap j else slots s !! j).
Proof.
  intros Hok Hro Hsnd Hne. destruct (ro_me _ Hro) as (x & Hx & Hxm). unfold clusterUpdateSlotsConfigWith.
  apply wp_bind, wp_asks_c. eapply wp_bind, wp_get_node; [done|]. cbv zeta. rewrite bool_decide_eq_false_2 by done.
  apply wp_bind. eapply wp_mono; [apply wp_claim; [done|done|apply slots_from_nodup|by intros j; rewrite all_slots_elem]|].
  intros [[newmaster migrated] claimed] s1 (Hok1 & Hmv & Hs1).
  assert (Hs : forall s2, slots s2 = slots s1 -> forall j, slots s2 !! j =
    if bool_decide (0 <= j < CLUSTER_SLOTS) then owner_after s sender epoch bitmap j else slots s !! j).
  { intros s2 -> j. rewrite Hs1. by rewrite (bool_decide_ext _ _ (all_slots_elem j)). }
  assert (Hro1 : role_ok s1) by (by eapply moves_role_ok).
  assert (Hdone : slots_ok s1 /\ role_ok s1 /\ hears s s1 /\ forall j, slots s1 !! j =
    if bool_decide (0 <= j < CLUSTER_SLOTS) then owner_after s sender epoch bitmap j else slots s !! j).
  { split; [done|]. split; [done|]. split; [by apply moves_hears|by apply Hs]. }
  destruct (no_redirection e); [by apply wp_ret|]. destruct (moves_node _ _ _ _ Hmv Hx) as (x1 & Hx1 & Ev).
  assert (Em : nodeIsMaster x1 = nodeIsMaster x) by (unfold role_view in Ev; congruence).
  assert (Es : slaveof x1 = slaveof x) by (unfold role_view in Ev; congruence).
  pose proof (mv_myself _ _ Hmv) as Eme. rewrite <- Eme in Hx1, Hne |- *.
  assert (Hbecome : forall n, n <> myself s1 -> is_Some (nodes s1 !! n) -> numslots x1 = 0 ->
    wp (clusterSetMaster n) s1 (λ _ s', slots_ok s' /\ role_ok s' /\ hears s s' /\
      forall j, slots s' !! j = if bool_decide (0 <= j < CLUSTER_SLOTS) then owner_after s sender epoch bitmap j else slots s !! j)).
  { intros n Hn Hsome H0. eapply wp_mono; [by eapply wp_become_replica|]. intros _ s2 (A & B & C & D).
    split; [done|]. split; [done|]. split; [by transitivity s1; [apply moves_hears|]|by apply Hs]. }
  apply wp_bind. set (curmaster := if nodeIsMaster x then _ else _).
  assert (Hcur : exists c y, curmaster = Some c /\ nodes s1 !! c = Some y /\ (numslots y = 0 -> numslots x1 = 0)).
  { subst curmaster. destruct (nodeIsMaster x) eqn:Hm.
    - exists (myself s1), x1. by rewrite Eme in *.
    - destruct (slaveof x) as [m|] eqn:Hsl; [|discriminate (proj2 Hxm eq_refl)].
      destruct (ro_slaveof _ Hro1 _ _ m Hx1 Es) as [y Hy]. exists m, y. split; [done|]. split; [done|]. intros _.
      by eapply replica_numslots. }
  destruct Hcur as (c & y & -> & Hy & Hzero).
  eapply wp_mono with (Q := λ b s2, s2 = s1 /\ (b = true -> numslots x1 = 0)).
  { destruct newmaster; [|by apply wp_ret]. eapply wp_bind, wp_get_node; [done|]. apply wp_ret. split; [done|].
    intros H. apply Hzero. lia. }
  intros empty s2 [-> Hempty]. destruct (empty && _) eqn:Hb.
  { apply andb_true_iff in Hb as [Hb _]. apply Hbecome; [done| |by apply Hempty].
    destruct Hsnd as (z & Hz & _). destruct (moves_node _ _ _ _ Hmv Hz) as (z1 & Hz1 & _). by exists z1. }
  eapply wp_bind, wp_get_node; [done|]. destruct (slaveof x1) as [m|] eqn:Hsl; [|by apply wp_ret].
  destruct (ro_slaveof _ Hro1 _ _ m Hx1 Hsl) as [z Hz]. eapply wp_bind, wp_get_node; [done|].
  destruct (slaveof z) as [g|] eqn:Hg; [|by apply wp_ret]. case_bool_decide; [by apply wp_ret|].
  apply Hbecome; [done|by eapply ro_slaveof|]. eapply replica_numslots; [done..|]. rewrite Em.
  destruct (nodeIsMaster x) eqn:Hm; [|done]. rewrite (proj1 Hxm eq_refl) in Es. done.
Qed.

(** ** Several claims *)

(** A master, its configuration epoch and the slots that it claims. *)
Abbreviation claim := (id * Z * Z)%type.

Fixpoint hear_all (e : cenv) (cs : list claim) : ST clusterState unit :=
  match cs with
  | [] => mret tt
  | (n, epoch, bitmap) :: cs' => clusterUpdateSlotsConfigWith e n epoch bitmap;; hear_all e cs'
  end.

(** The claims come from other masters, whose configuration epochs this instance knows. *)
Definition known_claim (s : clusterState) (c : claim) : Prop :=
  c.1.1 <> myself s /\ exists x, nodes s !! c.1.1 = Some x /\ nodeIsMaster x = true /\ configEpoch x = c.1.2.

(** Masters with the same configuration epoch are the same. *)
Definition coherent (cs : list claim) : Prop := forall c d, c ∈ cs -> d ∈ cs -> c.1.2 = d.1.2 -> c.1.1 = d.1.1.

(** The owner of a slot by the configuration epochs. *)
Definition next_owner (ep : id -> option Z) (j : Z) (o : option id) (c : claim) : option id :=
  if bitmapTestBit c.2 j then
    match o with
    | None => Some c.1.1
    | Some n => match ep n with Some x => if x <? c.1.2 then Some c.1.1 else o | None => o end
    end
  else o.

Lemma next_owner_comm ep j o c d : ep c.1.1 = Some c.1.2 -> ep d.1.1 = Some d.1.2 -> (c.1.2 = d.1.2 -> c.1.1 = d.1.1) ->
  next_owner ep j (next_owner ep j o c) d = next_owner ep j (next_owner ep j o d) c.
Proof.
  destruct c as [[c ec] bc], d as [[d ed] bd]. cbn. intros Hc Hd Hcd. unfold next_owner. cbn.
  destruct (bitmapTestBit bc j), (bitmapTestBit bd j); [|done..]. destruct o as [n|]; cbn.
  - destruct (ep n) as [x|] eqn:En; [|by rewrite En].
    destruct (Z.ltb_spec x ec), (Z.ltb_spec x ed); rewrite ?Hc, ?Hd, ?En;
      destruct (Z.ltb_spec ec ed), (Z.ltb_spec ed ec), (Z.ltb_spec x ec), (Z.ltb_spec x ed); try done; try lia.
    f_equal. apply Hcd. lia.
  - rewrite Hc, Hd. destruct (Z.ltb_spec ec ed), (Z.ltb_spec ed ec); try done; try lia. f_equal. apply Hcd. lia.
Qed.

Lemma foldl_perm {A B} (f : B -> A -> B) l l' : Permutation l l' ->
  (forall b x y, x ∈ l -> y ∈ l -> f (f b x) y = f (f b y) x) -> forall b, foldl f b l = foldl f b l'.
Proof.
  induction 1 as [|x l l' P IH|x y l|l1 l2 l3 P1 IH1 P2 IH2]; intros Hf b; cbn.
  - done.
  - apply IH. intros b' u v Hu Hv. apply Hf; by right.
  - rewrite Hf; [done|by left|right; by left].
  - rewrite IH1 by done. apply IH2. intros b' u v Hu Hv. apply Hf; by rewrite P1.
Qed.

Definition epoch_of (s : clusterState) (n : id) : option Z := configEpoch <$> nodes s !! n.

Lemma hears_epoch s s' n : hears s s' -> epoch_of s' n = epoch_of s n.
Proof.
  intros H. pose proof (he_nodes _ _ H n) as E. unfold epoch_of. destruct (nodes s' !! n), (nodes s !! n); try done. cbn in *.
  unfold hview in E. congruence.
Qed.

Lemma hears_claim s s' c : hears s s' -> known_claim s c -> known_claim s' c.
Proof.
  intros H (Hne & x & Hx & Hm & He). pose proof (he_nodes _ _ H c.1.1) as E. rewrite Hx in E. unfold hview in E.
  split; [by rewrite (he_myself _ _ H)|]. destruct (nodes s' !! c.1.1) as [x'|]; [|done]. exists x'. split; [done|]. cbn in E.
  rewrite !decide_False in E by done. split; congruence.
Qed.

Lemma wp_hear_all e : forall cs s, slots_ok s -> role_ok s -> importing_slots_from s = ∅ -> Forall (known_claim s) cs ->
  wp (hear_all e cs) s (λ _ s', slots_ok s' /\ role_ok s' /\ hears s s' /\
    forall j, slots s' !! j = if bool_decide (0 <= j < CLUSTER_SLOTS) then foldl (next_owner (epoch_of s) j) (slots s !! j) cs else slots s !! j).
Proof.
  induction cs as [|[[n epoch] bitmap] cs IH]; intros s Hok Hro Himp Hcs.
  { apply wp_ret. split; [done|]. split; [done|]. split; [reflexivity|]. intros j. by case_bool_decide. }
  apply Forall_cons in Hcs as [(Hne & x & Hx & Hm & He) Hcs]. cbn [fst snd] in *. cbn [hear_all]. apply wp_bind.
  eapply wp_mono; [apply wp_update_slots; [done|done|by exists x|done]|]. intros [] s1 (Hok1 & Hro1 & Hh1 & Hs1).
  eapply wp_mono; [apply IH; [done|done| |]|].
  - destruct (he_importing _ _ Hh1) as [->|]; [done|done].
  - eapply Forall_impl; [exact Hcs|]. intros c. by apply hears_claim.
  - intros [] s2 (Hok2 & Hro2 & Hh2 & Hs2). split; [done|]. split; [done|]. split; [by transitivity s1|]. intros j.
    rewrite Hs2, Hs1. case_bool_decide; [|done]. cbn [foldl].
    assert (Ho : owner_after s n epoch bitmap j = next_owner (epoch_of s) j (slots s !! j) (n, epoch, bitmap)).
    { unfold owner_after, wins, next_owner, epoch_of. cbn [fst snd]. rewrite Himp, lookup_empty, bool_decide_eq_true_2, andb_true_r by done.
      destruct (bitmapTestBit bitmap j); [|done]. cbn. destruct (slots s !! j) as [o|]; [|done].
      destruct (nodes s !! o) as [y|]; [|done]. done. }
    rewrite Ho. generalize (next_owner (epoch_of s) j (slots s !! j) (n, epoch, bitmap)). intros o. clear -Hh1. revert o.
    induction cs as [|c cs IH]; intros o; [done|]. cbn. rewrite <- IH. f_equal. unfold next_owner.
    destruct o as [m|]; [|done]. by rewrite (hears_epoch _ _ m Hh1).
Qed.

(** ** The properties *)

(** C22: When a master claims slots with an epoch, an instance gives it exactly the slots
    of the claim that are free or whose owner has a smaller configuration epoch, except
    those that it is importing, and leaves the other slots alone; it fails no assertion
    and follows no NULL pointer on the way.  The table of the owners still agrees
    with the bitmaps and the counts of the nodes, and the instance is a master or
    the replica of a known node. *)
Theorem update_slots_follows_epochs e s sender epoch bitmap : slots_ok s -> role_ok s ->
  (exists x, nodes s !! sender = Some x /\ nodeIsMaster x = true) ->
  exists s', clusterUpdateSlotsConfigWith e sender epoch bitmap s = Some (tt, s') /\ slots_ok s' /\ role_ok s' /\
    (forall n, epoch_of s' n = epoch_of s n) /\
    forall j, 0 <= j < CLUSTER_SLOTS ->
      slots s' !! j = if bool_decide (sender = myself s) then slots s !! j else owner_after s sender epoch bitmap j.
Proof.
  intros Hok Hro Hs. destruct (decide (sender = myself s)) as [->|Hne].
  - exists s. destruct Hs as (x & Hx & Hm). unfold clusterUpdateSlotsConfigWith, asks, get_node, get, mbind, ST_bind, mret, ST_ret. cbn.
    rewrite Hx, bool_decide_eq_true_2 by done. done.
  - destruct (wp_update_slots e s sender epoch bitmap Hok Hro Hs Hne) as ([] & s' & E & Hok' & Hro' & Hh & Hsl). exists s'.
    split; [done|]. split; [done|]. split; [done|]. split; [intros n; by apply hears_epoch|]. intros j Hj.
    rewrite Hsl. by rewrite bool_decide_eq_true_2, bool_decide_eq_false_2.
Qed.

(** C18: Two instances that agree on the owners of the slots and on the configuration epochs,
    and hear the same masters claim slots, each in an order of its own, agree on the
    owners of the slots afterwards, whatever their roles and settings are: when no two
    of the masters have the same configuration epoch and no slot is being imported,
    the order of the messages does not matter. *)
Theorem slot_claims_converge e e' s t cs cs' :
  slots_ok s -> role_ok s -> importing_slots_from s = ∅ -> slots_ok t -> role_ok t -> importing_slots_from t = ∅ ->
  slots t = slots s -> (forall n, epoch_of t n = epoch_of s n) ->
  Permutation cs cs' -> Forall (known_claim s) cs -> Forall (known_claim t) cs -> coherent cs ->
  exists s' t', hear_all e cs s = Some (tt, s') /\ hear_all e' cs' t = Some (tt, t') /\ slots t' = slots s'.
Proof.
  intros Hs1 Hs2 Hs3 Ht1 Ht2 Ht3 Hsl Hep P Hcs Hct Hco.
  destruct (wp_hear_all e cs s) as ([] & s' & Es & _ & _ & _ & Hs'); [done..|].
  destruct (wp_hear_all e' cs' t) as ([] & t' & Et & _ & _ & _ & Ht'); [done..|by rewrite <- P|].
  exists s', t'. split; [done|]. split; [done|]. apply map_eq. intros j. rewrite Hs', Ht', Hsl. case_bool_decide; [|done].
  symmetry. etransitivity; [apply foldl_perm; [exact P|]|].
  - intros o c d Hc Hd. rewrite Forall_forall in Hcs.
    assert (Hk : forall c, c ∈ cs -> epoch_of s c.1.1 = Some c.1.2).
    { intros k Hk. destruct (Hcs k Hk) as (_ & x & Hx & _ & He). unfold epoch_of. by rewrite Hx; cbn; rewrite He. }
    apply next_owner_comm; [by apply Hk|by apply Hk|by apply Hco].
  - clear -Hep. generalize (slots s !! j). induction cs' as [|c cs' IH]; intros o; [done|]. cbn. rewrite IH. f_equal.
    unfold next_owner. destruct o as [m|]; [|done]. by rewrite Hep.
Qed.

(** ** Witnesses *)

(** The masters 1, 2 and 3 serve a slot each; 4 is a replica of 1. *)
Module Claims.
Definition master (n slot : Z) (l : list id) : clusterNode :=
  Node CLUSTER_NODE_MASTER n (Z.shiftl 1 slot) 1 l None 0 0 0 0 0 [].
Definition replica : clusterNode := Node CLUSTER_NODE_SLAVE 0 0 0 [] (Some 1%positive) 0 0 0 0 0 [].
Definition table : gmap id clusterNode :=
  {[ 1%positive := master 1 0 [4%positive]; 2%positive := master 2 1 []; 3%positive := master 3 2 []; 4%positive := replica ]}.
Definition local (n : id) : clusterState :=
  CState n 3 0 true 3 table ∅ {[ 0 := 1%positive; 1 := 2%positive; 2 := 3%positive ]} (Election 0 0 false 0 0) (Manual 0 None (-1) false) 1 0 [].
Definition env : cenv := CEnv 10000 10000 1000 0 false 10 0 0 0 0 false true false [].

(** 2 has won the slot of 1, which has not heard of it and claims the slot of 3. *)
Definition claims : list claim := [(1%positive, 1, 5); (2%positive, 2, 3)].

Lemma table_inv n x : table !! n = Some x ->
  n = 1%positive /\ x = master 1 0 [4%positive] \/ n = 2%positive /\ x = master 2 1 [] \/ n = 3%positive /\ x = master 3 2 [] \/ n = 4%positive /\ x = replica.
Proof. unfold table. rewrite !lookup_insert_Some, lookup_singleton_Some. intros [[<- <-]|[_ [[<- <-]|[_ [[<- <-]|[_ [<- <-]]]]]]]; tauto. Qed.

Lemma slots_inv j n : slots (local 1) !! j = Some n -> j = 0 /\ n = 1%positive \/ j = 1 /\ n = 2%positive \/ j = 2 /\ n = 3%positive.
Proof. cbn [slots local]. rewrite !lookup_insert_Some, lookup_singleton_Some. intros [[<- <-]|[_ [[<- <-]|[_ [<- <-]]]]]; tauto. Qed.

Lemma claims_ok me : slots_ok (local me).
Proof.
  split; cbn [nodes local].
  - intros j n Hj. apply slots_inv in Hj. unfold CLUSTER_SLOTS. lia.
  - intros j n Hj. apply slots_inv in Hj as [[-> ->]|[[-> ->]|[-> ->]]]; eexists; (split; [reflexivity|by vm_compute]).
  - intros j n x Hx Hj Hb. unfold bitmapTestBit in Hb.
    apply table_inv in Hx as [[-> ->]|[[-> ->]|[[-> ->]|[-> ->]]]]; cbn [n_slots master replica] in Hb;
      [rewrite Z.shiftl_1_l, Z.pow2_bits_eqb in Hb by done; apply Z.eqb_eq in Hb as <-; reflexivity..|].
    by rewrite Z.bits_0 in Hb.
  - intros n x Hx. apply table_inv in Hx as [[-> ->]|[[-> ->]|[[-> ->]|[-> ->]]]]; vm_compute; reflexivity.
Qed.

Lemma claims_role me : is_Some (table !! me) -> role_ok (local me).
Proof.
  intros [x Hx]. split; cbn [nodes myself local].
  - exists x. split; [done|]. apply table_inv in Hx as [[_ ->]|[[_ ->]|[[_ ->]|[_ ->]]]]; done.
  - intros n y m Hy Hm. apply table_inv in Hy as [[_ ->]|[[_ ->]|[[_ ->]|[_ ->]]]]; try done. injection Hm as <-. by eexists.
  - intros n y Hy _. by apply table_inv in Hy as [[_ ->]|[[_ ->]|[[_ ->]|[_ ->]]]].
  - intros n y m Hy. apply table_inv in Hy as [[_ ->]|[[_ ->]|[[_ ->]|[_ ->]]]]; cbn [slaves master replica]; intros Hm.
    + apply list_elem_of_singleton in Hm as ->. by eexists.
    + by apply not_elem_of_nil in Hm.
    + by apply not_elem_of_nil in Hm.
    + by apply not_elem_of_nil in Hm.
  - intros y Hy. by apply table_inv in Hy as [[_ ->]|[[_ ->]|[[_ ->]|[_ ->]]]].
Qed.
End Claims.

Lemma update_slots_follows_epochs_witness : exists s', clusterUpdateSlotsConfigWith Claims.env 2 2 3 (Claims.local 4) = Some (tt, s') /\
  slots s' !! 0 = Some 2%positive.
Proof.
  destruct (update_slots_follows_epochs Claims.env (Claims.local 4) 2 2 3 (Claims.claims_ok 4)) as (s' & E & _ & _ & _ & Hs).
  - apply Claims.claims_role. by eexists.
  - eexists. split; [reflexivity|done].
  - exists s'. split; [exact E|]. rewrite Hs by (unfold CLUSTER_SLOTS; lia). vm_compute. reflexivity.
Defined.

Lemma slot_claims_converge_witness : exists s' t', hear_all Claims.env Claims.claims (Claims.local 3) = Some (tt, s') /\
  hear_all Claims.env (rev Claims.claims) (Claims.local 4) = Some (tt, t') /\ slots t' = slots s'.
Proof.
  apply (slot_claims_converge Claims.env Claims.env (Claims.local 3) (Claims.local 4) Claims.claims (rev Claims.claims)).
  - apply Claims.claims_ok.
  - apply Claims.claims_role. by eexists.
  - done.
  - apply Claims.claims_ok.
  - apply Claims.claims_role. by eexists.
  - done.
  - done.
  - done.
  - apply Permutation_rev.
  - repeat constructor; cbn; (done || (eexists; split; [reflexivity|done])).
  - repeat constructor; cbn; (done || (eexists; split; [reflexivity|done])).
  - unfold coherent, Claims.claims. intros c d. rewrite !elem_of_cons, !elem_of_nil. intros [->|[->|[]]] [->|[->|[]]]; done.
Defined.
