(* ===== verification/ClusterSafe.v ===== *)
(** No message and no failover makes an instance fail, and they keep its view of the slots
    and of the roles well-formed ([clusterProcessPacket] and [clusterHandleSlaveFailover]
    of [cluster.c]). *)

From stdpp Require Import gmap.
From S2P Require Import Prelude State Cluster ClusterBus ClusterFail ClusterSlots ClusterRole ClusterConfig.

Local Open Scope Z_scope.

Record well_formed (s : clusterState) : Prop := { wf_slots : slots_ok s; wf_roles : role_ok s }.

(** This instance and the nodes that it knows stay. *)
Record stays (s s' : clusterState) : Prop := {
  st_wf : well_formed s -> well_formed s';
  st_myself : myself s' = myself s;
  st_known n : is_Some (nodes s !! n) -> is_Some (nodes s' !! n) }.

#[export] Instance stays_preorder : PreOrder stays.
Proof.
  split; [by intros s|]. intros s1 s2 s3 [A1 A2 A3] [B1 B2 B3]. split; [tauto|congruence|auto].
Qed.

(** ** What does not touch slots or roles *)

Definition pview (x : clusterNode) : option id * bool * bool * bool * Z * Z * list id :=
  (rview x, nodeInHandshake x, n_slots x, numslots x, slaves x).

Record calm (s s' : clusterState) : Prop := {
  ca_myself : myself s' = myself s;
  ca_slots : slots s' = slots s;
  ca_nodes n : pview <$> nodes s' !! n = pview <$> nodes s !! n }.

#[export] Instance calm_preorder : PreOrder calm.
Proof. split; [done|]. intros s1 s2 s3 [A1 A2 A3] [B1 B2 B3]. split; [congruence..|]. intros n. by rewrite B3, A3. Qed.

Lemma calm_sym s s' : calm s s' -> calm s' s.
Proof. intros [A1 A2 A3]. by split. Qed.

Lemma calm_node s s' n x : calm s s' -> nodes s !! n = Some x -> exists x', nodes s' !! n = Some x' /\ pview x' = pview x.
Proof.
  intros H Hx. pose proof (ca_nodes _ _ H n) as E. rewrite Hx in E. destruct (nodes s' !! n) as [x'|]; [|done].
  exists x'. split; [done|]. by apply (inj Some).
Qed.

Lemma calm_known s s' n : calm s s' -> is_Some (nodes s !! n) -> is_Some (nodes s' !! n).
Proof. intros H [x Hx]. destruct (calm_node _ _ _ _ H Hx) as (x' & Hx' & _). by exists x'. Qed.

Lemma pview_inv x y : pview x = pview y -> slaveof x = slaveof y /\ nodeIsMaster x = nodeIsMaster y /\ nodeIsSlave x = nodeIsSlave y /\
  nodeInHandshake x = nodeInHandshake y /\ n_slots x = n_slots y /\ numslots x = numslots y /\ slaves x = slaves y.
Proof. unfold pview, rview. intros E. repeat split; congruence. Qed.

Lemma calm_wf s s' : calm s s' -> well_formed s -> well_formed s'.
Proof.
  intros H [[S1 S2 S3 S4] [(x & Hx & Hr) Hs Hk Hl Hjn]].
  assert (Hback : forall n y', nodes s' !! n = Some y' -> exists y, nodes s !! n = Some y /\ pview y' = pview y).
  { intros n y' Hy'. destruct (calm_node _ _ _ _ (calm_sym _ _ H) Hy') as (y & Hy & E). by exists y. }
  split; split.
  - rewrite (ca_slots _ _ H). done.
  - rewrite (ca_slots _ _ H). intros j n Hj. destruct (S2 j n Hj) as (y & Hy & M & B).
    destruct (calm_node _ _ _ _ H Hy) as (y' & Hy' & E). apply pview_inv in E as (_ & E1 & _ & _ & E2 & _). exists y'. by rewrite E1, E2.
  - rewrite (ca_slots _ _ H). intros j n y' Hy'. destruct (Hback n y' Hy') as (y & Hy & E). apply pview_inv in E as (_ & _ & _ & _ & -> & _).
    by apply S3.
  - rewrite (ca_slots _ _ H). intros n y' Hy'. destruct (Hback n y' Hy') as (y & Hy & E). apply pview_inv in E as (_ & _ & _ & _ & _ & -> & _).
    by apply S4.
  - destruct (calm_node _ _ _ _ H Hx) as (x' & Hx' & E). rewrite (ca_myself _ _ H). apply pview_inv in E as (E1 & E2 & _). exists x'. by rewrite E1, E2.
  - intros n y' m Hy' Hm. destruct (Hback n y' Hy') as (y & Hy & E). apply pview_inv in E as (E & _). rewrite E in Hm.
    eapply calm_known; [exact H|]. exact (Hs n y m Hy Hm).
  - intros n y' Hy'. destruct (Hback n y' Hy') as (y & Hy & E). apply pview_inv in E as (_ & -> & -> & -> & _). exact (Hk n y Hy).
  - intros n y' m Hy' Hm. destruct (Hback n y' Hy') as (y & Hy & E). apply pview_inv in E as (_ & _ & _ & _ & _ & _ & E). rewrite E in Hm.
    eapply calm_known; [exact H|]. exact (Hl n y m Hy Hm).
  - rewrite (ca_myself _ _ H). intros y' Hy'. destruct (Hback _ y' Hy') as (y & Hy & E). apply pview_inv in E as (_ & _ & _ & -> & _).
    exact (Hjn y Hy).
Qed.

Lemma calm_stays s s' : calm s s' -> stays s s'.
Proof. intros H. split; [by apply calm_wf|by apply ca_myself|intros n; by apply calm_known]. Qed.

Lemma moves_stays s s' : moves s s' -> (well_formed s -> slots_ok s') -> stays s s'.
Proof.
  intros H Hs. split; [intros W; split; [by apply Hs|eapply moves_role_ok; [done|apply W]]|by apply mv_myself|].
  intros n [x Hx]. destruct (moves_node _ _ _ _ H Hx) as (x' & Hx' & _). by exists x'.
Qed.

Lemma calm_set s n x x' : nodes s !! n = Some x -> pview x' = pview x -> calm s (with_nodes <[n := x']> s).
Proof.
  intros Hx E. split; [done|done|]. intros m. cbn. destruct (decide (m = n)) as [->|].
  - rewrite lookup_insert_eq, Hx. cbn. by rewrite E.
  - by rewrite lookup_insert_ne.
Qed.

(** Flags other than the role and the handshake: 35 is MASTER, SLAVE and HANDSHAKE. *)
Lemma has_sub f g k : (forall i, Z.testbit k i = true -> Z.testbit g i = Z.testbit f i) -> has g k = has f k.
Proof.
  intros H. unfold has. f_equal. f_equal. apply Z.bits_inj'. intros i _. rewrite !Z.land_spec. destruct (Z.testbit k i) eqn:E; [|by rewrite !andb_false_r].
  by rewrite H.
Qed.

Lemma pview_flags f x : Z.land f 35 = Z.land (flags x) 35 -> pview (set_flags f x) = pview x.
Proof.
  intros E. assert (H : forall k, Z.land k 35 = k -> has f k = has (flags x) k).
  { intros k Hk. apply has_sub. intros i Hi. rewrite <- Hk, Z.land_spec in Hi. apply andb_true_iff in Hi as [_ Hi].
    apply (f_equal (λ z, Z.testbit z i)) in E. rewrite !Z.land_spec, Hi, !andb_true_r in E. done. }
  unfold pview, rview, nodeIsMaster, nodeIsSlave, nodeInHandshake. cbn [flags set_flags slaveof n_slots numslots slaves].
  by rewrite !H.
Qed.

Lemma land_clear f k : Z.land k 35 = 0 -> Z.land (clear f k) 35 = Z.land f 35.
Proof.
  intros H. unfold clear. apply Z.bits_inj'. intros n _. rewrite !Z.land_spec, Z.ldiff_spec.
  apply (f_equal (λ z, Z.testbit z n)) in H. rewrite Z.land_spec, Z.bits_0 in H.
  destruct (Z.testbit f n), (Z.testbit k n), (Z.testbit 35 n); done.
Qed.
Lemma land_set f k : Z.land k 35 = 0 -> Z.land (Z.lor f k) 35 = Z.land f 35.
Proof. intros H. by rewrite Z.land_lor_distr_l, H, Z.lor_0_r. Qed.

(** ** Rules *)

Lemma wp_update_calm s f (Q : unit -> clusterState -> Prop) : myself (f s) = myself s -> slots (f s) = slots s -> nodes (f s) = nodes s ->
  (forall s', calm s s' -> Q tt s') -> wp (update f) s Q.
Proof. intros E1 E2 E3 HQ. apply wp_update_c, HQ. split; [done|done|]. intros n. by rewrite E3. Qed.

Lemma wp_set_calm s n f (Q : unit -> clusterState -> Prop) : is_Some (nodes s !! n) -> (forall x, nodes s !! n = Some x -> pview (f x) = pview x) ->
  (forall s', calm s s' -> Q tt s') -> wp (set_node n f) s Q.
Proof. intros [x Hx] E HQ. eapply wp_set_node; [done|]. apply HQ. eapply calm_set; [done|]. by apply E. Qed.

Lemma wp_skip s (Q : unit -> clusterState -> Prop) : (forall s', calm s s' -> Q tt s') -> wp (mret tt) s Q.
Proof. intros HQ. by apply wp_ret, HQ. Qed.

Section safe.
Context (e : cenv).
Implicit Types Q : unit -> clusterState -> Prop.

Lemma wf_myself s : well_formed s -> exists x, nodes s !! myself s = Some x.
Proof. intros W. destruct (ro_me _ (wf_roles _ W)) as (x & Hx & _). by exists x. Qed.

Lemma wp_hdr d s (Q : clusterMsg -> clusterState -> Prop) : well_formed s -> (forall m, Q m s) -> wp (clusterBuildMessageHdr e d) s Q.
Proof.
  intros W HQ. destruct (wf_myself _ W) as [x Hx]. apply wp_bind, wp_get. eapply wp_bind, wp_get_myself; [done|]. apply wp_bind.
  destruct (slaveof x) as [m|] eqn:Hm; [|by apply wp_ret, wp_ret]. destruct (nodeIsSlave x); [|by apply wp_ret, wp_ret].
  destruct (ro_slaveof _ (wf_roles _ W) _ _ _ Hx Hm) as [y Hy]. eapply wp_get_node; [done|]. by apply wp_ret.
Qed.

Lemma wp_send_calm to m s Q : (forall s', calm s s' -> Q tt s') -> wp (send to m) s Q.
Proof. by apply wp_update_calm. Qed.

Lemma wp_SendPing to b s Q : well_formed s -> (forall s', calm s s' -> Q tt s') -> wp (clusterSendPing e to b) s Q.
Proof. intros W HQ. apply wp_bind, wp_hdr; [done|]. intros m. by apply wp_send_calm. Qed.
Lemma wp_SendFail n s Q : well_formed s -> (forall s', calm s s' -> Q tt s') -> wp (clusterSendFail e n) s Q.
Proof. intros W HQ. apply wp_bind, wp_hdr; [done|]. intros m. by apply wp_send_calm. Qed.
Lemma wp_SendUpdate to n s Q : well_formed s -> is_Some (nodes s !! n) -> (forall s', calm s s' -> Q tt s') -> wp (clusterSendUpdate e to n) s Q.
Proof. intros W [x Hx] HQ. eapply wp_bind, wp_get_node; [done|]. apply wp_bind, wp_hdr; [done|]. intros m. by apply wp_send_calm. Qed.
Lemma wp_SendAuth to s Q : well_formed s -> (forall s', calm s s' -> Q tt s') -> wp (clusterSendFailoverAuth e to) s Q.
Proof. intros W HQ. apply wp_bind, wp_hdr; [done|]. intros m. by apply wp_send_calm. Qed.
Lemma wp_RequestAuth s Q : well_formed s -> (forall s', calm s s' -> Q tt s') -> wp (clusterRequestFailoverAuth e) s Q.
Proof. intros W HQ. apply wp_bind, wp_get. apply wp_bind, wp_hdr; [done|]. intros m. by apply wp_send_calm. Qed.

Lemma wp_pong_each l : forall s Q, well_formed s -> (forall s', calm s s' -> Q tt s') -> wp (pong_each e l) s Q.
Proof.
  induction l as [|n l IH]; intros s Q W HQ; [by apply wp_skip|]. apply wp_bind, wp_SendPing; [done|]. intros s1 C1.
  apply IH; [by eapply calm_wf|]. intros s2 C2. apply HQ. by transitivity s1.
Qed.

Lemma wp_BroadcastPong b s Q : well_formed s -> (forall s', calm s s' -> Q tt s') -> wp (clusterBroadcastPong e b) s Q.
Proof.
  intros W HQ. apply wp_bind, wp_get. destruct (wf_myself _ W) as [x Hx]. eapply wp_bind, wp_get_myself; [done|]. by apply wp_pong_each.
Qed.

Lemma wp_UpdateState s Q : well_formed s -> (forall s', calm s s' -> Q tt s') -> wp (clusterUpdateState e) s Q.
Proof.
  intros W HQ. apply wp_bind, wp_get. destruct (wf_myself _ W) as [x Hx]. eapply wp_bind, wp_get_myself; [done|]. cbv zeta.
  destruct (nodeIsMaster x && _ && _); [by apply wp_update_calm|]. destruct (count_masters _) as [k r].
  apply wp_bind, wp_update_calm; [done..|]. intros s1 C1. destruct (_ || _); (apply wp_update_calm; [done..|]; intros s2 C2; apply HQ; by transitivity s1).
Qed.

Lemma wp_next_epoch s Q : well_formed s -> (forall s', calm s s' -> Q tt s') -> wp next_epoch s Q.
Proof.
  intros W HQ. apply wp_bind, wp_get. cbv zeta. apply wp_bind, wp_update_calm; [done..|]. intros s1 C1.
  apply wp_set_calm; [eapply calm_known; [done|]; by apply wf_myself|done|]. intros s2 C2. apply HQ. by transitivity s1.
Qed.

Lemma wp_Collision n s Q : well_formed s -> is_Some (nodes s !! n) -> (forall s', calm s s' -> Q tt s') -> wp (clusterHandleConfigEpochCollision n) s Q.
Proof.
  intros W [y Hy] HQ. eapply wp_bind, wp_get_node; [done|]. apply wp_bind, wp_asks_c. destruct (wf_myself _ W) as [x Hx].
  eapply wp_bind, wp_get_myself; [done|]. destruct (_ || _); [by apply wp_skip|]. destruct (_ <=? _)%positive; [by apply wp_skip|].
  by apply wp_next_epoch.
Qed.

(** ** Failure reports *)

Lemma wp_Cleanup n s Q : is_Some (nodes s !! n) -> (forall s', calm s s' -> Q tt s') -> wp (clusterNodeCleanupFailureReports e n) s Q.
Proof. intros Hn HQ. by apply wp_set_calm. Qed.

Lemma wp_AddReport n f s (Q : bool -> clusterState -> Prop) : is_Some (nodes s !! n) -> (forall b s', calm s s' -> Q b s') ->
  wp (clusterNodeAddFailureReport e n f) s Q.
Proof.
  intros [x Hx] HQ. eapply wp_bind, wp_get_node; [done|]. destruct (refresh_report _ _ _);
    (apply wp_bind, wp_set_calm; [by exists x|done|]; intros s1 C1; by apply wp_ret, HQ).
Qed.

Lemma wp_DelReport n f s (Q : bool -> clusterState -> Prop) : is_Some (nodes s !! n) -> (forall b s', calm s s' -> Q b s') ->
  wp (clusterNodeDelFailureReport e n f) s Q.
Proof.
  intros [x Hx] HQ. eapply wp_bind, wp_get_node; [done|]. destruct (drop_report _ _); [|by apply wp_ret, HQ].
  apply wp_bind, wp_set_calm; [by exists x|done|]. intros s1 C1. apply wp_bind, wp_Cleanup; [eapply calm_known; [done|by exists x]|].
  intros s2 C2. apply wp_ret, HQ. by transitivity s1.
Qed.

Lemma wp_CountReports n s (Q : Z -> clusterState -> Prop) : is_Some (nodes s !! n) -> (forall k s', calm s s' -> Q k s') ->
  wp (clusterNodeFailureReportsCount e n) s Q.
Proof.
  intros Hn HQ. apply wp_bind, wp_Cleanup; [done|]. intros s1 C1. destruct (calm_known _ _ _ C1 Hn) as [x Hx].
  eapply wp_bind, wp_get_node; [done|]. by apply wp_ret, HQ.
Qed.

Lemma wp_MarkFailing n s Q : well_formed s -> is_Some (nodes s !! n) -> (forall s', calm s s' -> Q tt s') -> wp (markNodeAsFailingIfNeeded e n) s Q.
Proof.
  intros W [x Hx] HQ. apply wp_bind, wp_get. cbv zeta. eapply wp_bind, wp_get_node; [done|]. destruct (negb _); [by apply wp_skip|].
  destruct (nodeFailed x); [by apply wp_skip|]. apply wp_bind, wp_CountReports; [by exists x|]. intros k s1 C1.
  destruct (wf_myself s1) as [y Hy]; [by eapply calm_wf|]. eapply wp_bind, wp_get_myself; [done|].
  destruct (_ <? _); [by apply wp_ret, HQ|]. apply wp_bind, wp_set_calm; [eapply calm_known; [done|by exists x]| |].
  - intros z Hz. change (pview (set_flags (Z.lor (clear (flags z) CLUSTER_NODE_PFAIL) CLUSTER_NODE_FAIL) z) = pview z). apply pview_flags. by rewrite land_set, land_clear.
  - intros s2 C2. assert (calm s s2) by (by transitivity s1). apply wp_SendFail; [by eapply calm_wf|]. intros s3 C3.
    apply HQ. by transitivity s2.
Qed.

Lemma wp_clear_flag n k s Q : Z.land k 35 = 0 -> is_Some (nodes s !! n) -> (forall s', calm s s' -> Q tt s') ->
  wp (set_node n (λ x, set_flags (clear (flags x) k) x)) s Q.
Proof. intros Hk Hn HQ. apply wp_set_calm; [done| |done]. intros x Hx. by apply pview_flags, land_clear. Qed.

Lemma wp_ClearFailure n s x Q : nodes s !! n = Some x -> nodeFailed x = true -> (forall s', calm s s' -> Q tt s') ->
  wp (clearNodeFailureIfNeeded e n) s Q.
Proof.
  intros Hx Hf HQ. eapply wp_bind, wp_get_node; [done|]. rewrite Hf. cbn [negb]. apply wp_bind.
  assert (Hn : is_Some (nodes s !! n)) by (by exists x). assert (Hrest : forall s1, calm s s1 -> wp (x ← get_node n;
    if nodeIsMaster x && (0 <? numslots x) && (node_timeout e * CLUSTER_FAIL_UNDO_TIME_MULT <? now e - fail_time x)
    then set_node n (λ x, set_flags (clear (flags x) CLUSTER_NODE_FAIL) x) else mret tt) s1 Q).
  { intros s1 C1. destruct (calm_known _ _ _ C1 Hn) as [y Hy]. eapply wp_bind, wp_get_node; [done|]. destruct (_ && _); [|by apply wp_ret, HQ].
    apply wp_clear_flag; [done|by exists y|]. intros s2 C2. apply HQ. by transitivity s1. }
  destruct (_ || _); [by apply wp_clear_flag|]. by apply wp_ret, Hrest.
Qed.

Lemma wp_reached n s Q : is_Some (nodes s !! n) -> (forall s', calm s s' -> Q tt s') -> wp (reached e n) s Q.
Proof.
  intros Hn HQ. apply wp_bind, wp_set_calm; [done|done|]. intros s1 C1. destruct (calm_known _ _ _ C1 Hn) as [y Hy].
  eapply wp_bind, wp_get_node; [done|]. destruct (nodeTimedOut y).
  - apply wp_clear_flag; [done|by exists y|]. intros s2 C2. apply HQ. by transitivity s1.
  - destruct (nodeFailed y) eqn:Hf; [|by apply wp_ret, HQ]. eapply wp_ClearFailure; [done|done|]. intros s2 C2. apply HQ. by transitivity s1.
Qed.

Lemma wp_gossip n l : forall s Q, well_formed s -> is_Some (nodes s !! n) -> (forall s', calm s s' -> Q tt s') -> wp (gossip_section e n l) s Q.
Proof.
  induction l as [|[[m fl] pong] l IH]; intros s Q W Hn HQ; [by apply wp_skip|]. cbn [gossip_section]. apply wp_bind, wp_get. apply wp_bind.
  assert (Hnext : forall s1, calm s s1 -> wp (gossip_section e n l) s1 Q).
  { intros s1 C1. apply IH; [by eapply calm_wf|by eapply calm_known|]. intros s2 C2. apply HQ. by transitivity s1. }
  destruct (nodes s !! m) as [y|] eqn:Hy; [|by apply wp_ret, Hnext]. destruct Hn as [x Hx]. eapply wp_bind, wp_get_node; [done|]. cbv zeta.
  apply wp_bind.
  assert (Hpong : forall s1, calm s s1 -> wp (y ← get_node m;
    if negb (has fl (Z.lor CLUSTER_NODE_FAIL CLUSTER_NODE_PFAIL)) && (ping_sent y =? 0)
    then k ← clusterNodeFailureReportsCount e m; y0 ← get_node m;
      (if (k =? 0) && (pong * 1000 <=? cached_mstime e + 500) && (pong_received y0 <? pong * 1000)
       then set_node m (set_pings (ping_sent y0) (pong * 1000)) else mret tt)
    else mret tt) s1 (λ _ s2, wp (gossip_section e n l) s2 Q)).
  { intros s1 C1. destruct (calm_node _ _ _ _ C1 Hy) as (y1 & Hy1 & _). eapply wp_bind, wp_get_node; [done|]. destruct (_ && _); [|by apply wp_ret, Hnext].
    apply wp_bind, wp_CountReports; [by exists y1|]. intros k s2 C2. destruct (calm_node _ _ _ _ C2 Hy1) as (y2 & Hy2 & _).
    eapply wp_bind, wp_get_node; [done|]. assert (calm s s2) by (by transitivity s1). destruct (_ && _); [|by apply wp_ret, Hnext].
    apply wp_set_calm; [by exists y2|done|]. intros s3 C3. apply Hnext. by transitivity s2. }
  destruct (_ && _); [|by apply wp_ret, Hpong]. destruct (has fl _).
  - apply wp_bind, wp_AddReport; [by exists y|]. intros b s1 C1. apply wp_MarkFailing; [by eapply calm_wf|eapply calm_known; [done|by exists y]|].
    intros s2 C2. apply Hpong. by transitivity s1.
  - apply wp_bind, wp_DelReport; [by exists y|]. intros b s1 C1. by apply wp_ret, Hpong.
Qed.

(** ** Votes *)

Lemma wp_slots_allow epoch bitmap js : forall s (Q : bool -> clusterState -> Prop), well_formed s -> (forall b, Q b s) -> wp (slots_allow epoch bitmap js) s Q.
Proof.
  induction js as [|j js IH]; intros s Q W HQ; [by apply wp_ret|]. cbn [slots_allow]. destruct (negb _); [by apply IH|].
  apply wp_bind, wp_asks_c. destruct (slots s !! j) as [n|] eqn:Hj; [|by apply IH]. destruct (so_owner _ (wf_slots _ W) _ _ Hj) as (x & Hx & _).
  eapply wp_bind, wp_get_node; [done|]. destruct (_ <=? _); [by apply IH|by apply wp_ret].
Qed.

Lemma wp_AuthIfNeeded n m s Q : well_formed s -> is_Some (nodes s !! n) -> (forall s', calm s s' -> Q tt s') ->
  wp (clusterSendFailoverAuthIfNeeded e n m) s Q.
Proof.
  intros W [x Hx] HQ. apply wp_bind, wp_get. destruct (wf_myself _ W) as [me Hme]. eapply wp_bind, wp_get_myself; [done|].
  eapply wp_bind, wp_get_node; [done|]. destruct (_ || _); [by apply wp_skip|]. destruct (_ <? _); [by apply wp_skip|].
  destruct (_ =? _); [by apply wp_skip|]. destruct (slaveof x) as [master|] eqn:Hm; [|by apply wp_skip].
  destruct (ro_slaveof _ (wf_roles _ W) _ _ _ Hx Hm) as [y Hy]. eapply wp_bind, wp_get_node; [done|].
  destruct (_ || _); [by apply wp_skip|]. destruct (_ <? _); [by apply wp_skip|]. apply wp_bind, wp_slots_allow; [done|]. intros b.
  destruct b; [|by apply wp_skip]. cbn [negb]. apply wp_bind, wp_update_calm; [done..|]. intros s1 C1. apply wp_bind, wp_set_calm; [eapply calm_known; [done|by exists y]|done|].
  intros s2 C2. assert (calm s s2) by (by transitivity s1). apply wp_SendAuth; [by eapply calm_wf|]. intros s3 C3. apply HQ. by transitivity s2.
Qed.

Lemma wp_auth_ack n epoch s Q : is_Some (nodes s !! n) -> (forall s', calm s s' -> Q tt s') -> wp (auth_ack n epoch) s Q.
Proof.
  intros [x Hx] HQ. apply wp_bind, wp_get. eapply wp_bind, wp_get_node; [done|]. cbv zeta. destruct (_ && _); [|by apply wp_skip].
  by apply wp_update_calm.
Qed.

Lemma wp_newer_owner n epoch bitmap js : forall s (Q : option id -> clusterState -> Prop), well_formed s ->
  (forall o, (forall m, o = Some m -> is_Some (nodes s !! m)) -> Q o s) -> wp (newer_owner n epoch bitmap js) s Q.
Proof.
  induction js as [|j js IH]; intros s Q W HQ; [by apply wp_ret, HQ|]. cbn [newer_owner]. destruct (negb _); [by apply IH|].
  apply wp_bind, wp_asks_c. destruct (slots s !! j) as [m|] eqn:Hj; [|by apply IH]. case_bool_decide; [by apply IH|].
  destruct (so_owner _ (wf_slots _ W) _ _ Hj) as (x & Hx & _). eapply wp_bind, wp_get_node; [done|].
  destruct (_ <? _); [|by apply IH]. apply wp_ret, HQ. intros k [= <-]. by exists x.
Qed.

Lemma wp_header m s Q : well_formed s -> is_Some (nodes s !! m_sender m) -> (forall s', calm s s' -> Q tt s') -> wp (process_header m) s Q.
Proof.
  intros W Hn HQ. apply wp_bind, wp_get. cbv zeta. destruct Hn as [x Hx]. eapply wp_bind, wp_get_node; [done|]. apply wp_bind.
  assert (Hn : is_Some (nodes s !! m_sender m)) by (by exists x).
  eapply wp_mono with (Q := λ _ s1, calm s s1). { destruct (_ <? _); [by apply wp_update_calm|by apply wp_ret]. }
  intros [] s1 C1. apply wp_bind. eapply wp_mono with (Q := λ _ s2, calm s s2).
  { destruct (_ <? _); [|by apply wp_ret]. apply wp_set_calm; [by eapply calm_known|done|]. intros s2 C2. by transitivity s1. }
  intros [] s2 C2. apply wp_bind, wp_set_calm; [by eapply calm_known|done|]. intros s3 C3. assert (C : calm s s3) by (by transitivity s2).
  destruct (wf_myself s3) as [y Hy]; [by eapply calm_wf|]. eapply wp_bind, wp_get_myself; [done|]. destruct (_ && _); [|by apply wp_ret, HQ].
  apply wp_update_calm; [done..|]. intros s4 C4. apply HQ. by transitivity s3.
Qed.

(** ** Roles *)

Lemma wf_set_role s n x x' : well_formed s -> nodes s !! n = Some x -> n_slots x' = n_slots x -> numslots x' = numslots x ->
  slaves x' = slaves x -> nodeInHandshake x' = nodeInHandshake x -> (nodeIsMaster x' = true \/ numslots x = 0) ->
  (forall m, slaveof x' = Some m -> is_Some (nodes s !! m)) -> (nodeInHandshake x = false -> nodeIsSlave x' = negb (nodeIsMaster x')) ->
  (n = myself s -> nodeIsMaster x' = true <-> slaveof x' = None) -> stays s (with_nodes <[n := x']> s).
Proof.
  intros [[S1 S2 S3 S4] [(y & Hy & Hr) Hs Hk Hl Hj]] Hx E1 E2 E3 E4 Hm Hsl Hkind Hme.
  assert (Hnode : forall k z, nodes (with_nodes <[n := x']> s) !! k = Some z -> k = n /\ z = x' \/ k <> n /\ nodes s !! k = Some z).
  { intros k z. cbn. destruct (decide (k = n)) as [->|]; [rewrite lookup_insert_eq; intros [= <-]; by left|].
    rewrite lookup_insert_ne by done. by right. }
  assert (Hdom : forall k, is_Some (nodes s !! k) -> is_Some (nodes (with_nodes <[n := x']> s) !! k)).
  { intros k Hk'. cbn. by apply lookup_insert_is_Some'; right. }
  split; [intros _|done|done]. split; split.
  - done.
  - intros j k Hjk. destruct (S2 j k Hjk) as (z & Hz & M & B). cbn. destruct (decide (k = n)) as [->|]; [|exists z; by rewrite lookup_insert_ne].
    exists x'. rewrite lookup_insert_eq, E1. simplify_eq. split; [done|]. split; [|done]. destruct Hm as [|Hm]; [done|].
    rewrite (S4 _ _ Hx) in Hm. rewrite owned_zero in Hm. by destruct (Hm j).
  - intros j k z Hz. destruct (Hnode k z Hz) as [[-> ->]|[_ Hz0]]; [rewrite E1; by apply S3|by apply S3].
  - intros k z Hz. destruct (Hnode k z Hz) as [[-> ->]|[_ Hz0]]; [rewrite E2; by apply S4|by apply S4].
  - cbn. destruct (decide (myself s = n)) as [<-|]; [exists x'; by rewrite lookup_insert_eq; auto|exists y; by rewrite lookup_insert_ne].
  - intros k z m Hz Hzm. apply Hdom. destruct (Hnode k z Hz) as [[-> ->]|[_ Hz0]]; [by apply Hsl|exact (Hs k z m Hz0 Hzm)].
  - intros k z Hz. destruct (Hnode k z Hz) as [[-> ->]|[_ Hz0]]; [rewrite E4; by apply Hkind|exact (Hk k z Hz0)].
  - intros k z m Hz Hzm. apply Hdom. destruct (Hnode k z Hz) as [[-> ->]|[_ Hz0]]; [rewrite E3 in Hzm; exact (Hl n x m Hx Hzm)|exact (Hl k z m Hz0 Hzm)].
  - intros z Hz. change (myself (with_nodes <[n:=x']> s)) with (myself s) in Hz. destruct (Hnode _ z Hz) as [[E ->]|[_ Hz0]]; [|exact (Hj z Hz0)].
    rewrite E4. apply Hj. by rewrite E.
Qed.

(** Nodes that become or stop being replicas of others. *)
Lemma relink_stays n s s' : demotes s s' -> same_roles s s' -> slaves_in n s s' -> is_Some (nodes s !! n) -> stays s s'.
Proof.
  intros D R In Hn.
  assert (Hdom : forall k, is_Some (nodes s !! k) -> is_Some (nodes s' !! k)).
  { intros k [w Hw]. destruct (demotes_node _ _ _ _ D Hw) as (w' & Hw' & _). by exists w'. }
  assert (Hback : forall k y', nodes s' !! k = Some y' -> exists y, nodes s !! k = Some y /\ rview y' = rview y /\
    nodeInHandshake y' = nodeInHandshake y /\ n_slots y' = n_slots y /\ numslots y' = numslots y).
  { intros k y' Hy'. destruct (demotes_node_back _ _ _ _ D Hy') as (y & Hy & E). exists y. split; [done|].
    split; [by apply (R y y' k)|]. unfold dview in E. repeat split; congruence. }
  split; [|by apply dm_myself|done]. intros [[S1 S2 S3 S4] Hro]. pose proof Hro as [(x & Hx & Hr) Hs Hk Hl Hj].
  split; split; rewrite ?(dm_slots _ _ D), ?(dm_myself _ _ D).
  - done.
  - intros j k Hjk. destruct (S2 j k Hjk) as (y & Hy & M & B). destruct (Hdom k) as [y' Hy']; [by exists y|].
    destruct (Hback k y' Hy') as (y2 & Hy2 & E & _ & E2 & _). exists y'. unfold rview in E. split; [done|]. rewrite E2. simplify_eq. split; congruence.
  - intros j k y' Hy'. destruct (Hback k y' Hy') as (y & Hy & _ & _ & -> & _). by apply S3.
  - intros k y' Hy'. destruct (Hback k y' Hy') as (y & Hy & _ & _ & _ & ->). by apply S4.
  - destruct (Hdom (myself s)) as [x' Hx']; [by exists x|]. exists x'. split; [done|]. pose proof (R x x' _ Hx Hx') as E. unfold rview in E.
    assert (nodeIsMaster x' = nodeIsMaster x) as -> by congruence. by assert (slaveof x' = slaveof x) as -> by congruence.
  - intros k y' m Hy' Hm. apply Hdom. destruct (Hback k y' Hy') as (y & Hy & E & _). unfold rview in E. apply (Hs k y m Hy). congruence.
  - intros k y' Hy'. destruct (Hback k y' Hy') as (y & Hy & E & E2 & _). unfold rview in E. rewrite E2.
    assert (nodeIsMaster y' = nodeIsMaster y) as -> by congruence. assert (nodeIsSlave y' = nodeIsSlave y) as -> by congruence. exact (Hk k y Hy).
  - intros k y' m Hy' Hm. apply Hdom. by eapply slaves_in_known.
  - intros y' Hy'. destruct (Hback _ y' Hy') as (y & Hy & _ & -> & _). exact (Hj y Hy).
Qed.

Lemma wp_relink_remove s m n (Q : bool -> clusterState -> Prop) : well_formed s -> is_Some (nodes s !! m) -> is_Some (nodes s !! n) ->
  (forall b s', stays s s' -> slots s' = slots s -> same_roles s s' -> Q b s') -> wp (clusterNodeRemoveSlave m n) s Q.
Proof.
  intros W [x Hx] Hn HQ. eapply wp_removeslave; [done|]. intros b s' D R In. apply HQ; [by eapply relink_stays|by apply dm_slots|done].
Qed.
Lemma wp_relink_add s m n (Q : bool -> clusterState -> Prop) : well_formed s -> is_Some (nodes s !! m) -> is_Some (nodes s !! n) ->
  (forall b s', stays s s' -> slots s' = slots s -> same_roles s s' -> Q b s') -> wp (clusterNodeAddSlave m n) s Q.
Proof.
  intros W [x Hx] Hn HQ. eapply wp_addslave; [done|]. intros b s' D R In. apply HQ; [by eapply relink_stays|by apply dm_slots|done].
Qed.

Lemma master_flags f x : let x' := set_flags (Z.lor (clear f CLUSTER_NODE_SLAVE) CLUSTER_NODE_MASTER) x in
  nodeIsMaster x' = true /\ nodeIsSlave x' = false /\ nodeInHandshake x' = has f CLUSTER_NODE_HANDSHAKE.
Proof.
  unfold nodeIsMaster, nodeIsSlave, nodeInHandshake, has, clear. cbn [flags set_flags]. repeat split.
  - apply negb_true_iff, Z.eqb_neq. intros E. apply (f_equal (λ z, Z.testbit z 0)) in E.
    rewrite Z.land_spec, Z.lor_spec, Z.bits_0 in E. by rewrite orb_true_r in E.
  - replace (Z.land _ _) with 0; [done|]. symmetry. apply Z.bits_inj'. intros i Hi. rewrite Z.land_spec, Z.lor_spec, Z.ldiff_spec, Z.bits_0.
    destruct (decide (i = 1)) as [->|]; [by destruct (Z.testbit f 1)|].
    replace (Z.testbit CLUSTER_NODE_SLAVE i) with false; [by rewrite andb_false_r|]. symmetry. by apply (Z.pow2_bits_false 1).
  - by rewrite Z.land_lor_distr_l, Z.lor_0_r; apply has_clear_other.
Qed.

Lemma wp_SetNodeAsMaster s n Q : well_formed s -> is_Some (nodes s !! n) ->
  (forall s' x', stays s s' -> slots s' = slots s -> nodes s' !! n = Some x' -> nodeIsMaster x' = true -> Q tt s') -> wp (clusterSetNodeAsMaster n) s Q.
Proof.
  intros W [x Hx] HQ. eapply wp_bind, wp_get_node; [done|]. destruct (nodeIsMaster x) eqn:Hm; [by apply wp_ret; eapply HQ|].
  apply wp_bind, wp_asks_c. apply wp_bind. eapply wp_mono with (Q := λ _ s1, stays s s1 /\ slots s1 = slots s).
  { destruct (slaveof x) as [m|] eqn:Hs; [|by apply wp_ret]. apply wp_bind, wp_relink_remove; [done|by eapply (ro_slaveof _ (wf_roles _ W))|by exists x|].
    intros b s1 St Es _. case_bool_decide; [by apply wp_ret|]. destruct (st_known _ _ St n) as [x1 Hx1]; [by exists x|].
    eapply wp_set_node; [done|]. split; [|done]. transitivity s1; [done|]. apply calm_stays. eapply calm_set; [done|]. by apply pview_flags, land_set. }
  intros [] s1 [St Es]. destruct (st_known _ _ St n) as [x1 Hx1]; [by exists x|]. eapply wp_set_node; [done|].
  destruct (master_flags (flags x1) x1) as (F1 & F2 & F3). eapply HQ; [|done|cbn; by rewrite lookup_insert_eq|exact F1].
  transitivity s1; [done|]. eapply wf_set_role; try done.
  - by apply st_wf in St.
  - by left.
  - intros _. etransitivity; [exact F2|]. by apply (f_equal negb) in F1.
Qed.

Lemma wp_del_slots n js : forall d s, slots_ok s -> is_Some (nodes s !! n) -> (forall j, j ∈ js -> 0 <= j) ->
  wp (del_slots n js d) s (λ _ s', slots_ok s' /\ moves s s' /\ forall j m, slots s' !! j = Some m -> slots s !! j = Some m /\ (j ∈ js -> m <> n)).
Proof.
  induction js as [|j js IH]; intros d s Hok [x Hx] Hjs.
  { apply wp_ret. split; [done|]. split; [done|]. intros j m Hj. split; [done|]. by intros Hin%not_elem_of_nil. }
  assert (Hj : 0 <= j) by (apply Hjs; by left). cbn [del_slots]. apply wp_bind. eapply wp_bind, wp_get_node; [done|]. apply wp_ret.
  destruct (bitmapTestBit (n_slots x) j) eqn:Hb.
  - apply wp_bind. eapply wp_delslot; [done|exact (so_bit _ Hok j n x Hx Hj Hb)|]. intros s1 Hok1 Hmv Es.
    destruct (moves_node _ _ _ _ Hmv Hx) as (x1 & Hx1 & _). eapply wp_mono; [apply IH; [done|by exists x1|intros k Hk; apply Hjs; by right]|].
    intros _ s2 (Hok2 & Hmv2 & H2). split; [done|]. split; [by transitivity s1|]. intros k m Hk. destruct (H2 k m Hk) as [H3 H4].
    rewrite Es, lookup_delete_Some in H3. destruct H3 as [Hne H3]. split; [done|]. rewrite elem_of_cons. intros [->|]; [done|by apply H4].
  - eapply wp_mono; [apply IH; [done|by exists x|intros k Hk; apply Hjs; by right]|]. intros _ s2 (Hok2 & Hmv2 & H2).
    split; [done|]. split; [done|]. intros k m Hk. destruct (H2 k m Hk) as [H3 H4]. split; [done|]. rewrite elem_of_cons. intros [->|Hin]; [|by apply H4].
    intros ->. destruct (so_owner _ Hok _ _ H3) as (y & Hy & _ & B). congruence.
Qed.

Lemma wp_DelNodeSlots n s (Q : Z -> clusterState -> Prop) : well_formed s -> is_Some (nodes s !! n) ->
  (forall k s' x', stays s s' -> nodes s' !! n = Some x' -> numslots x' = 0 -> Q k s') -> wp (clusterDelNodeSlots n) s Q.
Proof.
  intros W Hn HQ. eapply wp_mono; [apply wp_del_slots; [apply W|done|]|].
  { intros j. rewrite all_slots_elem. lia. }
  intros k s' (Hok & Hmv & Hj). assert (St : stays s s') by (by apply moves_stays). destruct (st_known _ _ St n Hn) as [x' Hx'].
  eapply HQ; [done|done|]. rewrite (so_count _ Hok _ _ Hx'). apply owned_zero. intros j Hs. destruct (Hj j n Hs) as [_ H]. apply H; [|done].
  apply all_slots_elem. by eapply so_range.
Qed.

Lemma wp_role_switch n m s Q : well_formed s -> is_Some (nodes s !! n) -> n <> myself s -> (forall s', stays s s' -> Q tt s') -> wp (role_switch n m) s Q.
Proof.
  intros W [x Hx] Hne HQ. unfold role_switch. destruct (m_slaveof m) as [master|].
  2: { apply wp_SetNodeAsMaster; [done|by exists x|]. intros s' x' St _ _ _. by apply HQ. }
  eapply wp_bind, wp_get_node; [done|]. apply wp_bind. eapply wp_mono with (Q := λ _ s1, stays s s1 /\ exists x1, nodes s1 !! n = Some x1 /\ nodeIsMaster x1 = false).
  { destruct (nodeIsMaster x) eqn:Hm; [|apply wp_ret; split; [done|by exists x]]. apply wp_bind, wp_DelNodeSlots; [done|by exists x|].
    intros _ s1 x1 St Hx1 H0. destruct (slave_flags (flags x1) x1) as (F1 & F2 & F3). eapply wp_set_node; [done|]. split.
    - transitivity s1; [done|]. assert (W1 : well_formed s1) by (by apply st_wf in St). eapply wf_set_role; try done.
      + by right.
      + intros k Hk. by eapply (ro_slaveof _ (wf_roles _ W1)).
      + intros _. etransitivity; [exact F2|]. by apply (f_equal negb) in F1.
      + intros E. rewrite (st_myself _ _ St) in E. done.
    - eexists. cbn. by rewrite lookup_insert_eq. }
  intros [] s1 (St & x1 & Hx1 & Hm1). apply wp_bind, wp_get. eapply wp_bind, wp_get_node; [done|]. destruct (nodes s1 !! master) as [y|] eqn:Hy; [|by apply wp_ret, HQ].
  case_bool_decide; [by apply wp_ret, HQ|]. assert (W1 : well_formed s1) by (by apply st_wf in St). apply wp_bind.
  eapply wp_mono with (Q := λ _ s2, stays s1 s2 /\ same_roles s1 s2).
  { destruct (slaveof x1) as [old|] eqn:Hs; [|apply wp_ret; split; [done|apply same_roles_refl]].
    apply wp_bind, wp_relink_remove; [done|exact (ro_slaveof _ (wf_roles _ W1) n x1 old Hx1 Hs)|by exists x1|]. intros b s2 St2 _ R2. by apply wp_ret. }
  intros [] s2 [St2 R2]. destruct (st_known _ _ St2 n) as [x2 Hx2]; [by exists x1|]. assert (W2 : well_formed s2) by (by apply st_wf in St2).
  assert (Hma2 : is_Some (nodes s2 !! master)) by (apply St2; by exists y).
  apply wp_bind, wp_relink_add; [done|done|by exists x2|]. intros b s3 St3 _ R3.
  destruct (st_known _ _ St3 n) as [x3 Hx3]; [by exists x2|]. assert (W3 : well_formed s3) by (by apply st_wf in St3).
  eapply wp_set_node; [done|]. apply HQ. transitivity s3; [transitivity s2; [by transitivity s1|done]|].
  pose proof (R2 _ _ _ Hx1 Hx2) as E2. pose proof (R3 _ _ _ Hx2 Hx3) as E3. unfold rview in E2, E3.
  eapply wf_set_role; try done.
  - right. eapply replica_numslots; [apply W3|done|congruence].
  - intros k [= <-]. by apply St3.
  - intros Hh. exact (ro_kind _ (wf_roles _ W3) n x3 Hx3 Hh).
  - intros E. rewrite (st_myself _ _ St3), (st_myself _ _ St2), (st_myself _ _ St) in E. done.
Qed.

(** ** Messages *)

Lemma wp_UpdateSlots s n epoch bitmap Q : well_formed s -> (exists x, nodes s !! n = Some x /\ nodeIsMaster x = true) ->
  (forall s', stays s s' -> Q tt s') -> wp (clusterUpdateSlotsConfigWith e n epoch bitmap) s Q.
Proof.
  intros W Hn HQ. destruct (decide (n = myself s)) as [->|Hne].
  - destruct Hn as (x & Hx & _). apply wp_bind, wp_asks_c. eapply wp_bind, wp_get_node; [done|]. cbv zeta.
    rewrite bool_decide_eq_true_2 by done. by apply wp_ret, HQ.
  - eapply wp_mono; [apply wp_update_slots; [apply W|apply W|done|done]|]. intros [] s' (Hok & Hro & Hh & _). apply HQ.
    split; [by split|by apply he_myself|]. intros k [y Hy]. pose proof (he_nodes _ _ Hh k) as E. rewrite Hy in E.
    destruct (nodes s' !! k) as [y'|]; [by eexists|done].
Qed.

Lemma wp_process_ping n m gossip direct s Q : well_formed s -> is_Some (nodes s !! n) -> n <> myself s ->
  (forall s', stays s s' -> Q tt s') -> wp (process_ping e n m gossip direct) s Q.
Proof.
  intros W Hn Hne HQ. apply wp_bind, wp_set_calm; [done| |].
  { intros x _. apply pview_flags. rewrite land_set, land_clear; [done|done|]. by rewrite <- Z.land_assoc, Z.land_0_r. }
  intros s1 C1. apply wp_bind. eapply wp_mono with (Q := λ _ s2, calm s s2).
  { destruct direct; [|by apply wp_ret]. apply wp_reached; [by eapply calm_known|]. intros s2 C2. by transitivity s1. }
  intros [] s2 C2. apply wp_bind, wp_role_switch; [by eapply calm_wf|by eapply calm_known|by rewrite (ca_myself _ _ C2)|].
  intros s3 St3. assert (St : stays s s3) by (transitivity s2; [by apply calm_stays|done]). clear s1 C1 C2 St3.
  destruct (st_known _ _ St n Hn) as [x Hx]. assert (W3 : well_formed s3) by (by apply st_wf in St).
  eapply wp_bind, wp_get_node; [done|]. apply wp_bind. eapply wp_mono with (Q := λ _ s4, s4 = s3).
  { destruct (nodeIsMaster x) eqn:Hm; [by eapply wp_bind, wp_get_node, wp_ret|]. destruct (slaveof x) as [o|] eqn:Ho; [|by apply wp_ret].
    destruct (ro_slaveof _ (wf_roles _ W3) n x o Hx Ho) as [y Hy]. by eapply wp_bind, wp_get_node, wp_ret. }
  intros dirty s4 ->. apply wp_bind. eapply wp_mono with (Q := λ _ s4, stays s s4).
  { destruct (nodeIsMaster x && dirty) eqn:Hm; [|by apply wp_ret]. apply andb_true_iff in Hm as [Hm _].
    apply wp_UpdateSlots; [done|by exists x|]. intros s4 St4. by transitivity s3. }
  clear s3 St x Hx W3. intros [] s3 St. assert (W3 : well_formed s3) by (by apply st_wf in St). apply wp_bind. eapply wp_mono with (Q := λ _ s4, stays s s4).
  { destruct dirty; [|by apply wp_ret]. apply wp_bind, wp_newer_owner; [done|]. intros o Ho. destruct o as [k|]; [|by apply wp_ret].
    apply wp_SendUpdate; [done|by apply Ho|]. intros s4 C4. transitivity s3; [done|by apply calm_stays]. }
  clear s3 St W3. intros [] s3 St. assert (W3 : well_formed s3) by (by apply st_wf in St). destruct (wf_myself _ W3) as [me Hme].
  eapply wp_bind, wp_get_myself; [done|]. destruct (st_known _ _ St n Hn) as [x Hx]. eapply wp_bind, wp_get_node; [done|].
  apply wp_bind. eapply wp_mono with (Q := λ _ s4, calm s3 s4).
  { destruct (_ && _ && _); [|by apply wp_ret]. apply wp_Collision; [done|by exists x|done]. }
  intros [] s4 C4. apply wp_gossip; [by eapply calm_wf|eapply calm_known; [done|by exists x]|]. intros s5 C5. apply HQ.
  transitivity s3; [done|]. apply calm_stays. by transitivity s4.
Qed.

(** A message comes from another node, and an update is not about a node in a handshake. *)
Record received (s : clusterState) (m : clusterMsg) : Prop := {
  re_known : is_Some (nodes s !! m_sender m);
  re_other : m_sender m <> myself s;
  re_about n ep b x : m_data m = UPDATE n ep b -> nodes s !! n = Some x -> nodeInHandshake x = false }.

Lemma wp_packet inbound m s Q : well_formed s -> received s m -> (forall s', stays s s' -> Q tt s') -> wp (clusterProcessPacket e inbound m) s Q.
Proof.
  intros W [Hn Hne Hab] HQ. apply wp_bind, wp_header; [done|done|]. intros s1 C1. cbv zeta. assert (W1 : well_formed s1) by (by eapply calm_wf).
  assert (Hn1 : is_Some (nodes s1 !! m_sender m)) by (by eapply calm_known).
  assert (Hfin : forall s2, stays s1 s2 -> Q tt s2) by (intros s2 St; apply HQ; transitivity s1; [by apply calm_stays|done]).
  assert (Hcalm : forall s2, calm s1 s2 -> Q tt s2) by (intros s2 St; by apply Hfin, calm_stays).
  destruct (m_data m) as [pong gossip|n| | |n epoch bitmap|] eqn:Hd.
  - apply wp_bind. eapply wp_mono with (Q := λ _ s2, calm s1 s2). { destruct pong; [by apply wp_ret|]. by apply wp_SendPing. }
    intros [] s2 C2. apply wp_process_ping; [by eapply calm_wf|by eapply calm_known| |].
    + by rewrite (ca_myself _ _ C2), (ca_myself _ _ C1).
    + intros s3 St3. apply Hfin. transitivity s2; [by apply calm_stays|done].
  - apply wp_bind, wp_get. destruct (nodes s1 !! n) as [x|] eqn:Hx; [|by apply wp_skip]. destruct (has _ _); [by apply wp_skip|].
    apply wp_set_calm; [by exists x| |done]. intros z _.
    change (pview (set_flags (clear (Z.lor (flags z) CLUSTER_NODE_FAIL) CLUSTER_NODE_PFAIL) z) = pview z). apply pview_flags. by rewrite land_clear, land_set.
  - by apply wp_AuthIfNeeded.
  - by apply wp_auth_ack.
  - apply wp_bind, wp_get. destruct (nodes s1 !! n) as [x|] eqn:Hx; [|by apply wp_skip]. destruct (_ <=? _); [by apply wp_skip|].
    apply wp_bind. eapply wp_mono with (Q := λ _ s2, stays s1 s2 /\ exists x2, nodes s2 !! n = Some x2 /\ nodeIsMaster x2 = true).
    { destruct (nodeIsSlave x) eqn:Hsl.
      - apply wp_SetNodeAsMaster; [done|by exists x|]. intros s2 x2 St2 _ Hx2 Hm2. split; [done|by exists x2].
      - apply wp_ret. split; [done|]. exists x. split; [done|]. destruct (calm_node _ _ _ _ (calm_sym _ _ C1) Hx) as (x0 & Hx0 & E0).
        apply pview_inv in E0 as (_ & _ & _ & E0 & _). pose proof (ro_kind _ (wf_roles _ W1) n x Hx) as Hk. rewrite Hsl in Hk.
        specialize (Hab n epoch bitmap x0 eq_refl Hx0). destruct (nodeIsMaster x); [done|]. rewrite <- E0, Hab in Hk. by specialize (Hk eq_refl). }
    intros [] s2 (St2 & x2 & Hx2 & Hm2). apply wp_bind. eapply wp_set_node; [done|]. set (s3 := with_nodes _ s2).
    assert (C3 : calm s2 s3) by (by eapply calm_set). apply wp_UpdateSlots; [eapply calm_wf; [done|]; by apply st_wf in St2| |].
    + eexists. cbn. rewrite lookup_insert_eq. by split.
    + intros s4 St4. apply Hfin. transitivity s2; [done|]. transitivity s3; [by apply calm_stays|done].
  - apply wp_bind, wp_asks_c. destruct Hn1 as [x Hx]. eapply wp_bind, wp_get_node; [done|]. destruct (negb _); [by apply wp_skip|].
    apply wp_bind, wp_update_calm; [done..|]. intros s2 C2. apply wp_bind, wp_update_calm; [done..|]. intros s3 C3.
    assert (calm s1 s3) by (by transitivity s2). apply wp_SendPing; [by eapply calm_wf|]. intros s4 C4. apply Hcalm. by transitivity s3.
Qed.

(** ** Failing over *)

Lemma wp_take_slots old me js : forall s, slots_ok s -> is_Some (nodes s !! old) -> (exists x, nodes s !! me = Some x /\ nodeIsMaster x = true) ->
  (forall j, j ∈ js -> 0 <= j < CLUSTER_SLOTS) -> wp (take_slots old me js) s (λ _ s', slots_ok s' /\ moves s s').
Proof.
  induction js as [|j js IH]; intros s Hok [x Hx] (y & Hy & Hm) Hjs; [by apply wp_ret|]. assert (Hj : 0 <= j < CLUSTER_SLOTS) by (apply Hjs; by left).
  assert (Hnext : forall s1, slots_ok s1 -> moves s s1 -> wp (take_slots old me js) s1 (λ _ s', slots_ok s' /\ moves s s')).
  { intros s1 Hok1 Hmv. destruct (moves_node _ _ _ _ Hmv Hx) as (x1 & Hx1 & _). destruct (moves_node _ _ _ _ Hmv Hy) as (y1 & Hy1 & E1).
    unfold role_view in E1. eapply wp_mono; [apply IH; [done|by exists x1|exists y1; split; [done|congruence]|intros k Hk; apply Hjs; by right]|].
    intros _ s2 [H1 H2]. split; [done|]. by transitivity s1. }
  cbn [take_slots]. apply wp_bind. eapply wp_bind, wp_get_node; [done|]. apply wp_ret. apply wp_bind.
  destruct (bitmapTestBit (n_slots x) j) eqn:Hb; [|by apply wp_ret, Hnext].
  apply wp_bind. eapply wp_delslot; [done|exact (so_bit _ Hok j old x Hx (proj1 Hj) Hb)|]. intros s1 Hok1 Hmv1 Es1.
  destruct (moves_node _ _ _ _ Hmv1 Hy) as (y1 & Hy1 & E1). unfold role_view in E1.
  apply wp_bind. eapply wp_addslot; [done|done|congruence|done|rewrite Es1; apply lookup_delete_eq|]. intros s2 Hok2 Hmv2 _.
  apply wp_ret, Hnext; [done|]. by transitivity s1.
Qed.

Lemma wp_ReplaceYourMaster s Q : well_formed s -> (forall s', stays s s' -> Q tt s') -> wp (clusterFailoverReplaceYourMaster e) s Q.
Proof.
  intros W HQ. apply wp_bind, wp_asks_c. destruct (wf_myself _ W) as [x Hx]. eapply wp_bind, wp_get_node; [done|].
  destruct (slaveof x) as [old|] eqn:Ho; [|by apply wp_ret, HQ]. destruct (nodeIsMaster x); [by apply wp_ret, HQ|].
  assert (Hold : is_Some (nodes s !! old)) by exact (ro_slaveof _ (wf_roles _ W) _ x old Hx Ho).
  apply wp_bind, wp_SetNodeAsMaster; [done|by exists x|]. intros s1 x1 St1 _ Hx1 Hm1. assert (W1 : well_formed s1) by (by apply st_wf in St1).
  apply wp_bind. eapply wp_mono; [apply wp_take_slots; [apply W1|by apply St1|by exists x1|intros j; by rewrite all_slots_elem]|].
  intros [] s2 [Hok2 Hmv2]. assert (St2 : stays s s2) by (transitivity s1; [done|by apply moves_stays]). assert (W2 : well_formed s2) by (by apply st_wf in St2).
  apply wp_bind, wp_UpdateState; [done|]. intros s3 C3. apply wp_bind, wp_BroadcastPong; [by eapply calm_wf|]. intros s4 C4.
  apply wp_update_calm; [done..|]. intros s5 C5. apply HQ. transitivity s2; [done|]. apply calm_stays. transitivity s3; [done|]. by transitivity s4.
Qed.

Lemma wp_better_slaves me off l : forall rank s (Q : Z -> clusterState -> Prop), (forall n, n ∈ l -> is_Some (nodes s !! n)) -> (forall r, Q r s) ->
  wp (better_slaves me off l rank) s Q.
Proof.
  induction l as [|n l IH]; intros rank s Q Hl HQ; [by apply wp_ret|]. destruct (Hl n) as [x Hx]; [by left|]. eapply wp_bind, wp_get_node; [done|].
  apply IH; [|done]. intros k Hk. apply Hl. by right.
Qed.

Lemma wp_GetSlaveRank s x (Q : Z -> clusterState -> Prop) : well_formed s -> nodes s !! myself s = Some x -> nodeIsMaster x = false -> (forall r, Q r s) ->
  wp (clusterGetSlaveRank e) s Q.
Proof.
  intros W Hx Hm HQ. apply wp_bind, wp_asks_c. eapply wp_bind, wp_get_node; [done|].
  rewrite (ro_kind _ (wf_roles _ W) _ x Hx (ro_joined _ (wf_roles _ W) x Hx)), Hm. cbn [negb].
  destruct (slaveof x) as [m|] eqn:Hs; [|by apply wp_ret]. destruct (ro_slaveof _ (wf_roles _ W) _ x m Hx Hs) as [y Hy].
  eapply wp_bind, wp_get_node; [done|]. apply wp_better_slaves; [|done]. intros n Hn. exact (ro_slaves _ (wf_roles _ W) m y n Hy Hn).
Qed.

Lemma wp_set_elec f s Q : (forall s', calm s s' -> Q tt s') -> wp (set_elec f) s Q.
Proof. intros HQ. apply wp_bind, wp_get, wp_put, HQ. by split. Qed.

Lemma wp_failover s (Q : bool -> clusterState -> Prop) : well_formed s -> (forall b s', stays s s' -> Q b s') -> wp (clusterHandleSlaveFailover e) s Q.
Proof.
  intros W HQ. assert (Hcalm : forall b s', calm s s' -> Q b s') by (intros b s' C; by apply HQ, calm_stays).
  apply wp_bind, wp_get. cbv zeta. destruct (wf_myself _ W) as [x Hx]. eapply wp_bind, wp_get_myself; [done|].
  apply wp_bind. eapply wp_mono with (Q := λ b s1, s1 = s /\ (b = true -> nodeIsMaster x = false)).
  { destruct (nodeIsMaster x); [by apply wp_ret|]. destruct (slaveof x) as [m|] eqn:Hs; [|by apply wp_ret].
    destruct (ro_slaveof _ (wf_roles _ W) _ x m Hx Hs) as [y Hy]. eapply wp_bind, wp_get_node; [done|]. by apply wp_ret. }
  intros go s1 [-> Hgo]. destruct go; [|by apply wp_ret, Hcalm]. cbn [negb]. specialize (Hgo eq_refl).
  destruct (_ && _); [by apply wp_ret, Hcalm|]. destruct (_ <? _).
  { apply wp_bind. eapply wp_GetSlaveRank; [done..|]. intros r. apply wp_bind, wp_set_elec. intros s1 C1. apply wp_bind.
    eapply wp_mono with (Q := λ _ s2, calm s s2).
    { destruct (_ =? _); [by apply wp_ret|]. apply wp_set_elec. intros s2 C2. by transitivity s1. }
    intros [] s2 C2. apply wp_bind, wp_BroadcastPong; [by eapply calm_wf|]. intros s3 C3. apply wp_ret, Hcalm. by transitivity s2. }
  apply wp_bind. eapply wp_mono with (Q := λ _ s1, calm s s1).
  { destruct (_ && _); [|by apply wp_ret]. apply wp_bind. eapply wp_GetSlaveRank; [done..|]. intros r. destruct (_ <? _); [by apply wp_set_elec|by apply wp_ret]. }
  intros [] s1 C1. apply wp_bind, wp_asks_c. destruct (_ <? _); [by apply wp_ret, Hcalm|]. destruct (_ <? _); [by apply wp_ret, Hcalm|].
  destruct (negb _).
  - apply wp_bind, wp_update_calm; [done..|]. intros s2 C2. apply wp_bind, wp_set_elec. intros s3 C3.
    assert (C : calm s s3) by (transitivity s1; [done|]; by transitivity s2). apply wp_bind, wp_RequestAuth; [by eapply calm_wf|]. intros s4 C4.
    apply wp_bind, wp_set_elec. intros s5 C5. apply wp_ret, Hcalm. transitivity s3; [done|]. by transitivity s4.
  - destruct (_ <=? _); [|by apply wp_ret, Hcalm]. apply wp_bind. eapply wp_mono with (Q := λ _ s2, calm s s2).
    { destruct (_ <? _); [|by apply wp_ret]. apply wp_set_calm; [eapply calm_known; [done|by exists x]|done|]. intros s2 C2. by transitivity s1. }
    intros [] s2 C2. apply wp_bind, wp_ReplaceYourMaster; [by eapply calm_wf|]. intros s3 St3. apply wp_ret, HQ.
    transitivity s2; [by apply calm_stays|done].
Qed.
End safe.

(** ** The invariant *)

(** What the bus does to an instance. *)
Inductive bus_step : clusterState -> clusterState -> Prop :=
| bs_packet e inbound m s s' : received s m -> clusterProcessPacket e inbound m s = Some (tt, s') -> bus_step s s'
| bs_failover e b s s' : clusterHandleSlaveFailover e s = Some (b, s') -> bus_step s s'
| bs_manual e s s' : clusterHandleManualFailover e s = Some (tt, s') -> bus_step s s'
| bs_timeout e s s' : manualFailoverCheckTimeout e s = Some (tt, s') -> bus_step s s'
| bs_state e s s' : clusterUpdateState e s = Some (tt, s') -> bus_step s s'.

Lemma wp_outcome {A} (m : ST clusterState A) s a s' (R : clusterState -> Prop) : m s = Some (a, s') -> wp m s (λ _ s', R s') -> R s'.
Proof. intros E (b & s2 & E2 & H). rewrite E in E2. by injection E2 as <- <-. Qed.

Lemma bus_step_wf s s' : bus_step s s' -> well_formed s -> well_formed s'.
Proof.
  intros H W. destruct H as [e inbound m s s' Hr E|e b s s' E|e s s' E|e s s' E|e s s' E]; eapply wp_outcome; [exact E| |exact E| |exact E| |exact E| |exact E|].
  - apply wp_packet; [done|done|]. intros s1 St. by apply St.
  - apply wp_failover; [done|]. intros b1 s1 St. by apply St.
  - apply wp_bind, wp_get. cbv zeta. destruct (_ || _); [by apply wp_ret|]. destruct (_ =? _); [|by apply wp_ret].
    apply wp_update_calm; [done..|]. intros s1 C. by eapply calm_wf.
  - apply wp_bind, wp_get. destruct (_ && _); [|by apply wp_ret]. apply wp_update_calm; [done..|]. intros s1 C. by eapply calm_wf.
  - apply wp_UpdateState; [done|]. intros s1 C. by eapply calm_wf.
Qed.

(** C8: Whatever messages an instance receives and however often it runs its failover, its
    table of slots agrees with the bitmaps and the counts of the nodes, slots belong
    to masters, masters and replicas are linked to nodes that exist, and it is
    itself a master or the replica of a node that it knows; in such a state no
    message and no failover fails an assertion or follows a NULL pointer. *)
Theorem cluster_stays_well_formed s s' : rtc bus_step s s' -> well_formed s ->
  well_formed s' /\
  (forall e inbound m, received s' m -> is_Some (clusterProcessPacket e inbound m s')) /\
  (forall e, is_Some (clusterHandleSlaveFailover e s')).
Proof.
  intros H W. assert (W' : well_formed s') by (induction H as [|s1 s2 s3 H1 _ IH]; [done|by eapply IH, bus_step_wf]).
  split; [done|]. split.
  - intros e inbound m Hm. destruct (wp_packet e inbound m s' (λ _ _, True) W' Hm) as (a & s2 & E & _); [done|]. by exists (a, s2).
  - intros e. destruct (wp_failover e s' (λ _ _, True) W') as (a & s2 & E & _); [done|]. by exists (a, s2).
Qed.

(** Node 2, a master with epoch 2, claims the slot of node 1: its replica follows. *)
Definition claim_ping : clusterMsg := Msg (PING false []) 2 3 None CLUSTER_NODE_MASTER 3 2 0 false false.

Lemma cluster_stays_well_formed_witness : exists s', clusterProcessPacket Claims.env true claim_ping (Claims.local 4) = Some (tt, s') /\ well_formed s' /\
  slots s' !! 0 = Some 2%positive /\ is_Some (clusterHandleSlaveFailover Claims.env s').
Proof.
  destruct (clusterProcessPacket Claims.env true claim_ping (Claims.local 4)) as [[[] s']|] eqn:E; [|by vm_compute in E].
  assert (Hs : slots s' !! 0 = Some 2%positive) by (vm_compute in E; injection E as <-; vm_compute; reflexivity).
  exists s'. split; [reflexivity|]. destruct (cluster_stays_well_formed (Claims.local 4) s') as (W & _ & F).
  - eapply rtc_once, bs_packet; [|exact E]. split; [by eexists|done|done].
  - split; [apply Claims.claims_ok|apply Claims.claims_role; by eexists].
  - split; [exact W|]. split; [exact Hs|]. apply F.
Defined.
