(* ===== verification/Repl.v ===== *)
(** The replication stream of a master: [replication.c], and what [networking.c] does for
    replicas.

    All replicas and the backlog share one list of blocks.  Each of them refers to one
    block, and a block is freed from the head of the list when only the backlog refers to
    it.  A node of the list is named by the [id] of its block, which is unique; looking
    up a node that is no longer in the list makes the program fail, like a failed
    assertion.  [usable] is what [zmalloc_usable] returns: the allocator may give more
    bytes than were asked for.  The radix tree [blocks_index] of offsets, eight bytes each
    in network order, is the list of its pairs in increasing order.  Offsets do not
    overflow 64 bits.

    [r_told] is the offset that the reply to SYNC or PSYNC has told a replica to have:
    what follows on the connection is the stream after it.  [r_sent] collects the bytes
    of the stream that the connection has accepted.  Closing a replica whose output buffer is too large happens later
    ([freeClientAsync]): it is one more [freeClient]. *)

From stdpp Require Import list.
From S2P Require Import Prelude State.

Local Open Scope Z_scope.

Definition CONFIG_REPL_BACKLOG_MIN_SIZE : Z := 16 * 1024.
Definition PROTO_REPLY_CHUNK_BYTES : Z := 16 * 1024.
Definition REPL_BACKLOG_TRIM_BLOCKS_PER_CALL : nat := 64.
Definition REPL_BACKLOG_INDEX_PER_BLOCKS : Z := 64.

Inductive slave_state :=
| REPL_STATE_NONE
| SLAVE_STATE_WAIT_BGSAVE_START
| SLAVE_STATE_WAIT_BGSAVE_END
| SLAVE_STATE_SEND_BULK
| SLAVE_STATE_ONLINE
| SLAVE_STATE_RDB_TRANSMITTED.

#[export] Instance slave_state_eq_dec : EqDecision slave_state.
Proof. solve_decision. Defined.

(** [sizeof(replBufBlock)] and [sizeof(listNode)]. *)
Definition sizeof_replBufBlock : Z := 40.
Definition sizeof_listNode : Z := 24.

(** [buf] holds the [used] bytes of the block. *)
Record replBufBlock := Block {
  refcount : Z;
  b_id : Z;
  repl_offset : Z;
  b_size : Z;
  b_buf : bytes }.

Definition b_used (b : replBufBlock) : Z := Z.of_nat (length (b_buf b)).

Record replBacklog := Backlog {
  ref_node : option Z;
  unindexed_count : Z;
  blocks_index : list (Z * Z);
  histlen : Z;
  bl_offset : Z }.

(** A replica: the fields of its [client]. *)
Record replica := Replica {
  r_id : Z;
  replstate : slave_state;
  rdbonly : bool;
  start_on_ack : bool;
  close_asap : bool;
  ref_repl_buf_node : option Z;
  ref_block_pos : Z;
  psync_initial_offset : Z;
  r_told : option Z;
  r_sent : bytes }.

Record rstate := RState {
  master_repl_offset : Z;
  replid : Z;
  replid2 : Z;
  second_replid_offset : Z;
  slaveseldb : Z;
  repl_backlog_size : Z;
  repl_backlog : option replBacklog;
  repl_buffer_blocks : list replBufBlock;
  repl_block_id : Z;
  repl_buffer_mem : Z;
  slaves : list replica }.

Abbreviation R := (ST rstate).

(** ** Access *)

Definition with_offset (x : Z) (s : rstate) : rstate :=
  RState x (replid s) (replid2 s) (second_replid_offset s) (slaveseldb s) (repl_backlog_size s) (repl_backlog s)
    (repl_buffer_blocks s) (repl_block_id s) (repl_buffer_mem s) (slaves s).
Definition with_ids (a b x : Z) (s : rstate) : rstate :=
  RState (master_repl_offset s) a b x (slaveseldb s) (repl_backlog_size s) (repl_backlog s)
    (repl_buffer_blocks s) (repl_block_id s) (repl_buffer_mem s) (slaves s).
Definition with_slaveseldb (x : Z) (s : rstate) : rstate :=
  RState (master_repl_offset s) (replid s) (replid2 s) (second_replid_offset s) x (repl_backlog_size s) (repl_backlog s)
    (repl_buffer_blocks s) (repl_block_id s) (repl_buffer_mem s) (slaves s).
Definition with_backlog_size (x : Z) (s : rstate) : rstate :=
  RState (master_repl_offset s) (replid s) (replid2 s) (second_replid_offset s) (slaveseldb s) x (repl_backlog s)
    (repl_buffer_blocks s) (repl_block_id s) (repl_buffer_mem s) (slaves s).
Definition with_backlog (x : option replBacklog) (s : rstate) : rstate :=
  RState (master_repl_offset s) (replid s) (replid2 s) (second_replid_offset s) (slaveseldb s) (repl_backlog_size s) x
    (repl_buffer_blocks s) (repl_block_id s) (repl_buffer_mem s) (slaves s).
Definition with_blocks (x : list replBufBlock) (s : rstate) : rstate :=
  RState (master_repl_offset s) (replid s) (replid2 s) (second_replid_offset s) (slaveseldb s) (repl_backlog_size s) (repl_backlog s)
    x (repl_block_id s) (repl_buffer_mem s) (slaves s).
Definition with_block_id (x : Z) (s : rstate) : rstate :=
  RState (master_repl_offset s) (replid s) (replid2 s) (second_replid_offset s) (slaveseldb s) (repl_backlog_size s) (repl_backlog s)
    (repl_buffer_blocks s) x (repl_buffer_mem s) (slaves s).
Definition with_mem (x : Z) (s : rstate) : rstate :=
  RState (master_repl_offset s) (replid s) (replid2 s) (second_replid_offset s) (slaveseldb s) (repl_backlog_size s) (repl_backlog s)
    (repl_buffer_blocks s) (repl_block_id s) x (slaves s).
Definition with_slaves (x : list replica) (s : rstate) : rstate :=
  RState (master_repl_offset s) (replid s) (replid2 s) (second_replid_offset s) (slaveseldb s) (repl_backlog_size s) (repl_backlog s)
    (repl_buffer_blocks s) (repl_block_id s) (repl_buffer_mem s) x.

Definition modify (f : rstate -> rstate) : R unit := s ← get; put (f s).

Definition set_refcount (n : Z) (b : replBufBlock) : replBufBlock := Block n (b_id b) (repl_offset b) (b_size b) (b_buf b).
Definition set_buf (x : bytes) (b : replBufBlock) : replBufBlock := Block (refcount b) (b_id b) (repl_offset b) (b_size b) x.
Definition set_repl_offset (n : Z) (b : replBufBlock) : replBufBlock := Block (refcount b) (b_id b) n (b_size b) (b_buf b).

Definition set_ref (n : option Z) (pos : Z) (r : replica) : replica :=
  Replica (r_id r) (replstate r) (rdbonly r) (start_on_ack r) (close_asap r) n pos (psync_initial_offset r) (r_told r) (r_sent r).
Definition set_replstate (x : slave_state) (r : replica) : replica :=
  Replica (r_id r) x (rdbonly r) (start_on_ack r) (close_asap r) (ref_repl_buf_node r) (ref_block_pos r) (psync_initial_offset r) (r_told r) (r_sent r).
Definition set_start_on_ack (x : bool) (r : replica) : replica :=
  Replica (r_id r) (replstate r) (rdbonly r) x (close_asap r) (ref_repl_buf_node r) (ref_block_pos r) (psync_initial_offset r) (r_told r) (r_sent r).
Definition set_close_asap (r : replica) : replica :=
  Replica (r_id r) (replstate r) (rdbonly r) (start_on_ack r) true (ref_repl_buf_node r) (ref_block_pos r) (psync_initial_offset r) (r_told r) (r_sent r).
Definition set_initial_offset (x : Z) (r : replica) : replica :=
  Replica (r_id r) (replstate r) (rdbonly r) (start_on_ack r) (close_asap r) (ref_repl_buf_node r) (ref_block_pos r) x (r_told r) (r_sent r).
Definition set_told (x : Z) (r : replica) : replica :=
  Replica (r_id r) (replstate r) (rdbonly r) (start_on_ack r) (close_asap r) (ref_repl_buf_node r) (ref_block_pos r) (psync_initial_offset r) (Some x) (r_sent r).
Definition set_rdbonly (x : bool) (r : replica) : replica :=
  Replica (r_id r) (replstate r) x (start_on_ack r) (close_asap r) (ref_repl_buf_node r) (ref_block_pos r) (psync_initial_offset r) (r_told r) (r_sent r).
Definition add_sent (x : bytes) (r : replica) : replica :=
  Replica (r_id r) (replstate r) (rdbonly r) (start_on_ack r) (close_asap r) (ref_repl_buf_node r) (ref_block_pos r) (psync_initial_offset r) (r_told r) (r_sent r ++ x).

(** [listNodeValue], and the list operations on the blocks. *)
Fixpoint find_block (l : list replBufBlock) (n : Z) : option replBufBlock :=
  match l with [] => None | b :: l' => if b_id b =? n then Some b else find_block l' n end.
Definition update_block (n : Z) (f : replBufBlock -> replBufBlock) (l : list replBufBlock) : list replBufBlock :=
  map (λ b, if b_id b =? n then f b else b) l.
Definition get_block (n : Z) : R replBufBlock :=
  s ← get; match find_block (repl_buffer_blocks s) n with Some b => mret b | None => fail end.
Definition set_block (n : Z) (f : replBufBlock -> replBufBlock) : R unit :=
  _ ← get_block n; modify (λ s, with_blocks (update_block n f (repl_buffer_blocks s)) s).
Fixpoint next_block (l : list replBufBlock) (n : Z) : option Z :=
  match l with
  | b :: l' => if b_id b =? n then head l' ≫= λ c, Some (b_id c) else next_block l' n
  | [] => None
  end.
Definition listNextNode (n : Z) : R (option Z) := s ← get; mret (next_block (repl_buffer_blocks s) n).
Definition listLast : R (option replBufBlock) := s ← get; mret (last (repl_buffer_blocks s)).
Definition incr_ref (n : Z) : R unit := set_block n (λ b, set_refcount (refcount b + 1) b).
Definition decr_ref (n : Z) : R unit := set_block n (λ b, set_refcount (refcount b - 1) b).

Definition get_backlog : R replBacklog := s ← get; match repl_backlog s with Some b => mret b | None => fail end.
Definition set_backlog (b : replBacklog) : R unit := modify (with_backlog (Some b)).

Fixpoint find_replica (l : list replica) (c : Z) : option replica :=
  match l with [] => None | r :: l' => if r_id r =? c then Some r else find_replica l' c end.
Definition update_replica (c : Z) (f : replica -> replica) (l : list replica) : list replica :=
  map (λ r, if r_id r =? c then f r else r) l.
Definition get_replica (c : Z) : R replica := s ← get; match find_replica (slaves s) c with Some r => mret r | None => fail end.
Definition set_replica (c : Z) (f : replica -> replica) : R unit :=
  _ ← get_replica c; modify (λ s, with_slaves (update_replica c f (slaves s)) s).

(** ** The index of blocks *)

(** [raxInsert], [raxRemove], and a [raxSeek] for the first key greater than [k], as two
    parts of the index. *)
Fixpoint index_insert (k v : Z) (l : list (Z * Z)) : list (Z * Z) :=
  match l with
  | [] => [(k, v)]
  | (k', v') :: l' => if k <? k' then (k, v) :: l else if k =? k' then (k, v) :: l' else (k', v') :: index_insert k v l'
  end.
Definition index_remove (k : Z) (l : list (Z * Z)) : list (Z * Z) := filter (λ p, p.1 <> k) l.
Fixpoint index_seek (k : Z) (l : list (Z * Z)) : list (Z * Z) * list (Z * Z) :=
  match l with
  | [] => ([], [])
  | p :: l' => if k <? p.1 then ([], l) else let '(a, b) := index_seek k l' in (p :: a, b)
  end.

(** ** The backlog *)

Definition createReplicationBacklog : R unit :=
  s ← get;
  match repl_backlog s with
  | Some _ => fail
  | None => set_backlog (Backlog None 0 [] 0 (master_repl_offset s + 1))
  end.

Definition resetReplicationBuffer : R unit := modify (λ s, with_mem 0 (with_blocks [] s)).

Definition freeReplicationBacklog : R unit :=
  s ← get;
  match slaves s with
  | _ :: _ => fail
  | [] =>
      match repl_backlog s with
      | None => mret tt
      | Some bl =>
          match ref_node bl with
          | None => mret tt
          | Some n => o ← get_block n; if negb (refcount o =? 1) then fail else decr_ref n
          end;;
          resetReplicationBuffer;;
          modify (with_backlog None)
      end
  end.

Definition createReplicationBacklogIndex (n : Z) : R unit :=
  bl ← get_backlog;
  let count := unindexed_count bl + 1 in
  if REPL_BACKLOG_INDEX_PER_BLOCKS <=? count then
    o ← get_block n;
    set_backlog (Backlog (ref_node bl) 0 (index_insert (repl_offset o) n (blocks_index bl)) (histlen bl) (bl_offset bl))
  else set_backlog (Backlog (ref_node bl) count (blocks_index bl) (histlen bl) (bl_offset bl)).

(** The loop over the blocks. *)
Fixpoint rebase_blocks (base : Z) (l : list replBufBlock) : R unit :=
  match l with
  | [] => mret tt
  | b :: l' =>
      set_block (b_id b) (λ o, set_repl_offset (repl_offset o + base) o);;
      createReplicationBacklogIndex (b_id b);;
      rebase_blocks base l'
  end.

Definition rebaseReplicationBuffer (base_repl_offset : Z) : R unit :=
  bl ← get_backlog;
  set_backlog (Backlog (ref_node bl) 0 [] (histlen bl) (bl_offset bl));;
  s ← get;
  rebase_blocks base_repl_offset (repl_buffer_blocks s).

Definition canFeedReplicaReplBuffer (r : replica) : bool :=
  negb (rdbonly r) && negb (bool_decide (replstate r = SLAVE_STATE_WAIT_BGSAVE_START)).

(** The loop of [incrementalTrimReplicationBacklog]; [fuel] is what remains of
    [max_blocks]. *)
Fixpoint trim_blocks (fuel : nat) : R unit :=
  match fuel with
  | O => mret tt
  | S fuel' =>
      s ← get;
      bl ← get_backlog;
      if histlen bl <=? repl_backlog_size s then mret tt
      else
        match repl_buffer_blocks s with
        | fo :: (nx :: _) as rest =>
            if negb (bool_decide (ref_node bl = Some (b_id fo))) then fail
            else if negb (refcount fo =? 1) then mret tt
            else if histlen bl - b_size fo <=? repl_backlog_size s then mret tt
            else
              decr_ref (b_id fo);;
              next ← listNextNode (b_id fo);
              match next with
              | None => fail
              | Some n =>
                  set_backlog (Backlog (Some n) (unindexed_count bl) (index_remove (repl_offset fo) (blocks_index bl))
                                 (histlen bl - b_size fo) (bl_offset bl));;
                  incr_ref n;;
                  fo ← get_block (b_id fo);
                  if negb (refcount fo =? 0) || negb (b_used fo =? b_size fo) then fail
                  else
                    modify (λ s, with_mem (repl_buffer_mem s - (b_size fo + sizeof_listNode + sizeof_replBufBlock)) s);;
                    modify (λ s, with_blocks (tail (repl_buffer_blocks s)) s);;
                    trim_blocks fuel'
              end
        | _ => mret tt
        end
  end.

Definition incrementalTrimReplicationBacklog (max_blocks : nat) : R unit :=
  _ ← get_backlog;
  trim_blocks max_blocks;;
  s ← get;
  bl ← get_backlog;
  set_backlog (Backlog (ref_node bl) (unindexed_count bl) (blocks_index bl) (histlen bl) (master_repl_offset s - histlen bl + 1)).

Definition resizeReplicationBacklog : R unit :=
  s ← get;
  (if repl_backlog_size s <? CONFIG_REPL_BACKLOG_MIN_SIZE then modify (with_backlog_size CONFIG_REPL_BACKLOG_MIN_SIZE) else mret tt);;
  match repl_backlog s with
  | Some _ => incrementalTrimReplicationBacklog REPL_BACKLOG_TRIM_BLOCKS_PER_CALL
  | None => mret tt
  end.

Definition freeReplicaReferencedReplBuffer (c : Z) : R unit :=
  r ← get_replica c;
  match ref_repl_buf_node r with
  | None => mret tt
  | Some n =>
      o ← get_block n;
      if negb (0 <? refcount o) then fail
      else decr_ref n;; incrementalTrimReplicationBacklog REPL_BACKLOG_TRIM_BLOCKS_PER_CALL
  end;;
  set_replica c (set_ref None 0).

(** ** Feeding the stream *)

Section feed.
Context (usable : Z -> Z).

(** Bytes of [s] that go to the block [n], which is the last: its size limits them. *)
Definition append_block (n : Z) (s : bytes) : R bytes :=
  o ← get_block n;
  let avail := b_size o - b_used o in
  let copy := if Z.of_nat (length s) <=? avail then Z.of_nat (length s) else avail in
  let k := Z.to_nat copy in
  set_block n (λ b, set_buf (b_buf b ++ take k s) b);;
  bl ← get_backlog;
  modify (λ s, with_offset (master_repl_offset s + copy) s);;
  set_backlog (Backlog (ref_node bl) (unindexed_count bl) (blocks_index bl) (histlen bl + copy) (bl_offset bl));;
  mret (drop k s).

(** A new block, with as much of [s] as fits. *)
Definition new_block (s : bytes) : R (Z * bytes) :=
  st ← get;
  let len := Z.of_nat (length s) in
  let limit := Z.max (repl_backlog_size st / 16) PROTO_REPLY_CHUNK_BYTES in
  let size := Z.min (Z.max len PROTO_REPLY_CHUNK_BYTES) limit in
  let usable_size := usable (size + sizeof_replBufBlock) in
  let size := usable_size - sizeof_replBufBlock in
  let copy := if len <=? size then len else size in
  let id := repl_block_id st in
  let k := Z.to_nat copy in
  modify (with_block_id (id + 1));;
  modify (λ s0, with_blocks (repl_buffer_blocks s0 ++ [Block 0 id (master_repl_offset s0 + 1) size (take k s)]) s0);;
  modify (λ s0, with_mem (repl_buffer_mem s0 + (usable_size + sizeof_listNode)) s0);;
  bl ← get_backlog;
  modify (λ s0, with_offset (master_repl_offset s0 + copy) s0);;
  set_backlog (Backlog (ref_node bl) (unindexed_count bl) (blocks_index bl) (histlen bl + copy) (bl_offset bl));;
  mret (id, drop k s).

(** The loop over the replicas. *)
Fixpoint feed_slaves (start pos : Z) (l : list replica) : R unit :=
  match l with
  | [] => mret tt
  | r :: l' =>
      (if canFeedReplicaReplBuffer r && bool_decide (ref_repl_buf_node r = None) then
         set_replica (r_id r) (set_ref (Some start) pos);; incr_ref start
       else mret tt);;
      feed_slaves start pos l'
  end.

(** One turn of the loop of [feedReplicationBuffer]; the result is what is left of [s]. *)
Definition feed_once (s : bytes) : R bytes :=
  ln ← listLast;
  x ← match ln with
      | Some t =>
          if b_used t <? b_size t
          then rest ← append_block (b_id t) s; mret (Some (b_id t, b_used t), rest)
          else mret (None, s)
      | None => mret (None, s)
      end;
  let '(start, s) := x in
  y ← match s with
      | [] => mret (start, None, s)
      | _ =>
          '(n, rest) ← new_block s;
          mret (match start with Some p => Some p | None => Some (n, 0) end, Some n, rest)
      end;
  let '(start, added, s) := y in
  match start with
  | None => fail
  | Some (n, pos) =>
      st ← get;
      feed_slaves n pos (slaves st);;
      bl ← get_backlog;
      match ref_node bl with
      | Some _ => mret tt
      | None =>
          set_backlog (Backlog (Some n) (unindexed_count bl) (blocks_index bl) (histlen bl) (bl_offset bl));;
          incr_ref n;;
          match added with Some _ => if pos =? 0 then mret tt else fail | None => fail end
      end;;
      match added with Some m => createReplicationBacklogIndex m | None => mret tt end;;
      incrementalTrimReplicationBacklog REPL_BACKLOG_TRIM_BLOCKS_PER_CALL;;
      mret s
  end.

(** Each turn takes a byte at least. *)
Fixpoint feed_loop (fuel : nat) (s : bytes) : R unit :=
  match s, fuel with
  | [], _ => mret tt
  | _, O => fail
  | _, S fuel' => rest ← feed_once s; feed_loop fuel' rest
  end.

Definition feedReplicationBuffer (s : bytes) : R unit :=
  st ← get;
  match repl_backlog st with
  | None => mret tt
  | Some _ => feed_loop (length s) s
  end.
End feed.

(** ** Sending *)

(** The branch of [clientHasPendingReplies] for replicas. *)
Definition clientHasPendingReplies (c : Z) : R bool :=
  r ← get_replica c;
  match ref_repl_buf_node r with
  | None => mret false
  | Some n =>
      ln ← listLast;
      match ln with
      | None => fail
      | Some tl => mret (negb ((b_id tl =? n) && (ref_block_pos r =? b_used tl)))
      end
  end.

(** The branch of [_writeToClient] for replicas: the connection accepts at most [n]
    bytes, and reports an error if [n] is not positive.  The result is [C_OK]. *)
Definition _writeToClient (c n : Z) : R bool :=
  r ← get_replica c;
  match ref_repl_buf_node r with
  | None => fail
  | Some node =>
      o ← get_block node;
      if b_used o <? ref_block_pos r then fail
      else
        ok ← (if ref_block_pos r <? b_used o then
                if n <=? 0 then mret false
                else
                  let nwritten := Z.min n (b_used o - ref_block_pos r) in
                  set_replica c (λ r, set_ref (ref_repl_buf_node r) (ref_block_pos r + nwritten)
                                        (add_sent (take (Z.to_nat nwritten) (drop (Z.to_nat (ref_block_pos r)) (b_buf o))) r));;
                  mret true
              else mret true);
        if negb ok then mret false
        else
          r ← get_replica c;
          next ← listNextNode node;
          match next with
          | Some m =>
              if ref_block_pos r =? b_used o then
                decr_ref node;; incr_ref m;;
                set_replica c (set_ref (Some m) 0);;
                incrementalTrimReplicationBacklog REPL_BACKLOG_TRIM_BLOCKS_PER_CALL
              else mret tt
          | None => mret tt
          end;;
          mret true
  end.

(** The loop of [writeToClient], for the answers of the connection. *)
Fixpoint writeToClient (c : Z) (ns : list Z) : R unit :=
  match ns with
  | [] => mret tt
  | n :: ns' =>
      pending ← clientHasPendingReplies c;
      if negb pending then mret tt
      else ok ← _writeToClient c n; if ok : bool then writeToClient c ns' else mret tt
  end.

(** The condition of [putClientInPendingWriteQueue] for a replica. *)
Definition may_write (r : replica) : bool :=
  negb (close_asap r) && bool_decide (replstate r = SLAVE_STATE_ONLINE) && negb (start_on_ack r).

(** ** Synchronization *)

Fixpoint find_from (l : list replBufBlock) (n : Z) : list replBufBlock :=
  match l with [] => [] | b :: l' => if b_id b =? n then l else find_from l' n end.

(** The loop that searches the exact node. *)
Fixpoint search_node (offset : Z) (l : list replBufBlock) : option replBufBlock :=
  match l with
  | [] => None
  | o :: l' => if offset <=? repl_offset o + b_used o then Some o else search_node offset l'
  end.

(** The node from which the search starts. *)
Definition index_start (offset : Z) (bl : replBacklog) : option Z :=
  match blocks_index bl with
  | [] => ref_node bl
  | _ =>
      let '(before, after) := index_seek offset (blocks_index bl) in
      match after, last before with
      | _, Some (_, n) => Some n
      | [], None => None
      | _ :: _, None => ref_node bl
      end
  end.

Definition addReplyReplicationBacklog (c offset : Z) : R Z :=
  bl ← get_backlog;
  if histlen bl =? 0 then mret 0
  else
    let skip := offset - bl_offset bl in
    s ← get;
    match index_start offset bl with
    | None => fail
    | Some n =>
        _ ← get_block n;
        match search_node offset (find_from (repl_buffer_blocks s) n) with
        | None => fail
        | Some o =>
            incr_ref (b_id o);;
            set_replica c (set_ref (Some (b_id o)) (offset - repl_offset o));;
            mret (histlen bl - skip)
        end
    end.

Definition getPsyncInitialOffset : R Z := s ← get; mret (master_repl_offset s).

(** [sent] tells whether the reply could be written. *)
Definition replicationSetupSlaveForFullResync (c offset : Z) (sent : bool) : R bool :=
  set_replica c (λ r, set_replstate SLAVE_STATE_WAIT_BGSAVE_END (set_initial_offset offset r));;
  modify (with_slaveseldb (-1));;
  if sent then set_replica c (set_told offset);; mret true else set_replica c set_close_asap;; mret false.

(** A client that becomes a replica. *)
Definition new_replica (c : Z) (st : slave_state) (rdb : bool) : replica := Replica c st rdb false false None 0 0 None [].

(** The result is [C_OK]: the client is a replica now. *)
Definition masterTryPartialResynchronization (c : Z) (rdb : bool) (master_replid psync_offset : Z) (sent : bool) : R bool :=
  s ← get;
  if negb (master_replid =? replid s) && (negb (master_replid =? replid2 s) || (second_replid_offset s <? psync_offset))
  then mret false
  else
    match repl_backlog s with
    | None => mret false
    | Some bl =>
        if (psync_offset <? bl_offset bl) || (bl_offset bl + histlen bl <? psync_offset) then mret false
        else
          modify (λ s, with_slaves (slaves s ++ [new_replica c SLAVE_STATE_ONLINE rdb]) s);;
          (if negb sent then set_replica c set_close_asap
           else set_replica c (set_told (psync_offset - 1));; _ ← addReplyReplicationBacklog c psync_offset; mret tt);;
          mret true
    end.

Definition copyReplicaOutputBuffer (dst src : Z) : R unit :=
  r ← get_replica src;
  match ref_repl_buf_node r with
  | None => mret tt
  | Some n => set_replica dst (set_ref (Some n) (ref_block_pos r));; incr_ref n
  end.

Definition changeReplicationId (fresh : Z) : R unit := modify (λ s, with_ids fresh (replid2 s) (second_replid_offset s) s).

(** The string of zeros is 0. *)
Definition clearReplicationId2 : R unit := modify (λ s, with_ids (replid s) 0 (-1) s).

Definition shiftReplicationId (fresh : Z) : R unit :=
  modify (λ s, with_ids (replid s) (replid s) (master_repl_offset s + 1) s);;
  changeReplicationId fresh.

(** ** The end of a synchronization, and of a replica *)

Definition replicaPutOnline (c : Z) : R bool :=
  r ← get_replica c;
  if rdbonly r then set_replica c (set_replstate SLAVE_STATE_RDB_TRANSMITTED);; mret false
  else set_replica c (set_replstate SLAVE_STATE_ONLINE);; mret true.

Definition replicaStartCommandStream (c : Z) : R unit :=
  r ← get_replica c;
  if rdbonly r then fail else set_replica c (set_start_on_ack false).

(** What [freeClient] does for a replica. *)
Definition freeClient (c : Z) : R unit :=
  freeReplicaReferencedReplBuffer c;;
  modify (λ s, with_slaves (filter (λ r, r_id r <> c) (slaves s)) s).

Fixpoint disconnect_slaves (l : list replica) : R unit :=
  match l with [] => mret tt | r :: l' => freeClient (r_id r);; disconnect_slaves l' end.
Definition disconnectSlaves : R unit := s ← get; disconnect_slaves (slaves s).

(** ** Full synchronization *)

(** What the functions below find in the rest of the server: the child that saves an RDB
    file for replicas on disk or to their sockets, another child, the delay before a
    transfer without disk, whether saving can be started, the requirements of the
    replicas ([slave_req] and [slave_capa], as [accepts c src]), the connections to which a
    reply can be written, and a random replication ID. *)
Record renv := REnv {
  child_disk : bool;
  child_socket : bool;
  other_child : bool;
  delayed : bool;
  bgsave_ok : bool;
  req_matches : Z -> bool;
  accepts : Z -> Z -> bool;
  writable : Z -> bool;
  fresh_id : Z }.

Section sync.
Context (e : renv).

Fixpoint setup_slaves (l : list replica) : R unit :=
  match l with
  | [] => mret tt
  | r :: l' =>
      (if bool_decide (replstate r = SLAVE_STATE_WAIT_BGSAVE_START) && req_matches e (r_id r) then
         offset ← getPsyncInitialOffset;
         _ ← replicationSetupSlaveForFullResync (r_id r) offset (writable e (r_id r)); mret tt
       else mret tt);;
      setup_slaves l'
  end.

(** With either target: [rdbSaveToSlavesSockets] sets the replicas up in the same way. *)
Definition startBgsaveForReplication : R bool :=
  if bgsave_ok e then s ← get; setup_slaves (slaves s);; mret true
  else
    modify (λ s, with_slaves (filter (λ r, replstate r <> SLAVE_STATE_WAIT_BGSAVE_START) (slaves s)) s);;
    mret false.

(** The replica whose buffer can be shared. *)
Definition attachable (rdb : bool) (r : replica) : bool :=
  bool_decide (replstate r = SLAVE_STATE_WAIT_BGSAVE_END) && (negb (rdbonly r) || rdb).

(** [psync] is the ID and the offset of PSYNC, and [None] for SYNC.  The command has
    passed the checks of the role and of pending output. *)
Definition syncCommand (c : Z) (rdb : bool) (psync : option (Z * Z)) : R unit :=
  s ← get;
  if bool_decide (is_Some (find_replica (slaves s) c)) then mret tt
  else
    partial ← match psync with
              | Some (id, offset) => masterTryPartialResynchronization c rdb id offset (writable e c)
              | None => mret false
              end;
    if partial : bool then mret tt
    else
      modify (λ s, with_slaves (slaves s ++ [new_replica c SLAVE_STATE_WAIT_BGSAVE_START rdb]) s);;
      s ← get;
      (if bool_decide (length (slaves s) = 1%nat) && bool_decide (repl_backlog s = None) then
         changeReplicationId (fresh_id e);; clearReplicationId2;; createReplicationBacklog
       else mret tt);;
      if child_disk e then
        match find (attachable rdb) (slaves s) with
        | Some src =>
            if accepts e c (r_id src) then
              (if rdb then mret tt else copyReplicaOutputBuffer c (r_id src));;
              _ ← replicationSetupSlaveForFullResync c (psync_initial_offset src) (writable e c); mret tt
            else mret tt
        | None => mret tt
        end
      else if child_socket e then mret tt
      else if delayed e then mret tt
      else if other_child e then mret tt
      else _ ← startBgsaveForReplication; mret tt.

(** The loop of [updateSlavesWaitingBgsave], for a child that has saved to the sockets or to
    disk; [opens] tells for which replicas the file can be opened, and a client that is closed later is marked. *)
Fixpoint update_waiting (ok socket : bool) (opens : Z -> bool) (l : list replica) : R unit :=
  match l with
  | [] => mret tt
  | r :: l' =>
      (if bool_decide (replstate r = SLAVE_STATE_WAIT_BGSAVE_END) then
         if negb ok then set_replica (r_id r) set_close_asap
         else if socket then
           online ← replicaPutOnline (r_id r);
           if negb online then set_replica (r_id r) set_close_asap else set_replica (r_id r) (set_start_on_ack true)
         else if negb (opens (r_id r)) then set_replica (r_id r) set_close_asap
         else set_replica (r_id r) (set_replstate SLAVE_STATE_SEND_BULK)
       else mret tt);;
      update_waiting ok socket opens l'
  end.

Definition updateSlavesWaitingBgsave (ok socket : bool) (opens : Z -> bool) : R unit := s ← get; update_waiting ok socket opens (slaves s).

(** The end of [sendBulkToSlave], when the whole file has been sent. *)
Definition bulk_sent (c : Z) : R unit :=
  online ← replicaPutOnline c;
  if negb online then freeClient c else replicaStartCommandStream c.

(** The acknowledgement of a replica, in [replconfCommand]. *)
Definition replconf_ack (c : Z) : R unit :=
  r ← get_replica c;
  if start_on_ack r && bool_decide (replstate r = SLAVE_STATE_ONLINE) then replicaStartCommandStream c else mret tt.

(** REPLCONF RDB-ONLY, which does not look at the state of the replica. *)
Definition replconf_rdb_only (c : Z) (x : bool) : R unit := set_replica c (set_rdbonly x).

(** The backlog of a master that has had no replicas for long, in [replicationCron]. *)
Definition expire_backlog : R unit :=
  s ← get;
  if bool_decide (slaves s = []) && bool_decide (is_Some (repl_backlog s)) then
    changeReplicationId (fresh_id e);; clearReplicationId2;; freeReplicationBacklog
  else mret tt.
End sync.

(** ** The server as a replica *)

(** [replicationUnsetMaster] of a server that has a master. *)
Definition replicationUnsetMaster (fresh : Z) : R unit :=
  shiftReplicationId fresh;;
  disconnectSlaves;;
  modify (with_slaveseldb (-1)).

Definition replicationAttachToNewMaster : R unit := disconnectSlaves;; freeReplicationBacklog.

Definition create_if_needed : R unit :=
  s ← get; match repl_backlog s with None => createReplicationBacklog | Some _ => mret tt end.

(** A full synchronization with a master at [id] and [offset]: what it does before and
    after the data of the master is loaded. *)
Definition readSyncBulkPayload (id offset : Z) : R unit :=
  replicationAttachToNewMaster;;
  modify (λ s, with_offset offset (with_ids id (replid2 s) (second_replid_offset s) s));;
  clearReplicationId2;;
  create_if_needed.

(** The reply +CONTINUE to a replica that has asked for the replication ID [cached]. *)
Definition psync_continue (cached new : Z) : R unit :=
  (if negb (new =? cached) then
     modify (λ s, with_ids new cached (master_repl_offset s + 1) s);;
     disconnectSlaves
   else mret tt);;
  create_if_needed.
