(* ===== verification/ReplInv.v ===== *)
(** The invariant of the replication buffer: blocks in a row that hold the end of the
    stream, references that are counted, and replicas that have been sent what they were
    told to expect. *)

From stdpp Require Import list sorting.
From S2P Require Import Prelude State Repl.

Local Open Scope Z_scope.

(** ** Lists of blocks and replicas *)

Lemma filter_keep {A} (P : A -> Prop) `{!forall x, Decision (P x)} (l : list A) : (forall x, x ∈ l -> P x) -> filter P l = l.
Proof.
  induction l as [|x l IH]; intros HP; [done|]. rewrite filter_cons_True by (apply HP; by left). f_equal. apply IH.
  intros y Hy. apply HP. by right.
Qed.

Lemma find_block_Some l n b : find_block l n = Some b -> b ∈ l /\ b_id b = n.
Proof.
  induction l as [|x l IH]; [done|]. cbn [find_block]. destruct (Z.eqb_spec (b_id x) n) as [E|E].
  - intros [= <-]. split; [by left|done].
  - intros H. destruct (IH H) as [H1 H2]. split; [by right|done].
Qed.

Lemma find_block_elem l b : NoDup (b_id <$> l) -> b ∈ l -> find_block l (b_id b) = Some b.
Proof.
  induction l as [|x l IH]; intros Hnd Hb; [by apply not_elem_of_nil in Hb|]. cbn [find_block]. cbn in Hnd. apply NoDup_cons in Hnd as [Hx Hnd].
  apply elem_of_cons in Hb as [->|Hb]; [by rewrite Z.eqb_refl|]. rewrite (proj2 (Z.eqb_neq _ _)); [by apply IH|].
  intros E. apply Hx. rewrite E. by apply list_elem_of_fmap_2.
Qed.

Lemma update_block_ids n f l : (forall b, b_id (f b) = b_id b) -> b_id <$> update_block n f l = b_id <$> l.
Proof.
  intros H. induction l as [|b l IH]; [done|]. cbn in IH |- *. destruct (b_id b =? n); rewrite ?H; by f_equal.
Qed.
Lemma update_block_none n f l : (forall b, b ∈ l -> b_id b <> n) -> update_block n f l = l.
Proof.
  induction l as [|b l IH]; intros H; [done|]. cbn. rewrite (proj2 (Z.eqb_neq _ _)) by (apply H; by left).
  f_equal. apply IH. intros x Hx. apply H. by right.
Qed.
Lemma update_block_elem n f l b : b ∈ update_block n f l <-> exists x, x ∈ l /\ b = (if b_id x =? n then f x else x).
Proof. unfold update_block. rewrite list_elem_of_In, in_map_iff. split; intros (x & H1 & H2); exists x; rewrite list_elem_of_In in *; done. Qed.
Lemma update_block_app n f l1 l2 : update_block n f (l1 ++ l2) = update_block n f l1 ++ update_block n f l2.
Proof. apply map_app. Qed.

Lemma find_replica_Some l c r : find_replica l c = Some r -> r ∈ l /\ r_id r = c.
Proof.
  induction l as [|x l IH]; [done|]. cbn [find_replica]. destruct (Z.eqb_spec (r_id x) c) as [E|E].
  - intros [= <-]. split; [by left|done].
  - intros H. destruct (IH H) as [H1 H2]. split; [by right|done].
Qed.
Lemma find_replica_None l c : find_replica l c = None <-> forall r, r ∈ l -> r_id r <> c.
Proof.
  induction l as [|x l IH]; [split; [intros _ r Hr; by apply not_elem_of_nil in Hr|done]|]. cbn [find_replica].
  destruct (Z.eqb_spec (r_id x) c) as [E|E]; split.
  - done.
  - intros H. destruct (H x); [by left|done].
  - intros H r [->|Hr]%elem_of_cons; [done|by apply IH].
  - intros H. apply IH. intros r Hr. apply H. by right.
Qed.
Lemma find_replica_elem l r : NoDup (r_id <$> l) -> r ∈ l -> find_replica l (r_id r) = Some r.
Proof.
  induction l as [|x l IH]; intros Hnd Hb; [by apply not_elem_of_nil in Hb|]. cbn [find_replica]. cbn in Hnd. apply NoDup_cons in Hnd as [Hx Hnd].
  apply elem_of_cons in Hb as [->|Hb]; [by rewrite Z.eqb_refl|]. rewrite (proj2 (Z.eqb_neq _ _)); [by apply IH|].
  intros E. apply Hx. rewrite E. by apply list_elem_of_fmap_2.
Qed.
Lemma update_replica_ids c f l : (forall r, r_id (f r) = r_id r) -> r_id <$> update_replica c f l = r_id <$> l.
Proof.
  intros H. induction l as [|b l IH]; [done|]. cbn in IH |- *. destruct (r_id b =? c); rewrite ?H; by f_equal.
Qed.
Lemma update_replica_elem c f l r : r ∈ update_replica c f l <-> exists x, x ∈ l /\ r = (if r_id x =? c then f x else x).
Proof. unfold update_replica. rewrite list_elem_of_In, in_map_iff. split; intros (x & H1 & H2); exists x; rewrite list_elem_of_In in *; done. Qed.
Lemma update_replica_none c f l : (forall r, r ∈ l -> r_id r <> c) -> update_replica c f l = l.
Proof.
  induction l as [|b l IH]; intros H; [done|]. cbn. rewrite (proj2 (Z.eqb_neq _ _)) by (apply H; by left).
  f_equal. apply IH. intros x Hx. apply H. by right.
Qed.

(** ** Contents *)

Definition content (l : list replBufBlock) : bytes := concat (b_buf <$> l).

Lemma content_app l1 l2 : content (l1 ++ l2) = content l1 ++ content l2.
Proof. unfold content. by rewrite fmap_app, concat_app. Qed.

(** The blocks are in a row from the offset [o] on, and only the last one has room. *)
Fixpoint chained (o : Z) (l : list replBufBlock) : Prop :=
  match l with
  | [] => True
  | b :: l' => repl_offset b = o /\ b_used b <= b_size b /\ 0 < b_size b /\ (l' <> [] -> b_used b = b_size b) /\ chained (o + b_used b) l'
  end.

Lemma chained_app o l1 l2 : chained o (l1 ++ l2) -> chained o l1 /\ chained (o + Z.of_nat (length (content l1))) l2.
Proof.
  revert o. induction l1 as [|b l1 IH]; intros o; [cbn; rewrite Z.add_0_r; done|].
  cbn [chained app]. intros (H1 & H2 & H3 & H4 & H5). apply IH in H5 as [H5 H6]. split.
  - split_and!; try done. intros H. apply H4. by destruct l1.
  - unfold content in *. cbn. rewrite length_app. unfold b_used in H6. replace (o + Z.of_nat _) with (o + Z.of_nat (length (b_buf b)) + Z.of_nat (length (concat (b_buf <$> l1)))) by lia. done.
Qed.

Lemma chained_offset o l1 b l2 : chained o (l1 ++ b :: l2) -> repl_offset b = o + Z.of_nat (length (content l1)).
Proof. intros [_ H]%chained_app. by destruct H. Qed.

(** ** References *)

Definition ind (P : Prop) `{Decision P} : Z := if decide P then 1 else 0.

Fixpoint refs (l : list replica) (n : Z) : Z :=
  match l with [] => 0 | r :: l' => ind (ref_repl_buf_node r = Some n) + refs l' n end.

Lemma ind_bounds (P : Prop) `{Decision P} : 0 <= ind P <= 1.
Proof. unfold ind. destruct (decide P); lia. Qed.
Lemma refs_nonneg l n : 0 <= refs l n.
Proof. induction l as [|r l IH]; cbn; [lia|]. pose proof (ind_bounds (ref_repl_buf_node r = Some n)). lia. Qed.
Lemma refs_app l1 l2 n : refs (l1 ++ l2) n = refs l1 n + refs l2 n.
Proof. induction l1 as [|r l IH]; cbn; [done|]. lia. Qed.
Lemma refs_pos l r n : r ∈ l -> ref_repl_buf_node r = Some n -> 1 <= refs l n.
Proof.
  induction l as [|x l IH]; intros Hr E; [by apply not_elem_of_nil in Hr|]. cbn. pose proof (refs_nonneg l n).
  pose proof (ind_bounds (ref_repl_buf_node x = Some n)). apply elem_of_cons in Hr as [->|Hr]; [unfold ind in *; rewrite decide_True in * by done; lia|].
  specialize (IH Hr E). lia.
Qed.
Lemma refs_update l r f n : NoDup (r_id <$> l) -> r ∈ l ->
  refs (update_replica (r_id r) f l) n = refs l n - ind (ref_repl_buf_node r = Some n) + ind (ref_repl_buf_node (f r) = Some n).
Proof.
  induction l as [|x l IH]; intros Hnd Hr; [by apply not_elem_of_nil in Hr|]. cbn in Hnd |- *. apply NoDup_cons in Hnd as [Hx Hnd].
  apply elem_of_cons in Hr as [->|Hr].
  - rewrite Z.eqb_refl. fold (update_replica (r_id x) f l). rewrite update_replica_none; [cbn; lia|].
    intros y Hy E. apply Hx. rewrite <- E. by apply list_elem_of_fmap_2.
  - rewrite (proj2 (Z.eqb_neq _ _)). 2: { intros E. apply Hx. rewrite E. by apply list_elem_of_fmap_2. }
    fold (update_replica (r_id r) f l). rewrite IH by done. lia.
Qed.
Lemma refs_remove l r n : NoDup (r_id <$> l) -> r ∈ l ->
  refs (filter (λ x, r_id x <> r_id r) l) n = refs l n - ind (ref_repl_buf_node r = Some n).
Proof.
  induction l as [|x l IH]; intros Hnd Hr; [by apply not_elem_of_nil in Hr|]. cbn in Hnd. apply NoDup_cons in Hnd as [Hx Hnd].
  apply elem_of_cons in Hr as [->|Hr].
  - rewrite filter_cons_False by (intros H; by apply H). cbn. replace (filter _ l) with l; [lia|]. symmetry. apply filter_keep.
    intros y Hy E. apply Hx. rewrite <- E. by apply list_elem_of_fmap_2.
  - rewrite filter_cons_True. 2: { intros E. apply Hx. rewrite E. by apply list_elem_of_fmap_2. } cbn. rewrite IH by done. lia.
Qed.

(** What a replica is yet to be sent. *)
Definition pending (l : list replBufBlock) (r : replica) : bytes :=
  match ref_repl_buf_node r with
  | None => []
  | Some n => drop (Z.to_nat (ref_block_pos r)) (content (find_from l n))
  end.

(** The memory of the blocks. *)
Definition block_mem (b : replBufBlock) : Z := b_size b + sizeof_listNode + sizeof_replBufBlock.
Definition total_mem (l : list replBufBlock) : Z := foldr Z.add 0 (block_mem <$> l).

(** ** The invariant

    [h] is the stream since the offset [base]; replicas that have no position yet are
    at its prefix [h0].  [L] is the replicas, which are those of the state between operations. *)

Definition told_ok (h0 h : bytes) (base : Z) (l : list replBufBlock) (r : replica) (o : Z) : Prop :=
  base <= o <= base + Z.of_nat (length h0) /\
  r_sent r ++ pending l r = drop (Z.to_nat (o - base)) (match ref_repl_buf_node r with Some _ => h | None => h0 end).

Record replica_ok (h0 h : bytes) (base : Z) (l : list replBufBlock) (r : replica) : Prop := {
  rk_pos n : ref_repl_buf_node r = Some n -> exists b, b ∈ l /\ b_id b = n /\ 0 <= ref_block_pos r <= b_used b;
  rk_start : replstate r = SLAVE_STATE_WAIT_BGSAVE_START -> ref_repl_buf_node r = None /\ r_sent r = [] /\ r_told r = None;
  rk_end : replstate r = SLAVE_STATE_WAIT_BGSAVE_END \/ replstate r = SLAVE_STATE_SEND_BULK ->
    r_sent r = [] /\ (rdbonly r = false -> told_ok h0 h base l r (psync_initial_offset r)) /\
    (forall o, r_told r = Some o -> o = psync_initial_offset r) /\ (rdbonly r = true -> ref_repl_buf_node r = None);
  rk_told o : rdbonly r = false -> r_told r = Some o -> told_ok h0 h base l r o;
  rk_live : close_asap r = false -> replstate r <> SLAVE_STATE_WAIT_BGSAVE_START -> is_Some (r_told r);
  rk_state : replstate r <> REPL_STATE_NONE /\ (replstate r = SLAVE_STATE_RDB_TRANSMITTED -> rdbonly r = true) /\
    (start_on_ack r = true -> rdbonly r = false) /\ (replstate r = SLAVE_STATE_WAIT_BGSAVE_START -> start_on_ack r = false) }.

Record core_ok (L : list replica) (h0 h : bytes) (base : Z) (s : rstate) (bl : replBacklog) : Prop := {
  bo_backlog : repl_backlog s = Some bl;
  bo_hist : Z.of_nat (length h) = master_repl_offset s - base;
  bo_prefix : exists t, h = h0 ++ t;
  bo_ids : NoDup (b_id <$> repl_buffer_blocks s);
  bo_fresh b : b ∈ repl_buffer_blocks s -> b_id b < repl_block_id s;
  bo_chain : chained (master_repl_offset s + 1 - histlen bl) (repl_buffer_blocks s);
  bo_len : histlen bl = Z.of_nat (length (content (repl_buffer_blocks s)));
  bo_content : exists old, h = old ++ content (repl_buffer_blocks s);
  bo_counts b : b ∈ repl_buffer_blocks s -> refcount b = refs (L) (b_id b) + ind (ref_node bl = Some (b_id b));
  bo_index : StronglySorted Z.lt (blocks_index bl).*1;
  bo_indexed k n : (k, n) ∈ blocks_index bl -> exists b, b ∈ repl_buffer_blocks s /\ b_id b = n /\ repl_offset b = k;
  bo_mem : repl_buffer_mem s = total_mem (repl_buffer_blocks s);
  bo_slaves : NoDup (r_id <$> L);
  bo_replicas r : r ∈ L -> replica_ok h0 h base (repl_buffer_blocks s) r }.

(** The backlog refers to the first block. *)
Definition buffer_ok (L : list replica) (h0 h : bytes) (base : Z) (s : rstate) (bl : replBacklog) : Prop :=
  core_ok L h0 h base s bl /\ ref_node bl = b_id <$> head (repl_buffer_blocks s).

(** ** Rules *)

Lemma wp_modify s f (Q : unit -> rstate -> Prop) : Q tt (f s) -> wp (modify f) s Q.
Proof. intros. by apply wp_bind, wp_get, wp_put. Qed.
Lemma wp_get_backlog s bl (Q : replBacklog -> rstate -> Prop) : repl_backlog s = Some bl -> Q bl s -> wp get_backlog s Q.
Proof. intros E HQ. apply wp_bind, wp_get. rewrite E. by apply wp_ret. Qed.
Lemma wp_set_backlog s bl (Q : unit -> rstate -> Prop) : Q tt (with_backlog (Some bl) s) -> wp (set_backlog bl) s Q.
Proof. by apply wp_modify. Qed.
Lemma wp_get_block s n b (Q : replBufBlock -> rstate -> Prop) : find_block (repl_buffer_blocks s) n = Some b -> Q b s -> wp (get_block n) s Q.
Proof. intros E HQ. apply wp_bind, wp_get. rewrite E. by apply wp_ret. Qed.
Lemma wp_set_block s n b f (Q : unit -> rstate -> Prop) : find_block (repl_buffer_blocks s) n = Some b ->
  Q tt (with_blocks (update_block n f (repl_buffer_blocks s)) s) -> wp (set_block n f) s Q.
Proof. intros E HQ. eapply wp_bind, wp_get_block; [done|]. by apply wp_modify. Qed.
Lemma wp_get_replica s c r (Q : replica -> rstate -> Prop) : find_replica (slaves s) c = Some r -> Q r s -> wp (get_replica c) s Q.
Proof. intros E HQ. apply wp_bind, wp_get. rewrite E. by apply wp_ret. Qed.
Lemma wp_set_replica s c r f (Q : unit -> rstate -> Prop) : find_replica (slaves s) c = Some r ->
  Q tt (with_slaves (update_replica c f (slaves s)) s) -> wp (set_replica c f) s Q.
Proof. intros E HQ. eapply wp_bind, wp_get_replica; [done|]. by apply wp_modify. Qed.

(** * Trimming the backlog, and the end of replicas *)

(** What trimming leaves alone. *)
Record kept (s s' : rstate) : Prop := {
  kp_offset : master_repl_offset s' = master_repl_offset s;
  kp_ids : replid s' = replid s /\ replid2 s' = replid2 s /\ second_replid_offset s' = second_replid_offset s;
  kp_db : slaveseldb s' = slaveseldb s;
  kp_size : repl_backlog_size s' = repl_backlog_size s;
  kp_block_id : repl_block_id s' = repl_block_id s;
  kp_slaves : slaves s' = slaves s }.

#[export] Instance kept_preorder : PreOrder kept.
Proof. split; [by intros s|]. intros s1 s2 s3 [A1 (A2 & A3 & A4) A5 A6 A7 A8] [B1 (B2 & B3 & B4) B5 B6 B7 B8]. split; split_and?; congruence. Qed.

(** Names and bytes are all that replicas see of the blocks. *)
Definition face (b : replBufBlock) : Z * bytes := (b_id b, b_buf b).

Lemma face_content (l l' : list replBufBlock) : face <$> l = face <$> l' -> content l = content l'.
Proof.
  intros E. unfold content. f_equal. assert (H : forall k : list replBufBlock, b_buf <$> k = snd <$> (face <$> k)) by (intros k; by rewrite <- list_fmap_compose).
  by rewrite !H, E.
Qed.

Lemma face_find_from (l l' : list replBufBlock) n : face <$> l = face <$> l' -> face <$> find_from l n = face <$> find_from l' n.
Proof.
  revert l'. induction l as [|b l IH]; intros [|b' l'] E; try done. cbn [fmap list_fmap] in E. injection E as E1 E2 E3. cbn [find_from]. rewrite E1.
  destruct (b_id b' =? n); [|by apply IH]. cbn. unfold face at 1 3. rewrite E1, E2. by f_equal.
Qed.

Lemma face_pending (l l' : list replBufBlock) r : face <$> l = face <$> l' -> pending l r = pending l' r.
Proof.
  intros E. unfold pending. destruct (ref_repl_buf_node r) as [n|]; [|done]. f_equal. by apply face_content, face_find_from.
Qed.

Lemma face_elem (l l' : list replBufBlock) b : face <$> l = face <$> l' -> b ∈ l -> exists b', b' ∈ l' /\ face b' = face b.
Proof.
  intros E Hb. assert (H : face b ∈ face <$> l') by (rewrite <- E; by apply list_elem_of_fmap_2).
  apply list_elem_of_fmap in H as (b' & E' & Hb'). by exists b'.
Qed.

Lemma face_update n f (l : list replBufBlock) : (forall b, face (f b) = face b) -> face <$> update_block n f l = face <$> l.
Proof.
  intros H. induction l as [|b l IH]; [done|]. cbn. fold (update_block n f l). destruct (b_id b =? n); rewrite ?H; by f_equal.
Qed.

Lemma replica_ok_blocks h0 h base l l' r : replica_ok h0 h base l r ->
  (forall n, ref_repl_buf_node r = Some n -> (exists b, b ∈ l /\ b_id b = n /\ 0 <= ref_block_pos r <= b_used b) ->
     exists b, b ∈ l' /\ b_id b = n /\ 0 <= ref_block_pos r <= b_used b) ->
  pending l' r = pending l r -> replica_ok h0 h base l' r.
Proof.
  intros [K1 K2 K3 K4 K5 K6] Hpos E.
  assert (Ht : forall o, told_ok h0 h base l r o -> told_ok h0 h base l' r o) by (unfold told_ok; by rewrite E).
  split; try done.
  - intros n Hn. by apply Hpos, K1.
  - intros Hs. destruct (K3 Hs) as (H1 & H2 & H3). split; [done|]. split; [|done]. intros H. by apply Ht, H2.
  - intros o H1 H2. by apply Ht, K4.
Qed.

Lemma replica_ok_face h0 h base (l l' : list replBufBlock) r : face <$> l' = face <$> l -> replica_ok h0 h base l r -> replica_ok h0 h base l' r.
Proof.
  intros E H. eapply replica_ok_blocks; [done| |by apply face_pending].
  intros n _ (b & Hb & E1 & E2). symmetry in E. destruct (face_elem _ _ _ E Hb) as (b' & Hb' & Ef). exists b'. unfold face in Ef.
  injection Ef as Ei Eb. unfold b_used in *. split; [done|]. rewrite Eb. split; [congruence|done].
Qed.

Lemma chained_update o n f l : (forall b, face (f b) = face b /\ repl_offset (f b) = repl_offset b /\ b_size (f b) = b_size b) ->
  chained o l -> chained o (update_block n f l).
Proof.
  intros Hf. revert o. induction l as [|b l IH]; intros o; [done|]. cbn [chained update_block map]. fold (update_block n f l).
  intros (H1 & H2 & H3 & H4 & H5). set (b' := if b_id b =? n then f b else b).
  assert (E : face b' = face b /\ repl_offset b' = repl_offset b /\ b_size b' = b_size b) by (unfold b'; by destruct (b_id b =? n)).
  destruct E as (E1 & E2 & E3). injection E1 as _ E1. unfold b_used in *. rewrite E1, E2, E3. split_and!; try done.
  - intros H. apply H4. by destruct l.
  - by apply IH.
Qed.

Lemma total_mem_update n f l : (forall b, b_size (f b) = b_size b) -> total_mem (update_block n f l) = total_mem l.
Proof.
  intros Hf. unfold total_mem. f_equal. induction l as [|b l IH]; [done|]. cbn. fold (update_block n f l). rewrite <- IH. f_equal.
  unfold block_mem. destruct (b_id b =? n); by rewrite ?Hf.
Qed.

Lemma index_remove_sorted k l : StronglySorted Z.lt l.*1 -> StronglySorted Z.lt (index_remove k l).*1.
Proof.
  induction l as [|[x v] l IH]; intros H; [constructor|]. cbn in H. apply StronglySorted_inv in H as [H1 H2]. specialize (IH H1). unfold index_remove in *.
  destruct (decide (x = k)) as [->|Hne]; [rewrite filter_cons_False by (intros H; by apply H); exact IH|].
  rewrite filter_cons_True by done. rewrite fmap_cons. constructor; [exact IH|]. rewrite Forall_forall in H2 |- *. intros y Hy.
  apply H2. apply list_elem_of_fmap in Hy as (p & -> & Hp). apply list_elem_of_filter in Hp as [_ Hp]. by apply list_elem_of_fmap_2.
Qed.

(** Counting references up and down. *)
Lemma set_refcount_face b k : face (set_refcount k b) = face b.
Proof. done. Qed.

(** ** Trimming *)

Lemma trim_head L h0 h base s bl fo nx rest s' :
  buffer_ok L h0 h base s bl -> repl_buffer_blocks s = fo :: nx :: rest -> refcount fo = 1 -> kept s s' ->
  repl_buffer_blocks s' = set_refcount (refcount nx + 1) nx :: rest -> repl_buffer_mem s' = repl_buffer_mem s - block_mem fo ->
  repl_backlog s' = Some (Backlog (Some (b_id nx)) (unindexed_count bl) (index_remove (repl_offset fo) (blocks_index bl)) (histlen bl - b_size fo) (bl_offset bl)) ->
  buffer_ok L h0 h base s' (Backlog (Some (b_id nx)) (unindexed_count bl) (index_remove (repl_offset fo) (blocks_index bl)) (histlen bl - b_size fo) (bl_offset bl)).
Proof.
  intros [B BR] Hl Hc K Hl' Hm' Hb'. pose proof (bo_ids _ _ _ _ _ _ B) as Hnd. rewrite Hl in Hnd. cbn in Hnd. apply NoDup_cons in Hnd as [Hfo Hnd].
  assert (Hne : b_id fo <> b_id nx) by (intros E; apply Hfo; rewrite E; by left). pose proof (proj1 (NoDup_cons _ _) Hnd) as [Hnx Hnd'].
  pose proof (bo_chain _ _ _ _ _ _ B) as Hch. rewrite Hl in Hch. cbn [chained] in Hch. destruct Hch as (Ho & Hu & Hz & Hfull & Hch).
  specialize (Hfull ltac:(done)). pose proof (bo_len _ _ _ _ _ _ B) as Hlen. rewrite Hl in Hlen.
  pose proof BR as Href. rewrite Hl in Href. cbn in Href.
  assert (Hzero : refs L (b_id fo) = 0).
  { pose proof (bo_counts _ _ _ _ _ _ B fo) as C. rewrite Hl in C. specialize (C ltac:(by left)). unfold ind in C. rewrite decide_True in C by done. lia. }
  assert (Hold : forall b, b ∈ set_refcount (refcount nx + 1) nx :: rest -> exists b0, b0 ∈ nx :: rest /\ face b0 = face b /\ repl_offset b0 = repl_offset b).
  { intros b [->|Hb]%elem_of_cons; [exists nx; split; [by left|done]|exists b; split; [by right|done]]. }
  split; [|by rewrite Hl']. split; cbn [ref_node unindexed_count blocks_index histlen bl_offset]; rewrite ?Hl', ?(kp_offset _ _ K), ?(kp_block_id _ _ K), ?(kp_slaves _ _ K).
  - done.
  - apply B.
  - apply B.
  - exact Hnd.
  - intros b Hb. destruct (Hold b Hb) as (b0 & Hb0 & Ef & _). injection Ef as <- _. apply (bo_fresh _ _ _ _ _ _ B). rewrite Hl. by right.
  - replace (master_repl_offset s + 1 - (histlen bl - b_size fo)) with (master_repl_offset s + 1 - histlen bl + b_used fo) by lia.
    destruct Hch as (H1 & H2 & H3 & H4 & H5). by split_and!.
  - rewrite Hlen. unfold content, b_used in *. cbn. rewrite !length_app. lia.
  - destruct (bo_content _ _ _ _ _ _ B) as [old E]. exists (old ++ b_buf fo). rewrite E, Hl. unfold content. cbn. by rewrite <- !app_assoc.
  - intros b Hb. pose proof (bo_counts _ _ _ _ _ _ B) as C. rewrite Hl in C. rewrite Href in C. apply elem_of_cons in Hb as [->|Hb]; cbn [refcount set_refcount b_id].
    + rewrite (C nx) by (right; by left). unfold ind. rewrite decide_False, decide_True by congruence. lia.
    + rewrite (C b) by (right; by right). unfold ind. rewrite !decide_False; [done| |].
      * intros [= E]. apply Hnx. rewrite E. by apply list_elem_of_fmap_2.
      * intros [= E]. apply Hfo. rewrite E. right. by apply list_elem_of_fmap_2.
  - apply index_remove_sorted, B.
  - intros k n Hk. apply list_elem_of_filter in Hk as [Hk1 Hk2]. destruct (bo_indexed _ _ _ _ _ _ B k n Hk2) as (b & Hb & E1 & E2).
    rewrite Hl in Hb. cbn in Hk1. apply elem_of_cons in Hb as [->|Hb]; [done|]. apply elem_of_cons in Hb as [->|Hb].
    + eexists. split; [by left|done].
    + exists b. split; [by right|done].
  - rewrite Hm', (bo_mem _ _ _ _ _ _ B), Hl. unfold total_mem. cbn. unfold block_mem. cbn. lia.
  - apply B.
  - intros r Hr. eapply (replica_ok_face _ _ _ (nx :: rest)); [done|]. pose proof (bo_replicas _ _ _ _ _ _ B r Hr) as K1. rewrite Hl in K1.
    assert (Hnot : ref_repl_buf_node r <> Some (b_id fo)) by (intros E; pose proof (refs_pos _ _ _ Hr E); lia).
    eapply replica_ok_blocks; [exact K1| |].
    + intros n Hn (b & Hb & E1 & E2). apply elem_of_cons in Hb as [->|Hb]; [congruence|]. by exists b.
    + unfold pending. destruct (ref_repl_buf_node r) as [n|]; [|done]. cbn [find_from]. by rewrite (proj2 (Z.eqb_neq (b_id fo) n)) by congruence.
Qed.

Lemma wp_trim_blocks fuel : forall L h0 h base s bl (Q : unit -> rstate -> Prop), buffer_ok L h0 h base s bl ->
  (forall s' bl', buffer_ok L h0 h base s' bl' -> kept s s' -> Q tt s') -> wp (trim_blocks fuel) s Q.
Proof.
  induction fuel as [|fuel IH]; intros L h0 h base s bl Q B HQ; [by apply wp_ret; eapply HQ|].
  pose proof B as [C BR]. cbn [trim_blocks]. apply wp_bind, wp_get. eapply wp_bind, wp_get_backlog; [apply C|].
  destruct (_ <=? _); [by apply wp_ret; eapply HQ|]. destruct (repl_buffer_blocks s) as [|fo [|nx rest]] eqn:Hl; [by apply wp_ret; eapply HQ..|].
  pose proof BR as Href. cbn in Href. rewrite Href, bool_decide_eq_true_2 by done. cbn [negb].
  destruct (refcount fo =? 1) eqn:Hc; cbn [negb]; [|by apply wp_ret; eapply HQ]. apply Z.eqb_eq in Hc.
  destruct (_ <=? _); [by apply wp_ret; eapply HQ|].
  pose proof (bo_ids _ _ _ _ _ _ C) as Hnd. rewrite Hl in Hnd. cbn in Hnd. apply NoDup_cons in Hnd as [Hfo Hnd].
  assert (Hne : b_id fo <> b_id nx) by (intros E; apply Hfo; rewrite E; by left). pose proof (proj1 (NoDup_cons _ _) Hnd) as [Hnx Hnd'].
  assert (Hrest : forall n f, n = b_id fo -> update_block n f (nx :: rest) = nx :: rest).
  { intros n f ->. apply update_block_none. intros b Hb E. apply Hfo. rewrite <- E. by apply (list_elem_of_fmap_2 b_id (nx :: rest)). }
  assert (Hrest2 : forall f, update_block (b_id nx) f rest = rest).
  { intros f. apply update_block_none. intros b Hb E. apply Hnx. rewrite <- E. by apply list_elem_of_fmap_2. }
  apply wp_bind. eapply wp_set_block; [rewrite Hl; cbn; by rewrite Z.eqb_refl|].
  cbn [repl_buffer_blocks]. rewrite Hl. cbn [update_block map]. rewrite Z.eqb_refl. fold (update_block (b_id fo) (λ b, set_refcount (refcount b - 1) b) rest).
  pose proof (Hrest _ (λ b, set_refcount (refcount b - 1) b) eq_refl) as E. cbn [update_block map] in E. fold (update_block (b_id fo) (λ b, set_refcount (refcount b - 1) b) rest) in E. rewrite E.
  set (s1 := with_blocks _ s). apply wp_bind, wp_bind, wp_get, wp_ret. cbn [repl_buffer_blocks s1 with_blocks next_block b_id set_refcount]. rewrite Z.eqb_refl. cbn [head mbind option_bind].
  apply wp_bind, wp_set_backlog. apply wp_bind. eapply wp_set_block; [cbn; rewrite (proj2 (Z.eqb_neq _ _)) by done; by rewrite Z.eqb_refl|].
  cbn [repl_buffer_blocks with_backlog with_blocks s1 update_block map b_id set_refcount]. rewrite (proj2 (Z.eqb_neq (b_id fo) (b_id nx))) by done. rewrite Z.eqb_refl.
  fold (update_block (b_id nx) (λ b, set_refcount (refcount b + 1) b) rest). rewrite Hrest2.
  eapply wp_bind, wp_get_block; [cbn; by rewrite Z.eqb_refl|]. cbn [refcount set_refcount b_size]. rewrite Hc. cbn [Z.eqb Z.sub Z.add Z.opp Z.pos_sub negb orb].
  pose proof (bo_chain _ _ _ _ _ _ C) as Hch. rewrite Hl in Hch. destruct Hch as (_ & _ & _ & Hfull & _). specialize (Hfull ltac:(done)).
  unfold b_used at 1. cbn [b_buf set_refcount]. fold (b_used fo). rewrite Hfull, (Z.eqb_refl (b_size fo)). cbn [negb orb].
  apply wp_bind, wp_modify, wp_bind, wp_modify. cbn [tail repl_buffer_blocks with_mem with_blocks with_backlog]. set (s2 := with_blocks _ _).
  assert (K : kept s s2) by done. eapply IH; [eapply (trim_head L h0 h base s bl fo nx rest s2); try done|].
  intros s3 bl3 B3 K3. eapply HQ; [done|]. by transitivity s2.
Qed.

(** With the offset of the first byte. *)
Definition trimmed_ok (L : list replica) (h0 h : bytes) (base : Z) (s : rstate) (bl : replBacklog) : Prop :=
  buffer_ok L h0 h base s bl /\ bl_offset bl = master_repl_offset s + 1 - histlen bl.

Lemma buffer_ok_backlog L h0 h base s bl bl' s' : buffer_ok L h0 h base s bl -> repl_backlog s' = Some bl' -> kept s s' ->
  repl_buffer_blocks s' = repl_buffer_blocks s -> repl_buffer_mem s' = repl_buffer_mem s ->
  ref_node bl' = ref_node bl -> histlen bl' = histlen bl -> blocks_index bl' = blocks_index bl -> buffer_ok L h0 h base s' bl'.
Proof.
  intros [[] BR] E K E1 E2 E3 E4 E5. split; [split|by rewrite E1, E3]; rewrite ?E1, ?E2, ?E3, ?E4, ?E5, ?(kp_offset _ _ K), ?(kp_block_id _ _ K), ?(kp_slaves _ _ K); done.
Qed.

Lemma wp_trim L h0 h base s bl n (Q : unit -> rstate -> Prop) : buffer_ok L h0 h base s bl ->
  (forall s' bl', trimmed_ok L h0 h base s' bl' -> kept s s' -> Q tt s') -> wp (incrementalTrimReplicationBacklog n) s Q.
Proof.
  intros B HQ. eapply wp_bind, wp_get_backlog; [apply (bo_backlog _ _ _ _ _ _ (proj1 B))|]. apply wp_bind. eapply wp_trim_blocks; [done|]. intros s1 bl1 B1 K1.
  apply wp_bind, wp_get. eapply wp_bind, wp_get_backlog; [apply (bo_backlog _ _ _ _ _ _ (proj1 B1))|]. apply wp_set_backlog. eapply HQ.
  - split; [eapply buffer_ok_backlog; done|]. cbn. lia.
  - transitivity s1; [done|]. done.
Qed.

(** ** Counting references *)

Lemma core_ok_refs L L' h0 h0' h base s s' bl n d : core_ok L h0 h base s bl ->
  repl_buffer_blocks s' = update_block n (λ b, set_refcount (refcount b + d) b) (repl_buffer_blocks s) ->
  master_repl_offset s' = master_repl_offset s -> repl_block_id s' = repl_block_id s -> repl_buffer_mem s' = repl_buffer_mem s ->
  repl_backlog s' = repl_backlog s -> (exists t, h = h0' ++ t) ->
  (forall m, refs L' m = refs L m + (if decide (m = n) then d else 0)) -> NoDup (r_id <$> L') ->
  (forall r, r ∈ L' -> replica_ok h0' h base (repl_buffer_blocks s) r) -> core_ok L' h0' h base s' bl.
Proof.
  intros B Hl E1 E2 E3 E4 Hpre Hrefs Hnd Hrep. set (f := λ b, set_refcount (refcount b + d) b) in Hl.
  assert (Hface : face <$> repl_buffer_blocks s' = face <$> repl_buffer_blocks s) by (rewrite Hl; by apply face_update).
  assert (Hids : b_id <$> repl_buffer_blocks s' = b_id <$> repl_buffer_blocks s) by (rewrite Hl; by apply update_block_ids).
  split; rewrite ?E1, ?E2, ?E3, ?E4; try apply B; try done.
  - rewrite Hids. apply B.
  - intros b. rewrite Hl, update_block_elem. intros (x & Hx & ->). pose proof (bo_fresh _ _ _ _ _ _ B x Hx). by destruct (_ =? _).
  - rewrite Hl. apply chained_update; [done|]. apply B.
  - rewrite (bo_len _ _ _ _ _ _ B). by rewrite (face_content _ _ Hface).
  - rewrite (face_content _ _ Hface). apply B.
  - intros b. rewrite Hl, update_block_elem. intros (x & Hx & ->). rewrite Hrefs. pose proof (bo_counts _ _ _ _ _ _ B x Hx) as C.
    destruct (Z.eqb_spec (b_id x) n) as [E|E]; cbn [f refcount b_id set_refcount]; [rewrite decide_True by done|rewrite decide_False by done]; lia.
  - intros k m Hk. destruct (bo_indexed _ _ _ _ _ _ B k m Hk) as (b & Hb & H1 & H2). rewrite Hl.
    exists (if b_id b =? n then f b else b). split; [apply update_block_elem; by exists b|]. by destruct (_ =? _).
  - rewrite (bo_mem _ _ _ _ _ _ B), Hl. symmetry. by apply total_mem_update.
  - intros r Hr. eapply replica_ok_face; [exact Hface|]. by apply Hrep.
Qed.

Lemma buffer_ok_refs L L' h0 h0' h base s s' bl n d : buffer_ok L h0 h base s bl ->
  repl_buffer_blocks s' = update_block n (λ b, set_refcount (refcount b + d) b) (repl_buffer_blocks s) ->
  master_repl_offset s' = master_repl_offset s -> repl_block_id s' = repl_block_id s -> repl_buffer_mem s' = repl_buffer_mem s ->
  repl_backlog s' = repl_backlog s -> (exists t, h = h0' ++ t) ->
  (forall m, refs L' m = refs L m + (if decide (m = n) then d else 0)) -> NoDup (r_id <$> L') ->
  (forall r, r ∈ L' -> replica_ok h0' h base (repl_buffer_blocks s) r) -> buffer_ok L' h0' h base s' bl.
Proof.
  intros [B BR] Hl E1 E2 E3 E4 Hpre Hrefs Hnd Hrep. split; [by eapply core_ok_refs|]. rewrite BR, Hl.
  destruct (repl_buffer_blocks s) as [|b l]; [done|]. cbn. by destruct (_ =? _).
Qed.

(** ** The end of a replica *)

Lemma NoDup_ids_filter (P : replica -> Prop) `{!forall r, Decision (P r)} l : NoDup (r_id <$> l) -> NoDup (r_id <$> filter P l).
Proof.
  intros Hx. eapply sublist_NoDup; [exact Hx|]. apply fmap_sublist, sublist_filter.
Qed.

Lemma filter_update_replica c f l : (forall r, r_id (f r) = r_id r) ->
  filter (λ r, r_id r <> c) (update_replica c f l) = filter (λ r, r_id r <> c) l.
Proof.
  intros Hf. induction l as [|r l IH]; [done|]. cbn [update_replica map]. fold (update_replica c f l). destruct (Z.eqb_spec (r_id r) c) as [E|E].
  - rewrite !filter_cons_False by (rewrite ?Hf; tauto). exact IH.
  - rewrite !filter_cons_True by done. by f_equal.
Qed.

Record kept_but_slaves (s s' : rstate) : Prop := {
  ks_offset : master_repl_offset s' = master_repl_offset s;
  ks_ids : replid s' = replid s /\ replid2 s' = replid2 s /\ second_replid_offset s' = second_replid_offset s;
  ks_size : repl_backlog_size s' = repl_backlog_size s }.

#[export] Instance kept_but_slaves_preorder : PreOrder kept_but_slaves.
Proof. split; [by intros s|]. intros s1 s2 s3 [A1 (A2 & A3 & A4) A5] [B1 (B2 & B3 & B4) B5]. split; split_and?; congruence. Qed.

Lemma kept_weaken s s' : kept s s' -> kept_but_slaves s s'.
Proof. by intros []. Qed.

(** The invariant between operations. *)
Definition stream_ok (h : bytes) (base : Z) (s : rstate) (bl : replBacklog) : Prop := trimmed_ok (slaves s) h h base s bl.

Lemma wp_freeClient h base s bl r (Q : unit -> rstate -> Prop) : stream_ok h base s bl -> r ∈ slaves s ->
  (forall s' bl', stream_ok h base s' bl' -> kept_but_slaves s s' -> slaves s' = filter (λ x, r_id x <> r_id r) (slaves s) -> Q tt s') ->
  wp (freeClient (r_id r)) s Q.
Proof.
  intros [BB Ho] Hr HQ. pose proof BB as [B BR]. pose proof (find_replica_elem _ _ (bo_slaves _ _ _ _ _ _ B) Hr) as Hf.
  assert (Hrep : forall x, x ∈ filter (λ x, r_id x <> r_id r) (slaves s) -> replica_ok h h base (repl_buffer_blocks s) x).
  { intros x [_ Hx]%list_elem_of_filter. by apply (bo_replicas _ _ _ _ _ _ B). }
  assert (Hnd : NoDup (r_id <$> filter (λ x, r_id x <> r_id r) (slaves s))) by (apply NoDup_ids_filter, B).
  apply wp_bind. eapply wp_bind, wp_get_replica; [done|]. apply wp_bind.
  eapply wp_mono with (Q := λ _ s1, exists bl1, trimmed_ok (filter (λ x, r_id x <> r_id r) (slaves s)) h h base s1 bl1 /\ kept s s1).
  - destruct (ref_repl_buf_node r) as [n|] eqn:Hn.
    + destruct (rk_pos _ _ _ _ _ (bo_replicas _ _ _ _ _ _ B r Hr) n Hn) as (b & Hb & <- & _).
      pose proof (find_block_elem _ _ (bo_ids _ _ _ _ _ _ B) Hb) as Hfb. eapply wp_bind, wp_get_block; [done|].
      pose proof (bo_counts _ _ _ _ _ _ B b Hb) as C. pose proof (refs_pos _ _ _ Hr Hn). pose proof (ind_bounds (ref_node bl = Some (b_id b))).
      rewrite (proj2 (Z.ltb_lt 0 _)) by lia. cbn [negb]. apply wp_bind. eapply wp_set_block; [done|]. set (s1 := with_blocks _ s).
      eapply wp_trim; [eapply (buffer_ok_refs _ _ _ _ _ _ _ s1 bl (b_id b) (-1) BB); try done|].
      * by exists []; rewrite app_nil_r.
      * intros m. rewrite refs_remove; [|apply B|done]. unfold ind. rewrite Hn. destruct (decide (m = b_id b)) as [->|]; [rewrite decide_True by done; lia|].
        rewrite decide_False by congruence. lia.
      * intros s2 bl2 T K. exists bl2. split; [done|]. transitivity s1; [done|done].
    + apply wp_ret. exists bl. split; [|done]. split; [|done]. eapply (buffer_ok_refs _ _ _ _ _ _ _ s bl 0 0 BB); try done.
      * unfold update_block. rewrite <- (list_fmap_id (repl_buffer_blocks s)) at 1. apply list_fmap_ext. intros i b _. destruct (_ =? _); [|done].
        destruct b. cbn. by rewrite Z.add_0_r.
      * by exists []; rewrite app_nil_r.
      * intros m. rewrite refs_remove; [|apply B|done]. unfold ind. rewrite Hn. rewrite decide_False by done. destruct (decide _); lia.
  - intros [] s1 (bl1 & T1 & K1). eapply wp_set_replica; [by rewrite (kp_slaves _ _ K1)|]. apply wp_modify.
    assert (E : filter (λ r0, r_id r0 <> r_id r) (update_replica (r_id r) (set_ref None 0) (slaves s1)) = filter (λ x, r_id x <> r_id r) (slaves s)).
    { rewrite filter_update_replica by done. by rewrite (kp_slaves _ _ K1). }
    eapply (HQ _ bl1); [|by apply kept_weaken in K1 as []|exact E].
    unfold stream_ok. cbn [slaves with_slaves]. rewrite E. destruct T1 as [[[] R1] O1]. split; [split; [split; done|done]|done].
Qed.

Lemma wp_disconnect_slaves h base l : forall s bl (Q : unit -> rstate -> Prop), stream_ok h base s bl -> NoDup (r_id <$> l) -> slaves s = l ->
  (forall s' bl', stream_ok h base s' bl' -> kept_but_slaves s s' -> slaves s' = [] -> Q tt s') -> wp (disconnect_slaves l) s Q.
Proof.
  induction l as [|r l IH]; intros s bl Q Hs Hnd Hl HQ; [by apply wp_ret; eapply HQ|]. cbn in Hnd. apply NoDup_cons in Hnd as [Hr Hnd].
  apply wp_bind. eapply wp_freeClient; [done|rewrite Hl; by left|]. intros s1 bl1 H1 K1 E1. eapply IH; [done|done| |].
  - rewrite E1, Hl. rewrite filter_cons_False by (intros H; by apply H). apply filter_keep. intros x Hx E. apply Hr. rewrite <- E. by apply list_elem_of_fmap_2.
  - intros s2 bl2 H2 K2 E2. eapply HQ; [done| |done]. by transitivity s1.
Qed.

Lemma wp_disconnectSlaves h base s bl (Q : unit -> rstate -> Prop) : stream_ok h base s bl ->
  (forall s' bl', stream_ok h base s' bl' -> kept_but_slaves s s' -> slaves s' = [] -> Q tt s') -> wp disconnectSlaves s Q.
Proof. intros Hs HQ. apply wp_bind, wp_get. eapply wp_disconnect_slaves; [done| |done|done]. apply (bo_slaves _ _ _ _ _ _ (proj1 (proj1 Hs))). Qed.

(** The state without backlog. *)
Definition no_backlog (s : rstate) : Prop :=
  repl_backlog s = None /\ repl_buffer_blocks s = [] /\ slaves s = [] /\ repl_buffer_mem s = 0.

Lemma wp_freeBacklog h base s bl (Q : unit -> rstate -> Prop) : stream_ok h base s bl -> slaves s = [] ->
  (forall s', no_backlog s' -> kept_but_slaves s s' -> Q tt s') -> wp freeReplicationBacklog s Q.
Proof.
  intros [[B BR] _] Hl HQ. apply wp_bind, wp_get. rewrite Hl, (bo_backlog _ _ _ _ _ _ B). apply wp_bind.
  eapply wp_mono with (Q := λ _ s1, kept s s1).
  - rewrite BR. destruct (repl_buffer_blocks s) as [|b l] eqn:Eb; [by apply wp_ret|]. cbn [head fmap option_fmap option_map].
    assert (Hb : b ∈ repl_buffer_blocks s) by (rewrite Eb; by left). pose proof (find_block_elem _ _ (bo_ids _ _ _ _ _ _ B) Hb) as Hf.
    eapply wp_bind, wp_get_block; [done|]. pose proof (bo_counts _ _ _ _ _ _ B b Hb) as C. rewrite BR, Hl in C. cbn in C.
    unfold ind in C. rewrite decide_True in C by done. rewrite C. cbn [Z.eqb negb Z.add Pos.eqb]. by eapply wp_set_block.
  - intros [] s1 K. apply wp_bind, wp_modify, wp_modify. apply HQ; [|by apply kept_weaken in K as []].
    split; [done|]. split; [done|]. split; [|done]. cbn. by rewrite (kp_slaves _ _ K).
Qed.
