(* ===== verification/ReplFeed.v ===== *)
(** Feeding the stream: the bytes reach the end of the buffer and every replica. *)

From stdpp Require Import list sorting.
From S2P Require Import Prelude State Repl ReplInv.

Local Open Scope Z_scope.

(** ** The rest of the blocks *)

Lemma find_from_split l1 b l2 : NoDup (b_id <$> (l1 ++ b :: l2)) -> find_from (l1 ++ b :: l2) (b_id b) = b :: l2.
Proof.
  induction l1 as [|c l1 IH]; cbn [app fmap list_fmap]; intros Hnd; cbn [find_from]; [by rewrite Z.eqb_refl|].
  apply NoDup_cons in Hnd as [Hc Hnd]. rewrite (proj2 (Z.eqb_neq _ _)); [by apply IH|].
  intros E. apply Hc. rewrite E. apply (list_elem_of_fmap_2 b_id (l1 ++ b :: l2)). apply elem_of_app. right. by left.
Qed.

Lemma find_from_app l k n : (exists b, b ∈ l /\ b_id b = n) -> find_from (l ++ k) n = find_from l n ++ k.
Proof.
  induction l as [|c l IH]; intros (b & Hb & E); [by apply not_elem_of_nil in Hb|]. cbn [app find_from].
  destruct (Z.eqb_spec (b_id c) n); [done|]. apply IH. apply elem_of_cons in Hb as [->|Hb]; [done|]. by exists b.
Qed.

Lemma find_from_length l b : NoDup (b_id <$> l) -> b ∈ l -> b_used b <= Z.of_nat (length (content (find_from l (b_id b)))).
Proof.
  intros Hnd (l1 & l2 & ->)%list_elem_of_split. rewrite find_from_split by done. unfold content, b_used. cbn. rewrite length_app. lia.
Qed.

(** ** Replicas while the stream grows *)

Lemma grow_replica h0 h x base l l' r : (exists t, h = h0 ++ t) -> replica_ok h0 h base l r ->
  (forall n, ref_repl_buf_node r = Some n -> (exists b, b ∈ l /\ b_id b = n /\ 0 <= ref_block_pos r <= b_used b) ->
     pending l' r = pending l r ++ x /\ exists b, b ∈ l' /\ b_id b = n /\ 0 <= ref_block_pos r <= b_used b) ->
  replica_ok h0 (h ++ x) base l' r.
Proof.
  intros [t Ht] [K1 K2 K3 K4 K5 K6] Hg.
  assert (Hk : forall o, told_ok h0 h base l r o -> told_ok h0 (h ++ x) base l' r o).
  { intros o [H1 H2]. split; [done|]. destruct (ref_repl_buf_node r) as [n|] eqn:Hn.
    - destruct (Hg n eq_refl (K1 n eq_refl)) as [-> _]. rewrite app_assoc, H2. rewrite Ht, !drop_app_le; [done|rewrite ?length_app; lia..].
    - rewrite <- H2. unfold pending. by rewrite Hn. }
  split; try done.
  - intros n Hn. by destruct (Hg n Hn (K1 n Hn)).
  - intros Hs. destruct (K3 Hs) as (H1 & H2 & H3). split; [done|]. split; [|done]. intros H. by apply Hk, H2.
  - intros o H1 H2. by apply Hk, K4.
Qed.

(** A replica that follows the stream, or does not get it. *)
Lemma settle_replica h0 h base l r : (exists t, h = h0 ++ t) -> replica_ok h0 h base l r ->
  canFeedReplicaReplBuffer r && bool_decide (ref_repl_buf_node r = None) = false -> replica_ok h h base l r.
Proof.
  intros [t Ht] [K1 K2 K3 K4 K5 K6] Hc.
  assert (Hk : forall o, rdbonly r = false -> replstate r <> SLAVE_STATE_WAIT_BGSAVE_START -> told_ok h0 h base l r o -> told_ok h h base l r o).
  { intros o Hr Hst [H1 H2]. unfold canFeedReplicaReplBuffer in Hc. rewrite Hr, (bool_decide_eq_false_2 _ Hst) in Hc. cbn in Hc.
    apply bool_decide_eq_false in Hc. split; [rewrite Ht, length_app; lia|]. rewrite H2. by destruct (ref_repl_buf_node r). }
  split; try done.
  - intros Hs. destruct (K3 Hs) as (H1 & H2 & H3). split; [done|]. split; [|done]. intros H. apply Hk; [done| |by apply H2].
    intros E. destruct Hs; congruence.
  - intros o H1 H2. apply Hk; [done| |by apply K4]. intros E. destruct (K2 E) as (_ & _ & H3). congruence.
Qed.

(** Where the new bytes start. *)
Definition start_ok (h0 h : bytes) (l : list replBufBlock) (n pos : Z) : Prop :=
  (exists b, b ∈ l /\ b_id b = n /\ 0 <= pos <= b_used b) /\ h = h0 ++ drop (Z.to_nat pos) (content (find_from l n)).

Lemma attach_replica h0 h1 h base l r n pos : (length h0 <= length h1)%nat -> start_ok h0 h l n pos -> replica_ok h0 h base l r ->
  canFeedReplicaReplBuffer r && bool_decide (ref_repl_buf_node r = None) = true -> replica_ok h1 h base l (set_ref (Some n) pos r).
Proof.
  intros Hle [Hpos Ht] [K1 K2 K3 K4 K5 K6] Hc. apply andb_true_iff in Hc as [Hc Hn]. apply bool_decide_eq_true in Hn.
  unfold canFeedReplicaReplBuffer in Hc. apply andb_true_iff in Hc as [Hr Hst]. apply negb_true_iff in Hr.
  apply negb_true_iff, bool_decide_eq_false in Hst.
  assert (Hk : forall o, told_ok h0 h base l r o -> told_ok h1 h base l (set_ref (Some n) pos r) o).
  { intros o [H1 H2]. rewrite Hn in H2. unfold pending in H2. rewrite Hn, app_nil_r in H2. split; [lia|].
    cbn [ref_repl_buf_node set_ref r_sent pending ref_block_pos]. unfold pending. cbn [ref_repl_buf_node set_ref ref_block_pos]. rewrite H2.
    rewrite Ht, drop_app_le by lia. done. }
  split; cbn [ref_repl_buf_node set_ref replstate r_told rdbonly close_asap r_sent psync_initial_offset]; try done.
  - intros m [= <-]. exact Hpos.
  - intros Hs. destruct (K3 Hs) as (H1 & H2 & H3 & H4). split; [done|]. split; [|split; [done|congruence]]. intros H. by apply Hk, H2.
  - intros o H1 H2. by apply Hk, K4.
Qed.

(** ** Appending to the last block *)

Lemma chained_last o pre t t' : chained o (pre ++ [t]) -> repl_offset t' = repl_offset t -> b_size t' = b_size t -> b_used t' <= b_size t ->
  chained o (pre ++ [t']).
Proof.
  revert o. induction pre as [|b pre IH]; intros o; cbn [app chained].
  - intros (H1 & H2 & H3 & H4 & H5) E1 E2 E3. rewrite E1, E2. by split_and!.
  - intros (H1 & H2 & H3 & H4 & H5) E1 E2 E3. split_and!; try done.
    + intros _. apply H4. by destruct pre.
    + by apply IH.
Qed.

Lemma chained_snoc o l b : chained o l -> (forall t, last l = Some t -> b_used t = b_size t) ->
  repl_offset b = o + Z.of_nat (length (content l)) -> b_used b <= b_size b -> 0 < b_size b -> chained o (l ++ [b]).
Proof.
  revert o. induction l as [|c l IH]; intros o Hc Hl E1 E2 E3; cbn [app chained].
  - unfold content in E1. cbn in E1. split_and!; try done; lia.
  - destruct Hc as (H1 & H2 & H3 & H4 & H5). split_and!; try done.
    + intros _. destruct l as [|d l]; [by apply Hl|by apply H4].
    + apply IH; try done.
      * intros t Ht. apply Hl. by destruct l.
      * rewrite E1. unfold content, b_used. cbn. rewrite length_app. lia.
Qed.

Lemma core_append L h base s bl pre t x s' : core_ok L h h base s bl -> repl_buffer_blocks s = pre ++ [t] ->
  b_used t + Z.of_nat (length x) <= b_size t ->
  repl_buffer_blocks s' = pre ++ [set_buf (b_buf t ++ x) t] -> master_repl_offset s' = master_repl_offset s + Z.of_nat (length x) ->
  repl_block_id s' = repl_block_id s -> repl_buffer_mem s' = repl_buffer_mem s ->
  repl_backlog s' = Some (Backlog (ref_node bl) (unindexed_count bl) (blocks_index bl) (histlen bl + Z.of_nat (length x)) (bl_offset bl)) ->
  core_ok L h (h ++ x) base s' (Backlog (ref_node bl) (unindexed_count bl) (blocks_index bl) (histlen bl + Z.of_nat (length x)) (bl_offset bl)).
Proof.
  intros B Hl Hx Hl' E1 E2 E3 E4. set (t' := set_buf (b_buf t ++ x) t) in *.
  assert (Hids : b_id <$> repl_buffer_blocks s' = b_id <$> repl_buffer_blocks s) by (rewrite Hl', Hl, !fmap_app; done).
  assert (Hcon : content (repl_buffer_blocks s') = content (repl_buffer_blocks s) ++ x).
  { rewrite Hl', Hl, !content_app. unfold content. cbn. by rewrite !app_nil_r, app_assoc. }
  assert (Hold : forall b, b ∈ repl_buffer_blocks s' -> exists b0, b0 ∈ repl_buffer_blocks s /\ b_id b = b_id b0 /\ refcount b = refcount b0).
  { intros b. rewrite Hl', Hl. intros [Hb|Hb]%elem_of_app; [exists b; split; [apply elem_of_app; by left|done]|].
    apply list_elem_of_singleton in Hb as ->. exists t. split; [apply elem_of_app; right; by left|done]. }
  assert (Hnew : forall b, b ∈ repl_buffer_blocks s -> exists b0, b0 ∈ repl_buffer_blocks s' /\ b_id b0 = b_id b /\ repl_offset b0 = repl_offset b /\ b_used b <= b_used b0).
  { intros b. rewrite Hl', Hl. intros [Hb|Hb]%elem_of_app; [exists b; split; [apply elem_of_app; by left|done]|].
    apply list_elem_of_singleton in Hb as ->. exists t'. split; [apply elem_of_app; right; by left|]. split; [done|]. split; [done|].
    unfold b_used, t'. cbn. rewrite length_app. lia. }
  split; cbn [ref_node unindexed_count blocks_index histlen bl_offset].
  - done.
  - rewrite length_app, E1. pose proof (bo_hist _ _ _ _ _ _ B). lia.
  - by exists x.
  - rewrite Hids. apply B.
  - intros b Hb. destruct (Hold b Hb) as (b0 & Hb0 & -> & _). rewrite E2. by apply (bo_fresh _ _ _ _ _ _ B).
  - replace (_ + 1 - _) with (master_repl_offset s + 1 - histlen bl) by lia. rewrite Hl'. pose proof (bo_chain _ _ _ _ _ _ B) as Hc. rewrite Hl in Hc.
    eapply chained_last; [exact Hc|done|done|]. unfold b_used, t' in *. cbn. rewrite length_app. lia.
  - rewrite Hcon, length_app, (bo_len _ _ _ _ _ _ B). lia.
  - destruct (bo_content _ _ _ _ _ _ B) as [old ->]. exists old. by rewrite Hcon, app_assoc.
  - intros b Hb. destruct (Hold b Hb) as (b0 & Hb0 & -> & ->). by apply (bo_counts _ _ _ _ _ _ B).
  - apply B.
  - intros k n Hk. destruct (bo_indexed _ _ _ _ _ _ B k n Hk) as (b & Hb & <- & <-). destruct (Hnew b Hb) as (b0 & Hb0 & H1 & H2 & _). by exists b0.
  - rewrite E3, (bo_mem _ _ _ _ _ _ B), Hl', Hl. unfold total_mem. rewrite !fmap_app. done.
  - apply B.
  - intros r Hr. eapply grow_replica; [by exists []; rewrite app_nil_r|by apply (bo_replicas _ _ _ _ _ _ B)|]. intros n Hn (b & Hb & Hid & Hpos).
    split; [|destruct (Hnew b Hb) as (b0 & Hb0 & H1 & H2 & H3); exists b0; split; [done|]; split; [congruence|lia]].
    pose proof (bo_ids _ _ _ _ _ _ B) as Hnd. pose proof (find_from_length _ b Hnd Hb) as Hlen. unfold pending. rewrite Hn, <- Hid.
    rewrite <- drop_app_le by lia. f_equal. rewrite Hl', Hl in *. clear -Hb Hnd. apply elem_of_app in Hb as [Hp|Hb].
    + rewrite !find_from_app by by exists b. rewrite !content_app. unfold content. cbn. by rewrite !app_nil_r, app_assoc.
    + apply list_elem_of_singleton in Hb as ->.
      rewrite (find_from_split pre t []) by done. change (b_id t) with (b_id t'). rewrite (find_from_split pre t' []).
      * unfold content. cbn. by rewrite !app_nil_r.
      * rewrite fmap_app in *. exact Hnd.
Qed.

(** ** A new block *)

Lemma core_new L h0 h base s bl x size s' : core_ok L h0 h base s bl ->
  (forall t, last (repl_buffer_blocks s) = Some t -> b_used t = b_size t) -> ref_node bl <> Some (repl_block_id s) ->
  Z.of_nat (length x) <= size -> 0 < size ->
  repl_buffer_blocks s' = repl_buffer_blocks s ++ [Block 0 (repl_block_id s) (master_repl_offset s + 1) size x] ->
  master_repl_offset s' = master_repl_offset s + Z.of_nat (length x) -> repl_block_id s' = repl_block_id s + 1 ->
  repl_buffer_mem s' = repl_buffer_mem s + (size + sizeof_listNode + sizeof_replBufBlock) ->
  repl_backlog s' = Some (Backlog (ref_node bl) (unindexed_count bl) (blocks_index bl) (histlen bl + Z.of_nat (length x)) (bl_offset bl)) ->
  core_ok L h0 (h ++ x) base s' (Backlog (ref_node bl) (unindexed_count bl) (blocks_index bl) (histlen bl + Z.of_nat (length x)) (bl_offset bl)).
Proof.
  intros B Hfull Href Hx Hsz Hl' E1 E2 E3 E4. set (n := repl_block_id s) in *. set (b' := Block 0 n _ size x) in *.
  assert (Hfresh : forall b, b ∈ repl_buffer_blocks s -> b_id b <> n).
  { intros b Hb E. pose proof (bo_fresh _ _ _ _ _ _ B b Hb). subst n. lia. }
  assert (Hrefs : refs L n = 0).
  { pose proof (refs_nonneg L n) as H0. destruct (decide (refs L n = 0)) as [|Hne]; [done|]. exfalso.
    assert (exists r, r ∈ L /\ ref_repl_buf_node r = Some n) as (r & Hr & E).
    { clear -H0 Hne. induction L as [|r l IH]; [done|]. cbn in Hne, H0. unfold ind in *. destruct (decide _) as [E|E]; [exists r; split; [by left|done]|].
      destruct IH as (r' & Hr' & E'); [lia|lia|]. exists r'. split; [by right|done]. }
    destruct (rk_pos _ _ _ _ _ (bo_replicas _ _ _ _ _ _ B r Hr) n E) as (b & Hb & Hid & _). by apply (Hfresh b). }
  assert (Hcon : content (repl_buffer_blocks s') = content (repl_buffer_blocks s) ++ x).
  { rewrite Hl', !content_app. unfold content. cbn. by rewrite !app_nil_r. }
  assert (Hin : forall b, b ∈ repl_buffer_blocks s' <-> b ∈ repl_buffer_blocks s \/ b = b').
  { intros b. by rewrite Hl', elem_of_app, list_elem_of_singleton. }
  split; cbn [ref_node unindexed_count blocks_index histlen bl_offset].
  - done.
  - rewrite length_app, E1. pose proof (bo_hist _ _ _ _ _ _ B). lia.
  - destruct (bo_prefix _ _ _ _ _ _ B) as [t ->]. exists (t ++ x). by rewrite app_assoc.
  - rewrite Hl', fmap_app. apply NoDup_app. split; [apply B|]. split; [|apply NoDup_singleton].
    intros i Hi Hi2. apply list_elem_of_singleton in Hi2 as ->. apply list_elem_of_fmap in Hi as (b & E & Hb). by apply (Hfresh b).
  - intros b [Hb| ->]%Hin; rewrite E2; [pose proof (bo_fresh _ _ _ _ _ _ B b Hb); subst n; lia|cbn; lia].
  - replace (_ + 1 - _) with (master_repl_offset s + 1 - histlen bl) by lia. rewrite Hl'. pose proof (bo_len _ _ _ _ _ _ B).
    apply chained_snoc; [apply B|done|cbn; lia|by unfold b_used|done].
  - rewrite Hcon, length_app, (bo_len _ _ _ _ _ _ B). lia.
  - destruct (bo_content _ _ _ _ _ _ B) as [old ->]. exists old. by rewrite Hcon, app_assoc.
  - intros b [Hb| ->]%Hin; [by apply (bo_counts _ _ _ _ _ _ B)|]. cbn [refcount b' b_id]. rewrite Hrefs. unfold ind. by rewrite decide_False.
  - apply B.
  - intros k m Hk. destruct (bo_indexed _ _ _ _ _ _ B k m Hk) as (b & Hb & H). exists b. split; [apply Hin; by left|done].
  - rewrite E3, (bo_mem _ _ _ _ _ _ B), Hl'. unfold total_mem. rewrite fmap_app. cbn [fmap list_fmap].
    generalize (block_mem <$> repl_buffer_blocks s). intros l. clear. induction l as [|y l IH]; cbn; [unfold block_mem, b'; cbn; lia|]. cbn in IH. lia.
  - apply B.
  - intros r Hr. eapply grow_replica; [apply B|by apply (bo_replicas _ _ _ _ _ _ B)|]. intros m Hm (b & Hb & Hid & Hpos).
    split; [|exists b; split; [apply Hin; by left|done]].
    pose proof (find_from_length _ b (bo_ids _ _ _ _ _ _ B) Hb) as Hlen. unfold pending. rewrite Hm, <- Hid. rewrite Hl', find_from_app by by exists b.
    rewrite content_app. rewrite drop_app_le by lia. f_equal. unfold content. cbn. by rewrite app_nil_r.
Qed.

(** ** The steps of [feedReplicationBuffer] *)

(** What feeding leaves alone. *)
Record fed (s s' : rstate) (k : Z) : Prop := {
  fd_offset : master_repl_offset s' = master_repl_offset s + k;
  fd_ids : replid s' = replid s /\ replid2 s' = replid2 s /\ second_replid_offset s' = second_replid_offset s;
  fd_db : slaveseldb s' = slaveseldb s;
  fd_size : repl_backlog_size s' = repl_backlog_size s }.

Lemma fed_trans s1 s2 s3 k1 k2 : fed s1 s2 k1 -> fed s2 s3 k2 -> fed s1 s3 (k1 + k2).
Proof. intros [A1 (A2 & A3 & A4) A5 A6] [B1 (B2 & B3 & B4) B5 B6]. split; split_and?; try congruence. lia. Qed.
Lemma fed_kept s1 s2 s3 k : fed s1 s2 k -> kept s2 s3 -> fed s1 s3 k.
Proof. intros [A1 (A2 & A3 & A4) A5 A6] [B1 (B2 & B3 & B4) B5 B6 B7 B8]. split; split_and?; congruence. Qed.

Lemma update_block_last pre t f : NoDup (b_id <$> (pre ++ [t])) -> update_block (b_id t) f (pre ++ [t]) = pre ++ [f t].
Proof.
  intros Hnd. rewrite update_block_app. f_equal; [|cbn; by rewrite Z.eqb_refl]. apply update_block_none. intros b Hb E.
  rewrite fmap_app in Hnd. apply NoDup_app in Hnd as (_ & H & _). apply (H (b_id b)); [by apply list_elem_of_fmap_2|]. rewrite E. by left.
Qed.

Lemma wp_append_block h base s bl pre t bs (Q : bytes -> rstate -> Prop) : core_ok (slaves s) h h base s bl -> repl_buffer_blocks s = pre ++ [t] ->
  b_used t < b_size t -> bs <> [] ->
  (forall x rest s' bl', bs = x ++ rest -> x <> [] -> core_ok (slaves s') h (h ++ x) base s' bl' -> fed s s' (Z.of_nat (length x)) ->
     slaves s' = slaves s -> ref_node bl' = ref_node bl ->
     repl_buffer_blocks s' = pre ++ [set_buf (b_buf t ++ x) t] -> (rest <> [] -> b_used t + Z.of_nat (length x) = b_size t) -> Q rest s') ->
  wp (append_block (b_id t) bs) s Q.
Proof.
  intros B Hl Hroom Hne HQ. assert (Ht : t ∈ repl_buffer_blocks s) by (rewrite Hl; apply elem_of_app; right; by left).
  pose proof (bo_ids _ _ _ _ _ _ B) as Hnd. pose proof (find_block_elem _ _ Hnd Ht) as Hf.
  eapply wp_bind, wp_get_block; [done|]. cbv zeta. set (copy := if _ <=? _ then _ else _). set (k := Z.to_nat copy).
  assert (Hlen : 0 < Z.of_nat (length bs)) by (destruct bs; [done|cbn; lia]).
  assert (Hk : (0 < k <= length bs)%nat /\ copy = Z.of_nat k /\ copy <= b_size t - b_used t /\ ((k < length bs)%nat -> copy = b_size t - b_used t)).
  { subst k copy. destruct (Z.leb_spec (Z.of_nat (length bs)) (b_size t - b_used t)); lia. }
  destruct Hk as (Hk & Hcopy & Hmax & Hrest). assert (Hx : length (take k bs) = k) by (rewrite length_take; lia).
  apply wp_bind. eapply wp_set_block; [done|]. rewrite Hl, update_block_last by by rewrite <- Hl. eapply wp_bind, wp_get_backlog; [apply B|].
  apply wp_bind, wp_modify, wp_bind, wp_set_backlog, wp_ret. set (s' := with_backlog _ _).
  eapply (HQ (take k bs) (drop k bs)); [by rewrite take_drop| |apply (core_append (slaves s) h base s bl pre t (take k bs) s'); try done| | |done|done|].
  - intros E. rewrite E in Hx. cbn in Hx. lia.
  - rewrite Hx. lia.
  - cbn. rewrite Hx. lia.
  - cbn. by rewrite Hx, Hcopy.
  - split; [cbn; rewrite Hx; lia|done..].
  - done.
  - intros H. rewrite Hx, <- Hcopy. assert (k < length bs)%nat; [|lia]. destruct (decide (k < length bs)%nat); [done|]. destruct H. apply drop_ge. lia.
Qed.

Section feed.
Context (usable : Z -> Z) (Husable : forall n, n <= usable n).

Lemma wp_new_block h0 h base s bl bs (Q : Z * bytes -> rstate -> Prop) : core_ok (slaves s) h0 h base s bl ->
  (forall t, last (repl_buffer_blocks s) = Some t -> b_used t = b_size t) -> ref_node bl <> Some (repl_block_id s) -> bs <> [] ->
  (forall x rest b s' bl', bs = x ++ rest -> x <> [] -> core_ok (slaves s') h0 (h ++ x) base s' bl' -> fed s s' (Z.of_nat (length x)) ->
     slaves s' = slaves s -> ref_node bl' = ref_node bl -> b_buf b = x ->
     repl_buffer_blocks s' = repl_buffer_blocks s ++ [b] -> Q (b_id b, rest) s') ->
  wp (new_block usable bs) s Q.
Proof.
  intros B Hfull Href Hne HQ. apply wp_bind, wp_get. cbv zeta. set (usz := usable _). set (size := usz - _).
  assert (Hsize : 0 < size).
  { subst size usz. unfold PROTO_REPLY_CHUNK_BYTES. match goal with |- context [usable ?n] => pose proof (Husable n) end. lia. }
  set (copy := if _ <=? _ then _ else _). set (k := Z.to_nat copy).
  assert (Hlen : 0 < Z.of_nat (length bs)) by (destruct bs; [done|cbn; lia]).
  assert (Hk : (0 < k <= length bs)%nat /\ copy = Z.of_nat k /\ copy <= size).
  { subst k copy. destruct (Z.leb_spec (Z.of_nat (length bs)) size); lia. }
  destruct Hk as (Hk & Hcopy & Hmax). assert (Hx : length (take k bs) = k) by (rewrite length_take; lia).
  apply wp_bind, wp_modify, wp_bind, wp_modify, wp_bind, wp_modify. eapply wp_bind, wp_get_backlog; [apply B|].
  apply wp_bind, wp_modify, wp_bind, wp_set_backlog, wp_ret. set (s' := with_backlog _ _).
  eapply (HQ (take k bs) (drop k bs) (Block 0 (repl_block_id s) (master_repl_offset s + 1) size (take k bs)) s');
    [by rewrite take_drop| |apply (core_new (slaves s) h0 h base s bl (take k bs) size s'); try done| |done|done|done|done].
  - intros E. rewrite E in Hx. cbn in Hx. lia.
  - rewrite Hx. lia.
  - cbn. rewrite Hx. lia.
  - cbn. subst size. lia.
  - cbn. by rewrite Hx, Hcopy.
  - split; [cbn; rewrite Hx; lia|done..].
Qed.
End feed.

(** Replicas without position get the start of the new bytes. *)
Lemma wp_feed_slaves h0 h base bl n pos l : forall s (Q : unit -> rstate -> Prop), core_ok (slaves s) h0 h base s bl ->
  NoDup (r_id <$> l) -> (forall r, r ∈ l -> r ∈ slaves s) ->
  (forall r, r ∈ slaves s -> r_id r ∉ r_id <$> l -> replica_ok h h base (repl_buffer_blocks s) r) ->
  start_ok h0 h (repl_buffer_blocks s) n pos ->
  (forall s', core_ok (slaves s') h h base s' bl -> fed s s' 0 -> face <$> repl_buffer_blocks s' = face <$> repl_buffer_blocks s ->
     Q tt s') ->
  wp (feed_slaves n pos l) s Q.
Proof.
  induction l as [|r l IH]; intros s Q B Hnd Hin Hdone Hst HQ.
  { apply wp_ret, HQ; [|split; [lia|done..]|done]. destruct B. split; try done; [by exists []; rewrite app_nil_r|]. intros r Hr. apply Hdone; [done|]. apply not_elem_of_nil. }
  cbn in Hnd. apply NoDup_cons in Hnd as [Hr Hnd]. assert (Hrs : r ∈ slaves s) by (apply Hin; by left).
  pose proof (bo_replicas _ _ _ _ _ _ B r Hrs) as K. cbn [feed_slaves]. apply wp_bind.
  destruct (canFeedReplicaReplBuffer r && bool_decide (ref_repl_buf_node r = None)) eqn:Hc.
  - pose proof (find_replica_elem _ _ (bo_slaves _ _ _ _ _ _ B) Hrs) as Hf. destruct Hst as [(b & Hb & <- & Hpos) Ht].
    assert (Hst : start_ok h0 h (repl_buffer_blocks s) (b_id b) pos) by (split; [by exists b|done]).
    pose proof (find_block_elem _ _ (bo_ids _ _ _ _ _ _ B) Hb) as Hfb. assert (Hnone : ref_repl_buf_node r = None).
    { apply andb_true_iff in Hc as [_ Hc]. by apply bool_decide_eq_true in Hc. }
    apply wp_bind. eapply wp_set_replica; [done|]. eapply wp_set_block; [exact Hfb|]. cbn [repl_buffer_blocks with_slaves].
    set (L' := update_replica (r_id r) (set_ref (Some (b_id b)) pos) (slaves s)). set (s' := with_blocks _ _).
    assert (Hface : face <$> repl_buffer_blocks s' = face <$> repl_buffer_blocks s) by by apply face_update.
    assert (Hids : r_id <$> L' = r_id <$> slaves s) by by apply update_replica_ids.
    assert (Hother : forall x, x ∈ L' -> x = set_ref (Some (b_id b)) pos r \/ x ∈ slaves s /\ r_id x <> r_id r).
    { intros x (y & Hy & ->)%update_replica_elem. destruct (Z.eqb_spec (r_id y) (r_id r)) as [E|E]; [left|by right].
      apply (f_equal (set_ref (Some (b_id b)) pos)). pose proof (find_replica_elem _ _ (bo_slaves _ _ _ _ _ _ B) Hy) as Hfy.
      rewrite E, Hf in Hfy. by injection Hfy. }
    assert (B' : core_ok L' h0 h base s' bl).
    { eapply (core_ok_refs _ _ _ _ _ _ _ s' bl (b_id b) 1 B); try done.
      - apply B.
      - intros m. subst L'. rewrite refs_update; [|apply B|done]. rewrite Hnone. unfold ind. rewrite decide_False by done. cbn.
        destruct (decide (m = b_id b)) as [->|]; [rewrite decide_True by done|rewrite decide_False by congruence]; lia.
      - rewrite Hids. apply B.
      - intros x [->|[Hx _]]%Hother; [|by apply (bo_replicas _ _ _ _ _ _ B)]. by eapply attach_replica. }
    eapply IH; [exact B'|done| | | |].
    + intros x Hx. apply update_replica_elem. exists x. split; [apply Hin; by right|]. rewrite (proj2 (Z.eqb_neq _ _)); [done|].
      intros E. apply Hr. rewrite <- E. by apply list_elem_of_fmap_2.
    + intros x Hx Hnx. eapply replica_ok_face; [exact Hface|]. apply Hother in Hx as [->|[Hx Hne]].
      { eapply attach_replica; [|done|done|done]. destruct (bo_prefix _ _ _ _ _ _ B) as [t ->]. rewrite length_app. lia. }
      apply Hdone; [done|]. cbn. rewrite elem_of_cons. tauto.
    + destruct Hst as [(b2 & Hb2 & E2 & Hp2) Ht2]. split.
      * symmetry in Hface. destruct (face_elem _ _ _ Hface Hb2) as (b3 & Hb3 & E3). injection E3 as E3 E4. exists b3. split; [done|].
        unfold b_used in *. rewrite E4. split; [congruence|done].
      * by rewrite (face_content _ _ (face_find_from _ _ _ Hface)).
    + intros s2 B2 F2 E2. apply HQ; [done| |by rewrite E2]. change 0 with (0 + 0). eapply fed_trans; [|exact F2]. split; [cbn; lia|done..].
  - apply wp_ret. eapply IH; [done|done|intros x Hx; apply Hin; by right| |done|done].
    intros x Hx Hnx. destruct (decide (r_id x = r_id r)) as [E|E].
    + assert (x = r) as ->; [|eapply settle_replica; [apply B|done|done]].
      pose proof (find_replica_elem _ _ (bo_slaves _ _ _ _ _ _ B) Hx) as H1. pose proof (find_replica_elem _ _ (bo_slaves _ _ _ _ _ _ B) Hrs) as H2.
      rewrite E, H2 in H1. by injection H1.
    + apply Hdone; [done|]. cbn. rewrite elem_of_cons. tauto.
Qed.

(** The index. *)
Lemma index_insert_elem k v l p : p ∈ index_insert k v l -> p = (k, v) \/ p ∈ l.
Proof.
  induction l as [|[k' v'] l IH]; cbn [index_insert]; [intros ->%list_elem_of_singleton; by left|].
  destruct (k <? k'); [intros [->|H]%elem_of_cons; [by left|by right]|].
  destruct (k =? k'); [intros [->|H]%elem_of_cons; [by left|right; by right]|].
  intros [->|H]%elem_of_cons; [right; by left|]. destruct (IH H); [by left|right; by right].
Qed.

Lemma index_insert_sorted k v l : StronglySorted Z.lt l.*1 -> StronglySorted Z.lt (index_insert k v l).*1.
Proof.
  induction l as [|[k' v'] l IH]; intros H; [by repeat constructor|]. cbn in H. apply StronglySorted_inv in H as [H1 H2]. cbn [index_insert].
  destruct (Z.ltb_spec k k').
  - cbn. constructor; [by constructor|]. constructor; [done|]. eapply Forall_impl; [exact H2|]. intros x Hx. cbn in Hx. lia.
  - destruct (Z.eqb_spec k k') as [->|]; [by constructor|]. rewrite fmap_cons. constructor; [by apply IH|].
    rewrite Forall_forall in H2 |- *. intros x (p & -> & Hp)%list_elem_of_fmap. cbn. apply index_insert_elem in Hp as [->|Hp]; [cbn; lia|].
    apply H2. by apply list_elem_of_fmap_2.
Qed.

Lemma wp_index L h0 h base s bl n b (Q : unit -> rstate -> Prop) : buffer_ok L h0 h base s bl -> b ∈ repl_buffer_blocks s -> b_id b = n ->
  (forall s' bl', buffer_ok L h0 h base s' bl' -> kept s s' -> Q tt s') -> wp (createReplicationBacklogIndex n) s Q.
Proof.
  intros [B BR] Hb <- HQ. eapply wp_bind, wp_get_backlog; [apply B|]. cbv zeta. pose proof (find_block_elem _ _ (bo_ids _ _ _ _ _ _ B) Hb) as Hf.
  destruct (_ <=? _).
  - eapply wp_bind, wp_get_block; [done|]. apply wp_set_backlog. eapply (HQ _ (Backlog _ _ _ _ _)); [|done]. split; [|exact BR].
    destruct B. split; cbn [blocks_index ref_node histlen]; try done.
    + by apply index_insert_sorted.
    + intros k m [[= -> ->]|Hk]%index_insert_elem; [by exists b|]. by apply bo_indexed.
  - apply wp_set_backlog. eapply (HQ _ (Backlog _ _ _ _ _)); [|done]. split; [|exact BR]. by destruct B.
Qed.

(** What the turn of the loop has done before the replicas are looked at. *)
Record appended (h : bytes) (base : Z) (s s' : rstate) (bl' : replBacklog) (x : bytes) (n pos : Z) (added : option Z) : Prop := {
  ap_core : core_ok (slaves s') h (h ++ x) base s' bl';
  ap_fed : fed s s' (Z.of_nat (length x));
  ap_start : start_ok h (h ++ x) (repl_buffer_blocks s') n pos;
  ap_ref : ref_node bl' = b_id <$> head (repl_buffer_blocks s') \/
    ref_node bl' = None /\ b_id <$> head (repl_buffer_blocks s') = Some n /\ pos = 0 /\ is_Some added;
  ap_added m : added = Some m -> exists b, b ∈ repl_buffer_blocks s' /\ b_id b = m }.

Lemma wp_feed_rest h base s s1 bl1 x n pos added (rest : bytes) (Q : bytes -> rstate -> Prop) : appended h base s s1 bl1 x n pos added ->
  (forall s' bl', stream_ok (h ++ x) base s' bl' -> fed s s' (Z.of_nat (length x)) -> Q rest s') ->
  wp (st ← get;
      feed_slaves n pos (slaves st);;
      bl ← get_backlog;
      match ref_node bl with
      | Some _ => mret tt
      | None =>
          set_backlog (Backlog (Some n) (unindexed_count bl) (blocks_index bl) (histlen bl) (bl_offset bl));;
          incr_ref n;;
          match added with Some _ => if pos =? 0 then mret tt else fail | None => fail end
      end;;
      match added with Some m => createReplicationBacklogIndex m | None => mret tt end;;
      incrementalTrimReplicationBacklog REPL_BACKLOG_TRIM_BLOCKS_PER_CALL;;
      mret rest) s1 Q.
Proof.
  intros [B F St Hr Ha] HQ. apply wp_bind, wp_get. apply wp_bind. eapply wp_feed_slaves; [exact B|apply B|done| |exact St|].
  { intros r Hr1 Hr2. destruct Hr2. by apply list_elem_of_fmap_2. }
  intros s2 B2 F2 Eface. assert (Hhead : b_id <$> head (repl_buffer_blocks s2) = b_id <$> head (repl_buffer_blocks s1)).
  { destruct (repl_buffer_blocks s2) as [|b l], (repl_buffer_blocks s1) as [|b' l']; try done. cbn in Eface. injection Eface as E1 _ _. cbn. by rewrite E1. }
  assert (Hmem : forall m, (exists b, b ∈ repl_buffer_blocks s1 /\ b_id b = m) -> exists b, b ∈ repl_buffer_blocks s2 /\ b_id b = m).
  { intros m (b & Hb & <-). symmetry in Eface. destruct (face_elem _ _ _ Eface Hb) as (b' & Hb' & [= E _]). by exists b'. }
  eapply wp_bind, wp_get_backlog; [apply B2|]. apply wp_bind.
  eapply wp_mono with (Q := λ _ s3, exists bl3, buffer_ok (slaves s3) (h ++ x) (h ++ x) base s3 bl3 /\ fed s s3 (Z.of_nat (length x)) /\
    (forall m, (exists b, b ∈ repl_buffer_blocks s2 /\ b_id b = m) -> exists b, b ∈ repl_buffer_blocks s3 /\ b_id b = m)).
  - assert (F02 : fed s s2 (Z.of_nat (length x))) by (rewrite <- Z.add_0_r; by eapply fed_trans).
    destruct (ref_node bl1) as [k|] eqn:Hk.
    + apply wp_ret. exists bl1. split; [|done]. split; [done|]. rewrite Hhead, Hk. destruct Hr as [->|[? _]]; [done|done].
    + destruct Hr as [Hr|(_ & Hr & -> & [m ->])].
      { destruct St as [(b & Hb & _) _]. destruct (repl_buffer_blocks s1); [by apply not_elem_of_nil in Hb|done]. }
      destruct (Hmem n) as (b & Hb & <-); [destruct St as [(b & Hb & E & _) _]; by exists b|].
      pose proof (find_block_elem _ _ (bo_ids _ _ _ _ _ _ B2) Hb) as Hf.
      apply wp_bind, wp_set_backlog, wp_bind. eapply wp_set_block; [exact Hf|]. apply wp_ret. set (bl3 := Backlog _ _ _ _ _). set (s3 := with_blocks _ _).
      exists bl3. split; [|split; [by destruct F02|]].
      * split; [|cbn [ref_node bl3 s3 with_blocks repl_buffer_blocks with_backlog]; rewrite <- Hr, <- Hhead;
                 destruct (repl_buffer_blocks s2); [done|cbn; by destruct (_ =? _)]].
        set (f := λ b0, set_refcount (refcount b0 + 1) b0) in *.
        assert (Hface3 : face <$> repl_buffer_blocks s3 = face <$> repl_buffer_blocks s2) by by apply face_update.
        pose proof B2 as [C1 C2 C3 C4 C5 C6 C7 C8 C9 C10 C11 C12 C13 C14]. split; cbn [ref_node bl3 histlen blocks_index]; try done.
        -- change (repl_buffer_blocks s3) with (update_block (b_id b) f (repl_buffer_blocks s2)). by rewrite update_block_ids.
        -- intros y. change (repl_buffer_blocks s3) with (update_block (b_id b) f (repl_buffer_blocks s2)). rewrite update_block_elem. intros (z & Hz & ->).
           specialize (C5 z Hz). by destruct (_ =? _).
        -- by apply chained_update.
        -- by rewrite (face_content _ _ Hface3).
        -- by rewrite (face_content _ _ Hface3).
        -- intros y. change (repl_buffer_blocks s3) with (update_block (b_id b) f (repl_buffer_blocks s2)). rewrite update_block_elem. intros (z & Hz & ->).
           specialize (C9 z Hz). rewrite Hk in C9. unfold ind in *. rewrite decide_False in C9 by done. destruct (Z.eqb_spec (b_id z) (b_id b)) as [E|E]; cbn [f refcount set_refcount b_id].
           ++ rewrite decide_True by congruence. change (slaves s3) with (slaves s2). lia.
           ++ rewrite decide_False by congruence. change (slaves s3) with (slaves s2). lia.
        -- intros k y Hy. destruct (C11 k y Hy) as (z & Hz & E1 & E2). exists (if b_id z =? b_id b then f z else z).
           split; [apply update_block_elem; by exists z|]. by destruct (_ =? _).
        -- change (repl_buffer_mem s3) with (repl_buffer_mem s2). rewrite C12. symmetry. by apply total_mem_update.
        -- intros r Hr1. eapply replica_ok_face; [exact Hface3|]. by apply C14.
      * intros k (z & Hz & <-). exists (if b_id z =? b_id b then set_refcount (refcount z + 1) z else z).
        split; [apply update_block_elem; by exists z|]. by destruct (_ =? _).
  - intros [] s3 (bl3 & B3 & F3 & Hmem3). apply wp_bind.
    eapply wp_mono with (Q := λ _ s4, exists bl4, buffer_ok (slaves s4) (h ++ x) (h ++ x) base s4 bl4 /\ fed s s4 (Z.of_nat (length x))).
    + destruct added as [m|]; [|apply wp_ret; by exists bl3]. destruct (Ha m eq_refl) as (b & Hb & E). destruct (Hmem3 m) as (b' & Hb' & E'); [apply Hmem; by exists b|].
      eapply wp_index; [exact B3|exact Hb'|exact E'|]. intros s4 bl4 B4 K4. exists bl4. rewrite (kp_slaves _ _ K4). split; [done|by eapply fed_kept].
    + intros [] s4 (bl4 & B4 & F4). apply wp_bind. eapply wp_trim; [exact B4|]. intros s5 bl5 T5 K5. apply wp_ret. eapply HQ.
      * unfold stream_ok. rewrite (kp_slaves _ _ K5). exact T5.
      * by eapply fed_kept.
Qed.

Section feed_once.
Context (usable : Z -> Z) (Husable : forall n, n <= usable n).

Lemma head_fresh L h0 h base s bl : core_ok L h0 h base s bl -> ref_node bl = b_id <$> head (repl_buffer_blocks s) -> ref_node bl <> Some (repl_block_id s).
Proof.
  intros B ->. destruct (repl_buffer_blocks s) as [|b l] eqn:Hl; [done|]. intros [= E]. pose proof (bo_fresh _ _ _ _ _ _ B b) as H. rewrite Hl in H.
  specialize (H ltac:(by left)). lia.
Qed.

Lemma wp_feed_once h base s bl bs (Q : bytes -> rstate -> Prop) : stream_ok h base s bl -> bs <> [] ->
  (forall x rest s' bl', bs = x ++ rest -> x <> [] -> stream_ok (h ++ x) base s' bl' -> fed s s' (Z.of_nat (length x)) -> Q rest s') ->
  wp (feed_once usable bs) s Q.
Proof.
  intros [[B BR] Ho] Hne HQ. unfold feed_once. apply wp_bind, wp_bind, wp_get, wp_ret. apply wp_bind.
  pose proof (head_fresh _ _ _ _ _ _ B BR) as Hfresh.
  (* the new block comes first *)
  assert (Hnew : (forall t, last (repl_buffer_blocks s) = Some t -> b_used t = b_size t) ->
    wp (mret (None, bs)) s (λ x s0, wp (let '(start, s1) := x in
      y ← match s1 with [] => mret (start, None, s1) | _ => '(n, rest) ← new_block usable s1;
            mret (match start with Some p => Some p | None => Some (n, 0) end, Some n, rest) end;
      let '(start, added, s2) := y in
      match start with None => fail | Some (n, pos) => st ← get; feed_slaves n pos (slaves st);; bl ← get_backlog;
        match ref_node bl with Some _ => mret tt | None =>
          set_backlog (Backlog (Some n) (unindexed_count bl) (blocks_index bl) (histlen bl) (bl_offset bl));; incr_ref n;;
          match added with Some _ => if pos =? 0 then mret tt else fail | None => fail end end;;
        match added with Some m => createReplicationBacklogIndex m | None => mret tt end;;
        incrementalTrimReplicationBacklog REPL_BACKLOG_TRIM_BLOCKS_PER_CALL;; mret s2 end) s0 Q)).
  { intros Hfull. apply wp_ret. apply wp_bind. destruct bs as [|c bs']; [done|]. apply wp_bind. eapply (wp_new_block usable Husable); [exact B|exact Hfull|exact Hfresh|done|].
    intros x rest b s1 bl1 E Hx B1 F1 E1 R1 Eb El. apply wp_ret. cbv beta iota.
    apply (wp_feed_rest h base s s1 bl1 x (b_id b) 0 (Some (b_id b)) rest); [|intros s2 bl2 S2 F2; by apply (HQ x rest s2 bl2)].
    split; [done|done| | |].
    - split; [exists b; split; [rewrite El; apply elem_of_app; right; by left|]; split; [done|unfold b_used; lia]|].
      rewrite El, (find_from_split (repl_buffer_blocks s) b []); [unfold content; cbn; by rewrite app_nil_r, Eb|]. rewrite <- El. apply B1.
    - rewrite R1, BR, El. destruct (repl_buffer_blocks s) as [|d l]; [right|by left]. split; [done|]. split; [done|]. split; [done|by eexists].
    - intros m [= <-]. exists b. split; [rewrite El; apply elem_of_app; right; by left|done]. }
  destruct (last (repl_buffer_blocks s)) as [t|] eqn:Ht; [|by apply Hnew].
  destruct (Z.ltb_spec (b_used t) (b_size t)) as [Hroom|Hroom].
  2: { apply Hnew. intros t' [= <-]. apply last_Some in Ht as [pre Hl]. pose proof (bo_chain _ _ _ _ _ _ B) as Hc. rewrite Hl in Hc.
       apply chained_app in Hc as [_ Hc]. destruct Hc as (_ & Hc & _). lia. }
  clear Hnew. apply last_Some in Ht as [pre Hl]. apply wp_bind. eapply wp_append_block; [exact B|exact Hl|exact Hroom|exact Hne|].
  intros x1 rest s1 bl1 E1 Hx1 B1 F1 Es1 R1 El1 Hfull. apply wp_ret. set (t' := set_buf (b_buf t ++ x1) t) in *. apply wp_bind.
  assert (Ht' : t' ∈ repl_buffer_blocks s1) by (rewrite El1; apply elem_of_app; right; by left).
  assert (Hpos : 0 <= b_used t <= b_used t') by (unfold b_used, t'; cbn; rewrite length_app; lia).
  assert (Hbuf : drop (Z.to_nat (b_used t)) (b_buf t') = x1) by (unfold b_used, t'; cbn; rewrite Nat2Z.id; by rewrite drop_app_length).
  assert (BR1 : ref_node bl1 = b_id <$> head (repl_buffer_blocks s1)).
  { rewrite R1, BR, El1, Hl. by destruct pre. }
  destruct rest as [|c rest'].
  - apply wp_ret. cbv beta iota. apply (wp_feed_rest h base s s1 bl1 x1 (b_id t) (b_used t) None []); [|intros s2 bl2 S2 F2; by apply (HQ x1 [] s2 bl2)].
    split; [done|done| |by left|done]. split; [exists t'; done|]. rewrite El1. change (b_id t) with (b_id t').
    rewrite (find_from_split pre t' []) by (rewrite <- El1; apply B1). unfold content. cbn [fmap list_fmap concat]. by rewrite app_nil_r, Hbuf.
  - apply wp_bind. eapply (wp_new_block usable Husable); [exact B1| |by eapply head_fresh| |].
    + intros t2 Ht2. rewrite El1, last_snoc in Ht2. injection Ht2 as <-. unfold b_used, t'. cbn. rewrite length_app. specialize (Hfull ltac:(done)). unfold b_used in Hfull. lia.
    + done.
    + intros x2 rest b s2 bl2 E2 Hx2 B2 F2 Es2 R2 Eb El2. apply wp_ret. rewrite <- app_assoc in B2.
      assert (F02 : fed s s2 (Z.of_nat (length (x1 ++ x2)))) by (rewrite length_app, Nat2Z.inj_add; by eapply fed_trans).
      cbv beta iota. apply (wp_feed_rest h base s s2 bl2 (x1 ++ x2) (b_id t) (b_used t) (Some (b_id b)) rest);
        [|intros s3 bl3 S3 F3; apply (HQ (x1 ++ x2) rest s3 bl3); [by rewrite <- app_assoc, <- E2|by destruct x1|exact S3|exact F3]].
      split; [done|done| | |].
      * split; [exists t'; split; [rewrite El2; apply elem_of_app; by left|done]|]. rewrite El2, El1, <- app_assoc. change (b_id t) with (b_id t'). cbn [app].
        rewrite (find_from_split pre t' [b]). 2: { rewrite cons_middle, app_assoc, <- El1, <- El2. apply B2. }
        unfold content. cbn [fmap list_fmap concat]. rewrite app_nil_r, Eb, drop_app_le by (unfold b_used, t'; cbn; rewrite length_app; lia). by rewrite Hbuf.
      * left. rewrite R2, BR1, El2, El1. by destruct pre.
      * intros m [= <-]. exists b. split; [rewrite El2; apply elem_of_app; right; by left|done].
Qed.

Lemma wp_feed_loop base fuel : forall h s bl bs (Q : unit -> rstate -> Prop), stream_ok h base s bl -> (length bs <= fuel)%nat ->
  (forall s' bl', stream_ok (h ++ bs) base s' bl' -> fed s s' (Z.of_nat (length bs)) -> Q tt s') -> wp (feed_loop usable fuel bs) s Q.
Proof.
  induction fuel as [|fuel IH]; intros h s bl bs Q Hs Hlen HQ.
  - destruct bs; [|cbn in Hlen; lia]. apply wp_ret. eapply HQ; [by rewrite app_nil_r|]. split; [cbn; lia|done..].
  - destruct bs as [|c bs']; [apply wp_ret; eapply HQ; [by rewrite app_nil_r|]; split; [cbn; lia|done..]|].
    cbn [feed_loop]. apply wp_bind. eapply wp_feed_once; [exact Hs|done|]. intros x rest s1 bl1 E Hx H1 F1. rewrite E in *.
    eapply IH; [exact H1| |].
    + rewrite length_app in Hlen. destruct x; [done|cbn in Hlen; lia].
    + intros s2 bl2 H2 F2. rewrite <- app_assoc in H2. eapply HQ; [exact H2|]. rewrite length_app, Nat2Z.inj_add. by eapply fed_trans.
Qed.

(** The bytes are the end of the stream now. *)
Lemma wp_feed h base s bl bs (Q : unit -> rstate -> Prop) : stream_ok h base s bl ->
  (forall s' bl', stream_ok (h ++ bs) base s' bl' -> fed s s' (Z.of_nat (length bs)) -> Q tt s') -> wp (feedReplicationBuffer usable bs) s Q.
Proof.
  intros Hs HQ. apply wp_bind, wp_get. rewrite (bo_backlog _ _ _ _ _ _ (proj1 (proj1 Hs))). by eapply wp_feed_loop.
Qed.
End feed_once.

(** * Sending the stream to a replica, and attaching a replica to a place in the stream *)

(** ** Changing one replica *)

Lemma update_replica_in c f l r : NoDup (r_id <$> l) -> r ∈ l -> r_id r = c ->
  forall x, x ∈ update_replica c f l -> x = f r \/ x ∈ l /\ r_id x <> c.
Proof.
  intros Hnd Hr <- x (y & Hy & ->)%update_replica_elem. destruct (Z.eqb_spec (r_id y) (r_id r)) as [E|E]; [left|by right].
  f_equal. pose proof (find_replica_elem _ _ Hnd Hy) as H1. rewrite E, (find_replica_elem _ _ Hnd Hr) in H1. by injection H1.
Qed.

Lemma update_replica_new c f l r : r ∈ l -> r_id r = c -> f r ∈ update_replica c f l.
Proof. intros Hr <-. apply update_replica_elem. exists r. by rewrite Z.eqb_refl. Qed.

Lemma update_replica_other c f l r : r ∈ l -> r_id r <> c -> r ∈ update_replica c f l.
Proof. intros Hr Hc. apply update_replica_elem. exists r. by rewrite (proj2 (Z.eqb_neq _ _)). Qed.

Lemma update_replica_compose c f g l : (forall r, r_id (g r) = r_id r) ->
  update_replica c f (update_replica c g l) = update_replica c (λ r, f (g r)) l.
Proof.
  intros Hg. unfold update_replica. rewrite map_map. apply map_ext. intros r. destruct (Z.eqb_spec (r_id r) c) as [E|E]; rewrite ?Hg, ?E, ?Z.eqb_refl; [done|].
  by rewrite (proj2 (Z.eqb_neq _ _)).
Qed.

(** The replicas of a state are changed without touching the references. *)
Lemma stream_ok_slaves h base s bl L' s' : stream_ok h base s bl -> slaves s' = L' ->
  repl_buffer_blocks s' = repl_buffer_blocks s -> repl_block_id s' = repl_block_id s -> repl_buffer_mem s' = repl_buffer_mem s ->
  repl_backlog s' = repl_backlog s -> master_repl_offset s' = master_repl_offset s ->
  (forall n, refs L' n = refs (slaves s) n) -> NoDup (r_id <$> L') -> (forall r, r ∈ L' -> replica_ok h h base (repl_buffer_blocks s) r) ->
  stream_ok h base s' bl.
Proof.
  intros [[B BR] Ho] <- E1 E2 E3 E4 E5 Hrefs Hnd Hr. split; [split; [|by rewrite E1]|by rewrite E5].
  destruct B. split; rewrite ?E1, ?E2, ?E3, ?E4, ?E5; try done. intros b Hb. rewrite Hrefs. by apply bo_counts.
Qed.

Lemma wp_set_replica_ok h base s bl r f (Q : unit -> rstate -> Prop) : stream_ok h base s bl -> r ∈ slaves s ->
  (forall x, r_id (f x) = r_id x) -> ref_repl_buf_node (f r) = ref_repl_buf_node r -> replica_ok h h base (repl_buffer_blocks s) (f r) ->
  (forall s', stream_ok h base s' bl -> kept_but_slaves s s' -> slaves s' = update_replica (r_id r) f (slaves s) ->
     repl_buffer_blocks s' = repl_buffer_blocks s -> Q tt s') ->
  wp (set_replica (r_id r) f) s Q.
Proof.
  intros Hs Hr Hid Href Hok HQ. pose proof Hs as [[B _] _]. pose proof (bo_slaves _ _ _ _ _ _ B) as Hnd.
  eapply wp_set_replica; [by apply find_replica_elem|]. apply HQ; try done. eapply stream_ok_slaves; [exact Hs|done..| | |].
  - intros n. cbn. rewrite refs_update by done. rewrite Href. lia.
  - cbn. by rewrite update_replica_ids.
  - intros x Hx. eapply update_replica_in in Hx as [->|[Hx _]]; [done| |done|exact Hr|done]. by apply (bo_replicas _ _ _ _ _ _ B).
Qed.

(** ** Sending *)

(** The replica at a place of the stream, when some more of it is sent. *)
Lemma replica_ok_move h base l r r' : replica_ok h h base l r -> replstate r = SLAVE_STATE_ONLINE -> is_Some (ref_repl_buf_node r) ->
  r_id r' = r_id r -> replstate r' = replstate r -> rdbonly r' = rdbonly r -> start_on_ack r' = start_on_ack r -> close_asap r' = close_asap r ->
  r_told r' = r_told r ->
  (exists n b, ref_repl_buf_node r' = Some n /\ b ∈ l /\ b_id b = n /\ 0 <= ref_block_pos r' <= b_used b) ->
  r_sent r' ++ pending l r' = r_sent r ++ pending l r -> replica_ok h h base l r'.
Proof.
  intros [K1 K2 K3 K4 K5 K6] Hst [n0 Hn0] E1 E2 E3 E4 E5 E6 (n & b & Hn & Hb & Hid & Hpos) E. split; rewrite ?E2, ?E3, ?E4, ?E5, ?E6; try done.
  - intros m Hm. exists b. split; [done|]. split; [congruence|done].
  - rewrite Hst. done.
  - rewrite Hst. intros [?|?]; done.
  - intros o H1 H2. destruct (K4 o H1 H2) as [H3 H4]. split; [done|]. rewrite E, Hn, H4, Hn0. done.
Qed.

Lemma pending_at l b : NoDup (b_id <$> l) -> b ∈ l -> exists rest, forall pos, 0 <= pos <= b_used b ->
  drop (Z.to_nat pos) (content (find_from l (b_id b))) = drop (Z.to_nat pos) (b_buf b) ++ content rest.
Proof.
  intros Hnd (l1 & l2 & ->)%list_elem_of_split. exists l2. intros pos Hpos. rewrite find_from_split by done. unfold content, b_used in *. cbn.
  by rewrite drop_app_le by lia.
Qed.

Lemma next_block_split l1 b l2 : NoDup (b_id <$> (l1 ++ b :: l2)) -> next_block (l1 ++ b :: l2) (b_id b) = b_id <$> head l2.
Proof.
  induction l1 as [|c l1 IH]; cbn [app fmap list_fmap]; intros Hnd; cbn [next_block]; [rewrite Z.eqb_refl; by destruct l2|].
  apply NoDup_cons in Hnd as [Hc Hnd]. rewrite (proj2 (Z.eqb_neq _ _)); [by apply IH|].
  intros E. apply Hc. rewrite E. apply (list_elem_of_fmap_2 b_id (l1 ++ b :: l2)). apply elem_of_app. right. by left.
Qed.

(** At the end of a block that is not the last, the start of the next is the same place. *)
Lemma pending_next l l1 b c l2 pos : l = l1 ++ b :: c :: l2 -> NoDup (b_id <$> l) -> pos = b_used b ->
  drop (Z.to_nat pos) (content (find_from l (b_id b))) = content (find_from l (b_id c)).
Proof.
  intros -> Hnd ->. rewrite (find_from_split l1 b) by done. rewrite cons_middle, app_assoc in Hnd |- *. rewrite (find_from_split (l1 ++ [b]) c) by done.
  unfold content, b_used. cbn. rewrite Nat2Z.id, drop_app_length. done.
Qed.

(** A replica moves from one block to another. *)
Lemma buffer_move h base s bl r f n0 m s' : stream_ok h base s bl -> r ∈ slaves s -> ref_repl_buf_node r = Some n0 ->
  ref_repl_buf_node (f r) = Some m -> (forall x, r_id (f x) = r_id x) ->
  repl_buffer_blocks s' = update_block m (λ b, set_refcount (refcount b + 1) b) (update_block n0 (λ b, set_refcount (refcount b + -1) b) (repl_buffer_blocks s)) ->
  slaves s' = update_replica (r_id r) f (slaves s) -> master_repl_offset s' = master_repl_offset s -> repl_block_id s' = repl_block_id s ->
  repl_buffer_mem s' = repl_buffer_mem s -> repl_backlog s' = repl_backlog s -> replica_ok h h base (repl_buffer_blocks s) (f r) ->
  buffer_ok (slaves s') h h base s' bl.
Proof.
  intros [BB _] Hr Hn0 Hm Hid Hl HL E1 E2 E3 E4 Hok. pose proof (proj1 BB) as B. pose proof (bo_slaves _ _ _ _ _ _ B) as Hnd.
  set (s1 := with_blocks (update_block n0 (λ b, set_refcount (refcount b + -1) b) (repl_buffer_blocks s)) s).
  assert (B1 : buffer_ok (filter (λ x, r_id x <> r_id r) (slaves s)) h h base s1 bl).
  { eapply (buffer_ok_refs _ _ _ _ _ _ _ s1 bl n0 (-1) BB); try done.
    - by exists []; rewrite app_nil_r.
    - intros k. rewrite refs_remove by done. rewrite Hn0. unfold ind. destruct (decide (k = n0)) as [->|]; [rewrite decide_True by done|rewrite decide_False by congruence]; lia.
    - by apply NoDup_ids_filter.
    - intros x [_ Hx]%list_elem_of_filter. by apply (bo_replicas _ _ _ _ _ _ B). }
  assert (Hface : face <$> repl_buffer_blocks s1 = face <$> repl_buffer_blocks s) by by apply face_update.
  eapply (buffer_ok_refs _ _ _ _ _ _ _ s' bl m 1 B1); try done; rewrite ?HL.
  - by exists []; rewrite app_nil_r.
  - intros k. rewrite refs_update, refs_remove by done. rewrite Hm. unfold ind.
    destruct (decide (k = m)) as [->|]; [rewrite (decide_True (P := Some m = Some m)) by done|rewrite (decide_False (P := Some m = Some k)) by congruence]; lia.
  - by rewrite update_replica_ids.
  - intros x Hx. eapply replica_ok_face; [exact Hface|]. eapply update_replica_in in Hx as [->|[Hx _]]; [done| |done|exact Hr|done].
    by apply (bo_replicas _ _ _ _ _ _ B).
Qed.

(** One call of the connection. *)
Lemma wp__writeToClient h base s bl r n (Q : bool -> rstate -> Prop) : stream_ok h base s bl -> r ∈ slaves s -> replstate r = SLAVE_STATE_ONLINE ->
  is_Some (ref_repl_buf_node r) ->
  (forall ok s' bl' r', stream_ok h base s' bl' -> kept_but_slaves s s' -> r' ∈ slaves s' -> r_id r' = r_id r -> replstate r' = SLAVE_STATE_ONLINE ->
     is_Some (ref_repl_buf_node r') ->
     r_id <$> slaves s' = r_id <$> slaves s -> Q ok s') ->
  wp (_writeToClient (r_id r) n) s Q.
Proof.
  intros Hs Hr Hst Href HQ. pose proof Hs as [[B BR] _]. pose proof (bo_slaves _ _ _ _ _ _ B) as HndL. pose proof (bo_ids _ _ _ _ _ _ B) as Hnd.
  pose proof (bo_replicas _ _ _ _ _ _ B r Hr) as K. destruct (ref_repl_buf_node r) as [node|] eqn:Hn; [|by destruct Href]. clear Href.
  destruct (rk_pos _ _ _ _ _ K node Hn) as (b & Hb & <- & Hpos). pose proof (find_block_elem _ _ Hnd Hb) as Hfb.
  eapply wp_bind, wp_get_replica; [by apply find_replica_elem|]. rewrite Hn. eapply wp_bind, wp_get_block; [done|].
  rewrite (proj2 (Z.ltb_ge _ _)) by lia. apply wp_bind.
  eapply wp_mono with (Q := λ ok s1, exists r1, stream_ok h base s1 bl /\ kept_but_slaves s s1 /\ r1 ∈ slaves s1 /\ r_id r1 = r_id r /\
    replstate r1 = SLAVE_STATE_ONLINE /\ ref_repl_buf_node r1 = Some (b_id b) /\ 0 <= ref_block_pos r1 <= b_used b /\
    repl_buffer_blocks s1 = repl_buffer_blocks s /\ r_id <$> slaves s1 = r_id <$> slaves s).
  { destruct (Z.ltb_spec (ref_block_pos r) (b_used b)) as [Hlt|Hge]; [destruct (Z.leb_spec n 0)|]; [by apply wp_ret; exists r| |by apply wp_ret; exists r].
    set (k := Z.min n (b_used b - ref_block_pos r)). apply wp_bind. eapply wp_set_replica_ok; [exact Hs|done|done|done| |].
    - eapply replica_ok_move; [exact K|done|by rewrite Hn|done..| |].
      + exists (b_id b), b. cbn. split_and!; try done; lia.
      + destruct (pending_at _ b Hnd Hb) as (rest & F). unfold pending. cbn [ref_repl_buf_node set_ref add_sent ref_block_pos r_sent].
        rewrite Hn, !F, <- app_assoc by lia. f_equal.
        rewrite app_assoc. f_equal. rewrite <- (take_drop (Z.to_nat k) (drop (Z.to_nat (ref_block_pos r)) (b_buf b))) at 2. f_equal.
        rewrite drop_drop. f_equal. lia.
    - intros s1 H1 K1 E1 E2. apply wp_ret. eexists. split; [exact H1|]. split; [exact K1|]. rewrite E1. split; [by apply update_replica_new|].
      cbn. split; [done|]. split; [done|]. split; [done|]. split; [lia|]. split; [exact E2|]. by rewrite update_replica_ids. }
  intros ok s1 (r1 & H1 & K1 & Hr1 & E1 & Hst1 & Hn1 & Hpos1 & El & Eid). rewrite <- E1 in *. rewrite <- El in Hb, Hnd. clear Hfb.
  destruct ok; [|apply wp_ret; by eapply (HQ _ _ _ r1)]. cbn [negb]. pose proof H1 as [[B1 BR1] _].
  eapply wp_bind, wp_get_replica; [by apply find_replica_elem; [apply B1|]|]. apply wp_bind, wp_bind, wp_get, wp_ret.
  apply list_elem_of_split in Hb as (l1 & l2 & Hl). rewrite Hl, next_block_split by (by rewrite <- Hl). destruct l2 as [|c l2]; cbn [head fmap option_fmap option_map].
  { apply wp_bind, wp_ret, wp_ret. by eapply (HQ _ _ _ r1). }
  destruct (Z.eqb_spec (ref_block_pos r1) (b_used b)) as [Hend|]; [|apply wp_bind, wp_ret, wp_ret; by eapply (HQ _ _ _ r1)].
  assert (Hb1 : b ∈ repl_buffer_blocks s1) by (rewrite Hl; apply elem_of_app; right; by left).
  assert (Hc : c ∈ repl_buffer_blocks s1) by (rewrite Hl; apply elem_of_app; right; right; by left).
  assert (Hbc : b_id b <> b_id c).
  { rewrite Hl, fmap_app in Hnd. apply NoDup_app in Hnd as (_ & _ & Hnd). cbn in Hnd. apply NoDup_cons in Hnd as [Hnd _]. intros E. apply Hnd. rewrite E. by left. }
  apply wp_bind, wp_bind. eapply wp_set_block; [by apply find_block_elem|]. apply wp_bind.
  eapply (wp_set_block _ _ c); [apply find_block_elem; [cbn; by rewrite update_block_ids|]; apply update_block_elem; exists c; split; [done|]; by rewrite (proj2 (Z.eqb_neq _ _))|].
  apply wp_bind. eapply wp_set_replica; [cbn; by apply find_replica_elem; [apply B1|]|]. match goal with |- wp _ ?x _ => set (s2 := x) end. eapply (wp_trim (slaves s2)).
  - eapply (buffer_move h base s1 bl r1 (set_ref (Some (b_id c)) 0) (b_id b) (b_id c) s2); try done.
    eapply replica_ok_move; [by apply (bo_replicas _ _ _ _ _ _ B1)|done|by rewrite Hn1|done..| |].
    + exists (b_id c), c. cbn. split_and!; try done. unfold b_used. lia.
    + cbn [r_sent set_ref]. f_equal. unfold pending. cbn [ref_repl_buf_node set_ref ref_block_pos]. rewrite Hn1.
      change (Z.to_nat 0) with O. rewrite drop_0. symmetry. eapply pending_next; done.
  - intros s3 bl3 T K2. apply wp_ret. eapply (HQ true s3 bl3 (set_ref (Some (b_id c)) 0 r1)).
    + unfold stream_ok. rewrite (kp_slaves _ _ K2). exact T.
    + transitivity s1; [done|]. by apply kept_weaken in K2 as [].
    + rewrite (kp_slaves _ _ K2). by apply update_replica_new.
    + done.
    + done.
    + done.
    + rewrite (kp_slaves _ _ K2), <- Eid. by apply update_replica_ids.
Qed.

Lemma wp_writeToClient base ns : forall h s bl r (Q : unit -> rstate -> Prop), stream_ok h base s bl -> r ∈ slaves s -> replstate r = SLAVE_STATE_ONLINE ->
  (forall s' bl', stream_ok h base s' bl' -> kept_but_slaves s s' -> Q tt s') -> wp (writeToClient (r_id r) ns) s Q.
Proof.
  induction ns as [|n ns IH]; intros h s bl r Q Hs Hr Hst HQ; [apply wp_ret; by eapply HQ|]. pose proof Hs as [[B BR] _].
  cbn [writeToClient]. apply wp_bind. eapply wp_bind, wp_get_replica; [apply find_replica_elem; [apply B|done]|].
  destruct (ref_repl_buf_node r) as [node|] eqn:Hn; [|apply wp_ret, wp_ret; by eapply HQ]. apply wp_bind, wp_bind, wp_get, wp_ret.
  destruct (last (repl_buffer_blocks s)) as [t|] eqn:Hl.
  2: { destruct (rk_pos _ _ _ _ _ (bo_replicas _ _ _ _ _ _ B r Hr) node Hn) as (b & Hb & _). apply last_None in Hl. rewrite Hl in Hb. by apply not_elem_of_nil in Hb. }
  apply wp_ret. destruct (_ && _); cbn [negb]; [apply wp_ret; by eapply HQ|]. apply wp_bind.
  eapply wp__writeToClient; [exact Hs|done|done|by rewrite Hn|]. intros ok s1 bl1 r1 H1 K1 Hr1 E1 Hst1 _ _. destruct ok; [|apply wp_ret; by eapply HQ].
  rewrite <- E1. eapply IH; [exact H1|done|done|]. intros s2 bl2 H2 K2. eapply HQ; [done|]. by transitivity s1.
Qed.
