(* ===== verification/ReplSync.v ===== *)
(** Synchronizing a replica: the place of an offset in the blocks, partial and full
    synchronization. *)

From stdpp Require Import list sorting.
From S2P Require Import Prelude State Repl ReplInv ReplFeed.

Local Open Scope Z_scope.

(** ** Finding an offset *)

Lemma index_seek_spec k l a b : index_seek k l = (a, b) -> l = a ++ b /\ Forall (λ p, p.1 <= k) a.
Proof.
  revert a b. induction l as [|p l IH]; cbn [index_seek]; intros a b; [intros [= <- <-]; by split|].
  destruct (Z.ltb_spec k p.1); [intros [= <- <-]; by split|]. destruct (index_seek k l) as [a' b'] eqn:E. intros [= <- <-].
  destruct (IH _ _ eq_refl) as [-> H1]. split; [done|]. by constructor.
Qed.

Lemma index_start_ok L h0 h base s bl p : trimmed_ok L h0 h base s bl -> repl_buffer_blocks s <> [] -> bl_offset bl <= p ->
  exists b, b ∈ repl_buffer_blocks s /\ index_start p bl = Some (b_id b) /\ repl_offset b <= p.
Proof.
  intros [[B BR] Ho] Hne Hp.
  assert (Hhead : exists b, b ∈ repl_buffer_blocks s /\ ref_node bl = Some (b_id b) /\ repl_offset b <= p).
  { rewrite BR. pose proof (bo_chain _ _ _ _ _ _ B) as Hc. destruct (repl_buffer_blocks s) as [|b l]; [done|]. destruct Hc as [Hc _].
    exists b. split; [by left|]. split; [done|lia]. }
  unfold index_start. destruct (blocks_index bl) as [|e l] eqn:Ei; [done|]. destruct (index_seek p (e :: l)) as [before after] eqn:Es.
  destruct (index_seek_spec _ _ _ _ Es) as [Hl Hb]. destruct (last before) as [[k n]|] eqn:Hlast.
  - apply last_Some in Hlast as [pre ->]. apply Forall_app in Hb as [_ Hb]. apply Forall_inv in Hb. cbn in Hb.
    destruct (bo_indexed _ _ _ _ _ _ B k n) as (b & Hin & <- & <-).
    { rewrite Ei, Hl. apply elem_of_app. left. apply elem_of_app. right. by left. }
    exists b. by destruct after.
  - apply last_None in Hlast as ->. destruct after; [by destruct l|exact Hhead].
Qed.

Lemma search_node_ok o l p : chained o l -> l <> [] -> o <= p <= o + Z.of_nat (length (content l)) ->
  exists l1 c l2, l = l1 ++ c :: l2 /\ search_node p l = Some c /\ repl_offset c <= p <= repl_offset c + b_used c.
Proof.
  revert o. induction l as [|b l IH]; intros o Hc Hne Hp; [done|]. cbn [chained search_node] in *. destruct Hc as (H1 & H2 & H3 & H4 & H5).
  destruct (Z.leb_spec p (repl_offset b + b_used b)) as [Hle|Hgt]; [exists [], b, l; split; [done|]; split; [done|lia]|].
  assert (Hlen : Z.of_nat (length (content (b :: l))) = b_used b + Z.of_nat (length (content l))).
  { unfold content, b_used. cbn. rewrite length_app. lia. }
  destruct (IH (o + b_used b)) as (l1 & c & l2 & -> & E & Hr); [done| |lia|exists (b :: l1), c, l2; done].
  intros ->. change (content []) with (@nil Z) in Hlen. cbn [length] in Hlen. lia.
Qed.

(** The bytes from the offset [p] on. *)
Lemma offset_content L h0 h base s bl pre c l2 p : trimmed_ok L h0 h base s bl -> repl_buffer_blocks s = pre ++ c :: l2 ->
  repl_offset c <= p <= repl_offset c + b_used c ->
  drop (Z.to_nat (p - repl_offset c)) (content (find_from (repl_buffer_blocks s) (b_id c))) = drop (Z.to_nat (p - 1 - base)) h /\
  base < p <= base + Z.of_nat (length h) + 1.
Proof.
  intros [[B BR] Ho] Hl Hp. pose proof (bo_chain _ _ _ _ _ _ B) as Hc. rewrite Hl in Hc. apply chained_offset in Hc.
  pose proof (bo_hist _ _ _ _ _ _ B) as Hh. pose proof (bo_len _ _ _ _ _ _ B) as Hlen. destruct (bo_content _ _ _ _ _ _ B) as [old E].
  rewrite Hl in Hlen, E. rewrite content_app in Hlen, E. rewrite length_app in Hlen. rewrite E, !length_app in Hh.
  assert (Hu : b_used c <= Z.of_nat (length (content (c :: l2)))) by (unfold content, b_used; cbn; rewrite length_app; lia).
  rewrite E, !length_app. split; [|lia]. rewrite Hl, find_from_split by (rewrite <- Hl; apply B).
  replace (Z.to_nat (p - 1 - base)) with (length old + (length (content pre) + Z.to_nat (p - repl_offset c)))%nat by lia.
  by rewrite !drop_app_add.
Qed.

(** ** Replicas that come *)

(** A list with one more replica. *)
Lemma stream_ok_add h base s bl r s' : stream_ok h base s bl -> ref_repl_buf_node r = None -> find_replica (slaves s) (r_id r) = None ->
  s' = with_slaves (slaves s ++ [r]) s -> replica_ok h h base (repl_buffer_blocks s) r -> stream_ok h base s' bl.
Proof.
  intros Hs Hn Hf -> Hok. pose proof Hs as [[B _] _]. eapply stream_ok_slaves; [exact Hs|done..| | |].
  - intros n. cbn [slaves with_slaves]. rewrite refs_app. cbn [refs]. rewrite Hn. unfold ind. rewrite decide_False by done. lia.
  - cbn [slaves with_slaves]. rewrite fmap_app. apply NoDup_app. split; [apply B|]. split; [|apply NoDup_singleton]. intros i Hi Hi2. apply list_elem_of_singleton in Hi2 as ->.
    apply list_elem_of_fmap in Hi as (x & E & Hx). by apply (proj1 (find_replica_None _ _) Hf x Hx).
  - intros x [Hx|Hx]%elem_of_app; [by apply (bo_replicas _ _ _ _ _ _ B)|]. by apply list_elem_of_singleton in Hx as ->.
Qed.

Lemma stream_ok_add_at h base s bl r m s' : stream_ok h base s bl -> ref_repl_buf_node r = Some m -> find_replica (slaves s) (r_id r) = None ->
  repl_buffer_blocks s' = update_block m (λ b, set_refcount (refcount b + 1) b) (repl_buffer_blocks s) -> slaves s' = slaves s ++ [r] ->
  master_repl_offset s' = master_repl_offset s -> repl_block_id s' = repl_block_id s -> repl_buffer_mem s' = repl_buffer_mem s ->
  repl_backlog s' = repl_backlog s -> replica_ok h h base (repl_buffer_blocks s) r -> stream_ok h base s' bl.
Proof.
  intros [BB Ho] Hm Hf Hl HL E1 E2 E3 E4 Hok. pose proof (proj1 BB) as B. split; [|by rewrite E1].
  eapply (buffer_ok_refs _ _ _ _ _ _ _ s' bl m 1 BB); try done; rewrite ?HL.
  - by exists []; rewrite app_nil_r.
  - intros k. rewrite refs_app. cbn [refs]. rewrite Hm. unfold ind.
    destruct (decide (k = m)) as [->|]; [rewrite decide_True by done|rewrite decide_False by congruence]; lia.
  - rewrite fmap_app. apply NoDup_app. split; [apply B|]. split; [|apply NoDup_singleton]. intros i Hi Hi2. apply list_elem_of_singleton in Hi2 as ->.
    apply list_elem_of_fmap in Hi as (x & E & Hx). by apply (proj1 (find_replica_None _ _) Hf x Hx).
  - intros x [Hx|Hx]%elem_of_app; [by apply (bo_replicas _ _ _ _ _ _ B)|]. by apply list_elem_of_singleton in Hx as ->.
Qed.

(** A replica that had no place in the blocks gets one. *)
Lemma buffer_attach h base s bl r f m s' : stream_ok h base s bl -> r ∈ slaves s -> ref_repl_buf_node r = None ->
  ref_repl_buf_node (f r) = Some m -> (forall x, r_id (f x) = r_id x) ->
  repl_buffer_blocks s' = update_block m (λ b, set_refcount (refcount b + 1) b) (repl_buffer_blocks s) ->
  slaves s' = update_replica (r_id r) f (slaves s) -> master_repl_offset s' = master_repl_offset s -> repl_block_id s' = repl_block_id s ->
  repl_buffer_mem s' = repl_buffer_mem s -> repl_backlog s' = repl_backlog s -> replica_ok h h base (repl_buffer_blocks s) (f r) ->
  stream_ok h base s' bl.
Proof.
  intros [BB Ho] Hr Hn Hm Hid Hl HL E1 E2 E3 E4 Hok. pose proof (proj1 BB) as B. pose proof (bo_slaves _ _ _ _ _ _ B) as Hnd. split; [|by rewrite E1].
  eapply (buffer_ok_refs _ _ _ _ _ _ _ s' bl m 1 BB); try done; rewrite ?HL.
  - by exists []; rewrite app_nil_r.
  - intros k. rewrite refs_update by done. rewrite Hn, Hm. unfold ind. rewrite (decide_False (P := None = Some k)) by done.
    destruct (decide (k = m)) as [->|]; [rewrite decide_True by done|rewrite decide_False by congruence]; lia.
  - by rewrite update_replica_ids.
  - intros x Hx. eapply update_replica_in in Hx as [->|[Hx _]]; [done| |done|exact Hr|done]. by apply (bo_replicas _ _ _ _ _ _ B).
Qed.

Lemma update_replica_snoc c f l r : find_replica l c = None -> r_id r = c -> update_replica c f (l ++ [r]) = l ++ [f r].
Proof.
  intros Hf <-. unfold update_replica. rewrite map_app. cbn. rewrite Z.eqb_refl. f_equal.
  apply update_replica_none. by apply find_replica_None.
Qed.

Lemma find_replica_snoc l r : find_replica l (r_id r) = None -> find_replica (l ++ [r]) (r_id r) = Some r.
Proof.
  induction l as [|x l IH]; cbn [app find_replica]; [by rewrite Z.eqb_refl|]. by destruct (_ =? _).
Qed.

(** ** Partial synchronization *)

(** The stream from the offset [p] on can be given to a replica. *)
Definition psync_possible (s : rstate) (id p : Z) : Prop :=
  (id = replid s \/ id = replid2 s /\ p <= second_replid_offset s) /\
  exists bl, repl_backlog s = Some bl /\ bl_offset bl <= p <= bl_offset bl + histlen bl.

(** What a replica is that has resumed at [p]. *)
Definition resumed (c p : Z) (rdb sent : bool) (r : replica) : Prop :=
  r_id r = c /\ replstate r = SLAVE_STATE_ONLINE /\ rdbonly r = rdb /\ close_asap r = negb sent /\ start_on_ack r = false /\ r_sent r = [] /\
  r_told r = (if sent then Some (p - 1) else None).

(** [addReplyReplicationBacklog] for a replica that has been told its offset. *)
Lemma wp_addReply h base s bl r rdb p (Q : Z -> rstate -> Prop) : stream_ok h base s bl -> find_replica (slaves s) (r_id r) = None ->
  bl_offset bl <= p <= bl_offset bl + histlen bl -> r = set_told (p - 1) (new_replica (r_id r) SLAVE_STATE_ONLINE rdb) ->
  (forall s' r' n, stream_ok h base s' bl -> kept_but_slaves s s' -> slaves s' = slaves s ++ [r'] -> resumed (r_id r) p rdb true r' -> Q n s') ->
  wp (addReplyReplicationBacklog (r_id r) p) (with_slaves (slaves s ++ [r]) s) Q.
Proof.
  intros Hs Hf Hp Hr HQ. pose proof Hs as [[B BR] Ho]. pose proof (bo_hist _ _ _ _ _ _ B) as Hh. pose proof (bo_len _ _ _ _ _ _ B) as Hlen.
  pose proof (find_replica_snoc (slaves s) r Hf) as Hfr. set (s0 := with_slaves _ s).
  assert (Hmk : forall l f, f r = set_ref (ref_repl_buf_node (f r)) (ref_block_pos (f r)) r ->
      (forall n, ref_repl_buf_node (f r) = Some n -> exists b, b ∈ l /\ b_id b = n /\ 0 <= ref_block_pos (f r) <= b_used b) ->
      told_ok h h base l (f r) (p - 1) -> replica_ok h h base l (f r)).
  { intros l f -> Hb Ht. rewrite Hr in *. split; cbn in *; try done.
    - intros [?|?]; done.
    - by intros o _ [= <-]. }
  eapply wp_bind, wp_get_backlog; [apply B|]. destruct (Z.eqb_spec (histlen bl) 0) as [Hz|Hz].
  - apply wp_ret. destruct (bo_content _ _ _ _ _ _ B) as [old E]. eapply (HQ s0 r); [|done|done|by rewrite Hr].
    apply (stream_ok_add h base s bl r s0); [exact Hs|by rewrite Hr|done|done|]. apply (Hmk _ (λ x, x)); [by rewrite Hr|by rewrite Hr|].
    split; [lia|]. rewrite Hr. cbn. rewrite drop_ge by lia. done.
  - apply wp_bind, wp_get. change (repl_buffer_blocks s0) with (repl_buffer_blocks s).
    assert (Hne : repl_buffer_blocks s <> []) by (intros E; rewrite E in Hlen; by destruct Hz).
    destruct (index_start_ok _ _ _ _ _ _ p (conj (conj B BR) Ho) Hne) as (b & Hb & -> & Hbp); [lia|].
    eapply wp_bind, wp_get_block; [by apply find_block_elem; [apply B|]|].
    apply list_elem_of_split in Hb as (l1 & l2 & Hl). pose proof (bo_ids _ _ _ _ _ _ B) as Hnd.
    rewrite Hl at 1. rewrite find_from_split by by rewrite <- Hl. pose proof (bo_chain _ _ _ _ _ _ B) as Hc. rewrite Hl in Hc.
    apply chained_app in Hc as [_ Hc]. pose proof (proj1 Hc) as Hbo.
    destruct (search_node_ok _ _ p Hc) as (l3 & c & l4 & El & -> & Hcp).
    { done. }
    { rewrite Hl, content_app, length_app in Hlen. lia. }
    rewrite El, app_assoc in Hl. destruct (offset_content _ _ _ _ _ _ (l1 ++ l3) c l4 p (conj (conj B BR) Ho) Hl Hcp) as [Hd Hrange].
    assert (Hcin : c ∈ repl_buffer_blocks s) by (rewrite Hl; apply elem_of_app; right; by left).
    set (f := set_ref (Some (b_id c)) (p - repl_offset c)). apply wp_bind. eapply wp_set_block; [apply find_block_elem; [apply Hnd|exact Hcin]|].
    apply wp_bind. eapply wp_set_replica; [exact Hfr|]. apply wp_ret. cbn [slaves with_blocks s0 with_slaves]. rewrite update_replica_snoc by done.
    match goal with |- Q _ ?x => set (s2 := x) end.
    assert (Hok : replica_ok h h base (repl_buffer_blocks s) (f r)).
    { apply Hmk; [done| |].
      - intros n [= <-]. exists c. split; [done|]. split; [done|]. cbn. lia.
      - split; [lia|]. cbn. rewrite Hr. cbn. unfold pending. cbn. rewrite Hd. done. }
    eapply (HQ s2 (f r)); [|done|done|subst f; by rewrite Hr].
    by eapply (stream_ok_add_at h base s bl (f r) (b_id c) s2).
Qed.

Lemma new_replica_ok h base l c st rdb told (close : bool) : st <> REPL_STATE_NONE -> st <> SLAVE_STATE_RDB_TRANSMITTED ->
  st <> SLAVE_STATE_WAIT_BGSAVE_END -> st <> SLAVE_STATE_SEND_BULK ->
  (close = false -> st <> SLAVE_STATE_WAIT_BGSAVE_START -> is_Some told) -> (st = SLAVE_STATE_WAIT_BGSAVE_START -> told = None) ->
  (forall o, told = Some o -> o = base + Z.of_nat (length h)) ->
  replica_ok h h base l (Replica c st rdb false close None 0 0 told []).
Proof.
  intros H1 H2 H3 H4 H5 H6 H7. split; cbn; try done.
  - intros H. split; [done|]. split; [done|]. by apply H6.
  - intros [H|H]; done.
  - intros o _ Ho. rewrite (H7 o Ho). split; [lia|]. cbn. by rewrite drop_ge by lia.
Qed.

Lemma wp_partial h base s bl c rdb id p sent (Q : bool -> rstate -> Prop) : stream_ok h base s bl -> find_replica (slaves s) c = None ->
  (~ psync_possible s id p -> Q false s) ->
  (psync_possible s id p -> forall s' r, stream_ok h base s' bl -> kept_but_slaves s s' -> slaves s' = slaves s ++ [r] ->
     resumed c p rdb sent r -> Q true s') ->
  wp (masterTryPartialResynchronization c rdb id p sent) s Q.
Proof.
  intros Hs Hf HF HT. pose proof Hs as [[B _] _]. apply wp_bind, wp_get.
  destruct (negb (id =? replid s) && (negb (id =? replid2 s) || (second_replid_offset s <? p))) eqn:Hid.
  { apply wp_ret, HF. intros [H _]. lia. }
  rewrite (bo_backlog _ _ _ _ _ _ B). destruct ((p <? bl_offset bl) || (bl_offset bl + histlen bl <? p)) eqn:Hp.
  { apply wp_ret, HF. intros (_ & bl' & E & H). rewrite (bo_backlog _ _ _ _ _ _ B) in E. injection E as <-. lia. }
  assert (Hok : psync_possible s id p) by (split; [lia|exists bl; split; [apply B|lia]]). specialize (HT Hok). clear HF.
  apply wp_bind, wp_modify. set (r0 := new_replica c SLAVE_STATE_ONLINE rdb). pose proof (find_replica_snoc (slaves s) r0 Hf) as Hfr.
  apply wp_bind. destruct sent; cbn [negb].
  - apply wp_bind. eapply wp_set_replica; [exact Hfr|]. cbn [slaves with_slaves]. rewrite update_replica_snoc by done.
    apply wp_bind. eapply (wp_addReply h base s bl (set_told (p - 1) r0)); [exact Hs|done|lia|done|]. intros s' r' n H1 H2 H3 H4. apply wp_ret, wp_ret.
    by eapply HT.
  - eapply wp_set_replica; [exact Hfr|]. cbn [slaves with_slaves]. rewrite update_replica_snoc by done. apply wp_ret.
    match goal with |- Q _ ?x => set (s2 := x) end. eapply (HT s2 (set_close_asap r0)); [|done|done|done].
    apply (stream_ok_add h base s bl (set_close_asap r0) s2); [done..|]. by apply new_replica_ok.
Qed.

(** ** Full synchronization *)

(** A replica that waits for the child that saves is told the offset of the RDB file. *)
Lemma setup_replica_ok h base l r (sent : bool) : replica_ok h h base l r -> replstate r = SLAVE_STATE_WAIT_BGSAVE_START ->
  replica_ok h h base l (if sent then set_told (base + Z.of_nat (length h)) (set_replstate SLAVE_STATE_WAIT_BGSAVE_END (set_initial_offset (base + Z.of_nat (length h)) r))
    else set_close_asap (set_replstate SLAVE_STATE_WAIT_BGSAVE_END (set_initial_offset (base + Z.of_nat (length h)) r))).
Proof.
  intros [K1 K2 K3 K4 K5 K6] Hst. destruct (K2 Hst) as (Hn & Hsent & Htold).
  assert (Ht : forall r', r_sent r' = r_sent r -> ref_repl_buf_node r' = ref_repl_buf_node r -> told_ok h h base l r' (base + Z.of_nat (length h))).
  { intros r' E1 E2. split; [lia|]. unfold pending. rewrite E1, E2, Hn, Hsent, drop_ge by lia. done. }
  destruct sent; (split; cbn; try done; try (by rewrite Hn)).
  - intros _. split; [done|]. split; [by intros _; apply Ht|]. split; [by intros o [= <-]|done].
  - intros o _ [= <-]. by apply Ht.
  - split; [done|]. split; [done|]. split; [apply K6|done].
  - intros _. split; [done|]. split; [by intros _; apply Ht|]. split; [|done]. intros o E. congruence.
  - split; [done|]. split; [done|]. split; [apply K6|done].
Qed.

(** What [replicationSetupSlaveForFullResync] does to the replica. *)
Definition set_up (o : Z) (sent : bool) (r : replica) : replica :=
  if sent then set_told o (set_replstate SLAVE_STATE_WAIT_BGSAVE_END (set_initial_offset o r))
  else set_close_asap (set_replstate SLAVE_STATE_WAIT_BGSAVE_END (set_initial_offset o r)).

Lemma set_up_id o sent r : r_id (set_up o sent r) = r_id r.
Proof. by destruct sent. Qed.
Lemma set_up_ref o sent r : ref_repl_buf_node (set_up o sent r) = ref_repl_buf_node r.
Proof. by destruct sent. Qed.

Lemma find_replica_update l c f r : (forall x, r_id (f x) = r_id x) -> find_replica l c = Some r -> find_replica (update_replica c f l) c = Some (f r).
Proof.
  intros Hf. induction l as [|x l IH]; [done|]. cbn [find_replica update_replica map]. fold (update_replica c f l).
  destruct (Z.eqb_spec (r_id x) c) as [E|E]; [rewrite Hf, E, Z.eqb_refl; congruence|]. rewrite (proj2 (Z.eqb_neq _ _)) by done. exact IH.
Qed.

Lemma wp_setup_one s c o sent r (Q : bool -> rstate -> Prop) : find_replica (slaves s) c = Some r ->
  Q sent (with_slaves (update_replica c (set_up o sent) (slaves s)) (with_slaveseldb (-1) s)) ->
  wp (replicationSetupSlaveForFullResync c o sent) s Q.
Proof.
  intros Hf HQ. apply wp_bind. eapply wp_set_replica; [exact Hf|]. apply wp_bind, wp_modify.
  destruct sent; (apply wp_bind; eapply wp_set_replica; [cbn; apply find_replica_update; [done|exact Hf]|]; apply wp_ret);
    cbn [slaves with_slaves with_slaveseldb]; rewrite update_replica_compose by done; exact HQ.
Qed.

Lemma wp_setup_slaves h base e l : forall s bl (Q : unit -> rstate -> Prop), stream_ok h base s bl -> NoDup (r_id <$> l) ->
  (forall r, r ∈ l -> r ∈ slaves s) ->
  (forall s', stream_ok h base s' bl -> kept_but_slaves s s' -> r_id <$> slaves s' = r_id <$> slaves s -> Q tt s') -> wp (setup_slaves e l) s Q.
Proof.
  induction l as [|r l IH]; intros s bl Q Hs Hnd Hin HQ; [by apply wp_ret, HQ|]. cbn in Hnd. apply NoDup_cons in Hnd as [Hr Hnd].
  pose proof Hs as [[B _] _]. pose proof (bo_slaves _ _ _ _ _ _ B) as HndL. assert (Hrs : r ∈ slaves s) by (apply Hin; by left).
  cbn [setup_slaves]. apply wp_bind. destruct (bool_decide (replstate r = SLAVE_STATE_WAIT_BGSAVE_START) && req_matches e (r_id r)) eqn:Hc.
  - apply andb_true_iff in Hc as [Hst _]. apply bool_decide_eq_true in Hst. apply wp_bind, wp_bind, wp_get, wp_ret, wp_bind.
    eapply wp_setup_one; [by apply find_replica_elem|]. apply wp_ret. set (f := set_up _ _). match goal with |- wp _ ?x _ => set (s1 := x) end.
    assert (Hf : forall x, r_id (f x) = r_id x) by (intros x; apply set_up_id).
    assert (H1 : stream_ok h base s1 bl).
    { eapply stream_ok_slaves; [exact Hs|done..| | |].
      - intros n. cbn. rewrite refs_update by done. unfold f. rewrite set_up_ref. lia.
      - cbn. by rewrite update_replica_ids.
      - intros x Hx. eapply update_replica_in in Hx as [->|[Hx _]]; [|by apply (bo_replicas _ _ _ _ _ _ B)|done|exact Hrs|done].
        pose proof (setup_replica_ok h base _ r (writable e (r_id r)) (bo_replicas _ _ _ _ _ _ B r Hrs) Hst) as H.
        unfold f, set_up. pose proof (bo_hist _ _ _ _ _ _ B). replace (master_repl_offset s) with (base + Z.of_nat (length h)) by lia. exact H. }
    eapply IH; [exact H1|done| |].
    + intros x Hx. apply update_replica_other; [apply Hin; by right|]. intros E. apply Hr. rewrite <- E. by apply list_elem_of_fmap_2.
    + intros s' H2 K2 E2. apply HQ; [done|by transitivity s1|]. rewrite E2. cbn. by apply update_replica_ids.
  - apply wp_ret. eapply IH; [exact Hs|done|intros x Hx; apply Hin; by right|done].
Qed.

Lemma wp_startBgsave h base e s bl (Q : bool -> rstate -> Prop) : stream_ok h base s bl ->
  (forall s' ok, stream_ok h base s' bl -> kept_but_slaves s s' -> Q ok s') -> wp (startBgsaveForReplication e) s Q.
Proof.
  intros Hs HQ. pose proof Hs as [[B _] _]. pose proof (bo_slaves _ _ _ _ _ _ B) as HndL. unfold startBgsaveForReplication. destruct (bgsave_ok e).
  - apply wp_bind, wp_get, wp_bind. eapply wp_setup_slaves; [exact Hs|done|done|]. intros s' H1 K1 _. by apply wp_ret, HQ.
  - apply wp_bind, wp_modify, wp_ret. match goal with |- Q _ ?x => set (s1 := x) end. apply HQ; [|done].
    eapply (stream_ok_slaves _ _ _ _ (slaves s1) s1); [exact Hs|done..| | |].
    + intros n. unfold s1. cbn. pose proof (bo_replicas _ _ _ _ _ _ B) as K. clear -K. induction (slaves s) as [|r l IH]; [done|].
      rewrite filter_cons. destruct (decide _) as [Hd|Hd]; cbn; rewrite IH by (intros x Hx; apply K; by right); [done|].
      destruct (decide (replstate r = SLAVE_STATE_WAIT_BGSAVE_START)) as [E|]; [|done].
      destruct (rk_start _ _ _ _ _ (K r ltac:(by left)) E) as (-> & _). unfold ind. rewrite decide_False by done. lia.
    + by apply NoDup_ids_filter.
    + intros x [_ Hx]%list_elem_of_filter. by apply (bo_replicas _ _ _ _ _ _ B).
Qed.

(** * SYNC and PSYNC as a whole, the end of a transfer, and the end of the backlog *)

(** The place of a replica in the blocks. *)
Definition at_place (n : option Z) (pos : Z) (c : Z) (rdb : bool) : replica := set_ref n pos (new_replica c SLAVE_STATE_WAIT_BGSAVE_START rdb).

(** A replica that shares the RDB file of another is at the same place of the stream. *)
Lemma shared_ok h base l src c (rdb sent : bool) n pos : replica_ok h h base l src -> replstate src = SLAVE_STATE_WAIT_BGSAVE_END ->
  (if rdb then n = None else rdbonly src = false /\ n = ref_repl_buf_node src /\ (n <> None -> pos = ref_block_pos src)) ->
  replica_ok h h base l (set_up (psync_initial_offset src) sent (at_place n pos c rdb)).
Proof.
  intros [K1 K2 K3 K4 K5 K6] Hst Hn. destruct (K3 (or_introl Hst)) as (H1 & H2 & H3 & H4).
  assert (Hpos : forall m, n = Some m -> ref_repl_buf_node src = Some m /\ pos = ref_block_pos src).
  { intros m ->. destruct rdb; [done|]. destruct Hn as (_ & <- & Hn). split; [done|by apply Hn]. }
  assert (Ht : rdb = false -> forall r, r_sent r = [] -> ref_repl_buf_node r = n -> ref_block_pos r = pos -> told_ok h h base l r (psync_initial_offset src)).
  { intros -> r E1 E2 E3. destruct Hn as (Hr & E & Hp). destruct (H2 Hr) as [H5 H6]. split; [done|].
    rewrite E1, E2. rewrite H1 in H6. unfold pending in *. rewrite E2, E3. rewrite <- E in H6. destruct n as [m|]; [|exact H6].
    rewrite (Hp ltac:(done)). exact H6. }
  destruct sent; (split; cbn; try done).
  - intros m E. destruct (Hpos m E) as [E1 E2]. rewrite E2. by apply K1.
  - intros _. split; [done|]. split; [intros Hr; by apply Ht|]. split; [by intros o [= <-]|]. intros ->. exact Hn.
  - intros o Hr [= <-]. by apply Ht.
  - intros m E. destruct (Hpos m E) as [E1 E2]. rewrite E2. by apply K1.
  - intros _. split; [done|]. split; [intros Hr; by apply Ht|]. split; [done|]. intros ->. exact Hn.
Qed.

Lemma attachable_found rdb l src : find (attachable rdb) l = Some src ->
  src ∈ l /\ replstate src = SLAVE_STATE_WAIT_BGSAVE_END /\ (rdb = false -> rdbonly src = false).
Proof.
  intros [Hin H]%find_some. split; [by apply list_elem_of_In|]. unfold attachable in H. apply andb_true_iff in H as [H1 H2].
  apply bool_decide_eq_true in H1. split; [done|]. intros ->. by destruct (rdbonly src).
Qed.

(** The new replica shares the RDB file that is being saved. *)
Lemma wp_share h base s bl r0 src rdb sent (Q : unit -> rstate -> Prop) : stream_ok h base s bl -> r0 ∈ slaves s ->
  r0 = new_replica (r_id r0) SLAVE_STATE_WAIT_BGSAVE_START rdb -> src ∈ slaves s -> replstate src = SLAVE_STATE_WAIT_BGSAVE_END ->
  (rdb = false -> rdbonly src = false) ->
  (forall s', stream_ok h base s' bl -> kept_but_slaves s s' -> r_id <$> slaves s' = r_id <$> slaves s -> Q tt s') ->
  wp ((if rdb then mret tt else copyReplicaOutputBuffer (r_id r0) (r_id src));;
      _ ← replicationSetupSlaveForFullResync (r_id r0) (psync_initial_offset src) sent; mret tt) s Q.
Proof.
  intros Hs Hr0 E0 Hsrc Hst Hrdb HQ. pose proof Hs as [[B _] _]. pose proof (bo_slaves _ _ _ _ _ _ B) as HndL.
  pose proof (find_replica_elem _ _ HndL Hr0) as Hf0. pose proof (find_replica_elem _ _ HndL Hsrc) as Hfs.
  pose proof (bo_replicas _ _ _ _ _ _ B src Hsrc) as K. set (c := r_id r0) in *.
  (* without a place in the blocks *)
  assert (Hnone : (if rdb then True else ref_repl_buf_node src = None) ->
    wp (_ ← replicationSetupSlaveForFullResync c (psync_initial_offset src) sent; mret tt) s Q).
  { intros Hn. apply wp_bind. eapply wp_setup_one; [exact Hf0|]. apply wp_ret. set (f := set_up _ _). match goal with |- Q _ ?x => set (s1 := x) end.
    assert (Hid : forall x, r_id (f x) = r_id x) by (intros x; apply set_up_id).
    apply HQ; [|done|by apply update_replica_ids]. eapply stream_ok_slaves; [exact Hs|done..| | |].
    - intros n. cbn. unfold c. rewrite refs_update by done. unfold f. rewrite set_up_ref. lia.
    - cbn. by rewrite update_replica_ids.
    - intros x Hx. eapply update_replica_in in Hx as [->|[Hx _]]; [|by apply (bo_replicas _ _ _ _ _ _ B)|done|exact Hr0|done].
      rewrite E0. apply (shared_ok h base _ src c rdb sent None 0); [done|done|]. destruct rdb; [done|]. split; [by apply Hrdb|]. by rewrite Hn. }
  apply wp_bind. destruct rdb; [by apply wp_ret, Hnone|]. eapply wp_bind, wp_get_replica; [exact Hfs|].
  destruct (ref_repl_buf_node src) as [n|] eqn:Hn; [|by apply wp_ret, Hnone]. clear Hnone.
  destruct (rk_pos _ _ _ _ _ K n Hn) as (b & Hb & <- & Hpos). apply wp_bind. eapply wp_set_replica; [exact Hf0|].
  eapply wp_set_block; [apply find_block_elem; [apply B|exact Hb]|]. apply wp_bind.
  eapply wp_setup_one; [cbn; apply find_replica_update; [done|exact Hf0]|]. apply wp_ret. cbn [slaves with_slaves with_blocks with_slaveseldb].
  rewrite update_replica_compose by done. match goal with |- Q _ ?x => set (s1 := x) end.
  apply HQ; [|done|by apply update_replica_ids; intros x; rewrite set_up_id].
  set (f := λ r, set_up (psync_initial_offset src) sent (set_ref (Some (b_id b)) (ref_block_pos src) r)).
  apply (buffer_attach h base s bl r0 f (b_id b) s1); try done; [by rewrite E0|unfold f; by rewrite set_up_ref|intros x; unfold f; by rewrite set_up_id|].
  unfold f. rewrite E0. apply (shared_ok h base _ src c false sent (Some (b_id b)) (ref_block_pos src)); [done|done|]. split; [by apply Hrdb|]. by rewrite Hn.
Qed.

(** What SYNC does when the client is in the list of replicas. *)
Lemma wp_sync_rest h base e s bl c rdb (Q : unit -> rstate -> Prop) : stream_ok h base s bl ->
  new_replica c SLAVE_STATE_WAIT_BGSAVE_START rdb ∈ slaves s ->
  (forall s', stream_ok h base s' bl -> kept_but_slaves s s' -> Q tt s') ->
  wp (if child_disk e then
        match find (attachable rdb) (slaves s) with
        | Some src =>
            if accepts e c (r_id src) then
              (if rdb then mret tt else copyReplicaOutputBuffer c (r_id src));;
              _ ← replicationSetupSlaveForFullResync c (psync_initial_offset src) (writable e c); mret tt
            else mret tt
        | None => mret tt
        end
      else if child_socket e then mret tt
      else if delayed e then mret tt
      else if other_child e then mret tt
      else _ ← startBgsaveForReplication e; mret tt) s Q.
Proof.
  intros Hs Hin HQ. destruct (child_disk e).
  - destruct (find _ _) as [src|] eqn:Hf; [|by apply wp_ret, HQ]. destruct (attachable_found _ _ _ Hf) as (H1 & H2 & H3).
    destruct (accepts e c (r_id src)); [|by apply wp_ret, HQ].
    apply (wp_share h base s bl (new_replica c SLAVE_STATE_WAIT_BGSAVE_START rdb) src rdb (writable e c)); try done.
    intros s' A1 A2 _. by apply HQ.
  - destruct (child_socket e); [by apply wp_ret, HQ|]. destruct (delayed e); [by apply wp_ret, HQ|]. destruct (other_child e); [by apply wp_ret, HQ|].
    apply wp_bind. eapply wp_startBgsave; [exact Hs|]. intros s' ok A1 A2. by apply wp_ret, HQ.
Qed.

Lemma new_waiting_ok h base l c rdb : replica_ok h h base l (new_replica c SLAVE_STATE_WAIT_BGSAVE_START rdb).
Proof. by apply new_replica_ok. Qed.

Lemma wp_sync h base e s bl c rdb psync (Q : unit -> rstate -> Prop) : stream_ok h base s bl ->
  (forall s', stream_ok h base s' bl -> kept_but_slaves s s' -> Q tt s') -> wp (syncCommand e c rdb psync) s Q.
Proof.
  intros Hs HQ. pose proof Hs as [[B _] _]. apply wp_bind, wp_get. case_bool_decide as Hf; [by apply wp_ret, HQ|].
  assert (Hc : find_replica (slaves s) c = None) by (destruct (find_replica (slaves s) c); [by destruct Hf|done]). apply wp_bind.
  assert (Hfull : wp (modify (λ s, with_slaves (slaves s ++ [new_replica c SLAVE_STATE_WAIT_BGSAVE_START rdb]) s);;
      s ← get;
      (if bool_decide (length (slaves s) = 1%nat) && bool_decide (repl_backlog s = None) then
         changeReplicationId (fresh_id e);; clearReplicationId2;; createReplicationBacklog
       else mret tt);;
      if child_disk e then
        match find (attachable rdb) (slaves s) with
        | Some src =>
            if accepts e c (r_id src) then
              (if rdb then mret tt else copyReplicaOutputBuffer c (r_id src));;
              _ ← replicationSetupSlaveForFullResync c (psync_initial_offset src) (writable e c); mret tt
            else mret tt
        | None => mret tt
        end
      else if child_socket e then mret tt
      else if delayed e then mret tt
      else if other_child e then mret tt
      else _ ← startBgsaveForReplication e; mret tt) s Q).
  { apply wp_bind, wp_modify, wp_bind, wp_get. match goal with |- wp _ ?x _ => set (s1 := x) end.
    rewrite (bool_decide_eq_false_2 (repl_backlog s1 = None)) by (unfold s1; cbn; by rewrite (bo_backlog _ _ _ _ _ _ B)).
    rewrite andb_false_r. apply wp_bind, wp_ret. apply (wp_sync_rest h base e s1 bl c rdb).
    - apply (stream_ok_add h base s bl (new_replica c SLAVE_STATE_WAIT_BGSAVE_START rdb) s1); try done. apply new_waiting_ok.
    - unfold s1. cbn. apply elem_of_app. right. by left.
    - intros s' H1 K1. apply HQ; [done|]. by transitivity s1. }
  destruct psync as [[id p]|]; [|by apply wp_ret]. eapply wp_partial; [exact Hs|done|by intros _|].
  intros _ s' r H1 K1 _ _. by apply wp_ret, HQ.
Qed.

(** The first replica starts the stream. *)
Lemma wp_sync_first e s c rdb psync (Q : unit -> rstate -> Prop) : no_backlog s ->
  (forall s' bl', stream_ok [] (master_repl_offset s) s' bl' -> master_repl_offset s' = master_repl_offset s ->
     repl_backlog_size s' = repl_backlog_size s -> Q tt s') -> wp (syncCommand e c rdb psync) s Q.
Proof.
  intros (Hb & Hl & Hsl & Hm) HQ. apply wp_bind, wp_get. rewrite Hsl. rewrite bool_decide_eq_false_2 by (by intros []). apply wp_bind.
  eapply wp_mono with (Q := λ p s1, p = false /\ s1 = s).
  { destruct psync as [[id p]|]; [|by apply wp_ret]. apply wp_bind, wp_get. destruct (_ && _); [by apply wp_ret|]. rewrite Hb. by apply wp_ret. }
  intros p s1 [-> ->]. apply wp_bind, wp_modify, wp_bind, wp_get. rewrite Hsl. cbn [app slaves with_slaves length repl_backlog]. rewrite Hb.
  cbn [bool_decide Nat.eq_dec]. rewrite !bool_decide_eq_true_2 by done. cbn [andb].
  apply wp_bind, wp_bind, wp_modify, wp_bind, wp_modify, wp_bind, wp_get. cbn [repl_backlog with_ids with_slaves]. rewrite Hb. apply wp_set_backlog.
  match goal with |- wp _ ?x _ => set (s2 := x) end. set (bl := Backlog None 0 [] 0 (master_repl_offset s + 1)).
  apply (wp_sync_rest [] (master_repl_offset s) e s2 bl c rdb).
  - split; [|cbn; lia]. split; [|cbn; by rewrite Hl]. split; unfold s2; cbn; rewrite ?Hl; try done.
    + lia.
    + by exists [].
    + constructor.
    + intros b Hb'. by apply not_elem_of_nil in Hb'.
    + by exists [].
    + intros b Hb'. by apply not_elem_of_nil in Hb'.
    + constructor.
    + intros k n Hk. by apply not_elem_of_nil in Hk.
    + apply NoDup_singleton.
    + intros r ->%list_elem_of_singleton. apply new_waiting_ok.
  - unfold s2. cbn. by left.
  - intros s' H1 [K1 _ K3]. by eapply HQ.
Qed.

(** ** The end of a transfer *)

(** Only the flags and the state of a replica that has been told its offset change. *)
Lemma replica_ok_state h base l r f : replica_ok h h base l r -> replstate r <> SLAVE_STATE_WAIT_BGSAVE_START ->
  r_id (f r) = r_id r -> rdbonly (f r) = rdbonly r -> ref_repl_buf_node (f r) = ref_repl_buf_node r -> ref_block_pos (f r) = ref_block_pos r ->
  r_told (f r) = r_told r -> r_sent (f r) = r_sent r -> psync_initial_offset (f r) = psync_initial_offset r ->
  replstate (f r) <> SLAVE_STATE_WAIT_BGSAVE_START -> replstate (f r) <> REPL_STATE_NONE ->
  (replstate (f r) = SLAVE_STATE_WAIT_BGSAVE_END \/ replstate (f r) = SLAVE_STATE_SEND_BULK ->
     replstate r = SLAVE_STATE_WAIT_BGSAVE_END \/ replstate r = SLAVE_STATE_SEND_BULK) ->
  (replstate (f r) = SLAVE_STATE_RDB_TRANSMITTED -> rdbonly r = true) -> (start_on_ack (f r) = true -> rdbonly r = false) ->
  (close_asap (f r) = false -> close_asap r = false) -> replica_ok h h base l (f r).
Proof.
  intros [K1 K2 K3 K4 K5 K6] Hst E1 E2 E3 E4 E5 E6 E7 E8 E9 E10 E11 E12 E13.
  assert (Ht : forall o, told_ok h h base l r o -> told_ok h h base l (f r) o) by (intros o; unfold told_ok, pending; by rewrite E3, E4, E6).
  split; rewrite ?E2, ?E3, ?E4, ?E5, ?E6, ?E7; try done.
  - intros Hs. destruct (K3 (E10 Hs)) as (H1 & H2 & H3). split; [done|]. split; [|done]. intros Hr. by apply Ht, H2.
  - intros o H1 H2. by apply Ht, K4.
  - intros H1 _. apply K5; [by apply E13|done].
Qed.

(** A replica goes online, or, if it wants the RDB file only, is done. *)
Lemma wp_putOnline h base s bl r (Q : bool -> rstate -> Prop) : stream_ok h base s bl -> r ∈ slaves s ->
  replstate r = SLAVE_STATE_WAIT_BGSAVE_END \/ replstate r = SLAVE_STATE_SEND_BULK ->
  (forall s' r', stream_ok h base s' bl -> kept_but_slaves s s' -> slaves s' = update_replica (r_id r) (set_replstate (replstate r')) (slaves s) ->
     r' = set_replstate (replstate r') r -> r' ∈ slaves s' -> replica_ok h h base (repl_buffer_blocks s') r' ->
     replstate r' = (if rdbonly r then SLAVE_STATE_RDB_TRANSMITTED else SLAVE_STATE_ONLINE) -> Q (negb (rdbonly r)) s') ->
  wp (replicaPutOnline (r_id r)) s Q.
Proof.
  intros Hs Hr Hst HQ. pose proof Hs as [[B _] _]. pose proof (bo_replicas _ _ _ _ _ _ B r Hr) as K.
  eapply wp_bind, wp_get_replica; [apply find_replica_elem; [apply B|done]|].
  destruct (rdbonly r) eqn:Hrdb; apply wp_bind; (eapply wp_set_replica_ok; [exact Hs|done|done|done| |]);
    try (eapply replica_ok_state; [exact K|by destruct Hst as [-> | ->]|done..|by intros [?|?]|done|apply K|done]).
  - intros s' H1 K1 E1 E2. apply wp_ret. eapply (HQ s' (set_replstate SLAVE_STATE_RDB_TRANSMITTED r)); try done.
    + rewrite E1. by apply update_replica_new.
    + destruct H1 as [[B1 _] _]. apply (bo_replicas _ _ _ _ _ _ B1). rewrite E1. by apply update_replica_new.
  - intros s' H1 K1 E1 E2. apply wp_ret. eapply (HQ s' (set_replstate SLAVE_STATE_ONLINE r)); try done.
    + rewrite E1. by apply update_replica_new.
    + destruct H1 as [[B1 _] _]. apply (bo_replicas _ _ _ _ _ _ B1). rewrite E1. by apply update_replica_new.
Qed.

(** The flags of a replica that has been told its offset. *)
Lemma wp_set_flags h base s bl r f (Q : unit -> rstate -> Prop) : stream_ok h base s bl -> r ∈ slaves s -> replstate r <> SLAVE_STATE_WAIT_BGSAVE_START ->
  (f = set_close_asap \/ f = set_start_on_ack false \/ f = set_start_on_ack true /\ rdbonly r = false) ->
  (forall s', stream_ok h base s' bl -> kept_but_slaves s s' -> slaves s' = update_replica (r_id r) f (slaves s) -> Q tt s') ->
  wp (set_replica (r_id r) f) s Q.
Proof.
  intros Hs Hr Hst Hf HQ. pose proof Hs as [[B _] _]. pose proof (bo_replicas _ _ _ _ _ _ B r Hr) as K.
  pose proof (rk_state _ _ _ _ _ K) as (S1 & S2 & S3 & S4).
  eapply wp_set_replica_ok; [exact Hs|done| | | |intros; by apply HQ].
  - by destruct Hf as [->|[->|[-> _]]].
  - by destruct Hf as [->|[->|[-> _]]].
  - destruct Hf as [->|[->|[-> Hrdb]]]; (eapply replica_ok_state; [exact K|done..]).
Qed.

Lemma wp_update_waiting h base ok socket opens l : forall s bl (Q : unit -> rstate -> Prop), stream_ok h base s bl -> NoDup (r_id <$> l) ->
  (forall r, r ∈ l -> r ∈ slaves s) ->
  (forall s', stream_ok h base s' bl -> kept_but_slaves s s' -> Q tt s') -> wp (update_waiting ok socket opens l) s Q.
Proof.
  induction l as [|r l IH]; intros s bl Q Hs Hnd Hin HQ; [by apply wp_ret, HQ|]. cbn in Hnd. apply NoDup_cons in Hnd as [Hr Hnd].
  pose proof Hs as [[B _] _]. assert (Hrs : r ∈ slaves s) by (apply Hin; by left). pose proof (bo_replicas _ _ _ _ _ _ B r Hrs) as K.
  assert (Hstep : forall s1 f, (forall x, r_id (f x) = r_id x) -> stream_ok h base s1 bl -> kept_but_slaves s s1 ->
    slaves s1 = update_replica (r_id r) f (slaves s) -> wp (update_waiting ok socket opens l) s1 Q).
  { intros s1 f Hf H1 K1 E1. apply (IH s1 bl); [done|done| |intros s' H2 K2; apply HQ; [done|by transitivity s1]].
    intros x Hx. rewrite E1. apply update_replica_other; [apply Hin; by right|]. intros E. apply Hr. rewrite <- E. by apply list_elem_of_fmap_2. }
  cbn [update_waiting]. apply wp_bind. case_bool_decide as Hst; [|apply wp_ret, (IH s bl); [done|done|intros x Hx; apply Hin; by right|done]].
  destruct ok; cbn [negb].
  - destruct socket.
    + apply wp_bind. eapply wp_putOnline; [exact Hs|done|by left|]. intros s1 r' H1 K1 E1 Er' Hin' Hok Hst'.
      assert (Eid : r_id r' = r_id r) by by rewrite Er'. rewrite <- Eid. destruct (rdbonly r) eqn:Hrdb; cbn [negb].
      * eapply wp_set_flags; [exact H1|done|by rewrite Hst'|by left|]. intros s2 H2 K2 E2. eapply (Hstep s2 (λ x, set_close_asap (set_replstate (replstate r') x))).
        -- done.
        -- done.
        -- by transitivity s1.
        -- by rewrite E2, E1, Eid, update_replica_compose.
      * eapply wp_set_flags; [exact H1|done|by rewrite Hst'|right; right; split; [done|by rewrite Er']|]. intros s2 H2 K2 E2.
        eapply (Hstep s2 (λ x, set_start_on_ack true (set_replstate (replstate r') x))).
        -- done.
        -- done.
        -- by transitivity s1.
        -- by rewrite E2, E1, Eid, update_replica_compose.
    + destruct (opens (r_id r)); cbn [negb]; [|eapply wp_set_flags; [exact Hs|done|by rewrite Hst|by left|]; intros s1 H1 K1 E1; by apply (Hstep s1 set_close_asap)].
      eapply wp_set_replica_ok; [exact Hs|done|done|done| |intros s1 H1 K1 E1 _; by apply (Hstep s1 (set_replstate SLAVE_STATE_SEND_BULK))].
      eapply replica_ok_state; [exact K|by rewrite Hst|done..|by intros _; left|done|apply (rk_state _ _ _ _ _ K)|done].
  - eapply wp_set_flags; [exact Hs|done|by rewrite Hst|by left|]. intros s1 H1 K1 E1. by apply (Hstep s1 set_close_asap).
Qed.

Lemma wp_bulk_sent h base s bl r (Q : unit -> rstate -> Prop) : stream_ok h base s bl -> r ∈ slaves s -> replstate r = SLAVE_STATE_SEND_BULK ->
  (forall s' bl', stream_ok h base s' bl' -> kept_but_slaves s s' -> Q tt s') -> wp (bulk_sent (r_id r)) s Q.
Proof.
  intros Hs Hr Hst HQ. apply wp_bind. eapply wp_putOnline; [exact Hs|done|by right|]. intros s1 r' H1 K1 E1 Er' Hin' Hok Hst'.
  assert (Eid : r_id r' = r_id r) by by rewrite Er'. rewrite <- Eid. destruct (rdbonly r) eqn:Hrdb; cbn [negb].
  - eapply wp_freeClient; [exact H1|done|]. intros s2 bl2 H2 K2 _. eapply HQ; [exact H2|by transitivity s1].
  - pose proof H1 as [[B1 _] _]. eapply wp_bind, wp_get_replica; [apply find_replica_elem; [apply B1|done]|].
    assert (rdbonly r' = false) as -> by by rewrite Er'.
    eapply wp_set_flags; [exact H1|done|by rewrite Hst'|right; by left|]. intros s2 H2 K2 _. eapply HQ; [exact H2|by transitivity s1].
Qed.

Lemma wp_ack h base s bl r (Q : unit -> rstate -> Prop) : stream_ok h base s bl -> r ∈ slaves s ->
  (forall s', stream_ok h base s' bl -> kept_but_slaves s s' -> Q tt s') -> wp (replconf_ack (r_id r)) s Q.
Proof.
  intros Hs Hr HQ. pose proof Hs as [[B _] _]. pose proof (bo_replicas _ _ _ _ _ _ B r Hr) as K.
  pose proof (rk_state _ _ _ _ _ K) as (_ & _ & Hack & _).
  assert (Hf : find_replica (slaves s) (r_id r) = Some r) by (apply find_replica_elem; [apply B|done]).
  eapply wp_bind, wp_get_replica; [exact Hf|]. destruct (start_on_ack r); cbn [andb]; [|by apply wp_ret, HQ].
  case_bool_decide as Hst; [|by apply wp_ret, HQ]. eapply wp_bind, wp_get_replica; [exact Hf|]. rewrite Hack by done.
  eapply wp_set_flags; [exact Hs|done|by rewrite Hst|right; by left|]. intros s' H1 K1 _. by apply HQ.
Qed.

(** REPLCONF RDB-ONLY of a replica for which no RDB file is being saved yet, or that has the
    flag already. *)
Lemma wp_rdb_only h base s bl r x (Q : unit -> rstate -> Prop) : stream_ok h base s bl -> r ∈ slaves s ->
  replstate r = SLAVE_STATE_WAIT_BGSAVE_START \/ rdbonly r = x ->
  (forall s', stream_ok h base s' bl -> Q tt s') -> wp (replconf_rdb_only (r_id r) x) s Q.
Proof.
  intros Hs Hr Hx HQ. pose proof Hs as [[B _] _]. pose proof (bo_replicas _ _ _ _ _ _ B r Hr) as K.
  eapply wp_set_replica_ok; [exact Hs|done|done|done| |intros; by apply HQ]. destruct Hx as [Hst| <-]; [|by destruct r].
  destruct K as [K1 K2 K3 K4 K5 (S1 & S2 & S3 & S4)]. destruct (K2 Hst) as (H1 & H2 & H3).
  split; cbn; rewrite ?H1, ?H3, ?Hst, ?S4; try done. by intros [?|?].
Qed.

(** ** The size and the end of the backlog *)

Lemma stream_ok_size h base s bl n : stream_ok h base s bl -> stream_ok h base (with_backlog_size n s) bl.
Proof. intros [[[] BR] Ho]. by split; [split; [split|]|]. Qed.

Lemma wp_resize h base s bl (Q : unit -> rstate -> Prop) : stream_ok h base s bl ->
  (forall s' bl', stream_ok h base s' bl' -> master_repl_offset s' = master_repl_offset s -> CONFIG_REPL_BACKLOG_MIN_SIZE <= repl_backlog_size s' ->
     Q tt s') -> wp resizeReplicationBacklog s Q.
Proof.
  intros Hs HQ. apply wp_bind, wp_get, wp_bind. pose proof Hs as [[B _] _].
  eapply wp_mono with (Q := λ _ s1, stream_ok h base s1 bl /\ master_repl_offset s1 = master_repl_offset s /\ CONFIG_REPL_BACKLOG_MIN_SIZE <= repl_backlog_size s1).
  - destruct (Z.ltb_spec (repl_backlog_size s) CONFIG_REPL_BACKLOG_MIN_SIZE).
    + apply wp_modify. split; [by apply stream_ok_size|]. split; [done|]. cbn. lia.
    + by apply wp_ret.
  - intros [] s1 (H1 & E1 & Hsz). rewrite (bo_backlog _ _ _ _ _ _ B). eapply wp_trim; [exact (proj1 H1)|]. intros s2 bl2 T K.
    eapply HQ; [unfold stream_ok; rewrite (kp_slaves _ _ K); exact T|by rewrite (kp_offset _ _ K)|by rewrite (kp_size _ _ K)].
Qed.

Lemma wp_expire h base e s bl (Q : unit -> rstate -> Prop) : stream_ok h base s bl ->
  (forall s', (exists bl', stream_ok h base s' bl') \/ no_backlog s' -> master_repl_offset s' = master_repl_offset s -> Q tt s') ->
  wp (expire_backlog e) s Q.
Proof.
  intros Hs HQ. apply wp_bind, wp_get. case_bool_decide as Hsl; cbn [andb]; [|apply wp_ret, HQ; [left; by exists bl|done]].
  pose proof Hs as [[B _] _]. rewrite bool_decide_eq_true_2 by (by rewrite (bo_backlog _ _ _ _ _ _ B)).
  apply wp_bind, wp_modify, wp_bind, wp_modify. match goal with |- wp _ ?x _ => set (s1 := x) end.
  apply (wp_freeBacklog h base s1 bl); [|done|].
  - apply (stream_ok_slaves h base s bl (slaves s) s1); try done; apply B.
  - intros s' H1 [K1 _ _]. apply HQ; [by right|exact K1].
Qed.

(** ** The server as a replica *)

Lemma wp_create s (Q : unit -> rstate -> Prop) : no_backlog s ->
  (forall s' bl', stream_ok [] (master_repl_offset s) s' bl' -> kept_but_slaves s s' -> slaves s' = [] -> Q tt s') -> wp createReplicationBacklog s Q.
Proof.
  intros (Hb & Hl & Hsl & Hm) HQ. apply wp_bind, wp_get. rewrite Hb. apply wp_set_backlog.
  match goal with |- Q _ ?x => set (s2 := x) end. set (bl := Backlog None 0 [] 0 (master_repl_offset s + 1)).
  apply (HQ s2 bl); [|done|done]. split; [|cbn; lia]. split; [|cbn; by rewrite Hl]. split; unfold s2; cbn; rewrite ?Hl, ?Hsl; try done.
  - lia.
  - by exists [].
  - constructor.
  - intros b Hb'. by apply not_elem_of_nil in Hb'.
  - by exists [].
  - intros b Hb'. by apply not_elem_of_nil in Hb'.
  - constructor.
  - intros k n Hk. by apply not_elem_of_nil in Hk.
  - constructor.
  - intros r Hr. by apply not_elem_of_nil in Hr.
Qed.

(** A state with the stream, or with neither backlog nor replicas. *)
Definition streaming (h : bytes) (base : Z) (s : rstate) : Prop := exists bl, stream_ok h base s bl.

Lemma streaming_flags h base s s' : streaming h base s -> slaves s' = slaves s -> repl_buffer_blocks s' = repl_buffer_blocks s ->
  repl_block_id s' = repl_block_id s -> repl_buffer_mem s' = repl_buffer_mem s -> repl_backlog s' = repl_backlog s ->
  master_repl_offset s' = master_repl_offset s -> streaming h base s'.
Proof.
  intros [bl H] E1 E2 E3 E4 E5 E6. exists bl. apply (stream_ok_slaves h base s bl (slaves s) s'); try done; apply (proj1 (proj1 H)).
Qed.

Lemma wp_disconnect h base s (Q : unit -> rstate -> Prop) : streaming h base s \/ no_backlog s ->
  (forall s', (streaming h base s -> streaming h base s') -> (no_backlog s -> no_backlog s') -> kept_but_slaves s s' -> slaves s' = [] -> Q tt s') ->
  wp disconnectSlaves s Q.
Proof.
  intros [[bl H]|H] HQ.
  - eapply wp_disconnectSlaves; [exact H|]. intros s' bl' H1 K1 E1. apply HQ; [intros _; by exists bl'| |done|done].
    intros (E & _). destruct H as [[B _] _]. rewrite (bo_backlog _ _ _ _ _ _ B) in E. done.
  - destruct H as (H1 & H2 & H3 & H4). apply wp_bind, wp_get. rewrite H3. apply wp_ret. by apply HQ.
Qed.

Lemma wp_if_needed h base s (Q : unit -> rstate -> Prop) : streaming h base s \/ no_backlog s ->
  (forall s', (streaming h base s -> streaming h base s') -> (no_backlog s -> streaming [] (master_repl_offset s) s') -> kept_but_slaves s s' -> Q tt s') ->
  wp create_if_needed s Q.
Proof.
  intros [[bl H]|H] HQ; apply wp_bind, wp_get.
  - pose proof H as [[B _] _]. pose proof (bo_backlog _ _ _ _ _ _ B) as E. rewrite E. apply wp_ret, HQ; [done| |done].
    intros (E' & _). congruence.
  - pose proof H as (E & _). rewrite E. eapply wp_create; [exact H|]. intros s' bl' H1 K1 _. apply HQ; [|by exists bl'|done].
    intros [bl [[B _] _]]. pose proof (bo_backlog _ _ _ _ _ _ B). congruence.
Qed.

Lemma wp_unset h base fresh s (Q : unit -> rstate -> Prop) : streaming h base s \/ no_backlog s ->
  (forall s', (streaming h base s -> streaming h base s') -> (no_backlog s -> no_backlog s') -> Q tt s') -> wp (replicationUnsetMaster fresh) s Q.
Proof.
  intros H HQ. apply wp_bind, wp_bind, wp_modify, wp_modify. match goal with |- wp _ ?x _ => set (s1 := x) end.
  assert (H1 : streaming h base s -> streaming h base s1) by (intros Hs; by eapply streaming_flags).
  assert (H2 : no_backlog s -> no_backlog s1) by done.
  apply wp_bind, (wp_disconnect h base); [destruct H; [left|right]; auto|]. intros s2 A1 A2 _ _. apply wp_modify, HQ.
  - intros Hs. by eapply streaming_flags; [apply A1, H1|..].
  - intros Hs. by apply A2, H2.
Qed.

Lemma wp_continue h base cached new s (Q : unit -> rstate -> Prop) : streaming h base s \/ no_backlog s ->
  (forall s', (streaming h base s -> streaming h base s') -> (no_backlog s -> streaming [] (master_repl_offset s') s') -> Q tt s') ->
  wp (psync_continue cached new) s Q.
Proof.
  intros H HQ. apply wp_bind.
  eapply wp_mono with (Q := λ _ s1, (streaming h base s -> streaming h base s1) /\ (no_backlog s -> no_backlog s1)).
  - destruct (_ =? _); cbn [negb]; [by apply wp_ret|]. apply wp_bind, wp_modify. match goal with |- wp _ ?x _ => set (s1 := x) end.
    apply (wp_disconnect h base); [destruct H; [left; by eapply streaming_flags|by right]|]. intros s2 A1 A2 _ _. split; [|done].
    intros Hs. apply A1. by eapply streaming_flags.
  - intros [] s1 [H1 H2]. apply (wp_if_needed h base); [destruct H; [left|right]; auto|]. intros s2 A1 A2 [K2 _ _]. apply HQ; [auto|].
    intros Hs. rewrite K2. auto.
Qed.

Lemma wp_fullsync h base id offset s (Q : unit -> rstate -> Prop) : streaming h base s \/ no_backlog s ->
  (forall s', streaming [] (master_repl_offset s') s' -> slaves s' = [] -> Q tt s') -> wp (readSyncBulkPayload id offset) s Q.
Proof.
  intros H HQ. apply wp_bind, wp_bind, (wp_disconnect h base); [done|]. intros s1 A1 A2 _ Esl.
  eapply wp_mono with (Q := λ _ s2, no_backlog s2).
  - destruct H as [H|H].
    + destruct (A1 H) as [bl1 H1]. eapply wp_freeBacklog; [exact H1|done|]. by intros.
    + pose proof (A2 H) as (E1 & E2 & E3 & E4). apply wp_bind, wp_get. rewrite E3, E1. by apply wp_ret.
  - intros [] s2 (E1 & E2 & E3 & E4). apply wp_bind, wp_modify, wp_bind, wp_modify. match goal with |- wp _ ?x _ => set (s3 := x) end.
    assert (H3 : no_backlog s3) by done. apply wp_bind, wp_get. change (repl_backlog s3) with (repl_backlog s2). rewrite E1.
    eapply wp_create; [exact H3|]. intros s4 bl4 H4 [K4 _ _] E5. apply HQ; [|done]. rewrite K4. by exists bl4.
Qed.
