(* ===== verification/ReplMarks.v ===== *)
(** What the operations do to the selected DB and to the offsets that replicas wait
    for: relations that every operation keeps, whatever state it starts from. *)

From stdpp Require Import list.
From S2P Require Import Prelude State Repl ReplInv ReplFeed ReplSync.

Local Open Scope Z_scope.

(** The offset of the RDB file that a replica waits for. *)
Definition waits_for (s : rstate) (o : Z) : Prop :=
  exists r, r ∈ slaves s /\ replstate r = SLAVE_STATE_WAIT_BGSAVE_END /\ psync_initial_offset r = o.

(** Nothing new to wait for, and the same DB. *)
Definition quiet_db (s s' : rstate) : Prop :=
  slaveseldb s' = slaveseldb s /\ forall o, waits_for s' o -> waits_for s o.
Definition still (s s' : rstate) : Prop := quiet_db s s' /\ master_repl_offset s' = master_repl_offset s.
(** A replica may also wait for the current offset, and then the next command selects
    its DB. *)
Definition calm_db (s s' : rstate) : Prop :=
  (slaveseldb s' = slaveseldb s \/ slaveseldb s' = -1) /\ master_repl_offset s' = master_repl_offset s /\
  forall o, waits_for s' o -> waits_for s o \/ o = master_repl_offset s' /\ slaveseldb s' = -1.

#[export] Instance quiet_db_preorder : PreOrder quiet_db.
Proof. split; [by split|]. intros s1 s2 s3 [A1 A2] [B1 B2]. split; [congruence|]. intros o H. by apply A2, B2. Qed.
#[export] Instance still_preorder : PreOrder still.
Proof. split; [by split|]. intros s1 s2 s3 [A1 A2] [B1 B2]. split; [by transitivity s2|congruence]. Qed.
#[export] Instance calm_db_preorder : PreOrder calm_db.
Proof.
  split; [by split; [left|split; [|left]]|]. intros s1 s2 s3 (A1 & A2 & A3) (B1 & B2 & B3).
  assert (Hdb : slaveseldb s2 = -1 -> slaveseldb s3 = -1) by (intros; destruct B1; congruence).
  split; [destruct B1 as [->|]; [done|by right]|]. split; [congruence|]. intros o H. destruct (B3 o H) as [H2|H2]; [|by right].
  destruct (A3 o H2) as [H1|[-> H1]]; [by left|]. right. split; [congruence|by apply Hdb].
Qed.

Lemma still_quiet s s' : still s s' -> quiet_db s s'.
Proof. by intros []. Qed.
Lemma still_calm s s' : still s s' -> calm_db s s'.
Proof. intros [[H1 H2] H3]. split; [by left|]. split; [done|]. intros o H. left. by apply H2. Qed.

(** Whenever [m] succeeds, the states are related. *)
Definition keeps (K : rstate -> rstate -> Prop) {A} (m : R A) : Prop := forall s a s', m s = Some (a, s') -> K s s'.

Section keeps.
Context (K : rstate -> rstate -> Prop) `{!PreOrder K}.

Lemma keeps_bind {A B} (m : R A) (f : A -> R B) : keeps K m -> (forall a, keeps K (f a)) -> keeps K (m ≫= f).
Proof.
  intros H1 H2 s b s2. unfold mbind, ST_bind. destruct (m s) as [[a s1]|] eqn:E; [|done]. intros E2. transitivity s1; [by eapply H1|by eapply H2].
Qed.
Lemma keeps_ret {A} (a : A) : keeps K (mret a).
Proof. by intros s b s' [= _ <-]. Qed.
Lemma keeps_fail {A} : keeps K (A := A) fail.
Proof. done. Qed.
Lemma keeps_get : keeps K (@get rstate).
Proof. by intros s b s' [= _ <-]. Qed.
Lemma keeps_modify f : (forall s, K s (f s)) -> keeps K (modify f).
Proof. intros H s [] s' [= <-]. apply H. Qed.
End keeps.

Lemma keeps_use {A} K (m : R A) s a s' : keeps K m -> m s = Some (a, s') -> K s s'.
Proof. intros H. apply H. Qed.
Lemma get_bind {A} (f : rstate -> R A) s : (get ≫= f) s = f s s.
Proof. done. Qed.
Lemma bind_Some {A B} (m : R A) (f : A -> R B) s b s' : (m ≫= f) s = Some (b, s') -> exists a s1, m s = Some (a, s1) /\ f a s1 = Some (b, s').
Proof. unfold mbind at 1, ST_bind. destruct (m s) as [[a s1]|]; [|done]. intros H. by exists a, s1. Qed.

Lemma keeps_weaken {A} (K K' : rstate -> rstate -> Prop) (m : R A) : (forall s s', K s s' -> K' s s') -> keeps K m -> keeps K' m.
Proof. intros H Hm s a s' E. by eapply H, Hm. Qed.

(** Changes of replicas that are [still]. *)
Definition keeps_waiting (f : replica -> replica) : Prop :=
  forall r, replstate (f r) = SLAVE_STATE_WAIT_BGSAVE_END -> replstate r = SLAVE_STATE_WAIT_BGSAVE_END /\ psync_initial_offset (f r) = psync_initial_offset r.

Lemma waits_for_update s c f o : keeps_waiting f -> waits_for (with_slaves (update_replica c f (slaves s)) s) o -> waits_for s o.
Proof.
  intros Hf (r & Hr & H1 & H2). cbn in Hr. apply update_replica_elem in Hr as (x & Hx & ->). destruct (_ =? _).
  - destruct (Hf x H1) as [H3 H4]. exists x. split_and!; [done|done|congruence].
  - by exists x.
Qed.

Create HintDb keeps discriminated.

Ltac keeps_step :=
  match goal with
  | |- keeps _ (_ ≫= _) => apply keeps_bind; [typeclasses eauto| |intros ?]
  | |- keeps _ (mret _) => apply keeps_ret; typeclasses eauto
  | |- keeps _ fail => apply keeps_fail
  | |- keeps _ get => apply keeps_get; typeclasses eauto
  | |- keeps _ (modify _) => apply keeps_modify; by intros ?
  | |- keeps _ (match ?x with _ => _ end) => destruct x
  | |- keeps _ _ => solve [eauto with keeps]
  end.
Ltac keeps_auto := repeat (keeps_step; cbv beta).

Lemma still_get_block n : keeps still (get_block n).
Proof. unfold get_block. keeps_auto. Qed.
Lemma still_set_block n f : keeps still (set_block n f).
Proof. unfold set_block. pose proof still_get_block. keeps_auto. Qed.
Lemma still_get_backlog : keeps still get_backlog.
Proof. unfold get_backlog. keeps_auto. Qed.
Lemma still_set_backlog b : keeps still (set_backlog b).
Proof. by apply keeps_modify. Qed.
Lemma still_get_replica c : keeps still (get_replica c).
Proof. unfold get_replica. keeps_auto. Qed.
Lemma still_set_replica c f : keeps_waiting f -> keeps still (set_replica c f).
Proof.
  intros Hf. unfold set_replica. pose proof still_get_replica. keeps_auto. apply keeps_modify. intros s. split; [|done]. split; [done|].
  intros o. by apply waits_for_update.
Qed.
#[export] Hint Resolve still_get_block still_set_block still_get_backlog still_set_backlog still_get_replica : keeps.
#[export] Hint Extern 4 (keeps still (set_replica _ _)) => (apply still_set_replica; by intros ? ?) : keeps.

Lemma waits_for_filter s (P : replica -> Prop) `{!forall r, Decision (P r)} o : waits_for (with_slaves (filter P (slaves s)) s) o -> waits_for s o.
Proof. intros (r & Hr & Hx). cbn in Hr. apply list_elem_of_filter in Hr as [_ Hr]. by exists r. Qed.

Lemma still_filter (P : replica -> Prop) `{!forall r, Decision (P r)} : keeps still (modify (λ s, with_slaves (filter P (slaves s)) s)).
Proof. apply keeps_modify. intros s. split; [|done]. split; [done|]. intros o. apply waits_for_filter. Qed.

(** A client that becomes a replica does not wait yet. *)
Lemma still_add r : replstate r <> SLAVE_STATE_WAIT_BGSAVE_END -> keeps still (modify (λ s, with_slaves (slaves s ++ [r]) s)).
Proof.
  intros Hr. apply keeps_modify. intros s. split; [|done]. split; [done|]. intros o (x & Hx & H1 & H2). cbn in Hx.
  apply elem_of_app in Hx as [Hx|Hx]; [by exists x|]. by apply list_elem_of_singleton in Hx as ->.
Qed.

Lemma still_incr_ref n : keeps still (incr_ref n).
Proof. apply still_set_block. Qed.
Lemma still_decr_ref n : keeps still (decr_ref n).
Proof. apply still_set_block. Qed.
Lemma still_listNextNode n : keeps still (listNextNode n).
Proof. unfold listNextNode. keeps_auto. Qed.
Lemma still_listLast : keeps still listLast.
Proof. unfold listLast. keeps_auto. Qed.
#[export] Hint Resolve still_incr_ref still_decr_ref still_listNextNode still_listLast : keeps.
#[export] Hint Extern 4 (keeps still (modify (λ s, with_slaves (filter _ _) s))) => apply still_filter : keeps.
#[export] Hint Extern 4 (keeps still (modify (λ s, with_slaves (_ ++ _) s))) => (by apply still_add) : keeps.

Lemma still_create : keeps still createReplicationBacklog.
Proof. unfold createReplicationBacklog. keeps_auto. Qed.
Lemma still_free : keeps still freeReplicationBacklog.
Proof. unfold freeReplicationBacklog, resetReplicationBuffer. keeps_auto. Qed.
Lemma still_index n : keeps still (createReplicationBacklogIndex n).
Proof. unfold createReplicationBacklogIndex. keeps_auto. Qed.
Lemma still_trim_blocks fuel : keeps still (trim_blocks fuel).
Proof. induction fuel as [|fuel IH]; cbn [trim_blocks]; keeps_auto. Qed.
#[export] Hint Resolve still_create still_free still_index still_trim_blocks : keeps.
Lemma still_trim n : keeps still (incrementalTrimReplicationBacklog n).
Proof. unfold incrementalTrimReplicationBacklog. keeps_auto. Qed.
#[export] Hint Resolve still_trim : keeps.
Lemma still_resize : keeps still resizeReplicationBacklog.
Proof. unfold resizeReplicationBacklog. keeps_auto. Qed.
Lemma still_freeReplica c : keeps still (freeReplicaReferencedReplBuffer c).
Proof. unfold freeReplicaReferencedReplBuffer. keeps_auto. Qed.
#[export] Hint Resolve still_resize still_freeReplica : keeps.
Lemma still_freeClient c : keeps still (freeClient c).
Proof. unfold freeClient. keeps_auto. Qed.
#[export] Hint Resolve still_freeClient : keeps.
Lemma still_disconnect_slaves l : keeps still (disconnect_slaves l).
Proof. induction l as [|r l IH]; cbn [disconnect_slaves]; keeps_auto. Qed.
#[export] Hint Resolve still_disconnect_slaves : keeps.
Lemma still_disconnectSlaves : keeps still disconnectSlaves.
Proof. unfold disconnectSlaves. keeps_auto. Qed.
Lemma still_pending c : keeps still (clientHasPendingReplies c).
Proof. unfold clientHasPendingReplies. keeps_auto. Qed.
Lemma still__write c n : keeps still (_writeToClient c n).
Proof. unfold _writeToClient. keeps_auto. Qed.
#[export] Hint Resolve still_disconnectSlaves still_pending still__write : keeps.
Lemma still_write c ns : keeps still (writeToClient c ns).
Proof. induction ns as [|n ns IH]; cbn [writeToClient]; keeps_auto. Qed.
Lemma still_addReply c o : keeps still (addReplyReplicationBacklog c o).
Proof. unfold addReplyReplicationBacklog. keeps_auto. Qed.
#[export] Hint Resolve still_write still_addReply : keeps.
Lemma still_partial c rdb id p sent : keeps still (masterTryPartialResynchronization c rdb id p sent).
Proof. unfold masterTryPartialResynchronization. keeps_auto. Qed.
Lemma still_copy dst src : keeps still (copyReplicaOutputBuffer dst src).
Proof. unfold copyReplicaOutputBuffer. keeps_auto. Qed.
Lemma still_putOnline c : keeps still (replicaPutOnline c).
Proof. unfold replicaPutOnline. keeps_auto. Qed.
Lemma still_start c : keeps still (replicaStartCommandStream c).
Proof. unfold replicaStartCommandStream. keeps_auto. Qed.
#[export] Hint Resolve still_partial still_copy still_putOnline still_start : keeps.
Lemma still_bulk_sent c : keeps still (bulk_sent c).
Proof. unfold bulk_sent. keeps_auto. Qed.
Lemma still_ack c : keeps still (replconf_ack c).
Proof. unfold replconf_ack. keeps_auto. Qed.
Lemma still_update_waiting ok socket opens l : keeps still (update_waiting ok socket opens l).
Proof. induction l as [|r l IH]; cbn [update_waiting]; keeps_auto. Qed.
Lemma still_changeId x : keeps still (changeReplicationId x).
Proof. unfold changeReplicationId. keeps_auto. Qed.
Lemma still_clearId2 : keeps still clearReplicationId2.
Proof. unfold clearReplicationId2. keeps_auto. Qed.
#[export] Hint Resolve still_bulk_sent still_ack still_update_waiting still_changeId still_clearId2 : keeps.
Lemma still_expire e : keeps still (expire_backlog e).
Proof. unfold expire_backlog. keeps_auto. Qed.
Lemma still_shift x : keeps still (shiftReplicationId x).
Proof. unfold shiftReplicationId. keeps_auto. Qed.
Lemma still_update ok socket opens : keeps still (updateSlavesWaitingBgsave ok socket opens).
Proof. unfold updateSlavesWaitingBgsave. keeps_auto. Qed.
Lemma still_if_needed : keeps still create_if_needed.
Proof. unfold create_if_needed. keeps_auto. Qed.
#[export] Hint Resolve still_expire still_shift still_update still_if_needed : keeps.
Lemma still_continue cached new : keeps still (psync_continue cached new).
Proof. unfold psync_continue. keeps_auto. Qed.
Lemma still_attach : keeps still replicationAttachToNewMaster.
Proof. unfold replicationAttachToNewMaster. keeps_auto. Qed.
#[export] Hint Resolve still_continue still_attach : keeps.

(** ** Feeding *)

Lemma quiet_of_still {A} (m : R A) : keeps still m -> keeps quiet_db m.
Proof. apply keeps_weaken, still_quiet. Qed.
#[export] Hint Extern 5 (keeps quiet_db _) => (apply quiet_of_still) : keeps.

Section feed.
Context (usable : Z -> Z).

Lemma quiet_append n x : keeps quiet_db (append_block n x).
Proof. unfold append_block. keeps_auto. Qed.
Lemma quiet_new x : keeps quiet_db (new_block usable x).
Proof. unfold new_block. keeps_auto. Qed.
Lemma quiet_feed_slaves n pos l : keeps quiet_db (feed_slaves n pos l).
Proof. induction l as [|r l IH]; cbn [feed_slaves]; keeps_auto. Qed.
Hint Resolve quiet_append quiet_new quiet_feed_slaves : keeps.
Lemma quiet_feed_once x : keeps quiet_db (feed_once usable x).
Proof. unfold feed_once. keeps_auto. Qed.
Hint Resolve quiet_feed_once : keeps.
Lemma quiet_feed_loop fuel : forall x, keeps quiet_db (feed_loop usable fuel x).
Proof. induction fuel as [|fuel IH]; intros [|c x]; cbn [feed_loop]; keeps_auto. Qed.
Hint Resolve quiet_feed_loop : keeps.
Lemma quiet_feed x : keeps quiet_db (feedReplicationBuffer usable x).
Proof. unfold feedReplicationBuffer. keeps_auto. Qed.
End feed.
#[export] Hint Resolve quiet_feed : keeps.

Lemma quiet_fullsync id offset : keeps quiet_db (readSyncBulkPayload id offset).
Proof. unfold readSyncBulkPayload. keeps_auto. Qed.

(** ** Waiting for an RDB file *)

Lemma calm_of_still {A} (m : R A) : keeps still m -> keeps calm_db m.
Proof. apply keeps_weaken, still_calm. Qed.
#[export] Hint Extern 5 (keeps calm_db _) => (apply calm_of_still) : keeps.

(** The setup of one replica. *)
Lemma setup_waits s c o sent a s' : replicationSetupSlaveForFullResync c o sent s = Some (a, s') ->
  slaveseldb s' = -1 /\ master_repl_offset s' = master_repl_offset s /\ forall x, waits_for s' x -> waits_for s x \/ x = o.
Proof.
  intros E. assert (exists r, find_replica (slaves s) c = Some r) as (r & Hr).
  { unfold replicationSetupSlaveForFullResync, set_replica, get_replica, get, mbind, ST_bind in E. cbn in E.
    destruct (find_replica (slaves s) c) as [r|]; [by exists r|done]. }
  destruct (wp_setup_one s c o sent r (λ _ s1, s1 = with_slaves (update_replica c (set_up o sent) (slaves s)) (with_slaveseldb (-1) s)) Hr eq_refl)
    as (b & s1 & E1 & ->). rewrite E in E1. injection E1 as _ ->. split; [done|]. split; [done|].
  intros x (y & Hy & H1 & H2). cbn in Hy. apply update_replica_elem in Hy as (z & Hz & ->).
  destruct (_ =? _); [right; rewrite <- H2; by destruct sent|]. left. by exists z.
Qed.

Section sync.
Context (e : renv).

Lemma calm_setup_slaves l : keeps calm_db (setup_slaves e l).
Proof.
  induction l as [|r l IH]; cbn [setup_slaves]; [apply keeps_ret; typeclasses eauto|]. apply keeps_bind; [typeclasses eauto| |done].
  destruct (_ && _); [|apply keeps_ret; typeclasses eauto]. intros s [] s' (o & s1 & [= <- <-] & E)%bind_Some.
  apply bind_Some in E as (b & s2 & E & [= <-]). destruct (setup_waits _ _ _ _ _ _ E) as (H1 & H2 & H3).
  split; [by right|]. split; [done|]. intros o Ho. destruct (H3 o Ho) as [| ->]; [by left|right]. by rewrite H2.
Qed.
Hint Resolve calm_setup_slaves : keeps.

Lemma calm_startBgsave : keeps calm_db (startBgsaveForReplication e).
Proof. unfold startBgsaveForReplication. keeps_auto. Qed.
Hint Resolve calm_startBgsave : keeps.

(** Sharing the RDB file that another replica waits for. *)
Lemma calm_share c rdb : keeps calm_db (s ← get;
  match find (attachable rdb) (slaves s) with
  | Some src =>
      if accepts e c (r_id src) then
        (if rdb then mret tt else copyReplicaOutputBuffer c (r_id src));;
        _ ← replicationSetupSlaveForFullResync c (psync_initial_offset src) (writable e c); mret tt
      else mret tt
  | None => mret tt
  end).
Proof.
  intros s [] s'. rewrite get_bind. destruct (find _ _) as [src|] eqn:Hf; [|by intros [= <-]].
  destruct (accepts _ _ _); [|by intros [= <-]]. intros (a & s1 & E1 & E2)%bind_Some. apply bind_Some in E2 as (b & s2 & E2 & [= <-]).
  assert (Hc : keeps still (if rdb then mret tt else copyReplicaOutputBuffer c (r_id src))) by keeps_auto. apply Hc in E1.
  destruct (setup_waits _ _ _ _ _ _ E2) as (H1 & H2 & H3). destruct E1 as [[_ Hw] Eo]. split; [by right|]. split; [congruence|].
  intros o Ho. left. destruct (H3 o Ho) as [| ->]; [by apply Hw|]. destruct (attachable_found _ _ _ Hf) as (G1 & G2 & _). by exists src.
Qed.

Lemma calm_sync c rdb psync : keeps calm_db (syncCommand e c rdb psync).
Proof.
  unfold syncCommand. apply keeps_bind; [typeclasses eauto|apply keeps_get; typeclasses eauto|intros s0].
  destruct (bool_decide _); [apply keeps_ret; typeclasses eauto|]. apply keeps_bind; [typeclasses eauto|keeps_auto|intros partial].
  destruct partial; [apply keeps_ret; typeclasses eauto|]. apply keeps_bind; [typeclasses eauto|keeps_auto|intros []].
  intros s [] s'. pose proof (calm_share c rdb) as Hshare. rewrite get_bind.
  set (m1 := if bool_decide (length _ = _) && _ then _ else _). assert (Hm : forall s1, m1 s = Some (tt, s1) -> still s s1 /\ slaves s1 = slaves s).
  { intros s1 E. assert (H : keeps still m1) by (unfold m1; keeps_auto). split; [by apply H in E|]. revert E. unfold m1. destruct (_ && _); [|by intros [= <-]].
    intros (a & s2 & [= _ <-] & E)%bind_Some. apply bind_Some in E as (a' & s3 & [= _ <-] & E). unfold createReplicationBacklog in E.
    rewrite get_bind in E. cbn in E. destruct (repl_backlog s); [done|]. by injection E as <-. }
  intros ([] & s1 & E1 & E)%bind_Some. destruct (Hm s1 E1) as [Hs1 Esl]. revert E.
  intros E. transitivity s1; [by apply still_calm|]. destruct (child_disk e).
  - apply (Hshare s1 tt s'). rewrite get_bind, Esl. exact E.
  - revert E. assert (H : keeps calm_db (if child_socket e then mret tt else if delayed e then mret tt else if other_child e then mret tt
      else _ ← startBgsaveForReplication e; mret tt)) by keeps_auto. apply H.
Qed.
End sync.
