(* ===== verification/ReplWorld.v ===== *)
(** The replication stream of a server over time: operations in any order, and the
    bytes of the stream since the backlog was created. *)

From stdpp Require Import list.
From S2P Require Import Prelude State Util Resp AofCmd Repl ReplInv ReplFeed ReplSync ReplMarks.

Local Open Scope string_scope.
Local Open Scope list_scope.
Local Open Scope Z_scope.

(** ** Commands

    Commands in the replication stream: [replicationFeedSlaves] writes what
    [catAppendOnlyGenericCommand] writes to the AOF, after a SELECT where it is needed. *)


Definition LONG_STR_SIZE : nat := 21.

(** Pure computations that can fail. *)
Definition lift {A} (o : option A) : R A := match o with Some a => mret a | None => fail end.

Lemma wp_lift {A} (o : option A) a s (Q : A -> rstate -> Prop) : o = Some a -> Q a s -> wp (lift o) s Q.
Proof. intros -> H. by apply wp_ret. Qed.

(** The SELECT command, precomputed in [shared.select] or not: [%d] is the same
    notation. *)
Definition long_str (v : Z) : option bytes :=
  '(buf, n) ← ll2string (replicate LONG_STR_SIZE 0) 0 (Z.of_nat LONG_STR_SIZE) v;
  rd buf 0 (Z.to_nat n).

Definition selectcmd (dictid : Z) : option bytes :=
  llstr ← long_str dictid;
  len ← long_str (Z.of_nat (length llstr));
  Some (str "*2" ++ [13; 10] ++ str "$6" ++ [13; 10] ++ str "SELECT" ++ [13; 10] ++ str "$" ++ len ++ [13; 10] ++ llstr ++ [13; 10]).

Example select_12 : selectcmd 12 =
  Some (str "*2" ++ [13; 10] ++ str "$6" ++ [13; 10] ++ str "SELECT" ++ [13; 10] ++ str "$2" ++ [13; 10] ++ str "12" ++ [13; 10]).
Proof. reflexivity. Qed.

Section feed.
Context (usable : Z -> Z).

(** The loop over the arguments, which are decoded strings; [aux] ends with CRLF. *)
Fixpoint feed_args (aux : bytes) (argv : list bytes) : R unit :=
  match argv with
  | [] => mret tt
  | o :: argv' =>
      '(aux, line) ← lift (length_line aux 36 (sdslen o));
      feedReplicationBuffer usable line;;
      feedReplicationBuffer usable o;;
      feedReplicationBuffer usable (drop (length line - 2) line);;
      feed_args aux argv'
  end.

(** [replica] tells whether the server has a master itself, and [aux] is the initial
    contents of the local array. *)
Definition replicationFeedSlaves (replica : bool) (dbnum : Z) (aux : bytes) (dictid : Z) (argv : list bytes) : R unit :=
  if negb ((dictid =? -1) || ((0 <=? dictid) && (dictid <? dbnum))) then fail
  else if replica then mret tt
  else
    s ← get;
    match repl_backlog s, slaves s with
    | None, [] => mret tt
    | None, _ => fail
    | Some _, _ =>
        (if negb (slaveseldb s =? dictid) then
           cmd ← lift (selectcmd dictid);
           feedReplicationBuffer usable cmd;;
           modify (with_slaveseldb dictid)
         else mret tt);;
        '(aux, line) ← lift (length_line aux 42 (Z.of_nat (length argv)));
        feedReplicationBuffer usable line;;
        feed_args aux argv
    end.

(** The stream of a master, which a replica passes on to its own replicas. *)
Definition replicationFeedStreamFromMasterStream (buf : bytes) : R unit :=
  s ← get;
  match repl_backlog s, slaves s with
  | None, [] => mret tt
  | None, _ => fail
  | Some _, _ => feedReplicationBuffer usable buf
  end.
End feed.

(** ** What is written *)

Lemma line_for_unique prefix v l1 l2 : line_for prefix v l1 -> line_for prefix v l2 -> l1 = l2.
Proof. intros (s1 & -> & H1) (s2 & -> & H2). by rewrite (decimal_unique v s1 s2). Qed.

Lemma encoded_args_unique args e1 : encoded_args args e1 -> forall e2, encoded_args args e2 -> e1 = e2.
Proof.
  induction 1 as [|o args line enc Hl He IH]; intros e2 H2; inversion H2; subst; [done|].
  rewrite (line_for_unique 36 (sdslen o) line line0) by done. do 3 f_equal. by apply IH.
Qed.

Lemma encoded_unique args e1 e2 : encoded args e1 -> encoded args e2 -> e1 = e2.
Proof.
  intros (l1 & b1 & H1 & H2 & ->) (l2 & b2 & H3 & H4 & ->). rewrite (line_for_unique _ _ l1 l2) by done. by rewrite (encoded_args_unique args b1 H2 b2).
Qed.

Lemma long_str_spec v : 0 <= v -> in_s 64 v -> exists s, long_str v = Some s /\ decimal v s.
Proof.
  intros H0 Hv. unfold long_str. destruct (ll2string_spec (replicate LONG_STR_SIZE 0) 0 (Z.of_nat LONG_STR_SIZE) v) as (m & n & -> & Hs);
    [lia|done|unfold LONG_STR_SIZE; lia|by rewrite length_replicate|]. cbn [mbind option_bind].
  pose proof (sdigits_small v H0 Hv). rewrite decide_True in Hs by (unfold LONG_STR_SIZE; lia). destruct Hs as (s & Hw & Hd & -> & _).
  unfold signed_decimal in Hd. rewrite decide_False in Hd by lia. exists s. split; [|done].
  apply wr_Some in Hw as (_ & Hb & ->). rewrite <- app_assoc, Nat2Z.id. exact (rd_app [] s _).
Qed.

Definition select_args (llstr : bytes) : list bytes := [str "SELECT"; llstr].

Lemma selectcmd_spec d : 0 <= d -> in_s 64 d -> exists cmd llstr, selectcmd d = Some cmd /\ decimal d llstr /\ encoded (select_args llstr) cmd.
Proof.
  intros H0 Hd. destruct (long_str_spec d H0 Hd) as (s & E & Hs). unfold selectcmd. rewrite E. cbn [mbind option_bind].
  pose proof (signed_decimal_length d s Hd) as Hlen. unfold signed_decimal in Hlen. rewrite decide_False in Hlen by lia. specialize (Hlen Hs).
  destruct (long_str_spec (Z.of_nat (length s))) as (len & -> & Hl); [lia|cint|]. cbn [mbind option_bind].
  eexists _, s. split; [done|]. split; [done|]. exists (str "*2" ++ [13; 10]). eexists. split; [|split].
  - exists (str "2"). split; [done|]. split; [|done]. repeat constructor; unfold is_digit; by_compute.
  - eapply (enc_cons _ _ (str "$6" ++ [13; 10])); [exists (str "6"); split; [done|]; split; [repeat constructor; unfold is_digit; by_compute|done]|].
    eapply (enc_cons s _ (36 :: len ++ [13; 10])); [by exists len|constructor].
  - cbn. by rewrite <- !app_assoc.
Qed.

(** The bytes that a command adds to the stream when the DB [cur] is selected. *)
Definition command_bytes (cur d : Z) (argv : list bytes) (x : bytes) : Prop :=
  exists sel enc, encoded argv enc /\ x = sel ++ enc /\
    (cur = d /\ sel = [] \/ cur <> d /\ exists llstr, decimal d llstr /\ encoded (select_args llstr) sel).

Section spec.
Context (usable : Z -> Z) (Husable : forall n, n <= usable n).

(** The line of a length ends with CRLF. *)
Lemma line_crlf prefix v line : line_for prefix v line -> drop (length line - 2) line = [13; 10].
Proof.
  intros (s & -> & _). change (prefix :: s ++ [13; 10]) with ((prefix :: s) ++ [13; 10]). rewrite length_app. cbn [length].
  replace (S (length s) + 2 - 2)%nat with (length (prefix :: s)) by (cbn; lia). apply drop_app_length.
Qed.

Lemma wp_feed_args base argv : forall aux h s bl (Q : unit -> rstate -> Prop), stream_ok h base s bl -> (24 <= length aux)%nat ->
  Forall (λ o, in_s 64 (sdslen o)) argv ->
  (forall enc s' bl', encoded_args argv enc -> stream_ok (h ++ enc) base s' bl' -> fed s s' (Z.of_nat (length enc)) -> Q tt s') ->
  wp (feed_args usable aux argv) s Q.
Proof.
  induction argv as [|o argv IH]; intros aux h s bl Q Hs Hl Ha HQ.
  { apply wp_ret. eapply (HQ []); [constructor|by rewrite app_nil_r|]. split; [cbn; lia|done..]. }
  apply Forall_cons in Ha as [Ho Ha]. cbn [feed_args].
  destruct (length_line_spec aux 36 (sdslen o)) as (aux' & line & E & Hl' & Hline); [done|unfold sdslen; lia|done|].
  apply wp_bind. eapply wp_lift; [exact E|]. apply wp_bind. eapply wp_feed; [done|exact Hs|]. intros s1 bl1 H1 F1.
  apply wp_bind. eapply wp_feed; [done|exact H1|]. intros s2 bl2 H2 F2. apply wp_bind. eapply wp_feed; [done|exact H2|]. intros s3 bl3 H3 F3.
  rewrite (line_crlf 36 (sdslen o)) in H3, F3 by done. eapply IH; [exact H3|lia|done|]. intros enc s4 bl4 He H4 F4.
  eapply (HQ (line ++ o ++ [13; 10] ++ enc)); [by constructor|rewrite <- !app_assoc in H4; exact H4|].
  rewrite !length_app, !Nat2Z.inj_add. eapply fed_trans; [exact F1|]. eapply fed_trans; [exact F2|]. by eapply fed_trans.
Qed.

Lemma wp_feedSlaves h base s bl replica dbnum aux d argv (Q : unit -> rstate -> Prop) : stream_ok h base s bl -> d = slaveseldb s /\ d = -1 \/ 0 <= d < dbnum ->
  in_s 32 dbnum -> (24 <= length aux)%nat -> in_s 32 (Z.of_nat (length argv)) -> Forall (λ o, in_s 64 (sdslen o)) argv ->
  (replica = true -> Q tt s) ->
  (replica = false -> forall x s' bl', command_bytes (slaveseldb s) d argv x -> stream_ok (h ++ x) base s' bl' -> slaveseldb s' = d ->
     master_repl_offset s' = master_repl_offset s + Z.of_nat (length x) -> Q tt s') ->
  wp (replicationFeedSlaves usable replica dbnum aux d argv) s Q.
Proof.
  intros Hs Hd Hdb Hl Hn Ha HQ1 HQ2. unfold replicationFeedSlaves.
  assert ((d =? -1) || (0 <=? d) && (d <? dbnum) = true) as -> by lia. cbn [negb]. destruct replica; [by apply wp_ret, HQ1|].
  specialize (HQ2 eq_refl). apply wp_bind, wp_get. pose proof Hs as [[B _] _]. rewrite (bo_backlog _ _ _ _ _ _ B). apply wp_bind.
  eapply wp_mono with (Q := λ _ s1, exists sel bl1, (slaveseldb s = d /\ sel = [] \/ slaveseldb s <> d /\ exists llstr, decimal d llstr /\ encoded (select_args llstr) sel) /\
    stream_ok (h ++ sel) base s1 bl1 /\ slaveseldb s1 = d /\ master_repl_offset s1 = master_repl_offset s + Z.of_nat (length sel)).
  - destruct (Z.eqb_spec (slaveseldb s) d) as [E|E]; cbn [negb].
    + apply wp_ret. exists [], bl. split; [by left|]. rewrite app_nil_r. split; [done|]. split; [done|]. cbn. lia.
    + destruct (selectcmd_spec d) as (cmd & llstr & Ec & H1 & H2); [lia|cint|].
      apply wp_bind. eapply wp_lift; [exact Ec|]. apply wp_bind. eapply wp_feed; [done|exact Hs|]. intros s1 bl1 S1 [F1 _ _ _]. apply wp_modify.
      exists cmd, bl1. split; [right; split; [done|by exists llstr]|]. split; [|done]. by destruct S1 as [[[] R1] O1].
  - intros [] s1 (sel & bl1 & Hsel & S1 & Ed & Eo).
    destruct (length_line_spec aux 42 (Z.of_nat (length argv))) as (aux' & line & E & Hl' & Hline); [done|lia|cint|].
    apply wp_bind. eapply wp_lift; [exact E|]. apply wp_bind. eapply wp_feed; [done|exact S1|]. intros s2 bl2 S2 [F2 _ D2 _].
    eapply wp_feed_args; [exact S2|lia|done|]. intros enc s3 bl3 He S3 [F3 _ D3 _].
    eapply (HQ2 (sel ++ line ++ enc)); [|rewrite <- !app_assoc in S3; exact S3|congruence|rewrite F3, F2, Eo, !length_app; lia].
    exists sel, (line ++ enc). split; [by exists line, enc|]. done.
Qed.
End spec.

(** ** Operations *)

Inductive op :=
  | Feed (dictid : option Z) (argv : list bytes)
  | Proxy (buf : bytes)
  | Write (c : Z) (ns : list Z)
  | Sync (e : renv) (c : Z) (rdb : bool) (psync : option (Z * Z))
  | StartBgsave (e : renv)
  | BgsaveDone (ok socket : bool) (opens : Z -> bool)
  | BulkSent (c : Z)
  | Ack (c : Z)
  | Close (c : Z)
  | Resize (size : Z)
  | Expire (e : renv)
  | SetMaster
  | UnsetMaster (fresh : Z)
  | Continue (cached new : Z)
  | FullSync (id offset : Z)
  | RdbOnly (c : Z) (x : bool).

(** What has been added to the stream: a command in the DB [d] when [cur] was
    selected, or bytes of the stream of a master. *)
Inductive entry :=
  | ECmd (cur d : Z) (argv : list bytes)
  | ERaw (buf : bytes).

(** The bytes of a command: as in the AOF, after a SELECT if the DB changes. *)
Definition command_stream (cur d : Z) (argv : list bytes) : option bytes :=
  sel ← (if cur =? d then Some [] else selectcmd d);
  catAppendOnlyGenericCommand (replicate 32 0) sel argv.

Definition entry_bytes (x : entry) : bytes :=
  match x with
  | ECmd cur d argv => default [] (command_stream cur d argv)
  | ERaw buf => buf
  end.

Definition log_bytes (l : list entry) : bytes := concat (entry_bytes <$> l).

(** The state of a server; [w_master] tells whether it has a master, [w_log] is the stream since the
    offset [w_base], where the backlog was created. *)
Record world := World {
  w_repl : rstate;
  w_master : bool;
  w_base : Z;
  w_log : list entry }.

(** A replica that is still there. *)
Definition with_replica (c : Z) (P : replica -> bool) (m : R unit) : R unit :=
  s ← get; match find_replica (slaves s) c with Some r => if P r then m else mret tt | None => mret tt end.

(** The replica may still say whether it wants the RDB file only, or repeats it.  The code takes
    the option at any time; see [rdb_only_then_ack_fails] and [rdb_only_loses_commands]. *)
Definition rdb_only_open (x : bool) (r : replica) : bool :=
  bool_decide (replstate r = SLAVE_STATE_WAIT_BGSAVE_START) || eqb (rdbonly r) x.

Definition sending (r : replica) : bool := bool_decide (replstate r = SLAVE_STATE_SEND_BULK).

Section world.
Context (usable : Z -> Z) (dbnum : Z) (aux : bytes).

Definition feed_db (s : rstate) (dictid : option Z) : Z := default (slaveseldb s) dictid.

Definition step (o : op) (m : bool) : R unit :=
  match o with
  | Feed dictid argv => s ← get; replicationFeedSlaves usable m dbnum aux (feed_db s dictid) argv
  | Proxy buf => if m then replicationFeedStreamFromMasterStream usable buf else mret tt
  | Write c ns => with_replica c may_write (writeToClient c ns)
  | Sync e c rdb psync => syncCommand e c rdb psync
  | StartBgsave e => _ ← startBgsaveForReplication e; mret tt
  | BgsaveDone ok socket opens => updateSlavesWaitingBgsave ok socket opens
  | BulkSent c => with_replica c sending (bulk_sent c)
  | Ack c => with_replica c (λ _, true) (replconf_ack c)
  | Close c => with_replica c (λ _, true) (freeClient c)
  | Resize size => modify (with_backlog_size size);; resizeReplicationBacklog
  | Expire e => expire_backlog e
  | SetMaster => mret tt
  | UnsetMaster fresh => if m then replicationUnsetMaster fresh else mret tt
  | Continue cached new => if m then psync_continue cached new else mret tt
  | FullSync id offset => if m then readSyncBulkPayload id offset else mret tt
  | RdbOnly c x => with_replica c (rdb_only_open x) (replconf_rdb_only c x)
  end.

Definition step_master (o : op) (m : bool) : bool :=
  match o with SetMaster => true | UnsetMaster _ => false | _ => m end.

Definition step_log (o : op) (m : bool) (s : rstate) : list entry :=
  match o with
  | Feed dictid argv => if m then [] else [ECmd (slaveseldb s) (feed_db s dictid) argv]
  | Proxy buf => if m then [ERaw buf] else []
  | _ => []
  end.

Definition restarts (o : op) (m : bool) : bool := match o with FullSync _ _ => m | _ => false end.

Definition exec (o : op) (w : world) : option world :=
  '(_, s) ← step o (w_master w) (w_repl w);
  let m := step_master o (w_master w) in
  match repl_backlog (w_repl w), repl_backlog s, restarts o (w_master w) with
  | Some _, Some _, false => Some (World s m (w_base w) (w_log w ++ step_log o (w_master w) (w_repl w)))
  | _, _, _ => Some (World s m (master_repl_offset s) [])
  end.

Fixpoint run (l : list op) (w : world) : option world :=
  match l with [] => Some w | o :: l' => w' ← exec o w; run l' w' end.

(** Arguments of commands are strings of the program, and the DB exists. *)
Definition op_ok (o : op) : Prop :=
  match o with
  | Feed dictid argv =>
      (forall d, dictid = Some d -> 0 <= d < dbnum) /\ in_s 32 (Z.of_nat (length argv)) /\ Forall (λ o, in_s 64 (sdslen o)) argv
  | _ => True
  end.

(** A server without replicas, and no backlog yet. *)
Definition initial (w : world) : Prop :=
  no_backlog (w_repl w) /\ slaveseldb (w_repl w) = -1 /\ w_log w = [].
End world.

(** ** Commands as bytes *)

Lemma command_stream_spec cur d argv : 0 <= d \/ cur = d -> in_s 64 d -> in_s 64 (Z.of_nat (length argv)) -> Forall (λ o, in_s 64 (sdslen o)) argv ->
  exists x, command_stream cur d argv = Some x /\ command_bytes cur d argv x.
Proof.
  intros Hd Hd64 Hn Ha. unfold command_stream. destruct (Z.eqb_spec cur d) as [E|E].
  - cbn [mbind option_bind]. destruct (catAppendOnlyGenericCommand_spec (replicate 32 0) [] argv) as (enc & -> & He); [done..|]. exists enc. split; [done|].
    exists [], enc. split; [done|]. split; [done|by left].
  - destruct (selectcmd_spec d) as (sel & llstr & -> & H1 & H2); [lia|done|]. cbn [mbind option_bind].
    destruct (catAppendOnlyGenericCommand_spec (replicate 32 0) sel argv) as (enc & -> & He); [done..|]. exists (sel ++ enc). split; [done|].
    exists sel, enc. split; [done|]. split; [done|]. right. split; [done|by exists llstr].
Qed.

Lemma command_bytes_unique cur d argv x y : command_bytes cur d argv x -> command_bytes cur d argv y -> x = y.
Proof.
  intros (s1 & e1 & H1 & -> & H2) (s2 & e2 & H3 & -> & H4). rewrite (encoded_unique argv e1 e2) by done. f_equal.
  destruct H2 as [[E ->]|(E & l1 & D1 & S1)], H4 as [[E' ->]|(E' & l2 & D2 & S2)]; try done.
  rewrite (decimal_unique d l1 l2) in S1 by done. by eapply encoded_unique.
Qed.

Lemma log_bytes_app l1 l2 : log_bytes (l1 ++ l2) = log_bytes l1 ++ log_bytes l2.
Proof. unfold log_bytes. by rewrite fmap_app, concat_app. Qed.

Section proofs.
Context (usable : Z -> Z) (Husable : forall n, n <= usable n) (dbnum : Z) (Hdbnum : 0 < dbnum /\ in_s 32 dbnum) (aux : bytes) (Haux : (24 <= length aux)%nat).

Definition db_ok (s : rstate) : Prop := slaveseldb s = -1 \/ 0 <= slaveseldb s < dbnum.

(** The stream of a server is what its log says. *)
Definition world_ok (w : world) : Prop :=
  (streaming (log_bytes (w_log w)) (w_base w) (w_repl w) \/ no_backlog (w_repl w) /\ w_log w = []) /\ db_ok (w_repl w).

(** What a step leaves. *)
Definition step_post (o : op) (w : world) (s' : rstate) : Prop :=
  (streaming (log_bytes (w_log w ++ step_log o (w_master w) (w_repl w))) (w_base w) s' /\ is_Some (repl_backlog (w_repl w)) /\ restarts o (w_master w) = false) \/
  (no_backlog s' \/ streaming [] (master_repl_offset s') s') /\ (restarts o (w_master w) = true /\ slaves s' = [] \/ repl_backlog (w_repl w) = None \/ repl_backlog s' = None /\ exists e, o = Expire e).

Lemma streaming_Some h base s : streaming h base s -> is_Some (repl_backlog s).
Proof. intros [bl [[B _] _]]. by rewrite (bo_backlog _ _ _ _ _ _ B). Qed.

(** A step that leaves the stream alone. *)
Lemma step_same o w s' : streaming (log_bytes (w_log w)) (w_base w) (w_repl w) -> restarts o (w_master w) = false -> step_log o (w_master w) (w_repl w) = [] ->
  streaming (log_bytes (w_log w)) (w_base w) s' -> step_post o w s'.
Proof. intros H H1 H2 H3. left. rewrite H2, app_nil_r. split; [done|]. split; [by eapply streaming_Some|done]. Qed.

Lemma step_none o w s' : no_backlog (w_repl w) -> no_backlog s' \/ streaming [] (master_repl_offset s') s' -> step_post o w s'.
Proof. intros (E & _) H. right. split; [done|]. by right; left. Qed.

Lemma find_replica_in c l r : find_replica l c = Some r -> r ∈ l /\ c = r_id r.
Proof. intros H. by destruct (find_replica_Some _ _ _ H) as [H1 <-]. Qed.

(** A step that concerns a replica. *)
Lemma wp_with_replica c P m w (o : op) : world_ok w -> restarts o (w_master w) = false -> step_log o (w_master w) (w_repl w) = [] ->
  (forall bl r, stream_ok (log_bytes (w_log w)) (w_base w) (w_repl w) bl -> r ∈ slaves (w_repl w) -> P r = true -> c = r_id r ->
     wp m (w_repl w) (λ _ s', streaming (log_bytes (w_log w)) (w_base w) s')) ->
  wp (with_replica c P m) (w_repl w) (λ _ s', step_post o w s').
Proof.
  intros [Hw _] H1 H2 Hm. apply wp_bind, wp_get. destruct Hw as [Hs|[Hn _]].
  - destruct (find_replica _ c) as [r|] eqn:Hf; [|by apply wp_ret, step_same]. apply find_replica_in in Hf as [Hr Hc].
    destruct (P r) eqn:HP; [|by apply wp_ret, step_same]. pose proof Hs as [bl Hbl].
    eapply wp_mono; [by eapply Hm|]. intros [] s' Hs'. by apply step_same.
  - pose proof Hn as (_ & _ & Hsl & _). rewrite Hsl. cbn. apply wp_ret, step_none; [done|by left].
Qed.

Lemma wp_step_feed dictid argv w : world_ok w -> op_ok dbnum (Feed dictid argv) ->
  wp (step usable dbnum aux (Feed dictid argv) (w_master w)) (w_repl w) (λ _ s', step_post (Feed dictid argv) w s' /\
    (w_master w = false -> is_Some (repl_backlog (w_repl w)) -> slaveseldb s' = feed_db (w_repl w) dictid)).
Proof.
  intros [Hw Hdb] (Hd & Hn & Ha). cbn [step]. apply wp_bind, wp_get. set (d := feed_db _ _). set (s := w_repl w) in *.
  assert (Hdd : d = slaveseldb s /\ d = -1 \/ 0 <= d < dbnum).
  { unfold d, feed_db. destruct dictid as [x|]; cbn; [right; by apply Hd|]. destruct Hdb as [E|?]; [left; by rewrite E|by right]. }
  destruct Hw as [[bl Hs]|[Hnb Hl]].
  - eapply (wp_feedSlaves usable Husable); [exact Hs|exact Hdd|apply Hdbnum|done|done|done| |].
    + intros E. split; [|by rewrite E]. apply step_same; [by exists bl|done|cbn; by rewrite E|by exists bl].
    + intros E x s' bl' Hx H1 H2 _. split; [|done]. left. cbn [step_log]. rewrite E. split; [|split; [by eapply streaming_Some; exists bl|done]].
      exists bl'. rewrite log_bytes_app. unfold log_bytes at 2. cbn [fmap list_fmap concat entry_bytes]. fold s. fold d.
      destruct (command_stream_spec (slaveseldb s) d argv) as (y & -> & Hy); [lia|cint|cint|done|]. cbn [default from_option id]. rewrite app_nil_r.
      by rewrite (command_bytes_unique _ _ _ _ _ Hy Hx).
  - pose proof Hnb as (E & _ & Esl & _). unfold replicationFeedSlaves. assert ((d =? -1) || (0 <=? d) && (d <? dbnum) = true) as -> by lia. cbn [negb].
    destruct (w_master w) eqn:Em; [apply wp_ret; split; [apply step_none; [done|by left]|done]|]. apply wp_bind, wp_get. rewrite E, Esl.
    apply wp_ret. split; [apply step_none; [done|by left]|]. intros _ [? H]. done.
Qed.

Lemma wp_step o w : world_ok w -> op_ok dbnum o -> wp (step usable dbnum aux o (w_master w)) (w_repl w) (λ _ s', step_post o w s').
Proof.
  intros Hw Hok. pose proof Hw as [Hs _].
  assert (Hs' : streaming (log_bytes (w_log w)) (w_base w) (w_repl w) \/ no_backlog (w_repl w)) by tauto.
  destruct o as [dictid argv|buf|c ns|e c rdb psync|e|ok socket opens|c|c|c|size|e| |fresh|cached new|id offset|c x]; cbn [step].
  - eapply wp_mono; [by apply wp_step_feed|]. by intros [] s' [H _].
  - destruct (w_master w) eqn:Em.
    + apply wp_bind, wp_get. destruct Hs as [[bl H]|[Hn _]].
      * pose proof H as [[B _] _]. rewrite (bo_backlog _ _ _ _ _ _ B). eapply (wp_feed usable Husable); [exact H|]. intros s1 bl1 H1 _. left.
        cbn [step_log]. rewrite Em, log_bytes_app. unfold log_bytes at 2. cbn. rewrite app_nil_r. split; [by exists bl1|].
        split; [by eapply streaming_Some; exists bl|done].
      * pose proof Hn as (E & _ & Esl & _). rewrite E, Esl. apply wp_ret, step_none; [done|by left].
    + apply wp_ret. destruct Hs as [H|[Hn _]]; [apply step_same; try done; cbn; by rewrite Em|apply step_none; [done|by left]].
  - apply wp_with_replica; [done..|]. intros bl r H Hr HP ->. unfold may_write in HP. apply andb_true_iff in HP as [HP _]. apply andb_true_iff in HP as [_ HP].
    apply bool_decide_eq_true in HP. eapply wp_writeToClient; [exact H|done|done|]. intros s' bl' H1 _. by exists bl'.
  - destruct Hs as [H|[Hn _]].
    + pose proof H as [bl Hbl]. eapply wp_sync; [exact Hbl|]. intros s' H1 _. apply step_same; [done..|by exists bl].
    + eapply wp_sync_first; [exact Hn|]. intros s' bl' H1 E _. apply step_none; [done|]. right. exists bl'. by rewrite E.
  - destruct Hs as [H|[Hn _]]; apply wp_bind.
    + pose proof H as [bl Hbl]. eapply wp_startBgsave; [exact Hbl|]. intros s' ok H1 _. apply wp_ret, step_same; [done..|by exists bl].
    + pose proof Hn as (E1 & E2 & E3 & E4). unfold startBgsaveForReplication. destruct (bgsave_ok e).
      * apply wp_bind, wp_get. rewrite E3. apply wp_bind, wp_ret, wp_ret, wp_ret, step_none; [done|by left].
      * apply wp_bind, wp_modify. rewrite E3. apply wp_ret, wp_ret, step_none; [done|by left].
  - apply wp_bind, wp_get. destruct Hs as [H|[Hn _]].
    + pose proof H as [bl Hbl]. eapply wp_update_waiting; [exact Hbl|apply (bo_slaves _ _ _ _ _ _ (proj1 (proj1 Hbl)))|done|].
      intros s' H1 _. apply step_same; [done..|by exists bl].
    + pose proof Hn as (_ & _ & E3 & _). rewrite E3. apply wp_ret, step_none; [done|by left].
  - apply wp_with_replica; [done..|]. intros bl r H Hr HP ->. apply bool_decide_eq_true in HP.
    eapply wp_bulk_sent; [exact H|done|done|]. intros s' bl' H1 _. by exists bl'.
  - apply wp_with_replica; [done..|]. intros bl r H Hr _ ->. eapply wp_ack; [exact H|done|]. intros s' H1 _. by exists bl.
  - apply wp_with_replica; [done..|]. intros bl r H Hr _ ->. eapply wp_freeClient; [exact H|done|]. intros s' bl' H1 _ _. by exists bl'.
  - apply wp_bind, wp_modify. destruct Hs as [H|[Hn _]].
    + pose proof H as [bl Hbl]. eapply wp_resize; [by apply stream_ok_size|]. intros s' bl' H1 _ _. apply step_same; [done..|by exists bl'].
    + pose proof Hn as (E1 & E2 & E3 & E4). apply wp_bind, wp_get, wp_bind. cbn [repl_backlog with_backlog_size]. rewrite E1.
      destruct (_ <? _); [apply wp_modify|apply wp_ret]; apply wp_ret, step_none; try done; by left.
  - destruct Hs as [H|[Hn _]].
    + pose proof H as [bl Hbl]. eapply wp_expire; [exact Hbl|]. intros s' [H1|H1] _; [by apply step_same|]. right. split; [by left|].
      right. right. split; [apply H1|by exists e].
    + pose proof Hn as (E1 & E2 & E3 & E4). apply wp_bind, wp_get. rewrite E1, E3. cbn. apply wp_ret, step_none; [done|by left].
  - apply wp_ret. destruct Hs as [H|[Hn _]]; [by apply step_same|apply step_none; [done|by left]].
  - destruct (w_master w) eqn:Em.
    + apply (wp_unset _ _ _ _ _ Hs'). intros s' A1 A2. destruct Hs as [H|[Hn _]]; [apply step_same; auto|apply step_none; auto].
    + apply wp_ret. destruct Hs as [H|[Hn _]]; [by apply step_same|apply step_none; [done|by left]].
  - destruct (w_master w) eqn:Em.
    + apply (wp_continue _ _ _ _ _ _ Hs'). intros s' A1 A2. destruct Hs as [H|[Hn _]]; [apply step_same; auto|apply step_none; auto].
    + apply wp_ret. destruct Hs as [H|[Hn _]]; [by apply step_same|apply step_none; [done|by left]].
  - destruct (w_master w) eqn:Em.
    + apply (wp_fullsync _ _ _ _ _ _ Hs'). intros s' H1 H2. right. split; [by right|]. left. split; [exact Em|done].
    + apply wp_ret. destruct Hs as [H|[Hn _]]; [apply step_same; try done; cbn; exact Em|apply step_none; [done|by left]].
  - apply wp_with_replica; [done..|]. intros bl r H Hr HP ->. unfold rdb_only_open in HP. apply orb_true_iff in HP.
    eapply wp_rdb_only; [exact H|done| |intros s' H1; by exists bl].
    destruct HP as [HP|HP]; [left; by apply bool_decide_eq_true in HP|right; by apply eqb_prop].
Qed.

(** ** The selected DB *)

Lemma step_db o m s s' : step usable dbnum aux o m s = Some (tt, s') ->
  match o with
  | Feed dictid _ => (slaveseldb s' = slaveseldb s \/ slaveseldb s' = feed_db s dictid) /\ (forall x, waits_for s' x -> waits_for s x)
  | Proxy _ | FullSync _ _ => quiet_db s s'
  | _ => calm_db s s'
  end.
Proof.
  assert (Hw : forall c P n, keeps still n -> keeps calm_db (with_replica c P n)).
  { intros c P n Hn. apply calm_of_still. unfold with_replica. keeps_auto. }
  destruct o as [dictid argv|buf|c ns|e c rdb psync|e|ok socket opens|c|c|c|size|e| |fresh|cached new|id offset|c x]; cbn [step].
  - rewrite get_bind. set (d := feed_db s dictid). unfold replicationFeedSlaves. destruct (negb _); [done|]. destruct m; [intros [= <-]; split; [by left|done]|].
    rewrite get_bind. assert (Hargs : forall l a, keeps quiet_db (feed_args usable a l)).
    { induction l as [|y l IH]; intros a; cbn [feed_args]; [apply keeps_ret; typeclasses eauto|].
      apply keeps_bind; [typeclasses eauto| |intros [aux' line]; keeps_auto]. unfold lift. keeps_auto. }
    assert (Hrest : keeps quiet_db ('(aux, line) ← lift (length_line aux 42 (Z.of_nat (length argv))); feedReplicationBuffer usable line;; feed_args usable aux argv)).
    { apply keeps_bind; [typeclasses eauto|unfold lift; keeps_auto|intros [aux' line]]. keeps_auto. }
    assert (Hgo : ((if negb (slaveseldb s =? d) then cmd ← lift (selectcmd d); feedReplicationBuffer usable cmd;; modify (with_slaveseldb d) else mret tt);;
        '(aux, line) ← lift (length_line aux 42 (Z.of_nat (length argv))); feedReplicationBuffer usable line;; feed_args usable aux argv) s = Some (tt, s') ->
      (slaveseldb s' = slaveseldb s \/ slaveseldb s' = d) /\ (forall x, waits_for s' x -> waits_for s x)).
    { intros (u & s1 & E1 & E2)%bind_Some. apply Hrest in E2 as [D2 W2]. rewrite D2.
      assert ((slaveseldb s1 = slaveseldb s \/ slaveseldb s1 = d) /\ (forall x, waits_for s1 x -> waits_for s x)) as [D1 W1]; [|by split; [|intros x Hx; apply W1, W2]].
      destruct (_ =? d); cbn [negb] in E1; [injection E1 as _ <-; by split; [left|]|].
      apply bind_Some in E1 as (cmd & s2 & E1 & E3). apply bind_Some in E3 as (v & s3 & E3 & [= _ <-]). split; [by right|]. intros x Hx.
      apply quiet_feed in E3 as [_ W3]. unfold lift in E1. destruct (selectcmd d); [|done]. injection E1 as _ <-. by apply W3. }
    destruct (repl_backlog s); [exact Hgo|]. destruct (slaves s); [intros [= <-]; by split; [left|]|done].
  - apply keeps_use. destruct m; [|apply keeps_ret; typeclasses eauto]. unfold replicationFeedStreamFromMasterStream. keeps_auto.
  - apply keeps_use, Hw. keeps_auto.
  - apply keeps_use, calm_sync.
  - apply keeps_use. pose proof (calm_startBgsave e). keeps_auto.
  - apply keeps_use. keeps_auto.
  - apply keeps_use, Hw. keeps_auto.
  - apply keeps_use, Hw. keeps_auto.
  - apply keeps_use, Hw. keeps_auto.
  - apply keeps_use, calm_of_still. keeps_auto.
  - apply keeps_use. keeps_auto.
  - by intros [= <-].
  - destruct m; [|by intros [= <-]]. intros (u & s1 & E1 & E2)%bind_Some. apply still_shift in E1. apply bind_Some in E2 as (v & s2 & E2 & [= <-]).
    apply still_disconnectSlaves in E2. assert (H : still s s2) by by transitivity s1. destruct H as [[_ H1] H2]. split; [by right|]. split; [done|].
    intros x Hx. left. by apply H1.
  - apply keeps_use. destruct m; keeps_auto.
  - apply keeps_use. destruct m; [apply quiet_fullsync|apply keeps_ret; typeclasses eauto].
  - apply keeps_use, Hw. unfold replconf_rdb_only. keeps_auto.
Qed.

Lemma unset_db fresh s s' : step usable dbnum aux (UnsetMaster fresh) true s = Some (tt, s') -> slaveseldb s' = -1.
Proof. cbn [step]. intros (u & s1 & E1 & E2)%bind_Some. by apply bind_Some in E2 as (v & s2 & E2 & [= <-]). Qed.

Lemma feed_db_ok dictid argv s : op_ok dbnum (Feed dictid argv) -> db_ok s -> feed_db s dictid = -1 \/ 0 <= feed_db s dictid < dbnum.
Proof. intros (Hd & _) Hs. unfold feed_db. destruct dictid as [d|]; cbn; [right; by apply Hd|exact Hs]. Qed.

Lemma step_db_ok o m s s' : op_ok dbnum o -> db_ok s -> step usable dbnum aux o m s = Some (tt, s') -> db_ok s'.
Proof.
  intros Hok Hs E. apply step_db in E. unfold db_ok in *.
  destruct o; try (destruct E as [[E|E] _]; rewrite E; try exact Hs; by left); try (destruct E as [E _]; rewrite E; exact Hs).
  destruct E as [[E|E] _]; rewrite E; [exact Hs|by eapply feed_db_ok].
Qed.

(** Every step succeeds. *)
Lemma exec_ok o w : world_ok w -> op_ok dbnum o -> exists w', exec usable dbnum aux o w = Some w' /\ world_ok w'.
Proof.
  intros Hw Hok. destruct (wp_step o w Hw Hok) as ([] & s' & E & Hp). unfold exec. rewrite E. cbn [mbind option_bind].
  assert (Hdb : db_ok s') by (eapply step_db_ok; [exact Hok|apply Hw|exact E]).
  destruct Hp as [(Hst & [b0 ->] & ->)|[Hst Hc]].
  - destruct (streaming_Some _ _ _ Hst) as [b1 ->]. eexists. split; [done|]. split; [by left|done].
  - assert (Hfresh : world_ok (World s' (step_master o (w_master w)) (master_repl_offset s') [])).
    { split; [|done]. destruct Hst as [H|H]; [by right|by left]. }
    destruct (repl_backlog (w_repl w)) as [b0|], (repl_backlog s') as [b1|], (restarts o (w_master w)); try (eexists; split; [done|exact Hfresh]).
    by destruct Hc as [[? _]|[?|[? _]]].
Qed.

Lemma run_ok l : forall w, world_ok w -> Forall (op_ok dbnum) l -> exists w', run usable dbnum aux l w = Some w' /\ world_ok w'.
Proof.
  induction l as [|o l IH]; intros w Hw Hl; [by exists w|]. apply Forall_cons in Hl as [Ho Hl].
  destruct (exec_ok o w Hw Ho) as (w1 & E & H1). cbn [run]. rewrite E. by apply IH.
Qed.

Lemma initial_ok w : initial w -> world_ok w.
Proof. intros (H1 & H2 & H3). split; [by right|by left]. Qed.

(** A reader of the stream, with the DB it has selected if it is known. *)
Definition reader (cur : option Z) (x : entry) : option Z :=
  match x with ECmd c d _ => if c =? d then cur else Some d | ERaw _ => None end.

(** Every command is read in the DB it was executed in, if it was executed in one. *)
Fixpoint in_db (cur : option Z) (l : list entry) : Prop :=
  match l with
  | [] => True
  | x :: l' => match x with ECmd _ d _ => d = -1 \/ reader cur x = Some d | ERaw _ => True end /\ in_db (reader cur x) l'
  end.

Lemma in_db_snoc l x : forall cur, in_db cur (l ++ [x]) <->
  in_db cur l /\ match x with ECmd _ d _ => d = -1 \/ reader (foldl reader cur l) x = Some d | ERaw _ => True end.
Proof.
  induction l as [|y l IH]; intros cur; cbn [app in_db foldl]; [tauto|]. rewrite IH. tauto.
Qed.

(** The place [k] of the log is a good start for a reader. *)
Definition good (k : nat) (w : world) : Prop :=
  (k <= length (w_log w))%nat /\ in_db None (drop k (w_log w)) /\
  (w_master w = true \/ slaveseldb (w_repl w) = -1 \/ foldl reader None (drop k (w_log w)) = Some (slaveseldb (w_repl w))).

Definition marks_ok (w : world) : Prop :=
  forall o, waits_for (w_repl w) o -> exists k, good k w /\ o = w_base w + Z.of_nat (length (log_bytes (take k (w_log w)))).

Lemma good_step o w s' k : step usable dbnum aux o (w_master w) (w_repl w) = Some (tt, s') ->
  (forall dictid argv, o = Feed dictid argv -> w_master w = false -> slaveseldb s' = feed_db (w_repl w) dictid) -> good k w ->
  good k (World s' (step_master o (w_master w)) (w_base w) (w_log w ++ step_log o (w_master w) (w_repl w))).
Proof.
  intros E Hfeed (Hk & Hdb & Hcur). split; [cbn; rewrite length_app; lia|]. cbn [w_log w_master w_repl]. rewrite drop_app_le by done.
  pose proof (step_db _ _ _ _ E) as Hrel.
  assert (Hsame : step_log o (w_master w) (w_repl w) = [] -> (step_master o (w_master w) = w_master w \/ step_master o (w_master w) = true) ->
      w_master w = true \/ slaveseldb s' = slaveseldb (w_repl w) \/ slaveseldb s' = -1 ->
    in_db None (drop k (w_log w) ++ step_log o (w_master w) (w_repl w)) /\
    (step_master o (w_master w) = true \/ slaveseldb s' = -1 \/ foldl reader None (drop k (w_log w) ++ step_log o (w_master w) (w_repl w)) = Some (slaveseldb s'))).
  { intros -> Hm Hd. rewrite app_nil_r. split; [done|]. destruct Hm as [->| ->]; [|by left].
    destruct Hcur as [H|[H|H]]; [by left| |]; (destruct Hd as [Hd|[Hd|Hd]]; [by left| |by right; left]); rewrite Hd; tauto. }
  destruct o as [dictid argv|buf|c ns|e c rdb psync|e|ok socket opens|c|c|c|size|e| |fresh|cached new|id offset|c x];
    try (apply Hsame; [done|by left|right; apply Hrel]).
  - cbn [step_log step_master] in *. destruct (w_master w) eqn:Em; [apply Hsame; try done; by left|].
    set (d := feed_db (w_repl w) dictid) in *. set (c := slaveseldb (w_repl w)) in *. rewrite in_db_snoc, foldl_app. cbn [foldl reader].
    assert (Hread : d = -1 \/ (if c =? d then foldl reader None (drop k (w_log w)) else Some d) = Some d).
    { destruct (Z.eqb_spec c d) as [<-|]; [|by right]. destruct Hcur as [H|H]; [done|exact H]. }
    split; [by split|]. right. rewrite (Hfeed dictid argv) by done. exact Hread.
  - cbn [step_log step_master] in *. destruct (w_master w) eqn:Em; [|apply Hsame; [done|by left|right; left; apply Hrel]].
    rewrite in_db_snoc. split; [done|by left].
  - apply Hsame; [done|by right|right; apply Hrel].
  - cbn [step_log step_master]. rewrite app_nil_r. split; [done|]. destruct (w_master w) eqn:Em.
    + right. left. by eapply unset_db.
    + cbn in E. injection E as <-. destruct Hcur as [|H]; [done|]. by right.
  - apply Hsame; [done|by left|right; left; apply Hrel].
Qed.

Lemma wp_det {A} (m : R A) s a s' (Q : A -> rstate -> Prop) : wp m s Q -> m s = Some (a, s') -> Q a s'.
Proof. intros (b & s1 & E & HQ) E2. rewrite E in E2. by injection E2 as -> ->. Qed.

Lemma step_new_mark o m s s' x : step usable dbnum aux o m s = Some (tt, s') -> waits_for s' x ->
  waits_for s x \/ x = master_repl_offset s' /\ slaveseldb s' = -1.
Proof.
  intros E Hx. apply step_db in E. destruct o; try (destruct E as (_ & _ & E); by apply E); left; by apply E.
Qed.

Lemma exec_master o w w' : exec usable dbnum aux o w = Some w' -> w_master w' = step_master o (w_master w).
Proof.
  unfold exec. destruct (step _ _ _ _ _ _) as [[u s']|]; [|done]. cbn [mbind option_bind].
  destruct (repl_backlog (w_repl w)), (repl_backlog s'), (restarts o (w_master w)); by intros [= <-].
Qed.

Lemma exec_marks o w w' : world_ok w -> marks_ok w -> op_ok dbnum o -> exec usable dbnum aux o w = Some w' -> marks_ok w' /\
  (w_base w' = w_base w /\ w_log w' = w_log w ++ step_log o (w_master w) (w_repl w) /\ is_Some (repl_backlog (w_repl w)) /\ is_Some (repl_backlog (w_repl w')) /\
     (forall k, good k w -> good k w') \/
   w_log w' = [] /\ w_base w' = master_repl_offset (w_repl w') /\ (restarts o (w_master w) = true \/ repl_backlog (w_repl w) = None \/ exists e, o = Expire e)).
Proof.
  intros Hw Hm Hok Hex. destruct (wp_step o w Hw Hok) as ([] & s' & E & Hp). unfold exec in Hex. rewrite E in Hex. cbn [mbind option_bind] in Hex.
  destruct Hp as [(Hst & [b0 Hb0] & Hr)|[Hst Hc]].
  - destruct (streaming_Some _ _ _ Hst) as [b1 Hb1]. rewrite Hb0, Hb1, Hr in Hex. injection Hex as <-. cbn.
    assert (Hgood : forall k, good k w -> good k (World s' (step_master o (w_master w)) (w_base w) (w_log w ++ step_log o (w_master w) (w_repl w)))).
    { intros k. apply good_step; [exact E|]. intros dictid argv -> Em.
      apply (wp_det _ _ _ _ _ (wp_step_feed dictid argv w Hw Hok) E); [done|by rewrite Hb0]. }
    split; [|left; by rewrite Hb0, Hb1]. intros x Hx. cbn in Hx. destruct (step_new_mark _ _ _ _ x E Hx) as [Ho|[-> Hdb]].
    + destruct (Hm x Ho) as (k & Hk & ->). exists k. split; [by apply Hgood|]. cbn. rewrite take_app_le by apply Hk. done.
    + exists (length (w_log w ++ step_log o (w_master w) (w_repl w))). split.
      * split; [cbn; lia|]. cbn. rewrite drop_ge by lia. split; [done|]. right. by left.
      * cbn. rewrite take_ge by lia. destruct Hst as [bl [[B _] _]]. pose proof (bo_hist _ _ _ _ _ _ B). lia.
  - assert (w' = World s' (step_master o (w_master w)) (master_repl_offset s') []) as ->.
    { destruct (repl_backlog (w_repl w)) as [b0|], (repl_backlog s') as [b1|], (restarts o (w_master w)); try (by injection Hex as <-).
      by destruct Hc as [[? _]|[?|[? _]]]. }
    split; [|right; split; [done|]; split; [done|]; destruct Hc as [[Hc _]|[Hc|[_ Hc]]]; tauto]. intros x Hx. cbn in Hx. cbn.
    assert (Hx2 : x = master_repl_offset s' /\ slaveseldb s' = -1).
    { assert (Hnone : slaves s' <> []) by (destruct Hx as (r & Hr & _); intros Esl; rewrite Esl in Hr; by apply not_elem_of_nil in Hr).
      destruct Hc as [[_ Hc]|[Hc|[Hc _]]]; [done| |].
      - destruct (step_new_mark _ _ _ _ x E Hx) as [(r & Hr & _)|H]; [|done]. destruct Hw as [[Hs|[(_ & _ & Hs & _) _]] _].
        + apply streaming_Some in Hs as [? Hs]. congruence.
        + rewrite Hs in Hr. by apply not_elem_of_nil in Hr.
      - destruct Hst as [(_ & _ & Hs & _)|Hs]; [done|]. apply streaming_Some in Hs as [? Hs]. congruence. }
    destruct Hx2 as [-> Hdb]. exists 0%nat. split; [|cbn; lia]. split; [done|]. split; [done|]. right. by left.
Qed.
End proofs.

