(* ===== verification/ReplProps.v ===== *)
(** What the replicas of a server get. *)

From stdpp Require Import list sorting.
From S2P Require Import Prelude State Util Resp AofCmd Repl ReplInv ReplFeed ReplSync ReplMarks ReplWorld.

Local Open Scope Z_scope.

(** ** Commands in the stream *)

(** The reader of a stream that executes its commands, with the DB it has selected, if that is
    known: what it executes. *)
Definition is_select (argv : list bytes) : Prop := exists d llstr, decimal d llstr /\ argv = select_args llstr.

Inductive reads : option Z -> bytes -> list (option Z * list bytes) -> Prop :=
  | reads_end cur : reads cur [] []
  | reads_select cur d llstr e x l : decimal d llstr -> encoded (select_args llstr) e -> reads (Some d) x l -> reads cur (e ++ x) l
  | reads_command cur argv e x l : ~ is_select argv -> encoded argv e -> reads cur x l -> reads cur (e ++ x) ((cur, argv) :: l).

(** The command of the log, in its DB if it has one. *)
Definition agrees (c : option Z * list bytes) (x : entry) : Prop :=
  match x with ECmd _ d argv => c.2 = argv /\ (d = -1 \/ c.1 = Some d) | ERaw _ => False end.

(** A command of the program in the log. *)
Definition entry_ok (x : entry) : Prop :=
  match x with ECmd cur d argv => command_bytes cur d argv (entry_bytes x) /\ ~ is_select argv | ERaw _ => False end.

Lemma in_db_reads l : forall cur, Forall entry_ok l -> in_db cur l -> exists cmds, reads cur (log_bytes l) cmds /\ Forall2 agrees cmds l.
Proof.
  induction l as [|[c d argv|buf] l IH]; intros cur Hl Hdb; apply Forall_cons in Hl as [Hx Hl] || idtac; [exists []; split; constructor| |by destruct Hx].
  destruct Hdb as [Hd Hdb]. destruct (IH _ Hl Hdb) as (cmds & Hr & Ha). destruct Hx as [Hx Hsel]. cbn [reader] in *.
  unfold log_bytes. cbn [fmap list_fmap concat]. fold (log_bytes l). destruct Hx as (sel & enc & He & -> & [[E ->]|(E & llstr & H1 & H2)]).
  - rewrite (proj2 (Z.eqb_eq c d)) in * by done. exists ((cur, argv) :: cmds). split; [by apply reads_command|]. constructor; [|done]. by split.
  - rewrite (proj2 (Z.eqb_neq c d)) in * by done. exists ((Some d, argv) :: cmds). rewrite <- app_assoc.
    split; [eapply reads_select; [done|done|]; by apply reads_command|]. constructor; [|done]. split; [done|by right].
Qed.

(** Operations of a server that stays a master; commands are not SELECT, which is never propagated as such. *)
Definition master_op (o : op) : Prop :=
  match o with SetMaster => False | Feed _ argv => ~ is_select argv | _ => True end.
Definition keeps_backlog (o : op) : Prop := match o with Expire _ => False | _ => True end.

Lemma refs_count l n : refs l n = Z.of_nat (length (filter (λ r, ref_repl_buf_node r = Some n) l)).
Proof.
  induction l as [|r l IH]; [done|]. cbn [refs]. rewrite IH, filter_cons. unfold ind. destruct (decide _); cbn [length]; lia.
Qed.

#[export] Instance replBufBlock_eq_dec : EqDecision replBufBlock.
Proof. solve_decision. Defined.

Section props.
Context (usable : Z -> Z) (Husable : forall n, n <= usable n) (dbnum : Z) (Hdbnum : 0 < dbnum /\ in_s 32 dbnum) (aux : bytes) (Haux : (24 <= length aux)%nat).

Abbreviation run := (run usable dbnum aux).
Abbreviation world_ok := (world_ok dbnum).

(** ** The invariant of a master *)

Definition master_ok (w : world) : Prop := world_ok w /\ marks_ok w /\ w_master w = false /\ Forall entry_ok (w_log w).

Lemma master_step o w : master_ok w -> op_ok dbnum o -> master_op o -> exists w', exec usable dbnum aux o w = Some w' /\ master_ok w' /\
  (keeps_backlog o -> is_Some (repl_backlog (w_repl w)) -> w_base w' = w_base w /\ w_log w `prefix_of` w_log w' /\ is_Some (repl_backlog (w_repl w')) /\ forall k, good k w -> good k w').
Proof.
  intros (Hw & Hm & Em & Hl) Hok Ho. destruct (exec_ok usable Husable dbnum Hdbnum aux Haux o w Hw Hok) as (w' & E & Hw').
  exists w'. split; [done|]. destruct (exec_marks usable Husable dbnum Hdbnum aux Haux o w w' Hw Hm Hok E) as [Hm' Hcase].
  assert (Em' : w_master w' = false) by (rewrite (exec_master _ _ _ _ _ _ E), Em; by destruct o).
  assert (Hnew : Forall entry_ok (step_log o (w_master w) (w_repl w))).
  { rewrite Em. destruct o as [dictid argv| | | | | | | | | | | | | | |]; try constructor; [|constructor]. destruct Hok as (Hd & Hn & Ha). split; [|done].
    pose proof (feed_db_ok dbnum dictid argv (w_repl w) (conj Hd (conj Hn Ha)) (proj2 Hw)) as Hdd. cbn [entry_bytes].
    destruct (command_stream_spec (slaveseldb (w_repl w)) (feed_db (w_repl w) dictid) argv) as (x & -> & Hx); [|cint|cint|done|exact Hx].
    destruct Hdd as [Hdd|Hdd]; [|lia]. destruct dictid as [d|]; [|by right]. left. by apply Hd. }
  destruct Hcase as [(E1 & E2 & H3 & H4 & H5)|(E1 & E2 & H3)].
  - split; [split_and!; try done; rewrite E2; by apply Forall_app|]. intros _ _. split; [done|]. split; [rewrite E2; by eexists|]. by split.
  - split; [split_and!; try done; by rewrite E1|]. intros Hk [b Hb]. destruct H3 as [H3|[H3|[e ->]]]; [|congruence|done].
    rewrite Em in H3. by destruct o.
Qed.

Lemma master_run l : forall w, master_ok w -> Forall (op_ok dbnum) l -> Forall master_op l -> exists w', run l w = Some w' /\ master_ok w' /\
  (Forall keeps_backlog l -> is_Some (repl_backlog (w_repl w)) -> w_base w' = w_base w /\ w_log w `prefix_of` w_log w' /\ is_Some (repl_backlog (w_repl w')) /\ forall k, good k w -> good k w').
Proof.
  induction l as [|o l IH]; intros w Hw Hok Ho; [exists w; by split|]. apply Forall_cons in Hok as [Hok1 Hok]. apply Forall_cons in Ho as [Ho1 Ho].
  destruct (master_step o w Hw Hok1 Ho1) as (w1 & E1 & H1 & K1). destruct (IH w1 H1 Hok Ho) as (w2 & E2 & H2 & K2).
  exists w2. cbn [ReplWorld.run]. rewrite E1. split; [exact E2|]. split; [done|]. intros [Hk1 Hk]%Forall_cons Hb.
  destruct (K1 Hk1 Hb) as (A1 & A2 & A3 & A4). destruct (K2 Hk A3) as (B1 & B2 & B3 & B4). split; [congruence|]. split; [by etransitivity|]. split; [done|].
  intros k Hgk. by apply B4, A4.
Qed.

Lemma initial_master w : initial w -> w_master w = false -> master_ok w.
Proof.
  intros Hi Em. pose proof Hi as ((_ & _ & Hsl & _) & _ & Hl). split; [by apply initial_ok|]. split; [|split; [done|by rewrite Hl]].
  intros o (r & Hr & _). rewrite Hsl in Hr. by apply not_elem_of_nil in Hr.
Qed.

(** What the replicas are to get is the end of the stream. *)
Lemma told_stream w r o : world_ok w -> r ∈ slaves (w_repl w) -> rdbonly r = false -> r_told r = Some o ->
  w_base w <= o <= w_base w + Z.of_nat (length (log_bytes (w_log w))) /\
  r_sent r ++ pending (repl_buffer_blocks (w_repl w)) r = drop (Z.to_nat (o - w_base w)) (log_bytes (w_log w)).
Proof.
  intros [[[bl [[B _] _]]|[(_ & _ & Hsl & _) _]] _] Hr Hrdb Ht; [|rewrite Hsl in Hr; by apply not_elem_of_nil in Hr].
  destruct (rk_told _ _ _ _ _ (bo_replicas _ _ _ _ _ _ B r Hr) o Hrdb Ht) as [H1 H2]. split; [done|]. rewrite H2. by destruct (ref_repl_buf_node r).
Qed.

(** ** Properties *)

(** C3: a server and its replicas over time, whatever commands are executed, connections accept or
    refuse, replicas come by SYNC or PSYNC and go, RDB files are saved or fail, the backlog is
    resized or expires, and the server follows and leaves masters: no assertion fails, and each
    replica that was told to be at the offset [o] has been sent, together with what is
    pending for it in the shared blocks, exactly the stream after [o]: the commands and SELECTs as they are
    written to the AOF, and the bytes that were passed on.  The histories are those in which a replica
    changes REPLCONF RDB-ONLY only before its RDB file is begun ([rdb_only_open]).  Later, the code still
    obeys it, and both conclusions fail: [rdb_only_then_ack_fails] (an assertion) and
    [rdb_only_loses_commands] (another replica misses commands). *)
Theorem replicas_get_the_stream l w0 : initial w0 -> Forall (op_ok dbnum) l -> exists w, run l w0 = Some w /\
  forall r o, r ∈ slaves (w_repl w) -> rdbonly r = false -> r_told r = Some o ->
    w_base w <= o <= master_repl_offset (w_repl w) /\
    r_sent r ++ pending (repl_buffer_blocks (w_repl w)) r = drop (Z.to_nat (o - w_base w)) (log_bytes (w_log w)).
Proof.
  intros Hi Hl. destruct (run_ok usable Husable dbnum Hdbnum aux Haux l w0) as (w & E & Hw); [by apply initial_ok|done|].
  exists w. split; [exact E|]. intros r o Hr Hrdb Ho. destruct (told_stream w r o Hw Hr Hrdb Ho) as [H1 H2]. split; [|done].
  destruct Hw as [[[bl [[B _] _]]|[(_ & _ & Hsl & _) _]] _]; [|rewrite Hsl in Hr; by apply not_elem_of_nil in Hr].
  pose proof (bo_hist _ _ _ _ _ _ B). lia.
Qed.

(** C19: the shared blocks are accounted for at all times: every block has as many references as replicas
    are at it, and one more for the backlog if it is the first; only the last block has
    room; the blocks are in a row and hold the end of the stream, of the length [histlen]
    from [bl_offset] on; the index names blocks by their first offset in increasing order; and the memory counter is the size of the blocks. *)
Theorem blocks_are_accounted l w0 : initial w0 -> Forall (op_ok dbnum) l -> exists w, run l w0 = Some w /\
  forall bl, repl_backlog (w_repl w) = Some bl -> let s := w_repl w in let blocks := repl_buffer_blocks s in
    (forall b, b ∈ blocks -> refcount b = Z.of_nat (length (filter (λ r, ref_repl_buf_node r = Some (b_id b)) (slaves s))) +
       (if decide (head blocks = Some b) then 1 else 0)) /\
    NoDup (b_id <$> blocks) /\ chained (bl_offset bl) blocks /\ repl_buffer_mem s = total_mem blocks /\
    histlen bl = Z.of_nat (length (content blocks)) /\ bl_offset bl + histlen bl = master_repl_offset s + 1 /\
    (exists old, log_bytes (w_log w) = old ++ content blocks) /\ StronglySorted Z.lt (blocks_index bl).*1 /\
    (forall k n, (k, n) ∈ blocks_index bl -> exists b, b ∈ blocks /\ b_id b = n /\ repl_offset b = k).
Proof.
  intros Hi Hl. destruct (run_ok usable Husable dbnum Hdbnum aux Haux l w0) as (w & E & Hw); [by apply initial_ok|done|].
  exists w. split; [exact E|]. intros bl Hbl. destruct Hw as [[[bl' [[B BR] Ho]]|[(H & _) _]] _]; [|congruence].
  pose proof (bo_backlog _ _ _ _ _ _ B) as E2. rewrite Hbl in E2. injection E2 as <-. cbv zeta. pose proof (bo_ids _ _ _ _ _ _ B) as Hnd.
  split; [|split; [done|split; [|split; [apply B|split; [apply B|split; [lia|split; [apply B|split; apply B]]]]]]].
  - intros b Hb. rewrite (bo_counts _ _ _ _ _ _ B b Hb), refs_count. f_equal. rewrite BR. unfold ind.
    destruct (repl_buffer_blocks (w_repl w)) as [|b0 rest]; [by apply not_elem_of_nil in Hb|]. cbn [head fmap option_fmap option_map].
    destruct (decide (Some b0 = Some b)) as [[= ->]|Hne]; [by rewrite decide_True|]. apply decide_False. intros [= Eid]. apply Hne. f_equal.
    apply elem_of_cons in Hb as [->|Hb]; [done|]. cbn in Hnd. apply NoDup_cons in Hnd as [Hnd _]. destruct Hnd. rewrite Eid. by apply list_elem_of_fmap_2.
  - rewrite Ho. apply B.
Qed.

(** C12: PSYNC, in any state a server can get into: the reply is +CONTINUE exactly if the replication ID
    is the one of the server, or its former one up to the offset where it changed, and the bytes from the
    offset on are still in the backlog. Then the search through the index and the blocks does not fail,
    nothing has been sent yet, and what is pending for the replica is exactly the stream from the offset
    on. Otherwise nothing changes. *)
Theorem partial_resync_is_exact l w0 c rdb id p : initial w0 -> Forall (op_ok dbnum) l -> exists w ok s', run l w0 = Some w /\
  (find_replica (slaves (w_repl w)) c = None ->
     masterTryPartialResynchronization c rdb id p true (w_repl w) = Some (ok, s') /\ (ok = true <-> psync_possible (w_repl w) id p) /\
     (ok = false -> s' = w_repl w) /\
     (ok = true -> exists r, slaves s' = slaves (w_repl w) ++ [r] /\ resumed c p rdb true r /\
        (rdb = false -> pending (repl_buffer_blocks s') r = drop (Z.to_nat (p - 1 - w_base w)) (log_bytes (w_log w))))).
Proof.
  intros Hi Hl. destruct (run_ok usable Husable dbnum Hdbnum aux Haux l w0) as (w & E & Hw); [by apply initial_ok|done|].
  destruct (find_replica (slaves (w_repl w)) c) as [r|] eqn:Hc; [exists w, true, (w_repl w); split; [done|congruence]|]. destruct Hw as [[[bl Hbl]|[Hn Hlog]] _].
  - destruct (wp_partial (log_bytes (w_log w)) (w_base w) (w_repl w) bl c rdb id p true (λ ok s', (ok = true <-> psync_possible (w_repl w) id p) /\
      (ok = false -> s' = w_repl w) /\ (ok = true -> exists r, slaves s' = slaves (w_repl w) ++ [r] /\ resumed c p rdb true r /\
        (rdb = false -> pending (repl_buffer_blocks s') r = drop (Z.to_nat (p - 1 - w_base w)) (log_bytes (w_log w)))))) as (ok & s' & E1 & H); [done|done| | |].
    + by intros H.
    + intros H s' r H1 _ Hsl Hr. split; [by split|]. split; [done|]. intros _. exists r. split; [done|]. split; [done|]. intros Hrdb.
      destruct H1 as [[B _] _]. destruct Hr as (_ & _ & H4 & _ & _ & H7 & H8).
      destruct (rk_told _ _ _ _ _ (bo_replicas _ _ _ _ _ _ B r ltac:(rewrite Hsl; apply elem_of_app; right; by left)) (p - 1)) as [_ H9]; [by rewrite H4|done|].
      rewrite H7 in H9. cbn [app] in H9. rewrite H9. by destruct (ref_repl_buf_node r).
    + by exists w, ok, s'.
  - exists w, false, (w_repl w). split; [done|]. intros _. destruct Hn as (Hb & _). split.
    + unfold masterTryPartialResynchronization. rewrite get_bind. destruct (_ && _); [done|]. by rewrite Hb.
    + split; [split; [done|intros (_ & bl & Hbl & _); congruence]|]. by split.
Qed.

(** C9: replication of commands, from an empty master to a replica: if a replica waits for an RDB file saved at the offset
    [o], whatever happens then until the backlog is freed, there is a place in the
    log of commands so that the stream of every replica that was told [o], what it has been sent and what is pending,
    reads as exactly the commands executed since, in order, and each of them that was executed in a DB is executed in the
    same DB, whatever DB the replica had selected. *)
Theorem full_resync_replays_commands l1 l2 w0 w1 w2 o : initial w0 -> w_master w0 = false -> Forall (op_ok dbnum) (l1 ++ l2) -> Forall master_op (l1 ++ l2) ->
  Forall keeps_backlog l2 -> run l1 w0 = Some w1 -> waits_for (w_repl w1) o -> run l2 w1 = Some w2 ->
  exists k cmds, (k <= length (w_log w1))%nat /\ w_log w1 `prefix_of` w_log w2 /\ Forall2 agrees cmds (drop k (w_log w2)) /\
    forall r, r ∈ slaves (w_repl w2) -> rdbonly r = false -> r_told r = Some o ->
      reads None (r_sent r ++ pending (repl_buffer_blocks (w_repl w2)) r) cmds.
Proof.
  intros Hi Em [Hok1 Hok2]%Forall_app [Ho1 Ho2]%Forall_app Hk E1 Hw E2.
  destruct (master_run l1 w0 (initial_master w0 Hi Em) Hok1 Ho1) as (w1' & E1' & H1 & _). rewrite E1 in E1'. injection E1' as <-.
  destruct (master_run l2 w1 H1 Hok2 Ho2) as (w2' & E2' & H2 & K2). rewrite E2 in E2'. injection E2' as <-.
  destruct H1 as (Hw1 & Hm1 & Em1 & Hl1). destruct (Hm1 o Hw) as (k & Hg & ->).
  assert (Hb : is_Some (repl_backlog (w_repl w1))).
  { destruct Hw1 as [[Hs|[(_ & _ & Hs & _) _]] _]; [by eapply streaming_Some|]. destruct Hw as (r & Hr & _). rewrite Hs in Hr. by apply not_elem_of_nil in Hr. }
  destruct (K2 Hk Hb) as (Eb & [l Hpre] & _ & Hgood). specialize (Hgood k Hg). pose proof (proj1 Hg) as Hk1. destruct Hgood as (_ & Hin & _). destruct H2 as (Hw2 & _ & _ & Hl2).
  destruct (in_db_reads (drop k (w_log w2)) None) as (cmds & Hr & Ha); [by apply Forall_drop|done|].
  exists k, cmds. split; [done|]. split; [by exists l|]. split; [done|]. intros r Hin2 Hrdb Ht.
  destruct (told_stream w2 r _ Hw2 Hin2 Hrdb Ht) as [_ ->]. rewrite Eb, Hpre.
  replace (log_bytes (w_log w1 ++ l)) with (log_bytes (take k (w_log w1)) ++ log_bytes (drop k (w_log w1 ++ l))).
  - replace (Z.to_nat _) with (length (log_bytes (take k (w_log w1)))) by lia. rewrite drop_app_length, <- Hpre. exact Hr.
  - rewrite <- log_bytes_app. f_equal. rewrite <- (take_app_le (w_log w1) l k) by done. apply take_drop.
Qed.
End props.


(** ** Witnesses *)

Definition example_env : renv := REnv false false false false true (λ _, true) (λ _ _, true) (λ _, true) 5.
Definition example_world : world := World (RState 100 1 2 (-1) (-1) 16384 None [] 0 0 []) false 100 [].
Definition example_sync : list op := [Sync example_env 7 false None; Feed (Some 3) [str "SET"; str "k"; str "v"]].
Definition example_stream : list op := [BgsaveDone true true (λ _, true); Ack 7; Write 7 [10; 1000]; Feed (Some 3) [str "INCR"; str "n"]; Feed None [str "PING"]].
Definition example_aux : bytes := replicate 24 0.

Lemma example_initial : initial example_world.
Proof. done. Qed.
Lemma example_ok : Forall (op_ok 16) (example_sync ++ example_stream).
Proof.
  cbn [example_sync example_stream app]. repeat (apply Forall_cons_2; [cbn [op_ok]; try exact I|]); [..|by apply Forall_nil_2].
  all: split; [intros d; cbn; intros [= <-]; lia|split; [by_compute|repeat constructor; by_compute]].
Qed.
Lemma example_master_ops : Forall master_op (example_sync ++ example_stream).
Proof. repeat constructor; intros (d & llstr & _ & E); discriminate. Qed.

Lemma replicas_get_the_stream_witness :
  exists w, ReplWorld.run (λ n, n) 16 example_aux (example_sync ++ example_stream) example_world = Some w /\
    forall r o, r ∈ slaves (w_repl w) -> rdbonly r = false -> r_told r = Some o -> w_base w <= o <= master_repl_offset (w_repl w) /\
      r_sent r ++ pending (repl_buffer_blocks (w_repl w)) r = drop (Z.to_nat (o - w_base w)) (log_bytes (w_log w)).
Proof.
  apply (replicas_get_the_stream (λ n, n) (λ n, Z.le_refl n) 16 ltac:(split; [lia|by_compute]) example_aux ltac:(cbn; lia) _ _ example_initial example_ok).
Defined.

Example example_replica : exists w r, ReplWorld.run (λ n, n) 16 example_aux (example_sync ++ example_stream) example_world = Some w /\
  slaves (w_repl w) = [r] /\ r_told r = Some 100 /\ length (r_sent r) = 50%nat /\ length (pending (repl_buffer_blocks (w_repl w)) r) = 35%nat.
Proof. eexists _, _. split; [vm_compute; reflexivity|]. vm_compute. split_and!; reflexivity. Qed.

Lemma blocks_are_accounted_witness :
  exists w, ReplWorld.run (λ n, n) 16 example_aux (example_sync ++ example_stream) example_world = Some w /\
  forall bl, repl_backlog (w_repl w) = Some bl -> let s := w_repl w in let blocks := repl_buffer_blocks s in
    (forall b, b ∈ blocks -> refcount b = Z.of_nat (length (filter (λ r, ref_repl_buf_node r = Some (b_id b)) (slaves s))) +
       (if decide (head blocks = Some b) then 1 else 0)) /\
    NoDup (b_id <$> blocks) /\ chained (bl_offset bl) blocks /\ repl_buffer_mem s = total_mem blocks /\
    histlen bl = Z.of_nat (length (content blocks)) /\ bl_offset bl + histlen bl = master_repl_offset s + 1 /\
    (exists old, log_bytes (w_log w) = old ++ content blocks) /\ StronglySorted Z.lt (blocks_index bl).*1 /\
    (forall k n, (k, n) ∈ blocks_index bl -> exists b, b ∈ blocks /\ b_id b = n /\ repl_offset b = k).
Proof.
  apply (blocks_are_accounted (λ n, n) (λ n, Z.le_refl n) 16 ltac:(split; [lia|by_compute]) example_aux ltac:(cbn; lia) _ _ example_initial example_ok).
Defined.

(** The state after the example. *)
Definition example_final : option world := ReplWorld.run (λ n, n) 16 example_aux (example_sync ++ example_stream) example_world.

Lemma partial_resync_is_exact_witness :
  exists w ok s', example_final = Some w /\
  (find_replica (slaves (w_repl w)) 8 = None ->
     masterTryPartialResynchronization 8 false 5 124 true (w_repl w) = Some (ok, s') /\ (ok = true <-> psync_possible (w_repl w) 5 124) /\
     (ok = false -> s' = w_repl w) /\
     (ok = true -> exists r, slaves s' = slaves (w_repl w) ++ [r] /\ resumed 8 124 false true r /\
        (false = false -> pending (repl_buffer_blocks s') r = drop (Z.to_nat (124 - 1 - w_base w)) (log_bytes (w_log w))))).
Proof.
  apply (partial_resync_is_exact (λ n, n) (λ n, Z.le_refl n) 16 ltac:(split; [lia|by_compute]) example_aux ltac:(cbn; lia) _ _ 8 false 5 124 example_initial example_ok).
Defined.

Lemma full_resync_replays_commands_witness :
  exists w1 w2, ReplWorld.run (λ n, n) 16 example_aux example_sync example_world = Some w1 /\ ReplWorld.run (λ n, n) 16 example_aux example_stream w1 = Some w2 /\
  exists k cmds, (k <= length (w_log w1))%nat /\ w_log w1 `prefix_of` w_log w2 /\ Forall2 agrees cmds (drop k (w_log w2)) /\
    forall r, r ∈ slaves (w_repl w2) -> rdbonly r = false -> r_told r = Some 100 ->
      reads None (r_sent r ++ pending (repl_buffer_blocks (w_repl w2)) r) cmds.
Proof.
  eexists _, _. split; [vm_compute; reflexivity|]. split; [vm_compute; reflexivity|].
  eapply (full_resync_replays_commands (λ n, n) (λ n, Z.le_refl n) 16 ltac:(split; [lia|by_compute]) example_aux ltac:(cbn; lia) example_sync example_stream
    example_world _ _ 100 example_initial eq_refl example_ok example_master_ops); [repeat constructor|vm_compute; reflexivity| |vm_compute; reflexivity].
  eexists. split; [by left|]. by split.
Defined.

(** Replica 7 sets the flag while its RDB file is being saved and clears it after the SET.  Replica 8, which
    comes then and shares the file and the place of replica 7, is told to be at offset 100 as well, and gets
    the stream without the SET. *)
Definition set_flag (x : bool) (w : world) : option world :=
  '(_, s) ← replconf_rdb_only 7 x (w_repl w); Some (World s (w_master w) (w_base w) (w_log w)).

Lemma rdb_only_loses_commands :
  exists w r, (let run := ReplWorld.run (λ n, n) 16 example_aux in
      w ← run [Sync example_env 7 false None] example_world; w ← set_flag true w;
      w ← run [Feed (Some 3) [str "SET"; str "k"; str "v"]] w; w ← set_flag false w;
      run [Sync (REnv true false false false true (λ _, true) (λ _ _, true) (λ _, true) 5) 8 false None; Feed (Some 3) [str "INCR"; str "n"]] w) = Some w /\
    find_replica (slaves (w_repl w)) 8 = Some r /\ rdbonly r = false /\ r_told r = Some 100 /\ w_base w = 100 /\
    r_sent r ++ pending (repl_buffer_blocks (w_repl w)) r <> log_bytes (w_log w).
Proof.
  eexists _, _. split; [vm_compute; reflexivity|]. split; [vm_compute; reflexivity|]. do 3 (split; [reflexivity|]).
  intros E. apply (f_equal length) in E. vm_compute in E. discriminate.
Qed.

