(* ===== verification/Lzf.v ===== *)
(** LZF compression (src/redis-7.0.11/src/lzf_c.c, lzf_d.c and lzfP.h), the
    compressor of long strings of the RDB file.

    The two areas of a call are byte lists, a pointer into one is the offset
    from its start, and every access is checked: [None] is an access outside of
    the area.  The hash table of the compressor lives on the stack and is not
    initialised ([INIT_HTAB] is 0), so it is a parameter that may hold anything;
    its slots are absolute addresses, [base] being the address of [in_data]. *)

From S2P Require Import Prelude.

Local Open Scope Z_scope.

(** The configuration of lzfP.h: [HLOG], and [VERY_FAST], [CHECK_INPUT] set,
    [STRICT_ALIGN], [INIT_HTAB], [LZF_USE_OFFSETS] clear. *)
Definition HLOG : Z := 16.
Definition HSIZE : Z := Z.shiftl 1 HLOG.
Definition MAX_LIT : Z := Z.shiftl 1 5.
Definition MAX_OFF : Z := Z.shiftl 1 13.
Definition MAX_REF : Z := Z.shiftl 1 8 + Z.shiftl 1 3.

(** [!lit]. *)
Definition no_lit (lit : Z) : Z := b2z (lit =? 0).

(** ** Compression *)

(** The local variables of [lzf_compress] that its loop changes. *)
Record cst := mk_cst {
  c_ip : Z;             (* ip - in_data *)
  c_op : Z;             (* op - out_data *)
  c_lit : Z;
  c_hval : Z;
  c_htab : Z -> Z;
  c_out : bytes         (* what out_data points to *)
}.

(** How an iteration of the [while] loop ends: normally, with [break], or
    with [return 0]. *)
Inductive ctl := Next (s : cst) | Break (s : cst) | Return0 (out : bytes).

Definition set_slot (htab : Z -> Z) (i v : Z) : Z -> Z := λ j, if j =? i then v else htab j.

(** The macros [FRST(p)], [NEXT(v,p)] and [IDX(h)]. *)
Definition FRST (inp : bytes) (p : Z) : option Z :=
  p0 ← getb inp p; p1 ← getb inp (p + 1); Some (Z.lor (Z.shiftl p0 8) p1).
Definition NEXT (inp : bytes) (v p : Z) : option Z :=
  p2 ← getb inp (p + 2); Some (u32 (Z.lor (Z.shiftl v 8) p2)).
Definition IDX (h : Z) : Z := Z.land (u32 (Z.shiftr h (3 * 8 - HLOG) - h * 5)) (HSIZE - 1).

(** The sixteen [len++; if (ref[len] != ip[len]) break;] (the flag tells a
    [break]), and the [do ... while] after them. *)
Fixpoint unrolled (inp : bytes) (ref ip : Z) (k : nat) (len : Z) : option (Z * bool) :=
  match k with
  | O => Some (len, false)
  | S k =>
      let len := len + 1 in
      a ← getb inp (ref + len); b ← getb inp (ip + len);
      if a =? b then unrolled inp ref ip k len else Some (len, true)
  end.

Fixpoint do_while (inp : bytes) (ref ip maxlen : Z) (fuel : nat) (len : Z) : option Z :=
  match fuel with
  | O => None
  | S fuel =>
      let len := len + 1 in
      if len <? maxlen then
        a ← getb inp (ref + len); b ← getb inp (ip + len);
        if a =? b then do_while inp ref ip maxlen fuel len else Some len
      else Some len
  end.

(** The [for (;;)] of a match: the number of octets that agree. *)
Definition match_len (inp : bytes) (ref ip maxlen : Z) : option Z :=
  if maxlen >? 16 then
    '(len, stop) ← unrolled inp ref ip 16 2;
    if stop : bool then Some len else do_while inp ref ip maxlen (Z.to_nat MAX_REF) len
  else do_while inp ref ip maxlen (Z.to_nat MAX_REF) 2.

(** The condition of the [if]: [ref] is the address in the hash slot. *)
Definition is_match (base : Z) (inp : bytes) (ip ref off : Z) : option bool :=
  if (off <? MAX_OFF) && (base <? ref) then
    r2 ← getb inp (ref - base + 2); p2 ← getb inp (ip + 2);
    if r2 =? p2 then
      r ← rd inp (ref - base) 2; p ← rd inp ip 2;
      Some (le_value r =? le_value p)
    else Some false
  else Some false.

(** The octets of a back reference. *)
Definition emit_ref (len off op : Z) (out : bytes) : option (Z * bytes) :=
  '(op, out) ←
    (if len <? 7 then
       out ← setb out op (u8 (Z.shiftr off 8 + Z.shiftl len 5)); Some (op + 1, out)
     else
       out ← setb out op (u8 (Z.shiftr off 8 + Z.shiftl 7 5));
       out ← setb out (op + 1) (u8 (len - 7)); Some (op + 2, out));
  out ← setb out op (u8 off);
  Some (op + 1, out).

(** The branch of a match ([c_hval], [c_htab] already updated). *)
Definition compress_match (base : Z) (inp : bytes) (out_len ref off : Z) (s : cst) : option ctl :=
  let in_len := Z.of_nat (length inp) in
  let ip := c_ip s in let op := c_op s in let lit := c_lit s in
  let maxlen := Z.min (in_len - ip - 2) MAX_REF in
  if (op + 3 + 1 >=? out_len) && (op - no_lit lit + 3 + 1 >=? out_len) then Some (Return0 (c_out s))
  else
    out ← setb (c_out s) (op - lit - 1) (u8 (lit - 1));
    let op := op - no_lit lit in
    len ← match_len inp (ref - base) ip maxlen;
    let len := len - 2 in
    let ip := ip + 1 in
    '(op, out) ← emit_ref len off op out;
    let op := op + 1 in
    let ip := ip + (len + 1) in
    if ip >=? in_len - 2 then Some (Break (mk_cst ip op 0 (c_hval s) (c_htab s) out))
    else
      let ip := ip - 2 in
      h ← FRST inp ip;
      h ← NEXT inp h ip;
      let htab := set_slot (c_htab s) (IDX h) (base + ip) in
      let ip := ip + 1 in
      h ← NEXT inp h ip;
      let htab := set_slot htab (IDX h) (base + ip) in
      let ip := ip + 1 in
      Some (Next (mk_cst ip op 0 h htab out)).

(** [lit++; *op++ = *ip++;] and the end of a run of [MAX_LIT] octets. *)
Definition push_literal (inp : bytes) (s : cst) : option cst :=
  b ← getb inp (c_ip s);
  out ← setb (c_out s) (c_op s) b;
  let ip := c_ip s + 1 in let op := c_op s + 1 in let lit := c_lit s + 1 in
  if lit =? MAX_LIT then
    out ← setb out (op - lit - 1) (u8 (lit - 1));
    Some (mk_cst ip (op + 1) 0 (c_hval s) (c_htab s) out)
  else Some (mk_cst ip op lit (c_hval s) (c_htab s) out).

Definition compress_literal (inp : bytes) (out_len : Z) (s : cst) : option ctl :=
  if c_op s >=? out_len then Some (Return0 (c_out s))
  else s ← push_literal inp s; Some (Next s).

(** One iteration of the main loop. *)
Definition compress_step (base : Z) (inp : bytes) (out_len : Z) (s : cst) : option ctl :=
  let ip := c_ip s in
  h ← NEXT inp (c_hval s) ip;
  let ref := c_htab s (IDX h) in
  let s := mk_cst ip (c_op s) (c_lit s) h (set_slot (c_htab s) (IDX h) (base + ip)) (c_out s) in
  let off := u64 (base + ip - ref - 1) in
  m ← is_match base inp ip ref off;
  if m : bool then compress_match base inp out_len ref off s else compress_literal inp out_len s.

(** [while (ip < in_end - 2)]; the result is the state the loop leaves, or the
    output area of a [return 0]. *)
Fixpoint compress_loop (base : Z) (inp : bytes) (out_len : Z) (fuel : nat) (s : cst) : option (cst + bytes) :=
  if c_ip s <? Z.of_nat (length inp) - 2 then
    match fuel with
    | O => None
    | S fuel =>
        c ← compress_step base inp out_len s;
        match c with
        | Next s => compress_loop base inp out_len fuel s
        | Break s => Some (inl s)
        | Return0 out => Some (inr out)
        end
    end
  else Some (inl s).

(** [while (ip < in_end)]: the last octets are literals. *)
Fixpoint flush_loop (inp : bytes) (fuel : nat) (s : cst) : option cst :=
  if c_ip s <? Z.of_nat (length inp) then
    match fuel with
    | O => None
    | S fuel => s ← push_literal inp s; flush_loop inp fuel s
    end
  else Some s.

(** [lzf_compress]: the value it returns and the output area. *)
Definition lzf_compress (base : Z) (htab : Z -> Z) (inp out : bytes) : option (Z * bytes) :=
  let in_len := Z.of_nat (length inp) in
  let out_len := Z.of_nat (length out) in
  if (in_len =? 0) || (out_len =? 0) then Some (0, out)
  else
    h ← FRST inp 0;
    r ← compress_loop base inp out_len (length inp) (mk_cst 0 1 0 h htab out);
    match r with
    | inr out => Some (0, out)
    | inl s =>
        if c_op s + 3 >? out_len then Some (0, c_out s)
        else
          s ← flush_loop inp (length inp) s;
          out ← setb (c_out s) (c_op s - c_lit s - 1) (u8 (c_lit s - 1));
          Some (c_op s - no_lit (c_lit s), out)
    end.

(** ** Decompression *)

Inductive errno := E2BIG | EINVAL.

(** The end of [lzf_decompress]: the length of the output, or [return 0] with
    [errno] set. *)
Inductive dres := Done (n : Z) | Error (e : errno).

(** The value the function returns. *)
Definition returned (r : dres) : Z := match r with Done n => n | Error _ => 0 end.

(** [*op++ = *ip++], [k] times; and [*op++ = *ref++], inside the output. *)
Fixpoint copy_in (inp : bytes) (k : nat) (ip op : Z) (out : bytes) : option bytes :=
  match k with
  | O => Some out
  | S k => b ← getb inp ip; out ← setb out op b; copy_in inp k (ip + 1) (op + 1) out
  end.
Fixpoint copy_ref (k : nat) (ref op : Z) (out : bytes) : option bytes :=
  match k with
  | O => Some out
  | S k => b ← getb out ref; out ← setb out op b; copy_ref k (ref + 1) (op + 1) out
  end.

(** The [switch (len)] of a back reference of [len + 2] octets. *)
Definition copy_back_ref (len ref op : Z) (out : bytes) : option bytes :=
  if len <=? 9 then copy_ref (Z.to_nat (len + 2)) ref op out
  else
    let len := len + 2 in
    if op >=? ref + len then memmove out op ref (Z.to_nat len)
    else copy_ref (Z.to_nat len) ref op out.

(** The end of a back reference: its last octet is read at [ip]. *)
Definition copy_token (inp : bytes) (len ref ip op : Z) (out : bytes) : option (Z * Z * bytes + errno) :=
  b ← getb inp ip;
  let ref := ref - b in
  let ip := ip + 1 in
  if op + len + 2 >? Z.of_nat (length out) then Some (inr E2BIG)
  else if ref <? 0 then Some (inr EINVAL)
  else
    out ← copy_back_ref len ref op out;
    Some (inl (ip, op + (len + 2), out)).

(** One iteration: the new [ip], [op] and output area, or the error. *)
Definition decompress_step (inp : bytes) (ip op : Z) (out : bytes) : option (Z * Z * bytes + errno) :=
  let in_end := Z.of_nat (length inp) in
  let out_end := Z.of_nat (length out) in
  ctrl ← getb inp ip;
  let ip := ip + 1 in
  if ctrl <? Z.shiftl 1 5 then
    let ctrl := ctrl + 1 in
    if op + ctrl >? out_end then Some (inr E2BIG)
    else if ip + ctrl >? in_end then Some (inr EINVAL)
    else
      out ← copy_in inp (Z.to_nat ctrl) ip op out;
      Some (inl (ip + ctrl, op + ctrl, out))
  else
    let len := Z.shiftr ctrl 5 in
    let ref := op - Z.shiftl (Z.land ctrl 0x1f) 8 - 1 in
    if ip >=? in_end then Some (inr EINVAL)
    else
      r ← (if len =? 7 then
             b ← getb inp ip;
             if ip + 1 >=? in_end then Some (inr EINVAL) else Some (inl (len + b, ip + 1))
           else Some (inl (len, ip)));
      match r with
      | inr e => Some (inr e)
      | inl (len, ip) => copy_token inp len ref ip op out
      end.

Fixpoint decompress_loop (inp : bytes) (fuel : nat) (ip op : Z) (out : bytes) : option (dres * bytes) :=
  if ip <? Z.of_nat (length inp) then
    match fuel with
    | O => None
    | S fuel =>
        r ← decompress_step inp ip op out;
        match r with
        | inr e => Some (Error e, out)
        | inl (ip, op, out) => decompress_loop inp fuel ip op out
        end
    end
  else Some (Done op, out).

Definition lzf_decompress (inp out : bytes) : option (dres * bytes) :=
  decompress_loop inp (length inp) 0 0 out.
