(* ===== verification/LzfSpec.v ===== *)
(** The format of LZF and the correctness of its two functions.

    A compressed string is a list of tokens ([token], [encode]); [unlzf] is the
    reference decompressor, on lists.  [lzf_decompress_unlzf] shows that the
    code computes it on every input; [compress_loop_inv] is the invariant of the
    compressor: what is written is the encoding of tokens that stand for what
    was read, and the run of literals in progress. *)

From S2P Require Import Prelude Lzf.

Local Open Scope Z_scope.

(** ** The format *)

(** A run of literal octets, or [n] octets found [off + 1] octets before. *)
Inductive token := Lit (l : bytes) | Ref (n off : Z).

Definition tok_ok (t : token) : Prop :=
  match t with
  | Lit l => (1 <= length l <= 32)%nat
  | Ref n off => 3 <= n <= 264 /\ 0 <= off < 8192
  end.

Definition encode_tok (t : token) : bytes :=
  match t with
  | Lit l => (Z.of_nat (length l) - 1) :: l
  | Ref n off =>
      if n <? 9 then [off / 256 + 32 * (n - 2); off mod 256]
      else [off / 256 + 224; n - 9; off mod 256]
  end.

Definition encode (ts : list token) : bytes := ts ≫= encode_tok.

Lemma off_parts off :
  0 <= off < 8192 -> 0 <= off / 256 < 32 /\ 0 <= off mod 256 < 256 /\ off = off / 256 * 256 + off mod 256.
Proof.
  intros H. pose proof (Z.div_mod off 256 ltac:(lia)). pose proof (Z.mod_pos_bound off 256 ltac:(lia)).
  split_and!; [apply Z.div_pos; lia|apply Z.div_lt_upper_bound; lia|lia..].
Qed.

(** [k] octets copied from [off + 1] octets before the end, one by one: an
    octet may be one of those just copied. *)
Fixpoint copy_back (off : nat) (k : nat) (d : bytes) : bytes :=
  match k with
  | O => d
  | S k => copy_back off k (d ++ [d !!! (length d - S off)%nat])
  end.

Definition decode_tok (d : bytes) (t : token) : option bytes :=
  match t with
  | Lit l => Some (d ++ l)
  | Ref n off =>
      if off <? Z.of_nat (length d) then Some (copy_back (Z.to_nat off) (Z.to_nat n) d) else None
  end.

Fixpoint decode (d : bytes) (ts : list token) : option bytes :=
  match ts with
  | [] => Some d
  | t :: ts => d ← decode_tok d t; decode d ts
  end.

(** The reference decompressor: [d] is what is decompressed, into an area of
    [cap] bytes, [c] the first octet of a token and [r] what follows it. *)
Definition unlzf_step (cap : Z) (d : bytes) (c : Z) (r : bytes) : bytes * bytes + errno :=
  if c <? 32 then
    if Z.of_nat (length d) + (c + 1) >? cap then inr E2BIG
    else if Z.of_nat (length r) <? c + 1 then inr EINVAL
    else inl (d ++ take (Z.to_nat (c + 1)) r, drop (Z.to_nat (c + 1)) r)
  else
    match (if c / 32 =? 7 then match r with [] => None | x :: r => Some (7 + x, r) end
           else Some (c / 32, r)) with
    | None | Some (_, []) => inr EINVAL
    | Some (l, o :: r) =>
        let off := c mod 32 * 256 + o in
        if Z.of_nat (length d) + l + 2 >? cap then inr E2BIG
        else if Z.of_nat (length d) <=? off then inr EINVAL
        else inl (copy_back (Z.to_nat off) (Z.to_nat (l + 2)) d, r)
    end.

Fixpoint unlzf (fuel : nat) (cap : Z) (d inp : bytes) : bytes * option errno :=
  match fuel, inp with
  | O, _ | _, [] => (d, None)
  | S fuel, c :: r =>
      match unlzf_step cap d c r with
      | inr e => (d, Some e)
      | inl (d, r) => unlzf fuel cap d r
      end
  end.

(** The end of the code that corresponds to an end of [unlzf]. *)
Definition ended (r : bytes * option errno) : dres :=
  match r.2 with None => Done (Z.of_nat (length r.1)) | Some e => Error e end.

(** ** Byte accesses at the seam of two lists *)

Lemma getb_app_r a b i :
  Z.of_nat (length a) <= i -> getb (a ++ b) i = b !! Z.to_nat (i - Z.of_nat (length a)).
Proof.
  intros H. unfold getb. rewrite decide_True by lia.
  rewrite lookup_app_r by lia. f_equal. lia.
Qed.

Lemma getb_head a x b : getb (a ++ x :: b) (Z.of_nat (length a)) = Some x.
Proof. rewrite getb_app_r by lia. by rewrite Z.sub_diag. Qed.

Lemma setb_head a x b v : setb (a ++ x :: b) (Z.of_nat (length a)) v = Some (a ++ v :: b).
Proof.
  unfold setb. rewrite decide_True by (rewrite length_app; simpl; lia).
  f_equal. rewrite Nat2Z.id. by rewrite insert_app_r_alt, Nat.sub_diag by lia.
Qed.

Lemma getb_lookup m i : 0 <= i -> getb m i = m !! Z.to_nat i.
Proof. intros. unfold getb. by rewrite decide_True by lia. Qed.

Lemma getb_ok m i : 0 <= i < Z.of_nat (length m) -> exists v, getb m i = Some v.
Proof. intros. rewrite getb_lookup by lia. apply lookup_lt_is_Some_2. lia. Qed.

(** ** Copies *)

Lemma length_copy_back off k d : length (copy_back off k d) = (length d + k)%nat.
Proof. revert d. induction k as [|k IH]; intros d; simpl; [lia|]. rewrite IH, length_app. simpl. lia. Qed.

Lemma copy_in_spec inp pre l rest d t k :
  inp = pre ++ l ++ rest -> length l = k -> (k <= length t)%nat ->
  copy_in inp k (Z.of_nat (length pre)) (Z.of_nat (length d)) (d ++ t) = Some ((d ++ l) ++ drop k t).
Proof.
  intros ->. revert pre l d t. induction k as [|k IH]; intros pre l d t Hl Ht.
  { destruct l; [|done]. simpl. by rewrite app_nil_r, drop_0. }
  destruct l as [|x l]; [done|]. destruct t as [|y t]; [simpl in Ht; lia|]. simpl in *.
  rewrite getb_head. simpl. rewrite setb_head. simpl.
  replace (Z.of_nat (length pre) + 1) with (Z.of_nat (length (pre ++ [x]))) by (rewrite length_app; simpl; lia).
  replace (Z.of_nat (length d) + 1) with (Z.of_nat (length (d ++ [x]))) by (rewrite length_app; simpl; lia).
  rewrite (cons_middle x pre (l ++ rest)), (cons_middle x d t), (app_assoc pre), (app_assoc d).
  rewrite IH by lia. f_equal. by rewrite <- !app_assoc.
Qed.

Lemma copy_ref_spec off k d t :
  (off < length d)%nat -> (k <= length t)%nat ->
  copy_ref k (Z.of_nat (length d) - Z.of_nat off - 1) (Z.of_nat (length d)) (d ++ t) =
  Some (copy_back off k d ++ drop k t).
Proof.
  revert d t. induction k as [|k IH]; intros d t Hoff Ht; simpl; [by rewrite drop_0|].
  destruct t as [|y t]; [simpl in Ht; lia|]. simpl in Ht.
  destruct (lookup_lt_is_Some_2 d (length d - S off)) as [x Hx]; [lia|].
  rewrite getb_lookup by lia.
  replace (Z.to_nat (Z.of_nat (length d) - Z.of_nat off - 1)) with (length d - S off)%nat by lia.
  rewrite lookup_app_l by lia. rewrite Hx. simpl. rewrite setb_head. simpl.
  rewrite (list_lookup_total_correct _ _ _ Hx).
  rewrite (cons_middle x d t), app_assoc.
  rewrite <- IH by (rewrite ?length_app; simpl; lia).
  rewrite length_app. simpl. f_equal; lia.
Qed.

(** When the areas are disjoint the copy is one block. *)
Lemma copy_back_block off k d :
  (off < length d)%nat -> (k <= S off)%nat ->
  copy_back off k d = d ++ take k (drop (length d - S off) d).
Proof.
  intros Hoff Hk.
  enough (G : forall j, (j + k <= S off)%nat ->
    copy_back off k (d ++ take j (drop (length d - S off) d)) =
    d ++ take (j + k) (drop (length d - S off) d)).
  { specialize (G 0%nat). simpl in G. rewrite app_nil_r in G. apply G. lia. }
  clear Hk. induction k as [|k IH]; intros j Hj; simpl; [by rewrite Nat.add_0_r|].
  replace (j + S k)%nat with (S j + k)%nat by lia. rewrite <- IH by lia. f_equal.
  destruct (lookup_lt_is_Some_2 d (length d - S off + j)) as [x Hx]; [lia|].
  rewrite <- app_assoc. f_equal.
  rewrite (take_S_r _ _ x) by (by rewrite lookup_drop). f_equal. f_equal.
  apply list_lookup_total_correct. rewrite length_app, length_take, length_drop.
  rewrite lookup_app_l by lia. rewrite <- Hx. f_equal. lia.
Qed.

Lemma copy_back_ref_spec off len d t :
  (off < length d)%nat -> 0 <= len -> len + 2 <= Z.of_nat (length t) ->
  copy_back_ref len (Z.of_nat (length d) - Z.of_nat off - 1) (Z.of_nat (length d)) (d ++ t) =
  Some (copy_back off (Z.to_nat (len + 2)) d ++ drop (Z.to_nat (len + 2)) t).
Proof.
  intros Hoff H0 Ht. unfold copy_back_ref.
  destruct (len <=? 9) eqn:H9; [apply copy_ref_spec; lia|]. cbv zeta.
  destruct (_ >=? _) eqn:Hd; [|apply copy_ref_spec; lia].
  apply Z.geb_le in Hd. set (k := Z.to_nat (len + 2)) in *.
  rewrite copy_back_block by lia. unfold memmove, rd. rewrite length_app, decide_True by lia.
  cbn [mbind option_bind].
  replace (Z.to_nat (Z.of_nat (length d) - Z.of_nat off - 1)) with (length d - S off)%nat by lia.
  rewrite drop_app_le by lia. rewrite take_app_le by (rewrite length_drop; lia).
  set (bs := take k _).
  assert (Hbs : length bs = k) by (unfold bs; rewrite length_take, length_drop; lia).
  rewrite <- (take_drop k t) at 1. rewrite wr_app by (rewrite Hbs, length_take; lia).
  by rewrite app_assoc.
Qed.

(** ** Decompression *)

Lemma shiftr5 c : Z.shiftr c 5 = c / 32.
Proof. by rewrite Z.shiftr_div_pow2 by lia. Qed.

Lemma land_31 c : Z.land c 0x1f = c mod 32.
Proof. change 0x1f with (Z.ones 5). by rewrite Z.land_ones by lia. Qed.

Lemma app_snoc {A} (l : list A) x k : l ++ x :: k = (l ++ [x]) ++ k.
Proof. by rewrite <- app_assoc. Qed.

Lemma step_eq {A} (a a' b b' : Z) (c c' : A) :
  a = a' -> b = b' -> c = c' -> Some (inl (B := errno) (a, b, c)) = Some (inl (a', b', c')).
Proof. by intros -> -> ->. Qed.

(** What a step of the code does where the reference does [u]: the areas are
    [inp] and [d ++ t]. *)
Definition step_agrees (inp d t : bytes) (n : nat) (u : bytes * bytes + errno)
    (step : option (Z * Z * bytes + errno)) : Prop :=
  match u with
  | inr e => step = Some (inr e)
  | inl (d', r') => exists pre',
      step = Some (inl (Z.of_nat (length pre'), Z.of_nat (length d'),
                        d' ++ drop (length d' - length d) t)) /\
      inp = pre' ++ r' /\ (length r' <= n)%nat /\
      (length d <= length d' <= length d + length t)%nat /\ Forall is_byte r'
  end.

(** The end of a reference of [l + 2] octets whose last octet is [o]. *)
Lemma copy_token_unlzf inp ip pre o r d t l hi n :
  inp = pre ++ o :: r -> ip = Z.of_nat (length pre) -> (length r <= n)%nat ->
  Forall is_byte (o :: r) -> 1 <= l -> 0 <= hi ->
  step_agrees inp d t n
    (let off := hi * 256 + o in
     if Z.of_nat (length d) + l + 2 >? Z.of_nat (length d + length t) then inr E2BIG
     else if Z.of_nat (length d) <=? off then inr EINVAL
     else inl (copy_back (Z.to_nat off) (Z.to_nat (l + 2)) d, r))
    (copy_token inp l (Z.of_nat (length d) - Z.shiftl hi 8 - 1) ip (Z.of_nat (length d)) (d ++ t)).
Proof.
  intros -> -> Hn [Ho Hr]%Forall_cons Hl Hhi. unfold copy_token. rewrite getb_head.
  cbn [mbind option_bind]. rewrite Z.shiftl_mul_pow2 by lia. change (2 ^ 8) with 256.
  rewrite length_app.
  destruct (Z.gtb_spec (Z.of_nat (length d) + l + 2) (Z.of_nat (length d + length t))); [done|].
  assert (0 <= o < 256) by (cint_unfold; lia). cbv zeta. set (off := hi * 256 + o).
  replace (Z.of_nat (length d) - hi * 256 - 1 - o) with (Z.of_nat (length d) - Z.of_nat (Z.to_nat off) - 1) by lia.
  destruct (Z.leb_spec (Z.of_nat (length d)) off).
  - by rewrite (proj2 (Z.ltb_lt _ _)) by lia.
  - rewrite (proj2 (Z.ltb_ge _ _)) by lia.
    rewrite copy_back_ref_spec by lia. cbn [mbind option_bind step_agrees].
    exists (pre ++ [o]). rewrite length_copy_back, length_app, <- app_assoc. simpl.
    split_and!; [|done|done|lia..|done].
    apply step_eq; [lia..|]. do 2 f_equal. lia.
Qed.

(** One token, in the code: the areas are [pre ++ c :: r] and [d ++ t]. *)
Lemma decompress_step_unlzf pre c r d t :
  Forall is_byte (c :: r) ->
  step_agrees (pre ++ c :: r) d t (length r)
    (unlzf_step (Z.of_nat (length d + length t)) d c r)
    (decompress_step (pre ++ c :: r) (Z.of_nat (length pre)) (Z.of_nat (length d)) (d ++ t)).
Proof.
  intros Hb.
  pose proof Hb as [Hc Hr]%Forall_cons. unfold unlzf_step, decompress_step.
  rewrite getb_head. cbn [mbind option_bind]. change (Z.shiftl 1 5) with 32.
  rewrite !length_app. cbn [length].
  destruct (Z.ltb_spec c 32) as [H32|H32].
  - replace (Z.of_nat (length d + length t)) with (Z.of_nat (length d) + Z.of_nat (length t)) by lia.
    destruct (Z.gtb_spec (Z.of_nat (length d) + (c + 1)) (Z.of_nat (length d) + Z.of_nat (length t))); [done|].
    rewrite (Z.gtb_ltb (_ + 1 + _)).
    destruct (Z.ltb_spec (Z.of_nat (length r)) (c + 1)),
      (Z.ltb_spec (Z.of_nat (length pre + S (length r))) (Z.of_nat (length pre) + 1 + (c + 1)));
      try lia; [done|].
    assert (0 <= c) by cint.
    replace (Z.of_nat (length pre) + 1) with (Z.of_nat (length (pre ++ [c]))) by (rewrite length_app; simpl; lia).
    set (k := Z.to_nat (c + 1)).
    rewrite (copy_in_spec _ _ (take k r) (drop k r)) by
      (rewrite ?length_take, <- ?app_assoc; simpl; rewrite ?take_drop; (done || lia)).
    exists (pre ++ c :: take k r). cbn [mbind option_bind].
    rewrite !length_app, length_take. simpl. rewrite length_take, length_drop. split_and!; try lia.
    + apply step_eq; [lia..|]. do 2 f_equal. lia.
    + rewrite <- app_assoc. simpl. by rewrite take_drop.
    + by apply Forall_drop.
  - rewrite shiftr5, land_31.
    assert (1 <= c / 32) by (apply Z.div_le_lower_bound; lia).
    assert (0 <= c mod 32) by (apply Z.mod_pos_bound; lia).
    destruct (c / 32 =? 7) eqn:H7.
    + apply Z.eqb_eq in H7. destruct r as [|x r].
      { by rewrite (proj2 (Z.geb_le _ _)) by (simpl; lia). }
      replace (_ >=? _) with false by (symmetry; rewrite Z.geb_leb, Z.leb_gt; simpl; lia).
      apply Forall_cons in Hr as [Hx Hr]. rewrite (app_snoc pre c).
      replace (Z.of_nat (length pre) + 1) with (Z.of_nat (length (pre ++ [c]))) by (rewrite length_app; simpl; lia).
      rewrite getb_head. cbn [mbind option_bind].
      destruct r as [|o r].
      { by rewrite (proj2 (Z.geb_le _ _)) by (rewrite length_app; simpl; lia). }
      replace (_ >=? _) with false by (symmetry; rewrite Z.geb_leb, Z.leb_gt, length_app; simpl; lia).
      rewrite H7. eapply (copy_token_unlzf _ _ ((pre ++ [c]) ++ [x])).
      all: try done.
      * apply app_snoc.
      * rewrite !length_app. simpl. lia.
      * simpl. lia.
      * cint_unfold. lia.
    + destruct r as [|o r].
      { by rewrite (proj2 (Z.geb_le _ _)) by (simpl; lia). }
      replace (_ >=? _) with false by (symmetry; rewrite Z.geb_leb, Z.leb_gt; simpl; lia).
      cbn [mbind option_bind].
      apply (copy_token_unlzf _ _ (pre ++ [c])); try done; rewrite ?length_app, <- ?app_assoc; simpl; (done || lia).
Qed.

(** Consuming a token shortens the input: [fuel] is enough from the start. *)
Lemma decompress_loop_unlzf fuel pre r d t :
  Forall is_byte r -> (length r <= fuel)%nat ->
  let u := unlzf fuel (Z.of_nat (length d + length t)) d r in
  decompress_loop (pre ++ r) fuel (Z.of_nat (length pre)) (Z.of_nat (length d)) (d ++ t) =
  Some (ended u, u.1 ++ drop (length u.1 - length d) t) /\
  (length d <= length u.1 <= length d + length t)%nat.
Proof.
  revert pre r d t. induction fuel as [|fuel IH]; intros pre r d t Hb Hf u; subst u;
    destruct r as [|c r]; simpl in Hf; try lia.
  1, 2: cbn [decompress_loop unlzf fst]; rewrite app_nil_r, Z.ltb_irrefl;
    unfold ended; simpl; rewrite Nat.sub_diag, drop_0; split; [done|lia].
  cbn [decompress_loop unlzf].
  rewrite (proj2 (Z.ltb_lt _ _)) by (rewrite length_app; simpl; lia).
  pose proof (decompress_step_unlzf pre c r d t Hb) as Hs. unfold step_agrees in Hs.
  destruct (unlzf_step _ d c r) as [[d' r']|e].
  - destruct Hs as (pre' & -> & -> & Hlr & Hld & Hb'). cbn [mbind option_bind].
    specialize (IH pre' r' d' (drop (length d' - length d) t) Hb' ltac:(lia)) as [IH1 IH2].
    rewrite length_drop in IH1, IH2.
    replace (length d' + (length t - (length d' - length d)))%nat with (length d + length t)%nat in * by lia.
    rewrite IH1, drop_drop. split; [|lia]. do 3 f_equal. f_equal. lia.
  - rewrite Hs. cbn [mbind option_bind fst]. unfold ended. simpl.
    rewrite Nat.sub_diag, drop_0. split; [done|lia].
Qed.

Lemma lzf_decompress_unlzf inp out :
  Forall is_byte inp ->
  let u := unlzf (length inp) (Z.of_nat (length out)) [] inp in
  lzf_decompress inp out = Some (ended u, u.1 ++ drop (length u.1) out) /\ (length u.1 <= length out)%nat.
Proof.
  intros Hb u. destruct (decompress_loop_unlzf (length inp) [] inp [] out Hb ltac:(lia)) as [H1 H2].
  simpl in H1, H2. rewrite Nat.sub_0_r in H1. split; [exact H1|apply H2].
Qed.

(** ** Decompressing an encoding *)

Lemma encode_snoc ts t : encode (ts ++ [t]) = encode ts ++ encode_tok t.
Proof. unfold encode. rewrite bind_app. simpl. by rewrite app_nil_r. Qed.

Lemma decode_snoc d ts t : decode d (ts ++ [t]) = (d ← decode d ts; decode_tok d t).
Proof.
  revert d. induction ts as [|u ts IH]; intros d; simpl; [by destruct (decode_tok d t)|].
  destruct (decode_tok d u); simpl; [apply IH|done].
Qed.

Lemma copy_back_prefix off k d : d `prefix_of` copy_back off k d.
Proof.
  revert d. induction k as [|k IH]; intros d; simpl; [done|].
  etrans; [|apply IH]. by apply prefix_app_r.
Qed.

(** Decoding only appends. *)
Lemma decode_tok_prefix d t d' : decode_tok d t = Some d' -> d `prefix_of` d'.
Proof.
  destruct t; simpl; [intros [= <-]; by apply prefix_app_r|].
  case_match; [|done]. intros [= <-]. apply copy_back_prefix.
Qed.

Lemma decode_prefix d ts d' : decode d ts = Some d' -> d `prefix_of` d'.
Proof.
  revert d. induction ts as [|t ts IH]; intros d; simpl; [by intros [= <-]|].
  destruct (decode_tok d t) as [d1|] eqn:Ht; [|done]. simpl. intros ?%IH.
  etrans; [by eapply decode_tok_prefix|done].
Qed.

(** A step of the reference decodes a token, when there is room. *)
Lemma unlzf_step_tok cap d t d' rest :
  tok_ok t -> decode_tok d t = Some d' -> Z.of_nat (length d') <= cap ->
  exists c r, encode_tok t = c :: r /\ unlzf_step cap d c (r ++ rest) = inl (d', rest).
Proof.
  unfold unlzf_step. destruct t as [l|n off]; simpl.
  - intros Hl [= <-] Hcap. rewrite length_app in Hcap. eexists _, _. split; [done|].
    rewrite (proj2 (Z.ltb_lt _ _)) by lia.
    rewrite Z.gtb_ltb, (proj2 (Z.ltb_ge _ _)) by lia.
    rewrite length_app, (proj2 (Z.ltb_ge _ _)) by lia.
    replace (Z.to_nat _) with (length l) by lia. by rewrite take_app_length, drop_app_length.
  - intros [Hn Ho]. destruct (Z.ltb_spec off (Z.of_nat (length d))); [|done].
    intros [= <-] Hcap. rewrite length_copy_back in Hcap.
    destruct (off_parts off Ho) as (? & ? & ?).
    destruct (Z.ltb_spec n 9); (eexists _, _; split; [done|]).
    + rewrite (proj2 (Z.ltb_ge _ _)) by lia.
      replace (off / 256 + 32 * (n - 2)) with (off / 256 + (n - 2) * 32) by lia.
      rewrite Z.div_add, Z.mod_add by lia. rewrite Z.div_small, (Z.mod_small (off / 256)) by lia.
      rewrite (proj2 (Z.eqb_neq _ _)) by lia. simpl.
      replace (_ * 256 + _) with off by lia. rewrite Z.gtb_ltb, (proj2 (Z.ltb_ge _ _)) by lia.
      rewrite (proj2 (Z.leb_gt _ _)) by lia. do 3 f_equal. lia.
    + rewrite (proj2 (Z.ltb_ge _ _)) by lia.
      change 224 with (7 * 32). rewrite Z.div_add, Z.mod_add by lia.
      rewrite Z.div_small, (Z.mod_small (off / 256)) by lia. simpl.
      replace (_ * 256 + _) with off by lia. rewrite Z.gtb_ltb, (proj2 (Z.ltb_ge _ _)) by lia.
      rewrite (proj2 (Z.leb_gt _ _)) by lia. do 3 f_equal. lia.
Qed.

Lemma unlzf_encode fuel cap d ts d' :
  Forall tok_ok ts -> decode d ts = Some d' -> Z.of_nat (length d') <= cap ->
  (length (encode ts) <= fuel)%nat -> unlzf fuel cap d (encode ts) = (d', None).
Proof.
  revert fuel d. induction ts as [|t ts IH]; intros fuel d Hok Hd Hcap Hf; simpl in Hd.
  { simplify_eq. by destruct fuel. }
  apply Forall_cons in Hok as [Hok Hoks].
  destruct (decode_tok d t) as [d1|] eqn:Ht; [|done]. simpl in Hd.
  pose proof (prefix_length _ _ (decode_prefix _ _ _ Hd)).
  destruct (unlzf_step_tok cap d t d1 (encode ts) Hok Ht ltac:(lia)) as (c & r & He & Hs).
  change (encode (t :: ts)) with (encode_tok t ++ encode ts) in *. rewrite He in *. simpl in *.
  rewrite length_app in Hf. destruct fuel as [|fuel]; [lia|]. simpl. rewrite Hs. apply IH; auto with lia.
Qed.

(** The compressor of LZF is correct whatever its hash table holds, and what it
    writes decompresses to its input. *)

(** ** The length of a match *)

(** The [n] first octets at [ref] and at [ip] agree. *)
Definition agree (inp : bytes) (ref ip : Z) (n : Z) : Prop :=
  forall i, 0 <= i < n -> getb inp (ref + i) = getb inp (ip + i).

Section Match.
Context (inp : bytes) (ref ip : Z).
Context (Href : 0 <= ref < ip).

Lemma agree_S n a :
  0 <= n -> agree inp ref ip n -> getb inp (ref + n) = Some a -> getb inp (ip + n) = Some a ->
  agree inp ref ip (n + 1).
Proof.
  intros Hn Hag Ha Hb i Hi. destruct (decide (i = n)) as [->|]; [congruence|]. apply Hag. lia.
Qed.

Lemma unrolled_spec k len :
  0 <= len -> agree inp ref ip (len + 1) -> ip + len + Z.of_nat k < Z.of_nat (length inp) ->
  exists len' stop, unrolled inp ref ip k len = Some (len', stop) /\
    if stop then len < len' <= len + Z.of_nat k /\ agree inp ref ip len'
    else len' = len + Z.of_nat k /\ agree inp ref ip (len' + 1).
Proof.
  revert len. induction k as [|k IH]; intros len H0 Hag Hlen.
  { exists len, false. split; [done|]. split; [lia|done]. }
  cbn [unrolled].
  destruct (getb_ok inp (ref + (len + 1))) as [a Ha]; [lia|].
  destruct (getb_ok inp (ip + (len + 1))) as [b Hb]; [lia|].
  rewrite Ha, Hb. cbn [mbind option_bind]. destruct (Z.eqb_spec a b) as [<-|].
  - destruct (IH (len + 1)) as (len' & stop & -> & H); [lia|by eapply agree_S; eauto with lia|lia|].
    exists len', stop. split; [done|]. destruct stop; destruct H; split; (done || lia).
  - exists (len + 1), true. split; [done|]. split; [lia|done].
Qed.

Lemma do_while_spec maxlen fuel len :
  0 <= len -> agree inp ref ip (len + 1) -> maxlen - len <= Z.of_nat fuel -> (0 < fuel)%nat ->
  ip + maxlen <= Z.of_nat (length inp) ->
  exists len', do_while inp ref ip maxlen fuel len = Some len' /\
    len < len' <= Z.max (len + 1) maxlen /\ agree inp ref ip len'.
Proof.
  revert len. induction fuel as [|fuel IH]; intros len H0 Hag Hf Hf0 Hlen; [lia|].
  cbn [do_while]. destruct (Z.ltb_spec (len + 1) maxlen).
  - destruct (getb_ok inp (ref + (len + 1))) as [a Ha]; [lia|].
    destruct (getb_ok inp (ip + (len + 1))) as [b Hb]; [lia|].
    rewrite Ha, Hb. cbn [mbind option_bind]. destruct (Z.eqb_spec a b) as [<-|].
    + destruct (IH (len + 1)) as (len' & -> & ? & ?); [lia|by eapply agree_S; eauto with lia|lia..|].
      exists len'. split_and!; [done|lia..|done].
    + exists (len + 1). split_and!; [done|lia..|done].
  - exists (len + 1). split_and!; [done|lia..|done].
Qed.

Lemma match_len_spec :
  agree inp ref ip 3 -> ip + 3 <= Z.of_nat (length inp) ->
  let maxlen := Z.min (Z.of_nat (length inp) - ip - 2) MAX_REF in
  exists len, match_len inp ref ip maxlen = Some len /\
    3 <= len <= 264 /\ ip + len <= Z.of_nat (length inp) /\ agree inp ref ip len.
Proof.
  intros Hag H3 maxlen. unfold match_len. change MAX_REF with 264 in *.
  destruct (Z.gtb_spec maxlen 16).
  - destruct (unrolled_spec 16 2) as (len & [] & -> & Hl & Ha); [lia|done|lia|..]; cbn [mbind option_bind].
    + exists len. split_and!; [done|lia..|done].
    + destruct (do_while_spec maxlen (Z.to_nat 264) len) as (len' & -> & ? & ?); [lia|done|lia..|].
      exists len'. split_and!; [done|lia..|done].
  - destruct (do_while_spec maxlen (Z.to_nat 264) 2) as (len' & -> & ? & ?); [lia|done|lia..|].
    exists len'. split_and!; [done|lia..|done].
Qed.

(** Agreeing octets are what the decompressor copies. *)
Lemma copy_back_agree n :
  0 <= n -> ip + n <= Z.of_nat (length inp) -> agree inp ref ip n ->
  copy_back (Z.to_nat (ip - ref - 1)) (Z.to_nat n) (take (Z.to_nat ip) inp) = take (Z.to_nat (ip + n)) inp.
Proof.
  intros Hn Hlen Hag.
  enough (G : forall k j, (j + k = Z.to_nat n)%nat ->
    copy_back (Z.to_nat (ip - ref - 1)) k (take (Z.to_nat ip + j) inp) = take (Z.to_nat ip + (j + k)) inp).
  { rewrite Z2Nat.inj_add by lia. specialize (G (Z.to_nat n) 0%nat eq_refl). by rewrite !Nat.add_0_r in G. }
  induction k as [|k IH]; intros j Hj; cbn [copy_back]; [by rewrite Nat.add_0_r|].
  replace (j + S k)%nat with (S j + k)%nat by lia. rewrite <- IH by lia. f_equal.
  specialize (Hag (Z.of_nat j) ltac:(lia)). rewrite !getb_lookup in Hag by lia.
  destruct (lookup_lt_is_Some_2 inp (Z.to_nat ip + j)) as [x Hx]; [lia|].
  replace (Z.to_nat ip + S j)%nat with (S (Z.to_nat ip + j)) by lia.
  rewrite (take_S_r _ _ x) by done. do 2 f_equal.
  apply list_lookup_total_correct. rewrite length_take, lookup_take_lt by lia.
  replace (Z.to_nat (ip + Z.of_nat j)) with (Z.to_nat ip + j)%nat in Hag by lia.
  rewrite <- Hx, <- Hag. f_equal. lia.
Qed.

End Match.

(** ** The invariant of the compressor *)

Section Compress.
Context (base : Z) (inp : bytes).
Context (Hbase : MAX_OFF <= base) (Hend : base + Z.of_nat (length inp) < 2 ^ 64).
Context (Hbytes : Forall is_byte inp).

Abbreviation in_len := (Z.of_nat (length inp)).

(** The tokens [ts] are written and stand for what is read up to the run of
    [lit] literals in progress, whose octets follow the place of its header. *)
Definition inv (ts : list token) (ip op lit : Z) (out : bytes) : Prop :=
  Forall tok_ok ts /\ 0 <= lit <= ip /\ ip <= in_len /\
  decode [] ts = Some (take (Z.to_nat (ip - lit)) inp) /\
  op = Z.of_nat (length (encode ts)) + 1 + lit /\
  exists w, out = encode ts ++ w /\
    take (Z.to_nat lit) (drop 1 w) = take (Z.to_nat lit) (drop (Z.to_nat (ip - lit)) inp).

Definition in_progress (s : cst) : Prop :=
  (exists ts, inv ts (c_ip s) (c_op s) (c_lit s) (c_out s)) /\ c_lit s < MAX_LIT /\
  (forall i, in_u 64 (c_htab s i)).

(** Closing the run: the header is written in its place. *)
Lemma close_run ts ip op lit out :
  inv ts ip op lit out -> lit <= MAX_LIT -> op - lit - 1 < Z.of_nat (length out) ->
  exists ts' w, setb out (op - lit - 1) (u8 (lit - 1)) = Some (encode ts' ++ w) /\
    length (encode ts' ++ w) = length out /\
    Forall tok_ok ts' /\ decode [] ts' = Some (take (Z.to_nat ip) inp) /\
    op - no_lit lit = Z.of_nat (length (encode ts')).
Proof.
  intros (Hok & Hlit & Hip & Hdec & -> & w & -> & Hw) Hmax Hlen. change MAX_LIT with 32 in Hmax.
  rewrite length_app in Hlen. destruct w as [|h w]; [simpl in Hlen; lia|].
  replace (_ + 1 + lit - lit - 1) with (Z.of_nat (length (encode ts))) by lia.
  rewrite setb_head. unfold no_lit, b2z. destruct (Z.eqb_spec lit 0) as [->|].
  - exists ts, (u8 (0 - 1) :: w). rewrite Z.sub_0_r in Hdec.
    split_and!; [done|by rewrite !length_app|done..|lia].
  - set (run := take (Z.to_nat lit) (drop (Z.to_nat (ip - lit)) inp)) in *.
    assert (Hrun : length run = Z.to_nat lit) by (unfold run; rewrite length_take, length_drop; lia).
    assert (He : encode (ts ++ [Lit run]) = encode ts ++ (lit - 1) :: run).
    { rewrite encode_snoc. simpl. rewrite Hrun. do 2 f_equal. lia. }
    exists (ts ++ [Lit run]), (drop (Z.to_nat lit) w). simpl in Hw. rewrite drop_0 in Hw.
    rewrite He, <- app_assoc. simpl. rewrite <- Hw, take_drop.
    split_and!.
    + by rewrite (wrapu_small 8) by (clear Hend; cint).
    + by rewrite !length_app.
    + apply Forall_app_2, Forall_singleton; [done|]. simpl. rewrite Hw, Hrun. lia.
    + rewrite decode_snoc, Hdec. simpl. rewrite Hw. unfold run. rewrite take_take_drop. do 2 f_equal. lia.
    + rewrite length_app. simpl. rewrite Hw, Hrun. lia.
Qed.

Lemma push_literal_spec s :
  in_progress s -> c_ip s < in_len -> c_op s < Z.of_nat (length (c_out s)) ->
  exists s', push_literal inp s = Some s' /\ in_progress s' /\ c_ip s' = c_ip s + 1 /\
    length (c_out s') = length (c_out s) /\
    (c_op s' = c_op s + 1 /\ c_lit s' = c_lit s + 1 \/
     c_op s' = c_op s + 2 /\ c_lit s' = 0 /\ c_lit s = 31).
Proof.
  destruct s as [ip op lit hv ht out]. unfold in_progress at 1, inv. simpl.
  intros ([ts (Hok & Hlit & Hip & Hdec & Hop & w & -> & Hw)] & Hmax & Hht) Hi Ho. simpl in *.
  unfold push_literal; cbn [c_ip c_op c_lit c_hval c_htab c_out].
  destruct (getb_ok inp ip) as [b Hb]; [lia|]. rewrite Hb. cbn [mbind option_bind].
  rewrite length_app in Ho.
  set (w' := <[S (Z.to_nat lit):=b]> w).
  assert (Hset1 : setb (encode ts ++ w) op b = Some (encode ts ++ w')).
  { unfold setb. rewrite decide_True by (rewrite length_app; lia).
    rewrite insert_app_r_alt by lia. unfold w'. do 3 f_equal. lia. }
  rewrite Hset1. cbn [mbind option_bind].
  assert (Hl : length w' = length w) by apply length_insert.
  assert (Hinv : inv ts (ip + 1) (op + 1) (lit + 1) (encode ts ++ w')).
  { rewrite getb_lookup in Hb by lia.
    split_and!; [done|lia..| |lia|]; [by replace (ip + 1 - (lit + 1)) with (ip - lit) by lia|].
    exists w'. split; [done|]. replace (ip + 1 - (lit + 1)) with (ip - lit) by lia.
    replace (Z.to_nat (lit + 1)) with (S (Z.to_nat lit)) by lia.
    rewrite (take_S_r (drop _ inp) _ b) by (rewrite lookup_drop, <- Hb; f_equal; lia).
    rewrite (take_S_r (drop 1 w') _ b)
      by (unfold w'; rewrite lookup_drop; apply list_lookup_insert_eq; lia).
    f_equal. rewrite <- Hw. unfold w'. destruct w as [|h w]; [done|]. simpl. rewrite !drop_0.
    apply take_insert_ge. lia. }
  destruct (Z.eqb_spec (lit + 1) MAX_LIT) as [HM|HM].
  - destruct (close_run _ _ _ _ _ Hinv) as (ts' & v & Hset & Hlv & Hok' & Hdec' & Hpos);
      [lia|rewrite length_app; lia|].
    rewrite Hset. cbn [mbind option_bind].
    unfold no_lit in Hpos. rewrite HM in Hpos. simpl in Hpos.
    eexists. split; [reflexivity|]. simpl.
    split_and!; [|done|by rewrite Hlv, !length_app, Hl|right; change MAX_LIT with 32 in HM; lia].
    split_and!; [|done|done]. exists ts'. simpl.
    split_and!; [done|lia..|by rewrite Z.sub_0_r|lia|]. by exists v.
  - eexists. split; [reflexivity|]. simpl.
    split_and!; [|done|by rewrite !length_app, Hl|left; lia].
    split_and!; [by exists ts|simpl; change MAX_LIT with 32 in *; lia|done].
Qed.

Lemma setb_at e m i v :
  Z.of_nat (length e) <= i < Z.of_nat (length e + length m) ->
  setb (e ++ m) i v = Some (e ++ <[Z.to_nat (i - Z.of_nat (length e)):=v]> m).
Proof.
  intros H. unfold setb. rewrite decide_True by (rewrite length_app; lia).
  rewrite insert_app_r_alt by lia. do 3 f_equal. lia.
Qed.

Lemma emit_ref_spec e w n off :
  tok_ok (Ref n off) -> (3 <= length w)%nat ->
  let tok := encode_tok (Ref n off) in
  emit_ref (n - 2) off (Z.of_nat (length e)) (e ++ w) =
  Some (Z.of_nat (length (e ++ tok)), (e ++ tok) ++ drop (length tok) w) /\ (length tok <= 3)%nat.
Proof.
  intros [Hn Ho] Hw tok. destruct w as [|x [|y [|z w]]]; simpl in Hw; try lia. clear Hw.
  subst tok. unfold emit_ref, encode_tok.
  rewrite (Z.shiftr_div_pow2 off 8), Z.shiftl_mul_pow2 by lia.
  change (Z.shiftl 7 5) with 224. change (2 ^ 8) with 256. change (2 ^ 5) with 32.
  destruct (off_parts off Ho) as (? & ? & _).
  change (u8 off) with (off mod 256).
  assert (S0 : forall a v l, setb (e ++ a :: l) (Z.of_nat (length e)) v = Some (e ++ v :: l))
    by (intros; apply setb_head).
  assert (S1 : forall a b v l, setb (e ++ a :: b :: l) (Z.of_nat (length e) + 1) v = Some (e ++ a :: v :: l))
    by (intros; rewrite setb_at by (simpl; lia); by replace (Z.to_nat _) with 1%nat by lia).
  assert (S2 : forall a b c v l, setb (e ++ a :: b :: c :: l) (Z.of_nat (length e) + 2) v = Some (e ++ a :: b :: v :: l))
    by (intros; rewrite setb_at by (simpl; lia); by replace (Z.to_nat _) with 2%nat by lia).
  destruct (Z.ltb_spec n 9), (Z.ltb_spec (n - 2) 7); try lia; rewrite S0; cbn [mbind option_bind].
  - rewrite S1. cbn [mbind option_bind]. rewrite (wrapu_small 8) by (cint_unfold; lia).
    split; [|simpl; lia]. rewrite length_app, <- app_assoc. simpl.
    replace (off / 256 + (n - 2) * 32) with (off / 256 + 32 * (n - 2)) by lia.
    by replace (Z.of_nat (length e) + 1 + 1) with (Z.of_nat (length e + 2)) by lia.
  - rewrite S1. cbn [mbind option_bind]. rewrite S2. cbn [mbind option_bind].
    rewrite !(wrapu_small 8) by (cint_unfold; lia).
    split; [|simpl; lia]. rewrite length_app, <- app_assoc. simpl.
    replace (n - 2 - 7) with (n - 9) by lia.
    by replace (Z.of_nat (length e) + 2 + 1) with (Z.of_nat (length e + 3)) by lia.
Qed.

Lemma rd_ok_bytes off n :
  0 <= off -> off + Z.of_nat n <= in_len -> exists bs, rd inp off n = Some bs /\ Forall is_byte bs.
Proof.
  intros H0 H1. destruct (rd_ok inp off n H0 H1) as [bs Hbs]. exists bs. split; [done|].
  apply rd_Some in Hbs as (_ & _ & ->). by apply Forall_take, Forall_drop.
Qed.

Lemma rd_getb off n bs i : rd inp off n = Some bs -> 0 <= i < Z.of_nat n -> getb inp (off + i) = bs !! Z.to_nat i.
Proof.
  intros Hr Hi. rewrite (rd_lookup _ _ _ _ _ Hr), decide_True by lia.
  apply rd_Some in Hr as (? & _ & _). rewrite getb_lookup by lia. f_equal. lia.
Qed.

(** The tests on an address [ref] found in the hash table, which may be any:
    nothing outside of the input is read, and a match is one. *)
Lemma is_match_spec ip ref :
  0 <= ip -> ip < in_len - 2 -> in_u 64 ref ->
  let off := u64 (base + ip - ref - 1) in
  exists m, is_match base inp ip ref off = Some m /\
    (m = true -> 0 <= ref - base < ip /\ off = ip - (ref - base) - 1 /\ 0 <= off < 8192 /\
       agree inp (ref - base) ip 3).
Proof.
  intros Hip0 Hip Href off. unfold is_match. change MAX_OFF with 8192 in *.
  destruct (Z.ltb_spec off 8192), (Z.ltb_spec base ref); simpl; try (by exists false).
  assert (Hoff : 0 <= off /\ off = base + ip - ref - 1).
  { unfold in_u in Href. set (x := base + ip - ref - 1) in *.
    destruct (Z.le_gt_cases 0 x).
    - unfold off. rewrite wrapu_small by (unfold in_u; lia). lia.
    - assert (off = x + 2 ^ 64); [|lia].
      unfold off, wrapu. rewrite <- (Z.mod_add x 1), Z.mod_small by lia. lia. }
  destruct (getb_ok inp (ref - base + 2)) as [a Ha]; [lia|].
  destruct (getb_ok inp (ip + 2)) as [b Hb]; [lia|].
  rewrite Ha, Hb. cbn [mbind option_bind].
  destruct (Z.eqb_spec a b) as [<-|]; [|by exists false].
  destruct (rd_ok_bytes (ref - base) 2) as (r & Hr & Hrb); [lia..|].
  destruct (rd_ok_bytes ip 2) as (p & Hp & Hpb); [lia..|].
  rewrite Hr, Hp. cbn [mbind option_bind]. eexists. split; [done|].
  intros Heq%Z.eqb_eq. split_and!; [lia..|]. intros i Hi.
  destruct (decide (i = 2)) as [->|]; [congruence|].
  rewrite (rd_getb _ _ _ _ Hr), (rd_getb _ _ _ _ Hp) by lia. f_equal.
  rewrite <- (le_bytes_value r Hrb), <- (le_bytes_value p Hpb), Heq.
  by rewrite (rd_length _ _ _ _ Hr), (rd_length _ _ _ _ Hp).
Qed.

(** What an iteration keeps. *)
Definition ctl_ok (s : cst) (c : ctl) : Prop :=
  match c with
  | Next s' => in_progress s' /\ c_ip s < c_ip s' /\ length (c_out s') = length (c_out s)
  | Break s' => in_progress s' /\ in_len - 2 <= c_ip s' /\ length (c_out s') = length (c_out s)
  | Return0 out => length out = length (c_out s)
  end.

Lemma set_slot_range ht i v : (forall j, in_u 64 (ht j)) -> in_u 64 v -> forall j, in_u 64 (set_slot ht i v j).
Proof. intros H ? j. unfold set_slot. by destruct (_ =? _). Qed.

Lemma FRST_ok p : 0 <= p -> p + 1 < in_len -> exists h, FRST inp p = Some h.
Proof.
  intros. unfold FRST. destruct (getb_ok inp p) as [a ->]; [lia|].
  destruct (getb_ok inp (p + 1)) as [b ->]; [lia|]. simpl. eauto.
Qed.

Lemma NEXT_ok v p : 0 <= p -> p + 2 < in_len -> exists h, NEXT inp v p = Some h.
Proof. intros. unfold NEXT. destruct (getb_ok inp (p + 2)) as [a ->]; [lia|]. simpl. eauto. Qed.

(** A reference after the closed run: decoding it gives the octets matched. *)
Lemma inv_ref ts ip ref n off w :
  Forall tok_ok ts -> decode [] ts = Some (take (Z.to_nat ip) inp) ->
  0 <= ref < ip -> ip + n <= in_len -> off = ip - ref - 1 -> agree inp ref ip n -> tok_ok (Ref n off) ->
  let ts' := ts ++ [Ref n off] in
  inv ts' (ip + n) (Z.of_nat (length (encode ts')) + 1) 0 (encode ts' ++ w).
Proof.
  intros Hok Hdec Href Hlen -> Hag Htok ts'. pose proof Htok as [Hn Ho].
  split_and!; [|lia..| |lia|by exists w].
  - by apply Forall_app_2, Forall_singleton.
  - unfold ts'. rewrite decode_snoc, Hdec. simpl.
    rewrite length_take, (proj2 (Z.ltb_lt _ _)) by lia.
    rewrite copy_back_agree by (done || lia). by rewrite Z.sub_0_r.
Qed.

Lemma compress_match_spec s ref :
  in_progress s -> c_ip s < in_len - 2 ->
  let ip := c_ip s in
  let off := ip - (ref - base) - 1 in
  0 <= ref - base < ip -> 0 <= off < 8192 -> agree inp (ref - base) ip 3 ->
  exists c, compress_match base inp (Z.of_nat (length (c_out s))) ref off s = Some c /\ ctl_ok s c.
Proof.
  destruct s as [ip op lit hv ht out].
  intros ([ts Hinv] & Hmax & Hht) Hip ip' off Href Hoff Hag. subst ip'. simpl in *.
  unfold compress_match; cbn [c_ip c_op c_lit c_hval c_htab c_out].
  pose proof Hinv as (_ & Hlit & _ & _ & Hop & _).
  destruct (_ && _) eqn:Htest; [eexists; split; [done|simpl; done]|].
  assert (Hroom : op - no_lit lit + 4 < Z.of_nat (length out)).
  { apply andb_false_iff in Htest as [H|H]; rewrite Z.geb_leb, Z.leb_gt in H; unfold no_lit, b2z in *;
      destruct (lit =? 0); lia. }
  destruct (close_run _ _ _ _ _ Hinv) as (ts' & w & Hset & Hlw & Hok' & Hdec' & Hpos); [lia| |].
  { unfold no_lit, b2z in Hroom. destruct (Z.eqb_spec lit 0); lia. }
  rewrite Hset. cbn [mbind option_bind].
  destruct (match_len_spec inp (ref - base) ip) as (n & Hml & Hn & Hln & Hag'); [lia|done|lia|].
  rewrite Hml. cbn [mbind option_bind]. rewrite Hpos.
  assert (Htok : tok_ok (Ref n off)) by (simpl; lia).
  rewrite length_app in Hlw.
  destruct (emit_ref_spec (encode ts') w n off Htok) as [He Hl3]; [lia|].
  rewrite He. cbn [mbind option_bind].
  rewrite <- encode_snoc. set (w' := drop _ w).
  assert (Hlen : length (encode (ts' ++ [Ref n off]) ++ w') = length out).
  { rewrite encode_snoc, !length_app. unfold w'. rewrite length_drop. lia. }
  pose proof (inv_ref _ _ _ _ _ w' Hok' Hdec' Href Hln eq_refl Hag' Htok) as Hinv'.
  replace (ip + 1 + (n - 2 + 1)) with (ip + n) by lia.
  destruct (Z.geb_spec (ip + n) (in_len - 2)).
  { eexists. split; [reflexivity|]. split_and!; [|simpl; lia|done].
    split_and!; [by eexists|done|done]. }
  destruct (FRST_ok (ip + n - 2)) as [h0 ->]; [lia..|]. cbn [mbind option_bind].
  destruct (NEXT_ok h0 (ip + n - 2)) as [h1 ->]; [lia..|]. cbn [mbind option_bind].
  destruct (NEXT_ok h1 (ip + n - 2 + 1)) as [h2 ->]; [lia..|]. cbn [mbind option_bind].
  replace (ip + n - 2 + 1 + 1) with (ip + n) by lia.
  eexists. split; [reflexivity|]. split_and!; [|simpl; lia|done].
  split_and!; [by eexists|done|].
  repeat apply set_slot_range; [done|..]; change MAX_OFF with 8192 in *; split; lia.
Qed.

(** The main loop: it ends with at most two octets left, or gives up. *)
Lemma compress_step_spec s :
  in_progress s -> c_ip s < in_len - 2 ->
  exists c, compress_step base inp (Z.of_nat (length (c_out s))) s = Some c /\ ctl_ok s c.
Proof.
  intros Hs Hip. pose proof Hs as ([ts (_ & Hlit & _)] & Hmax & Hht). unfold compress_step.
  destruct (NEXT_ok (c_hval s) (c_ip s)) as [h ->]; [lia..|]. cbn [mbind option_bind].
  set (s1 := mk_cst _ _ _ _ _ _).
  assert (Hs1 : in_progress s1).
  { destruct Hs as ([ts' ?] & _). split_and!; [by exists ts'|done|].
    apply set_slot_range; [done|]. change MAX_OFF with 8192 in *. split; lia. }
  destruct (is_match_spec (c_ip s) (c_htab s (IDX h))) as (m & -> & Hm); [lia|done|apply Hht|].
  cbn [mbind option_bind]. destruct m.
  - destruct (Hm eq_refl) as (? & Hoff & ? & ?). rewrite Hoff in *.
    apply (compress_match_spec s1); (done || simpl; lia).
  - unfold compress_literal. destruct (Z.geb_spec (c_op s1) (Z.of_nat (length (c_out s)))).
    { by eexists. }
    destruct (push_literal_spec s1 Hs1) as (s' & -> & ? & Hi & Hl & _); [simpl; lia|done|].
    eexists. split; [done|]. simpl in *. split_and!; [done|lia|done].
Qed.

Lemma compress_loop_inv fuel s :
  in_progress s -> in_len - c_ip s <= Z.of_nat fuel ->
  exists r, compress_loop base inp (Z.of_nat (length (c_out s))) fuel s = Some r /\
    match r with
    | inl s' => in_progress s' /\ in_len - 2 <= c_ip s' /\ length (c_out s') = length (c_out s)
    | inr out => length out = length (c_out s)
    end.
Proof.
  revert s. induction fuel as [|fuel IH]; intros s Hs Hf; cbn [compress_loop];
    destruct (Z.ltb_spec (c_ip s) (in_len - 2)); try lia; try by eexists.
  destruct (compress_step_spec s Hs) as (c & -> & Hc); [done|]. cbn [mbind option_bind].
  destruct c as [s'|s'|out]; simpl in Hc; [|by eexists..].
  destruct Hc as (Hs' & Hi & Hl). rewrite <- Hl.
  apply (IH s' Hs'). lia.
Qed.

(** The last octets always have room. *)
Lemma flush_loop_spec fuel s :
  in_progress s -> in_len - c_ip s <= 2 -> in_len - c_ip s <= Z.of_nat fuel ->
  c_op s + (in_len - c_ip s) + b2z (32 <=? c_lit s + (in_len - c_ip s)) <= Z.of_nat (length (c_out s)) ->
  exists s', flush_loop inp fuel s = Some s' /\ in_progress s' /\ c_ip s' = in_len /\
    length (c_out s') = length (c_out s) /\ c_op s' <= Z.of_nat (length (c_out s')).
Proof.
  revert s. induction fuel as [|fuel IH]; intros s Hs H2 Hf Hroom; cbn [flush_loop];
    pose proof Hs as ([ts (_ & ? & ? & _)] & Hlt & _); change MAX_LIT with 32 in Hlt;
    destruct (Z.ltb_spec (c_ip s) in_len); try lia.
  1, 3: exists s; split_and!; [done..|lia|done|unfold b2z in Hroom; destruct (_ <=? _); lia].
  destruct (push_literal_spec s Hs) as (s' & -> & Hs' & Hi & Hl & Hcase); [done| |].
  { unfold b2z in Hroom. destruct (_ <=? _); lia. }
  cbn [mbind option_bind]. rewrite <- Hl in *.
  destruct (IH s' Hs') as (s'' & ? & ? & ? & Hl' & ?); [lia..| |].
  { unfold b2z in *. destruct (Z.leb_spec 32 (c_lit s + (in_len - c_ip s))),
      (Z.leb_spec 32 (c_lit s' + (in_len - c_ip s'))); lia. }
  exists s''. by rewrite <- Hl'.
Qed.

(** [lzf_compress] stays inside its areas, and either gives up or writes the
    encoding of tokens that stand for its input. *)
Lemma lzf_compress_spec htab out :
  (forall i, in_u 64 (htab i)) -> 2 <= in_len ->
  exists n out', lzf_compress base htab inp out = Some (n, out') /\ length out' = length out /\
    (n = 0 \/
     exists ts w, out' = encode ts ++ w /\ n = Z.of_nat (length (encode ts)) /\
       Forall tok_ok ts /\ decode [] ts = Some inp).
Proof.
  intros Hht H2. unfold lzf_compress. rewrite (proj2 (Z.eqb_neq _ _)) by lia. simpl orb.
  destruct (Z.eqb_spec (Z.of_nat (length out)) 0) as [|H0]; [by eexists _, _; eauto|].
  destruct (FRST_ok 0) as [h ->]; [lia..|]. cbn [mbind option_bind].
  set (s0 := mk_cst 0 1 0 h htab out).
  assert (Hs0 : in_progress s0).
  { split_and!; [|done|done]. exists []. unfold inv. simpl. split_and!; [done|lia..|done|done|]. by exists out. }
  destruct (compress_loop_inv (length inp) s0 Hs0) as (r & Hr & Hr'); [simpl; lia|].
  simpl in Hr, Hr'. rewrite Hr. cbn [mbind option_bind].
  destruct r as [s|out']; [|by eexists _, _; eauto].
  destruct Hr' as (Hs & Hip & Hl). rewrite <- Hl.
  destruct (Z.gtb_spec (c_op s + 3) (Z.of_nat (length (c_out s)))); [by eexists _, _; eauto|].
  pose proof Hs as ([ts0 (_ & ? & ? & _)] & Hlt0 & _).
  destruct (flush_loop_spec (length inp) s Hs) as (s' & -> & Hs' & Hip' & Hl' & Hop'); [lia..| |].
  { unfold b2z. destruct (_ <=? _); lia. }
  cbn [mbind option_bind]. destruct Hs' as ([ts Hinv] & Hlt & _).
  pose proof Hinv as (_ & ? & _ & _ & ? & _).
  destruct (close_run _ _ _ _ _ Hinv) as (ts' & w & -> & Hw & Hok & Hdec & Hpos); [lia..|].
  cbn [mbind option_bind]. eexists _, _. split; [reflexivity|]. split; [lia|]. right.
  exists ts', w. split_and!; [done|done|done|]. rewrite Hdec, Hip', Nat2Z.id. f_equal. by apply take_ge.
Qed.

End Compress.

Lemma encode_byte ts d :
  Forall tok_ok ts -> decode [] ts = Some d -> Forall is_byte d -> Forall is_byte (encode ts).
Proof.
  intros Hok Hd Hb.
  enough (G : forall d0, decode d0 ts = Some d -> Forall is_byte (encode ts)) by eauto.
  clear Hd. induction Hok as [|t ts Ht Hok IH]; intros d0; simpl; [constructor|].
  destruct (decode_tok d0 t) as [d1|] eqn:Hd1; [|done]. simpl. intros Hd.
  apply Forall_app_2; [|by eapply IH]. clear IH. destruct t as [l|n off]; simpl in *.
  - constructor; [clear -Ht; cint_unfold; lia|]. simplify_eq.
    apply decode_prefix in Hd as [k ->]. rewrite !Forall_app in Hb. tauto.
  - destruct Ht as [Hn (? & ? & _)%off_parts].
    destruct (Z.ltb_spec n 9); repeat apply Forall_cons_2; try done; cint_unfold; lia.
Qed.

(** What is compressed decompresses. *)
Lemma lzf_inverse base htab inp out :
  MAX_OFF <= base -> base + Z.of_nat (length inp) < 2 ^ 64 -> (forall i, in_u 64 (htab i)) ->
  Forall is_byte inp -> 2 <= Z.of_nat (length inp) ->
  exists n out', lzf_compress base htab inp out = Some (n, out') /\
    length out' = length out /\ 0 <= n <= Z.of_nat (length out) /\
    (n <> 0 -> Forall is_byte (take (Z.to_nat n) out') /\ forall dst, (length inp <= length dst)%nat ->
       lzf_decompress (take (Z.to_nat n) out') dst =
       Some (Done (Z.of_nat (length inp)), inp ++ drop (length inp) dst)).
Proof.
  intros Hbase Hend Hht Hb H2.
  destruct (lzf_compress_spec base inp Hbase Hend Hb htab out Hht H2) as (n & out' & Hc & Hl & Hn).
  exists n, out'. split; [done|]. split; [done|].
  destruct Hn as [->|(ts & w & -> & -> & Hok & Hdec)]; [split; [lia|done]|].
  rewrite length_app in Hl. split; [lia|]. intros _. rewrite Nat2Z.id, take_app_length.
  split; [by eapply encode_byte|]. intros dst Hdst.
  destruct (lzf_decompress_unlzf (encode ts) dst) as [-> _]; [by eapply encode_byte|].
  rewrite (unlzf_encode _ _ _ _ inp) by (done || lia). done.
Qed.

(** One octet: the first hash reads the octet behind the input. *)
Lemma lzf_compress_one base htab b out : out <> [] -> lzf_compress base htab [b] out = None.
Proof.
  intros Hout. unfold lzf_compress. assert (Z.of_nat (length out) <> 0) by (destruct out; [done|cbn; lia]).
  by rewrite (proj2 (Z.eqb_neq (Z.of_nat (length out)) 0)) by done.
Qed.

(** C10: compressing and decompressing gives the string back, whatever the hash
    table of the compressor holds.  On any input but a single octet [lzf_compress] never reads or
    writes outside of its areas, and when it does not give up (it returns 0) the octets it wrote
    decompress into any area large enough to exactly its input, the octets
    after it left as they were.  On a single octet, if there is an output area, it reads the octet
    behind its input ([FRST], lzf_c.c:149). *)
Theorem lzf_roundtrip base htab inp out :
  MAX_OFF <= base -> base + Z.of_nat (length inp) < 2 ^ 64 -> (forall i, in_u 64 (htab i)) -> Forall is_byte inp ->
  if decide (length inp = 1%nat /\ out <> []) then lzf_compress base htab inp out = None
  else exists n out', lzf_compress base htab inp out = Some (n, out') /\
    length out' = length out /\ 0 <= n <= Z.of_nat (length out) /\
    (n <> 0 -> forall dst, (length inp <= length dst)%nat ->
       lzf_decompress (take (Z.to_nat n) out') dst =
       Some (Done (Z.of_nat (length inp)), inp ++ drop (length inp) dst)).
Proof.
  intros Hbase Hend Hht Hb. case_decide as Hone.
  { destruct Hone as [Hl Hout]. destruct inp as [|b [|? ?]]; [done| |done]. by apply lzf_compress_one. }
  destruct (decide (2 <= Z.of_nat (length inp))) as [H2|H2].
  - destruct (lzf_inverse base htab inp out Hbase Hend Hht Hb H2) as (n & out' & Hc & Hl & Hn & Hd).
    exists n, out'. split_and!; [done..|lia|lia|]. intros H0. by apply Hd.
  - exists 0, out. assert (E : (Z.of_nat (length inp) =? 0) || (Z.of_nat (length out) =? 0) = true).
    { destruct out; [by rewrite orb_true_r|]. destruct inp as [|b [|b' inp]]; [done| |cbn in H2; lia]. by destruct Hone. }
    unfold lzf_compress. rewrite E. split_and!; [done|done|lia|lia|done].
Qed.

Lemma lzf_roundtrip_witness :
  let inp := str "a string, a string, a string, a string and its end" in
  exists n out', lzf_compress (2 ^ 20) (λ _, 0) inp (replicate 46 0) = Some (n, out') /\ n <> 0 /\
    lzf_decompress (take (Z.to_nat n) out') (replicate 52 7) = Some (Done 50, inp ++ [7; 7]).
Proof.
  intros inp. destruct (lzf_roundtrip (2 ^ 20) (λ _, 0) inp (replicate 46 0)) as (n & out' & E & _ & _ & Hd).
  - vm_compute. congruence.
  - vm_compute. congruence.
  - intros. vm_compute. split; congruence.
  - repeat constructor; vm_compute; congruence.
  - exists n, out'. split; [exact E|].
    assert (Hn : n <> 0) by (intros ->; vm_compute in E; congruence). split; [exact Hn|].
    apply (Hd Hn (replicate 52 7)). vm_compute. lia.
Defined.

(** C17: [lzf_decompress] does on any octets what the reference decompressor does on
    lists: it ends, reads only its input and writes only the area it is given,
    reports E2BIG, EINVAL or the length like the reference, and has then written
    what the reference decompressed and nothing after it. *)
Theorem lzf_decompress_reference inp out :
  Forall is_byte inp ->
  let u := unlzf (length inp) (Z.of_nat (length out)) [] inp in
  lzf_decompress inp out = Some (ended u, u.1 ++ drop (length u.1) out) /\ (length u.1 <= length out)%nat.
Proof. apply lzf_decompress_unlzf. Qed.

Lemma lzf_decompress_reference_witness :
  lzf_decompress [2; 65; 66; 67; 64; 2; 224; 200] (replicate 8 0) = Some (Error EINVAL, str "ABCABCA" ++ [0]).
Proof.
  destruct (lzf_decompress_reference [2; 65; 66; 67; 64; 2; 224; 200] (replicate 8 0)) as [E _].
  - repeat constructor; vm_compute; congruence.
  - rewrite E. reflexivity.
Defined.
