(* ===== verification/Rio.v ===== *)
(** Streams (src/redis-7.0.11/src/rio.h and rio.c): the I/O abstraction under the
    RDB file and the rewritten AOF.

    A [rio] holds the state of a backend, which implements the two operations of
    [RioBackend]; [rioWrite] and [rioRead] cut a request in chunks, keep the
    checksum and the flags.  The backends are memory, a stdio file, a
    connection that is read and a descriptor that is written.  The outcomes of
    the system calls are lists of results, consumed in order. *)

From S2P Require Import Prelude State Endian Crc.

Local Open Scope Z_scope.

Definition RIO_FLAG_READ_ERROR : Z := Z.shiftl 1 0.
Definition RIO_FLAG_WRITE_ERROR : Z := Z.shiftl 1 1.
Definition PROTO_IOBUF_LEN : Z := 1024 * 16.

(** The address of a buffer, for the alignment loop of [crc64]. *)
Class BufAddr := buf_addr : bytes -> Z.

(** What a backend does: [write] is given [processed_bytes] and the octets, and
    says whether it wrote them; [read] gives the octets asked for, or an error. *)
Class RioBackend (B : Type) := {
  bwrite : Z -> bytes -> ST B bool;
  bread : Z -> ST B (option bytes)
}.

Record rio (B : Type) := mk_rio {
  io : B;
  update_cksum : bool;          (* the method is set to rioGenericUpdateChecksum *)
  cksum : Z;
  flags : Z;
  processed_bytes : Z;
  max_processing_chunk : Z
}.
Arguments mk_rio {B}.
Arguments io {B}.
Arguments update_cksum {B}.
Arguments cksum {B}.
Arguments flags {B}.
Arguments processed_bytes {B}.
Arguments max_processing_chunk {B}.

Definition new_rio {B} (b : B) : rio B := mk_rio b false 0 0 0 0.

Section Rio.
Context `{Host} `{BufAddr} {B : Type} `{RioBackend B}.

Definition with_io (b : B) (r : rio B) : rio B :=
  mk_rio b (update_cksum r) (cksum r) (flags r) (processed_bytes r) (max_processing_chunk r).
Definition with_cksum (c : Z) (r : rio B) : rio B :=
  mk_rio (io r) (update_cksum r) c (flags r) (processed_bytes r) (max_processing_chunk r).
Definition with_flags (f : Z) (r : rio B) : rio B :=
  mk_rio (io r) (update_cksum r) (cksum r) f (processed_bytes r) (max_processing_chunk r).
Definition with_processed (p : Z) (r : rio B) : rio B :=
  mk_rio (io r) (update_cksum r) (cksum r) (flags r) p (max_processing_chunk r).

Definition rioGenericUpdateChecksum (bs : bytes) (r : rio B) : rio B :=
  with_cksum (crc64 crc64_init (cksum r) (buf_addr bs) bs) r.

(** [if (r->update_cksum) r->update_cksum(r,buf,len)]. *)
Definition do_cksum (bs : bytes) (r : rio B) : rio B :=
  if update_cksum r then rioGenericUpdateChecksum bs r else r.

(** [(r->max_processing_chunk && r->max_processing_chunk < len) ? ... : len]. *)
Definition chunk (r : rio B) (len : Z) : Z :=
  if negb (max_processing_chunk r =? 0) && (max_processing_chunk r <? len) then max_processing_chunk r else len.

Fixpoint write_loop (fuel : nat) (buf : bytes) (r : rio B) : option (bool * rio B) :=
  match buf, fuel with
  | [], _ => Some (true, r)
  | _ :: _, O => None
  | _ :: _, S fuel =>
      let n := Z.to_nat (chunk r (Z.of_nat (length buf))) in
      let r := do_cksum (take n buf) r in
      '(ok, b) ← bwrite (processed_bytes r) (take n buf) (io r);
      let r := with_io b r in
      if ok : bool then
        write_loop fuel (drop n buf) (with_processed (processed_bytes r + Z.of_nat n) r)
      else Some (false, with_flags (Z.lor (flags r) RIO_FLAG_WRITE_ERROR) r)
  end.

Definition rioWrite (buf : bytes) : ST (rio B) bool := λ r,
  if negb (Z.land (flags r) RIO_FLAG_WRITE_ERROR =? 0) then Some (false, r)
  else write_loop (length buf) buf r.

(** The octets read, or [None] where the code returns 0. *)
Fixpoint read_loop (fuel : nat) (len : Z) (acc : bytes) (r : rio B) : option (option bytes * rio B) :=
  if len =? 0 then Some (Some acc, r)
  else
    match fuel with
    | O => None
    | S fuel =>
        let n := chunk r len in
        '(x, b) ← bread n (io r);
        let r := with_io b r in
        match x with
        | None => Some (None, with_flags (Z.lor (flags r) RIO_FLAG_READ_ERROR) r)
        | Some bs =>
            let r := do_cksum bs r in
            read_loop fuel (len - n) (acc ++ bs) (with_processed (processed_bytes r + n) r)
        end
    end.

Definition rioRead (len : Z) : ST (rio B) (option bytes) := λ r,
  if negb (Z.land (flags r) RIO_FLAG_READ_ERROR =? 0) then Some (None, r)
  else read_loop (Z.to_nat len) len [] r.

Definition rioGetReadError (r : rio B) : bool := negb (Z.land (flags r) RIO_FLAG_READ_ERROR =? 0).
Definition rioGetWriteError (r : rio B) : bool := negb (Z.land (flags r) RIO_FLAG_WRITE_ERROR =? 0).
Definition rioClearErrors (r : rio B) : rio B :=
  with_flags (Z.land (flags r) (Z.lnot (Z.lor RIO_FLAG_READ_ERROR RIO_FLAG_WRITE_ERROR))) r.

End Rio.

(** ** Memory *)

Record buffer := mk_buffer { b_ptr : bytes; b_pos : Z }.

Definition rioBufferWrite (buf : bytes) (b : buffer) : option (bool * buffer) :=
  Some (true, mk_buffer (b_ptr b ++ buf) (b_pos b + Z.of_nat (length buf))).

Definition rioBufferRead (len : Z) (b : buffer) : option (option bytes * buffer) :=
  if u64 (Z.of_nat (length (b_ptr b)) - b_pos b) <? len then Some (None, b)
  else
    bs ← rd (b_ptr b) (b_pos b) (Z.to_nat len);
    Some (Some bs, mk_buffer (b_ptr b) (b_pos b + len)).

Definition rioBufferTell (b : buffer) : Z := b_pos b.

#[export] Instance buffer_backend : RioBackend buffer :=
  {| bwrite _ buf := rioBufferWrite buf; bread := rioBufferRead |}.

Definition rioInitWithBuffer (s : bytes) : rio buffer := new_rio (mk_buffer s 0).

(** ** Stdio files *)

(** The stream of stdio: what was written, what is left to read, and the results
    of the next [fwrite] and synchronisation calls ([Fails k]: an error after
    [k] octets); they succeed after the last. *)
Inductive fres := Succeeds | Fails (k : nat).
Record FILE := mk_FILE { f_written : bytes; f_unread : bytes; f_res : list fres }.

Definition next_res (fp : FILE) : fres * FILE :=
  match f_res fp with
  | [] => (Succeeds, fp)
  | x :: l => (x, mk_FILE (f_written fp) (f_unread fp) l)
  end.

(** [fwrite(buf,len,1,fp)]. *)
Definition fwrite (buf : bytes) (fp : FILE) : bool * FILE :=
  let '(x, fp) := next_res fp in
  match x with
  | Succeeds => (true, mk_FILE (f_written fp ++ buf) (f_unread fp) (f_res fp))
  | Fails k => (false, mk_FILE (f_written fp ++ take k buf) (f_unread fp) (f_res fp))
  end.

(** [sync_file_range(...) != -1]. *)
Definition sync_file_range (fp : FILE) : bool * FILE :=
  let '(x, fp) := next_res fp in
  match x with Succeeds => (true, fp) | Fails _ => (false, fp) end.

(** [fread(buf,len,1,fp)]. *)
Definition fread (len : Z) (fp : FILE) : option bytes * FILE :=
  if len <=? Z.of_nat (length (f_unread fp)) then
    (Some (take (Z.to_nat len) (f_unread fp)), mk_FILE (f_written fp) (drop (Z.to_nat len) (f_unread fp)) (f_res fp))
  else (None, mk_FILE (f_written fp) [] (f_res fp)).

Record file := mk_file { fp : FILE; buffered : Z; autosync : Z }.

(** The [while] of [rioFileWrite]; [None] is a failed assertion. *)
Fixpoint file_write_loop (fuel : nat) (processed_bytes nwritten : Z) (buf : bytes) (f : file) : option (bool * file) :=
  if nwritten =? Z.of_nat (length buf) then Some (true, f)
  else
    match fuel with
    | O => None
    | S fuel =>
        if autosync f >? buffered f then
          let nalign := u64 (autosync f - buffered f) in
          let left := Z.of_nat (length buf) - nwritten in
          let towrite := if nalign >? left then left else nalign in
          bs ← rd buf nwritten (Z.to_nat towrite);
          let '(ok, p) := fwrite bs (fp f) in
          if ok : bool then
            let nwritten := nwritten + towrite in
            let f := mk_file p (buffered f + towrite) (autosync f) in
            if buffered f >=? autosync f then
              let processed := processed_bytes + nwritten in
              if (processed mod autosync f =? 0) && (buffered f =? autosync f) then
                let '(ok, p) := sync_file_range (fp f) in
                if ok : bool then
                  let '(ok, p) := (if processed >=? autosync f * 2 then sync_file_range p else (true, p)) in
                  let f := mk_file p (buffered f) (autosync f) in
                  if ok : bool then file_write_loop fuel processed_bytes nwritten buf (mk_file (fp f) 0 (autosync f))
                  else Some (false, f)
                else Some (false, mk_file p (buffered f) (autosync f))
              else None
            else file_write_loop fuel processed_bytes nwritten buf f
          else Some (false, mk_file p (buffered f) (autosync f))
        else None
    end.

Definition rioFileWrite (processed_bytes : Z) (buf : bytes) (f : file) : option (bool * file) :=
  if autosync f =? 0 then
    let '(ok, p) := fwrite buf (fp f) in Some (ok, mk_file p (buffered f) (autosync f))
  else file_write_loop (length buf) processed_bytes 0 buf f.

Definition rioFileRead (len : Z) (f : file) : option (option bytes * file) :=
  let '(x, p) := fread len (fp f) in Some (x, mk_file p (buffered f) (autosync f)).

#[export] Instance file_backend : RioBackend file :=
  {| bwrite := rioFileWrite; bread := rioFileRead |}.

Definition rioInitWithFile (p : FILE) : rio file := new_rio (mk_file p 0 0).
Definition rioSetAutoSync (n : Z) (r : rio file) : rio file :=
  with_io (mk_file (fp (io r)) (buffered (io r)) n) r.

(** ** Descriptors, written *)

(** A result of [write(2)]: at most [k] octets, a signal, or an error; every
    call succeeds entirely after the last result. *)
Inductive wres := Wrote (k : nat) | Interrupted | WriteError.
Record fd := mk_fd { fd_written : bytes; fd_res : list wres; fd_pos : Z; fd_buf : bytes }.

(** [while(nwritten != len)]: what [write] gets, and [return 0] on an error. *)
Fixpoint fd_write_loop (res : list wres) (out p : bytes) : bool * bytes * list wres :=
  match p, res with
  | [], _ => (true, out, res)
  | _ :: _, [] => (true, out ++ p, [])
  | _ :: _, x :: res =>
      match x with
      | Interrupted => fd_write_loop res out p
      | WriteError | Wrote O => (false, out, res)
      | Wrote k => fd_write_loop res (out ++ take k p) (drop k p)
      end
  end.

(** The end of [rioFdWrite]: the octets [p] are written. *)
Definition fd_write_out (p : bytes) (f : fd) : bool * fd :=
  let '(ok, out, res) := fd_write_loop (fd_res f) (fd_written f) p in
  if ok : bool then (true, mk_fd out res (fd_pos f + Z.of_nat (length p)) [])
  else (false, mk_fd out res (fd_pos f) (fd_buf f)).

(** [rioFdWrite(r,NULL,0)]: the pending octets are flushed. *)
Definition rioFdFlush (f : fd) : bool * fd := fd_write_out (fd_buf f) f.

Definition rioFdWrite (buf : bytes) (f : fd) : option (bool * fd) :=
  if Z.of_nat (length buf) >? PROTO_IOBUF_LEN then
    let '(ok, f) := (match fd_buf f with [] => (true, f) | _ :: _ => rioFdFlush f end) in
    if ok : bool then Some (fd_write_out buf f) else Some (false, f)
  else
    match buf with
    | [] => Some (rioFdFlush f)
    | _ :: _ =>
        let f := mk_fd (fd_written f) (fd_res f) (fd_pos f) (fd_buf f ++ buf) in
        if Z.of_nat (length (fd_buf f)) >? PROTO_IOBUF_LEN then Some (rioFdFlush f)
        else Some (true, f)
    end.

#[export] Instance fd_backend : RioBackend fd :=
  {| bwrite _ buf := rioFdWrite buf; bread _ := λ f, Some (None, f) |}.

Definition rioInitWithFd (out : bytes) (res : list wres) : rio fd := new_rio (mk_fd out res 0 []).

(** ** Connections, read *)

(** The other end: the octets it will send before it closes, and the results of
    the next reads ([Avail k]: at most [k] octets are there). *)
Inductive cres := Avail (k : nat) | Retryable | ReadError.
Record connection := mk_connection { c_stream : bytes; c_res : list cres }.

(** What [connRead] returns: octets (none when the connection is closed), an
    error after which it may be tried again, or another error. *)
Inductive conn_read := Got (bs : bytes) | Again | Failed.

Definition connRead (toread : Z) (c : connection) : conn_read * connection :=
  let got k res := (Got (take k (c_stream c)), mk_connection (drop k (c_stream c)) res) in
  match c_res c with
  | [] => got (Z.to_nat toread) []
  | Avail k :: res => got (Nat.min (S k) (Z.to_nat toread)) res
  | Retryable :: res => (Again, mk_connection (c_stream c) res)
  | ReadError :: res => (Failed, mk_connection (c_stream c) res)
  end.

Definition SDS_MAX_PREALLOC : Z := 1024 * 1024.

(** What the allocator adds to the length asked for. *)
Class MallocUsable := usable_extra : Z.

(** The allocated length of a string after [sdsMakeRoomFor]. *)
Definition make_room (usable len alloc addlen : Z) : Z :=
  if alloc - len >=? addlen then alloc
  else
    let newlen := len + addlen in
    (if newlen <? SDS_MAX_PREALLOC then newlen * 2 else newlen + SDS_MAX_PREALLOC) + usable.

Record conn := mk_conn {
  conn_of : connection;
  cn_pos : Z;
  cn_buf : bytes;
  cn_alloc : Z;               (* sdsalloc(buf) *)
  read_limit : Z;
  read_so_far : Z
}.

(** [sdslen(r->io.conn.buf) - r->io.conn.pos]. *)
Definition pending (c : conn) : Z := Z.of_nat (length (cn_buf c)) - cn_pos c.

Section Conn.
Context `{MallocUsable}.

(** The first two [if]: room for the request, at the start of the buffer if need
    be. *)
Definition conn_room (len : Z) (c : conn) : conn :=
  let avail := pending c in
  let blen := Z.of_nat (length (cn_buf c)) in
  let alloc := if cn_alloc c <? len then make_room usable_extra blen (cn_alloc c) (len - blen) else cn_alloc c in
  if (len >? avail) && (alloc - blen <? len - avail) then
    mk_conn (conn_of c) 0 (drop (Z.to_nat (cn_pos c)) (cn_buf c)) alloc (read_limit c) (read_so_far c)
  else mk_conn (conn_of c) (cn_pos c) (cn_buf c) alloc (read_limit c) (read_so_far c).

(** What one turn of the loop asks for. *)
Definition conn_toread (len : Z) (c : conn) : Z :=
  let bufd := pending c in
  let needs := len - bufd in
  let toread := if needs <? PROTO_IOBUF_LEN then PROTO_IOBUF_LEN else needs in
  let room := cn_alloc c - Z.of_nat (length (cn_buf c)) in
  let toread := if toread >? room then room else toread in
  if negb (read_limit c =? 0) && (read_so_far c + bufd + toread >? read_limit c)
  then read_limit c - read_so_far c - bufd else toread.

(** [while (len > sdslen(buf) - pos)]; the result tells whether all is there,
    [None] is the failed assertion of [sdsIncrLen]. *)
Fixpoint conn_loop (fuel : nat) (len : Z) (c : conn) : option (bool * conn) :=
  if len >? pending c then
    match fuel with
    | O => None
    | S fuel =>
        let '(x, k) := connRead (conn_toread len c) (conn_of c) in
        match x with
        | Got [] | Failed => Some (false, mk_conn k (cn_pos c) (cn_buf c) (cn_alloc c) (read_limit c) (read_so_far c))
        | Again => conn_loop fuel len (mk_conn k (cn_pos c) (cn_buf c) (cn_alloc c) (read_limit c) (read_so_far c))
        | Got bs =>
            if cn_alloc c - Z.of_nat (length (cn_buf c)) <? Z.of_nat (length bs) then None
            else conn_loop fuel len (mk_conn k (cn_pos c) (cn_buf c ++ bs) (cn_alloc c) (read_limit c) (read_so_far c))
        end
    end
  else Some (true, c).

Definition rioConnRead (len : Z) (c : conn) : option (option bytes * conn) :=
  let c := conn_room len c in
  if negb (read_limit c =? 0) && (read_limit c <? read_so_far c + len) then Some (None, c)
  else
    '(ok, c) ← conn_loop (length (c_res (conn_of c)) + Z.to_nat len) len c;
    if ok : bool then
      bs ← rd (cn_buf c) (cn_pos c) (Z.to_nat len);
      Some (Some bs, mk_conn (conn_of c) (cn_pos c + len) (cn_buf c) (cn_alloc c) (read_limit c) (read_so_far c + len))
    else Some (None, c).

(** [rioFreeConn]: the buffered octets that were not asked for. *)
Definition rioFreeConn (c : conn) : option bytes :=
  if cn_pos c <? Z.of_nat (length (cn_buf c)) then Some (drop (Z.to_nat (cn_pos c)) (cn_buf c)) else None.

#[export] Instance conn_backend : RioBackend conn :=
  {| bwrite _ _ := λ c, Some (false, c); bread := rioConnRead |}.

Definition rioInitWithConn (k : connection) (limit : Z) : rio conn :=
  new_rio (mk_conn k 0 [] (PROTO_IOBUF_LEN + usable_extra) limit 0).

End Conn.
