(* ===== verification/RioSpec.v ===== *)
(** What the users of a stream rely on, as two interfaces, and the backends that
    implement them.

    A [RioWriter] keeps the octets it accepted ([written]), a [RioReader] knows
    those it still has to give ([unread]).  [rioWrite_spec] and [rioRead_spec] are
    proved against the interfaces; the instances are memory, stdio files,
    descriptors and connections. *)

From S2P Require Import Prelude State Endian Crc CrcSpec Rio.

Local Open Scope Z_scope.

Class RioWriter (B : Type) `{RioBackend B} := {
  written : B -> bytes;
  wr_inv : Z -> B -> Prop;
  bwrite_spec p bs b : wr_inv p b -> bs <> [] ->
    exists ok b', bwrite p bs b = Some (ok, b') /\
      (ok = true -> written b' = written b ++ bs /\ wr_inv (p + Z.of_nat (length bs)) b')
}.

Class RioReader (B : Type) `{RioBackend B} := {
  unread : B -> bytes;
  rd_inv : B -> Prop;
  bread_spec n b : rd_inv b -> 0 < n ->
    exists x b', bread n b = Some (x, b') /\
      if decide (n <= Z.of_nat (length (unread b)))
      then x = Some (take (Z.to_nat n) (unread b)) /\ unread b' = drop (Z.to_nat n) (unread b) /\ rd_inv b'
      else x = None
}.

(** ** Requests *)

Section Rio.
Context `{Host} `{BufAddr} {B : Type} `{RioBackend B}.

Lemma chunk_range (r : rio B) len :
  0 <= max_processing_chunk r -> 0 < len -> 0 < chunk r len <= len.
Proof.
  intros. unfold chunk. destruct (_ && _) eqn:E; [|lia].
  apply andb_true_iff in E as [E1%negb_true_iff%Z.eqb_neq E2%Z.ltb_lt]. lia.
Qed.

Definition cksum_ok (r : rio B) : Prop := 0 <= max_processing_chunk r /\ in_u 64 (cksum r).

(** What is kept, and the checksum after [bs] went through. *)
Definition cksum_after (r : rio B) (bs : bytes) (r' : rio B) : Prop :=
  update_cksum r' = update_cksum r /\ flags r' = flags r /\
  max_processing_chunk r' = max_processing_chunk r /\
  processed_bytes r' = processed_bytes r + Z.of_nat (length bs) /\
  cksum r' = (if update_cksum r then crc64_ref (cksum r) bs else cksum r).

Lemma cksum_after_nil r : cksum_after r [] r.
Proof. split_and!; simpl; [done..|lia|by destruct (update_cksum r)]. Qed.

Lemma cksum_after_app r a r1 b r2 :
  cksum_after r a r1 -> cksum_after r1 b r2 -> cksum_after r (a ++ b) r2.
Proof.
  intros (U1 & F1 & C1 & P1 & K1) (U2 & F2 & C2 & P2 & K2).
  split_and!; [congruence..|rewrite length_app; lia|].
  rewrite K2, U1, K1. destruct (update_cksum r); [by rewrite crc64_ref_app|done].
Qed.

Lemma do_cksum_after r bs b n :
  cksum_ok r -> Forall is_byte bs -> n = Z.of_nat (length bs) ->
  let r1 := do_cksum bs r in
  cksum_after r bs (with_processed (processed_bytes r1 + n) (with_io b r1)).
Proof.
  intros [_ Hk] Hb ->. unfold do_cksum. destruct (update_cksum r) eqn:U; split_and!; simpl; try done.
  - rewrite U. by apply crc64_eq_ref.
  - by rewrite U.
Qed.

Lemma cksum_ok_after r bs r' : cksum_ok r -> Forall is_byte bs -> cksum_after r bs r' -> cksum_ok r'.
Proof.
  intros [Hc Hk] Hb (_ & _ & Hm & _ & Hk'). split; [by rewrite Hm|]. rewrite Hk'.
  destruct (update_cksum r); [by apply crc64_ref_range|done].
Qed.
End Rio.

Section Writer.
Context `{Host} `{BufAddr} {B : Type} `{RioWriter B}.

Definition sink_ok (r : rio B) : Prop :=
  wr_inv (processed_bytes r) (io r) /\ Z.land (flags r) RIO_FLAG_WRITE_ERROR = 0 /\ cksum_ok r.

(** [bs] was written. *)
Definition wrote (r : rio B) (bs : bytes) (r' : rio B) : Prop :=
  written (io r') = written (io r) ++ bs /\ cksum_after r bs r'.

Lemma wrote_nil r : wrote r [] r.
Proof. split; [by rewrite app_nil_r|apply cksum_after_nil]. Qed.

Lemma wrote_app r a r1 b r2 : wrote r a r1 -> wrote r1 b r2 -> wrote r (a ++ b) r2.
Proof.
  intros [W1 C1] [W2 C2]. split; [|by eapply cksum_after_app]. by rewrite W2, W1, app_assoc.
Qed.

Lemma write_loop_spec fuel buf r :
  sink_ok r -> Forall is_byte buf -> (length buf <= fuel)%nat ->
  exists ok r', write_loop fuel buf r = Some (ok, r') /\ (ok = true -> wrote r buf r' /\ sink_ok r').
Proof.
  revert buf r. induction fuel as [|fuel IH]; intros buf r Hr Hb Hf; destruct buf as [|x l]; simpl in Hf; try lia.
  1, 2: exists true, r; split; [done|]; intros _; split; [apply wrote_nil|done].
  cbn [write_loop]. set (buf := x :: l) in *. destruct Hr as (Hi & Hfl & Hk).
  assert (Hlen : length buf = S (length l)) by done.
  pose proof (chunk_range r (Z.of_nat (length buf)) (proj1 Hk) ltac:(lia)) as Hn.
  set (n := Z.to_nat (chunk r (Z.of_nat (length buf)))) in *.
  set (r1 := do_cksum (take n buf) r).
  assert (Hio : io r1 = io r /\ processed_bytes r1 = processed_bytes r).
  { unfold r1, do_cksum. by destruct (update_cksum r). }
  destruct Hio as [Hio Hp]. rewrite Hio, Hp.
  destruct (bwrite_spec (processed_bytes r) (take n buf) (io r) Hi) as (ok & b & Hw & Hok).
  { intros E. apply (f_equal length) in E. rewrite length_take in E. simpl in E. lia. }
  rewrite Hw. cbn [mbind option_bind]. destruct ok; [|by eexists _, _].
  destruct (Hok eq_refl) as [Hwr Hinv]. rewrite length_take in Hinv.
  set (r2 := with_processed _ _).
  assert (Hwrote : wrote r (take n buf) r2).
  { split; [done|]. unfold r2.
    apply (do_cksum_after r (take n buf) b); [done|by apply Forall_take|rewrite length_take; lia]. }
  assert (Hr2 : sink_ok r2).
  { split_and!.
    - simpl. rewrite Hp. by replace (Z.of_nat n) with (Z.of_nat (n `min` length buf)) by lia.
    - destruct Hwrote as (_ & _ & -> & _). done.
    - eapply cksum_ok_after; [exact Hk| |apply Hwrote]. by apply Forall_take. }
  destruct (IH (drop n buf) r2 Hr2) as (ok & r' & Hl & Hok'); [by apply Forall_drop|rewrite length_drop; lia|].
  exists ok, r'. split; [exact Hl|]. intros Hok1. destruct (Hok' Hok1) as [Hw' Hs'].
  split; [|done]. rewrite <- (take_drop n buf). by eapply wrote_app.
Qed.

Lemma rioWrite_spec buf r :
  sink_ok r -> Forall is_byte buf ->
  exists ok r', rioWrite buf r = Some (ok, r') /\ (ok = true -> wrote r buf r' /\ sink_ok r').
Proof.
  intros Hr Hb. unfold rioWrite. pose proof Hr as (_ & -> & _). by apply write_loop_spec.
Qed.
End Writer.

Section Reader.
Context `{Host} `{BufAddr} {B : Type} `{RioReader B}.

Definition source_ok (r : rio B) : Prop :=
  rd_inv (io r) /\ Z.land (flags r) RIO_FLAG_READ_ERROR = 0 /\ cksum_ok r /\ Forall is_byte (unread (io r)).

(** [bs] was read. *)
Definition did_read (r : rio B) (bs : bytes) (r' : rio B) : Prop :=
  unread (io r) = bs ++ unread (io r') /\ cksum_after r bs r' /\ source_ok r'.

Lemma did_read_nil r : source_ok r -> did_read r [] r.
Proof. intros. split; [done|]. split; [apply cksum_after_nil|done]. Qed.

Lemma did_read_app r a r1 b r2 : did_read r a r1 -> did_read r1 b r2 -> did_read r (a ++ b) r2.
Proof.
  intros (W1 & C1 & _) (W2 & C2 & S2). split; [by rewrite W1, W2, app_assoc|].
  split; [by eapply cksum_after_app|done].
Qed.

Lemma read_loop_spec fuel len acc r :
  source_ok r -> 0 <= len <= Z.of_nat fuel ->
  exists x r', read_loop fuel len acc r = Some (x, r') /\
    if decide (len <= Z.of_nat (length (unread (io r))))
    then x = Some (acc ++ take (Z.to_nat len) (unread (io r))) /\ did_read r (take (Z.to_nat len) (unread (io r))) r'
    else x = None /\ Z.land (flags r') RIO_FLAG_READ_ERROR <> 0.
Proof.
  revert len acc r. induction fuel as [|fuel IH]; intros len acc r Hr Hl; cbn [read_loop];
    destruct (Z.eqb_spec len 0) as [->|Hn0]; try lia.
  1, 2: exists (Some acc), r; split; [done|]; rewrite decide_True by lia; rewrite app_nil_r;
    split; [done|by apply did_read_nil].
  pose proof Hr as (Hi & Hfl & Hk & Hb).
  pose proof (chunk_range r len (proj1 Hk) ltac:(lia)) as Hn. set (n := chunk r len) in *.
  destruct (bread_spec n (io r) Hi ltac:(lia)) as (x & b & Hrd & Hx). rewrite Hrd. cbn [mbind option_bind].
  destruct (decide (n <= _)) as [Hav|Hav].
  - destruct Hx as (-> & Hu & Hi'). set (bs := take (Z.to_nat n) (unread (io r))) in *.
    assert (Hbs : length bs = Z.to_nat n) by (unfold bs; rewrite length_take; lia).
    set (r2 := with_processed _ _).
    assert (Hc : cksum_after r bs r2).
    { unfold r2. assert (Hio : do_cksum bs (with_io b r) = with_io b (do_cksum bs r)).
      { unfold do_cksum. simpl. by destruct (update_cksum r). }
      rewrite Hio. apply do_cksum_after; [done|by apply Forall_take|lia]. }
    assert (Hio2 : io r2 = b). { unfold r2, do_cksum. by destruct (update_cksum (with_io b r)). }
    assert (Hr2 : source_ok r2).
    { split; [by rewrite Hio2|]. split; [destruct Hc as (_ & -> & _); done|]. split.
      - eapply cksum_ok_after; [exact Hk| |exact Hc]. by apply Forall_take.
      - rewrite Hio2, Hu. by apply Forall_drop. }
    assert (Hd : did_read r bs r2).
    { split; [by rewrite Hio2, Hu; unfold bs; rewrite take_drop|done]. }
    destruct (IH (len - n) (acc ++ bs) r2 Hr2 ltac:(lia)) as (x & r' & Hl' & Hx). exists x, r'. split; [exact Hl'|].
    rewrite Hio2, Hu, length_drop in Hx.
    destruct (decide (len <= _)); [rewrite decide_True in Hx by lia|rewrite decide_False in Hx by lia; done].
    destruct Hx as (-> & Hd').
    assert (Ht : take (Z.to_nat len) (unread (io r)) = bs ++ take (Z.to_nat (len - n)) (drop (Z.to_nat n) (unread (io r)))).
    { unfold bs. rewrite take_take_drop. f_equal. lia. }
    rewrite Ht, app_assoc. split; [done|]. by eapply did_read_app.
  - subst x. eexists _, _. split; [done|]. rewrite decide_False by lia. split; [done|]. simpl.
    rewrite Z.land_lor_distr_l. intros E%(f_equal (λ z, Z.testbit z 0)). rewrite Z.lor_spec, !Z.land_spec in E.
    by rewrite orb_true_r in E.
Qed.

Lemma rioRead_spec len r :
  source_ok r -> 0 <= len ->
  exists x r', rioRead len r = Some (x, r') /\
    if decide (len <= Z.of_nat (length (unread (io r))))
    then x = Some (take (Z.to_nat len) (unread (io r))) /\ did_read r (take (Z.to_nat len) (unread (io r))) r'
    else x = None /\ Z.land (flags r') RIO_FLAG_READ_ERROR <> 0.
Proof.
  intros Hr Hl. unfold rioRead. pose proof Hr as (_ & -> & _).
  destruct (read_loop_spec (Z.to_nat len) len [] r Hr ltac:(lia)) as (x & r' & E & Hx). by exists x, r'.
Qed.

(** Reading octets that are there. *)
Lemma rioRead_app bs rest r :
  source_ok r -> unread (io r) = bs ++ rest ->
  exists r', rioRead (Z.of_nat (length bs)) r = Some (Some bs, r') /\ did_read r bs r' /\ unread (io r') = rest.
Proof.
  intros Hr Hu. destruct (rioRead_spec (Z.of_nat (length bs)) r Hr ltac:(lia)) as (x & r' & E & Hx).
  rewrite Hu, Nat2Z.id, length_app, take_app_length, decide_True in Hx by lia. destruct Hx as (-> & Hd).
  exists r'. split; [done|]. split; [done|]. destruct Hd as (Hd & _). rewrite Hu in Hd.
  by apply app_inv_head in Hd.
Qed.
End Reader.

(** The backends implement the interfaces, and what follows for a stream: its
    checksum covers what was written, a connection is read exactly. *)

(** ** Memory *)

Lemma buffer_write_spec (p : Z) bs b : True -> bs <> [] ->
  exists ok b', rioBufferWrite bs b = Some (ok, b') /\
    (ok = true -> b_ptr b' = b_ptr b ++ bs /\ True).
Proof. intros _ _. by eexists _, _. Qed.

#[export] Instance buffer_writer : RioWriter buffer :=
  {| written := b_ptr; wr_inv _ _ := True; bwrite_spec := buffer_write_spec |}.

Definition buffer_inv (b : buffer) : Prop :=
  0 <= b_pos b <= Z.of_nat (length (b_ptr b)) /\ Z.of_nat (length (b_ptr b)) < 2 ^ 64.

Lemma buffer_read_spec n b : buffer_inv b -> 0 < n ->
  let rest := drop (Z.to_nat (b_pos b)) (b_ptr b) in
  exists x b', rioBufferRead n b = Some (x, b') /\
    if decide (n <= Z.of_nat (length rest))
    then x = Some (take (Z.to_nat n) rest) /\
      drop (Z.to_nat (b_pos b')) (b_ptr b') = drop (Z.to_nat n) rest /\ buffer_inv b'
    else x = None.
Proof.
  intros [Hp Hl] Hn rest. assert (Hrest : Z.of_nat (length rest) = Z.of_nat (length (b_ptr b)) - b_pos b).
  { unfold rest. rewrite length_drop. lia. }
  unfold rioBufferRead. rewrite wrapu_small by (unfold in_u; lia). rewrite <- Hrest.
  destruct (Z.ltb_spec (Z.of_nat (length rest)) n).
  - eexists _, _. split; [done|]. by rewrite decide_False by lia.
  - unfold rd. rewrite decide_True by lia. eexists _, _. split; [done|]. rewrite decide_True by lia.
    split; [done|]. simpl. split; [unfold rest; rewrite drop_drop; f_equal; lia|]. split; simpl; lia.
Qed.

#[export] Instance buffer_reader : RioReader buffer :=
  {| unread b := drop (Z.to_nat (b_pos b)) (b_ptr b); rd_inv := buffer_inv; bread_spec := buffer_read_spec |}.

(** ** Stdio files *)

(** With automatic synchronisation, [buffered] is where [processed_bytes] stands
    in the current block. *)
Definition file_inv (p : Z) (f : file) : Prop :=
  autosync f = 0 \/
  0 <= p /\ 0 < autosync f < 2 ^ 63 /\ 0 <= buffered f < autosync f /\ p mod autosync f = buffered f.

Lemma fwrite_spec bs p p' : fwrite bs p = (true, p') -> f_written p' = f_written p ++ bs.
Proof. unfold fwrite, next_res. repeat case_match; naive_solver. Qed.

Lemma sync_spec p ok p' : sync_file_range p = (ok, p') -> f_written p' = f_written p.
Proof. unfold sync_file_range, next_res. repeat case_match; naive_solver. Qed.

(** Reaching the end of a block. *)
Lemma block_end p a b n :
  0 <= p -> 0 < a -> 0 <= b < a -> p mod a = b -> n <= a - b -> 0 < n ->
  if decide (b + n < a) then (p + n) mod a = b + n else (p + n) mod a = 0 /\ b + n = a.
Proof.
  intros Hp Ha Hb Hm Hn Hn0. rewrite <- Z.add_mod_idemp_l, Hm by lia. case_decide.
  - apply Z.mod_small. lia.
  - assert (b + n = a) as -> by lia. split; [by apply Z.mod_same; lia|done].
Qed.

Lemma file_write_loop_spec fuel p k buf f :
  0 <= k <= Z.of_nat (length buf) -> 0 <= p -> 0 < autosync f < 2 ^ 63 -> 0 <= buffered f < autosync f ->
  (p + k) mod autosync f = buffered f -> Z.of_nat (length buf) - k <= Z.of_nat fuel ->
  exists ok f', file_write_loop fuel p k buf f = Some (ok, f') /\
    (ok = true -> f_written (fp f') = f_written (fp f) ++ drop (Z.to_nat k) buf /\
       file_inv (p + Z.of_nat (length buf)) f').
Proof.
  revert k f. induction fuel as [|fuel IH]; intros k f Hk Hp Ha Hb Hm Hf; cbn [file_write_loop];
    destruct (Z.eqb_spec k (Z.of_nat (length buf))) as [->|Hne]; try lia.
  1, 2: exists true, f; split; [done|]; intros _; rewrite Nat2Z.id, drop_all, app_nil_r;
    split; [done|right; split_and!; done || lia].
  rewrite Z.gtb_ltb, (proj2 (Z.ltb_lt _ _)) by lia.
  set (n := if u64 _ >? _ then _ else _).
  assert (Hn : 0 < n <= Z.of_nat (length buf) - k /\ n <= autosync f - buffered f).
  { unfold n. rewrite wrapu_small by (unfold in_u; lia). destruct (Z.gtb_spec (autosync f - buffered f) (Z.of_nat (length buf) - k)); lia. }
  destruct (rd_ok buf k (Z.to_nat n)) as [bs Hbs]; [lia..|]. rewrite Hbs. cbn [mbind option_bind].
  apply rd_Some in Hbs as (_ & _ & Hbs).
  destruct (fwrite bs (fp f)) as [ok pf] eqn:Hw. destruct ok; [|by eexists _, _].
  apply fwrite_spec in Hw. cbn [fp buffered autosync].
  pose proof (block_end (p + k) (autosync f) (buffered f) n ltac:(lia) ltac:(lia) ltac:(lia) Hm ltac:(lia) ltac:(lia)) as Hblk.
  rewrite <- Z.add_assoc in Hblk.
  assert (Hdrop : bs ++ drop (Z.to_nat (k + n)) buf = drop (Z.to_nat k) buf).
  { rewrite Hbs. replace (Z.to_nat (k + n)) with (Z.to_nat k + Z.to_nat n)%nat by lia.
    by rewrite <- drop_drop, take_drop. }
  assert (Hgo : forall f', autosync f' = autosync f -> 0 <= buffered f' < autosync f ->
    (p + (k + n)) mod autosync f = buffered f' -> f_written (fp f') = f_written (fp f) ++ bs ->
    exists ok f'', file_write_loop fuel p (k + n) buf f' = Some (ok, f'') /\
      (ok = true -> f_written (fp f'') = f_written (fp f) ++ drop (Z.to_nat k) buf /\
         file_inv (p + Z.of_nat (length buf)) f'')).
  { intros f' Ha' Hb' Hm' Hw'. destruct (IH (k + n) f') as (ok & f'' & E & Hok); [lia..|rewrite Ha'; done|lia|].
    exists ok, f''. split; [done|]. intros [Hx ?]%Hok. by rewrite Hx, Hw', <- app_assoc, Hdrop. }
  case_decide as Hlt.
  - rewrite Z.geb_leb, (proj2 (Z.leb_gt _ _)) by lia. apply Hgo; simpl; (done || lia).
  - destruct Hblk as [Hmod Heq]. rewrite Heq, Z.geb_leb, Z.leb_refl, Hmod, !Z.eqb_refl. cbn [andb].
    destruct (sync_file_range pf) as [ok1 pf1] eqn:Hs1. apply sync_spec in Hs1.
    destruct ok1; [|by eexists _, _].
    destruct (if _ >=? _ then _ else _) as [ok2 pf2] eqn:Hs2.
    assert (f_written pf2 = f_written pf1).
    { destruct (_ >=? _) in Hs2; [by apply sync_spec in Hs2|by simplify_eq]. }
    destruct ok2; [|by eexists _, _]. apply Hgo; simpl; [done|lia|done|congruence].
Qed.

Lemma file_write_spec p bs f : file_inv p f -> bs <> [] ->
  exists ok f', rioFileWrite p bs f = Some (ok, f') /\
    (ok = true -> f_written (fp f') = f_written (fp f) ++ bs /\ file_inv (p + Z.of_nat (length bs)) f').
Proof.
  intros Hi _. unfold rioFileWrite. destruct (Z.eqb_spec (autosync f) 0) as [E|E].
  - destruct (fwrite bs (fp f)) as [ok pf] eqn:Hw. eexists _, _. split; [done|]. intros ->.
    apply fwrite_spec in Hw. split; [done|by left].
  - destruct Hi as [|(Hp & Ha & Hb & Hm)]; [done|].
    destruct (file_write_loop_spec (length bs) p 0 bs f) as (ok & f' & Hw & Hok); [lia..|by rewrite Z.add_0_r|lia|].
    by exists ok, f'.
Qed.

#[export] Instance file_writer : RioWriter file :=
  {| written f := f_written (fp f); wr_inv := file_inv; bwrite_spec := file_write_spec |}.

Lemma file_read_spec n f : True -> 0 < n ->
  exists x f', rioFileRead n f = Some (x, f') /\
    if decide (n <= Z.of_nat (length (f_unread (fp f))))
    then x = Some (take (Z.to_nat n) (f_unread (fp f))) /\
      f_unread (fp f') = drop (Z.to_nat n) (f_unread (fp f)) /\ True
    else x = None.
Proof.
  intros _ Hn. unfold rioFileRead, fread. destruct (Z.leb_spec n (Z.of_nat (length (f_unread (fp f))))).
  - eexists _, _. split; [done|]. by rewrite decide_True by lia.
  - eexists _, _. split; [done|]. by rewrite decide_False by lia.
Qed.

#[export] Instance file_reader : RioReader file :=
  {| unread f := f_unread (fp f); rd_inv _ := True; bread_spec := file_read_spec |}.

(** ** Descriptors *)

Lemma fd_write_loop_spec res out p ok out' res' :
  fd_write_loop res out p = (ok, out', res') ->
  exists k, out' = out ++ take k p /\ (ok = true -> (length p <= k)%nat).
Proof.
  revert out p. induction res as [|x res IH]; intros out p; destruct p as [|b p]; simpl.
  - intros [= <- <- <-]. exists 0%nat. simpl. by rewrite app_nil_r.
  - intros [= <- <- <-]. exists (S (length p)). simpl. by rewrite take_ge by lia.
  - intros [= <- <- <-]. exists 0%nat. simpl. by rewrite app_nil_r.
  - destruct x as [[|k]| |].
    + intros [= <- <- <-]. exists 0%nat. simpl. by rewrite app_nil_r.
    + intros (j & -> & Hj)%IH. exists (S k + j)%nat. split.
      * rewrite <- app_assoc. simpl. by rewrite take_take_drop.
      * intros Hok. specialize (Hj Hok). rewrite length_drop in Hj. simpl in *. lia.
    + apply IH.
    + intros [= <- <- <-]. exists 0%nat. simpl. by rewrite app_nil_r.
Qed.

(** Pending octets first, then the request: nothing is written twice or out of
    order when the write succeeds. *)
Lemma fd_write_spec (p : Z) bs f : True -> bs <> [] ->
  exists ok f', rioFdWrite bs f = Some (ok, f') /\
    (ok = true -> fd_written f' ++ fd_buf f' = (fd_written f ++ fd_buf f) ++ bs /\ True).
Proof.
  intros _ Hbs.
  assert (Hout : forall q g ok g', fd_write_out q g = (ok, g') -> ok = true ->
    fd_written g' = fd_written g ++ q /\ fd_buf g' = []).
  { intros q g ok g'. unfold fd_write_out.
    destruct (fd_write_loop _ _ _) as [[ok1 out] res] eqn:E. apply fd_write_loop_spec in E as (k & -> & Hk).
    destruct ok1; intros [= <- <-]; [|done]. intros _. simpl. by rewrite take_ge by auto. }
  unfold rioFdWrite. destruct (_ >? _).
  - destruct (match fd_buf f with [] => _ | _ => _ end) as [ok1 f1] eqn:E1.
    assert (H1 : ok1 = true -> fd_written f1 = fd_written f ++ fd_buf f /\ fd_buf f1 = []).
    { destruct (fd_buf f) as [|b l] eqn:Ef; [simplify_eq; intros _; by rewrite app_nil_r|].
      unfold rioFdFlush in E1. intros Hok. rewrite <- Ef. rewrite Ef in E1. rewrite Ef. by apply (Hout _ _ _ _ E1). }
    destruct ok1; [|by eexists _, _]. destruct (H1 eq_refl) as [Hw Hb].
    destruct (fd_write_out bs f1) as [ok2 f2] eqn:E2. eexists _, _. split; [done|]. intros ->.
    destruct (Hout _ _ _ _ E2 eq_refl) as [-> ->]. by rewrite Hw, app_nil_r.
  - destruct bs as [|b l] eqn:E; [done|]. rewrite <- E in *. clear Hbs. cbn [fd_buf].
    destruct (_ >? _).
    + unfold rioFdFlush. destruct (fd_write_out _ _) as [ok2 f2] eqn:E2. eexists _, _. split; [done|]. intros ->.
      destruct (Hout _ _ _ _ E2 eq_refl) as [-> ->]. simpl. by rewrite app_nil_r, app_assoc.
    + eexists _, _. split; [done|]. intros _. simpl. by rewrite app_assoc.
Qed.

#[export] Instance fd_writer : RioWriter fd :=
  {| written f := fd_written f ++ fd_buf f; wr_inv _ _ := True; bwrite_spec := fd_write_spec |}.

(** ** Connections *)

Section Conn.
Context `{MallocUsable}.

(** What is buffered and what is to come. *)
Definition all_unread (c : conn) : bytes := drop (Z.to_nat (cn_pos c)) (cn_buf c) ++ c_stream (conn_of c).

(** The part of it that may be read. *)
Definition conn_unread (c : conn) : bytes :=
  if read_limit c =? 0 then all_unread c else take (Z.to_nat (read_limit c - read_so_far c)) (all_unread c).

Definition no_error (x : cres) : Prop := x <> ReadError.

(** Nothing is buffered past the limit, and no read will fail. *)
Definition conn_inv (c : conn) : Prop :=
  0 <= usable_extra /\ 0 <= cn_pos c <= Z.of_nat (length (cn_buf c)) /\
  Z.of_nat (length (cn_buf c)) <= cn_alloc c /\ 0 <= read_so_far c /\
  (read_limit c = 0 \/ read_so_far c + pending c <= read_limit c) /\
  Forall no_error (c_res (conn_of c)).

(** Same octets to read, same limit. *)
Definition conn_same (c c' : conn) : Prop :=
  all_unread c' = all_unread c /\ read_limit c' = read_limit c /\ read_so_far c' = read_so_far c.

Lemma conn_same_trans a b c : conn_same a b -> conn_same b c -> conn_same a c.
Proof. unfold conn_same. intros (? & ? & ?) (? & ? & ?). split_and!; congruence. Qed.

Lemma conn_room_spec n c :
  conn_inv c -> 0 < n ->
  let c' := conn_room n c in
  conn_inv c' /\ conn_same c c' /\ conn_of c' = conn_of c /\ pending c' = pending c /\
  n - pending c' <= Z.max 0 (cn_alloc c' - Z.of_nat (length (cn_buf c'))).
Proof.
  intros (Hu & Hp & Ha & Hs & Hl & Hr) Hn. unfold conn_room. cbv zeta.
  set (alloc := if cn_alloc c <? n then _ else _).
  assert (Halloc : n <= alloc /\ Z.of_nat (length (cn_buf c)) <= alloc).
  { unfold alloc, make_room. destruct (Z.ltb_spec (cn_alloc c) n); [|lia].
    rewrite Z.geb_leb, (proj2 (Z.leb_gt _ _)) by lia. unfold SDS_MAX_PREALLOC. destruct (_ <? _); lia. }
  assert (Hlen : length (drop (Z.to_nat (cn_pos c)) (cn_buf c)) = Z.to_nat (pending c)).
  { rewrite length_drop. unfold pending. lia. }
  destruct (_ && _) eqn:E.
  - assert (Hpend : 0 <= pending c) by (unfold pending; lia).
    apply andb_true_iff in E as [E1%Z.gtb_lt E2%Z.ltb_lt].
    unfold conn_inv, conn_same, pending, all_unread. cbn [cn_pos cn_buf cn_alloc read_limit read_so_far conn_of].
    rewrite Hlen. unfold pending in *. split_and!; try lia; try done; f_equal; lia.
  - unfold conn_inv, conn_same, all_unread, pending in *. cbn [cn_pos cn_buf cn_alloc read_limit read_so_far conn_of].
    apply andb_false_iff in E. rewrite Z.gtb_ltb, !Z.ltb_ge in E.
    split_and!; try lia; done.
Qed.

Lemma conn_toread_spec n c :
  conn_inv c -> pending c < n -> n - pending c <= cn_alloc c - Z.of_nat (length (cn_buf c)) ->
  (read_limit c = 0 \/ read_so_far c + n <= read_limit c) ->
  let t := conn_toread n c in
  n - pending c <= t <= cn_alloc c - Z.of_nat (length (cn_buf c)) /\
  (read_limit c = 0 \/ read_so_far c + (pending c + t) <= read_limit c).
Proof.
  intros (_ & _ & _ & _ & Hl & _) Hn Hroom Hlim. unfold conn_toread. cbv zeta.
  set (t0 := if _ <? PROTO_IOBUF_LEN then _ else _).
  assert (n - pending c <= t0) by (unfold t0; destruct (Z.ltb_spec (n - pending c) PROTO_IOBUF_LEN); lia).
  set (t1 := if t0 >? _ then _ else _).
  assert (n - pending c <= t1 <= cn_alloc c - Z.of_nat (length (cn_buf c))).
  { unfold t1. destruct (Z.gtb_spec t0 (cn_alloc c - Z.of_nat (length (cn_buf c)))); lia. }
  destruct (_ && _) eqn:E.
  - apply andb_true_iff in E as [E1%negb_true_iff%Z.eqb_neq E2%Z.gtb_lt]. lia.
  - apply andb_false_iff in E. rewrite negb_false_iff, Z.eqb_eq, Z.gtb_ltb, Z.ltb_ge in E. lia.
Qed.

Lemma conn_loop_spec fuel n c :
  conn_inv c -> n - pending c <= Z.max 0 (cn_alloc c - Z.of_nat (length (cn_buf c))) ->
  (read_limit c = 0 \/ read_so_far c + n <= read_limit c) ->
  (length (c_res (conn_of c)) + Z.to_nat (n - pending c) <= fuel)%nat ->
  exists ok c', conn_loop fuel n c = Some (ok, c') /\ conn_same c c' /\
    if decide (n <= Z.of_nat (length (all_unread c)))
    then ok = true /\ conn_inv c' /\ n <= pending c' else ok = false.
Proof.
  revert c. induction fuel as [|fuel IH]; intros c Hi Hroom Hlim Hf; cbn [conn_loop];
    rewrite Z.gtb_ltb; destruct (Z.ltb_spec (pending c) n) as [Hlt|Hge]; try lia.
  1, 3: exists true, c; split; [done|]; split; [done|]; rewrite decide_True; [done|];
    unfold all_unread, pending in *; rewrite length_app, length_drop;
    destruct Hi as (_ & ? & _); lia.
  pose proof Hi as (Hu & Hp & Ha & Hs & Hl & Hr).
  destruct (conn_toread_spec n c Hi Hlt) as [Ht1 Ht2]; [lia|done|].
  set (t := conn_toread n c) in *.
  assert (Hall : Z.of_nat (length (all_unread c)) = pending c + Z.of_nat (length (c_stream (conn_of c)))).
  { unfold all_unread, pending. rewrite length_app, length_drop. lia. }
  (* a read of [k] octets *)
  assert (Hgot : forall k res, (0 < k <= Z.to_nat t)%nat -> Forall no_error res ->
    (length res + Z.to_nat (n - pending c) - 1 <= fuel)%nat ->
    let bs := take k (c_stream (conn_of c)) in
    let c1 := mk_conn (mk_connection (drop k (c_stream (conn_of c))) res) (cn_pos c) (cn_buf c ++ bs)
                (cn_alloc c) (read_limit c) (read_so_far c) in
    bs <> [] ->
    exists ok c', (if cn_alloc c - Z.of_nat (length (cn_buf c)) <? Z.of_nat (length bs) then None
                   else conn_loop fuel n c1) = Some (ok, c') /\ conn_same c c' /\
      if decide (n <= Z.of_nat (length (all_unread c)))
      then ok = true /\ conn_inv c' /\ n <= pending c' else ok = false).
  { intros k res Hk Hres Hfuel bs c1 Hbs.
    assert (Hlb : (0 < length bs <= k)%nat).
    { split; [destruct bs; [done|simpl; lia]|unfold bs; rewrite length_take; lia]. }
    rewrite (proj2 (Z.ltb_ge _ _)) by lia.
    assert (Hsame : all_unread c1 = all_unread c).
    { unfold all_unread, c1. simpl. rewrite drop_app_le by lia. rewrite <- app_assoc. unfold bs. by rewrite take_drop. }
    assert (Hpend : pending c1 = pending c + Z.of_nat (length bs)).
    { unfold pending, c1. simpl. rewrite length_app. lia. }
    destruct (IH c1) as (ok & c' & E & Hc' & Hx).
    - unfold conn_inv. rewrite Hpend. unfold c1; simpl. rewrite length_app.
      split_and!; [lia..| |done]. lia.
    - rewrite Hpend. unfold c1. simpl. rewrite length_app. lia.
    - done.
    - rewrite Hpend. simpl. lia.
    - exists ok, c'. split; [done|]. rewrite Hsame in Hx. split; [|done].
      by apply (conn_same_trans _ c1). }
  destruct (conn_of c) as [stream res] eqn:Ec. cbn [c_res c_stream] in *. unfold connRead.
  cbn [c_res c_stream].
  assert (Hclosed : forall k res', (0 < k)%nat -> take k stream = [] ->
    exists ok c', Some (false, mk_conn (mk_connection (drop k stream) res') (cn_pos c) (cn_buf c) (cn_alloc c) (read_limit c) (read_so_far c)) = Some (ok, c') /\
      conn_same c c' /\
      if decide (n <= Z.of_nat (length (all_unread c))) then ok = true /\ conn_inv c' /\ n <= pending c' else ok = false).
  { intros k res' Hk Hnil. assert (stream = []) as -> by (destruct stream, k; (done || lia)).
    eexists _, _. split; [done|]. rewrite decide_False by (simpl in Hall; lia).
    split; [|done]. unfold conn_same, all_unread. simpl. by rewrite Ec, drop_nil. }
  destruct res as [|[k| |] res].
  - specialize (Hgot (Z.to_nat t) [] ltac:(lia) ltac:(done) ltac:(simpl in *; lia)).
    destruct (take (Z.to_nat t) stream) as [|b bs] eqn:Et; [by apply Hclosed; [lia|]|]. by apply Hgot.
  - apply Forall_cons in Hr as [_ Hr].
    specialize (Hgot (Nat.min (S k) (Z.to_nat t)) res ltac:(lia) Hr ltac:(simpl in *; lia)).
    destruct (take (Nat.min (S k) (Z.to_nat t)) stream) as [|b bs] eqn:Et; [by apply Hclosed; [lia|]|]. by apply Hgot.
  - apply Forall_cons in Hr as [_ Hr].
    set (c1 := mk_conn _ _ _ _ _ _).
    assert (Hs1 : conn_same c c1). { unfold conn_same, all_unread, c1. simpl. by rewrite Ec. }
    destruct (IH c1) as (ok & c' & E & Hc' & Hx).
    + unfold conn_inv, pending, c1 in *. simpl. split_and!; (done || lia).
    + done.
    + done.
    + simpl in *. change (pending c1) with (pending c). lia.
    + exists ok, c'. split; [exact E|]. rewrite (proj1 Hs1) in Hx. split; [|done].
      by apply (conn_same_trans _ c1).
  - by apply Forall_cons in Hr as [[] _].
Qed.

(** [n] octets were taken. *)
Definition conn_took (n : Z) (c c' : conn) : Prop :=
  all_unread c' = drop (Z.to_nat n) (all_unread c) /\ read_limit c' = read_limit c /\ read_so_far c' = read_so_far c + n.

Lemma conn_read_exact n c : conn_inv c -> 0 < n ->
  exists x c', rioConnRead n c = Some (x, c') /\
    if decide (n <= Z.of_nat (length (conn_unread c)))
    then x = Some (take (Z.to_nat n) (conn_unread c)) /\
      conn_unread c' = drop (Z.to_nat n) (conn_unread c) /\ conn_inv c' /\ conn_took n c c'
    else x = None.
Proof.
  intros Hi Hn. unfold rioConnRead.
  destruct (conn_room_spec n c Hi Hn) as (Hi1 & (Hu1 & Hl1 & Hs1) & Hk1 & Hp1 & Hroom).
  set (c1 := conn_room n c) in *.
  assert (Hun : conn_unread c1 = conn_unread c) by (unfold conn_unread; by rewrite Hu1, Hl1, Hs1).
  rewrite <- Hun. pose proof Hi1 as (_ & _ & _ & Hso & Hlim & _).
  destruct (negb _ && _) eqn:Etoo.
  { apply andb_true_iff in Etoo as [E1%negb_true_iff E2%Z.ltb_lt]. eexists _, _. split; [done|].
    rewrite decide_False; [done|]. unfold conn_unread. rewrite E1, length_take. lia. }
  apply andb_false_iff in Etoo. rewrite negb_false_iff, Z.eqb_eq, Z.ltb_ge in Etoo.
  destruct (conn_loop_spec (length (c_res (conn_of c1)) + Z.to_nat n) n c1 Hi1 Hroom Etoo)
    as (ok & c2 & E & (Hu2 & Hl2 & Hs2) & Hx).
  { destruct Hi1 as (_ & ? & _). unfold pending. lia. }
  rewrite E. cbn [mbind option_bind].
  assert (Hdec : n <= Z.of_nat (length (all_unread c1)) <-> n <= Z.of_nat (length (conn_unread c1))).
  { unfold conn_unread. destruct (Z.eqb_spec (read_limit c1) 0); [done|]. rewrite length_take. lia. }
  destruct (decide (n <= Z.of_nat (length (all_unread c1)))) as [Hle|Hgt];
    destruct (decide (n <= Z.of_nat (length (conn_unread c1)))) as [Hle'|Hgt']; try tauto.
  - destruct Hx as (-> & Hi2 & Hp2).
    pose proof Hi2 as (Hu & Hpos & Ha & Hso2 & Hlim2 & Hr). unfold pending in Hp2.
    destruct (rd_ok (cn_buf c2) (cn_pos c2) (Z.to_nat n)) as [bs Hbs]; [lia..|]. rewrite Hbs. cbn [mbind option_bind].
    apply rd_Some in Hbs as (_ & _ & ->). set (c3 := mk_conn _ _ _ _ _ _). eexists _, c3. split; [reflexivity|].
    assert (Hd : all_unread c3 = drop (Z.to_nat n) (all_unread c1)).
    { rewrite <- Hu2. unfold all_unread, c3. simpl. rewrite drop_app_le by (rewrite length_drop; lia).
      rewrite drop_drop. do 2 f_equal. lia. }
    assert (Ht : take (Z.to_nat n) (all_unread c1) = take (Z.to_nat n) (drop (Z.to_nat (cn_pos c2)) (cn_buf c2))).
    { rewrite <- Hu2. unfold all_unread. by rewrite take_app_le by (rewrite length_drop; lia). }
    rewrite <- Ht. unfold conn_unread. rewrite Hd. unfold c3. cbn [read_limit read_so_far]. rewrite Hl2, Hs2.
    split; [|split; [|split; [|split_and!]]].
    + destruct (Z.eqb_spec (read_limit c1) 0); [done|]. rewrite take_take. do 2 f_equal. lia.
    + destruct (Z.eqb_spec (read_limit c1) 0); [done|]. rewrite take_drop_commute. do 2 f_equal. lia.
    + unfold conn_inv, pending in *. simpl. split_and!; (done || lia).
    + rewrite <- Hu1. exact Hd.
    + exact Hl1.
    + by rewrite Hs1.
  - subst ok. by eexists _, _.
Qed.

Lemma conn_read_spec n c : conn_inv c -> 0 < n ->
  exists x c', rioConnRead n c = Some (x, c') /\
    if decide (n <= Z.of_nat (length (conn_unread c)))
    then x = Some (take (Z.to_nat n) (conn_unread c)) /\
      conn_unread c' = drop (Z.to_nat n) (conn_unread c) /\ conn_inv c'
    else x = None.
Proof.
  intros Hi Hn. destruct (conn_read_exact n c Hi Hn) as (x & c' & E & Hx). exists x, c'. split; [done|].
  destruct (decide _); [|done]. by destruct Hx as (? & ? & ? & _).
Qed.

#[export] Instance conn_reader : RioReader conn :=
  {| unread := conn_unread; rd_inv := conn_inv; bread_spec := conn_read_spec |}.

(** A sequence of reads. *)
Fixpoint conn_requests (ns : list Z) (c : conn) : option (list (option bytes) * conn) :=
  match ns with
  | [] => Some ([], c)
  | n :: ns => '(x, c) ← rioConnRead n c; '(xs, c) ← conn_requests ns c; Some (x :: xs, c)
  end.

(** Consecutive pieces of a string. *)
Fixpoint cut (ns : list Z) (s : bytes) : list bytes :=
  match ns with [] => [] | n :: ns => take (Z.to_nat n) s :: cut ns (drop (Z.to_nat n) s) end.

Definition total (ns : list Z) : Z := foldr Z.add 0 ns.

Lemma total_nonneg ns : Forall (Z.lt 0) ns -> 0 <= total ns.
Proof. unfold total. induction 1; simpl; lia. Qed.

Lemma conn_requests_spec ns : forall c, conn_inv c -> Forall (Z.lt 0) ns ->
  total ns <= Z.of_nat (length (all_unread c)) ->
  (read_limit c = 0 \/ read_so_far c + total ns <= read_limit c) ->
  exists c', conn_requests ns c = Some (Some <$> cut ns (all_unread c), c') /\ conn_inv c' /\ conn_took (total ns) c c'.
Proof.
  induction ns as [|n ns IH]; intros c Hi Hns Hall Hlim.
  { exists c. split; [done|]. split; [done|]. split; [by rewrite drop_0|]. split; [done|simpl; lia]. }
  apply Forall_cons in Hns as [Hn Hns]. pose proof (total_nonneg ns Hns). unfold total in *. cbn [foldr] in *.
  fold (total ns) in *. destruct (conn_read_exact n c Hi Hn) as (x & c1 & E & Hx).
  assert (Hun : conn_unread c = all_unread c \/
    conn_unread c = take (Z.to_nat (read_limit c - read_so_far c)) (all_unread c) /\ n + total ns <= read_limit c - read_so_far c).
  { unfold conn_unread. destruct (Z.eqb_spec (read_limit c) 0); [by left|right]. split; [done|lia]. }
  rewrite decide_True in Hx by (destruct Hun as [->|[-> ?]]; rewrite ?length_take; lia).
  destruct Hx as (-> & _ & Hi1 & Ha & Hl & Hs). destruct (IH c1 Hi1 Hns) as (c2 & E2 & Hi2 & Ha2 & Hl2 & Hs2).
  - rewrite Ha, length_drop. lia.
  - rewrite Hl, Hs. lia.
  - exists c2. cbn [conn_requests]. rewrite E. cbn [mbind option_bind]. rewrite E2. cbn [mbind option_bind].
    split; [|split; [done|split_and!; [|congruence|lia]]].
    + do 2 f_equal. cbn [cut fmap list_fmap]. rewrite Ha. do 2 f_equal.
      destruct Hun as [->|[-> ?]]; [done|]. rewrite take_take. f_equal. lia.
    + rewrite Ha2, Ha, drop_drop. f_equal. lia.
Qed.

(** C20: reading a connection gives consecutive octets of its stream, however the
    network cuts them and however often a read has to be tried again; a
    request past the limit or past the end of the stream fails.  The octets that
    [rioFreeConn] hands back, and those still in the connection, are the rest of the
    stream: nothing is lost or read twice, and with a limit nothing behind it has
    been taken from the connection. *)
Theorem conn_requests_exact k limit ns :
  0 <= usable_extra -> Forall no_error (c_res k) -> 0 <= limit -> Forall (Z.lt 0) ns ->
  total ns <= Z.of_nat (length (c_stream k)) -> (limit = 0 \/ total ns <= limit) ->
  exists c, conn_requests ns (io (rioInitWithConn k limit)) = Some (Some <$> cut ns (c_stream k), c) /\
    default [] (rioFreeConn c) ++ c_stream (conn_of c) = drop (Z.to_nat (total ns)) (c_stream k) /\
    (limit <> 0 -> Z.of_nat (length (c_stream k)) - Z.of_nat (length (c_stream (conn_of c))) <= limit) /\
    forall n, 0 < n -> (limit <> 0 /\ limit < total ns + n \/ Z.of_nat (length (c_stream k)) < total ns + n) ->
      exists c', rioConnRead n c = Some (None, c').
Proof.
  intros Hu Hk Hlim Hns Hall Hl. set (c0 := io (rioInitWithConn k limit)).
  assert (Hi0 : conn_inv c0).
  { unfold conn_inv, pending, c0. cbn -[usable_extra Z.mul]. split_and!; try done; unfold PROTO_IOBUF_LEN; lia. }
  pose proof (total_nonneg ns Hns) as Ht.
  destruct (conn_requests_spec ns c0 Hi0 Hns) as (c & E & Hi & Ha & Hrl & Hsf); [done|done|].
  change (all_unread c0) with (c_stream k) in *. change (read_limit c0) with limit in *. change (read_so_far c0) with 0 in *.
  assert (Hfree : default [] (rioFreeConn c) ++ c_stream (conn_of c) = all_unread c).
  { unfold rioFreeConn, all_unread. destruct Hi as (_ & ? & _). destruct (Z.ltb_spec (cn_pos c) (Z.of_nat (length (cn_buf c)))); [done|].
    by rewrite drop_ge by lia. }
  assert (Hlen : Z.of_nat (length (all_unread c)) = Z.of_nat (length (c_stream k)) - total ns)
    by (rewrite Ha, length_drop; lia).
  exists c. split; [done|]. split; [by rewrite Hfree|]. split.
  - intros Hne. destruct Hi as (_ & Hp & _ & _ & Hb & _). rewrite Hrl, Hsf in Hb. unfold all_unread, pending in *.
    rewrite length_app, length_drop in Hlen. lia.
  - intros n Hn Hpast. destruct (conn_read_exact n c Hi Hn) as (x & c' & Er & Hx). exists c'. rewrite Er.
    rewrite decide_False in Hx; [by subst|]. unfold conn_unread. rewrite Hrl, Hsf.
    destruct (Z.eqb_spec limit 0); [lia|]. rewrite length_take. lia.
Qed.

End Conn.

Lemma conn_requests_exact_witness :
  let k := mk_connection (str "hello world") [Retryable; Avail 1; Avail 5] in
  exists c, conn_requests (H := 0) [5; 1] (io (rioInitWithConn (H := 0) k 8)) = Some ([Some (str "hello"); Some (str " ")], c) /\
    default [] (rioFreeConn c) ++ c_stream (conn_of c) = str "world" /\ exists c', rioConnRead (H := 0) 3 c = Some (None, c').
Proof.
  intros k. destruct (conn_requests_exact (H := 0) k 8 [5; 1]) as (c & E & Hrest & _ & Hpast).
  - vm_compute. congruence.
  - repeat constructor; done.
  - lia.
  - repeat constructor.
  - vm_compute. congruence.
  - right. vm_compute. congruence.
  - exists c. split; [exact E|]. split; [exact Hrest|]. apply Hpast; [lia|]. left. split; [lia|reflexivity].
Defined.
