(* ===== verification/Rdb.v ===== *)
(** The string layer of the RDB format (src/redis-7.0.11/src/rdb.c): types,
    times, lengths, integers, and strings saved as integers, compressed or as they
    are; with the string objects of object.c they load.

    A save function writes to [sink], the [rio *] that may be NULL
    ([rdbSavedObjectLen] only counts), and returns the number of octets, or -1.  A
    load function reads a [rio]; a failed assertion is [None]. *)

From S2P Require Import Prelude State Endian Util Lzf Rio.

Local Open Scope Z_scope.

Definition RDB_6BITLEN : Z := 0.
Definition RDB_14BITLEN : Z := 1.
Definition RDB_32BITLEN : Z := 0x80.
Definition RDB_64BITLEN : Z := 0x81.
Definition RDB_ENCVAL : Z := 3.
Definition RDB_LENERR : Z := 2 ^ 64 - 1.

Definition RDB_ENC_INT8 : Z := 0.
Definition RDB_ENC_INT16 : Z := 1.
Definition RDB_ENC_INT32 : Z := 2.
Definition RDB_ENC_LZF : Z := 3.

(** The flags of [rdbGenericLoadStringObject]. *)
Definition RDB_LOAD_NONE : Z := 0.
Definition RDB_LOAD_ENC : Z := Z.shiftl 1 0.
Definition RDB_LOAD_PLAIN : Z := Z.shiftl 1 1.
Definition RDB_LOAD_SDS : Z := Z.shiftl 1 2.
Definition has_flag (flags f : Z) : bool := negb (Z.land flags f =? 0).

(** The configuration, the allocator ([malloc n]: [n] octets can be allocated),
    what the stack of [lzf_compress] holds when a string is compressed, with the
    address of the string, and what a fresh local array holds. *)
Class RdbEnv := {
  rdb_compression : bool;
  malloc : Z -> bool;
  lzf_base : bytes -> Z;
  lzf_htab : bytes -> Z -> Z;
  junk : Z
}.

(** ** Allocation *)

(** [ztrymalloc(size) != NULL]. *)
Definition ztrymalloc `{RdbEnv} (size : Z) : bool :=
  if size >=? (2 ^ 64 - 1) / 2 then false else malloc size.

Definition hdrlen_for (initlen : Z) : Z :=
  if initlen =? 0 then 3
  else if initlen <? Z.shiftl 1 5 then 1
  else if initlen <? Z.shiftl 1 8 then 3
  else if initlen <? Z.shiftl 1 16 then 5
  else if initlen <? Z.shiftl 1 32 then 9
  else 17.

(** [sdstrynewlen(SDS_NOINIT,initlen) != NULL]; the assertion of [_sdsnewlen] fails
    when the size wraps around. *)
Definition sdstrynewlen `{RdbEnv} (initlen : Z) : option bool :=
  let total := u64 (hdrlen_for initlen + initlen + 1) in
  if total >? initlen then Some (ztrymalloc total) else None.

(** ** String objects (object.c) *)

Inductive robj := RawStr (s : bytes) | EmbStr (s : bytes) | IntStr (v : Z).

(** The loops of [sdsll2str]: the digits in reverse order, the swaps. *)
Fixpoint ll2str_digits (fuel : nat) (v : Z) : bytes :=
  match fuel with
  | O => []
  | S fuel => (48 + v mod 10) :: (if v / 10 =? 0 then [] else ll2str_digits fuel (v / 10))
  end.

Fixpoint swap_loop (fuel : nat) (m : bytes) (s p : Z) : option bytes :=
  if s <? p then
    match fuel with
    | O => None
    | S fuel => m ← swapb m s p; swap_loop fuel m (s + 1) (p - 1)
    end
  else Some m.

Definition sdsll2str (value : Z) : option bytes :=
  let v := if value <? 0 then (if value =? LLONG_MIN then LLONG_MAX + 1 else - value) else value in
  let l := ll2str_digits 20 v ++ (if value <? 0 then [45] else []) in
  swap_loop (length l) l 0 (Z.of_nat (length l) - 1).

Definition sdsfromlonglong (value : Z) : option bytes := sdsll2str value.

(** [createStringObjectFromLongLongForValue]: [long] has 64 bits, so the value is
    always held by the pointer (the shared objects hold the same values). *)
Definition createStringObjectFromLongLongForValue (value : Z) : robj := IntStr value.

Definition OBJ_ENCODING_EMBSTR_SIZE_LIMIT : Z := 44.

(** The bytes a string object stands for. *)
Definition robj_bytes (o : robj) : option bytes :=
  match o with RawStr s | EmbStr s => Some s | IntStr v => sdsll2str v end.

(** A computation that does not touch the stream and may fail an assertion. *)
Definition lift {S A} (o : option A) : ST S A := λ s, a ← o; Some (a, s).

(** ** Saving *)

Abbreviation sink B := (option (rio B)).

Section Save.
Context `{Host} `{BufAddr} `{RdbEnv} {B : Type} `{RioBackend B}.

Abbreviation SAVE A := (ST (sink B) A).

(** [if ((n = e) == -1) return -1;] and the code after it. *)
Definition or_return (m : SAVE Z) (k : Z -> SAVE Z) : SAVE Z :=
  n ← m; if n =? -1 then mret (-1) else k n.

Definition rdbWriteRaw (p : bytes) : SAVE Z := λ rdb,
  let len := Z.of_nat (length p) in
  match rdb with
  | None => Some (len, None)
  | Some r => '(ok, r) ← rioWrite p r; Some (if ok : bool then len else -1, Some r)
  end.

Definition rdbSaveType (type : Z) : SAVE Z := rdbWriteRaw [type].

(** The object representation of a 64 bit integer after [memrev64ifbe]. *)
Definition le64 (v : Z) : option bytes := memrev64ifbe (native_bytes 8 (u64 v)) 0.

Definition rdbSaveMillisecondTime (t : Z) : SAVE Z := t64 ← lift (le64 t); rdbWriteRaw t64.

(** A double is the 64 bits of its representation. *)
Definition rdbSaveBinaryDoubleValue (val : Z) : SAVE Z := v ← lift (le64 val); rdbWriteRaw v.

(** [htonl]. *)
Definition htonl (v : Z) : Z := if big_endian then v else intrev32 v.

Definition rdbSaveLen (len : Z) : SAVE Z :=
  if len <? Z.shiftl 1 6 then
    or_return (rdbWriteRaw [u8 (Z.lor (Z.land len 0xFF) (Z.shiftl RDB_6BITLEN 6))]) (λ _, mret 1)
  else if len <? Z.shiftl 1 14 then
    or_return (rdbWriteRaw [u8 (Z.lor (Z.land (Z.shiftr len 8) 0xFF) (Z.shiftl RDB_14BITLEN 6));
                            Z.land len 0xFF]) (λ _, mret 2)
  else if len <=? 2 ^ 32 - 1 then
    or_return (rdbWriteRaw [RDB_32BITLEN]) (λ _,
    or_return (rdbWriteRaw (native_bytes 4 (htonl (u32 len)))) (λ _, mret (1 + 4)))
  else
    or_return (rdbWriteRaw [RDB_64BITLEN]) (λ _,
    or_return (rdbWriteRaw (native_bytes 8 (htonu64 len))) (λ _, mret (1 + 8))).

(** The bytes put in [enc]; none when the function returns 0. *)
Definition rdbEncodeInteger (value : Z) : bytes :=
  if (value >=? - Z.shiftl 1 7) && (value <=? Z.shiftl 1 7 - 1) then
    [Z.lor (Z.shiftl RDB_ENCVAL 6) RDB_ENC_INT8; Z.land value 0xFF]
  else if (value >=? - Z.shiftl 1 15) && (value <=? Z.shiftl 1 15 - 1) then
    [Z.lor (Z.shiftl RDB_ENCVAL 6) RDB_ENC_INT16; Z.land value 0xFF; Z.land (Z.shiftr value 8) 0xFF]
  else if (value >=? - Z.shiftl 1 31) && (value <=? Z.shiftl 1 31 - 1) then
    [Z.lor (Z.shiftl RDB_ENCVAL 6) RDB_ENC_INT32; Z.land value 0xFF; Z.land (Z.shiftr value 8) 0xFF;
     Z.land (Z.shiftr value 16) 0xFF; Z.land (Z.shiftr value 24) 0xFF]
  else [].

Definition rdbTryIntegerEncoding (s : bytes) : bytes :=
  match string2ll s with Some value => rdbEncodeInteger value | None => [] end.

Definition rdbSaveLzfBlob (data : bytes) (original_len : Z) : SAVE Z :=
  let compress_len := Z.of_nat (length data) in
  or_return (rdbWriteRaw [Z.lor (Z.shiftl RDB_ENCVAL 6) RDB_ENC_LZF]) (λ n1,
  or_return (rdbSaveLen compress_len) (λ n2,
  or_return (rdbSaveLen original_len) (λ n3,
  or_return (rdbWriteRaw data) (λ n4, mret (n1 + n2 + n3 + n4))))).

(** The area [out] has [outlen + 1] octets, of which [outlen] are offered. *)
Definition rdbSaveLzfStringObject (s : bytes) : SAVE Z :=
  let len := Z.of_nat (length s) in
  if len <=? 4 then mret 0
  else
    let outlen := len - 4 in
    '(comprlen, out) ← lift (lzf_compress (lzf_base s) (lzf_htab s) s (replicate (Z.to_nat outlen) junk));
    if comprlen =? 0 then mret 0
    else rdbSaveLzfBlob (take (Z.to_nat comprlen) out) len.

Definition save_verbatim (s : bytes) : SAVE Z :=
  let len := Z.of_nat (length s) in
  or_return (rdbSaveLen len) (λ n,
  if len >? 0 then or_return (rdbWriteRaw s) (λ _, mret (n + len)) else mret n).

Definition rdbSaveRawString (s : bytes) : SAVE Z :=
  let len := Z.of_nat (length s) in
  let buf := if len <=? 11 then rdbTryIntegerEncoding s else [] in
  if Z.of_nat (length buf) >? 0 then
    or_return (rdbWriteRaw buf) (λ _, mret (Z.of_nat (length buf)))
  else if rdb_compression && (len >? 20) then
    or_return (rdbSaveLzfStringObject s) (λ n, if n >? 0 then mret n else save_verbatim s)
  else save_verbatim s.

Definition rdbSaveLongLongAsStringObject (value : Z) : SAVE Z :=
  let enc := rdbEncodeInteger value in
  if Z.of_nat (length enc) >? 0 then rdbWriteRaw enc
  else
    '(buf, enclen) ← lift (ll2string (replicate 32 junk) 0 32 value);
    if enclen <? 32 then
      digits ← lift (rd buf 0 (Z.to_nat enclen));
      or_return (rdbSaveLen enclen) (λ n,
      or_return (rdbWriteRaw digits) (λ m, mret (n + m)))
    else fail.

Definition rdbSaveStringObject (obj : robj) : SAVE Z :=
  match obj with
  | IntStr v => rdbSaveLongLongAsStringObject v
  | RawStr s | EmbStr s => rdbSaveRawString s
  end.

End Save.

(** ** Loading *)

(** What a loaded [void *] points to: an area of [zmalloc], an sds, an object. *)
Inductive loaded := LPlain (s : bytes) | LSds (s : bytes) | LObj (o : robj).

Section Load.
Context `{Host} `{BufAddr} `{RdbEnv} {B : Type} `{RioBackend B}.

Abbreviation LOAD A := (ST (rio B) A).

(** [if (rioRead(rdb,buf,len) == 0) return err;] and the code after it. *)
Definition read_or {A} (err : A) (len : Z) (k : bytes -> LOAD A) : LOAD A :=
  x ← rioRead len; match x with None => mret err | Some bs => k bs end.

Definition fail_or {A C} (err : A) (m : LOAD (option C)) (k : C -> LOAD A) : LOAD A :=
  x ← m; match x with None => mret err | Some c => k c end.

Definition rdbLoadType : LOAD Z := read_or (-1) 1 (λ b, mret (native_value b)).

Definition rdbLoadMillisecondTime (rdbver : Z) : LOAD Z :=
  read_or LLONG_MAX 8 (λ t64,
    t64 ← lift (if rdbver >=? 9 then memrev64ifbe t64 0 else Some t64);
    mret (i64 (native_value t64))).

Definition rdbLoadTime : LOAD Z := read_or (-1) 4 (λ t32, mret (i32 (native_value t32))).

(** The bits of the double. *)
Definition rdbLoadBinaryDoubleValue : LOAD (option Z) :=
  read_or None 8 (λ v, v ← lift (memrev64ifbe v 0); mret (Some (native_value v))).

Definition ntohl (v : Z) : Z := if big_endian then v else intrev32 v.

(** [*isencoded] and [*lenptr], or [None] where the code returns -1. *)
Definition rdbLoadLenByRef : LOAD (option (bool * Z)) :=
  read_or None 1 (λ b,
    let buf0 := native_value b in
    let type := Z.shiftr (Z.land buf0 0xC0) 6 in
    if type =? RDB_ENCVAL then mret (Some (true, Z.land buf0 0x3F))
    else if type =? RDB_6BITLEN then mret (Some (false, Z.land buf0 0x3F))
    else if type =? RDB_14BITLEN then
      read_or None 1 (λ b1, mret (Some (false, Z.lor (Z.shiftl (Z.land buf0 0x3F) 8) (native_value b1))))
    else if buf0 =? RDB_32BITLEN then
      read_or None 4 (λ l, mret (Some (false, ntohl (native_value l))))
    else if buf0 =? RDB_64BITLEN then
      read_or None 8 (λ l, mret (Some (false, ntohu64 (native_value l))))
    else mret None (* rdbReportCorruptRDB *)).

Definition rdbLoadLen : LOAD (bool * Z) :=
  x ← rdbLoadLenByRef; mret (match x with None => (false, RDB_LENERR) | Some x => x end).

(** The value of an integer-encoded string. *)
Definition load_integer (enctype : Z) : LOAD (option Z) :=
  let at_ (enc : bytes) i := nth i enc 0 in
  if enctype =? RDB_ENC_INT8 then read_or None 1 (λ enc, mret (Some (i8 (at_ enc 0%nat))))
  else if enctype =? RDB_ENC_INT16 then
    read_or None 2 (λ enc, mret (Some (i16 (Z.lor (at_ enc 0%nat) (Z.shiftl (at_ enc 1%nat) 8)))))
  else if enctype =? RDB_ENC_INT32 then
    read_or None 4 (λ enc, mret (Some (i32 (Z.lor (Z.lor (Z.lor (at_ enc 0%nat) (Z.shiftl (at_ enc 1%nat) 8))
                                                       (Z.shiftl (at_ enc 2%nat) 16))
                                                  (Z.shiftl (at_ enc 3%nat) 24)))))
  else mret None (* rdbReportCorruptRDB *).

Definition rdbLoadIntegerObject (enctype flags : Z) : LOAD (option loaded) :=
  fail_or None (load_integer enctype) (λ val,
    if has_flag flags RDB_LOAD_PLAIN || has_flag flags RDB_LOAD_SDS then
      '(buf, len) ← lift (ll2string (replicate (Z.to_nat LONG_STR_SIZE) junk) 0 LONG_STR_SIZE val);
      p ← lift (rd buf 0 (Z.to_nat len));
      mret (Some (if has_flag flags RDB_LOAD_PLAIN then LPlain p else LSds p))
    else if has_flag flags RDB_LOAD_ENC then
      mret (Some (LObj (createStringObjectFromLongLongForValue val)))
    else s ← lift (sdsfromlonglong val); mret (Some (LObj (RawStr s)))).

(** The area of [len] octets of a plain string or of an sds. *)
Definition try_alloc (plain : bool) (len : Z) : option bool :=
  if plain then Some (ztrymalloc len) else sdstrynewlen len.

Definition rdbLoadLzfStringObject (flags : Z) : LOAD (option loaded) :=
  let plain := has_flag flags RDB_LOAD_PLAIN in
  '(_, clen) ← rdbLoadLen;
  if clen =? RDB_LENERR then mret None else
  '(_, len) ← rdbLoadLen;
  if len =? RDB_LENERR then mret None else
  if negb (ztrymalloc clen) then mret None else
  ok ← lift (try_alloc plain len);
  if negb ok then mret None else
  read_or None clen (λ c,
    '(r, val) ← lift (lzf_decompress c (replicate (Z.to_nat len) junk));
    if returned r =? len then
      mret (Some (if plain then LPlain val
                  else if has_flag flags RDB_LOAD_SDS then LSds val
                  else LObj (RawStr val)))
    else mret None).

(** [if (len && rioRead(rdb,buf,len) == 0) return NULL; return buf;]. *)
Definition read_into (len : Z) (mk : bytes -> loaded) : LOAD (option loaded) :=
  if len =? 0 then mret (Some (mk []))
  else read_or None len (λ bs, mret (Some (mk bs))).

Definition rdbGenericLoadStringObject (flags : Z) : LOAD (option loaded) :=
  let encode := has_flag flags RDB_LOAD_ENC in
  let plain := has_flag flags RDB_LOAD_PLAIN in
  let sds := has_flag flags RDB_LOAD_SDS in
  '(isencoded, len) ← rdbLoadLen;
  if len =? RDB_LENERR then mret None
  else if isencoded : bool then
    if (len =? RDB_ENC_INT8) || (len =? RDB_ENC_INT16) || (len =? RDB_ENC_INT32)
    then rdbLoadIntegerObject len flags
    else if len =? RDB_ENC_LZF then rdbLoadLzfStringObject flags
    else mret None (* rdbReportCorruptRDB *)
  else if plain || sds then
    ok ← lift (try_alloc plain len);
    if negb ok then mret None
    else read_into len (if plain then LPlain else LSds)
  else if encode && (len <=? OBJ_ENCODING_EMBSTR_SIZE_LIMIT) then
    read_into len (λ s, LObj (EmbStr s))
  else
    ok ← lift (sdstrynewlen len);
    if negb ok then mret None
    else read_into len (λ s, LObj (RawStr s)).

Definition rdbLoadStringObject : LOAD (option loaded) := rdbGenericLoadStringObject RDB_LOAD_NONE.
Definition rdbLoadEncodedStringObject : LOAD (option loaded) := rdbGenericLoadStringObject RDB_LOAD_ENC.

End Load.
