(* ===== verification/RdbSpec.v ===== *)
(** The logic of saving and loading, and the encodings of the string layer.

    [saves m bs v]: [m] writes [bs] and returns [v], or reports an error;
    [loads m bs a]: where [bs] comes next in the stream, [m] consumes exactly it and
    returns [a].  Each encoding has its octets ([len_enc], ...), with the lemma that
    the save function writes them and the one that the load function reads them. *)

From S2P Require Import Prelude State Endian Util Lzf LzfSpec Rio RioSpec Rdb.

Local Open Scope Z_scope.

(** ** Decimal strings of [sdsll2str] *)

Lemma decimal_snoc v s :
  decimal (v / 10) s -> v / 10 <> 0 -> 0 <= v -> decimal v (s ++ [48 + v mod 10]).
Proof.
  intros (Hd & Hne & Hz & Hv) Hpos H0. pose proof (Z.mod_pos_bound v 10 ltac:(lia)). split_and!.
  - apply Forall_app. split; [done|]. apply Forall_singleton. unfold is_digit. lia.
  - by destruct s.
  - destruct s as [|c s]; [done|]. simpl. intros [= ->]. specialize (Hz eq_refl).
    injection Hz as ->. simpl in Hv. lia.
  - rewrite dec_acc_app, Hv. cbn [dec_acc]. pose proof (Z.div_mod v 10). lia.
Qed.

Lemma ll2str_digits_spec fuel v :
  0 <= v < 10 ^ Z.of_nat fuel -> (0 < fuel)%nat -> decimal v (reverse (ll2str_digits fuel v)).
Proof.
  revert v. induction fuel as [|fuel IH]; intros v Hv Hf; [lia|]. cbn [ll2str_digits].
  pose proof (Z.mod_pos_bound v 10 ltac:(lia)). pose proof (Z.div_mod v 10 ltac:(lia)).
  rewrite reverse_cons. destruct (Z.eqb_spec (v / 10) 0) as [E|E].
  - split_and!; [apply Forall_singleton; unfold is_digit; lia|done| |simpl; lia].
    simpl. by intros [= ->].
  - rewrite Nat2Z.inj_succ, Z.pow_succ_r in Hv by lia. apply decimal_snoc; [|done|lia].
    assert (0 <= v / 10) by (apply Z.div_pos; lia).
    destruct fuel as [|fuel]; [simpl in Hv; lia|].
    apply IH; [|lia]. split; [done|]. apply Z.div_lt_upper_bound; lia.
Qed.

Lemma swap_loop_reverse n : forall fuel a l c, length l = n -> (n <= fuel)%nat ->
  swap_loop fuel (a ++ l ++ c) (Z.of_nat (length a)) (Z.of_nat (length a) + Z.of_nat n - 1) =
  Some (a ++ reverse l ++ c).
Proof.
  induction (lt_wf n) as [n _ IH]. intros fuel a l c Hl Hf.
  destruct fuel as [|fuel]; cbn [swap_loop].
  { destruct l; simpl in Hl; [|lia]. subst n. by rewrite (proj2 (Z.ltb_ge _ _)) by (simpl; lia). }
  destruct (Z.ltb_spec (Z.of_nat (length a)) (Z.of_nat (length a) + Z.of_nat n - 1)).
  - destruct l as [|x l]; simpl in Hl; [lia|].
    destruct l as [|y l' _] using rev_ind; [simpl in Hl; lia|].
    rewrite length_app in Hl. simpl in Hl.
    replace (Z.of_nat (length a) + Z.of_nat n - 1) with (Z.of_nat (length a) + (Z.of_nat (length l') + 1)) by lia.
    replace (Z.of_nat (length a)) with (Z.of_nat (length a) + 0) at 1 by lia.
    rewrite swapb_app by (rewrite ?length_cons, ?length_app; simpl; lia).
    assert (Hsw : swapb (x :: l' ++ [y]) 0 (Z.of_nat (length l') + 1) = Some (y :: l' ++ [x])).
    { unfold swapb. rewrite !getb_lookup by lia. change (Z.to_nat 0) with 0%nat.
      replace (Z.to_nat (Z.of_nat (length l') + 1)) with (S (length l')) by lia. simpl.
      rewrite lookup_app_r, Nat.sub_diag by lia. simpl.
      unfold setb. rewrite decide_True by (simpl; rewrite length_app; simpl; lia).
      replace (Z.to_nat (Z.of_nat (length l') + 1)) with (S (length l')) by lia. simpl.
      rewrite insert_app_r_alt, Nat.sub_diag by lia. done. }
    rewrite Hsw. cbn [fmap option_fmap option_map mbind option_bind].
    specialize (IH (length l') ltac:(lia) fuel (a ++ [y]) l' ([x] ++ c) eq_refl ltac:(lia)).
    rewrite length_app in IH. simpl in IH. rewrite <- !app_assoc in IH. simpl in IH.
    rewrite reverse_cons, reverse_snoc, <- !app_assoc. simpl. rewrite <- app_assoc. simpl.
    rewrite <- IH. f_equal; lia.
  - destruct l as [|x [|y l]]; simpl in Hl; [done..|lia].
Qed.

Lemma swap_loop_all l : swap_loop (length l) l 0 (Z.of_nat (length l) - 1) = Some (reverse l).
Proof.
  pose proof (swap_loop_reverse (length l) (length l) [] l [] eq_refl ltac:(lia)) as E.
  simpl in E. by rewrite !app_nil_r in E.
Qed.

Lemma sdsll2str_spec v : in_s 64 v -> exists s, sdsll2str v = Some s /\ signed_decimal v s.
Proof.
  intros Hv. unfold in_s in Hv. change (2 ^ (64 - 1)) with (2 ^ 63) in Hv.
  assert (Hd : decimal (Z.abs v) (reverse (ll2str_digits 20 (Z.abs v)))).
  { apply ll2str_digits_spec; [|lia]. change (10 ^ Z.of_nat 20) with 100000000000000000000. lia. }
  unfold sdsll2str, signed_decimal. destruct (Z.ltb_spec v 0) as [Hneg|Hpos].
  - replace (if v =? LLONG_MIN then _ else _) with (Z.abs v)
      by (destruct (Z.eqb_spec v LLONG_MIN) as [->|]; lia).
    rewrite swap_loop_all, reverse_app. eexists. split; [done|]. rewrite decide_True by lia.
    eexists. split; [reflexivity|]. by rewrite <- Z.abs_neq by lia.
  - rewrite swap_loop_all, app_nil_r. eexists. split; [done|]. rewrite decide_False by lia.
    by rewrite Z.abs_eq in Hd by lia.
Qed.

(** ** The logic *)

Section Saves.
Context `{Host} `{BufAddr} `{RdbEnv} {B : Type} `{RioWriter B}.

Definition sink_fine (s : sink B) : Prop := match s with None => True | Some r => sink_ok r end.

Definition sent (s : sink B) (bs : bytes) (s' : sink B) : Prop :=
  match s, s' with
  | None, None => True
  | Some r, Some r' => wrote r bs r' /\ sink_ok r'
  | _, _ => False
  end.

Definition saves (m : ST (sink B) Z) (bs : bytes) (v : Z) : Prop :=
  forall s, sink_fine s -> exists n s', m s = Some (n, s') /\ (n = -1 /\ s <> None \/ n = v /\ sent s bs s').

Lemma sent_fine s bs s' : sent s bs s' -> sink_fine s'.
Proof. destruct s, s'; simpl; tauto. Qed.

Lemma sent_app s a s1 b s2 : sent s a s1 -> sent s1 b s2 -> sent s (a ++ b) s2.
Proof.
  destruct s, s1, s2; simpl; try tauto. intros [W1 _] [W2 ?]. split; [by eapply wrote_app|done].
Qed.

Lemma saves_raw p : Forall is_byte p -> saves (rdbWriteRaw p) p (Z.of_nat (length p)).
Proof.
  intros Hp [r|] Hs; unfold rdbWriteRaw.
  - destruct (rioWrite_spec p r Hs Hp) as (ok & r' & -> & Hok). eexists _, _. split; [done|].
    destruct ok; [right; split; [done|]; by apply Hok|by left].
  - eexists _, _. split; [done|]. by right.
Qed.

Lemma saves_ret v : saves (mret v) [] v.
Proof.
  intros [r|] Hs; (eexists _, _; split; [done|]; right; split; [done|]); simpl; [|done].
  split; [apply wrote_nil|done].
Qed.

Lemma saves_or_return m b1 v1 k b2 v2 :
  saves m b1 v1 -> 0 <= v1 -> saves (k v1) b2 v2 -> saves (or_return m k) (b1 ++ b2) v2.
Proof.
  intros Hm Hv1 Hk s Hs. destruct (Hm s Hs) as (n & s1 & E & Hn).
  unfold or_return, mbind, ST_bind. rewrite E.
  destruct Hn as [[-> Hne]|[-> Hsent]]; [eexists _, _; split; [done|by left]|].
  cbn [mbind option_bind]. rewrite (proj2 (Z.eqb_neq _ _)) by lia.
  destruct (Hk s1) as (n2 & s2 & E2 & Hn2); [by eapply sent_fine|].
  eexists _, _. split; [exact E2|]. destruct Hn2 as [[-> Hne]|[-> Hs2]].
  - left. split; [done|]. by destruct s, s1.
  - right. split; [done|]. by eapply sent_app.
Qed.

Lemma saves_lift {A} (o : option A) a (f : A -> ST (sink B) Z) bs v :
  o = Some a -> saves (f a) bs v -> saves (lift o ≫= f) bs v.
Proof. intros -> Hf s Hs. unfold mbind, ST_bind, lift. simpl. by apply Hf. Qed.

(** The last step of a function that returns a sum. *)
Lemma saves_last m b v (k : Z -> Z) : saves m b v -> 0 <= v -> saves (or_return m (λ n, mret (k n))) b (k v).
Proof. intros. rewrite <- (app_nil_r b). by eapply saves_or_return, saves_ret. Qed.

End Saves.

Section Loads.
Context `{Host} `{BufAddr} `{RdbEnv} {B : Type} `{RioReader B}.

Definition loads {A} (m : ST (rio B) A) (bs : bytes) (a : A) : Prop :=
  forall r rest, source_ok r -> unread (io r) = bs ++ rest ->
    exists r', m r = Some (a, r') /\ did_read r bs r'.

Lemma did_read_rest r bs r' rest :
  did_read r bs r' -> unread (io r) = bs ++ rest -> unread (io r') = rest.
Proof. intros (E & _) E'. rewrite E in E'. by apply app_inv_head in E'. Qed.

Lemma loads_ret {A} (a : A) : loads (mret a) [] a.
Proof. intros r rest Hr _. exists r. split; [done|]. by apply did_read_nil. Qed.

Lemma loads_bind {A C} (m : ST (rio B) A) (f : A -> ST (rio B) C) b1 a b2 c :
  loads m b1 a -> loads (f a) b2 c -> loads (m ≫= f) (b1 ++ b2) c.
Proof.
  intros Hm Hf r rest Hr Hu. rewrite <- app_assoc in Hu.
  destruct (Hm r _ Hr Hu) as (r1 & E1 & D1).
  destruct (Hf r1 rest (proj2 (proj2 D1))) as (r2 & E2 & D2); [by eapply did_read_rest|].
  exists r2. split; [|by eapply did_read_app]. unfold mbind, ST_bind. by rewrite E1.
Qed.

Lemma loads_lift {A C} (o : option A) a (f : A -> ST (rio B) C) bs c :
  o = Some a -> loads (f a) bs c -> loads (lift o ≫= f) bs c.
Proof. intros -> Hf r rest Hr Hu. unfold mbind, ST_bind, lift. simpl. by eapply Hf. Qed.

Lemma loads_read_or {A} (err : A) len bs k b2 a :
  Z.of_nat (length bs) = len -> loads (k bs) b2 a -> loads (read_or err len k) (bs ++ b2) a.
Proof.
  intros <- Hk. unfold read_or. apply (loads_bind _ _ bs (Some bs)); [|done].
  intros r rest Hr Hu. destruct (rioRead_app bs rest r Hr Hu) as (r' & E & D & _). by exists r'.
Qed.

(** The last read of a function. *)
Lemma loads_read_last {A} (err : A) len bs k a :
  Z.of_nat (length bs) = len -> loads (k bs) [] a -> loads (read_or err len k) bs a.
Proof. intros. rewrite <- (app_nil_r bs). by apply loads_read_or. Qed.

Lemma loads_fail_or {A C} (err : A) (m : ST (rio B) (option C)) k b1 c b2 a :
  loads m b1 (Some c) -> loads (k c) b2 a -> loads (fail_or err m k) (b1 ++ b2) a.
Proof. intros. unfold fail_or. by eapply loads_bind. Qed.

End Loads.

(** * Saving a string and loading it gives it back *)

(** ** Lengths *)

Definition len_enc (len : Z) : bytes :=
  if len <? 64 then [len]
  else if len <? 16384 then [64 + len / 256; len mod 256]
  else if len <? 2 ^ 32 then 128 :: reverse (le_bytes 4 len)
  else 129 :: reverse (le_bytes 8 len).

Lemma byte_forall P : forallb P (seqZ 0 256) = true -> forall c, 0 <= c < 256 -> P c = true.
Proof. intros HP c Hc. apply byte_cases; [done|cint]. Qed.

(** The first octet: its two high bits and the six others. *)
Lemma first_octet c : 0 <= c < 256 -> Z.shiftr (Z.land c 0xC0) 6 = c / 64 /\ Z.land c 0x3F = c mod 64.
Proof.
  intros Hc. pose proof (byte_forall (λ c, (Z.shiftr (Z.land c 0xC0) 6 =? c / 64) && (Z.land c 0x3F =? c mod 64))
    ltac:(vm_compute; done) c Hc) as H. by apply andb_true_iff in H as [->%Z.eqb_eq ->%Z.eqb_eq].
Qed.

Lemma len_enc_byte len : 0 <= len -> Forall is_byte (len_enc len).
Proof.
  intros H0. unfold len_enc. pose proof (Z.mod_pos_bound len 256 ltac:(lia)).
  destruct (Z.ltb_spec len 64); [apply Forall_singleton; cint|].
  destruct (Z.ltb_spec len 16384).
  { assert (0 <= len / 256 < 64) by (split; [apply Z.div_pos|apply Z.div_lt_upper_bound]; lia).
    repeat apply Forall_cons_2; (done || cint). }
  destruct (Z.ltb_spec len (2 ^ 32)); (apply Forall_cons; split; [cint|apply Forall_reverse, le_bytes_byte]).
Qed.

Lemma len_enc_length len : 0 < Z.of_nat (length (len_enc len)) <= 9.
Proof.
  unfold len_enc. repeat case_match; simpl; rewrite ?length_reverse, ?length_le_bytes; simpl; lia.
Qed.

Section host.
Context `{Host}.

Lemma native_byte c : is_byte c -> native_value [c] = c.
Proof. intros. unfold native_value. destruct big_endian; simpl; lia. Qed.

Lemma htonl_big_endian v : in_u 32 v -> native_bytes 4 (htonl v) = reverse (le_bytes 4 v).
Proof.
  intros. unfold native_bytes, htonl. destruct big_endian; [done|].
  rewrite intrev32_value.
  replace 4%nat with (length (reverse (le_bytes 4 v))) at 1 by (by rewrite length_reverse, length_le_bytes).
  apply le_bytes_value, Forall_reverse, le_bytes_byte.
Qed.

Lemma native_value_bytes n v : in_u (8 * Z.of_nat n) v -> native_value (native_bytes n v) = v.
Proof.
  intros Hv. unfold native_value, native_bytes. destruct big_endian; rewrite ?reverse_involutive, le_value_bytes;
    by apply Z.mod_small.
Qed.

Lemma ntohl_htonl v : in_u 32 v -> ntohl (htonl v) = v.
Proof.
  intros. unfold ntohl, htonl. destruct big_endian; [done|].
  rewrite !intrev32_value. by apply (rev_bytes_invol 4).
Qed.

Lemma htonl_range v : in_u 32 v -> in_u 32 (htonl v).
Proof.
  intros. unfold htonl. destruct big_endian; [done|]. rewrite intrev32_value.
  apply (le_value_range (reverse (le_bytes 4 v))), Forall_reverse, le_bytes_byte.
Qed.

Lemma htonu64_range v : in_u 64 v -> in_u 64 (htonu64 v).
Proof.
  intros. unfold htonu64. destruct big_endian; [done|]. rewrite intrev64_value.
  apply (le_value_range (reverse (le_bytes 8 v))), Forall_reverse, le_bytes_byte.
Qed.

Lemma wr_whole m bs : length m = length bs -> wr m 0 bs = Some bs.
Proof. intros Hl. pose proof (wr_app [] m bs [] Hl) as E. by rewrite !app_nil_r in E. Qed.

Lemma le64_spec v : le64 v = Some (le_bytes 8 v).
Proof.
  unfold le64. rewrite (memrev64ifbe_store (native_bytes 8 (u64 v)) 0 (u64 v)) by by apply wr_whole.
  rewrite wr_whole by by rewrite length_native_bytes, length_le_bytes. f_equal. apply (le_bytes_mod 8).
Qed.
End host.

Section Save.
Context `{Host} `{BufAddr} `{RdbEnv} {B : Type} `{RioWriter B}.

Lemma saves_len len : in_u 64 len -> saves (B := B) (rdbSaveLen len) (len_enc len) (Z.of_nat (length (len_enc len))).
Proof.
  intros Hl. unfold in_u in Hl. pose proof (len_enc_byte len (proj1 Hl)) as Hb. unfold len_enc in *.
  unfold rdbSaveLen. change (Z.shiftl 1 6) with 64. change (Z.shiftl 1 14) with 16384.
  pose proof (Z.mod_pos_bound len 256 ltac:(lia)).
  destruct (Z.ltb_spec len 64).
  { rewrite Z.lor_0_r, land255, Z.mod_small, (wrapu_small 8) by (cint || lia).
    eapply (saves_last _ _ _ (λ _, 1)); [by apply saves_raw|simpl; lia]. }
  destruct (Z.ltb_spec len 16384).
  { assert (0 <= len / 256 < 64) by (split; [apply Z.div_pos|apply Z.div_lt_upper_bound]; lia).
    rewrite !land255, (Z.shiftr_div_pow2 len 8), (Z.mod_small (len / _)) by (change (2 ^ 8) with 256; lia).
    change (2 ^ 8) with 256. rewrite Z.lor_comm, lor_shift_add by (try unfold in_u; simpl; lia).
    change (RDB_14BITLEN * 2 ^ 6) with 64. rewrite (wrapu_small 8) by (cint_unfold; lia).
    eapply (saves_last _ _ _ (λ _, 2)); [by apply saves_raw|simpl; lia]. }
  replace (len <=? 2 ^ 32 - 1) with (len <? 2 ^ 32) by lia.
  destruct (Z.ltb_spec len (2 ^ 32)).
  - rewrite (wrapu_small 32) by (unfold in_u; lia). rewrite htonl_big_endian by (unfold in_u; lia).
    apply Forall_cons in Hb as [Hb1 Hb2].
    eapply (saves_or_return _ [128]); [by apply saves_raw, Forall_singleton|simpl; lia|].
    eapply (saves_last _ _ _ (λ _, 1 + 4)); [by apply saves_raw|lia].
  - rewrite htonu64_big_endian by (unfold in_u; lia). apply Forall_cons in Hb as [Hb1 Hb2].
    eapply (saves_or_return _ [129]); [by apply saves_raw, Forall_singleton|simpl; lia|].
    eapply (saves_last _ _ _ (λ _, 1 + 8)); [by apply saves_raw|lia].
Qed.
End Save.

Section Load.
Context `{Host} `{BufAddr} `{RdbEnv} {B : Type} `{RioReader B}.

Lemma loads_len_by_ref len : in_u 64 len -> loads (B := B) rdbLoadLenByRef (len_enc len) (Some (false, len)).
Proof.
  intros Hl. unfold in_u in Hl. pose proof (len_enc_byte len (proj1 Hl)) as Hb. unfold len_enc in *.
  unfold rdbLoadLenByRef. pose proof (Z.mod_pos_bound len 256 ltac:(lia)).
  destruct (Z.ltb_spec len 64).
  { rewrite Forall_singleton in Hb. apply loads_read_last; [done|]. cbv beta. rewrite native_byte by done.
    destruct (first_octet len) as [-> ->]; [lia|]. rewrite Z.div_small, Z.mod_small by lia. apply loads_ret. }
  destruct (Z.ltb_spec len 16384).
  { assert (0 <= len / 256 < 64) by (split; [apply Z.div_pos|apply Z.div_lt_upper_bound]; lia).
    apply Forall_cons in Hb as [Hb1 Hb2]. apply (loads_read_or _ _ [_] _ [_]); [done|]. cbv beta. rewrite native_byte by done.
    destruct (first_octet (64 + len / 256)) as [-> ->]; [lia|].
    replace (64 + len / 256) with (len / 256 + 1 * 64) by lia. rewrite Z.div_add, Z.mod_add by lia.
    rewrite Z.div_small, Z.mod_small by lia. rewrite Forall_singleton in Hb2.
    apply loads_read_last; [done|]. cbv beta. rewrite native_byte by done. rewrite lor_shift_add by (done || lia).
    change (2 ^ 8) with 256. replace (len / 256 * 256 + len mod 256) with len by (pose proof (Z.div_mod len 256); lia).
    apply loads_ret. }
  destruct (Z.ltb_spec len (2 ^ 32)).
  - apply (loads_read_or _ _ [128]); [done|]. cbv beta. rewrite native_byte by done.
    apply loads_read_last; [by rewrite length_reverse, length_le_bytes|]. cbv beta.
    rewrite <- htonl_big_endian, native_value_bytes, ntohl_htonl by (try apply htonl_range; unfold in_u; lia).
    apply loads_ret.
  - apply (loads_read_or _ _ [129]); [done|]. cbv beta. rewrite native_byte by done.
    apply loads_read_last; [by rewrite length_reverse, length_le_bytes|]. cbv beta.
    rewrite <- htonu64_big_endian, native_value_bytes, ntohu64_htonu64 by (try apply htonu64_range; unfold in_u; lia).
    apply loads_ret.
Qed.

Lemma loads_len len : in_u 64 len -> loads (B := B) rdbLoadLen (len_enc len) (false, len).
Proof.
  intros Hl. unfold rdbLoadLen. rewrite <- (app_nil_r (len_enc len)).
  eapply loads_bind; [by apply loads_len_by_ref|apply loads_ret].
Qed.

(** A special encoding. *)
Lemma loads_encval e : 0 <= e < 64 -> loads (B := B) rdbLoadLen [192 + e] (true, e).
Proof.
  intros He. unfold rdbLoadLen. rewrite <- (app_nil_r [192 + e]).
  apply (loads_bind _ _ _ (Some (true, e))); [|apply loads_ret]. unfold rdbLoadLenByRef.
  apply loads_read_last; [done|]. cbv beta. rewrite native_byte by (cint_unfold; lia).
  destruct (first_octet (192 + e)) as [-> ->]; [lia|].
  replace (192 + e) with (e + 3 * 64) by lia. rewrite Z.div_add, Z.mod_add by lia.
  rewrite Z.div_small, Z.mod_small by lia. apply loads_ret.
Qed.
End Load.

(** ** Integers *)

Lemma range_test k v :
  0 < k -> (v >=? - Z.shiftl 1 (k - 1)) && (v <=? Z.shiftl 1 (k - 1) - 1) = true -> in_s k v.
Proof.
  intros Hk [H1%Z.geb_le H2%Z.leb_le]%andb_true_iff. rewrite Z.shiftl_mul_pow2 in * by lia. unfold in_s. lia.
Qed.

Lemma rdbEncodeInteger_spec v :
  in_s 8 v /\ rdbEncodeInteger v = 192 :: le_bytes 1 v \/
  in_s 16 v /\ rdbEncodeInteger v = 193 :: le_bytes 2 v \/
  in_s 32 v /\ rdbEncodeInteger v = 194 :: le_bytes 4 v \/
  rdbEncodeInteger v = [].
Proof.
  unfold rdbEncodeInteger.
  assert (E : Z.land (Z.shiftr v 8) 255 = v / 256 mod 256 /\
    Z.land (Z.shiftr v 16) 255 = v / 256 / 256 mod 256 /\ Z.land (Z.shiftr v 24) 255 = v / 256 / 256 / 256 mod 256).
  { rewrite !land255. change 24 with (16 + 8). rewrite (shiftr8 v 16) by lia. change 16 with (8 + 8).
    rewrite (shiftr8 v 8), (Z.shiftr_div_pow2 v 8) by lia. done. }
  destruct E as (-> & -> & ->). rewrite land255.
  destruct (_ && _) eqn:E8; [left; split; [by apply (range_test 8)|done]|].
  destruct ((v >=? - Z.shiftl 1 15) && _) eqn:E16; [right; left; split; [by apply (range_test 16)|done]|].
  destruct ((v >=? - Z.shiftl 1 31) && _) eqn:E32; [do 2 right; left; split; [by apply (range_test 32)|done]|by do 3 right].
Qed.

Lemma rdbEncodeInteger_byte v : Forall is_byte (rdbEncodeInteger v).
Proof.
  destruct (rdbEncodeInteger_spec v) as [[_ ->]|[[_ ->]|[[_ ->]| ->]]]; [..|done];
    (apply Forall_cons; split; [cint|apply le_bytes_byte]).
Qed.

Lemma signed_decimal_bytes v s : signed_decimal v s -> Forall is_byte s.
Proof.
  assert (Hd : forall l, Forall is_digit l -> Forall is_byte l)
    by (intros l Hl; eapply Forall_impl; [done|]; intros c; unfold is_digit; intros; cint).
  unfold signed_decimal. case_decide.
  - intros (t & -> & Ht & _). apply Forall_cons. split; [cint|by apply Hd].
  - intros (Ht & _). by apply Hd.
Qed.

(** The canonical notation of a number, as the three printers write it. *)
Lemma ll2string_digits m v :
  in_s 64 v -> LONG_STR_SIZE <= Z.of_nat (length m) ->
  exists s m', ll2string m 0 (Z.of_nat (length m)) v = Some (m', Z.of_nat (length s)) /\
    rd m' 0 (length s) = Some s /\ string2ll s = Some v /\ Forall is_byte s /\ (length s <= 20)%nat.
Proof.
  intros Hv Hm. destruct (ll2string_string2ll m 0 (Z.of_nat (length m)) v) as (s & m' & E & _ & Hr & Hs); [lia|done|lia..|].
  exists s, m'. split_and!; [done| |done|..].
  - apply rd_Some in Hr as (_ & Hl & Hr). unfold rd. rewrite decide_True by lia. f_equal.
    transitivity (take (length s) (s ++ [0])); [|by rewrite take_app_length].
    rewrite Hr, take_take. f_equal. lia.
  - apply string2ll_spec in Hs as [_ Hs]. by eapply signed_decimal_bytes.
  - apply string2ll_spec in Hs as [_ Hs]. by apply (signed_decimal_length v).
Qed.

Lemma lor_le4 a b c d :
  0 <= a < 256 -> 0 <= b < 256 -> 0 <= c < 256 -> 0 <= d < 256 ->
  Z.lor (Z.lor (Z.lor a (Z.shiftl b 8)) (Z.shiftl c 16)) (Z.shiftl d 24) = le_value [a; b; c; d].
Proof.
  intros. rewrite (Z.lor_comm a), (lor_shift_add b) by (unfold in_u; lia).
  rewrite (Z.lor_comm _ (Z.shiftl c 16)), (lor_shift_add c) by (unfold in_u; lia).
  rewrite Z.lor_comm, (lor_shift_add d) by (unfold in_u; lia). cbn [le_value]. lia.
Qed.

Section Integer.
Context `{Host} `{BufAddr} `{RdbEnv} {B : Type} `{RioReader B}.

Lemma loads_integer v :
  rdbEncodeInteger v <> [] ->
  exists e bs, rdbEncodeInteger v = (192 + e) :: bs /\ 0 <= e < 3 /\ in_s 32 v /\ Forall is_byte bs /\
    loads (B := B) (load_integer e) bs (Some v).
Proof.
  intros Hne. pose proof (rdbEncodeInteger_spec v) as Hc.
  destruct Hc as [[Hr ->]|[[Hr ->]|[[Hr ->]|]]]; [..|done].
  - exists 0, (le_bytes 1 v). split_and!; [done..|unfold in_s in *; lia|unfold in_s in *; lia|apply le_bytes_byte|].
    apply loads_read_last; [done|]. simpl. change (v mod 256) with (wrapu 8 v).
    rewrite wraps_wrapu, wraps_small by (done || lia). apply loads_ret.
  - exists 1, (le_bytes 2 v). split_and!; [done..|unfold in_s in *; lia|unfold in_s in *; lia|apply le_bytes_byte|].
    apply loads_read_last; [done|]. simpl. rewrite Z.lor_comm, lor_shift_add by (try apply Z.mod_pos_bound; lia).
    replace (_ * 2 ^ 8 + _) with (wrapu 16 v)
      by (unfold wrapu; change (2 ^ 16) with (256 * 256); rewrite Z.rem_mul_r by lia; lia).
    rewrite wraps_wrapu, wraps_small by (done || lia). apply loads_ret.
  - exists 2, (le_bytes 4 v). split_and!; [done..|unfold in_s in *; lia|unfold in_s in *; lia|apply le_bytes_byte|].
    apply loads_read_last; [done|]. simpl.
    rewrite lor_le4 by (apply Z.mod_pos_bound; lia).
    change [_; _; _; _] with (le_bytes 4 v). rewrite (le_value_bytes 4).
    change (v mod _) with (wrapu 32 v). rewrite wraps_wrapu, wraps_small by (done || lia). apply loads_ret.
Qed.
End Integer.

(** ** Strings *)

(** The environment of [lzf_compress]: the string is in the address space, above
    its first pages. *)
Class LzfEnv `{RdbEnv} := lzf_env s : Z.of_nat (length s) < 2 ^ 63 ->
  MAX_OFF <= lzf_base s /\ lzf_base s + Z.of_nat (length s) < 2 ^ 64 /\ forall i, in_u 64 (lzf_htab s i).

(** Areas of up to [n] octets can be allocated. *)
Definition can_alloc `{RdbEnv} (n : Z) : Prop := n < 2 ^ 63 - 1 /\ forall m, m <= n -> malloc m = true.

(** What loading [s] with these flags gives. *)
Definition loaded_ok (flags : Z) (s : bytes) (l : loaded) : Prop :=
  match l with
  | LPlain t => has_flag flags RDB_LOAD_PLAIN = true /\ t = s
  | LSds t => has_flag flags RDB_LOAD_PLAIN = false /\ has_flag flags RDB_LOAD_SDS = true /\ t = s
  | LObj o =>
      has_flag flags RDB_LOAD_PLAIN = false /\ has_flag flags RDB_LOAD_SDS = false /\ robj_bytes o = Some s /\
      (has_flag flags RDB_LOAD_ENC = false -> o = RawStr s) /\
      match o with
      | RawStr _ => True
      | EmbStr _ => Z.of_nat (length s) <= OBJ_ENCODING_EMBSTR_SIZE_LIMIT
      | IntStr v => string2ll s = Some v
      end
  end.

Section Alloc.
Context `{RdbEnv}.

Lemma ztrymalloc_ok n m : can_alloc n -> m <= n -> ztrymalloc m = true.
Proof.
  intros [Hn Hm] Hle. unfold ztrymalloc. rewrite Z.geb_leb, (proj2 (Z.leb_gt _ _)); [auto|].
  change ((2 ^ 64 - 1) / 2) with (2 ^ 63 - 1). lia.
Qed.

Lemma hdrlen_range n : 1 <= hdrlen_for n <= 17.
Proof. unfold hdrlen_for. repeat case_match; lia. Qed.

Lemma sdstrynewlen_ok n len : can_alloc n -> 0 <= len -> len + 18 <= n -> sdstrynewlen len = Some true.
Proof.
  intros Hn H0 Hle. pose proof (hdrlen_range len). pose proof Hn as [Hn' _]. unfold sdstrynewlen.
  rewrite wrapu_small by (unfold in_u; lia). rewrite Z.gtb_ltb, (proj2 (Z.ltb_lt _ _)) by lia.
  f_equal. apply (ztrymalloc_ok n); [done|lia].
Qed.

Lemma try_alloc_ok n plain len : can_alloc n -> 0 <= len -> len + 18 <= n -> try_alloc plain len = Some true.
Proof.
  intros. unfold try_alloc. destruct plain; [f_equal; apply (ztrymalloc_ok n); [done|lia]|by apply (sdstrynewlen_ok n)].
Qed.

(** The size of an sds that wraps around fails the assertion of [_sdsnewlen]. *)
Lemma sdstrynewlen_wraps len : 2 ^ 64 - 18 <= len < 2 ^ 64 -> sdstrynewlen len = None.
Proof.
  intros Hl. unfold sdstrynewlen, hdrlen_for.
  rewrite (proj2 (Z.eqb_neq _ _)) by lia. change (Z.shiftl 1 32) with (2 ^ 32). change (Z.shiftl 1 16) with (2 ^ 16).
  change (Z.shiftl 1 8) with (2 ^ 8). change (Z.shiftl 1 5) with (2 ^ 5). rewrite !(proj2 (Z.ltb_ge _ _)) by lia.
  replace (u64 (17 + len + 1)) with (len + 18 - 2 ^ 64).
  - by rewrite Z.gtb_ltb, (proj2 (Z.ltb_ge _ _)) by lia.
  - unfold wrapu. replace (17 + len + 1) with (len + 18 - 2 ^ 64 + 1 * 2 ^ 64) by lia.
    by rewrite Z.mod_add, Z.mod_small by lia.
Qed.
End Alloc.

Section Strings.
Context `{Host} `{BufAddr} `{RdbEnv} {R : Type} `{RioReader R}.

Lemma loads_read_into s len mk :
  len = Z.of_nat (length s) -> loads (B := R) (read_into len mk) s (Some (mk s)).
Proof.
  intros ->. unfold read_into. destruct s as [|b s]; [apply loads_ret|].
  rewrite (proj2 (Z.eqb_neq _ _)) by (simpl; lia). apply loads_read_last; [done|apply loads_ret].
Qed.

(** A string stored as it is. *)
Lemma loads_verbatim flags s :
  can_alloc (Z.of_nat (length s) + 18) ->
  exists l, loads (B := R) (rdbGenericLoadStringObject flags) (len_enc (Z.of_nat (length s)) ++ s) (Some l) /\
    loaded_ok flags s l.
Proof.
  intros Ha. set (len := Z.of_nat (length s)) in *. pose proof Ha as [Hmax _].
  unfold rdbGenericLoadStringObject.
  assert (Hsds : sdstrynewlen len = Some true) by (eapply sdstrynewlen_ok; [done|lia..]).
  assert (Htry : forall p, try_alloc p len = Some true) by (intros; eapply try_alloc_ok; [done|lia..]).
  set (l := if has_flag flags RDB_LOAD_PLAIN then LPlain s
            else if has_flag flags RDB_LOAD_SDS then LSds s
            else LObj (if has_flag flags RDB_LOAD_ENC && (len <=? OBJ_ENCODING_EMBSTR_SIZE_LIMIT)
                       then EmbStr s else RawStr s)).
  exists l. split.
  - eapply loads_bind; [apply loads_len; unfold in_u; lia|]. cbv beta iota.
    rewrite (proj2 (Z.eqb_neq _ _)) by (unfold RDB_LENERR; lia). unfold l.
    destruct (has_flag flags RDB_LOAD_PLAIN), (has_flag flags RDB_LOAD_SDS); cbn [orb];
      try (eapply loads_lift; [apply Htry|]; by apply loads_read_into).
    destruct (_ && _); [by apply (loads_read_into s _ (λ s, LObj (EmbStr s)))|].
    eapply loads_lift; [exact Hsds|]. by apply (loads_read_into s _ (λ s, LObj (RawStr s))).
  - unfold l, loaded_ok. destruct (has_flag flags RDB_LOAD_PLAIN), (has_flag flags RDB_LOAD_SDS), (has_flag flags RDB_LOAD_ENC);
      simpl; try destruct (Z.leb_spec len OBJ_ENCODING_EMBSTR_SIZE_LIMIT); naive_solver.
Qed.

(** A number stored as an integer. *)
Lemma loads_int_string flags s v :
  string2ll s = Some v -> rdbEncodeInteger v <> [] ->
  exists l, loads (B := R) (rdbGenericLoadStringObject flags) (rdbEncodeInteger v) (Some l) /\ loaded_ok flags s l.
Proof.
  intros Hs Hne. destruct (loads_integer (B := R) v Hne) as (e & bs & -> & He & Hv & Hb & Hload).
  assert (Hv64 : in_s 64 v) by (unfold in_s in *; lia).
  destruct (ll2string_digits (replicate (Z.to_nat LONG_STR_SIZE) junk) v Hv64) as (s' & m & Hll & Hrd & Hs' & _);
    [by rewrite length_replicate|].
  assert (s' = s) as -> by by eapply (proj2 (string2ll_strict s)).
  rewrite length_replicate in Hll.
  assert (Hsds : sdsfromlonglong v = Some s).
  { destruct (sdsll2str_spec v Hv64) as (t & Ht & Hd). unfold sdsfromlonglong. rewrite Ht. f_equal.
    eapply (proj2 (string2ll_strict s)); [exact Hs|]. by apply string2ll_spec. }
  set (l := if has_flag flags RDB_LOAD_PLAIN then LPlain s
            else if has_flag flags RDB_LOAD_SDS then LSds s
            else LObj (if has_flag flags RDB_LOAD_ENC then IntStr v else RawStr s)).
  exists l. split.
  - unfold rdbGenericLoadStringObject. apply (loads_bind _ _ [192 + e] (true, e)); [apply loads_encval; lia|]. cbv beta iota.
    rewrite (proj2 (Z.eqb_neq _ _)) by (unfold RDB_LENERR; lia).
    replace ((e =? RDB_ENC_INT8) || (e =? RDB_ENC_INT16) || (e =? RDB_ENC_INT32)) with true
      by (unfold RDB_ENC_INT8, RDB_ENC_INT16, RDB_ENC_INT32; lia).
    unfold rdbLoadIntegerObject. rewrite <- (app_nil_r bs). eapply loads_fail_or; [exact Hload|]. unfold l.
    destruct (has_flag flags RDB_LOAD_PLAIN), (has_flag flags RDB_LOAD_SDS); cbn [orb];
      try (eapply loads_lift; [exact Hll|]; cbv beta iota; rewrite Nat2Z.id; eapply loads_lift; [exact Hrd|]; apply loads_ret).
    destruct (has_flag flags RDB_LOAD_ENC); [apply loads_ret|]. eapply loads_lift; [exact Hsds|apply loads_ret].
  - unfold l, loaded_ok. clear -Hs Hsds.
    destruct (has_flag flags RDB_LOAD_PLAIN), (has_flag flags RDB_LOAD_SDS), (has_flag flags RDB_LOAD_ENC); naive_solver.
Qed.

(** A compressed string. *)
Lemma loads_lzf flags s c :
  can_alloc (Z.of_nat (length s) + 18) -> (length c <= length s)%nat ->
  (forall dst, (length s <= length dst)%nat ->
     lzf_decompress c dst = Some (Done (Z.of_nat (length s)), s ++ drop (length s) dst)) ->
  exists l, loads (B := R) (rdbGenericLoadStringObject flags)
      ([195] ++ len_enc (Z.of_nat (length c)) ++ len_enc (Z.of_nat (length s)) ++ c) (Some l) /\
    loaded_ok flags s l.
Proof.
  intros Ha Hc Hd. set (len := Z.of_nat (length s)) in *. pose proof Ha as [Hmax _].
  set (l := if has_flag flags RDB_LOAD_PLAIN then LPlain s
            else if has_flag flags RDB_LOAD_SDS then LSds s else LObj (RawStr s)).
  exists l. split.
  - unfold rdbGenericLoadStringObject. eapply loads_bind; [by apply (loads_encval 3)|]. cbv beta iota. simpl.
    unfold rdbLoadLzfStringObject.
    eapply loads_bind; [apply loads_len; unfold in_u; lia|]. cbv beta iota.
    rewrite (proj2 (Z.eqb_neq _ _)) by (unfold RDB_LENERR; lia).
    eapply loads_bind; [apply loads_len; unfold in_u; lia|]. cbv beta iota.
    rewrite (proj2 (Z.eqb_neq _ _)) by (unfold RDB_LENERR; lia).
    rewrite (ztrymalloc_ok (len + 18)) by (done || lia). cbn [negb].
    eapply loads_lift; [eapply try_alloc_ok; [exact Ha|lia..]|]. cbn [negb].
    apply loads_read_last; [done|].
    eapply loads_lift; [apply Hd; rewrite length_replicate; lia|]. cbv beta iota.
    cbn [returned]. rewrite Z.eqb_refl, drop_ge, app_nil_r by (rewrite length_replicate; lia). apply loads_ret.
  - unfold l, loaded_ok. destruct (has_flag flags RDB_LOAD_PLAIN), (has_flag flags RDB_LOAD_SDS); naive_solver.
Qed.
End Strings.

Section SaveStrings.
Context `{Host} `{BufAddr} `{LzfEnv} {B : Type} `{RioWriter B}.

(** [bs] is a way to store [s]: it is what a save function writes, and every load
    gives [s] back. *)
Record stores (s bs : bytes) : Prop := {
  stores_byte : Forall is_byte bs;
  stores_loads (R : Type) (HB : RioBackend R) (HR : RioReader R) flags :
    can_alloc (Z.of_nat (length s) + 18) ->
    exists l, loads (rdbGenericLoadStringObject flags) bs (Some l) /\ loaded_ok flags s l
}.

Lemma stores_verbatim s : Forall is_byte s -> stores s (len_enc (Z.of_nat (length s)) ++ s).
Proof.
  intros Hs. split; [apply Forall_app; split; [apply len_enc_byte; lia|done]|].
  intros R HB HR flags Ha. by apply loads_verbatim.
Qed.

Lemma stores_integer s v : string2ll s = Some v -> rdbEncodeInteger v <> [] -> stores s (rdbEncodeInteger v).
Proof.
  intros Hs Hne. split; [apply rdbEncodeInteger_byte|intros R HB HR flags _; by apply loads_int_string].
Qed.

Lemma saves_verbatim s :
  Forall is_byte s -> Z.of_nat (length s) < 2 ^ 63 ->
  let bs := len_enc (Z.of_nat (length s)) ++ s in
  saves (B := B) (save_verbatim s) bs (Z.of_nat (length bs)).
Proof.
  intros Hs Hl bs. unfold save_verbatim. pose proof (len_enc_length (Z.of_nat (length s))).
  eapply saves_or_return; [apply saves_len; unfold in_u; lia|lia|].
  unfold bs. rewrite length_app, Nat2Z.inj_add. destruct (Z.gtb_spec (Z.of_nat (length s)) 0).
  - eapply (saves_last _ _ _ (λ _, _)); [by apply saves_raw|lia].
  - destruct s; [|simpl in *; lia]. rewrite Z.add_0_r. apply saves_ret.
Qed.

(** Saving a compressed string. *)
Lemma saves_lzf_blob c len :
  Forall is_byte c -> Z.of_nat (length c) < 2 ^ 63 -> in_u 64 len ->
  let bs := [195] ++ len_enc (Z.of_nat (length c)) ++ len_enc len ++ c in
  saves (B := B) (rdbSaveLzfBlob c len) bs (Z.of_nat (length bs)).
Proof.
  intros Hc Hl Hlen bs. unfold rdbSaveLzfBlob.
  pose proof (len_enc_length (Z.of_nat (length c))). pose proof (len_enc_length len).
  eapply saves_or_return; [by apply saves_raw, Forall_singleton|simpl; lia|].
  eapply saves_or_return; [apply saves_len; unfold in_u; lia|lia|].
  eapply saves_or_return; [by apply saves_len|lia|].
  replace (Z.of_nat (length bs)) with
    (Z.of_nat (length [195]) + Z.of_nat (length (len_enc (Z.of_nat (length c)))) + Z.of_nat (length (len_enc len)) + Z.of_nat (length c))
    by (unfold bs; rewrite !length_app; lia).
  eapply (saves_last _ _ _ (λ n, _ + _ + _ + n)); [by apply saves_raw|lia].
Qed.

(** A function that writes nothing, or a way to store [s]. *)
Lemma saves_lzf s :
  Forall is_byte s -> Z.of_nat (length s) < 2 ^ 63 ->
  saves (B := B) (rdbSaveLzfStringObject s) [] 0 \/
  exists bs, stores s bs /\ bs <> [] /\ saves (B := B) (rdbSaveLzfStringObject s) bs (Z.of_nat (length bs)).
Proof.
  intros Hs Hl. set (len := Z.of_nat (length s)) in *. unfold rdbSaveLzfStringObject.
  fold len. destruct (Z.leb_spec len 4); [left; apply saves_ret|].
  destruct (lzf_env s Hl) as (Hbase & Hend & Hht).
  destruct (lzf_inverse (lzf_base s) (lzf_htab s) s (replicate (Z.to_nat (len - 4)) junk) Hbase Hend Hht Hs ltac:(lia))
    as (n & out & Hc & Hlo & Hn & Hd). rewrite length_replicate in Hlo, Hn.
  destruct (Z.eqb_spec n 0) as [->|Hn0].
  { left. eapply saves_lift; [exact Hc|]. cbv beta iota. apply saves_ret. }
  right. destruct (Hd Hn0) as [Hb Hdec]. set (c := take (Z.to_nat n) out) in *.
  assert (Hlc : length c = Z.to_nat n) by (unfold c; rewrite length_take; lia).
  exists ([195] ++ len_enc (Z.of_nat (length c)) ++ len_enc len ++ c).
  split; [split|split; [done|]].
  - repeat apply Forall_app_2; [by apply Forall_singleton|apply len_enc_byte; lia..|done].
  - intros R HB HR flags Ha. apply loads_lzf; [done|lia|done].
  - eapply saves_lift; [exact Hc|]. cbv beta iota. rewrite (proj2 (Z.eqb_neq _ _)) by done.
    apply saves_lzf_blob; [done|lia|unfold in_u; lia].
Qed.

Lemma saves_raw_string s :
  Forall is_byte s -> Z.of_nat (length s) < 2 ^ 63 ->
  exists bs, stores s bs /\ bs <> [] /\ saves (B := B) (rdbSaveRawString s) bs (Z.of_nat (length bs)).
Proof.
  intros Hs Hl. set (len := Z.of_nat (length s)) in *. unfold rdbSaveRawString. fold len.
  assert (Hverb : exists bs, stores s bs /\ bs <> [] /\ saves (B := B) (save_verbatim s) bs (Z.of_nat (length bs))).
  { exists (len_enc len ++ s). split_and!; [by apply stores_verbatim| |by apply saves_verbatim].
    pose proof (len_enc_length len). intros E%(f_equal length). rewrite length_app in E. simpl in E. lia. }
  set (buf := if len <=? 11 then rdbTryIntegerEncoding s else []).
  destruct (Z.gtb_spec (Z.of_nat (length buf)) 0) as [Hbuf|Hbuf].
  - unfold buf in *. destruct (len <=? 11); [|simpl in Hbuf; lia]. unfold rdbTryIntegerEncoding in *.
    destruct (string2ll s) as [v|] eqn:Ev; [|simpl in Hbuf; lia].
    assert (Hne : rdbEncodeInteger v <> []) by (intros E; rewrite E in Hbuf; simpl in Hbuf; lia).
    pose proof (stores_integer s v Ev Hne) as Hst.
    exists (rdbEncodeInteger v). split_and!; [done|done|].
    eapply (saves_last _ _ _ (λ _, _)); [apply saves_raw, Hst|lia].
  - destruct (_ && _) eqn:E; [|done].
    destruct (saves_lzf s Hs Hl) as [Hz|(bs & Hst & Hne & Hsv)].
    + destruct Hverb as (bs & Hst & Hne & Hsv). exists bs. split_and!; [done|done|].
      change bs with ([] ++ bs) at 1. eapply saves_or_return; [exact Hz|done|]. simpl. exact Hsv.
    + exists bs. split_and!; [done|done|]. rewrite <- (app_nil_r bs) at 1.
      eapply saves_or_return; [exact Hsv|lia|]. destruct bs; [done|]. simpl. apply saves_ret.
Qed.

Lemma saves_long_long v :
  in_s 64 v -> exists s bs, string2ll s = Some v /\ stores s bs /\ (length s <= 20)%nat /\ Forall is_byte s /\
    saves (B := B) (rdbSaveLongLongAsStringObject v) bs (Z.of_nat (length bs)).
Proof.
  intros Hv. destruct (ll2string_digits (replicate 32 junk) v Hv) as (s & m & Hll & Hrd & Hs & Hb & Hl);
    [by rewrite length_replicate|]. rewrite length_replicate in Hll.
  unfold rdbSaveLongLongAsStringObject. destruct (Z.gtb_spec (Z.of_nat (length (rdbEncodeInteger v))) 0) as [Hn|Hn].
  - assert (Hne : rdbEncodeInteger v <> []) by (intros E; rewrite E in Hn; simpl in Hn; lia).
    pose proof (stores_integer s v Hs Hne) as Hst. exists s, (rdbEncodeInteger v).
    split_and!; [done|done|done|done|]. apply saves_raw, Hst.
  - exists s, (len_enc (Z.of_nat (length s)) ++ s). pose proof (stores_verbatim s Hb) as Hst.
    split_and!; [done|done|done|done|].
    eapply saves_lift; [exact Hll|]. cbv beta iota. rewrite (proj2 (Z.ltb_lt _ _)), Nat2Z.id by lia.
    eapply saves_lift; [exact Hrd|]. pose proof (len_enc_length (Z.of_nat (length s))).
    eapply saves_or_return; [apply saves_len; unfold in_u; lia|lia|].
    rewrite length_app, Nat2Z.inj_add. eapply (saves_last _ _ _ (λ n, _ + n)); [by apply saves_raw|lia].
Qed.

(** The values of a string object. *)
Definition robj_ok (o : robj) (s : bytes) : Prop :=
  robj_bytes o = Some s /\ Forall is_byte s /\ Z.of_nat (length s) < 2 ^ 63 /\
  match o with IntStr v => in_s 64 v | _ => True end.

Lemma saves_string_object o s :
  robj_ok o s -> exists bs, stores s bs /\ saves (B := B) (rdbSaveStringObject o) bs (Z.of_nat (length bs)).
Proof.
  intros (Ho & Hs & Hl & Hi). destruct o as [t|t|v]; simpl in Ho; simplify_eq.
  1, 2: destruct (saves_raw_string s Hs Hl) as (bs & Hst & _ & Hsv); exists bs; by split.
  destruct (saves_long_long v Hi) as (t & bs & Ht & Hst & _ & _ & Hsv). exists bs.
  destruct (sdsll2str_spec v Hi) as (t' & Ht' & Hd). simplify_eq.
  assert (t = s) as -> by (eapply (proj2 (string2ll_strict s)); [|exact Ht]; by apply string2ll_spec).
  by split.
Qed.
End SaveStrings.

Section Strings_roundtrip.
Context `{Host} `{BufAddr} `{LzfEnv} {B : Type} `{RioWriter B} {R : Type} `{HR : RioBackend R} `{!RioReader R}.

(** C15: a string object is saved with octets that depend on nothing but the
    object and the environment of the saving server; written to any stream and
    followed by anything, they are loaded from any other stream as the same string,
    in the form the flags ask for, and what follows is left unread.  The count
    returned is the number of octets, also where nothing is written
    ([rdb == NULL], to measure an object); an error is -1. *)
Theorem rdb_string_roundtrip o s :
  robj_ok o s -> can_alloc (Z.of_nat (length s) + 18) ->
  exists bs,
    (forall w : sink B, sink_fine w -> exists n w', rdbSaveStringObject o w = Some (n, w') /\
       (n = -1 /\ w <> None \/ n = Z.of_nat (length bs) /\ sent w bs w')) /\
    forall flags (r : rio R) rest, source_ok r -> unread (io r) = bs ++ rest ->
      exists l r', rdbGenericLoadStringObject flags r = Some (Some l, r') /\ loaded_ok flags s l /\ unread (io r') = rest.
Proof.
  intros Ho Ha. destruct (saves_string_object (B := B) o s Ho) as (bs & Hst & Hsv). exists bs. split; [exact Hsv|].
  intros flags r rest Hr Hu. destruct (stores_loads _ _ Hst R HR _ flags Ha) as (l & Hl & Hok).
  destruct (Hl r rest Hr Hu) as (r' & E & D). exists l, r'. split; [done|]. split; [done|]. by eapply did_read_rest.
Qed.

(** C38: a length in the last 17 before the error value makes [_sdsnewlen] compute a
    size that wraps around, and its assertion fails where the caller expects
    NULL: a string header read from a file or a payload aborts the server. *)
Theorem huge_length_aborts flags len (r : rio R) rest :
  has_flag flags RDB_LOAD_PLAIN = false -> 2 ^ 64 - 18 <= len < 2 ^ 64 - 1 ->
  source_ok r -> unread (io r) = len_enc len ++ rest -> rdbGenericLoadStringObject flags r = None.
Proof.
  intros Hp Hl Hr Hu. destruct (loads_len (B := R) len ltac:(unfold in_u; lia) r rest Hr Hu) as (r' & E & _).
  unfold rdbGenericLoadStringObject, mbind at 1, ST_bind at 1. rewrite E, Hp. cbn [mbind option_bind orb].
  rewrite (proj2 (Z.eqb_neq _ _)) by (unfold RDB_LENERR; lia).
  pose proof (sdstrynewlen_wraps len ltac:(lia)) as Hw.
  rewrite (proj2 (Z.leb_gt len OBJ_ENCODING_EMBSTR_SIZE_LIMIT)) by (unfold OBJ_ENCODING_EMBSTR_SIZE_LIMIT; lia).
  rewrite andb_false_r. unfold try_alloc, lift, mbind, ST_bind. rewrite Hw. by destruct (has_flag flags RDB_LOAD_SDS).
Qed.
End Strings_roundtrip.

(** ** A concrete server *)

Module Concrete.
#[export] Instance host : Host := false.
#[export] Instance addresses : BufAddr := λ _, 0.
#[export] Instance server : RdbEnv := {|
  rdb_compression := true; malloc n := n <? 2 ^ 40; lzf_base _ := 2 ^ 20; lzf_htab _ _ := 0; junk := 0
|}.

#[export] Instance compressor : LzfEnv.
Proof. intros s Hs. cbn. split; [vm_compute; congruence|]. split; [lia|]. by split. Qed.

(** A memory stream with [bs] to read. *)
Definition stream (bs : bytes) : rio buffer := new_rio (mk_buffer bs 0).

Lemma alloc n : n < 2 ^ 40 -> can_alloc n.
Proof. intros Hn. split; [lia|]. intros m Hm. cbn. apply Z.ltb_lt. lia. Qed.

Lemma stream_source bs : Forall is_byte bs -> Z.of_nat (length bs) < 2 ^ 64 -> source_ok (stream bs).
Proof.
  intros Hb Hl. split; [split; [change (0 <= 0 <= Z.of_nat (length bs)); lia|exact Hl]|]. split; [done|]. by split.
Qed.

Lemma stream_sink bs : sink_ok (stream bs).
Proof. by split_and!. Qed.
End Concrete.

Import Concrete.

Lemma huge_length_aborts_witness :
  rdbGenericLoadStringObject RDB_LOAD_SDS (stream ([129] ++ replicate 7 255 ++ [240])) = None.
Proof.
  apply (huge_length_aborts RDB_LOAD_SDS (2 ^ 64 - 16) _ []).
  - reflexivity.
  - lia.
  - apply stream_source; [repeat constructor; vm_compute; congruence|vm_compute; congruence].
  - reflexivity.
Defined.

(** A string that is compressed. *)
Lemma rdb_string_roundtrip_witness :
  let s := str "a string, a string, a string, a string and its end" in
  let bs := [195; 28; 50; 10; 97; 32; 115; 116; 114; 105; 110; 103; 44; 32; 97; 224; 18; 9; 11; 32; 97; 110; 100;
             32; 105; 116; 115; 32; 101; 110; 100] in
  (exists w, rdbSaveStringObject (RawStr s) (Some (stream [])) = Some (31, Some w) /\ b_ptr (io w) = bs) /\
  exists r, rdbGenericLoadStringObject RDB_LOAD_ENC (stream (bs ++ [1; 2])) = Some (Some (LObj (RawStr s)), r) /\
    unread (io r) = [1; 2].
Proof.
  intros s bs.
  destruct (rdb_string_roundtrip (B := buffer) (R := buffer) (RawStr s) s) as (bs' & Hs & Hl).
  - split; [reflexivity|]. split; [repeat constructor; vm_compute; congruence|]. split; [reflexivity|exact I].
  - apply alloc. reflexivity.
  - destruct (Hs (Some (stream [])) (stream_sink [])) as (n & w' & E & Hw).
    destruct Hw as [[-> _]|[-> Hw]]; [vm_compute in E; congruence|].
    destruct w' as [w|]; [|destruct Hw]. destruct Hw as [[Hw _] _]. simpl in Hw.
    vm_compute in E. injection E as _ E. subst w. assert (bs' = bs) as -> by (symmetry; exact Hw).
    split; [eexists; split; [vm_compute; reflexivity|reflexivity]|].
    destruct (Hl RDB_LOAD_ENC (stream (bs ++ [1; 2])) [1; 2]) as (l & r & El & Hok & Hr); [|reflexivity|].
    + apply stream_source; [repeat constructor; vm_compute; congruence|vm_compute; congruence].
    + exists r. split; [|exact Hr]. rewrite El. vm_compute in El. injection El as <- _. reflexivity.
Defined.
