(* ===== verification/RdbFile.v ===== *)
(** The RDB file (src/redis-7.0.11/src/rdb.c): [rdbSaveRio], [rdbLoadRio] and the
    functions of a database, a key, the auxiliary fields.

    The values of keys are behind the interface [RdbObject], what the functions
    [rdbSaveObjectType], [rdbSaveObject] and [rdbLoadObject] do for a kind of
    value; [string_object] implements it for strings.  No module is loaded, so that
    [rdbSaveModulesAux] writes nothing. *)

From stdpp Require Import gmap.
From S2P Require Import Prelude State Endian Util Rio Rdb.

Local Open Scope string_scope.
Local Open Scope list_scope.
Local Open Scope Z_scope.

Definition RDB_VERSION : Z := 10.
Definition RDB_TYPE_STRING : Z := 0.
Definition RDB_OPCODE_FUNCTION2 : Z := 245.
Definition RDB_OPCODE_FUNCTION : Z := 246.
Definition RDB_OPCODE_MODULE_AUX : Z := 247.
Definition RDB_OPCODE_IDLE : Z := 248.
Definition RDB_OPCODE_FREQ : Z := 249.
Definition RDB_OPCODE_AUX : Z := 250.
Definition RDB_OPCODE_RESIZEDB : Z := 251.
Definition RDB_OPCODE_EXPIRETIME_MS : Z := 252.
Definition RDB_OPCODE_EXPIRETIME : Z := 253.
Definition RDB_OPCODE_SELECTDB : Z := 254.
Definition RDB_OPCODE_EOF : Z := 255.

Definition RDBFLAGS_AOF_PREAMBLE : Z := Z.shiftl 1 0.
Definition RDBFLAGS_ALLOW_DUP : Z := Z.shiftl 1 2.
Definition RDBFLAGS_FEED_REPL : Z := Z.shiftl 1 3.
Definition SLAVE_REQ_RDB_EXCLUDE_DATA : Z := Z.shiftl 1 0.
Definition SLAVE_REQ_RDB_EXCLUDE_FUNCTIONS : Z := Z.shiftl 1 1.
Definition CONFIG_RUN_ID_SIZE : Z := 40.

(** ** Values *)

(** What [rdbLoadObject] gives: an object, or NULL and the error. *)
Inductive obj_load (O : Type) := Obj (o : O) | EmptyKey | OtherError.
Arguments Obj {O}.
Arguments EmptyKey {O}.
Arguments OtherError {O}.

Class RdbObject (O : Type) := {
  rdb_type : O -> Z;
  rdbSaveObject `{Host} `{BufAddr} `{RdbEnv} B `{RioBackend B} : O -> ST (sink B) Z;
  rdbLoadObject `{Host} `{BufAddr} `{RdbEnv} B `{RioBackend B} : Z -> ST (rio B) (obj_load O)
}.

(** [tryObjectEncoding] on an object that is not shared. *)
Definition tryObjectEncoding (o : robj) : robj :=
  match o with
  | IntStr _ => o
  | RawStr s | EmbStr s =>
      let len := Z.of_nat (length s) in
      match (if len <=? 20 then string2l s else None) with
      | Some value => IntStr value
      | None => if len <=? OBJ_ENCODING_EMBSTR_SIZE_LIMIT then EmbStr s else o
      end
  end.

#[export] Instance string_object : RdbObject robj := {
  rdb_type _ := RDB_TYPE_STRING;
  rdbSaveObject _ _ _ _ _ o := rdbSaveStringObject o;
  rdbLoadObject _ _ _ _ _ rdbtype :=
    if rdbtype =? RDB_TYPE_STRING then
      o ← rdbLoadEncodedStringObject;
      mret (match o with Some (LObj o) => Obj (tryObjectEncoding o) | _ => OtherError end)
    else mret OtherError
}.

(** ** What is saved *)

(** A key, its value, its expire time (-1 for none), as the iteration over the
    dictionary meets them. *)
Record entry (O : Type) := mk_entry { e_key : bytes; e_val : O; e_expire : Z }.
Arguments mk_entry {O}.
Arguments e_key {O}.
Arguments e_val {O}.
Arguments e_expire {O}.

(** The server that saves: configuration, the clocks of values, and the figures of
    the auxiliary fields. *)
Record save_env (O : Type) := mk_save_env {
  sv_checksum : bool;                 (* server.rdb_checksum *)
  savelru : bool;                     (* maxmemory_policy & MAXMEMORY_FLAG_LRU *)
  savelfu : bool;                     (* maxmemory_policy & MAXMEMORY_FLAG_LFU *)
  idle_time : O -> Z;                 (* estimateObjectIdleTime *)
  lfu_counter : O -> Z;               (* LFUDecrAndReturn *)
  unix_time : Z;                      (* time(NULL) *)
  used_memory : Z;                    (* zmalloc_used_memory() *)
  replid : bytes;                     (* server.replid *)
  master_repl_offset : Z
}.
Arguments sv_checksum {O}.
Arguments savelru {O}.
Arguments savelfu {O}.
Arguments idle_time {O}.
Arguments lfu_counter {O}.
Arguments unix_time {O}.
Arguments used_memory {O}.
Arguments replid {O}.
Arguments master_repl_offset {O}.

Section Save.
Context `{Host} `{BufAddr} `{RdbEnv} {B : Type} `{RioBackend B} {O : Type} `{RdbObject O}.
Context (env : save_env O).

Abbreviation SAVE A := (ST (sink B) A).

(** [if (e == -1) return -1;]. *)
Definition check (m : SAVE Z) (k : SAVE Z) : SAVE Z := or_return m (λ _, k).

Definition rdbSaveKeyValuePair (e : entry O) : SAVE Z :=
  let val := e_val e in
  let save_kv :=
    check (rdbSaveType (rdb_type val))
    (check (rdbSaveStringObject (RawStr (e_key e)))
    (check (rdbSaveObject B val) (mret 1))) in
  let save_lfu :=
    if savelfu env then
      check (rdbSaveType RDB_OPCODE_FREQ) (check (rdbWriteRaw [u8 (lfu_counter env val)]) save_kv)
    else save_kv in
  let save_lru :=
    if savelru env then
      check (rdbSaveType RDB_OPCODE_IDLE) (check (rdbSaveLen (u64 (idle_time env val) / 1000)) save_lfu)
    else save_lfu in
  if negb (e_expire e =? -1) then
    check (rdbSaveType RDB_OPCODE_EXPIRETIME_MS) (check (rdbSaveMillisecondTime (e_expire e)) save_lru)
  else save_lru.

Definition rdbSaveAuxField (key val : bytes) : SAVE Z :=
  or_return (rdbSaveType RDB_OPCODE_AUX) (λ n1,
  or_return (rdbSaveRawString key) (λ n2,
  or_return (rdbSaveRawString val) (λ n3, mret (n1 + n2 + n3)))).

Definition rdbSaveAuxFieldStrStr (key val : bytes) : SAVE Z := rdbSaveAuxField key val.

Definition rdbSaveAuxFieldStrInt (key : bytes) (val : Z) : SAVE Z :=
  '(buf, vlen) ← lift (ll2string (replicate (Z.to_nat LONG_STR_SIZE) junk) 0 LONG_STR_SIZE val);
  digits ← lift (rd buf 0 (Z.to_nat vlen));
  rdbSaveAuxField key digits.

Definition REDIS_VERSION : bytes := str "7.0.11".

(** [rsi] is the selected database, where it is not NULL. *)
Definition rdbSaveInfoAuxFields (rdbflags : Z) (rsi : option Z) : SAVE Z :=
  let aof_base := b2z (negb (Z.land rdbflags RDBFLAGS_AOF_PREAMBLE =? 0)) in
  check (rdbSaveAuxFieldStrStr (str "redis-ver") REDIS_VERSION)
  (check (rdbSaveAuxFieldStrInt (str "redis-bits") 64)
  (check (rdbSaveAuxFieldStrInt (str "ctime") (unix_time env))
  (check (rdbSaveAuxFieldStrInt (str "used-mem") (used_memory env))
  (let last := check (rdbSaveAuxFieldStrInt (str "aof-base") aof_base) (mret 1) in
   match rsi with
   | None => last
   | Some repl_stream_db =>
       check (rdbSaveAuxFieldStrInt (str "repl-stream-db") repl_stream_db)
       (check (rdbSaveAuxFieldStrStr (str "repl-id") (replid env))
       (check (rdbSaveAuxFieldStrInt (str "repl-offset") (master_repl_offset env)) last))
   end)))).

(** The loop over the libraries, whose code is saved. *)
Fixpoint save_functions (written : Z) (functions : list bytes) : SAVE Z :=
  match functions with
  | [] => mret written
  | code :: functions =>
      or_return (rdbSaveType RDB_OPCODE_FUNCTION2) (λ n1,
      or_return (rdbSaveRawString code) (λ n2, save_functions (written + n1 + n2) functions))
  end.

Definition rdbSaveFunctions (functions : list bytes) : SAVE Z := save_functions 0 functions.

(** The loop of [rdbSaveDb] over the entries. *)
Fixpoint save_entries (written : Z) (es : list (entry O)) : SAVE Z :=
  match es with
  | [] => mret written
  | e :: es => or_return (rdbSaveKeyValuePair e) (λ res, save_entries (written + res) es)
  end.

Definition rdbSaveDb (dbid : Z) (es : list (entry O)) : SAVE Z :=
  match es with
  | [] => mret 0
  | _ :: _ =>
      let expires_size := Z.of_nat (length (filter (λ e, e_expire e <> -1) es)) in
      or_return (rdbSaveType RDB_OPCODE_SELECTDB) (λ n1,
      or_return (rdbSaveLen dbid) (λ n2,
      or_return (rdbSaveType RDB_OPCODE_RESIZEDB) (λ n3,
      or_return (rdbSaveLen (Z.of_nat (length es))) (λ n4,
      or_return (rdbSaveLen expires_size) (λ n5,
      save_entries (n1 + n2 + n3 + n4 + n5) es)))))
  end.

(** The loop over the databases. *)
Fixpoint save_dbs (j : Z) (dbs : list (list (entry O))) : SAVE Z :=
  match dbs with
  | [] => mret 0
  | es :: dbs => check (rdbSaveDb j es) (save_dbs (j + 1) dbs)
  end.

(** [rdb->update_cksum = rioGenericUpdateChecksum]. *)
Definition set_update_cksum (on : bool) (chunk : Z) (r : rio B) : rio B :=
  mk_rio (io r) on (cksum r) (flags r) (processed_bytes r) chunk.

Definition enable_cksum : SAVE unit := λ rdb,
  Some (tt, (λ r, if sv_checksum env then set_update_cksum true (max_processing_chunk r) r else r) <$> rdb).

(** The last octets: the checksum so far. *)
Definition save_cksum : SAVE Z := λ rdb,
  (c ← lift (le64 (default 0 (cksum <$> rdb))); rdbWriteRaw c) rdb.

(** [C_OK] is 0 and [C_ERR] is -1. *)
Definition rdbSaveRio (req rdbflags : Z) (rsi : option Z) (functions : list bytes)
    (dbs : list (list (entry O))) : SAVE Z :=
  _ ← enable_cksum;
  check (rdbWriteRaw (str "REDIS0010"))
  (check (rdbSaveInfoAuxFields rdbflags rsi)
  (check (if Z.land req SLAVE_REQ_RDB_EXCLUDE_FUNCTIONS =? 0 then rdbSaveFunctions functions else mret 0)
  (check (if Z.land req SLAVE_REQ_RDB_EXCLUDE_DATA =? 0 then save_dbs 0 dbs else mret 0)
  (check (rdbSaveType RDB_OPCODE_EOF)
  (check save_cksum (mret 0)))))).

End Save.

(** ** What is loaded *)

(** A loaded key: value, expire time, and the LRU or LFU field where one is set. *)
Record lentry (O : Type) := mk_lentry { le_val : O; le_expire : option Z; le_lru : option Z }.
Arguments mk_lentry {O}.
Arguments le_val {O}.
Arguments le_expire {O}.
Arguments le_lru {O}.

(** The server that loads. [lib_ok]: the scripting engine creates the library. *)
Record load_env := mk_load_env {
  ld_checksum : bool;                       (* server.rdb_checksum *)
  skip_checksum_validation : bool;
  loading_process_events_interval_bytes : Z;
  dbnum : Z;
  i_am_master : bool;                       (* iAmMaster() *)
  now : Z;                                  (* mstime() *)
  lfu_policy : bool;                        (* maxmemory_policy & MAXMEMORY_FLAG_LFU *)
  lru_clock : Z;                            (* LRU_CLOCK() *)
  lfu_minutes : Z;                          (* LFUGetTimeInMinutes() *)
  backlog_no_replicas : bool;               (* repl_backlog != NULL && listLength(slaves) == 0 *)
  lib_ok : bytes -> bool
}.

Record rdbSaveInfo := mk_rsi {
  repl_stream_db : Z;
  repl_id : option bytes;                   (* where repl_id_is_set *)
  repl_offset : Z
}.
Definition RDB_SAVE_INFO_INIT : rdbSaveInfo := mk_rsi (-1) None (-1).

(** The variables of the loop and what it fills. *)
Record lstate (O : Type) := mk_lstate {
  l_dbs : list (gmap bytes (lentry O));
  l_dbid : Z;
  l_expiretime : Z;
  l_lru_idle : Z;
  l_lfu_freq : Z;
  l_rsi : option rdbSaveInfo;
  l_functions : list bytes;
  l_used_mem : Z;                           (* server.loading_rdb_used_mem *)
  l_keys_loaded : Z;                        (* server.rdb_last_load_keys_loaded *)
  l_keys_expired : Z;                       (* server.rdb_last_load_keys_expired *)
  l_empty_keys : Z;
  l_fed : list (Z * bytes)                  (* the deletions sent to the backlog *)
}.
Arguments mk_lstate {O}.
Arguments l_dbs {O}.
Arguments l_dbid {O}.
Arguments l_expiretime {O}.
Arguments l_lru_idle {O}.
Arguments l_lfu_freq {O}.
Arguments l_rsi {O}.
Arguments l_functions {O}.
Arguments l_used_mem {O}.
Arguments l_keys_loaded {O}.
Arguments l_keys_expired {O}.
Arguments l_empty_keys {O}.
Arguments l_fed {O}.

(** The end of an iteration: [continue] (or the next turn), [break], and the ends of
    the function and of the process. *)
Inductive lctl (O : Type) := More (st : lstate O) | Eof (st : lstate O) | Eoferr | Exited | Panicked.
Arguments More {O}.
Arguments Eof {O}.
Arguments Eoferr {O}.
Arguments Exited {O}.
Arguments Panicked {O}.

Inductive load_result (O : Type) := LoadOk (st : lstate O) | LoadErr | LoadExit | LoadPanic.
Arguments LoadOk {O}.
Arguments LoadErr {O}.
Arguments LoadExit {O}.
Arguments LoadPanic {O}.

(** [strtoll(s, NULL, 10)]: [s] up to its first zero byte. *)
Fixpoint cstr (s : bytes) : bytes :=
  match s with [] => [] | c :: s => if c =? 0 then [] else c :: cstr s end.

Definition strtoll (s : bytes) : Z :=
  let t := drop_spaces (cstr s) in
  let '(negative, t) :=
    match t with
    | c :: t' => if c =? 45 then (true, t') else if c =? 43 then (false, t') else (false, t)
    | [] => (false, [])
    end in
  let v := dec_value (span_digits t).1 in
  if negative then Z.max LLONG_MIN (- v) else Z.min LLONG_MAX v.

Definition atoi (s : bytes) : Z := i32 (strtoll s).

(** The characters of a loaded string. *)
Definition chars (l : loaded) : bytes :=
  match l with LPlain s | LSds s | LObj (RawStr s) | LObj (EmbStr s) => s | LObj (IntStr _) => [] end.

Section Load.
Context `{Host} `{BufAddr} `{RdbEnv} {B : Type} `{RioBackend B} {O : Type} `{RdbObject O}.
Context (env : load_env) (rdbflags : Z).

Abbreviation LOAD A := (ST (rio B) A).

Definition with_rsi (f : rdbSaveInfo -> rdbSaveInfo) (st : lstate O) : lstate O :=
  mk_lstate (l_dbs st) (l_dbid st) (l_expiretime st) (l_lru_idle st) (l_lfu_freq st) (f <$> l_rsi st)
    (l_functions st) (l_used_mem st) (l_keys_loaded st) (l_keys_expired st) (l_empty_keys st) (l_fed st).

(** The attributes set by the opcodes before a key. *)
Definition with_attrs (expiretime lru_idle lfu_freq : Z) (st : lstate O) : lstate O :=
  mk_lstate (l_dbs st) (l_dbid st) expiretime lru_idle lfu_freq (l_rsi st)
    (l_functions st) (l_used_mem st) (l_keys_loaded st) (l_keys_expired st) (l_empty_keys st) (l_fed st).

Definition with_db (dbid : Z) (st : lstate O) : lstate O :=
  mk_lstate (l_dbs st) dbid (l_expiretime st) (l_lru_idle st) (l_lfu_freq st) (l_rsi st)
    (l_functions st) (l_used_mem st) (l_keys_loaded st) (l_keys_expired st) (l_empty_keys st) (l_fed st).

Definition with_used_mem (m : Z) (st : lstate O) : lstate O :=
  mk_lstate (l_dbs st) (l_dbid st) (l_expiretime st) (l_lru_idle st) (l_lfu_freq st) (l_rsi st)
    (l_functions st) m (l_keys_loaded st) (l_keys_expired st) (l_empty_keys st) (l_fed st).

Definition with_functions (fs : list bytes) (st : lstate O) : lstate O :=
  mk_lstate (l_dbs st) (l_dbid st) (l_expiretime st) (l_lru_idle st) (l_lfu_freq st) (l_rsi st)
    fs (l_used_mem st) (l_keys_loaded st) (l_keys_expired st) (l_empty_keys st) (l_fed st).

Definition with_keys (dbs : list (gmap bytes (lentry O))) (loaded expired empty : Z) (fed : list (Z * bytes))
    (st : lstate O) : lstate O :=
  mk_lstate dbs (l_dbid st) (l_expiretime st) (l_lru_idle st) (l_lfu_freq st) (l_rsi st)
    (l_functions st) (l_used_mem st) loaded expired empty fed.

(** [if (rioGetReadError(rdb)) goto eoferr; continue;]. *)
Definition unless_read_error (st : lstate O) : LOAD (lctl O) :=
  r ← get; mret (if rioGetReadError r then Eoferr else More st).

(** [if ((x = rdbLoadLen(rdb,NULL)) == RDB_LENERR) goto eoferr;]. *)
Definition len_or_eof (k : Z -> LOAD (lctl O)) : LOAD (lctl O) :=
  '(_, len) ← rdbLoadLen; if len =? RDB_LENERR then mret Eoferr else k len.

(** The branches of RDB_OPCODE_AUX. *)
Definition aux_field (key val : bytes) (st : lstate O) : lstate O :=
  let named name := strcaseeq (cstr key) (str name) in
  if bool_decide (head key = Some 37) then st
  else if named "repl-stream-db" then with_rsi (λ i, mk_rsi (atoi val) (repl_id i) (repl_offset i)) st
  else if named "repl-id" then
    if Z.of_nat (length val) =? CONFIG_RUN_ID_SIZE
    then with_rsi (λ i, mk_rsi (repl_stream_db i) (Some val) (repl_offset i)) st else st
  else if named "repl-offset" then with_rsi (λ i, mk_rsi (repl_stream_db i) (repl_id i) (strtoll val)) st
  else if named "lua" then st
  else if named "redis-ver" then st
  else if named "ctime" then st
  else if named "used-mem" then with_used_mem (strtoll val) st
  else st.

(** [sdscatfmt(sdsempty(), "#!%s name=%s\n%s", engine_name, name, blob)]. *)
Definition old_function_payload (engine_name name blob : bytes) : bytes :=
  str "#!" ++ cstr engine_name ++ str " name=" ++ cstr name ++ [10] ++ cstr blob.

(** [rdbFunctionLoad]: the code of the library, or [None] for [C_ERR]. *)
Definition rdbFunctionLoad (type : Z) : LOAD (option bytes) :=
  let load := rdbGenericLoadStringObject RDB_LOAD_SDS in
  let create payload := mret (if lib_ok env payload then Some payload else None) in
  if type =? RDB_OPCODE_FUNCTION then
    fail_or None load (λ name,
    fail_or None load (λ engine_name,
    '(_, has_desc) ← rdbLoadLen;
    if has_desc =? RDB_LENERR then mret None
    else
      let blob_then := fail_or None load (λ blob,
        create (old_function_payload (chars engine_name) (chars name) (chars blob))) in
      if negb (has_desc =? 0) then fail_or None load (λ _, blob_then) else blob_then))
  else fail_or None load (λ payload, create (chars payload)).

Definition LRU_CLOCK_RESOLUTION : Z := 1000.
Definition LRU_BITS : Z := 24.
Definition LRU_CLOCK_MAX : Z := Z.shiftl 1 LRU_BITS - 1.

(** [objectSetLRUOrLFU(val,lfu_freq,lru_idle,lru_clock,1000)]: what the bit field
    [val->lru] is set to. *)
Definition objectSetLRUOrLFU (lfu_freq lru_idle : Z) : option Z :=
  if lfu_policy env then
    if lfu_freq >=? 0 then Some (wrapu LRU_BITS (Z.lor (Z.shiftl (lfu_minutes env) 8) lfu_freq)) else None
  else if lru_idle >=? 0 then
    let lru_abs := i64 (lru_clock env - i64 (lru_idle * 1000) `quot` LRU_CLOCK_RESOLUTION) in
    Some (wrapu LRU_BITS (if lru_abs <? 0 then lru_abs + LRU_CLOCK_MAX else lru_abs))
  else None.

(** The end of an iteration that read a key and its value. *)
Definition store_key (key : bytes) (val : obj_load O) (st : lstate O) : option (lctl O) :=
  let next st := More (with_attrs (-1) (-1) (-1) st) in
  let expiretime := l_expiretime st in
  match val with
  | OtherError => Some Eoferr
  | EmptyKey =>
      Some (next (with_keys (l_dbs st) (l_keys_loaded st) (l_keys_expired st) (l_empty_keys st + 1) (l_fed st) st))
  | Obj val =>
      if i_am_master env && (Z.land rdbflags RDBFLAGS_AOF_PREAMBLE =? 0) &&
         negb (expiretime =? -1) && (expiretime <? now env)
      then
        let expired fed :=
          Some (next (with_keys (l_dbs st) (l_keys_loaded st) (l_keys_expired st + 1) (l_empty_keys st) fed st)) in
        if negb (Z.land rdbflags RDBFLAGS_FEED_REPL =? 0) then
          if backlog_no_replicas env then expired (l_fed st ++ [(l_dbid st, key)]) else None
        else expired (l_fed st)
      else
        db ← l_dbs st !! Z.to_nat (l_dbid st);
        let added := bool_decide (db !! key = None) in
        if added || negb (Z.land rdbflags RDBFLAGS_ALLOW_DUP =? 0) then
          let e := mk_lentry val (if negb (expiretime =? -1) then Some expiretime else None)
                     (objectSetLRUOrLFU (l_lfu_freq st) (l_lru_idle st)) in
          Some (next (with_keys (<[Z.to_nat (l_dbid st) := <[key := e]> db]> (l_dbs st))
                        (l_keys_loaded st + 1) (l_keys_expired st) (l_empty_keys st) (l_fed st) st))
        else Some Panicked
  end.

(** One iteration of [while(1)], [rdbver] being the version of the file. *)
Definition load_step (rdbver : Z) (st : lstate O) : LOAD (lctl O) :=
  type ← rdbLoadType;
  if type =? -1 then mret Eoferr
  else if type =? RDB_OPCODE_EXPIRETIME then
    t ← rdbLoadTime; unless_read_error (with_attrs (t * 1000) (l_lru_idle st) (l_lfu_freq st) st)
  else if type =? RDB_OPCODE_EXPIRETIME_MS then
    t ← rdbLoadMillisecondTime rdbver; unless_read_error (with_attrs t (l_lru_idle st) (l_lfu_freq st) st)
  else if type =? RDB_OPCODE_FREQ then
    read_or Eoferr 1 (λ b, mret (More (with_attrs (l_expiretime st) (l_lru_idle st) (native_value b) st)))
  else if type =? RDB_OPCODE_IDLE then
    len_or_eof (λ qword, mret (More (with_attrs (l_expiretime st) (i64 qword) (l_lfu_freq st) st)))
  else if type =? RDB_OPCODE_EOF then mret (Eof st)
  else if type =? RDB_OPCODE_SELECTDB then
    len_or_eof (λ dbid, mret (if dbid >=? dbnum env then Exited else More (with_db dbid st)))
  else if type =? RDB_OPCODE_RESIZEDB then
    len_or_eof (λ _, len_or_eof (λ _, mret (More st)))
  else if type =? RDB_OPCODE_AUX then
    fail_or Eoferr rdbLoadStringObject (λ auxkey,
    fail_or Eoferr rdbLoadStringObject (λ auxval,
    mret (More (aux_field (chars auxkey) (chars auxval) st))))
  else if type =? RDB_OPCODE_MODULE_AUX then
    _ ← rdbLoadLen; '(_, when_opcode) ← rdbLoadLen; _ ← rdbLoadLen;
    r ← get;
    mret (if rioGetReadError r then Eoferr
          else if negb (i32 when_opcode =? 2) then Eoferr else Exited)
  else if (type =? RDB_OPCODE_FUNCTION) || (type =? RDB_OPCODE_FUNCTION2) then
    fail_or Eoferr (rdbFunctionLoad type) (λ code, mret (More (with_functions (l_functions st ++ [code]) st)))
  else
    fail_or Eoferr (rdbGenericLoadStringObject RDB_LOAD_SDS) (λ key,
    val ← rdbLoadObject B type;
    lift (store_key (chars key) val st)).

(** The end of the function: the checksum. *)
Definition load_cksum (rdbver : Z) (st : lstate O) : LOAD (load_result O) :=
  if rdbver >=? 5 then
    r ← get;
    let expected := cksum r in
    read_or LoadErr 8 (λ b,
      if ld_checksum env && negb (skip_checksum_validation env) then
        b ← lift (memrev64ifbe b 0);
        let cksum := native_value b in
        mret (if cksum =? 0 then LoadOk st else if negb (cksum =? expected) then LoadErr else LoadOk st)
      else mret (LoadOk st))
  else mret (LoadOk st).

(** The loop; [None] when [fuel] turns are not enough. *)
Fixpoint load_loop (fuel : nat) (rdbver : Z) (st : lstate O) : LOAD (load_result O) :=
  match fuel with
  | 0%nat => fail
  | S fuel =>
      c ← load_step rdbver st;
      match c with
      | More st => load_loop fuel rdbver st
      | Eof st => load_cksum rdbver st
      | Eoferr => mret LoadErr
      | Exited => mret LoadExit
      | Panicked => mret LoadPanic
      end
  end.

Definition initial_lstate (dbs : list (gmap bytes (lentry O))) (rsi : option rdbSaveInfo) : lstate O :=
  mk_lstate dbs 0 (-1) (-1) (-1) rsi [] 0 0 0 0 [].

Definition rdbLoadRioWithLoadingCtx (fuel : nat) (rsi : option rdbSaveInfo)
    (dbs : list (gmap bytes (lentry O))) : LOAD (load_result O) :=
  _ ← (λ r : rio B, Some (tt, set_update_cksum (ld_checksum env) (loading_process_events_interval_bytes env) r));
  read_or LoadErr 9 (λ buf,
    if negb (bool_decide (take 5 buf = str "REDIS")) then mret LoadErr
    else
      let rdbver := atoi (drop 5 buf) in
      if (rdbver <? 1) || (rdbver >? RDB_VERSION) then mret LoadErr
      else load_loop fuel rdbver (initial_lstate dbs rsi)).

End Load.
