(* ===== verification/RdbFileSpec.v ===== *)
(** What [rdbSaveRio] writes, [rdbLoadRio] loads.

    [steps bs st st']: the loop goes from [st] to [st'] by reading [bs], one
    iteration per opcode or key.  [transfers pre m f]: after [pre], the function [m]
    writes octets that make the loop do [f]; its rules follow the code that saves. *)

From stdpp Require Import gmap.
From S2P Require Import Prelude State Endian Util Crc CrcSpec Lzf LzfSpec Rio RioSpec Rdb RdbSpec RdbFile.

Local Open Scope string_scope.
Local Open Scope list_scope.
Local Open Scope Z_scope.

(** ** Values *)

(** What the file relies on for a kind of value: [obj_ok mem o] values are saved
    and, with [mem] octets to allocate, loaded as [loaded_as o]. *)
Class RdbObjectLaws (O : Type) `{RdbObject O} := {
  obj_ok : Z -> O -> Prop;
  loaded_as : O -> O;
  rdb_type_ok mem o : obj_ok mem o -> 0 <= rdb_type o < RDB_OPCODE_FUNCTION2;
  obj_stores `{Host} `{BufAddr} `{LzfEnv} mem o : can_alloc mem -> obj_ok mem o ->
    forall B (HB : RioBackend B) (HW : RioWriter B), exists bs,
      Forall is_byte bs /\ saves (B := B) (rdbSaveObject B o) bs (Z.of_nat (length bs)) /\
      forall R (HR : RioBackend R) (HRd : RioReader R), loads (B := R) (rdbLoadObject R (rdb_type o)) bs (Obj (loaded_as o))
}.

(** The encoding a loaded string has. *)
Definition canonical_string (o : robj) : robj :=
  match robj_bytes o with Some s => tryObjectEncoding (RawStr s) | None => o end.

Lemma string2l_eq s : string2l s = string2ll s.
Proof.
  unfold string2l. destruct (string2ll s) as [v|] eqn:E; [|done]. cbn [mbind option_bind].
  apply string2ll_spec in E as [Hv _]. unfold in_s in Hv. change (2 ^ (64 - 1)) with (2 ^ 63) in Hv.
  rewrite !(proj2 (Z.ltb_ge _ _)) by lia. cbn [orb]. by rewrite wraps_small by (unfold in_s; lia).
Qed.

(** Strings that arrive in any encoding end in the same one. *)
Lemma tryObjectEncoding_loaded s o :
  loaded_ok RDB_LOAD_ENC s (LObj o) -> tryObjectEncoding o = tryObjectEncoding (RawStr s).
Proof.
  intros (_ & _ & Ho & _ & Hk). destruct o as [t|t|v]; simpl in Ho; simplify_eq.
  - done.
  - unfold tryObjectEncoding. rewrite (proj2 (Z.leb_le _ OBJ_ENCODING_EMBSTR_SIZE_LIMIT)) by done. done.
  - unfold tryObjectEncoding. rewrite string2l_eq, Hk.
    apply string2ll_spec in Hk as [Hv Hd]. pose proof (signed_decimal_length v s Hv Hd).
    by rewrite (proj2 (Z.leb_le _ _)) by lia.
Qed.

#[export] Program Instance string_laws : RdbObjectLaws robj := {
  obj_ok mem o := exists s, robj_ok o s /\ Z.of_nat (length s) + 18 <= mem;
  loaded_as := canonical_string
}.
Next Obligation. intros mem o _. cbn. unfold RDB_TYPE_STRING, RDB_OPCODE_FUNCTION2. lia. Qed.
Next Obligation.
  intros ???? mem o [Hmax Ha] (s & Ho & Hs) B HB HW.
  destruct (saves_string_object (B := B) o s Ho) as (bs & Hst & Hsv). exists bs.
  split; [apply Hst|]. split; [exact Hsv|]. intros R HR HRd. simpl.
  destruct (stores_loads _ _ Hst R HR HRd RDB_LOAD_ENC) as (l & Hl & Hok).
  { split; [lia|]. intros m Hm. apply Ha. lia. }
  rewrite <- (app_nil_r bs). eapply loads_bind; [exact Hl|].
  destruct l as [t|t|o']; [by destruct Hok as [[=] _]|by destruct Hok as (_ & [=] & _)|].
  unfold canonical_string. rewrite (proj1 Ho), <- (tryObjectEncoding_loaded s o' Hok). apply loads_ret.
Qed.

(** ** Numbers in auxiliary fields *)

Lemma cstr_digits s : Forall (λ c, c <> 0) s -> cstr s = s.
Proof. induction 1 as [|c s Hc Hs IH]; [done|]. cbn [cstr]. by rewrite (proj2 (Z.eqb_neq _ _)), IH. Qed.

Lemma strtoll_signed v s : in_s 64 v -> signed_decimal v s -> strtoll s = v.
Proof.
  intros Hv Hs. unfold in_s in Hv. change (2 ^ (64 - 1)) with (2 ^ 63) in Hv. unfold signed_decimal in Hs. unfold strtoll.
  assert (Hdec : forall n t, decimal n t -> cstr t = t /\ span_digits t = (t, []) /\ dec_value t = n /\
    exists c t', t = c :: t' /\ 48 <= c <= 57).
  { intros n t (Hd & Hne & _ & Hval). split.
    - apply cstr_digits. eapply Forall_impl; [exact Hd|]. unfold is_digit. intros; lia.
    - split; [rewrite <- (app_nil_r t) at 1; by apply span_digits_app|]. split; [done|].
      destruct t as [|c t]; [done|]. apply Forall_cons in Hd as [Hc _]. unfold is_digit in Hc. eauto. }
  case_decide.
  - destruct Hs as (t & -> & Ht). destruct (Hdec _ _ Ht) as (Hc & Hsp & Hval & _).
    cbn [cstr Z.eqb]. rewrite Hc. cbn [drop_spaces isspace]. cbn. rewrite Hsp. simpl. rewrite Hval. lia.
  - destruct (Hdec _ _ Hs) as (Hc & Hsp & Hval & c & t & -> & Hcr). rewrite Hc. cbn [drop_spaces].
    assert (isspace c = false) as -> by (unfold isspace; lia).
    rewrite !(proj2 (Z.eqb_neq c _)) by lia. rewrite Hsp. simpl fst. rewrite Hval. lia.
Qed.

(** ** Iterations and what makes them *)

Section Transfer.
Context `{Host} `{BufAddr} `{LzfEnv} {B : Type} `{RioWriter B} {R : Type} `{HR : RioBackend R} `{!RioReader R}.
Context {O : Type} `{RdbObjectLaws O}.
Context (lenv : load_env) (rdbflags : Z).

Definition turn (st : lstate O) (bs : bytes) (c : lctl O) : Prop :=
  loads (B := R) (load_step lenv rdbflags RDB_VERSION st) bs c.

Inductive steps : bytes -> lstate O -> lstate O -> Prop :=
| steps_nil st : steps [] st st
| steps_cons a b st st1 st2 : a <> [] -> turn st a (More st1) -> steps b st1 st2 -> steps (a ++ b) st st2.

Lemma steps_app a b st st1 st2 : steps a st st1 -> steps b st1 st2 -> steps (a ++ b) st st2.
Proof. induction 1; intros; [done|]. rewrite <- app_assoc. econstructor; eauto. Qed.

(** Octets are more turns than needed. *)
Lemma load_loop_steps bs st st' : steps bs st st' ->
  forall fuel r rest, source_ok r -> unread (io r) = bs ++ rest -> (length bs <= fuel)%nat ->
  exists fuel' r', load_loop lenv rdbflags fuel RDB_VERSION st r = load_loop lenv rdbflags fuel' RDB_VERSION st' r' /\
    did_read r bs r' /\ (fuel <= fuel' + length bs)%nat.
Proof.
  induction 1 as [st|a b st st1 st2 Ha Ht Hs IH]; intros fuel r rest Hr Hu Hf.
  - exists fuel, r. split; [done|]. split; [by apply did_read_nil|simpl; lia].
  - rewrite length_app in Hf. rewrite <- app_assoc in Hu.
    destruct (Ht r (b ++ rest) Hr Hu) as (r1 & E1 & D1).
    destruct fuel as [|fuel]; [destruct a; simpl in Hf; [done|lia]|].
    destruct (IH fuel r1 rest) as (fuel' & r2 & E2 & D2 & Hf'); [apply D1|by eapply did_read_rest| |].
    { destruct a; simpl in Hf; [done|lia]. }
    exists fuel', r2. split; [|split; [by eapply did_read_app|rewrite length_app; destruct a; simpl; [done|lia]]].
    rewrite <- E2. cbn [load_loop]. unfold mbind at 1, ST_bind at 1. by rewrite E1.
Qed.

Definition transfers (pre : bytes) (m : ST (sink B) Z) (f : lstate O -> option (lstate O)) : Prop :=
  exists bs v, 0 <= v /\ Forall is_byte bs /\ saves m bs v /\
    forall st st', f st = Some st' -> steps (pre ++ bs) st st'.

(** The code that saves goes on with the opcode. *)
Lemma transfers_save pre m b v k f :
  saves m b v -> 0 <= v -> Forall is_byte b -> transfers (pre ++ b) (k v) f -> transfers pre (or_return m k) f.
Proof.
  intros Hm Hv Hb (bs & w & Hw & Hbs & Hk & Hst). exists (b ++ bs), w.
  split; [done|]. split; [by apply Forall_app|]. split; [by eapply saves_or_return|].
  intros st st' E. rewrite app_assoc. by apply Hst.
Qed.

(** An opcode is complete. *)
Lemma transfers_turn pre m f g :
  pre <> [] -> (forall st st', f st = Some st' -> turn st pre (More st')) -> transfers [] m g ->
  transfers pre m (λ st, f st ≫= g).
Proof.
  intros Hne Hf (bs & w & Hw & Hbs & Hk & Hst). exists bs, w. split_and!; [done..|].
  intros st st' (st1 & E1 & E2)%bind_Some. eapply steps_cons; [done|by apply Hf|by apply Hst].
Qed.

Lemma transfers_opcode pre m (h : lstate O -> lstate O) g :
  pre <> [] -> (forall st, turn st pre (More (h st))) -> transfers [] m g -> transfers pre m (λ st, g (h st)).
Proof. intros Hne Hh. apply (transfers_turn pre m (λ st, Some (h st)) g Hne). by intros st st' [= <-]. Qed.

Lemma transfers_ret v : 0 <= v -> transfers [] (mret v) Some.
Proof. intros. exists [], v. split_and!; [done..|apply saves_ret|]. intros st st' [= ->]. constructor. Qed.

Lemma transfers_seq m k f g :
  transfers [] m f -> (forall v, 0 <= v -> transfers [] (k v) g) ->
  transfers [] (or_return m k) (λ st, f st ≫= g).
Proof.
  intros (b & v & Hv & Hb & Hm & Hst) Hk. destruct (Hk v Hv) as (bs & w & Hw & Hbs & Hkv & Hst').
  exists (b ++ bs), w. split; [done|]. split; [by apply Forall_app|]. split; [by eapply saves_or_return|].
  intros st st' (st1 & E1 & E2)%bind_Some. apply (steps_app b bs st st1); [by apply Hst|by apply Hst'].
Qed.

Lemma transfers_ext pre m f g :
  (forall st st', g st = Some st' -> f st = Some st') -> transfers pre m f -> transfers pre m g.
Proof. intros Hfg (bs & v & ? & ? & ? & Hst). exists bs, v. split_and!; [done..|]. auto. Qed.

(** A function that saves a whole opcode. *)
Lemma transfers_one m bs v f :
  saves m bs v -> 0 <= v -> Forall is_byte bs -> bs <> [] ->
  (forall st st', f st = Some st' -> turn st bs (More st')) -> transfers [] m f.
Proof.
  intros Hm Hv Hbs Hne Hf. exists bs, v. split_and!; [done..|].
  intros st st' E. cbn [app]. rewrite <- (app_nil_r bs). econstructor; [done|by apply Hf|constructor].
Qed.


(** ** Opcodes *)

Context (mem : Z) (Hmem : can_alloc mem).

(** A string that can be loaded. *)
Definition fits (s : bytes) : Prop := Forall is_byte s /\ Z.of_nat (length s) + 18 <= mem.

Lemma fits_range s : fits s -> Forall is_byte s /\ Z.of_nat (length s) < 2 ^ 63.
Proof. intros [Hs Hl]. pose proof Hmem as [? _]. split; [done|lia]. Qed.

Lemma stores_fits s bs flags :
  fits s -> stores s bs ->
  exists l, loads (B := R) (rdbGenericLoadStringObject flags) bs (Some l) /\ loaded_ok flags s l.
Proof.
  intros [_ Hl] Hst. apply (stores_loads _ _ Hst). destruct Hmem as [? Ha]. split; [lia|]. intros. apply Ha. lia.
Qed.

Lemma loads_string s bs :
  fits s -> stores s bs -> loads (B := R) rdbLoadStringObject bs (Some (LObj (RawStr s))).
Proof.
  intros Hs Hst. destruct (stores_fits s bs RDB_LOAD_NONE Hs Hst) as (l & Hl & Hok).
  destruct l as [t|t|o]; [by destruct Hok as [[=] _]|by destruct Hok as (_ & [=] & _)|].
  destruct Hok as (_ & _ & _ & Hraw & _). by rewrite <- Hraw.
Qed.

Lemma loads_sds s bs :
  fits s -> stores s bs -> loads (B := R) (rdbGenericLoadStringObject RDB_LOAD_SDS) bs (Some (LSds s)).
Proof.
  intros Hs Hst. destruct (stores_fits s bs RDB_LOAD_SDS Hs Hst) as (l & Hl & Hok).
  destruct l as [t|t|o]; [by destruct Hok as [[=] _]|by destruct Hok as (_ & _ & ->)|by destruct Hok as (_ & [=] & _)].
Qed.

Lemma loads_type c : is_byte c -> loads (B := R) rdbLoadType [c] c.
Proof. intros Hc. unfold rdbLoadType. apply loads_read_last; [done|]. rewrite native_byte by done. apply loads_ret. Qed.

(** The type is read and its branch is taken. *)
Ltac take_branch c :=
  unfold turn, load_step;
  apply (loads_bind _ _ [c] c); [by apply loads_type|];
  cbn [Z.eqb Pos.eqb orb RDB_OPCODE_FUNCTION2 RDB_OPCODE_FUNCTION RDB_OPCODE_MODULE_AUX RDB_OPCODE_IDLE
       RDB_OPCODE_FREQ RDB_OPCODE_AUX RDB_OPCODE_RESIZEDB RDB_OPCODE_EXPIRETIME_MS RDB_OPCODE_EXPIRETIME
       RDB_OPCODE_SELECTDB RDB_OPCODE_EOF].

Lemma turn_eof st : turn st [255] (Eof st).
Proof. take_branch 255. apply loads_ret. Qed.

Lemma loads_len_or_eof n k b (c : lctl O) :
  0 <= n < 2 ^ 64 - 1 -> loads (B := R) (k n) b c -> loads (B := R) (len_or_eof k) (len_enc n ++ b) c.
Proof.
  intros Hn Hk. eapply loads_bind; [apply loads_len; unfold in_u; lia|]. cbv beta iota.
  by rewrite (proj2 (Z.eqb_neq _ _)) by (unfold RDB_LENERR; lia).
Qed.

Lemma turn_selectdb st dbid :
  0 <= dbid < dbnum lenv -> dbnum lenv < 2 ^ 31 -> turn st ([254] ++ len_enc dbid) (More (with_db dbid st)).
Proof.
  intros Hd Hn. take_branch 254. rewrite <- (app_nil_r (len_enc _)). apply loads_len_or_eof; [lia|].
  rewrite Z.geb_leb, (proj2 (Z.leb_gt _ _)) by lia. apply loads_ret.
Qed.

Lemma turn_resizedb st n m :
  0 <= n < 2 ^ 63 -> 0 <= m < 2 ^ 63 -> turn st (([251] ++ len_enc n) ++ len_enc m) (More st).
Proof.
  intros Hn Hm. rewrite <- app_assoc. take_branch 251. apply loads_len_or_eof; [lia|].
  rewrite <- (app_nil_r (len_enc m)). apply loads_len_or_eof; [lia|apply loads_ret].
Qed.

Lemma turn_idle st n :
  0 <= n < 2 ^ 63 -> turn st ([248] ++ len_enc n) (More (with_attrs (l_expiretime st) n (l_lfu_freq st) st)).
Proof.
  intros Hn. take_branch 248. rewrite <- (app_nil_r (len_enc _)). apply loads_len_or_eof; [lia|].
  rewrite (wraps_small 64) by (unfold in_s; lia). apply loads_ret.
Qed.

Lemma turn_freq st c :
  is_byte c -> turn st ([249] ++ [c]) (More (with_attrs (l_expiretime st) (l_lru_idle st) c st)).
Proof.
  intros Hc. take_branch 249. apply loads_read_last; [done|]. rewrite native_byte by done. apply loads_ret.
Qed.

Lemma loads_unless_read_error (st : lstate O) : loads (B := R) (unless_read_error st) [] (More st).
Proof.
  intros r rest Hr _. exists r. split; [|by apply did_read_nil]. unfold unless_read_error, mbind, ST_bind, get.
  unfold rioGetReadError. destruct Hr as (_ & E & _). cbn. by rewrite E.
Qed.

Lemma turn_expire st t :
  in_s 64 t -> turn st ([252] ++ le_bytes 8 t) (More (with_attrs t (l_lru_idle st) (l_lfu_freq st) st)).
Proof.
  intros Ht. take_branch 252. rewrite <- (app_nil_r (le_bytes 8 t)).
  apply (loads_bind _ _ _ t); [|apply loads_unless_read_error].
  apply loads_read_last; [by rewrite length_le_bytes|]. cbn [RDB_VERSION Z.geb Z.compare Pos.compare Pos.compare_cont].
  pose proof (memrev64ifbe_load (le_bytes 8 t) (length_le_bytes _ _)) as E.
  destruct (memrev64ifbe (le_bytes 8 t) 0) as [b|] eqn:Eb; [|done].
  eapply loads_lift; [done|]. apply (inj Some) in E. rewrite E, le_value_bytes.
  replace (i64 _) with t; [apply loads_ret|]. change (t mod _) with (u64 t).
  by rewrite wraps_wrapu, wraps_small by (done || lia).
Qed.

Lemma turn_aux st key val kb vb :
  fits key -> fits val -> stores key kb -> stores val vb ->
  turn st ([250] ++ kb ++ vb) (More (aux_field key val st)).
Proof.
  intros Hk Hv Hkb Hvb. take_branch 250. eapply loads_fail_or; [by apply (loads_string key)|].
  rewrite <- (app_nil_r vb). eapply loads_fail_or; [by apply (loads_string val)|apply loads_ret].
Qed.

Lemma turn_function st code cb :
  fits code -> stores code cb -> lib_ok lenv code = true ->
  turn st ([245] ++ cb) (More (with_functions (l_functions st ++ [code]) st)).
Proof.
  intros Hc Hcb Hok. take_branch 245. rewrite <- (app_nil_r cb). eapply loads_fail_or; [|apply loads_ret].
  unfold rdbFunctionLoad. cbn [Z.eqb Pos.eqb RDB_OPCODE_FUNCTION]. rewrite <- (app_nil_r cb).
  eapply loads_fail_or; [by apply (loads_sds code)|]. cbn [chars]. rewrite Hok. apply loads_ret.
Qed.

(** A key and its value. *)
Definition load_entry (e : entry O) (st : lstate O) : option (lstate O) :=
  match store_key lenv rdbflags (e_key e) (Obj (loaded_as (e_val e))) st with Some (More st') => Some st' | _ => None end.

Lemma turn_key st st' e kb vb :
  fits (e_key e) -> stores (e_key e) kb -> obj_ok mem (e_val e) ->
  loads (B := R) (rdbLoadObject R (rdb_type (e_val e))) vb (Obj (loaded_as (e_val e))) ->
  load_entry e st = Some st' -> turn st ([rdb_type (e_val e)] ++ kb ++ vb) (More st').
Proof.
  intros Hk Hkb Ho Hvb Hl. pose proof (rdb_type_ok mem _ Ho) as Ht. set (type := rdb_type (e_val e)) in *.
  unfold RDB_OPCODE_FUNCTION2 in Ht. unfold turn, load_step.
  apply (loads_bind _ _ [type] type); [apply loads_type; unfold is_byte; lia|].
  rewrite !(proj2 (Z.eqb_neq _ _)) by
    (unfold RDB_OPCODE_FUNCTION2, RDB_OPCODE_FUNCTION, RDB_OPCODE_MODULE_AUX, RDB_OPCODE_IDLE,
       RDB_OPCODE_FREQ, RDB_OPCODE_AUX, RDB_OPCODE_RESIZEDB, RDB_OPCODE_EXPIRETIME_MS, RDB_OPCODE_EXPIRETIME,
       RDB_OPCODE_SELECTDB, RDB_OPCODE_EOF; lia).
  cbn [orb]. eapply loads_fail_or; [by apply (loads_sds (e_key e))|]. rewrite <- (app_nil_r vb).
  eapply loads_bind; [exact Hvb|]. unfold load_entry in Hl. cbn [chars].
  destruct (store_key _ _ _ _ _) as [[]|]; simplify_eq.
  intros r rest Hr _. exists r. split; [done|by apply did_read_nil].
Qed.

(** ** The functions that save *)

Context (senv : save_env O).

Lemma transfers_check m k f g :
  transfers [] m f -> transfers [] k g -> transfers [] (check m k) (λ st, f st ≫= g).
Proof. intros Hm Hk. by apply transfers_seq. Qed.

Lemma saves_type c : is_byte c -> saves (B := B) (rdbSaveType c) [c] 1.
Proof. intros. apply saves_raw. by apply Forall_singleton. Qed.

(** An opcode without its arguments. *)
Lemma transfers_type c k f : is_byte c -> transfers [c] (k 1) f -> transfers [] (or_return (rdbSaveType c) k) f.
Proof. intros Hc Hk. eapply transfers_save; [by apply saves_type|done|by apply Forall_singleton|done]. Qed.

Lemma transfers_len pre n k f :
  in_u 64 n -> transfers (pre ++ len_enc n) (k (Z.of_nat (length (len_enc n)))) f ->
  transfers pre (or_return (rdbSaveLen n) k) f.
Proof.
  intros Hn Hk. eapply transfers_save; [by apply saves_len|lia| |done]. apply len_enc_byte, Hn.
Qed.

Lemma transfers_aux key val :
  fits key -> fits val -> transfers [] (rdbSaveAuxField key val) (λ st, Some (aux_field key val st)).
Proof.
  intros Hk Hv. destruct (fits_range key Hk) as [Hkb Hkl], (fits_range val Hv) as [Hvb Hvl].
  destruct (saves_raw_string (B := B) key Hkb Hkl) as (kb & Hks & _ & Hksv).
  destruct (saves_raw_string (B := B) val Hvb Hvl) as (vb & Hvs & _ & Hvsv).
  apply (transfers_one _ ([250] ++ kb ++ vb) (1 + Z.of_nat (length kb) + Z.of_nat (length vb))).
  - eapply saves_or_return; [by apply saves_type|done|]. eapply saves_or_return; [exact Hksv|lia|].
    eapply (saves_last _ _ _ (λ n, _ + n)); [exact Hvsv|lia].
  - lia.
  - apply Forall_cons. split; [done|]. apply Forall_app. split; [apply Hks|apply Hvs].
  - done.
  - intros st st' [= <-]. by apply turn_aux.
Qed.

Lemma transfers_aux_int key v :
  fits key -> in_s 64 v -> 38 <= mem -> exists val, strtoll val = v /\
    transfers [] (rdbSaveAuxFieldStrInt key v) (λ st, Some (aux_field key val st)).
Proof.
  intros Hk Hv Hm. destruct (ll2string_digits (replicate (Z.to_nat LONG_STR_SIZE) junk) v Hv)
    as (s & m & Hll & Hrd & Hs & Hb & Hl); [by rewrite length_replicate|]. rewrite length_replicate in Hll.
  apply string2ll_spec in Hs as [_ Hs]. exists s. split; [by apply strtoll_signed|].
  destruct (transfers_aux key s Hk) as (bs & n & Hn & Hbs & Hsv & Hst); [split; [done|lia]|].
  exists bs, n. split_and!; [done..| |done]. eapply saves_lift; [exact Hll|]. cbv beta iota. rewrite Nat2Z.id.
  by eapply saves_lift.
Qed.

(** The fields of the server, as a load takes them. *)
Definition info_loaded (rsi : option Z) (st : lstate O) : lstate O :=
  with_rsi (λ i, match rsi with None => i | Some db => mk_rsi db (Some (replid senv)) (master_repl_offset senv) end)
    (with_used_mem (used_memory senv) st).

Record info_ok (rsi : option Z) : Prop := {
  info_mem : 100 <= mem;
  info_time : in_s 64 (unix_time senv);
  info_used : in_s 64 (used_memory senv);
  info_replid : fits (replid senv) /\ length (replid senv) = 40%nat;
  info_offset : in_s 64 (master_repl_offset senv);
  info_db : forall db, rsi = Some db -> in_s 32 db
}.

Lemma fits_name s : 100 <= mem -> (length s <= 50)%nat -> forallb (λ c, (0 <=? c) && (c <? 256)) s = true -> fits s.
Proof.
  intros Hm Hl Hs. split; [|lia]. apply Forall_forall. intros c Hc.
  apply list_elem_of_In, (proj1 (forallb_forall _ _) Hs) in Hc. unfold is_byte. lia.
Qed.

Lemma fits_str s : 100 <= mem -> (length (str s) <=? 50)%nat && forallb (λ c, (0 <=? c) && (c <? 256)) (str s) = true -> fits (str s).
Proof. intros Hm [Hl Hs]%andb_true_iff. apply fits_name; [done|by apply Nat.leb_le|done]. Qed.

(** What a field of a known name does. *)
Lemma aux_field_names val (st : lstate O) :
  aux_field (str "redis-ver") val st = st /\ aux_field (str "redis-bits") val st = st /\
  aux_field (str "ctime") val st = st /\ aux_field (str "aof-base") val st = st /\
  aux_field (str "used-mem") val st = with_used_mem (strtoll val) st /\
  aux_field (str "repl-stream-db") val st = with_rsi (λ i, mk_rsi (i32 (strtoll val)) (repl_id i) (repl_offset i)) st /\
  aux_field (str "repl-id") val st =
    (if Z.of_nat (length val) =? CONFIG_RUN_ID_SIZE
     then with_rsi (λ i, mk_rsi (repl_stream_db i) (Some val) (repl_offset i)) st else st) /\
  aux_field (str "repl-offset") val st = with_rsi (λ i, mk_rsi (repl_stream_db i) (repl_id i) (strtoll val)) st.
Proof. split_and!; reflexivity. Qed.

Lemma transfers_int s v (f : Z -> lstate O -> lstate O) :
  100 <= mem -> in_s 64 v -> (length (str s) <=? 50)%nat && forallb (λ c, (0 <=? c) && (c <? 256)) (str s) = true ->
  (forall val st, aux_field (str s) val st = f (strtoll val) st) ->
  transfers [] (rdbSaveAuxFieldStrInt (str s) v) (λ st, Some (f v st)).
Proof.
  intros Hm Hv Hs Hf. destruct (transfers_aux_int (str s) v) as (val & <- & Ht); [by apply fits_str|done|lia|].
  eapply transfers_ext; [|exact Ht]. intros st st'. cbv beta. by rewrite Hf.
Qed.

Lemma transfers_str s val :
  100 <= mem -> fits val -> (length (str s) <=? 50)%nat && forallb (λ c, (0 <=? c) && (c <? 256)) (str s) = true ->
  transfers [] (rdbSaveAuxFieldStrStr (str s) val) (λ st, Some (aux_field (str s) val st)).
Proof. intros. apply transfers_aux; [by apply fits_str|done]. Qed.

Lemma transfers_repl_fields rsi db k :
  info_ok rsi -> rsi = Some db -> transfers [] k Some ->
  transfers [] (check (rdbSaveAuxFieldStrInt (str "repl-stream-db") db)
    (check (rdbSaveAuxFieldStrStr (str "repl-id") (replid senv))
    (check (rdbSaveAuxFieldStrInt (str "repl-offset") (master_repl_offset senv)) k)))
    (λ st, Some (with_rsi (λ _, mk_rsi db (Some (replid senv)) (master_repl_offset senv)) st)).
Proof.
  intros [Hm Ht Hu [Hrf Hrl] Ho Hdb] E Hk. specialize (Hdb db E).
  eapply transfers_ext; [|repeat apply transfers_check].
  2: { apply (transfers_int "repl-stream-db" db (λ v, with_rsi (λ i, mk_rsi (i32 v) (repl_id i) (repl_offset i))));
         [done|unfold in_s in *; lia|done|intros; apply aux_field_names]. }
  2: by apply transfers_str.
  2: { apply (transfers_int "repl-offset" _ (λ v, with_rsi (λ i, mk_rsi (repl_stream_db i) (repl_id i) v)));
         [done..|intros; apply aux_field_names]. }
  2: exact Hk.
  intros st st' [= <-]. cbn [mbind option_bind].
  rewrite (proj1 (proj2 (proj2 (proj2 (proj2 (proj2 (proj2 (aux_field_names _ _)))))))).
  rewrite Hrl. cbn [Z.of_nat Z.eqb CONFIG_RUN_ID_SIZE]. rewrite (wraps_small 32) by done.
  unfold with_rsi. cbn. by destruct (l_rsi st).
Qed.

Lemma transfers_info flags rsi :
  info_ok rsi -> transfers [] (rdbSaveInfoAuxFields senv flags rsi) (λ st, Some (info_loaded rsi st)).
Proof.
  intros Hi. pose proof Hi as [Hm Ht Hu _ _ _]. unfold rdbSaveInfoAuxFields.
  set (base := b2z _). set (last := check (rdbSaveAuxFieldStrInt (str "aof-base") base) _).
  assert (Hlast : transfers [] last Some).
  { eapply transfers_ext; [|apply transfers_check; [apply (transfers_int "aof-base" base (λ _ st, st))|by apply transfers_ret]];
      [by intros st st' [= <-]|done|unfold base; by destruct (negb _)|done|intros; apply aux_field_names]. }
  eapply transfers_ext; [|repeat apply transfers_check].
  2: { by apply transfers_str; [done|apply fits_str|]. }
  2: { by apply (transfers_int "redis-bits" 64 (λ _ st, st)); [| | |intros; apply aux_field_names]. }
  2: { by apply (transfers_int "ctime" _ (λ _ st, st)); [| | |intros; apply aux_field_names]. }
  2: { apply (transfers_int "used-mem" _ with_used_mem); [done..|intros; apply aux_field_names]. }
  2: { instantiate (1 := λ st, Some (with_rsi (λ i, match rsi with None => i | Some db =>
         mk_rsi db (Some (replid senv)) (master_repl_offset senv) end) st)).
       destruct rsi as [db|]; [by apply (transfers_repl_fields (Some db))|].
       eapply transfers_ext; [|exact Hlast]. intros st st' [= <-]. unfold with_rsi. destruct st as [????? []]; done. }
  intros st st' [= <-]. cbn [mbind option_bind]. by rewrite (proj1 (aux_field_names _ _)).
Qed.

(** ** Keys *)

Record entry_ok (e : entry O) : Prop := {
  entry_key : fits (e_key e);
  entry_val : obj_ok mem (e_val e);
  entry_expire : in_s 64 (e_expire e)
}.

(** The attributes an entry is saved with. *)
Definition set_expire (e : entry O) (st : lstate O) : lstate O :=
  if negb (e_expire e =? -1) then with_attrs (e_expire e) (l_lru_idle st) (l_lfu_freq st) st else st.
Definition set_idle (e : entry O) (st : lstate O) : lstate O :=
  if savelru senv then with_attrs (l_expiretime st) (u64 (idle_time senv (e_val e)) / 1000) (l_lfu_freq st) st else st.
Definition set_freq (e : entry O) (st : lstate O) : lstate O :=
  if savelfu senv then with_attrs (l_expiretime st) (l_lru_idle st) (u8 (lfu_counter senv (e_val e))) st else st.
Definition entry_attrs (e : entry O) (st : lstate O) : lstate O := set_freq e (set_idle e (set_expire e st)).

Lemma transfers_key e :
  entry_ok e ->
  transfers [] (check (rdbSaveType (rdb_type (e_val e)))
    (check (rdbSaveStringObject (RawStr (e_key e))) (check (rdbSaveObject B (e_val e)) (mret 1)))) (load_entry e).
Proof.
  intros [Hk Ho _]. destruct (fits_range _ Hk) as [Hkb Hkl]. pose proof (rdb_type_ok mem _ Ho) as Ht.
  unfold RDB_OPCODE_FUNCTION2 in Ht.
  destruct (saves_raw_string (B := B) (e_key e) Hkb Hkl) as (kb & Hks & _ & Hksv).
  destruct (obj_stores mem (e_val e) Hmem Ho B _ _) as (vb & Hvb & Hvsv & Hvl).
  assert (Hty : is_byte (rdb_type (e_val e))) by (unfold is_byte; lia).
  apply (transfers_one _ ([rdb_type (e_val e)] ++ kb ++ vb) 1); [|done| |done|].
  - rewrite <- (app_nil_r vb). eapply saves_or_return; [by apply saves_type|done|].
    eapply saves_or_return; [exact Hksv|lia|]. eapply saves_or_return; [exact Hvsv|lia|apply saves_ret].
  - apply Forall_cons. split; [done|]. apply Forall_app. split; [apply Hks|done].
  - intros st st' E. eapply turn_key; [done..|apply Hvl|done].
Qed.

Lemma u64_seconds z : 0 <= u64 z / 1000 < 2 ^ 63.
Proof.
  pose proof (wrapu_range 64 z ltac:(lia)) as Hu. unfold in_u in Hu.
  split; [apply Z.div_pos; lia|apply Z.div_lt_upper_bound; lia].
Qed.

Lemma transfers_key_value e :
  entry_ok e -> transfers [] (rdbSaveKeyValuePair senv e) (λ st, load_entry e (entry_attrs e st)).
Proof.
  intros He. pose proof He as [_ _ Hx]. unfold rdbSaveKeyValuePair.
  pose proof (transfers_key e He) as Hkv. set (save_kv := check (rdbSaveType (rdb_type _)) _) in *.
  set (save_lfu := if savelfu senv then _ else _).
  assert (Hlfu : transfers [] save_lfu (λ st, load_entry e (set_freq e st))).
  { unfold save_lfu, set_freq. destruct (savelfu senv); [|done]. apply transfers_type; [done|].
    assert (is_byte (u8 (lfu_counter senv (e_val e)))) by (apply (wrapu_range 8); lia).
    eapply transfers_save; [apply saves_raw; by apply Forall_singleton|lia|by apply Forall_singleton|].
    apply (transfers_opcode _ _ (λ st, with_attrs _ _ _ st)); [done| |exact Hkv]. intros st. by apply turn_freq. }
  set (save_lru := if savelru senv then _ else _).
  assert (Hlru : transfers [] save_lru (λ st, load_entry e (set_freq e (set_idle e st)))).
  { unfold save_lru, set_idle. destruct (savelru senv); [|done]. apply transfers_type; [done|].
    pose proof (u64_seconds (idle_time senv (e_val e))). apply transfers_len; [unfold in_u; lia|].
    apply (transfers_opcode _ _ (λ st, with_attrs _ _ _ st) (λ st, load_entry e (set_freq e st))); [done| |exact Hlfu].
    intros st. by apply turn_idle. }
  unfold entry_attrs, set_expire. destruct (negb (e_expire e =? -1)); [|done]. apply transfers_type; [done|].
  apply transfers_save with (b := le_bytes 8 (e_expire e)) (v := 8); [|done|apply le_bytes_byte|].
  { eapply saves_lift; [apply le64_spec|]. apply (saves_raw (le_bytes 8 (e_expire e))), le_bytes_byte. }
  apply (transfers_opcode _ _ (λ st, with_attrs _ _ _ st) (λ st, load_entry e (set_freq e (set_idle e st)))); [done| |exact Hlru].
  intros st. by apply turn_expire.
Qed.

(** ** Databases and libraries *)

Fixpoint load_entries (es : list (entry O)) (st : lstate O) : option (lstate O) :=
  match es with [] => Some st | e :: es => load_entry e (entry_attrs e st) ≫= load_entries es end.

Definition load_db (dbid : Z) (es : list (entry O)) (st : lstate O) : option (lstate O) :=
  match es with [] => Some st | _ :: _ => load_entries es (with_db dbid st) end.

Fixpoint load_dbs (j : Z) (dbs : list (list (entry O))) (st : lstate O) : option (lstate O) :=
  match dbs with [] => Some st | es :: dbs => load_db j es st ≫= load_dbs (j + 1) dbs end.

Lemma transfers_entries es : Forall entry_ok es ->
  forall written, 0 <= written -> transfers [] (save_entries senv written es) (load_entries es).
Proof.
  induction 1 as [|e es He Hes IH]; intros written Hw; [by apply transfers_ret|]. cbn [save_entries].
  apply transfers_seq; [by apply transfers_key_value|]. intros v Hv. apply IH. lia.
Qed.

Lemma transfers_db dbid es :
  Forall entry_ok es -> 0 <= dbid < dbnum lenv -> dbnum lenv < 2 ^ 31 -> Z.of_nat (length es) < 2 ^ 63 ->
  transfers [] (rdbSaveDb senv dbid es) (load_db dbid es).
Proof.
  intros Hes Hd Hn Hl. destruct es as [|e es]; [by apply transfers_ret|]. unfold rdbSaveDb.
  set (l := e :: es) in *. set (n := Z.of_nat (length (filter _ l))).
  assert (Hnr : 0 <= n < 2 ^ 63) by (pose proof (length_filter (λ e, e_expire e <> -1) l); unfold n; lia).
  apply transfers_type; [done|]. apply transfers_len; [unfold in_u; lia|].
  apply (transfers_turn _ _ (λ st, Some (with_db dbid st))); [done|intros st st' [= <-]; by apply turn_selectdb|].
  apply transfers_type; [done|]. do 2 (apply transfers_len; [unfold in_u; lia|]).
  eapply transfers_ext; [|apply (transfers_turn _ _ Some)];
    [intros st st' E; exact E|done|intros st st' [= <-]; apply turn_resizedb; lia|].
  apply transfers_entries; [done|]. lia.
Qed.

Lemma transfers_dbs dbs :
  Forall (Forall entry_ok) dbs -> Forall (λ es, Z.of_nat (length es) < 2 ^ 63) dbs -> dbnum lenv < 2 ^ 31 ->
  forall j, 0 <= j -> j + Z.of_nat (length dbs) <= dbnum lenv -> transfers [] (save_dbs senv j dbs) (load_dbs j dbs).
Proof.
  intros Hok Hlen Hn. induction Hok as [|es dbs Hes Hok IH]; intros j Hj Hd; [by apply transfers_ret|].
  apply Forall_cons in Hlen as [Hl Hlen]. simpl in Hd. cbn [save_dbs load_dbs].
  apply transfers_check; [apply transfers_db; (done || lia)|]. apply IH; (done || lia).
Qed.

Lemma transfers_functions fs :
  Forall fits fs -> Forall (λ code, lib_ok lenv code = true) fs ->
  forall written, 0 <= written ->
    transfers [] (save_functions written fs) (λ st, Some (with_functions (l_functions st ++ fs) st)).
Proof.
  intros Hfs Hok. induction Hfs as [|code fs Hc Hfs IH]; intros written Hw.
  { eapply transfers_ext; [|by apply transfers_ret]. intros st st' [= <-]. rewrite app_nil_r. by destruct st. }
  apply Forall_cons in Hok as [Hcok Hok]. destruct (fits_range _ Hc) as [Hcb Hcl].
  destruct (saves_raw_string (B := B) code Hcb Hcl) as (cb & Hcs & _ & Hcsv). cbn [save_functions].
  apply transfers_type; [done|]. eapply transfers_save; [exact Hcsv|lia|apply Hcs|].
  eapply transfers_ext; [|apply (transfers_turn _ _ (λ st, Some (with_functions (l_functions st ++ [code]) st)));
    [done|intros st st' [= <-]; by apply turn_function|apply IH; [done|lia]]].
  intros st st' [= <-]. cbn. by rewrite <- app_assoc.
Qed.

(** ** What the databases hold in the end *)

Definition expired_key (e : entry O) : bool :=
  i_am_master lenv && (Z.land rdbflags RDBFLAGS_AOF_PREAMBLE =? 0) && negb (e_expire e =? -1) && (e_expire e <? now lenv).

Definition entry_loaded (e : entry O) : lentry O :=
  mk_lentry (loaded_as (e_val e)) (if negb (e_expire e =? -1) then Some (e_expire e) else None)
    (objectSetLRUOrLFU lenv (if savelfu senv then u8 (lfu_counter senv (e_val e)) else -1)
       (if savelru senv then u64 (idle_time senv (e_val e)) / 1000 else -1)).

(** The keys that have not expired. *)
Definition survivors (es : list (entry O)) : list (bytes * lentry O) :=
  (λ e, (e_key e, entry_loaded e)) <$> filter (λ e, expired_key e = false) es.

Definition db_loaded (es : list (entry O)) : gmap bytes (lentry O) := list_to_map (survivors es).

(** The deletions of expired keys can be sent: there is a backlog, and no replica. *)
Definition feed_ok : Prop := Z.land rdbflags RDBFLAGS_FEED_REPL = 0 \/ backlog_no_replicas lenv = true.

(** Nothing is pending for the next key. *)
Definition fresh (st : lstate O) : Prop := l_expiretime st = -1 /\ l_lru_idle st = -1 /\ l_lfu_freq st = -1.

Definition kept (st st' : lstate O) : Prop :=
  l_rsi st' = l_rsi st /\ l_functions st' = l_functions st /\ l_used_mem st' = l_used_mem st.

Lemma entry_attrs_spec e st : fresh st ->
  exists x i f, entry_attrs e st = with_attrs x i f st /\ x = e_expire e /\
    i = (if savelru senv then u64 (idle_time senv (e_val e)) / 1000 else -1) /\
    f = (if savelfu senv then u8 (lfu_counter senv (e_val e)) else -1).
Proof.
  intros (Hx & Hi & Hf). eexists _, _, _. split; [|done].
  destruct st as [? ? x i f]; cbn in *; subst.
  unfold entry_attrs, set_freq, set_idle, set_expire.
  destruct (Z.eqb_spec (e_expire e) (-1)) as [->|], (savelru senv), (savelfu senv); done.
Qed.

Lemma load_entry_effect e st db :
  feed_ok -> fresh st -> l_dbs st !! Z.to_nat (l_dbid st) = Some db -> db !! e_key e = None ->
  exists st', load_entry e (entry_attrs e st) = Some st' /\ kept st st' /\ fresh st' /\ l_dbid st' = l_dbid st /\
    l_dbs st' = <[Z.to_nat (l_dbid st) := list_to_map (survivors [e]) ∪ db]> (l_dbs st).
Proof.
  intros Hfeed Hfr Hdb Hk. destruct (entry_attrs_spec e st Hfr) as (x & i & f & -> & -> & Hi & Hf).
  unfold load_entry, store_key. cbn [l_expiretime with_attrs l_dbs l_dbid l_lru_idle l_lfu_freq]. fold (expired_key e).
  unfold survivors. destruct (expired_key e) eqn:Ex.
  - assert (Hsame : l_dbs st = <[Z.to_nat (l_dbid st) := ∅ ∪ db]> (l_dbs st)).
    { by rewrite (left_id_L ∅ (∪)), list_insert_id. }
    rewrite filter_cons_False by congruence. cbn [filter list_filter fmap list_fmap list_to_map].
    destruct (Z.eqb_spec (Z.land rdbflags RDBFLAGS_FEED_REPL) 0); cbn [negb].
    + eexists. split; [done|]. by split_and!.
    + destruct Hfeed as [|Hb]; [done|]. rewrite Hb. eexists. split; [done|]. by split_and!.
  - rewrite Hdb. cbn [mbind option_bind]. rewrite bool_decide_true by done. cbn [orb].
    rewrite filter_cons_True by done. eexists. split; [done|]. split; [done|]. split; [done|]. split; [done|].
    cbn. f_equal. unfold entry_loaded. rewrite <- Hi, <- Hf, insert_empty, <- insert_union_singleton_l. done.
Qed.

Lemma survivors_keys es k : k ∈ (survivors es).*1 -> k ∈ e_key <$> es.
Proof.
  unfold survivors. rewrite <- list_fmap_compose. intros (e & -> & He)%list_elem_of_fmap.
  apply list_elem_of_filter in He as [_ He]. by apply list_elem_of_fmap_2.
Qed.

Lemma load_entries_effect es : forall st db,
  feed_ok -> fresh st -> l_dbs st !! Z.to_nat (l_dbid st) = Some db ->
  NoDup (e_key <$> es) -> (forall e, e ∈ es -> db !! e_key e = None) ->
  exists st', load_entries es st = Some st' /\ kept st st' /\ fresh st' /\
    l_dbs st' = <[Z.to_nat (l_dbid st) := db_loaded es ∪ db]> (l_dbs st).
Proof.
  induction es as [|e es IH]; intros st db Hfeed Hfr Hdb Hnd Hdis.
  { exists st. split; [done|]. split; [done|]. split; [done|].
    change (db_loaded []) with (∅ : gmap bytes (lentry O)). by rewrite (left_id_L ∅ (∪)), list_insert_id. }
  apply NoDup_cons in Hnd as [Hnew Hnd].
  destruct (load_entry_effect e st db Hfeed Hfr Hdb) as (st1 & E1 & K1 & F1 & D1 & L1); [apply Hdis; left|].
  set (db1 := list_to_map (survivors [e]) ∪ db) in *.
  destruct (IH st1 db1 Hfeed F1) as (st2 & E2 & K2 & F2 & L2).
  - rewrite L1, D1, list_lookup_insert_eq; [done|]. by eapply lookup_lt_Some.
  - done.
  - intros e' He'. unfold db1. apply lookup_union_None. split; [|apply Hdis; by right].
    apply not_elem_of_list_to_map. intros Hin%survivors_keys. apply list_elem_of_singleton in Hin.
    apply Hnew. rewrite <- Hin. by apply list_elem_of_fmap_2.
  - exists st2. split; [cbn [load_entries]; by rewrite E1|]. split; [unfold kept in *; intuition congruence|].
    split; [done|]. rewrite L2, L1, D1, list_insert_insert_eq. f_equal. unfold db1, db_loaded, survivors.
    destruct (expired_key e) eqn:Ex.
    + rewrite !filter_cons_False by congruence. cbn. by rewrite (left_id_L ∅ (∪)).
    + rewrite !filter_cons_True by done. cbn. rewrite insert_empty, <- insert_union_singleton_l, <- insert_union_r, insert_union_l; [done|].
      apply not_elem_of_list_to_map. intros Hin%survivors_keys. by apply Hnew.
Qed.

Lemma load_dbs_effect dbs : forall st before k,
  feed_ok -> fresh st -> Forall (λ es, NoDup (e_key <$> es)) dbs ->
  l_dbs st = before ++ replicate (length dbs + k) ∅ ->
  exists st', load_dbs (Z.of_nat (length before)) dbs st = Some st' /\ kept st st' /\ fresh st' /\
    l_dbs st' = before ++ (db_loaded <$> dbs) ++ replicate k ∅.
Proof.
  induction dbs as [|es dbs IH]; intros st before k Hfeed Hfr Hnd Hl; [by exists st|].
  apply Forall_cons in Hnd as [Hes Hnd]. cbn [load_dbs].
  assert (Hone : exists st1, load_db (Z.of_nat (length before)) es st = Some st1 /\ kept st st1 /\ fresh st1 /\
    l_dbs st1 = (before ++ [db_loaded es]) ++ replicate (length dbs + k) ∅).
  { rewrite <- app_assoc. cbn [app]. destruct es as [|e es]; [by exists st|].
    cbn [load_db]. set (l := e :: es) in *.
    destruct (load_entries_effect l (with_db (Z.of_nat (length before)) st) ∅ Hfeed Hfr) as (st1 & E1 & K1 & F1 & L1).
    - cbn. rewrite Nat2Z.id, Hl. by rewrite lookup_app_r, Nat.sub_diag by lia.
    - done.
    - intros. apply lookup_empty.
    - exists st1. split; [done|]. split; [done|]. split; [done|]. rewrite L1. cbn [with_db l_dbs l_dbid].
      rewrite Nat2Z.id, Hl, insert_app_r_alt, Nat.sub_diag by lia. cbn. by rewrite (right_id_L ∅ (∪)). }
  destruct Hone as (st1 & -> & K1 & F1 & L1). cbn [mbind option_bind].
  replace (Z.of_nat (length before) + 1) with (Z.of_nat (length (before ++ [db_loaded es])))
    by (rewrite length_app; simpl; lia).
  destruct (IH st1 _ k Hfeed F1 Hnd L1) as (st2 & E2 & K2 & F2 & L2). exists st2.
  split; [done|]. split; [unfold kept in *; intuition congruence|]. split; [done|]. by rewrite L2, <- app_assoc.
Qed.

(** ** The file *)

Definition magic : bytes := str "REDIS0010".

(** [body]: the octets up to the checksum. *)
Definition rdb_body (bs : bytes) : bytes := magic ++ bs ++ [255].

Lemma check_assoc a b c K (s : sink B) :
  check a (check b (check c K)) s = check (check a (check b (check c (mret 0)))) K s.
Proof.
  unfold check, or_return, mbind, ST_bind, mret, ST_ret.
  destruct (a s) as [[na s1]|]; [|done]. cbn. destruct (Z.eqb_spec na (-1)); [done|].
  destruct (b s1) as [[nb s2]|]; [|done]. cbn. destruct (Z.eqb_spec nb (-1)); [done|].
  destruct (c s2) as [[nc s3]|]; [|done]. cbn. destruct (Z.eqb_spec nc (-1)); done.
Qed.

Lemma check_step m (K : ST (sink B) Z) bs v r :
  saves m bs v -> 0 <= v -> sink_ok r ->
  (exists r1, wrote r bs r1 /\ sink_ok r1 /\ check m K (Some r) = K (Some r1)) \/
  exists s', check m K (Some r) = Some (-1, s').
Proof.
  intros Hm Hv Hr. destruct (Hm (Some r) Hr) as (n & s1 & E & Hn). unfold check, or_return, mbind, ST_bind.
  rewrite E. cbn [mbind option_bind]. destruct Hn as [[-> _]|[-> Hs]]; [right; by eexists|left].
  destruct s1 as [r1|]; [|done]. exists r1. split; [apply Hs|]. split; [apply Hs|].
  by rewrite (proj2 (Z.eqb_neq _ _)) by lia.
Qed.

(** The checksum and the end. *)
Lemma save_tail r :
  sink_ok r -> exists n s', check (rdbSaveType RDB_OPCODE_EOF) (check save_cksum (mret 0)) (Some r) = Some (n, s') /\
    (n = -1 \/ n = 0 /\ exists r1 r2, wrote r [255] r1 /\ wrote r1 (le_bytes 8 (cksum r1)) r2 /\ s' = Some r2).
Proof.
  intros Hr. destruct (check_step (rdbSaveType RDB_OPCODE_EOF) (check save_cksum (mret 0)) [255] 1 r)
    as [(r1 & W1 & S1 & ->)|(s' & ->)]; [by apply saves_type|done|done| |by eexists _, _; split; [|left]].
  assert (Hck : saves (λ s : sink B, (c ← lift (le64 (cksum r1)); rdbWriteRaw c) s) (le_bytes 8 (cksum r1)) 8).
  { eapply saves_lift; [apply le64_spec|]. apply (saves_raw (le_bytes 8 (cksum r1))), le_bytes_byte. }
  destruct (check_step _ (mret 0) _ _ r1 Hck) as [(r2 & W2 & S2 & E)|(s' & E)]; [done|done|..].
  - eexists _, _. split; [exact E|]. right. split; [done|]. by exists r1, r2.
  - eexists _, _. split; [exact E|]. by left.
Qed.

(** What is saved: the selected libraries and databases. *)
Definition selected {A} (req flag : Z) (l : list A) : list A := if Z.land req flag =? 0 then l else [].

Record snapshot_ok (rsi : option Z) (functions : list bytes) (dbs : list (list (entry O))) : Prop := {
  snapshot_info : info_ok rsi;
  snapshot_functions : Forall (λ code, fits code /\ lib_ok lenv code = true) functions;
  snapshot_dbs : Z.of_nat (length dbs) <= dbnum lenv < 2 ^ 31;
  snapshot_entries : Forall (λ es, Forall entry_ok es /\ NoDup (e_key <$> es) /\ Z.of_nat (length es) < 2 ^ 63) dbs
}.

(** The state the loop reaches. *)
Definition load_all (rsi : option Z) (functions : list bytes) (dbs : list (list (entry O))) (st : lstate O)
    : option (lstate O) :=
  let st1 := info_loaded rsi st in load_dbs 0 dbs (with_functions (l_functions st1 ++ functions) st1).

Lemma snapshot_selected rsi functions dbs req :
  snapshot_ok rsi functions dbs ->
  snapshot_ok rsi (selected req SLAVE_REQ_RDB_EXCLUDE_FUNCTIONS functions) (selected req SLAVE_REQ_RDB_EXCLUDE_DATA dbs).
Proof. intros [Hi Hf Hd He]. unfold selected. split; [done|by case_match|case_match; simpl; lia|by case_match]. Qed.

Lemma transfers_body req flags rsi functions dbs :
  snapshot_ok rsi functions dbs ->
  transfers [] (check (rdbSaveInfoAuxFields senv flags rsi)
    (check (if Z.land req SLAVE_REQ_RDB_EXCLUDE_FUNCTIONS =? 0 then rdbSaveFunctions functions else mret 0)
    (check (if Z.land req SLAVE_REQ_RDB_EXCLUDE_DATA =? 0 then save_dbs senv 0 dbs else mret 0) (mret 0))))
    (load_all rsi (selected req SLAVE_REQ_RDB_EXCLUDE_FUNCTIONS functions) (selected req SLAVE_REQ_RDB_EXCLUDE_DATA dbs)).
Proof.
  intros [Hi Hf Hd He].
  assert (Hnil : forall k, transfers [] k Some -> transfers [] k (λ st, Some (with_functions (l_functions st ++ []) st))).
  { intros k. apply transfers_ext. intros st st' [= <-]. rewrite app_nil_r. by destruct st. }
  eapply transfers_ext; [|apply transfers_check; [by apply transfers_info|];
    apply transfers_check; [|apply transfers_check; [|by apply transfers_ret]]].
  2: { instantiate (1 := λ st, Some (with_functions (l_functions st ++ selected req SLAVE_REQ_RDB_EXCLUDE_FUNCTIONS functions) st)).
       unfold selected. case_match; [|by apply Hnil, transfers_ret].
       apply transfers_functions; [|..|done]; eapply Forall_impl; try exact Hf; by intros ? []. }
  2: { instantiate (1 := load_dbs 0 (selected req SLAVE_REQ_RDB_EXCLUDE_DATA dbs)).
       unfold selected. case_match; [|by apply transfers_ret].
       apply transfers_dbs; try lia; eapply Forall_impl; try exact He; by intros ? (? & ? & ?). }
  intros st st' E. unfold load_all in E. cbn [mbind option_bind] in *. by rewrite E.
Qed.

Lemma saves_file req flags rsi functions dbs r :
  snapshot_ok rsi functions dbs -> sink_ok r -> cksum r = 0 -> update_cksum r = false ->
  exists n s', rdbSaveRio senv req flags rsi functions dbs (Some r) = Some (n, s') /\
    (n = -1 \/ n = 0 /\ exists r' bs c, s' = Some r' /\ written (io r') = written (io r) ++ rdb_body bs ++ le_bytes 8 c /\
      (c = 0 \/ c = crc64_ref 0 (rdb_body bs)) /\ Forall is_byte bs /\
      forall st st', load_all rsi (selected req SLAVE_REQ_RDB_EXCLUDE_FUNCTIONS functions)
        (selected req SLAVE_REQ_RDB_EXCLUDE_DATA dbs) st = Some st' -> steps bs st st').
Proof.
  intros Hok Hr Hc Hu. destruct (transfers_body req flags rsi functions dbs Hok) as (bs & v & Hv & Hbs & Hsv & Hst).
  set (r0 := if sv_checksum senv then set_update_cksum true (max_processing_chunk r) r else r).
  assert (Hr0 : sink_ok r0 /\ io r0 = io r /\ cksum r0 = 0).
  { unfold r0. destruct (sv_checksum senv); [|done]. by destruct r. }
  destruct Hr0 as (Hr0 & Hio & Hc0).
  assert (E : rdbSaveRio senv req flags rsi functions dbs (Some r) =
    check (rdbWriteRaw magic) (check (rdbSaveInfoAuxFields senv flags rsi)
    (check (if Z.land req SLAVE_REQ_RDB_EXCLUDE_FUNCTIONS =? 0 then rdbSaveFunctions functions else mret 0)
    (check (if Z.land req SLAVE_REQ_RDB_EXCLUDE_DATA =? 0 then save_dbs senv 0 dbs else mret 0)
    (check (rdbSaveType RDB_OPCODE_EOF) (check save_cksum (mret 0)))))) (Some r0)) by done.
  rewrite E. clear E.
  destruct (check_step (rdbWriteRaw magic) (check (rdbSaveInfoAuxFields senv flags rsi)
    (check (if Z.land req SLAVE_REQ_RDB_EXCLUDE_FUNCTIONS =? 0 then rdbSaveFunctions functions else mret 0)
    (check (if Z.land req SLAVE_REQ_RDB_EXCLUDE_DATA =? 0 then save_dbs senv 0 dbs else mret 0)
    (check (rdbSaveType RDB_OPCODE_EOF) (check save_cksum (mret 0)))))) magic 9 r0)
    as [(r1 & W1 & S1 & ->)|(s' & ->)]; [apply (saves_raw magic); by repeat constructor|done|done| |by eexists _, _; split; [|left]].
  rewrite check_assoc.
  destruct (check_step _ (check (rdbSaveType RDB_OPCODE_EOF) (check save_cksum (mret 0))) bs v r1 Hsv Hv S1)
    as [(r2 & W2 & S2 & ->)|(s' & ->)]; [|by eexists _, _; split; [|left]].
  destruct (save_tail r2 S2) as (n & s' & -> & Hn). eexists _, _. split; [done|].
  destruct Hn as [->|(-> & r3 & r4 & W3 & W4 & ->)]; [by left|right]. split; [done|].
  assert (W : wrote r0 (rdb_body bs) r3) by (unfold rdb_body; eapply wrote_app; [done|]; by eapply wrote_app).
  exists r4, bs, (cksum r3). split; [done|]. split.
  { destruct W4 as [-> _], W as [-> _]. by rewrite Hio, <- app_assoc. }
  split; [|done]. destruct W as (_ & _ & _ & _ & _ & ->). rewrite Hc0. destruct (update_cksum r0); auto.
Qed.

(** Loading: the signature, the turns, the end, the checksum. *)
Lemma loads_file fuel i dbs bs c rest st (l : rio R) :
  source_ok l -> cksum l = 0 -> 0 <= loading_process_events_interval_bytes lenv ->
  unread (io l) = rdb_body bs ++ le_bytes 8 c ++ rest -> c = 0 \/ c = crc64_ref 0 (rdb_body bs) ->
  Forall is_byte bs -> steps bs (initial_lstate dbs i) st -> (length bs < fuel)%nat ->
  exists l', rdbLoadRioWithLoadingCtx lenv rdbflags fuel i dbs l = Some (LoadOk st, l') /\ unread (io l') = rest.
Proof.
  intros Hl Hc Hint Hu Hcc Hbs Hst Hf.
  set (l0 := set_update_cksum (ld_checksum lenv) (loading_process_events_interval_bytes lenv) l).
  assert (Hl0 : source_ok l0) by (destruct Hl as (? & ? & [? ?] & ?); split_and!; done).
  assert (Hu0 : unread (io l0) = magic ++ bs ++ [255] ++ le_bytes 8 c ++ rest)
    by (unfold rdb_body in Hu; simpl; rewrite Hu, <- !app_assoc; done).
  destruct (rioRead_app magic _ l0 Hl0 Hu0) as (l1 & E1 & D1 & Hu1).
  destruct (load_loop_steps bs _ _ Hst fuel l1 _ ltac:(apply D1) Hu1 ltac:(lia)) as (fuel' & l2 & E2 & D2 & Hf').
  pose proof (did_read_rest _ _ _ _ D2 Hu1) as Hu2. destruct fuel' as [|fuel']; [lia|].
  destruct (turn_eof st l2 _ ltac:(apply D2) Hu2) as (l3 & E3 & D3).
  pose proof (did_read_rest _ _ _ _ D3 Hu2) as Hu3.
  destruct (rioRead_app (le_bytes 8 c) rest l3 ltac:(apply D3) Hu3) as (l4 & E4 & D4 & Hu4).
  rewrite length_le_bytes in E4. change (Z.of_nat 8) with 8 in E4.
  exists l4. split; [|done]. unfold rdbLoadRioWithLoadingCtx, mbind at 1, ST_bind at 1. fold l0.
  cbn [mbind option_bind]. unfold read_or at 1, mbind at 1, ST_bind at 1.
  change 9 with (Z.of_nat (length magic)). rewrite E1. cbn [mbind option_bind].
  transitivity (load_loop lenv rdbflags fuel RDB_VERSION (initial_lstate dbs i) l1); [done|]. rewrite E2.
  cbn [load_loop]. unfold mbind at 1, ST_bind at 1. rewrite E3. cbn [mbind option_bind].
  unfold load_cksum. cbn [RDB_VERSION Z.geb Z.compare Pos.compare Pos.compare_cont].
  unfold mbind at 1, ST_bind at 1, get. cbn [mbind option_bind].
  unfold read_or, mbind at 1, ST_bind at 1. rewrite E4. cbn [mbind option_bind].
  destruct (ld_checksum lenv && negb (skip_checksum_validation lenv)) eqn:Eck; [|done].
  apply andb_true_iff in Eck as [Eck _].
  pose proof (memrev64ifbe_load (le_bytes 8 c) (length_le_bytes _ _)) as Em.
  destruct (memrev64ifbe (le_bytes 8 c) 0) as [b|] eqn:Eb; [|done].
  apply (inj Some) in Em. unfold lift, mbind at 1, ST_bind at 1. cbn [mbind option_bind]. rewrite Em, le_value_bytes.
  assert (Hbody : Forall is_byte (rdb_body bs)).
  { unfold rdb_body. repeat apply Forall_app_2; [by repeat constructor|done|by repeat constructor]. }
  assert (Hrange : in_u 64 c).
  { destruct Hcc as [->| ->]; [done|]. by apply crc64_ref_range. }
  change (c mod _) with (u64 c). rewrite wrapu_small by done.
  destruct (Z.eqb_spec c 0); [done|]. destruct Hcc as [|Hcc]; [done|].
  assert (Hex : cksum l3 = c).
  { assert (D : did_read l0 (rdb_body bs) l3)
      by (unfold rdb_body; eapply did_read_app; [done|]; by eapply did_read_app).
    destruct D as (_ & (_ & _ & _ & _ & ->) & _). simpl. by rewrite Eck, Hc. }
  by rewrite Hex, Z.eqb_refl.
Qed.

(** C4: what [rdbSaveRio] writes to any stream, when it reports success,
    [rdbLoadRio] accepts from any stream, whatever the two servers' checksum
    settings, and whatever follows the file.  It consumes exactly the file.  The
    databases then hold the keys that were saved, with the values, the expire
    times and the eviction fields they were saved with, less those that have expired
    if the loading server is a master and the file not the preamble of an AOF; the
    libraries are those saved; the replication fields those of the saving
    server.  As many turns of the loop as the file has octets are enough. *)
Theorem rdb_file_roundtrip req saveflags rsi functions dbs (r : rio B) i :
  snapshot_ok rsi functions dbs -> feed_ok -> 0 <= loading_process_events_interval_bytes lenv ->
  sink_ok r -> cksum r = 0 -> update_cksum r = false ->
  exists n s, rdbSaveRio senv req saveflags rsi functions dbs (Some r) = Some (n, s) /\
    (n = -1 \/ n = 0 /\ exists r' file, s = Some r' /\ written (io r') = written (io r) ++ file /\
      forall (l : rio R) rest fuel,
        source_ok l -> cksum l = 0 -> unread (io l) = file ++ rest -> (length file <= fuel)%nat ->
        exists st l', rdbLoadRioWithLoadingCtx lenv rdbflags fuel i (replicate (Z.to_nat (dbnum lenv)) ∅) l = Some (LoadOk st, l') /\
          unread (io l') = rest /\
          l_dbs st = (let saved := db_loaded <$> selected req SLAVE_REQ_RDB_EXCLUDE_DATA dbs in
                      saved ++ replicate (Z.to_nat (dbnum lenv) - length saved) ∅) /\
          l_functions st = selected req SLAVE_REQ_RDB_EXCLUDE_FUNCTIONS functions /\
          l_rsi st = (λ old, match rsi with None => old
                             | Some db => mk_rsi db (Some (replid senv)) (master_repl_offset senv) end) <$> i).
Proof.
  intros Hok Hfeed Hint Hr Hc Hu. destruct (saves_file req saveflags rsi functions dbs r Hok Hr Hc Hu) as (n & s & E & Hn).
  exists n, s. split; [done|]. destruct Hn as [->|(-> & r' & bs & c & -> & Hw & Hcc & Hbs & Hst)]; [by left|right].
  split; [done|]. exists r', (rdb_body bs ++ le_bytes 8 c). split; [done|]. split; [done|].
  intros l rest fuel Hl Hlc Hlu Hf. apply (snapshot_selected _ _ _ req) in Hok as [_ _ Hd He].
  set (dbs' := selected req SLAVE_REQ_RDB_EXCLUDE_DATA dbs) in *. set (fs := selected req SLAVE_REQ_RDB_EXCLUDE_FUNCTIONS functions) in *.
  set (init := initial_lstate (O := O) (replicate (Z.to_nat (dbnum lenv)) ∅) i). set (st1 := info_loaded rsi init).
  destruct (load_dbs_effect dbs' (with_functions (l_functions st1 ++ fs) st1) [] (Z.to_nat (dbnum lenv) - length dbs') Hfeed)
    as (st & Eall & (K1 & K2 & _) & _ & Ldbs); [done| |cbn; f_equal; lia|].
  { eapply Forall_impl; [exact He|]. by intros ? (_ & ? & _). }
  destruct (loads_file fuel i (replicate (Z.to_nat (dbnum lenv)) ∅) bs c rest st l) as (l' & El & Hrest); try done.
  - by rewrite <- app_assoc in Hlu.
  - by apply Hst.
  - unfold rdb_body in Hf. rewrite !length_app in Hf. simpl in Hf. lia.
  - exists st, l'. split; [done|]. split; [done|]. split; [rewrite Ldbs; cbv zeta; by rewrite length_fmap|].
    split; [by rewrite K2|]. by rewrite K1.
Qed.

End Transfer.

(** ** A concrete file *)

Module File.
Import RdbSpec.Concrete.

Definition saver : save_env robj := mk_save_env robj false true false (λ _, 7000) (λ _, 5) 1700000000 1000000
  (replicate 40 97) 4321.

Definition loader : load_env := mk_load_env true false 2097152 16 true 1000 false 100 0 true (λ _, true).

Definition keys : list (list (entry robj)) :=
  [[mk_entry (str "kept") (RawStr (str "value")) (-1); mk_entry (str "old") (IntStr 12345) 5];
   [];
   [mk_entry (str "later") (RawStr (str "77")) 1700000000000]].

Lemma keys_ok : snapshot_ok loader 1000 saver (Some 2) [str "#!lua name=f"] keys.
Proof.
  assert (Hfits : forall s, forallb (λ c, (0 <=? c) && (c <? 256)) s = true -> (length s <= 50)%nat -> fits 1000 s)
    by (intros; apply fits_name; [lia|done..]).
  assert (Hraw : forall k s x, forallb (λ c, (0 <=? c) && (c <? 256)) (str k) = true -> (length (str k) <= 50)%nat ->
    forallb (λ c, (0 <=? c) && (c <? 256)) (str s) = true -> (length (str s) <= 50)%nat -> in_s 64 x ->
    entry_ok 1000 (mk_entry (str k) (RawStr (str s)) x)).
  { intros. split; [by apply Hfits| |done]. exists (str s). destruct (Hfits (str s)) as [? ?]; [done..|].
    split; [|simpl; lia]. split_and!; (done || lia). }
  split.
  - split; [lia|done|done|split; [by apply Hfits; [|vm_compute; lia]|done]|done|by intros db [= <-]].
  - apply Forall_singleton. split; [by apply Hfits; [|vm_compute; lia]|done].
  - vm_compute. split; [congruence|done].
  - repeat apply Forall_cons_2; try apply Forall_nil_2; (split; [|split; [|done]]).
    + repeat apply Forall_cons_2; [by apply Hraw; [|vm_compute; lia|..|vm_compute; lia|]| |done].
      split; [by apply Hfits; [|vm_compute; lia]| |done]. exists (str "12345"). split; [|vm_compute; congruence].
      split; [reflexivity|]. split; [repeat constructor; done|]. split; done.
    + apply (bool_decide_unpack _). reflexivity.
    + done.
    + apply NoDup_nil_2.
    + repeat apply Forall_cons_2; [by apply Hraw; [|vm_compute; lia|..|vm_compute; lia|]|done].
    + apply NoDup_singleton.
Qed.
End File.

Import RdbSpec.Concrete.

Lemma rdb_file_roundtrip_witness :
  exists w st r, rdbSaveRio File.saver 0 0 (Some 2) [str "#!lua name=f"] File.keys (Some (stream [])) = Some (0, Some w) /\
    rdbLoadRioWithLoadingCtx File.loader 0 1000 (Some RDB_SAVE_INFO_INIT) (replicate 16 ∅) (stream (b_ptr (io w) ++ [9])) =
      Some (LoadOk st, r) /\ unread (io r) = [9] /\
    (l_dbs st !! 0%nat ≫= lookup (str "kept")) = Some (mk_lentry (EmbStr (str "value")) None (Some 93)) /\
    (l_dbs st !! 0%nat ≫= lookup (str "old")) = None /\
    (l_dbs st !! 2%nat ≫= lookup (str "later")) = Some (mk_lentry (IntStr 77) (Some 1700000000000) (Some 93)) /\
    l_functions st = [str "#!lua name=f"] /\ l_rsi st = Some (mk_rsi 2 (Some (replicate 40 97)) 4321).
Proof.
  destruct (rdb_file_roundtrip (B := buffer) (R := buffer) File.loader 0 1000 (alloc 1000 eq_refl) File.saver 0 0 (Some 2)
    [str "#!lua name=f"] File.keys (stream []) (Some RDB_SAVE_INFO_INIT)) as (n & s & E & Hn).
  - exact File.keys_ok.
  - by left.
  - vm_compute. congruence.
  - apply stream_sink.
  - reflexivity.
  - reflexivity.
  - destruct Hn as [->|(-> & w & file & -> & Hw & Hload)]; [vm_compute in E; congruence|].
    assert (Hfile : file = b_ptr (io w)) by (symmetry; exact Hw). subst file. exists w.
    destruct (Hload (stream (b_ptr (io w) ++ [9])) [9] 1000%nat) as (st & r & El & Hr & Hdbs & Hfs & Hrsi).
    + vm_compute in E. injection E as E. subst w.
      apply stream_source; [repeat constructor; vm_compute; congruence|vm_compute; congruence].
    + reflexivity.
    + reflexivity.
    + vm_compute in E. injection E as E. subst w. vm_compute. lia.
    + exists st, r. split; [exact E|]. split; [exact El|]. split; [exact Hr|]. rewrite Hdbs, Hfs, Hrsi.
      split; [reflexivity|]. split; [reflexivity|]. split; [reflexivity|]. split; reflexivity.
Defined.
